(* ===== verification/_CoqProject ===== *)
-Q . S2P
Prelude.v
Codec.v
Hash.v
Types.v
Objects.v
Lifecycle.v
Header.v
Target.v
Merkle.v
Storage.v
Journal.v
Settlement.v
Body.v
Payout.v
Snapshot.v
Crypto.v
HandoffObjects.v
Handoff.v
HandoffSafety.v
Share.v
ShareDag.v
Receipts.v
ReceiptSafety.v
Risk.v
RiskExact.v
Committee.v
CommitteeSafety.v
Availability.v
AvailabilitySafety.v
Client.v
Work.v
Planner.v
PlannerSafety.v
Coordinator.v
CoordinatorSafety.v
Gf256.v
Mpc.v
MpcSafety.v
Circuit.v
CircuitSafety.v
Text.v
Oracle.v
OracleSafety.v
Recovery.v
RecoverySafety.v
Bundle.v
Spool.v
LinkDemo.v
SpoolSafety.v
Admission.v
AdmissionSafety.v
