(* ===== verification/Prelude.v ===== *)
(** * MeshMine: a verification library for the Rust mining overlay

    MeshMine coordinates mining of Handshake blocks: operators publish canonical
    protocol objects, committees blind the proof of work with a mask, miners
    submit shares, and settlement turns closed sessions into payout snapshots,
    plans and coinbase outputs. This library translates the core crates (under
    [crates/]) into Rocq functions and proves what makes them correct.

    ** Conventions. A [Result] is the type [result] of this file with [?] as bind.
    An unsigned [w]-bit integer is a [Z]; the width is kept in [uint w] and in
    the checked and saturating operations. [BigUint] is [Z]. Arrays and [Vec<u8>]
    are lists of bytes, with [arr n] for the length. A [BTreeMap] or [HashMap]
    is a [gmap], iterated in key order by sorting; a method that takes [&mut
    self] returns the new state. Cryptographic digests, signatures and the
    hexadecimal crate are parameters (type classes [Digests], [Hex] and so on):
    nothing is assumed of a digest but its output length, and theorems about
    commitments end in "or these two messages collide".

    ** Interference. A client of the store runs among other writers: before each
    of its store calls they may take any steps of a relation on the store. The
    theorems on single operations hold for every such order [R] (equality among
    them, which says what the operation itself does): a failed call leaves [R], a
    successful one is [R] and then exactly one step. Invariants are stated of runs
    of the code's operations whose environment keeps what the runs themselves keep.

    ** Files, in dependency order.
    - [Prelude] (this file): error monad, machine integers, bytes, orders, sums.
    - [Codec] (meshmine-codec): [Encoder], [Decoder], limits, varints; the
      contract [CodecLaws] that every object's codec discharges.
    - [Hash] (meshmine-hns and meshmine-types): digests, [domain_hash], the
      explicit notion of a collision.
    - [Types], [Objects] (meshmine-types): shared types, [UnsignedObject] and
      the protocol objects with their encoders, decoders, validations.
    - [Lifecycle] (state.rs): the share, session, body and payout state machines.
    - [Header], [Target], [Merkle] (meshmine-hns): both header forms and the
      prepared nonce hasher, compact targets and capture parameters, Merkle roots.
    - [Storage], [Journal] (meshmine-storage): the store contract
      [DurableStore]/[DurableStoreLaws] with [MemoryStore] as an instance; the
      protocol journal and signing guard as clients of the contract, with other
      writers interfering between any two store calls.
    - [Settlement] (meshmine-settlement): payment, entropy and canonical-chain
      trackers, alone and driven together.
    - [Body] (meshmine-body): coinbase commitment, output skeleton, body package.
    - [Payout], [Snapshot] (meshmine-settlement): service ledger, ticket
      selection, plans, coinbase payouts; the snapshot accumulator.
    - [Crypto] (meshmine-crypto): signatures and certificates over the class
      [Ed25519].
    - [HandoffObjects], [Handoff], [HandoffSafety] (meshmine-handoff): the objects
      a gateway and a core exchange, the durable handoff operations as journal
      clients, and the transition relation they refine.
    - [Share], [ShareDag], [Receipts], [ReceiptSafety] (meshmine-share): rosters,
      share validation, the share graph, receipt batches, chains and the close of
      a session.
    - [Risk], [RiskExact] (meshmine-committee-risk): exact capture and blocking
      probabilities, the release gate, and the random process they are proved
      against.
    - [Committee], [CommitteeSafety] (meshmine-committee): eligibility snapshots,
      faults, the weighted draw, roster verification, production and rotation.
    - [Availability], [AvailabilitySafety] (meshmine-body, availability.rs):
      erasure-coded bodies over the class [ErasureCode], challenges, admission,
      retention and persistence.
    - [Client]: clients of a store among other writers, and their logic.
    - [Work], [Planner], [PlannerSafety] (meshmine-work): devices, envelopes,
      leases, jobs and captures, the adaptive target, the durable planner.
    - [Coordinator], [CoordinatorSafety] (meshmine-work): the coordinator over
      the classes [MiningBackend] and [CaptureSink].
    - [Gf256], [Mpc], [MpcSafety] (meshmine-mpc-api): secret sharing over GF(2^8),
      the mask sessions of the verifiable-secret-sharing backend as clients of a
      store: set-up, opening, winners, retirement.
    - [Circuit], [CircuitSafety] (mask_hash_circuit.rs): the Boolean circuit of
      the mask hash, its evaluator and its rendering.
    - [Text], [Oracle], [OracleSafety] (meshmine-parent-oracle): UTF-8 and text, the
      exchange with the local node and the qualification of parents, over the
      classes [SerdeJson] and [Tcp].
    - [Recovery], [RecoverySafety] (meshmine-settlement, recovery.rs): sealed
      recovery checkpoints, their durable head and source fence.
    - [Bundle], [Spool], [Admission] (meshmine-core-link): the signed assignment
      bundle, the operator's capture spool and the Core's admission engine, with
      [LinkDemo] (a concrete bundle and capture), [SpoolSafety] and
      [AdmissionSafety].

    ** What the theorems show. Codecs and objects: decoders accept exactly the
    canonical bytes of valid values, identities bind contents. Headers and
    targets: wire forms are exact, the prepared hasher equals the scalar one,
    every block that meets the network target is captured. Store and journal:
    the store refines a two-level map, batches are atomic and write-once among
    concurrent writers, recovery and paging are complete, the guard never
    authorizes two objects for one slot. Settlement: reorganizations undo
    exactly what they should, plans are paid once and in order, selection is
    unbiased and ends, a coinbase conserves value, pruning never changes a
    snapshot, checkpoints restore the identical state, a weight reservation is the
    size of the wire form. Handoff: every operation is one atomic step of its own,
    assignments and captures are numbered without gaps or conflicts, a drain is
    final. Shares and receipts: a share validates exactly when it is linked, signed,
    certified and worth its work; work is accepted once, a chain verifies exactly when it is complete, forks
    convict their signers, honest committees close their sessions. Committees:
    selections are sound, faults exclude, the risk figures are exact
    probabilities, production follows the gate, replacements restore a quorum.
    Bodies: enough shards give the body back and no shards give another one;
    admission keeps exact accounts. Work: concurrent planners never lease one
    range twice, a capture is acknowledged only as valid work its consumer has,
    and every pending one is given to the consumer, once. Masks: any threshold of shares opens a session and fewer
    say nothing about the mask, a retired session stays retired, an opened one
    yields exactly its blocks, and the circuit computes BLAKE2b. Parents: the
    HTTP parser accepts exactly the unambiguous responses, a request cannot be
    injected into, and every accepted certificate was vouched for by the node.
    Recovery: checkpoints are installed in one step each, any run of installations
    extends one chain, and what is loaded is certified, complete and matches the live
    sources. Core link: any run of the spool keeps its numbers and counts exact,
    what is counted before a drain is what has no answer, what the spool signs the
    Core validates but for the network and the oracle, a capture has one final
    answer, and a transition that was interrupted is not resumed.

    ** Bounds and fuel. Decoders recurse on the bytes left; the Merkle loop has
    the number of leaves as fuel, the journal's retry loop the code's own bound,
    and the ticket and committee draws run the code's 2^64 counters by binary
    iteration; each is proved to end with a result. The loop that draws a mask
    has the number of draws as fuel: how many it takes is up to the generator, a
    parameter. Where an operation needs totals to fit a machine word the bound is
    a hypothesis of the theorem.

    ** Not modelled. The redb backends, sockets, processes, GPU kernels, the
    external multiparty-computation engine and the node's JSON-RPC (I/O and
    third-party code); lock poisoning, allocation failure, and spare capacity after
    [shrink_to_fit]; the floating-point
    figures and the Monte Carlo check of the risk tool, which decide nothing. *)

From Stdlib Require Export ZArith.
From Stdlib Require Export Strings.Byte.
From Stdlib Require Import Strings.String.
From stdpp Require Export base gmap list sorting strings tactics numbers relations.


#[global] Open Scope Z_scope.
#[global] Set Default Goal Selector "!".

(** ** The error monad

    Rust's [Result<T, E>], with [?] as the monadic bind. *)

Inductive result (E A : Type) : Type :=
| Ok (a : A)
| Err (e : E).
Arguments Ok {E A} a.
Arguments Err {E A} e.

#[export] Instance result_ret {E} : MRet (result E) := λ A a, Ok a.
#[export] Instance result_bind {E} : MBind (result E) := λ A B f m,
  match m with Ok a => f a | Err e => Err e end.
#[export] Instance result_fmap {E} : FMap (result E) := λ A B f m,
  match m with Ok a => Ok (f a) | Err e => Err e end.

#[export] Instance result_eq_dec {E A} `{EqDecision E, EqDecision A} :
  EqDecision (result E A).
Proof. solve_decision. Defined.

(** [map_err], [ok_or] and the early return [if c { return Err(e) }]. *)
Definition map_err {E E' A} (f : E → E') (m : result E A) : result E' A :=
  match m with Ok a => Ok a | Err e => Err (f e) end.

Definition ok_or {E A} (o : option A) (e : E) : result E A :=
  match o with Some a => Ok a | None => Err e end.

Definition ensure {E} (c : bool) (e : E) : result E unit :=
  if c then Ok tt else Err e.

Definition is_ok {E A} (m : result E A) : bool :=
  match m with Ok _ => true | Err _ => false end.

(** [iter.map(f).collect::<Result<Vec<_>, _>>()]: the first error wins. *)
Fixpoint collect {E A B} (f : A → result E B) (l : list A) : result E (list B) :=
  match l with
  | [] => Ok []
  | x :: l => y ← f x; ys ← collect f l; Ok (y :: ys)
  end.

(** A [for] loop over [l] threading a state and leaving through [?]. *)
Fixpoint fold_result {E A S} (f : S → A → result E S) (s : S) (l : list A) : result E S :=
  match l with
  | [] => Ok s
  | x :: l => s' ← f s x; fold_result f s' l
  end.

Lemma bind_ok {E A B} (m : result E A) (f : A → result E B) b :
  m ≫= f = Ok b ↔ ∃ a, m = Ok a ∧ f a = Ok b.
Proof.
  destruct m; cbn; split.
  - eauto.
  - intros (x & [= ->] & Hb). done.
  - done.
  - intros (x & ? & _). done.
Qed.

Lemma bind_err {E A B} (m : result E A) (f : A → result E B) e :
  m ≫= f = Err e ↔ m = Err e ∨ ∃ a, m = Ok a ∧ f a = Err e.
Proof.
  destruct m; cbn; split.
  - intros H. right. by exists a.
  - intros [?|(x & [= ->] & Hb)]; done.
  - intros [= ->]. auto.
  - intros [[= ->]|(x & ? & _)]; done.
Qed.

Lemma map_err_ok {E E' A} (f : E → E') (m : result E A) a :
  map_err f m = Ok a ↔ m = Ok a.
Proof. destruct m; cbn; naive_solver. Qed.

Lemma ok_or_ok {E A} (o : option A) (e : E) a : ok_or o e = Ok a ↔ o = Some a.
Proof. destruct o; cbn; naive_solver. Qed.

Lemma ensure_ok {E} c (e : E) u : ensure c e = Ok u ↔ c = true.
Proof. destruct c, u; cbn; naive_solver. Qed.

Lemma collect_ok {E A B} (f : A → result E B) l ys :
  collect f l = Ok ys ↔ Forall2 (λ x y, f x = Ok y) l ys.
Proof.
  revert ys. induction l as [|x l IH]; intros ys; cbn.
  - split; [intros [= <-]; constructor | inversion 1; done].
  - rewrite bind_ok. setoid_rewrite bind_ok. setoid_rewrite IH. split.
    + intros (y & Hy & ys' & Hys & [= <-]). by constructor.
    + inversion 1; subst. eauto 6.
Qed.

Lemma collect_err {E A B} (f : A → result E B) l e :
  collect f l = Err e → ∃ x, x ∈ l ∧ f x = Err e.
Proof.
  induction l as [|x l IH]; cbn; [done|]. destruct (f x) as [y|e'] eqn:Hx; cbn.
  - destruct (collect f l) as [ys|e'] eqn:Hl; cbn; [done|]. intros [= ->].
    destruct (IH eq_refl) as (z & Hz & Hfz). exists z. split; [by right | done].
  - intros [= ->]. exists x. split; [left | done].
Qed.

Lemma fold_result_app {E A S} (f : S → A → result E S) s l1 l2 :
  fold_result f s (l1 ++ l2) = fold_result f s l1 ≫= λ s', fold_result f s' l2.
Proof.
  revert s. induction l1 as [|x l1 IH]; intros s; cbn; [done|].
  destruct (f s x); cbn; auto.
Qed.

(** A loop invariant: what holds at the start and is kept by each iteration
    holds at the end. *)
Lemma fold_result_inv {E A S} (f : S → A → result E S) (P : S → Prop) l s s' :
  P s → (∀ x s1 s2, x ∈ l → P s1 → f s1 x = Ok s2 → P s2) →
  fold_result f s l = Ok s' → P s'.
Proof.
  revert s. induction l as [|x l IH]; intros s Hs Hf; cbn.
  - by intros [= <-].
  - rewrite bind_ok. intros (s1 & Hx & Hl).
    apply (IH s1); [|intros y s2 s3 Hy ??|done].
    + apply (Hf x s s1); [left|done..].
    + apply (Hf y s2 s3); [by right|done..].
Qed.

(** Inverts every successful bind of the context. *)
Ltac inv_ok :=
  repeat match goal with
  | H : _ ≫= _ = Ok _ |- _ =>
      apply bind_ok in H; let x := fresh "x" in let Hx := fresh "Hx" in
      destruct H as (x & Hx & H)
  | H : map_err _ _ = Ok _ |- _ => apply map_err_ok in H
  | H : ok_or _ _ = Ok _ |- _ => apply ok_or_ok in H
  | H : ensure _ _ = Ok _ |- _ => apply ensure_ok in H
  | H : Ok _ = Ok _ |- _ => injection H as H
  | H : Err _ = Ok _ |- _ => discriminate H
  | H : Ok _ = Err _ |- _ => discriminate H
  | H : mret _ = Ok _ |- _ => injection H as H
  | H : (if ?c then _ else Err _) = Ok _ |- _ =>
      let E := fresh "E" in destruct c eqn:E; [|discriminate H]
  | H : (if ?c then Err _ else _) = Ok _ |- _ =>
      let E := fresh "E" in destruct c eqn:E; [discriminate H|]
  end.

(** ** Machine integers

    An unsigned [w]-bit integer is a [Z] in [[0, 2^w)]; the operations that
    can leave the range say what happens there. [usize] is 64 bits wide, as on
    the x86-64 targets the workspace releases for. *)

Definition uint (w z : Z) : Prop := 0 ≤ z < 2 ^ w.
#[export] Instance uint_dec w z : Decision (uint w z).
Proof. unfold uint. apply _. Defined.

Definition USIZE : Z := 64.
Definition U64_MAX : Z := 2 ^ 64 - 1.
Definition U32_MAX : Z := 2 ^ 32 - 1.

Definition checked_add (w a b : Z) : option Z :=
  if a + b <? 2 ^ w then Some (a + b) else None.
Definition checked_sub (a b : Z) : option Z :=
  if b <=? a then Some (a - b) else None.
Definition checked_mul (w a b : Z) : option Z :=
  if a * b <? 2 ^ w then Some (a * b) else None.
Definition saturating_add (w a b : Z) : Z := Z.min (a + b) (2 ^ w - 1).
Definition saturating_mul (w a b : Z) : Z := Z.min (a * b) (2 ^ w - 1).
Definition saturating_sub (a b : Z) : Z := Z.max (a - b) 0.
(** [a.div_ceil(b)] *)
Definition div_ceil (a b : Z) : Z := a / b + Z.b2z (0 <? a mod b).

Lemma checked_add_fits w a b : a + b < 2 ^ w → checked_add w a b = Some (a + b).
Proof. intros H. unfold checked_add. by rewrite (proj2 (Z.ltb_lt _ _) H). Qed.
Lemma checked_mul_fits w a b : a * b < 2 ^ w → checked_mul w a b = Some (a * b).
Proof. intros H. unfold checked_mul. by rewrite (proj2 (Z.ltb_lt _ _) H). Qed.
Lemma checked_add_some w a b c : checked_add w a b = Some c ↔ c = a + b ∧ a + b < 2 ^ w.
Proof. unfold checked_add. destruct (Z.ltb_spec (a + b) (2 ^ w)); split; intros; naive_solver lia. Qed.

Lemma lxor_range w x y : 0 ≤ w → uint w x → uint w y → uint w (Z.lxor x y).
Proof.
  unfold uint. intros Hw Hx Hy. assert (0 ≤ Z.lxor x y) by (apply Z.lxor_nonneg; lia).
  split; [done|]. apply Z.bounded_iff_bits_nonneg; [done..|]. intros l Hl.
  rewrite Z.lxor_spec.
  rewrite (proj1 (Z.bounded_iff_bits_nonneg w x Hw (proj1 Hx)) (proj2 Hx) l Hl).
  by rewrite (proj1 (Z.bounded_iff_bits_nonneg w y Hw (proj1 Hy)) (proj2 Hy) l Hl).
Qed.

(** Joining a high part shifted by [k] and a low part of [k] bits. *)
Lemma land_shiftl_small k a b : 0 ≤ k → uint k b → Z.land (Z.shiftl a k) b = 0.
Proof.
  unfold uint. intros Hk Hb. apply Z.bits_inj'. intros n Hn.
  rewrite Z.land_spec, Z.bits_0, Z.shiftl_spec by done.
  destruct (Z.lt_ge_cases n k).
  - by rewrite Z.testbit_neg_r by lia.
  - rewrite (proj1 (Z.bounded_iff_bits_nonneg k b Hk (proj1 Hb)) (proj2 Hb) n) by done.
    apply andb_false_r.
Qed.
Lemma lor_shiftl_small k a b : 0 ≤ k → uint k b → Z.lor (Z.shiftl a k) b = a * 2 ^ k + b.
Proof.
  intros Hk Hb. rewrite <- Z.shiftl_mul_pow2 by done.
  rewrite Z.add_nocarry_lxor, Z.lxor_lor by (by apply land_shiftl_small). done.
Qed.
Lemma lxor_join k a b c d :
  0 ≤ k → uint k b → uint k d →
  Z.lxor (a * 2 ^ k + b) (c * 2 ^ k + d) = Z.lxor a c * 2 ^ k + Z.lxor b d.
Proof.
  intros Hk Hb Hd. rewrite <- !Z.shiftl_mul_pow2 by done.
  rewrite !Z.add_nocarry_lxor by (apply land_shiftl_small; [done|]; auto using lxor_range).
  rewrite Z.shiftl_lxor, !Z.lxor_assoc. f_equal. rewrite <- !Z.lxor_assoc. f_equal.
  apply Z.lxor_comm.
Qed.

(** [v.len()] *)
Definition len {A} (l : list A) : Z := Z.of_nat (length l).

Lemma len_app {A} (l1 l2 : list A) : len (l1 ++ l2) = len l1 + len l2.
Proof. unfold len. rewrite length_app. lia. Qed.
Lemma len_cons {A} (x : A) l : len (x :: l) = len l + 1.
Proof. unfold len. cbn [length]. lia. Qed.
Lemma len_nonneg {A} (l : list A) : 0 ≤ len l.
Proof. unfold len. lia. Qed.
Lemma len_nil {A} : len (@nil A) = 0.
Proof. done. Qed.
Lemma len_fmap {A B} (f : A → B) l : len (f <$> l) = len l.
Proof. unfold len. by rewrite length_fmap. Qed.
Lemma len_0 {A} (l : list A) : len l = 0 ↔ l = [].
Proof. destruct l; unfold len; cbn [length]; split; first [done|lia]. Qed.

Create Rewrite HintDb len.
#[export] Hint Rewrite @len_app @len_cons @len_nil @len_fmap : len.

(** [iter.sum()] over unbounded integers. *)
Definition sumZ (l : list Z) : Z := foldr Z.add 0 l.

Lemma sumZ_app l1 l2 : sumZ (l1 ++ l2) = sumZ l1 + sumZ l2.
Proof. induction l1 as [|x l1 IH]; cbn; [done|]. unfold sumZ in *. lia. Qed.
Lemma sumZ_cons x l : sumZ (x :: l) = x + sumZ l.
Proof. done. Qed.
Lemma sumZ_nonneg l : Forall (Z.le 0) l → 0 ≤ sumZ l.
Proof. induction 1 as [|x l Hx _ IH]; [done|]. rewrite sumZ_cons. lia. Qed.
#[export] Instance sumZ_perm : Proper ((≡ₚ) ==> (=)) sumZ.
Proof. induction 1; rewrite ?sumZ_cons; lia. Qed.
Lemma sumZ_replicate n x : sumZ (replicate n x) = Z.of_nat n * x.
Proof. induction n as [|n IH]; [done|]. cbn [replicate]. rewrite sumZ_cons, IH. lia. Qed.

(** The sum of a quantity over the values of a map. *)
Definition map_sum `{Countable K} {A} (f : A → Z) (m : gmap K A) : Z :=
  sumZ ((λ e, f e.2) <$> map_to_list m).

Section map_sum.
Context `{Countable K} {A} (f : A → Z).
Implicit Types m : gmap K A.

Lemma map_sum_insert_new m k x : m !! k = None → map_sum f (<[k := x]> m) = f x + map_sum f m.
Proof. intros Hk. unfold map_sum. by rewrite map_to_list_insert by done. Qed.
Lemma map_sum_delete m k x : m !! k = Some x → map_sum f m = f x + map_sum f (delete k m).
Proof.
  intros Hk. rewrite <- (insert_delete_id m k x Hk) at 1. apply map_sum_insert_new, lookup_delete_eq.
Qed.
Lemma map_sum_insert_old m k x y :
  m !! k = Some x → map_sum f (<[k := y]> m) = map_sum f m + f y - f x.
Proof.
  intros Hk. rewrite (map_sum_delete m k x Hk), <- insert_delete_eq.
  rewrite map_sum_insert_new by apply lookup_delete_eq. lia.
Qed.
Lemma map_sum_empty : map_sum f (∅ : gmap K A) = 0.
Proof. unfold map_sum. by rewrite map_to_list_empty. Qed.
End map_sum.

(** [v.windows(2).any(|p| bad(p[0], p[1]))] *)
Fixpoint windows2_any {A} (bad : A → A → bool) (l : list A) : bool :=
  match l with
  | x :: (y :: _) as l' => bad x y || windows2_any bad l'
  | _ => false
  end.

Lemma windows2_any_false {A} (bad : A → A → bool) l :
  windows2_any bad l = false ↔ Sorted (λ x y, bad x y = false) l.
Proof.
  induction l as [|x l IH]; [split; [constructor|done]|].
  destruct l as [|y l].
  - split; [repeat constructor|done].
  - change (windows2_any bad (x :: y :: l)) with (bad x y || windows2_any bad (y :: l)).
    rewrite orb_false_iff, IH. split.
    + intros [? ?]. constructor; [done|]. by constructor.
    + inversion 1 as [|?? Hs Hr]; subst. inversion Hr; subst. done.
Qed.

Lemma Sorted_iff {A} (R S : relation A) l : (∀ x y, R x y ↔ S x y) → Sorted R l ↔ Sorted S l.
Proof.
  intros H. split; induction 1 as [|x l _ IH Hx]; constructor; try done;
    destruct Hx; constructor; by apply H.
Qed.

(** ** Bytes *)

Abbreviation bytes := (list byte).

#[export] Instance byte_eq_dec : EqDecision byte := Byte.byte_eq_dec.
#[export] Instance byte_countable : Countable byte.
Proof.
  refine (inj_countable Byte.to_N Byte.of_N _). apply Byte.of_to_N.
Defined.

Definition b2z (b : byte) : Z := Z.of_N (Byte.to_N b).
(** [z as u8] *)
Definition z2b (z : Z) : byte :=
  match Byte.of_N (Z.to_N (z mod 256)) with Some b => b | None => x00 end.

Lemma b2z_range b : 0 ≤ b2z b < 256.
Proof. unfold b2z. pose proof (Byte.to_N_bounded b). lia. Qed.

Lemma b2z_z2b z : b2z (z2b z) = z mod 256.
Proof.
  unfold b2z, z2b. pose proof (Z.mod_pos_bound z 256 ltac:(lia)).
  destruct (Byte.of_N _) as [b|] eqn:E.
  - apply Byte.to_of_N in E. rewrite E. lia.
  - apply Byte.of_N_None_iff in E. lia.
Qed.

Lemma z2b_b2z b : z2b (b2z b) = b.
Proof.
  unfold z2b. rewrite Z.mod_small by apply b2z_range.
  unfold b2z. rewrite N2Z.id, Byte.of_to_N. done.
Qed.

Lemma b2z_inj b1 b2 : b2z b1 = b2z b2 → b1 = b2.
Proof. intros H. by rewrite <- (z2b_b2z b1), <- (z2b_b2z b2), H. Qed.

Lemma z2b_inj z1 z2 : uint 8 z1 → uint 8 z2 → z2b z1 = z2b z2 → z1 = z2.
Proof.
  unfold uint. intros H1 H2 H%(f_equal b2z). rewrite !b2z_z2b in H.
  rewrite !Z.mod_small in H by lia. done.
Qed.

(** [to_le_bytes] and [from_le_bytes] of an [n]-byte integer. *)
Fixpoint to_le (n : nat) (z : Z) : bytes :=
  match n with
  | O => []
  | S n => z2b z :: to_le n (z / 256)
  end.

Fixpoint of_le (bs : bytes) : Z :=
  match bs with
  | [] => 0
  | b :: bs => b2z b + 256 * of_le bs
  end.

Definition to_be (n : nat) (z : Z) : bytes := reverse (to_le n z).
(** [BigUint::from_bytes_be], [u32::from_be_bytes] *)
Definition of_be (bs : bytes) : Z := of_le (reverse bs).

Lemma to_le_length n z : length (to_le n z) = n.
Proof. revert z. induction n as [|n IH]; intros z; cbn; [done|]. by rewrite IH. Qed.

Lemma of_le_range bs : 0 ≤ of_le bs < 256 ^ len bs.
Proof.
  induction bs as [|b bs IH]; cbn [of_le]; [unfold len; cbn; lia|].
  rewrite len_cons, Z.pow_add_r by (first [apply len_nonneg|lia]).
  pose proof (b2z_range b). lia.
Qed.

Lemma of_to_le n z : 0 ≤ z < 256 ^ Z.of_nat n → of_le (to_le n z) = z.
Proof.
  revert z. induction n as [|n IH]; intros z Hz; cbn [to_le of_le].
  - cbn in Hz. lia.
  - rewrite Nat2Z.inj_succ, Z.pow_succ_r in Hz by lia.
    rewrite IH, b2z_z2b
      by (split; [apply Z.div_pos|apply Z.div_lt_upper_bound]; lia).
    pose proof (Z.div_mod z 256). lia.
Qed.

Lemma to_of_le bs : to_le (length bs) (of_le bs) = bs.
Proof.
  induction bs as [|b bs IH]; cbn [length to_le of_le]; [done|].
  pose proof (b2z_range b). f_equal.
  - apply b2z_inj. rewrite b2z_z2b. symmetry.
    apply Z.mod_unique with (of_le bs); lia.
  - replace ((b2z b + 256 * of_le bs) / 256) with (of_le bs); [done|].
    apply Z.div_unique with (b2z b); lia.
Qed.

Lemma to_be_length n z : length (to_be n z) = n.
Proof. unfold to_be. by rewrite length_reverse, to_le_length. Qed.

Lemma of_be_range bs : 0 ≤ of_be bs < 256 ^ len bs.
Proof.
  unfold of_be. pose proof (of_le_range (reverse bs)) as H.
  unfold len in *. by rewrite length_reverse in H.
Qed.

Lemma of_to_be n z : 0 ≤ z < 256 ^ Z.of_nat n → of_be (to_be n z) = z.
Proof. intros H. unfold of_be, to_be. by rewrite reverse_involutive, of_to_le. Qed.

Lemma to_of_be bs : to_be (length bs) (of_be bs) = bs.
Proof.
  unfold to_be, of_be. rewrite <- (length_reverse bs), to_of_le.
  apply reverse_involutive.
Qed.

Lemma of_be_inj bs1 bs2 : length bs1 = length bs2 → of_be bs1 = of_be bs2 → bs1 = bs2.
Proof. intros Hl H. by rewrite <- (to_of_be bs1), <- (to_of_be bs2), Hl, H. Qed.

Lemma of_be_cons b bs : of_be (b :: bs) = b2z b * 256 ^ len bs + of_be bs.
Proof.
  unfold of_be. rewrite reverse_cons.
  assert (∀ l c, of_le (l ++ [c]) = of_le l + b2z c * 256 ^ len l) as Hsnoc.
  { intros l c. induction l as [|x l IH]; cbn [of_le app].
    - unfold len. cbn. lia.
    - rewrite IH, len_cons, Z.pow_add_r by (first [apply len_nonneg|lia]). lia. }
  rewrite Hsnoc. unfold len. rewrite length_reverse. lia.
Qed.

Lemma pow256 n : 256 ^ Z.of_nat n = 2 ^ (8 * Z.of_nat n).
Proof. change 256 with (2 ^ 8). rewrite <- Z.pow_mul_r; lia. Qed.

(** Rust compares byte slices and arrays (and strings, which are their UTF-8
    bytes) lexicographically. *)
Fixpoint bytes_cmp (l1 l2 : bytes) : comparison :=
  match l1, l2 with
  | [], [] => Eq
  | [], _ :: _ => Lt
  | _ :: _, [] => Gt
  | x :: l1, y :: l2 =>
      match b2z x ?= b2z y with Eq => bytes_cmp l1 l2 | c => c end
  end.

Definition bytes_ltb (l1 l2 : bytes) : bool :=
  match bytes_cmp l1 l2 with Lt => true | _ => false end.
Definition bytes_leb (l1 l2 : bytes) : bool :=
  match bytes_cmp l1 l2 with Gt => false | _ => true end.
Definition bytes_lt (l1 l2 : bytes) : Prop := bytes_cmp l1 l2 = Lt.
Definition bytes_le (l1 l2 : bytes) : Prop := bytes_cmp l1 l2 ≠ Gt.

#[export] Instance bytes_lt_dec : RelDecision bytes_lt.
Proof. intros x y. unfold bytes_lt. solve_decision. Defined.
#[export] Instance bytes_le_dec : RelDecision bytes_le.
Proof. intros x y. unfold bytes_le. solve_decision. Defined.

Lemma bytes_ltb_spec x y : bytes_ltb x y = true ↔ bytes_lt x y.
Proof. unfold bytes_ltb, bytes_lt. by destruct (bytes_cmp x y). Qed.
Lemma bytes_leb_spec x y : bytes_leb x y = true ↔ bytes_le x y.
Proof. unfold bytes_leb, bytes_le. by destruct (bytes_cmp x y). Qed.

Lemma bytes_cmp_eq x y : bytes_cmp x y = Eq ↔ x = y.
Proof.
  revert y. induction x as [|b x IH]; intros [|c y]; cbn; try done.
  destruct (Z.compare_spec (b2z b) (b2z c)) as [E|E|E].
  - apply b2z_inj in E as ->. rewrite IH. naive_solver.
  - split; [done|]. intros [= -> ->]. lia.
  - split; [done|]. intros [= -> ->]. lia.
Qed.

Lemma bytes_cmp_antisym x y : bytes_cmp y x = CompOpp (bytes_cmp x y).
Proof.
  revert y. induction x as [|b x IH]; intros [|c y]; cbn; try done.
  rewrite (Z.compare_antisym (b2z b) (b2z c)).
  destruct (b2z b ?= b2z c); cbn; auto.
Qed.

#[export] Instance bytes_lt_trans : Transitive bytes_lt.
Proof.
  unfold bytes_lt. intros x. induction x as [|b x IH]; intros [|c y] [|d z]; cbn; try done.
  destruct (Z.compare_spec (b2z b) (b2z c)), (Z.compare_spec (b2z c) (b2z d)),
    (Z.compare_spec (b2z b) (b2z d)); try done; try lia. apply IH.
Qed.

#[export] Instance bytes_lt_irrefl : Irreflexive bytes_lt.
Proof. intros x Hx. unfold bytes_lt in Hx. by rewrite (proj2 (bytes_cmp_eq x x)) in Hx. Qed.

Lemma bytes_le_lt x y : bytes_le x y ↔ bytes_lt x y ∨ x = y.
Proof.
  rewrite <- bytes_cmp_eq. unfold bytes_le, bytes_lt.
  destruct (bytes_cmp x y); naive_solver.
Qed.

Lemma bytes_not_lt x y : ¬ bytes_lt x y ↔ bytes_le y x.
Proof.
  unfold bytes_le, bytes_lt. rewrite (bytes_cmp_antisym x y).
  destruct (bytes_cmp x y); cbn; naive_solver.
Qed.

Lemma bytes_ltb_false x y : bytes_ltb x y = false ↔ bytes_le y x.
Proof. rewrite <- bytes_not_lt, <- bytes_ltb_spec. by destruct (bytes_ltb x y). Qed.
Lemma bytes_leb_false x y : bytes_leb x y = false ↔ bytes_lt y x.
Proof.
  unfold bytes_leb, bytes_lt. rewrite (bytes_cmp_antisym x y).
  by destruct (bytes_cmp x y).
Qed.

#[export] Instance bytes_le_trans : Transitive bytes_le.
Proof.
  intros x y z. rewrite !bytes_le_lt. intros [?| ->] [?| ->]; auto.
  left. by transitivity y.
Qed.
#[export] Instance bytes_le_total : Total bytes_le.
Proof. intros x y. destruct (decide (bytes_lt x y)) as [?|H]; [left|right].
  - apply bytes_le_lt. auto.
  - by apply bytes_not_lt.
Qed.
#[export] Instance bytes_le_antisymm : AntiSymm (=) bytes_le.
Proof.
  intros x y. rewrite !bytes_le_lt. intros [H1|?] [H2|?]; try done.
  destruct (bytes_lt_irrefl x). by transitivity y.
Qed.

(** On arrays of one length the lexicographic order is the numeric order of
    the big-endian integers they hold; [U256] and [U512] rely on it. *)
Lemma bytes_cmp_of_be x y : length x = length y → bytes_cmp x y = (of_be x ?= of_be y).
Proof.
  revert y. induction x as [|b x IH]; intros [|c y] Hl; cbn in Hl; try done.
  injection Hl as Hl. cbn [bytes_cmp]. rewrite !of_be_cons.
  pose proof (of_be_range x) as Hx. pose proof (of_be_range y) as Hy.
  assert (len x = len y) as E by (unfold len; lia). rewrite E in *.
  destruct (Z.compare_spec (b2z b) (b2z c)) as [Eb|Eb|Eb].
  - rewrite Eb, IH by done. symmetry. apply Zcompare_plus_compat.
  - symmetry. apply Z.compare_lt_iff. nia.
  - symmetry. apply Z.compare_gt_iff. nia.
Qed.

Lemma bytes_lt_of_be x y : length x = length y → bytes_lt x y ↔ of_be x < of_be y.
Proof. intros H. unfold bytes_lt. rewrite bytes_cmp_of_be by done. apply Z.compare_lt_iff. Qed.
Lemma bytes_le_of_be x y : length x = length y → bytes_le x y ↔ of_be x ≤ of_be y.
Proof. intros H. unfold bytes_le. rewrite bytes_cmp_of_be by done. apply Z.compare_le_iff. Qed.

(** A strictly sorted list has no duplicates, and is determined by its
    elements. *)
Lemma Sorted_lt_NoDup (l : list bytes) : Sorted bytes_lt l → NoDup l.
Proof.
  intros H%(Sorted_StronglySorted _). induction H as [|x l _ IH Hx]; constructor; [|done].
  intros Hin. rewrite Forall_forall in Hx. by apply (bytes_lt_irrefl x), Hx.
Qed.

(** [Vec::dedup]: of equal neighbours one is kept. *)
Fixpoint dedup (l : list bytes) : list bytes :=
  match l with
  | x :: (y :: _) as l' => if bool_decide (x = y) then dedup l' else x :: dedup l'
  | _ => l
  end.

Lemma dedup_cons x y l : dedup (x :: y :: l) = if bool_decide (x = y) then dedup (y :: l) else x :: dedup (y :: l).
Proof. done. Qed.

(** Sorting and deduplicating lists every element once, in increasing order. *)
Lemma dedup_sorted l :
  Sorted bytes_le l →
  Sorted bytes_lt (dedup l) ∧ (∀ x, x ∈ dedup l ↔ x ∈ l) ∧ head (dedup l) = head l.
Proof.
  induction 1 as [|x l Hl IH Hx]; [split_and!; [constructor|done|done]|].
  destruct l as [|y l]; [split_and!; [repeat constructor|done|done]|].
  rewrite dedup_cons. destruct IH as (Hs & Hin & Hh). case_bool_decide as Exy.
  - subst y. split_and!; [done| |done]. intros z. rewrite Hin. set_solver.
  - split_and!; [|intros z; rewrite !elem_of_cons, Hin; set_solver|done].
    constructor; [done|]. inversion Hx as [|?? Hle]; subst.
    apply bytes_le_lt in Hle as [Hlt|?]; [|done].
    destruct (dedup (y :: l)) as [|z d]; [constructor|]. injection Hh as ->. by constructor.
Qed.

(** A string literal as its UTF-8 bytes. *)
Definition str (s : string) : bytes := list_byte_of_string s.
