(* ===== verification/Codec.v ===== *)
(** * The canonical binary codec ([crates/meshmine-codec/src/lib.rs])

    The append-only [Encoder], the bounded [Decoder] with its offset and
    limits, and the two traits [CanonicalEncode] / [CanonicalDecode] as one
    class with the laws every MeshMine object is shown to satisfy: decoding
    inverts encoding, and a successful decode consumed exactly the canonical
    bytes of the value it returns. *)

From S2P Require Import Prelude.

(** ** Limits and errors *)

Definition DEFAULT_MAX_BYTES : Z := 4 * 1024 * 1024.
Definition DEFAULT_MAX_ITEMS : Z := 100000.

Record DecodeLimits := mkDecodeLimits {
  max_object_bytes : Z;
  max_vector_items : Z;
}.

Definition DecodeLimits_default : DecodeLimits := {|
  max_object_bytes := DEFAULT_MAX_BYTES;
  max_vector_items := DEFAULT_MAX_ITEMS;
|}.

Inductive CodecError :=
| ObjectTooLarge (actual maximum : Z)
| UnexpectedEof (offset needed : Z)
| NonCanonicalVarint
| VarintOverflow
| LengthLimit (actual maximum : Z)
| InvalidOption (tag : Z)
| TrailingBytes (remaining : Z)
| InvalidField (why : string).

#[export] Instance CodecError_eq_dec : EqDecision CodecError.
Proof. solve_decision. Defined.

(** ** The encoder

    The encoder's state is the buffer; a method maps the buffer to the new
    buffer, and [>>>] runs two methods one after the other. *)

Abbreviation Encoder := bytes.
Definition Writer : Type := Encoder → Encoder.

Definition wseq (w1 w2 : Writer) : Writer := λ e, w2 (w1 e).
Declare Scope writer_scope.
Delimit Scope writer_scope with writer.
#[global] Open Scope writer_scope.
Notation "w1 '>>>' w2" := (wseq w1 w2) (at level 65, right associativity) : writer_scope.

(** The bytes an encoding run on a fresh encoder produces ([into_bytes]). *)
Definition into_bytes (w : Writer) : bytes := w [].

Definition enc_u8 (value : Z) : Writer := λ e, e ++ [z2b value].
Definition enc_u16 (value : Z) : Writer := λ e, e ++ to_le 2 value.
Definition enc_u32 (value : Z) : Writer := λ e, e ++ to_le 4 value.
Definition enc_u64 (value : Z) : Writer := λ e, e ++ to_le 8 value.
Definition enc_fixed (value : bytes) : Writer := λ e, e ++ value.

(** One pass of the loop emits seven bits; a [u64] has at most ten groups, so
    ten units of fuel always reach the [break]. *)
Fixpoint enc_varint_loop (fuel : nat) (value : Z) : Writer := λ e,
  match fuel with
  | O => e
  | S fuel =>
      let byte := Z.land value 127 in
      let value := Z.shiftr value 7 in
      let byte := if value =? 0 then byte else Z.lor byte 128 in
      let e := enc_u8 byte e in
      if value =? 0 then e else enc_varint_loop fuel value e
  end.
Definition enc_varint (value : Z) : Writer := enc_varint_loop 10 value.

Definition enc_bytes (value : bytes) : Writer :=
  enc_varint (len value) >>> enc_fixed value.

(** [for x in l { f(x) }] over an encoder. *)
Fixpoint enc_each {A} (f : A → Writer) (l : list A) : Writer := λ e,
  match l with
  | [] => e
  | x :: l => enc_each f l (f x e)
  end.

(** ** The decoder *)

Record Decoder := mkDecoder {
  dec_bytes : bytes;
  dec_offset : Z;
  dec_limits : DecodeLimits;
}.

Definition parser (A : Type) : Type := Decoder → result CodecError (A * Decoder).

#[export] Instance parser_ret : MRet parser := λ A a d, Ok (a, d).
#[export] Instance parser_bind : MBind parser := λ A B f p d,
  match p d with Ok (a, d') => f a d' | Err e => Err e end.

Definition pfail {A} (e : CodecError) : parser A := λ _, Err e.
(** Lift a check on the value decoded so far. *)
Definition plift {A} (m : result CodecError A) : parser A := λ d,
  match m with Ok a => Ok (a, d) | Err e => Err e end.

Definition Decoder_new (bs : bytes) (limits : DecodeLimits) : result CodecError Decoder :=
  if limits.(max_object_bytes) <? len bs
  then Err (ObjectTooLarge (len bs) limits.(max_object_bytes))
  else Ok (mkDecoder bs 0 limits).

(** [&bytes[from..to]] *)
Definition slice (bs : bytes) (from to : Z) : bytes :=
  take (Z.to_nat (to - from)) (drop (Z.to_nat from) bs).

Definition dec_take (length : Z) : parser bytes := λ d,
  match checked_add USIZE d.(dec_offset) length with
  | None => Err (UnexpectedEof d.(dec_offset) length)
  | Some stop =>
      if len d.(dec_bytes) <? stop
      then Err (UnexpectedEof d.(dec_offset) (stop - len d.(dec_bytes)))
      else Ok (slice d.(dec_bytes) d.(dec_offset) stop,
               mkDecoder d.(dec_bytes) stop d.(dec_limits))
  end.

Definition dec_array (n : nat) : parser bytes := dec_take (Z.of_nat n).
Definition dec_u8 : parser Z := bs ← dec_take 1; mret (of_le bs).
Definition dec_u16 : parser Z := bs ← dec_array 2; mret (of_le bs).
Definition dec_u32 : parser Z := bs ← dec_array 4; mret (of_le bs).
Definition dec_u64 : parser Z := bs ← dec_array 8; mret (of_le bs).

(** [for index in 0..10], [n] being the passes left. *)
Fixpoint dec_varint_loop (n : nat) (value : Z) : parser Z :=
  match n with
  | O => pfail VarintOverflow
  | S m =>
      let index := 10 - Z.of_nat n in
      byte ← dec_u8;
      let payload := Z.land byte 127 in
      if (index =? 9) && ((1 <? payload) || negb (Z.land byte 128 =? 0))
      then pfail VarintOverflow
      else
        let value := Z.lor value (Z.shiftl payload (index * 7) mod 2 ^ 64) in
        if Z.land byte 128 =? 0
        then if (0 <? index) && (payload =? 0)
             then pfail NonCanonicalVarint
             else mret value
        else dec_varint_loop m value
  end.
Definition dec_varint : parser Z := dec_varint_loop 10 0.

(** [self.limits] *)
Definition dec_get_limits : parser DecodeLimits := λ d, Ok (d.(dec_limits), d).

(** [usize::try_from] of a [u64] never fails on a 64-bit target. *)
Definition dec_length (maximum : Z) : parser Z :=
  value ← dec_varint;
  limits ← dec_get_limits;
  if (maximum <? value) || (limits.(max_vector_items) <? value)
  then pfail (LengthLimit value (Z.min maximum limits.(max_vector_items)))
  else mret value.

Definition dec_fixed_bytes (length maximum : Z) : parser bytes :=
  limits ← dec_get_limits;
  if (maximum <? length) || (limits.(max_object_bytes) <? length)
  then pfail (LengthLimit length (Z.min maximum limits.(max_object_bytes)))
  else dec_take length.

Definition dec_bytes_max (maximum : Z) : parser bytes :=
  length ← dec_varint; dec_fixed_bytes length maximum.

Definition dec_option {A} (p : parser A) : parser (option A) :=
  tag ← dec_u8;
  if tag =? 0 then mret None
  else if tag =? 1 then x ← p; mret (Some x)
  else pfail (InvalidOption tag).

(** [(0..count).map(|_| p(decoder)).collect::<Result<Vec<_>, _>>()] *)
Fixpoint dec_repeat {A} (n : nat) (p : parser A) : parser (list A) :=
  match n with
  | O => mret []
  | S n => x ← p; l ← dec_repeat n p; mret (x :: l)
  end.

Definition dec_remaining (d : Decoder) : Z := len d.(dec_bytes) - d.(dec_offset).

Definition dec_finish (d : Decoder) : result CodecError unit :=
  if dec_remaining d =? 0 then Ok tt else Err (TrailingBytes (dec_remaining d)).

(** ** The traits *)

Class Codec (A : Type) := {
  encode : A → Writer;
  decode : parser A;
}.

Definition to_canonical_bytes `{Codec A} (x : A) : bytes := into_bytes (encode x).

Definition from_canonical_bytes `{Codec A} (bs : bytes) (limits : DecodeLimits) :
    result CodecError A :=
  d ← Decoder_new bs limits;
  '(value, d) ← decode d;
  _ ← dec_finish d;
  Ok value.

(** ** Reasoning about encoders: every writer appends *)

Class Appends (w : Writer) : Prop := appends e : w e = e ++ w [].

#[export] Instance enc_u8_appends v : Appends (enc_u8 v).
Proof. by intros e. Qed.
#[export] Instance enc_u16_appends v : Appends (enc_u16 v).
Proof. by intros e. Qed.
#[export] Instance enc_u32_appends v : Appends (enc_u32 v).
Proof. by intros e. Qed.
#[export] Instance enc_u64_appends v : Appends (enc_u64 v).
Proof. by intros e. Qed.
#[export] Instance enc_fixed_appends v : Appends (enc_fixed v).
Proof. by intros e. Qed.
#[export] Instance id_appends : Appends (λ e, e).
Proof. intros e. by rewrite app_nil_r. Qed.

#[export] Instance wseq_appends w1 w2 : Appends w1 → Appends w2 → Appends (w1 >>> w2).
Proof.
  intros H1 H2 e. unfold wseq. rewrite (H2 (w1 e)), (H1 e), (H2 (w1 [])). by rewrite app_assoc.
Qed.

#[export] Instance enc_varint_loop_appends n v : Appends (enc_varint_loop n v).
Proof.
  revert v. induction n as [|n IH]; intros v e; cbn [enc_varint_loop];
    [by rewrite app_nil_r|].
  case_match; [done|]. rewrite (IH _ (enc_u8 _ e)), (IH _ (enc_u8 _ [])).
  unfold enc_u8. by rewrite <- !app_assoc.
Qed.
#[export] Instance enc_varint_appends v : Appends (enc_varint v).
Proof. apply enc_varint_loop_appends. Qed.
#[export] Instance enc_bytes_appends v : Appends (enc_bytes v).
Proof. apply _. Qed.
#[export] Instance enc_each_appends {A} (f : A → Writer) l :
  (∀ x, Appends (f x)) → Appends (enc_each f l).
Proof.
  intros Hf. induction l as [|x l IH]; intros e; cbn; [by rewrite app_nil_r|].
  rewrite (IH (f x e)), (IH (f x [])), (Hf x e). by rewrite app_assoc.
Qed.

#[global] Typeclasses Opaque enc_u8 enc_u16 enc_u32 enc_u64 enc_fixed enc_varint_loop enc_varint
  enc_bytes enc_each wseq.

Lemma wseq_nil w1 w2 `{!Appends w2} : (w1 >>> w2) [] = w1 [] ++ w2 [].
Proof. unfold wseq. apply appends. Qed.
Lemma enc_each_cons {A} (f : A → Writer) x l `{!∀ x, Appends (f x)} :
  enc_each f (x :: l) [] = f x [] ++ enc_each f l [].
Proof. cbn. apply appends. Qed.

(** ** Reasoning about decoders

    A decoder is at the boundary between what it has read and what is left. *)

Definition at_pos (limits : DecodeLimits) (pre rest : bytes) : Decoder :=
  mkDecoder (pre ++ rest) (len pre) limits.

(** [reads p w x]: on input starting with the bytes [w] writes, [p] returns
    [x] and stops right behind them. *)
Definition reads {A} (limits : DecodeLimits) (p : parser A) (w : Writer) (x : A) : Prop :=
  ∀ pre rest, len (pre ++ w [] ++ rest) < 2 ^ 64 →
    p (at_pos limits pre (w [] ++ rest)) = Ok (x, at_pos limits (pre ++ w []) rest).

(** [accepts p Q]: whatever [p] returns, it returns after consuming a prefix
    related to it by [Q]. *)
Definition accepts {A} (limits : DecodeLimits) (p : parser A) (Q : A → bytes → Prop) : Prop :=
  ∀ pre rest x d', len (pre ++ rest) < 2 ^ 64 →
    p (at_pos limits pre rest) = Ok (x, d') →
    ∃ bs rest', rest = bs ++ rest' ∧ d' = at_pos limits (pre ++ bs) rest' ∧ Q x bs.

Lemma reads_ret {A} limits (x : A) : reads limits (mret x) (λ e, e) x.
Proof. intros pre rest _. cbn. by rewrite app_nil_r. Qed.

Lemma reads_bind {A B} limits (p : parser A) (k : A → parser B) w1 w2 x y `{!Appends w2} :
  reads limits p w1 x → reads limits (k x) w2 y → reads limits (p ≫= k) (w1 >>> w2) y.
Proof.
  intros H1 H2 pre rest Hl. rewrite (wseq_nil w1 w2) in Hl |- *.
  rewrite <- (app_assoc (w1 [])) in Hl |- *.
  unfold mbind, parser_bind. rewrite H1 by done.
  rewrite H2 by (rewrite <- app_assoc; done).
  by rewrite <- app_assoc.
Qed.

(** The last step of a decoder, after which nothing is read. *)
Lemma reads_bind_ret {A B} limits (p : parser A) (k : A → parser B) w x y :
  reads limits p w x → (∀ d, k x d = Ok (y, d)) → reads limits (p ≫= k) w y.
Proof.
  intros H1 H2 pre rest Hl. unfold mbind, parser_bind. by rewrite H1.
Qed.

Lemma accepts_ret {A} limits (x : A) (Q : A → bytes → Prop) :
  Q x [] → accepts limits (mret x) Q.
Proof. intros HQ pre rest y d' _ [= <- <-]. exists [], rest. by rewrite app_nil_r. Qed.

Lemma accepts_fail {A} limits e (Q : A → bytes → Prop) : accepts limits (pfail e) Q.
Proof. by intros ????? [=]. Qed.

Lemma accepts_bind {A B} limits (p : parser A) (k : A → parser B) Q R :
  accepts limits p Q →
  (∀ x bs, Q x bs → accepts limits (k x) (λ y bs', R y (bs ++ bs'))) →
  accepts limits (p ≫= k) R.
Proof.
  intros Hp Hk pre rest y d' Hl. unfold mbind, parser_bind.
  destruct (p _) as [[x d1]|] eqn:E; [|done]. intros Hy.
  apply Hp in E as (bs & rest' & -> & -> & HQ); [|done].
  apply (Hk x bs HQ) in Hy as (bs' & rest'' & -> & -> & HR); [|by rewrite <- app_assoc].
  exists (bs ++ bs'), rest''. by rewrite !app_assoc.
Qed.

Lemma accepts_mono {A} limits (p : parser A) (Q R : A → bytes → Prop) :
  accepts limits p Q → (∀ x bs, Q x bs → R x bs) → accepts limits p R.
Proof. intros Hp HQR pre rest x d' Hl Hx. destruct (Hp _ _ _ _ Hl Hx) as (?&?&?&?&?). eauto 10. Qed.

Lemma accepts_if {A} limits (c : bool) (p q : parser A) Q :
  (c = true → accepts limits p Q) → (c = false → accepts limits q Q) →
  accepts limits (if c then p else q) Q.
Proof. destruct c; auto. Qed.

Lemma accepts_plift {A} limits (m : result CodecError A) :
  accepts limits (plift m) (λ x bs, m = Ok x ∧ bs = []).
Proof.
  unfold plift. destruct m as [x|e].
  - by apply accepts_ret.
  - apply accepts_fail.
Qed.

(** *** Primitives *)

Lemma slice_at pre bs rest : slice (pre ++ bs ++ rest) (len pre) (len pre + len bs) = bs.
Proof.
  unfold slice, len.
  replace (Z.to_nat (Z.of_nat (length pre) + Z.of_nat (length bs) - Z.of_nat (length pre)))
    with (length bs) by lia.
  rewrite Nat2Z.id, drop_app_length, take_app_length. done.
Qed.

Lemma reads_take limits bs : reads limits (dec_take (len bs)) (enc_fixed bs) bs.
Proof.
  intros pre rest Hl. unfold dec_take, at_pos, enc_fixed in *. cbn in *.
  autorewrite with len in Hl. pose proof (len_nonneg rest).
  unfold checked_add, USIZE. destruct (Z.ltb_spec (len pre + len bs) (2 ^ 64)); [|lia].
  destruct (Z.ltb_spec (len (pre ++ bs ++ rest)) (len pre + len bs)) as [Hlt|_].
  { autorewrite with len in Hlt. lia. }
  rewrite slice_at. by autorewrite with len; rewrite <- app_assoc.
Qed.

Lemma accepts_take limits n :
  0 ≤ n → accepts limits (dec_take n) (λ x bs, len x = n ∧ bs = x).
Proof.
  intros Hn pre rest x d' Hl. unfold dec_take, at_pos, checked_add. cbn.
  destruct (Z.ltb_spec (len pre + n) (2 ^ USIZE)); [|done].
  destruct (Z.ltb_spec (len (pre ++ rest)) (len pre + n)) as [|Hle]; [done|].
  autorewrite with len in Hle.
  assert (∃ bs r, rest = bs ++ r ∧ len bs = n) as (bs & r & -> & <-).
  { exists (take (Z.to_nat n) rest), (drop (Z.to_nat n) rest).
    rewrite take_drop. unfold len in *. rewrite length_take. split; [done|lia]. }
  rewrite slice_at. intros [= <- <-]. exists bs, r.
  by autorewrite with len; rewrite <- app_assoc.
Qed.

Lemma reads_array limits n bs : length bs = n → reads limits (dec_array n) (enc_fixed bs) bs.
Proof. intros <-. apply reads_take. Qed.
Lemma accepts_array limits n :
  accepts limits (dec_array n) (λ x bs, length x = n ∧ bs = enc_fixed x []).
Proof.
  eapply accepts_mono; [apply accepts_take; lia|].
  intros x bs [Hx ->]. unfold len in Hx. split; [lia|done].
Qed.

Lemma reads_le limits n v :
  uint (8 * Z.of_nat n) v →
  reads limits (bs ← dec_array n; mret (of_le bs)) (enc_fixed (to_le n v)) v.
Proof.
  intros Hv. eapply reads_bind_ret; [apply reads_array, to_le_length|].
  intros d. cbn. by rewrite of_to_le by by rewrite pow256.
Qed.
Lemma accepts_le limits n :
  accepts limits (bs ← dec_array n; mret (of_le bs))
    (λ x bs, uint (8 * Z.of_nat n) x ∧ bs = enc_fixed (to_le n x) []).
Proof.
  eapply accepts_bind; [apply accepts_array|].
  intros x bs [Hx ->]. apply accepts_ret. unfold enc_fixed. cbn.
  rewrite app_nil_r, <- Hx, to_of_le. split; [|done].
  unfold uint. rewrite <- pow256. apply of_le_range.
Qed.

Lemma reads_u8 limits v : uint 8 v → reads limits dec_u8 (enc_u8 v) v.
Proof. exact (reads_le limits 1 v). Qed.
Lemma reads_u16 limits v : uint 16 v → reads limits dec_u16 (enc_u16 v) v.
Proof. exact (reads_le limits 2 v). Qed.
Lemma reads_u32 limits v : uint 32 v → reads limits dec_u32 (enc_u32 v) v.
Proof. exact (reads_le limits 4 v). Qed.
Lemma reads_u64 limits v : uint 64 v → reads limits dec_u64 (enc_u64 v) v.
Proof. exact (reads_le limits 8 v). Qed.
Lemma accepts_u8 limits : accepts limits dec_u8 (λ x bs, uint 8 x ∧ bs = enc_u8 x []).
Proof. exact (accepts_le limits 1). Qed.
Lemma accepts_u16 limits : accepts limits dec_u16 (λ x bs, uint 16 x ∧ bs = enc_u16 x []).
Proof. exact (accepts_le limits 2). Qed.
Lemma accepts_u32 limits : accepts limits dec_u32 (λ x bs, uint 32 x ∧ bs = enc_u32 x []).
Proof. exact (accepts_le limits 4). Qed.
Lemma accepts_u64 limits : accepts limits dec_u64 (λ x bs, uint 64 x ∧ bs = enc_u64 x []).
Proof. exact (accepts_le limits 8). Qed.

(** *** Variable-length integers *)

Lemma land_127 v : Z.land v 127 = v mod 128.
Proof. change 127 with (Z.ones 7). by rewrite Z.land_ones. Qed.
Lemma shiftr_7 v : Z.shiftr v 7 = v / 128.
Proof. by rewrite Z.shiftr_div_pow2. Qed.
Lemma lor_add a p k : 0 ≤ k → 0 ≤ a < 2 ^ k → Z.lor a (p * 2 ^ k) = a + p * 2 ^ k.
Proof.
  intros Hk Ha. symmetry. rewrite <- Z.shiftl_mul_pow2 by done.
  assert (Z.land a (Z.shiftl p k) = 0) as Hz.
  { apply Z.bits_inj'. intros n Hn. rewrite Z.land_spec, Z.bits_0.
    destruct (Z.lt_ge_cases n k).
    - rewrite Z.shiftl_spec_low by done. apply andb_false_r.
    - rewrite <- (Z.mod_small a (2 ^ k)), Z.mod_pow2_bits_high by lia. done. }
  rewrite <- Z.lxor_lor by done. by apply Z.add_nocarry_lxor.
Qed.
Lemma lor_128 v : 0 ≤ v < 128 → Z.lor v 128 = v + 128.
Proof. intros H. apply (lor_add v 1 7); lia. Qed.

(** The two views of a byte of a varint: its low seven bits and its top bit. *)
Lemma land_128_low v : 0 ≤ v < 128 → Z.land v 128 = 0.
Proof.
  intros H. apply Z.bits_inj'. intros n Hn. rewrite Z.land_spec, Z.bits_0.
  change 128 with (2 ^ 7). rewrite Z.pow2_bits_eqb by lia.
  destruct (Z.eqb_spec 7 n) as [<-|]; [|apply andb_false_r].
  rewrite <- (Z.mod_small v (2 ^ 7)), Z.mod_pow2_bits_high by lia. done.
Qed.
Lemma land_128_high v : 128 ≤ v < 256 → Z.land v 128 = 128.
Proof.
  intros H. replace v with (Z.lor (v - 128) 128) by (rewrite lor_128; lia).
  rewrite Z.land_lor_distr_l, land_128_low by lia. done.
Qed.

Lemma enc_varint_loop_small n v :
  0 ≤ v < 128 → enc_varint_loop (S n) v [] = enc_u8 v [].
Proof.
  intros H. cbn [enc_varint_loop]. rewrite shiftr_7, land_127, Z.div_small, Z.mod_small by lia.
  done.
Qed.
Lemma enc_varint_loop_large n v :
  128 ≤ v →
  enc_varint_loop (S n) v [] = (enc_u8 (v mod 128 + 128) >>> enc_varint_loop n (v / 128)) [].
Proof.
  intros H. cbn [enc_varint_loop]. rewrite shiftr_7, land_127.
  pose proof (Z.div_le_lower_bound v 128 1 ltac:(lia) ltac:(lia)).
  destruct (Z.eqb_spec (v / 128) 0); [lia|].
  by rewrite lor_128 by (apply Z.mod_pos_bound; lia).
Qed.

(** What one pass does with a byte. *)
Lemma dec_varint_pass (m : nat) acc b i :
  i = 10 - Z.of_nat (S m) → 0 ≤ i → 0 ≤ acc < 2 ^ (7 * i) → uint 8 b →
  b mod 128 * 2 ^ (7 * i) < 2 ^ 64 →
  Z.lor acc (Z.shiftl (Z.land b 127) (i * 7) mod 2 ^ 64) = acc + b mod 128 * 2 ^ (7 * i).
Proof.
  intros -> Hi Hacc Hb Hlt. rewrite land_127, Z.shiftl_mul_pow2, (Z.mul_comm _ 7) by lia.
  rewrite Z.mod_small, lor_add by (first [lia|split; [|lia]; pose proof (Z.mod_pos_bound b 128); nia]).
  done.
Qed.

Lemma reads_ext {A} limits (p : parser A) w w' x :
  w [] = w' [] → reads limits p w x → reads limits p w' x.
Proof. intros E H pre rest. rewrite <- E. apply H. Qed.

Lemma varint_room i : 0 ≤ i ≤ 8 → 2 ^ (64 - 7 * i) = 128 * 2 ^ (64 - 7 * (i + 1)).
Proof. intros H. change 128 with (2 ^ 7). rewrite <- Z.pow_add_r by lia. f_equal. lia. Qed.
Lemma varint_shift i : 0 ≤ i → 2 ^ (7 * (i + 1)) = 128 * 2 ^ (7 * i).
Proof. intros H. change 128 with (2 ^ 7). rewrite <- Z.pow_add_r by lia. f_equal. lia. Qed.
Lemma varint_full i : 0 ≤ i ≤ 9 → 2 ^ (64 - 7 * i) * 2 ^ (7 * i) = 2 ^ 64.
Proof. intros H. rewrite <- Z.pow_add_r by lia. f_equal. lia. Qed.

Lemma reads_varint_loop limits n acc v i :
  i = 10 - Z.of_nat n → 0 ≤ i → 0 ≤ acc < 2 ^ (7 * i) → 0 ≤ v < 2 ^ (64 - 7 * i) →
  (0 < i → 0 < v) →
  reads limits (dec_varint_loop n acc) (enc_varint_loop n v) (acc + v * 2 ^ (7 * i)).
Proof.
  revert acc v i. induction n as [|m IH]; intros acc v i Hi Hi0 Hacc Hv Hpos.
  { subst i. change (2 ^ (64 - 7 * (10 - Z.of_nat 0))) with 0 in Hv. lia. }
  assert (i ≤ 9) as Hi9 by lia. pose proof (varint_full i ltac:(lia)) as Hfull.
  assert (0 < 2 ^ (7 * i)) as Hp by (apply Z.pow_pos_nonneg; lia).
  destruct (Z.lt_ge_cases v 128) as [Hs|Hl].
  - eapply reads_ext; [symmetry; apply enc_varint_loop_small; lia|].
    cbn [dec_varint_loop]. rewrite <- Hi.
    eapply reads_bind_ret; [apply reads_u8; unfold uint; lia|]. intros d.
    rewrite (land_128_low v) by lia.
    rewrite (dec_varint_pass m acc v i) by (unfold uint; rewrite ?Z.mod_small by lia; nia || lia).
    rewrite land_127, Z.mod_small by lia. cbn [negb Z.eqb]. rewrite orb_false_r.
    destruct (Z.eqb_spec i 9) as [E9|]; cbn [andb].
    + subst i. rewrite E9 in *. change (2 ^ (64 - 7 * 9)) with 2 in Hv.
      destruct (Z.ltb_spec 1 v); [lia|]. destruct (Z.eqb_spec v 0); [lia|]. done.
    + destruct (Z.ltb_spec 0 i); [|done]. destruct (Z.eqb_spec v 0); [lia|done].
  - assert (i ≤ 8) as Hi8.
    { destruct (decide (i = 9)) as [E9|]; [|lia]. rewrite E9 in Hv.
      change (2 ^ (64 - 7 * 9)) with 2 in Hv. lia. }
    rewrite (varint_room i) in Hv by lia.
    pose proof (Z.mod_pos_bound v 128 ltac:(lia)) as Hm.
    pose proof (Z.div_mod v 128 ltac:(lia)) as Hdm.
    pose proof (Z.div_le_lower_bound v 128 1 ltac:(lia) ltac:(lia)).
    eapply reads_ext; [symmetry; apply enc_varint_loop_large; lia|].
    cbn [dec_varint_loop]. rewrite <- Hi.
    eapply reads_bind; [apply _|apply reads_u8; unfold uint; lia|]. cbv zeta.
    rewrite (land_128_high (v mod 128 + 128)) by lia.
    destruct (Z.eqb_spec i 9); [lia|]. cbn [andb].
    assert ((v mod 128 + 128) mod 128 = v mod 128) as Emod.
    { symmetry. apply Z.mod_unique with 1; lia. }
    rewrite (dec_varint_pass m acc _ i)
      by (unfold uint; rewrite ?Emod; try lia; rewrite <- Hfull, (varint_room i) by lia; nia).
    rewrite Emod. change (128 =? 0) with false. cbv iota.
    replace (acc + v * 2 ^ (7 * i))
      with (acc + v mod 128 * 2 ^ (7 * i) + v / 128 * 2 ^ (7 * (i + 1)))
      by (rewrite varint_shift by lia; nia).
    apply IH; try lia. rewrite varint_shift by lia. nia.
Qed.

Lemma accepts_varint_loop limits n acc i :
  i = 10 - Z.of_nat n → 0 ≤ i → 0 ≤ acc < 2 ^ (7 * i) →
  accepts limits (dec_varint_loop n acc) (λ x bs, ∃ v,
    0 ≤ v < 2 ^ (64 - 7 * i) ∧ (0 < i → 0 < v) ∧
    x = acc + v * 2 ^ (7 * i) ∧ bs = enc_varint_loop n v []).
Proof.
  revert acc i. induction n as [|m IH]; intros acc i Hi Hi0 Hacc; [apply accepts_fail|].
  assert (i ≤ 9) as Hi9 by lia. pose proof (varint_full i ltac:(lia)) as Hfull.
  assert (0 < 2 ^ (7 * i)) as Hp by (apply Z.pow_pos_nonneg; lia).
  cbn [dec_varint_loop]. rewrite <- Hi.
  eapply accepts_bind; [apply accepts_u8|]. intros b bs [Hb ->]. cbv zeta.
  pose proof (Z.mod_pos_bound b 128 ltac:(lia)) as Hm.
  apply accepts_if; intros Hover; [apply accepts_fail|].
  assert (i = 9 → b ≤ 1) as H9.
  { intros ->. change (9 =? 9) with true in Hover. cbn [andb] in Hover.
    apply orb_false_iff in Hover as [Ha Hc]. apply Z.ltb_ge in Ha.
    rewrite land_127 in Ha. unfold uint in Hb.
    destruct (Z.lt_ge_cases b 128); [by rewrite Z.mod_small in Ha by lia|].
    by rewrite land_128_high in Hc by lia. }
  assert (b mod 128 * 2 ^ (7 * i) < 2 ^ 64) as Hroom.
  { destruct (decide (i = 9)) as [->|].
    - unfold uint in Hb. rewrite Z.mod_small by lia.
      assert (b < 2) by lia. cbn. lia.
    - rewrite <- Hfull, (varint_room i) by lia.
      assert (1 ≤ 2 ^ (64 - 7 * (i + 1))) by (apply (Z.pow_le_mono_r 2 0); lia). nia. }
  rewrite (dec_varint_pass m acc b i) by done. unfold uint in Hb.
  apply accepts_if; intros Htop.
  - assert (b < 128) as Hlow.
    { destruct (Z.lt_ge_cases b 128); [done|]. by rewrite land_128_high in Htop by lia. }
    rewrite land_127, Z.mod_small by lia.
    apply accepts_if; intros Hcan; [apply accepts_fail|]. apply accepts_ret.
    exists b. rewrite enc_varint_loop_small, app_nil_r by lia. split; [split; [lia|]|].
    + destruct (decide (i = 9)) as [->|]; [by specialize (H9 eq_refl); cbn; lia|].
      rewrite (varint_room i) by lia.
      assert (1 ≤ 2 ^ (64 - 7 * (i + 1))) by (apply (Z.pow_le_mono_r 2 0); lia). nia.
    + split; [|done]. intros Hpos. apply andb_false_iff in Hcan as [H|H].
      * apply Z.ltb_ge in H. lia.
      * apply Z.eqb_neq in H. lia.
  - assert (128 ≤ b) as Hhigh.
    { destruct (Z.lt_ge_cases b 128); [|done]. by rewrite land_128_low in Htop by lia. }
    assert (i ≤ 8) as Hi8.
    { destruct (decide (i = 9)) as [E|]; [specialize (H9 E)|]; lia. }
    eapply accepts_mono; [apply (IH _ (i + 1)); try lia|].
    + rewrite varint_shift by lia. nia.
    + intros x bs (v & Hv & Hpos & -> & ->). specialize (Hpos ltac:(lia)).
      assert (b mod 128 = b - 128) as Eb by (symmetry; apply Z.mod_unique with 1; lia).
      assert ((b - 128 + 128 * v) mod 128 = b - 128) as Emod
        by (symmetry; apply Z.mod_unique with v; lia).
      assert ((b - 128 + 128 * v) / 128 = v) as Ediv
        by (symmetry; apply Z.div_unique with (b - 128); lia).
      exists (b - 128 + 128 * v). rewrite (varint_room i) by lia.
      rewrite enc_varint_loop_large, wseq_nil, Emod, Ediv by (apply _ || lia).
      rewrite varint_shift, Eb by lia.
      replace (b - 128 + 128) with b by lia.
      repeat split; nia.
Qed.

Lemma reads_varint limits v : uint 64 v → reads limits dec_varint (enc_varint v) v.
Proof.
  intros Hv. replace v with (0 + v * 2 ^ (7 * 0)) at 2 by (cbn; lia).
  apply reads_varint_loop; unfold uint in Hv; cbn in *; lia.
Qed.
Lemma accepts_varint limits :
  accepts limits dec_varint (λ x bs, uint 64 x ∧ bs = enc_varint x []).
Proof.
  eapply accepts_mono; [apply (accepts_varint_loop limits 10 0 0); cbn; lia|].
  intros x bs (v & Hv & _ & -> & ->). replace (0 + v * 2 ^ (7 * 0)) with v by (cbn; lia). done.
Qed.

(** *** Lengths, byte strings, options and sequences *)

Lemma reads_get_limits limits : reads limits dec_get_limits (λ e, e) limits.
Proof. intros pre rest _. cbn. by rewrite app_nil_r. Qed.
Lemma accepts_get_limits limits :
  accepts limits dec_get_limits (λ x bs, x = limits ∧ bs = []).
Proof. intros pre rest x d' _ [= <- <-]. exists [], rest. by rewrite app_nil_r. Qed.

(** What [length(maximum)] admits as an item count. *)
Definition item_count (limits : DecodeLimits) (maximum n : Z) : Prop :=
  uint 64 n ∧ n ≤ maximum ∧ n ≤ limits.(max_vector_items).
(** What [bytes(maximum)] admits as a byte length. *)
Definition byte_count (limits : DecodeLimits) (maximum n : Z) : Prop :=
  uint 64 n ∧ n ≤ maximum ∧ n ≤ limits.(max_object_bytes).
#[export] Instance item_count_dec limits m n : Decision (item_count limits m n).
Proof. unfold item_count. apply _. Defined.
#[export] Instance byte_count_dec limits m n : Decision (byte_count limits m n).
Proof. unfold byte_count. apply _. Defined.

Lemma reads_bind_nil {A B} limits (p : parser A) (k : A → parser B) w x y :
  reads limits p (λ e, e) x → reads limits (k x) w y → reads limits (p ≫= k) w y.
Proof.
  intros H1 H2 pre rest Hl. unfold mbind, parser_bind.
  specialize (H1 pre (w [] ++ rest)). cbn [app] in H1. rewrite H1, app_nil_r by done.
  by apply H2.
Qed.
Lemma reads_bind_end {A B} limits (p : parser A) (k : A → parser B) w x y :
  reads limits p w x → reads limits (k x) (λ e, e) y → reads limits (p ≫= k) w y.
Proof.
  intros H1 H2. eapply (reads_ext _ _ (w >>> λ e, e)); [done|].
  eapply reads_bind; [apply _|done..].
Qed.

Lemma reads_length limits maximum n :
  item_count limits maximum n → reads limits (dec_length maximum) (enc_varint n) n.
Proof.
  intros (Hn & Hm & Hi). eapply reads_bind_end; [by apply reads_varint|].
  eapply reads_bind_nil; [apply reads_get_limits|].
  destruct (Z.ltb_spec maximum n); [lia|].
  destruct (Z.ltb_spec limits.(max_vector_items) n); [lia|]. apply reads_ret.
Qed.
Lemma accepts_length limits maximum :
  accepts limits (dec_length maximum)
    (λ n bs, item_count limits maximum n ∧ bs = enc_varint n []).
Proof.
  eapply accepts_bind; [apply accepts_varint|]. intros n bs [Hn ->].
  eapply accepts_bind; [apply accepts_get_limits|]. intros ? ? [-> ->].
  apply accepts_if; intros H; [apply accepts_fail|]. apply accepts_ret.
  apply orb_false_iff in H as [?%Z.ltb_ge ?%Z.ltb_ge]. by rewrite app_nil_r.
Qed.

Lemma reads_bytes limits maximum v :
  byte_count limits maximum (len v) → reads limits (dec_bytes_max maximum) (enc_bytes v) v.
Proof.
  intros (Hn & Hm & Hi). eapply reads_bind; [apply _|by apply reads_varint|].
  eapply reads_bind_nil; [apply reads_get_limits|].
  destruct (Z.ltb_spec maximum (len v)); [lia|].
  destruct (Z.ltb_spec limits.(max_object_bytes) (len v)); [lia|]. apply reads_take.
Qed.
Lemma accepts_bytes limits maximum :
  accepts limits (dec_bytes_max maximum)
    (λ v bs, byte_count limits maximum (len v) ∧ bs = enc_bytes v []).
Proof.
  eapply accepts_bind; [apply accepts_varint|]. intros n bs [Hn ->].
  eapply accepts_bind; [apply accepts_get_limits|]. intros ? ? [-> ->].
  apply accepts_if; intros H; [apply accepts_fail|].
  apply orb_false_iff in H as [?%Z.ltb_ge ?%Z.ltb_ge].
  eapply accepts_mono; [apply accepts_take; unfold uint in Hn; lia|].
  intros v bs [<- ->]. unfold enc_bytes. by rewrite wseq_nil by apply _.
Qed.

(** The encoder's counterpart of [Decoder::option]
    ([encode_option], crates/meshmine-types/src/common.rs). *)
Definition encode_option {A} (value : option A) (f : A → Writer) : Writer :=
  match value with
  | None => enc_u8 0
  | Some value => enc_u8 1 >>> f value
  end.

#[global] Typeclasses Opaque encode_option.
#[export] Instance encode_option_appends {A} (f : A → Writer) o :
  (∀ x, Appends (f x)) → Appends (encode_option o f).
Proof. intros Hf. destruct o; unfold encode_option; apply _. Qed.

Lemma reads_option {A} limits (p : parser A) (f : A → Writer) o `{!∀ x, Appends (f x)} :
  (∀ x, o = Some x → reads limits p (f x) x) →
  reads limits (dec_option p) (encode_option o f) o.
Proof.
  intros Hx. destruct o as [x|]; unfold encode_option, dec_option.
  - eapply reads_bind; [apply _|by apply reads_u8|]. cbn [Z.eqb].
    eapply reads_bind_end; [by apply Hx|]. apply reads_ret.
  - eapply reads_bind_end; [by apply reads_u8|]. apply reads_ret.
Qed.
Lemma accepts_option {A} limits (p : parser A) (f : A → Writer) (P : A → Prop)
    `{!∀ x, Appends (f x)} :
  accepts limits p (λ x bs, P x ∧ bs = f x []) →
  accepts limits (dec_option p)
    (λ o bs, from_option P True o ∧ bs = encode_option o f []).
Proof.
  intros Hp. eapply accepts_bind; [apply accepts_u8|]. intros tag bs [Ht ->].
  apply accepts_if; [intros ->%Z.eqb_eq; by apply accepts_ret|]. intros _.
  apply accepts_if; [intros ->%Z.eqb_eq|intros _; apply accepts_fail].
  eapply accepts_bind; [apply Hp|]. intros x bs [HP ->]. apply accepts_ret.
  split; [done|]. cbn [encode_option]. by rewrite wseq_nil, app_nil_r by apply _.
Qed.

Lemma reads_repeat {A} limits (p : parser A) (f : A → Writer) l `{!∀ x, Appends (f x)} :
  Forall (λ x, reads limits p (f x) x) l →
  reads limits (dec_repeat (length l) p) (enc_each f l) l.
Proof.
  induction 1 as [|x l Hx _ IH]; cbn [length dec_repeat]; [apply reads_ret|].
  eapply (reads_ext _ _ (f x >>> enc_each f l)); [done|].
  eapply reads_bind; [apply _|done|]. eapply reads_bind_end; [done|]. apply reads_ret.
Qed.
Lemma accepts_repeat {A} limits n (p : parser A) (f : A → Writer) (P : A → Prop)
    `{!∀ x, Appends (f x)} :
  accepts limits p (λ x bs, P x ∧ bs = f x []) →
  accepts limits (dec_repeat n p)
    (λ l bs, length l = n ∧ Forall P l ∧ bs = enc_each f l []).
Proof.
  intros Hp. induction n as [|n IH]; cbn [dec_repeat]; [by apply accepts_ret|].
  eapply accepts_bind; [apply Hp|]. intros x bs [HP ->].
  eapply accepts_bind; [apply IH|]. intros l bs (<- & Hl & ->). apply accepts_ret.
  split_and!; [done|by constructor|]. by rewrite enc_each_cons, app_nil_r.
Qed.

(** A counted vector: its length as a varint, then its items. *)
Definition enc_vec {A} (f : A → Writer) (l : list A) : Writer :=
  enc_varint (len l) >>> enc_each f l.
Definition dec_vec {A} (maximum : Z) (p : parser A) : parser (list A) :=
  count ← dec_length maximum; dec_repeat (Z.to_nat count) p.

#[export] Instance enc_vec_appends {A} (f : A → Writer) l :
  (∀ x, Appends (f x)) → Appends (enc_vec f l).
Proof. intros. unfold enc_vec. apply _. Qed.

#[global] Typeclasses Opaque enc_vec.

Lemma reads_vec {A} limits maximum (p : parser A) (f : A → Writer) l `{!∀ x, Appends (f x)} :
  item_count limits maximum (len l) → Forall (λ x, reads limits p (f x) x) l →
  reads limits (dec_vec maximum p) (enc_vec f l) l.
Proof.
  intros Hn Hl. eapply reads_bind; [apply _|by apply reads_length|].
  unfold len. rewrite Nat2Z.id. by apply reads_repeat.
Qed.
Lemma accepts_vec {A} limits maximum (p : parser A) (f : A → Writer) (P : A → Prop)
    `{!∀ x, Appends (f x)} :
  accepts limits p (λ x bs, P x ∧ bs = f x []) →
  accepts limits (dec_vec maximum p)
    (λ l bs, (item_count limits maximum (len l) ∧ Forall P l) ∧ bs = enc_vec f l []).
Proof.
  intros Hp. eapply accepts_bind; [apply accepts_length|]. intros n bs [Hn ->].
  eapply accepts_mono; [by apply accepts_repeat|].
  intros l bs (Hl & HP & ->). assert (len l = n) as <-.
  { destruct Hn as ((? & ?) & _). unfold len. lia. }
  unfold enc_vec. by rewrite wseq_nil by apply _.
Qed.

(** A vector whose count is admitted and whose items satisfy [P]. *)
Definition ok_vec {A} (limits : DecodeLimits) (maximum : Z) (P : A → Prop) (l : list A) : Prop :=
  item_count limits maximum (len l) ∧ Forall P l.
Definition ok_option {A} (P : A → Prop) (o : option A) : Prop := from_option P True o.

#[export] Instance ok_vec_dec {A} limits m (P : A → Prop) `{!∀ x, Decision (P x)} l :
  Decision (ok_vec limits m P l).
Proof. unfold ok_vec. apply _. Defined.
#[export] Instance ok_option_dec {A} (P : A → Prop) `{!∀ x, Decision (P x)} o :
  Decision (ok_option P o).
Proof. unfold ok_option. destruct o; cbn; apply _. Defined.

Lemma reads_vec_ok {A} limits maximum (p : parser A) (f : A → Writer) (P : A → Prop) l
    `{!∀ x, Appends (f x)} :
  (∀ x, P x → reads limits p (f x) x) → ok_vec limits maximum P l →
  reads limits (dec_vec maximum p) (enc_vec f l) l.
Proof. intros Hp [Hn Hl]. apply reads_vec; [apply _|done|]. by eapply Forall_impl. Qed.
Lemma accepts_vec_ok {A} limits maximum (p : parser A) (f : A → Writer) (P : A → Prop)
    `{!∀ x, Appends (f x)} :
  accepts limits p (λ x bs, P x ∧ bs = f x []) →
  accepts limits (dec_vec maximum p)
    (λ l bs, ok_vec limits maximum P l ∧ bs = enc_vec f l []).
Proof. by apply accepts_vec. Qed.
Lemma reads_option_ok {A} limits (p : parser A) (f : A → Writer) (P : A → Prop) o
    `{!∀ x, Appends (f x)} :
  (∀ x, P x → reads limits p (f x) x) → ok_option P o →
  reads limits (dec_option p) (encode_option o f) o.
Proof. intros Hp Ho. apply reads_option; [apply _|]. intros x ->. by apply Hp. Qed.
Lemma accepts_option_ok {A} limits (p : parser A) (f : A → Writer) (P : A → Prop)
    `{!∀ x, Appends (f x)} :
  accepts limits p (λ x bs, P x ∧ bs = f x []) →
  accepts limits (dec_option p) (λ o bs, ok_option P o ∧ bs = encode_option o f []).
Proof. by apply accepts_option. Qed.

(** *** Records

    A record's decoder reads its fields in order; the two tactics below prove
    [reads] and [accepts] of such a decoder from the lemmas of the field types,
    collected in the hint database [codec]. *)

Lemma reads_assoc {A} limits (p : parser A) w1 w2 w3 x :
  reads limits p (w1 >>> (w2 >>> w3)) x → reads limits p ((w1 >>> w2) >>> w3) x.
Proof. done. Qed.
Lemma reads_ret_eq {A} limits (x y : A) : x = y → reads limits (mret x) (λ e, e) y.
Proof. intros ->. apply reads_ret. Qed.
Lemma reads_plift {A} limits (m : result CodecError A) x :
  m = Ok x → reads limits (plift m) (λ e, e) x.
Proof. intros ->. apply reads_ret. Qed.

Create HintDb codec discriminated.
#[export] Hint Constants Opaque : codec.
#[export] Hint Variables Opaque : codec.
#[export] Hint Resolve reads_u8 reads_u16 reads_u32 reads_u64 reads_array reads_bytes : codec.
#[export] Hint Extern 1 (accepts _ dec_u8 _) => apply accepts_u8 : codec.
#[export] Hint Extern 1 (accepts _ dec_u16 _) => apply accepts_u16 : codec.
#[export] Hint Extern 1 (accepts _ dec_u32 _) => apply accepts_u32 : codec.
#[export] Hint Extern 1 (accepts _ dec_u64 _) => apply accepts_u64 : codec.
#[export] Hint Extern 1 (accepts _ (dec_array _) _) => apply accepts_array : codec.
#[export] Hint Extern 1 (accepts _ (dec_bytes_max _) _) => apply accepts_bytes : codec.
#[export] Hint Extern 2 (reads _ (dec_vec _ _) (enc_vec _ _) _) =>
  eapply reads_vec_ok; [apply _| |eassumption] : codec.
#[export] Hint Extern 2 (reads _ (dec_option _) (encode_option _ _) _) =>
  eapply reads_option_ok; [apply _| |eassumption] : codec.
#[export] Hint Extern 2 (accepts _ (dec_vec _ _) _) =>
  eapply accepts_vec_ok; [|solve [eauto with codec]]; apply _ : codec.
#[export] Hint Extern 2 (accepts _ (dec_option _) _) =>
  eapply accepts_option_ok; [|solve [eauto with codec]]; apply _ : codec.

(** Runs the reader of a record against its writer; leaves the equation
    between the rebuilt record and the record, and the validity check. *)
Ltac solve_reads :=
  repeat (cbv beta zeta iota;
    lazymatch goal with
    | |- reads _ (_ ≫= _) ((_ >>> _) >>> _) _ => apply reads_assoc
    | |- reads _ (_ ≫= _) (_ >>> _) _ =>
        eapply reads_bind; [apply _|solve [eauto with codec]|]
    | |- reads _ (mret _) _ _ => apply reads_ret_eq
    | |- reads _ (_ ≫= _) (λ e, e) _ =>
        eapply reads_bind_nil; [apply reads_plift|]
    | |- reads _ (_ ≫= _) _ _ =>
        eapply reads_bind_end; [solve [eauto with codec]|]
    end).

(** Inverts a successful run; leaves the final goal with the constraint of
    every field in the context. *)
Ltac solve_accepts :=
  repeat (cbv beta zeta;
    lazymatch goal with
    | |- accepts _ (match ?p with pair _ _ => _ end) _ =>
        destruct p; cbn [fst snd] in *
    | |- accepts _ (plift _ ≫= _) _ =>
        eapply accepts_bind; [apply accepts_plift|];
        let H := fresh "Hvalid" in intros ? ? [H ->]
    | |- accepts _ (_ ≫= _) _ =>
        eapply accepts_bind; [solve [eauto with codec]|];
        let H := fresh "H" in intros ? ? [H ->]
    | |- accepts _ (mret _) _ => apply accepts_ret
    end).

(** The bytes of a sequence of writers, as one flat concatenation. *)
Ltac flatten_writers := rewrite ?wseq_nil, <- ?app_assoc, ?app_nil_r by apply _.

(** *** No encoding is a prefix of another *)

Lemma enc_varint_loop_prefix n a b x y :
  0 ≤ a < 2 ^ (7 * Z.of_nat n) → 0 ≤ b < 2 ^ (7 * Z.of_nat n) →
  enc_varint_loop n a [] ++ x = enc_varint_loop n b [] ++ y → a = b ∧ x = y.
Proof.
  revert a b. induction n as [|n IH]; intros a b Ha Hb E.
  { cbn in Ha, Hb. split; [lia|done]. }
  rewrite Nat2Z.inj_succ, Z.mul_succ_r, Z.pow_add_r in Ha, Hb by lia.
  change (2 ^ 7) with 128 in *.
  pose proof (Z.mod_pos_bound a 128 ltac:(lia)). pose proof (Z.mod_pos_bound b 128 ltac:(lia)).
  pose proof (Z.div_mod a 128 ltac:(lia)). pose proof (Z.div_mod b 128 ltac:(lia)).
  assert (∀ p q l1 l2, enc_u8 p [] ++ l1 = enc_u8 q [] ++ l2 → uint 8 p → uint 8 q →
    p = q ∧ l1 = l2) as Hu8.
  { intros p q l1 l2 [= E1 ->] Hp Hq. split; [by apply z2b_inj|done]. }
  destruct (Z.lt_ge_cases a 128), (Z.lt_ge_cases b 128);
    first [rewrite (enc_varint_loop_small n a) in E by lia
          |rewrite (enc_varint_loop_large n a) in E by lia];
    first [rewrite (enc_varint_loop_small n b) in E by lia
          |rewrite (enc_varint_loop_large n b) in E by lia];
    rewrite ?wseq_nil, <- ?app_assoc in E by apply _;
    apply Hu8 in E as [E1 E2]; unfold uint; try lia; [done|].
  apply IH in E2 as [E2 ->]; [|lia..]. split; [lia|done].
Qed.

Lemma enc_varint_prefix a b x y :
  uint 64 a → uint 64 b → enc_varint a [] ++ x = enc_varint b [] ++ y → a = b ∧ x = y.
Proof.
  unfold uint. intros Ha Hb. apply enc_varint_loop_prefix.
  - split; [lia|]. change (Z.of_nat 10) with 10. lia.
  - split; [lia|]. change (Z.of_nat 10) with 10. lia.
Qed.

Lemma enc_bytes_prefix a b x y :
  len a < 2 ^ 64 → len b < 2 ^ 64 →
  enc_bytes a [] ++ x = enc_bytes b [] ++ y → a = b ∧ x = y.
Proof.
  intros Ha Hb E. unfold enc_bytes in E. rewrite !wseq_nil, <- !app_assoc in E by apply _.
  apply enc_varint_prefix in E as [El E]; [|split; [apply len_nonneg|done]..].
  unfold enc_fixed in E. rewrite !app_nil_l in E. by apply app_inj_1 in E; [|unfold len in El; lia].
Qed.

(** ** The codec contract *)

(** [codec_ok limits x]: [x] is a value of its Rust type (integers in range,
    arrays of their length), valid, and within [limits]. *)
Class CodecLaws (A : Type) `{Codec A} := {
  codec_ok : DecodeLimits → A → Prop;
  encode_appends :: ∀ x, Appends (encode x);
  decode_encode : ∀ limits x, codec_ok limits x → reads limits decode (encode x) x;
  decode_sound : ∀ limits,
    accepts limits decode (λ x bs, codec_ok limits x ∧ bs = encode x []);
}.

Section Contract.
Context {A : Type} `{CodecLaws A}.

Lemma from_canonical_complete limits (x : A) :
  uint 64 limits.(max_object_bytes) → codec_ok limits x →
  len (to_canonical_bytes x) ≤ limits.(max_object_bytes) →
  from_canonical_bytes (to_canonical_bytes x) limits = Ok x.
Proof.
  intros Hmax Hok Hlen. unfold from_canonical_bytes, Decoder_new, to_canonical_bytes, into_bytes in *.
  destruct (Z.ltb_spec limits.(max_object_bytes) (len (encode x []))); [lia|].
  change (mbind ?f (Ok ?d)) with (f d). cbv beta.
  pose proof (decode_encode limits x Hok [] []) as Hr. unfold at_pos in Hr.
  rewrite !app_nil_l, !app_nil_r in Hr. change (len []) with 0 in Hr.
  unfold uint in Hmax. rewrite Hr by lia. cbn. unfold dec_finish, dec_remaining. cbn.
  by rewrite Z.sub_diag.
Qed.

Lemma from_canonical_sound limits bs (x : A) :
  uint 64 limits.(max_object_bytes) → from_canonical_bytes bs limits = Ok x →
  codec_ok limits x ∧ bs = to_canonical_bytes x ∧ len bs ≤ limits.(max_object_bytes).
Proof.
  intros Hmax. unfold from_canonical_bytes, Decoder_new.
  destruct (Z.ltb_spec limits.(max_object_bytes) (len bs)) as [|Hle]; [done|].
  change (mbind ?f (Ok ?d)) with (f d). cbv beta. intros Hx.
  apply bind_ok in Hx as ([v d] & Hd & Hx). apply bind_ok in Hx as (u & Hf & [= ->]).
  unfold uint in Hmax.
  destruct (decode_sound limits [] bs x d) as (bs' & rest & -> & -> & Hok & ->);
    [rewrite app_nil_l; lia|done|].
  unfold dec_finish, dec_remaining, at_pos in Hf. cbn in Hf.
  autorewrite with len in Hf. destruct (Z.eqb_spec (len (encode x []) + len rest - len (encode x [])) 0) as [E|];
    [|done].
  assert (rest = []) as -> by (apply len_0; lia). by rewrite app_nil_r in *.
Qed.

Lemma from_canonical_trailing limits (x : A) extra :
  uint 64 limits.(max_object_bytes) → codec_ok limits x → extra ≠ [] →
  len (to_canonical_bytes x ++ extra) ≤ limits.(max_object_bytes) →
  from_canonical_bytes (to_canonical_bytes x ++ extra) limits = Err (TrailingBytes (len extra)).
Proof.
  intros Hmax Hok Hex Hlen.
  unfold from_canonical_bytes, Decoder_new, to_canonical_bytes, into_bytes in *.
  destruct (Z.ltb_spec limits.(max_object_bytes) (len (encode x [] ++ extra))); [lia|].
  change (mbind ?f (Ok ?d)) with (f d). cbv beta.
  pose proof (decode_encode limits x Hok [] extra) as Hr. unfold at_pos in Hr.
  rewrite !app_nil_l in Hr. change (len []) with 0 in Hr.
  unfold uint in Hmax. rewrite Hr by lia. cbn. unfold dec_finish, dec_remaining. cbn.
  autorewrite with len. replace (len (encode x []) + len extra - len (encode x [])) with (len extra) by lia.
  destruct (Z.eqb_spec (len extra) 0) as [E%len_0|]; done.
Qed.

Lemma to_canonical_inj limits (x y : A) :
  codec_ok limits x → codec_ok limits y →
  len (to_canonical_bytes x) < 2 ^ 64 →
  to_canonical_bytes x = to_canonical_bytes y → x = y.
Proof.
  unfold to_canonical_bytes, into_bytes. intros Hx Hy Hl E.
  pose proof (decode_encode limits x Hx [] []) as Hrx.
  pose proof (decode_encode limits y Hy [] []) as Hry.
  rewrite !app_nil_l, !app_nil_r in *. rewrite <- E, Hrx in Hry by done. by injection Hry.
Qed.
End Contract.

(** Length of a varint: one byte per started group of seven bits. *)
Lemma enc_varint_loop_len n v : (0 < n)%nat → 1 ≤ len (enc_varint_loop n v []) ≤ Z.of_nat n.
Proof.
  revert v. induction n as [|n IH]; intros v Hn; [lia|]. cbn [enc_varint_loop].
  case_match eqn:E; [change (len (enc_u8 _ [])) with 1; lia|].
  rewrite appends. autorewrite with len.
  match goal with |- context [len (enc_u8 ?x [])] => change (len (enc_u8 x [])) with 1 end.
  destruct n as [|n]; [change (len (enc_varint_loop 0 _ [])) with 0; lia|].
  specialize (IH (Z.shiftr v 7) ltac:(lia)). lia.
Qed.

(** ** Properties *)

(** [Encoder::varint] and [Decoder::varint] are exact inverses: on any
    input, the decoder returns [v] and an offset exactly when [v] is a [u64],
    the input starts with the bytes [Encoder::varint] writes for [v], and the
    offset is their number, which is between one and ten. Overlong, redundant
    and overflowing encodings are therefore rejected, and the encoder's loop
    ends within its ten passes. *)
Lemma varint_exact limits bs v d' :
  len bs < 2 ^ 64 →
  dec_varint (mkDecoder bs 0 limits) = Ok (v, d') ↔
  uint 64 v ∧ (∃ rest, bs = enc_varint v [] ++ rest) ∧
  d' = mkDecoder bs (len (enc_varint v [])) limits ∧ 1 ≤ len (enc_varint v []) ≤ 10.
Proof.
  intros Hl. change (mkDecoder bs 0 limits) with (at_pos limits [] bs). split.
  - intros Hd. destruct (accepts_varint limits [] bs v d') as (b & r & -> & -> & Hv & ->); [done..|].
    split_and!; [done|by eexists|done|apply enc_varint_loop_len; lia..].
  - intros (Hv & (rest & ->) & -> & _).
    rewrite (reads_varint limits v Hv [] rest) by done. done.
Qed.

Lemma varint_exact_witness :
  dec_varint (mkDecoder (enc_varint 300 [] ++ [x07]) 0 DecodeLimits_default) =
  Ok (300, mkDecoder (enc_varint 300 [] ++ [x07]) 2 DecodeLimits_default).
Proof.
  apply varint_exact; [vm_compute; done|].
  split; [vm_compute; done|]. split; [by eexists|]. vm_compute. done.
Defined.
