(* ===== verification/Hash.v ===== *)
(** * Hash functions ([blake2b_256], [blake2b_512] of crates/meshmine-hns/src/header.rs,
    [domain_hash] of crates/meshmine-types/src/common.rs)

    The digests themselves come from third-party crates: BLAKE2b with a chosen
    output length and SHA3-256 are parameters, of which the code relies only on
    the output length. Statements about identity of hashed objects never assume
    that the hash is injective: they return an explicit collision instead. *)

From S2P Require Import Prelude Codec.

Abbreviation Hash256 := bytes.

Class Digests := {
  blake2b : nat → bytes → bytes;
  sha3_256 : bytes → bytes;
}.

(** [Blake2bVar::new(n)] and [Sha3_256] fill an output of the length asked for. *)
Class DigestsOk `{Digests} : Prop := {
  blake2b_length : ∀ n m, length (blake2b n m) = n;
  sha3_256_length : ∀ m, length (sha3_256 m) = 32%nat;
}.

Section Hashing.
Context `{Digests}.

(** The digest of the parts fed to it one after the other. *)
Definition blake2b_256 (parts : list bytes) : Hash256 := blake2b 32 (concat parts).
Definition blake2b_512 (parts : list bytes) : bytes := blake2b 64 (concat parts).

(** The tag is length-prefixed, so no tag's input is another tag's input. *)
Definition domain_preimage (domain : bytes) (body : bytes) : bytes :=
  into_bytes (enc_bytes domain >>> enc_fixed body).
Definition domain_hash (domain : bytes) (body : bytes) : Hash256 :=
  blake2b_256 [domain_preimage domain body].

(** These two messages are a collision of the digest. *)
Definition collides (n : nat) (m1 m2 : bytes) : Prop :=
  m1 ≠ m2 ∧ blake2b n m1 = blake2b n m2.
End Hashing.

Section Binding.
Context `{Digests}.

Lemma blake2b_eq n m1 m2 : blake2b n m1 = blake2b n m2 → m1 = m2 ∨ collides n m1 m2.
Proof. intros E. destruct (decide (m1 = m2)); [by left|]. by right. Qed.

(** The framing of tag and body is injective. *)
Lemma domain_preimage_inj d1 d2 b1 b2 :
  len d1 < 2 ^ 64 → len d2 < 2 ^ 64 → domain_preimage d1 b1 = domain_preimage d2 b2 →
  d1 = d2 ∧ b1 = b2.
Proof.
  intros H1 H2 E. unfold domain_preimage, into_bytes in E.
  rewrite !wseq_nil in E by apply _. unfold enc_fixed in E. rewrite !app_nil_l in E.
  by apply enc_bytes_prefix in E.
Qed.

(** Equal domain hashes come from the same tag and the same body, or their two
    inputs are a collision of the digest. *)
Lemma domain_hash_binding d1 d2 b1 b2 :
  len d1 < 2 ^ 64 → len d2 < 2 ^ 64 → domain_hash d1 b1 = domain_hash d2 b2 →
  (d1 = d2 ∧ b1 = b2) ∨ collides 32 (domain_preimage d1 b1) (domain_preimage d2 b2).
Proof.
  intros H1 H2 E. unfold domain_hash, blake2b_256 in E. cbn [concat] in E.
  rewrite !app_nil_r in E. apply blake2b_eq in E as [E|?]; [left|by right].
  by apply domain_preimage_inj.
Qed.

Context `{!DigestsOk}.
Lemma blake2b_256_length parts : length (blake2b_256 parts) = 32%nat.
Proof. apply blake2b_length. Qed.
Lemma blake2b_512_length parts : length (blake2b_512 parts) = 64%nat.
Proof. apply blake2b_length. Qed.
Lemma domain_hash_length d b : length (domain_hash d b) = 32%nat.
Proof. apply blake2b_256_length. Qed.
End Binding.

(** A concrete digest for the witnesses: the message itself, padded or cut to
    the output length. *)
Definition toy_digest (n : nat) (m : bytes) : bytes := take n (m ++ replicate n x00).
Definition toy_digests : Digests := {|
  blake2b := toy_digest;
  sha3_256 := toy_digest 32;
|}.
Lemma toy_digests_ok : @DigestsOk toy_digests.
Proof.
  assert (∀ n m, length (toy_digest n m) = n) as Ht.
  { intros n m. unfold toy_digest. rewrite length_take, length_app, length_replicate. lia. }
  split; intros; apply Ht.
Qed.

(** A concrete digest that mixes the whole message, for witnesses that need
    different objects to have different identities. *)
Definition mix_digest (n : nat) (m : bytes) : bytes :=
  let mask := 2 ^ 64 - 1 in
  let word := foldl (λ acc b, Z.land (acc * 263 + b2z b + 1) mask) 1 m in
  take n (concat (replicate n (to_le 8 word))).
Definition mix_digests : Digests := {|
  blake2b := mix_digest;
  sha3_256 := mix_digest 32;
|}.
Lemma mix_digests_ok : @DigestsOk mix_digests.
Proof.
  assert (∀ n m, length (mix_digest n m) = n) as Hm.
  { intros n m. unfold mix_digest. cbn zeta.
    match goal with |- context [to_le 8 ?w] => generalize w end. intros word.
    assert (∀ k, length (concat (replicate k (to_le 8 word))) = (8 * k)%nat) as Hc.
    { induction k as [|k IH]; [done|]. cbn [replicate concat]. rewrite length_app, IH, to_le_length. lia. }
    rewrite length_take, Hc. lia. }
  split; intros; apply Hm.
Qed.

(** A digest that mixes the whole message and begins with zeroes, so that every
    header meets the capture target. *)
Definition low_digest (n : nat) (m : bytes) : bytes :=
  let word := foldl (λ acc b, Z.land (5 * acc + b2z b + 1) (2 ^ 24 - 1)) 1 m in
  take n (replicate 8 x00 ++ to_le 3 word ++ replicate n x00).
Definition low_digests : Digests := {|
  blake2b := low_digest;
  sha3_256 := low_digest 32;
|}.
Lemma low_digests_ok : @DigestsOk low_digests.
Proof.
  assert (∀ n m, length (low_digest n m) = n) as Hm.
  { intros n m. unfold low_digest. cbn zeta. match goal with |- context [to_le 3 ?w] => generalize w end. intros word.
    rewrite length_take, !length_app, to_le_length, !length_replicate. lia. }
  split; intros; apply Hm.
Qed.
