(* ===== verification/Types.v ===== *)
(** * Shared protocol types ([crates/meshmine-types/src/common.rs])

    Signatures and signer sets, payout bucket leaves, the [UnsignedObject]
    trait with its object identity, and the codecs of all of them. *)

From S2P Require Import Prelude Codec Hash.

Definition CORE_V2 : Z := 2.
Definition ED25519_SUITE : Z := 1.
Definition MAX_ADDRESS_HASH_BYTES : Z := 64.
Definition MAX_SIGNATURE_BYTES : Z := 128.
Definition MAX_CERTIFICATE_SIGNERS : Z := 4096.
Definition MAX_OBJECT_HASHES : Z := 100000.
Definition MAX_BUCKETS : Z := 100000.
Definition MAX_BODY_BYTES : Z := 4 * 1024 * 1024.
Definition GATEWAY_EXTRA_NONCE_PROFILE_HANDY_PREFIX4_VARIABLE4_ZERO16 : Z := 1.

(** Big-endian integers held as arrays: [U256([u8; 32])], [U512([u8; 64])]. *)
Abbreviation U256 := bytes.
Abbreviation U512 := bytes.
Abbreviation SignatureBytes := bytes.

(** An array of Rust type [[u8; n]]. *)
Definition arr (n : nat) (bs : bytes) : Prop := length bs = n.
#[export] Instance arr_dec n bs : Decision (arr n bs).
Proof. unfold arr. apply _. Defined.

Record SignerSignature := mkSignerSignature {
  signer_pubkey : bytes;
  ss_signature : SignatureBytes;
}.

Record SignatureSet := mkSignatureSet {
  signature_suite : Z;
  signatures : list SignerSignature;
}.

Definition empty_ed25519 : SignatureSet := mkSignatureSet ED25519_SUITE [].

Record WorkBucketLeaf := mkWorkBucketLeaf {
  wbl_bucket_id : Hash256;
  wbl_operator_pubkey : bytes;
  wbl_hns_address_version : Z;
  wbl_hns_address_hash : bytes;
  wbl_credited_work : U512;
}.

Record ServiceBucketLeaf := mkServiceBucketLeaf {
  sbl_bucket_id : Hash256;
  sbl_operator_pubkey : bytes;
  sbl_hns_address_version : Z;
  sbl_hns_address_hash : bytes;
  sbl_certified_service_credit : U512;
}.

#[export] Instance SignerSignature_eq_dec : EqDecision SignerSignature.
Proof. solve_decision. Defined.
#[export] Instance SignatureSet_eq_dec : EqDecision SignatureSet.
Proof. solve_decision. Defined.
#[export] Instance WorkBucketLeaf_eq_dec : EqDecision WorkBucketLeaf.
Proof. solve_decision. Defined.
#[export] Instance ServiceBucketLeaf_eq_dec : EqDecision ServiceBucketLeaf.
Proof. solve_decision. Defined.

Inductive ObjectError :=
| OE_Codec (e : CodecError)
| UnsortedSigners
| UnsortedBuckets
| UnsortedReceiptEntries
| ReceiptLengthMismatch
| UnsortedDagParents
| NonAsciiDomain.

(** [windows(2).any(|pair| key(pair[0]) >= key(pair[1]))] *)
Definition unsorted_by {A} (key : A → bytes) (l : list A) : bool :=
  windows2_any (λ x y, bytes_leb (key y) (key x)) l.

Definition validate_order (s : SignatureSet) : result ObjectError unit :=
  if unsorted_by signer_pubkey s.(signatures) then Err UnsortedSigners else Ok tt.

Definition validate_bucket_order {A} (values : list A) (bucket_id : A → bytes) :
    result ObjectError unit :=
  if unsorted_by bucket_id values then Err UnsortedBuckets else Ok tt.

(** Keys strictly increase: sorted and without duplicates. *)
Definition keys_increase {A} (key : A → bytes) (l : list A) : Prop :=
  Sorted bytes_lt (key <$> l).

Lemma unsorted_by_false {A} (key : A → bytes) l :
  unsorted_by key l = false ↔ keys_increase key l.
Proof.
  unfold unsorted_by, keys_increase. rewrite windows2_any_false.
  induction l as [|x l IH]; [split; constructor|].
  cbn. split; inversion 1 as [|?? Hs Hr]; subst; constructor; try (by apply IH).
  - destruct Hr; constructor. by apply bytes_leb_false.
  - destruct l; constructor. inversion Hr. by apply bytes_leb_false.
Qed.

(** A list sorted by key has increasing keys exactly when no two neighbours
    share a key, which is when no two elements do. *)
Section SortedBy.
Context {A : Type} (key : A → bytes).
Local Notation sorted_by := (Sorted (λ a b, bytes_le (key a) (key b))).

Lemma sorted_by_distinct l :
  sorted_by l →
  windows2_any (λ a b, bool_decide (key a = key b)) l = false ↔ keys_increase key l.
Proof.
  intros Hs. rewrite windows2_any_false. unfold keys_increase.
  induction Hs as [|x l Hl IH Hx]; [split; constructor|]. cbn.
  split; inversion 1 as [|?? Hsl Hr]; subst; constructor; try (by apply IH).
  all: destruct Hx as [|y l Hxy]; constructor; inversion Hr as [|?? Hr']; subst.
  - apply bool_decide_eq_false in Hr'. apply bytes_le_lt in Hxy as [?|?]; done.
  - apply bool_decide_eq_false. intros E. rewrite E in Hr'. by apply bytes_lt_irrefl in Hr'.
Qed.

Lemma sorted_by_NoDup l : sorted_by l → NoDup (key <$> l) ↔ keys_increase key l.
Proof.
  intros Hs. split; [|apply Sorted_lt_NoDup]. unfold keys_increase.
  induction Hs as [|x k Hk IH Hx]; [constructor|]. cbn. intros [Hx' Hnd]%NoDup_cons.
  constructor; [by apply IH|]. destruct Hx as [|y k Hxy]; constructor.
  apply bytes_le_lt in Hxy as [?|E]; [done|]. destruct Hx'. cbn. rewrite E. left.
Qed.
End SortedBy.

(** ** Hash vectors, signatures and leaves *)

Definition encode_hashes (values : list Hash256) : Writer := enc_vec enc_fixed values.
Definition decode_hashes : parser (list Hash256) := dec_vec MAX_OBJECT_HASHES (dec_array 32).
Definition encode_u512s (values : list U512) : Writer := enc_vec enc_fixed values.
Definition decode_u512s : parser (list U512) := dec_vec MAX_OBJECT_HASHES (dec_array 64).

Definition encode_SignatureBytes (s : SignatureBytes) : Writer := enc_bytes s.
Definition decode_SignatureBytes : parser SignatureBytes := dec_bytes_max MAX_SIGNATURE_BYTES.

Definition encode_SignerSignature (s : SignerSignature) : Writer :=
  enc_fixed s.(signer_pubkey) >>> encode_SignatureBytes s.(ss_signature).
Definition decode_SignerSignature : parser SignerSignature :=
  signer_pubkey ← dec_array 32;
  signature ← decode_SignatureBytes;
  mret (mkSignerSignature signer_pubkey signature).

Definition encode_SignatureSet (s : SignatureSet) : Writer :=
  enc_u16 s.(signature_suite) >>> enc_vec encode_SignerSignature s.(signatures).
Definition decode_SignatureSet : parser SignatureSet :=
  signature_suite ← dec_u16;
  signatures ← dec_vec MAX_CERTIFICATE_SIGNERS decode_SignerSignature;
  let set := mkSignatureSet signature_suite signatures in
  _ ← plift (map_err (λ _, InvalidField "unsorted certificate signers") (validate_order set));
  mret set.

Definition encode_WorkBucketLeaf (l : WorkBucketLeaf) : Writer :=
  enc_fixed l.(wbl_bucket_id) >>>
  enc_fixed l.(wbl_operator_pubkey) >>>
  enc_u8 l.(wbl_hns_address_version) >>>
  enc_bytes l.(wbl_hns_address_hash) >>>
  enc_fixed l.(wbl_credited_work).
Definition decode_WorkBucketLeaf : parser WorkBucketLeaf :=
  bucket_id ← dec_array 32;
  operator_pubkey ← dec_array 32;
  hns_address_version ← dec_u8;
  hns_address_hash ← dec_bytes_max MAX_ADDRESS_HASH_BYTES;
  credited_work ← dec_array 64;
  mret (mkWorkBucketLeaf bucket_id operator_pubkey hns_address_version hns_address_hash
          credited_work).

Definition encode_ServiceBucketLeaf (l : ServiceBucketLeaf) : Writer :=
  enc_fixed l.(sbl_bucket_id) >>>
  enc_fixed l.(sbl_operator_pubkey) >>>
  enc_u8 l.(sbl_hns_address_version) >>>
  enc_bytes l.(sbl_hns_address_hash) >>>
  enc_fixed l.(sbl_certified_service_credit).
Definition decode_ServiceBucketLeaf : parser ServiceBucketLeaf :=
  bucket_id ← dec_array 32;
  operator_pubkey ← dec_array 32;
  hns_address_version ← dec_u8;
  hns_address_hash ← dec_bytes_max MAX_ADDRESS_HASH_BYTES;
  certified_service_credit ← dec_array 64;
  mret (mkServiceBucketLeaf bucket_id operator_pubkey hns_address_version hns_address_hash
          certified_service_credit).

(** ** Their well-formedness and codec laws *)

Definition ok_hashes (limits : DecodeLimits) (l : list Hash256) : Prop :=
  ok_vec limits MAX_OBJECT_HASHES (arr 32) l.
Definition ok_u512s (limits : DecodeLimits) (l : list U512) : Prop :=
  ok_vec limits MAX_OBJECT_HASHES (arr 64) l.
Definition ok_sig (limits : DecodeLimits) (s : SignatureBytes) : Prop :=
  byte_count limits MAX_SIGNATURE_BYTES (len s).
Definition ok_SignerSignature limits (s : SignerSignature) : Prop :=
  arr 32 s.(signer_pubkey) ∧ ok_sig limits s.(ss_signature).
Definition ok_SignatureSet limits (s : SignatureSet) : Prop :=
  uint 16 s.(signature_suite) ∧
  ok_vec limits MAX_CERTIFICATE_SIGNERS (ok_SignerSignature limits) s.(signatures) ∧
  validate_order s = Ok tt.
Definition ok_WorkBucketLeaf limits (l : WorkBucketLeaf) : Prop :=
  arr 32 l.(wbl_bucket_id) ∧ arr 32 l.(wbl_operator_pubkey) ∧
  uint 8 l.(wbl_hns_address_version) ∧
  byte_count limits MAX_ADDRESS_HASH_BYTES (len l.(wbl_hns_address_hash)) ∧
  arr 64 l.(wbl_credited_work).
Definition ok_ServiceBucketLeaf limits (l : ServiceBucketLeaf) : Prop :=
  arr 32 l.(sbl_bucket_id) ∧ arr 32 l.(sbl_operator_pubkey) ∧
  uint 8 l.(sbl_hns_address_version) ∧
  byte_count limits MAX_ADDRESS_HASH_BYTES (len l.(sbl_hns_address_hash)) ∧
  arr 64 l.(sbl_certified_service_credit).

#[export] Instance encode_hashes_appends l : Appends (encode_hashes l).
Proof. unfold encode_hashes. apply _. Qed.
#[export] Instance encode_u512s_appends l : Appends (encode_u512s l).
Proof. unfold encode_u512s. apply _. Qed.
#[export] Instance encode_SignatureBytes_appends s : Appends (encode_SignatureBytes s).
Proof. unfold encode_SignatureBytes. apply _. Qed.
#[export] Instance encode_SignerSignature_appends s : Appends (encode_SignerSignature s).
Proof. unfold encode_SignerSignature. apply _. Qed.
#[export] Instance encode_SignatureSet_appends s : Appends (encode_SignatureSet s).
Proof. unfold encode_SignatureSet. apply _. Qed.
#[export] Instance encode_WorkBucketLeaf_appends l : Appends (encode_WorkBucketLeaf l).
Proof. unfold encode_WorkBucketLeaf. apply _. Qed.
#[export] Instance encode_ServiceBucketLeaf_appends l : Appends (encode_ServiceBucketLeaf l).
Proof. unfold encode_ServiceBucketLeaf. apply _. Qed.

#[global] Typeclasses Opaque encode_hashes encode_u512s encode_SignatureBytes
  encode_SignerSignature encode_SignatureSet encode_WorkBucketLeaf encode_ServiceBucketLeaf.

Lemma reads_hashes limits l :
  ok_hashes limits l → reads limits decode_hashes (encode_hashes l) l.
Proof. apply reads_vec_ok; [apply _|]. intros x. apply reads_array. Qed.
Lemma accepts_hashes limits :
  accepts limits decode_hashes (λ l bs, ok_hashes limits l ∧ bs = encode_hashes l []).
Proof. apply accepts_vec; [apply _|]. apply accepts_array. Qed.
Lemma reads_u512s limits l :
  ok_u512s limits l → reads limits decode_u512s (encode_u512s l) l.
Proof. apply reads_vec_ok; [apply _|]. intros x. apply reads_array. Qed.
Lemma accepts_u512s limits :
  accepts limits decode_u512s (λ l bs, ok_u512s limits l ∧ bs = encode_u512s l []).
Proof. apply accepts_vec; [apply _|]. apply accepts_array. Qed.
Lemma reads_sig limits s :
  ok_sig limits s → reads limits decode_SignatureBytes (encode_SignatureBytes s) s.
Proof. apply reads_bytes. Qed.
Lemma accepts_sig limits :
  accepts limits decode_SignatureBytes
    (λ s bs, ok_sig limits s ∧ bs = encode_SignatureBytes s []).
Proof. apply accepts_bytes. Qed.
#[export] Hint Resolve reads_hashes reads_u512s reads_sig : codec.
#[export] Hint Extern 1 (accepts _ decode_hashes _) => apply accepts_hashes : codec.
#[export] Hint Extern 1 (accepts _ decode_u512s _) => apply accepts_u512s : codec.
#[export] Hint Extern 1 (accepts _ decode_SignatureBytes _) => apply accepts_sig : codec.

Lemma reads_SignerSignature limits s :
  ok_SignerSignature limits s → reads limits decode_SignerSignature (encode_SignerSignature s) s.
Proof.
  intros [? ?]. unfold decode_SignerSignature, encode_SignerSignature. solve_reads. by destruct s.
Qed.
Lemma accepts_SignerSignature limits :
  accepts limits decode_SignerSignature
    (λ s bs, ok_SignerSignature limits s ∧ bs = encode_SignerSignature s []).
Proof.
  unfold decode_SignerSignature. solve_accepts. split; [done|].
  unfold encode_SignerSignature. by flatten_writers.
Qed.
#[export] Hint Resolve reads_SignerSignature : codec.
#[export] Hint Extern 1 (accepts _ decode_SignerSignature _) =>
  apply accepts_SignerSignature : codec.

Lemma reads_SignatureSet limits s :
  ok_SignatureSet limits s → reads limits decode_SignatureSet (encode_SignatureSet s) s.
Proof.
  intros (? & ? & Hv). unfold decode_SignatureSet, encode_SignatureSet. solve_reads.
  - apply map_err_ok. by destruct s.
  - by destruct s.
Qed.
Lemma accepts_SignatureSet limits :
  accepts limits decode_SignatureSet
    (λ s bs, ok_SignatureSet limits s ∧ bs = encode_SignatureSet s []).
Proof.
  unfold decode_SignatureSet. solve_accepts. split.
  - apply map_err_ok in Hvalid. split_and!; [done..|]. by destruct x1.
  - unfold encode_SignatureSet. by flatten_writers.
Qed.
Lemma reads_WorkBucketLeaf limits l :
  ok_WorkBucketLeaf limits l → reads limits decode_WorkBucketLeaf (encode_WorkBucketLeaf l) l.
Proof.
  intros (?&?&?&?&?). unfold decode_WorkBucketLeaf, encode_WorkBucketLeaf. solve_reads.
  by destruct l.
Qed.
Lemma accepts_WorkBucketLeaf limits :
  accepts limits decode_WorkBucketLeaf
    (λ l bs, ok_WorkBucketLeaf limits l ∧ bs = encode_WorkBucketLeaf l []).
Proof.
  unfold decode_WorkBucketLeaf. solve_accepts. split; [done|].
  unfold encode_WorkBucketLeaf. by flatten_writers.
Qed.
Lemma reads_ServiceBucketLeaf limits l :
  ok_ServiceBucketLeaf limits l →
  reads limits decode_ServiceBucketLeaf (encode_ServiceBucketLeaf l) l.
Proof.
  intros (?&?&?&?&?). unfold decode_ServiceBucketLeaf, encode_ServiceBucketLeaf. solve_reads.
  by destruct l.
Qed.
Lemma accepts_ServiceBucketLeaf limits :
  accepts limits decode_ServiceBucketLeaf
    (λ l bs, ok_ServiceBucketLeaf limits l ∧ bs = encode_ServiceBucketLeaf l []).
Proof.
  unfold decode_ServiceBucketLeaf. solve_accepts. split; [done|].
  unfold encode_ServiceBucketLeaf. by flatten_writers.
Qed.
#[export] Hint Resolve reads_SignatureSet reads_WorkBucketLeaf reads_ServiceBucketLeaf : codec.
#[export] Hint Extern 1 (accepts _ decode_SignatureSet _) => apply accepts_SignatureSet : codec.
#[export] Hint Extern 1 (accepts _ decode_WorkBucketLeaf _) =>
  apply accepts_WorkBucketLeaf : codec.
#[export] Hint Extern 1 (accepts _ decode_ServiceBucketLeaf _) =>
  apply accepts_ServiceBucketLeaf : codec.

(** ** Object identity *)

(** [trait UnsignedObject]: what a signature covers. *)
Class UnsignedObject (A : Type) := {
  DOMAIN_TAG : bytes;
  encode_unsigned : A → Writer;
}.

Definition unsigned_bytes `{UnsignedObject A} (x : A) : bytes := into_bytes (encode_unsigned x).

(** [domain_hash] asserts that the tag is ASCII, which every tag of the code is. *)
Definition object_id `{Digests, UnsignedObject A} (x : A) : Hash256 :=
  domain_hash DOMAIN_TAG (unsigned_bytes x).

(** The message an object's ID is the digest of. *)
Definition id_preimage `{UnsignedObject A} (x : A) : bytes :=
  domain_preimage DOMAIN_TAG (unsigned_bytes x).

(** How an object's wire form extends its unsigned bytes: blanking the
    signature gives an object of the same identity whose encoding is the
    unsigned bytes followed by a constant. *)
Class UnsignedLaws (A : Type) `{Codec A, !CodecLaws A, !UnsignedObject A} := {
  strip_signature : A → A;
  blank_signature : bytes;
  encode_strip : ∀ x, encode (strip_signature x) [] = unsigned_bytes x ++ blank_signature;
  strip_ok : ∀ limits x, codec_ok limits x → codec_ok limits (strip_signature x);
  tag_short : len DOMAIN_TAG < 2 ^ 64;
}.

Section Identity.
Context `{Digests} {A : Type} `{UnsignedLaws A}.

Lemma unsigned_bytes_inj limits (x y : A) :
  codec_ok limits x → codec_ok limits y →
  len (to_canonical_bytes (strip_signature x)) < 2 ^ 64 →
  unsigned_bytes x = unsigned_bytes y → strip_signature x = strip_signature y.
Proof.
  intros Hx Hy Hl E. eapply (to_canonical_inj limits); [by apply strip_ok..|done|].
  unfold to_canonical_bytes, into_bytes. by rewrite !encode_strip, E.
Qed.

(** Equal identities mean equal unsigned contents, or the two hashed messages
    are a digest collision. *)
Lemma object_id_binding limits (x y : A) :
  codec_ok limits x → codec_ok limits y →
  len (to_canonical_bytes (strip_signature x)) < 2 ^ 64 →
  object_id x = object_id y →
  strip_signature x = strip_signature y ∨ collides 32 (id_preimage x) (id_preimage y).
Proof.
  intros Hx Hy Hl E. apply domain_hash_binding in E as [[_ E]|?]; [|by right|apply tag_short..].
  left. by eapply unsigned_bytes_inj.
Qed.
End Identity.
