(* ===== verification/Objects.v ===== *)
(** * Protocol objects ([crates/meshmine-types/src/objects.rs])

    The fifteen MM-0001 objects. For each: the record, the unsigned encoding a
    signature covers, the wire encoding, the decoder with its validity check,
    the well-formedness predicate [ok_*] (the ranges of its Rust field types,
    the decoder's bounds, the validity check), and the proofs that encoder and
    decoder satisfy the codec contract of [Codec.v] and the identity contract
    of [Types.v]. *)

From S2P Require Import Prelude Codec Hash Types.

Definition encode_prefix (protocol_version network_id : Z) : Writer :=
  enc_u16 protocol_version >>> enc_u8 network_id.
Definition decode_prefix : parser (Z * Z) :=
  protocol_version ← dec_u16; network_id ← dec_u8; mret (protocol_version, network_id).

#[export] Instance encode_prefix_appends v n : Appends (encode_prefix v n).
Proof. unfold encode_prefix. apply _. Qed.
Lemma reads_prefix limits v n :
  uint 16 v → uint 8 n → reads limits decode_prefix (encode_prefix v n) (v, n).
Proof. intros. unfold decode_prefix, encode_prefix. by solve_reads. Qed.
Lemma accepts_prefix limits :
  accepts limits decode_prefix
    (λ p bs, (uint 16 p.1 ∧ uint 8 p.2) ∧ bs = encode_prefix p.1 p.2 []).
Proof. unfold decode_prefix. solve_accepts. split; [done|]. unfold encode_prefix. by flatten_writers. Qed.
#[export] Hint Resolve reads_prefix : codec.
#[export] Hint Extern 1 (accepts _ decode_prefix _) => apply accepts_prefix : codec.
#[export] Hint Extern 2 (reads _ (dec_vec _ _) (encode_hashes _) _) =>
  unfold encode_hashes; eapply reads_vec_ok; [apply _| |eassumption] : codec.

(** Blanking a signature keeps every other constraint, and an empty signature
    is within any limits that admitted the original one. *)
Lemma ok_sig_empty limits s : ok_sig limits s → ok_sig limits [].
Proof.
  unfold ok_sig, byte_count, uint.
  pose proof (len_nonneg s). pose proof (@len_nil byte). lia.
Qed.
Lemma ok_SignatureSet_empty limits s :
  ok_SignatureSet limits s → ok_SignatureSet limits empty_ed25519.
Proof.
  intros (_ & (Hn & _) & _). split; [by vm_compute|]. split; [|done]. split; [|constructor].
  revert Hn. unfold item_count, uint. cbn [signatures empty_ed25519].
  pose proof (len_nonneg s.(signatures)). pose proof (@len_nil SignerSignature). lia.
Qed.
Ltac blank_ok :=
  repeat match goal with H : _ ∧ _ |- _ => destruct H end;
  repeat first [split; [assumption|] | split; [by eapply ok_sig_empty|]
    | split; [by eapply ok_SignatureSet_empty|]];
  first [assumption | by eapply ok_sig_empty | by eapply ok_SignatureSet_empty | idtac].
Ltac destruct_unit := repeat match goal with u : () |- _ => destruct u end; done.

(** ** [OperatorRecordV2] *)

Record OperatorRecordV2 := mkOperatorRecordV2 {
  op_protocol_version : Z;
  op_network_id : Z;
  op_operator_pubkey : bytes;
  op_sequence : Z;
  op_supported_features : Z;
  op_payout_bucket_ids : list Hash256;
  op_contact_metadata_hash : option Hash256;
  op_signature_suite : Z;
  op_signature : SignatureBytes;
}.

#[export] Instance OperatorRecordV2_eq_dec : EqDecision OperatorRecordV2.
Proof. solve_decision. Defined.

Definition encode_unsigned_OperatorRecordV2 (o : OperatorRecordV2) : Writer :=
  encode_prefix o.(op_protocol_version) o.(op_network_id) >>>
  enc_fixed o.(op_operator_pubkey) >>>
  enc_u64 o.(op_sequence) >>>
  enc_u64 o.(op_supported_features) >>>
  encode_hashes o.(op_payout_bucket_ids) >>>
  encode_option o.(op_contact_metadata_hash) enc_fixed >>>
  enc_u16 o.(op_signature_suite).

#[export] Instance OperatorRecordV2_unsigned : UnsignedObject OperatorRecordV2 := {|
  DOMAIN_TAG := str "meshmine/operator/v2";
  encode_unsigned := encode_unsigned_OperatorRecordV2;
|}.

Definition encode_OperatorRecordV2 (o : OperatorRecordV2) : Writer :=
  encode_unsigned_OperatorRecordV2 o >>> encode_SignatureBytes o.(op_signature).

Definition decode_OperatorRecordV2 : parser OperatorRecordV2 :=
  '(protocol_version, network_id) ← decode_prefix;
  operator_pubkey ← dec_array 32;
  sequence ← dec_u64;
  supported_features ← dec_u64;
  payout_bucket_ids ← decode_hashes;
  contact_metadata_hash ← dec_option (dec_array 32);
  signature_suite ← dec_u16;
  signature ← decode_SignatureBytes;
  mret (mkOperatorRecordV2 protocol_version network_id operator_pubkey sequence
         supported_features payout_bucket_ids contact_metadata_hash signature_suite
         signature).

Definition ok_OperatorRecordV2 (limits : DecodeLimits) (o : OperatorRecordV2) : Prop :=
  uint 16 o.(op_protocol_version) ∧
  uint 8 o.(op_network_id) ∧
  arr 32 o.(op_operator_pubkey) ∧
  uint 64 o.(op_sequence) ∧
  uint 64 o.(op_supported_features) ∧
  ok_hashes limits o.(op_payout_bucket_ids) ∧
  ok_option (arr 32) o.(op_contact_metadata_hash) ∧
  uint 16 o.(op_signature_suite) ∧
  ok_sig limits o.(op_signature).

#[export] Instance encode_OperatorRecordV2_appends o : Appends (encode_OperatorRecordV2 o).
Proof. unfold encode_OperatorRecordV2, encode_unsigned_OperatorRecordV2. apply _. Qed.

Lemma reads_OperatorRecordV2 limits o :
  ok_OperatorRecordV2 limits o →
  reads limits decode_OperatorRecordV2 (encode_OperatorRecordV2 o) o.
Proof.
  unfold ok_OperatorRecordV2. intros Hok. destruct_and!.
  unfold decode_OperatorRecordV2, encode_OperatorRecordV2, encode_unsigned_OperatorRecordV2.
  solve_reads. by destruct o.
Qed.
Lemma accepts_OperatorRecordV2 limits :
  accepts limits decode_OperatorRecordV2
    (λ o bs, ok_OperatorRecordV2 limits o ∧ bs = encode_OperatorRecordV2 o []).
Proof.
  unfold decode_OperatorRecordV2. solve_accepts. split.
  - destruct_and?. repeat (split; [done|]). done.
  - unfold encode_OperatorRecordV2, encode_unsigned_OperatorRecordV2. by flatten_writers.
Qed.
#[export] Hint Resolve reads_OperatorRecordV2 : codec.
#[export] Hint Extern 1 (accepts _ decode_OperatorRecordV2 _) =>
  apply accepts_OperatorRecordV2 : codec.

#[export] Instance OperatorRecordV2_codec : Codec OperatorRecordV2 := {|
  encode := encode_OperatorRecordV2;
  decode := decode_OperatorRecordV2;
|}.
#[export] Instance OperatorRecordV2_codec_laws : CodecLaws OperatorRecordV2 := {|
  codec_ok := ok_OperatorRecordV2;
  encode_appends := encode_OperatorRecordV2_appends;
  decode_encode := reads_OperatorRecordV2;
  decode_sound := accepts_OperatorRecordV2;
|}.

(** The object with its signature blanked. *)
Definition strip_OperatorRecordV2 (o : OperatorRecordV2) : OperatorRecordV2 :=
  mkOperatorRecordV2 o.(op_protocol_version) o.(op_network_id) o.(op_operator_pubkey)
    o.(op_sequence) o.(op_supported_features) o.(op_payout_bucket_ids)
    o.(op_contact_metadata_hash) o.(op_signature_suite) [].
#[export] Instance OperatorRecordV2_unsigned_laws : UnsignedLaws OperatorRecordV2.
Proof.
  refine {| strip_signature := strip_OperatorRecordV2; blank_signature := encode_SignatureBytes [] [] |}.
  - intros o. cbn [encode OperatorRecordV2_codec]. unfold encode_OperatorRecordV2.
    by rewrite wseq_nil by apply _.
  - intros limits o Hok. cbn [codec_ok OperatorRecordV2_codec_laws] in *.
    unfold ok_OperatorRecordV2 in *. blank_ok.
  - by vm_compute.
Defined.

(** ** [PayoutBucketV2] *)

Record PayoutBucketV2 := mkPayoutBucketV2 {
  pb_protocol_version : Z;
  pb_network_id : Z;
  pb_operator_pubkey : bytes;
  pb_bucket_sequence : Z;
  pb_hns_address_version : Z;
  pb_hns_address_hash : bytes;
  pb_activation_height : Z;
  pb_retirement_height : option Z;
  pb_signature : SignatureBytes;
}.

#[export] Instance PayoutBucketV2_eq_dec : EqDecision PayoutBucketV2.
Proof. solve_decision. Defined.

Definition encode_unsigned_PayoutBucketV2 (o : PayoutBucketV2) : Writer :=
  encode_prefix o.(pb_protocol_version) o.(pb_network_id) >>>
  enc_fixed o.(pb_operator_pubkey) >>>
  enc_u64 o.(pb_bucket_sequence) >>>
  enc_u8 o.(pb_hns_address_version) >>>
  enc_bytes o.(pb_hns_address_hash) >>>
  enc_u32 o.(pb_activation_height) >>>
  encode_option o.(pb_retirement_height) enc_u32.

#[export] Instance PayoutBucketV2_unsigned : UnsignedObject PayoutBucketV2 := {|
  DOMAIN_TAG := str "meshmine/payout-bucket/v2";
  encode_unsigned := encode_unsigned_PayoutBucketV2;
|}.

Definition encode_PayoutBucketV2 (o : PayoutBucketV2) : Writer :=
  encode_unsigned_PayoutBucketV2 o >>> encode_SignatureBytes o.(pb_signature).

Definition decode_PayoutBucketV2 : parser PayoutBucketV2 :=
  '(protocol_version, network_id) ← decode_prefix;
  operator_pubkey ← dec_array 32;
  bucket_sequence ← dec_u64;
  hns_address_version ← dec_u8;
  hns_address_hash ← dec_bytes_max MAX_ADDRESS_HASH_BYTES;
  activation_height ← dec_u32;
  retirement_height ← dec_option dec_u32;
  signature ← decode_SignatureBytes;
  mret (mkPayoutBucketV2 protocol_version network_id operator_pubkey bucket_sequence
         hns_address_version hns_address_hash activation_height retirement_height
         signature).

Definition ok_PayoutBucketV2 (limits : DecodeLimits) (o : PayoutBucketV2) : Prop :=
  uint 16 o.(pb_protocol_version) ∧
  uint 8 o.(pb_network_id) ∧
  arr 32 o.(pb_operator_pubkey) ∧
  uint 64 o.(pb_bucket_sequence) ∧
  uint 8 o.(pb_hns_address_version) ∧
  byte_count limits MAX_ADDRESS_HASH_BYTES (len o.(pb_hns_address_hash)) ∧
  uint 32 o.(pb_activation_height) ∧
  ok_option (uint 32) o.(pb_retirement_height) ∧
  ok_sig limits o.(pb_signature).

#[export] Instance encode_PayoutBucketV2_appends o : Appends (encode_PayoutBucketV2 o).
Proof. unfold encode_PayoutBucketV2, encode_unsigned_PayoutBucketV2. apply _. Qed.

Lemma reads_PayoutBucketV2 limits o :
  ok_PayoutBucketV2 limits o →
  reads limits decode_PayoutBucketV2 (encode_PayoutBucketV2 o) o.
Proof.
  unfold ok_PayoutBucketV2. intros Hok. destruct_and!.
  unfold decode_PayoutBucketV2, encode_PayoutBucketV2, encode_unsigned_PayoutBucketV2.
  solve_reads. by destruct o.
Qed.
Lemma accepts_PayoutBucketV2 limits :
  accepts limits decode_PayoutBucketV2
    (λ o bs, ok_PayoutBucketV2 limits o ∧ bs = encode_PayoutBucketV2 o []).
Proof.
  unfold decode_PayoutBucketV2. solve_accepts. split.
  - destruct_and?. repeat (split; [done|]). done.
  - unfold encode_PayoutBucketV2, encode_unsigned_PayoutBucketV2. by flatten_writers.
Qed.
#[export] Hint Resolve reads_PayoutBucketV2 : codec.
#[export] Hint Extern 1 (accepts _ decode_PayoutBucketV2 _) =>
  apply accepts_PayoutBucketV2 : codec.

#[export] Instance PayoutBucketV2_codec : Codec PayoutBucketV2 := {|
  encode := encode_PayoutBucketV2;
  decode := decode_PayoutBucketV2;
|}.
#[export] Instance PayoutBucketV2_codec_laws : CodecLaws PayoutBucketV2 := {|
  codec_ok := ok_PayoutBucketV2;
  encode_appends := encode_PayoutBucketV2_appends;
  decode_encode := reads_PayoutBucketV2;
  decode_sound := accepts_PayoutBucketV2;
|}.

(** The object with its signature blanked. *)
Definition strip_PayoutBucketV2 (o : PayoutBucketV2) : PayoutBucketV2 :=
  mkPayoutBucketV2 o.(pb_protocol_version) o.(pb_network_id) o.(pb_operator_pubkey)
    o.(pb_bucket_sequence) o.(pb_hns_address_version) o.(pb_hns_address_hash)
    o.(pb_activation_height) o.(pb_retirement_height) [].
#[export] Instance PayoutBucketV2_unsigned_laws : UnsignedLaws PayoutBucketV2.
Proof.
  refine {| strip_signature := strip_PayoutBucketV2; blank_signature := encode_SignatureBytes [] [] |}.
  - intros o. cbn [encode PayoutBucketV2_codec]. unfold encode_PayoutBucketV2.
    by rewrite wseq_nil by apply _.
  - intros limits o Hok. cbn [codec_ok PayoutBucketV2_codec_laws] in *.
    unfold ok_PayoutBucketV2 in *. blank_ok.
  - by vm_compute.
Defined.

(** ** [PayoutSnapshotV2] *)

Record PayoutSnapshotV2 := mkPayoutSnapshotV2 {
  psn_protocol_version : Z;
  psn_network_id : Z;
  psn_snapshot_sequence : Z;
  psn_previous_snapshot_id : Hash256;
  psn_first_session_close_id : Hash256;
  psn_last_session_close_id : Hash256;
  psn_close_anchor_height : Z;
  psn_work_window_target : U512;
  psn_actual_work_in_window : U512;
  psn_work_buckets : list WorkBucketLeaf;
  psn_service_buckets : list ServiceBucketLeaf;
  psn_share_set_root : Hash256;
  psn_service_set_root : Hash256;
  psn_settlement_committee_id : Hash256;
  psn_signer_set : SignatureSet;
}.

#[export] Instance PayoutSnapshotV2_eq_dec : EqDecision PayoutSnapshotV2.
Proof. solve_decision. Defined.

Definition encode_unsigned_PayoutSnapshotV2 (o : PayoutSnapshotV2) : Writer :=
  encode_prefix o.(psn_protocol_version) o.(psn_network_id) >>>
  enc_u64 o.(psn_snapshot_sequence) >>>
  enc_fixed o.(psn_previous_snapshot_id) >>>
  enc_fixed o.(psn_first_session_close_id) >>>
  enc_fixed o.(psn_last_session_close_id) >>>
  enc_u32 o.(psn_close_anchor_height) >>>
  enc_fixed o.(psn_work_window_target) >>>
  enc_fixed o.(psn_actual_work_in_window) >>>
  enc_vec encode_WorkBucketLeaf o.(psn_work_buckets) >>>
  enc_vec encode_ServiceBucketLeaf o.(psn_service_buckets) >>>
  enc_fixed o.(psn_share_set_root) >>>
  enc_fixed o.(psn_service_set_root) >>>
  enc_fixed o.(psn_settlement_committee_id).

#[export] Instance PayoutSnapshotV2_unsigned : UnsignedObject PayoutSnapshotV2 := {|
  DOMAIN_TAG := str "meshmine/payout-snapshot/v2";
  encode_unsigned := encode_unsigned_PayoutSnapshotV2;
|}.

Definition encode_PayoutSnapshotV2 (o : PayoutSnapshotV2) : Writer :=
  encode_unsigned_PayoutSnapshotV2 o >>> encode_SignatureSet o.(psn_signer_set).

Definition validate_PayoutSnapshotV2 (s : PayoutSnapshotV2) : result ObjectError unit :=
  _ ← validate_bucket_order s.(psn_work_buckets) wbl_bucket_id;
  _ ← validate_bucket_order s.(psn_service_buckets) sbl_bucket_id;
  _ ← validate_order s.(psn_signer_set);
  Ok tt.

Definition decode_PayoutSnapshotV2 : parser PayoutSnapshotV2 :=
  '(protocol_version, network_id) ← decode_prefix;
  snapshot_sequence ← dec_u64;
  previous_snapshot_id ← dec_array 32;
  first_session_close_id ← dec_array 32;
  last_session_close_id ← dec_array 32;
  close_anchor_height ← dec_u32;
  work_window_target ← dec_array 64;
  actual_work_in_window ← dec_array 64;
  work_buckets ← dec_vec MAX_BUCKETS decode_WorkBucketLeaf;
  service_buckets ← dec_vec MAX_BUCKETS decode_ServiceBucketLeaf;
  share_set_root ← dec_array 32;
  service_set_root ← dec_array 32;
  settlement_committee_id ← dec_array 32;
  signer_set ← decode_SignatureSet;
  let result := mkPayoutSnapshotV2 protocol_version network_id snapshot_sequence previous_snapshot_id
         first_session_close_id last_session_close_id close_anchor_height
         work_window_target actual_work_in_window work_buckets service_buckets
         share_set_root service_set_root settlement_committee_id signer_set in
  _ ← plift (map_err (λ _, InvalidField "invalid payout snapshot ordering") (validate_PayoutSnapshotV2 result));
  mret result.

Definition ok_PayoutSnapshotV2 (limits : DecodeLimits) (o : PayoutSnapshotV2) : Prop :=
  uint 16 o.(psn_protocol_version) ∧
  uint 8 o.(psn_network_id) ∧
  uint 64 o.(psn_snapshot_sequence) ∧
  arr 32 o.(psn_previous_snapshot_id) ∧
  arr 32 o.(psn_first_session_close_id) ∧
  arr 32 o.(psn_last_session_close_id) ∧
  uint 32 o.(psn_close_anchor_height) ∧
  arr 64 o.(psn_work_window_target) ∧
  arr 64 o.(psn_actual_work_in_window) ∧
  ok_vec limits MAX_BUCKETS (ok_WorkBucketLeaf limits) o.(psn_work_buckets) ∧
  ok_vec limits MAX_BUCKETS (ok_ServiceBucketLeaf limits) o.(psn_service_buckets) ∧
  arr 32 o.(psn_share_set_root) ∧
  arr 32 o.(psn_service_set_root) ∧
  arr 32 o.(psn_settlement_committee_id) ∧
  ok_SignatureSet limits o.(psn_signer_set) ∧
  validate_PayoutSnapshotV2 o = Ok tt.

#[export] Instance encode_PayoutSnapshotV2_appends o : Appends (encode_PayoutSnapshotV2 o).
Proof. unfold encode_PayoutSnapshotV2, encode_unsigned_PayoutSnapshotV2. apply _. Qed.

Lemma reads_PayoutSnapshotV2 limits o :
  ok_PayoutSnapshotV2 limits o →
  reads limits decode_PayoutSnapshotV2 (encode_PayoutSnapshotV2 o) o.
Proof.
  unfold ok_PayoutSnapshotV2. intros Hok. destruct_and!.
  unfold decode_PayoutSnapshotV2, encode_PayoutSnapshotV2, encode_unsigned_PayoutSnapshotV2.
  solve_reads.
  - apply map_err_ok. by destruct o.
  - by destruct o.
Qed.
Lemma accepts_PayoutSnapshotV2 limits :
  accepts limits decode_PayoutSnapshotV2
    (λ o bs, ok_PayoutSnapshotV2 limits o ∧ bs = encode_PayoutSnapshotV2 o []).
Proof.
  unfold decode_PayoutSnapshotV2. solve_accepts. split.
  - apply map_err_ok in Hvalid. destruct_and?. repeat (split; [done|]). by destruct_unit.
  - unfold encode_PayoutSnapshotV2, encode_unsigned_PayoutSnapshotV2. by flatten_writers.
Qed.
#[export] Hint Resolve reads_PayoutSnapshotV2 : codec.
#[export] Hint Extern 1 (accepts _ decode_PayoutSnapshotV2 _) =>
  apply accepts_PayoutSnapshotV2 : codec.

#[export] Instance PayoutSnapshotV2_codec : Codec PayoutSnapshotV2 := {|
  encode := encode_PayoutSnapshotV2;
  decode := decode_PayoutSnapshotV2;
|}.
#[export] Instance PayoutSnapshotV2_codec_laws : CodecLaws PayoutSnapshotV2 := {|
  codec_ok := ok_PayoutSnapshotV2;
  encode_appends := encode_PayoutSnapshotV2_appends;
  decode_encode := reads_PayoutSnapshotV2;
  decode_sound := accepts_PayoutSnapshotV2;
|}.

(** The object with its signature blanked. *)
Definition strip_PayoutSnapshotV2 (o : PayoutSnapshotV2) : PayoutSnapshotV2 :=
  mkPayoutSnapshotV2 o.(psn_protocol_version) o.(psn_network_id) o.(psn_snapshot_sequence)
    o.(psn_previous_snapshot_id) o.(psn_first_session_close_id)
    o.(psn_last_session_close_id) o.(psn_close_anchor_height) o.(psn_work_window_target)
    o.(psn_actual_work_in_window) o.(psn_work_buckets) o.(psn_service_buckets)
    o.(psn_share_set_root) o.(psn_service_set_root) o.(psn_settlement_committee_id)
    empty_ed25519.
Lemma validate_snapshot_blank o :
  validate_PayoutSnapshotV2 o = Ok tt → validate_PayoutSnapshotV2 (strip_PayoutSnapshotV2 o) = Ok tt.
Proof.
  unfold validate_PayoutSnapshotV2. cbn. destruct (validate_bucket_order _ _); [|done]. cbn.
  by destruct (validate_bucket_order _ _).
Qed.
#[export] Instance PayoutSnapshotV2_unsigned_laws : UnsignedLaws PayoutSnapshotV2.
Proof.
  refine {| strip_signature := strip_PayoutSnapshotV2; blank_signature := encode_SignatureSet empty_ed25519 [] |}.
  - intros o. cbn [encode PayoutSnapshotV2_codec]. unfold encode_PayoutSnapshotV2.
    by rewrite wseq_nil by apply _.
  - intros limits o Hok. cbn [codec_ok PayoutSnapshotV2_codec_laws] in *.
    unfold ok_PayoutSnapshotV2 in *. blank_ok. by apply validate_snapshot_blank.
  - by vm_compute.
Defined.

(** ** [PayoutPlanV2] *)

Record PayoutPlanV2 := mkPayoutPlanV2 {
  pp_protocol_version : Z;
  pp_network_id : Z;
  pp_plan_sequence : Z;
  pp_snapshot_id : Hash256;
  pp_entropy_anchor_start : Z;
  pp_entropy_anchor_count : Z;
  pp_entropy_hashes : list Hash256;
  pp_prior_beacon : Hash256;
  pp_plan_seed : Hash256;
  pp_work_ticket_count : Z;
  pp_service_ticket_count : Z;
  pp_work_winners : list Hash256;
  pp_service_winners : list Hash256;
  pp_selection_transcript_hash : Hash256;
  pp_signer_set : SignatureSet;
}.

#[export] Instance PayoutPlanV2_eq_dec : EqDecision PayoutPlanV2.
Proof. solve_decision. Defined.

Definition encode_unsigned_PayoutPlanV2 (o : PayoutPlanV2) : Writer :=
  encode_prefix o.(pp_protocol_version) o.(pp_network_id) >>>
  enc_u64 o.(pp_plan_sequence) >>>
  enc_fixed o.(pp_snapshot_id) >>>
  enc_u32 o.(pp_entropy_anchor_start) >>>
  enc_u16 o.(pp_entropy_anchor_count) >>>
  encode_hashes o.(pp_entropy_hashes) >>>
  enc_fixed o.(pp_prior_beacon) >>>
  enc_fixed o.(pp_plan_seed) >>>
  enc_u16 o.(pp_work_ticket_count) >>>
  enc_u16 o.(pp_service_ticket_count) >>>
  encode_hashes o.(pp_work_winners) >>>
  encode_hashes o.(pp_service_winners) >>>
  enc_fixed o.(pp_selection_transcript_hash).

#[export] Instance PayoutPlanV2_unsigned : UnsignedObject PayoutPlanV2 := {|
  DOMAIN_TAG := str "meshmine/payout-plan/v2";
  encode_unsigned := encode_unsigned_PayoutPlanV2;
|}.

Definition encode_PayoutPlanV2 (o : PayoutPlanV2) : Writer :=
  encode_unsigned_PayoutPlanV2 o >>> encode_SignatureSet o.(pp_signer_set).

(** The check [PayoutPlanV2::decode] makes on the decoded plan. *)
Definition check_entropy_count (p : PayoutPlanV2) : result CodecError unit :=
  if p.(pp_entropy_anchor_count) =? len p.(pp_entropy_hashes) then Ok tt
  else Err (InvalidField "entropy anchor count does not match entropy hashes").

Definition decode_PayoutPlanV2 : parser PayoutPlanV2 :=
  '(protocol_version, network_id) ← decode_prefix;
  plan_sequence ← dec_u64;
  snapshot_id ← dec_array 32;
  entropy_anchor_start ← dec_u32;
  entropy_anchor_count ← dec_u16;
  entropy_hashes ← decode_hashes;
  prior_beacon ← dec_array 32;
  plan_seed ← dec_array 32;
  work_ticket_count ← dec_u16;
  service_ticket_count ← dec_u16;
  work_winners ← decode_hashes;
  service_winners ← decode_hashes;
  selection_transcript_hash ← dec_array 32;
  signer_set ← decode_SignatureSet;
  let result := mkPayoutPlanV2 protocol_version network_id plan_sequence snapshot_id
         entropy_anchor_start entropy_anchor_count entropy_hashes prior_beacon plan_seed
         work_ticket_count service_ticket_count work_winners service_winners
         selection_transcript_hash signer_set in
  _ ← plift (check_entropy_count result);
  mret result.

Definition ok_PayoutPlanV2 (limits : DecodeLimits) (o : PayoutPlanV2) : Prop :=
  uint 16 o.(pp_protocol_version) ∧
  uint 8 o.(pp_network_id) ∧
  uint 64 o.(pp_plan_sequence) ∧
  arr 32 o.(pp_snapshot_id) ∧
  uint 32 o.(pp_entropy_anchor_start) ∧
  uint 16 o.(pp_entropy_anchor_count) ∧
  ok_hashes limits o.(pp_entropy_hashes) ∧
  arr 32 o.(pp_prior_beacon) ∧
  arr 32 o.(pp_plan_seed) ∧
  uint 16 o.(pp_work_ticket_count) ∧
  uint 16 o.(pp_service_ticket_count) ∧
  ok_hashes limits o.(pp_work_winners) ∧
  ok_hashes limits o.(pp_service_winners) ∧
  arr 32 o.(pp_selection_transcript_hash) ∧
  ok_SignatureSet limits o.(pp_signer_set) ∧
  check_entropy_count o = Ok tt.

#[export] Instance encode_PayoutPlanV2_appends o : Appends (encode_PayoutPlanV2 o).
Proof. unfold encode_PayoutPlanV2, encode_unsigned_PayoutPlanV2. apply _. Qed.

Lemma reads_PayoutPlanV2 limits o :
  ok_PayoutPlanV2 limits o →
  reads limits decode_PayoutPlanV2 (encode_PayoutPlanV2 o) o.
Proof.
  unfold ok_PayoutPlanV2. intros Hok. destruct_and!.
  unfold decode_PayoutPlanV2, encode_PayoutPlanV2, encode_unsigned_PayoutPlanV2.
  solve_reads.
  - by destruct o.
  - by destruct o.
Qed.
Lemma accepts_PayoutPlanV2 limits :
  accepts limits decode_PayoutPlanV2
    (λ o bs, ok_PayoutPlanV2 limits o ∧ bs = encode_PayoutPlanV2 o []).
Proof.
  unfold decode_PayoutPlanV2. solve_accepts. split.
  - destruct_and?. repeat (split; [done|]). by destruct_unit.
  - unfold encode_PayoutPlanV2, encode_unsigned_PayoutPlanV2. by flatten_writers.
Qed.
#[export] Hint Resolve reads_PayoutPlanV2 : codec.
#[export] Hint Extern 1 (accepts _ decode_PayoutPlanV2 _) =>
  apply accepts_PayoutPlanV2 : codec.

#[export] Instance PayoutPlanV2_codec : Codec PayoutPlanV2 := {|
  encode := encode_PayoutPlanV2;
  decode := decode_PayoutPlanV2;
|}.
#[export] Instance PayoutPlanV2_codec_laws : CodecLaws PayoutPlanV2 := {|
  codec_ok := ok_PayoutPlanV2;
  encode_appends := encode_PayoutPlanV2_appends;
  decode_encode := reads_PayoutPlanV2;
  decode_sound := accepts_PayoutPlanV2;
|}.

(** The object with its signature blanked. *)
Definition strip_PayoutPlanV2 (o : PayoutPlanV2) : PayoutPlanV2 :=
  mkPayoutPlanV2 o.(pp_protocol_version) o.(pp_network_id) o.(pp_plan_sequence)
    o.(pp_snapshot_id) o.(pp_entropy_anchor_start) o.(pp_entropy_anchor_count)
    o.(pp_entropy_hashes) o.(pp_prior_beacon) o.(pp_plan_seed) o.(pp_work_ticket_count)
    o.(pp_service_ticket_count) o.(pp_work_winners) o.(pp_service_winners)
    o.(pp_selection_transcript_hash) empty_ed25519.
#[export] Instance PayoutPlanV2_unsigned_laws : UnsignedLaws PayoutPlanV2.
Proof.
  refine {| strip_signature := strip_PayoutPlanV2; blank_signature := encode_SignatureSet empty_ed25519 [] |}.
  - intros o. cbn [encode PayoutPlanV2_codec]. unfold encode_PayoutPlanV2.
    by rewrite wseq_nil by apply _.
  - intros limits o Hok. cbn [codec_ok PayoutPlanV2_codec_laws] in *.
    unfold ok_PayoutPlanV2 in *. blank_ok.
  - by vm_compute.
Defined.

(** ** [TemplateCoreV2] *)

Record TemplateCoreV2 := mkTemplateCoreV2 {
  tc_protocol_version : Z;
  tc_network_id : Z;
  tc_hns_parent_hash : Hash256;
  tc_hns_parent_height : Z;
  tc_operator_pubkey : bytes;
  tc_operator_fee_bucket_id : Hash256;
  tc_payout_snapshot_id : Hash256;
  tc_payout_plan_id : Hash256;
  tc_plan_sequence : Z;
  tc_ordered_non_coinbase_txids : list Hash256;
  tc_ordered_claim_ids : list Hash256;
  tc_ordered_airdrop_ids : list Hash256;
  tc_block_version : Z;
  tc_bits : Z;
  tc_minimum_ntime : Z;
  tc_policy_commitment : Hash256;
}.

#[export] Instance TemplateCoreV2_eq_dec : EqDecision TemplateCoreV2.
Proof. solve_decision. Defined.

Definition encode_unsigned_TemplateCoreV2 (o : TemplateCoreV2) : Writer :=
  encode_prefix o.(tc_protocol_version) o.(tc_network_id) >>>
  enc_fixed o.(tc_hns_parent_hash) >>>
  enc_u32 o.(tc_hns_parent_height) >>>
  enc_fixed o.(tc_operator_pubkey) >>>
  enc_fixed o.(tc_operator_fee_bucket_id) >>>
  enc_fixed o.(tc_payout_snapshot_id) >>>
  enc_fixed o.(tc_payout_plan_id) >>>
  enc_u64 o.(tc_plan_sequence) >>>
  encode_hashes o.(tc_ordered_non_coinbase_txids) >>>
  encode_hashes o.(tc_ordered_claim_ids) >>>
  encode_hashes o.(tc_ordered_airdrop_ids) >>>
  enc_u32 o.(tc_block_version) >>>
  enc_u32 o.(tc_bits) >>>
  enc_u64 o.(tc_minimum_ntime) >>>
  enc_fixed o.(tc_policy_commitment).

#[export] Instance TemplateCoreV2_unsigned : UnsignedObject TemplateCoreV2 := {|
  DOMAIN_TAG := str "meshmine/template-core/v2";
  encode_unsigned := encode_unsigned_TemplateCoreV2;
|}.

Definition encode_TemplateCoreV2 (o : TemplateCoreV2) : Writer := encode_unsigned_TemplateCoreV2 o.

Definition decode_TemplateCoreV2 : parser TemplateCoreV2 :=
  '(protocol_version, network_id) ← decode_prefix;
  hns_parent_hash ← dec_array 32;
  hns_parent_height ← dec_u32;
  operator_pubkey ← dec_array 32;
  operator_fee_bucket_id ← dec_array 32;
  payout_snapshot_id ← dec_array 32;
  payout_plan_id ← dec_array 32;
  plan_sequence ← dec_u64;
  ordered_non_coinbase_txids ← decode_hashes;
  ordered_claim_ids ← decode_hashes;
  ordered_airdrop_ids ← decode_hashes;
  block_version ← dec_u32;
  bits ← dec_u32;
  minimum_ntime ← dec_u64;
  policy_commitment ← dec_array 32;
  mret (mkTemplateCoreV2 protocol_version network_id hns_parent_hash hns_parent_height
         operator_pubkey operator_fee_bucket_id payout_snapshot_id payout_plan_id
         plan_sequence ordered_non_coinbase_txids ordered_claim_ids ordered_airdrop_ids
         block_version bits minimum_ntime policy_commitment).

Definition ok_TemplateCoreV2 (limits : DecodeLimits) (o : TemplateCoreV2) : Prop :=
  uint 16 o.(tc_protocol_version) ∧
  uint 8 o.(tc_network_id) ∧
  arr 32 o.(tc_hns_parent_hash) ∧
  uint 32 o.(tc_hns_parent_height) ∧
  arr 32 o.(tc_operator_pubkey) ∧
  arr 32 o.(tc_operator_fee_bucket_id) ∧
  arr 32 o.(tc_payout_snapshot_id) ∧
  arr 32 o.(tc_payout_plan_id) ∧
  uint 64 o.(tc_plan_sequence) ∧
  ok_hashes limits o.(tc_ordered_non_coinbase_txids) ∧
  ok_hashes limits o.(tc_ordered_claim_ids) ∧
  ok_hashes limits o.(tc_ordered_airdrop_ids) ∧
  uint 32 o.(tc_block_version) ∧
  uint 32 o.(tc_bits) ∧
  uint 64 o.(tc_minimum_ntime) ∧
  arr 32 o.(tc_policy_commitment).

#[export] Instance encode_TemplateCoreV2_appends o : Appends (encode_TemplateCoreV2 o).
Proof. unfold encode_TemplateCoreV2, encode_unsigned_TemplateCoreV2. apply _. Qed.

Lemma reads_TemplateCoreV2 limits o :
  ok_TemplateCoreV2 limits o →
  reads limits decode_TemplateCoreV2 (encode_TemplateCoreV2 o) o.
Proof.
  unfold ok_TemplateCoreV2. intros Hok. destruct_and!.
  unfold decode_TemplateCoreV2, encode_TemplateCoreV2, encode_unsigned_TemplateCoreV2.
  solve_reads. by destruct o.
Qed.
Lemma accepts_TemplateCoreV2 limits :
  accepts limits decode_TemplateCoreV2
    (λ o bs, ok_TemplateCoreV2 limits o ∧ bs = encode_TemplateCoreV2 o []).
Proof.
  unfold decode_TemplateCoreV2. solve_accepts. split.
  - destruct_and?. repeat (split; [done|]). done.
  - unfold encode_TemplateCoreV2, encode_unsigned_TemplateCoreV2. by flatten_writers.
Qed.
#[export] Hint Resolve reads_TemplateCoreV2 : codec.
#[export] Hint Extern 1 (accepts _ decode_TemplateCoreV2 _) =>
  apply accepts_TemplateCoreV2 : codec.

#[export] Instance TemplateCoreV2_codec : Codec TemplateCoreV2 := {|
  encode := encode_TemplateCoreV2;
  decode := decode_TemplateCoreV2;
|}.
#[export] Instance TemplateCoreV2_codec_laws : CodecLaws TemplateCoreV2 := {|
  codec_ok := ok_TemplateCoreV2;
  encode_appends := encode_TemplateCoreV2_appends;
  decode_encode := reads_TemplateCoreV2;
  decode_sound := accepts_TemplateCoreV2;
|}.

#[export] Instance TemplateCoreV2_unsigned_laws : UnsignedLaws TemplateCoreV2.
Proof.
  refine {| strip_signature o := o; blank_signature := [] |}.
  - intros o. by rewrite app_nil_r.
  - done.
  - by vm_compute.
Defined.

(** ** [BlockBodyPackageV2] *)

Record BlockBodyPackageV2 := mkBlockBodyPackageV2 {
  bbp_protocol_version : Z;
  bbp_network_id : Z;
  bbp_template_core : TemplateCoreV2;
  bbp_template_core_id : Hash256;
  bbp_coinbase_raw : bytes;
  bbp_transactions_raw : list bytes;
  bbp_merkle_root : Hash256;
  bbp_witness_root : Hash256;
  bbp_tree_root : Hash256;
  bbp_reserved_root : Hash256;
  bbp_block_weight : Z;
  bbp_block_sigops : Z;
  bbp_miner_subsidy : Z;
  bbp_ordinary_transaction_fees : Z;
  bbp_claim_airdrop_principal : Z;
  bbp_claim_airdrop_fees : Z;
  bbp_operator_fee_value : Z;
  bbp_work_service_subsidy_value : Z;
  bbp_consensus_validation_result_hash : Hash256;
  bbp_operator_signature : SignatureBytes;
}.

#[export] Instance BlockBodyPackageV2_eq_dec : EqDecision BlockBodyPackageV2.
Proof. solve_decision. Defined.

Definition encode_unsigned_BlockBodyPackageV2 (o : BlockBodyPackageV2) : Writer :=
  encode_prefix o.(bbp_protocol_version) o.(bbp_network_id) >>>
  encode_TemplateCoreV2 o.(bbp_template_core) >>>
  enc_fixed o.(bbp_template_core_id) >>>
  enc_bytes o.(bbp_coinbase_raw) >>>
  enc_vec enc_bytes o.(bbp_transactions_raw) >>>
  enc_fixed o.(bbp_merkle_root) >>>
  enc_fixed o.(bbp_witness_root) >>>
  enc_fixed o.(bbp_tree_root) >>>
  enc_fixed o.(bbp_reserved_root) >>>
  enc_u32 o.(bbp_block_weight) >>>
  enc_u32 o.(bbp_block_sigops) >>>
  enc_u64 o.(bbp_miner_subsidy) >>>
  enc_u64 o.(bbp_ordinary_transaction_fees) >>>
  enc_u64 o.(bbp_claim_airdrop_principal) >>>
  enc_u64 o.(bbp_claim_airdrop_fees) >>>
  enc_u64 o.(bbp_operator_fee_value) >>>
  enc_u64 o.(bbp_work_service_subsidy_value) >>>
  enc_fixed o.(bbp_consensus_validation_result_hash).

#[export] Instance BlockBodyPackageV2_unsigned : UnsignedObject BlockBodyPackageV2 := {|
  DOMAIN_TAG := str "meshmine/body-package/v2";
  encode_unsigned := encode_unsigned_BlockBodyPackageV2;
|}.

Definition encode_BlockBodyPackageV2 (o : BlockBodyPackageV2) : Writer :=
  encode_unsigned_BlockBodyPackageV2 o >>> encode_SignatureBytes o.(bbp_operator_signature).

Definition validate_links `{Digests} (b : BlockBodyPackageV2) : result ObjectError unit :=
  if negb (b.(bbp_protocol_version) =? b.(bbp_template_core).(tc_protocol_version))
     || negb (b.(bbp_network_id) =? b.(bbp_template_core).(tc_network_id))
  then Err (OE_Codec (InvalidField "body and template version/network mismatch"))
  else if bool_decide (object_id b.(bbp_template_core) ≠ b.(bbp_template_core_id))
  then Err (OE_Codec (InvalidField "template core ID mismatch"))
  else Ok tt.

Definition decode_BlockBodyPackageV2 `{Digests} : parser BlockBodyPackageV2 :=
  '(protocol_version, network_id) ← decode_prefix;
  template_core ← decode_TemplateCoreV2;
  template_core_id ← dec_array 32;
  coinbase_raw ← dec_bytes_max MAX_BODY_BYTES;
  transactions_raw ← dec_vec MAX_OBJECT_HASHES (dec_bytes_max MAX_BODY_BYTES);
  merkle_root ← dec_array 32;
  witness_root ← dec_array 32;
  tree_root ← dec_array 32;
  reserved_root ← dec_array 32;
  block_weight ← dec_u32;
  block_sigops ← dec_u32;
  miner_subsidy ← dec_u64;
  ordinary_transaction_fees ← dec_u64;
  claim_airdrop_principal ← dec_u64;
  claim_airdrop_fees ← dec_u64;
  operator_fee_value ← dec_u64;
  work_service_subsidy_value ← dec_u64;
  consensus_validation_result_hash ← dec_array 32;
  operator_signature ← decode_SignatureBytes;
  let result := mkBlockBodyPackageV2 protocol_version network_id template_core template_core_id
         coinbase_raw transactions_raw merkle_root witness_root tree_root reserved_root
         block_weight block_sigops miner_subsidy ordinary_transaction_fees
         claim_airdrop_principal claim_airdrop_fees operator_fee_value
         work_service_subsidy_value consensus_validation_result_hash operator_signature in
  _ ← plift (map_err (λ _, InvalidField "invalid body/template linkage") (validate_links result));
  mret result.

Definition ok_BlockBodyPackageV2 `{Digests} (limits : DecodeLimits) (o : BlockBodyPackageV2) : Prop :=
  uint 16 o.(bbp_protocol_version) ∧
  uint 8 o.(bbp_network_id) ∧
  ok_TemplateCoreV2 limits o.(bbp_template_core) ∧
  arr 32 o.(bbp_template_core_id) ∧
  byte_count limits MAX_BODY_BYTES (len o.(bbp_coinbase_raw)) ∧
  ok_vec limits MAX_OBJECT_HASHES (λ t, byte_count limits MAX_BODY_BYTES (len t)) o.(bbp_transactions_raw) ∧
  arr 32 o.(bbp_merkle_root) ∧
  arr 32 o.(bbp_witness_root) ∧
  arr 32 o.(bbp_tree_root) ∧
  arr 32 o.(bbp_reserved_root) ∧
  uint 32 o.(bbp_block_weight) ∧
  uint 32 o.(bbp_block_sigops) ∧
  uint 64 o.(bbp_miner_subsidy) ∧
  uint 64 o.(bbp_ordinary_transaction_fees) ∧
  uint 64 o.(bbp_claim_airdrop_principal) ∧
  uint 64 o.(bbp_claim_airdrop_fees) ∧
  uint 64 o.(bbp_operator_fee_value) ∧
  uint 64 o.(bbp_work_service_subsidy_value) ∧
  arr 32 o.(bbp_consensus_validation_result_hash) ∧
  ok_sig limits o.(bbp_operator_signature) ∧
  validate_links o = Ok tt.

#[export] Instance encode_BlockBodyPackageV2_appends o : Appends (encode_BlockBodyPackageV2 o).
Proof. unfold encode_BlockBodyPackageV2, encode_unsigned_BlockBodyPackageV2. apply _. Qed.

Lemma reads_BlockBodyPackageV2 `{Digests} limits o :
  ok_BlockBodyPackageV2 limits o →
  reads limits decode_BlockBodyPackageV2 (encode_BlockBodyPackageV2 o) o.
Proof.
  unfold ok_BlockBodyPackageV2. intros Hok. destruct_and!.
  unfold decode_BlockBodyPackageV2, encode_BlockBodyPackageV2, encode_unsigned_BlockBodyPackageV2.
  solve_reads.
  - apply map_err_ok. by destruct o.
  - by destruct o.
Qed.
Lemma accepts_BlockBodyPackageV2 `{Digests} limits :
  accepts limits decode_BlockBodyPackageV2
    (λ o bs, ok_BlockBodyPackageV2 limits o ∧ bs = encode_BlockBodyPackageV2 o []).
Proof.
  unfold decode_BlockBodyPackageV2. solve_accepts. split.
  - apply map_err_ok in Hvalid. destruct_and?. repeat (split; [done|]). by destruct_unit.
  - unfold encode_BlockBodyPackageV2, encode_unsigned_BlockBodyPackageV2. by flatten_writers.
Qed.
#[export] Hint Resolve reads_BlockBodyPackageV2 : codec.
#[export] Hint Extern 1 (accepts _ decode_BlockBodyPackageV2 _) =>
  apply accepts_BlockBodyPackageV2 : codec.

#[export] Instance BlockBodyPackageV2_codec `{Digests} : Codec BlockBodyPackageV2 := {|
  encode := encode_BlockBodyPackageV2;
  decode := decode_BlockBodyPackageV2;
|}.
#[export] Instance BlockBodyPackageV2_codec_laws `{Digests} : CodecLaws BlockBodyPackageV2 := {|
  codec_ok := ok_BlockBodyPackageV2;
  encode_appends := encode_BlockBodyPackageV2_appends;
  decode_encode := reads_BlockBodyPackageV2;
  decode_sound := accepts_BlockBodyPackageV2;
|}.

(** The object with its signature blanked. *)
Definition strip_BlockBodyPackageV2 (o : BlockBodyPackageV2) : BlockBodyPackageV2 :=
  mkBlockBodyPackageV2 o.(bbp_protocol_version) o.(bbp_network_id) o.(bbp_template_core)
    o.(bbp_template_core_id) o.(bbp_coinbase_raw) o.(bbp_transactions_raw)
    o.(bbp_merkle_root) o.(bbp_witness_root) o.(bbp_tree_root) o.(bbp_reserved_root)
    o.(bbp_block_weight) o.(bbp_block_sigops) o.(bbp_miner_subsidy)
    o.(bbp_ordinary_transaction_fees) o.(bbp_claim_airdrop_principal)
    o.(bbp_claim_airdrop_fees) o.(bbp_operator_fee_value)
    o.(bbp_work_service_subsidy_value) o.(bbp_consensus_validation_result_hash) [].
#[export] Instance BlockBodyPackageV2_unsigned_laws `{Digests} : UnsignedLaws BlockBodyPackageV2.
Proof.
  refine {| strip_signature := strip_BlockBodyPackageV2; blank_signature := encode_SignatureBytes [] [] |}.
  - intros o. cbn [encode BlockBodyPackageV2_codec]. unfold encode_BlockBodyPackageV2.
    by rewrite wseq_nil by apply _.
  - intros limits o Hok. cbn [codec_ok BlockBodyPackageV2_codec_laws] in *.
    unfold ok_BlockBodyPackageV2 in *. blank_ok.
  - by vm_compute.
Defined.

(** ** [BodyErasureDescriptorV2] *)

Record BodyErasureDescriptorV2 := mkBodyErasureDescriptorV2 {
  bed_protocol_version : Z;
  bed_network_id : Z;
  bed_body_package_id : Hash256;
  bed_original_size : Z;
  bed_data_shards : Z;
  bed_parity_shards : Z;
  bed_shard_size : Z;
  bed_shard_merkle_root : Hash256;
  bed_expiry_height : Z;
  bed_compression : Z;
}.

#[export] Instance BodyErasureDescriptorV2_eq_dec : EqDecision BodyErasureDescriptorV2.
Proof. solve_decision. Defined.

Definition encode_unsigned_BodyErasureDescriptorV2 (o : BodyErasureDescriptorV2) : Writer :=
  encode_prefix o.(bed_protocol_version) o.(bed_network_id) >>>
  enc_fixed o.(bed_body_package_id) >>>
  enc_u32 o.(bed_original_size) >>>
  enc_u16 o.(bed_data_shards) >>>
  enc_u16 o.(bed_parity_shards) >>>
  enc_u32 o.(bed_shard_size) >>>
  enc_fixed o.(bed_shard_merkle_root) >>>
  enc_u32 o.(bed_expiry_height) >>>
  enc_u16 o.(bed_compression).

#[export] Instance BodyErasureDescriptorV2_unsigned : UnsignedObject BodyErasureDescriptorV2 := {|
  DOMAIN_TAG := str "meshmine/body-erasure/v2";
  encode_unsigned := encode_unsigned_BodyErasureDescriptorV2;
|}.

Definition encode_BodyErasureDescriptorV2 (o : BodyErasureDescriptorV2) : Writer := encode_unsigned_BodyErasureDescriptorV2 o.

Definition decode_BodyErasureDescriptorV2 : parser BodyErasureDescriptorV2 :=
  '(protocol_version, network_id) ← decode_prefix;
  body_package_id ← dec_array 32;
  original_size ← dec_u32;
  data_shards ← dec_u16;
  parity_shards ← dec_u16;
  shard_size ← dec_u32;
  shard_merkle_root ← dec_array 32;
  expiry_height ← dec_u32;
  compression ← dec_u16;
  mret (mkBodyErasureDescriptorV2 protocol_version network_id body_package_id original_size
         data_shards parity_shards shard_size shard_merkle_root expiry_height
         compression).

Definition ok_BodyErasureDescriptorV2 (limits : DecodeLimits) (o : BodyErasureDescriptorV2) : Prop :=
  uint 16 o.(bed_protocol_version) ∧
  uint 8 o.(bed_network_id) ∧
  arr 32 o.(bed_body_package_id) ∧
  uint 32 o.(bed_original_size) ∧
  uint 16 o.(bed_data_shards) ∧
  uint 16 o.(bed_parity_shards) ∧
  uint 32 o.(bed_shard_size) ∧
  arr 32 o.(bed_shard_merkle_root) ∧
  uint 32 o.(bed_expiry_height) ∧
  uint 16 o.(bed_compression).

#[export] Instance encode_BodyErasureDescriptorV2_appends o : Appends (encode_BodyErasureDescriptorV2 o).
Proof. unfold encode_BodyErasureDescriptorV2, encode_unsigned_BodyErasureDescriptorV2. apply _. Qed.

Lemma reads_BodyErasureDescriptorV2 limits o :
  ok_BodyErasureDescriptorV2 limits o →
  reads limits decode_BodyErasureDescriptorV2 (encode_BodyErasureDescriptorV2 o) o.
Proof.
  unfold ok_BodyErasureDescriptorV2. intros Hok. destruct_and!.
  unfold decode_BodyErasureDescriptorV2, encode_BodyErasureDescriptorV2, encode_unsigned_BodyErasureDescriptorV2.
  solve_reads. by destruct o.
Qed.
Lemma accepts_BodyErasureDescriptorV2 limits :
  accepts limits decode_BodyErasureDescriptorV2
    (λ o bs, ok_BodyErasureDescriptorV2 limits o ∧ bs = encode_BodyErasureDescriptorV2 o []).
Proof.
  unfold decode_BodyErasureDescriptorV2. solve_accepts. split.
  - destruct_and?. repeat (split; [done|]). done.
  - unfold encode_BodyErasureDescriptorV2, encode_unsigned_BodyErasureDescriptorV2. by flatten_writers.
Qed.
#[export] Hint Resolve reads_BodyErasureDescriptorV2 : codec.
#[export] Hint Extern 1 (accepts _ decode_BodyErasureDescriptorV2 _) =>
  apply accepts_BodyErasureDescriptorV2 : codec.

#[export] Instance BodyErasureDescriptorV2_codec : Codec BodyErasureDescriptorV2 := {|
  encode := encode_BodyErasureDescriptorV2;
  decode := decode_BodyErasureDescriptorV2;
|}.
#[export] Instance BodyErasureDescriptorV2_codec_laws : CodecLaws BodyErasureDescriptorV2 := {|
  codec_ok := ok_BodyErasureDescriptorV2;
  encode_appends := encode_BodyErasureDescriptorV2_appends;
  decode_encode := reads_BodyErasureDescriptorV2;
  decode_sound := accepts_BodyErasureDescriptorV2;
|}.

#[export] Instance BodyErasureDescriptorV2_unsigned_laws : UnsignedLaws BodyErasureDescriptorV2.
Proof.
  refine {| strip_signature o := o; blank_signature := [] |}.
  - intros o. by rewrite app_nil_r.
  - done.
  - by vm_compute.
Defined.

(** ** [BodyAvailabilityCertificateV2] *)

Record BodyAvailabilityCertificateV2 := mkBodyAvailabilityCertificateV2 {
  bac_protocol_version : Z;
  bac_network_id : Z;
  bac_descriptor_id : Hash256;
  bac_parent_hash : Hash256;
  bac_parent_height : Z;
  bac_consensus_validation_result_hash : Hash256;
  bac_challenge_round : Z;
  bac_challenge_transcript_root : Hash256;
  bac_signer_set : SignatureSet;
}.

#[export] Instance BodyAvailabilityCertificateV2_eq_dec : EqDecision BodyAvailabilityCertificateV2.
Proof. solve_decision. Defined.

Definition encode_unsigned_BodyAvailabilityCertificateV2 (o : BodyAvailabilityCertificateV2) : Writer :=
  encode_prefix o.(bac_protocol_version) o.(bac_network_id) >>>
  enc_fixed o.(bac_descriptor_id) >>>
  enc_fixed o.(bac_parent_hash) >>>
  enc_u32 o.(bac_parent_height) >>>
  enc_fixed o.(bac_consensus_validation_result_hash) >>>
  enc_u64 o.(bac_challenge_round) >>>
  enc_fixed o.(bac_challenge_transcript_root).

#[export] Instance BodyAvailabilityCertificateV2_unsigned : UnsignedObject BodyAvailabilityCertificateV2 := {|
  DOMAIN_TAG := str "meshmine/body-certificate/v2";
  encode_unsigned := encode_unsigned_BodyAvailabilityCertificateV2;
|}.

Definition encode_BodyAvailabilityCertificateV2 (o : BodyAvailabilityCertificateV2) : Writer :=
  encode_unsigned_BodyAvailabilityCertificateV2 o >>> encode_SignatureSet o.(bac_signer_set).

Definition decode_BodyAvailabilityCertificateV2 : parser BodyAvailabilityCertificateV2 :=
  '(protocol_version, network_id) ← decode_prefix;
  descriptor_id ← dec_array 32;
  parent_hash ← dec_array 32;
  parent_height ← dec_u32;
  consensus_validation_result_hash ← dec_array 32;
  challenge_round ← dec_u64;
  challenge_transcript_root ← dec_array 32;
  signer_set ← decode_SignatureSet;
  mret (mkBodyAvailabilityCertificateV2 protocol_version network_id descriptor_id parent_hash
         parent_height consensus_validation_result_hash challenge_round
         challenge_transcript_root signer_set).

Definition ok_BodyAvailabilityCertificateV2 (limits : DecodeLimits) (o : BodyAvailabilityCertificateV2) : Prop :=
  uint 16 o.(bac_protocol_version) ∧
  uint 8 o.(bac_network_id) ∧
  arr 32 o.(bac_descriptor_id) ∧
  arr 32 o.(bac_parent_hash) ∧
  uint 32 o.(bac_parent_height) ∧
  arr 32 o.(bac_consensus_validation_result_hash) ∧
  uint 64 o.(bac_challenge_round) ∧
  arr 32 o.(bac_challenge_transcript_root) ∧
  ok_SignatureSet limits o.(bac_signer_set).

#[export] Instance encode_BodyAvailabilityCertificateV2_appends o : Appends (encode_BodyAvailabilityCertificateV2 o).
Proof. unfold encode_BodyAvailabilityCertificateV2, encode_unsigned_BodyAvailabilityCertificateV2. apply _. Qed.

Lemma reads_BodyAvailabilityCertificateV2 limits o :
  ok_BodyAvailabilityCertificateV2 limits o →
  reads limits decode_BodyAvailabilityCertificateV2 (encode_BodyAvailabilityCertificateV2 o) o.
Proof.
  unfold ok_BodyAvailabilityCertificateV2. intros Hok. destruct_and!.
  unfold decode_BodyAvailabilityCertificateV2, encode_BodyAvailabilityCertificateV2, encode_unsigned_BodyAvailabilityCertificateV2.
  solve_reads. by destruct o.
Qed.
Lemma accepts_BodyAvailabilityCertificateV2 limits :
  accepts limits decode_BodyAvailabilityCertificateV2
    (λ o bs, ok_BodyAvailabilityCertificateV2 limits o ∧ bs = encode_BodyAvailabilityCertificateV2 o []).
Proof.
  unfold decode_BodyAvailabilityCertificateV2. solve_accepts. split.
  - destruct_and?. repeat (split; [done|]). done.
  - unfold encode_BodyAvailabilityCertificateV2, encode_unsigned_BodyAvailabilityCertificateV2. by flatten_writers.
Qed.
#[export] Hint Resolve reads_BodyAvailabilityCertificateV2 : codec.
#[export] Hint Extern 1 (accepts _ decode_BodyAvailabilityCertificateV2 _) =>
  apply accepts_BodyAvailabilityCertificateV2 : codec.

#[export] Instance BodyAvailabilityCertificateV2_codec : Codec BodyAvailabilityCertificateV2 := {|
  encode := encode_BodyAvailabilityCertificateV2;
  decode := decode_BodyAvailabilityCertificateV2;
|}.
#[export] Instance BodyAvailabilityCertificateV2_codec_laws : CodecLaws BodyAvailabilityCertificateV2 := {|
  codec_ok := ok_BodyAvailabilityCertificateV2;
  encode_appends := encode_BodyAvailabilityCertificateV2_appends;
  decode_encode := reads_BodyAvailabilityCertificateV2;
  decode_sound := accepts_BodyAvailabilityCertificateV2;
|}.

(** The object with its signature blanked. *)
Definition strip_BodyAvailabilityCertificateV2 (o : BodyAvailabilityCertificateV2) : BodyAvailabilityCertificateV2 :=
  mkBodyAvailabilityCertificateV2 o.(bac_protocol_version) o.(bac_network_id)
    o.(bac_descriptor_id) o.(bac_parent_hash) o.(bac_parent_height)
    o.(bac_consensus_validation_result_hash) o.(bac_challenge_round)
    o.(bac_challenge_transcript_root) empty_ed25519.
#[export] Instance BodyAvailabilityCertificateV2_unsigned_laws : UnsignedLaws BodyAvailabilityCertificateV2.
Proof.
  refine {| strip_signature := strip_BodyAvailabilityCertificateV2; blank_signature := encode_SignatureSet empty_ed25519 [] |}.
  - intros o. cbn [encode BodyAvailabilityCertificateV2_codec]. unfold encode_BodyAvailabilityCertificateV2.
    by rewrite wseq_nil by apply _.
  - intros limits o Hok. cbn [codec_ok BodyAvailabilityCertificateV2_codec_laws] in *.
    unfold ok_BodyAvailabilityCertificateV2 in *. blank_ok.
  - by vm_compute.
Defined.

(** ** [SessionParentCertificateV2] *)

Record SessionParentCertificateV2 := mkSessionParentCertificateV2 {
  spc_protocol_version : Z;
  spc_network_id : Z;
  spc_parent_hash : Hash256;
  spc_parent_height : Z;
  spc_parent_chainwork : U256;
  spc_observed_ntime : Z;
  spc_certificate_sequence : Z;
  spc_previous_parent_certificate_id : Hash256;
  spc_signer_set : SignatureSet;
}.

#[export] Instance SessionParentCertificateV2_eq_dec : EqDecision SessionParentCertificateV2.
Proof. solve_decision. Defined.

Definition encode_unsigned_SessionParentCertificateV2 (o : SessionParentCertificateV2) : Writer :=
  encode_prefix o.(spc_protocol_version) o.(spc_network_id) >>>
  enc_fixed o.(spc_parent_hash) >>>
  enc_u32 o.(spc_parent_height) >>>
  enc_fixed o.(spc_parent_chainwork) >>>
  enc_u64 o.(spc_observed_ntime) >>>
  enc_u64 o.(spc_certificate_sequence) >>>
  enc_fixed o.(spc_previous_parent_certificate_id).

#[export] Instance SessionParentCertificateV2_unsigned : UnsignedObject SessionParentCertificateV2 := {|
  DOMAIN_TAG := str "meshmine/parent-certificate/v2";
  encode_unsigned := encode_unsigned_SessionParentCertificateV2;
|}.

Definition encode_SessionParentCertificateV2 (o : SessionParentCertificateV2) : Writer :=
  encode_unsigned_SessionParentCertificateV2 o >>> encode_SignatureSet o.(spc_signer_set).

Definition decode_SessionParentCertificateV2 : parser SessionParentCertificateV2 :=
  '(protocol_version, network_id) ← decode_prefix;
  parent_hash ← dec_array 32;
  parent_height ← dec_u32;
  parent_chainwork ← dec_array 32;
  observed_ntime ← dec_u64;
  certificate_sequence ← dec_u64;
  previous_parent_certificate_id ← dec_array 32;
  signer_set ← decode_SignatureSet;
  mret (mkSessionParentCertificateV2 protocol_version network_id parent_hash parent_height
         parent_chainwork observed_ntime certificate_sequence
         previous_parent_certificate_id signer_set).

Definition ok_SessionParentCertificateV2 (limits : DecodeLimits) (o : SessionParentCertificateV2) : Prop :=
  uint 16 o.(spc_protocol_version) ∧
  uint 8 o.(spc_network_id) ∧
  arr 32 o.(spc_parent_hash) ∧
  uint 32 o.(spc_parent_height) ∧
  arr 32 o.(spc_parent_chainwork) ∧
  uint 64 o.(spc_observed_ntime) ∧
  uint 64 o.(spc_certificate_sequence) ∧
  arr 32 o.(spc_previous_parent_certificate_id) ∧
  ok_SignatureSet limits o.(spc_signer_set).

#[export] Instance encode_SessionParentCertificateV2_appends o : Appends (encode_SessionParentCertificateV2 o).
Proof. unfold encode_SessionParentCertificateV2, encode_unsigned_SessionParentCertificateV2. apply _. Qed.

Lemma reads_SessionParentCertificateV2 limits o :
  ok_SessionParentCertificateV2 limits o →
  reads limits decode_SessionParentCertificateV2 (encode_SessionParentCertificateV2 o) o.
Proof.
  unfold ok_SessionParentCertificateV2. intros Hok. destruct_and!.
  unfold decode_SessionParentCertificateV2, encode_SessionParentCertificateV2, encode_unsigned_SessionParentCertificateV2.
  solve_reads. by destruct o.
Qed.
Lemma accepts_SessionParentCertificateV2 limits :
  accepts limits decode_SessionParentCertificateV2
    (λ o bs, ok_SessionParentCertificateV2 limits o ∧ bs = encode_SessionParentCertificateV2 o []).
Proof.
  unfold decode_SessionParentCertificateV2. solve_accepts. split.
  - destruct_and?. repeat (split; [done|]). done.
  - unfold encode_SessionParentCertificateV2, encode_unsigned_SessionParentCertificateV2. by flatten_writers.
Qed.
#[export] Hint Resolve reads_SessionParentCertificateV2 : codec.
#[export] Hint Extern 1 (accepts _ decode_SessionParentCertificateV2 _) =>
  apply accepts_SessionParentCertificateV2 : codec.

#[export] Instance SessionParentCertificateV2_codec : Codec SessionParentCertificateV2 := {|
  encode := encode_SessionParentCertificateV2;
  decode := decode_SessionParentCertificateV2;
|}.
#[export] Instance SessionParentCertificateV2_codec_laws : CodecLaws SessionParentCertificateV2 := {|
  codec_ok := ok_SessionParentCertificateV2;
  encode_appends := encode_SessionParentCertificateV2_appends;
  decode_encode := reads_SessionParentCertificateV2;
  decode_sound := accepts_SessionParentCertificateV2;
|}.

(** The object with its signature blanked. *)
Definition strip_SessionParentCertificateV2 (o : SessionParentCertificateV2) : SessionParentCertificateV2 :=
  mkSessionParentCertificateV2 o.(spc_protocol_version) o.(spc_network_id)
    o.(spc_parent_hash) o.(spc_parent_height) o.(spc_parent_chainwork)
    o.(spc_observed_ntime) o.(spc_certificate_sequence)
    o.(spc_previous_parent_certificate_id) empty_ed25519.
#[export] Instance SessionParentCertificateV2_unsigned_laws : UnsignedLaws SessionParentCertificateV2.
Proof.
  refine {| strip_signature := strip_SessionParentCertificateV2; blank_signature := encode_SignatureSet empty_ed25519 [] |}.
  - intros o. cbn [encode SessionParentCertificateV2_codec]. unfold encode_SessionParentCertificateV2.
    by rewrite wseq_nil by apply _.
  - intros limits o Hok. cbn [codec_ok SessionParentCertificateV2_codec_laws] in *.
    unfold ok_SessionParentCertificateV2 in *. blank_ok.
  - by vm_compute.
Defined.

(** ** [MaskSessionV2] *)

Record MaskSessionV2 := mkMaskSessionV2 {
  ms_protocol_version : Z;
  ms_network_id : Z;
  ms_lane_id : Z;
  ms_session_sequence : Z;
  ms_parent_certificate_id : Hash256;
  ms_parent_hash : Hash256;
  ms_hns_network_target : U256;
  ms_capture_target : U256;
  ms_accounting_target : U256;
  ms_leading_zero_prefix_q : Z;
  ms_blind_band_bits_d : Z;
  ms_mask_hash : Hash256;
  ms_mask_commitment_root : Hash256;
  ms_mask_committee_id : Hash256;
  ms_fast_eval_policy : Z;
  ms_assignment_start_ms : Z;
  ms_assignment_end_ms : Z;
  ms_submission_end_ms : Z;
  ms_timed_open_after_ms : Z;
  ms_previous_session_id : Hash256;
  ms_signer_set : SignatureSet;
}.

#[export] Instance MaskSessionV2_eq_dec : EqDecision MaskSessionV2.
Proof. solve_decision. Defined.

Definition encode_unsigned_MaskSessionV2 (o : MaskSessionV2) : Writer :=
  encode_prefix o.(ms_protocol_version) o.(ms_network_id) >>>
  enc_u16 o.(ms_lane_id) >>>
  enc_u64 o.(ms_session_sequence) >>>
  enc_fixed o.(ms_parent_certificate_id) >>>
  enc_fixed o.(ms_parent_hash) >>>
  enc_fixed o.(ms_hns_network_target) >>>
  enc_fixed o.(ms_capture_target) >>>
  enc_fixed o.(ms_accounting_target) >>>
  enc_u16 o.(ms_leading_zero_prefix_q) >>>
  enc_u16 o.(ms_blind_band_bits_d) >>>
  enc_fixed o.(ms_mask_hash) >>>
  enc_fixed o.(ms_mask_commitment_root) >>>
  enc_fixed o.(ms_mask_committee_id) >>>
  enc_u16 o.(ms_fast_eval_policy) >>>
  enc_u64 o.(ms_assignment_start_ms) >>>
  enc_u64 o.(ms_assignment_end_ms) >>>
  enc_u64 o.(ms_submission_end_ms) >>>
  enc_u64 o.(ms_timed_open_after_ms) >>>
  enc_fixed o.(ms_previous_session_id).

#[export] Instance MaskSessionV2_unsigned : UnsignedObject MaskSessionV2 := {|
  DOMAIN_TAG := str "meshmine/mask-session/v2";
  encode_unsigned := encode_unsigned_MaskSessionV2;
|}.

Definition encode_MaskSessionV2 (o : MaskSessionV2) : Writer :=
  encode_unsigned_MaskSessionV2 o >>> encode_SignatureSet o.(ms_signer_set).

Definition decode_MaskSessionV2 : parser MaskSessionV2 :=
  '(protocol_version, network_id) ← decode_prefix;
  lane_id ← dec_u16;
  session_sequence ← dec_u64;
  parent_certificate_id ← dec_array 32;
  parent_hash ← dec_array 32;
  hns_network_target ← dec_array 32;
  capture_target ← dec_array 32;
  accounting_target ← dec_array 32;
  leading_zero_prefix_q ← dec_u16;
  blind_band_bits_d ← dec_u16;
  mask_hash ← dec_array 32;
  mask_commitment_root ← dec_array 32;
  mask_committee_id ← dec_array 32;
  fast_eval_policy ← dec_u16;
  assignment_start_ms ← dec_u64;
  assignment_end_ms ← dec_u64;
  submission_end_ms ← dec_u64;
  timed_open_after_ms ← dec_u64;
  previous_session_id ← dec_array 32;
  signer_set ← decode_SignatureSet;
  mret (mkMaskSessionV2 protocol_version network_id lane_id session_sequence
         parent_certificate_id parent_hash hns_network_target capture_target
         accounting_target leading_zero_prefix_q blind_band_bits_d mask_hash
         mask_commitment_root mask_committee_id fast_eval_policy assignment_start_ms
         assignment_end_ms submission_end_ms timed_open_after_ms previous_session_id
         signer_set).

Definition ok_MaskSessionV2 (limits : DecodeLimits) (o : MaskSessionV2) : Prop :=
  uint 16 o.(ms_protocol_version) ∧
  uint 8 o.(ms_network_id) ∧
  uint 16 o.(ms_lane_id) ∧
  uint 64 o.(ms_session_sequence) ∧
  arr 32 o.(ms_parent_certificate_id) ∧
  arr 32 o.(ms_parent_hash) ∧
  arr 32 o.(ms_hns_network_target) ∧
  arr 32 o.(ms_capture_target) ∧
  arr 32 o.(ms_accounting_target) ∧
  uint 16 o.(ms_leading_zero_prefix_q) ∧
  uint 16 o.(ms_blind_band_bits_d) ∧
  arr 32 o.(ms_mask_hash) ∧
  arr 32 o.(ms_mask_commitment_root) ∧
  arr 32 o.(ms_mask_committee_id) ∧
  uint 16 o.(ms_fast_eval_policy) ∧
  uint 64 o.(ms_assignment_start_ms) ∧
  uint 64 o.(ms_assignment_end_ms) ∧
  uint 64 o.(ms_submission_end_ms) ∧
  uint 64 o.(ms_timed_open_after_ms) ∧
  arr 32 o.(ms_previous_session_id) ∧
  ok_SignatureSet limits o.(ms_signer_set).

#[export] Instance encode_MaskSessionV2_appends o : Appends (encode_MaskSessionV2 o).
Proof. unfold encode_MaskSessionV2, encode_unsigned_MaskSessionV2. apply _. Qed.

Lemma reads_MaskSessionV2 limits o :
  ok_MaskSessionV2 limits o →
  reads limits decode_MaskSessionV2 (encode_MaskSessionV2 o) o.
Proof.
  unfold ok_MaskSessionV2. intros Hok. destruct_and!.
  unfold decode_MaskSessionV2, encode_MaskSessionV2, encode_unsigned_MaskSessionV2.
  solve_reads. by destruct o.
Qed.
Lemma accepts_MaskSessionV2 limits :
  accepts limits decode_MaskSessionV2
    (λ o bs, ok_MaskSessionV2 limits o ∧ bs = encode_MaskSessionV2 o []).
Proof.
  unfold decode_MaskSessionV2. solve_accepts. split.
  - destruct_and?. repeat (split; [done|]). done.
  - unfold encode_MaskSessionV2, encode_unsigned_MaskSessionV2. by flatten_writers.
Qed.
#[export] Hint Resolve reads_MaskSessionV2 : codec.
#[export] Hint Extern 1 (accepts _ decode_MaskSessionV2 _) =>
  apply accepts_MaskSessionV2 : codec.

#[export] Instance MaskSessionV2_codec : Codec MaskSessionV2 := {|
  encode := encode_MaskSessionV2;
  decode := decode_MaskSessionV2;
|}.
#[export] Instance MaskSessionV2_codec_laws : CodecLaws MaskSessionV2 := {|
  codec_ok := ok_MaskSessionV2;
  encode_appends := encode_MaskSessionV2_appends;
  decode_encode := reads_MaskSessionV2;
  decode_sound := accepts_MaskSessionV2;
|}.

(** The object with its signature blanked. *)
Definition strip_MaskSessionV2 (o : MaskSessionV2) : MaskSessionV2 :=
  mkMaskSessionV2 o.(ms_protocol_version) o.(ms_network_id) o.(ms_lane_id)
    o.(ms_session_sequence) o.(ms_parent_certificate_id) o.(ms_parent_hash)
    o.(ms_hns_network_target) o.(ms_capture_target) o.(ms_accounting_target)
    o.(ms_leading_zero_prefix_q) o.(ms_blind_band_bits_d) o.(ms_mask_hash)
    o.(ms_mask_commitment_root) o.(ms_mask_committee_id) o.(ms_fast_eval_policy)
    o.(ms_assignment_start_ms) o.(ms_assignment_end_ms) o.(ms_submission_end_ms)
    o.(ms_timed_open_after_ms) o.(ms_previous_session_id) empty_ed25519.
#[export] Instance MaskSessionV2_unsigned_laws : UnsignedLaws MaskSessionV2.
Proof.
  refine {| strip_signature := strip_MaskSessionV2; blank_signature := encode_SignatureSet empty_ed25519 [] |}.
  - intros o. cbn [encode MaskSessionV2_codec]. unfold encode_MaskSessionV2.
    by rewrite wseq_nil by apply _.
  - intros limits o Hok. cbn [codec_ok MaskSessionV2_codec_laws] in *.
    unfold ok_MaskSessionV2 in *. blank_ok.
  - by vm_compute.
Defined.

(** ** [AssignmentV2] *)

Record AssignmentV2 := mkAssignmentV2 {
  asg_protocol_version : Z;
  asg_network_id : Z;
  asg_session_id : Hash256;
  asg_body_package_id : Hash256;
  asg_body_certificate_id : Hash256;
  asg_operator_pubkey : bytes;
  asg_worker_id_hash : Hash256;
  asg_payout_bucket_id : Hash256;
  asg_assignment_sequence : Z;
  asg_ntime : Z;
  asg_extra_nonce : bytes;
  asg_nonce_start : Z;
  asg_nonce_end : Z;
  asg_nonce_stride : Z;
  asg_edge_target : U256;
  asg_capture_target : U256;
  asg_telemetry_level : Z;
  asg_operator_signature : SignatureBytes;
}.

#[export] Instance AssignmentV2_eq_dec : EqDecision AssignmentV2.
Proof. solve_decision. Defined.

Definition encode_unsigned_AssignmentV2 (o : AssignmentV2) : Writer :=
  encode_prefix o.(asg_protocol_version) o.(asg_network_id) >>>
  enc_fixed o.(asg_session_id) >>>
  enc_fixed o.(asg_body_package_id) >>>
  enc_fixed o.(asg_body_certificate_id) >>>
  enc_fixed o.(asg_operator_pubkey) >>>
  enc_fixed o.(asg_worker_id_hash) >>>
  enc_fixed o.(asg_payout_bucket_id) >>>
  enc_u64 o.(asg_assignment_sequence) >>>
  enc_u64 o.(asg_ntime) >>>
  enc_fixed o.(asg_extra_nonce) >>>
  enc_u32 o.(asg_nonce_start) >>>
  enc_u32 o.(asg_nonce_end) >>>
  enc_u32 o.(asg_nonce_stride) >>>
  enc_fixed o.(asg_edge_target) >>>
  enc_fixed o.(asg_capture_target) >>>
  enc_u8 o.(asg_telemetry_level).

#[export] Instance AssignmentV2_unsigned : UnsignedObject AssignmentV2 := {|
  DOMAIN_TAG := str "meshmine/assignment/v2";
  encode_unsigned := encode_unsigned_AssignmentV2;
|}.

Definition encode_AssignmentV2 (o : AssignmentV2) : Writer :=
  encode_unsigned_AssignmentV2 o >>> encode_SignatureBytes o.(asg_operator_signature).

Definition decode_AssignmentV2 : parser AssignmentV2 :=
  '(protocol_version, network_id) ← decode_prefix;
  session_id ← dec_array 32;
  body_package_id ← dec_array 32;
  body_certificate_id ← dec_array 32;
  operator_pubkey ← dec_array 32;
  worker_id_hash ← dec_array 32;
  payout_bucket_id ← dec_array 32;
  assignment_sequence ← dec_u64;
  ntime ← dec_u64;
  extra_nonce ← dec_array 24;
  nonce_start ← dec_u32;
  nonce_end ← dec_u32;
  nonce_stride ← dec_u32;
  edge_target ← dec_array 32;
  capture_target ← dec_array 32;
  telemetry_level ← dec_u8;
  operator_signature ← decode_SignatureBytes;
  mret (mkAssignmentV2 protocol_version network_id session_id body_package_id
         body_certificate_id operator_pubkey worker_id_hash payout_bucket_id
         assignment_sequence ntime extra_nonce nonce_start nonce_end nonce_stride
         edge_target capture_target telemetry_level operator_signature).

Definition ok_AssignmentV2 (limits : DecodeLimits) (o : AssignmentV2) : Prop :=
  uint 16 o.(asg_protocol_version) ∧
  uint 8 o.(asg_network_id) ∧
  arr 32 o.(asg_session_id) ∧
  arr 32 o.(asg_body_package_id) ∧
  arr 32 o.(asg_body_certificate_id) ∧
  arr 32 o.(asg_operator_pubkey) ∧
  arr 32 o.(asg_worker_id_hash) ∧
  arr 32 o.(asg_payout_bucket_id) ∧
  uint 64 o.(asg_assignment_sequence) ∧
  uint 64 o.(asg_ntime) ∧
  arr 24 o.(asg_extra_nonce) ∧
  uint 32 o.(asg_nonce_start) ∧
  uint 32 o.(asg_nonce_end) ∧
  uint 32 o.(asg_nonce_stride) ∧
  arr 32 o.(asg_edge_target) ∧
  arr 32 o.(asg_capture_target) ∧
  uint 8 o.(asg_telemetry_level) ∧
  ok_sig limits o.(asg_operator_signature).

#[export] Instance encode_AssignmentV2_appends o : Appends (encode_AssignmentV2 o).
Proof. unfold encode_AssignmentV2, encode_unsigned_AssignmentV2. apply _. Qed.

Lemma reads_AssignmentV2 limits o :
  ok_AssignmentV2 limits o →
  reads limits decode_AssignmentV2 (encode_AssignmentV2 o) o.
Proof.
  unfold ok_AssignmentV2. intros Hok. destruct_and!.
  unfold decode_AssignmentV2, encode_AssignmentV2, encode_unsigned_AssignmentV2.
  solve_reads. by destruct o.
Qed.
Lemma accepts_AssignmentV2 limits :
  accepts limits decode_AssignmentV2
    (λ o bs, ok_AssignmentV2 limits o ∧ bs = encode_AssignmentV2 o []).
Proof.
  unfold decode_AssignmentV2. solve_accepts. split.
  - destruct_and?. repeat (split; [done|]). done.
  - unfold encode_AssignmentV2, encode_unsigned_AssignmentV2. by flatten_writers.
Qed.
#[export] Hint Resolve reads_AssignmentV2 : codec.
#[export] Hint Extern 1 (accepts _ decode_AssignmentV2 _) =>
  apply accepts_AssignmentV2 : codec.

#[export] Instance AssignmentV2_codec : Codec AssignmentV2 := {|
  encode := encode_AssignmentV2;
  decode := decode_AssignmentV2;
|}.
#[export] Instance AssignmentV2_codec_laws : CodecLaws AssignmentV2 := {|
  codec_ok := ok_AssignmentV2;
  encode_appends := encode_AssignmentV2_appends;
  decode_encode := reads_AssignmentV2;
  decode_sound := accepts_AssignmentV2;
|}.

(** The object with its signature blanked. *)
Definition strip_AssignmentV2 (o : AssignmentV2) : AssignmentV2 :=
  mkAssignmentV2 o.(asg_protocol_version) o.(asg_network_id) o.(asg_session_id)
    o.(asg_body_package_id) o.(asg_body_certificate_id) o.(asg_operator_pubkey)
    o.(asg_worker_id_hash) o.(asg_payout_bucket_id) o.(asg_assignment_sequence)
    o.(asg_ntime) o.(asg_extra_nonce) o.(asg_nonce_start) o.(asg_nonce_end)
    o.(asg_nonce_stride) o.(asg_edge_target) o.(asg_capture_target)
    o.(asg_telemetry_level) [].
#[export] Instance AssignmentV2_unsigned_laws : UnsignedLaws AssignmentV2.
Proof.
  refine {| strip_signature := strip_AssignmentV2; blank_signature := encode_SignatureBytes [] [] |}.
  - intros o. cbn [encode AssignmentV2_codec]. unfold encode_AssignmentV2.
    by rewrite wseq_nil by apply _.
  - intros limits o Hok. cbn [codec_ok AssignmentV2_codec_laws] in *.
    unfold ok_AssignmentV2 in *. blank_ok.
  - by vm_compute.
Defined.

(** ** [GatewayAssignmentV1] *)

Record GatewayAssignmentV1 := mkGatewayAssignmentV1 {
  ga_core_protocol_version : Z;
  ga_handoff_version : Z;
  ga_network_id : Z;
  ga_session_id : Hash256;
  ga_body_package_id : Hash256;
  ga_body_certificate_id : Hash256;
  ga_operator_pubkey : bytes;
  ga_gateway_pubkey : bytes;
  ga_core_handoff_pubkey : bytes;
  ga_worker_id_hash : Hash256;
  ga_payout_bucket_id : Hash256;
  ga_assignment_sequence : Z;
  ga_ntime : Z;
  ga_extra_nonce_profile : Z;
  ga_observation_policy : Z;
  ga_maximum_clock_skew_ms : Z;
  ga_extra_nonce_prefix : bytes;
  ga_extra_nonce2_start_be : bytes;
  ga_extra_nonce2_end_be : bytes;
  ga_nonce_start : Z;
  ga_nonce_end : Z;
  ga_nonce_stride : Z;
  ga_edge_target : U256;
  ga_capture_target : U256;
  ga_telemetry_level : Z;
  ga_operator_signature : SignatureBytes;
}.

#[export] Instance GatewayAssignmentV1_eq_dec : EqDecision GatewayAssignmentV1.
Proof. solve_decision. Defined.

Definition encode_unsigned_GatewayAssignmentV1 (o : GatewayAssignmentV1) : Writer :=
  enc_u16 o.(ga_core_protocol_version) >>>
  enc_u16 o.(ga_handoff_version) >>>
  enc_u8 o.(ga_network_id) >>>
  enc_fixed o.(ga_session_id) >>>
  enc_fixed o.(ga_body_package_id) >>>
  enc_fixed o.(ga_body_certificate_id) >>>
  enc_fixed o.(ga_operator_pubkey) >>>
  enc_fixed o.(ga_gateway_pubkey) >>>
  enc_fixed o.(ga_core_handoff_pubkey) >>>
  enc_fixed o.(ga_worker_id_hash) >>>
  enc_fixed o.(ga_payout_bucket_id) >>>
  enc_u64 o.(ga_assignment_sequence) >>>
  enc_u64 o.(ga_ntime) >>>
  enc_u16 o.(ga_extra_nonce_profile) >>>
  enc_u16 o.(ga_observation_policy) >>>
  enc_u64 o.(ga_maximum_clock_skew_ms) >>>
  enc_fixed o.(ga_extra_nonce_prefix) >>>
  enc_fixed o.(ga_extra_nonce2_start_be) >>>
  enc_fixed o.(ga_extra_nonce2_end_be) >>>
  enc_u32 o.(ga_nonce_start) >>>
  enc_u32 o.(ga_nonce_end) >>>
  enc_u32 o.(ga_nonce_stride) >>>
  enc_fixed o.(ga_edge_target) >>>
  enc_fixed o.(ga_capture_target) >>>
  enc_u8 o.(ga_telemetry_level).

#[export] Instance GatewayAssignmentV1_unsigned : UnsignedObject GatewayAssignmentV1 := {|
  DOMAIN_TAG := str "meshmine/gateway-assignment/v1";
  encode_unsigned := encode_unsigned_GatewayAssignmentV1;
|}.

Definition encode_GatewayAssignmentV1 (o : GatewayAssignmentV1) : Writer :=
  encode_unsigned_GatewayAssignmentV1 o >>> encode_SignatureBytes o.(ga_operator_signature).

(** The extra nonce of a HandyStratum device: the signed prefix, a miner-chosen
    four-byte value in the signed range, sixteen zero bytes. *)
Definition accepts_extra_nonce (g : GatewayAssignmentV1) (extra_nonce : bytes) : bool :=
  (g.(ga_extra_nonce_profile) =? GATEWAY_EXTRA_NONCE_PROFILE_HANDY_PREFIX4_VARIABLE4_ZERO16)
  && bytes_leb g.(ga_extra_nonce2_start_be) g.(ga_extra_nonce2_end_be)
  && bool_decide (slice extra_nonce 0 4 = g.(ga_extra_nonce_prefix))
  && bytes_leb g.(ga_extra_nonce2_start_be) (slice extra_nonce 4 8)
  && bytes_leb (slice extra_nonce 4 8) g.(ga_extra_nonce2_end_be)
  && forallb (λ b, bool_decide (b = x00)) (slice extra_nonce 8 24).

Definition decode_GatewayAssignmentV1 : parser GatewayAssignmentV1 :=
  core_protocol_version ← dec_u16;
  handoff_version ← dec_u16;
  network_id ← dec_u8;
  session_id ← dec_array 32;
  body_package_id ← dec_array 32;
  body_certificate_id ← dec_array 32;
  operator_pubkey ← dec_array 32;
  gateway_pubkey ← dec_array 32;
  core_handoff_pubkey ← dec_array 32;
  worker_id_hash ← dec_array 32;
  payout_bucket_id ← dec_array 32;
  assignment_sequence ← dec_u64;
  ntime ← dec_u64;
  extra_nonce_profile ← dec_u16;
  observation_policy ← dec_u16;
  maximum_clock_skew_ms ← dec_u64;
  extra_nonce_prefix ← dec_array 4;
  extra_nonce2_start_be ← dec_array 4;
  extra_nonce2_end_be ← dec_array 4;
  nonce_start ← dec_u32;
  nonce_end ← dec_u32;
  nonce_stride ← dec_u32;
  edge_target ← dec_array 32;
  capture_target ← dec_array 32;
  telemetry_level ← dec_u8;
  operator_signature ← decode_SignatureBytes;
  mret (mkGatewayAssignmentV1 core_protocol_version handoff_version network_id session_id
         body_package_id body_certificate_id operator_pubkey gateway_pubkey
         core_handoff_pubkey worker_id_hash payout_bucket_id assignment_sequence ntime
         extra_nonce_profile observation_policy maximum_clock_skew_ms extra_nonce_prefix
         extra_nonce2_start_be extra_nonce2_end_be nonce_start nonce_end nonce_stride
         edge_target capture_target telemetry_level operator_signature).

Definition ok_GatewayAssignmentV1 (limits : DecodeLimits) (o : GatewayAssignmentV1) : Prop :=
  uint 16 o.(ga_core_protocol_version) ∧
  uint 16 o.(ga_handoff_version) ∧
  uint 8 o.(ga_network_id) ∧
  arr 32 o.(ga_session_id) ∧
  arr 32 o.(ga_body_package_id) ∧
  arr 32 o.(ga_body_certificate_id) ∧
  arr 32 o.(ga_operator_pubkey) ∧
  arr 32 o.(ga_gateway_pubkey) ∧
  arr 32 o.(ga_core_handoff_pubkey) ∧
  arr 32 o.(ga_worker_id_hash) ∧
  arr 32 o.(ga_payout_bucket_id) ∧
  uint 64 o.(ga_assignment_sequence) ∧
  uint 64 o.(ga_ntime) ∧
  uint 16 o.(ga_extra_nonce_profile) ∧
  uint 16 o.(ga_observation_policy) ∧
  uint 64 o.(ga_maximum_clock_skew_ms) ∧
  arr 4 o.(ga_extra_nonce_prefix) ∧
  arr 4 o.(ga_extra_nonce2_start_be) ∧
  arr 4 o.(ga_extra_nonce2_end_be) ∧
  uint 32 o.(ga_nonce_start) ∧
  uint 32 o.(ga_nonce_end) ∧
  uint 32 o.(ga_nonce_stride) ∧
  arr 32 o.(ga_edge_target) ∧
  arr 32 o.(ga_capture_target) ∧
  uint 8 o.(ga_telemetry_level) ∧
  ok_sig limits o.(ga_operator_signature).

#[export] Instance encode_GatewayAssignmentV1_appends o : Appends (encode_GatewayAssignmentV1 o).
Proof. unfold encode_GatewayAssignmentV1, encode_unsigned_GatewayAssignmentV1. apply _. Qed.

Lemma reads_GatewayAssignmentV1 limits o :
  ok_GatewayAssignmentV1 limits o →
  reads limits decode_GatewayAssignmentV1 (encode_GatewayAssignmentV1 o) o.
Proof.
  unfold ok_GatewayAssignmentV1. intros Hok. destruct_and!.
  unfold decode_GatewayAssignmentV1, encode_GatewayAssignmentV1, encode_unsigned_GatewayAssignmentV1.
  solve_reads. by destruct o.
Qed.
Lemma accepts_GatewayAssignmentV1 limits :
  accepts limits decode_GatewayAssignmentV1
    (λ o bs, ok_GatewayAssignmentV1 limits o ∧ bs = encode_GatewayAssignmentV1 o []).
Proof.
  unfold decode_GatewayAssignmentV1. solve_accepts. split.
  - destruct_and?. repeat (split; [done|]). done.
  - unfold encode_GatewayAssignmentV1, encode_unsigned_GatewayAssignmentV1. by flatten_writers.
Qed.
#[export] Hint Resolve reads_GatewayAssignmentV1 : codec.
#[export] Hint Extern 1 (accepts _ decode_GatewayAssignmentV1 _) =>
  apply accepts_GatewayAssignmentV1 : codec.

#[export] Instance GatewayAssignmentV1_codec : Codec GatewayAssignmentV1 := {|
  encode := encode_GatewayAssignmentV1;
  decode := decode_GatewayAssignmentV1;
|}.
#[export] Instance GatewayAssignmentV1_codec_laws : CodecLaws GatewayAssignmentV1 := {|
  codec_ok := ok_GatewayAssignmentV1;
  encode_appends := encode_GatewayAssignmentV1_appends;
  decode_encode := reads_GatewayAssignmentV1;
  decode_sound := accepts_GatewayAssignmentV1;
|}.

(** The object with its signature blanked. *)
Definition strip_GatewayAssignmentV1 (o : GatewayAssignmentV1) : GatewayAssignmentV1 :=
  mkGatewayAssignmentV1 o.(ga_core_protocol_version) o.(ga_handoff_version)
    o.(ga_network_id) o.(ga_session_id) o.(ga_body_package_id)
    o.(ga_body_certificate_id) o.(ga_operator_pubkey) o.(ga_gateway_pubkey)
    o.(ga_core_handoff_pubkey) o.(ga_worker_id_hash) o.(ga_payout_bucket_id)
    o.(ga_assignment_sequence) o.(ga_ntime) o.(ga_extra_nonce_profile)
    o.(ga_observation_policy) o.(ga_maximum_clock_skew_ms) o.(ga_extra_nonce_prefix)
    o.(ga_extra_nonce2_start_be) o.(ga_extra_nonce2_end_be) o.(ga_nonce_start)
    o.(ga_nonce_end) o.(ga_nonce_stride) o.(ga_edge_target) o.(ga_capture_target)
    o.(ga_telemetry_level) [].
#[export] Instance GatewayAssignmentV1_unsigned_laws : UnsignedLaws GatewayAssignmentV1.
Proof.
  refine {| strip_signature := strip_GatewayAssignmentV1; blank_signature := encode_SignatureBytes [] [] |}.
  - intros o. cbn [encode GatewayAssignmentV1_codec]. unfold encode_GatewayAssignmentV1.
    by rewrite wseq_nil by apply _.
  - intros limits o Hok. cbn [codec_ok GatewayAssignmentV1_codec_laws] in *.
    unfold ok_GatewayAssignmentV1 in *. blank_ok.
  - by vm_compute.
Defined.

(** ** [ShareV2] *)

Record ShareV2 := mkShareV2 {
  sh_protocol_version : Z;
  sh_network_id : Z;
  sh_session_id : Hash256;
  sh_assignment_id : Hash256;
  sh_body_package_id : Hash256;
  sh_operator_pubkey : bytes;
  sh_payout_bucket_id : Hash256;
  sh_nonce : Z;
  sh_ntime : Z;
  sh_extra_nonce : bytes;
  sh_raw_share_hash : Hash256;
  sh_declared_target : U256;
  sh_gossip_parent_hashes : list Hash256;
  sh_local_telemetry_hash : option Hash256;
  sh_operator_signature : SignatureBytes;
}.

#[export] Instance ShareV2_eq_dec : EqDecision ShareV2.
Proof. solve_decision. Defined.

Definition encode_unsigned_ShareV2 (o : ShareV2) : Writer :=
  encode_prefix o.(sh_protocol_version) o.(sh_network_id) >>>
  enc_fixed o.(sh_session_id) >>>
  enc_fixed o.(sh_assignment_id) >>>
  enc_fixed o.(sh_body_package_id) >>>
  enc_fixed o.(sh_operator_pubkey) >>>
  enc_fixed o.(sh_payout_bucket_id) >>>
  enc_u32 o.(sh_nonce) >>>
  enc_u64 o.(sh_ntime) >>>
  enc_fixed o.(sh_extra_nonce) >>>
  enc_fixed o.(sh_raw_share_hash) >>>
  enc_fixed o.(sh_declared_target) >>>
  encode_hashes o.(sh_gossip_parent_hashes) >>>
  encode_option o.(sh_local_telemetry_hash) enc_fixed.

#[export] Instance ShareV2_unsigned : UnsignedObject ShareV2 := {|
  DOMAIN_TAG := str "meshmine/share/v2";
  encode_unsigned := encode_unsigned_ShareV2;
|}.

Definition encode_ShareV2 (o : ShareV2) : Writer :=
  encode_unsigned_ShareV2 o >>> encode_SignatureBytes o.(sh_operator_signature).

Definition MAX_DAG_PARENTS : Z := 4.

Definition work_key_bytes (s : ShareV2) : bytes :=
  into_bytes (
    enc_fixed s.(sh_session_id) >>>
    enc_fixed s.(sh_body_package_id) >>>
    enc_u64 s.(sh_ntime) >>>
    enc_fixed s.(sh_extra_nonce) >>>
    enc_u32 s.(sh_nonce) >>>
    enc_fixed s.(sh_raw_share_hash)).
Definition work_key `{Digests} (s : ShareV2) : Hash256 :=
  domain_hash (str "meshmine/share-work-key/v2") (work_key_bytes s).

Definition validate_parents (s : ShareV2) : result ObjectError unit :=
  if MAX_DAG_PARENTS <? len s.(sh_gossip_parent_hashes)
  then Err (OE_Codec (LengthLimit (len s.(sh_gossip_parent_hashes)) MAX_DAG_PARENTS))
  else
    let unique : gset bytes := list_to_set s.(sh_gossip_parent_hashes) in
    if Z.of_nat (size unique) =? len s.(sh_gossip_parent_hashes) then Ok tt
    else Err UnsortedDagParents.

Definition decode_ShareV2 : parser ShareV2 :=
  '(protocol_version, network_id) ← decode_prefix;
  session_id ← dec_array 32;
  assignment_id ← dec_array 32;
  body_package_id ← dec_array 32;
  operator_pubkey ← dec_array 32;
  payout_bucket_id ← dec_array 32;
  nonce ← dec_u32;
  ntime ← dec_u64;
  extra_nonce ← dec_array 24;
  raw_share_hash ← dec_array 32;
  declared_target ← dec_array 32;
  gossip_parent_hashes ← dec_vec MAX_DAG_PARENTS (dec_array 32);
  local_telemetry_hash ← dec_option (dec_array 32);
  operator_signature ← decode_SignatureBytes;
  let result := mkShareV2 protocol_version network_id session_id assignment_id body_package_id
         operator_pubkey payout_bucket_id nonce ntime extra_nonce raw_share_hash
         declared_target gossip_parent_hashes local_telemetry_hash operator_signature in
  _ ← plift (map_err (λ _, InvalidField "duplicate DAG parents") (validate_parents result));
  mret result.

Definition ok_ShareV2 (limits : DecodeLimits) (o : ShareV2) : Prop :=
  uint 16 o.(sh_protocol_version) ∧
  uint 8 o.(sh_network_id) ∧
  arr 32 o.(sh_session_id) ∧
  arr 32 o.(sh_assignment_id) ∧
  arr 32 o.(sh_body_package_id) ∧
  arr 32 o.(sh_operator_pubkey) ∧
  arr 32 o.(sh_payout_bucket_id) ∧
  uint 32 o.(sh_nonce) ∧
  uint 64 o.(sh_ntime) ∧
  arr 24 o.(sh_extra_nonce) ∧
  arr 32 o.(sh_raw_share_hash) ∧
  arr 32 o.(sh_declared_target) ∧
  ok_vec limits MAX_DAG_PARENTS (arr 32) o.(sh_gossip_parent_hashes) ∧
  ok_option (arr 32) o.(sh_local_telemetry_hash) ∧
  ok_sig limits o.(sh_operator_signature) ∧
  validate_parents o = Ok tt.

#[export] Instance encode_ShareV2_appends o : Appends (encode_ShareV2 o).
Proof. unfold encode_ShareV2, encode_unsigned_ShareV2. apply _. Qed.

Lemma reads_ShareV2 limits o :
  ok_ShareV2 limits o →
  reads limits decode_ShareV2 (encode_ShareV2 o) o.
Proof.
  unfold ok_ShareV2. intros Hok. destruct_and!.
  unfold decode_ShareV2, encode_ShareV2, encode_unsigned_ShareV2.
  solve_reads.
  - apply map_err_ok. by destruct o.
  - by destruct o.
Qed.
Lemma accepts_ShareV2 limits :
  accepts limits decode_ShareV2
    (λ o bs, ok_ShareV2 limits o ∧ bs = encode_ShareV2 o []).
Proof.
  unfold decode_ShareV2. solve_accepts. split.
  - apply map_err_ok in Hvalid. destruct_and?. repeat (split; [done|]). by destruct_unit.
  - unfold encode_ShareV2, encode_unsigned_ShareV2. by flatten_writers.
Qed.
#[export] Hint Resolve reads_ShareV2 : codec.
#[export] Hint Extern 1 (accepts _ decode_ShareV2 _) =>
  apply accepts_ShareV2 : codec.

#[export] Instance ShareV2_codec : Codec ShareV2 := {|
  encode := encode_ShareV2;
  decode := decode_ShareV2;
|}.
#[export] Instance ShareV2_codec_laws : CodecLaws ShareV2 := {|
  codec_ok := ok_ShareV2;
  encode_appends := encode_ShareV2_appends;
  decode_encode := reads_ShareV2;
  decode_sound := accepts_ShareV2;
|}.

(** The object with its signature blanked. *)
Definition strip_ShareV2 (o : ShareV2) : ShareV2 :=
  mkShareV2 o.(sh_protocol_version) o.(sh_network_id) o.(sh_session_id)
    o.(sh_assignment_id) o.(sh_body_package_id) o.(sh_operator_pubkey)
    o.(sh_payout_bucket_id) o.(sh_nonce) o.(sh_ntime) o.(sh_extra_nonce)
    o.(sh_raw_share_hash) o.(sh_declared_target) o.(sh_gossip_parent_hashes)
    o.(sh_local_telemetry_hash) [].
#[export] Instance ShareV2_unsigned_laws : UnsignedLaws ShareV2.
Proof.
  refine {| strip_signature := strip_ShareV2; blank_signature := encode_SignatureBytes [] [] |}.
  - intros o. cbn [encode ShareV2_codec]. unfold encode_ShareV2.
    by rewrite wseq_nil by apply _.
  - intros limits o Hok. cbn [codec_ok ShareV2_codec_laws] in *.
    unfold ok_ShareV2 in *. blank_ok.
  - by vm_compute.
Defined.

(** ** [ReceiptBatchV2] *)

Record ReceiptBatchV2 := mkReceiptBatchV2 {
  rb_protocol_version : Z;
  rb_network_id : Z;
  rb_session_id : Hash256;
  rb_batch_sequence : Z;
  rb_previous_batch_id : Hash256;
  rb_accepted_share_ids : list Hash256;
  rb_accepted_work_keys : list Hash256;
  rb_credited_work : list U512;
  rb_share_merkle_root : Hash256;
  rb_cumulative_share_count : Z;
  rb_cumulative_credited_work : U512;
  rb_signer_set : SignatureSet;
}.

#[export] Instance ReceiptBatchV2_eq_dec : EqDecision ReceiptBatchV2.
Proof. solve_decision. Defined.

Definition encode_unsigned_ReceiptBatchV2 (o : ReceiptBatchV2) : Writer :=
  encode_prefix o.(rb_protocol_version) o.(rb_network_id) >>>
  enc_fixed o.(rb_session_id) >>>
  enc_u64 o.(rb_batch_sequence) >>>
  enc_fixed o.(rb_previous_batch_id) >>>
  encode_hashes o.(rb_accepted_share_ids) >>>
  encode_hashes o.(rb_accepted_work_keys) >>>
  encode_u512s o.(rb_credited_work) >>>
  enc_fixed o.(rb_share_merkle_root) >>>
  enc_u64 o.(rb_cumulative_share_count) >>>
  enc_fixed o.(rb_cumulative_credited_work).

#[export] Instance ReceiptBatchV2_unsigned : UnsignedObject ReceiptBatchV2 := {|
  DOMAIN_TAG := str "meshmine/receipt-batch/v2";
  encode_unsigned := encode_unsigned_ReceiptBatchV2;
|}.

Definition encode_ReceiptBatchV2 (o : ReceiptBatchV2) : Writer :=
  encode_unsigned_ReceiptBatchV2 o >>> encode_SignatureSet o.(rb_signer_set).

(** [(a, b) >= (c, d)] on tuples of hashes. *)
Definition hash_pair_geb (p q : bytes * bytes) : bool :=
  match bytes_cmp p.1 q.1 with
  | Lt => false
  | Gt => true
  | Eq => bytes_leb q.2 p.2
  end.

Definition validate_entries (b : ReceiptBatchV2) : result ObjectError unit :=
  let length := len b.(rb_accepted_share_ids) in
  if negb (len b.(rb_accepted_work_keys) =? length) || negb (len b.(rb_credited_work) =? length)
  then Err ReceiptLengthMismatch
  else if windows2_any hash_pair_geb (zip b.(rb_accepted_work_keys) b.(rb_accepted_share_ids))
  then Err UnsortedReceiptEntries
  else _ ← validate_order b.(rb_signer_set); Ok tt.

Definition decode_ReceiptBatchV2 : parser ReceiptBatchV2 :=
  '(protocol_version, network_id) ← decode_prefix;
  session_id ← dec_array 32;
  batch_sequence ← dec_u64;
  previous_batch_id ← dec_array 32;
  accepted_share_ids ← decode_hashes;
  accepted_work_keys ← decode_hashes;
  credited_work ← decode_u512s;
  share_merkle_root ← dec_array 32;
  cumulative_share_count ← dec_u64;
  cumulative_credited_work ← dec_array 64;
  signer_set ← decode_SignatureSet;
  let result := mkReceiptBatchV2 protocol_version network_id session_id batch_sequence previous_batch_id
         accepted_share_ids accepted_work_keys credited_work share_merkle_root
         cumulative_share_count cumulative_credited_work signer_set in
  _ ← plift (map_err (λ _, InvalidField "invalid receipt entries") (validate_entries result));
  mret result.

Definition ok_ReceiptBatchV2 (limits : DecodeLimits) (o : ReceiptBatchV2) : Prop :=
  uint 16 o.(rb_protocol_version) ∧
  uint 8 o.(rb_network_id) ∧
  arr 32 o.(rb_session_id) ∧
  uint 64 o.(rb_batch_sequence) ∧
  arr 32 o.(rb_previous_batch_id) ∧
  ok_hashes limits o.(rb_accepted_share_ids) ∧
  ok_hashes limits o.(rb_accepted_work_keys) ∧
  ok_u512s limits o.(rb_credited_work) ∧
  arr 32 o.(rb_share_merkle_root) ∧
  uint 64 o.(rb_cumulative_share_count) ∧
  arr 64 o.(rb_cumulative_credited_work) ∧
  ok_SignatureSet limits o.(rb_signer_set) ∧
  validate_entries o = Ok tt.

#[export] Instance encode_ReceiptBatchV2_appends o : Appends (encode_ReceiptBatchV2 o).
Proof. unfold encode_ReceiptBatchV2, encode_unsigned_ReceiptBatchV2. apply _. Qed.

Lemma reads_ReceiptBatchV2 limits o :
  ok_ReceiptBatchV2 limits o →
  reads limits decode_ReceiptBatchV2 (encode_ReceiptBatchV2 o) o.
Proof.
  unfold ok_ReceiptBatchV2. intros Hok. destruct_and!.
  unfold decode_ReceiptBatchV2, encode_ReceiptBatchV2, encode_unsigned_ReceiptBatchV2.
  solve_reads.
  - apply map_err_ok. by destruct o.
  - by destruct o.
Qed.
Lemma accepts_ReceiptBatchV2 limits :
  accepts limits decode_ReceiptBatchV2
    (λ o bs, ok_ReceiptBatchV2 limits o ∧ bs = encode_ReceiptBatchV2 o []).
Proof.
  unfold decode_ReceiptBatchV2. solve_accepts. split.
  - apply map_err_ok in Hvalid. destruct_and?. repeat (split; [done|]). by destruct_unit.
  - unfold encode_ReceiptBatchV2, encode_unsigned_ReceiptBatchV2. by flatten_writers.
Qed.
#[export] Hint Resolve reads_ReceiptBatchV2 : codec.
#[export] Hint Extern 1 (accepts _ decode_ReceiptBatchV2 _) =>
  apply accepts_ReceiptBatchV2 : codec.

#[export] Instance ReceiptBatchV2_codec : Codec ReceiptBatchV2 := {|
  encode := encode_ReceiptBatchV2;
  decode := decode_ReceiptBatchV2;
|}.
#[export] Instance ReceiptBatchV2_codec_laws : CodecLaws ReceiptBatchV2 := {|
  codec_ok := ok_ReceiptBatchV2;
  encode_appends := encode_ReceiptBatchV2_appends;
  decode_encode := reads_ReceiptBatchV2;
  decode_sound := accepts_ReceiptBatchV2;
|}.

(** The object with its signature blanked. *)
Definition strip_ReceiptBatchV2 (o : ReceiptBatchV2) : ReceiptBatchV2 :=
  mkReceiptBatchV2 o.(rb_protocol_version) o.(rb_network_id) o.(rb_session_id)
    o.(rb_batch_sequence) o.(rb_previous_batch_id) o.(rb_accepted_share_ids)
    o.(rb_accepted_work_keys) o.(rb_credited_work) o.(rb_share_merkle_root)
    o.(rb_cumulative_share_count) o.(rb_cumulative_credited_work) empty_ed25519.
Lemma validate_entries_blank o :
  validate_entries o = Ok tt → validate_entries (strip_ReceiptBatchV2 o) = Ok tt.
Proof. unfold validate_entries. cbn. by repeat case_match. Qed.
#[export] Instance ReceiptBatchV2_unsigned_laws : UnsignedLaws ReceiptBatchV2.
Proof.
  refine {| strip_signature := strip_ReceiptBatchV2; blank_signature := encode_SignatureSet empty_ed25519 [] |}.
  - intros o. cbn [encode ReceiptBatchV2_codec]. unfold encode_ReceiptBatchV2.
    by rewrite wseq_nil by apply _.
  - intros limits o Hok. cbn [codec_ok ReceiptBatchV2_codec_laws] in *.
    unfold ok_ReceiptBatchV2 in *. blank_ok. by apply validate_entries_blank.
  - by vm_compute.
Defined.

(** ** [SessionCloseV2] *)

Record SessionCloseV2 := mkSessionCloseV2 {
  sc_protocol_version : Z;
  sc_network_id : Z;
  sc_session_id : Hash256;
  sc_final_receipt_batch_id : Hash256;
  sc_accepted_share_merkle_root : Hash256;
  sc_accepted_work_key_root : Hash256;
  sc_accepted_share_count : Z;
  sc_total_credited_work : U512;
  sc_close_reason : Z;
  sc_mask_opening_transcript_root : Hash256;
  sc_discovered_hns_block_ids : list Hash256;
  sc_signer_set : SignatureSet;
}.

#[export] Instance SessionCloseV2_eq_dec : EqDecision SessionCloseV2.
Proof. solve_decision. Defined.

Definition encode_unsigned_SessionCloseV2 (o : SessionCloseV2) : Writer :=
  encode_prefix o.(sc_protocol_version) o.(sc_network_id) >>>
  enc_fixed o.(sc_session_id) >>>
  enc_fixed o.(sc_final_receipt_batch_id) >>>
  enc_fixed o.(sc_accepted_share_merkle_root) >>>
  enc_fixed o.(sc_accepted_work_key_root) >>>
  enc_u64 o.(sc_accepted_share_count) >>>
  enc_fixed o.(sc_total_credited_work) >>>
  enc_u16 o.(sc_close_reason) >>>
  enc_fixed o.(sc_mask_opening_transcript_root) >>>
  encode_hashes o.(sc_discovered_hns_block_ids).

#[export] Instance SessionCloseV2_unsigned : UnsignedObject SessionCloseV2 := {|
  DOMAIN_TAG := str "meshmine/session-close/v2";
  encode_unsigned := encode_unsigned_SessionCloseV2;
|}.

Definition encode_SessionCloseV2 (o : SessionCloseV2) : Writer :=
  encode_unsigned_SessionCloseV2 o >>> encode_SignatureSet o.(sc_signer_set).

Definition decode_SessionCloseV2 : parser SessionCloseV2 :=
  '(protocol_version, network_id) ← decode_prefix;
  session_id ← dec_array 32;
  final_receipt_batch_id ← dec_array 32;
  accepted_share_merkle_root ← dec_array 32;
  accepted_work_key_root ← dec_array 32;
  accepted_share_count ← dec_u64;
  total_credited_work ← dec_array 64;
  close_reason ← dec_u16;
  mask_opening_transcript_root ← dec_array 32;
  discovered_hns_block_ids ← decode_hashes;
  signer_set ← decode_SignatureSet;
  mret (mkSessionCloseV2 protocol_version network_id session_id final_receipt_batch_id
         accepted_share_merkle_root accepted_work_key_root accepted_share_count
         total_credited_work close_reason mask_opening_transcript_root
         discovered_hns_block_ids signer_set).

Definition ok_SessionCloseV2 (limits : DecodeLimits) (o : SessionCloseV2) : Prop :=
  uint 16 o.(sc_protocol_version) ∧
  uint 8 o.(sc_network_id) ∧
  arr 32 o.(sc_session_id) ∧
  arr 32 o.(sc_final_receipt_batch_id) ∧
  arr 32 o.(sc_accepted_share_merkle_root) ∧
  arr 32 o.(sc_accepted_work_key_root) ∧
  uint 64 o.(sc_accepted_share_count) ∧
  arr 64 o.(sc_total_credited_work) ∧
  uint 16 o.(sc_close_reason) ∧
  arr 32 o.(sc_mask_opening_transcript_root) ∧
  ok_hashes limits o.(sc_discovered_hns_block_ids) ∧
  ok_SignatureSet limits o.(sc_signer_set).

#[export] Instance encode_SessionCloseV2_appends o : Appends (encode_SessionCloseV2 o).
Proof. unfold encode_SessionCloseV2, encode_unsigned_SessionCloseV2. apply _. Qed.

Lemma reads_SessionCloseV2 limits o :
  ok_SessionCloseV2 limits o →
  reads limits decode_SessionCloseV2 (encode_SessionCloseV2 o) o.
Proof.
  unfold ok_SessionCloseV2. intros Hok. destruct_and!.
  unfold decode_SessionCloseV2, encode_SessionCloseV2, encode_unsigned_SessionCloseV2.
  solve_reads. by destruct o.
Qed.
Lemma accepts_SessionCloseV2 limits :
  accepts limits decode_SessionCloseV2
    (λ o bs, ok_SessionCloseV2 limits o ∧ bs = encode_SessionCloseV2 o []).
Proof.
  unfold decode_SessionCloseV2. solve_accepts. split.
  - destruct_and?. repeat (split; [done|]). done.
  - unfold encode_SessionCloseV2, encode_unsigned_SessionCloseV2. by flatten_writers.
Qed.
#[export] Hint Resolve reads_SessionCloseV2 : codec.
#[export] Hint Extern 1 (accepts _ decode_SessionCloseV2 _) =>
  apply accepts_SessionCloseV2 : codec.

#[export] Instance SessionCloseV2_codec : Codec SessionCloseV2 := {|
  encode := encode_SessionCloseV2;
  decode := decode_SessionCloseV2;
|}.
#[export] Instance SessionCloseV2_codec_laws : CodecLaws SessionCloseV2 := {|
  codec_ok := ok_SessionCloseV2;
  encode_appends := encode_SessionCloseV2_appends;
  decode_encode := reads_SessionCloseV2;
  decode_sound := accepts_SessionCloseV2;
|}.

(** The object with its signature blanked. *)
Definition strip_SessionCloseV2 (o : SessionCloseV2) : SessionCloseV2 :=
  mkSessionCloseV2 o.(sc_protocol_version) o.(sc_network_id) o.(sc_session_id)
    o.(sc_final_receipt_batch_id) o.(sc_accepted_share_merkle_root)
    o.(sc_accepted_work_key_root) o.(sc_accepted_share_count) o.(sc_total_credited_work)
    o.(sc_close_reason) o.(sc_mask_opening_transcript_root)
    o.(sc_discovered_hns_block_ids) empty_ed25519.
#[export] Instance SessionCloseV2_unsigned_laws : UnsignedLaws SessionCloseV2.
Proof.
  refine {| strip_signature := strip_SessionCloseV2; blank_signature := encode_SignatureSet empty_ed25519 [] |}.
  - intros o. cbn [encode SessionCloseV2_codec]. unfold encode_SessionCloseV2.
    by rewrite wseq_nil by apply _.
  - intros limits o Hok. cbn [codec_ok SessionCloseV2_codec_laws] in *.
    unfold ok_SessionCloseV2 in *. blank_ok.
  - by vm_compute.
Defined.
(** ** Lemmas on the validity checks *)

Lemma hash_pair_geb_false p q :
  hash_pair_geb p q = false ↔ bytes_lt p.1 q.1 ∨ (p.1 = q.1 ∧ bytes_lt p.2 q.2).
Proof.
  unfold hash_pair_geb. destruct (bytes_cmp p.1 q.1) eqn:E.
  - apply bytes_cmp_eq in E. rewrite bytes_leb_false, E.
    split; [by right|]. intros [Hl|[_ ?]]; [|done]. by apply bytes_lt_irrefl in Hl.
  - split; [by left|done].
  - unfold bytes_lt. split; [done|]. intros [?|[Ee _]]; [congruence|].
    apply bytes_cmp_eq in Ee. congruence.
Qed.

Lemma validate_order_ok s : validate_order s = Ok tt ↔ keys_increase signer_pubkey s.(signatures).
Proof. unfold validate_order. rewrite <- unsorted_by_false. by case_match. Qed.

Lemma slice_full_24 (en : bytes) : arr 24 en →
  en = slice en 0 4 ++ slice en 4 8 ++ slice en 8 24.
Proof.
  unfold arr, slice. intros Hl. cbn [Z.sub Z.to_nat].
  change (Z.to_nat (4 - 0)) with 4%nat. change (Z.to_nat (8 - 4)) with 4%nat.
  change (Z.to_nat (24 - 8)) with 16%nat. change (Z.to_nat 4) with 4%nat. change (Z.to_nat 8) with 8%nat.
  rewrite drop_0. rewrite (take_ge (drop 8 en)) by (rewrite length_drop; lia).
  rewrite <- (take_drop 4 en) at 1. f_equal. rewrite <- (take_drop 4 (drop 4 en)) at 1.
  f_equal. by rewrite drop_drop.
Qed.

Lemma slice_length (en : bytes) a b : 0 ≤ a ≤ b → b ≤ len en → length (slice en a b) = Z.to_nat (b - a).
Proof. unfold slice, len. intros. rewrite length_take, length_drop. lia. Qed.

Lemma forallb_zero l : forallb (λ b, bool_decide (b = x00)) l = true ↔ l = replicate (length l) x00.
Proof.
  induction l as [|b l IH]; [done|]. cbn. rewrite andb_true_iff, bool_decide_eq_true, IH.
  split; [by intros [-> <-]|]. by intros [= ? ?].
Qed.

Lemma slices_of_parts (p m z : bytes) :
  arr 4 p → arr 4 m → arr 16 z →
  slice (p ++ m ++ z) 0 4 = p ∧ slice (p ++ m ++ z) 4 8 = m ∧ slice (p ++ m ++ z) 8 24 = z.
Proof.
  unfold arr. intros Hp Hm Hz.
  pose proof (slice_at [] p (m ++ z)) as H1. pose proof (slice_at p m z) as H2.
  pose proof (slice_at (p ++ m) z []) as H3.
  rewrite app_nil_r, <- app_assoc in H3. unfold len in *. rewrite length_app, Hp, Hm, Hz in *.
  by split_and!.
Qed.

(** The order of (work key, share ID) pairs. *)
Definition hash_pair_lt (p q : bytes * bytes) : Prop :=
  bytes_lt p.1 q.1 ∨ (p.1 = q.1 ∧ bytes_lt p.2 q.2).

#[export] Instance hash_pair_lt_trans : Transitive hash_pair_lt.
Proof.
  intros [a1 a2] [b1 b2] [c1 c2]. unfold hash_pair_lt. cbn.
  intros [?|[-> ?]] [?|[-> ?]]; auto; [left|right; split; [done|]]; by etrans.
Qed.

Lemma windows2_hash_pairs l : windows2_any hash_pair_geb l = false ↔ Sorted hash_pair_lt l.
Proof.
  rewrite windows2_any_false. split; intros Hs.
  - induction Hs as [|x l _ IH Hr]; constructor; [done|].
    destruct Hr; constructor. by apply hash_pair_geb_false.
  - induction Hs as [|x l _ IH Hr]; constructor; [done|].
    destruct Hr; constructor. by apply hash_pair_geb_false.
Qed.

Lemma hash_pairs_NoDup l : Sorted hash_pair_lt l → NoDup l.
Proof.
  intros Hs%(Sorted_StronglySorted _). induction Hs as [|x l _ IH Hx]; constructor; [|done].
  intros Hin. rewrite Forall_forall in Hx.
  destruct (Hx x Hin) as [H|[_ H]]; by apply bytes_lt_irrefl in H.
Qed.

(** ** Properties *)

(** What it means for a type's codec to be canonical: a byte string decodes
    to [x] exactly when it is the encoding of the well-formed [x] and no longer
    than the object limit. *)
Definition canonical_codec (A : Type) `{CodecLaws A} : Prop :=
  ∀ limits bs (x : A), uint 64 limits.(max_object_bytes) →
    from_canonical_bytes bs limits = Ok x ↔
    codec_ok limits x ∧ bs = to_canonical_bytes x ∧ len bs ≤ limits.(max_object_bytes).

Lemma canonical_codec_laws A `{CodecLaws A} : canonical_codec A.
Proof.
  intros limits bs x Hmax. split; [by apply from_canonical_sound|].
  intros (Hok & -> & Hle). by apply from_canonical_complete.
Qed.

(** C17: every protocol object has a canonical codec. A byte string is accepted
    by [from_canonical_bytes] as a given object exactly when it is that
    object's [to_canonical_bytes] and the object is well-formed (field ranges,
    vector bounds, sorted signers and buckets, linked template, distinct DAG
    parents, ordered receipt entries). Hence decoding inverts encoding, no two
    byte strings decode to one object, and no object is malleable on the wire. *)
Theorem objects_canonical `{Digests} :
  canonical_codec OperatorRecordV2 ∧ canonical_codec PayoutBucketV2 ∧
  canonical_codec PayoutSnapshotV2 ∧ canonical_codec PayoutPlanV2 ∧
  canonical_codec TemplateCoreV2 ∧ canonical_codec BlockBodyPackageV2 ∧
  canonical_codec BodyErasureDescriptorV2 ∧ canonical_codec BodyAvailabilityCertificateV2 ∧
  canonical_codec SessionParentCertificateV2 ∧ canonical_codec MaskSessionV2 ∧
  canonical_codec AssignmentV2 ∧ canonical_codec GatewayAssignmentV1 ∧
  canonical_codec ShareV2 ∧ canonical_codec ReceiptBatchV2 ∧ canonical_codec SessionCloseV2.
Proof. split_and!; apply canonical_codec_laws. Qed.

(** A small object for the witnesses. *)
Definition demo_operator (signature : byte) : OperatorRecordV2 :=
  mkOperatorRecordV2 2 2 (replicate 32 x07) 1 0 [] None 1 [signature].

Lemma demo_operator_ok signature :
  ok_OperatorRecordV2 DecodeLimits_default (demo_operator signature).
Proof.
  unfold ok_OperatorRecordV2, ok_option, ok_hashes, ok_sig.
  split_and!; by first [vm_compute | split; [by vm_compute|constructor]].
Qed.

Lemma objects_canonical_witness :
  from_canonical_bytes (to_canonical_bytes (demo_operator x01)) DecodeLimits_default =
  Ok (demo_operator x01).
Proof.
  apply (proj1 (@objects_canonical toy_digests)); [by vm_compute|].
  split; [by apply demo_operator_ok|]. split; [done|by vm_compute].
Defined.

(** What it means for a type's object ID to bind its content. *)
Definition identity_binding (A : Type) `{Digests, UnsignedLaws A} : Prop :=
  ∀ limits (x y : A), codec_ok limits x → codec_ok limits y →
    len (to_canonical_bytes (strip_signature x)) < 2 ^ 64 →
    object_id x = object_id y →
    strip_signature x = strip_signature y ∨ collides 32 (id_preimage x) (id_preimage y).

(** [object_id] binds the signed content of every protocol object: two
    well-formed objects of one type with the same ID differ at most in their
    signature, or the two messages hashed for the IDs are a BLAKE2b-256
    collision. No injectivity of the hash is assumed. *)
Lemma objects_identity_binding `{Digests} :
  identity_binding OperatorRecordV2 ∧ identity_binding PayoutBucketV2 ∧
  identity_binding PayoutSnapshotV2 ∧ identity_binding PayoutPlanV2 ∧
  identity_binding TemplateCoreV2 ∧ identity_binding BlockBodyPackageV2 ∧
  identity_binding BodyErasureDescriptorV2 ∧ identity_binding BodyAvailabilityCertificateV2 ∧
  identity_binding SessionParentCertificateV2 ∧ identity_binding MaskSessionV2 ∧
  identity_binding AssignmentV2 ∧ identity_binding GatewayAssignmentV1 ∧
  identity_binding ShareV2 ∧ identity_binding ReceiptBatchV2 ∧ identity_binding SessionCloseV2.
Proof. split_and!; intros limits x y; apply object_id_binding. Qed.

Lemma objects_identity_binding_witness :
  strip_signature (demo_operator x01) = strip_signature (demo_operator x02) ∨
  @collides toy_digests 32 (id_preimage (demo_operator x01)) (id_preimage (demo_operator x02)).
Proof.
  apply (proj1 (@objects_identity_binding toy_digests)) with (limits := DecodeLimits_default);
    [by apply demo_operator_ok..|by vm_compute|done].
Defined.

Lemma to_le_inj n a b :
  0 ≤ a < 256 ^ Z.of_nat n → 0 ≤ b < 256 ^ Z.of_nat n → to_le n a = to_le n b → a = b.
Proof. intros Ha Hb E. by rewrite <- (of_to_le n a), <- (of_to_le n b), E. Qed.

(** The mining work a share stands for. *)
Definition share_work (s : ShareV2) : Hash256 * Hash256 * Z * bytes * Z * Hash256 :=
  (s.(sh_session_id), s.(sh_body_package_id), s.(sh_ntime), s.(sh_extra_nonce), s.(sh_nonce),
   s.(sh_raw_share_hash)).

Lemma work_key_bytes_inj limits (s t : ShareV2) :
  ok_ShareV2 limits s → ok_ShareV2 limits t →
  work_key_bytes s = work_key_bytes t → share_work s = share_work t.
Proof.
  unfold ok_ShareV2. intros Hs Ht E. destruct_and!.
  unfold work_key_bytes, into_bytes in E. rewrite !wseq_nil in E by apply _.
  unfold enc_fixed, enc_u64, enc_u32, arr, uint in *. rewrite !app_nil_l in E.
  repeat (apply app_inj_1 in E as [? E]; [|rewrite ?to_le_length; congruence]).
  assert (sh_ntime s = sh_ntime t) by (apply (to_le_inj 8); [cbn; lia..|done]).
  assert (sh_nonce s = sh_nonce t) by (apply (to_le_inj 4); [cbn; lia..|done]).
  unfold share_work. congruence.
Qed.

(** The share work key commits to the session, body, time, extra nonce,
    nonce and raw hash it is computed from, and to nothing else: two well-formed
    shares have the same work key if they stand for the same mining work (so a
    copy of the work under another operator, bucket or assignment is still a
    duplicate), and only if they do or the two hashed messages are a
    BLAKE2b-256 collision. *)
Lemma work_key_binding `{Digests} limits (s t : ShareV2) :
  ok_ShareV2 limits s → ok_ShareV2 limits t →
  (share_work s = share_work t → work_key s = work_key t) ∧
  (work_key s = work_key t →
   share_work s = share_work t ∨
   collides 32 (domain_preimage (str "meshmine/share-work-key/v2") (work_key_bytes s))
     (domain_preimage (str "meshmine/share-work-key/v2") (work_key_bytes t))).
Proof.
  intros Hs Ht. split.
  - unfold share_work. intros [= E1 E2 E3 E4 E5 E6].
    unfold work_key, work_key_bytes. by rewrite E1, E2, E3, E4, E5, E6.
  - intros E. apply domain_hash_binding in E as [[_ E]|?]; [left|by right|by vm_compute..].
    by eapply work_key_bytes_inj.
Qed.

(** One share seen under two operators. *)
Definition demo_share (operator : byte) : ShareV2 :=
  let h c := replicate 32 c in
  mkShareV2 2 0 (h x01) (h x02) (h x03) (h operator) (h x05) 7 1700000000 (replicate 24 x00)
    (h x06) (h xff) [] None [].

Lemma demo_share_ok operator : ok_ShareV2 DecodeLimits_default (demo_share operator).
Proof.
  unfold ok_ShareV2, ok_option, ok_hashes, ok_sig.
  split_and!; by first [vm_compute | split; [by vm_compute|constructor]].
Qed.

Lemma work_key_binding_witness :
  @work_key toy_digests (demo_share x04) = @work_key toy_digests (demo_share x0a).
Proof.
  pose proof (@work_key_binding toy_digests DecodeLimits_default (demo_share x04) (demo_share x0a)
    (demo_share_ok _) (demo_share_ok _)) as [Hw _].
  by apply Hw.
Defined.

(** A gateway assignment authorizes exactly the 24-byte extra nonces made of
    its signed prefix, a big-endian 32-bit counter inside its signed inclusive
    range, and sixteen zero bytes, and none when its profile is not the
    prefix/variable/zero one. *)
Lemma accepts_extra_nonce_range (g : GatewayAssignmentV1) en :
  arr 4 g.(ga_extra_nonce_prefix) → arr 4 g.(ga_extra_nonce2_start_be) →
  arr 4 g.(ga_extra_nonce2_end_be) → arr 24 en →
  accepts_extra_nonce g en = true ↔
  g.(ga_extra_nonce_profile) = 1 ∧
  ∃ v, of_be g.(ga_extra_nonce2_start_be) ≤ v ≤ of_be g.(ga_extra_nonce2_end_be) ∧
       en = g.(ga_extra_nonce_prefix) ++ to_be 4 v ++ replicate 16 x00.
Proof.
  intros Hp Ha Hb Hen. unfold accepts_extra_nonce.
  rewrite !andb_true_iff, bool_decide_eq_true, Z.eqb_eq, !bytes_leb_spec, forallb_zero.
  split.
  - intros (((((Hpr & Hab) & Hpre) & Hlo) & Hhi) & Hz). split; [done|].
    rewrite (slice_length en 8 24) in Hz by (unfold arr, len in *; lia).
    exists (of_be (slice en 4 8)).
    assert (length (slice en 4 8) = 4%nat) as Hm by (apply slice_length; unfold arr, len in *; lia).
    split.
    + rewrite !bytes_le_of_be in Hlo, Hhi by (unfold arr in *; congruence). done.
    + rewrite (slice_full_24 en) at 1 by done. rewrite Hpre, Hz.
      pose proof (to_of_be (slice en 4 8)) as Hto. rewrite Hm in Hto. by rewrite Hto.
  - intros (Hpr & v & Hv & ->).
    pose proof (of_be_range g.(ga_extra_nonce2_start_be)) as R1.
    pose proof (of_be_range g.(ga_extra_nonce2_end_be)) as R2.
    unfold arr, len in *. rewrite Ha in R1. rewrite Hb in R2.
    destruct (slices_of_parts g.(ga_extra_nonce_prefix) (to_be 4 v) (replicate 16 x00))
      as (-> & -> & ->); [done|apply to_be_length|done|].
    rewrite !bytes_le_of_be, of_to_be by (rewrite ?to_be_length; first [lia|congruence]).
    split_and!; try done; lia.
Qed.

(** A gateway assignment over extra-nonce counters 16 to 31. *)
Definition demo_gateway_assignment : GatewayAssignmentV1 :=
  let h := replicate 32 x00 in
  mkGatewayAssignmentV1 2 1 0 h h h h h h h h 0 0 1 0 0 (replicate 4 xaa) (to_be 4 16) (to_be 4 31)
    0 0 1 h h 0 [].

Lemma accepts_extra_nonce_range_witness :
  accepts_extra_nonce demo_gateway_assignment
    (replicate 4 xaa ++ to_be 4 20 ++ replicate 16 x00) = true ∧
  accepts_extra_nonce demo_gateway_assignment
    (replicate 4 xaa ++ to_be 4 32 ++ replicate 16 x00) = false.
Proof.
  split; [|done].
  apply (accepts_extra_nonce_range demo_gateway_assignment); [done..|].
  split; [done|]. exists 20. by vm_compute.
Defined.

(** A receipt batch passes [validate_entries] exactly when it lists one work
    key and one credit per share, the (work key, share ID) pairs strictly
    increase, so that no pair occurs twice, and its signers are in strict
    key order. *)
Lemma validate_entries_spec (b : ReceiptBatchV2) :
  validate_entries b = Ok tt ↔
  length b.(rb_accepted_work_keys) = length b.(rb_accepted_share_ids) ∧
  length b.(rb_credited_work) = length b.(rb_accepted_share_ids) ∧
  Sorted hash_pair_lt (zip b.(rb_accepted_work_keys) b.(rb_accepted_share_ids)) ∧
  NoDup (zip b.(rb_accepted_work_keys) b.(rb_accepted_share_ids)) ∧
  keys_increase signer_pubkey b.(rb_signer_set).(signatures).
Proof.
  unfold validate_entries. rewrite <- validate_order_ok. unfold len.
  assert (windows2_any hash_pair_geb (zip b.(rb_accepted_work_keys) b.(rb_accepted_share_ids)) = false
    ↔ Sorted hash_pair_lt (zip b.(rb_accepted_work_keys) b.(rb_accepted_share_ids))) as Hw.
  { apply windows2_hash_pairs. }
  destruct (negb _ || negb _) eqn:El; [split; [done|]|].
  { intros (? & ? & _). apply orb_true_iff in El. rewrite !negb_true_iff, !Z.eqb_neq in El. lia. }
  apply orb_false_iff in El. rewrite !negb_false_iff, !Z.eqb_eq in El.
  destruct (windows2_any _ _) eqn:Ew; [split; [done|]|].
  { intros (_ & _ & Hs & _). by apply Hw in Hs. }
  destruct (validate_order _) as [[]|e] eqn:Eo; cbn; split; try done.
  - intros _. split_and!; [lia..|by apply Hw|by apply hash_pairs_NoDup, Hw|done].
  - intros (_ & _ & _ & _ & ?). done.
Qed.

(** The fifteen object types hash under fifteen different domain tags. *)
Lemma domain_tags_distinct :
  NoDup [@DOMAIN_TAG OperatorRecordV2 _; @DOMAIN_TAG PayoutBucketV2 _;
         @DOMAIN_TAG PayoutSnapshotV2 _; @DOMAIN_TAG PayoutPlanV2 _; @DOMAIN_TAG TemplateCoreV2 _;
         @DOMAIN_TAG BlockBodyPackageV2 _; @DOMAIN_TAG BodyErasureDescriptorV2 _;
         @DOMAIN_TAG BodyAvailabilityCertificateV2 _; @DOMAIN_TAG SessionParentCertificateV2 _;
         @DOMAIN_TAG MaskSessionV2 _; @DOMAIN_TAG AssignmentV2 _; @DOMAIN_TAG GatewayAssignmentV1 _;
         @DOMAIN_TAG ShareV2 _; @DOMAIN_TAG ReceiptBatchV2 _; @DOMAIN_TAG SessionCloseV2 _].
Proof. apply (bool_decide_unpack _). by vm_compute. Qed.
