(* ===== verification/Lifecycle.v ===== *)
(** * Lifecycle state machines (crates/meshmine-types/src/state.rs)

    The four transition guards: block bodies, masked mining sessions, shares and
    payouts. A component drives its record by calling [transition] with each
    proposed next state; [drive] is such a sequence of calls, stopped by the
    first refused one. The theorems are about whole sequences: which stages a
    record must have gone through, in which order, to be where it is. *)

From S2P Require Import Prelude.

Inductive BodyState :=
| LocalDraft | ConsensusValidated | ErasurePublished | AvailabilityCertified
| Active | Expired | Pruned.

Inductive MaskSessionState :=
| SelectingCommittee | MpcSetup | MaskCommitted | Assigning | SubmissionGrace
| ReceiptFinalizing | Opening | Opened | Closed | Aborted | TimedRecovery | FailedThreshold.

Inductive ShareState :=
| Received | SyntaxValid | PowValid | BodyAvailable | DedupValid | PendingReceipt
| Accepted | Settled | Rejected.

Inductive PayoutState :=
| AccumulatingWork | SnapshotClosed | WaitingForEntropy | PlanReady | Payable
| IncludedInHnsBlock | Canonical.

#[export] Instance BodyState_eq_dec : EqDecision BodyState.
Proof. solve_decision. Defined.
#[export] Instance MaskSessionState_eq_dec : EqDecision MaskSessionState.
Proof. solve_decision. Defined.
#[export] Instance ShareState_eq_dec : EqDecision ShareState.
Proof. solve_decision. Defined.
#[export] Instance PayoutState_eq_dec : EqDecision PayoutState.
Proof. solve_decision. Defined.

Inductive TransitionError := mkTransitionError.

Definition body_transition (self next : BodyState) : result TransitionError BodyState :=
  if bool_decide (self = next) ||
     match self, next with
     | LocalDraft, ConsensusValidated
     | ConsensusValidated, ErasurePublished
     | ErasurePublished, AvailabilityCertified
     | AvailabilityCertified, Active
     | Active, Expired
     | Expired, Pruned => true
     | _, _ => false
     end
  then Ok next else Err mkTransitionError.

Definition session_transition (self next : MaskSessionState) (accepted_shares_exist : bool) :
    result TransitionError MaskSessionState :=
  if bool_decide (self = next) then Ok next
  else
    let normal :=
      match self, next with
      | SelectingCommittee, MpcSetup
      | MpcSetup, MaskCommitted
      | MaskCommitted, Assigning
      | Assigning, SubmissionGrace
      | SubmissionGrace, ReceiptFinalizing
      | ReceiptFinalizing, Opening
      | Opening, Opened
      | Opened, Closed
      | TimedRecovery, Opened
      | TimedRecovery, FailedThreshold => true
      | _, _ => false
      end in
    let pre_open_abort :=
      match self with
      | SelectingCommittee | MpcSetup | MaskCommitted | Assigning | SubmissionGrace
      | ReceiptFinalizing | Opening => true
      | _ => false
      end && bool_decide (next = Aborted) in
    let aborted_recovery :=
      bool_decide (self = Aborted) &&
      ((accepted_shares_exist && bool_decide (next = TimedRecovery))
       || (negb accepted_shares_exist && bool_decide (next = Closed))) in
    if normal || pre_open_abort || aborted_recovery then Ok next else Err mkTransitionError.

Definition share_transition (self next : ShareState) : result TransitionError ShareState :=
  if bool_decide (self = next) then Ok next
  else
    let normal :=
      match self, next with
      | Received, SyntaxValid
      | SyntaxValid, PowValid
      | PowValid, BodyAvailable
      | BodyAvailable, DedupValid
      | DedupValid, PendingReceipt
      | PendingReceipt, Accepted
      | Accepted, Settled => true
      | _, _ => false
      end in
    let rejection :=
      bool_decide (self ≠ Settled) && bool_decide (self ≠ Rejected)
      && bool_decide (next = Rejected) in
    if normal || rejection then Ok next else Err mkTransitionError.

Definition payout_transition (self next : PayoutState) : result TransitionError PayoutState :=
  if bool_decide (self = next) ||
     match self, next with
     | AccumulatingWork, SnapshotClosed
     | SnapshotClosed, WaitingForEntropy
     | WaitingForEntropy, PlanReady
     | PlanReady, Payable
     | Payable, IncludedInHnsBlock
     | IncludedInHnsBlock, Canonical
     | IncludedInHnsBlock, Payable
     | Canonical, Payable => true
     | _, _ => false
     end
  then Ok next else Err mkTransitionError.

(** ** Sequences of transitions *)

(** A driver proposing the states [path] one after the other. *)
Definition drive {S E} (transition : S → S → result E S) (s : S) (path : list S) : result E S :=
  fold_result transition s path.

Section Drive.
Context {S E : Type} `{EqDecision S} (transition : S → S → result E S).
(** An accepted transition goes to the proposed state. *)
Hypothesis transition_to : ∀ s n r, transition s n = Ok r → r = n.
(** An invariant of the machine that holds at the start of the run. *)
Context (I : S → Prop).
Hypothesis I_step : ∀ s n, I s → transition s n = Ok n → I n.

Lemma drive_invariant s path s' : I s → drive transition s path = Ok s' → I s'.
Proof.
  intros Hs. apply fold_result_inv; [done|].
  intros n x r _ Hx Hr. pose proof (transition_to _ _ _ Hr) as ->. by apply (I_step x).
Qed.

(** If [t] can only be entered from [p], a run that ends in [t] went through
    [p] before it. *)
Lemma drive_through p t s path :
  (∀ s', I s' → transition s' t = Ok t → s' = t ∨ s' = p) →
  I s → s ≠ t → drive transition s path = Ok t →
  ∃ path1 path2, path = path1 ++ t :: path2 ∧ drive transition s path1 = Ok p.
Proof.
  intros Hin HI Hs. induction path as [|n path IH] using rev_ind.
  - intros [= ->]. done.
  - unfold drive in *. rewrite fold_result_app. cbn. intros H. inv_ok. subst.
    pose proof (transition_to _ _ _ Hx0) as Hn. subst n.
    destruct (Hin x) as [->| ->]; [by eapply drive_invariant|done|..].
    + destruct (IH Hx) as (p1 & p2 & -> & Hp1). exists p1, (p2 ++ [t]).
      by rewrite <- app_assoc.
    + by exists path, [].
Qed.

(** A chain of stages each of which can only be entered from the one before. *)
Fixpoint only_through (p : S) (stages : list S) : Prop :=
  match stages with
  | [] => True
  | t :: stages =>
      (∀ s', I s' → transition s' t = Ok t → s' = t ∨ s' = p) ∧ only_through t stages
  end.

Lemma drive_chain s stages t path :
  I s → only_through s (stages ++ [t]) → NoDup (s :: stages ++ [t]) →
  drive transition s path = Ok t → stages ++ [t] `sublist_of` path.
Proof.
  intros HI. revert t path.
  induction stages as [|u stages IH] using rev_ind; intros t path Hc Hd Hr.
  - cbn in Hc. destruct Hc as [Hc _]. cbn in Hd. apply NoDup_cons in Hd as [Hst _].
    destruct (drive_through s t s path) as (p1 & p2 & -> & _); [done..|set_solver|done|].
    cbn. apply sublist_inserts_l, sublist_skip, sublist_nil_l.
  - assert (∀ q l, only_through q ((l ++ [u]) ++ [t]) →
      only_through q (l ++ [u]) ∧ ∀ s', I s' → transition s' t = Ok t → s' = t ∨ s' = u) as Hsplit.
    { intros q l. revert q. induction l as [|v l IHl]; intros q; cbn; [naive_solver|].
      intros [? H]. apply IHl in H as [??]. done. }
    apply Hsplit in Hc as [Hc Ht].
    destruct (drive_through u t s path) as (p1 & p2 & -> & Hp1); [done..| |done|].
    + apply NoDup_cons in Hd as [Hn _]. set_solver.
    + apply sublist_app; [|apply sublist_skip, sublist_nil_l].
      apply IH; [done| |done].
      rewrite app_comm_cons in Hd. by apply NoDup_app in Hd as [? _].
Qed.

(** A run that ends inside [P] entered it by some transition. *)
Lemma drive_enters (P : S → Prop) `{∀ s, Decision (P s)} s path s' :
  ¬ P s → P s' → drive transition s path = Ok s' →
  ∃ path1 n path2 x, path = path1 ++ n :: path2 ∧ drive transition s path1 = Ok x ∧
    ¬ P x ∧ P n ∧ transition x n = Ok n.
Proof.
  intros Hs. revert s'. induction path as [|n path IH] using rev_ind; intros s' Hs'.
  - intros [= ->]. done.
  - unfold drive in *. rewrite fold_result_app. cbn. intros Hr. inv_ok. subst.
    pose proof (transition_to _ _ _ Hx0) as Hn. subst n.
    destruct (decide (P x)) as [Px|Px].
    + destruct (IH x Px Hx) as (p1 & n & p2 & y & -> & ? & ? & ? & ?).
      exists p1, n, (p2 ++ [s']), y. by rewrite <- app_assoc.
    + by exists path, s', [], x.
Qed.
End Drive.

Lemma body_transition_to s n r : body_transition s n = Ok r → r = n.
Proof. unfold body_transition. by case_match; intros [= <-]. Qed.
Lemma share_transition_to s n r : share_transition s n = Ok r → r = n.
Proof. unfold share_transition. by repeat case_match; intros [= <-]. Qed.
Lemma payout_transition_to s n r : payout_transition s n = Ok r → r = n.
Proof. unfold payout_transition. by case_match; intros [= <-]. Qed.
Lemma session_transition_to a s n r : session_transition s n a = Ok r → r = n.
Proof. unfold session_transition. by repeat case_match; intros [= <-]. Qed.

(** Checks a fact about every state of a machine by cases. *)
Ltac all_states :=
  let s := fresh in intros s; destruct s; vm_compute; first [discriminate | intuition discriminate].

(** ** Properties *)

(** A share that a node holds as [Accepted] went through syntax, proof of
    work, body availability, deduplication and receipt admission, in this order
    and skipping none, whatever sequence of transitions it was driven by; and
    one held as [Settled] was [Accepted] before. *)
Lemma share_accepted_after_every_check path :
  (drive share_transition Received path = Ok Accepted →
   [SyntaxValid; PowValid; BodyAvailable; DedupValid; PendingReceipt; Accepted]
     `sublist_of` path) ∧
  (drive share_transition Received path = Ok Settled →
   [SyntaxValid; PowValid; BodyAvailable; DedupValid; PendingReceipt; Accepted; Settled]
     `sublist_of` path).
Proof.
  split; intros H.
  - apply (drive_chain share_transition share_transition_to (λ _, True) (λ _ _ _ _, Logic.I) Received
      [SyntaxValid; PowValid; BodyAvailable; DedupValid; PendingReceipt]); [done| | |done].
    + cbn. split_and!; try done; all_states.
    + apply (bool_decide_unpack _). by vm_compute.
  - apply (drive_chain share_transition share_transition_to (λ _, True) (λ _ _ _ _, Logic.I) Received
      [SyntaxValid; PowValid; BodyAvailable; DedupValid; PendingReceipt; Accepted]); [done| | |done].
    + cbn. split_and!; try done; all_states.
    + apply (bool_decide_unpack _). by vm_compute.
Qed.

Lemma share_accepted_after_every_check_witness :
  [SyntaxValid; PowValid; BodyAvailable; DedupValid; PendingReceipt; Accepted] `sublist_of`
  [SyntaxValid; SyntaxValid; PowValid; BodyAvailable; DedupValid; PendingReceipt; Accepted].
Proof. by apply (share_accepted_after_every_check _). Defined.

(** A mined body becomes [Active] only after consensus validation, erasure
    publication and an availability certificate, in this order; and it is
    [Pruned] only after having been active and expired. *)
Lemma body_active_after_certification path :
  (drive body_transition LocalDraft path = Ok Active →
   [ConsensusValidated; ErasurePublished; AvailabilityCertified; Active] `sublist_of` path) ∧
  (drive body_transition LocalDraft path = Ok Pruned →
   [ConsensusValidated; ErasurePublished; AvailabilityCertified; Active; Expired; Pruned]
     `sublist_of` path).
Proof.
  split; intros H.
  - apply (drive_chain body_transition body_transition_to (λ _, True) (λ _ _ _ _, Logic.I) LocalDraft
      [ConsensusValidated; ErasurePublished; AvailabilityCertified]); [done| | |done].
    + cbn. split_and!; try done; all_states.
    + apply (bool_decide_unpack _). by vm_compute.
  - apply (drive_chain body_transition body_transition_to (λ _, True) (λ _ _ _ _, Logic.I) LocalDraft
      [ConsensusValidated; ErasurePublished; AvailabilityCertified; Active; Expired]); [done| | |done].
    + cbn. split_and!; try done; all_states.
    + apply (bool_decide_unpack _). by vm_compute.
Qed.

(** The session driver also says at each call whether shares were accepted. *)
Definition drive_session (s : MaskSessionState) (path : list (MaskSessionState * bool)) :
    result TransitionError MaskSessionState :=
  fold_result (λ s n, session_transition s n.1 n.2) s path.

(** With one flag at every call, the driver is a [drive] of the machine
    specialised to that flag. *)
Lemma drive_session_flag a s path :
  Forall (λ n, n.2 = a) path →
  drive_session s path = drive (λ x n, session_transition x n a) s (path.*1).
Proof.
  unfold drive_session, drive. intros Hp. revert s.
  induction Hp as [|[n a'] path Ha _ IH]; intros s; [done|]. cbn in *. subst a'.
  destruct (session_transition s n a); cbn; auto.
Qed.

(** What an aborted session can still become. *)
Definition aborted_states (s : MaskSessionState) : Prop :=
  match s with
  | Aborted | TimedRecovery | Opened | Closed | FailedThreshold => True
  | _ => False
  end.

(** A session that is aborted while accepted shares exist is never closed
    without the mask being opened by timed recovery: every run from [Aborted]
    to [Closed] goes through [TimedRecovery] and then [Opened]. An aborted
    session without accepted shares can only be closed: it never enters
    [TimedRecovery] and its mask is never opened. *)
Lemma aborted_session_recovers path :
  (Forall (λ n, n.2 = true) path → drive_session Aborted path = Ok Closed →
   [TimedRecovery; Opened; Closed] `sublist_of` path.*1) ∧
  (Forall (λ n, n.2 = false) path → ∀ s, drive_session Aborted path = Ok s →
   s = Aborted ∨ s = Closed).
Proof.
  split; intros Hp.
  - rewrite (drive_session_flag true Aborted path Hp). intros H.
    apply (drive_chain (λ x n, session_transition x n true) (session_transition_to true)
      aborted_states) with (s := Aborted) (stages := [TimedRecovery; Opened]); [..|done].
    + intros s n. by destruct s, n.
    + done.
    + cbn. split_and!; try done; all_states.
    + apply (bool_decide_unpack _). by vm_compute.
  - intros s. rewrite (drive_session_flag false Aborted path Hp).
    apply (drive_invariant (λ x n, session_transition x n false) (session_transition_to false)
      (λ s, s = Aborted ∨ s = Closed)).
    + intros x n [-> | ->]; destruct n; vm_compute; naive_solver.
    + by left.
Qed.

Lemma aborted_session_recovers_witness :
  [TimedRecovery; Opened; Closed] `sublist_of`
  [(TimedRecovery, true); (Opened, true); (Closed, true)].*1.
Proof. apply (aborted_session_recovers _); [by repeat constructor|done]. Defined.

(** What a payout plan can be once it was payable. *)
Definition payable_states (s : PayoutState) : Prop :=
  match s with Payable | IncludedInHnsBlock | Canonical => True | _ => False end.

#[export] Instance payable_states_dec s : Decision (payable_states s).
Proof. destruct s; apply _. Defined.
Lemma payable_states_step s n : payable_states s → payout_transition s n = Ok n → payable_states n.
Proof. by destruct s, n. Qed.

(** A payout plan becomes [Payable] only after snapshot, entropy and plan, in
    this order; from then on, through any sequence of inclusions and
    reorganizations, it stays payable, included or canonical; and it becomes
    canonical only by being included in a block. *)
Lemma payout_lifecycle path :
  (drive payout_transition AccumulatingWork path = Ok Payable →
   [SnapshotClosed; WaitingForEntropy; PlanReady] `sublist_of` path) ∧
  (∀ s, drive payout_transition Payable path = Ok s →
   s ∈ [Payable; IncludedInHnsBlock; Canonical]) ∧
  (drive payout_transition Payable path = Ok Canonical →
   [IncludedInHnsBlock; Canonical] `sublist_of` path).
Proof.
  split_and!.
  - intros H.
    assert (∃ q1 q2, path = q1 ++ q2 ∧ drive payout_transition AccumulatingWork q1 = Ok PlanReady)
      as (q1 & q2 & -> & Hq).
    { destruct (drive_enters payout_transition payout_transition_to payable_states
        AccumulatingWork path Payable) as (q1 & n & q2 & x & -> & ? & ? & ? & ?); [tauto|done..|].
      exists q1, (n :: q2). split; [done|]. by destruct x, n. }
    apply sublist_inserts_r.
    apply (drive_chain payout_transition payout_transition_to (λ _, True) (λ _ _ _ _, Logic.I)
      AccumulatingWork [SnapshotClosed; WaitingForEntropy]); [done| | |done].
    + cbn. split_and!; try done; all_states.
    + apply (bool_decide_unpack _). by vm_compute.
  - intros s H. assert (payable_states s) as Hs.
    { apply (drive_invariant payout_transition payout_transition_to payable_states
        payable_states_step Payable path); [done|done]. }
    destruct s; try done; set_solver.
  - intros H.
    apply (drive_chain payout_transition payout_transition_to payable_states payable_states_step
      Payable [IncludedInHnsBlock]); [done| | |done].
    + cbn. split_and!; try done; all_states.
    + apply (bool_decide_unpack _). by vm_compute.
Qed.

Lemma payout_lifecycle_witness :
  [IncludedInHnsBlock; Canonical] `sublist_of`
  [IncludedInHnsBlock; Payable; IncludedInHnsBlock; Canonical].
Proof. by apply (payout_lifecycle _). Defined.
