(* ===== verification/Header.v ===== *)
(** * Handshake headers and share hashes (crates/meshmine-hns/src/header.rs)

    The 236-byte consensus header, the 256-byte miner header that carries the
    mask commitment instead of the mask, the hashes both are reduced to, and
    the prepared hasher of the nonce loop. Buffers are written the way the code
    writes them: into a zeroed array behind a cursor. *)

From S2P Require Import Prelude Codec Hash Types.

Definition HASH_SIZE : nat := 32.
Definition NONCE_SIZE : nat := 24.
Definition HEADER_SIZE : nat := 236.
Definition MINER_HEADER_SIZE : nat := 256.

Inductive HeaderError :=
| InvalidLength (expected actual : Z)
| InvalidPadding.

Record HnsHeader := mkHnsHeader {
  hh_nonce : Z;
  hh_time : Z;
  hh_prev_block : Hash256;
  hh_tree_root : Hash256;
  hh_extra_nonce : bytes;
  hh_reserved_root : Hash256;
  hh_witness_root : Hash256;
  hh_merkle_root : Hash256;
  hh_version : Z;
  hh_bits : Z;
  hh_mask : Hash256;
}.

Record MinerHeader := mkMinerHeader {
  mh_nonce : Z;
  mh_time : Z;
  mh_prev_block : Hash256;
  mh_tree_root : Hash256;
  mh_mask_hash : Hash256;
  mh_extra_nonce : bytes;
  mh_reserved_root : Hash256;
  mh_witness_root : Hash256;
  mh_merkle_root : Hash256;
  mh_version : Z;
  mh_bits : Z;
}.

Record PreparedMinerHasher := mkPreparedMinerHasher {
  pmh_preheader : bytes;
  pmh_padding8 : bytes;
  pmh_padding32 : bytes;
}.

(** ** Buffers and cursors *)

(** [out[cursor..cursor + data.len()].copy_from_slice(data); cursor += data.len()] *)
Definition write_bytes (b : bytes * nat) (data : bytes) : bytes * nat :=
  let '(out, cursor) := b in
  (take cursor out ++ data ++ drop (cursor + length data) out, (cursor + length data)%nat).

(** A zeroed [n]-byte array after writing [pieces] into it in order. *)
Definition written (n : nat) (pieces : list bytes) : bytes :=
  (foldl write_bytes (replicate n x00, 0%nat) pieces).1.

(** A reader of [data] that advances a cursor. *)
Definition reader (A : Type) : Type := bytes → nat → A * nat.
#[export] Instance reader_ret : MRet reader := λ A a _ c, (a, c).
#[export] Instance reader_bind : MBind reader := λ A B f r data c,
  let '(a, c') := r data c in f a data c'.

Definition read_array (n : nat) : reader bytes := λ data c, (take n (drop c data), (c + n)%nat).
Definition read_u32 : reader Z := bs ← read_array 4; mret (of_le bs).
Definition read_u64 : reader Z := bs ← read_array 8; mret (of_le bs).

(** ** Hash inputs *)

Definition byte_xor (a b : byte) : byte := z2b (Z.lxor (b2z a) (b2z b)).
Definition xor_hashes (left right : Hash256) : Hash256 := zip_with byte_xor left right.

Definition deterministic_padding (prev_block tree_root : Hash256) (size : nat) : bytes :=
  (λ index, byte_xor (nth (index mod HASH_SIZE) prev_block x00)
                     (nth (index mod HASH_SIZE) tree_root x00)) <$> seq 0 size.

Definition subheader (extra_nonce reserved_root witness_root merkle_root : bytes)
    (version bits : Z) : bytes :=
  written 128 [extra_nonce; reserved_root; witness_root; merkle_root; to_le 4 version;
               to_le 4 bits].

Definition preheader (nonce time : Z) (prev_block tree_root commit_hash : bytes) : bytes :=
  written 128 [to_le 4 nonce; to_le 8 time; deterministic_padding prev_block tree_root 20;
               prev_block; tree_root; commit_hash].

Section Hashes.
Context `{Digests}.

Definition share_hash_from_preheader (pre : bytes) (prev_block tree_root : Hash256) : Hash256 :=
  let left := blake2b_512 [pre] in
  let right := sha3_256 (pre ++ deterministic_padding prev_block tree_root 8) in
  blake2b_256 [left; deterministic_padding prev_block tree_root 32; right].

Definition hh_subheader (h : HnsHeader) : bytes :=
  subheader h.(hh_extra_nonce) h.(hh_reserved_root) h.(hh_witness_root) h.(hh_merkle_root)
    h.(hh_version) h.(hh_bits).
Definition hh_sub_hash (h : HnsHeader) : Hash256 := blake2b_256 [hh_subheader h].
Definition hh_mask_hash (h : HnsHeader) : Hash256 :=
  blake2b_256 [h.(hh_prev_block); h.(hh_mask)].
Definition hh_commit_hash (h : HnsHeader) : Hash256 :=
  blake2b_256 [hh_sub_hash h; hh_mask_hash h].
Definition hh_preheader (h : HnsHeader) : bytes :=
  preheader h.(hh_nonce) h.(hh_time) h.(hh_prev_block) h.(hh_tree_root) (hh_commit_hash h).
Definition hh_share_hash (h : HnsHeader) : Hash256 :=
  share_hash_from_preheader (hh_preheader h) h.(hh_prev_block) h.(hh_tree_root).
Definition hh_pow_hash (h : HnsHeader) : Hash256 := xor_hashes (hh_share_hash h) h.(hh_mask).

Definition mh_subheader (m : MinerHeader) : bytes :=
  subheader m.(mh_extra_nonce) m.(mh_reserved_root) m.(mh_witness_root) m.(mh_merkle_root)
    m.(mh_version) m.(mh_bits).
Definition mh_sub_hash (m : MinerHeader) : Hash256 := blake2b_256 [mh_subheader m].
Definition mh_commit_hash (m : MinerHeader) : Hash256 :=
  blake2b_256 [mh_sub_hash m; m.(mh_mask_hash)].
Definition mh_preheader (m : MinerHeader) : bytes :=
  preheader m.(mh_nonce) m.(mh_time) m.(mh_prev_block) m.(mh_tree_root) (mh_commit_hash m).
Definition mh_share_hash (m : MinerHeader) : Hash256 :=
  share_hash_from_preheader (mh_preheader m) m.(mh_prev_block) m.(mh_tree_root).

(** [MinerHeader::from(&header)] *)
Definition miner_of_header (h : HnsHeader) : MinerHeader :=
  mkMinerHeader h.(hh_nonce) h.(hh_time) h.(hh_prev_block) h.(hh_tree_root) (hh_mask_hash h)
    h.(hh_extra_nonce) h.(hh_reserved_root) h.(hh_witness_root) h.(hh_merkle_root)
    h.(hh_version) h.(hh_bits).

Definition PreparedMinerHasher_new (m : MinerHeader) : PreparedMinerHasher :=
  mkPreparedMinerHasher (mh_preheader m)
    (deterministic_padding m.(mh_prev_block) m.(mh_tree_root) 8)
    (deterministic_padding m.(mh_prev_block) m.(mh_tree_root) 32).

(** The nonce loop's hash: only the first four bytes of the preheader change. *)
Definition pmh_share_hash (p : PreparedMinerHasher) (nonce : Z) : Hash256 :=
  let pre := to_le 4 nonce ++ drop 4 p.(pmh_preheader) in
  let left := blake2b_512 [pre] in
  let right := sha3_256 (pre ++ p.(pmh_padding8)) in
  blake2b_256 [left; p.(pmh_padding32); right].
End Hashes.

(** ** Wire forms *)

(** The arrays a consensus header consists of, in wire order. *)
Definition hh_pieces (h : HnsHeader) : list bytes :=
  [to_le 4 h.(hh_nonce); to_le 8 h.(hh_time); h.(hh_prev_block); h.(hh_tree_root);
   h.(hh_extra_nonce); h.(hh_reserved_root); h.(hh_witness_root); h.(hh_merkle_root);
   to_le 4 h.(hh_version); to_le 4 h.(hh_bits); h.(hh_mask)].
Definition hh_to_bytes (h : HnsHeader) : bytes := written HEADER_SIZE (hh_pieces h).

Definition hh_read : reader HnsHeader :=
  nonce ← read_u32;
  time ← read_u64;
  prev_block ← read_array 32;
  tree_root ← read_array 32;
  extra_nonce ← read_array NONCE_SIZE;
  reserved_root ← read_array 32;
  witness_root ← read_array 32;
  merkle_root ← read_array 32;
  version ← read_u32;
  bits ← read_u32;
  mask ← read_array 32;
  mret (mkHnsHeader nonce time prev_block tree_root extra_nonce reserved_root witness_root
          merkle_root version bits mask).

Definition hh_from_bytes (data : bytes) : result HeaderError HnsHeader :=
  if negb (len data =? Z.of_nat HEADER_SIZE)
  then Err (InvalidLength (Z.of_nat HEADER_SIZE) (len data))
  else Ok (hh_read data 0%nat).1.

Definition mh_pieces (m : MinerHeader) : list bytes :=
  [to_le 4 m.(mh_nonce); to_le 8 m.(mh_time);
   deterministic_padding m.(mh_prev_block) m.(mh_tree_root) 20; m.(mh_prev_block);
   m.(mh_tree_root); m.(mh_mask_hash); m.(mh_extra_nonce); m.(mh_reserved_root);
   m.(mh_witness_root); m.(mh_merkle_root); to_le 4 m.(mh_version); to_le 4 m.(mh_bits)].
Definition mh_to_bytes (m : MinerHeader) : bytes := written MINER_HEADER_SIZE (mh_pieces m).
Definition to_miner `{Digests} (h : HnsHeader) : bytes := mh_to_bytes (miner_of_header h).

Definition mh_read : reader (result HeaderError MinerHeader) :=
  nonce ← read_u32;
  time ← read_u64;
  padding ← read_array 20;
  prev_block ← read_array 32;
  tree_root ← read_array 32;
  if bool_decide (padding ≠ deterministic_padding prev_block tree_root 20)
  then mret (Err InvalidPadding)
  else
    mask_hash ← read_array 32;
    extra_nonce ← read_array NONCE_SIZE;
    reserved_root ← read_array 32;
    witness_root ← read_array 32;
    merkle_root ← read_array 32;
    version ← read_u32;
    bits ← read_u32;
    mret (Ok (mkMinerHeader nonce time prev_block tree_root mask_hash extra_nonce reserved_root
                witness_root merkle_root version bits)).

Definition mh_from_bytes (data : bytes) : result HeaderError MinerHeader :=
  if negb (len data =? Z.of_nat MINER_HEADER_SIZE)
  then Err (InvalidLength (Z.of_nat MINER_HEADER_SIZE) (len data))
  else (mh_read data 0%nat).1.

(** ** Well-formed headers: every field has its array length or integer width. *)

Definition ok_HnsHeader (h : HnsHeader) : Prop :=
  uint 32 h.(hh_nonce) ∧ uint 64 h.(hh_time) ∧ arr 32 h.(hh_prev_block) ∧
  arr 32 h.(hh_tree_root) ∧ arr 24 h.(hh_extra_nonce) ∧ arr 32 h.(hh_reserved_root) ∧
  arr 32 h.(hh_witness_root) ∧ arr 32 h.(hh_merkle_root) ∧ uint 32 h.(hh_version) ∧
  uint 32 h.(hh_bits) ∧ arr 32 h.(hh_mask).

Definition ok_MinerHeader (m : MinerHeader) : Prop :=
  uint 32 m.(mh_nonce) ∧ uint 64 m.(mh_time) ∧ arr 32 m.(mh_prev_block) ∧
  arr 32 m.(mh_tree_root) ∧ arr 32 m.(mh_mask_hash) ∧ arr 24 m.(mh_extra_nonce) ∧
  arr 32 m.(mh_reserved_root) ∧ arr 32 m.(mh_witness_root) ∧ arr 32 m.(mh_merkle_root) ∧
  uint 32 m.(mh_version) ∧ uint 32 m.(mh_bits).

(** ** Buffer lemmas *)

Lemma foldl_write_bytes pre pieces rest :
  (length (concat pieces) ≤ length rest)%nat →
  foldl write_bytes (pre ++ rest, length pre) pieces =
  (pre ++ concat pieces ++ drop (length (concat pieces)) rest,
   (length pre + length (concat pieces))%nat).
Proof.
  revert pre rest. induction pieces as [|p pieces IH]; intros pre rest Hl; cbn in *.
  - f_equal; lia.
  - rewrite length_app in Hl.
    rewrite take_app_length, drop_app_ge, app_assoc by lia.
    replace (length pre + length p - length pre)%nat with (length p) by lia.
    replace (length pre + length p)%nat with (length (pre ++ p)) by (rewrite length_app; lia).
    rewrite IH by (rewrite length_drop; lia). rewrite drop_drop, !length_app.
    f_equal; [|lia]. by rewrite <- !app_assoc.
Qed.

(** Writing pieces that exactly fill the buffer concatenates them. *)
Lemma written_concat n pieces : length (concat pieces) = n → written n pieces = concat pieces.
Proof.
  intros Hn. unfold written.
  pose proof (foldl_write_bytes [] pieces (replicate n x00)) as Hw.
  cbn [app length] in Hw. rewrite Hw by (rewrite length_replicate; lia).
  cbn. by rewrite drop_ge, app_nil_r by (rewrite length_replicate; lia).
Qed.

(** The consecutive slices of [data] of the given lengths, from [c] on. *)
Fixpoint slices (ns : list nat) (data : bytes) (c : nat) : list bytes :=
  match ns with
  | [] => []
  | n :: ns => take n (drop c data) :: slices ns data (c + n)
  end.

Lemma slices_concat pieces pre :
  slices (length <$> pieces) (pre ++ concat pieces) (length pre) = pieces.
Proof.
  revert pre. induction pieces as [|p pieces IH]; intros pre; cbn; [done|].
  rewrite drop_app_length, take_app_length. f_equal.
  rewrite app_assoc, <- length_app. apply IH.
Qed.

Lemma concat_slices ns data c :
  (c + sum_list ns = length data)%nat → concat (slices ns data c) = drop c data.
Proof.
  revert c. induction ns as [|n ns IH]; intros c Hl; cbn in *.
  - by rewrite drop_ge by lia.
  - rewrite IH, <- drop_drop by lia. apply take_drop.
Qed.

Lemma deterministic_padding_length p t n : length (deterministic_padding p t n) = n.
Proof. unfold deterministic_padding. by rewrite length_fmap, length_seq. Qed.

Definition hh_sizes : list nat := [4; 8; 32; 32; 24; 32; 32; 32; 4; 4; 32]%nat.
Definition mh_sizes : list nat := [4; 8; 20; 32; 32; 32; 24; 32; 32; 32; 4; 4]%nat.

Lemma hh_pieces_sizes h : ok_HnsHeader h → length <$> hh_pieces h = hh_sizes.
Proof.
  unfold ok_HnsHeader, arr. intros Hok. destruct_and!. cbn [fmap list_fmap hh_pieces].
  rewrite !to_le_length. by repeat (f_equal; try done).
Qed.
Lemma mh_pieces_sizes m : ok_MinerHeader m → length <$> mh_pieces m = mh_sizes.
Proof.
  unfold ok_MinerHeader, arr. intros Hok. destruct_and!. cbn [fmap list_fmap mh_pieces].
  rewrite !to_le_length, deterministic_padding_length. by repeat (f_equal; try done).
Qed.

Lemma length_concat_sizes (pieces : list bytes) :
  length (concat pieces) = sum_list (length <$> pieces).
Proof. induction pieces as [|p pieces IH]; cbn; [done|]. by rewrite length_app, IH. Qed.

Lemma hh_to_bytes_concat h : ok_HnsHeader h → hh_to_bytes h = concat (hh_pieces h).
Proof.
  intros Hok. apply written_concat. by rewrite length_concat_sizes, hh_pieces_sizes.
Qed.
Lemma mh_to_bytes_concat m : ok_MinerHeader m → mh_to_bytes m = concat (mh_pieces m).
Proof.
  intros Hok. apply written_concat. by rewrite length_concat_sizes, mh_pieces_sizes.
Qed.

Lemma hh_slices h : ok_HnsHeader h → slices hh_sizes (hh_to_bytes h) 0%nat = hh_pieces h.
Proof.
  intros Hok. rewrite hh_to_bytes_concat, <- (hh_pieces_sizes h) by done.
  apply (slices_concat (hh_pieces h) []).
Qed.
Lemma mh_slices m : ok_MinerHeader m → slices mh_sizes (mh_to_bytes m) 0%nat = mh_pieces m.
Proof.
  intros Hok. rewrite mh_to_bytes_concat, <- (mh_pieces_sizes m) by done.
  apply (slices_concat (mh_pieces m) []).
Qed.

(** A slice inside the buffer has the length asked for, holds an integer of its
    width, and is that integer's bytes. *)
Lemma slice_arr (data : bytes) n c : (c + n ≤ length data)%nat → arr n (take n (drop c data)).
Proof. intros. unfold arr. rewrite length_take, length_drop. lia. Qed.
Lemma slice_uint (data : bytes) n c :
  (c + n ≤ length data)%nat → uint (8 * Z.of_nat n) (of_le (take n (drop c data))).
Proof.
  intros Hc. apply (slice_arr data) in Hc. unfold uint. rewrite <- pow256.
  pose proof (of_le_range (take n (drop c data))) as Hr. unfold len in Hr. by rewrite Hc in Hr.
Qed.
Lemma slice_to_of_le (data : bytes) n c :
  (c + n ≤ length data)%nat → to_le n (of_le (take n (drop c data))) = take n (drop c data).
Proof.
  intros Hc. apply (slice_arr data) in Hc. pose proof (to_of_le (take n (drop c data))) as Ht.
  by rewrite Hc in Ht.
Qed.

Ltac unfold_reader :=
  unfold read_u32, read_u64, NONCE_SIZE; unfold mbind, reader_bind, mret, reader_ret, read_array.

(** Replaces the slices of a buffer by the pieces [Hs] equates them with. *)
Ltac rewrite_slices Hs :=
  repeat (apply (inj2 cons) in Hs as [? Hs]);
  repeat match goal with H : take _ (drop _ _) = _ |- _ => rewrite H end.

Lemma hh_from_to_bytes h : ok_HnsHeader h → hh_from_bytes (hh_to_bytes h) = Ok h.
Proof.
  intros Hok. pose proof (hh_slices h Hok) as Hs.
  assert (len (hh_to_bytes h) = 236) as Hl.
  { rewrite hh_to_bytes_concat by done. unfold len.
    by rewrite length_concat_sizes, hh_pieces_sizes. }
  generalize dependent (hh_to_bytes h). intros data Hs Hl.
  unfold hh_from_bytes. rewrite Hl.
  unfold hh_read. unfold_reader.
  cbn -[of_le take drop]. f_equal.
  cbn -[of_le to_le take drop] in Hs. rewrite_slices Hs.
  unfold ok_HnsHeader, uint in Hok. destruct_and!.
  rewrite !of_to_le by (cbn in *; lia). by destruct h.
Qed.

Lemma hh_from_bytes_sound data h :
  hh_from_bytes data = Ok h → ok_HnsHeader h ∧ data = hh_to_bytes h.
Proof.
  unfold hh_from_bytes. destruct (negb _) eqn:El; [done|]. intros [= <-].
  apply negb_false_iff, Z.eqb_eq in El. unfold len in El.
  assert (length data = 236%nat) as Hl by (unfold HEADER_SIZE in El; lia). clear El.
  assert (ok_HnsHeader (hh_read data 0%nat).1) as Hok.
  { unfold ok_HnsHeader, hh_read. unfold_reader. cbn -[of_le take drop].
    split_and!; first [apply slice_arr | apply (slice_uint data 4) | apply (slice_uint data 8)]; lia. }
  split; [done|]. rewrite hh_to_bytes_concat by done.
  transitivity (concat (slices hh_sizes data 0%nat)).
  { rewrite concat_slices by (cbn; lia). by rewrite drop_0. }
  f_equal. unfold hh_pieces, hh_read. unfold_reader. cbn -[of_le to_le take drop].
  by rewrite !slice_to_of_le by lia.
Qed.

Lemma mh_from_to_bytes m : ok_MinerHeader m → mh_from_bytes (mh_to_bytes m) = Ok m.
Proof.
  intros Hok. pose proof (mh_slices m Hok) as Hs.
  assert (len (mh_to_bytes m) = 256) as Hl.
  { rewrite mh_to_bytes_concat by done. unfold len.
    by rewrite length_concat_sizes, mh_pieces_sizes. }
  generalize dependent (mh_to_bytes m). intros data Hs Hl.
  unfold mh_from_bytes. rewrite Hl.
  cbn -[deterministic_padding of_le to_le take drop] in Hs.
  unfold mh_read. unfold_reader.
  cbn -[deterministic_padding of_le to_le take drop]. rewrite_slices Hs.
  rewrite bool_decide_eq_false_2 by tauto.
  cbn -[deterministic_padding of_le to_le take drop]. rewrite_slices Hs.
  unfold ok_MinerHeader, uint in Hok. destruct_and!.
  rewrite !of_to_le by (cbn in *; lia). by destruct m.
Qed.

Lemma mh_from_bytes_sound data m :
  mh_from_bytes data = Ok m → ok_MinerHeader m ∧ data = mh_to_bytes m.
Proof.
  unfold mh_from_bytes. destruct (negb _) eqn:El; [done|].
  apply negb_false_iff, Z.eqb_eq in El. unfold len in El.
  assert (length data = 256%nat) as Hl by (unfold MINER_HEADER_SIZE in El; lia). clear El.
  unfold mh_read. unfold_reader.
  cbn -[deterministic_padding of_le to_le take drop mh_to_bytes].
  case_bool_decide as Hp; [done|].
  cbn -[deterministic_padding of_le to_le take drop mh_to_bytes]. intros [= <-].
  match goal with |- ok_MinerHeader ?m ∧ _ => assert (ok_MinerHeader m) as Hok end.
  { unfold ok_MinerHeader. cbn -[of_le take drop].
    split_and!; first [apply slice_arr | apply (slice_uint data 4) | apply (slice_uint data 8)]; lia. }
  split; [done|]. rewrite mh_to_bytes_concat by done.
  transitivity (concat (slices mh_sizes data 0%nat)).
  { rewrite concat_slices by (cbn; lia). by rewrite drop_0. }
  f_equal. unfold mh_pieces. cbn -[deterministic_padding of_le to_le take drop].
  rewrite !slice_to_of_le by lia. by rewrite <- Hp.
Qed.

(** ** Properties *)

(** Both header forms are exact. A byte string parses as a consensus header
    exactly when it is the 236 bytes written for that header; it parses as a
    miner header exactly when it is the 256 bytes written for it, so the 20
    padding bytes are not malleable. *)
Lemma headers_wire_exact data :
  (∀ h, hh_from_bytes data = Ok h ↔ ok_HnsHeader h ∧ data = hh_to_bytes h) ∧
  (∀ m, mh_from_bytes data = Ok m ↔ ok_MinerHeader m ∧ data = mh_to_bytes m).
Proof.
  split; intros x; split.
  - apply hh_from_bytes_sound.
  - intros [Hok ->]. by apply hh_from_to_bytes.
  - apply mh_from_bytes_sound.
  - intros [Hok ->]. by apply mh_from_to_bytes.
Qed.

Section HashProperties.
Context `{DigestsOk}.

Lemma miner_of_header_ok h : ok_HnsHeader h → ok_MinerHeader (miner_of_header h).
Proof.
  unfold ok_HnsHeader, ok_MinerHeader. intros. destruct_and!. cbn.
  split_and!; try done. apply blake2b_256_length.
Qed.

(** The preheader is its six fields, the nonce first. *)
Lemma preheader_concat nonce time prev_block tree_root commit_hash :
  arr 32 prev_block → arr 32 tree_root → arr 32 commit_hash →
  preheader nonce time prev_block tree_root commit_hash =
  to_le 4 nonce ++ to_le 8 time ++ deterministic_padding prev_block tree_root 20 ++
  prev_block ++ tree_root ++ commit_hash.
Proof.
  unfold arr. intros H1 H2 H3. unfold preheader. rewrite written_concat.
  - cbn [concat]. by rewrite app_nil_r.
  - rewrite length_concat_sizes. cbn [fmap list_fmap sum_list].
    by rewrite !to_le_length, deterministic_padding_length, H1, H2, H3.
Qed.

Definition set_nonce (m : MinerHeader) (nonce : Z) : MinerHeader :=
  mkMinerHeader nonce m.(mh_time) m.(mh_prev_block) m.(mh_tree_root) m.(mh_mask_hash)
    m.(mh_extra_nonce) m.(mh_reserved_root) m.(mh_witness_root) m.(mh_merkle_root)
    m.(mh_version) m.(mh_bits).

Definition set_header_nonce (h : HnsHeader) (nonce : Z) : HnsHeader :=
  mkHnsHeader nonce h.(hh_time) h.(hh_prev_block) h.(hh_tree_root) h.(hh_extra_nonce)
    h.(hh_reserved_root) h.(hh_witness_root) h.(hh_merkle_root) h.(hh_version) h.(hh_bits)
    h.(hh_mask).

Lemma byte_xor_involutive a b : byte_xor (byte_xor a b) b = a.
Proof.
  unfold byte_xor. apply b2z_inj. rewrite !b2z_z2b.
  pose proof (b2z_range a) as Ha. pose proof (b2z_range b) as Hb.
  change 256 with (2 ^ 8) in *.
  rewrite (Z.mod_small (Z.lxor (b2z a) (b2z b))) by (apply (lxor_range 8); unfold uint; lia).
  rewrite Z.lxor_assoc, Z.lxor_nilpotent, Z.lxor_0_r. apply Z.mod_small. lia.
Qed.

Lemma xor_hashes_involutive x y :
  length x = length y → xor_hashes (xor_hashes x y) y = x.
Proof.
  unfold xor_hashes. revert y. induction x as [|a x IH]; intros [|b y] Hl; cbn in *; try done.
  rewrite byte_xor_involutive, IH by congruence. done.
Qed.

(** Setting the nonce changes exactly the first four bytes of the preheader. *)
Lemma mh_preheader_set_nonce m nonce :
  ok_MinerHeader m →
  mh_preheader (set_nonce m nonce) = to_le 4 nonce ++ drop 4 (mh_preheader m).
Proof.
  intros Hok. unfold ok_MinerHeader in Hok. destruct_and!. unfold mh_preheader.
  rewrite !preheader_concat by (done || apply blake2b_256_length).
  by rewrite drop_app_length' by (by rewrite to_le_length).
Qed.

Lemma pmh_share_hash_set_nonce m nonce :
  ok_MinerHeader m →
  pmh_share_hash (PreparedMinerHasher_new m) nonce = mh_share_hash (set_nonce m nonce).
Proof.
  intros Hok. unfold pmh_share_hash, mh_share_hash, share_hash_from_preheader.
  by rewrite mh_preheader_set_nonce by done.
Qed.

(** The prepared hasher is equivalent to the scalar one. For every nonce,
    hashing with the precomputed preheader and paddings gives the share hash of
    the miner header carrying that nonce. *)
Lemma prepared_hasher_exact m nonce :
  ok_MinerHeader m →
  pmh_share_hash (PreparedMinerHasher_new m) nonce = mh_share_hash (set_nonce m nonce).
Proof.
  apply pmh_share_hash_set_nonce.
Qed.

(** Mining on the wire form finds blocks. The bytes sent to a miner parse
    back to a header that hides the mask behind its hash; for every nonce the
    miner tries, its share hash is the share hash of the full header with that
    nonce, and the block's proof hash is that share hash XOR the mask, from
    which the share hash is recovered by the same XOR. *)
Lemma miner_header_faithful h nonce :
  ok_HnsHeader h → uint 32 nonce →
  let full := set_header_nonce h nonce in
  ∃ m, mh_from_bytes (to_miner h) = Ok m ∧ m.(mh_mask_hash) = hh_mask_hash h ∧
    pmh_share_hash (PreparedMinerHasher_new m) nonce = hh_share_hash full ∧
    hh_pow_hash full = xor_hashes (hh_share_hash full) h.(hh_mask) ∧
    xor_hashes (hh_pow_hash full) h.(hh_mask) = hh_share_hash full.
Proof.
  intros Hok Hn full. exists (miner_of_header h). pose proof (miner_of_header_ok h Hok) as Hm.
  split_and!.
  - by apply mh_from_to_bytes.
  - done.
  - by rewrite pmh_share_hash_set_nonce.
  - done.
  - unfold hh_pow_hash. cbn [full set_header_nonce hh_mask]. apply xor_hashes_involutive.
    unfold hh_share_hash, share_hash_from_preheader. rewrite blake2b_256_length.
    unfold ok_HnsHeader, arr in Hok. destruct_and!. done.
Qed.
End HashProperties.

(** Headers for the witnesses. *)
Definition demo_header : HnsHeader :=
  let h c := replicate 32 c in
  mkHnsHeader 7 1700000000 (h x01) (h x02) (replicate 24 x03) (h x04) (h x05) (h x06) 0 486604799
    (h x08).

Lemma demo_header_ok : ok_HnsHeader demo_header.
Proof. by vm_compute. Qed.

Lemma headers_wire_exact_witness : hh_from_bytes (hh_to_bytes demo_header) = Ok demo_header.
Proof. apply (headers_wire_exact _). split; [apply demo_header_ok|done]. Defined.

Lemma prepared_hasher_exact_witness :
  let D := toy_digests in
  pmh_share_hash (PreparedMinerHasher_new (miner_of_header demo_header)) 99 =
  mh_share_hash (set_nonce (miner_of_header demo_header) 99).
Proof.
  apply (@prepared_hasher_exact toy_digests toy_digests_ok). by vm_compute.
Defined.

Lemma miner_header_faithful_witness :
  let D := toy_digests in
  ∃ m, mh_from_bytes (to_miner demo_header) = Ok m ∧
    pmh_share_hash (PreparedMinerHasher_new m) 99 = hh_share_hash (set_header_nonce demo_header 99).
Proof.
  destruct (@miner_header_faithful toy_digests toy_digests_ok demo_header 99 demo_header_ok)
    as (m & Hm & _ & Hs & _); [by vm_compute|].
  exact (ex_intro _ m (conj Hm Hs)).
Defined.
