(* ===== verification/Target.v ===== *)
(** * Compact targets, proof of work and the capture target
    (crates/meshmine-hns/src/target.rs)

    [BigUint] and [BigInt] are [Z]; [to_bytes_be] is the shortest big-endian
    representation. *)

From S2P Require Import Prelude Codec Hash Types Header.

Record CaptureParameters := mkCaptureParameters {
  cp_network_target : Hash256;
  cp_leading_zero_bits_p : Z;
  cp_leading_zero_prefix_q : Z;
  cp_blind_band_bits_d : Z;
  cp_capture_target : Hash256;
}.

Inductive CaptureParameterError := InvalidTarget | InvalidBlindBand.

(** [target.to_bytes_be().len()] and [target.bits()] of a positive integer *)
Definition bytes_be_len (t : Z) : Z := Z.log2 t / 8 + 1.
Definition to_bytes_be (t : Z) : bytes := to_be (Z.to_nat (bytes_be_len t)) t.
Definition big_bits (t : Z) : Z := if t =? 0 then 0 else Z.log2 (Z.abs t) + 1.

Definition compact_to_target (compact : Z) : Z :=
  if compact =? 0 then 0
  else
    let exponent := Z.shiftr compact 24 in
    let negative := negb (Z.land (Z.shiftr compact 23) 1 =? 0) in
    let mantissa := Z.land compact 0x7fffff in
    let target :=
      if exponent <=? 3 then Z.shiftr mantissa (8 * (3 - exponent))
      else Z.shiftl mantissa (8 * (exponent - 3)) in
    if negative then - target else target.

Definition target_to_compact (target : Z) : Z :=
  if target =? 0 then 0
  else
    let exponent := bytes_be_len target in
    let mantissa :=
      if exponent <=? 3 then Z.shiftl target (8 * (3 - exponent))
      else Z.shiftr target (8 * (exponent - 3)) in
    let '(mantissa, exponent) :=
      if negb (Z.land mantissa 0x800000 =? 0) then (Z.shiftr mantissa 8, exponent + 1)
      else (mantissa, exponent) in
    Z.lor (Z.land (Z.shiftl exponent 24) U32_MAX) mantissa.

Definition verify_pow (hash : Hash256) (bits : Z) : bool :=
  let target := compact_to_target bits in
  if negb (0 <? target) || (256 <? big_bits target) then false
  else of_be hash <=? target.

(** [byte.leading_zeros()] of a nonzero [u8] *)
Definition u8_leading_zeros (b : byte) : Z := 7 - Z.log2 (b2z b).

Fixpoint count_leading_zero_bits (bs : bytes) : Z :=
  match bs with
  | [] => 0
  | b :: bs => if b2z b =? 0 then 8 + count_leading_zero_bits bs else u8_leading_zeros b
  end.

(** The all-ones array with its first [q] bits cleared: whole bytes are filled
    with zero, then the next byte is shifted. *)
Definition capture_target_bytes (q : Z) : bytes :=
  let zero_bytes := Z.to_nat (q / 8) in
  let filled := replicate zero_bytes x00 ++ replicate (32 - zero_bytes) xff in
  let partial_zero_bits := q mod 8 in
  if negb (partial_zero_bits =? 0)
  then alter (λ b, z2b (Z.shiftr (b2z b) partial_zero_bits)) zero_bytes filled
  else filled.

Definition derive_capture_parameters (bits blind_band_bits_d : Z) :
    result CaptureParameterError CaptureParameters :=
  let target := compact_to_target bits in
  if negb (0 <? target) || (256 <? big_bits target) then Err InvalidTarget
  else
    let target_bytes := to_bytes_be target in
    let network_target :=
      replicate (32 - length target_bytes) x00 ++ target_bytes in
    let leading_zero_bits_p := count_leading_zero_bits network_target in
    if (blind_band_bits_d =? 0) || (leading_zero_bits_p <=? blind_band_bits_d)
    then Err InvalidBlindBand
    else
      let leading_zero_prefix_q := leading_zero_bits_p - blind_band_bits_d in
      Ok (mkCaptureParameters network_target leading_zero_bits_p leading_zero_prefix_q
            blind_band_bits_d (capture_target_bytes leading_zero_prefix_q)).

(** ** Arithmetic of the compact form *)

Lemma bytes_be_len_bounds t :
  0 < t → 1 ≤ bytes_be_len t ∧ 256 ^ (bytes_be_len t - 1) ≤ t < 256 ^ bytes_be_len t.
Proof.
  intros Ht. unfold bytes_be_len. pose proof (Z.log2_spec t Ht) as Hl.
  pose proof (Z.log2_nonneg t). pose proof (Z.div_pos (Z.log2 t) 8).
  pose proof (Z.mul_div_le (Z.log2 t) 8). pose proof (Z.mul_succ_div_gt (Z.log2 t) 8).
  split; [lia|]. change 256 with (2 ^ 8). rewrite <- !Z.pow_mul_r by lia. split.
  - etrans; [|apply Hl]. apply Z.pow_le_mono_r; lia.
  - eapply Z.lt_le_trans; [apply Hl|]. apply Z.pow_le_mono_r; lia.
Qed.

Lemma bytes_be_len_unique t e :
  1 ≤ e → 256 ^ (e - 1) ≤ t < 256 ^ e → bytes_be_len t = e.
Proof.
  intros He Ht. assert (0 < t) as Hp by (pose proof (Z.pow_pos_nonneg 256 (e - 1)); lia).
  destruct (bytes_be_len_bounds t Hp) as [H1 H2].
  destruct (Z.lt_trichotomy (bytes_be_len t) e) as [?|[?|?]]; [|done|].
  - pose proof (Z.pow_le_mono_r 256 (bytes_be_len t) (e - 1)). lia.
  - pose proof (Z.pow_le_mono_r 256 e (bytes_be_len t - 1)). lia.
Qed.

Lemma bytes_be_len_le t n : 0 < t < 256 ^ n → bytes_be_len t ≤ n.
Proof.
  intros [Ht Hn]. destruct (bytes_be_len_bounds t Ht) as [He Hb].
  destruct (Z.le_gt_cases (bytes_be_len t) n); [done|].
  pose proof (Z.pow_le_mono_r 256 n (bytes_be_len t - 1)). lia.
Qed.

Lemma big_bits_le_256 t : 0 < t → (256 <? big_bits t) = false ↔ t < 2 ^ 256.
Proof.
  intros Ht. unfold big_bits. rewrite (proj2 (Z.eqb_neq t 0)), Z.abs_eq, Z.ltb_ge by lia.
  rewrite Z.log2_lt_pow2 by lia. lia.
Qed.

(** The encoded word is [exponent * 2^24 + mantissa]. *)
Lemma compact_word e m :
  0 ≤ e < 256 → 0 ≤ m < 2 ^ 24 →
  Z.lor (Z.land (Z.shiftl e 24) U32_MAX) m = e * 2 ^ 24 + m.
Proof.
  intros He Hm. unfold U32_MAX. change (2 ^ 32 - 1) with (Z.ones 32).
  rewrite Z.land_ones, Z.mod_small by (rewrite ?Z.shiftl_mul_pow2; lia).
  by apply lor_shiftl_small.
Qed.

Lemma compact_fields e m :
  0 ≤ e → 0 ≤ m < 2 ^ 23 →
  Z.shiftr (e * 2 ^ 24 + m) 24 = e ∧ Z.land (Z.shiftr (e * 2 ^ 24 + m) 23) 1 = 0 ∧
  Z.land (e * 2 ^ 24 + m) 0x7fffff = m.
Proof.
  intros He Hm. split_and!.
  - rewrite Z.shiftr_div_pow2 by lia. symmetry. apply Z.div_unique with m; lia.
  - rewrite Z.shiftr_div_pow2 by lia.
    replace ((e * 2 ^ 24 + m) / 2 ^ 23) with (e * 2) by (apply Z.div_unique with m; lia).
    change 1 with (Z.ones 1) at 1. rewrite Z.land_ones by lia. change (2 ^ 1) with 2.
    apply Z.mod_mul. lia.
  - change 0x7fffff with (Z.ones 23). rewrite Z.land_ones by lia.
    symmetry. apply Z.mod_unique with (e * 2); lia.
Qed.

(** Decoding a word with a clear sign bit. *)
Lemma compact_to_target_word e m :
  0 < e → 0 ≤ m < 2 ^ 23 →
  compact_to_target (e * 2 ^ 24 + m) =
  if e <=? 3 then m / 256 ^ (3 - e) else m * 256 ^ (e - 3).
Proof.
  intros He Hm. unfold compact_to_target.
  destruct (compact_fields e m) as (E1 & E2 & E3); [lia|done|].
  rewrite (proj2 (Z.eqb_neq _ 0)) by lia. rewrite E1, E2, E3. cbn [negb Z.eqb].
  change 256 with (2 ^ 8). destruct (Z.leb_spec e 3).
  - rewrite Z.shiftr_div_pow2 by lia. by rewrite <- Z.pow_mul_r by lia.
  - rewrite Z.shiftl_mul_pow2 by lia. by rewrite <- Z.pow_mul_r by lia.
Qed.

(** The mantissa before the sign bit is cleared: three significant bytes. *)
Definition mantissa24 (t : Z) : Z :=
  let e := bytes_be_len t in
  if e <=? 3 then t * 256 ^ (3 - e) else t / 256 ^ (e - 3).

Lemma mantissa24_range t : 0 < t → 2 ^ 16 ≤ mantissa24 t < 2 ^ 24.
Proof.
  intros Ht. unfold mantissa24. destruct (bytes_be_len_bounds t Ht) as [He Hb].
  destruct (Z.leb_spec (bytes_be_len t) 3).
  - change (2 ^ 16) with (256 ^ 2). change (2 ^ 24) with (256 ^ 3).
    replace (256 ^ 2) with (256 ^ (bytes_be_len t - 1) * 256 ^ (3 - bytes_be_len t))
      by (rewrite <- Z.pow_add_r by lia; f_equal; lia).
    replace (256 ^ 3) with (256 ^ bytes_be_len t * 256 ^ (3 - bytes_be_len t))
      by (rewrite <- Z.pow_add_r by lia; f_equal; lia).
    pose proof (Z.pow_pos_nonneg 256 (3 - bytes_be_len t)). nia.
  - pose proof (Z.pow_pos_nonneg 256 (bytes_be_len t - 3)). split.
    + apply Z.div_le_lower_bound; [lia|]. change (2 ^ 16) with (256 ^ 2).
      rewrite <- Z.pow_add_r by lia.
      replace (bytes_be_len t - 3 + 2) with (bytes_be_len t - 1) by lia. apply Hb.
    + apply Z.div_lt_upper_bound; [lia|]. change (2 ^ 24) with (256 ^ 3).
      rewrite <- Z.pow_add_r by lia.
      replace (bytes_be_len t - 3 + 3) with (bytes_be_len t) by lia. apply Hb.
Qed.

Lemma sign_bit m : 0 ≤ m < 2 ^ 24 → negb (Z.land m 0x800000 =? 0) = (2 ^ 23 <=? m).
Proof.
  intros Hm. change 0x800000 with (Z.shiftl 1 23).
  assert (Z.land m (Z.shiftl 1 23) = if 2 ^ 23 <=? m then 2 ^ 23 else 0) as ->.
  { destruct (Z.leb_spec (2 ^ 23) m).
    - replace m with (1 * 2 ^ 23 + (m - 2 ^ 23)) by lia.
      rewrite <- lor_shiftl_small by (unfold uint; lia). rewrite Z.land_lor_distr_l, Z.land_diag.
      rewrite (Z.land_comm (m - _)), land_shiftl_small by (unfold uint; lia). done.
    - rewrite Z.land_comm. apply land_shiftl_small; unfold uint; lia. }
  by destruct (2 ^ 23 <=? m).
Qed.

(** The encoder in closed form. *)
Lemma target_to_compact_word t :
  0 < t < 256 ^ 254 →
  target_to_compact t =
  if 2 ^ 23 <=? mantissa24 t
  then (bytes_be_len t + 1) * 2 ^ 24 + mantissa24 t / 256
  else bytes_be_len t * 2 ^ 24 + mantissa24 t.
Proof.
  intros [Ht Hmax]. unfold target_to_compact. rewrite (proj2 (Z.eqb_neq t 0)) by lia.
  pose proof (mantissa24_range t Ht) as Hm. destruct (bytes_be_len_bounds t Ht) as [He Hb].
  assert (bytes_be_len t ≤ 254) as Hle.
  { destruct (Z.le_gt_cases (bytes_be_len t) 254); [done|].
    pose proof (Z.pow_le_mono_r 256 254 (bytes_be_len t - 1)). lia. }
  replace (if bytes_be_len t <=? 3 then Z.shiftl t (8 * (3 - bytes_be_len t))
           else Z.shiftr t (8 * (bytes_be_len t - 3))) with (mantissa24 t).
  2: { unfold mantissa24. change 256 with (2 ^ 8). case_match eqn:E.
       - apply Z.leb_le in E. rewrite Z.shiftl_mul_pow2 by lia. by rewrite <- Z.pow_mul_r by lia.
       - apply Z.leb_gt in E. rewrite Z.shiftr_div_pow2 by lia. by rewrite <- Z.pow_mul_r by lia. }
  rewrite sign_bit by lia. destruct (Z.leb_spec (2 ^ 23) (mantissa24 t)).
  - rewrite Z.shiftr_div_pow2 by lia. change (2 ^ 8) with 256. apply compact_word; [lia|].
    split; [apply Z.div_pos; lia|]. apply Z.div_lt_upper_bound; lia.
  - apply compact_word; lia.
Qed.

Lemma target_to_compact_u32 t : 0 < t < 256 ^ 254 → uint 32 (target_to_compact t).
Proof.
  intros Ht. rewrite target_to_compact_word by done.
  pose proof (mantissa24_range t (proj1 Ht)) as Hm. pose proof (bytes_be_len_le t 254 Ht).
  destruct (bytes_be_len_bounds t (proj1 Ht)) as [He _]. unfold uint.
  destruct (Z.leb_spec (2 ^ 23) (mantissa24 t)); [|lia].
  assert (0 ≤ mantissa24 t / 256 < 2 ^ 16); [|lia].
  split; [apply Z.div_pos; lia|]. apply Z.div_lt_upper_bound; lia.
Qed.

(** How many low bytes the compact form drops. *)
Definition dropped_bytes (t : Z) : Z :=
  Z.max 0 (bytes_be_len t - if 2 ^ 23 <=? mantissa24 t then 2 else 3).

(** The significant part of a target that loses bytes has at least 16 bits. *)
Lemma dropped_significant t :
  0 < t → 0 < dropped_bytes t → 2 ^ 15 ≤ t / 256 ^ dropped_bytes t.
Proof.
  intros Ht Hd. pose proof (mantissa24_range t Ht) as Hm.
  revert Hd Hm. unfold dropped_bytes, mantissa24. cbn zeta.
  destruct (Z.leb_spec (bytes_be_len t) 3) as [He|He].
  - destruct (Z.leb_spec (2 ^ 23) (t * 256 ^ (3 - bytes_be_len t))) as [Hs|Hs]; intros Hd Hm; [|lia].
    replace (bytes_be_len t) with 3 in * by lia.
    change (256 ^ Z.max 0 (3 - 2)) with 256. change (256 ^ (3 - 3)) with 1 in *.
    apply Z.div_le_lower_bound; lia.
  - destruct (Z.leb_spec (2 ^ 23) (t / 256 ^ (bytes_be_len t - 3))) as [Hs|Hs]; intros Hd Hm;
      rewrite Z.max_r in * by lia; [|lia].
    replace (bytes_be_len t - 2) with (bytes_be_len t - 3 + 1) by lia.
    rewrite Z.pow_add_r, <- Z.div_div by lia. apply Z.div_le_lower_bound; lia.
Qed.

Lemma compact_decode_encode t :
  0 < t < 256 ^ 254 →
  compact_to_target (target_to_compact t) =
  t / 256 ^ dropped_bytes t * 256 ^ dropped_bytes t.
Proof.
  intros Ht. rewrite target_to_compact_word by done.
  pose proof (mantissa24_range t (proj1 Ht)) as Hm.
  destruct (bytes_be_len_bounds t (proj1 Ht)) as [He _]. unfold dropped_bytes.
  destruct (Z.leb_spec (2 ^ 23) (mantissa24 t)) as [Hs|Hs].
  - rewrite compact_to_target_word
      by (first [lia | split; [apply Z.div_pos; lia | apply Z.div_lt_upper_bound; lia]]).
    unfold mantissa24. cbn zeta. destruct (Z.leb_spec (bytes_be_len t + 1) 3).
    + rewrite (proj2 (Z.leb_le (bytes_be_len t) 3)), Z.max_l, Z.pow_0_r by lia.
      rewrite Z.div_div by (pose proof (Z.pow_pos_nonneg 256 (3 - (bytes_be_len t + 1))); lia).
      replace (256 * 256 ^ (3 - (bytes_be_len t + 1))) with (256 ^ (3 - bytes_be_len t))
        by (rewrite <- Z.pow_succ_r by lia; f_equal; lia).
      rewrite Z.div_mul by (pose proof (Z.pow_pos_nonneg 256 (3 - bytes_be_len t)); lia).
      rewrite Z.div_1_r. lia.
    + rewrite Z.max_r by lia. replace (bytes_be_len t + 1 - 3) with (bytes_be_len t - 2) by lia.
      f_equal. destruct (Z.leb_spec (bytes_be_len t) 3).
      * replace (bytes_be_len t) with 3 by lia. change (256 ^ (3 - 3)) with 1.
        by rewrite Z.mul_1_r.
      * rewrite Z.div_div by (pose proof (Z.pow_pos_nonneg 256 (bytes_be_len t - 3)); lia).
        f_equal. rewrite Z.mul_comm, <- Z.pow_succ_r by lia. f_equal. lia.
  - rewrite compact_to_target_word by lia. unfold mantissa24. cbn zeta.
    destruct (Z.leb_spec (bytes_be_len t) 3).
    + rewrite Z.max_l, Z.pow_0_r by lia.
      rewrite Z.div_mul by (pose proof (Z.pow_pos_nonneg 256 (3 - bytes_be_len t)); lia).
      rewrite Z.div_1_r. lia.
    + by rewrite Z.max_r by lia.
Qed.

(** Dropping the low bytes keeps the length and the kept mantissa. *)
Lemma dropped_len t :
  0 < t → bytes_be_len (t / 256 ^ dropped_bytes t * 256 ^ dropped_bytes t) = bytes_be_len t.
Proof.
  intros Ht. destruct (bytes_be_len_bounds t Ht) as [He Hb].
  assert (0 ≤ dropped_bytes t ≤ bytes_be_len t - 1) as Hk
    by (unfold dropped_bytes; case_match; lia).
  set (k := dropped_bytes t) in *. pose proof (Z.pow_pos_nonneg 256 k).
  apply bytes_be_len_unique; [done|]. split.
  - replace (256 ^ (bytes_be_len t - 1)) with (256 ^ (bytes_be_len t - 1 - k) * 256 ^ k)
      by (rewrite <- Z.pow_add_r by lia; f_equal; lia).
    apply Z.mul_le_mono_nonneg_r; [lia|]. apply Z.div_le_lower_bound; [lia|].
    rewrite Z.mul_comm, <- Z.pow_add_r by lia.
    replace (bytes_be_len t - 1 - k + k) with (bytes_be_len t - 1) by lia. apply Hb.
  - pose proof (Z.mul_div_le t (256 ^ k)). lia.
Qed.

Lemma mantissa24_dropped t :
  0 < t → 0 < dropped_bytes t →
  mantissa24 (t / 256 ^ dropped_bytes t * 256 ^ dropped_bytes t) =
  if 2 ^ 23 <=? mantissa24 t then mantissa24 t / 256 * 256 else mantissa24 t.
Proof.
  intros Ht Hk. pose proof (dropped_len t Ht) as Hl. unfold mantissa24 at 1. rewrite Hl.
  clear Hl. revert Hk. unfold dropped_bytes, mantissa24. cbn zeta.
  destruct (bytes_be_len_bounds t Ht) as [He _].
  destruct (Z.leb_spec (bytes_be_len t) 3).
  - destruct (Z.leb_spec (2 ^ 23) (t * 256 ^ (3 - bytes_be_len t))); intros Hk; [|lia].
    replace (bytes_be_len t) with 3 by lia.
    change (256 ^ Z.max 0 (3 - 2)) with 256. change (256 ^ (3 - 3)) with 1. by rewrite !Z.mul_1_r.
  - pose proof (Z.pow_pos_nonneg 256 (bytes_be_len t - 3)).
    destruct (Z.leb_spec (2 ^ 23) (t / 256 ^ (bytes_be_len t - 3))); intros Hk;
      rewrite Z.max_r by lia; [|by rewrite Z.div_mul by lia].
    replace (bytes_be_len t - 2) with (Z.succ (bytes_be_len t - 3)) by lia.
    rewrite Z.pow_succ_r, (Z.mul_comm 256), Z.div_div by lia.
    rewrite (Z.mul_comm _ 256) at 2. by rewrite Z.mul_assoc, Z.div_mul by lia.
Qed.

Lemma compact_truncated t :
  0 < t < 256 ^ 254 →
  target_to_compact (t / 256 ^ dropped_bytes t * 256 ^ dropped_bytes t) = target_to_compact t.
Proof.
  intros Ht. destruct (Z.eq_dec (dropped_bytes t) 0) as [E|E].
  { by rewrite E, Z.pow_0_r, Z.div_1_r, Z.mul_1_r. }
  pose proof (dropped_len t (proj1 Ht)) as Hl.
  pose proof (dropped_significant t (proj1 Ht)) as Hsig.
  assert (0 < dropped_bytes t) as Hk by (unfold dropped_bytes in *; lia).
  specialize (Hsig Hk). pose proof (mantissa24_dropped t (proj1 Ht) Hk) as Em.
  set (r := t / _ * _) in *.
  assert (0 < r ≤ t) as Hr.
  { pose proof (Z.pow_pos_nonneg 256 (dropped_bytes t)). subst r. split; [nia|].
    rewrite Z.mul_comm. apply Z.mul_div_le. lia. }
  rewrite !target_to_compact_word by lia. rewrite Hl, Em.
  pose proof (mantissa24_range t (proj1 Ht)).
  destruct (Z.leb_spec (2 ^ 23) (mantissa24 t)) as [Hs|Hs].
  - rewrite (proj2 (Z.leb_le _ _)).
    + by rewrite Z.div_mul by lia.
    + pose proof (Z.div_le_mono (2 ^ 23) (mantissa24 t) 256). change (2 ^ 23 / 256) with (2 ^ 15) in *. lia.
  - by rewrite (proj2 (Z.leb_gt _ _)).
Qed.

(** ** Bits and bytes *)

Lemma of_be_app x y : of_be (x ++ y) = of_be x * 256 ^ len y + of_be y.
Proof.
  induction x as [|b x IH]; cbn [app]; [done|].
  rewrite !of_be_cons, IH, len_app, Z.pow_add_r by (apply len_nonneg). lia.
Qed.

Lemma of_be_replicate_0 n : of_be (replicate n x00) = 0.
Proof.
  induction n as [|n IH]; [done|]. cbn [replicate]. by rewrite of_be_cons, IH.
Qed.

Lemma pow256_len {A} (l : list A) : 256 ^ len l = 2 ^ (8 * len l).
Proof. apply pow256. Qed.

(** XOR of hashes is XOR of the integers they hold. *)
Lemma of_be_xor x y :
  length x = length y → of_be (xor_hashes x y) = Z.lxor (of_be x) (of_be y).
Proof.
  unfold xor_hashes. revert y. induction x as [|a x IH]; intros [|b y] Hl; cbn in Hl; try done.
  injection Hl as Hl. cbn [zip_with]. rewrite !of_be_cons, IH by done.
  assert (len (zip_with byte_xor x y) = len x) as Ez.
  { unfold len. rewrite length_zip_with. lia. }
  assert (len y = len x) as Ey by (unfold len; lia).
  rewrite Ez, Ey, !pow256_len. symmetry.
  pose proof (of_be_range x) as Hx. pose proof (of_be_range y) as Hy.
  rewrite Ey in Hy. rewrite pow256_len in Hx, Hy.
  rewrite lxor_join by (first [done | pose proof (len_nonneg x); lia]).
  do 2 f_equal. unfold byte_xor. rewrite b2z_z2b. symmetry. apply Z.mod_small.
  apply (lxor_range 8); [done|apply b2z_range..].
Qed.

(** The zero prefix of an array is the gap between its top bit and its width. *)
Lemma count_leading_zero_bits_spec bs :
  0 < of_be bs →
  0 ≤ count_leading_zero_bits bs < 8 * len bs ∧
  2 ^ (8 * len bs - count_leading_zero_bits bs - 1) ≤ of_be bs <
  2 ^ (8 * len bs - count_leading_zero_bits bs).
Proof.
  induction bs as [|b bs IH]; [done|]. intros Hpos. cbn [count_leading_zero_bits].
  rewrite of_be_cons in *. rewrite len_cons. pose proof (len_nonneg bs).
  pose proof (of_be_range bs) as Hr. rewrite pow256_len in *. pose proof (b2z_range b) as Hb.
  destruct (Z.eqb_spec (b2z b) 0) as [E|E].
  - rewrite E in *. destruct IH as [H1 H2]; [lia|].
    replace (8 * (len bs + 1) - (8 + count_leading_zero_bits bs))
      with (8 * len bs - count_leading_zero_bits bs) by lia. split; [lia|]. lia.
  - unfold u8_leading_zeros. pose proof (Z.log2_spec (b2z b) ltac:(lia)) as Hl.
    pose proof (Z.log2_nonneg (b2z b)).
    assert (Z.log2 (b2z b) < 8) by (apply Z.log2_lt_pow2; lia).
    replace (8 * (len bs + 1) - (7 - Z.log2 (b2z b)) - 1) with (Z.log2 (b2z b) + 8 * len bs) by lia.
    replace (8 * (len bs + 1) - (7 - Z.log2 (b2z b))) with (Z.succ (Z.log2 (b2z b)) + 8 * len bs) by lia.
    rewrite !Z.pow_add_r by lia. split; [lia|]. nia.
Qed.

(** The capture target is [2^(256-q) - 1], for each of the 256 prefixes. *)
Lemma capture_target_value q :
  0 ≤ q < 256 → of_be (capture_target_bytes q) = 2 ^ (256 - q) - 1.
Proof.
  intros Hq.
  assert (forallb (λ i, of_be (capture_target_bytes (Z.of_nat i)) =? 2 ^ (256 - Z.of_nat i) - 1)
    (seq 0 256) = true) as Hall by (vm_compute; reflexivity).
  rewrite forallb_forall in Hall. specialize (Hall (Z.to_nat q)).
  rewrite in_seq, Z2Nat.id, Z.eqb_eq in Hall by lia. apply Hall. lia.
Qed.

Lemma capture_target_length q : 0 ≤ q < 256 → arr 32 (capture_target_bytes q).
Proof.
  intros Hq. unfold arr, capture_target_bytes. assert (Z.to_nat (q / 8) < 32)%nat.
  { apply Nat2Z.inj_lt. rewrite Z2Nat.id by (apply Z.div_pos; lia). apply Z.div_lt_upper_bound; lia. }
  case_match; rewrite ?length_alter, length_app, !length_replicate; lia.
Qed.

(** The two guards [target.sign() != Plus || target.bits() > 256] as a range. *)
Lemma target_guard t :
  negb (0 <? t) || (256 <? big_bits t) = false ↔ 0 < t < 2 ^ 256.
Proof.
  rewrite orb_false_iff, negb_false_iff, Z.ltb_lt. split.
  - intros [? H]. split; [done|]. by apply big_bits_le_256 in H.
  - intros [? H]. split; [done|]. by apply big_bits_le_256.
Qed.

(** Proof of work is a numeric comparison. *)
Lemma verify_pow_numeric hash bits :
  verify_pow hash bits = true ↔
  0 < compact_to_target bits < 2 ^ 256 ∧ of_be hash ≤ compact_to_target bits.
Proof.
  unfold verify_pow. destruct (negb _ || _) eqn:Eg.
  - split; [done|]. intros [Hr _]. apply target_guard in Hr. congruence.
  - apply target_guard in Eg. rewrite Z.leb_le. tauto.
Qed.

(** What [derive_capture_parameters] computes, in numbers. *)
Lemma derive_capture_parameters_ok bits d p :
  derive_capture_parameters bits d = Ok p → 0 ≤ d →
  let target := compact_to_target bits in
  0 < target < 2 ^ 256 ∧ of_be p.(cp_network_target) = target ∧
  arr 32 p.(cp_network_target) ∧ arr 32 p.(cp_capture_target) ∧
  2 ^ (255 - p.(cp_leading_zero_bits_p)) ≤ target < 2 ^ (256 - p.(cp_leading_zero_bits_p)) ∧
  0 < p.(cp_leading_zero_prefix_q) ∧
  p.(cp_leading_zero_prefix_q) + d = p.(cp_leading_zero_bits_p) ∧ 0 < d ∧
  p.(cp_leading_zero_bits_p) < 256 ∧
  of_be p.(cp_capture_target) = 2 ^ (256 - p.(cp_leading_zero_prefix_q)) - 1.
Proof.
  intros H Hd. cbn zeta. revert H. unfold derive_capture_parameters.
  set (t := compact_to_target bits). destruct (negb _ || _) eqn:Eg; [done|].
  apply target_guard in Eg.
  assert (length (to_bytes_be t) = Z.to_nat (bytes_be_len t)) as El by apply to_be_length.
  destruct (bytes_be_len_bounds t (proj1 Eg)) as [He Hb].
  assert (bytes_be_len t ≤ 32) as He32 by (apply bytes_be_len_le; cbn; lia).
  set (nt := replicate _ x00 ++ to_bytes_be t).
  assert (of_be nt = t) as Hnt.
  { unfold nt. rewrite of_be_app, of_be_replicate_0. cbn. apply of_to_be.
    rewrite Z2Nat.id by lia. lia. }
  assert (length nt = 32%nat) as Hlen.
  { unfold nt. rewrite length_app, length_replicate, El. lia. }
  destruct (count_leading_zero_bits_spec nt) as [Hc Hbits]; [lia|].
  rewrite Hnt in Hbits. assert (len nt = 32) as Hlz by (unfold len; lia).
  rewrite Hlz in Hc, Hbits.
  destruct ((d =? 0) || _) eqn:Ed; [done|]. intros [= <-].
  cbn [cp_network_target cp_leading_zero_bits_p cp_leading_zero_prefix_q cp_capture_target].
  rewrite orb_false_iff, Z.eqb_neq, Z.leb_gt in Ed.
  rewrite capture_target_value by lia.
  replace (255 - count_leading_zero_bits nt) with (8 * 32 - count_leading_zero_bits nt - 1) by lia.
  split_and!; try done; try lia; [apply capture_target_length; lia|apply Hbits..].
Qed.

(** ** Properties *)

(** The compact target codec is lossy only in the low bytes. For every
    nonzero target of up to 256 bits, encoding gives a 32-bit word and never
    rounds up; the decoded target is the target with its [k] low bytes cleared
    and loses less than one part in 2^15; and re-encoding what was decoded gives
    the same word, so each reachable word is the canonical one. *)
Lemma compact_target_roundtrip t :
  0 < t < 2 ^ 256 →
  let c := target_to_compact t in
  let r := compact_to_target c in
  uint 32 c ∧ 0 < r ≤ t ∧ (t - r) * 2 ^ 15 < t ∧
  (∃ k, 0 ≤ k ∧ r = t - t mod 256 ^ k) ∧ target_to_compact r = c.
Proof.
  intros Ht c r. assert (0 < t < 256 ^ 254) as Hb.
  { split; [lia|]. etrans; [apply Ht|]. by vm_compute. }
  assert (r = t / 256 ^ dropped_bytes t * 256 ^ dropped_bytes t) as Er
    by (by apply compact_decode_encode).
  assert (0 ≤ dropped_bytes t) as Hk by (unfold dropped_bytes; lia).
  pose proof (Z.pow_pos_nonneg 256 (dropped_bytes t)) as Hp.
  pose proof (Z.div_mod t (256 ^ dropped_bytes t)) as Hdm.
  pose proof (Z.mod_pos_bound t (256 ^ dropped_bytes t)) as Hmb.
  pose proof (dropped_significant t (proj1 Ht)) as Hs.
  assert (0 < r ∧ (t - r) * 2 ^ 15 < t) as [Hr Hprec].
  { destruct (Z.eq_dec (dropped_bytes t) 0) as [E|E].
    - rewrite E, Z.pow_0_r, Z.div_1_r in Er. lia.
    - specialize (Hs ltac:(lia)). nia. }
  split_and!; try lia.
  - by apply target_to_compact_u32.
  - exists (dropped_bytes t). lia.
  - rewrite Er. by apply compact_truncated.
Qed.

Lemma compact_target_roundtrip_witness :
  compact_to_target (target_to_compact 0x12345678) = 0x12345600 ∧
  target_to_compact 0x12345600 = target_to_compact 0x12345678.
Proof.
  destruct (compact_target_roundtrip 0x12345678) as (_ & _ & _ & _ & E); [lia|].
  split; [by vm_compute|]. exact E.
Defined.

(** A winning header is captured. *)
Lemma winning_header_captured `{DigestsOk} bits d p h :
  0 ≤ d → derive_capture_parameters bits d = Ok p → ok_HnsHeader h →
  of_be h.(hh_mask) < 2 ^ (256 - p.(cp_leading_zero_prefix_q)) →
  verify_pow (hh_pow_hash h) bits = true →
  bytes_le (hh_share_hash h) p.(cp_capture_target) ∧
  of_be p.(cp_capture_target) = 2 ^ (256 - p.(cp_leading_zero_prefix_q)) - 1 ∧
  p.(cp_leading_zero_prefix_q) + d = p.(cp_leading_zero_bits_p).
Proof.
  intros Hd Hp Hok Hmask Hpow.
  destruct (derive_capture_parameters_ok bits d p Hp Hd)
    as (Ht & _ & _ & Hlen & Htb & Hq & Hqd & Hd0 & Hp256 & Hcap).
  assert (length (hh_share_hash h) = 32%nat) as Hsl by apply blake2b_256_length.
  assert (length h.(hh_mask) = 32%nat) as Hml by apply Hok.
  split; [|done]. rewrite bytes_le_of_be by (unfold arr in Hlen; congruence). rewrite Hcap.
  assert (of_be (hh_pow_hash h) < 2 ^ (256 - p.(cp_leading_zero_prefix_q))) as Hlt.
  { apply verify_pow_numeric in Hpow.
    pose proof (Z.pow_le_mono_r 2 (256 - p.(cp_leading_zero_bits_p))
      (256 - p.(cp_leading_zero_prefix_q))). lia. }
  assert (of_be (hh_share_hash h) = Z.lxor (of_be (hh_pow_hash h)) (of_be h.(hh_mask))) as Ex.
  { rewrite <- of_be_xor.
    - unfold hh_pow_hash. by rewrite xor_hashes_involutive by congruence.
    - unfold hh_pow_hash, xor_hashes. rewrite length_zip_with. lia. }
  pose proof (lxor_range (256 - p.(cp_leading_zero_prefix_q)) (of_be (hh_pow_hash h))
    (of_be h.(hh_mask))) as Hx. unfold uint in Hx.
  pose proof (of_be_range (hh_pow_hash h)). pose proof (of_be_range h.(hh_mask)). lia.
Qed.

(** The public capture target never misses a block. If the mask has the
    zero prefix [q] that the derived parameters prescribe and the full header's
    proof hash meets the network target, then its share hash is at most the
    capture target, which is exactly [2^(256-q) - 1]; and the capture target is
    no coarser than announced: network target and mask leave [d] blind bits,
    [q + d = p]. *)
Lemma capture_target_complete `{DigestsOk} bits d p h :
  0 ≤ d → derive_capture_parameters bits d = Ok p → ok_HnsHeader h →
  of_be h.(hh_mask) < 2 ^ (256 - p.(cp_leading_zero_prefix_q)) →
  verify_pow (hh_pow_hash h) bits = true →
  bytes_le (hh_share_hash h) p.(cp_capture_target) ∧
  of_be p.(cp_capture_target) = 2 ^ (256 - p.(cp_leading_zero_prefix_q)) - 1 ∧
  p.(cp_leading_zero_prefix_q) + d = p.(cp_leading_zero_bits_p).
Proof. apply winning_header_captured. Qed.

(** A header whose proof hash meets the target, under the digests of the
    witnesses. *)
Definition demo_block : HnsHeader :=
  let h c := replicate 32 c in
  mkHnsHeader 0 0 (h x01) (h x01) (replicate 24 x03) (h x04) (h x05) (h x06) 0 0x1925ae67
    (replicate 31 x00 ++ [x05]).

Lemma capture_target_complete_witness :
  ∃ p, derive_capture_parameters 0x1925ae67 12 = Ok p ∧
    bytes_le (@hh_share_hash toy_digests demo_block) p.(cp_capture_target) ∧
    p.(cp_leading_zero_prefix_q) = 46.
Proof.
  destruct (derive_capture_parameters 0x1925ae67 12) as [p|e] eqn:E; [|by vm_compute in E].
  exists p. split; [reflexivity|].
  assert (p.(cp_leading_zero_prefix_q) = 46) as Hq.
  { vm_compute in E. injection E as <-. reflexivity. }
  split; [|exact Hq].
  apply (@capture_target_complete toy_digests toy_digests_ok 0x1925ae67 12 p demo_block).
  - lia.
  - exact E.
  - unfold ok_HnsHeader, arr, uint. split_and!; by vm_compute.
  - rewrite Hq. vm_compute. reflexivity.
  - vm_compute. reflexivity.
Defined.
