(* ===== verification/Merkle.v ===== *)
(** * Handshake Merkle roots (crates/meshmine-hns/src/merkle.rs)

    The level-by-level loop of the code, and the abstract tree it hashes. The
    tree is the specification: the loop computes its hash, its fringe is the
    list of leaves, and hashing trees is injective up to collisions among the
    messages it hashes. *)

From S2P Require Import Prelude Codec Hash Types.

Section Merkle.
Context `{Digests}.

Definition merkle_sentinel : Hash256 := blake2b_256 [[]].
Definition merkle_leaf (leaf : Hash256) : Hash256 := blake2b_256 [[x00]; leaf].
Definition merkle_node (l r : Hash256) : Hash256 := blake2b_256 [[x01]; l; r].

(** One pass of the loop: [level.chunks(2)], an odd node paired with the sentinel. *)
Fixpoint merkle_next (level : list Hash256) : list Hash256 :=
  match level with
  | l :: r :: rest => merkle_node l r :: merkle_next rest
  | [l] => [merkle_node l merkle_sentinel]
  | [] => []
  end.

(** [while level.len() > 1 { .. } level[0]]. Each pass shortens the level, so
    its length is enough fuel. *)
Fixpoint merkle_loop (fuel : nat) (level : list Hash256) : option Hash256 :=
  match level with
  | [root] => Some root
  | _ => match fuel with O => None | S fuel => merkle_loop fuel (merkle_next level) end
  end.

Definition merkle_root (leaves : list Hash256) : option Hash256 :=
  match leaves with
  | [] => Some merkle_sentinel
  | _ => merkle_loop (length leaves) (merkle_leaf <$> leaves)
  end.

(** [merkle_root] returns for every list ([merkle_root_of_spec]). *)
Definition merkle_root_of (leaves : list Hash256) : Hash256 :=
  default merkle_sentinel (merkle_root leaves).

(** ** The abstract tree *)

Inductive mtree :=
| MEmpty
| MLeaf (leaf : Hash256)
| MNode (l r : mtree).

Fixpoint tree_hash (t : mtree) : Hash256 :=
  match t with
  | MEmpty => merkle_sentinel
  | MLeaf leaf => merkle_leaf leaf
  | MNode l r => merkle_node (tree_hash l) (tree_hash r)
  end.

(** The message hashed at the root of a tree, and all messages hashed for it. *)
Definition tree_message (t : mtree) : bytes :=
  match t with
  | MEmpty => []
  | MLeaf leaf => x00 :: leaf
  | MNode l r => x01 :: tree_hash l ++ tree_hash r
  end.
Fixpoint tree_messages (t : mtree) : list bytes :=
  tree_message t ::
  match t with
  | MNode l r => tree_messages l ++ tree_messages r
  | _ => []
  end.

Fixpoint fringe (t : mtree) : list Hash256 :=
  match t with
  | MEmpty => []
  | MLeaf leaf => [leaf]
  | MNode l r => fringe l ++ fringe r
  end.

(** Pairing a level of trees until one is left. *)
Fixpoint pair_trees (level : list mtree) : list mtree :=
  match level with
  | l :: r :: rest => MNode l r :: pair_trees rest
  | [l] => [MNode l MEmpty]
  | [] => []
  end.
Fixpoint build (fuel : nat) (level : list mtree) : mtree :=
  match level with
  | [t] => t
  | _ => match fuel with O => MEmpty | S fuel => build fuel (pair_trees level) end
  end.
Definition merkle_tree (leaves : list Hash256) : mtree :=
  match leaves with
  | [] => MEmpty
  | _ => build (length leaves) (MLeaf <$> leaves)
  end.

(** The messages that [merkle_root leaves] hashes. *)
Definition merkle_messages (leaves : list Hash256) : list bytes :=
  tree_messages (merkle_tree leaves).

(** ** The loop computes the tree's hash *)

Lemma list_pair_ind {A} (P : list A → Prop) :
  P [] → (∀ x, P [x]) → (∀ x y l, P l → P (x :: y :: l)) → ∀ l, P l.
Proof.
  intros H0 H1 H2. fix IH 1. intros [|x [|y l]]; [done|apply H1|apply H2, IH].
Qed.

Lemma merkle_next_pair level :
  merkle_next (tree_hash <$> level) = tree_hash <$> pair_trees level.
Proof.
  induction level as [|t|l r rest IH] using list_pair_ind; cbn; [done..|]. by rewrite IH.
Qed.

Lemma pair_trees_fringe level : concat (fringe <$> pair_trees level) = concat (fringe <$> level).
Proof.
  induction level as [|t|l r rest IH] using list_pair_ind; cbn; [done|by rewrite !app_nil_r|].
  by rewrite IH, <- app_assoc.
Qed.

Lemma pair_trees_length level :
  (length (pair_trees level) ≤ length level)%nat ∧
  (2 ≤ length level → 1 ≤ length (pair_trees level) < length level)%nat.
Proof.
  induction level as [|t|l r rest IH] using list_pair_ind; cbn; [lia..|].
  destruct rest as [|t1 [|t2 rest]]; cbn in *; lia.
Qed.

(** With the level's length as fuel the loop returns, and returns the hash of
    the tree built over the level, whose fringe is the level's. *)
Lemma merkle_loop_build fuel level :
  (1 ≤ length level ≤ fuel)%nat →
  merkle_loop fuel (tree_hash <$> level) = Some (tree_hash (build fuel level)) ∧
  fringe (build fuel level) = concat (fringe <$> level).
Proof.
  revert level. induction fuel as [|fuel IH]; intros level Hl; [lia|].
  destruct level as [|t [|t' level]]; [cbn in Hl; lia|cbn; by rewrite app_nil_r|].
  pose proof (pair_trees_length (t :: t' :: level)) as [_ Hp].
  destruct (IH (pair_trees (t :: t' :: level))) as [E1 E2]; [cbn [length] in *; lia|].
  split.
  - etrans; [|apply E1]. by rewrite <- merkle_next_pair.
  - etrans; [apply E2|]. apply pair_trees_fringe.
Qed.

Lemma merkle_root_tree leaves :
  merkle_root leaves = Some (tree_hash (merkle_tree leaves)) ∧
  fringe (merkle_tree leaves) = leaves.
Proof.
  destruct leaves as [|x leaves]; [done|].
  destruct (merkle_loop_build (length (x :: leaves)) (MLeaf <$> x :: leaves)) as [E1 E2].
  { rewrite length_fmap. cbn. lia. }
  split.
  - unfold merkle_root, merkle_tree. rewrite <- E1. f_equal.
    by rewrite <- list_fmap_compose.
  - unfold merkle_tree. rewrite E2. clear E1 E2.
    induction (x :: leaves) as [|y l IH]; cbn; [done|]. by rewrite IH.
Qed.

Lemma merkle_root_of_spec leaves : merkle_root leaves = Some (merkle_root_of leaves).
Proof. unfold merkle_root_of. destruct (merkle_root_tree leaves) as [-> _]. done. Qed.

Context `{!DigestsOk}.

Lemma tree_hash_length t : length (tree_hash t) = 32%nat.
Proof. destruct t; apply blake2b_256_length. Qed.

Lemma tree_hash_message t : tree_hash t = blake2b 32 (tree_message t).
Proof.
  destruct t; cbn; unfold merkle_sentinel, merkle_leaf, merkle_node, blake2b_256; cbn;
    by rewrite ?app_nil_r.
Qed.

Lemma tree_message_in t : tree_message t ∈ tree_messages t.
Proof. destruct t; left. Qed.

(** Two trees with one hash are one tree, or two of the messages hashed for
    them collide. *)
Lemma tree_hash_inj t1 t2 :
  tree_hash t1 = tree_hash t2 →
  t1 = t2 ∨ ∃ m1 m2, m1 ∈ tree_messages t1 ∧ m2 ∈ tree_messages t2 ∧ collides 32 m1 m2.
Proof.
  revert t2. induction t1 as [|a|l1 IHl r1 IHr]; intros t2 E;
    pose proof E as Eh; rewrite !tree_hash_message in Eh;
    (apply blake2b_eq in Eh as [Eh|Hc];
      [|right; do 2 eexists; split_and!; [apply tree_message_in..|done]]);
    destruct t2 as [|b|l2 r2]; try discriminate Eh; [by left| |].
  - injection Eh as ->. by left.
  - cbn in Eh. injection Eh as Eh. apply app_inj_1 in Eh as [El Er]; [|by rewrite !tree_hash_length].
    destruct (IHl l2 El) as [->|(m1 & m2 & ? & ? & ?)]; [|right; exists m1, m2; set_solver].
    destruct (IHr r2 Er) as [->|(m1 & m2 & ? & ? & ?)]; [by left|right; exists m1, m2; set_solver].
Qed.

(** [merkle_root] returns for every list of leaves, and the root commits to
    the whole list, its length included: two lists of leaves with one root are
    equal, or two of the messages hashed for the two roots are a BLAKE2b-256
    collision. In particular an odd leaf cannot be passed off as duplicated. *)
Lemma merkle_root_binding leaves1 leaves2 :
  is_Some (merkle_root leaves1) ∧
  (merkle_root leaves1 = merkle_root leaves2 →
   leaves1 = leaves2 ∨
   ∃ m1 m2, m1 ∈ merkle_messages leaves1 ∧ m2 ∈ merkle_messages leaves2 ∧ collides 32 m1 m2).
Proof.
  destruct (merkle_root_tree leaves1) as [E1 F1]. destruct (merkle_root_tree leaves2) as [E2 F2].
  rewrite E1, E2. split; [done|]. intros [= E].
  apply tree_hash_inj in E as [E|?]; [left|by right]. by rewrite <- F1, <- F2, E.
Qed.
End Merkle.

Lemma merkle_root_binding_witness :
  is_Some (@merkle_root toy_digests [replicate 32 x01; replicate 32 x02; replicate 32 x03]).
Proof. apply (@merkle_root_binding toy_digests toy_digests_ok _ []). Defined.
