(* ===== verification/Storage.v ===== *)
(** * Durable storage (crates/meshmine-storage/src/lib.rs, the stores)

    [MemoryStore] keeps every record in one ordered map under the flat key
    [namespace NUL key]. The contract of the [DurableStore] trait is stated
    against an abstract two-level map: [View] with the [spec_*] operations. The
    class [DurableStoreLaws] is that contract, a simulation between a store and
    its view; [MemoryStore] implements it, and the protocol journal and the
    signing guard are verified against the class alone.

    A [BTreeMap] is a [gmap]; iterating it is listing its entries sorted by key.
    Strings are their UTF-8 bytes. Every operation runs under the store's lock
    and is one atomic step; lock poisoning by a panicking thread is not
    modelled. *)

From S2P Require Import Prelude.

Inductive StorageError :=
| Backend (message : bytes)
| ReadOnly
| InvalidKey
| ScanLimit
| PaginationUnsupported
| MultipleConditionsUnsupported.

Record ScanLimits := mkScanLimits {
  maximum_records : Z;
  maximum_value_bytes : Z;
  maximum_total_bytes : Z;
}.

Record NamespaceRecord := mkNamespaceRecord { nr_key : bytes; nr_value : bytes }.

Record NamespacePage := mkNamespacePage {
  page_records : list NamespaceRecord;
  page_has_more : bool;
}.

Inductive BatchOperation :=
| BatchPut (namespace key value : bytes)
| BatchDelete (namespace key : bytes).

Record BatchCondition := mkBatchCondition {
  bc_namespace : bytes;
  bc_key : bytes;
  bc_expected : option bytes;
}.

#[export] Instance StorageError_eq_dec : EqDecision StorageError.
Proof. solve_decision. Defined.
#[export] Instance NamespaceRecord_eq_dec : EqDecision NamespaceRecord.
Proof. solve_decision. Defined.

(** ** Keys *)

Definition contains_nul (s : bytes) : bool := existsb (λ b, bool_decide (b = x00)) s.

Definition storage_key (namespace key : bytes) : result StorageError bytes :=
  if contains_nul namespace || contains_nul key then Err InvalidKey
  else Ok (namespace ++ [x00] ++ key).

Definition namespace_upper (namespace : bytes) : result StorageError bytes :=
  if contains_nul namespace then Err InvalidKey else Ok (namespace ++ [x01]).

Definition operation_key (operation : BatchOperation) : result StorageError bytes :=
  match operation with
  | BatchPut namespace key _ | BatchDelete namespace key => storage_key namespace key
  end.

(** ** Scan accumulators *)

Definition append_scanned_record (limits : ScanLimits) (acc : list NamespaceRecord * Z)
    (key value : bytes) : result StorageError (list NamespaceRecord * Z) :=
  let '(records, total_bytes) := acc in
  let value_bytes := len value in
  record_bytes ← ok_or (checked_add 64 (len key) value_bytes) ScanLimit;
  next_total ← ok_or (checked_add 64 total_bytes record_bytes) ScanLimit;
  if (limits.(maximum_records) <=? len records)
     || (limits.(maximum_value_bytes) <? value_bytes)
     || (limits.(maximum_total_bytes) <? next_total)
  then Err ScanLimit
  else Ok (records ++ [mkNamespaceRecord key value], next_total).

(** [Ok None] is the [Ok(false)] of the code: the record starts the next page. *)
Definition append_page_record (limits : ScanLimits) (acc : list NamespaceRecord * Z)
    (key value : bytes) : result StorageError (option (list NamespaceRecord * Z)) :=
  let '(records, total_bytes) := acc in
  let value_bytes := len value in
  record_bytes ← ok_or (checked_add 64 (len key) value_bytes) ScanLimit;
  if (limits.(maximum_value_bytes) <? value_bytes)
     || (limits.(maximum_total_bytes) <? record_bytes)
  then Err ScanLimit
  else
    next_total ← ok_or (checked_add 64 total_bytes record_bytes) ScanLimit;
    if (limits.(maximum_records) <=? len records)
       || (limits.(maximum_total_bytes) <? next_total)
    then Ok None
    else Ok (Some (records ++ [mkNamespaceRecord key value], next_total)).

(** ** The trait *)

(** A store operation reads and replaces the store, and returns or fails. *)
Definition store_m (S A : Type) : Type := S → result StorageError A * S.
#[export] Instance store_ret {S} : MRet (store_m S) := λ A a s, (Ok a, s).
#[export] Instance store_bind {S} : MBind (store_m S) := λ A B f m s,
  match m s with
  | (Ok a, s') => f a s'
  | (Err e, s') => (Err e, s')
  end.
Definition lift_result {S A} (r : result StorageError A) : store_m S A := λ s, (r, s).
Definition read_store {S} : store_m S S := λ s, (Ok s, s).
Definition write_store {S} (s' : S) : store_m S unit := λ _, (Ok tt, s').

Lemma store_bind_ok {S A B} (m : store_m S A) (f : A → store_m S B) s a s' :
  m s = (Ok a, s') → (m ≫= f) s = f a s'.
Proof. unfold mbind, store_bind. by intros ->. Qed.

Class DurableStore (S : Type) := {
  put : bytes → bytes → bytes → store_m S unit;
  get : bytes → bytes → store_m S (option bytes);
  delete_key : bytes → bytes → store_m S unit;
  compare_and_swap : bytes → bytes → option bytes → bytes → store_m S bool;
  apply_batch : list BatchOperation → store_m S unit;
  apply_batch_if : bytes → bytes → option bytes → list BatchOperation → store_m S bool;
  apply_batch_if_all : list BatchCondition → list BatchOperation → store_m S bool;
  scan_namespace : bytes → ScanLimits → store_m S (list NamespaceRecord);
  scan_namespace_after : bytes → option bytes → ScanLimits → store_m S NamespacePage;
}.

Definition put_if_absent {S} `{!DurableStore S} (namespace key value : bytes) : store_m S bool :=
  compare_and_swap namespace key None value.

(** ** [MemoryStore] *)

Abbreviation MemoryStore := (gmap bytes bytes).

(** The entries of a map in key order. *)
Definition entry_le (p q : bytes * bytes) : Prop := bytes_le p.1 q.1.
#[export] Instance entry_le_dec : RelDecision entry_le.
Proof. intros p q. unfold entry_le. apply _. Defined.
Definition entries (m : gmap bytes bytes) : list (bytes * bytes) :=
  merge_sort entry_le (map_to_list m).

Definition mem_put (namespace key value : bytes) : store_m MemoryStore unit :=
  key ← lift_result (storage_key namespace key);
  records ← read_store;
  write_store (<[key := value]> records).

Definition mem_get (namespace key : bytes) : store_m MemoryStore (option bytes) :=
  key ← lift_result (storage_key namespace key);
  records ← read_store;
  mret (records !! key).

Definition mem_delete (namespace key : bytes) : store_m MemoryStore unit :=
  key ← lift_result (storage_key namespace key);
  records ← read_store;
  write_store (delete key records).

Definition mem_compare_and_swap (namespace key : bytes) (expected : option bytes)
    (value : bytes) : store_m MemoryStore bool :=
  key ← lift_result (storage_key namespace key);
  records ← read_store;
  if bool_decide (records !! key ≠ expected) then mret false
  else
    _ ← write_store (<[key := value]> records);
    mret true.

(** The loop over [operations.iter().zip(keys)]. *)
Definition apply_keyed (records : MemoryStore) (operations : list (BatchOperation * bytes)) :
    MemoryStore :=
  foldl (λ records '(operation, key),
    match operation with
    | BatchPut _ _ value => <[key := value]> records
    | BatchDelete _ _ => delete key records
    end) records operations.

Definition mem_apply_batch (operations : list BatchOperation) : store_m MemoryStore unit :=
  keys ← lift_result (collect operation_key operations);
  records ← read_store;
  write_store (apply_keyed records (zip operations keys)).

Definition mem_apply_batch_if_all (conditions : list BatchCondition)
    (operations : list BatchOperation) : store_m MemoryStore bool :=
  condition_keys ← lift_result
    (collect (λ c, storage_key c.(bc_namespace) c.(bc_key)) conditions);
  operation_keys ← lift_result (collect operation_key operations);
  records ← read_store;
  if forallb (λ '(c, key), bool_decide (records !! key = c.(bc_expected)))
       (zip conditions condition_keys)
  then
    _ ← write_store (apply_keyed records (zip operations operation_keys));
    mret true
  else mret false.

Definition mem_apply_batch_if (namespace key : bytes) (expected : option bytes)
    (operations : list BatchOperation) : store_m MemoryStore bool :=
  mem_apply_batch_if_all [mkBatchCondition namespace key expected] operations.

(** [key.strip_prefix(&prefix)] *)
Definition strip_prefix (prefix key : bytes) : option bytes :=
  if bool_decide (take (length prefix) key = prefix) then Some (drop (length prefix) key)
  else None.

Definition mem_scan_namespace (namespace : bytes) (limits : ScanLimits) :
    store_m MemoryStore (list NamespaceRecord) :=
  prefix ← lift_result (storage_key namespace []);
  upper ← lift_result (namespace_upper namespace);
  stored ← read_store;
  let range := filter (λ e, bytes_le prefix e.1 ∧ bytes_lt e.1 upper) (entries stored) in
  acc ← lift_result (fold_result (λ acc '(key, value),
    match strip_prefix prefix key with
    | None => Ok acc
    | Some logical_key => append_scanned_record limits acc logical_key value
    end) ([], 0) range);
  mret acc.1.

(** The page loop: it stops at the first record that does not fit. *)
Fixpoint page_loop (prefix : bytes) (limits : ScanLimits) (acc : list NamespaceRecord * Z)
    (range : list (bytes * bytes)) : result StorageError NamespacePage :=
  match range with
  | [] => Ok (mkNamespacePage acc.1 false)
  | (key, value) :: range =>
      match strip_prefix prefix key with
      | None => page_loop prefix limits acc range
      | Some logical_key =>
          appended ← append_page_record limits acc logical_key value;
          match appended with
          | Some acc => page_loop prefix limits acc range
          | None =>
              match acc.1 with
              | [] => Err ScanLimit
              | _ => Ok (mkNamespacePage acc.1 true)
              end
          end
      end
  end.

(** The lower bound of the range: [Excluded] with a cursor, [Included] without. *)
Definition above_lower (exclusive_cursor : option bytes) (lower key : bytes) : Prop :=
  match exclusive_cursor with
  | Some _ => bytes_lt lower key
  | None => bytes_le lower key
  end.
#[export] Instance above_lower_dec c l k : Decision (above_lower c l k).
Proof. destruct c; cbn; apply _. Defined.

Definition mem_scan_namespace_after (namespace : bytes) (exclusive_cursor : option bytes)
    (limits : ScanLimits) : store_m MemoryStore NamespacePage :=
  prefix ← lift_result (storage_key namespace []);
  lower ← lift_result
    match exclusive_cursor with
    | Some cursor => storage_key namespace cursor
    | None => Ok prefix
    end;
  upper ← lift_result (namespace_upper namespace);
  stored ← read_store;
  let range :=
    filter (λ e, above_lower exclusive_cursor lower e.1 ∧ bytes_lt e.1 upper) (entries stored) in
  lift_result (page_loop prefix limits ([], 0) range).

#[export] Instance MemoryStore_store : DurableStore MemoryStore := {|
  put := mem_put;
  get := mem_get;
  delete_key := mem_delete;
  compare_and_swap := mem_compare_and_swap;
  apply_batch := mem_apply_batch;
  apply_batch_if := mem_apply_batch_if;
  apply_batch_if_all := mem_apply_batch_if_all;
  scan_namespace := mem_scan_namespace;
  scan_namespace_after := mem_scan_namespace_after;
|}.

(** ** The contract: a two-level map *)

Abbreviation View :=
  (@gmap (bytes * bytes)
     (@prod_eq_dec bytes (@list_eq_dec byte byte_eq_dec) bytes (@list_eq_dec byte byte_eq_dec))
     (@prod_countable bytes (@list_eq_dec byte byte_eq_dec)
        (@list_countable byte byte_eq_dec byte_countable) bytes (@list_eq_dec byte byte_eq_dec)
        (@list_countable byte byte_eq_dec byte_countable)) bytes).

Definition valid_key (target : bytes * bytes) : bool :=
  negb (contains_nul target.1 || contains_nul target.2).

Definition operation_target (operation : BatchOperation) : bytes * bytes :=
  match operation with
  | BatchPut namespace key _ | BatchDelete namespace key => (namespace, key)
  end.
Definition condition_target (c : BatchCondition) : bytes * bytes :=
  (c.(bc_namespace), c.(bc_key)).

Definition guard_keys (targets : list (bytes * bytes)) : store_m View unit :=
  lift_result (ensure (forallb valid_key targets) InvalidKey).

Definition view_apply (v : View) (operations : list BatchOperation) : View :=
  foldl (λ v operation,
    match operation with
    | BatchPut namespace key value => <[(namespace, key) := value]> v
    | BatchDelete namespace key => delete (namespace, key) v
    end) v operations.

Definition condition_holds (v : View) (c : BatchCondition) : bool :=
  bool_decide (v !! condition_target c = c.(bc_expected)).

(** The records of one namespace in key order. *)
Definition namespace_entries (v : View) (namespace : bytes) : list (bytes * bytes) :=
  merge_sort entry_le
    (omap (λ '((n, key), value), if bool_decide (n = namespace) then Some (key, value) else None)
       (map_to_list v)).

Definition after_cursor (exclusive_cursor : option bytes) (key : bytes) : Prop :=
  match exclusive_cursor with Some cursor => bytes_lt cursor key | None => True end.
#[export] Instance after_cursor_dec c k : Decision (after_cursor c k).
Proof. destruct c; cbn; apply _. Defined.

Definition spec_put (namespace key value : bytes) : store_m View unit :=
  _ ← guard_keys [(namespace, key)]; v ← read_store; write_store (<[(namespace, key) := value]> v).
Definition spec_get (namespace key : bytes) : store_m View (option bytes) :=
  _ ← guard_keys [(namespace, key)]; v ← read_store; mret (v !! (namespace, key)).
Definition spec_delete (namespace key : bytes) : store_m View unit :=
  _ ← guard_keys [(namespace, key)]; v ← read_store; write_store (delete (namespace, key) v).
Definition spec_apply_batch (operations : list BatchOperation) : store_m View unit :=
  _ ← guard_keys (operation_target <$> operations);
  v ← read_store; write_store (view_apply v operations).
(** All conditions are read, then all operations applied, in one step. *)
Definition spec_apply_batch_if_all (conditions : list BatchCondition)
    (operations : list BatchOperation) : store_m View bool :=
  _ ← guard_keys (condition_target <$> conditions);
  _ ← guard_keys (operation_target <$> operations);
  v ← read_store;
  if forallb (condition_holds v) conditions
  then _ ← write_store (view_apply v operations); mret true
  else mret false.
Definition spec_compare_and_swap (namespace key : bytes) (expected : option bytes)
    (value : bytes) : store_m View bool :=
  spec_apply_batch_if_all [mkBatchCondition namespace key expected]
    [BatchPut namespace key value].
Definition spec_scan_namespace (namespace : bytes) (limits : ScanLimits) :
    store_m View (list NamespaceRecord) :=
  _ ← guard_keys [(namespace, [])];
  v ← read_store;
  acc ← lift_result (fold_result (λ acc '(key, value), append_scanned_record limits acc key value)
    ([], 0) (namespace_entries v namespace));
  mret acc.1.
Definition spec_scan_namespace_after (namespace : bytes) (exclusive_cursor : option bytes)
    (limits : ScanLimits) : store_m View NamespacePage :=
  _ ← guard_keys [(namespace, default [] exclusive_cursor)];
  v ← read_store;
  lift_result (page_loop [] limits ([], 0)
    (filter (λ e, after_cursor exclusive_cursor e.1) (namespace_entries v namespace))).

(** What a store promises its clients: its operations answer as the view's do,
    and keep representing the view. *)
Class DurableStoreLaws (S : Type) `{!DurableStore S} := {
  represents : S → View → Prop;
  represents_valid s v ns k x :
    represents s v → v !! (ns, k) = Some x → valid_key (ns, k) = true;
  simulates {A} (m : store_m S A) (m' : store_m View A) : Prop :=
    ∀ s v, represents s v → (m s).1 = (m' v).1 ∧ represents (m s).2 (m' v).2;
  put_spec ns k x : simulates (put ns k x) (spec_put ns k x);
  get_spec ns k : simulates (get ns k) (spec_get ns k);
  delete_spec ns k : simulates (delete_key ns k) (spec_delete ns k);
  compare_and_swap_spec ns k e x :
    simulates (compare_and_swap ns k e x) (spec_compare_and_swap ns k e x);
  apply_batch_spec ops : simulates (apply_batch ops) (spec_apply_batch ops);
  apply_batch_if_spec ns k e ops :
    simulates (apply_batch_if ns k e ops)
      (spec_apply_batch_if_all [mkBatchCondition ns k e] ops);
  apply_batch_if_all_spec cs ops :
    simulates (apply_batch_if_all cs ops) (spec_apply_batch_if_all cs ops);
  scan_namespace_spec ns l : simulates (scan_namespace ns l) (spec_scan_namespace ns l);
  scan_namespace_after_spec ns c l :
    simulates (scan_namespace_after ns c l) (spec_scan_namespace_after ns c l);
}.

(** ** Key lemmas *)

Lemma contains_nul_false s : contains_nul s = false ↔ x00 ∉ s.
Proof.
  unfold contains_nul. induction s as [|b s IH]; cbn; [set_solver|].
  rewrite orb_false_iff, IH, bool_decide_eq_false, not_elem_of_cons. naive_solver.
Qed.

Lemma valid_key_spec ns k : valid_key (ns, k) = true ↔ x00 ∉ ns ∧ x00 ∉ k.
Proof.
  unfold valid_key. cbn. rewrite negb_true_iff, orb_false_iff, !contains_nul_false. done.
Qed.

Lemma storage_key_valid ns k :
  storage_key ns k = if valid_key (ns, k) then Ok (ns ++ [x00] ++ k) else Err InvalidKey.
Proof. unfold storage_key, valid_key. cbn. by destruct (_ || _). Qed.

(** No two pairs of components share a flat key. *)
Lemma flat_key_inj ns1 ns2 k1 k2 :
  x00 ∉ ns1 → x00 ∉ ns2 → ns1 ++ [x00] ++ k1 = ns2 ++ [x00] ++ k2 → ns1 = ns2 ∧ k1 = k2.
Proof.
  revert ns2. induction ns1 as [|b ns1 IH]; intros [|c ns2] H1 H2 E; cbn in E.
  - by injection E as ->.
  - injection E as <- _. set_solver.
  - injection E as -> _. set_solver.
  - injection E as -> E. apply IH in E as [-> ->]; set_solver.
Qed.

Lemma bytes_cmp_app p x y : bytes_cmp (p ++ x) (p ++ y) = bytes_cmp x y.
Proof. induction p as [|b p IH]; cbn; [done|]. by rewrite Z.compare_refl. Qed.

(** The range [prefix..upper] holds exactly the keys that start with the prefix. *)
Lemma namespace_range ns f :
  bytes_le (ns ++ [x00]) f ∧ bytes_lt f (ns ++ [x01]) ↔ ∃ k, f = ns ++ [x00] ++ k.
Proof.
  unfold bytes_le, bytes_lt. split.
  - revert f. induction ns as [|b ns IH]; intros [|c f]; cbn; try naive_solver.
    + destruct (Z.compare_spec 0 (b2z c)) as [E|E|E], (Z.compare_spec (b2z c) 1) as [E'|E'|E'];
        intros [H1 H2]; try (pose proof (b2z_range c); lia); try done.
      * exists f. f_equal. apply b2z_inj. by rewrite <- E.
      * destruct f; done.
    + rewrite (Z.compare_antisym (b2z b) (b2z c)).
      destruct (Z.compare_spec (b2z b) (b2z c)) as [E|E|E]; cbn; [|naive_solver..].
      intros H. apply IH in H as [k ->]. exists k. by apply b2z_inj in E as ->.
  - intros [k ->]. rewrite !bytes_cmp_app. by destruct k.
Qed.

Lemma strip_prefix_spec p f k : strip_prefix p f = Some k ↔ f = p ++ k.
Proof.
  unfold strip_prefix. case_bool_decide as E.
  - rewrite <- E at 2. split; [intros [= <-]; by rewrite take_drop|].
    intros Hf. rewrite <- (take_drop (length p) f) in Hf at 1. by apply app_inv_head in Hf as ->.
  - split; [done|]. intros ->. by rewrite take_app_length in E.
Qed.
Lemma strip_prefix_nil k : strip_prefix [] k = Some k.
Proof. by apply strip_prefix_spec. Qed.

(** ** Sorted listings *)

Definition key_lt (p q : bytes * bytes) : Prop := bytes_lt p.1 q.1.
#[export] Instance key_lt_trans : Transitive key_lt.
Proof. intros p q r. unfold key_lt. apply bytes_lt_trans. Qed.

Lemma key_lt_antisymm : AntiSymm (=) key_lt.
Proof.
  intros p q H1 H2. exfalso. apply (bytes_lt_irrefl p.1). by transitivity q.1.
Qed.

Lemma sorted_listing_unique l1 l2 :
  StronglySorted key_lt l1 → StronglySorted key_lt l2 → (∀ e, e ∈ l1 ↔ e ∈ l2) → l1 = l2.
Proof.
  intros H1 H2 He. assert (∀ l, StronglySorted key_lt l → NoDup l) as Hnd.
  { induction 1 as [|e l _ IH Hf]; constructor; [|done]. rewrite Forall_forall in Hf.
    intros Hin. by apply (bytes_lt_irrefl e.1), Hf. }
  pose proof key_lt_antisymm. apply (StronglySorted_unique key_lt); [done..|].
  by apply NoDup_Permutation; auto.
Qed.

Lemma StronglySorted_omap {A B} (R : relation A) (R' : relation B) (f : A → option B) l :
  (∀ x y x' y', f x = Some x' → f y = Some y' → R x y → R' x' y') →
  StronglySorted R l → StronglySorted R' (omap f l).
Proof.
  intros Hf. induction 1 as [|x l _ IH Hx]; cbn; [constructor|].
  destruct (f x) as [x'|] eqn:Ex; [|done]. constructor; [done|].
  rewrite Forall_forall in Hx. apply Forall_forall.
  intros y' (y & Hy & Ey)%list_elem_of_omap. by apply (Hf x y); auto.
Qed.

Lemma StronglySorted_filter {A} (R : relation A) (P : A → Prop) `{∀ x, Decision (P x)} l :
  StronglySorted R l → StronglySorted R (filter P l).
Proof.
  induction 1 as [|x l _ IH Hx]; [constructor|]. rewrite filter_cons.
  destruct (decide (P x)); [|done]. constructor; [done|].
  rewrite Forall_forall in Hx. apply Forall_forall. intros y [_ Hy]%list_elem_of_filter. auto.
Qed.

(** Sorting entries with distinct keys sorts them strictly. *)
Lemma merge_sort_keys l : NoDup l.*1 → StronglySorted key_lt (merge_sort entry_le l).
Proof.
  intros Hnd. assert (Transitive entry_le) by (intros p q r; unfold entry_le; apply bytes_le_trans).
  assert (Total entry_le) by (intros p q; apply bytes_le_total).
  pose proof (StronglySorted_merge_sort entry_le l) as Hs.
  assert (NoDup (merge_sort entry_le l).*1) as Hnd' by (by rewrite merge_sort_Permutation).
  induction Hs as [|e s _ IH Hf]; constructor.
  - apply IH. by apply NoDup_cons in Hnd' as [_ ?].
  - apply NoDup_cons in Hnd' as [Hn _]. rewrite Forall_forall in Hf. apply Forall_forall. intros q Hq.
    specialize (Hf q Hq). unfold entry_le, key_lt in *. apply bytes_le_lt in Hf as [?|E]; [done|].
    destruct Hn. rewrite E. by apply list_elem_of_fmap_2.
Qed.

Lemma entries_sorted m : StronglySorted key_lt (entries m).
Proof. apply merge_sort_keys, NoDup_fst_map_to_list. Qed.

Lemma elem_of_entries m k x : (k, x) ∈ entries m ↔ m !! k = Some x.
Proof. unfold entries. rewrite merge_sort_Permutation. apply elem_of_map_to_list. Qed.

Lemma elem_of_namespace_entries v ns k x : (k, x) ∈ namespace_entries v ns ↔ v !! (ns, k) = Some x.
Proof.
  unfold namespace_entries. rewrite merge_sort_Permutation, list_elem_of_omap. split.
  - intros (((n, k'), x') & Hin & E). case_bool_decide as Hn; [|done]. injection E as -> ->.
    subst n. by apply elem_of_map_to_list.
  - intros Hv. exists ((ns, k), x). split; [by apply elem_of_map_to_list|].
    by rewrite bool_decide_eq_true_2.
Qed.

Lemma namespace_entries_sorted v ns : StronglySorted key_lt (namespace_entries v ns).
Proof.
  apply merge_sort_keys.
  pose proof (NoDup_fst_map_to_list v) as Hnd. revert Hnd.
  generalize (map_to_list v). intros l. induction l as [|[[n k] x] l IH]; cbn; [constructor|].
  intros [Hn Hnd]%NoDup_cons. case_bool_decide as E; [|by apply IH]. subst n. cbn.
  apply NoDup_cons. split; [|by apply IH]. intros Hin. apply Hn.
  apply list_elem_of_fmap in Hin as ([k' x'] & Ek & Hin). cbn in Ek. subst k'.
  apply list_elem_of_omap in Hin as (((n', k'), x'') & Hin & E').
  case_bool_decide as En; [|done]. injection E' as -> ->. subst n'.
  apply list_elem_of_fmap. by exists ((ns, k), x').
Qed.
Lemma sorted_keys_nodup (l : list (bytes * bytes)) : StronglySorted key_lt l → NoDup l.*1.
Proof.
  induction 1 as [|e l _ IH Hf]; cbn; constructor; [|done]. intros (e' & Ee & He')%list_elem_of_fmap.
  rewrite Forall_forall in Hf. apply Hf in He'. unfold key_lt in He'. rewrite Ee in He'. by apply (bytes_lt_irrefl e'.1).
Qed.

(** ** [MemoryStore] keeps the contract *)

(** The flat map holds exactly the view's records, under their flat keys. *)
Record mem_represents (m : MemoryStore) (v : View) : Prop := {
  rep_lookup ns k : x00 ∉ ns → x00 ∉ k → m !! (ns ++ [x00] ++ k) = v !! (ns, k);
  rep_flat f x : m !! f = Some x → ∃ ns k, x00 ∉ ns ∧ x00 ∉ k ∧ f = ns ++ [x00] ++ k;
  rep_valid ns k x : v !! (ns, k) = Some x → x00 ∉ ns ∧ x00 ∉ k;
}.

Lemma mem_represents_empty : mem_represents ∅ ∅.
Proof. split; intros *; by rewrite ?lookup_empty. Qed.

Section MemRep.
Context (m : MemoryStore) (v : View).
Hypothesis Hrep : mem_represents m v.

Lemma mem_represents_insert ns k x :
  valid_key (ns, k) = true → mem_represents (<[ns ++ [x00] ++ k := x]> m) (<[(ns, k) := x]> v).
Proof.
  rewrite valid_key_spec. intros [Hns Hk]. split.
  - intros ns' k' ??. destruct (decide ((ns, k) = (ns', k'))) as [E|E].
    + injection E as -> ->. by rewrite !lookup_insert_eq.
    + rewrite lookup_insert_ne, (lookup_insert_ne v) by
        first [done | intros E'; apply flat_key_inj in E' as [-> ->]; done].
      by apply Hrep.
  - intros f y. rewrite lookup_insert_Some. intros [[<- _]|[_ Hy]]; [by exists ns, k|].
    by apply Hrep in Hy.
  - intros ns' k' y. rewrite lookup_insert_Some. intros [[[= <- <-] _]|[_ Hy]]; [done|].
    by apply Hrep in Hy.
Qed.

Lemma mem_represents_delete ns k :
  valid_key (ns, k) = true → mem_represents (delete (ns ++ [x00] ++ k) m) (delete (ns, k) v).
Proof.
  rewrite valid_key_spec. intros [Hns Hk]. split.
  - intros ns' k' ??. destruct (decide ((ns, k) = (ns', k'))) as [E|E].
    + injection E as -> ->. by rewrite !lookup_delete_eq.
    + rewrite lookup_delete_ne, (lookup_delete_ne v) by
        first [done | intros E'; apply flat_key_inj in E' as [-> ->]; done].
      by apply Hrep.
  - intros f y [_ Hy]%lookup_delete_Some. by apply Hrep in Hy.
  - intros ns' k' y [_ Hy]%lookup_delete_Some. by apply Hrep in Hy.
Qed.

(** The stripped range of the flat map is the namespace's sorted listing. *)
Lemma elem_of_stripped_range ns P `{∀ e, Decision (P e)} k x :
  x00 ∉ ns →
  (k, x) ∈ omap (λ '(f, y), (λ k', (k', y)) <$> strip_prefix (ns ++ [x00]) f)
    (filter P (entries m)) ↔
  P (ns ++ [x00] ++ k, x) ∧ v !! (ns, k) = Some x.
Proof.
  intros Hns. rewrite list_elem_of_omap. split.
  - intros ([f y] & [Hp Hf]%list_elem_of_filter & E).
    apply fmap_Some in E as (k' & Ek & [= -> ->]). apply strip_prefix_spec in Ek as ->.
    rewrite <- app_assoc in *. split; [done|]. apply elem_of_entries in Hf.
    destruct (rep_flat _ _ Hrep _ _ Hf) as (ns' & k'' & ? & ? & E').
    apply flat_key_inj in E' as [<- <-]; [|done..]. by rewrite <- (rep_lookup _ _ Hrep).
  - intros [Hp Hv]. destruct (rep_valid _ _ Hrep _ _ _ Hv) as [_ Hk].
    exists (ns ++ [x00] ++ k, x). split.
    + apply list_elem_of_filter. split; [done|]. apply elem_of_entries.
      by rewrite (rep_lookup _ _ Hrep).
    + apply fmap_Some. exists k. split; [|done]. apply strip_prefix_spec. by rewrite <- app_assoc.
Qed.

Lemma stripped_range ns P `{∀ e, Decision (P e)} Q `{∀ e, Decision (Q e)} :
  x00 ∉ ns → (∀ k x, P (ns ++ [x00] ++ k, x) ↔ Q (k, x)) →
  omap (λ '(f, y), (λ k', (k', y)) <$> strip_prefix (ns ++ [x00]) f)
    (filter P (entries m)) =
  filter Q (namespace_entries v ns).
Proof.
  intros Hns HPQ. apply sorted_listing_unique.
  - eapply (StronglySorted_omap key_lt); [|apply StronglySorted_filter, entries_sorted].
    intros [f1 y1] [f2 y2] p q E1 E2. apply fmap_Some in E1 as (k1 & E1 & ->).
    apply fmap_Some in E2 as (k2 & E2 & ->). apply strip_prefix_spec in E1 as ->, E2 as ->.
    unfold key_lt, bytes_lt. cbn. by rewrite bytes_cmp_app.
  - apply StronglySorted_filter, namespace_entries_sorted.
  - intros [k x]. rewrite elem_of_stripped_range, list_elem_of_filter, elem_of_namespace_entries
      by done. by rewrite HPQ.
Qed.
End MemRep.

Definition flat_key (target : bytes * bytes) : bytes := target.1 ++ [x00] ++ target.2.

Lemma collect_keys {A} (target : A → bytes * bytes) (l : list A) :
  collect (λ x, storage_key (target x).1 (target x).2) l =
  if forallb valid_key (target <$> l) then Ok (flat_key ∘ target <$> l) else Err InvalidKey.
Proof.
  induction l as [|x l IH]; cbn; [done|]. rewrite storage_key_valid, <- surjective_pairing.
  destruct (valid_key (target x)); cbn; [|done]. rewrite IH. by destruct (forallb _ _).
Qed.

Lemma collect_operation_keys ops :
  collect operation_key ops =
  if forallb valid_key (operation_target <$> ops) then Ok (flat_key ∘ operation_target <$> ops)
  else Err InvalidKey.
Proof.
  rewrite <- (collect_keys operation_target).
  induction ops as [|[] ops IH]; cbn; [done|..]; by rewrite IH.
Qed.

Lemma mem_represents_batch ops m v :
  mem_represents m v → forallb valid_key (operation_target <$> ops) = true →
  mem_represents (apply_keyed m (zip ops (flat_key ∘ operation_target <$> ops))) (view_apply v ops).
Proof.
  revert m v. induction ops as [|op ops IH]; intros m v Hrep; cbn; [done|].
  intros [Hv Hvs]%andb_true_iff. apply IH; [|done].
  destruct op as [ns k x|ns k]; cbn in Hv |- *.
  - by apply (mem_represents_insert m v).
  - by apply (mem_represents_delete m v).
Qed.

Lemma mem_conditions cs m v :
  mem_represents m v → forallb valid_key (condition_target <$> cs) = true →
  forallb (λ '(c, key), bool_decide (m !! key = c.(bc_expected)))
    (zip cs (flat_key ∘ condition_target <$> cs)) = forallb (condition_holds v) cs.
Proof.
  intros Hrep. induction cs as [|c cs IH]; cbn; [done|].
  intros [Hv Hvs]%andb_true_iff. rewrite IH by done. f_equal.
  unfold condition_holds. apply valid_key_spec in Hv as [??].
  pose proof (rep_lookup _ _ Hrep c.(bc_namespace) c.(bc_key)) as Hl. cbn in *. by rewrite Hl.
Qed.

(** The loops over a stripped range are the loops over the logical entries. *)
Lemma fold_scan_stripped prefix limits range acc :
  fold_result (λ acc '(key, value),
    match strip_prefix prefix key with
    | None => Ok acc
    | Some logical_key => append_scanned_record limits acc logical_key value
    end) acc range =
  fold_result (λ acc '(key, value), append_scanned_record limits acc key value) acc
    (omap (λ '(f, y), (λ k', (k', y)) <$> strip_prefix prefix f) range).
Proof.
  revert acc. induction range as [|[f y] range IH]; intros acc; cbn; [done|].
  destruct (strip_prefix prefix f) as [k|]; cbn; [|apply IH].
  destruct (append_scanned_record limits acc k y); cbn; [apply IH|done].
Qed.

Lemma page_loop_stripped prefix limits range acc :
  page_loop prefix limits acc range =
  page_loop [] limits acc (omap (λ '(f, y), (λ k', (k', y)) <$> strip_prefix prefix f) range).
Proof.
  revert acc. induction range as [|[f y] range IH]; intros acc; cbn; [done|].
  destruct (strip_prefix prefix f) as [k|]; cbn; [|apply IH]. rewrite strip_prefix_nil.
  destruct (append_page_record limits acc k y) as [[acc'|]|]; cbn; [apply IH|done..].
Qed.

(** Unfolds the store monad in both runs of a simulation. *)
Ltac run_store :=
  unfold mbind, store_bind, mret, store_ret, lift_result, read_store, write_store, guard_keys,
    ensure; cbn -[storage_key valid_key entries].

Lemma mem_simulates_batch_if_all cs ops m v :
  mem_represents m v →
  (mem_apply_batch_if_all cs ops m).1 = (spec_apply_batch_if_all cs ops v).1 ∧
  mem_represents (mem_apply_batch_if_all cs ops m).2 (spec_apply_batch_if_all cs ops v).2.
Proof.
  intros Hrep. unfold mem_apply_batch_if_all, spec_apply_batch_if_all.
  rewrite (collect_keys condition_target), collect_operation_keys. run_store.
  destruct (forallb valid_key (condition_target <$> cs)) eqn:Ec; [|done].
  destruct (forallb valid_key (operation_target <$> ops)) eqn:Eo; [|done]. cbn.
  rewrite (mem_conditions cs m v) by done.
  destruct (forallb (condition_holds v) cs); cbn; [|done].
  split; [done|]. by apply mem_represents_batch.
Qed.

Lemma mem_simulates_scan ns l m v :
  mem_represents m v →
  (mem_scan_namespace ns l m).1 = (spec_scan_namespace ns l v).1 ∧
  mem_represents (mem_scan_namespace ns l m).2 (spec_scan_namespace ns l v).2.
Proof.
  intros Hrep. unfold mem_scan_namespace, spec_scan_namespace, namespace_upper. run_store.
  rewrite storage_key_valid. destruct (valid_key (ns, [])) eqn:E; [|done]. cbn.
  apply valid_key_spec in E as [Hns _]. rewrite (proj2 (contains_nul_false ns)) by done. cbn.
  rewrite fold_scan_stripped.
  match goal with |- context [omap ?f ?l] => replace (omap f l) with (namespace_entries v ns) end.
  - by destruct (fold_result _ _ _).
  - symmetry. etrans; [apply (stripped_range m v Hrep ns _ (λ _, True)); [done|]|].
    + intros k x. cbn [fst]. rewrite namespace_range. naive_solver.
    + induction (namespace_entries v ns); [done|]. rewrite filter_cons_True by done. by f_equal.
Qed.

Lemma mem_simulates_page ns c l m v :
  mem_represents m v →
  (mem_scan_namespace_after ns c l m).1 = (spec_scan_namespace_after ns c l v).1 ∧
  mem_represents (mem_scan_namespace_after ns c l m).2 (spec_scan_namespace_after ns c l v).2.
Proof.
  intros Hrep. unfold mem_scan_namespace_after, spec_scan_namespace_after, namespace_upper.
  run_store. rewrite !storage_key_valid.
  destruct (valid_key (ns, default [] c)) eqn:E.
  2: { destruct (valid_key (ns, [])) eqn:E0, c as [cursor|]; cbn in *; try congruence.
       - by rewrite storage_key_valid, E.
       - done. - done. }
  pose proof E as [Hns Hc]%valid_key_spec.
  rewrite (proj2 (valid_key_spec ns [])) by set_solver. cbn.
  assert (∀ lower, match c with Some cursor => storage_key ns cursor | None => Ok (ns ++ [x00]) end
    = Ok lower → lower = ns ++ [x00] ++ default [] c) as Hlow.
  { intros lower. destruct c as [cursor|]; cbn in *; [|by intros [= <-]].
    rewrite storage_key_valid, E. by intros [= <-]. }
  destruct (match c with Some cursor => storage_key ns cursor | None => _ end) as [lower|e] eqn:El.
  2: { destruct c; cbn in *; [|done]. rewrite storage_key_valid, E in El. done. }
  rewrite (Hlow lower eq_refl), (proj2 (contains_nul_false ns)) by done. cbn.
  split; [|done]. rewrite page_loop_stripped. f_equal.
  apply (stripped_range m v Hrep ns); [done|].
  intros k x. pose proof (proj2 (namespace_range ns (ns ++ [x00] ++ k)) (ex_intro _ k eq_refl)).
  destruct c as [cursor|]; cbn in *; unfold bytes_lt at 1.
  - change (ns ++ x00 :: cursor) with (ns ++ [x00] ++ cursor).
    change (ns ++ x00 :: k) with (ns ++ [x00] ++ k). rewrite !bytes_cmp_app. naive_solver.
  - naive_solver.
Qed.

#[export] Instance MemoryStore_laws : DurableStoreLaws MemoryStore.
Proof.
  refine {| represents := mem_represents |}; cbn -[forallb valid_key].
  - intros s v ns k x Hrep Hx. apply valid_key_spec. by apply (rep_valid _ _ Hrep) in Hx.
  - intros ns k x s v Hrep. unfold mem_put, spec_put. run_store.
    rewrite storage_key_valid. destruct (valid_key (ns, k)) eqn:E; [|done]. cbn.
    split; [done|]. by apply mem_represents_insert.
  - intros ns k s v Hrep. unfold mem_get, spec_get. run_store.
    rewrite storage_key_valid. destruct (valid_key (ns, k)) eqn:E; [|done]. cbn.
    apply valid_key_spec in E as [??]. pose proof (rep_lookup _ _ Hrep ns k) as Hl.
    cbn in Hl. by rewrite Hl.
  - intros ns k s v Hrep. unfold mem_delete, spec_delete. run_store.
    rewrite storage_key_valid. destruct (valid_key (ns, k)) eqn:E; [|done]. cbn.
    split; [done|]. by apply mem_represents_delete.
  - intros ns k e x s v Hrep. unfold mem_compare_and_swap, spec_compare_and_swap,
      spec_apply_batch_if_all. run_store. rewrite storage_key_valid.
    unfold condition_target. cbn -[valid_key].
    destruct (valid_key (ns, k)) eqn:E; [|done]. cbn. unfold condition_holds, condition_target. cbn.
    pose proof E as [??]%valid_key_spec. pose proof (rep_lookup _ _ Hrep ns k) as Hl.
    cbn in Hl. rewrite Hl by done.
    destruct (decide (v !! (ns, k) = e)) as [Ee|Ee].
    + rewrite bool_decide_eq_false_2, bool_decide_eq_true_2 by naive_solver. cbn.
      split; [done|]. by apply mem_represents_insert.
    + by rewrite bool_decide_eq_true_2, bool_decide_eq_false_2.
  - intros ops s v Hrep. unfold mem_apply_batch, spec_apply_batch. run_store.
    rewrite collect_operation_keys.
    destruct (forallb valid_key (operation_target <$> ops)) eqn:Eo; [|done]. cbn.
    split; [done|]. by apply mem_represents_batch.
  - intros ns k e ops s v Hrep. by apply mem_simulates_batch_if_all.
  - intros cs ops s v Hrep. by apply mem_simulates_batch_if_all.
  - intros ns l s v Hrep. by apply mem_simulates_scan.
  - intros ns c l s v Hrep. by apply mem_simulates_page.
Defined.

(** ** Runs of a store *)

(** The view with the specified operations is itself a store. *)
#[export] Instance View_store : DurableStore View := {|
  put := spec_put;
  get := spec_get;
  delete_key := spec_delete;
  compare_and_swap := spec_compare_and_swap;
  apply_batch := spec_apply_batch;
  apply_batch_if := λ ns k e ops, spec_apply_batch_if_all [mkBatchCondition ns k e] ops;
  apply_batch_if_all := spec_apply_batch_if_all;
  scan_namespace := spec_scan_namespace;
  scan_namespace_after := spec_scan_namespace_after;
|}.

(** A client's call, and the answer it sees. *)
Inductive StoreCall :=
| CallPut (ns k x : bytes)
| CallGet (ns k : bytes)
| CallDelete (ns k : bytes)
| CallCompareAndSwap (ns k : bytes) (expected : option bytes) (x : bytes)
| CallApplyBatch (ops : list BatchOperation)
| CallApplyBatchIf (ns k : bytes) (expected : option bytes) (ops : list BatchOperation)
| CallApplyBatchIfAll (cs : list BatchCondition) (ops : list BatchOperation)
| CallScan (ns : bytes) (limits : ScanLimits)
| CallScanAfter (ns : bytes) (cursor : option bytes) (limits : ScanLimits).

Inductive StoreReply :=
| ReplyUnit (r : result StorageError unit)
| ReplyValue (r : result StorageError (option bytes))
| ReplyBool (r : result StorageError bool)
| ReplyRecords (r : result StorageError (list NamespaceRecord))
| ReplyPage (r : result StorageError NamespacePage).

Section Runs.
Context {S : Type} `{!DurableStore S}.

Definition answer {A} (reply : result StorageError A → StoreReply) (m : store_m S A) (s : S) :
    StoreReply * S :=
  (reply (m s).1, (m s).2).

Definition run_call (call : StoreCall) : S → StoreReply * S :=
  match call with
  | CallPut ns k x => answer ReplyUnit (put ns k x)
  | CallGet ns k => answer ReplyValue (get ns k)
  | CallDelete ns k => answer ReplyUnit (delete_key ns k)
  | CallCompareAndSwap ns k e x => answer ReplyBool (compare_and_swap ns k e x)
  | CallApplyBatch ops => answer ReplyUnit (apply_batch ops)
  | CallApplyBatchIf ns k e ops => answer ReplyBool (apply_batch_if ns k e ops)
  | CallApplyBatchIfAll cs ops => answer ReplyBool (apply_batch_if_all cs ops)
  | CallScan ns l => answer ReplyRecords (scan_namespace ns l)
  | CallScanAfter ns c l => answer ReplyPage (scan_namespace_after ns c l)
  end.

Fixpoint run_calls (calls : list StoreCall) (s : S) : list StoreReply :=
  match calls with
  | [] => []
  | call :: calls => let '(reply, s') := run_call call s in reply :: run_calls calls s'
  end.

(** A recovery client: it asks for page after page until [has_more] is false.
    [None] means the fuel ran out or a page with [has_more] was empty. *)
Fixpoint scan_pages (fuel : nat) (ns : bytes) (cursor : option bytes) (limits : ScanLimits) :
    store_m S (option (list NamespaceRecord)) :=
  match fuel with
  | O => mret None
  | Datatypes.S fuel =>
      page ← scan_namespace_after ns cursor limits;
      if page.(page_has_more) then
        match last page.(page_records) with
        | None => mret None
        | Some r =>
            rest ← scan_pages fuel ns (Some r.(nr_key)) limits;
            mret ((λ rest, page.(page_records) ++ rest) <$> rest)
        end
      else mret (Some page.(page_records))
  end.
End Runs.

Section Contract.
Context {S : Type} `{DurableStoreLaws S}.

Lemma run_call_simulates call s v :
  represents s v →
  (run_call call s).1 = (run_call call v).1 ∧ represents (run_call call s).2 (run_call call v).2.
Proof.
  intros Hrep. destruct call; cbn;
    [ destruct (put_spec ns k x s v Hrep) as [E R]
    | destruct (get_spec ns k s v Hrep) as [E R]
    | destruct (delete_spec ns k s v Hrep) as [E R]
    | destruct (compare_and_swap_spec ns k expected x s v Hrep) as [E R]
    | destruct (apply_batch_spec ops s v Hrep) as [E R]
    | destruct (apply_batch_if_spec ns k expected ops s v Hrep) as [E R]
    | destruct (apply_batch_if_all_spec cs ops s v Hrep) as [E R]
    | destruct (scan_namespace_spec ns limits s v Hrep) as [E R]
    | destruct (scan_namespace_after_spec ns cursor limits s v Hrep) as [E R] ];
    (split; [by rewrite E|exact R]).
Qed.

Lemma run_calls_simulates calls s v : represents s v → run_calls calls s = run_calls calls v.
Proof.
  revert s v. induction calls as [|call calls IH]; intros s v Hrep; cbn; [done|].
  destruct (run_call_simulates call s v Hrep) as [E R].
  destruct (run_call call s) as [r s'], (run_call call v) as [r' v']. cbn in *.
  by rewrite E, (IH s' v').
Qed.
End Contract.

(** The in-memory store refines the two-level map. Whatever sequence of
    puts, gets, deletes, compare-and-swaps, conditional batches and scans a
    client issues from the empty store, it gets the replies of the abstract
    (namespace, key) map: flat keys never alias, a batch is all or nothing on
    its conditions, invalid keys change nothing, and scans list exactly one
    namespace in key order. *)
Lemma memory_store_refines (calls : list StoreCall) :
  run_calls calls (∅ : MemoryStore) = run_calls calls (∅ : View).
Proof. apply run_calls_simulates, mem_represents_empty. Qed.

(** ** Pagination *)

Definition to_record (e : bytes * bytes) : NamespaceRecord := mkNamespaceRecord e.1 e.2.

(** A record that fits a page of its own. *)
Definition admissible (limits : ScanLimits) (e : bytes * bytes) : Prop :=
  len e.2 ≤ limits.(maximum_value_bytes) ∧ len e.1 + len e.2 ≤ limits.(maximum_total_bytes).

Definition page_limits_ok (limits : ScanLimits) : Prop :=
  1 ≤ limits.(maximum_records) ∧ 0 ≤ limits.(maximum_total_bytes) < 2 ^ 63.

Lemma append_page_record_admissible limits recs total e :
  page_limits_ok limits → admissible limits e → 0 ≤ total ≤ limits.(maximum_total_bytes) →
  (∃ total', append_page_record limits (recs, total) e.1 e.2 = Ok (Some (recs ++ [to_record e], total'))
     ∧ 0 ≤ total' ≤ limits.(maximum_total_bytes)) ∨
  (append_page_record limits (recs, total) e.1 e.2 = Ok None ∧ (recs = [] → total ≠ 0)).
Proof.
  intros [Hr Ht] [Hv Hk] Htot. pose proof (len_nonneg e.1). pose proof (len_nonneg e.2).
  unfold append_page_record, checked_add.
  rewrite (proj2 (Z.ltb_lt _ (2 ^ 64))) by lia. cbn.
  rewrite (proj2 (Z.ltb_ge _ (len e.2))), (proj2 (Z.ltb_ge _ (len e.1 + len e.2))) by lia. cbn.
  rewrite (proj2 (Z.ltb_lt _ (2 ^ 64))) by lia. cbn.
  destruct (_ || _) eqn:E; [right|left].
  - split; [done|]. intros -> ->. apply orb_true_iff in E. cbn in E.
    rewrite Z.leb_le, Z.ltb_lt, len_nil in E. lia.
  - apply orb_false_iff in E. rewrite Z.leb_gt, Z.ltb_ge in E.
    exists (total + (len e.1 + len e.2)). split; [done|lia].
Qed.

(** A page over admissible entries is a prefix of them, and nonempty if there
    are any. *)
Lemma page_loop_prefix limits recs total l :
  page_limits_ok limits → Forall (admissible limits) l →
  0 ≤ total ≤ limits.(maximum_total_bytes) → (recs = [] → total = 0) →
  ∃ l1 l2, l = l1 ++ l2 ∧
    page_loop [] limits (recs, total) l =
      Ok (mkNamespacePage (recs ++ (to_record <$> l1)) (bool_decide (l2 ≠ []))) ∧
    (l2 ≠ [] → recs ++ (to_record <$> l1) ≠ []).
Proof.
  intros Hl Hall. revert recs total.
  induction Hall as [|[k x] l Hadm _ IH]; intros recs total Ht Hz; cbn [page_loop].
  - exists [], []. split_and!; [done| |tauto].
    by rewrite fmap_nil, app_nil_r, bool_decide_eq_false_2 by tauto.
  - rewrite strip_prefix_nil.
    pose proof (append_page_record_admissible limits recs total (k, x) Hl Hadm Ht) as Ha.
    cbn [fst snd] in Ha. destruct Ha as [(total' & -> & Ht')|[-> Hne]]; cbn.
    + destruct (IH (recs ++ [to_record (k, x)]) total') as (l1 & l2 & -> & -> & Hmore);
        [done|by destruct recs|].
      exists ((k, x) :: l1), l2. rewrite <- app_assoc in *. done.
    + exists [], ((k, x) :: l). rewrite fmap_nil, app_nil_r, bool_decide_eq_true_2 by done.
      destruct recs; [|done]. destruct Hne; auto.
Qed.

Lemma filter_after_cursor l1 e l2 :
  StronglySorted key_lt (l1 ++ e :: l2) →
  filter (λ e', after_cursor (Some e.1) e'.1) (l1 ++ e :: l2) = l2.
Proof.
  intros Hs. rewrite filter_app, filter_cons_False by (cbn; apply bytes_lt_irrefl).
  assert (filter (λ e', after_cursor (Some e.1) e'.1) l1 = []) as ->.
  { induction l1 as [|e' l1 IH]; [done|]. inversion Hs as [|?? Hs' Hf]; subst.
    rewrite filter_cons_False; [by apply IH|]. rewrite Forall_forall in Hf. cbn.
    intros Hlt. apply (bytes_lt_irrefl e.1). transitivity e'.1; [done|]. apply Hf. set_solver. }
  cbn. induction l1 as [|e' l1 IH]; [|by inversion Hs; subst; apply IH].
  cbn in Hs. inversion Hs as [|?? _ Hf]; subst. clear Hs. induction Hf as [|e' l2 He _ IH]; [done|].
  rewrite filter_cons_True by done. by f_equal.
Qed.

(** One page request answered by any lawful store. *)
Lemma page_request {S} `{DurableStoreLaws S} ns cursor limits (s : S) v :
  represents s v → valid_key (ns, default [] cursor) = true →
  page_limits_ok limits → Forall (admissible limits) (namespace_entries v ns) →
  ∃ l1 l2 s',
    filter (λ e, after_cursor cursor e.1) (namespace_entries v ns) = l1 ++ l2 ∧
    scan_namespace_after ns cursor limits s =
      (Ok (mkNamespacePage (to_record <$> l1) (bool_decide (l2 ≠ []))), s') ∧
    represents s' v ∧ (l2 ≠ [] → l1 ≠ []).
Proof.
  intros Hrep Hv Hl Hall.
  destruct (scan_namespace_after_spec ns cursor limits s v Hrep) as [E R].
  unfold spec_scan_namespace_after in E, R. revert E R. run_store. rewrite Hv. cbn.
  destruct (page_loop_prefix limits [] 0
    (filter (λ e, after_cursor cursor e.1) (namespace_entries v ns))) as (l1 & l2 & El & -> & Hm).
  { done. }
  { apply list.Forall_forall. intros e [_ He]%list_elem_of_filter.
    by rewrite list.Forall_forall in Hall; apply Hall. }
  { destruct Hl. lia. }
  { done. }
  intros E R. destruct (scan_namespace_after ns cursor limits s) as [r s'] eqn:Es. cbn in *.
  exists l1, l2, s'. subst r. split_and!; [done..|]. intros Hne ->. by apply Hm in Hne.
Qed.

Lemma filter_next_cursor ns cursor v l1 e l2 :
  filter (λ e', after_cursor cursor e'.1) (namespace_entries v ns) = l1 ++ e :: l2 →
  filter (λ e', after_cursor (Some e.1) e'.1) (namespace_entries v ns) = l2.
Proof.
  intros El. pose proof (namespace_entries_sorted v ns) as Hs.
  apply (StronglySorted_filter _ (λ e', after_cursor cursor e'.1)) in Hs. rewrite El in Hs.
  rewrite <- (filter_after_cursor l1 e l2 Hs) at 1. rewrite <- El, list_filter_filter.
  apply list_filter_iff. intros e'. split; [|by intros [? _]]. intros He. split; [done|].
  assert (after_cursor cursor e.1) as Hc.
  { apply (list_elem_of_filter (λ e', after_cursor cursor e'.1) (namespace_entries v ns)).
    rewrite El. set_solver. }
  destruct cursor; cbn in *; [by etrans|done].
Qed.

Lemma scan_pages_rest {S} `{DurableStoreLaws S} fuel ns cursor limits (s : S) v :
  represents s v → valid_key (ns, default [] cursor) = true →
  page_limits_ok limits → Forall (admissible limits) (namespace_entries v ns) →
  (length (filter (λ e, after_cursor cursor e.1) (namespace_entries v ns)) < fuel)%nat →
  ∃ s', scan_pages fuel ns cursor limits s =
    (Ok (Some (to_record <$> filter (λ e, after_cursor cursor e.1) (namespace_entries v ns))), s')
    ∧ represents s' v.
Proof.
  revert cursor s. induction fuel as [|fuel IH]; intros cursor s Hrep Hv Hl Hall Hf; [lia|].
  destruct (page_request ns cursor limits s v Hrep Hv Hl Hall) as (l1 & l2 & s' & El & Es & Hr & Hm).
  rewrite El in *. cbn [scan_pages]. rewrite (store_bind_ok _ _ _ _ _ Es).
  cbn [page_has_more page_records]. case_bool_decide as Hne.
  - destruct (exists_last (Hm Hne)) as (l1' & e & ->).
    rewrite <- app_assoc in El, Hf. cbn [app] in El, Hf.
    assert (valid_key (ns, e.1) = true) as He.
    { destruct e as [k x]. apply (represents_valid s v ns k x Hrep), elem_of_namespace_entries.
      apply (list_elem_of_filter (λ e, after_cursor cursor e.1)). rewrite El. set_solver. }
    destruct (IH (Some e.1) s') as (s'' & Ep & Hr''); [done..| |].
    + rewrite (filter_next_cursor ns cursor v l1' e l2 El), length_app in *. cbn in Hf. lia.
    + rewrite (filter_next_cursor ns cursor v l1' e l2 El) in Ep.
      rewrite fmap_app. cbn [fmap list_fmap]. rewrite last_snoc. cbn [to_record nr_key].
      rewrite (store_bind_ok _ _ _ _ _ Ep). exists s''. split; [|done].
      unfold mret, store_ret. cbn. by rewrite !fmap_app.
  - subst l2. rewrite app_nil_r. by exists s'.
Qed.

(** Pagination is complete and exact. Against any store that keeps the
    contract, a client that asks for page after page, each time from the last
    key it got, obtains every record of the namespace exactly once and in key
    order, and the loop ends within one request per record, provided each
    record fits a page by itself. *)
Lemma scan_pages_complete {S} `{DurableStoreLaws S} ns limits (s : S) v :
  represents s v → valid_key (ns, []) = true → page_limits_ok limits →
  Forall (admissible limits) (namespace_entries v ns) →
  (scan_pages (Datatypes.S (length (namespace_entries v ns))) ns None limits s).1 =
  Ok (Some (to_record <$> namespace_entries v ns)).
Proof.
  intros Hrep Hv Hl Hall.
  assert (filter (λ e, after_cursor None e.1) (namespace_entries v ns) = namespace_entries v ns) as E.
  { clear. induction (namespace_entries v ns); [done|]. rewrite filter_cons_True by done. by f_equal. }
  destruct (scan_pages_rest (Datatypes.S (length (namespace_entries v ns))) ns None limits s v)
    as (s' & -> & _); [done..| |by rewrite E]. rewrite E. lia.
Qed.

(** Five records in two namespaces. *)
Definition demo_calls : list BatchOperation :=
  [BatchPut (str "a") (str "k3") [x03]; BatchPut (str "b") (str "k1") [x09];
   BatchPut (str "a") (str "k1") [x01]; BatchPut (str "a") (str "k2") [x02];
   BatchDelete (str "b") (str "k1")].

Lemma scan_pages_complete_witness :
  let s := (apply_batch demo_calls (∅ : MemoryStore)).2 in
  (scan_pages 4 (str "a") None (mkScanLimits 2 100 100) s).1 =
  Ok (Some [mkNamespaceRecord (str "k1") [x01]; mkNamespaceRecord (str "k2") [x02];
            mkNamespaceRecord (str "k3") [x03]]).
Proof.
  destruct (@apply_batch_spec MemoryStore _ MemoryStore_laws demo_calls ∅ ∅ mem_represents_empty) as [_ R].
  pose proof (scan_pages_complete (str "a") (mkScanLimits 2 100 100) _ _ R) as Hp.
  assert (namespace_entries (spec_apply_batch demo_calls ∅).2 (str "a") =
    [(str "k1", [x01]); (str "k2", [x02]); (str "k3", [x03])]) as E by (vm_compute; reflexivity).
  rewrite E in Hp. cbn zeta. etrans; [apply Hp|done].
  - by vm_compute.
  - unfold page_limits_ok. cbn. lia.
  - repeat constructor; by vm_compute.
Defined.
