(* ===== verification/Journal.v ===== *)
(** * The protocol journal and the signing guard
    (crates/meshmine-storage/src/lib.rs, [ProtocolJournal], [DurableSignGuard])

    Both are clients of the [DurableStore] contract. Each call they make to the
    store is one atomic step, and between any two calls other writers may run:
    [env n] is what they do before the [n]-th call. The theorems hold for every
    environment that keeps the discipline the code documents, that a journal
    record or a signing reservation, once present, is never changed.

    Hexadecimal keys come from the [hex] crate, a parameter of which the code
    relies on decoding being the inverse of encoding and on the alphabet. *)

From S2P Require Import Prelude Storage.

Inductive ProtocolRecordKind :=
| KindOperatorSequence
| KindPayoutBucket
| KindBodyPackage
| KindBodyValidation
| KindErasureDescriptor
| KindBodyShard
| KindParentCertificate
| KindMaskSession
| KindMpcTranscript
| KindOpeningShare
| KindAssignment
| KindGatewayAssignment
| KindGatewayContextManifest
| KindGatewayCaptureEnvelope
| KindGatewayCaptureReceipt
| KindGatewayAssignmentTransition
| KindGatewayAssignmentDrain
| KindCoreAssignmentDrainReceipt
| KindAcceptedShare
| KindAcceptedWorkKey
| KindReceiptBatch
| KindSessionClose
| KindPayoutSnapshot
| KindPayoutPlan
| KindPayoutRecoveryCheckpoint
| KindCanonicalPlanPayment.

#[export] Instance ProtocolRecordKind_eq_dec : EqDecision ProtocolRecordKind.
Proof. solve_decision. Defined.

Definition all_kinds : list ProtocolRecordKind :=
  [KindOperatorSequence; KindPayoutBucket; KindBodyPackage; KindBodyValidation;
   KindErasureDescriptor; KindBodyShard; KindParentCertificate; KindMaskSession;
   KindMpcTranscript; KindOpeningShare; KindAssignment; KindGatewayAssignment;
   KindGatewayContextManifest; KindGatewayCaptureEnvelope; KindGatewayCaptureReceipt;
   KindGatewayAssignmentTransition; KindGatewayAssignmentDrain;
   KindCoreAssignmentDrainReceipt; KindAcceptedShare; KindAcceptedWorkKey; KindReceiptBatch;
   KindSessionClose; KindPayoutSnapshot; KindPayoutPlan; KindPayoutRecoveryCheckpoint;
   KindCanonicalPlanPayment].

Definition kind_namespace (kind : ProtocolRecordKind) : bytes :=
  match kind with
  | KindOperatorSequence => str "journal/operator-sequence/v2"
  | KindPayoutBucket => str "journal/payout-bucket/v2"
  | KindBodyPackage => str "journal/body-package/v2"
  | KindBodyValidation => str "journal/body-validation/v2"
  | KindErasureDescriptor => str "journal/erasure-descriptor/v2"
  | KindBodyShard => str "journal/body-shard/v2"
  | KindParentCertificate => str "journal/parent-certificate/v2"
  | KindMaskSession => str "journal/mask-session/v2"
  | KindMpcTranscript => str "journal/mpc-transcript/v2"
  | KindOpeningShare => str "journal/opening-share/v2"
  | KindAssignment => str "journal/assignment/v2"
  | KindGatewayAssignment => str "journal/gateway-assignment/v1"
  | KindGatewayContextManifest => str "journal/gateway-context-manifest/v1"
  | KindGatewayCaptureEnvelope => str "journal/gateway-capture-envelope/v1"
  | KindGatewayCaptureReceipt => str "journal/gateway-capture-receipt/v1"
  | KindGatewayAssignmentTransition => str "journal/gateway-assignment-transition/v1"
  | KindGatewayAssignmentDrain => str "journal/gateway-assignment-drain/v1"
  | KindCoreAssignmentDrainReceipt => str "journal/core-assignment-drain-receipt/v1"
  | KindAcceptedShare => str "journal/accepted-share/v2"
  | KindAcceptedWorkKey => str "journal/accepted-work-key/v2"
  | KindReceiptBatch => str "journal/receipt-batch/v2"
  | KindSessionClose => str "journal/session-close/v2"
  | KindPayoutSnapshot => str "journal/payout-snapshot/v2"
  | KindPayoutPlan => str "journal/payout-plan/v2"
  | KindPayoutRecoveryCheckpoint => str "journal/payout-recovery-checkpoint/v1"
  | KindCanonicalPlanPayment => str "journal/canonical-plan-payment/v2"
  end.

Inductive DurableInvariantError :=
| DIE_Storage (e : StorageError)
| ImmutableConflict
| SupplementalJournalTarget
| EmptyJournalBatch
| DuplicateJournalKey
| ConflictingSignature
| InvalidRecoveryKey
| InvalidRecoveryPage.

Record JournalBatchRecord := mkJournalBatchRecord {
  jr_kind : ProtocolRecordKind;
  jr_durable_key : bytes;
  jr_value : bytes;
}.

Inductive JournalBatchOutcome := Committed | ExactRecord | PreconditionMismatch.

Record RecoveredProtocolRecord := mkRecoveredProtocolRecord {
  rr_kind : ProtocolRecordKind;
  rr_durable_key : bytes;
  rr_value : bytes;
}.

Record ProtocolRecovery := mkProtocolRecovery {
  pr_records : list RecoveredProtocolRecord;
  pr_total_value_bytes : Z;
  pr_total_scan_bytes : Z;
}.

Record ProtocolRecoveryPage := mkProtocolRecoveryPage {
  prp_recovery : ProtocolRecovery;
  prp_next_cursor : option bytes;
}.

(** [hex::encode] and [hex::decode]. *)
Class Hex := {
  hex_encode : bytes → bytes;
  hex_decode : bytes → option bytes;
}.
Class HexOk `{Hex} : Prop := {
  hex_decode_encode bs : hex_decode (hex_encode bs) = Some bs;
  hex_alphabet bs : Forall (λ b, b ≠ x00 ∧ b ≠ x2f) (hex_encode bs);
}.

(** ** Calls from a client among other writers *)

Section Client.
Context {S : Type} `{!DurableStore S} `{!Hex}.
(** What the other writers do before the client's [n]-th call. *)
Context (env : nat → S → S).

Definition client (A : Type) : Type := nat * S → result DurableInvariantError A * (nat * S).
#[global] Instance client_ret : MRet client := λ A a w, (Ok a, w).
#[global] Instance client_bind : MBind client := λ A B f m w,
  match m w with
  | (Ok a, w') => f a w'
  | (Err e, w') => (Err e, w')
  end.
Definition lift_client {A} (r : result DurableInvariantError A) : client A := λ w, (r, w).

(** One store call; a [StorageError] becomes a [DurableInvariantError]. *)
Definition store_call {A} (m : store_m S A) : client A := λ '(n, s),
  let '(r, s') := m (env n s) in (map_err DIE_Storage r, (Datatypes.S n, s')).

(** ** [ProtocolJournal] *)

Definition prepared_record : Type := bytes * bytes * bytes.

(** Namespace, hex key and value of each record; a repeated key is refused. *)
Definition prepare (records : list JournalBatchRecord) :
    result DurableInvariantError (list prepared_record) :=
  fold_result (λ prepared record,
    let namespace := kind_namespace record.(jr_kind) in
    let key := hex_encode record.(jr_durable_key) in
    if existsb (λ '(n, k, _), bool_decide (n = namespace) && bool_decide (k = key)) prepared
    then Err DuplicateJournalKey
    else Ok (prepared ++ [(namespace, key, record.(jr_value))])) [] records.

Definition targets_requested_record (prepared : list prepared_record) (target : bytes * bytes) :
    bool :=
  existsb (λ '(n, k, _), bool_decide (n = target.1) && bool_decide (k = target.2)) prepared.

Definition in_journal (namespace : bytes) : bool :=
  existsb (λ kind, bool_decide (kind_namespace kind = namespace)) all_kinds.

(** [inspect()]: which requested records are already there, exactly. *)
Fixpoint inspect (prepared : list prepared_record) : client (list bool) :=
  match prepared with
  | [] => mret []
  | (namespace, key, expected_value) :: prepared =>
      existing ← store_call (get namespace key);
      is_exact ← lift_client
        match existing with
        | None => Ok false
        | Some existing =>
            if bool_decide (existing = expected_value) then Ok true else Err ImmutableConflict
        end;
      exact ← inspect prepared;
      mret (is_exact :: exact)
  end.

Definition attempt_condition (p : prepared_record) (is_exact : bool) : BatchCondition :=
  let '(namespace, key, expected_value) := p in
  mkBatchCondition namespace key (if is_exact then Some expected_value else None).

(** [for _ in 0..=records.len()], with [attempts] iterations left. *)
Fixpoint attempt_loop (attempts : nat) (prepared : list prepared_record)
    (conditions : list BatchCondition) (operations : list BatchOperation) :
    client JournalBatchOutcome :=
  match attempts with
  | O => lift_client (Err (DIE_Storage (Backend
      (str "immutable journal conditions did not stabilize"))))
  | Datatypes.S attempts =>
      observed ← inspect prepared;
      applied ← store_call (apply_batch_if_all
        (conditions ++ zip_with attempt_condition prepared observed) operations);
      if applied : bool then mret Committed
      else
        after ← inspect prepared;
        if bool_decide (after = observed) then
          mret (if forallb id after then ExactRecord else PreconditionMismatch)
        else if existsb (λ '(was_exact, is_exact), was_exact && negb is_exact) (zip observed after)
        then lift_client (Err ImmutableConflict)
        else attempt_loop attempts prepared conditions operations
  end.

Definition persist_records_with_conditions_and_batch (records : list JournalBatchRecord)
    (conditions : list BatchCondition) (supplemental_operations : list BatchOperation) :
    client JournalBatchOutcome :=
  match records with
  | [] => lift_client (Err EmptyJournalBatch)
  | _ =>
      prepared ← lift_client (prepare records);
      if existsb (λ c, targets_requested_record prepared (condition_target c)) conditions
         || existsb (λ op, in_journal (operation_target op).1) supplemental_operations
      then lift_client (Err SupplementalJournalTarget)
      else
        let operations :=
          ((λ '(namespace, key, value), BatchPut namespace key value) <$> prepared)
          ++ supplemental_operations in
        attempt_loop (Datatypes.S (length records)) prepared conditions operations
  end.

Definition persist_with_conditions_and_batch (kind : ProtocolRecordKind)
    (durable_key value : bytes) (conditions : list BatchCondition)
    (supplemental_operations : list BatchOperation) : client JournalBatchOutcome :=
  persist_records_with_conditions_and_batch [mkJournalBatchRecord kind durable_key value]
    conditions supplemental_operations.

Definition persist_with_batch (kind : ProtocolRecordKind) (durable_key value : bytes)
    (supplemental_operations : list BatchOperation) : client unit :=
  outcome ← persist_with_conditions_and_batch kind durable_key value [] supplemental_operations;
  match outcome with
  | Committed | ExactRecord => mret tt
  | PreconditionMismatch => lift_client (Err ImmutableConflict)
  end.

Definition persist (kind : ProtocolRecordKind) (durable_key value : bytes) : client unit :=
  persist_with_batch kind durable_key value [].

Definition load (kind : ProtocolRecordKind) (durable_key : bytes) : client (option bytes) :=
  store_call (get (kind_namespace kind) (hex_encode durable_key)).

(** ** Recovery *)

(** One iteration: the recovery so far and the previous key. *)
Definition decode_step (kind : ProtocolRecordKind) (acc : ProtocolRecovery * option bytes)
    (record : NamespaceRecord) : result DurableInvariantError (ProtocolRecovery * option bytes) :=
  let '(recovery, previous_key) := acc in
  if match previous_key with
     | Some previous => bytes_leb record.(nr_key) previous
     | None => false
     end
  then Err InvalidRecoveryPage
  else
    durable_key ← ok_or (hex_decode record.(nr_key)) InvalidRecoveryKey;
    if bool_decide (hex_encode durable_key ≠ record.(nr_key)) then Err InvalidRecoveryKey
    else
      let key_bytes := len record.(nr_key) in
      let value_bytes := len record.(nr_value) in
      total_scan_bytes ← ok_or
        (total ← checked_add 64 recovery.(pr_total_scan_bytes) key_bytes;
         checked_add 64 total value_bytes) (DIE_Storage ScanLimit);
      total_value_bytes ← ok_or (checked_add 64 recovery.(pr_total_value_bytes) value_bytes)
        (DIE_Storage ScanLimit);
      Ok (mkProtocolRecovery
            (recovery.(pr_records)
             ++ [mkRecoveredProtocolRecord kind durable_key record.(nr_value)])
            total_value_bytes total_scan_bytes,
          Some record.(nr_key)).

Definition decode_protocol_records (kind : ProtocolRecordKind) (scanned : list NamespaceRecord) :
    result DurableInvariantError ProtocolRecovery :=
  acc ← fold_result (decode_step kind) (mkProtocolRecovery [] 0 0, None) scanned;
  Ok acc.1.

Definition recover_kind (kind : ProtocolRecordKind) (limits : ScanLimits) :
    client ProtocolRecovery :=
  scanned ← store_call (scan_namespace (kind_namespace kind) limits);
  lift_client (decode_protocol_records kind scanned).

Definition recover_kind_page (kind : ProtocolRecordKind) (exclusive_cursor : option bytes)
    (limits : ScanLimits) : client ProtocolRecoveryPage :=
  let encoded_cursor := hex_encode <$> exclusive_cursor in
  page ← store_call (scan_namespace_after (kind_namespace kind) encoded_cursor limits);
  if page.(page_has_more) && (len page.(page_records) =? 0)
  then lift_client (Err InvalidRecoveryPage)
  else if match encoded_cursor, head page.(page_records) with
          | Some cursor, Some record => bytes_leb record.(nr_key) cursor
          | _, _ => false
          end
  then lift_client (Err InvalidRecoveryPage)
  else
    recovery ← lift_client (decode_protocol_records kind page.(page_records));
    next_cursor ← lift_client
      (if page.(page_has_more)
       then last ← ok_or (last recovery.(pr_records)) InvalidRecoveryPage;
            Ok (Some last.(rr_durable_key))
       else Ok None);
    mret (mkProtocolRecoveryPage recovery next_cursor).

(** The loop of [recover_all] over the kinds still to be read. *)
Fixpoint recover_kinds (kinds : list ProtocolRecordKind) (limits : ScanLimits)
    (acc : ProtocolRecovery) : client ProtocolRecovery :=
  match kinds with
  | [] => mret acc
  | kind :: kinds =>
      remaining_records ← lift_client (ok_or
        (checked_sub limits.(maximum_records) (len acc.(pr_records))) (DIE_Storage ScanLimit));
      remaining_bytes ← lift_client (ok_or
        (checked_sub limits.(maximum_total_bytes) acc.(pr_total_scan_bytes))
        (DIE_Storage ScanLimit));
      recovered ← recover_kind kind
        (mkScanLimits remaining_records limits.(maximum_value_bytes) remaining_bytes);
      total_scan_bytes ← lift_client (ok_or
        (checked_add 64 acc.(pr_total_scan_bytes) recovered.(pr_total_scan_bytes))
        (DIE_Storage ScanLimit));
      total_value_bytes ← lift_client (ok_or
        (checked_add 64 acc.(pr_total_value_bytes) recovered.(pr_total_value_bytes))
        (DIE_Storage ScanLimit));
      recover_kinds kinds limits
        (mkProtocolRecovery (acc.(pr_records) ++ recovered.(pr_records))
           total_value_bytes total_scan_bytes)
  end.
Definition recover_all (limits : ScanLimits) : client ProtocolRecovery :=
  recover_kinds all_kinds limits (mkProtocolRecovery [] 0 0).

(** ** [DurableSignGuard] *)

(** [{sequence}]: the decimal digits of a [u64], of which there are at most 20. *)
Fixpoint decimal_digits (fuel : nat) (z : Z) : bytes :=
  match fuel with
  | O => []
  | Datatypes.S fuel =>
      z2b (48 + z mod 10) :: if z / 10 =? 0 then [] else decimal_digits fuel (z / 10)
  end.
Definition format_u64 (z : Z) : bytes := reverse (decimal_digits 20 z).

(** [format!("{role}/{}/{sequence}", hex::encode(scope))] *)
Definition sign_guard_key (role scope : bytes) (sequence : Z) : bytes :=
  role ++ str "/" ++ hex_encode scope ++ str "/" ++ format_u64 sequence.

Definition SIGN_GUARD : bytes := str "sign-guard/v2".

Definition authorize (role scope : bytes) (sequence : Z) (object_id : bytes) : client unit :=
  if contains_nul role then lift_client (Err (DIE_Storage InvalidKey))
  else
    let key := sign_guard_key role scope sequence in
    reserved ← store_call (put_if_absent SIGN_GUARD key object_id);
    if reserved : bool then mret tt
    else
      existing ← store_call (get SIGN_GUARD key);
      lift_client match existing with
        | Some existing =>
            if bool_decide (existing = object_id) then Ok tt else Err ConflictingSignature
        | None => Err ConflictingSignature
        end.
End Client.

(** ** Immutability *)

(** Nothing in a journal namespace is changed or removed. *)
Definition journal_le (v v' : View) : Prop :=
  ∀ ns k x, in_journal ns = true → v !! (ns, k) = Some x → v' !! (ns, k) = Some x.

#[export] Instance journal_le_preorder : PreOrder journal_le.
Proof. split; [by intros v ns k x|]. intros v1 v2 v3 H12 H23 ns k x Hj Hx. by apply H23, H12. Qed.

Definition put_of (p : prepared_record) : BatchOperation :=
  let '(namespace, key, value) := p in BatchPut namespace key value.

(** What [prepare] establishes: journal targets with valid keys, no two equal. *)
Definition prepared_ok (prepared : list prepared_record) : Prop :=
  Forall (λ p, in_journal p.1.1 = true ∧ valid_key p.1 = true) prepared ∧ NoDup prepared.*1.

Definition all_present (v : View) (prepared : list prepared_record) : Prop :=
  ∀ p, p ∈ prepared → v !! p.1 = Some p.2.

Lemma view_apply_app v ops1 ops2 : view_apply v (ops1 ++ ops2) = view_apply (view_apply v ops1) ops2.
Proof. apply foldl_app. Qed.

Lemma view_apply_other v ops t :
  t ∉ operation_target <$> ops → view_apply v ops !! t = v !! t.
Proof.
  revert v. induction ops as [|op ops IH]; intros v Ht; [done|].
  rewrite fmap_cons, not_elem_of_cons in Ht. destruct Ht as [Hop Ht].
  change (view_apply v (op :: ops)) with (view_apply (view_apply v [op]) ops).
  rewrite IH by done. destruct op; cbn in *.
  - by rewrite lookup_insert_ne.
  - by rewrite lookup_delete_ne.
Qed.

Lemma targets_put_of prepared : operation_target <$> (put_of <$> prepared) = prepared.*1.
Proof. induction prepared as [|[[n k] x] prepared IH]; cbn; by rewrite ?IH. Qed.

Lemma view_apply_puts v prepared :
  NoDup prepared.*1 → all_present (view_apply v (put_of <$> prepared)) prepared.
Proof.
  revert v. induction prepared as [|[[n k] x] prepared IH]; intros v Hnd p Hp; [set_solver|].
  cbn in Hnd. apply NoDup_cons in Hnd as [Hn Hnd]. apply elem_of_cons in Hp as [->|Hp].
  - cbn. etrans; [apply (view_apply_other _ (put_of <$> prepared))|].
    + by rewrite targets_put_of.
    + apply lookup_insert_eq.
  - by apply IH.
Qed.

Lemma supplemental_not_journal supp ns k :
  existsb (λ op, in_journal (operation_target op).1) supp = false → in_journal ns = true →
  (ns, k) ∉ operation_target <$> supp.
Proof.
  intros Hs Hj (op & E & Hop)%list_elem_of_fmap.
  assert (existsb (λ op, in_journal (operation_target op).1) supp = true); [|congruence].
  apply existsb_exists. exists op. rewrite <- E. split; [by apply list_elem_of_In|done].
Qed.

Section BatchEffect.
Context (prepared : list prepared_record) (supp : list BatchOperation).
Hypothesis Hprep : prepared_ok prepared.
Hypothesis Hsupp : existsb (λ op, in_journal (operation_target op).1) supp = false.

(** After the batch every requested record is present. *)
Lemma batch_present v : all_present (view_apply v ((put_of <$> prepared) ++ supp)) prepared.
Proof.
  destruct Hprep as [Hall Hnd]. intros p Hp. rewrite view_apply_app, view_apply_other.
  - by apply view_apply_puts.
  - rewrite list.Forall_forall in Hall. destruct (Hall p Hp) as [Hj _].
    destruct p as [[n k] x]. by apply supplemental_not_journal.
Qed.

(** It keeps the journal if every requested record was absent or exact. *)
Lemma batch_journal_le v :
  (∀ p x, p ∈ prepared → v !! p.1 = Some x → x = p.2) →
  journal_le v (view_apply v ((put_of <$> prepared) ++ supp)).
Proof.
  intros Hold ns k x Hj Hx. rewrite view_apply_app, view_apply_other
    by (by apply supplemental_not_journal).
  destruct (decide ((ns, k) ∈ prepared.*1)) as [Hin|Hin].
  - apply list_elem_of_fmap in Hin as (p & E & Hp). rewrite E in *.
    rewrite (view_apply_puts v prepared (proj2 Hprep) p Hp). f_equal. symmetry. by apply Hold.
  - by rewrite view_apply_other by (by rewrite targets_put_of).
Qed.
End BatchEffect.

Lemma in_journal_kind kind : in_journal (kind_namespace kind) = true.
Proof. by destruct kind; vm_compute. Qed.

Lemma kind_namespace_nul kind : x00 ∉ kind_namespace kind.
Proof. apply contains_nul_false. by destruct kind; vm_compute. Qed.

Lemma hex_encode_nul `{HexOk} bs : x00 ∉ hex_encode bs.
Proof. intros Hin. pose proof (hex_alphabet bs) as Ha. rewrite list.Forall_forall in Ha. by apply Ha in Hin as [? _]. Qed.

Lemma valid_journal_key `{HexOk} kind durable_key :
  valid_key (kind_namespace kind, hex_encode durable_key) = true.
Proof. apply valid_key_spec. split; [apply kind_namespace_nul|apply hex_encode_nul]. Qed.

(** The namespace, key and value a record is stored as. *)
Definition prepared_of `{Hex} (r : JournalBatchRecord) : prepared_record :=
  (kind_namespace r.(jr_kind), hex_encode r.(jr_durable_key), r.(jr_value)).

Lemma existsb_target prepared (t : bytes * bytes) :
  existsb (λ '(n, k, _), bool_decide (n = t.1) && bool_decide (k = t.2)) prepared = false →
  t ∉ (prepared : list prepared_record).*1.
Proof.
  intros He (p & E & Hp)%list_elem_of_fmap.
  assert (existsb (λ '(n, k, _), bool_decide (n = t.1) && bool_decide (k = t.2)) prepared = true);
    [|congruence].
  apply existsb_exists. exists p. split; [by apply list_elem_of_In|].
  destruct p as [[n k] x]. cbn in E. subst t. by rewrite !bool_decide_eq_true_2.
Qed.

Lemma prepare_spec `{HexOk} records prepared :
  prepare records = Ok prepared → prepared = prepared_of <$> records ∧ prepared_ok prepared.
Proof.
  unfold prepare. set (f := λ _ _, _).
  assert (∀ acc out, prepared_ok acc → fold_result f acc records = Ok out →
    out = acc ++ (prepared_of <$> records) ∧ prepared_ok out) as Hgen.
  { induction records as [|r records IH]; intros acc out Hacc; cbn [fold_result].
    - intros [= <-]. by rewrite app_nil_r.
    - rewrite bind_ok. intros (acc' & Hr & Hf). unfold f in Hr. cbn in Hr. inv_ok. subst acc'.
      apply IH in Hf as [-> Hok].
      + split; [|done]. by rewrite <- app_assoc.
      + destruct Hacc as [Hall Hnd]. split.
        * apply Forall_app. split; [done|]. repeat constructor; cbn.
          -- apply in_journal_kind.
          -- apply valid_journal_key.
        * rewrite fmap_app. apply NoDup_app. split_and!; [done| |apply NoDup_singleton].
          intros t Ht ->%list_elem_of_singleton.
          by apply (existsb_target acc (kind_namespace (jr_kind r), hex_encode (jr_durable_key r))). }
  intros Hf. apply Hgen in Hf as [-> ?]; [done|]. split; [constructor|]. constructor.
Qed.

(** Records with distinct targets are prepared. *)
Lemma prepare_complete `{HexOk} records :
  NoDup (prepared_of <$> records).*1 → prepare records = Ok (prepared_of <$> records).
Proof.
  intros Hnd. unfold prepare. set (f := λ _ _, _).
  assert (∀ acc, NoDup (acc ++ (prepared_of <$> records)).*1 →
    fold_result f acc records = Ok (acc ++ (prepared_of <$> records))) as Hgen; [|by apply (Hgen [])].
  clear Hnd. induction records as [|r records IH]; intros acc Hnd; cbn [fold_result fmap list_fmap].
  { by rewrite app_nil_r. }
  assert (f acc r = Ok (acc ++ [prepared_of r])) as ->.
  { unfold f, prepared_of. destruct (existsb _ acc) eqn:Ee; [|done]. exfalso.
    apply existsb_exists in Ee as ([[ns k] x] & Hin & Eq).
    rewrite andb_true_iff, !bool_decide_eq_true in Eq. destruct Eq as [-> ->].
    rewrite fmap_app in Hnd. apply NoDup_app in Hnd as (_ & Hdis & _).
    apply (Hdis (kind_namespace (jr_kind r), hex_encode (jr_durable_key r))); [|left].
    apply list_elem_of_fmap. eexists (_, _, x). split; [done|by apply list_elem_of_In]. }
  rewrite fmap_cons, cons_middle, app_assoc in Hnd. cbn. rewrite IH by done.
  by rewrite <- app_assoc.
Qed.

(** ** Counting exact records *)

Definition count_true (bs : list bool) : nat := length (filter (λ b, b = true) bs).

Lemma count_true_length bs : (count_true bs ≤ length bs)%nat.
Proof. apply length_filter. Qed.

Lemma count_true_cons b bs : count_true (b :: bs) = ((if b then 1 else 0) + count_true bs)%nat.
Proof. unfold count_true. rewrite filter_cons. by destruct b. Qed.

(** Bits that only turn on: the count grows, strictly if something changed. *)
Lemma count_true_mono bs bs' :
  Forall2 (λ b b' : bool, b = true → b' = true) bs bs' →
  (count_true bs ≤ count_true bs')%nat ∧ (bs ≠ bs' → count_true bs < count_true bs')%nat.
Proof.
  induction 1 as [|b b' bs bs' Hb _ [IH1 IH2]]; [done|]. rewrite !count_true_cons.
  destruct b, b'; cbn; naive_solver lia.
Qed.

(** A [get] among writers that respect the relation [R]. *)
Lemma get_call_among {S} `{!DurableStore S, !DurableStoreLaws S} (env : nat → S → S)
    (R : View → View → Prop) ns k n s v :
  (∀ n s v, represents s v → ∃ v', represents (env n s) v' ∧ R v v') →
  represents s v → valid_key (ns, k) = true →
  ∃ v1 s', store_call env (get ns k) (n, s) = (Ok (v1 !! (ns, k)), (Datatypes.S n, s')) ∧
    represents s' v1 ∧ R v v1.
Proof.
  intros Henv Hrep Hv. destruct (Henv n s v Hrep) as (v1 & Hrep1 & Hle).
  destruct (get_spec ns k _ _ Hrep1) as [E HR]. revert E HR.
  unfold spec_get. run_store. rewrite Hv. cbn. intros E HR.
  exists v1. unfold store_call. destruct (get ns k (env n s)) as [r s'] eqn:Eg. cbn in *.
  exists s'. by rewrite E.
Qed.

(** A [put_if_absent] among such writers. *)
Lemma reserve_call {S} `{!DurableStore S, !DurableStoreLaws S} (env : nat → S → S)
    (R : View → View → Prop) ns key id n s v :
  (∀ n s v, represents s v → ∃ v', represents (env n s) v' ∧ R v v') →
  represents s v → valid_key (ns, key) = true →
  ∃ v1 s' b, store_call env (put_if_absent ns key id) (n, s) = (Ok b, (Datatypes.S n, s')) ∧
    R v v1 ∧
    if b : bool then v1 !! (ns, key) = None ∧ represents s' (<[(ns, key) := id]> v1)
    else is_Some (v1 !! (ns, key)) ∧ represents s' v1.
Proof.
  intros Henv Hrep Hv. destruct (Henv n s v Hrep) as (v1 & Hrep1 & Hle).
  destruct (compare_and_swap_spec ns key None id _ _ Hrep1) as [E HR]. revert E HR.
  unfold spec_compare_and_swap, spec_apply_batch_if_all. run_store.
  unfold condition_target. cbn -[valid_key]. rewrite Hv. cbn. unfold condition_holds. cbn.
  intros E HR. exists v1. unfold store_call, put_if_absent.
  destruct (compare_and_swap ns key None id (env n s)) as [r s'] eqn:Eg. cbn in E, HR.
  case_bool_decide as Hn; cbn in *; subst r; eexists s', _; (split; [done|]); split; try done.
  split; [|done]. by apply not_eq_None_Some.
Qed.

Definition batch_keys_valid (cs : list BatchCondition) (ops : list BatchOperation) : bool :=
  forallb valid_key (condition_target <$> cs) && forallb valid_key (operation_target <$> ops).

(** What a conditional batch that met the view [v1] returns and leaves. *)
Definition batch_result {S} `{!DurableStore S, !DurableStoreLaws S} (cs : list BatchCondition)
    (ops : list BatchOperation) (v1 : View) (s' : S) (r : result DurableInvariantError bool) : Prop :=
  r = Err (DIE_Storage InvalidKey) ∧ batch_keys_valid cs ops = false ∧ represents s' v1 ∨
  r = Ok true ∧ forallb (condition_holds v1) cs = true ∧ represents s' (view_apply v1 ops) ∨
  r = Ok false ∧ forallb (condition_holds v1) cs = false ∧ represents s' v1.

(** A conditional batch among such writers. *)
Lemma batch_call_among {S} `{!DurableStore S, !DurableStoreLaws S} (env : nat → S → S)
    (R : View → View → Prop) cs ops n s v :
  (∀ n s v, represents s v → ∃ v', represents (env n s) v' ∧ R v v') →
  represents s v →
  ∃ v1 s' r, store_call env (apply_batch_if_all cs ops) (n, s) = (r, (Datatypes.S n, s')) ∧
    R v v1 ∧ batch_result cs ops v1 s' r.
Proof.
  intros Henv Hrep. destruct (Henv n s v Hrep) as (v1 & Hrep1 & Hle).
  destruct (apply_batch_if_all_spec cs ops _ _ Hrep1) as [E HR]. revert E HR.
  unfold spec_apply_batch_if_all. run_store. intros E HR. exists v1.
  unfold store_call. destruct (apply_batch_if_all cs ops (env n s)) as [r s'] eqn:Eg. cbn in E, HR.
  exists s', (map_err DIE_Storage r). split; [done|]. split; [done|].
  unfold batch_result, batch_keys_valid.
  destruct (forallb valid_key (condition_target <$> cs)); [|left; by rewrite E].
  destruct (forallb valid_key (operation_target <$> ops)); [|left; by rewrite E].
  destruct (forallb (condition_holds v1) cs); cbn in *; right; [left|right]; by rewrite E.
Qed.

(** When the conditions on the requested records hold, each record is absent or exact. *)
Lemma attempt_conditions_exact v1 prepared bs :
  length prepared = length bs →
  forallb (condition_holds v1) (zip_with attempt_condition prepared bs) = true →
  ∀ p x, p ∈ prepared → v1 !! p.1 = Some x → x = p.2.
Proof.
  revert bs. induction prepared as [|[[ns k] y] prepared IH]; intros [|b bs] Hl Hc p x Hp Hx;
    cbn in *; try done; [set_solver|].
  apply andb_true_iff in Hc as [Hh Hc]. apply elem_of_cons in Hp as [->|Hp].
  - apply bool_decide_eq_true in Hh. unfold condition_target in Hh. cbn in *. destruct b; congruence.
  - apply (IH bs); [lia|done..].
Qed.

Section Rely.
Context {S : Type} `{!DurableStore S, !DurableStoreLaws S} `{HexOk}.
Context (env : nat → S → S) (R : relation View) `{!PreOrder R}.
(** The other writers keep the store lawful and respect [R], an order under which no
    journal record changes. With [R] as equality there are no other writers. *)
Hypothesis env_R : ∀ n s v, represents s v → ∃ v', represents (env n s) v' ∧ R v v'.
Hypothesis R_journal : ∀ v v', R v v' → journal_le v v'.

(** The bit of a record that was inspected between the views [v] and [v']. *)
Definition inspected (v v' : View) (p : prepared_record) (b : bool) : Prop :=
  in_journal p.1.1 = true ∧ if b then v' !! p.1 = Some p.2 else v !! p.1 = None.

Lemma inspected_earlier v0 v v' p b : journal_le v0 v → inspected v v' p b → inspected v0 v' p b.
Proof.
  intros Hle [Hj Hb]. split; [done|]. destruct b; [done|]. destruct p as [[ns k] x]. cbn in *.
  destruct (v0 !! (ns, k)) as [z|] eqn:Ez; [|done]. apply Hle in Ez; [|done]. congruence.
Qed.

(** What [inspect] learns: exact records are there when it returns, missing
    ones were not there when it was called. *)
Lemma inspect_spec prepared n s v :
  represents s v → Forall (λ p, in_journal p.1.1 = true ∧ valid_key p.1 = true) prepared →
  ∃ r n' s' v', inspect env prepared (n, s) = (r, (n', s')) ∧ represents s' v' ∧ R v v' ∧
    match r with
    | Ok bs => Forall2 (inspected v v') prepared bs
    | Err e => e = ImmutableConflict ∧ ∃ p x, p ∈ prepared ∧ v' !! p.1 = Some x ∧ x ≠ p.2
    end.
Proof.
  intros Hrep Hall. revert n s v Hrep.
  induction Hall as [|[[ns k] x] prepared [Hj Hv] _ IH]; intros n s v Hrep.
  - exists (Ok []), n, s, v. by split_and!.
  - cbn [fst snd] in Hj, Hv. destruct (get_call_among env R ns k n s v env_R Hrep Hv) as (v1 & s1 & Eg & Hrep1 & Hle1).
    cbn [inspect]. unfold mbind, client_bind. rewrite Eg. unfold lift_client.
    destruct (v1 !! (ns, k)) as [y|] eqn:Ey; [case_bool_decide as Exy; [subst y|]|].
    + destruct (IH (Datatypes.S n) s1 v1 Hrep1) as (r & n' & s' & v' & -> & Hrep' & Hle' & Hr).
      destruct r as [bs|e].
      * exists (Ok (true :: bs)), n', s', v'. split_and!; [done..|by etrans|].
        constructor; [split; [done|by eapply R_journal]|]. eapply Forall2_impl; [exact Hr|].
        intros p b. by apply inspected_earlier, R_journal.
      * exists (Err e), n', s', v'. do 2 (split; [done|]). split; [by etrans|].
        destruct Hr as (-> & p & y & Hp & Hy & Hne). split; [done|]. exists p, y. set_solver.
    + exists (Err ImmutableConflict), (Datatypes.S n), s1, v1. do 3 (split; [done|]).
      split; [done|]. exists (ns, k, x), y. split_and!; [left|done..].
    + destruct (IH (Datatypes.S n) s1 v1 Hrep1) as (r & n' & s' & v' & -> & Hrep' & Hle' & Hr).
      destruct r as [bs|e].
      * exists (Ok (false :: bs)), n', s', v'. split_and!; [done..|by etrans|].
        constructor; [eapply (inspected_earlier _ v1); [by apply R_journal|by split]|].
        eapply Forall2_impl; [exact Hr|]. intros p b. by apply inspected_earlier, R_journal.
      * exists (Err e), n', s', v'. do 2 (split; [done|]). split; [by etrans|].
        destruct Hr as (-> & p & y & Hp & Hy & Hne). split; [done|]. exists p, y. set_solver.
Qed.

(** No requested record is present with other bytes. *)
Definition none_conflicting (prepared : list prepared_record) (v : View) : Prop :=
  ∀ p x, p ∈ prepared → v !! p.1 = Some x → x = p.2.

(** What a persist attempt that started in view [v] and ended in [v'] means. Only
    [Committed] writes: its whole batch, at one moment, to a view that met all
    conditions. In every other case the other writers alone led from [v] to [v']. *)
Definition persisted (prepared : list prepared_record) (conditions : list BatchCondition)
    (operations : list BatchOperation) (v v' : View)
    (r : result DurableInvariantError JournalBatchOutcome) : Prop :=
  match r with
  | Ok Committed =>
      ∃ v0, R v v0 ∧ forallb (condition_holds v0) conditions = true ∧
            none_conflicting prepared v0 ∧ v' = view_apply v0 operations
  | Ok ExactRecord =>
      ∃ v0, R v v0 ∧ R v0 v' ∧ forallb (condition_holds v0) conditions = false ∧
            all_present v0 prepared
  | Ok PreconditionMismatch =>
      ∃ v0, R v v0 ∧ R v0 v' ∧ forallb (condition_holds v0) conditions = false ∧
            none_conflicting prepared v0 ∧ ∃ p, p ∈ prepared ∧ v0 !! p.1 = None
  | Err ImmutableConflict => R v v' ∧ ∃ p x, p ∈ prepared ∧ v' !! p.1 = Some x ∧ x ≠ p.2
  | Err e => R v v' ∧ e = DIE_Storage InvalidKey ∧ batch_keys_valid conditions operations = false
  end.

Lemma persisted_earlier prepared cs ops v0 v v' r :
  R v0 v → persisted prepared cs ops v v' r → persisted prepared cs ops v0 v' r.
Proof.
  intros Hle. destruct r as [[]|[]]; cbn.
  1-3: intros (v1 & ? & ?); exists v1; split; [by etrans|done].
  all: intros [? ?]; split; [by etrans|done].
Qed.

(** The conditions on the requested records hold at the attempt. *)
Lemma attempt_conditions_hold v1 prepared bs :
  Forall2 (λ p (b : bool), if b then v1 !! p.1 = Some p.2 else v1 !! p.1 = None) prepared bs →
  forallb (condition_holds v1) (zip_with attempt_condition prepared bs) = true.
Proof.
  induction 1 as [|[[ns k] x] b prepared bs Hb _ IH]; cbn; [done|].
  rewrite IH, andb_true_r. apply bool_decide_eq_true. unfold condition_target.
  by destruct b.
Qed.

Lemma existsb_lost_bit observed after :
  Forall2 (λ b b' : bool, b = true → b' = true) observed after →
  existsb (λ '(was_exact, is_exact), was_exact && negb is_exact) (zip observed after) = false.
Proof.
  induction 1 as [|b b' observed after Hb _ IH]; cbn; [done|]. rewrite IH, orb_false_r.
  destruct b, b'; naive_solver.
Qed.

(** Records known to be exact in [v]; an inspection from [v] on finds them. *)
Definition known_exact (v : View) (p : prepared_record) (b : bool) : Prop :=
  b = true → v !! p.1 = Some p.2.

Lemma inspected_known v v1 prepared known observed :
  Forall2 (known_exact v) prepared known → Forall2 (inspected v v1) prepared observed →
  Forall2 (λ b b' : bool, b = true → b' = true) known observed.
Proof.
  intros Hk Ho. eapply (Forall2_trans _ (inspected v v1)); [|by apply Forall2_flip|exact Ho].
  intros b p b' Hb [_ Hb'] ->. cbn in Hb. destruct b'; [done|]. rewrite Hb in Hb' by done. done.
Qed.

Lemma inspected_exact v v1 v2 prepared observed :
  journal_le v1 v2 → Forall2 (inspected v v1) prepared observed →
  Forall2 (known_exact v2) prepared observed.
Proof.
  intros Hle Ho. eapply Forall2_impl; [exact Ho|]. intros [[ns k] x] b [Hj Hb] ->. by apply Hle.
Qed.

(** Two inspections around a refused attempt that agree: the requested records
    satisfied their conditions at the attempt. *)
Lemma stable_inspection_conditions v v1 v2 v3 prepared observed :
  journal_le v1 v2 → Forall2 (inspected v v1) prepared observed →
  Forall2 (inspected v2 v3) prepared observed →
  forallb (condition_holds v2) (zip_with attempt_condition prepared observed) = true.
Proof.
  intros Hle Ho Ha. apply attempt_conditions_hold.
  assert (Forall2 (known_exact v2) prepared observed) as Hk by (by eapply inspected_exact).
  clear Ho. induction Ha as [|p b prepared observed [_ Hb] _ IH]; [constructor|].
  inversion Hk; subst. constructor; [|by apply IH]. destruct b; auto.
Qed.

Lemma forallb_app_false {A} (f : A → bool) l1 l2 :
  forallb f (l1 ++ l2) = false → forallb f l2 = true → forallb f l1 = false.
Proof. rewrite forallb_app. intros Hf E. by rewrite E, andb_true_r in Hf. Qed.

(** What a refused attempt with stable inspections returns. *)
Lemma stable_outcome v v1 v2 v3 prepared observed cs ops :
  R v v1 → R v1 v2 → R v2 v3 →
  Forall2 (inspected v v1) prepared observed → Forall2 (inspected v2 v3) prepared observed →
  forallb (condition_holds v2) (cs ++ zip_with attempt_condition prepared observed) = false →
  persisted prepared cs ops v v3 (Ok (if forallb id observed then ExactRecord else PreconditionMismatch)).
Proof.
  intros H01 H12 H23 Ho Ha Hc.
  assert (forallb (condition_holds v2) (zip_with attempt_condition prepared observed) = true) as Hj
    by (eapply stable_inspection_conditions; [by apply R_journal|done..]).
  apply forallb_app_false in Hc; [|done].
  assert (Forall2 (known_exact v2) prepared observed) as Hk by (eapply inspected_exact; [by apply R_journal|done]).
  destruct (forallb id observed) eqn:Eall; cbn; exists v2; (split; [by etrans|]); (split; [done|]); (split; [done|]).
  - intros p [i Hi]%list_elem_of_lookup. destruct (Forall2_lookup_l _ _ _ _ _ Hk Hi) as (b & Hb & Hex). apply Hex.
    rewrite forallb_forall in Eall. apply (Eall b). by apply list_elem_of_In, (list_elem_of_lookup_2 _ i).
  - split; [exact (attempt_conditions_exact v2 _ observed (Forall2_length _ _ _ Ho) Hj)|]. clear Ho Hc Hj Hk.
    induction Ha as [|q b prepared observed [_ Hb] _ IH]; [done|]. cbn in Eall.
    destruct b; cbn in Eall; [|exists q; split; [left|done]].
    destruct (IH Eall) as (p & Hp & ?). exists p. split; [by right|done].
Qed.

Lemma attempt_keys_valid prepared bs cs ops :
  Forall (λ p, in_journal p.1.1 = true ∧ valid_key p.1 = true) prepared →
  length prepared = length bs →
  batch_keys_valid (cs ++ zip_with attempt_condition prepared bs) ops = batch_keys_valid cs ops.
Proof.
  intros Hall Hl. unfold batch_keys_valid. f_equal.
  assert (forallb valid_key (condition_target <$> zip_with attempt_condition prepared bs) = true) as E.
  { revert bs Hl. induction Hall as [|[[ns k] x] prepared [_ Hv] _ IH]; intros [|b bs] Hl; try done.
    cbn in *. rewrite IH by lia. rewrite andb_true_r. apply Hv. }
  by rewrite fmap_app, forallb_app, E, andb_true_r.
Qed.

Lemma attempt_loop_spec attempts prepared cs supp n s v known :
  represents s v → prepared_ok prepared →
  existsb (λ op, in_journal (operation_target op).1) supp = false →
  Forall2 (known_exact v) prepared known →
  (length prepared < count_true known + attempts)%nat →
  let ops := (put_of <$> prepared) ++ supp in
  ∃ r n' s' v', attempt_loop env attempts prepared cs ops (n, s) = (r, (n', s')) ∧
    represents s' v' ∧ persisted prepared cs ops v v' r.
Proof.
  intros Hrep Hprep Hsupp. cbn zeta. set (ops := _ ++ supp).
  revert n s v known Hrep. induction attempts as [|attempts IH]; intros n s v known Hrep Hk Hc.
  { pose proof (count_true_length known). apply Forall2_length in Hk. lia. }
  cbn [attempt_loop]. unfold mbind, client_bind.
  destruct (inspect_spec prepared n s v Hrep (proj1 Hprep))
    as (r1 & n1 & s1 & v1 & -> & Hrep1 & H01 & Hr1).
  destruct r1 as [observed|e]; [|destruct Hr1 as [-> ?]; by eexists _, n1, s1, v1].
  destruct (batch_call_among env R (cs ++ zip_with attempt_condition prepared observed) ops n1 s1 v1 env_R Hrep1)
    as (v2 & s2 & r2 & -> & H12 & Hr2).
  destruct Hr2 as [(-> & Hbad & Hrep2)|[(-> & Hcond & Hrep2)|(-> & Hcond & Hrep2)]].
  - eexists _, _, s2, v2. split; [done|]. split; [done|]. split; [by etrans|].
    split; [done|]. rewrite <- Hbad. symmetry. apply attempt_keys_valid; [apply Hprep|by eapply Forall2_length].
  - pose proof Hcond as Hcond'. rewrite forallb_app in Hcond'. apply andb_true_iff in Hcond' as [Hext Hj].
    eexists _, _, s2, _. split; [done|]. split; [done|].
    exists v2. split; [by etrans|]. split; [done|]. split; [|done].
    exact (attempt_conditions_exact v2 _ observed (Forall2_length _ _ _ Hr1) Hj).
  - destruct (inspect_spec prepared (Datatypes.S n1) s2 v2 Hrep2 (proj1 Hprep))
      as (r3 & n3 & s3 & v3 & -> & Hrep3 & H23 & Hr3).
    assert (R v v3) as H03 by (by do 2 (etrans; [done|])).
    destruct r3 as [after|e]; [|destruct Hr3 as [-> ?]; by eexists _, n3, s3, v3].
    case_bool_decide as Eobs.
    + subst after. eexists _, n3, s3, v3. split; [done|]. split; [done|].
      by eapply (stable_outcome v v1 v2 v3).
    + pose proof (inspected_known v2 v3 prepared observed after
        (inspected_exact v v1 v2 prepared observed (R_journal _ _ H12) Hr1) Hr3) as Hmono.
      rewrite existsb_lost_bit by done.
      destruct (count_true_mono _ _ Hmono) as [_ Hlt].
      destruct (count_true_mono _ _ (inspected_known v v1 prepared known observed Hk Hr1)) as [Hle _].
      destruct (IH n3 s3 v3 after Hrep3) as (r & n' & s' & v' & -> & ? & ?).
      { by eapply (inspected_exact v2 v3). }
      { assert (observed ≠ after) by congruence. specialize (Hlt ltac:(done)). lia. }
      eexists r, n', s', v'. split; [done|]. split; [done|]. by eapply (persisted_earlier _ _ _ v v3).
Qed.

(** A request the journal does not refuse outright. *)
Definition well_formed_request (records : list JournalBatchRecord)
    (conditions : list BatchCondition) (supp : list BatchOperation) : Prop :=
  records ≠ [] ∧ NoDup (prepared_of <$> records).*1 ∧
  existsb (λ c, targets_requested_record (prepared_of <$> records) (condition_target c)) conditions
    = false ∧
  existsb (λ op, in_journal (operation_target op).1) supp = false.
#[export] Instance well_formed_request_dec records cs supp :
  Decision (well_formed_request records cs supp).
Proof. unfold well_formed_request. solve_decision. Defined.

(** The refusals of the journal itself. *)
Definition refusals : list DurableInvariantError :=
  [EmptyJournalBatch; DuplicateJournalKey; SupplementalJournalTarget].

Lemma prepare_refused records e : prepare records = Err e → e = DuplicateJournalKey.
Proof.
  unfold prepare. set (f := λ _ _, _). generalize (@nil (bytes * bytes * bytes)).
  induction records as [|r records IH]; intros acc; cbn [fold_result]; [done|].
  destruct (f acc r) as [acc'|e'] eqn:Ef; cbn; [apply IH|]. intros [= <-]. unfold f in Ef. cbn in Ef. case_match; naive_solver.
Qed.

(** Any other request is refused before the store is called. *)
Lemma persist_records_refused records cs supp w :
  ¬ well_formed_request records cs supp →
  ∃ e, e ∈ refusals ∧ persist_records_with_conditions_and_batch env records cs supp w = (Err e, w).
Proof.
  intros Hwf. unfold persist_records_with_conditions_and_batch. destruct records as [|r0 records].
  { eexists. split; [|done]. set_solver. }
  unfold mbind, client_bind, lift_client. destruct (prepare (r0 :: records)) as [prepared|e] eqn:Ep.
  - destruct (prepare_spec _ _ Ep) as [-> [_ Hnd]]. destruct (_ || _) eqn:Eb; [eexists; split; [|done]; set_solver|].
    apply orb_false_iff in Eb as [Ec Es]. destruct Hwf. by split_and!.
  - apply prepare_refused in Ep as ->. eexists. split; [|done]. set_solver.
Qed.

Lemma persist_records_spec records cs supp n s v :
  represents s v → well_formed_request records cs supp →
  let prepared := prepared_of <$> records in
  let ops := (put_of <$> prepared) ++ supp in
  ∃ r n' s' v', persist_records_with_conditions_and_batch env records cs supp (n, s) = (r, (n', s'))
    ∧ represents s' v' ∧ persisted prepared cs ops v v' r.
Proof.
  intros Hrep (Hne & Hnd & Hc & Hs). cbn zeta.
  unfold persist_records_with_conditions_and_batch. destruct records as [|r0 records]; [done|].
  pose proof (prepare_complete (r0 :: records) Hnd) as Hp.
  destruct (prepare_spec _ _ Hp) as [_ Hok].
  generalize dependent (prepared_of <$> r0 :: records). intros prepared Hnd Hc Hp Hok.
  unfold mbind, client_bind, lift_client. rewrite Hp, Hc, Hs. cbn [orb].
  assert (length (r0 :: records) = length prepared) as Hl.
  { destruct (prepare_spec _ _ Hp) as [-> _]. by rewrite length_fmap. }
  rewrite Hl. apply (attempt_loop_spec _ prepared cs supp n s v (replicate (length prepared) false));
    [done..| |lia].
  apply Forall2_replicate_r; [done|]. apply list.Forall_forall. by intros p _.
Qed.

(** What [Committed] means: the batch met a view in which the conditions held
    and no requested record was present with other bytes. *)
Definition committed_from (records : list JournalBatchRecord) (cs : list BatchCondition)
    (supp : list BatchOperation) (v0 v' : View) : Prop :=
  let prepared := prepared_of <$> records in
  forallb (condition_holds v0) cs = true ∧ none_conflicting prepared v0 ∧
  v' = view_apply v0 ((put_of <$> prepared) ++ supp).

(** The part of it that the journal's clients use, for any request. *)
Lemma persist_records_among records cs supp n s v :
  represents s v →
  ∃ r n' s' v', persist_records_with_conditions_and_batch env records cs supp (n, s) = (r, (n', s'))
    ∧ represents s' v' ∧
    (r ≠ Ok Committed ∧ R v v' ∧ (r = Ok ExactRecord → all_present v' (prepared_of <$> records)) ∨
     r = Ok Committed ∧ all_present v' (prepared_of <$> records) ∧
       ∃ v0, R v v0 ∧ committed_from records cs supp v0 v').
Proof.
  intros Hrep. destruct (decide (well_formed_request records cs supp)) as [Hwf|Hwf].
  2: { destruct (persist_records_refused records cs supp (n, s) Hwf) as (e & _ & ->).
       eexists _, n, s, v. split; [done|]. split; [done|]. left. by split_and!. }
  destruct (prepare_spec _ _ (prepare_complete records (proj1 (proj2 Hwf)))) as [_ Hok].
  destruct (persist_records_spec records cs supp n s v Hrep Hwf) as (r & n' & s' & v' & E & Hrep' & Hr).
  exists r, n', s', v'. split; [exact E|]. split; [done|]. destruct r as [[]|e]; cbn in Hr.
  - right. destruct Hr as (v0 & Hr0 & Hc & Hn & ->). split; [done|]. split; [by apply batch_present, Hwf|]. by exists v0.
  - left. destruct Hr as (v0 & Hr0 & H1 & _ & Hp). split; [done|]. split; [by etrans|]. intros _ p Hp'. pose proof (Hp p Hp') as Hx.
    destruct Hok as [Hj _]. rewrite list.Forall_forall in Hj. destruct (Hj p Hp') as [Hj' _]. destruct p as [[ns k] x]. by eapply R_journal.
  - left. destruct Hr as (v0 & Hr0 & H1 & _). split; [done|]. split; [by etrans|done].
  - left. split; [done|]. split; [by destruct e; apply Hr|done].
Qed.

Lemma persist_spec kind key x n s v :
  represents s v →
  ∃ r n' s' v', persist env kind key x (n, s) = (r, (n', s')) ∧ represents s' v' ∧ journal_le v v' ∧
    (r = Ok tt ∧ v' !! (kind_namespace kind, hex_encode key) = Some x ∨
     r = Err ImmutableConflict ∧ ∃ y, y ≠ x ∧ v' !! (kind_namespace kind, hex_encode key) = Some y).
Proof.
  intros Hrep. set (record := mkJournalBatchRecord kind key x).
  assert (well_formed_request [record] [] []) as Hwf by (split_and!; [done|apply NoDup_singleton|done..]).
  destruct (prepare_spec _ _ (prepare_complete [record] (proj1 (proj2 Hwf)))) as [_ Hok].
  destruct (persist_records_spec [record] [] [] n s v Hrep Hwf) as (r & n' & s' & v' & E & Hrep' & Hpost).
  unfold persist, persist_with_batch, persist_with_conditions_and_batch. fold record.
  unfold mbind, client_bind. rewrite E. destruct r as [[]|e]; cbn [persisted] in Hpost.
  - destruct Hpost as (v0 & Hr0 & _ & Hn & ->). eexists _, n', s', _. do 2 (split; [done|]). split.
    + etrans; [by apply R_journal|]. by apply batch_journal_le.
    + left. split; [done|]. by apply (batch_present [prepared_of record] [] Hok eq_refl v0 (prepared_of record)); left.
  - by destruct Hpost as (v0 & _ & _ & Hf & _).
  - by destruct Hpost as (v0 & _ & _ & Hf & _).
  - destruct e; try (destruct Hpost as (_ & _ & Hbad); unfold batch_keys_valid in Hbad; cbn in Hbad;
      by rewrite valid_journal_key in Hbad).
    destruct Hpost as (HR & p & y & ->%list_elem_of_singleton & Hy & Hne).
    eexists _, n', s', v'. do 2 (split; [done|]). split; [by apply R_journal|]. right. split; [done|]. by exists y.
Qed.
End Rely.

Section JournalProperties.
Context {S : Type} `{!DurableStore S, !DurableStoreLaws S} `{HexOk}.
Context (env : nat → S → S) (R : relation View) `{!PreOrder R}.
Hypothesis env_R : ∀ n s v, represents s v → ∃ v', represents (env n s) v' ∧ R v v'.
Hypothesis R_journal : ∀ v v', R v v' → journal_le v v'.

(** C8: a journal batch is atomic and write-once among concurrent writers. The other
    writers respect any order [R] under which journal records do not change; taking
    equality for [R], every clause below says what the call itself does. A request that
    is empty, repeats a key, or has a condition or a supplemental operation on a
    journal target is refused without a call to the store. Any other request ends
    within its retry bound (it is never reported as "did not stabilize").
    [Committed] means that exactly the requested records and the supplemental
    operations were applied, in one step, to a view in which every condition held and no
    requested record was present with other bytes. [ExactRecord] means that nothing was
    written, and at one moment every record was present with the exact bytes while some
    condition failed; [PreconditionMismatch], that nothing was written, and at one moment
    some condition failed while no record conflicted and one was absent;
    [ImmutableConflict], that nothing was written and some record is present with
    different bytes; the only other error is an invalid key of the caller, and
    nothing was written. *)
Theorem journal_batch_atomic records cs supp n s v :
  represents s v →
  let prepared := prepared_of <$> records in
  let ops := (put_of <$> prepared) ++ supp in
  if decide (well_formed_request records cs supp) then
    ∃ r n' s' v', persist_records_with_conditions_and_batch env records cs supp (n, s) = (r, (n', s'))
      ∧ represents s' v' ∧ persisted R prepared cs ops v v' r
  else
    ∃ e, e ∈ refusals ∧ persist_records_with_conditions_and_batch env records cs supp (n, s) = (Err e, (n, s)).
Proof.
  intros Hrep. case_decide; [by apply persist_records_spec|by apply (persist_records_refused env R)].
Qed.

(** Journal records are immutable end to end. Once [persist] succeeded for
    a key, whatever other writers do in between, persisting the same bytes
    again succeeds, persisting different bytes is refused as a conflict, and
    [load] returns the first bytes. *)
Lemma journal_write_once kind key x y n s v n1 s1 :
  represents s v → persist env kind key x (n, s) = (Ok tt, (n1, s1)) →
  ∃ r n2 s2 w, persist env kind key y (n1, s1) = (r, (n2, s2)) ∧
    r = (if decide (y = x) then Ok tt else Err ImmutableConflict) ∧
    load env kind key (n2, s2) = (Ok (Some x), w).
Proof.
  intros Hrep Hx.
  destruct (persist_spec env R env_R R_journal kind key x n s v Hrep)
    as (r1 & n1' & s1' & v1 & E1 & Hrep1 & Hle1 & Hr1).
  rewrite E1 in Hx. injection Hx as -> -> ->.
  destruct Hr1 as [[_ Hv1]|[? _]]; [|done].
  destruct (persist_spec env R env_R R_journal kind key y n1 s1 v1 Hrep1)
    as (r2 & n2 & s2 & v2 & E2 & Hrep2 & Hle2 & Hr2).
  assert (v2 !! (kind_namespace kind, hex_encode key) = Some x) as Hv2.
  { apply Hle2; [apply in_journal_kind|done]. }
  destruct (get_call_among env R (kind_namespace kind) (hex_encode key) n2 s2 v2 env_R Hrep2)
    as (v3 & s3 & Eg & _ & Hle3%R_journal); [apply valid_journal_key|].
  eexists r2, n2, s2, _. split; [done|]. split.
  - destruct Hr2 as [[-> Hy]|(-> & z & Hne & Hz)]; case_decide; try done; congruence.
  - unfold load. rewrite Eg. do 2 f_equal. apply Hle3; [apply in_journal_kind|done].
Qed.
End JournalProperties.

(** ** The signing guard *)

(** Reservations that exist are kept. *)
Definition guard_le (v v' : View) : Prop :=
  ∀ k x, v !! (SIGN_GUARD, k) = Some x → v' !! (SIGN_GUARD, k) = Some x.

Lemma separator_inj (c : byte) x1 x2 y1 y2 :
  c ∉ x1 → c ∉ x2 → x1 ++ [c] ++ y1 = x2 ++ [c] ++ y2 → x1 = x2 ∧ y1 = y2.
Proof.
  revert x2. induction x1 as [|b x1 IH]; intros [|b' x2] H1 H2 E; cbn in E.
  - by injection E as ->.
  - injection E as <- _. set_solver.
  - injection E as -> _. set_solver.
  - injection E as -> E. apply IH in E as [-> ->]; set_solver.
Qed.
Lemma separator_inj_r (c : byte) x1 x2 y1 y2 :
  c ∉ y1 → c ∉ y2 → x1 ++ [c] ++ y1 = x2 ++ [c] ++ y2 → x1 = x2 ∧ y1 = y2.
Proof.
  intros H1 H2 E%(f_equal reverse). rewrite !reverse_app, !reverse_singleton, <- !app_assoc in E.
  apply separator_inj in E as [E1 E2]; [|by rewrite elem_of_reverse..].
  by apply (inj reverse) in E1, E2.
Qed.

(** Decimal digits determine the number. *)
Fixpoint decimal_value (digits : bytes) : Z :=
  match digits with [] => 0 | d :: digits => (b2z d - 48) + 10 * decimal_value digits end.

Lemma decimal_value_digits fuel z :
  0 ≤ z < 10 ^ Z.of_nat fuel → decimal_value (decimal_digits fuel z) = z.
Proof.
  revert z. induction fuel as [|fuel IH]; intros z Hz; cbn [decimal_digits decimal_value].
  - cbn in Hz. lia.
  - rewrite Nat2Z.inj_succ, Z.pow_succ_r in Hz by lia.
    pose proof (Z.div_mod z 10). pose proof (Z.mod_pos_bound z 10).
    rewrite b2z_z2b, Z.mod_small by lia. destruct (Z.eqb_spec (z / 10) 0); cbn [decimal_value].
    + lia.
    + rewrite IH; [lia|]. split; [apply Z.div_pos; lia|apply Z.div_lt_upper_bound; lia].
Qed.

Lemma decimal_digits_not_in c fuel z : b2z c < 48 → c ∉ decimal_digits fuel z.
Proof.
  intros Hc. revert z. induction fuel as [|fuel IH]; intros z; cbn; [set_solver|].
  rewrite not_elem_of_cons. split.
  - intros ->. rewrite b2z_z2b in Hc. pose proof (Z.mod_pos_bound z 10).
    rewrite Z.mod_small in Hc by lia. lia.
  - destruct (z / 10 =? 0); [set_solver|apply IH].
Qed.

Lemma format_u64_inj a b : uint 64 a → uint 64 b → format_u64 a = format_u64 b → a = b.
Proof.
  unfold uint, format_u64. intros Ha Hb E%(inj reverse).
  rewrite <- (decimal_value_digits 20 a), <- (decimal_value_digits 20 b) by (cbn; lia).
  by rewrite E.
Qed.

Section GuardKeys.
Context `{HexOk}.

Lemma hex_encode_inj a b : hex_encode a = hex_encode b → a = b.
Proof. intros E%(f_equal hex_decode). rewrite !hex_decode_encode in E. by injection E. Qed.

Lemma hex_encode_no_slash bs : x2f ∉ hex_encode bs.
Proof.
  intros Hin. pose proof (hex_alphabet bs) as Ha. rewrite list.Forall_forall in Ha.
  by apply Ha in Hin as [_ ?].
Qed.

(** Role, scope and sequence are determined by the reservation key, although
    the role may contain the separator. *)
Lemma sign_guard_key_inj r1 c1 q1 r2 c2 q2 :
  uint 64 q1 → uint 64 q2 → sign_guard_key r1 c1 q1 = sign_guard_key r2 c2 q2 →
  r1 = r2 ∧ c1 = c2 ∧ q1 = q2.
Proof.
  intros H1 H2 E. unfold sign_guard_key in E.
  change (str "/") with [x2f] in E. rewrite !(app_assoc [x2f]), !(app_assoc _ ([x2f] ++ _)) in E.
  apply separator_inj_r in E as [E Eq].
  2, 3: unfold format_u64; rewrite elem_of_reverse; by apply decimal_digits_not_in.
  apply separator_inj_r in E as [-> Ec]; [|apply hex_encode_no_slash..].
  split_and!; [done|by apply hex_encode_inj|by apply format_u64_inj].
Qed.
End GuardKeys.

Section Guard.
Context {S : Type} `{!DurableStore S, !DurableStoreLaws S} `{HexOk}.
Context (env : nat → S → S).
(** The other writers keep the store lawful and existing reservations. *)
Hypothesis env_guard : ∀ n s v, represents s v → ∃ v', represents (env n s) v' ∧ guard_le v v'.

Lemma sign_guard_key_valid role scope sequence :
  contains_nul role = false →
  valid_key (SIGN_GUARD, sign_guard_key role scope sequence) = true.
Proof.
  intros Hr%contains_nul_false. apply valid_key_spec. split; [by apply contains_nul_false|].
  unfold sign_guard_key, format_u64. rewrite !not_elem_of_app, elem_of_reverse.
  split_and!; [done|by apply contains_nul_false|apply hex_encode_nul|by apply contains_nul_false|].
  by apply decimal_digits_not_in.
Qed.

Lemma authorize_spec role scope sequence id n s v :
  represents s v → contains_nul role = false →
  let slot := (SIGN_GUARD, sign_guard_key role scope sequence) in
  ∃ r n' s' v', authorize env role scope sequence id (n, s) = (r, (n', s')) ∧ represents s' v' ∧
    guard_le v v' ∧
    (r = Ok tt ∧ v' !! slot = Some id ∨
     r = Err ConflictingSignature ∧ ∃ id', id' ≠ id ∧ v' !! slot = Some id').
Proof.
  intros Hrep Hr. cbn zeta. pose proof (sign_guard_key_valid role scope sequence Hr) as Hv.
  unfold authorize. rewrite Hr. unfold mbind, client_bind, lift_client.
  generalize dependent (sign_guard_key role scope sequence). intros key Hv.
  destruct (reserve_call env guard_le SIGN_GUARD key id n s v env_guard Hrep Hv) as (v1 & s1 & b & -> & Hle & Hb).
  destruct b; destruct Hb as [Hslot Hrep1].
  - eexists _, _, s1, _. split; [done|]. split; [done|]. split.
    + intros k x Hx. apply Hle in Hx. rewrite lookup_insert_ne; [done|]. congruence.
    + left. by rewrite lookup_insert_eq.
  - destruct (get_call_among env guard_le SIGN_GUARD key (Datatypes.S n) s1 v1 env_guard Hrep1 Hv)
      as (v2 & s2 & -> & Hrep2 & Hle2). destruct Hslot as [x Hx]. apply Hle2 in Hx.
    rewrite Hx. eexists _, _, s2, v2. split; [done|]. split; [done|].
    split; [intros k y Hy; by apply Hle2, Hle|].
    case_bool_decide; [subst x; by left|right]. split; [done|]. by exists x.
Qed.

(** C38: no equivocation. Once a signer obtained authorization for an object at
    some role, scope and sequence, every later request for that slot, from any
    store state other writers may have brought about, succeeds exactly for the
    same object and is otherwise refused as a conflicting signature. *)
Theorem sign_guard_no_equivocation role scope sequence id1 id2 n s v n1 s1 m s2 :
  represents s v → authorize env role scope sequence id1 (n, s) = (Ok tt, (n1, s1)) →
  (∀ v1, represents s1 v1 → ∃ v2, represents s2 v2 ∧ guard_le v1 v2) →
  ∃ w, authorize env role scope sequence id2 (m, s2) =
    (if decide (id2 = id1) then Ok tt else Err ConflictingSignature, w).
Proof.
  intros Hrep H1 Hreach. destruct (contains_nul role) eqn:Hr.
  { unfold authorize in H1. by rewrite Hr in H1. }
  destruct (authorize_spec role scope sequence id1 n s v Hrep Hr)
    as (r1 & n1' & s1' & v1 & E1 & Hrep1 & _ & Hr1).
  rewrite E1 in H1. injection H1 as -> -> ->. destruct Hr1 as [[_ Hv1]|[? _]]; [|done].
  destruct (Hreach v1 Hrep1) as (v2 & Hrep2 & Hle). apply Hle in Hv1.
  destruct (authorize_spec role scope sequence id2 m s2 v2 Hrep2 Hr)
    as (r2 & n2 & s2' & v3 & E2 & _ & Hle3 & Hr2). apply Hle3 in Hv1.
  exists (n2, s2'). rewrite E2. f_equal.
  destruct Hr2 as [[-> Hy]|(-> & z & Hne & Hz)]; case_decide; try done; congruence.
Qed.
End Guard.

(** ** Recovery reads the journal back *)

Definition entry_bytes (e : bytes * bytes) : Z := len e.1 + len e.2.

(** The records of a scan stay within its limits. *)
Definition scan_fits (limits : ScanLimits) (l : list (bytes * bytes)) : Prop :=
  len l ≤ limits.(maximum_records) ∧
  Forall (λ e, len e.2 ≤ limits.(maximum_value_bytes)) l ∧
  sumZ (entry_bytes <$> l) ≤ limits.(maximum_total_bytes) < 2 ^ 64.

Lemma entry_bytes_sum_nonneg l : 0 ≤ sumZ (entry_bytes <$> l).
Proof.
  apply sumZ_nonneg, Forall_fmap, list.Forall_forall. intros e _. cbn. unfold entry_bytes.
  pose proof (len_nonneg e.1). pose proof (len_nonneg e.2). lia.
Qed.

Lemma value_bytes_sum l : 0 ≤ sumZ ((λ e, len e.2) <$> l) ≤ sumZ (entry_bytes <$> l).
Proof.
  induction l as [|e l IH]; [done|]. cbn [fmap list_fmap]. rewrite !sumZ_cons. unfold entry_bytes at 1.
  pose proof (len_nonneg e.1). pose proof (len_nonneg e.2). lia.
Qed.

Lemma append_scanned_record_fits limits recs total k x :
  len recs < limits.(maximum_records) → len x ≤ limits.(maximum_value_bytes) → 0 ≤ total →
  total + (len k + len x) ≤ limits.(maximum_total_bytes) < 2 ^ 64 →
  append_scanned_record limits (recs, total) k x =
  Ok (recs ++ [mkNamespaceRecord k x], total + (len k + len x)).
Proof.
  intros Hr Hv Ht Hs. pose proof (len_nonneg k). pose proof (len_nonneg x).
  unfold append_scanned_record, checked_add.
  rewrite (proj2 (Z.ltb_lt _ (2 ^ 64))) by lia. cbn.
  rewrite (proj2 (Z.ltb_lt _ (2 ^ 64))) by lia. cbn.
  by rewrite (proj2 (Z.leb_gt _ (len recs))), (proj2 (Z.ltb_ge _ (len x))),
    (proj2 (Z.ltb_ge _ (total + (len k + len x)))) by lia.
Qed.

Lemma fold_scan_fits limits recs total l :
  len recs + len l ≤ limits.(maximum_records) → 0 ≤ total →
  Forall (λ e, len e.2 ≤ limits.(maximum_value_bytes)) l →
  total + sumZ (entry_bytes <$> l) ≤ limits.(maximum_total_bytes) < 2 ^ 64 →
  fold_result (λ acc '(key, value), append_scanned_record limits acc key value) (recs, total) l =
  Ok (recs ++ (to_record <$> l), total + sumZ (entry_bytes <$> l)).
Proof.
  intros Hr Ht Hv. revert recs total Hr Ht.
  induction Hv as [|[k x] l Hx _ IH]; intros recs total Hr Ht Hs; cbn [fold_result].
  - cbn. by rewrite app_nil_r, Z.add_0_r.
  - cbn [fmap list_fmap] in Hs |- *. rewrite sumZ_cons in Hs |- *. unfold entry_bytes in Hs at 1. cbn [fst snd] in *.
    rewrite len_cons in Hr. pose proof (entry_bytes_sum_nonneg l).
    pose proof (len_nonneg k). pose proof (len_nonneg x). pose proof (len_nonneg l).
    rewrite append_scanned_record_fits by lia. cbn [mbind result_bind].
    rewrite IH by (rewrite ?len_app, ?len_cons, ?len_nil; lia).
    rewrite <- app_assoc. unfold entry_bytes at 2. cbn. do 2 f_equal. lia.
Qed.

Section Recovery.
Context `{HexOk}.

Definition recovered_entry (r : RecoveredProtocolRecord) : bytes * bytes :=
  (hex_encode r.(rr_durable_key), r.(rr_value)).

(** Decoding a sorted listing of hex keys returns it, with its byte totals. *)
Lemma decode_step_exact kind acc prev dk x :
  from_option (λ p, bytes_lt p (hex_encode dk)) True prev →
  0 ≤ acc.(pr_total_value_bytes) ≤ acc.(pr_total_scan_bytes) →
  acc.(pr_total_scan_bytes) + entry_bytes (hex_encode dk, x) < 2 ^ 64 →
  decode_step kind (acc, prev) (mkNamespaceRecord (hex_encode dk) x) =
  Ok (mkProtocolRecovery (acc.(pr_records) ++ [mkRecoveredProtocolRecord kind dk x])
        (acc.(pr_total_value_bytes) + len x)
        (acc.(pr_total_scan_bytes) + entry_bytes (hex_encode dk, x)), Some (hex_encode dk)).
Proof.
  intros Hp Hpos Hs. unfold decode_step, entry_bytes in *. cbn [nr_key nr_value fst snd] in *.
  replace (match prev with Some p => bytes_leb (hex_encode dk) p | None => false end) with false
    by (destruct prev; [symmetry; by apply bytes_leb_false|done]).
  rewrite hex_decode_encode. cbn. rewrite bool_decide_eq_false_2 by tauto.
  pose proof (len_nonneg (hex_encode dk)). pose proof (len_nonneg x). unfold checked_add.
  rewrite (proj2 (Z.ltb_lt _ (2 ^ 64))) by lia. cbn.
  rewrite (proj2 (Z.ltb_lt _ (2 ^ 64))) by lia. cbn.
  rewrite (proj2 (Z.ltb_lt _ (2 ^ 64))) by lia. cbn. do 3 f_equal. lia.
Qed.

Lemma decode_loop_exact kind l acc prev :
  StronglySorted key_lt l → Forall (λ e, ∃ dk, e.1 = hex_encode dk) l →
  Forall (λ e, from_option (λ p, bytes_lt p e.1) True prev) l →
  0 ≤ acc.(pr_total_value_bytes) ≤ acc.(pr_total_scan_bytes) →
  acc.(pr_total_scan_bytes) + sumZ (entry_bytes <$> l) < 2 ^ 64 →
  ∃ out prev', fold_result (decode_step kind) (acc, prev) (to_record <$> l) = Ok (out, prev') ∧
    recovered_entry <$> out.(pr_records) = (recovered_entry <$> acc.(pr_records)) ++ l ∧
    (Forall (λ r, r.(rr_kind) = kind) acc.(pr_records) →
     Forall (λ r, r.(rr_kind) = kind) out.(pr_records)) ∧
    out.(pr_total_value_bytes) = acc.(pr_total_value_bytes) + sumZ ((λ e, len e.2) <$> l) ∧
    out.(pr_total_scan_bytes) = acc.(pr_total_scan_bytes) + sumZ (entry_bytes <$> l).
Proof.
  intros Hs. revert acc prev.
  induction Hs as [|[k x] l _ IH Hlt]; intros acc prev Hh Hprev Hpos Hsum.
  - exists acc, prev. cbn. rewrite app_nil_r, !Z.add_0_r. by split_and!.
  - inversion Hh as [|?? [dk Hdk] Hh']; subst. inversion Hprev as [|?? Hp _]; subst.
    cbn [fst] in Hdk, Hp. subst k. cbn [fmap list_fmap fold_result] in Hsum |- *.
    rewrite !sumZ_cons in Hsum |- *. pose proof (entry_bytes_sum_nonneg l).
    change (to_record (hex_encode dk, x)) with (mkNamespaceRecord (hex_encode dk) x).
    pose proof (len_nonneg (hex_encode dk)). pose proof (len_nonneg x).
    rewrite decode_step_exact by (done || lia). cbn [mbind result_bind].
    destruct (IH (mkProtocolRecovery (acc.(pr_records) ++ [mkRecoveredProtocolRecord kind dk x])
      (acc.(pr_total_value_bytes) + len x)
      (acc.(pr_total_scan_bytes) + entry_bytes (hex_encode dk, x))) (Some (hex_encode dk)))
      as (out & prev' & E & Hr & Hk & Hv & Ht).
    + done.
    + exact Hlt.
    + cbn. unfold entry_bytes. cbn. split; lia.
    + cbn. lia.
    + exists out, prev'. split; [exact E|].
      cbn [pr_records pr_total_value_bytes pr_total_scan_bytes snd] in *.
      rewrite fmap_app, <- app_assoc in Hr. split_and!;
        [done| |by rewrite Hv, <- Z.add_assoc|by rewrite Ht, <- Z.add_assoc].
      intros Ha. apply Hk, Forall_app. split; [done|]. by repeat constructor.
Qed.

(** Recovery of one journal category is exact. If every key of the category
    is the hex form of some key bytes, as the journal writes them, and the
    category fits the limits, then [recover_kind] returns every record of it,
    under its original key bytes, once and in key order, with the byte totals
    charged against the limits. *)
Lemma recover_kind_exact {S} `{!DurableStore S, !DurableStoreLaws S} (env : nat → S → S)
    kind limits n s v :
  let listing := namespace_entries v (kind_namespace kind) in
  represents (env n s) v →
  Forall (λ e, ∃ dk, e.1 = hex_encode dk) listing → scan_fits limits listing →
  ∃ recovery w, recover_kind env kind limits (n, s) = (Ok recovery, w) ∧
    recovered_entry <$> recovery.(pr_records) = listing ∧
    Forall (λ r, r.(rr_kind) = kind) recovery.(pr_records) ∧
    recovery.(pr_total_value_bytes) = sumZ ((λ e, len e.2) <$> listing) ∧
    recovery.(pr_total_scan_bytes) = sumZ (entry_bytes <$> listing).
Proof.
  intros listing Hrep Hh (Hn & Hv & Ht).
  destruct (decode_loop_exact kind listing (mkProtocolRecovery [] 0 0) None)
    as (out & prev & Ef & Hr & Hk & Hvs & Hss);
    [apply namespace_entries_sorted|done|by apply list.Forall_forall|done|cbn; lia|].
  destruct (scan_namespace_spec (kind_namespace kind) limits _ _ Hrep) as [E R]. revert E R.
  unfold spec_scan_namespace. run_store.
  rewrite (proj2 (valid_key_spec (kind_namespace kind) []))
    by (split; [apply kind_namespace_nul|set_solver]). cbn [andb].
  rewrite (fold_scan_fits limits [] 0 (namespace_entries v (kind_namespace kind))) by (done || lia).
  cbn. intros E R. unfold recover_kind, mbind, client_bind, store_call.
  destruct (scan_namespace (kind_namespace kind) limits (env n s)) as [r s'] eqn:Es. cbn in E, R.
  subst r. eexists out, _. cbn. unfold lift_client, decode_protocol_records.
  unfold listing in Ef. rewrite Ef. split; [done|]. by split_and!; auto.
Qed.
End Recovery.

(** ** A concrete instance for the witnesses *)

(** Lower-case hexadecimal. *)
Definition nibble_char (n : Z) : byte := z2b (if n <? 10 then 48 + n else 87 + n).
Definition nibble_value (c : byte) : option Z :=
  let z := b2z c in
  if (48 <=? z) && (z <=? 57) then Some (z - 48)
  else if (97 <=? z) && (z <=? 102) then Some (z - 87)
  else None.
Definition lower_hex (bs : bytes) : bytes :=
  concat ((λ b, [nibble_char (b2z b / 16); nibble_char (b2z b mod 16)]) <$> bs).
Fixpoint lower_unhex (s : bytes) : option bytes :=
  match s with
  | [] => Some []
  | [_] => None
  | c :: d :: s =>
      hi ← nibble_value c; lo ← nibble_value d; bs ← lower_unhex s;
      Some (z2b (16 * hi + lo) :: bs)
  end.
Definition lower_hex_instance : Hex := {| hex_encode := lower_hex; hex_decode := lower_unhex |}.
Lemma lower_hex_ok : @HexOk lower_hex_instance.
Proof.
  split; cbn.
  - induction bs as [|b bs IH]; [done|]. cbn -[nibble_char nibble_value z2b Z.mul].
    assert (nibble_value (nibble_char (b2z b / 16)) = Some (b2z b / 16) ∧
      nibble_value (nibble_char (b2z b mod 16)) = Some (b2z b mod 16) ∧
      z2b (16 * (b2z b / 16) + b2z b mod 16) = b) as (-> & -> & Eb) by (by destruct b).
    cbn -[z2b Z.mul Z.div Z.modulo]. unfold lower_hex in IH. rewrite IH. cbn. by rewrite Eb.
  - induction bs as [|b bs IH]; [constructor|].
    change (lower_hex (b :: bs)) with
      ([nibble_char (b2z b / 16); nibble_char (b2z b mod 16)] ++ lower_hex bs).
    apply Forall_app. split; [|done]. destruct b; repeat constructor; by vm_compute.
Qed.

(** Nobody else writes. *)
Definition alone : nat → MemoryStore → MemoryStore := λ _ s, s.
Lemma alone_eq n s v : represents s v → ∃ v', represents (alone n s) v' ∧ v = v'.
Proof. by exists v. Qed.
Lemma eq_journal (v v' : View) : v = v' → journal_le v v'.
Proof. by intros ->. Qed.
Lemma alone_journal n s v : represents s v → ∃ v', represents (alone n s) v' ∧ journal_le v v'.
Proof. intros Hrep. exists v. split; [done|by intros ns k x]. Qed.
Lemma alone_guard n s v : represents s v → ∃ v', represents (alone n s) v' ∧ guard_le v v'.
Proof. intros Hrep. exists v. split; [done|by intros k x]. Qed.

Definition demo_records : list JournalBatchRecord :=
  [mkJournalBatchRecord KindAcceptedShare [x01] [x0a]; mkJournalBatchRecord KindAcceptedWorkKey [x02] [x0b]].

Lemma journal_batch_atomic_witness :
  let H := lower_hex_instance in
  let cs := [mkBatchCondition (str "index") (str "head") None] in
  let supp := [BatchPut (str "index") (str "head") [x01]] in
  ∃ n' s' v', persist_records_with_conditions_and_batch alone demo_records cs supp (0%nat, ∅) = (Ok Committed, (n', s')) ∧
    represents s' v' ∧ v' = view_apply ∅ ((put_of <$> (prepared_of <$> demo_records)) ++ supp).
Proof.
  cbn zeta. set (cs := [_]). set (supp := [_]).
  pose proof (@journal_batch_atomic MemoryStore _ MemoryStore_laws lower_hex_instance lower_hex_ok alone eq _
    alone_eq eq_journal demo_records cs supp 0%nat ∅ ∅ mem_represents_empty) as HJ. cbn zeta in HJ.
  rewrite decide_True in HJ by (apply (bool_decide_unpack _); vm_compute; reflexivity).
  destruct HJ as (r & n' & s' & v' & E & Hrep & P). pose proof (f_equal fst E) as Er. vm_compute in Er. subst r.
  destruct P as (v0 & <- & _ & _ & P). exists n', s', v'. split; [exact E|]. split; [exact Hrep|exact P].
Defined.

Lemma journal_write_once_witness :
  let H := lower_hex_instance in
  ∃ n1 s1 n2 s2, persist alone KindReceiptBatch [x01] [x0a] (0%nat, ∅) = (Ok tt, (n1, s1)) ∧
    persist alone KindReceiptBatch [x01] [x0b] (n1, s1) = (Err ImmutableConflict, (n2, s2)).
Proof.
  destruct (@persist MemoryStore _ lower_hex_instance alone KindReceiptBatch [x01] [x0a] (0%nat, ∅))
    as [r [n1 s1]] eqn:E.
  pose proof (f_equal fst E) as Er. vm_compute in Er. subst r.
  destruct (@journal_write_once MemoryStore _ MemoryStore_laws lower_hex_instance lower_hex_ok alone
    eq _ alone_eq eq_journal KindReceiptBatch [x01] [x0a] [x0b] 0%nat ∅ ∅ n1 s1 mem_represents_empty E)
    as (r & n2 & s2 & w & E2 & -> & _).
  exists n1, s1, n2, s2. split; [exact E|exact E2].
Defined.

Lemma sign_guard_no_equivocation_witness :
  let H := lower_hex_instance in
  ∃ n1 s1 w, authorize alone (str "committee") [x01] 7 [x0a] (0%nat, ∅) = (Ok tt, (n1, s1)) ∧
    authorize alone (str "committee") [x01] 7 [x0b] (n1, s1) = (Err ConflictingSignature, w).
Proof.
  destruct (@authorize MemoryStore _ lower_hex_instance alone (str "committee") [x01] 7 [x0a] (0%nat, ∅))
    as [r [n1 s1]] eqn:E.
  pose proof (f_equal fst E) as Er. vm_compute in Er. subst r.
  destruct (@sign_guard_no_equivocation MemoryStore _ MemoryStore_laws lower_hex_instance lower_hex_ok
    alone alone_guard (str "committee") [x01] 7 [x0a] [x0b] 0%nat ∅ ∅ n1 s1 n1 s1
    mem_represents_empty E) as (w & E2).
  { intros v1 Hv1. exists v1. split; [done|by intros k x]. }
  exists n1, s1, w. split; [exact E|exact E2].
Defined.

Definition demo_journal : list BatchOperation :=
  let put key value := BatchPut (kind_namespace KindPayoutPlan) (lower_hex key) value in
  [put [x05] [x0a; x0b]; put [x01] [x0c]].

Lemma recover_kind_exact_witness :
  let H := lower_hex_instance in
  ∃ recovery w,
    recover_kind alone KindPayoutPlan (mkScanLimits 10 100 100)
      (0%nat, (apply_batch demo_journal (∅ : MemoryStore)).2) = (Ok recovery, w) ∧
    recovered_entry <$> recovery.(pr_records) =
      [(lower_hex [x01], [x0c]); (lower_hex [x05], [x0a; x0b])] ∧
    recovery.(pr_total_scan_bytes) = 7.
Proof.
  destruct (@apply_batch_spec MemoryStore _ MemoryStore_laws demo_journal ∅ ∅ mem_represents_empty)
    as [_ R].
  assert (namespace_entries (spec_apply_batch demo_journal ∅).2 (kind_namespace KindPayoutPlan) =
    [(lower_hex [x01], [x0c]); (lower_hex [x05], [x0a; x0b])]) as E by (vm_compute; reflexivity).
  pose proof (@recover_kind_exact lower_hex_instance lower_hex_ok MemoryStore _ MemoryStore_laws alone
    KindPayoutPlan (mkScanLimits 10 100 100) 0%nat _ _ R) as Hp.
  cbn zeta in Hp. rewrite E in Hp.
  destruct Hp as (recovery & w & ? & ? & _ & _ & Hs).
  - repeat constructor; [by exists [x01]|by exists [x05]].
  - split_and!; [by vm_compute|repeat constructor; by vm_compute|by vm_compute..].
  - exists recovery, w. split_and!; [done|done|]. rewrite Hs. by vm_compute.
Defined.
