(* ===== verification/Settlement.v ===== *)
(** * Settlement: payment, entropy and canonical-chain tracking
    (crates/meshmine-settlement/src/lib.rs: [PlanPaymentTracker],
    [EntropyPlanTracker], [CanonicalOverlayView])

    The errors of the crate, and the three trackers that follow the canonical
    Handshake chain. [BTreeMap] and [BTreeSet] are [gmap] and [gset]; their
    first and last elements are the least and greatest key. A method that
    takes [&mut self] returns the new state with its result. *)

From S2P Require Import Prelude Codec Hash Types Objects Storage Journal.

Inductive SettlementError :=
| ZeroSnapshotThreshold | ZeroAccumulatorLimit | RetainedSessionLimit
| RetainedBucketCreditLimit | RetainedPayloadByteLimit | InvalidAccumulatorCheckpoint
| EmptySessionWork | ConflictingBucketMetadata | EmptyTicketClass | ZeroTicketWeight
| EntropyCountOverflow | EntropyNotDelayed | InvalidServiceFraction | MissingTickets
| TicketCountMismatch | PlanSnapshotMismatch | PlanVerificationMismatch | ArithmeticOverflow
| DisconnectMismatch | CanonicalHeightConflict | NoncanonicalParentCertificate
| NoncanonicalSessionParent | MissingServiceCreditCap | ServiceEventCap | ServiceRoleCap
| DuplicateServiceEvent | ZeroServiceCredit | UneconomicTicket | CoinbaseOutputPolicy
| InvalidBootstrapTransition | NormalSnapshotUnavailable
| SE_Durable (e : DurableInvariantError).

(** [set.first()] and [map.last_key_value()] *)
Definition set_first (X : gset Z) : option Z :=
  foldr (λ x acc, Some (match acc with None => x | Some y => Z.min x y end)) None (elements X).
Definition set_last (X : gset Z) : option Z :=
  foldr (λ x acc, Some (match acc with None => x | Some y => Z.max x y end)) None (elements X).
Definition last_key_value {A} (m : gmap Z A) : option (Z * A) :=
  k ← set_last (dom m); x ← m !! k; Some (k, x).

(** ** [PlanPaymentTracker] *)

Record PlanPaymentTracker := mkPlanPaymentTracker {
  pt_eligible_sequences : gset Z;
  pt_canonical_payments : list (Hash256 * option Z);
  pt_paid_sequences : gset Z;
  pt_payable_sequences : gset Z;
}.

Definition PlanPaymentTracker_default : PlanPaymentTracker := mkPlanPaymentTracker ∅ [] ∅ ∅.

Definition add_eligible (t : PlanPaymentTracker) (sequence : Z) : PlanPaymentTracker :=
  mkPlanPaymentTracker ({[sequence]} ∪ t.(pt_eligible_sequences)) t.(pt_canonical_payments)
    t.(pt_paid_sequences)
    (if bool_decide (sequence ∉ t.(pt_eligible_sequences))
        && bool_decide (sequence ∉ t.(pt_paid_sequences))
     then {[sequence]} ∪ t.(pt_payable_sequences) else t.(pt_payable_sequences)).

Definition invalidate_eligible (t : PlanPaymentTracker) (sequence : Z) : PlanPaymentTracker :=
  mkPlanPaymentTracker (t.(pt_eligible_sequences) ∖ {[sequence]}) t.(pt_canonical_payments)
    t.(pt_paid_sequences) (t.(pt_payable_sequences) ∖ {[sequence]}).

Definition current_payable (t : PlanPaymentTracker) : option Z := set_first t.(pt_payable_sequences).

Definition pt_connect_block (t : PlanPaymentTracker) (block_hash : Hash256)
    (paid_plan : option Z) : result SettlementError PlanPaymentTracker :=
  if match paid_plan with
     | Some sequence => bool_decide (Some sequence ≠ current_payable t)
     | None => false
     end
  then Err TicketCountMismatch
  else
    let payments := t.(pt_canonical_payments) ++ [(block_hash, paid_plan)] in
    Ok match paid_plan with
       | Some sequence =>
           mkPlanPaymentTracker t.(pt_eligible_sequences) payments
             ({[sequence]} ∪ t.(pt_paid_sequences)) (t.(pt_payable_sequences) ∖ {[sequence]})
       | None =>
           mkPlanPaymentTracker t.(pt_eligible_sequences) payments t.(pt_paid_sequences)
             t.(pt_payable_sequences)
       end.

Definition pt_disconnect_tip (t : PlanPaymentTracker) (block_hash : Hash256) :
    result SettlementError PlanPaymentTracker :=
  match last t.(pt_canonical_payments) with
  | None => Err DisconnectMismatch
  | Some (tip_hash, paid_plan) =>
      if bool_decide (tip_hash ≠ block_hash) then Err DisconnectMismatch
      else
        let payments := take (length t.(pt_canonical_payments) - 1) t.(pt_canonical_payments) in
        Ok match paid_plan with
           | Some sequence =>
               mkPlanPaymentTracker t.(pt_eligible_sequences) payments
                 (t.(pt_paid_sequences) ∖ {[sequence]})
                 (if bool_decide (sequence ∈ t.(pt_eligible_sequences))
                  then {[sequence]} ∪ t.(pt_payable_sequences) else t.(pt_payable_sequences))
           | None =>
               mkPlanPaymentTracker t.(pt_eligible_sequences) payments t.(pt_paid_sequences)
                 t.(pt_payable_sequences)
           end
  end.

(** ** [EntropyPlanTracker] *)

Record TrackedEntropyPlan := mkTrackedEntropyPlan {
  te_sequence : Z;
  te_entropy_blocks : list (Z * Hash256);
  te_canonical : bool;
}.
Definition EntropyPlanTracker : Type := gmap Hash256 TrackedEntropyPlan.

(** The heights of the entropy blocks, [entropy_anchor_start] on. *)
Fixpoint entropy_blocks (start offset : Z) (hashes : list Hash256) :
    result SettlementError (list (Z * Hash256)) :=
  match hashes with
  | [] => Ok []
  | hash :: hashes =>
      _ ← ensure (offset <=? U32_MAX) ArithmeticOverflow;
      height ← ok_or (checked_add 32 start offset) ArithmeticOverflow;
      rest ← entropy_blocks start (offset + 1) hashes;
      Ok ((height, hash) :: rest)
  end.

Definition entropy_register `{Digests} (t : EntropyPlanTracker) (plan : PayoutPlanV2) :
    result SettlementError EntropyPlanTracker :=
  if negb (plan.(pp_entropy_anchor_count) =? len plan.(pp_entropy_hashes))
     || bool_decide (plan.(pp_entropy_hashes) = [])
  then Err EntropyNotDelayed
  else
    blocks ← entropy_blocks plan.(pp_entropy_anchor_start) 0 plan.(pp_entropy_hashes);
    let tracked := mkTrackedEntropyPlan plan.(pp_plan_sequence) blocks true in
    match t !! object_id plan with
    | Some existing =>
        if bool_decide (existing.(te_sequence) ≠ tracked.(te_sequence))
           || bool_decide (existing.(te_entropy_blocks) ≠ tracked.(te_entropy_blocks))
        then Err PlanVerificationMismatch
        else Ok (<[object_id plan :=
                    mkTrackedEntropyPlan existing.(te_sequence) existing.(te_entropy_blocks) true]> t)
    | None => Ok (<[object_id plan := tracked]> t)
    end.

(** A plan that loses its entropy block. *)
Definition plan_hit (height : Z) (hash : Hash256) (plan : TrackedEntropyPlan) : bool :=
  plan.(te_canonical) && bool_decide ((height, hash) ∈ plan.(te_entropy_blocks)).

Definition disconnect_entropy_block (t : EntropyPlanTracker) (height : Z) (hash : Hash256) :
    gset Z * EntropyPlanTracker :=
  (list_to_set ((λ e, e.2.(te_sequence)) <$> filter (λ e, plan_hit height hash e.2 = true) (map_to_list t)),
   (λ plan, if plan_hit height hash plan
            then mkTrackedEntropyPlan plan.(te_sequence) plan.(te_entropy_blocks) false
            else plan) <$> t).

Definition is_canonical (t : EntropyPlanTracker) (plan_id : Hash256) : bool :=
  match t !! plan_id with Some plan => plan.(te_canonical) | None => false end.

(** ** [CanonicalOverlayView] *)

Record TrackedParentCertificate := mkTrackedParentCertificate {
  tp_parent_height : Z;
  tp_parent_hash : Hash256;
  tp_canonical : bool;
}.
Record TrackedOverlaySession := mkTrackedOverlaySession {
  ts_parent_certificate_id : Hash256;
  ts_closed_for_reorg : bool;
}.
#[export] Instance TrackedParentCertificate_eq_dec : EqDecision TrackedParentCertificate.
Proof. solve_decision. Defined.
#[export] Instance TrackedOverlaySession_eq_dec : EqDecision TrackedOverlaySession.
Proof. solve_decision. Defined.

Record CanonicalOverlayView := mkCanonicalOverlayView {
  ov_canonical_headers : gmap Z Hash256;
  ov_parent_certificates : gmap Hash256 TrackedParentCertificate;
  ov_sessions : gmap Hash256 TrackedOverlaySession;
}.
Definition CanonicalOverlayView_default : CanonicalOverlayView := mkCanonicalOverlayView ∅ ∅ ∅.

Record ReorgEffects := mkReorgEffects {
  re_invalidated_parent_certificates : gset Hash256;
  re_closed_sessions : gset Hash256;
  re_invalidated_plan_sequences : gset Z;
  re_retain_share_and_body_evidence : bool;
  re_recompute_current_payable_plan : bool;
}.

Definition ov_connect_block (o : CanonicalOverlayView) (height : Z) (block_hash : Hash256)
    (paid_plan : option Z) (payments : PlanPaymentTracker) :
    result SettlementError (CanonicalOverlayView * PlanPaymentTracker) :=
  if match last_key_value o.(ov_canonical_headers) with
     | Some (tip_height, _) => negb (height =? saturating_add 32 tip_height 1)
     | None => false
     end
  then Err CanonicalHeightConflict
  else if match o.(ov_canonical_headers) !! height with
          | Some existing => bool_decide (existing ≠ block_hash)
          | None => false
          end
  then Err CanonicalHeightConflict
  else
    payments ← pt_connect_block payments block_hash paid_plan;
    Ok (mkCanonicalOverlayView (<[height := block_hash]> o.(ov_canonical_headers))
          o.(ov_parent_certificates) o.(ov_sessions), payments).

Definition register_parent_certificate `{Digests} (o : CanonicalOverlayView)
    (certificate : SessionParentCertificateV2) : result SettlementError CanonicalOverlayView :=
  if bool_decide (o.(ov_canonical_headers) !! certificate.(spc_parent_height)
                  ≠ Some certificate.(spc_parent_hash))
  then Err NoncanonicalParentCertificate
  else
    let certificate_id := object_id certificate in
    let tracked :=
      mkTrackedParentCertificate certificate.(spc_parent_height) certificate.(spc_parent_hash) true in
    match o.(ov_parent_certificates) !! certificate_id with
    | Some existing =>
        if bool_decide (existing ≠ tracked) then Err NoncanonicalParentCertificate else Ok o
    | None =>
        Ok (mkCanonicalOverlayView o.(ov_canonical_headers)
              (<[certificate_id := tracked]> o.(ov_parent_certificates)) o.(ov_sessions))
    end.

Definition register_session `{Digests} (o : CanonicalOverlayView) (session : MaskSessionV2) :
    result SettlementError CanonicalOverlayView :=
  parent ← ok_or
    (parent ← o.(ov_parent_certificates) !! session.(ms_parent_certificate_id);
     if parent.(tp_canonical) && bool_decide (parent.(tp_parent_hash) = session.(ms_parent_hash))
     then Some parent else None) NoncanonicalSessionParent;
  if bool_decide (o.(ov_canonical_headers) !! parent.(tp_parent_height)
                  ≠ Some parent.(tp_parent_hash))
  then Err NoncanonicalSessionParent
  else
    let session_id := object_id session in
    let tracked := mkTrackedOverlaySession session.(ms_parent_certificate_id) false in
    match o.(ov_sessions) !! session_id with
    | Some existing =>
        if bool_decide (existing ≠ tracked) then Err NoncanonicalSessionParent else Ok o
    | None =>
        Ok (mkCanonicalOverlayView o.(ov_canonical_headers) o.(ov_parent_certificates)
              (<[session_id := tracked]> o.(ov_sessions)))
    end.

(** A parent certificate on the disconnected block. *)
Definition parent_hit (height : Z) (block_hash : Hash256) (parent : TrackedParentCertificate) : bool :=
  parent.(tp_canonical) && (parent.(tp_parent_height) =? height)
  && bool_decide (parent.(tp_parent_hash) = block_hash).

Definition ov_disconnect_tip (o : CanonicalOverlayView) (height : Z) (block_hash : Hash256)
    (payments : PlanPaymentTracker) (entropy : EntropyPlanTracker) :
    result SettlementError
      (ReorgEffects * CanonicalOverlayView * PlanPaymentTracker * EntropyPlanTracker) :=
  if bool_decide (last_key_value o.(ov_canonical_headers) ≠ Some (height, block_hash))
  then Err DisconnectMismatch
  else
    payments ← pt_disconnect_tip payments block_hash;
    let headers := delete height o.(ov_canonical_headers) in
    let '(invalidated_plan_sequences, entropy) := disconnect_entropy_block entropy height block_hash in
    let payments := foldl invalidate_eligible payments (elements invalidated_plan_sequences) in
    let invalidated_parent_certificates :=
      dom (filter (λ e, parent_hit height block_hash e.2 = true) o.(ov_parent_certificates)) in
    let parents :=
      (λ parent, if parent_hit height block_hash parent
                 then mkTrackedParentCertificate parent.(tp_parent_height) parent.(tp_parent_hash) false
                 else parent) <$> o.(ov_parent_certificates) in
    let orphaned session :=
      bool_decide (session.(ts_parent_certificate_id) ∈ invalidated_parent_certificates) in
    let closed_sessions := dom (filter (λ e, orphaned e.2 = true) o.(ov_sessions)) in
    let sessions :=
      (λ session, if orphaned session
                  then mkTrackedOverlaySession session.(ts_parent_certificate_id) true
                  else session) <$> o.(ov_sessions) in
    Ok (mkReorgEffects invalidated_parent_certificates closed_sessions invalidated_plan_sequences
          true true,
        mkCanonicalOverlayView headers parents sessions, payments, entropy).

Definition is_parent_canonical (o : CanonicalOverlayView) (certificate_id : Hash256) : bool :=
  match o.(ov_parent_certificates) !! certificate_id with
  | Some parent => parent.(tp_canonical) | None => false
  end.

Definition session_closed_for_reorg (o : CanonicalOverlayView) (session_id : Hash256) : bool :=
  match o.(ov_sessions) !! session_id with
  | Some session => session.(ts_closed_for_reorg) | None => false
  end.

(** ** Least and greatest keys *)

Section best.
  Context (f : Z → Z → Z) (R : Z → Z → Prop).
  Context (Hrefl : ∀ x, R x x) (Htrans : ∀ x y z, R x y → R y z → R x z)
    (Hanti : ∀ x y, R x y → R y x → x = y)
    (Hf : ∀ x y, (f x y = x ∧ R x y) ∨ (f x y = y ∧ R y x)).

(** Folding a selector of the better element finds the best one. *)
Lemma fold_best_spec (l : list Z) x :
  foldr (λ x acc, Some (match acc with None => x | Some y => f x y end)) None l = Some x ↔
  x ∈ l ∧ ∀ y, y ∈ l → R x y.
Proof.
  revert x. induction l as [|a l IH]; intros x; cbn.
  - split; [done | intros [H _]; set_solver].
  - destruct (foldr _ None l) as [b|] eqn:Hl.
    + destruct (proj1 (IH b) eq_refl) as [Hb Hbest]. split.
      * intros [= <-]. destruct (Hf a b) as [[-> Hr]|[-> Hr]]; split; try set_solver;
          intros y [->|Hy]%elem_of_cons; eauto.
      * intros [Hx Hall]. f_equal.
        pose proof (Hall a ltac:(set_solver)). pose proof (Hall b ltac:(set_solver)).
        destruct (Hf a b) as [[-> Hr]|[-> Hr]]; apply Hanti; try done;
          apply elem_of_cons in Hx as [->|Hx]; eauto.
    + assert (l = []) as ->.
      { destruct l as [|c l]; [done|]. cbn in Hl. by destruct (foldr _ None l). }
      split; [intros [= <-]; split; [set_solver|] | intros [?%list_elem_of_singleton _]; by subst].
      intros y ->%list_elem_of_singleton. apply Hrefl.
Qed.
End best.

Lemma set_first_spec (X : gset Z) x :
  set_first X = Some x ↔ x ∈ X ∧ ∀ y, y ∈ X → x ≤ y.
Proof.
  setoid_rewrite <- elem_of_elements. apply (fold_best_spec Z.min Z.le); lia.
Qed.

Lemma set_last_spec (X : gset Z) x :
  set_last X = Some x ↔ x ∈ X ∧ ∀ y, y ∈ X → y ≤ x.
Proof.
  setoid_rewrite <- elem_of_elements. apply (fold_best_spec Z.max (λ x y, y ≤ x)); lia.
Qed.

Lemma last_key_value_spec {A} (m : gmap Z A) k x :
  last_key_value m = Some (k, x) ↔ m !! k = Some x ∧ ∀ k', is_Some (m !! k') → k' ≤ k.
Proof.
  unfold last_key_value. rewrite bind_Some. setoid_rewrite bind_Some.
  setoid_rewrite set_last_spec. setoid_rewrite elem_of_dom. split.
  - intros (k' & [_ Hk] & x' & Hx & [= -> ->]). done.
  - intros [Hx Hk]. exists k. split; [split; [by eexists|done]|]. by exists x.
Qed.

(** ** The payment tracker *)

(** What the tracker's two derived indexes mean. *)
Definition pt_history (t : PlanPaymentTracker) : list Z := omap snd t.(pt_canonical_payments).
Record pt_inv (t : PlanPaymentTracker) : Prop := mk_pt_inv {
  pt_inv_paid : t.(pt_paid_sequences) = list_to_set (pt_history t);
  pt_inv_payable : t.(pt_payable_sequences) = t.(pt_eligible_sequences) ∖ t.(pt_paid_sequences);
  pt_inv_once : NoDup (pt_history t);
}.

Lemma pt_inv_default : pt_inv PlanPaymentTracker_default.
Proof. split; cbn; [done | set_solver | constructor]. Qed.

Lemma pt_inv_add t s : pt_inv t → pt_inv (add_eligible t s).
Proof.
  intros [Hp Hq Hn]. split; [exact Hp| |exact Hn]. unfold add_eligible; cbn. rewrite Hq.
  apply set_eq; intros y.
  repeat case_bool_decide; cbn; destruct (decide (y = s)); set_solver.
Qed.

Lemma pt_inv_invalidate t s : pt_inv t → pt_inv (invalidate_eligible t s).
Proof.
  intros [Hp Hq Hn]. split; [exact Hp| |exact Hn]. unfold invalidate_eligible; cbn.
  rewrite Hq. set_solver.
Qed.

Lemma current_payable_spec t s :
  pt_inv t →
  current_payable t = Some s ↔
  (s ∈ t.(pt_eligible_sequences) ∧ s ∉ pt_history t) ∧
  ∀ s', s' ∈ t.(pt_eligible_sequences) → s' ∉ pt_history t → s ≤ s'.
Proof.
  intros [Hp Hq _]. unfold current_payable. rewrite set_first_spec, Hq, Hp.
  setoid_rewrite elem_of_difference. setoid_rewrite elem_of_list_to_set. naive_solver.
Qed.

Lemma pt_connect_inv t h p t' : pt_inv t → pt_connect_block t h p = Ok t' → pt_inv t'.
Proof.
  intros Ht. pose proof (current_payable_spec t) as Hc. destruct Ht as [Hp Hq Hn].
  unfold pt_connect_block. destruct p as [s|].
  - case_bool_decide as Hs; [done|]. intros [= <-].
    symmetry in Hs. apply Hc in Hs as [[He Hf] _]; [|by split].
    split; unfold pt_history; cbn; rewrite ?omap_app; cbn.
    + rewrite list_to_set_app_L. cbn. unfold pt_history in Hp. rewrite Hp. set_solver.
    + rewrite Hq. set_solver.
    + apply NoDup_app. split_and!; [done| |apply NoDup_singleton].
      intros x Hx ->%list_elem_of_singleton. done.
  - intros [= <-]. split; unfold pt_history; cbn; rewrite ?omap_app; cbn; rewrite ?app_nil_r; done.
Qed.

Lemma last_take_inv {A} (l : list A) x : last l = Some x → l = take (length l - 1) l ++ [x].
Proof.
  intros [k ->]%last_Some. rewrite length_app. cbn.
  replace (length k + 1 - 1)%nat with (length k) by lia. by rewrite take_app_length.
Qed.

Lemma pt_disconnect_inv t h t' : pt_inv t → pt_disconnect_tip t h = Ok t' → pt_inv t'.
Proof.
  intros [Hp Hq Hn]. unfold pt_disconnect_tip.
  destruct (last _) as [[tip p]|] eqn:Hl; [|done]. case_bool_decide; [done|].
  unfold pt_history in *. apply last_take_inv in Hl. revert Hl.
  generalize (take (length t.(pt_canonical_payments) - 1) t.(pt_canonical_payments)) as k.
  intros k Hl. rewrite Hl, omap_app in Hn. rewrite Hl, omap_app, list_to_set_app_L in Hp.
  cbn in Hn, Hp. destruct p as [s|]; cbn in Hn, Hp; intros [= <-]; split; unfold pt_history; cbn.
  - apply NoDup_app in Hn as (_ & Hd & _). rewrite Hp. cbn.
    assert (s ∉ omap snd k) by (intros Hk; by apply (Hd s Hk), list_elem_of_singleton). set_solver.
  - rewrite Hq. case_bool_decide; apply set_eq; intros y; destruct (decide (y = s)); set_solver.
  - by apply NoDup_app in Hn as [? _].
  - rewrite Hp. set_solver.
  - done.
  - by rewrite app_nil_r in Hn.
Qed.

(** The tracker as a state machine: every public method, failed calls
    leaving the tracker as it was. *)
Inductive pt_step : PlanPaymentTracker → PlanPaymentTracker → Prop :=
| pt_step_add t s : pt_step t (add_eligible t s)
| pt_step_invalidate t s : pt_step t (invalidate_eligible t s)
| pt_step_connect t h p t' : pt_connect_block t h p = Ok t' → pt_step t t'
| pt_step_disconnect t h t' : pt_disconnect_tip t h = Ok t' → pt_step t t'.

Lemma pt_reachable_inv t : rtc pt_step PlanPaymentTracker_default t → pt_inv t.
Proof.
  intros H. cut (∀ s, rtc pt_step s t → pt_inv s → pt_inv t).
  { intros Hc. apply (Hc _ H), pt_inv_default. }
  clear H. induction 1 as [|x y z Hxy _ IH]; [done|]. intros Hx. apply IH.
  destruct Hxy; eauto using pt_inv_add, pt_inv_invalidate, pt_connect_inv, pt_disconnect_inv.
Qed.

Lemma pt_connect_spec t h p :
  pt_inv t →
  (is_ok (pt_connect_block t h p) = true ↔ p = None ∨ p = current_payable t) ∧
  ∀ t', pt_connect_block t h p = Ok t' →
    t'.(pt_canonical_payments) = t.(pt_canonical_payments) ++ [(h, p)] ∧
    pt_disconnect_tip t' h = Ok t ∧
    match p with
    | Some s => s ∉ t.(pt_paid_sequences) ∧ s ∈ t.(pt_payable_sequences)
    | None => True
    end.
Proof.
  intros Ht. pose proof (current_payable_spec t) as Hc. destruct Ht as [Hp Hq Hn].
  unfold pt_connect_block. destruct p as [s|].
  - case_bool_decide as Hs; cbn.
    { split; [naive_solver | done]. }
    split; [naive_solver|]. intros t' [= <-]. cbn. split; [done|].
    symmetry in Hs. apply Hc in Hs as [[He Hf] _]; [|by split].
    assert (Hnp : s ∉ t.(pt_paid_sequences)) by (rewrite Hp; set_solver).
    split; [|split; [done | rewrite Hq; set_solver]].
    unfold pt_disconnect_tip; cbn. rewrite last_snoc, bool_decide_false by auto.
    rewrite length_app; cbn. replace (_ + 1 - 1)%nat with (length t.(pt_canonical_payments)) by lia.
    rewrite take_app_length, bool_decide_true by done. destruct t; cbn in *. f_equal. f_equal.
    + set_solver.
    + rewrite Hq. apply set_eq; intros y; destruct (decide (y = s)); set_solver.
  - cbn. split; [naive_solver|]. intros t' [= <-]. cbn. split_and!; [done| |done].
    unfold pt_disconnect_tip; cbn. rewrite last_snoc, bool_decide_false by auto.
    rewrite length_app; cbn. replace (_ + 1 - 1)%nat with (length t.(pt_canonical_payments)) by lia.
    rewrite take_app_length. by destruct t.
Qed.

Lemma pt_disconnect_spec t h :
  is_ok (pt_disconnect_tip t h) = true ↔ fst <$> last t.(pt_canonical_payments) = Some h.
Proof.
  unfold pt_disconnect_tip. destruct (last _) as [[tip p]|]; cbn; [|done].
  case_bool_decide; cbn; naive_solver.
Qed.

(** In every state the payment tracker can reach, the plans paid on the
    canonical chain are paid once each, the next payable plan is the least
    eligible plan that no canonical block has paid, a block is accepted exactly
    when it pays nothing or that plan, and disconnecting it gives back the
    tracker before it, eligibility included. The two assertions of
    [connect_block] hold: the paid plan was payable and not yet paid. *)
Lemma payment_tracker_exact t h p :
  rtc pt_step PlanPaymentTracker_default t →
  NoDup (pt_history t) ∧
  (∀ s, s ∈ t.(pt_paid_sequences) ↔ s ∈ pt_history t) ∧
  (∀ s, current_payable t = Some s ↔
    (s ∈ t.(pt_eligible_sequences) ∧ s ∉ pt_history t) ∧
    ∀ s', s' ∈ t.(pt_eligible_sequences) → s' ∉ pt_history t → s ≤ s') ∧
  (is_ok (pt_connect_block t h p) = true ↔ p = None ∨ p = current_payable t) ∧
  ∀ t', pt_connect_block t h p = Ok t' →
    t'.(pt_canonical_payments) = t.(pt_canonical_payments) ++ [(h, p)] ∧
    pt_disconnect_tip t' h = Ok t ∧
    match p with
    | Some s => s ∉ t.(pt_paid_sequences) ∧ s ∈ t.(pt_payable_sequences)
    | None => True
    end.
Proof.
  intros Ht%pt_reachable_inv. destruct (pt_connect_spec t h p Ht) as [Hok Hst].
  split_and!; [by apply Ht| |by intros s; apply current_payable_spec|done|done].
  intros s. rewrite pt_inv_paid by done. apply elem_of_list_to_set.
Qed.

(** Plans 4 and 2 become eligible; the next block pays plan 2. *)
Lemma payment_tracker_exact_witness :
  let t := add_eligible (add_eligible PlanPaymentTracker_default 4) 2 in
  rtc pt_step PlanPaymentTracker_default t ∧ current_payable t = Some 2 ∧
  ∀ h t', pt_connect_block t h (Some 2) = Ok t' → pt_disconnect_tip t' h = Ok t.
Proof.
  assert (Hr : rtc pt_step PlanPaymentTracker_default
                 (add_eligible (add_eligible PlanPaymentTracker_default 4) 2)).
  { eapply rtc_l; [constructor 1|]. apply rtc_once. constructor 1. }
  split; [exact Hr | split; [reflexivity|]]. intros h t' Ht'.
  destruct (payment_tracker_exact _ h (Some 2) Hr) as (_ & _ & _ & _ & Hc).
  by destruct (Hc _ Ht') as (_ & Hd & _).
Defined.

(** ** The canonical chain: overlay, payments and entropy together

    The caller keeps the three trackers side by side and drives them with one
    event at a time; a failed call changes nothing. Heights are below
    [u32::MAX], where [tip_height.saturating_add(1)] is the next height
    ([connect_twice_at_max_height] shows what happens at the bound). *)

Record CanonicalState := mkCanonicalState {
  cs_overlay : CanonicalOverlayView;
  cs_payments : PlanPaymentTracker;
  cs_entropy : EntropyPlanTracker;
}.
Definition CanonicalState_default : CanonicalState :=
  mkCanonicalState CanonicalOverlayView_default PlanPaymentTracker_default ∅.

Inductive canonical_step `{Digests} : CanonicalState → CanonicalState → Prop :=
| cs_connect o t e height h p o' t' :
    0 ≤ height < U32_MAX → ov_connect_block o height h p t = Ok (o', t') →
    canonical_step (mkCanonicalState o t e) (mkCanonicalState o' t' e)
| cs_disconnect o t e height h fx o' t' e' :
    ov_disconnect_tip o height h t e = Ok (fx, o', t', e') →
    canonical_step (mkCanonicalState o t e) (mkCanonicalState o' t' e')
| cs_certificate o t e c o' :
    register_parent_certificate o c = Ok o' →
    canonical_step (mkCanonicalState o t e) (mkCanonicalState o' t e)
| cs_session o t e m o' :
    register_session o m = Ok o' →
    canonical_step (mkCanonicalState o t e) (mkCanonicalState o' t e)
| cs_plan o t e plan e' :
    entropy_register e plan = Ok e' →
    canonical_step (mkCanonicalState o t e) (mkCanonicalState o t e')
| cs_eligible o t e s :
    canonical_step (mkCanonicalState o t e) (mkCanonicalState o (add_eligible t s) e)
| cs_ineligible o t e s :
    canonical_step (mkCanonicalState o t e) (mkCanonicalState o (invalidate_eligible t s) e).

(** The overlay's headers are the blocks of the payment record, at
    consecutive heights. *)
Definition lockstep_at (base : Z) (headers : gmap Z Hash256) (blocks : list Hash256) : Prop :=
  (∀ k x, headers !! k = Some x ↔ ∃ i : nat, k = base + Z.of_nat i ∧ blocks !! i = Some x) ∧
  0 ≤ base ∧ (blocks = [] ∨ base + Z.of_nat (length blocks) ≤ U32_MAX).
Definition lockstep (o : CanonicalOverlayView) (t : PlanPaymentTracker) : Prop :=
  ∃ base, lockstep_at base o.(ov_canonical_headers) t.(pt_canonical_payments).*1.

Record canonical_inv (st : CanonicalState) : Prop := mk_canonical_inv {
  ci_payments : pt_inv st.(cs_payments);
  ci_lockstep : lockstep st.(cs_overlay) st.(cs_payments);
  ci_parents id c :
    st.(cs_overlay).(ov_parent_certificates) !! id = Some c → c.(tp_canonical) = true →
    st.(cs_overlay).(ov_canonical_headers) !! c.(tp_parent_height) = Some c.(tp_parent_hash);
  ci_sessions id s :
    st.(cs_overlay).(ov_sessions) !! id = Some s →
    ∃ c, st.(cs_overlay).(ov_parent_certificates) !! s.(ts_parent_certificate_id) = Some c ∧
         s.(ts_closed_for_reorg) = negb c.(tp_canonical);
}.

Lemma lockstep_tip base headers blocks k x :
  lockstep_at base headers blocks →
  last_key_value headers = Some (k, x) ↔
  last blocks = Some x ∧ k = base + Z.of_nat (length blocks) - 1.
Proof.
  intros (Hh & _ & _). rewrite last_key_value_spec, last_lookup. split.
  - intros [Hk Hmax]. apply Hh in Hk as (i & -> & Hi).
    assert (Hlen := lookup_lt_Some _ _ _ Hi).
    destruct (lookup_lt_is_Some_2 blocks (pred (length blocks))) as [y Hy]; [lia|].
    assert (base + Z.of_nat (pred (length blocks)) ≤ base + Z.of_nat i).
    { apply Hmax. exists y. apply Hh. eauto. }
    assert (i = pred (length blocks)) as -> by lia. split; [done | lia].
  - intros [Hx ->]. assert (Hlen := lookup_lt_Some _ _ _ Hx). split.
    + apply Hh. exists (pred (length blocks)). split; [lia | done].
    + intros k' [y Hy]. apply Hh in Hy as (i & -> & Hi). apply lookup_lt_Some in Hi. lia.
Qed.

Lemma lockstep_empty base headers : lockstep_at base headers [] ↔ headers = ∅ ∧ 0 ≤ base.
Proof.
  split.
  - intros (Hh & Hb & _). split; [|done]. apply map_empty. intros k.
    destruct (headers !! k) eqn:Hk; [|done]. apply Hh in Hk as (i & _ & Hi).
    by rewrite lookup_nil in Hi.
  - intros [-> Hb]. split_and!; [|done|by left]. intros k x. rewrite lookup_empty.
    setoid_rewrite lookup_nil. naive_solver.
Qed.

Lemma lockstep_snoc base headers blocks x :
  lockstep_at base headers blocks →
  base + Z.of_nat (length blocks) < U32_MAX →
  lockstep_at base (<[base + Z.of_nat (length blocks) := x]> headers) (blocks ++ [x]).
Proof.
  intros (Hh & Hb & _) Hmax. split_and!; [|done|right; rewrite length_app; cbn; lia].
  intros k y. rewrite lookup_insert_Some, Hh. setoid_rewrite lookup_snoc_Some. split.
  - intros [[<- ->]|[Hne (i & -> & Hi)]].
    + exists (length blocks). auto.
    + exists i. apply lookup_lt_Some in Hi as ?. eauto.
  - intros (i & -> & [[Hi Hy]|[-> <-]]); [|by left]. right. split; [lia | eauto].
Qed.

Lemma lockstep_pop base headers blocks x :
  lockstep_at base headers (blocks ++ [x]) →
  lockstep_at base (delete (base + Z.of_nat (length blocks)) headers) blocks.
Proof.
  intros (Hh & Hb & Hmax). split_and!; [|done|].
  - intros k y. rewrite lookup_delete_Some, Hh. setoid_rewrite lookup_snoc_Some. split.
    + intros [Hne (i & -> & [[Hi Hy]|[-> <-]])]; [eauto | done].
    + intros (i & -> & Hi). apply lookup_lt_Some in Hi as ?. split; [lia | eauto].
  - destruct Hmax as [Hmax|Hmax]; [by apply app_nil in Hmax as [_ ?]|].
    rewrite length_app in Hmax. cbn in Hmax. right. lia.
Qed.

(** Case analysis on the outermost conditional of a goal [(if c then _ else _) = _ → _]. *)
Ltac if_true H :=
  match goal with |- (if ?c then _ else _) = _ → _ => destruct c eqn:H end.

Lemma foldl_invalidate l t :
  foldl invalidate_eligible t l =
  mkPlanPaymentTracker (t.(pt_eligible_sequences) ∖ list_to_set l) t.(pt_canonical_payments)
    t.(pt_paid_sequences) (t.(pt_payable_sequences) ∖ list_to_set l).
Proof.
  revert t. induction l as [|s l IH]; intros t; cbn.
  - rewrite !difference_empty_L. by destruct t.
  - rewrite IH. unfold invalidate_eligible; cbn. f_equal; set_solver.
Qed.

Lemma foldl_invalidate_inv l t : pt_inv t → pt_inv (foldl invalidate_eligible t l).
Proof. revert t. induction l; cbn; eauto using pt_inv_invalidate. Qed.

(** Both trackers accept the same blocks, so neither call leaves the other
    view behind. *)
Lemma lockstep_connect o t height h p o' t' :
  lockstep o t → 0 ≤ height < U32_MAX →
  ov_connect_block o height h p t = Ok (o', t') →
  pt_connect_block t h p = Ok t' ∧ lockstep o' t' ∧
  o' = mkCanonicalOverlayView (<[height := h]> o.(ov_canonical_headers))
         o.(ov_parent_certificates) o.(ov_sessions) ∧
  o.(ov_canonical_headers) !! height = None.
Proof.
  intros [base Hl] Hh. unfold ov_connect_block.
  if_true Htip; [done|]. if_true Hdup; [done|]. rewrite bind_ok. intros (t1 & Ht & [= <- <-]).
  assert (Hpay : t1.(pt_canonical_payments) = t.(pt_canonical_payments) ++ [(h, p)]).
  { unfold pt_connect_block in Ht. case_match; [done|]. injection Ht as <-. by destruct p. }
  split; [done|]. unfold lockstep. rewrite Hpay, fmap_app. cbn.
  destruct (last t.(pt_canonical_payments).*1) as [x|] eqn:Hlast.
  - rewrite (proj2 (lockstep_tip _ _ _ _ _ Hl) (conj Hlast eq_refl)) in Htip.
    apply negb_false_iff, Z.eqb_eq in Htip. unfold saturating_add, U32_MAX in *.
    assert (Hlen : (0 < length t.(pt_canonical_payments).*1)%nat).
    { destruct t.(pt_canonical_payments).*1; [done | cbn; lia]. }
    assert (height = base + Z.of_nat (length t.(pt_canonical_payments).*1)) as -> by lia.
    split; [exists base; apply lockstep_snoc; [done | unfold U32_MAX; lia]|]. split; [done|].
    destruct (o.(ov_canonical_headers) !! _) as [y|] eqn:Hy; [|done].
    apply Hl in Hy as (i & Hi & Hlt%lookup_lt_Some). lia.
  - apply last_None in Hlast. rewrite Hlast in Hl |- *.
    apply lockstep_empty in Hl as [Hem _]. rewrite Hem.
    split; [|split; [done | by rewrite lookup_empty]]. exists height. cbn.
    pose proof (lockstep_snoc height ∅ [] h) as Hs. cbn in Hs. rewrite Z.add_0_r in Hs.
    apply Hs; [apply lockstep_empty; split; [done | lia] | lia].
Qed.

(** A canonical certificate on a block, a canonical plan that used it. *)
Definition parent_on (height : Z) (h : Hash256) (c : TrackedParentCertificate) : Prop :=
  c.(tp_canonical) = true ∧ c.(tp_parent_height) = height ∧ c.(tp_parent_hash) = h.
Definition plan_on (height : Z) (h : Hash256) (plan : TrackedEntropyPlan) : Prop :=
  plan.(te_canonical) = true ∧ (height, h) ∈ plan.(te_entropy_blocks).
#[export] Instance parent_on_dec height h c : Decision (parent_on height h c).
Proof. unfold parent_on. apply _. Defined.
#[export] Instance plan_on_dec height h plan : Decision (plan_on height h plan).
Proof. unfold plan_on. apply _. Defined.

Lemma parent_hit_on height h c : parent_hit height h c = bool_decide (parent_on height h c).
Proof.
  unfold parent_hit. apply eq_bool_prop_intro. rewrite bool_decide_spec. unfold parent_on.
  rewrite !Is_true_true, !andb_true_iff, Z.eqb_eq, bool_decide_eq_true. tauto.
Qed.
Lemma plan_hit_on height h plan : plan_hit height h plan = bool_decide (plan_on height h plan).
Proof.
  unfold plan_hit. apply eq_bool_prop_intro. rewrite bool_decide_spec. unfold plan_on.
  by rewrite Is_true_true, andb_true_iff, bool_decide_eq_true.
Qed.

Definition drop_parent (height : Z) (h : Hash256) (c : TrackedParentCertificate) : TrackedParentCertificate :=
  mkTrackedParentCertificate c.(tp_parent_height) c.(tp_parent_hash)
    (c.(tp_canonical) && negb (bool_decide (parent_on height h c))).

Lemma lockstep_disconnect o t e height h :
  lockstep o t →
  last_key_value o.(ov_canonical_headers) = Some (height, h) →
  ∃ t1 fx o' t' e',
    pt_disconnect_tip t h = Ok t1 ∧
    ov_disconnect_tip o height h t e = Ok (fx, o', t', e') ∧
    t' = foldl invalidate_eligible t1 (elements fx.(re_invalidated_plan_sequences)) ∧
    o'.(ov_canonical_headers) = delete height o.(ov_canonical_headers) ∧
    lockstep o' t'.
Proof.
  intros [base Hl] Htip. pose proof Htip as Hk.
  apply (lockstep_tip _ _ _ _ _ Hl) in Hk as [Hlast ->].
  rewrite fmap_last in Hlast. destruct (last t.(pt_canonical_payments)) as [[h' p]|] eqn:Hlp; [|done].
  cbn in Hlast. injection Hlast as ->.
  assert (∃ t1, pt_disconnect_tip t h = Ok t1) as [t1 Ht1].
  { pose proof (pt_disconnect_spec t h) as Hs. rewrite Hlp in Hs.
    destruct (pt_disconnect_tip t h) as [t1|] eqn:Hd; [by exists t1|].
    destruct Hs as [_ Hs]. by discriminate Hs. }
  exists t1. unfold ov_disconnect_tip. rewrite Htip, bool_decide_false by auto.
  rewrite Ht1. cbn. do 4 eexists. split_and!; [done..|]. cbn. exists base. cbn.
  rewrite foldl_invalidate. cbn.
  assert (Hp1 : t.(pt_canonical_payments) = t1.(pt_canonical_payments) ++ [(h, p)]).
  { unfold pt_disconnect_tip in Ht1. rewrite Hlp in Ht1. rewrite bool_decide_false in Ht1 by auto.
    rewrite (last_take_inv _ _ Hlp) at 1. injection Ht1 as <-. by destruct p. }
  rewrite Hp1, fmap_app in Hl |- *. cbn in Hl |- *. rewrite length_app. cbn.
  replace (base + _ - 1) with (base + Z.of_nat (length t1.(pt_canonical_payments).*1)) by lia.
  by apply lockstep_pop in Hl.
Qed.

Definition drop_plan (height : Z) (h : Hash256) (plan : TrackedEntropyPlan) : TrackedEntropyPlan :=
  mkTrackedEntropyPlan plan.(te_sequence) plan.(te_entropy_blocks)
    (plan.(te_canonical) && negb (bool_decide (plan_on height h plan))).
Definition close_session (dropped : gset Hash256) (s : TrackedOverlaySession) : TrackedOverlaySession :=
  mkTrackedOverlaySession s.(ts_parent_certificate_id)
    (s.(ts_closed_for_reorg) || bool_decide (s.(ts_parent_certificate_id) ∈ dropped)).

(** What a disconnect did, given that it succeeded. *)
Record disconnect_effects (o : CanonicalOverlayView) (e : EntropyPlanTracker) (height : Z)
    (h : Hash256) (fx : ReorgEffects) (o' : CanonicalOverlayView) (e' : EntropyPlanTracker) :
    Prop := mk_disconnect_effects {
  de_certificates id : id ∈ fx.(re_invalidated_parent_certificates) ↔
    ∃ c, o.(ov_parent_certificates) !! id = Some c ∧ parent_on height h c;
  de_parents : o'.(ov_parent_certificates) = drop_parent height h <$> o.(ov_parent_certificates);
  de_closed id : id ∈ fx.(re_closed_sessions) ↔
    ∃ s, o.(ov_sessions) !! id = Some s ∧
         s.(ts_parent_certificate_id) ∈ fx.(re_invalidated_parent_certificates);
  de_sessions : o'.(ov_sessions) =
    close_session fx.(re_invalidated_parent_certificates) <$> o.(ov_sessions);
  de_sequences s : s ∈ fx.(re_invalidated_plan_sequences) ↔
    ∃ id plan, e !! id = Some plan ∧ plan_on height h plan ∧ plan.(te_sequence) = s;
  de_plans : e' = drop_plan height h <$> e;
  de_evidence : fx.(re_retain_share_and_body_evidence) = true;
  de_recompute : fx.(re_recompute_current_payable_plan) = true;
}.

Lemma disconnect_tip_effects o height h t e fx o' t' e' :
  ov_disconnect_tip o height h t e = Ok (fx, o', t', e') →
  disconnect_effects o e height h fx o' e'.
Proof.
  unfold ov_disconnect_tip. if_true Htip; [done|]. rewrite bind_ok.
  intros (t1 & _ & Heq). cbn in Heq. injection Heq as <- <- _ <-. split; cbn.
  - intros id. rewrite elem_of_dom. unfold is_Some. setoid_rewrite map_lookup_filter_Some.
    cbn. setoid_rewrite parent_hit_on. by setoid_rewrite bool_decide_eq_true.
  - apply map_fmap_ext. intros id c _. unfold drop_parent. rewrite parent_hit_on.
    destruct (bool_decide (parent_on height h c)).
    + by rewrite andb_false_r.
    + rewrite andb_true_r. by destruct c.
  - intros id. rewrite elem_of_dom. unfold is_Some. setoid_rewrite map_lookup_filter_Some.
    setoid_rewrite bool_decide_eq_true. done.
  - apply map_fmap_ext. intros id s _. unfold close_session.
    destruct (bool_decide (s.(ts_parent_certificate_id) ∈ _)).
    + by rewrite orb_true_r.
    + rewrite orb_false_r. by destruct s.
  - intros s. rewrite elem_of_list_to_set, list_elem_of_fmap.
    setoid_rewrite list_elem_of_filter. setoid_rewrite plan_hit_on.
    setoid_rewrite bool_decide_eq_true. split.
    + intros ([id plan] & -> & Hhit & Hin%elem_of_map_to_list). eauto.
    + intros (id & plan & Hin%elem_of_map_to_list & Hhit & <-). by exists (id, plan).
  - apply map_fmap_ext. intros id p _. unfold drop_plan. rewrite plan_hit_on.
    destruct (bool_decide (plan_on height h p)).
    + by rewrite andb_false_r.
    + rewrite andb_true_r. by destruct p.
  - done.
  - done.
Qed.

Lemma ov_disconnect_ok o height h t e r :
  ov_disconnect_tip o height h t e = Ok r →
  last_key_value o.(ov_canonical_headers) = Some (height, h).
Proof. unfold ov_disconnect_tip. case_bool_decide; done. Qed.

Lemma drop_parent_clear height h c : ¬ parent_on height h (drop_parent height h c).
Proof.
  unfold parent_on at 1. cbn. rewrite andb_true_iff, negb_true_iff, bool_decide_eq_false.
  unfold parent_on. tauto.
Qed.

Lemma drop_plan_clear height h p : ¬ plan_on height h (drop_plan height h p).
Proof.
  unfold plan_on at 1. cbn. rewrite andb_true_iff, negb_true_iff, bool_decide_eq_false.
  unfold plan_on. tauto.
Qed.

(** The payment a disconnect takes back. *)
Lemma pt_disconnect_payment t h t1 :
  pt_disconnect_tip t h = Ok t1 →
  t1.(pt_eligible_sequences) = t.(pt_eligible_sequences) ∧
  ∃ p, t.(pt_canonical_payments) = t1.(pt_canonical_payments) ++ [(h, p)] ∧
    t1.(pt_paid_sequences) = t.(pt_paid_sequences) ∖ from_option singleton ∅ p.
Proof.
  unfold pt_disconnect_tip. destruct (last _) as [[h' p]|] eqn:Hl; [|done].
  case_bool_decide as Hh; [done|]. subst h'. apply last_take_inv in Hl.
  intros Hok. destruct p as [s|]; injection Hok as <-; cbn; (split; [done|]); eexists; (split; [done|]); set_solver.
Qed.

Section canonical.
  Context `{Digests}.

Lemma canonical_inv_default : canonical_inv CanonicalState_default.
Proof.
  split; cbn; [apply pt_inv_default | | intros id c; by rewrite lookup_empty
              | intros id s; by rewrite lookup_empty].
  exists 0. by apply lockstep_empty.
Qed.

Lemma inv_connect o t e height h p o' t' :
  canonical_inv (mkCanonicalState o t e) → 0 ≤ height < U32_MAX →
  ov_connect_block o height h p t = Ok (o', t') → canonical_inv (mkCanonicalState o' t' e).
Proof.
  intros [Hp Hl Hc Hs] Hh Hok; cbn in *.
  destruct (lockstep_connect _ _ _ _ _ _ _ Hl Hh Hok) as (Ht & Hl' & -> & Hfree).
  split; cbn; [by eapply pt_connect_inv | done | | done].
  intros id c Hid Hcan. specialize (Hc id c Hid Hcan).
  rewrite lookup_insert_ne; [done|]. intros ->. by rewrite Hfree in Hc.
Qed.

Lemma inv_disconnect o t e height h fx o' t' e' :
  canonical_inv (mkCanonicalState o t e) →
  ov_disconnect_tip o height h t e = Ok (fx, o', t', e') →
  canonical_inv (mkCanonicalState o' t' e').
Proof.
  intros [Hp Hl Hc Hs] Hok; cbn in *.
  pose proof (disconnect_tip_effects _ _ _ _ _ _ _ _ _ Hok) as He.
  pose proof (ov_disconnect_ok _ _ _ _ _ _ Hok) as Htip.
  destruct (lockstep_disconnect o t e height h Hl Htip) as (t1 & fx1 & o1 & t2 & e1 & Ht1 & Hok1 & Ht2 & Hh & Hl').
  rewrite Hok1 in Hok. injection Hok as -> -> -> ->.
  apply last_key_value_spec in Htip as [Htip _].
  split; cbn; [subst; by eapply foldl_invalidate_inv, pt_disconnect_inv | done | | ].
  - intros id c. rewrite (de_parents _ _ _ _ _ _ _ He), lookup_fmap, Hh.
    destruct (_ !! id) as [c0|] eqn:Hid; [|done]. cbn. intros [= <-]. cbn.
    rewrite andb_true_iff, negb_true_iff, bool_decide_eq_false. intros [Hcan Hhit].
    specialize (Hc id c0 Hid Hcan). rewrite lookup_delete_ne; [done|].
    intros Heq. rewrite <- Heq, Htip in Hc. injection Hc as Hhash. by apply Hhit.
  - intros id s. rewrite (de_sessions _ _ _ _ _ _ _ He), lookup_fmap.
    destruct (_ !! id) as [s0|] eqn:Hid; [|done]. cbn. intros [= <-]. cbn.
    destruct (Hs id s0 Hid) as (c & Hcid & Hclosed). exists (drop_parent height h c).
    rewrite (de_parents _ _ _ _ _ _ _ He), lookup_fmap, Hcid. split; [done|]. cbn.
    rewrite Hclosed, negb_andb, negb_involutive. f_equal.
    apply bool_decide_ext. rewrite (de_certificates _ _ _ _ _ _ _ He). split; [|eauto].
    intros (c' & Hc' & Hhit'). congruence.
Qed.

Lemma inv_certificate o t e c o' :
  canonical_inv (mkCanonicalState o t e) → register_parent_certificate o c = Ok o' →
  canonical_inv (mkCanonicalState o' t e).
Proof.
  intros [Hp Hl Hc Hs]; cbn in *. unfold register_parent_certificate.
  case_bool_decide as Hhdr; [done|].
  destruct (_ !! object_id c) as [c0|] eqn:Hid.
  { if_true Hne; [done|]. intros [= <-]. by split. }
  intros [= <-]. split; cbn; [done..| |].
  - intros id c'. rewrite lookup_insert_Some. intros [[<- <-]|[_ Hid']]; [done | by eapply Hc].
  - intros id s Hs'. destruct (Hs id s Hs') as (c' & Hc' & Hcl). exists c'.
    split; [|done]. rewrite lookup_insert_ne; [done|]. congruence.
Qed.

Lemma inv_session o t e m o' :
  canonical_inv (mkCanonicalState o t e) → register_session o m = Ok o' →
  canonical_inv (mkCanonicalState o' t e).
Proof.
  intros [Hp Hl Hc Hs]; cbn in *. unfold register_session.
  rewrite bind_ok. intros (c & Hpar & Hok). revert Hok. if_true Hhdr; [done|].
  destruct (_ !! object_id m) as [s0|] eqn:Hid.
  { if_true Hne; [done|]. intros [= <-]. by split. }
  intros [= <-]. split; cbn; [done..|].
  intros id s. rewrite lookup_insert_Some. intros [[<- <-]|[_ Hid']]; [cbn | by eapply Hs].
  apply ok_or_ok, bind_Some in Hpar as (c' & Hc' & Hcan). exists c'. split; [done|].
  destruct (tp_canonical c'); done.
Qed.

Lemma canonical_reachable_inv st : rtc canonical_step CanonicalState_default st → canonical_inv st.
Proof.
  intros H0. cut (∀ s, rtc canonical_step s st → canonical_inv s → canonical_inv st).
  { intros Hc. apply (Hc _ H0), canonical_inv_default. }
  clear H0. induction 1 as [|x y z Hxy _ IH]; [done|]. intros Hx. apply IH.
  destruct Hxy; eauto using inv_connect, inv_disconnect, inv_certificate, inv_session.
  - by destruct Hx.
  - destruct Hx as [Hp Hl Hc Hs]; split; cbn in *; try done. by apply pt_inv_add.
  - destruct Hx as [Hp Hl Hc Hs]; split; cbn in *; try done. by apply pt_inv_invalidate.
Qed.
End canonical.

(** In every state the canonical views can reach together, the overlay's
    headers are exactly the blocks of the payment record at consecutive
    heights, a parent certificate is canonical only while its block is on the
    recorded chain, and a session is closed for a reorganization exactly when
    its parent certificate has been invalidated. *)
Lemma canonical_views_agree `{Digests} st :
  rtc canonical_step CanonicalState_default st →
  lockstep st.(cs_overlay) st.(cs_payments) ∧
  (∀ id, is_parent_canonical st.(cs_overlay) id = true →
     ∃ c, st.(cs_overlay).(ov_parent_certificates) !! id = Some c ∧
          st.(cs_overlay).(ov_canonical_headers) !! c.(tp_parent_height) = Some c.(tp_parent_hash)) ∧
  ∀ id s, st.(cs_overlay).(ov_sessions) !! id = Some s →
    session_closed_for_reorg st.(cs_overlay) id =
    negb (is_parent_canonical st.(cs_overlay) s.(ts_parent_certificate_id)).
Proof.
  intros [_ Hl Hc Hs]%canonical_reachable_inv. split_and!; [done| |].
  - intros id. unfold is_parent_canonical. destruct (_ !! id) as [c|] eqn:Hid; [|done].
    intros Hcan. exists c. eauto.
  - intros id s Hid. unfold session_closed_for_reorg, is_parent_canonical. rewrite Hid.
    destruct (Hs id s Hid) as (c & -> & ->). done.
Qed.

(** What a disconnect that took back the payment [p] and invalidated the plans [dropped] leaves of the payments. *)
Record payment_undone (t : PlanPaymentTracker) (h : Hash256) (p : option Z) (dropped : gset Z) (t' : PlanPaymentTracker) : Prop := {
  pu_payments : t.(pt_canonical_payments) = t'.(pt_canonical_payments) ++ [(h, p)];
  pu_paid : t'.(pt_paid_sequences) = t.(pt_paid_sequences) ∖ from_option singleton ∅ p;
  pu_eligible : t'.(pt_eligible_sequences) = t.(pt_eligible_sequences) ∖ dropped;
  pu_payable : t'.(pt_payable_sequences) = t.(pt_eligible_sequences) ∖ dropped ∖ t'.(pt_paid_sequences);
  pu_history s : s ∈ t'.(pt_paid_sequences) ↔ s ∈ pt_history t';
}.

Lemma pt_disconnect_undone t h t1 dropped :
  pt_inv t → pt_disconnect_tip t h = Ok t1 →
  ∃ p, payment_undone t h p dropped (foldl invalidate_eligible t1 (elements dropped)).
Proof.
  intros Hinv Hok. pose proof (pt_disconnect_inv _ _ _ Hinv Hok) as [Hp1 Hq1 _].
  destruct (pt_disconnect_payment _ _ _ Hok) as (Hel & p & Hpay & Hpaid). exists p.
  rewrite foldl_invalidate, list_to_set_elements_L. split; cbn.
  - done.
  - done.
  - by rewrite Hel.
  - rewrite Hq1, Hel. set_solver.
  - intros s. rewrite Hp1. unfold pt_history. cbn. by rewrite elem_of_list_to_set.
Qed.


(** Two blocks, a certificate on the tip and its disconnection. *)
Definition demo_certificate : SessionParentCertificateV2 :=
  mkSessionParentCertificateV2 2 0 (replicate 32 x07) 11 (replicate 32 x00) 1700000000 1
    (replicate 32 x00) empty_ed25519.
Definition demo_canonical : result SettlementError CanonicalState :=
  '(o, t) ← ov_connect_block CanonicalOverlayView_default 10 (replicate 32 x06) None
              (add_eligible PlanPaymentTracker_default 3);
  '(o, t) ← ov_connect_block o 11 (replicate 32 x07) (Some 3) t;
  o ← @register_parent_certificate toy_digests o demo_certificate;
  Ok (mkCanonicalState o t ∅).

Lemma demo_canonical_reachable st :
  demo_canonical = Ok st → rtc (@canonical_step toy_digests) CanonicalState_default st.
Proof.
  unfold demo_canonical. rewrite bind_ok. intros ([o1 t1] & H1 & H2).
  apply bind_ok in H2 as ([o2 t2] & H2 & H3). apply bind_ok in H3 as (o3 & H3 & [= <-]).
  eapply rtc_l; [apply (@cs_eligible toy_digests _ _ _ 3)|].
  eapply rtc_l; [by eapply cs_connect; [|exact H1]|].
  eapply rtc_l; [by eapply cs_connect; [|exact H2]|].
  apply rtc_once. by eapply cs_certificate.
Qed.

Lemma canonical_views_agree_witness :
  match demo_canonical with
  | Ok st => lockstep st.(cs_overlay) st.(cs_payments) ∧
             st.(cs_overlay).(ov_canonical_headers) !! 11 = Some (replicate 32 x07)
  | Err _ => False
  end.
Proof.
  assert (He : (λ st, st.(cs_overlay).(ov_canonical_headers) !! 11) <$> demo_canonical
               = Ok (Some (replicate 32 x07))) by (vm_compute; reflexivity).
  pose proof demo_canonical_reachable as Hr. destruct demo_canonical as [st|]; [|done].
  injection He as He. split; [|exact He].
  apply (@canonical_views_agree toy_digests), Hr. reflexivity.
Defined.


(** At the last 32-bit height the saturating next height is the tip's own: the
    tip block is accepted a second time, and only the payment record grows. *)
Lemma connect_twice_at_max_height :
  let h := replicate 32 x06 in
  ('(o, t) ← ov_connect_block CanonicalOverlayView_default U32_MAX h None PlanPaymentTracker_default;
   '(o, t) ← ov_connect_block o U32_MAX h None t;
   Ok (o.(ov_canonical_headers), t.(pt_canonical_payments)))
  = Ok ({[U32_MAX := h]}, [(h, None); (h, None)]).
Proof. vm_compute. reflexivity. Qed.
