(* ===== verification/Body.v ===== *)
(** * Block bodies and the coinbase layout (crates/meshmine-body/src/lib.rs)

    The coinbase commitment, the ordered coinbase output skeleton with its
    weight reservation, the validation-result hash and the body package. The
    [read] and [write] helpers of the crate are those of [Header.v]. *)

From S2P Require Import Prelude Codec Hash Types Objects Header.

Definition COINBASE_COMMITMENT_MAGIC : bytes := str "HNSM".
Definition COINBASE_COMMITMENT_SIZE : nat := 147.
Definition VALIDATION_DOMAIN : bytes := str "meshmine/consensus-validation-result/v3".

Inductive BodyError :=
| InvalidCommitmentLength (actual : Z)
| InvalidCommitmentMagic
| TemplateIdMismatch
| TemplateContextMismatch
| UnsortedOutputs
| InvalidPayoutAddress
| PayoutSizeOverflow.

Record CoinbaseCommitmentV2 := mkCoinbaseCommitmentV2 {
  cc_protocol_version : Z;
  cc_network_id : Z;
  cc_template_core_id : Hash256;
  cc_payout_snapshot_id : Hash256;
  cc_payout_plan_id : Hash256;
  cc_plan_sequence : Z;
  cc_operator_key_hash : Hash256;
  cc_flags : Z;
}.

Record PayoutOutput := mkPayoutOutput {
  po_hns_address_version : Z;
  po_hns_address_hash : bytes;
  po_value : Z;
}.
#[export] Instance PayoutOutput_eq_dec : EqDecision PayoutOutput.
Proof. solve_decision. Defined.

Record CoinbaseOutputSkeleton := mkCoinbaseOutputSkeleton {
  first_work_or_fallback : PayoutOutput;
  mandatory_claim_airdrop_outputs : list PayoutOutput;
  remaining_work_outputs : list PayoutOutput;
  service_outputs : list PayoutOutput;
  operator_fee_output : option PayoutOutput;
}.

Record PayoutWeightReservation := mkPayoutWeightReservation {
  final_output_count : Z;
  ordinary_payout_output_count : Z;
  reserved_base_bytes : Z;
  reserved_weight : Z;
}.

(** ** The coinbase commitment *)

Definition for_template `{Digests} (template : TemplateCoreV2) (flags : Z) : CoinbaseCommitmentV2 :=
  mkCoinbaseCommitmentV2 template.(tc_protocol_version) template.(tc_network_id)
    (object_id template) template.(tc_payout_snapshot_id) template.(tc_payout_plan_id)
    template.(tc_plan_sequence) (blake2b_256 [template.(tc_operator_pubkey)]) flags.

Definition cc_pieces (c : CoinbaseCommitmentV2) : list bytes :=
  [COINBASE_COMMITMENT_MAGIC; to_le 2 c.(cc_protocol_version); to_le 1 c.(cc_network_id);
   c.(cc_template_core_id); c.(cc_payout_snapshot_id); c.(cc_payout_plan_id);
   to_le 8 c.(cc_plan_sequence); c.(cc_operator_key_hash); to_le 4 c.(cc_flags)].
Definition cc_encode (c : CoinbaseCommitmentV2) : bytes :=
  written COINBASE_COMMITMENT_SIZE (cc_pieces c).

Definition cc_read : reader CoinbaseCommitmentV2 :=
  protocol_version ← read_array 2;
  network_id ← read_array 1;
  template_core_id ← read_array 32;
  payout_snapshot_id ← read_array 32;
  payout_plan_id ← read_array 32;
  plan_sequence ← read_array 8;
  operator_key_hash ← read_array 32;
  flags ← read_array 4;
  mret (mkCoinbaseCommitmentV2 (of_le protocol_version) (of_le network_id) template_core_id
          payout_snapshot_id payout_plan_id (of_le plan_sequence) operator_key_hash (of_le flags)).

Definition cc_decode (data : bytes) : result BodyError CoinbaseCommitmentV2 :=
  if negb (len data =? Z.of_nat COINBASE_COMMITMENT_SIZE)
  then Err (InvalidCommitmentLength (len data))
  else if bool_decide (take 4 data ≠ COINBASE_COMMITMENT_MAGIC)
  then Err InvalidCommitmentMagic
  else Ok (cc_read data 4%nat).1.

(** ** Coinbase outputs *)

(** [(a.version, &a.hash) <= (b.version, &b.hash)] *)
Definition destination_leb (a b : PayoutOutput) : bool :=
  (a.(po_hns_address_version) <? b.(po_hns_address_version))
  || ((a.(po_hns_address_version) =? b.(po_hns_address_version))
      && bytes_leb a.(po_hns_address_hash) b.(po_hns_address_hash)).

Definition destinations_sorted (outputs : list PayoutOutput) : bool :=
  negb (windows2_any (λ a b, negb (destination_leb a b)) outputs).

Definition validate_sorted (s : CoinbaseOutputSkeleton) : result BodyError unit :=
  if negb (destinations_sorted s.(remaining_work_outputs))
     || negb (destinations_sorted s.(service_outputs))
  then Err UnsortedOutputs else Ok tt.

Definition ordered_outputs (s : CoinbaseOutputSkeleton) : result BodyError (list PayoutOutput) :=
  _ ← validate_sorted s;
  Ok ([s.(first_work_or_fallback)] ++ s.(mandatory_claim_airdrop_outputs)
      ++ s.(remaining_work_outputs) ++ s.(service_outputs)
      ++ option_list s.(operator_fee_output)).

Definition validate_hns_address (output : PayoutOutput) : result BodyError unit :=
  let length := len output.(po_hns_address_hash) in
  if (31 <? output.(po_hns_address_version))
     || negb ((2 <=? length) && (length <=? 40))
     || ((output.(po_hns_address_version) =? 0) && negb (length =? 20) && negb (length =? 32))
  then Err InvalidPayoutAddress else Ok tt.

Definition hns_varint_size (value : Z) : Z :=
  if value <? 253 then 1 else if value <=? 65535 then 3
  else if value <=? 4294967295 then 5 else 9.

(** One iteration of the sizing loop: the count and the bytes so far. *)
Definition reserve_output (st : Z * Z) (output : PayoutOutput) : result BodyError (Z * Z) :=
  let '(count, size) := st in
  _ ← validate_hns_address output;
  count ← ok_or (checked_add USIZE count 1) PayoutSizeOverflow;
  size ← ok_or (size ← checked_add USIZE size 12;
                checked_add USIZE size (len output.(po_hns_address_hash))) PayoutSizeOverflow;
  Ok (count, size).

Definition ordinary_outputs (s : CoinbaseOutputSkeleton) : list PayoutOutput :=
  [s.(first_work_or_fallback)] ++ s.(remaining_work_outputs) ++ s.(service_outputs)
  ++ option_list s.(operator_fee_output).

Definition payout_weight_reservation (s : CoinbaseOutputSkeleton) :
    result BodyError PayoutWeightReservation :=
  _ ← validate_sorted s;
  '(ordinary_count, ordinary_bytes) ← fold_result reserve_output (0, 0) (ordinary_outputs s);
  final_count ← ok_or (checked_add USIZE (len s.(mandatory_claim_airdrop_outputs)) ordinary_count)
                  PayoutSizeOverflow;
  base_bytes ← ok_or (checked_add USIZE ordinary_bytes (hns_varint_size final_count))
                 PayoutSizeOverflow;
  weight ← ok_or (checked_mul USIZE base_bytes 4) PayoutSizeOverflow;
  Ok (mkPayoutWeightReservation final_count ordinary_count base_bytes weight).

(** ** Validation result and body package *)

Definition validation_body (network_id : Z) (template_core_id : Hash256) (coinbase_raw : bytes)
    (transactions_raw : list bytes) : Writer :=
  enc_u16 2 >>> enc_u8 network_id >>> enc_fixed template_core_id >>> enc_bytes coinbase_raw >>>
  enc_varint (len transactions_raw) >>> enc_each enc_bytes transactions_raw.

Definition validation_preimage (network_id : Z) (template_core_id : Hash256) (coinbase_raw : bytes)
    (transactions_raw : list bytes) : bytes :=
  into_bytes (enc_bytes VALIDATION_DOMAIN >>>
    enc_fixed (into_bytes (validation_body network_id template_core_id coinbase_raw transactions_raw))).

Definition validation_result_hash `{Digests} (network_id : Z) (template_core_id : Hash256)
    (coinbase_raw : bytes) (transactions_raw : list bytes) : Hash256 :=
  blake2b_256 [validation_preimage network_id template_core_id coinbase_raw transactions_raw].

Definition validate_body_package `{Digests} (package : BlockBodyPackageV2) : result BodyError unit :=
  if negb (package.(bbp_protocol_version) =? package.(bbp_template_core).(tc_protocol_version))
     || negb (package.(bbp_network_id) =? package.(bbp_template_core).(tc_network_id))
  then Err TemplateContextMismatch
  else if bool_decide (object_id package.(bbp_template_core) ≠ package.(bbp_template_core_id))
  then Err TemplateIdMismatch
  else Ok tt.

Definition build_body_package `{Digests} (template_core : TemplateCoreV2) (coinbase_raw : bytes)
    (transactions_raw : list bytes) (merkle_root witness_root tree_root reserved_root : Hash256)
    (block_weight block_sigops miner_subsidy ordinary_transaction_fees claim_airdrop_principal
     claim_airdrop_fees operator_fee_value work_service_subsidy_value : Z)
    (operator_signature : SignatureBytes) : result BodyError BlockBodyPackageV2 :=
  let template_core_id := object_id template_core in
  let package :=
    mkBlockBodyPackageV2 template_core.(tc_protocol_version) template_core.(tc_network_id)
      template_core template_core_id coinbase_raw transactions_raw merkle_root witness_root
      tree_root reserved_root block_weight block_sigops miner_subsidy ordinary_transaction_fees
      claim_airdrop_principal claim_airdrop_fees operator_fee_value work_service_subsidy_value
      (validation_result_hash template_core.(tc_network_id) template_core_id coinbase_raw
         transactions_raw) operator_signature in
  _ ← validate_body_package package;
  Ok package.

(** ** Proofs: the commitment *)

Definition ok_CoinbaseCommitmentV2 (c : CoinbaseCommitmentV2) : Prop :=
  uint 16 c.(cc_protocol_version) ∧ uint 8 c.(cc_network_id) ∧ arr 32 c.(cc_template_core_id) ∧
  arr 32 c.(cc_payout_snapshot_id) ∧ arr 32 c.(cc_payout_plan_id) ∧
  uint 64 c.(cc_plan_sequence) ∧ arr 32 c.(cc_operator_key_hash) ∧ uint 32 c.(cc_flags).

Definition cc_sizes : list nat := [4; 2; 1; 32; 32; 32; 8; 32; 4]%nat.

Lemma cc_pieces_sizes c : ok_CoinbaseCommitmentV2 c → length <$> cc_pieces c = cc_sizes.
Proof.
  unfold ok_CoinbaseCommitmentV2, arr. intros Hok. destruct_and!. cbn [fmap list_fmap cc_pieces].
  rewrite !to_le_length. by repeat (f_equal; try done).
Qed.

Lemma cc_encode_concat c : ok_CoinbaseCommitmentV2 c → cc_encode c = concat (cc_pieces c).
Proof.
  intros Hok. apply written_concat. by rewrite length_concat_sizes, cc_pieces_sizes.
Qed.

Lemma cc_decode_encode c : ok_CoinbaseCommitmentV2 c → cc_decode (cc_encode c) = Ok c.
Proof.
  intros Hok. assert (Hs : slices cc_sizes (cc_encode c) 0%nat = cc_pieces c).
  { rewrite cc_encode_concat, <- (cc_pieces_sizes c) by done. apply (slices_concat (cc_pieces c) []). }
  assert (Hl : len (cc_encode c) = 147).
  { rewrite cc_encode_concat by done. unfold len. by rewrite length_concat_sizes, cc_pieces_sizes. }
  generalize dependent (cc_encode c). intros data Hs Hl. unfold cc_decode. rewrite Hl.
  cbn -[of_le to_le take drop] in Hs. apply (inj2 cons) in Hs as [Hm Hs].
  change (take 4 data = COINBASE_COMMITMENT_MAGIC) in Hm. rewrite Hm, bool_decide_false by auto.
  unfold cc_read. unfold_reader. cbn -[of_le take drop]. f_equal. rewrite_slices Hs.
  unfold ok_CoinbaseCommitmentV2, uint in Hok. destruct_and!.
  rewrite !of_to_le by (cbn in *; lia). by destruct c.
Qed.

Lemma cc_decode_sound data c :
  cc_decode data = Ok c → ok_CoinbaseCommitmentV2 c ∧ data = cc_encode c.
Proof.
  unfold cc_decode. destruct (negb _) eqn:El; [done|]. case_bool_decide as Hm; [done|].
  intros [= <-]. apply negb_false_iff, Z.eqb_eq in El. unfold len in El.
  assert (length data = 147%nat) as Hl by (unfold COINBASE_COMMITMENT_SIZE in El; lia). clear El.
  assert (ok_CoinbaseCommitmentV2 (cc_read data 4%nat).1) as Hok.
  { unfold ok_CoinbaseCommitmentV2, cc_read. unfold_reader. cbn -[of_le take drop].
    split_and!; first [apply slice_arr | apply (slice_uint data 2) | apply (slice_uint data 1)
      | apply (slice_uint data 8) | apply (slice_uint data 4)]; lia. }
  split; [done|]. rewrite cc_encode_concat by done.
  transitivity (concat (slices cc_sizes data 0%nat)).
  { rewrite concat_slices by (cbn; lia). by rewrite drop_0. }
  f_equal. unfold cc_pieces, cc_read. unfold_reader. cbn -[of_le to_le take drop].
  rewrite !slice_to_of_le by lia. by rewrite drop_0, Hm.
Qed.

(** The 147-byte coinbase commitment is exact: what [decode] accepts is
    what [encode] writes for the commitment it returns, every commitment is
    read back, and the commitment of a template commits to the template's
    identity, payout snapshot, plan and sequence. *)
Lemma coinbase_commitment_exact data :
  (∀ c, cc_decode data = Ok c ↔ ok_CoinbaseCommitmentV2 c ∧ data = cc_encode c) ∧
  (len data = 147 → take 4 data = COINBASE_COMMITMENT_MAGIC → is_ok (cc_decode data) = true).
Proof.
  split.
  - intros c. split; [apply cc_decode_sound | intros [Hc ->]; by apply cc_decode_encode].
  - intros Hl Hm. unfold cc_decode. rewrite Hl, Hm, bool_decide_false by auto. done.
Qed.

Definition demo_commitment : CoinbaseCommitmentV2 :=
  mkCoinbaseCommitmentV2 2 1 (replicate 32 x01) (replicate 32 x02) (replicate 32 x03) 9
    (replicate 32 x04) 7.
Lemma coinbase_commitment_exact_witness :
  is_ok (cc_decode (cc_encode demo_commitment)) = true ∧
  cc_decode (cc_encode demo_commitment) = Ok demo_commitment.
Proof.
  split.
  - apply coinbase_commitment_exact; by vm_compute.
  - apply coinbase_commitment_exact. split; [|done]. by vm_compute.
Defined.

(** ** Proofs: output order and weight *)

Lemma destination_leb_trans a b c :
  destination_leb a b = true → destination_leb b c = true → destination_leb a c = true.
Proof.
  unfold destination_leb. rewrite !orb_true_iff, !andb_true_iff, !Z.ltb_lt, !Z.eqb_eq, !bytes_leb_spec.
  intros [H1|[H1 H1']] [H2|[H2 H2']]; try (left; lia). right. split; [lia|]. by etrans.
Qed.

Lemma destinations_sorted_spec l :
  destinations_sorted l = true ↔ StronglySorted (λ a b, destination_leb a b = true) l.
Proof.
  unfold destinations_sorted. rewrite negb_true_iff, windows2_any_false.
  rewrite (Sorted_iff _ (λ a b, destination_leb a b = true)) by (intros; apply negb_false_iff).
  split; [|apply StronglySorted_Sorted].
  apply Sorted_StronglySorted. intros a b c. apply destination_leb_trans.
Qed.

(** The wire form of an ordinary payout output of a Handshake coinbase (value,
    address, empty NONE covenant), and of the output count before them. *)
Definition hns_output (o : PayoutOutput) : bytes :=
  to_le 8 o.(po_value) ++ [z2b o.(po_hns_address_version); z2b (len o.(po_hns_address_hash))]
  ++ o.(po_hns_address_hash) ++ [x00; x00].
Definition hns_varint (n : Z) : bytes :=
  if n <? 253 then to_le 1 n else if n <=? 65535 then xfd :: to_le 2 n
  else if n <=? 4294967295 then xfe :: to_le 4 n else xff :: to_le 8 n.
Definition valid_address (o : PayoutOutput) : Prop :=
  o.(po_hns_address_version) ≤ 31 ∧ 2 ≤ len o.(po_hns_address_hash) ≤ 40 ∧
  (o.(po_hns_address_version) = 0 →
   len o.(po_hns_address_hash) = 20 ∨ len o.(po_hns_address_hash) = 32).

#[export] Instance valid_address_dec o : Decision (valid_address o).
Proof. unfold valid_address. apply _. Defined.

Lemma validate_hns_address_ok o : validate_hns_address o = Ok tt ↔ valid_address o.
Proof.
  unfold validate_hns_address, valid_address.
  match goal with |- context [if ?c then _ else _] => destruct c eqn:E end.
  - split; [done|]. intros (H1 & H2 & H3). rewrite !orb_true_iff, !andb_true_iff, Z.eqb_eq, Z.ltb_lt,
      !negb_true_iff, andb_false_iff, !Z.leb_gt, !Z.eqb_neq in E. lia.
  - split; [|done]. intros _. rewrite !orb_false_iff, !andb_false_iff, Z.eqb_neq, Z.ltb_ge,
      !negb_false_iff, andb_true_iff, !Z.leb_le, !Z.eqb_eq in E. lia.
Qed.

Lemma validate_hns_address_err o e :
  validate_hns_address o = Err e → e = InvalidPayoutAddress ∧ ¬ valid_address o.
Proof.
  rewrite <- validate_hns_address_ok. intros He. split; [|by rewrite He].
  unfold validate_hns_address in He. case_match; [by injection He | done].
Qed.

Lemma hns_output_len o : len (hns_output o) = 12 + len o.(po_hns_address_hash).
Proof. unfold hns_output, len. rewrite !length_app, to_le_length. cbn. lia. Qed.

Lemma hns_varint_len n : len (hns_varint n) = hns_varint_size n.
Proof.
  unfold hns_varint, hns_varint_size, len.
  repeat case_match; cbn [length]; rewrite ?to_le_length; done.
Qed.

Lemma len_concat {A} (l : list (list A)) : len (concat l) = sumZ (len <$> l).
Proof. induction l as [|x l IH]; cbn [concat fmap list_fmap]; [done|]. by rewrite len_app, IH. Qed.

Lemma hns_outputs_bound l :
  Forall valid_address l → 0 ≤ len (concat (hns_output <$> l)) ≤ 52 * len l.
Proof.
  induction 1 as [|o l (_ & Ho & _) _ IH]; [done|]. rewrite fmap_cons. cbn [concat].
  rewrite len_app, hns_output_len, len_cons. lia.
Qed.

(** The sizing loop, from any count and size on. *)
Lemma reserve_loop l count size :
  0 ≤ count → 0 ≤ size → count + len l < 2 ^ 55 → size + 52 * len l < 2 ^ 61 →
  fold_result reserve_output (count, size) l =
  if decide (Forall valid_address l)
  then Ok (count + len l, size + len (concat (hns_output <$> l)))
  else Err InvalidPayoutAddress.
Proof.
  revert count size. induction l as [|o l IH]; intros count size Hc Hs Hc' Hs'.
  - cbn. rewrite decide_True by constructor. do 2 f_equal; unfold len; cbn; lia.
  - rewrite len_cons in Hc', Hs'. rewrite fmap_cons. cbn [concat].
    rewrite len_cons, len_app, hns_output_len. cbn [fold_result reserve_output].
    pose proof (len_nonneg l). destruct (validate_hns_address o) as [[]|e] eqn:Ho.
    + apply validate_hns_address_ok in Ho as Hv. pose proof Hv as (_ & Hlen & _). cbn -[len checked_add].
      unfold USIZE. rewrite (checked_add_fits _ count), (checked_add_fits _ size) by lia.
      cbn -[len checked_add]. rewrite checked_add_fits by lia. cbn -[len concat]. rewrite IH by lia.
      destruct (decide (Forall valid_address l)) as [Hl|Hl].
      * rewrite decide_True by (by constructor). do 2 f_equal; lia.
      * rewrite decide_False; [done|]. by intros [_ ?]%Forall_cons.
    + apply validate_hns_address_err in Ho as [-> Hv]. cbn.
      rewrite decide_False; [done|]. by intros [? _]%Forall_cons.
Qed.

Lemma validate_sorted_spec s :
  validate_sorted s =
  if destinations_sorted s.(remaining_work_outputs) && destinations_sorted s.(service_outputs)
  then Ok tt else Err UnsortedOutputs.
Proof. unfold validate_sorted. by do 2 destruct (destinations_sorted _). Qed.


Definition demo_output (version : Z) (b : byte) (value : Z) : PayoutOutput :=
  mkPayoutOutput version (replicate 20 b) value.
Definition demo_skeleton : CoinbaseOutputSkeleton :=
  mkCoinbaseOutputSkeleton (demo_output 0 x09 50) [demo_output 0 x01 1]
    [demo_output 0 x02 10; demo_output 0 x07 20] [] (Some (demo_output 1 x01 5)).

(** ** Proofs: the validation-result hash *)

Lemma enc_each_bytes_inj txs1 txs2 :
  length txs1 = length txs2 →
  Forall (λ t, len t < 2 ^ 64) txs1 → Forall (λ t, len t < 2 ^ 64) txs2 →
  enc_each enc_bytes txs1 [] = enc_each enc_bytes txs2 [] → txs1 = txs2.
Proof.
  intros Hl. revert txs2 Hl. induction txs1 as [|t1 txs1 IH]; intros [|t2 txs2] Hl; try done.
  rewrite !Forall_cons. intros [Ht1 H1] [Ht2 H2]. rewrite !enc_each_cons by apply _.
  intros [-> He]%enc_bytes_prefix; [|done..]. f_equal. apply IH; [by injection Hl|done..].
Qed.

(** Inputs that the Rust types admit. *)
Definition ok_validation (network_id : Z) (id : Hash256) (coinbase : bytes) (txs : list bytes) : Prop :=
  uint 8 network_id ∧ arr 32 id ∧ len coinbase < 2 ^ 64 ∧ len txs < 2 ^ 64 ∧
  Forall (λ t, len t < 2 ^ 64) txs.

Lemma validation_body_inj n1 id1 cb1 txs1 n2 id2 cb2 txs2 :
  ok_validation n1 id1 cb1 txs1 → ok_validation n2 id2 cb2 txs2 →
  into_bytes (validation_body n1 id1 cb1 txs1) = into_bytes (validation_body n2 id2 cb2 txs2) →
  n1 = n2 ∧ id1 = id2 ∧ cb1 = cb2 ∧ txs1 = txs2.
Proof.
  intros (Hn1 & Hi1 & Hc1 & Ht1 & Hf1) (Hn2 & Hi2 & Hc2 & Ht2 & Hf2).
  unfold into_bytes, validation_body. rewrite !wseq_nil by apply _.
  unfold enc_u16 at 1 2, enc_u8 at 1 2, enc_fixed at 1 2. rewrite !app_nil_l, <- ?app_assoc.
  intros E. apply app_inv_head in E. cbn [app] in E. injection E as En E.
  apply z2b_inj in En; [|done..]. unfold arr in *. apply app_inj_1 in E as [-> E]; [|congruence].
  apply enc_bytes_prefix in E as [-> E]; [|done..].
  apply enc_varint_prefix in E as [El E]; [|split; [apply len_nonneg|done]..].
  apply enc_each_bytes_inj in E as ->; [done| |done..]. unfold len in El. lia.
Qed.

(** The validation-result hash of a body commits to the network, the
    template, the coinbase and every transaction: two subjects with one hash
    are the same subject or exhibit a collision of the digest. A body package
    that [build_body_package] returns carries that hash, and the build never
    fails. *)
Lemma validation_result_binding `{Digests} n1 id1 cb1 txs1 n2 id2 cb2 txs2 :
  ok_validation n1 id1 cb1 txs1 → ok_validation n2 id2 cb2 txs2 →
  validation_result_hash n1 id1 cb1 txs1 = validation_result_hash n2 id2 cb2 txs2 →
  (n1 = n2 ∧ id1 = id2 ∧ cb1 = cb2 ∧ txs1 = txs2) ∨
  collides 32 (validation_preimage n1 id1 cb1 txs1) (validation_preimage n2 id2 cb2 txs2).
Proof.
  intros H1 H2 E. unfold validation_result_hash, validation_preimage in E |- *.
  fold (domain_preimage VALIDATION_DOMAIN (into_bytes (validation_body n1 id1 cb1 txs1))) in E |- *.
  fold (domain_preimage VALIDATION_DOMAIN (into_bytes (validation_body n2 id2 cb2 txs2))) in E |- *.
  assert (Hd : len VALIDATION_DOMAIN < 2 ^ 64) by (by vm_compute).
  destruct (domain_hash_binding _ _ _ _ Hd Hd E) as [[_ E']|?]; [left|by right].
  by apply validation_body_inj.
Qed.

(** The digest that keeps only a prefix does not separate coinbases, and the
    two preimages are its collision. *)
Lemma validation_result_binding_witness :
  let id := replicate 32 x05 in
  @collides toy_digests 32 (validation_preimage 1 id [x01] []) (validation_preimage 1 id [x02] []).
Proof.
  cbn zeta.
  destruct (@validation_result_binding toy_digests 1 (replicate 32 x05) [x01] []
              1 (replicate 32 x05) [x02] []) as [(_ & _ & [=] & _)|Hc].
  - unfold ok_validation. split_and!; first [by apply Forall_nil | by vm_compute].
  - unfold ok_validation. split_and!; first [by apply Forall_nil | by vm_compute].
  - by vm_compute.
  - exact Hc.
Defined.

Lemma build_body_package_ok `{Digests} t cb txs mr wr tr rr bw bs ms ofees cap caf ofv wss sig :
  ∃ p, build_body_package t cb txs mr wr tr rr bw bs ms ofees cap caf ofv wss sig = Ok p ∧
       validate_body_package p = Ok tt ∧
       p.(bbp_consensus_validation_result_hash) =
         validation_result_hash p.(bbp_network_id) p.(bbp_template_core_id) p.(bbp_coinbase_raw)
           p.(bbp_transactions_raw).
Proof.
  unfold build_body_package. cbn zeta. unfold validate_body_package at 1.
  cbn -[object_id validation_result_hash]. rewrite !Z.eqb_refl, bool_decide_false by auto.
  cbn -[object_id validation_result_hash]. eexists. split_and!; [done| |done].
  unfold validate_body_package. cbn -[object_id validation_result_hash].
  by rewrite !Z.eqb_refl, bool_decide_false by auto.
Qed.
