(* ===== verification/Payout.v ===== *)
(** * Payout plans (crates/meshmine-settlement/src/lib.rs)

    The service-credit ledger, the bootstrap policy, the weighted ticket
    selection and the payout plan built from it, and the division of a block's
    subsidy over the plan's winners. [BigUint] is [Z]. *)

From S2P Require Import Prelude Codec Hash Types Objects Header Storage Journal Settlement Body.

Definition PLAN_SEED_DOMAIN : bytes := str "meshmine/payout-plan/v2".
Definition TICKET_DOMAIN : bytes := str "meshmine/payout-ticket/v2".
Definition TRANSCRIPT_DOMAIN : bytes := str "meshmine/payout-transcript/v2".
Definition SERVICE_CREDIT_DOMAIN : bytes := str "meshmine/service-credit/v2".
Definition SERVICE_ACTION_DOMAIN : bytes := str "meshmine/service-action/v2".

Record BucketCredit := mkBucketCredit {
  bc_bucket : PayoutBucketV2;
  bc_credit : U512;
}.

Record PayoutProfile := mkPayoutProfile {
  pf_work_ticket_count : Z;
  pf_service_ticket_count : Z;
  pf_service_basis_points : Z;
  pf_maximum_service_basis_points : Z;
  pf_minimum_ticket_value : Z;
  pf_maximum_coinbase_outputs : Z;
}.

(** ** The service-credit ledger *)

Inductive ServiceRole :=
| MaskSetup | MaskOpening | ReceiptBatch | AvailabilityChallenge | SettlementSignature.
(** [role as u8] *)
Definition role_as_u8 (role : ServiceRole) : Z :=
  match role with
  | MaskSetup => 0 | MaskOpening => 1 | ReceiptBatch => 2 | AvailabilityChallenge => 3
  | SettlementSignature => 4
  end.
#[export] Instance ServiceRole_eq_dec : EqDecision ServiceRole.
Proof. solve_decision. Defined.
#[export] Instance ServiceRole_countable : Countable ServiceRole.
Proof.
  refine (inj_countable role_as_u8
    (λ n, match n with
          | 0 => Some MaskSetup | 1 => Some MaskOpening | 2 => Some ReceiptBatch
          | 3 => Some AvailabilityChallenge | 4 => Some SettlementSignature | _ => None end) _).
  by intros [].
Defined.

Record ServiceCreditPolicy := mkServiceCreditPolicy {
  scp_maximum_per_event : gmap ServiceRole U512;
  scp_maximum_per_role_per_snapshot : gmap ServiceRole U512;
}.
Record ServiceCreditEvent := mkServiceCreditEvent {
  sce_protocol_version : Z;
  sce_network_id : Z;
  sce_role : ServiceRole;
  sce_subject_id : Hash256;
  sce_beneficiary_bucket_id : Hash256;
  sce_observed_height : Z;
  sce_credit : U512;
}.
Record ServiceCreditLedger := mkServiceCreditLedger {
  scl_observed_actions : gset Hash256;
  scl_totals_by_role : gmap ServiceRole Z;
  scl_credits : list BucketCredit;
}.
Definition ServiceCreditLedger_default : ServiceCreditLedger := mkServiceCreditLedger ∅ ∅ [].

Definition event_id `{Digests} (e : ServiceCreditEvent) : Hash256 :=
  domain_hash SERVICE_CREDIT_DOMAIN
    (into_bytes (enc_u16 e.(sce_protocol_version) >>> enc_u8 e.(sce_network_id) >>>
       enc_u8 (role_as_u8 e.(sce_role)) >>> enc_fixed e.(sce_subject_id) >>>
       enc_fixed e.(sce_beneficiary_bucket_id) >>> enc_u32 e.(sce_observed_height) >>>
       enc_fixed e.(sce_credit))).

Definition action_body (e : ServiceCreditEvent) : bytes :=
  into_bytes (enc_u16 e.(sce_protocol_version) >>> enc_u8 e.(sce_network_id) >>>
    enc_u8 (role_as_u8 e.(sce_role)) >>> enc_fixed e.(sce_subject_id)).
Definition action_id `{Digests} (e : ServiceCreditEvent) : Hash256 :=
  domain_hash SERVICE_ACTION_DOMAIN (action_body e).

Definition certify `{Digests} (l : ServiceCreditLedger) (policy : ServiceCreditPolicy)
    (event : ServiceCreditEvent) (bucket : PayoutBucketV2) : result SettlementError ServiceCreditLedger :=
  if negb (event.(sce_protocol_version) =? 2)
     || negb (event.(sce_network_id) =? bucket.(pb_network_id))
     || bool_decide (event.(sce_beneficiary_bucket_id) ≠ object_id bucket)
     || bool_decide (event.(sce_subject_id) = replicate 32 x00)
  then Err ConflictingBucketMetadata
  else
    let amount := of_be event.(sce_credit) in
    if amount =? 0 then Err ZeroServiceCredit
    else
      per_event ← ok_or (of_be <$> policy.(scp_maximum_per_event) !! event.(sce_role))
                    MissingServiceCreditCap;
      per_snapshot ← ok_or (of_be <$> policy.(scp_maximum_per_role_per_snapshot) !! event.(sce_role))
                       MissingServiceCreditCap;
      if per_event <? amount then Err ServiceEventCap
      else if bool_decide (action_id event ∈ l.(scl_observed_actions)) then Err DuplicateServiceEvent
      else
        let next := default 0 (l.(scl_totals_by_role) !! event.(sce_role)) + amount in
        if per_snapshot <? next then Err ServiceRoleCap
        else Ok (mkServiceCreditLedger ({[action_id event]} ∪ l.(scl_observed_actions))
                   (<[event.(sce_role) := next]> l.(scl_totals_by_role))
                   (l.(scl_credits) ++ [mkBucketCredit bucket event.(sce_credit)])).

Definition into_credits (l : ServiceCreditLedger) : list BucketCredit := l.(scl_credits).

(** ** The bootstrap policy *)

Record BootstrapPayoutPolicy := mkBootstrapPayoutPolicy {
  bpp_final_bootstrap_height : Z;
  bpp_first_normal_height : Z;
  bpp_first_normal_session_close_id : Hash256;
  bpp_bootstrap_allocation_commitment : Hash256;
}.
Inductive PayoutMode := Bootstrap (allocation_commitment : Hash256) | Normal.

Definition payout_mode (p : BootstrapPayoutPolicy) (candidate_height : Z)
    (first_finalized_session_close_id : option Hash256) : result SettlementError PayoutMode :=
  if negb (p.(bpp_first_normal_height) =? saturating_add 32 p.(bpp_final_bootstrap_height) 1)
  then Err InvalidBootstrapTransition
  else if candidate_height <=? p.(bpp_final_bootstrap_height)
  then Ok (Bootstrap p.(bpp_bootstrap_allocation_commitment))
  else if bool_decide (first_finalized_session_close_id ≠ Some p.(bpp_first_normal_session_close_id))
  then Err NormalSnapshotUnavailable
  else Ok Normal.

(** ** Weighted tickets *)

(** [loop { ... }] run for [p] iterations: [step] goes on with [inl] or leaves
    with [inr]. *)
Fixpoint loop_pos {S R} (step : S → S + R) (p : positive) (s : S) : S + R :=
  match p with
  | xH => step s
  | xO p => match loop_pos step p s with inl s' => loop_pos step p s' | r => r end
  | xI p =>
      match step s with
      | inl s' => match loop_pos step p s' with inl s'' => loop_pos step p s'' | r => r end
      | r => r
      end
  end.

Definition ticket_candidate `{Digests} (seed : Hash256) (class ticket_index counter : Z) : Z :=
  of_be (blake2b_512 [into_bytes (enc_bytes TICKET_DOMAIN >>> enc_fixed seed >>> enc_u8 class >>>
                                  enc_u16 ticket_index >>> enc_u64 counter)]).

(** One attempt at a ticket: its residue and counter, the next counter, or the
    end of the counters. *)
Definition ticket_attempt (candidate : Z → Z) (limit total : Z) (counter : Z) :
    Z + result SettlementError (Z * Z) :=
  if candidate counter <? limit then inr (Ok (candidate counter mod total, counter))
  else match checked_add 64 counter 1 with
       | Some counter => inl counter
       | None => inr (Err ArithmeticOverflow)
       end.

(** The 2^64 attempts exhaust the counters ([ticket_residue_total]). *)
Definition ticket_residue (candidate : Z → Z) (limit total : Z) : result SettlementError (Z * Z) :=
  match loop_pos (ticket_attempt candidate limit total) (2 ^ 64)%positive 0 with
  | inr r => r
  | inl _ => Err ArithmeticOverflow
  end.

(** [slice.partition_point(pred)]: the length of the prefix that satisfies
    [pred]. *)
Fixpoint partition_point {A} (pred : A → bool) (l : list A) : nat :=
  match l with
  | x :: l => if pred x then Datatypes.S (partition_point pred l) else 0%nat
  | [] => 0%nat
  end.

Fixpoint cumulative_sums (running : Z) (weights : list Z) : list Z :=
  match weights with
  | [] => []
  | w :: weights => (running + w) :: cumulative_sums (running + w) weights
  end.

Definition SPACE : Z := Z.shiftl 1 512.

Definition select_ticket (candidate : Z → Z → Z) (buckets : list (Hash256 * Z)) (total limit : Z)
    (cumulative : list Z) (ticket_index : Z) : result SettlementError (Hash256 * Z) :=
  '(residue, counter) ← ticket_residue (candidate ticket_index) limit total;
  let winner_index := partition_point (λ upper, upper <=? residue) cumulative in
  winner ← ok_or (fst <$> buckets !! winner_index) ArithmeticOverflow;
  Ok (winner, counter).

Definition select_weighted_from (candidate : Z → Z → Z) (count : Z) (buckets : list (Hash256 * Z)) :
    result SettlementError (list Hash256 * list Z) :=
  if count =? 0 then Ok ([], [])
  else if bool_decide (buckets = []) && (0 <? count) then Err EmptyTicketClass
  else
    let total := sumZ buckets.*2 in
    if (total =? 0) && (0 <? count) then Err ZeroTicketWeight
    else
      let limit := SPACE / total * total in
      picks ← collect (select_ticket candidate buckets total limit (cumulative_sums 0 buckets.*2))
                (seqZ 0 count);
      Ok (picks.*1, picks.*2).

Section Plans.
Context `{Digests}.

Definition select_weighted (seed : Hash256) (class count : Z) (buckets : list (Hash256 * Z)) :
    result SettlementError (list Hash256 * list Z) :=
  select_weighted_from (ticket_candidate seed class) count buckets.

Definition select_work_winners (seed : Hash256) (class count : Z) (buckets : list WorkBucketLeaf) :=
  select_weighted seed class count
    ((λ b, (b.(wbl_bucket_id), of_be b.(wbl_credited_work))) <$> buckets).
Definition select_service_winners (seed : Hash256) (class count : Z)
    (buckets : list ServiceBucketLeaf) :=
  select_weighted seed class count
    ((λ b, (b.(sbl_bucket_id), of_be b.(sbl_certified_service_credit))) <$> buckets).

(** ** Building and verifying a plan *)

Definition plan_seed_of (snapshot_id : Hash256) (entropy_hashes : list Hash256)
    (prior_beacon : Hash256) : Hash256 :=
  domain_hash PLAN_SEED_DOMAIN
    (into_bytes (enc_fixed snapshot_id >>> enc_each enc_fixed entropy_hashes >>>
                 enc_fixed prior_beacon)).

Definition selection_transcript (plan_seed : Hash256) (work_winners service_winners : list Hash256)
    (work_counters service_counters : list Z) : bytes :=
  into_bytes (enc_fixed plan_seed >>> enc_varint (len work_counters) >>>
    enc_each enc_u64 work_counters >>> enc_varint (len service_counters) >>>
    enc_each enc_u64 service_counters >>> enc_each enc_fixed work_winners >>>
    enc_each enc_fixed service_winners).

Definition build_payout_plan_with_snapshot_id (snapshot : PayoutSnapshotV2) (snapshot_id : Hash256)
    (entropy_anchor_start : Z) (entropy_hashes : list Hash256) (prior_beacon : Hash256)
    (profile : PayoutProfile) (signer_set : SignatureSet) : result SettlementError PayoutPlanV2 :=
  if bool_decide (entropy_hashes = [])
     || (entropy_anchor_start <=? snapshot.(psn_close_anchor_height))
  then Err EntropyNotDelayed
  else
    _ ← ensure (len entropy_hashes <? 2 ^ 16) EntropyCountOverflow;
    let plan_seed := plan_seed_of snapshot_id entropy_hashes prior_beacon in
    '(work_winners, work_counters) ←
      select_work_winners plan_seed 0 profile.(pf_work_ticket_count) snapshot.(psn_work_buckets);
    '(service_winners, service_counters) ←
      if profile.(pf_service_ticket_count) =? 0 then Ok ([], [])
      else select_service_winners plan_seed 1 profile.(pf_service_ticket_count)
             snapshot.(psn_service_buckets);
    Ok (mkPayoutPlanV2 2 snapshot.(psn_network_id) snapshot.(psn_snapshot_sequence) snapshot_id
          entropy_anchor_start (len entropy_hashes) entropy_hashes prior_beacon plan_seed
          profile.(pf_work_ticket_count) profile.(pf_service_ticket_count) work_winners
          service_winners
          (domain_hash TRANSCRIPT_DOMAIN
             (selection_transcript plan_seed work_winners service_winners work_counters
                service_counters))
          signer_set).

Definition build_payout_plan (snapshot : PayoutSnapshotV2) (entropy_anchor_start : Z)
    (entropy_hashes : list Hash256) (prior_beacon : Hash256) (profile : PayoutProfile)
    (signer_set : SignatureSet) : result SettlementError PayoutPlanV2 :=
  build_payout_plan_with_snapshot_id snapshot (object_id snapshot) entropy_anchor_start
    entropy_hashes prior_beacon profile signer_set.

Definition verify_payout_plan (snapshot : PayoutSnapshotV2) (plan : PayoutPlanV2)
    (profile : PayoutProfile) : result SettlementError unit :=
  let snapshot_id := object_id snapshot in
  if bool_decide (plan.(pp_snapshot_id) ≠ snapshot_id)
     || negb (plan.(pp_plan_sequence) =? snapshot.(psn_snapshot_sequence))
     || negb (plan.(pp_entropy_anchor_count) =? len plan.(pp_entropy_hashes))
     || negb (plan.(pp_work_ticket_count) =? profile.(pf_work_ticket_count))
     || negb (plan.(pp_service_ticket_count) =? profile.(pf_service_ticket_count))
  then Err PlanSnapshotMismatch
  else
    expected ← build_payout_plan_with_snapshot_id snapshot snapshot_id
                 plan.(pp_entropy_anchor_start) plan.(pp_entropy_hashes) plan.(pp_prior_beacon)
                 profile empty_ed25519;
    if bool_decide (unsigned_bytes expected ≠ unsigned_bytes plan)
    then Err PlanVerificationMismatch else Ok tt.
End Plans.

(** ** Coinbase payouts *)

Record CoinbasePayoutPlan := mkCoinbasePayoutPlan {
  cp_skeleton : CoinbaseOutputSkeleton;
  cp_work_pool : Z;
  cp_service_pool : Z;
  cp_total_subsidy : Z;
  cp_operator_fees : Z;
}.

Definition ticket_values (pool count : Z) : list Z :=
  if count =? 0 then []
  else (λ index, pool / count + Z.b2z (index <? pool mod count)) <$> seqZ 0 count.

(** [buckets.iter().map(..).collect::<BTreeMap<_, _>>()]: the last entry of a
    key stays. *)
Definition work_destination_map (buckets : list WorkBucketLeaf) : gmap Hash256 PayoutOutput :=
  foldl (λ m b, <[b.(wbl_bucket_id) :=
                  mkPayoutOutput b.(wbl_hns_address_version) b.(wbl_hns_address_hash) 0]> m)
    ∅ buckets.
Definition service_destination_map (buckets : list ServiceBucketLeaf) : gmap Hash256 PayoutOutput :=
  foldl (λ m b, <[b.(sbl_bucket_id) :=
                  mkPayoutOutput b.(sbl_hns_address_version) b.(sbl_hns_address_hash) 0]> m)
    ∅ buckets.

Abbreviation DestinationKey := (Z * bytes)%type.
Definition destination_key (output : PayoutOutput) : DestinationKey :=
  (output.(po_hns_address_version), output.(po_hns_address_hash)).

(** One iteration of [combine_winners]. *)
Definition combine_step (destinations : gmap Hash256 PayoutOutput)
    (outputs : gmap DestinationKey PayoutOutput) (ticket : Hash256 * Z) :
    result SettlementError (gmap DestinationKey PayoutOutput) :=
  output ← ok_or (destinations !! ticket.1) ConflictingBucketMetadata;
  let entry := default output (outputs !! destination_key output) in
  value ← ok_or (checked_add 64 entry.(po_value) ticket.2) ArithmeticOverflow;
  Ok (<[destination_key output :=
        mkPayoutOutput entry.(po_hns_address_version) entry.(po_hns_address_hash) value]> outputs).

Definition combine_winners (winners : list Hash256) (values : list Z)
    (destinations : gmap Hash256 PayoutOutput) :
    result SettlementError (gmap DestinationKey PayoutOutput) :=
  fold_result (combine_step destinations) ∅ (zip winners values).

(** [(u8, Vec<u8>)] in the order of the tuple; the entries of a map in it. *)
Definition key_leb (a b : DestinationKey) : bool :=
  (a.1 <? b.1) || ((a.1 =? b.1) && bytes_leb a.2 b.2).
Definition keyed_le (a b : DestinationKey * PayoutOutput) : Prop := key_leb a.1 b.1 = true.
#[export] Instance keyed_le_dec : RelDecision keyed_le.
Proof. intros a b. unfold keyed_le. apply _. Defined.
Definition destination_entries (m : gmap DestinationKey PayoutOutput) :
    list (DestinationKey * PayoutOutput) := merge_sort keyed_le (map_to_list m).

Definition fee_output (operator_fees : Z) (destination : option (Z * bytes)) :
    result SettlementError (option PayoutOutput) :=
  if operator_fees =? 0 then Ok None
  else match destination with
       | Some (version, hash) => Ok (Some (mkPayoutOutput version hash operator_fees))
       | None => Err ConflictingBucketMetadata
       end.

Definition build_coinbase_payouts `{Digests} (snapshot : PayoutSnapshotV2) (plan : PayoutPlanV2)
    (subsidy operator_fees : Z) (mandatory_outputs : list PayoutOutput)
    (operator_fee_destination : option (Z * bytes)) (profile : PayoutProfile) :
    result SettlementError CoinbasePayoutPlan :=
  if bool_decide (plan.(pp_snapshot_id) ≠ object_id snapshot)
     || negb (plan.(pp_plan_sequence) =? snapshot.(psn_snapshot_sequence))
     || negb (plan.(pp_work_ticket_count) =? profile.(pf_work_ticket_count))
     || negb (plan.(pp_service_ticket_count) =? profile.(pf_service_ticket_count))
  then Err PlanSnapshotMismatch
  else if (profile.(pf_maximum_service_basis_points) <? profile.(pf_service_basis_points))
     || (10000 <? profile.(pf_maximum_service_basis_points))
     || (profile.(pf_maximum_coinbase_outputs) =? 0)
  then Err InvalidServiceFraction
  else if negb (len plan.(pp_work_winners) =? profile.(pf_work_ticket_count))
     || negb (len plan.(pp_service_winners) =? profile.(pf_service_ticket_count))
  then Err TicketCountMismatch
  else
    let service_pool := subsidy * profile.(pf_service_basis_points) / 10000 in
    let work_pool := subsidy - service_pool in
    if (0 <? work_pool) && (profile.(pf_work_ticket_count) =? 0) then Err MissingTickets
    else if (0 <? service_pool) && (profile.(pf_service_ticket_count) =? 0) then Err MissingTickets
    else if ((0 <? work_pool)
             && (work_pool / profile.(pf_work_ticket_count) <? profile.(pf_minimum_ticket_value)))
         || ((0 <? service_pool)
             && (service_pool / profile.(pf_service_ticket_count) <? profile.(pf_minimum_ticket_value)))
    then Err UneconomicTicket
    else
      let work_values := ticket_values work_pool profile.(pf_work_ticket_count) in
      let service_values := ticket_values service_pool profile.(pf_service_ticket_count) in
      let work_destinations := work_destination_map snapshot.(psn_work_buckets) in
      let service_destinations := service_destination_map snapshot.(psn_service_buckets) in
      work ← combine_winners plan.(pp_work_winners) work_values work_destinations;
      service ← combine_winners plan.(pp_service_winners) service_values service_destinations;
      first_winner ← ok_or (head plan.(pp_work_winners)) MissingTickets;
      first_key ← ok_or (destination_key <$> work_destinations !! first_winner)
                    ConflictingBucketMetadata;
      first_work_or_fallback ← ok_or (work !! first_key) ConflictingBucketMetadata;
      let remaining_work_outputs :=
        snd <$> filter (λ e, e.1 ≠ first_key) (destination_entries work) in
      let service_outputs := snd <$> destination_entries service in
      operator_fee_output ← fee_output operator_fees operator_fee_destination;
      let skeleton := mkCoinbaseOutputSkeleton first_work_or_fallback mandatory_outputs
                        remaining_work_outputs service_outputs operator_fee_output in
      _ ← map_err (λ _, ConflictingBucketMetadata) (validate_sorted skeleton);
      outputs ← map_err (λ _, ConflictingBucketMetadata) (ordered_outputs skeleton);
      if profile.(pf_maximum_coinbase_outputs) <? len outputs then Err CoinbaseOutputPolicy
      else Ok (mkCoinbasePayoutPlan skeleton work_pool service_pool subsidy operator_fees).

(** ** The loop over counters *)

(** [step] run [n] times, as the reference of [loop_pos]. *)
Fixpoint loop_nat {S R} (step : S → S + R) (n : nat) (s : S) : S + R :=
  match n with
  | O => inl s
  | Datatypes.S n => match step s with inl s' => loop_nat step n s' | r => r end
  end.

Lemma loop_nat_add {S R} (step : S → S + R) n m s :
  loop_nat step (n + m) s = match loop_nat step n s with inl s' => loop_nat step m s' | r => r end.
Proof. revert s. induction n as [|n IH]; intros s; cbn; [done|]. by destruct (step s). Qed.

Lemma loop_pos_nat {S R} (step : S → S + R) p s : loop_pos step p s = loop_nat step (Pos.to_nat p) s.
Proof.
  revert s. induction p as [p IH|p IH|]; intros s; cbn [loop_pos].
  - rewrite Pos2Nat.inj_xI. replace (2 * Pos.to_nat p)%nat with (Pos.to_nat p + Pos.to_nat p)%nat by lia.
    cbn [loop_nat]. destruct (step s) as [s'|]; [|done]. rewrite loop_nat_add, IH.
    destruct (loop_nat _ _ s'); [apply IH | done].
  - rewrite Pos2Nat.inj_xO. replace (2 * Pos.to_nat p)%nat with (Pos.to_nat p + Pos.to_nat p)%nat by lia.
    rewrite loop_nat_add, IH. destruct (loop_nat _ _ s); [apply IH | done].
  - rewrite Pos2Nat.inj_1. cbn. by destruct (step s).
Qed.

(** From counter [c], within [n] attempts: the first accepted candidate wins. *)
Lemma ticket_loop_spec cand limit total n c :
  0 ≤ c → c + Z.of_nat n ≤ 2 ^ 64 →
  (∃ k, c ≤ k < c + Z.of_nat n ∧ cand k < limit ∧ (∀ j, c ≤ j < k → limit ≤ cand j) ∧
        loop_nat (ticket_attempt cand limit total) n c = inr (Ok (cand k mod total, k))) ∨
  (∀ j, c ≤ j < c + Z.of_nat n → limit ≤ cand j) ∧
  loop_nat (ticket_attempt cand limit total) n c =
    if c + Z.of_nat n <? 2 ^ 64 then inl (c + Z.of_nat n)
    else if bool_decide (n = 0%nat) then inl c else inr (Err ArithmeticOverflow).
Proof.
  revert c. induction n as [|n IH]; intros c Hc Hn.
  - right. split; [intros; lia|]. cbn. case_match; [f_equal; lia | done].
  - cbn [loop_nat]. unfold ticket_attempt at 1 3. destruct (Z.ltb_spec (cand c) limit) as [Hl|Hl].
    + left. exists c. split_and!; [lia|lia|done|intros; lia|done].
    + destruct (Z.ltb_spec (c + 1) (2 ^ 64)) as [Hw|Hw].
      * rewrite checked_add_fits by done.
        destruct (IH (c + 1)) as [(k & Hk & Hcand & Hmin & Heq)|[Hall Heq]]; [lia..| |].
        -- left. exists k. split_and!; [lia|lia|done| |done]. intros j Hj.
           destruct (decide (j = c)) as [->|]; [done | apply Hmin; lia].
        -- right. split.
           { intros j Hj. destruct (decide (j = c)) as [->|]; [done | apply Hall; lia]. }
           rewrite Heq. replace (c + 1 + Z.of_nat n) with (c + Z.of_nat (Datatypes.S n)) by lia.
           destruct (Z.ltb_spec (c + Z.of_nat (Datatypes.S n)) (2 ^ 64)); [done|].
           rewrite !bool_decide_false by lia. done.
      * right. unfold checked_add. rewrite (proj2 (Z.ltb_ge _ _)) by lia. split.
        { intros j Hj. assert (j = c) as -> by lia. done. }
        rewrite (proj2 (Z.ltb_ge _ _)) by lia. by rewrite bool_decide_false by lia.
Qed.

(** The search for a ticket: the first accepted candidate, or none of the 2^64
    counters has one. *)
Lemma ticket_residue_total cand limit total :
  (∃ k, 0 ≤ k < 2 ^ 64 ∧ cand k < limit ∧ (∀ j, 0 ≤ j < k → limit ≤ cand j) ∧
        ticket_residue cand limit total = Ok (cand k mod total, k)) ∨
  (∀ j, 0 ≤ j < 2 ^ 64 → limit ≤ cand j) ∧
  ticket_residue cand limit total = Err ArithmeticOverflow.
Proof.
  unfold ticket_residue. rewrite loop_pos_nat.
  assert (Hp : Z.of_nat (Pos.to_nat (2 ^ 64)) = 2 ^ 64) by (by rewrite positive_nat_Z).
  generalize dependent (Pos.to_nat (2 ^ 64)). intros n Hn.
  destruct (ticket_loop_spec cand limit total n 0) as [(k & Hk & Hc & Hmin & ->)|[Hall ->]]; [lia..| |].
  - left. exists k. split_and!; [lia|lia|done|done|done].
  - right. split; [intros j Hj; apply Hall; lia|]. rewrite Hn, Z.ltb_irrefl.
    by rewrite bool_decide_false by (intros ->; done).
Qed.

(** ** Which bucket a residue falls in *)

(** The bucket of a digest: the one whose cumulative interval holds the
    residue. *)
Definition picked_index (weights : list Z) (digest : Z) : nat :=
  partition_point (λ upper, upper <=? digest mod sumZ weights) (cumulative_sums 0 weights).

Lemma partition_cumulative run ws r :
  Forall (Z.le 0) ws → run ≤ r < run + sumZ ws →
  ∃ w, ws !! partition_point (λ upper, upper <=? r) (cumulative_sums run ws) = Some w ∧
       let j := partition_point (λ upper, upper <=? r) (cumulative_sums run ws) in
       run + sumZ (take j ws) ≤ r < run + sumZ (take j ws) + w.
Proof.
  intros Hw. revert run. induction Hw as [|w ws Hw Hws IH]; intros run Hr.
  - unfold sumZ in Hr. cbn in Hr. lia.
  - rewrite sumZ_cons in Hr. cbn [cumulative_sums partition_point].
    destruct (Z.leb_spec (run + w) r) as [Hle|Hlt].
    + destruct (IH (run + w)) as (w' & Hw' & Hr'); [lia|]. exists w'. cbn zeta in *.
      cbn [lookup list_lookup take]. split; [done|]. rewrite sumZ_cons. lia.
    + exists w. cbn. unfold sumZ. cbn. split; [done|lia].
Qed.

(** A digest falls in a bucket exactly when its residue is in the bucket's
    interval. *)
Lemma picked_index_spec weights j w digest :
  Forall (Z.le 0) weights → 0 < sumZ weights → weights !! j = Some w →
  picked_index weights digest = j ↔
  sumZ (take j weights) ≤ digest mod sumZ weights < sumZ (take j weights) + w.
Proof.
  intros Hw Htot Hj. pose proof (Z.mod_pos_bound digest (sumZ weights) Htot) as Hr.
  destruct (partition_cumulative 0 weights (digest mod sumZ weights) Hw Hr) as (w' & Hw' & Hin).
  fold (picked_index weights digest) in Hw', Hin. cbn zeta in Hin.
  split; [intros <-; rewrite Hw' in Hj; injection Hj as <-; lia|]. intros Hin'.
  assert (Hmono : ∀ a b u, (a < b)%nat → weights !! a = Some u →
            sumZ (take a weights) + u ≤ sumZ (take b weights)).
  { intros a b u Hab Ha. rewrite <- (take_drop_middle _ _ _ Ha) at 2.
    rewrite take_app_ge, sumZ_app by (rewrite length_take; lia).
    rewrite length_take_le by (apply lookup_lt_Some in Ha; lia).
    destruct (b - a)%nat as [|n] eqn:Hn; [lia|]. cbn [take]. rewrite sumZ_cons.
    pose proof (sumZ_nonneg (take n (drop (Datatypes.S a) weights))
      (Forall_take _ _ _ (Forall_drop _ _ _ Hw))). lia. }
  destruct (lt_eq_lt_dec (picked_index weights digest) j) as [[Hlt|Heq]|Hgt]; [|done|].
  - pose proof (Hmono _ _ _ Hlt Hw'). lia.
  - pose proof (Hmono _ _ _ Hgt Hj). lia.
Qed.

(** ** Counting *)

(** How many elements of [l] satisfy [p]. *)
Definition count_if (p : Z → bool) (l : list Z) : Z := sumZ ((λ x, Z.b2z (p x)) <$> l).

Lemma count_if_app p l1 l2 : count_if p (l1 ++ l2) = count_if p l1 + count_if p l2.
Proof. unfold count_if. by rewrite fmap_app, sumZ_app. Qed.

Lemma count_if_ext p q l : (∀ x, x ∈ l → p x = q x) → count_if p l = count_if q l.
Proof.
  intros Hpq. unfold count_if. f_equal. apply list_fmap_ext. intros i x Hx.
  by rewrite (Hpq x) by (by eapply list_elem_of_lookup_2).
Qed.

Lemma count_if_const (c : bool) p l : (∀ x, x ∈ l → p x = c) → count_if p l = Z.b2z c * len l.
Proof.
  intros Hc. rewrite (count_if_ext _ (λ _, c)) by done. clear Hc. unfold count_if.
  induction l as [|x l IH]; [unfold len; cbn; lia|]. rewrite fmap_cons, sumZ_cons, len_cons, IH. lia.
Qed.

Lemma count_if_fmap p f l : count_if p (f <$> l) = count_if (p ∘ f) l.
Proof. unfold count_if. by rewrite <- list_fmap_compose. Qed.

Lemma count_if_interval a w n :
  0 ≤ a → 0 ≤ w → a + w ≤ n → count_if (λ r, (a <=? r) && (r <? a + w)) (seqZ 0 n) = w.
Proof.
  intros Ha Hw Hn.
  replace n with (a + (w + (n - a - w))) by lia.
  rewrite !seqZ_app by lia. rewrite !count_if_app, Z.add_0_l.
  assert (Hnone : ∀ s m, 0 ≤ m → s + m ≤ a ∨ a + w ≤ s →
            count_if (λ r, (a <=? r) && (r <? a + w)) (seqZ s m) = 0).
  { intros s m Hm Hs. rewrite (count_if_const false); [done|].
    intros x Hx%elem_of_seqZ. rewrite andb_false_iff, Z.leb_gt, Z.ltb_ge. lia. }
  rewrite (Hnone 0 a), (Hnone (a + w)) by lia.
  rewrite (count_if_const true); [unfold len; rewrite length_seqZ; cbn [Z.b2z]; lia|].
  intros x Hx%elem_of_seqZ. rewrite andb_true_iff, Z.leb_le, Z.ltb_lt. lia.
Qed.

Lemma count_if_mod p n (q : nat) :
  0 < n → count_if (λ c, p (c mod n)) (seqZ 0 (Z.of_nat q * n)) = Z.of_nat q * count_if p (seqZ 0 n).
Proof.
  intros Hn. induction q as [|q IH]; [done|].
  replace (Z.of_nat (Datatypes.S q) * n) with (Z.of_nat q * n + n) by lia.
  rewrite seqZ_app, count_if_app, IH, Z.add_0_l by lia.
  assert (seqZ (Z.of_nat q * n) n = (λ r, Z.of_nat q * n + r) <$> seqZ 0 n) as ->.
  { rewrite fmap_add_seqZ. f_equal. lia. }
  rewrite count_if_fmap, (count_if_ext (_ ∘ _) p); [lia|].
  intros r Hr%elem_of_seqZ. unfold compose. f_equal.
  rewrite Z.add_comm, Z_mod_plus_full. apply Z.mod_small. lia.
Qed.

(** Ticket selection is unbiased. Of the digests below the rejection limit
    (the largest multiple of the total weight in the 512-bit space), exactly
    [weight * (2^512 / total)] fall in a bucket of that weight: rejection and
    reduction modulo the total favour no bucket. *)
Lemma ticket_selection_unbiased (weights : list Z) j w :
  Forall (Z.le 0) weights → 0 < sumZ weights → weights !! j = Some w →
  count_if (λ digest, bool_decide (picked_index weights digest = j))
    (seqZ 0 (SPACE / sumZ weights * sumZ weights)) = SPACE / sumZ weights * w.
Proof.
  intros Hw Htot Hj. set (a := sumZ (take j weights)).
  assert (Hin : 0 ≤ a ∧ 0 ≤ w ∧ a + w ≤ sumZ weights).
  { assert (Hsum : sumZ weights = a + (w + sumZ (drop (Datatypes.S j) weights))).
    { rewrite <- (take_drop_middle _ _ _ Hj) at 1. by rewrite sumZ_app, sumZ_cons. }
    pose proof (sumZ_nonneg _ (Forall_take _ j _ Hw)).
    pose proof (sumZ_nonneg _ (Forall_drop _ (Datatypes.S j) _ Hw)).
    pose proof (Forall_lookup_1 _ _ _ _ Hw Hj). lia. }
  assert (0 ≤ SPACE / sumZ weights) by (apply Z.div_pos; [by vm_compute | lia]).
  rewrite <- (Z2Nat.id (SPACE / sumZ weights)) by done.
  rewrite (count_if_ext _ (λ c, (λ r, (a <=? r) && (r <? a + w)) (c mod sumZ weights))).
  - rewrite (count_if_mod (λ r, (a <=? r) && (r <? a + w))), count_if_interval by lia. done.
  - intros c _. apply eq_bool_prop_intro. rewrite bool_decide_spec, (picked_index_spec _ _ _ _ Hw Htot Hj).
    rewrite andb_True, !Is_true_true, Z.leb_le, Z.ltb_lt. done.
Qed.

(** Weights 1, 0, 3: the third bucket gets three quarters of the space. *)
Lemma ticket_selection_unbiased_witness :
  count_if (λ digest, bool_decide (picked_index [1; 0; 3] digest = 2%nat))
    (seqZ 0 (SPACE / 4 * 4)) = SPACE / 4 * 3.
Proof.
  apply (ticket_selection_unbiased [1; 0; 3] 2 3); [|reflexivity..]. repeat constructor; lia.
Defined.

(** ** The selection *)

(** The winner of a ticket and the counter that found it. *)
Definition ticket_won (candidate : Z → Z) (buckets : list (Hash256 * Z)) (winner : Hash256) (k : Z) : Prop :=
  let limit := SPACE / sumZ buckets.*2 * sumZ buckets.*2 in
  0 ≤ k < 2 ^ 64 ∧ candidate k < limit ∧ (∀ j, 0 ≤ j < k → limit ≤ candidate j) ∧
  ∃ w, 0 < w ∧ buckets !! picked_index buckets.*2 (candidate k) = Some (winner, w).

Section selection.
  Context (candidate : Z → Z → Z) (buckets : list (Hash256 * Z)).
  Context (Hw : Forall (Z.le 0) buckets.*2) (Htot : sumZ buckets.*2 ≠ 0).

Lemma total_positive : 0 < sumZ buckets.*2.
Proof. pose proof (sumZ_nonneg _ Hw). lia. Qed.

Lemma picked_bucket digest :
  ∃ b w, 0 < w ∧ buckets !! picked_index buckets.*2 digest = Some (b, w).
Proof.
  pose proof total_positive as Ht. pose proof (Z.mod_pos_bound digest _ Ht) as Hr.
  destruct (partition_cumulative 0 _ _ Hw Hr) as (w & Hj & Hin). cbn zeta in Hin.
  fold (picked_index buckets.*2 digest) in Hj. rewrite list_lookup_fmap in Hj.
  destruct (buckets !! _) as [[b w']|] eqn:Hb; [|done]. cbn in Hj. injection Hj as ->.
  exists b, w. split; [lia|done].
Qed.

Lemma select_ticket_spec i :
  let limit := SPACE / sumZ buckets.*2 * sumZ buckets.*2 in
  let pick := select_ticket candidate buckets (sumZ buckets.*2) limit (cumulative_sums 0 buckets.*2) i in
  (∃ b k, pick = Ok (b, k) ∧ ticket_won (candidate i) buckets b k) ∨
  pick = Err ArithmeticOverflow ∧ ∀ k, 0 ≤ k < 2 ^ 64 → limit ≤ candidate i k.
Proof.
  cbn zeta. unfold select_ticket.
  destruct (ticket_residue_total (candidate i) (SPACE / sumZ buckets.*2 * sumZ buckets.*2)
              (sumZ buckets.*2)) as [(k & Hk & Hc & Hmin & ->)|[Hall ->]]; [left|by right].
  destruct (picked_bucket (candidate i k)) as (b & w & Hpos & Hb). exists b, k.
  cbn -[SPACE]. fold (picked_index buckets.*2 (candidate i k)). rewrite Hb. cbn.
  split; [done|]. split_and!; [lia|lia|done|done|]. exists w. done.
Qed.

Lemma ticket_won_unique cand b1 k1 b2 k2 :
  ticket_won cand buckets b1 k1 → ticket_won cand buckets b2 k2 → b1 = b2 ∧ k1 = k2.
Proof.
  intros (Hk1 & Hc1 & Hm1 & w1 & _ & Hb1) (Hk2 & Hc2 & Hm2 & w2 & _ & Hb2).
  assert (k1 = k2) as ->.
  { destruct (Z.lt_trichotomy k1 k2) as [Hlt|[Heq|Hlt]]; [|done|].
    - specialize (Hm2 k1 ltac:(lia)). lia.
    - specialize (Hm1 k2 ltac:(lia)). lia. }
  rewrite Hb1 in Hb2. by injection Hb2 as -> _.
Qed.

Lemma select_weighted_from_spec count :
  0 < count →
  (∃ winners counters,
     select_weighted_from candidate count buckets = Ok (winners, counters) ∧
     len winners = count ∧ len counters = count ∧
     ∀ i : nat, Z.of_nat i < count →
       ∃ b k, winners !! i = Some b ∧ counters !! i = Some k ∧
              ticket_won (candidate (Z.of_nat i)) buckets b k) ∨
  select_weighted_from candidate count buckets = Err ArithmeticOverflow ∧
  ∃ i, 0 ≤ i < count ∧ ∀ k, 0 ≤ k < 2 ^ 64 →
    SPACE / sumZ buckets.*2 * sumZ buckets.*2 ≤ candidate i k.
Proof.
  intros Hcount. unfold select_weighted_from.
  rewrite (proj2 (Z.eqb_neq count 0)), (proj2 (Z.eqb_neq _ _) Htot) by lia.
  rewrite bool_decide_false by (intros Hb; apply Htot; by rewrite Hb).
  cbn [andb]. pose proof select_ticket_spec as Hsel. cbn zeta in Hsel.
  set (pick := select_ticket _ _ _ _ _) in *. set (limit := SPACE / _ * _) in *.
  destruct (collect pick (seqZ 0 count)) as [picks|e] eqn:Hcol; [left|right].
  - apply collect_ok in Hcol. exists picks.*1, picks.*2. cbn -[SPACE].
    assert (Hlen : len picks = count).
    { unfold len. rewrite <- (Forall2_length _ _ _ Hcol), length_seqZ. lia. }
    rewrite !len_fmap. split_and!; [done|lia|lia|]. intros i Hi.
    assert (Hsq : seqZ 0 count !! i = Some (Z.of_nat i)) by (rewrite lookup_seqZ_lt by lia; f_equal; lia).
    destruct (Forall2_lookup_l _ _ _ _ _ Hcol Hsq) as ([b k] & Hp & Hpick).
    exists b, k. rewrite !list_lookup_fmap, Hp. split_and!; [done..|].
    destruct (Hsel (Z.of_nat i)) as [(b' & k' & Hok & Hwon)|[Herr _]]; [|congruence].
    rewrite Hpick in Hok. injection Hok as -> ->. done.
  - apply collect_err in Hcol as (i & Hi%elem_of_seqZ & He).
    destruct (Hsel i) as [(b & k & Hok & _)|[Herr Hall]]; [congruence|].
    rewrite He in Herr. injection Herr as ->. split; [done|]. exists i. split; [lia|done].
Qed.
End selection.

(** C39: weighted selection always ends, and with enough accepted digests it
    gives every ticket to the bucket its first accepted digest falls in: for
    each ticket index the recorded counter is the least one whose digest is
    below the rejection limit, and the winner has positive weight. It fails
    only when all 2^64 digests of some ticket are rejected. *)
Theorem ticket_selection_exact `{Digests} seed class count buckets :
  0 < count → Forall (Z.le 0) buckets.*2 → sumZ buckets.*2 ≠ 0 →
  (∃ winners counters,
     select_weighted seed class count buckets = Ok (winners, counters) ∧
     len winners = count ∧ len counters = count ∧
     ∀ i : nat, Z.of_nat i < count →
       ∃ b k, winners !! i = Some b ∧ counters !! i = Some k ∧
              ticket_won (ticket_candidate seed class (Z.of_nat i)) buckets b k) ∨
  select_weighted seed class count buckets = Err ArithmeticOverflow ∧
  ∃ i, 0 ≤ i < count ∧ ∀ k, 0 ≤ k < 2 ^ 64 →
    SPACE / sumZ buckets.*2 * sumZ buckets.*2 ≤ ticket_candidate seed class i k.
Proof. intros Hc Hw Ht. by apply select_weighted_from_spec. Qed.

Lemma ticket_selection_exact_witness :
  ∃ winners counters,
    @select_weighted toy_digests (replicate 32 x01) 0 2 [(replicate 32 x0a, 1); (replicate 32 x0b, 2)]
      = Ok (winners, counters) ∧ len winners = 2.
Proof.
  destruct (@ticket_selection_exact toy_digests (replicate 32 x01) 0 2
    [(replicate 32 x0a, 1); (replicate 32 x0b, 2)]) as [(ws & cs & He & Hl & _)|[He _]].
  - lia.
  - repeat constructor; cbn; lia.
  - by vm_compute.
  - eauto.
  - exfalso. revert He. vm_compute. done.
Defined.

(** Weights that together exceed the 512-bit space leave no accepted digest:
    the search of the first ticket rejects all 2^64 candidates before it fails. *)
Theorem oversized_total_never_accepts `{Digests} seed class count buckets :
  0 < count → Forall (Z.le 0) buckets.*2 → SPACE < sumZ buckets.*2 →
  select_weighted seed class count buckets = Err ArithmeticOverflow.
Proof.
  intros Hc Hw Ht. assert (0 < SPACE) by (by vm_compute).
  destruct (select_weighted_from_spec (ticket_candidate seed class) buckets Hw ltac:(lia) count Hc)
    as [(ws & cs & _ & _ & _ & Hwin)|[He _]]; [|done].
  destruct (Hwin 0%nat) as (b & k & _ & _ & _ & Hlim & _); [lia|]. cbn zeta in Hlim.
  rewrite Z.div_small, Z.mul_0_l in Hlim by lia.
  unfold ticket_candidate in Hlim. pose proof (of_be_range (blake2b_512 [into_bytes
    (enc_bytes TICKET_DOMAIN >>> enc_fixed seed >>> enc_u8 class >>>
     enc_u16 (Z.of_nat 0) >>> enc_u64 k)])). lia.
Qed.

(** ** Dividing a pool over tickets *)

Lemma ticket_values_len pool count : 0 ≤ count → len (ticket_values pool count) = count.
Proof.
  intros Hc. unfold ticket_values. destruct (Z.eqb_spec count 0) as [->|]; [done|].
  rewrite len_fmap. unfold len. rewrite length_seqZ. lia.
Qed.

Lemma ticket_values_sum pool count :
  0 ≤ pool → 0 < count → sumZ (ticket_values pool count) = pool.
Proof.
  intros Hp Hc. unfold ticket_values. rewrite (proj2 (Z.eqb_neq count 0)) by lia.
  pose proof (Z.mod_pos_bound pool count Hc) as Hm.
  assert (Hsum : ∀ l, sumZ ((λ i, pool / count + Z.b2z (i <? pool mod count)) <$> l) =
            len l * (pool / count) + count_if (λ i, i <? pool mod count) l).
  { intros l. unfold count_if. induction l as [|i l IH]; [done|].
    rewrite !fmap_cons, !sumZ_cons, len_cons, IH. lia. }
  rewrite Hsum, (count_if_ext _ (λ i, (0 <=? i) && (i <? 0 + pool mod count))).
  - rewrite count_if_interval by lia. unfold len. rewrite length_seqZ, Z2Nat.id by lia.
    pose proof (Z.div_mod pool count). lia.
  - intros i Hi%elem_of_seqZ. by rewrite (proj2 (Z.leb_le 0 i)) by lia.
Qed.

(** Every ticket of a pool is worth the floor of its share or one more. *)
Lemma ticket_values_even pool count v :
  0 < count → v ∈ ticket_values pool count → pool / count ≤ v ≤ pool / count + 1.
Proof.
  intros Hc. unfold ticket_values. rewrite (proj2 (Z.eqb_neq count 0)) by lia.
  intros (i & -> & _)%list_elem_of_fmap. destruct (_ <? _); cbn; lia.
Qed.

Lemma ticket_values_nonneg pool count : 0 ≤ pool → 0 ≤ count → Forall (Z.le 0) (ticket_values pool count).
Proof.
  intros Hp Hc. apply list.Forall_forall. intros v Hv. destruct (decide (count = 0)) as [->|].
  - by apply elem_of_nil in Hv.
  - apply ticket_values_even in Hv; [|lia]. pose proof (Z.div_pos pool count). lia.
Qed.

(** ** Combining winners by destination *)

Definition total_value (m : gmap DestinationKey PayoutOutput) : Z := map_sum po_value m.

(** What a destination is owed by a list of tickets. *)
Definition paid_to (destinations : gmap Hash256 PayoutOutput) (tickets : list (Hash256 * Z))
    (key : DestinationKey) : Z :=
  sumZ ((λ t, if bool_decide (destination_key <$> destinations !! t.1 = Some key) then t.2 else 0)
          <$> tickets).

(** Destinations carry no value of their own. *)
Definition blank_destinations (destinations : gmap Hash256 PayoutOutput) : Prop :=
  ∀ id o, destinations !! id = Some o → o.(po_value) = 0.

(** The outputs that [tickets] combine to. *)
Record combined (destinations : gmap Hash256 PayoutOutput) (tickets : list (Hash256 * Z))
    (m : gmap DestinationKey PayoutOutput) : Prop := mk_combined {
  cmb_key k o : m !! k = Some o → destination_key o = k ∧ o.(po_value) = paid_to destinations tickets k;
  cmb_dom k : is_Some (m !! k) ↔
    ∃ t, t ∈ tickets ∧ destination_key <$> destinations !! t.1 = Some k;
  cmb_total : total_value m = sumZ tickets.*2;
}.

Lemma paid_to_app ds l1 l2 k : paid_to ds (l1 ++ l2) k = paid_to ds l1 k + paid_to ds l2 k.
Proof. unfold paid_to. by rewrite fmap_app, sumZ_app. Qed.

Lemma paid_to_le ds tickets k :
  Forall (Z.le 0) tickets.*2 → 0 ≤ paid_to ds tickets k ≤ sumZ tickets.*2.
Proof.
  induction tickets as [|t tickets IH]; [done|]. rewrite fmap_cons, Forall_cons. intros [Ht Hts].
  unfold paid_to in *. rewrite fmap_cons, !sumZ_cons. specialize (IH Hts). case_bool_decide; lia.
Qed.

Lemma paid_to_none ds tickets k :
  (¬ ∃ t, t ∈ tickets ∧ destination_key <$> ds !! t.1 = Some k) → paid_to ds tickets k = 0.
Proof.
  intros Hno. induction tickets as [|t tickets IH]; [done|].
  unfold paid_to in *. rewrite fmap_cons, sumZ_cons, IH.
  - rewrite bool_decide_false; [done|]. intros Ht. apply Hno. exists t. split; [left|done].
  - intros (t' & Ht' & Hk). apply Hno. exists t'. split; [by right|done].
Qed.

Lemma combined_nil ds : combined ds [] ∅.
Proof.
  split; [done| |done]. intros k. rewrite lookup_empty. split; [by intros []|].
  intros (t & Ht & _). by apply elem_of_nil in Ht.
Qed.

Lemma combine_step_ok ds tickets m t o :
  blank_destinations ds → combined ds tickets m → ds !! t.1 = Some o →
  Forall (Z.le 0) tickets.*2 → sumZ tickets.*2 + t.2 < 2 ^ 64 →
  ∃ m', combine_step ds m t = Ok m' ∧ combined ds (tickets ++ [t]) m'.
Proof.
  intros Hbl Hcm Ho Hnn Hsum. pose proof Hcm as [Hkey Hdom Htotal].
  set (k := destination_key o). set (entry := default o (m !! k)).
  assert (Hentry : entry.(po_value) = paid_to ds tickets k ∧ destination_key entry = k).
  { unfold entry. destruct (m !! k) as [e|] eqn:He; cbn.
    - by destruct (Hkey k e He).
    - split; [|done]. rewrite (Hbl _ _ Ho), paid_to_none; [done|].
      rewrite <- Hdom, He. by intros []. }
  destruct Hentry as [Hval Hek]. pose proof (paid_to_le ds tickets k Hnn).
  assert (Hnew : paid_to ds (tickets ++ [t]) k = entry.(po_value) + t.2).
  { rewrite paid_to_app, Hval. f_equal. unfold paid_to. cbn. rewrite Ho, bool_decide_true by done. lia. }
  eexists. unfold combine_step. rewrite Ho. cbn -[checked_add]. fold k entry.
  rewrite checked_add_fits by lia. split; [done|]. split.
  - intros k' o'. rewrite lookup_insert_Some. intros [[<- <-]|[Hne Hk']]; [done|].
    destruct (Hkey k' o' Hk') as [Hk'' ->]. split; [done|].
    rewrite paid_to_app. unfold paid_to at 3. cbn. rewrite Ho, bool_decide_false; [lia|].
    intros [= Heq]. by apply Hne.
  - intros k'. rewrite lookup_insert_is_Some, Hdom. setoid_rewrite elem_of_app.
    setoid_rewrite list_elem_of_singleton. split.
    + intros [<-|[_ (t' & Ht' & Hk')]]; [exists t; rewrite Ho; auto | eauto].
    + intros (t' & [Ht'| ->] & Hk'); [destruct (decide (k = k')); eauto|].
      left. rewrite Ho in Hk'. by injection Hk'.
  - rewrite fmap_app, sumZ_app. cbn. rewrite Z.add_0_r. unfold entry in *.
    destruct (m !! k) as [e|] eqn:He; cbn in *.
    + unfold total_value in *. rewrite (map_sum_insert_old _ _ _ e) by done. cbn. lia.
    + unfold total_value in *. rewrite map_sum_insert_new by done. cbn. rewrite (Hbl _ _ Ho). lia.
Qed.

Lemma combine_loop ds todo seen m :
  blank_destinations ds → combined ds seen m → Forall (Z.le 0) (seen ++ todo).*2 →
  sumZ (seen ++ todo).*2 < 2 ^ 64 →
  match fold_result (combine_step ds) m todo with
  | Ok m' => combined ds (seen ++ todo) m' ∧ Forall (λ w, is_Some (ds !! w)) todo.*1
  | Err e => e = ConflictingBucketMetadata ∧ ∃ w, w ∈ todo.*1 ∧ ds !! w = None
  end.
Proof.
  intros Hbl. revert seen m. induction todo as [|t todo IH]; intros seen m Hcm Hf Hs; cbn [fold_result].
  - rewrite app_nil_r. split; [done|constructor].
  - destruct (ds !! t.1) as [o|] eqn:Ho.
    + pose proof Hf as Hf'. rewrite fmap_app, fmap_cons, Forall_app, Forall_cons in Hf'.
      destruct Hf' as (Hf1 & Ht & Hf2). pose proof Hs as Hs'.
      rewrite fmap_app, fmap_cons, sumZ_app, sumZ_cons in Hs'. pose proof (sumZ_nonneg _ Hf2).
      destruct (combine_step_ok ds seen m t o) as (m' & -> & Hm'); [done..|lia|].
      change (?a :: ?b) with ([a] ++ b) in Hf, Hs |- *. rewrite app_assoc in Hf, Hs |- *.
      specialize (IH _ _ Hm' Hf Hs). cbn. destruct (fold_result _ m' todo) as [m''|e].
      * destruct IH as [Hc Hd]. split; [done|]. constructor; [by eexists|done].
      * destruct IH as (-> & w & Hw & Hn). split; [done|]. exists w. split; [by right|done].
    + assert (combine_step ds m t = Err ConflictingBucketMetadata) as ->
        by (unfold combine_step; by rewrite Ho).
      cbn. split; [done|]. exists t.1. split; [left|done].
Qed.

(** With a total below 2^64, combining fails only on a winner that has no
    destination. *)
Lemma combine_winners_spec winners values ds :
  blank_destinations ds → Forall (Z.le 0) values → length winners = length values →
  sumZ values < 2 ^ 64 →
  match combine_winners winners values ds with
  | Ok m => combined ds (zip winners values) m ∧ Forall (λ w, is_Some (ds !! w)) winners
  | Err e => e = ConflictingBucketMetadata ∧ ∃ w, w ∈ winners ∧ ds !! w = None
  end.
Proof.
  intros Hbl Hnn Hlen Hsum. unfold combine_winners.
  pose proof (combine_loop ds (zip winners values) [] ∅ Hbl (combined_nil ds)) as Hl.
  cbn [app] in Hl. rewrite snd_zip, fst_zip in Hl by lia. by apply Hl.
Qed.

(** ** The coinbase *)

Lemma insert_blank ds id v h :
  blank_destinations ds → blank_destinations (<[id := mkPayoutOutput v h 0]> ds).
Proof. intros Hb i o. rewrite lookup_insert_Some. intros [[_ <-]|[_ Hi]]; [done | by eapply Hb]. Qed.

Lemma work_destinations_blank buckets : blank_destinations (work_destination_map buckets).
Proof.
  unfold work_destination_map. assert (Hb : blank_destinations ∅) by (intros i o; by rewrite lookup_empty).
  revert Hb. generalize (∅ : gmap Hash256 PayoutOutput). induction buckets as [|b buckets IH]; [done|].
  intros ds Hds. by apply IH, insert_blank.
Qed.

Lemma service_destinations_blank buckets : blank_destinations (service_destination_map buckets).
Proof.
  unfold service_destination_map. assert (Hb : blank_destinations ∅) by (intros i o; by rewrite lookup_empty).
  revert Hb. generalize (∅ : gmap Hash256 PayoutOutput). induction buckets as [|b buckets IH]; [done|].
  intros ds Hds. by apply IH, insert_blank.
Qed.

Lemma filter_all {A} (P : A → Prop) `{!∀ x, Decision (P x)} l : Forall P l → filter P l = l.
Proof. induction 1 as [|x l Hx _ IH]; [done|]. by rewrite filter_cons_True, IH. Qed.

Lemma destination_entries_perm m : destination_entries m ≡ₚ map_to_list m.
Proof. apply merge_sort_Permutation. Qed.

Lemma split_first m k o :
  m !! k = Some o →
  o :: (snd <$> filter (λ e, e.1 ≠ k) (destination_entries m)) ≡ₚ (map_to_list m).*2.
Proof.
  intros Hk. rewrite destination_entries_perm, <- (map_to_list_delete m k o Hk).
  rewrite filter_cons_False by (cbn; auto). rewrite filter_all; [done|].
  apply list.Forall_forall. intros [k' o'] Hin%elem_of_map_to_list. cbn. intros ->.
  by rewrite lookup_delete_eq in Hin.
Qed.

Lemma combined_outputs_nodup ds tickets m :
  combined ds tickets m → NoDup (destination_key <$> (map_to_list m).*2).
Proof.
  intros Hc. replace (destination_key <$> (map_to_list m).*2) with (map_to_list m).*1.
  - apply NoDup_fst_map_to_list.
  - rewrite <- list_fmap_compose. apply list_fmap_ext. intros i [k o] Hi. cbn.
    apply list_elem_of_lookup_2, elem_of_map_to_list in Hi.
    by destruct (cmb_key _ _ _ Hc k o Hi).
Qed.

(** Outputs that pay [tickets]: one per destination that won, each worth what its
    tickets are, together worth all of them. *)
Definition pays (ds : gmap Hash256 PayoutOutput) (tickets : list (Hash256 * Z))
    (outputs : list PayoutOutput) : Prop :=
  NoDup (destination_key <$> outputs) ∧
  (∀ o, o ∈ outputs → o.(po_value) = paid_to ds tickets (destination_key o)) ∧
  (∀ k, k ∈ destination_key <$> outputs ↔
    ∃ t, t ∈ tickets ∧ destination_key <$> ds !! t.1 = Some k) ∧
  sumZ (po_value <$> outputs) = sumZ tickets.*2.

Lemma combined_pays ds tickets m outputs :
  combined ds tickets m → outputs ≡ₚ (map_to_list m).*2 → pays ds tickets outputs.
Proof.
  intros Hc Hp. split_and!.
  - rewrite Hp. by eapply combined_outputs_nodup.
  - intros o. rewrite Hp. intros ([k o'] & -> & Hin%elem_of_map_to_list)%list_elem_of_fmap. cbn.
    destruct (cmb_key _ _ _ Hc k o' Hin) as [-> Hv]. done.
  - intros k. rewrite Hp, <- (cmb_dom _ _ _ Hc). rewrite list_elem_of_fmap. split.
    + intros (o & -> & ([k' o'] & -> & Hin%elem_of_map_to_list)%list_elem_of_fmap). cbn.
      destruct (cmb_key _ _ _ Hc k' o' Hin) as [-> _]. by eexists.
    + intros [o Ho]. exists o. destruct (cmb_key _ _ _ Hc k o Ho) as [Hk _]. split; [done|].
      apply list_elem_of_fmap. exists (k, o). split; [done|]. by apply elem_of_map_to_list.
  - rewrite Hp, <- (cmb_total _ _ _ Hc). unfold total_value, map_sum. by rewrite <- list_fmap_compose.
Qed.

Lemma pool_values_sum pool count :
  0 ≤ pool → 0 ≤ count → (0 < pool → count ≠ 0) → sumZ (ticket_values pool count) = pool.
Proof.
  intros Hp Hc Hz. destruct (decide (count = 0)) as [->|]; [|apply ticket_values_sum; lia].
  assert (pool = 0) as -> by lia. done.
Qed.

(** The tickets of a pool that fits 64 bits are combined without overflow. *)
Lemma pool_combined ds winners pool count m :
  blank_destinations ds → 0 ≤ pool < 2 ^ 64 → len winners = count → (0 < pool → count ≠ 0) →
  combine_winners winners (ticket_values pool count) ds = Ok m →
  combined ds (zip winners (ticket_values pool count)) m ∧
  sumZ (zip winners (ticket_values pool count)).*2 = pool.
Proof.
  intros Hbl Hp Hlen Hz Hok. pose proof (len_nonneg winners) as Hc. rewrite Hlen in Hc.
  pose proof (ticket_values_len pool count Hc) as Hlv.
  pose proof (pool_values_sum pool count (proj1 Hp) Hc Hz) as Hs.
  assert (Hll : length winners = length (ticket_values pool count)) by (unfold len in *; lia).
  pose proof (combine_winners_spec winners (ticket_values pool count) ds Hbl) as Hcw.
  rewrite Hok in Hcw. rewrite snd_zip by lia. split; [|done].
  apply Hcw; [by apply ticket_values_nonneg; lia | done | lia].
Qed.

Lemma pool_minimum pool count minimum :
  0 ≤ count → (0 < pool → count ≠ 0) → (0 <? pool) && (pool / count <? minimum) = false →
  0 < pool → Forall (λ v, minimum ≤ v) (ticket_values pool count).
Proof.
  intros Hc Hz Hmin Hpool. rewrite (proj2 (Z.ltb_lt _ _) Hpool) in Hmin. cbn in Hmin.
  apply Z.ltb_ge in Hmin. apply list.Forall_forall. intros v Hv.
  specialize (Hz Hpool). apply ticket_values_even in Hv; lia.
Qed.

Lemma fee_output_spec fees dest o :
  fee_output fees dest = Ok o → sumZ (po_value <$> option_list o) = fees.
Proof.
  unfold fee_output. destruct (Z.eqb_spec fees 0) as [->|]; [by intros [= <-]|].
  destruct dest as [[v h]|]; [|done]. intros [= <-]. cbn. unfold sumZ. cbn. lia.
Qed.

Lemma service_pool_bounds subsidy basis_points maximum :
  0 ≤ subsidy → 0 ≤ basis_points → (maximum <? basis_points) || (10000 <? maximum) = false →
  0 ≤ subsidy * basis_points / 10000 ≤ subsidy.
Proof.
  intros Hs Hb Hm. apply orb_false_iff in Hm as [H1%Z.ltb_ge H2%Z.ltb_ge]. split.
  - apply Z.div_pos; lia.
  - apply Z.div_le_upper_bound; nia.
Qed.

(** C1: a coinbase built for a plan conserves value. The work and service pools
    split the subsidy at the profile's basis points, rounded down for service;
    the work outputs pay the work pool and the service outputs the service
    pool, each destination exactly the tickets it won and no destination twice;
    every ticket is worth the floor of its share or one more, and at least the
    profile's minimum; the operator receives exactly the fees; and the coinbase
    has at most the permitted number of outputs. *)
Theorem coinbase_conserves_value `{Digests} snapshot plan subsidy fees mandatory dest profile p :
  0 ≤ subsidy < 2 ^ 64 → 0 ≤ profile.(pf_service_basis_points) →
  build_coinbase_payouts snapshot plan subsidy fees mandatory dest profile = Ok p →
  let s := p.(cp_skeleton) in
  let work := s.(first_work_or_fallback) :: s.(remaining_work_outputs) in
  let work_values := ticket_values p.(cp_work_pool) profile.(pf_work_ticket_count) in
  let service_values := ticket_values p.(cp_service_pool) profile.(pf_service_ticket_count) in
  p.(cp_service_pool) = subsidy * profile.(pf_service_basis_points) / 10000 ∧
  p.(cp_work_pool) + p.(cp_service_pool) = subsidy ∧
  pays (work_destination_map snapshot.(psn_work_buckets)) (zip plan.(pp_work_winners) work_values) work ∧
  pays (service_destination_map snapshot.(psn_service_buckets))
    (zip plan.(pp_service_winners) service_values) s.(service_outputs) ∧
  sumZ (po_value <$> work) = p.(cp_work_pool) ∧
  sumZ (po_value <$> s.(service_outputs)) = p.(cp_service_pool) ∧
  sumZ (po_value <$> option_list s.(operator_fee_output)) = fees ∧
  s.(mandatory_claim_airdrop_outputs) = mandatory ∧
  (0 < p.(cp_work_pool) →
     Forall (λ v, profile.(pf_minimum_ticket_value) ≤ v) work_values) ∧
  (0 < p.(cp_service_pool) →
     Forall (λ v, profile.(pf_minimum_ticket_value) ≤ v) service_values) ∧
  ∃ outputs, ordered_outputs s = Ok outputs ∧ len outputs ≤ profile.(pf_maximum_coinbase_outputs) ∧
    sumZ (po_value <$> outputs) = subsidy + fees + sumZ (po_value <$> mandatory).
Proof.
  intros Hsub Hbp. unfold build_coinbase_payouts.
  if_true Hid; [done|]. if_true Hfrac; [done|]. if_true Hcount; [done|].
  apply orb_false_iff in Hcount as [Hcw Hcs].
  apply negb_false_iff, Z.eqb_eq in Hcw, Hcs. apply orb_false_iff in Hfrac as [Hfrac _].
  pose proof (service_pool_bounds _ _ _ (proj1 Hsub) Hbp Hfrac) as Hsp.
  set (service_pool := subsidy * _ / _) in *. clearbody service_pool.
  set (work_pool := subsidy - service_pool).
  assert (Hbw : 0 ≤ work_pool < 2 ^ 64) by (unfold work_pool; lia).
  assert (Hbs : 0 ≤ service_pool < 2 ^ 64) by lia.
  if_true Hmw; [done|]. if_true Hms; [done|]. if_true Hec; [done|].
  apply orb_false_iff in Hec as [Hecw Hecs].
  assert (Hzw : 0 < work_pool → profile.(pf_work_ticket_count) ≠ 0).
  { intros Hp. rewrite (proj2 (Z.ltb_lt _ _) Hp) in Hmw. by apply Z.eqb_neq in Hmw. }
  assert (Hzs : 0 < service_pool → profile.(pf_service_ticket_count) ≠ 0).
  { intros Hp. rewrite (proj2 (Z.ltb_lt _ _) Hp) in Hms. by apply Z.eqb_neq in Hms. }
  rewrite bind_ok. intros (work & Hwork & Hrest). apply bind_ok in Hrest as (service & Hserv & Hrest).
  apply bind_ok in Hrest as (winner & _ & Hrest). apply bind_ok in Hrest as (k & _ & Hrest).
  apply bind_ok in Hrest as (o & Ho & Hrest). apply bind_ok in Hrest as (fo & Hfee & Hrest).
  apply bind_ok in Hrest as (_ & _ & Hrest). apply bind_ok in Hrest as (outs & Houts & Hrest).
  revert Hrest. if_true Hmax; [done|]. intros [= <-]. cbn -[zip ticket_values].
  apply map_err_ok in Houts. apply ok_or_ok in Ho. apply fee_output_spec in Hfee.
  destruct (pool_combined _ _ _ _ _ (work_destinations_blank _) Hbw Hcw Hzw Hwork) as [Hcmw Hsw].
  destruct (pool_combined _ _ _ _ _ (service_destinations_blank _) Hbs Hcs Hzs Hserv) as [Hcms Hss].
  pose proof (combined_pays _ _ _ _ Hcmw (split_first _ _ _ Ho)) as Hpw.
  assert (HpermS : snd <$> destination_entries service ≡ₚ (map_to_list service).*2)
    by (by rewrite destination_entries_perm).
  pose proof (combined_pays _ _ _ _ Hcms HpermS) as Hps.
  pose proof Hpw as (_ & _ & _ & Hvw). pose proof Hps as (_ & _ & _ & Hvs).
  rewrite Hsw in Hvw. rewrite Hss in Hvs.
  split_and!; [done|lia|done|done|exact Hvw|exact Hvs|done|done| | |].
  - apply pool_minimum; [rewrite <- Hcw; apply len_nonneg|done..].
  - apply pool_minimum; [rewrite <- Hcs; apply len_nonneg|done..].
  - exists outs. split; [done|]. split; [by apply Z.ltb_ge|].
    unfold ordered_outputs in Houts. apply bind_ok in Houts as (_ & _ & [= <-]).
    cbn -[sumZ]. rewrite sumZ_cons, !fmap_app, !sumZ_app, Hfee, Hvs.
    rewrite fmap_cons, sumZ_cons in Hvw. lia.
Qed.

(** Two work winners and one service winner share a block. *)
Definition demo_work_leaf (b : byte) (work : Z) : WorkBucketLeaf :=
  mkWorkBucketLeaf (replicate 32 b) (replicate 32 x11) 0 (replicate 20 b) (to_be 64 work).
Definition demo_service_leaf (b : byte) (credit : Z) : ServiceBucketLeaf :=
  mkServiceBucketLeaf (replicate 32 b) (replicate 32 x11) 0 (replicate 20 b) (to_be 64 credit).
Definition demo_snapshot : PayoutSnapshotV2 :=
  mkPayoutSnapshotV2 2 0 5 (replicate 32 x00) (replicate 32 x01) (replicate 32 x02) 100
    (to_be 64 50) (to_be 64 60) [demo_work_leaf x0a 20; demo_work_leaf x0b 40]
    [demo_service_leaf x0c 3] (replicate 32 x03) (replicate 32 x04) (replicate 32 x05) empty_ed25519.
Definition demo_profile : PayoutProfile := mkPayoutProfile 3 1 250 1000 10 8.
Definition demo_plan : result SettlementError PayoutPlanV2 :=
  @build_payout_plan toy_digests demo_snapshot 101 [replicate 32 x21; replicate 32 x22]
    (replicate 32 x23) demo_profile empty_ed25519.

Lemma coinbase_conserves_value_witness :
  match demo_plan with
  | Ok plan =>
      match @build_coinbase_payouts toy_digests demo_snapshot plan 1000 7 [] (Some (0, replicate 20 x0d))
              demo_profile with
      | Ok p => sumZ (po_value <$> p.(cp_skeleton).(service_outputs)) = 25 ∧ p.(cp_work_pool) = 975
      | Err _ => False
      end
  | Err _ => False
  end.
Proof.
  destruct demo_plan as [plan|] eqn:Hplan; [|by vm_compute in Hplan].
  destruct (@build_coinbase_payouts toy_digests demo_snapshot plan 1000 7 [] _ demo_profile)
    as [p|e] eqn:Hp.
  - destruct (@coinbase_conserves_value toy_digests demo_snapshot plan 1000 7 [] (Some (0, replicate 20 x0d))
      demo_profile p) as (Hs & Hw & _ & _ & _ & Hsum & _); [lia|by vm_compute|done|].
    assert (Hq : 1000 * demo_profile.(pf_service_basis_points) / 10000 = 25) by (by vm_compute).
    rewrite Hsum. lia.
  - assert (He : (plan ← demo_plan;
                  @build_coinbase_payouts toy_digests demo_snapshot plan 1000 7 []
                    (Some (0, replicate 20 x0d)) demo_profile) = Err e) by (by rewrite Hplan).
    clear Hp Hplan. by vm_compute in He.
Defined.

(** ** Verifying a plan *)

Definition set_signer_set (p : PayoutPlanV2) (signer_set : SignatureSet) : PayoutPlanV2 :=
  mkPayoutPlanV2 p.(pp_protocol_version) p.(pp_network_id) p.(pp_plan_sequence) p.(pp_snapshot_id)
    p.(pp_entropy_anchor_start) p.(pp_entropy_anchor_count) p.(pp_entropy_hashes)
    p.(pp_prior_beacon) p.(pp_plan_seed) p.(pp_work_ticket_count) p.(pp_service_ticket_count)
    p.(pp_work_winners) p.(pp_service_winners) p.(pp_selection_transcript_hash) signer_set.

Section verify.
  Context `{Digests}.

(** What a built plan records of its inputs; the signer set is only carried. *)
Lemma build_payout_plan_inputs snapshot id start hashes beacon profile sigs plan :
  build_payout_plan_with_snapshot_id snapshot id start hashes beacon profile sigs = Ok plan →
  (plan.(pp_snapshot_id) = id ∧ plan.(pp_plan_sequence) = snapshot.(psn_snapshot_sequence) ∧
   plan.(pp_entropy_anchor_count) = len hashes ∧ plan.(pp_entropy_hashes) = hashes ∧
   plan.(pp_work_ticket_count) = profile.(pf_work_ticket_count) ∧
   plan.(pp_service_ticket_count) = profile.(pf_service_ticket_count) ∧
   plan.(pp_entropy_anchor_start) = start ∧ plan.(pp_prior_beacon) = beacon) ∧
  ∀ sigs', build_payout_plan_with_snapshot_id snapshot id start hashes beacon profile sigs' =
           Ok (set_signer_set plan sigs').
Proof.
  unfold build_payout_plan_with_snapshot_id. destruct (_ || _); [done|].
  rewrite bind_ok. intros ([] & -> & Hr). apply bind_ok in Hr as ([ww wc] & Hw & Hr).
  apply bind_ok in Hr as ([sw sc] & Hs & [= <-]). split; [done|]. intros sigs'.
  cbn -[select_work_winners select_service_winners]. rewrite Hw.
  cbn -[select_work_winners select_service_winners]. by rewrite Hs.
Qed.

Lemma verify_payout_plan_ok snapshot plan profile :
  verify_payout_plan snapshot plan profile = Ok tt →
  ∃ built, build_payout_plan snapshot plan.(pp_entropy_anchor_start) plan.(pp_entropy_hashes)
             plan.(pp_prior_beacon) profile empty_ed25519 = Ok built ∧
           unsigned_bytes built = unsigned_bytes plan.
Proof.
  unfold verify_payout_plan. cbn zeta. if_true Hm; [done|]. rewrite bind_ok.
  intros (built & Hb & Hu). exists built. split; [done|]. by case_bool_decide.
Qed.
End verify.

(** A payout plan can be recomputed by anyone. A plan built for a snapshot
    verifies, whatever signatures it carries; and of the plans for one snapshot
    with the same entropy and beacon at most one verifies: two that do have the
    same unsigned bytes, the same identity, and (as values their codec admits)
    the same winners. *)
Lemma payout_plan_verifies_uniquely `{Digests} snapshot profile :
  (∀ start hashes beacon sigs plan,
     build_payout_plan snapshot start hashes beacon profile sigs = Ok plan →
     verify_payout_plan snapshot plan profile = Ok tt) ∧
  ∀ p1 p2, verify_payout_plan snapshot p1 profile = Ok tt →
    verify_payout_plan snapshot p2 profile = Ok tt →
    p1.(pp_entropy_anchor_start) = p2.(pp_entropy_anchor_start) →
    p1.(pp_entropy_hashes) = p2.(pp_entropy_hashes) → p1.(pp_prior_beacon) = p2.(pp_prior_beacon) →
    unsigned_bytes p1 = unsigned_bytes p2 ∧ object_id p1 = object_id p2 ∧
    (∀ limits, codec_ok limits p1 → codec_ok limits p2 →
       len (to_canonical_bytes (strip_signature p1)) < 2 ^ 64 →
       strip_signature p1 = strip_signature p2).
Proof.
  split.
  - intros start hashes beacon sigs plan Hb. unfold build_payout_plan in Hb.
    destruct (build_payout_plan_inputs _ _ _ _ _ _ _ _ Hb)
      as [(Hid & Hseq & Hcnt & Hh & Hwt & Hst & Hs & Hpb) Hsig].
    unfold verify_payout_plan. cbn zeta. rewrite Hid, Hseq, Hcnt, Hh, Hwt, Hst, !Z.eqb_refl.
    rewrite bool_decide_false by auto. cbn [orb negb]. rewrite Hs, Hpb, Hsig.
    cbn -[unsigned_bytes]. by rewrite bool_decide_false by (intros Hne; by apply Hne).
  - intros p1 p2 (b1 & Hb1 & Hu1)%verify_payout_plan_ok (b2 & Hb2 & Hu2)%verify_payout_plan_ok Hs Hh Hb.
    rewrite Hs, Hh, Hb, Hb2 in Hb1. injection Hb1 as ->.
    assert (Hu : unsigned_bytes p1 = unsigned_bytes p2) by congruence.
    split_and!; [done | unfold object_id; by rewrite Hu|].
    intros limits Ho1 Ho2 Hl. by eapply unsigned_bytes_inj.
Qed.

Lemma payout_plan_verifies_uniquely_witness :
  match demo_plan with
  | Ok plan => @verify_payout_plan toy_digests demo_snapshot plan demo_profile = Ok tt
  | Err _ => False
  end.
Proof.
  destruct demo_plan as [plan|e] eqn:Hp; [|by vm_compute in Hp].
  by eapply (@payout_plan_verifies_uniquely toy_digests demo_snapshot demo_profile).
Defined.

(** The seed of a plan is hashed under the tag of the plan's own identity. *)
Lemma plan_seed_shares_plan_tag : PLAN_SEED_DOMAIN = DOMAIN_TAG (A := PayoutPlanV2).
Proof. reflexivity. Qed.

(** ** The service ledger *)

Definition certify_all `{Digests} (policy : ServiceCreditPolicy)
    (events : list (ServiceCreditEvent * PayoutBucketV2)) : result SettlementError ServiceCreditLedger :=
  fold_result (λ l e, certify l policy e.1 e.2) ServiceCreditLedger_default events.

(** What the events of a role are worth. *)
Definition role_total (role : ServiceRole) (events : list (ServiceCreditEvent * PayoutBucketV2)) : Z :=
  sumZ ((λ e, if bool_decide (e.1.(sce_role) = role) then of_be e.1.(sce_credit) else 0) <$> events).

(** What one accepted event satisfied. *)
Definition event_admitted `{Digests} (policy : ServiceCreditPolicy)
    (e : ServiceCreditEvent * PayoutBucketV2) : Prop :=
  e.1.(sce_protocol_version) = 2 ∧ e.1.(sce_network_id) = e.2.(pb_network_id) ∧
  e.1.(sce_beneficiary_bucket_id) = object_id e.2 ∧
  ∃ cap, policy.(scp_maximum_per_event) !! e.1.(sce_role) = Some cap ∧
         0 < of_be e.1.(sce_credit) ≤ of_be cap.

Record ledger_inv `{Digests} (policy : ServiceCreditPolicy)
    (events : list (ServiceCreditEvent * PayoutBucketV2)) (l : ServiceCreditLedger) : Prop := mk_ledger_inv {
  li_actions : ∀ a, a ∈ l.(scl_observed_actions) ↔ a ∈ (λ e, action_id e.1) <$> events;
  li_once : NoDup ((λ e, action_id e.1) <$> events);
  li_totals role : default 0 (l.(scl_totals_by_role) !! role) = role_total role events;
  li_caps role : role_total role events ≤ default 0 (of_be <$> policy.(scp_maximum_per_role_per_snapshot) !! role);
  li_credits : l.(scl_credits) = (λ e, mkBucketCredit e.2 e.1.(sce_credit)) <$> events;
  li_admitted : Forall (event_admitted policy) events;
}.

Section ledger.
  Context `{Digests} (policy : ServiceCreditPolicy).

Lemma role_total_snoc role events e :
  role_total role (events ++ [e]) =
  role_total role events + if bool_decide (e.1.(sce_role) = role) then of_be e.1.(sce_credit) else 0.
Proof. unfold role_total. rewrite fmap_app, sumZ_app. cbn. unfold sumZ. cbn. lia. Qed.

(** A certified event was new, admissible and within both caps. *)
Lemma certify_ok l event bucket l' :
  certify l policy event bucket = Ok l' →
  event_admitted policy (event, bucket) ∧ action_id event ∉ l.(scl_observed_actions) ∧
  (∃ cap, policy.(scp_maximum_per_role_per_snapshot) !! event.(sce_role) = Some cap ∧
     default 0 (l.(scl_totals_by_role) !! event.(sce_role)) + of_be event.(sce_credit) ≤ of_be cap) ∧
  l' = mkServiceCreditLedger ({[action_id event]} ∪ l.(scl_observed_actions))
         (<[event.(sce_role) := default 0 (l.(scl_totals_by_role) !! event.(sce_role))
                                + of_be event.(sce_credit)]> l.(scl_totals_by_role))
         (l.(scl_credits) ++ [mkBucketCredit bucket event.(sce_credit)]).
Proof.
  unfold certify. if_true Hmeta; [done|]. cbn zeta.
  rewrite !orb_false_iff, !negb_false_iff, !Z.eqb_eq, !bool_decide_eq_false in Hmeta.
  destruct Hmeta as [[[Hv Hn] Hb] _]. apply dec_stable in Hb. if_true Hz; [done|].
  apply Z.eqb_neq in Hz. rewrite bind_ok. intros (pe & Hpe & Hr).
  apply bind_ok in Hr as (ps & Hps & Hr). revert Hr. if_true Hcap; [done|]. if_true Hdup; [done|].
  if_true Hrole; [done|]. intros [= <-].
  apply ok_or_ok, fmap_Some in Hpe as (ecap & Hecap & ->).
  apply ok_or_ok, fmap_Some in Hps as (scap & Hscap & ->).
  apply Z.ltb_ge in Hcap, Hrole. apply bool_decide_eq_false in Hdup.
  pose proof (of_be_range event.(sce_credit)). split_and!; [|done| |done].
  - split_and!; [done..|]. exists ecap. cbn. split; [done|lia].
  - exists scap. done.
Qed.

Lemma certify_inv events l event bucket l' :
  ledger_inv policy events l → certify l policy event bucket = Ok l' →
  ledger_inv policy (events ++ [(event, bucket)]) l'.
Proof.
  intros [Ha Ho Ht Hc Hcr Had] (Hadm & Hnew & (cap & Hcap & Hle) & ->)%certify_ok.
  split; cbn [scl_observed_actions scl_totals_by_role scl_credits].
  - intros a. rewrite fmap_app, elem_of_app, elem_of_union, <- Ha. cbn [fmap list_fmap fst].
    rewrite elem_of_singleton, list_elem_of_singleton. tauto.
  - rewrite fmap_app. apply NoDup_app. split_and!; [done| |apply NoDup_singleton].
    intros a Hin ->%list_elem_of_singleton. by apply Hnew, Ha.
  - intros role. rewrite role_total_snoc. cbn. case_bool_decide as Hr.
    + subst role. by rewrite lookup_insert_eq, <- Ht.
    + rewrite lookup_insert_ne by done. rewrite Ht. lia.
  - intros role. rewrite role_total_snoc. cbn. case_bool_decide as Hr; [|specialize (Hc role); lia].
    subst role. rewrite Hcap. cbn. rewrite <- Ht. lia.
  - by rewrite fmap_app, Hcr.
  - apply Forall_app. auto.
Qed.

Lemma certify_all_inv events l : certify_all policy events = Ok l → ledger_inv policy events l.
Proof.
  assert (Hloop : ∀ todo seen l0, ledger_inv policy seen l0 →
            fold_result (λ l e, certify l policy e.1 e.2) l0 todo = Ok l →
            ledger_inv policy (seen ++ todo) l).
  { intros todo. induction todo as [|[e b] todo IH]; intros seen l0 Hinv; cbn [fold_result].
    - intros [= <-]. by rewrite app_nil_r.
    - rewrite bind_ok. intros (l1 & H1 & Hl). rewrite (cons_middle (e, b) seen todo), app_assoc.
      apply (IH _ l1); [by eapply certify_inv | done]. }
  intros Hok. apply (Hloop events [] ServiceCreditLedger_default); [|done]. split; cbn; try done.
  - intros a. set_solver.
  - constructor.
  - intros role. destruct (_ !! role) as [cap|]; [|done]. cbn. pose proof (of_be_range cap). 
    unfold role_total. cbn. lia.
Qed.

Lemma certify_duplicate l event bucket :
  certify l policy event bucket = Err DuplicateServiceEvent →
  action_id event ∈ l.(scl_observed_actions).
Proof.
  unfold certify. if_true Hmeta; [done|]. cbn zeta. if_true Hz; [done|].
  destruct (_ <$> policy.(scp_maximum_per_event) !! _); [|done]. cbn.
  destruct (_ <$> policy.(scp_maximum_per_role_per_snapshot) !! _); [|done]. cbn.
  if_true Hcap; [done|]. if_true Hdup; [by apply bool_decide_eq_true in Hdup|]. if_true Hr; done.
Qed.
End ledger.

(** The service ledger pays an action once and never above its caps. After
    any accepted events its credits are the events' in order, each event named
    an admissible bucket and a positive credit within its role's cap, the total
    of each role is the sum of its events and within the role's snapshot cap,
    and no action (role and subject) was credited twice; an event refused as a
    duplicate repeats an accepted action or exhibits a digest collision. *)
Lemma service_ledger_capped `{Digests} policy events l :
  certify_all policy events = Ok l →
  ledger_inv policy events l ∧
  (∀ i j a b, events !! i = Some a → events !! j = Some b → i ≠ j →
     a.1.(sce_role) = b.1.(sce_role) → a.1.(sce_network_id) = b.1.(sce_network_id) →
     a.1.(sce_subject_id) = b.1.(sce_subject_id) → False) ∧
  (∀ event bucket, certify l policy event bucket = Err DuplicateServiceEvent →
     ∃ a, a ∈ events ∧
       (action_body a.1 = action_body event ∨
        collides 32 (domain_preimage SERVICE_ACTION_DOMAIN (action_body a.1))
          (domain_preimage SERVICE_ACTION_DOMAIN (action_body event)))).
Proof.
  intros Hinv%certify_all_inv. split_and!; [done| |].
  - intros i j a b Ha Hb Hij Hr Hn Hs. apply Hij.
    apply (NoDup_lookup _ i j (action_id a.1) (li_once _ _ _ Hinv));
      rewrite list_lookup_fmap; [by rewrite Ha|]. rewrite Hb. cbn. f_equal.
    unfold action_id, action_body. pose proof (li_admitted _ _ _ Hinv) as Had.
    destruct (Forall_lookup_1 _ _ _ _ Had Ha) as (Hva & _), (Forall_lookup_1 _ _ _ _ Had Hb) as (Hvb & _).
    by rewrite Hva, Hvb, Hr, Hn, Hs.
  - intros event bucket Hdup%certify_duplicate. apply (li_actions _ _ _ Hinv) in Hdup.
    apply list_elem_of_fmap in Hdup as (a & Ha & Hin). exists a. split; [done|].
    assert (Hd : len SERVICE_ACTION_DOMAIN < 2 ^ 64) by (by vm_compute).
    destruct (domain_hash_binding _ _ _ _ Hd Hd Ha) as [[_ <-]|[Hne Heq]]; [by left|].
    right. split; [by apply not_eq_sym | done].
Qed.

Definition demo_bucket : PayoutBucketV2 :=
  mkPayoutBucketV2 2 0 (replicate 32 x11) 1 0 (replicate 20 x0c) 1 None (replicate 64 x00).
Definition demo_event (subject : byte) (credit : Z) : ServiceCreditEvent :=
  mkServiceCreditEvent 2 0 ReceiptBatch (replicate 32 subject) (@object_id toy_digests _ _ demo_bucket) 7
    (to_be 64 credit).
Definition demo_policy : ServiceCreditPolicy :=
  mkServiceCreditPolicy {[ReceiptBatch := to_be 64 5]} {[ReceiptBatch := to_be 64 8]}.

Lemma service_ledger_capped_witness :
  match @certify_all toy_digests demo_policy [(demo_event x01 5, demo_bucket)] with
  | Ok l => @ledger_inv toy_digests demo_policy [(demo_event x01 5, demo_bucket)] l
  | Err _ => False
  end.
Proof.
  destruct (@certify_all toy_digests demo_policy [(demo_event x01 5, demo_bucket)]) as [l|e] eqn:Hl.
  - by apply (@service_ledger_capped toy_digests).
  - by vm_compute in Hl.
Defined.
