(* ===== verification/Snapshot.v ===== *)
(** * Payout snapshots (crates/meshmine-settlement/src/lib.rs)

    [SnapshotAccumulator]: the retained suffix of closed sessions, the
    complete-session snapshots built from it, its checkpoints, and the durable
    variants of the snapshot and of the payout plan. [BigUint] is [Z]; the
    sessions are compacted when they enter, so that the capacity of a vector
    is its length. *)

From S2P Require Import Prelude Codec Hash Types Objects Header Merkle Storage Journal Settlement Body Payout.

Definition DEFAULT_MAX_RETAINED_SESSIONS : Z := 100000.
Definition DEFAULT_MAX_RETAINED_BUCKET_CREDITS : Z := 1000000.
Definition DEFAULT_MAX_RETAINED_PAYLOAD_BYTES : Z := 256 * 1024 * 1024.

Record ClosedSessionCredits := mkClosedSessionCredits {
  csc_session_close_id : Hash256;
  csc_close_anchor_height : Z;
  csc_work : list BucketCredit;
  csc_service : list BucketCredit;
}.

Record SnapshotAccumulatorLimits := mkSnapshotAccumulatorLimits {
  max_retained_sessions : Z;
  max_retained_bucket_credits : Z;
  max_retained_payload_bytes : Z;
}.
Definition SnapshotAccumulatorLimits_default : SnapshotAccumulatorLimits :=
  mkSnapshotAccumulatorLimits DEFAULT_MAX_RETAINED_SESSIONS DEFAULT_MAX_RETAINED_BUCKET_CREDITS
    DEFAULT_MAX_RETAINED_PAYLOAD_BYTES.

Record SnapshotAccumulatorStats := mkSnapshotAccumulatorStats {
  stat_retained_sessions : Z;
  stat_retained_bucket_credits : Z;
  stat_retained_payload_bytes : Z;
}.

Record SnapshotAccumulatorCheckpoint := mkSnapshotAccumulatorCheckpoint {
  ck_network_id : Z;
  ck_next_sequence : Z;
  ck_previous_snapshot_id : Hash256;
  ck_snapshot_step_work : U512;
  ck_pplns_window_work : U512;
  ck_settlement_committee_id : Hash256;
  ck_closed_sessions : list ClosedSessionCredits;
  ck_new_work_since_snapshot : U512;
}.

Record SnapshotAccumulator := mkSnapshotAccumulator {
  sa_network_id : Z;
  sa_next_sequence : Z;
  sa_previous_snapshot_id : Hash256;
  sa_snapshot_step_work : Z;
  sa_pplns_window_work : Z;
  sa_settlement_committee_id : Hash256;
  sa_closed_sessions : list ClosedSessionCredits;
  sa_new_work_since_snapshot : Z;
  sa_retained_work : Z;
  sa_retained_bucket_credits : Z;
  sa_retained_payload_bytes : Z;
  sa_limits : SnapshotAccumulatorLimits;
}.

Record RetentionProjection := mkRetentionProjection {
  rp_prune_count : nat;
  rp_retained_work : Z;
  rp_retained_sessions : Z;
  rp_retained_bucket_credits : Z;
  rp_retained_payload_bytes : Z;
}.

(** ** Credits *)

Definition sum_credits (credits : list BucketCredit) : Z :=
  sumZ ((λ c, of_be c.(bc_credit)) <$> credits).

Definition big_to_u512 (value : Z) : result SettlementError U512 :=
  if 2 ^ 512 <=? value then Err ArithmeticOverflow else Ok (to_be 64 value).

Definition session_bucket_credit_count (session : ClosedSessionCredits) : result SettlementError Z :=
  ok_or (checked_add USIZE (len session.(csc_work)) (len session.(csc_service))) ArithmeticOverflow.

Definition ensure_retention_limits (limits : SnapshotAccumulatorLimits)
    (retained_sessions retained_bucket_credits retained_payload_bytes : Z) :
    result SettlementError unit :=
  if limits.(max_retained_sessions) <? retained_sessions then Err RetainedSessionLimit
  else if limits.(max_retained_bucket_credits) <? retained_bucket_credits
  then Err RetainedBucketCreditLimit
  else if limits.(max_retained_payload_bytes) <? retained_payload_bytes
  then Err RetainedPayloadByteLimit
  else Ok tt.

(** [BTreeMap<Hash256, _>] in key order. *)
Definition id_le {A} (p q : Hash256 * A) : Prop := bytes_le p.1 q.1.
#[export] Instance id_le_dec {A} : RelDecision (@id_le A).
Proof. intros p q. unfold id_le. apply _. Defined.
Definition id_entries {A} (m : gmap Hash256 A) : list (Hash256 * A) := merge_sort id_le (map_to_list m).

Section Accumulator.
Context `{Digests}.
(** [size_of::<BucketCredit>()] *)
Context (bucket_credit_size : Z).

Definition session_payload_bytes (session : ClosedSessionCredits) : result SettlementError Z :=
  total ← ok_or (credits ← checked_add USIZE (len session.(csc_work)) (len session.(csc_service));
                 checked_mul USIZE credits bucket_credit_size) ArithmeticOverflow;
  fold_result (λ total credit,
    ok_or (bytes ← checked_add USIZE total (len credit.(bc_bucket).(pb_hns_address_hash));
           checked_add USIZE bytes (len credit.(bc_bucket).(pb_signature))) ArithmeticOverflow)
    total (session.(csc_work) ++ session.(csc_service)).

Definition merge_credit (buckets : gmap Hash256 (PayoutBucketV2 * Z)) (credit : BucketCredit) :
    result SettlementError (gmap Hash256 (PayoutBucketV2 * Z)) :=
  let id := object_id credit.(bc_bucket) in
  let amount := of_be credit.(bc_credit) in
  match buckets !! id with
  | Some (bucket, total) =>
      if bool_decide (unsigned_bytes bucket ≠ unsigned_bytes credit.(bc_bucket))
      then Err ConflictingBucketMetadata
      else Ok (<[id := (bucket, total + amount)]> buckets)
  | None => Ok (<[id := (credit.(bc_bucket), amount)]> buckets)
  end.

Definition aggregate_work (sessions : list ClosedSessionCredits) :
    result SettlementError (list WorkBucketLeaf) :=
  buckets ← fold_result merge_credit ∅ (mjoin (csc_work <$> sessions));
  collect (λ '(bucket_id, (bucket, credit)),
    credited_work ← big_to_u512 credit;
    Ok (mkWorkBucketLeaf bucket_id bucket.(pb_operator_pubkey) bucket.(pb_hns_address_version)
          bucket.(pb_hns_address_hash) credited_work)) (id_entries buckets).

Definition aggregate_service (sessions : list ClosedSessionCredits) :
    result SettlementError (list ServiceBucketLeaf) :=
  buckets ← fold_result merge_credit ∅ (mjoin (csc_service <$> sessions));
  collect (λ '(bucket_id, (bucket, credit)),
    certified_service_credit ← big_to_u512 credit;
    Ok (mkServiceBucketLeaf bucket_id bucket.(pb_operator_pubkey) bucket.(pb_hns_address_version)
          bucket.(pb_hns_address_hash) certified_service_credit)) (id_entries buckets).

(** ** Construction *)

Definition new_with_limits (network_id first_sequence : Z) (previous_snapshot_id : Hash256)
    (snapshot_step_work pplns_window_work : U512) (settlement_committee_id : Hash256)
    (limits : SnapshotAccumulatorLimits) : result SettlementError SnapshotAccumulator :=
  let step := of_be snapshot_step_work in
  let window := of_be pplns_window_work in
  if (step =? 0) || (window =? 0) then Err ZeroSnapshotThreshold
  else if (limits.(max_retained_sessions) =? 0) || (limits.(max_retained_bucket_credits) =? 0)
     || (limits.(max_retained_payload_bytes) =? 0)
  then Err ZeroAccumulatorLimit
  else Ok (mkSnapshotAccumulator network_id first_sequence previous_snapshot_id step window
             settlement_committee_id [] 0 0 0 0 limits).

Definition SnapshotAccumulator_new (network_id first_sequence : Z) (previous_snapshot_id : Hash256)
    (snapshot_step_work pplns_window_work : U512) (settlement_committee_id : Hash256) :
    result SettlementError SnapshotAccumulator :=
  new_with_limits network_id first_sequence previous_snapshot_id snapshot_step_work
    pplns_window_work settlement_committee_id SnapshotAccumulatorLimits_default.

Definition stats (a : SnapshotAccumulator) : SnapshotAccumulatorStats :=
  mkSnapshotAccumulatorStats (len a.(sa_closed_sessions)) a.(sa_retained_bucket_credits)
    a.(sa_retained_payload_bytes).

(** ** Retention *)

(** The loop of [retention_projection] over the retained sessions. *)
Fixpoint projection_loop (window : Z) (sessions : list ClosedSessionCredits)
    (p : RetentionProjection) : result SettlementError RetentionProjection :=
  match sessions with
  | [] => Ok p
  | old_session :: sessions =>
      let work_without_oldest := p.(rp_retained_work) - sum_credits old_session.(csc_work) in
      if work_without_oldest <? window then Ok p
      else
        credits ← session_bucket_credit_count old_session;
        payload ← session_payload_bytes old_session;
        projection_loop window sessions
          (mkRetentionProjection (Datatypes.S p.(rp_prune_count)) work_without_oldest
             (p.(rp_retained_sessions) - 1) (p.(rp_retained_bucket_credits) - credits)
             (p.(rp_retained_payload_bytes) - payload))
  end.

Definition retention_projection (a : SnapshotAccumulator) (session : ClosedSessionCredits)
    (session_work : Z) : result SettlementError RetentionProjection :=
  retained_sessions ← ok_or (checked_add USIZE (len a.(sa_closed_sessions)) 1) ArithmeticOverflow;
  credits ← session_bucket_credit_count session;
  retained_bucket_credits ← ok_or (checked_add USIZE a.(sa_retained_bucket_credits) credits)
                              ArithmeticOverflow;
  payload ← session_payload_bytes session;
  retained_payload_bytes ← ok_or (checked_add USIZE a.(sa_retained_payload_bytes) payload)
                             ArithmeticOverflow;
  projection_loop a.(sa_pplns_window_work) a.(sa_closed_sessions)
    (mkRetentionProjection 0 (a.(sa_retained_work) + session_work) retained_sessions
       retained_bucket_credits retained_payload_bytes).

(** [session_payload_bytes(oldest).expect(..)] *)
Definition payload_or_zero (session : ClosedSessionCredits) : Z :=
  match session_payload_bytes session with Ok n => n | Err _ => 0 end.

(** The [while let Some(oldest) = self.closed_sessions.front()] loop. *)
Fixpoint prune_loop (window : Z) (sessions : list ClosedSessionCredits) (work credits payload : Z) :
    list ClosedSessionCredits * Z * Z * Z :=
  match sessions with
  | [] => ([], work, credits, payload)
  | oldest :: rest =>
      let work_without_oldest := work - sum_credits oldest.(csc_work) in
      if work_without_oldest <? window then (sessions, work, credits, payload)
      else prune_loop window rest work_without_oldest
             (credits - saturating_add USIZE (len oldest.(csc_work)) (len oldest.(csc_service)))
             (payload - payload_or_zero oldest)
  end.

Definition prune_retained_prefix (a : SnapshotAccumulator) : SnapshotAccumulator :=
  let '(sessions, work, credits, payload) :=
    prune_loop a.(sa_pplns_window_work) a.(sa_closed_sessions) a.(sa_retained_work)
      a.(sa_retained_bucket_credits) a.(sa_retained_payload_bytes) in
  mkSnapshotAccumulator a.(sa_network_id) a.(sa_next_sequence) a.(sa_previous_snapshot_id)
    a.(sa_snapshot_step_work) a.(sa_pplns_window_work) a.(sa_settlement_committee_id) sessions
    a.(sa_new_work_since_snapshot) work credits payload a.(sa_limits).

Definition ensure_limits (a : SnapshotAccumulator) : result SettlementError unit :=
  ensure_retention_limits a.(sa_limits) (len a.(sa_closed_sessions)) a.(sa_retained_bucket_credits)
    a.(sa_retained_payload_bytes).

Definition ensure_projection_within_limits (a : SnapshotAccumulator) (p : RetentionProjection) :
    result SettlementError unit :=
  ensure_retention_limits a.(sa_limits) p.(rp_retained_sessions) p.(rp_retained_bucket_credits)
    p.(rp_retained_payload_bytes).

(** ** Adding a session *)

(** The [for .. rev()] loop that selects the window, newest first. *)
Fixpoint window_loop (window : Z) (newest_first selected : list ClosedSessionCredits) (work : Z) :
    list ClosedSessionCredits * Z :=
  match newest_first with
  | [] => (selected, work)
  | s :: rest =>
      let selected := selected ++ [s] in
      let work := work + sum_credits s.(csc_work) in
      if window <=? work then (selected, work) else window_loop window rest selected work
  end.

(** The snapshot closed by [session]; [first] and [last] exist because the
    current session is always selected. *)
Definition build_snapshot (a : SnapshotAccumulator) (session : ClosedSessionCredits)
    (signer_set : SignatureSet) : result SettlementError PayoutSnapshotV2 :=
  _ ← ok_or (checked_add 64 a.(sa_next_sequence) 1) ArithmeticOverflow;
  let '(selected, window_work) :=
    window_loop a.(sa_pplns_window_work) (reverse (a.(sa_closed_sessions) ++ [session])) [] 0 in
  let selected := reverse selected in
  work_buckets ← aggregate_work selected;
  service_buckets ← aggregate_service selected;
  let close_ids := csc_session_close_id <$> selected in
  let service_ids := csc_session_close_id <$> filter (λ s, s.(csc_service) ≠ []) selected in
  let first := default session (head selected) in
  let last := default session (last selected) in
  work_window_target ← big_to_u512 a.(sa_pplns_window_work);
  actual_work_in_window ← big_to_u512 window_work;
  Ok (mkPayoutSnapshotV2 2 a.(sa_network_id) a.(sa_next_sequence) a.(sa_previous_snapshot_id)
        first.(csc_session_close_id) last.(csc_session_close_id) last.(csc_close_anchor_height)
        work_window_target actual_work_in_window work_buckets service_buckets
        (merkle_root_of close_ids) (merkle_root_of service_ids) a.(sa_settlement_committee_id)
        signer_set).

Definition add_closed_session (a : SnapshotAccumulator) (session : ClosedSessionCredits)
    (signer_set : SignatureSet) :
    result SettlementError (option PayoutSnapshotV2 * SnapshotAccumulator) :=
  let session_work := sum_credits session.(csc_work) in
  if session_work =? 0 then Err EmptySessionWork
  else
    projection ← retention_projection a session session_work;
    _ ← ensure_projection_within_limits a projection;
    let prospective_new_work := a.(sa_new_work_since_snapshot) + session_work in
    snapshot ← (if prospective_new_work <? a.(sa_snapshot_step_work) then Ok None
                else Some <$> build_snapshot a session signer_set);
    let sessions := drop projection.(rp_prune_count) (a.(sa_closed_sessions) ++ [session]) in
    let next previous_snapshot_id next_sequence new_work :=
      mkSnapshotAccumulator a.(sa_network_id) next_sequence previous_snapshot_id
        a.(sa_snapshot_step_work) a.(sa_pplns_window_work) a.(sa_settlement_committee_id) sessions
        new_work projection.(rp_retained_work) projection.(rp_retained_bucket_credits)
        projection.(rp_retained_payload_bytes) a.(sa_limits) in
    Ok (snapshot,
        match snapshot with
        | Some snapshot => next (object_id snapshot) (a.(sa_next_sequence) + 1) 0
        | None => next a.(sa_previous_snapshot_id) a.(sa_next_sequence) prospective_new_work
        end).

(** ** Checkpoints *)

Definition checkpoint (a : SnapshotAccumulator) : result SettlementError SnapshotAccumulatorCheckpoint :=
  if a.(sa_snapshot_step_work) <=? a.(sa_new_work_since_snapshot)
  then Err InvalidAccumulatorCheckpoint
  else
    step ← big_to_u512 a.(sa_snapshot_step_work);
    window ← big_to_u512 a.(sa_pplns_window_work);
    new_work ← big_to_u512 a.(sa_new_work_since_snapshot);
    Ok (mkSnapshotAccumulatorCheckpoint a.(sa_network_id) a.(sa_next_sequence)
          a.(sa_previous_snapshot_id) step window a.(sa_settlement_committee_id)
          a.(sa_closed_sessions) new_work).

(** One iteration of the restoring loop. *)
Definition restore_session (a : SnapshotAccumulator) (session : ClosedSessionCredits) :
    result SettlementError SnapshotAccumulator :=
  let session_work := sum_credits session.(csc_work) in
  if session_work =? 0 then Err InvalidAccumulatorCheckpoint
  else
    credits ← session_bucket_credit_count session;
    retained_bucket_credits ← ok_or (checked_add USIZE a.(sa_retained_bucket_credits) credits)
                                ArithmeticOverflow;
    payload ← session_payload_bytes session;
    retained_payload_bytes ← ok_or (checked_add USIZE a.(sa_retained_payload_bytes) payload)
                               ArithmeticOverflow;
    Ok (mkSnapshotAccumulator a.(sa_network_id) a.(sa_next_sequence) a.(sa_previous_snapshot_id)
          a.(sa_snapshot_step_work) a.(sa_pplns_window_work) a.(sa_settlement_committee_id)
          (a.(sa_closed_sessions) ++ [session]) a.(sa_new_work_since_snapshot)
          (a.(sa_retained_work) + session_work) retained_bucket_credits retained_payload_bytes
          a.(sa_limits)).

Definition from_checkpoint (c : SnapshotAccumulatorCheckpoint) (limits : SnapshotAccumulatorLimits) :
    result SettlementError SnapshotAccumulator :=
  accumulator ← new_with_limits c.(ck_network_id) c.(ck_next_sequence) c.(ck_previous_snapshot_id)
                  c.(ck_snapshot_step_work) c.(ck_pplns_window_work)
                  c.(ck_settlement_committee_id) limits;
  let new_work := of_be c.(ck_new_work_since_snapshot) in
  if (accumulator.(sa_snapshot_step_work) <=? new_work)
     || (bool_decide (c.(ck_closed_sessions) = []) && negb (new_work =? 0))
  then Err InvalidAccumulatorCheckpoint
  else
    accumulator ← fold_result restore_session accumulator c.(ck_closed_sessions);
    let accumulator := prune_retained_prefix accumulator in
    _ ← ensure_limits accumulator;
    Ok (mkSnapshotAccumulator accumulator.(sa_network_id) accumulator.(sa_next_sequence)
          accumulator.(sa_previous_snapshot_id) accumulator.(sa_snapshot_step_work)
          accumulator.(sa_pplns_window_work) accumulator.(sa_settlement_committee_id)
          accumulator.(sa_closed_sessions) new_work accumulator.(sa_retained_work)
          accumulator.(sa_retained_bucket_credits) accumulator.(sa_retained_payload_bytes)
          accumulator.(sa_limits)).

(** ** Durable variants *)

Section Durable.
Context {S : Type} `{!DurableStore S} `{!Hex} (env : nat → S → S).

(** [journal.persist(..)?] inside a settlement operation. *)
Definition persist_object (kind : ProtocolRecordKind) (id value : bytes) (w : nat * S) :
    result SettlementError unit * (nat * S) :=
  let '(r, w') := persist env kind id value w in (map_err SE_Durable r, w').

Definition add_closed_session_durable (a : SnapshotAccumulator) (session : ClosedSessionCredits)
    (signer_set : SignatureSet) (w : nat * S) :
    result SettlementError (option PayoutSnapshotV2) * SnapshotAccumulator * (nat * S) :=
  match add_closed_session a session signer_set with
  | Err e => (Err e, a, w)
  | Ok (None, staged) => (Ok None, staged, w)
  | Ok (Some snapshot, staged) =>
      match persist_object KindPayoutSnapshot (object_id snapshot) (to_canonical_bytes snapshot) w with
      | (Err e, w') => (Err e, a, w')
      | (Ok _, w') => (Ok (Some snapshot), staged, w')
      end
  end.

Definition build_payout_plan_durable (snapshot : PayoutSnapshotV2) (entropy_anchor_start : Z)
    (entropy_hashes : list Hash256) (prior_beacon : Hash256) (profile : PayoutProfile)
    (signer_set : SignatureSet) (w : nat * S) : result SettlementError PayoutPlanV2 * (nat * S) :=
  match build_payout_plan snapshot entropy_anchor_start entropy_hashes prior_beacon profile
          signer_set with
  | Err e => (Err e, w)
  | Ok plan =>
      match persist_object KindPayoutPlan (object_id plan) (to_canonical_bytes plan) w with
      | (Err e, w') => (Err e, w')
      | (Ok _, w') => (Ok plan, w')
      end
  end.
End Durable.
End Accumulator.

(** ** Work of sessions *)

Definition session_work (s : ClosedSessionCredits) : Z := sum_credits s.(csc_work).
Definition work_of (l : list ClosedSessionCredits) : Z := sumZ (session_work <$> l).

Lemma sum_credits_nonneg l : 0 ≤ sum_credits l.
Proof.
  apply sumZ_nonneg, list.Forall_forall. intros x (c & -> & _)%list_elem_of_fmap. apply of_be_range.
Qed.
Lemma work_of_nonneg l : 0 ≤ work_of l.
Proof.
  apply sumZ_nonneg, list.Forall_forall. intros x (c & -> & _)%list_elem_of_fmap. apply sum_credits_nonneg.
Qed.
Lemma work_of_app l1 l2 : work_of (l1 ++ l2) = work_of l1 + work_of l2.
Proof. unfold work_of. by rewrite fmap_app, sumZ_app. Qed.
Lemma work_of_cons s l : work_of (s :: l) = session_work s + work_of l.
Proof. done. Qed.
Lemma work_of_nil : work_of [] = 0.
Proof. done. Qed.
Lemma work_of_reverse l : work_of (reverse l) = work_of l.
Proof. unfold work_of. by rewrite reverse_Permutation. Qed.

(** The window loop does not look past a prefix that reaches the window. *)
Lemma window_loop_prefix window l1 l2 selected work :
  l1 ≠ [] → window ≤ work + work_of l1 →
  window_loop window (l1 ++ l2) selected work = window_loop window l1 selected work.
Proof.
  revert selected work. induction l1 as [|s l1 IH]; intros selected work Hne Hw; [done|].
  rewrite work_of_cons in Hw. unfold session_work in Hw. cbn.
  destruct (Z.leb_spec window (work + sum_credits s.(csc_work))) as [Hle|Hlt]; [done|].
  apply IH; [|lia]. intros ->. unfold work_of in Hw. cbn in Hw. lia.
Qed.

(** The loop selects a prefix, stops as soon as the window is reached, and
    returns the selected work. *)
Lemma window_loop_spec window l selected work sel w :
  work < window →
  window_loop window l selected work = (sel, w) →
  ∃ k, sel = selected ++ take k l ∧ w = work + work_of (take k l) ∧
       (∀ j, (j < k)%nat → work + work_of (take j l) < window) ∧
       (window ≤ w ∨ take k l = l) ∧ (l ≠ [] → (0 < k)%nat).
Proof.
  revert selected work. induction l as [|s l IH]; intros selected work Hlt; cbn.
  - intros [= <- <-]. exists 0%nat. rewrite app_nil_r. split_and!; [done| |lia|by right|done].
    unfold work_of. cbn. lia.
  - destruct (Z.leb_spec window (work + sum_credits s.(csc_work))) as [Hle|Hgt].
    + intros [= <- <-]. exists 1%nat. cbn [take]. rewrite work_of_cons. unfold session_work.
      rewrite take_0, work_of_nil. split_and!; [done|lia| |left; lia|lia].
      intros j Hj. assert (j = 0%nat) as -> by lia. unfold work_of. cbn. lia.
    + intros (k & -> & -> & Hmin & Hend & _)%IH; [|done]. exists (Datatypes.S k). cbn [take].
      rewrite work_of_cons. unfold session_work. split_and!; [|lia| | |lia].
      * by rewrite <- app_assoc.
      * intros [|j] Hj; cbn [take]; [unfold work_of; cbn; lia|].
        rewrite work_of_cons. unfold session_work. specialize (Hmin j ltac:(lia)). lia.
      * destruct Hend as [?| ->]; [left; lia | by right].
Qed.

(** ** Retention *)

Section Retention.
Context `{Digests}.
Context (bucket_credit_size : Z).

Local Abbreviation payload_bytes := (session_payload_bytes bucket_credit_size).

Definition credit_count (s : ClosedSessionCredits) : Z := len s.(csc_work) + len s.(csc_service).
Definition credits_of (l : list ClosedSessionCredits) : Z := sumZ (credit_count <$> l).
Definition payload_of (l : list ClosedSessionCredits) : Z :=
  sumZ (payload_or_zero bucket_credit_size <$> l).

(** A session the accumulator has accepted. *)
Definition session_ok (s : ClosedSessionCredits) : Prop :=
  0 < session_work s ∧ session_bucket_credit_count s = Ok (credit_count s) ∧
  payload_bytes s = Ok (payload_or_zero bucket_credit_size s).

(** [kept] is the live part of [history]: a suffix, the shortest that reaches
    the window, or everything while nothing shorter does. *)
Record live_suffix (window : Z) (history kept : list ClosedSessionCredits) : Prop := mk_live_suffix {
  live_split : ∃ dropped, history = dropped ++ kept ∧ (dropped ≠ [] → window ≤ work_of kept);
  live_short : ∀ s rest, kept = s :: rest → work_of rest < window;
}.

(** What the accumulator's counters say of the sessions it keeps. *)
Record accumulator_ok (a : SnapshotAccumulator) : Prop := mk_accumulator_ok {
  ao_step : 0 < a.(sa_snapshot_step_work) < 2 ^ 512;
  ao_window : 0 < a.(sa_pplns_window_work) < 2 ^ 512;
  ao_new : 0 ≤ a.(sa_new_work_since_snapshot) < a.(sa_snapshot_step_work);
  ao_first : a.(sa_closed_sessions) = [] → a.(sa_new_work_since_snapshot) = 0;
  ao_sessions : Forall session_ok a.(sa_closed_sessions);
  ao_work : a.(sa_retained_work) = work_of a.(sa_closed_sessions);
  ao_credits : a.(sa_retained_bucket_credits) = credits_of a.(sa_closed_sessions);
  ao_payload : a.(sa_retained_payload_bytes) = payload_of a.(sa_closed_sessions);
  ao_limits : ensure_limits a = Ok tt;
  ao_positive : a.(sa_limits).(max_retained_sessions) ≠ 0 ∧
    a.(sa_limits).(max_retained_bucket_credits) ≠ 0 ∧ a.(sa_limits).(max_retained_payload_bytes) ≠ 0;
}.

Lemma credits_of_cons s l : credits_of (s :: l) = credit_count s + credits_of l.
Proof. done. Qed.
Lemma payload_of_cons s l : payload_of (s :: l) = payload_or_zero bucket_credit_size s + payload_of l.
Proof. done. Qed.
Lemma credits_of_app l1 l2 : credits_of (l1 ++ l2) = credits_of l1 + credits_of l2.
Proof. unfold credits_of. by rewrite fmap_app, sumZ_app. Qed.
Lemma payload_of_app l1 l2 : payload_of (l1 ++ l2) = payload_of l1 + payload_of l2.
Proof. unfold payload_of. by rewrite fmap_app, sumZ_app. Qed.

(** A projection that describes the sessions [l]. *)
Definition projects (p : RetentionProjection) (l : list ClosedSessionCredits) : Prop :=
  p.(rp_retained_work) = work_of l ∧ p.(rp_retained_sessions) = len l ∧
  p.(rp_retained_bucket_credits) = credits_of l ∧ p.(rp_retained_payload_bytes) = payload_of l.

(** The loop prunes exactly the sessions before the live suffix, and cannot
    fail on sessions that were accepted. *)
Lemma projection_loop_spec window sessions s p :
  0 < window → Forall session_ok sessions → projects p (sessions ++ [s]) →
  ∃ n q, projection_loop bucket_credit_size window sessions p = Ok q ∧
    (n ≤ length sessions)%nat ∧ q.(rp_prune_count) = (p.(rp_prune_count) + n)%nat ∧
    projects q (drop n sessions ++ [s]) ∧
    ((0 < n)%nat → window ≤ work_of (drop n sessions ++ [s])) ∧
    (∀ x rest, drop n sessions ++ [s] = x :: rest → work_of rest < window).
Proof.
  intros Hwin Hok. revert p. induction Hok as [|old sessions (_ & Hc & Hp) Hok IH];
    intros p (Pw & Ps & Pc & Pp); cbn [projection_loop].
  - exists 0%nat, p. split_and!; [done|cbn; lia|lia|done..|lia|].
    intros x rest [= <- <-]. by rewrite work_of_nil.
  - cbn [app] in Pw, Ps, Pc, Pp.
    rewrite work_of_cons in Pw. rewrite len_cons in Ps. rewrite credits_of_cons in Pc.
    rewrite payload_of_cons in Pp. unfold session_work in Pw.
    destruct (Z.ltb_spec (p.(rp_retained_work) - sum_credits old.(csc_work)) window) as [Hlt|Hge].
    + exists 0%nat, p. rewrite drop_0. split_and!; [done|lia|lia| |lia|].
      * unfold projects. cbn [app]. rewrite work_of_cons, len_cons, credits_of_cons, payload_of_cons.
        unfold session_work. done.
      * cbn [app]. intros x rest [= <- <-]. lia.
    + rewrite Hc, Hp. cbn [mbind result_bind].
      destruct (IH (mkRetentionProjection (Datatypes.S p.(rp_prune_count))
          (p.(rp_retained_work) - sum_credits old.(csc_work)) (p.(rp_retained_sessions) - 1)
          (p.(rp_retained_bucket_credits) - credit_count old)
          (p.(rp_retained_payload_bytes) - payload_or_zero bucket_credit_size old)))
        as (n & q & Hq & Hn & Hpr & Hproj & Hreach & Hmin).
      { unfold projects. cbn. split_and!; lia. }
      exists (Datatypes.S n), q. cbn [drop length]. split_and!; [done|lia|cbn in Hpr; lia|done| |done].
      intros _. destruct (decide (n = 0%nat)) as [->|]; [|apply Hreach; lia].
      rewrite drop_0. lia.
Qed.

Lemma session_ok_intro s :
  0 < session_work s → is_ok (session_bucket_credit_count s) = true → is_ok (payload_bytes s) = true →
  session_ok s.
Proof.
  intros Hw Hc Hp. split_and!; [done| |].
  - unfold session_bucket_credit_count in *. destruct (checked_add _ _ _) as [n|] eqn:E; [|done].
    by apply checked_add_some in E as [-> _].
  - unfold payload_or_zero. by destruct (payload_bytes s).
Qed.

Lemma build_snapshot_window a b s sigs :
  a.(sa_network_id) = b.(sa_network_id) → a.(sa_next_sequence) = b.(sa_next_sequence) →
  a.(sa_previous_snapshot_id) = b.(sa_previous_snapshot_id) →
  a.(sa_pplns_window_work) = b.(sa_pplns_window_work) →
  a.(sa_settlement_committee_id) = b.(sa_settlement_committee_id) →
  live_suffix a.(sa_pplns_window_work) b.(sa_closed_sessions) a.(sa_closed_sessions) →
  build_snapshot a s sigs = build_snapshot b s sigs.
Proof.
  intros Hn Hs Hp Hw Hc [(dropped & Hb & Hreach) _]. unfold build_snapshot.
  rewrite <- Hn, <- Hs, <- Hp, <- Hw, <- Hc, Hb, <- app_assoc, (reverse_app dropped).
  destruct (decide (dropped = [])) as [->|Hd]; [by rewrite reverse_nil, app_nil_r|].
  rewrite window_loop_prefix; [done| |].
  - rewrite reverse_app. cbn. done.
  - rewrite work_of_reverse, work_of_app. specialize (Hreach Hd).
    pose proof (work_of_nonneg [s]). lia.
Qed.

(** The reference: an accumulator that keeps every session it was given. *)
Definition add_session_unpruned (a : SnapshotAccumulator) (session : ClosedSessionCredits)
    (signer_set : SignatureSet) :
    result SettlementError (option PayoutSnapshotV2 * SnapshotAccumulator) :=
  let new_work := a.(sa_new_work_since_snapshot) + session_work session in
  snapshot ← (if new_work <? a.(sa_snapshot_step_work) then Ok None
              else Some <$> build_snapshot a session signer_set);
  let next previous_snapshot_id next_sequence new_work :=
    mkSnapshotAccumulator a.(sa_network_id) next_sequence previous_snapshot_id
      a.(sa_snapshot_step_work) a.(sa_pplns_window_work) a.(sa_settlement_committee_id)
      (a.(sa_closed_sessions) ++ [session]) new_work 0 0 0 a.(sa_limits) in
  Ok (snapshot,
      match snapshot with
      | Some snapshot => next (object_id snapshot) (a.(sa_next_sequence) + 1) 0
      | None => next a.(sa_previous_snapshot_id) a.(sa_next_sequence) new_work
      end).

(** [a] and the reference [b] agree on everything but the sessions, of which
    [a] keeps the live ones. *)
Record tracks (a b : SnapshotAccumulator) : Prop := mk_tracks {
  tr_network : a.(sa_network_id) = b.(sa_network_id);
  tr_sequence : a.(sa_next_sequence) = b.(sa_next_sequence);
  tr_previous : a.(sa_previous_snapshot_id) = b.(sa_previous_snapshot_id);
  tr_step : a.(sa_snapshot_step_work) = b.(sa_snapshot_step_work);
  tr_window : a.(sa_pplns_window_work) = b.(sa_pplns_window_work);
  tr_committee : a.(sa_settlement_committee_id) = b.(sa_settlement_committee_id);
  tr_new : a.(sa_new_work_since_snapshot) = b.(sa_new_work_since_snapshot);
  tr_sessions : live_suffix a.(sa_pplns_window_work) b.(sa_closed_sessions) a.(sa_closed_sessions);
}.

Lemma retention_projection_spec a s p :
  accumulator_ok a → 0 < session_work s →
  retention_projection bucket_credit_size a s (session_work s) = Ok p →
  session_ok s ∧
  let kept := drop p.(rp_prune_count) (a.(sa_closed_sessions) ++ [s]) in
  projects p kept ∧ Forall session_ok kept ∧ kept ≠ [] ∧
  ∀ history, live_suffix a.(sa_pplns_window_work) history a.(sa_closed_sessions) →
    live_suffix a.(sa_pplns_window_work) (history ++ [s]) kept.
Proof.
  intros Ha Hs. unfold retention_projection. rewrite bind_ok. intros (n0 & Hn0 & Hr).
  apply bind_ok in Hr as (c & Hc & Hr). apply bind_ok in Hr as (rc & Hrc & Hr).
  apply bind_ok in Hr as (pl & Hpl & Hr). apply bind_ok in Hr as (rp & Hrp & Hloop).
  assert (Hok : session_ok s) by (apply session_ok_intro; [done|by rewrite Hc|by rewrite Hpl]).
  split; [done|]. pose proof Hok as (_ & Hc' & Hpl'). rewrite Hc in Hc'. injection Hc' as ->.
  rewrite Hpl in Hpl'. injection Hpl' as ->.
  apply ok_or_ok, checked_add_some in Hn0 as [-> _]. apply ok_or_ok, checked_add_some in Hrc as [-> _].
  apply ok_or_ok, checked_add_some in Hrp as [-> _].
  set (p0 := mkRetentionProjection _ _ _ _ _) in Hloop.
  assert (Hp0 : projects p0 (a.(sa_closed_sessions) ++ [s])).
  { unfold projects, p0. cbn [rp_retained_work rp_retained_sessions rp_retained_bucket_credits
      rp_retained_payload_bytes].
    rewrite (ao_work _ Ha), (ao_credits _ Ha), (ao_payload _ Ha), work_of_app, len_app,
      credits_of_app, payload_of_app, work_of_cons, credits_of_cons, payload_of_cons.
    unfold work_of, credits_of, payload_of, len, sumZ. cbn. split_and!; lia. }
  destruct (projection_loop_spec a.(sa_pplns_window_work) a.(sa_closed_sessions) s p0
    (proj1 (ao_window _ Ha)) (ao_sessions _ Ha) Hp0)
    as (n & q & Hq & Hn & Hpr & Hproj & Hreach & Hmin).
  rewrite Hloop in Hq. injection Hq as <-. cbn in Hpr. rewrite Hpr. cbn zeta.
  rewrite drop_app_le by done. split; [done|]. split.
  { apply Forall_app. split; [by apply Forall_drop, (ao_sessions _ Ha)|]. by constructor. }
  split; [by destruct (drop n _)|]. intros history [(dropped & -> & Hd) _]. split; [|done].
  exists (dropped ++ take n a.(sa_closed_sessions)). split.
  { by rewrite <- !app_assoc, (app_assoc (take _ _)), take_drop. }
  intros Hne. destruct (decide (0 < n)%nat) as [Hpos|Hz]; [by apply Hreach|].
  assert (n = 0%nat) as -> by lia. rewrite take_0, app_nil_r in Hne. specialize (Hd Hne).
  rewrite drop_0, work_of_app. pose proof (work_of_nonneg [s]). lia.
Qed.

Lemma add_closed_session_tracks a b s sigs snapshot a' :
  accumulator_ok a → tracks a b →
  add_closed_session bucket_credit_size a s sigs = Ok (snapshot, a') →
  accumulator_ok a' ∧
  ∃ b', add_session_unpruned b s sigs = Ok (snapshot, b') ∧ tracks a' b'.
Proof.
  intros Ha Ht. unfold add_closed_session. cbn zeta. if_true Hz; [done|].
  apply Z.eqb_neq in Hz. pose proof (sum_credits_nonneg s.(csc_work)) as Hnn.
  rewrite bind_ok. intros (p & Hp & Hr). apply bind_ok in Hr as ([] & Hlim & Hr).
  apply bind_ok in Hr as (sn & Hsn & Hr). injection Hr as <- <-.
  fold (session_work s) in *. assert (Hpos : 0 < session_work s) by (unfold session_work in *; lia).
  destruct (retention_projection_spec a s p Ha Hpos Hp)
    as (_ & (Pw & Ps & Pc & Pp) & Hok & Hne & Hlive).
  cbn zeta in *. set (kept := drop p.(rp_prune_count) _) in *.
  pose proof Ht as [Tn Ts Tp Tst Tw Tc Tnw Tse]. unfold add_session_unpruned. cbn zeta.
  assert (Hbuild : (if b.(sa_new_work_since_snapshot) + session_work s <? b.(sa_snapshot_step_work)
                    then Ok None else Some <$> build_snapshot b s sigs) = Ok sn).
  { rewrite <- Tnw, <- Tst, <- (build_snapshot_window a b) by done. exact Hsn. }
  rewrite Hbuild. cbn [mbind result_bind].
  assert (Hnew : sn = None → a.(sa_new_work_since_snapshot) + session_work s < a.(sa_snapshot_step_work)).
  { intros ->. destruct (Z.ltb_spec (a.(sa_new_work_since_snapshot) + session_work s)
      a.(sa_snapshot_step_work)); [done|]. by destruct (build_snapshot a s sigs). }
  pose proof (ao_new _ Ha) as Hnw. pose proof (Hlive _ Tse) as Hlive'.
  split.
  - destruct Ha as [A1 A2 A3 A4 A5 A6 A7 A8 A9 A10].
    destruct sn as [sn|]; split; cbn; try done; try lia.
    + unfold ensure_limits; cbn. by rewrite <- Ps.
    + specialize (Hnew eq_refl). lia.
    + unfold ensure_limits; cbn. by rewrite <- Ps.
  - eexists. split; [done|]. destruct sn as [sn|]; split; cbn; try done; congruence.
Qed.

(** Feeding a list of closed sessions, with what each returned. *)
Fixpoint feed (add : SnapshotAccumulator → ClosedSessionCredits → SignatureSet →
      result SettlementError (option PayoutSnapshotV2 * SnapshotAccumulator))
    (a : SnapshotAccumulator) (l : list (ClosedSessionCredits * SignatureSet)) :
    result SettlementError (list (option PayoutSnapshotV2) * SnapshotAccumulator) :=
  match l with
  | [] => Ok ([], a)
  | (s, sigs) :: l =>
      '(out, a) ← add a s sigs;
      '(outs, a) ← feed add a l;
      Ok (out :: outs, a)
  end.

Lemma feed_tracks l a b outs a' :
  accumulator_ok a → tracks a b →
  feed (add_closed_session bucket_credit_size) a l = Ok (outs, a') →
  accumulator_ok a' ∧ ∃ b', feed add_session_unpruned b l = Ok (outs, b') ∧ tracks a' b'.
Proof.
  revert a b outs. induction l as [|[s sigs] l IH]; intros a b outs Ha Ht; cbn [feed].
  - intros [= <- <-]. split; [done|]. by exists b.
  - rewrite bind_ok. intros ([out a1] & H1 & Hr).
    apply bind_ok in Hr as ([outs1 a2] & H2 & [= <- <-]).
    destruct (add_closed_session_tracks a b s sigs out a1 Ha Ht H1) as (Ha1 & b1 & -> & Ht1).
    destruct (IH a1 b1 outs1 Ha1 Ht1 H2) as (Ha2 & b2 & Hb2 & Ht2).
    split; [done|]. cbn [mbind result_bind]. rewrite Hb2. eauto.
Qed.

(** Limits are unsigned. *)
Definition usize_limits (limits : SnapshotAccumulatorLimits) : Prop :=
  0 ≤ limits.(max_retained_sessions) ∧ 0 ≤ limits.(max_retained_bucket_credits) ∧
  0 ≤ limits.(max_retained_payload_bytes).

Lemma new_with_limits_ok network sequence previous step window committee limits a :
  arr 64 step → arr 64 window →
  new_with_limits network sequence previous step window committee limits = Ok a →
  usize_limits limits → accumulator_ok a.
Proof.
  intros Hs Hw. unfold new_with_limits. if_true Hz; [done|]. if_true Hl; [done|]. intros [= <-] (L1 & L2 & L3).
  rewrite orb_false_iff, !Z.eqb_neq in Hz. rewrite !orb_false_iff, !Z.eqb_neq in Hl.
  pose proof (of_be_range step) as Rs. pose proof (of_be_range window) as Rw. unfold len, arr in *.
  rewrite Hs in Rs. rewrite Hw in Rw. change (256 ^ Z.of_nat 64) with (2 ^ 512) in Rs, Rw.
  split; cbn [sa_snapshot_step_work sa_pplns_window_work sa_new_work_since_snapshot sa_closed_sessions
    sa_retained_work sa_retained_bucket_credits sa_retained_payload_bytes sa_limits]; try done; try lia.
  unfold ensure_limits, ensure_retention_limits. cbn. by rewrite !(proj2 (Z.ltb_ge _ _)) by done.
Qed.

Lemma feed_unpruned_sessions l b outs b' :
  feed add_session_unpruned b l = Ok (outs, b') →
  b'.(sa_closed_sessions) = b.(sa_closed_sessions) ++ l.*1.
Proof.
  revert b outs. induction l as [|[s sigs] l IH]; intros b outs; cbn [feed].
  - intros [= _ <-]. by rewrite app_nil_r.
  - rewrite bind_ok. intros ([out b1] & H1 & Hr).
    apply bind_ok in Hr as ([outs1 b2] & H2 & [= _ <-]). rewrite (IH _ _ H2).
    unfold add_session_unpruned in H1. cbn zeta in H1. apply bind_ok in H1 as (sn & _ & [= _ <-]).
    destruct sn; cbn; by rewrite <- app_assoc.
Qed.

Lemma fresh_tracks network sequence previous step window committee limits a :
  new_with_limits network sequence previous step window committee limits = Ok a → tracks a a.
Proof.
  unfold new_with_limits. if_true Hz; [done|]. if_true Hl; [done|]. intros [= <-].
  split; try done. cbn. split; [by exists []|done].
Qed.

Lemma payload_or_zero_nonneg s : 0 ≤ bucket_credit_size → 0 ≤ payload_or_zero bucket_credit_size s.
Proof.
  intros Hb. unfold payload_or_zero. destruct (payload_bytes s) as [n|] eqn:Hs; [|done].
  unfold session_payload_bytes in Hs. apply bind_ok in Hs as (t & Ht & Hf).
  assert (0 ≤ t).
  { apply ok_or_ok, bind_Some in Ht as (c & Hc & Ht). apply checked_add_some in Hc as [-> _].
    unfold checked_mul in Ht. case_match; [|done]. injection Ht as <-.
    pose proof (len_nonneg s.(csc_work)). pose proof (len_nonneg s.(csc_service)). nia. }
  revert Hf. apply fold_result_inv; [done|]. intros c t1 t2 _ Ht1 Hc.
  apply ok_or_ok, bind_Some in Hc as (b & Hb1 & Hb2).
  apply checked_add_some in Hb1 as [-> _]. apply checked_add_some in Hb2 as [-> _].
  pose proof (len_nonneg c.(bc_bucket).(pb_hns_address_hash)).
  pose proof (len_nonneg c.(bc_bucket).(pb_signature)). lia.
Qed.

Lemma payload_of_nonneg l : 0 ≤ bucket_credit_size → 0 ≤ payload_of l.
Proof.
  intros Hb. apply sumZ_nonneg, list.Forall_forall. intros x (s & -> & _)%list_elem_of_fmap.
  by apply payload_or_zero_nonneg.
Qed.
Lemma credits_of_nonneg l : 0 ≤ credits_of l.
Proof.
  apply sumZ_nonneg, list.Forall_forall. intros x (s & -> & _)%list_elem_of_fmap.
  unfold credit_count. pose proof (len_nonneg s.(csc_work)). pose proof (len_nonneg s.(csc_service)). lia.
Qed.

(** [a] with other sessions and counters. *)
Definition with_sessions (a : SnapshotAccumulator) (sessions : list ClosedSessionCredits)
    (new_work : Z) : SnapshotAccumulator :=
  mkSnapshotAccumulator a.(sa_network_id) a.(sa_next_sequence) a.(sa_previous_snapshot_id)
    a.(sa_snapshot_step_work) a.(sa_pplns_window_work) a.(sa_settlement_committee_id) sessions
    new_work (work_of sessions) (credits_of sessions) (payload_of sessions) a.(sa_limits).

(** Restoring accepted sessions whose totals fit the machine word. *)
Lemma restore_sessions a new_work l pre :
  0 ≤ bucket_credit_size → Forall session_ok l →
  credits_of (pre ++ l) < 2 ^ 64 → payload_of (pre ++ l) < 2 ^ 64 →
  fold_result (restore_session bucket_credit_size) (with_sessions a pre new_work) l =
  Ok (with_sessions a (pre ++ l) new_work).
Proof.
  intros Hb Hok. revert pre. induction Hok as [|s l (Hw & Hc & Hp) Hok IH]; intros pre Hcr Hpl; cbn [fold_result].
  - by rewrite app_nil_r.
  - rewrite (cons_middle s), app_assoc in Hcr, Hpl |- *.
    assert (Hstep : restore_session bucket_credit_size (with_sessions a pre new_work) s
                    = Ok (with_sessions a (pre ++ [s]) new_work)).
    { unfold restore_session. cbn zeta. fold (session_work s).
      rewrite (proj2 (Z.eqb_neq (session_work s) 0)) by lia. rewrite Hc, Hp. cbn -[checked_add].
      rewrite !credits_of_app in Hcr. rewrite !payload_of_app in Hpl.
      pose proof (credits_of_nonneg l). pose proof (payload_of_nonneg l Hb).
      assert (Hs1 : credits_of [s] = credit_count s) by (unfold credits_of, sumZ; cbn; lia).
      assert (Hs2 : payload_of [s] = payload_or_zero bucket_credit_size s)
        by (unfold payload_of, sumZ; cbn; lia).
      assert (Hs3 : work_of [s] = session_work s) by (unfold work_of, sumZ; cbn; lia).
      unfold USIZE. rewrite checked_add_fits by lia. cbn -[checked_add].
      rewrite checked_add_fits by lia. cbn. unfold with_sessions. cbn.
      by rewrite work_of_app, credits_of_app, payload_of_app, Hs1, Hs2, Hs3. }
    rewrite Hstep. cbn. by apply IH.
Qed.

Lemma accumulator_with_sessions a :
  accumulator_ok a → a = with_sessions a a.(sa_closed_sessions) a.(sa_new_work_since_snapshot).
Proof.
  intros Ha. unfold with_sessions. rewrite <- (ao_work _ Ha), <- (ao_credits _ Ha), <- (ao_payload _ Ha).
  by destruct a.
Qed.

Lemma prune_live a :
  accumulator_ok a →
  (∀ s rest, a.(sa_closed_sessions) = s :: rest → work_of rest < a.(sa_pplns_window_work)) →
  ∀ w, prune_retained_prefix bucket_credit_size (with_sessions a a.(sa_closed_sessions) w) =
       with_sessions a a.(sa_closed_sessions) w.
Proof.
  intros Ha Hshort w. unfold prune_retained_prefix. cbn -[prune_loop work_of credits_of payload_of].
  destruct a.(sa_closed_sessions) as [|s rest] eqn:Hs; [done|]. cbn [prune_loop].
  rewrite work_of_cons. unfold session_work at 1.
  rewrite (proj2 (Z.ltb_lt _ _)); [done|]. specialize (Hshort s rest eq_refl). lia.
Qed.

(** Feeding changes neither the window nor the limits. *)
Lemma feed_fixed l a outs a' :
  feed (add_closed_session bucket_credit_size) a l = Ok (outs, a') →
  a'.(sa_pplns_window_work) = a.(sa_pplns_window_work) ∧ a'.(sa_limits) = a.(sa_limits).
Proof.
  revert a outs. induction l as [|[s sigs] l IH]; intros a outs; cbn [feed].
  - by intros [= _ <-].
  - rewrite bind_ok. intros ([out a1] & H1 & Hr).
    apply bind_ok in Hr as ([outs1 a2] & H2 & [= _ <-]). destruct (IH _ _ H2) as [-> ->].
    unfold add_closed_session in H1. revert H1. if_true Hz; [done|]. rewrite bind_ok.
    intros (p & _ & Hr). apply bind_ok in Hr as (_ & _ & Hr). apply bind_ok in Hr as (sn & _ & [= _ <-]).
    by destruct sn.
Qed.

Lemma big_to_u512_ok v : 0 ≤ v < 2 ^ 512 → big_to_u512 v = Ok (to_be 64 v).
Proof. intros Hv. unfold big_to_u512. by rewrite (proj2 (Z.leb_gt _ _)) by lia. Qed.

Lemma of_u512 v : 0 ≤ v < 2 ^ 512 → of_be (to_be 64 v) = v.
Proof. intros Hv. apply of_to_be. change (256 ^ Z.of_nat 64) with (2 ^ 512). done. Qed.

Lemma checkpoint_restores a :
  0 ≤ bucket_credit_size → accumulator_ok a →
  (∀ s rest, a.(sa_closed_sessions) = s :: rest → work_of rest < a.(sa_pplns_window_work)) →
  a.(sa_limits).(max_retained_bucket_credits) < 2 ^ 64 →
  a.(sa_limits).(max_retained_payload_bytes) < 2 ^ 64 →
  ∃ c, checkpoint a = Ok c ∧ from_checkpoint bucket_credit_size c a.(sa_limits) = Ok a.
Proof.
  intros Hb Ha Hshort Hl1 Hl2. pose proof Ha as [[S1 S2] [W1 W2] [N1 N2] Hfirst Hok Hw Hc Hp Hlim (P1 & P2 & P3)].
  unfold checkpoint. rewrite (proj2 (Z.leb_gt _ _)) by lia. rewrite !big_to_u512_ok by lia.
  eexists. split; [reflexivity|]. unfold from_checkpoint. cbn -[of_be to_be with_sessions].
  unfold new_with_limits. rewrite !of_u512 by lia.
  rewrite (proj2 (Z.eqb_neq a.(sa_snapshot_step_work) 0)), (proj2 (Z.eqb_neq a.(sa_pplns_window_work) 0)),
    (proj2 (Z.eqb_neq _ _) P1), (proj2 (Z.eqb_neq _ _) P2), (proj2 (Z.eqb_neq _ _) P3) by lia.
  cbn -[of_be to_be with_sessions]. rewrite (proj2 (Z.leb_gt _ _)) by lia.
  rewrite orb_false_l. assert (bool_decide (a.(sa_closed_sessions) = []) &&
    negb (a.(sa_new_work_since_snapshot) =? 0) = false) as ->.
  { case_bool_decide as He; [|done]. rewrite (Hfirst He). done. }
  assert (Hfit : credits_of a.(sa_closed_sessions) < 2 ^ 64 ∧ payload_of a.(sa_closed_sessions) < 2 ^ 64).
  { unfold ensure_limits, ensure_retention_limits in Hlim. rewrite Hc, Hp in Hlim.
    destruct (_ <? _); [done|]. destruct (Z.ltb_spec (max_retained_bucket_credits (sa_limits a))
      (credits_of (sa_closed_sessions a))); [done|].
    destruct (Z.ltb_spec (max_retained_payload_bytes (sa_limits a))
      (payload_of (sa_closed_sessions a))); [done|]. lia. }
  pose proof (restore_sessions a 0 a.(sa_closed_sessions) [] Hb Hok (proj1 Hfit) (proj2 Hfit)) as Hrest.
  cbn [app] in Hrest. change (fold_result ?f ?x ?l) with (fold_result f (with_sessions a [] 0) l).
  rewrite Hrest. cbn [mbind result_bind]. rewrite prune_live by done.
  assert (ensure_limits (with_sessions a a.(sa_closed_sessions) 0) = Ok tt) as ->.
  { unfold ensure_limits, with_sessions. cbn -[credits_of payload_of]. by rewrite <- Hc, <- Hp. }
  cbn -[work_of credits_of payload_of]. f_equal. symmetry. rewrite (accumulator_with_sessions a Ha) at 1. done.
Qed.
End Retention.

(** C36: pruning never changes a snapshot. An accumulator that keeps only the
    live suffix of the closed sessions returns, session by session, exactly the
    snapshots of one that keeps every session; what it keeps is the shortest
    suffix that reaches the window (or everything), its counters are the exact
    totals of what it keeps, and they stay within the configured limits. *)
Theorem snapshot_pruning_exact `{Digests} size network sequence previous step window committee limits
    a0 sessions outs a :
  arr 64 step → arr 64 window → usize_limits limits →
  new_with_limits network sequence previous step window committee limits = Ok a0 →
  feed (add_closed_session size) a0 sessions = Ok (outs, a) →
  (∃ b, feed add_session_unpruned a0 sessions = Ok (outs, b) ∧ b.(sa_closed_sessions) = sessions.*1) ∧
  live_suffix (of_be window) sessions.*1 a.(sa_closed_sessions) ∧
  stats a = mkSnapshotAccumulatorStats (len a.(sa_closed_sessions)) (credits_of a.(sa_closed_sessions))
              (payload_of size a.(sa_closed_sessions)) ∧
  ensure_limits a = Ok tt.
Proof.
  intros Hs Hw Hl Hnew Hfeed.
  pose proof (new_with_limits_ok size _ _ _ _ _ _ _ _ Hs Hw Hnew Hl) as Ha0.
  pose proof (fresh_tracks _ _ _ _ _ _ _ _ Hnew) as Ht0.
  destruct (feed_tracks size _ _ _ _ _ Ha0 Ht0 Hfeed) as (Ha & b & Hb & Ht).
  pose proof (feed_unpruned_sessions _ _ _ _ Hb) as Hbs.
  assert (Hb0 : b.(sa_closed_sessions) = sessions.*1 ∧ a.(sa_pplns_window_work) = of_be window).
  { unfold new_with_limits in Hnew. revert Hnew. if_true Hz; [done|]. if_true Hz2; [done|].
    intros Hi. injection Hi as <-. cbn in Hbs. split; [done|]. by rewrite (proj1 (feed_fixed _ _ _ _ _ Hfeed)). }
  destruct Hb0 as [Hb0 Hwin]. split_and!.
  - by exists b.
  - rewrite <- Hb0, <- Hwin. apply Ht.
  - unfold stats. by rewrite (ao_credits _ _ Ha), (ao_payload _ _ Ha).
  - apply Ha.
Qed.

(** A checkpoint restores the accumulator. After any sessions an accumulator
    that started empty can be checkpointed, and restoring the checkpoint under
    the same limits gives back the identical accumulator, counters included. *)
Lemma snapshot_checkpoint_roundtrip `{Digests} size network sequence previous step window committee
    limits a0 sessions outs a :
  0 ≤ size → arr 64 step → arr 64 window → usize_limits limits →
  limits.(max_retained_bucket_credits) < 2 ^ 64 → limits.(max_retained_payload_bytes) < 2 ^ 64 →
  new_with_limits network sequence previous step window committee limits = Ok a0 →
  feed (add_closed_session size) a0 sessions = Ok (outs, a) →
  ∃ c, checkpoint a = Ok c ∧ from_checkpoint size c limits = Ok a.
Proof.
  intros Hsz Hs Hw Hl Hl1 Hl2 Hnew Hfeed.
  pose proof (new_with_limits_ok size _ _ _ _ _ _ _ _ Hs Hw Hnew Hl) as Ha0.
  destruct (feed_tracks size _ _ _ _ _ Ha0 (fresh_tracks _ _ _ _ _ _ _ _ Hnew) Hfeed) as (Ha & b & _ & Ht).
  assert (Hlim : a.(sa_limits) = limits).
  { rewrite (proj2 (feed_fixed _ _ _ _ _ Hfeed)). unfold new_with_limits in Hnew. revert Hnew.
    if_true Hz; [done|]. if_true Hz2; [done|]. intros Hi. by injection Hi as <-. }
  rewrite <- Hlim in Hl1, Hl2 |- *. apply checkpoint_restores; [done..| |done|done].
  intros s rest Hk. by apply (live_short _ _ _ (tr_sessions _ _ Ht) s).
Qed.

(** ** What a snapshot adds up to *)

Section Aggregation.
Context `{Digests}.

(** The merged credits add up to the credits merged. *)
Lemma merge_credits_sum l m m' :
  fold_result merge_credit m l = Ok m' → map_sum snd m' = map_sum snd m + sum_credits l.
Proof.
  revert m. induction l as [|c l IH]; intros m; cbn [fold_result].
  - intros [= <-]. unfold sum_credits, sumZ. cbn. lia.
  - rewrite bind_ok. intros (m1 & H1 & Hm'). rewrite (IH _ Hm').
    assert (map_sum snd m1 = map_sum snd m + of_be c.(bc_credit)) as ->.
    { unfold merge_credit in H1. cbn zeta in H1.
      destruct (m !! object_id c.(bc_bucket)) as [[b t]|] eqn:Hb.
      - revert H1. if_true Hu; [done|]. intros [= <-].
        rewrite (map_sum_insert_old _ _ _ (b, t)) by done. cbn. lia.
      - injection H1 as <-. rewrite map_sum_insert_new by done. cbn. lia. }
    unfold sum_credits. rewrite fmap_cons, sumZ_cons. lia.
Qed.

Lemma id_entries_perm {A} (m : gmap Hash256 A) : id_entries m ≡ₚ map_to_list m.
Proof. apply merge_sort_Permutation. Qed.

Lemma id_le_trans {A} : Transitive (@id_le A).
Proof. intros x y z. unfold id_le. apply bytes_le_trans. Qed.
Lemma id_le_total {A} : Total (@id_le A).
Proof. intros x y. unfold id_le. apply bytes_le_total. Qed.

(** The entries come in strictly increasing order of identity. *)
Lemma id_entries_sorted {A} (m : gmap Hash256 A) : Sorted bytes_lt (id_entries m).*1.
Proof.
  pose proof (@id_le_trans A). pose proof (@id_le_total A).
  pose proof (StronglySorted_merge_sort id_le (map_to_list m)) as Hs.
  assert (Hnd : NoDup (id_entries m).*1) by (rewrite id_entries_perm; apply NoDup_fst_map_to_list).
  unfold id_entries in *. revert Hs Hnd. generalize (merge_sort id_le (map_to_list m)) as l.
  intros l Hs. induction Hs as [|e l Hs IH Hall]; cbn; [constructor|].
  intros [Hnin Hnd]%NoDup_cons. constructor; [by apply IH|].
  destruct l as [|e' l]; cbn; [constructor|]. constructor. apply Forall_cons in Hall as [Hle _].
  apply bytes_le_lt in Hle as [Hlt|Heq]; [done|]. exfalso. apply Hnin. rewrite Heq. left.
Qed.

Lemma big_to_u512_of v u : 0 ≤ v → big_to_u512 v = Ok u → of_be u = v.
Proof.
  unfold big_to_u512. destruct (Z.leb_spec (2 ^ 512) v); [done|]. intros Hv [= <-].
  by apply of_u512.
Qed.

Lemma merged_nonneg l m m' :
  (∀ k e, m !! k = Some e → 0 ≤ e.2) → fold_result merge_credit m l = Ok m' →
  ∀ k e, m' !! k = Some e → 0 ≤ e.2.
Proof.
  intros Hm Hf. refine (fold_result_inv _ (λ m, ∀ k e, m !! k = Some e → 0 ≤ e.2) _ _ _ Hm _ Hf).
  clear. intros c m1 m2 _ Hm H1 k e. unfold merge_credit in H1. cbn zeta in H1.
  pose proof (of_be_range c.(bc_credit)).
  destruct (m1 !! object_id c.(bc_bucket)) as [[b t]|] eqn:Hb.
  - revert H1. if_true Hu; [done|]. intros [= <-]. pose proof (Hm _ _ Hb) as Ht. cbn in Ht.
    rewrite lookup_insert_Some. intros [[_ <-]|[_ Hk]]; [cbn; lia | by eapply Hm].
  - injection H1 as <-. rewrite lookup_insert_Some. intros [[_ <-]|[_ Hk]]; [cbn; lia | by eapply Hm].
Qed.

Lemma sum_credits_app l1 l2 : sum_credits (l1 ++ l2) = sum_credits l1 + sum_credits l2.
Proof. unfold sum_credits. by rewrite fmap_app, sumZ_app. Qed.

Lemma sum_credits_join {A} (f : A → list BucketCredit) l :
  sum_credits (mjoin (f <$> l)) = sumZ ((λ x, sum_credits (f x)) <$> l).
Proof.
  induction l as [|x l IH]; [done|]. rewrite !fmap_cons, sumZ_cons, <- IH. cbn [mjoin list_join].
  apply sum_credits_app.
Qed.

(** Leaves made from merged buckets keep their identities and amounts. *)
Lemma leaves_of {L} (mk : Hash256 → PayoutBucketV2 → U512 → L) (id_of : L → Hash256) (amount : L → U512)
    (m : gmap Hash256 (PayoutBucketV2 * Z)) leaves :
  (∀ i b u, id_of (mk i b u) = i) → (∀ i b u, amount (mk i b u) = u) →
  (∀ k e, m !! k = Some e → 0 ≤ e.2) →
  collect (λ '(i, (b, c)), u ← big_to_u512 c; Ok (mk i b u)) (id_entries m) = Ok leaves →
  id_of <$> leaves = (id_entries m).*1 ∧ sumZ ((λ l, of_be (amount l)) <$> leaves) = map_sum snd m.
Proof.
  intros Hid Ham Hnn Hcol%collect_ok.
  assert (Hnn' : Forall (λ e, 0 ≤ e.2.2) (id_entries m)).
  { apply list.Forall_forall. intros [k e]. rewrite id_entries_perm.
    intros Hin%elem_of_map_to_list. by apply (Hnn k). }
  assert (Hsum : map_sum snd m = sumZ ((λ e, e.2.2) <$> id_entries m))
    by (unfold map_sum; by rewrite id_entries_perm).
  rewrite Hsum. clear Hnn Hsum. induction Hcol as [|[i [b c]] l es leaves Hl Hcol IH]; [done|].
  apply Forall_cons in Hnn' as [Hc Hnn']. cbn in Hc. destruct (IH Hnn') as [IH1 IH2].
  apply bind_ok in Hl as (u & Hu & [= <-]). rewrite !fmap_cons, !sumZ_cons, Hid, Ham, IH1, IH2.
  by rewrite (big_to_u512_of _ _ Hc Hu).
Qed.

Lemma aggregate_work_sum sessions leaves :
  aggregate_work sessions = Ok leaves →
  Sorted bytes_lt (wbl_bucket_id <$> leaves) ∧
  sumZ ((λ l, of_be l.(wbl_credited_work)) <$> leaves) = work_of sessions.
Proof.
  unfold aggregate_work. rewrite bind_ok. intros (m & Hm & Hcol).
  destruct (leaves_of (λ i b u, mkWorkBucketLeaf i b.(pb_operator_pubkey) b.(pb_hns_address_version)
      b.(pb_hns_address_hash) u) wbl_bucket_id wbl_credited_work m leaves) as [Hids Hsum]; [done..| |exact Hcol|].
  { eapply merged_nonneg; [|exact Hm]. intros k e. by rewrite lookup_empty. }
  rewrite Hids, Hsum, (merge_credits_sum _ _ _ Hm), map_sum_empty, sum_credits_join.
  split; [apply id_entries_sorted | done].
Qed.

Lemma aggregate_service_sum sessions leaves :
  aggregate_service sessions = Ok leaves →
  Sorted bytes_lt (sbl_bucket_id <$> leaves) ∧
  sumZ ((λ l, of_be l.(sbl_certified_service_credit)) <$> leaves) =
  sumZ ((λ s, sum_credits s.(csc_service)) <$> sessions).
Proof.
  unfold aggregate_service. rewrite bind_ok. intros (m & Hm & Hcol).
  destruct (leaves_of (λ i b u, mkServiceBucketLeaf i b.(pb_operator_pubkey) b.(pb_hns_address_version)
      b.(pb_hns_address_hash) u) sbl_bucket_id sbl_certified_service_credit m leaves) as [Hids Hsum];
    [done..| |exact Hcol|].
  { eapply merged_nonneg; [|exact Hm]. intros k e. by rewrite lookup_empty. }
  rewrite Hids, Hsum, (merge_credits_sum _ _ _ Hm), map_sum_empty, sum_credits_join.
  split; [apply id_entries_sorted | done].
Qed.
End Aggregation.

(** A snapshot adds up. It covers whole sessions only: the shortest suffix of
    the retained sessions, the current one included, whose work reaches the
    window (or all of them). Its work leaves, in strictly increasing order of
    bucket identity, credit together exactly the recorded work of the window,
    which is the work of those sessions; its service leaves likewise carry all
    and only their service credits; and its roots are the Merkle roots of the
    sessions and of those that had service. *)
Lemma snapshot_conserves_work `{Digests} a s sigs sn :
  0 < a.(sa_pplns_window_work) → build_snapshot a s sigs = Ok sn →
  ∃ dropped selected,
    a.(sa_closed_sessions) ++ [s] = dropped ++ selected ∧ selected ≠ [] ∧
    (a.(sa_pplns_window_work) ≤ work_of selected ∨ dropped = []) ∧
    (∀ x rest, selected = x :: rest → work_of rest < a.(sa_pplns_window_work)) ∧
    of_be sn.(psn_actual_work_in_window) = work_of selected ∧
    sumZ ((λ l, of_be l.(wbl_credited_work)) <$> sn.(psn_work_buckets)) = work_of selected ∧
    sumZ ((λ l, of_be l.(sbl_certified_service_credit)) <$> sn.(psn_service_buckets)) =
      sumZ ((λ s, sum_credits s.(csc_service)) <$> selected) ∧
    Sorted bytes_lt (wbl_bucket_id <$> sn.(psn_work_buckets)) ∧
    Sorted bytes_lt (sbl_bucket_id <$> sn.(psn_service_buckets)) ∧
    merkle_root (csc_session_close_id <$> selected) = Some sn.(psn_share_set_root) ∧
    merkle_root (csc_session_close_id <$> filter (λ s, s.(csc_service) ≠ []) selected) =
      Some sn.(psn_service_set_root) ∧
    sn.(psn_last_session_close_id) = s.(csc_session_close_id).
Proof.
  intros Hwin. unfold build_snapshot. rewrite bind_ok. intros (nx & _ & Hr). revert Hr.
  set (l := reverse (a.(sa_closed_sessions) ++ [s])).
  destruct (window_loop a.(sa_pplns_window_work) l [] 0) as [sel w] eqn:Hloop.
  rewrite bind_ok. intros (wb & Hwb & Hr). apply bind_ok in Hr as (sb & Hsb & Hr).
  apply bind_ok in Hr as (wt & _ & Hr). apply bind_ok in Hr as (aw & Haw & [= <-]).
  cbn [psn_actual_work_in_window psn_work_buckets psn_service_buckets psn_share_set_root
       psn_service_set_root psn_last_session_close_id].
  destruct (window_loop_spec _ _ _ _ _ _ Hwin Hloop) as (k & -> & -> & Hmin & Hend & Hk).
  cbn [app] in *. apply aggregate_work_sum in Hwb as [Hsw Hww].
  apply aggregate_service_sum in Hsb as [Hss Hws].
  pose proof (work_of_nonneg (take k l)). apply big_to_u512_of in Haw; [|lia].
  assert (Hl : l = s :: reverse a.(sa_closed_sessions)) by (unfold l; by rewrite reverse_snoc).
  assert (Hkpos : (0 < k)%nat) by (apply Hk; by rewrite Hl).
  exists (reverse (drop k l)), (reverse (take k l)).
  rewrite work_of_reverse in Hww |- *.
  split_and!; try done; try (by rewrite <- merkle_root_of_spec).
  - rewrite <- reverse_app, take_drop. unfold l. by rewrite reverse_involutive.
  - intros Hc%(f_equal length). rewrite length_reverse, length_take, Hl in Hc. cbn in Hc. lia.
  - destruct Hend as [?|Hall]; [left; lia|right]. apply (f_equal length) in Hall.
    rewrite length_take in Hall. by rewrite drop_ge by lia.
  - intros x rest Hx. apply (f_equal reverse) in Hx. rewrite reverse_involutive, reverse_cons in Hx.
    assert (Hrest : reverse rest = take (length rest) l).
    { apply (f_equal (take (length rest))) in Hx. rewrite take_take, take_app_le in Hx
        by (rewrite length_reverse; lia). rewrite (take_ge (reverse rest)) in Hx by (rewrite length_reverse; lia).
      rewrite <- Hx. f_equal. apply (f_equal length) in Hx. rewrite length_take, length_reverse in Hx. lia. }
    rewrite <- work_of_reverse, Hrest. specialize (Hmin (length rest)). apply Hmin.
    apply (f_equal length) in Hx. rewrite length_take, length_app, length_reverse in Hx. cbn in Hx. lia.
  - rewrite last_reverse, Hl. destruct k as [|k]; [lia|]. done.
Qed.

(** Three sessions, a snapshot on the second and on the third; the first is
    pruned when the third arrives. *)
Definition demo_session (b : byte) (work : Z) : ClosedSessionCredits :=
  mkClosedSessionCredits (replicate 32 b) 7 [mkBucketCredit demo_bucket (to_be 64 work)] [].
Definition demo_sessions : list (ClosedSessionCredits * SignatureSet) :=
  [(demo_session x01 6, empty_ed25519); (demo_session x02 5, empty_ed25519);
   (demo_session x03 14, empty_ed25519)].
Definition demo_accumulator : result SettlementError SnapshotAccumulator :=
  new_with_limits 0 1 (replicate 32 x00) (to_be 64 10) (to_be 64 12) (replicate 32 x09)
    SnapshotAccumulatorLimits_default.
Definition demo_feed : result SettlementError (list (option PayoutSnapshotV2) * SnapshotAccumulator) :=
  a ← demo_accumulator; feed (@add_closed_session toy_digests 208) a demo_sessions.

Lemma demo_feed_sessions :
  (λ r, len r.2.(sa_closed_sessions)) <$> demo_feed = Ok 1.
Proof. vm_compute. reflexivity. Qed.

Lemma snapshot_pruning_exact_witness :
  match demo_feed with
  | Ok (outs, a) =>
      len a.(sa_closed_sessions) = 1 ∧
      live_suffix 12 demo_sessions.*1 a.(sa_closed_sessions)
  | Err _ => False
  end.
Proof.
  pose proof demo_feed_sessions as Hrun. destruct demo_feed as [[outs a]|e] eqn:Hf; [|done].
  split; [by injection Hrun|]. unfold demo_feed in Hf. apply bind_ok in Hf as (a0 & Ha0 & Hf).
  assert (Hw : of_be (to_be 64 12) = 12) by (vm_compute; reflexivity). rewrite <- Hw.
  eapply (@snapshot_pruning_exact toy_digests); [| | |exact Ha0|exact Hf]; by vm_compute.
Defined.

Lemma snapshot_checkpoint_roundtrip_witness :
  match demo_feed with
  | Ok (outs, a) => ∃ c, checkpoint a = Ok c ∧
      from_checkpoint 208 c SnapshotAccumulatorLimits_default = Ok a
  | Err _ => False
  end.
Proof.
  pose proof demo_feed_sessions as Hrun. destruct demo_feed as [[outs a]|e] eqn:Hf; [|done].
  unfold demo_feed in Hf. apply bind_ok in Hf as (a0 & Ha0 & Hf).
  eapply (@snapshot_checkpoint_roundtrip toy_digests); [| | | | | |exact Ha0|exact Hf]; by vm_compute.
Defined.

Lemma snapshot_conserves_work_witness :
  match (a ← demo_accumulator; @build_snapshot toy_digests a (demo_session x01 14) empty_ed25519) with
  | Ok sn => sumZ ((λ l, of_be l.(wbl_credited_work)) <$> sn.(psn_work_buckets)) = 14
  | Err _ => False
  end.
Proof.
  destruct (a ← demo_accumulator; @build_snapshot toy_digests a (demo_session x01 14) empty_ed25519)
    as [sn|e] eqn:Hb; [|by vm_compute in Hb].
  apply bind_ok in Hb as (a & Ha & Hb).
  assert (Hwin : a.(sa_pplns_window_work) = 12 ∧ a.(sa_closed_sessions) = []).
  { vm_compute in Ha. injection Ha as <-. split; reflexivity. }
  destruct Hwin as [Hwin Hs].
  destruct (@snapshot_conserves_work toy_digests a (demo_session x01 14) empty_ed25519 sn)
    as (dropped & selected & Hsel & Hne & _ & _ & _ & Hsum & _); [lia|done|].
  rewrite Hsum. rewrite Hs in Hsel. destruct dropped as [|x dropped]; cbn in Hsel.
  - rewrite <- Hsel. vm_compute. reflexivity.
  - injection Hsel as _ Hsel. symmetry in Hsel. apply app_nil in Hsel as [_ ?]. done.
Defined.
