(* ===== verification/Crypto.v ===== *)
(** * Signatures (crates/meshmine-crypto/src/lib.rs)

    The signing boundary: the context-bound message, single signatures,
    certificates and the guarded signing of one object per slot. Ed25519 is the
    class [Ed25519]; its laws [Ed25519Ok] are that signatures are 64 bytes and
    that a signature made with a key verifies under its public key. *)

From S2P Require Import Prelude Codec Hash Types Objects Storage Journal.

(** ** The signature scheme *)

Class Ed25519 := {
  SigningKey : Type;
  (** [VerifyingKey::from_bytes(..).is_ok()] *)
  key_valid : bytes → bool;
  (** [verifying_key.verify(message, &signature).is_ok()] *)
  ed_verify : bytes → bytes → bytes → bool;
  (** [signing_key.verifying_key().to_bytes()], [signing_key.sign(message)] *)
  verifying_key : SigningKey → bytes;
  ed_sign : SigningKey → bytes → bytes;
}.

Class Ed25519Ok `{Ed25519} : Prop := {
  verifying_key_valid k : key_valid (verifying_key k) = true;
  verifying_key_length k : length (verifying_key k) = 32%nat;
  ed_sign_length k m : length (ed_sign k m) = 64%nat;
  ed_sign_verifies k m : ed_verify (verifying_key k) m (ed_sign k m) = true;
}.

Definition SIGNATURE_CONTEXT : bytes := str "meshmine/signature-context/v2".

Inductive CryptoError :=
| UnsupportedSuite (suite : Z)
| InvalidPublicKey
| InvalidSignatureLength (actual : Z)
| VerificationFailed
| DuplicateSigner
| DurableSigning (e : DurableInvariantError).

Section Crypto.
Context `{Digests} `{Ed25519}.

Definition signature_body {A} `{UnsignedObject A} (network_id : Z) (object : A) : bytes :=
  into_bytes (enc_u16 CORE_V2 >>> enc_u8 network_id >>> enc_bytes (DOMAIN_TAG (A := A)) >>>
              enc_fixed (object_id object)).
Definition signature_message {A} `{UnsignedObject A} (network_id : Z) (object : A) : Hash256 :=
  domain_hash SIGNATURE_CONTEXT (signature_body network_id object).

Definition verify_message (verifying_key : bytes) (signature_suite : Z) (signature : SignatureBytes)
    (message : bytes) : result CryptoError unit :=
  if negb (signature_suite =? ED25519_SUITE) then Err (UnsupportedSuite signature_suite)
  else if negb (key_valid verifying_key) then Err InvalidPublicKey
  else if negb (len signature =? 64) then Err (InvalidSignatureLength (len signature))
  else if ed_verify verifying_key message signature then Ok tt else Err VerificationFailed.

Definition verify_object {A} `{UnsignedObject A} (verifying_key : bytes) (signature_suite : Z)
    (signature : SignatureBytes) (network_id : Z) (object : A) : result CryptoError unit :=
  verify_message verifying_key signature_suite signature (signature_message network_id object).

Definition sign_object {A} `{UnsignedObject A} (signing_key : SigningKey) (network_id : Z)
    (object : A) : SignatureBytes :=
  ed_sign signing_key (signature_message network_id object).

Definition sign_certificate {A} `{UnsignedObject A} (signing_key : SigningKey) (network_id : Z)
    (object : A) : SignerSignature :=
  mkSignerSignature (verifying_key signing_key) (sign_object signing_key network_id object).

(** [sort_by_key(|entry| entry.signer_pubkey)] *)
Definition signer_le (a b : SignerSignature) : Prop := bytes_le a.(signer_pubkey) b.(signer_pubkey).
#[global] Instance signer_le_dec : RelDecision signer_le.
Proof. intros a b. unfold signer_le. apply _. Defined.

Definition assemble_ed25519_set (signatures : list SignerSignature) : result CryptoError SignatureSet :=
  let signatures := merge_sort signer_le signatures in
  if windows2_any (λ a b, bool_decide (a.(signer_pubkey) = b.(signer_pubkey))) signatures
  then Err DuplicateSigner
  else Ok (mkSignatureSet ED25519_SUITE signatures).

Definition verify_certificate {A} `{UnsignedObject A} (signer_set : SignatureSet) (network_id : Z)
    (object : A) : result CryptoError unit :=
  if negb (signer_set.(signature_suite) =? ED25519_SUITE)
  then Err (UnsupportedSuite signer_set.(signature_suite))
  else
    _ ← map_err (λ _, DuplicateSigner) (validate_order signer_set);
    let message := signature_message network_id object in
    fold_result (λ _ entry, verify_message entry.(signer_pubkey) signer_set.(signature_suite)
                              entry.(ss_signature) message) tt signer_set.(signatures).

(** ** Guarded signing *)

Section Guarded.
Context {S : Type} `{!DurableStore S} `{!Hex} (env : nat → S → S).

Definition guarded_sign_certificate {A} `{UnsignedObject A} (signing_key : SigningKey)
    (network_id : Z) (object : A) (role scope : bytes) (sequence : Z) (w : nat * S) :
    result CryptoError SignerSignature * (nat * S) :=
  let '(r, w') := authorize env role scope sequence (object_id object) w in
  (_ ← map_err DurableSigning r; Ok (sign_certificate signing_key network_id object), w').
End Guarded.

(** ** Proofs *)

(** A signature that the code accepts. *)
Definition signed_by {A} `{UnsignedObject A} (network_id : Z) (object : A) (key : bytes)
    (signature : SignatureBytes) : Prop :=
  key_valid key = true ∧ len signature = 64 ∧
  ed_verify key (signature_message network_id object) signature = true.

Lemma verify_message_ok key suite signature message :
  verify_message key suite signature message = Ok tt ↔
  suite = ED25519_SUITE ∧ key_valid key = true ∧ len signature = 64 ∧
  ed_verify key message signature = true.
Proof.
  unfold verify_message. destruct (Z.eqb_spec suite ED25519_SUITE); cbn; [|naive_solver].
  destruct (key_valid key); cbn; [|naive_solver].
  destruct (Z.eqb_spec (len signature) 64); cbn; [|naive_solver].
  destruct (ed_verify key message signature); naive_solver.
Qed.

Lemma verify_object_ok {A} `{UnsignedObject A} key suite signature network_id (object : A) :
  verify_object key suite signature network_id object = Ok tt ↔
  suite = ED25519_SUITE ∧ signed_by network_id object key signature.
Proof. apply verify_message_ok. Qed.

Lemma fold_unit_ok {E A} (f : A → result E unit) l :
  fold_result (λ _ x, f x) tt l = Ok tt ↔ Forall (λ x, f x = Ok tt) l.
Proof.
  induction l as [|x l IH]; cbn; [split; [constructor|done]|]. rewrite Forall_cons, <- IH, bind_ok.
  split; [by intros ([] & ? & ?)|]. intros [? ?]. by exists tt.
Qed.

(** What a verified certificate is: one valid signature each of distinct
    signers, in key order. *)
Lemma verify_certificate_ok {A} `{UnsignedObject A} signer_set network_id (object : A) :
  verify_certificate signer_set network_id object = Ok tt ↔
  signer_set.(signature_suite) = ED25519_SUITE ∧
  keys_increase signer_pubkey signer_set.(signatures) ∧
  Forall (λ e, signed_by network_id object e.(signer_pubkey) e.(ss_signature)) signer_set.(signatures).
Proof.
  unfold verify_certificate. destruct (Z.eqb_spec signer_set.(signature_suite) ED25519_SUITE) as [Hs|]; cbn;
    [|naive_solver].
  rewrite bind_ok, <- validate_order_ok.
  assert (∀ l, fold_result (λ _ e, verify_message e.(signer_pubkey) signer_set.(signature_suite)
      e.(ss_signature) (signature_message network_id object)) tt l = Ok tt ↔
    Forall (λ e, signed_by network_id object e.(signer_pubkey) e.(ss_signature)) l) as Hfold.
  { intros l. rewrite (fold_unit_ok (λ e, verify_message e.(signer_pubkey) _ e.(ss_signature) _)).
    apply Forall_iff. intros e. rewrite verify_message_ok. unfold signed_by. tauto. }
  rewrite <- Hfold. split.
  - intros ([] & Ho%map_err_ok & Hf). done.
  - intros (_ & Ho & Hf). exists tt. by rewrite map_err_ok.
Qed.

Lemma signature_body_inj {A B} `{UnsignedObject A, UnsignedObject B} n1 n2 (x : A) (y : B) :
  uint 8 n1 → uint 8 n2 → len (DOMAIN_TAG (A := A)) < 2 ^ 64 → len (DOMAIN_TAG (A := B)) < 2 ^ 64 →
  signature_body n1 x = signature_body n2 y →
  n1 = n2 ∧ DOMAIN_TAG (A := A) = DOMAIN_TAG (A := B) ∧ object_id x = object_id y.
Proof.
  intros Hn1 Hn2 Hx Hy E. unfold signature_body, into_bytes in E. rewrite !wseq_nil in E by apply _.
  unfold enc_u16, enc_u8, enc_fixed in E. rewrite !app_nil_l in E.
  apply app_inj_1 in E as [_ E]; [|by rewrite !to_le_length].
  injection E as En E. apply enc_bytes_prefix in E as [Et Ei]; [|done..].
  split; [by apply z2b_inj|done].
Qed.

(** A signed message stands for one network, one domain tag and one object
    identity, or exhibits a digest collision: a signature on one object can
    never be replayed for another, of the same or of another type. *)
Lemma signature_message_binding {A B} `{UnsignedObject A, UnsignedObject B} n1 n2 (x : A) (y : B) :
  uint 8 n1 → uint 8 n2 → len (DOMAIN_TAG (A := A)) < 2 ^ 64 → len (DOMAIN_TAG (A := B)) < 2 ^ 64 →
  signature_message n1 x = signature_message n2 y →
  (n1 = n2 ∧ DOMAIN_TAG (A := A) = DOMAIN_TAG (A := B) ∧ object_id x = object_id y) ∨
  collides 32 (domain_preimage SIGNATURE_CONTEXT (signature_body n1 x))
    (domain_preimage SIGNATURE_CONTEXT (signature_body n2 y)).
Proof.
  intros Hn1 Hn2 Hx Hy [[_ E]|E]%domain_hash_binding; [|by right|done..].
  left. by apply signature_body_inj.
Qed.

#[global] Instance signer_le_total : Total signer_le.
Proof. intros a b. apply (total bytes_le). Qed.
#[global] Instance signer_le_trans : Transitive signer_le.
Proof. intros a b c. apply (transitivity (R := bytes_le)). Qed.

Lemma assemble_spec l :
  let sorted := merge_sort signer_le l in
  assemble_ed25519_set l =
    if decide (NoDup (signer_pubkey <$> l)) then Ok (mkSignatureSet ED25519_SUITE sorted)
    else Err DuplicateSigner.
Proof.
  cbn zeta. unfold assemble_ed25519_set.
  pose proof (Sorted_merge_sort signer_le l) as Hs. pose proof (merge_sort_Permutation signer_le l) as Hp.
  pose proof (sorted_by_distinct signer_pubkey _ Hs) as Hd. pose proof (sorted_by_NoDup signer_pubkey _ Hs) as Hn.
  assert (NoDup (signer_pubkey <$> merge_sort signer_le l) ↔ NoDup (signer_pubkey <$> l)) as Hnd by by rewrite Hp.
  destruct (windows2_any _ _); case_decide; try done.
  - assert (true = false) by tauto. done.
  - tauto.
Qed.

Lemma assemble_increase l set :
  assemble_ed25519_set l = Ok set → keys_increase signer_pubkey set.(signatures).
Proof.
  rewrite assemble_spec. cbn zeta. case_decide as Hn; intros [= <-]; cbn.
  apply (sorted_by_NoDup signer_pubkey); [apply (Sorted_merge_sort signer_le)|].
  by rewrite (merge_sort_Permutation signer_le l).
Qed.

Context `{!Ed25519Ok}.

Lemma sign_certificate_signed {A} `{UnsignedObject A} key network_id (object : A) :
  let e := sign_certificate key network_id object in
  signed_by network_id object e.(signer_pubkey) e.(ss_signature).
Proof.
  cbn. split_and!.
  - apply verifying_key_valid.
  - unfold len, sign_object. by rewrite ed_sign_length.
  - apply ed_sign_verifies.
Qed.

(** The signatures of any signers, collected in any order. *)
Lemma assembled_certificate {A} `{UnsignedObject A} keys network_id (object : A) :
  match assemble_ed25519_set ((λ key, sign_certificate key network_id object) <$> keys) with
  | Ok set =>
      NoDup (verifying_key <$> keys) ∧ verify_certificate set network_id object = Ok tt ∧
      signer_pubkey <$> set.(signatures) ≡ₚ verifying_key <$> keys
  | Err e => e = DuplicateSigner ∧ ¬ NoDup (verifying_key <$> keys)
  end.
Proof.
  set (certificates := (λ key, sign_certificate key network_id object) <$> keys).
  assert (signer_pubkey <$> certificates = verifying_key <$> keys) as Hk.
  { unfold certificates. rewrite <- list_fmap_compose. done. }
  destruct (assemble_ed25519_set certificates) as [set|e] eqn:Ha;
    pose proof Ha as Hi; rewrite assemble_spec in Ha; cbn zeta in Ha; rewrite Hk in Ha;
    case_decide as Hn; inversion Ha; subst; [|done].
  pose proof (merge_sort_Permutation signer_le certificates) as Hp. split; [done|]. split.
  - apply verify_certificate_ok. split; [done|]. split; [by apply assemble_increase in Hi|]. cbn.
    rewrite Hp. apply Forall_fmap, Forall_true. intros key. apply sign_certificate_signed.
  - cbn. by rewrite Hp, Hk.
Qed.

(** Certificates are complete. The signatures of any signers with distinct
    keys, collected in any order, assemble into a set that verifies and names
    exactly those signers; a signer who appears twice makes assembly fail. *)
Lemma assembled_certificate_verifies {A} `{UnsignedObject A} keys network_id (object : A) :
  match assemble_ed25519_set ((λ key, sign_certificate key network_id object) <$> keys) with
  | Ok set =>
      NoDup (verifying_key <$> keys) ∧ verify_certificate set network_id object = Ok tt ∧
      signer_pubkey <$> set.(signatures) ≡ₚ verifying_key <$> keys
  | Err e => e = DuplicateSigner ∧ ¬ NoDup (verifying_key <$> keys)
  end.
Proof. apply assembled_certificate. Qed.
End Crypto.

(** A concrete scheme for the witnesses: the signature is the key and the
    message, padded or cut to 64 bytes. *)
Definition toy_ed25519 : Ed25519 := {|
  SigningKey := bytes;
  key_valid key := bool_decide (length key = 32%nat);
  ed_verify key message signature := bool_decide (signature = toy_digest 64 (key ++ message));
  verifying_key := toy_digest 32;
  ed_sign key message := toy_digest 64 (toy_digest 32 key ++ message);
|}.
Lemma toy_ed25519_ok : @Ed25519Ok toy_ed25519.
Proof.
  assert (∀ n m, length (toy_digest n m) = n) as Ht.
  { intros n m. unfold toy_digest. rewrite length_take, length_app, length_replicate. lia. }
  split; intros; cbn; try apply bool_decide_eq_true; try apply Ht; done.
Qed.

Lemma assembled_certificate_verifies_witness :
  let H := toy_digests in let H0 := toy_ed25519 in
  let sign key := sign_certificate key 2 (demo_operator x05) in
  match assemble_ed25519_set [sign [x02]; sign [x01]] with
  | Ok set => verify_certificate set 2 (demo_operator x05) = Ok tt
  | Err _ => False
  end.
Proof.
  cbn zeta. pose proof (@assembled_certificate_verifies toy_digests toy_ed25519 toy_ed25519_ok
    OperatorRecordV2 _ [[x02]; [x01]] 2 (demo_operator x05)) as Hc. cbn [fmap list_fmap] in Hc.
  destruct (assemble_ed25519_set _) as [set|e] eqn:E; [exact (proj1 (proj2 Hc))|].
  vm_compute in E. discriminate E.
Defined.
