(* ===== verification/HandoffObjects.v ===== *)
(** * Handoff objects (crates/meshmine-handoff/src/lib.rs)

    The six signed objects of the gateway-to-Core handoff and the durable
    capture cursor, with their codecs, in the form of [Objects.v]. *)

From S2P Require Import Prelude Codec Hash Types Objects.

(** ** [GatewayContextManifestV1] *)

Record GatewayContextManifestV1 := mkGatewayContextManifestV1 {
  gcm_core_protocol_version : Z;
  gcm_handoff_version : Z;
  gcm_network_id : Z;
  gcm_context_sequence : Z;
  gcm_previous_manifest_id : Hash256;
  gcm_operator_pubkey : bytes;
  gcm_gateway_pubkey : bytes;
  gcm_core_handoff_pubkey : bytes;
  gcm_valid_from_ms : Z;
  gcm_valid_until_ms : Z;
  gcm_maximum_frame_bytes : Z;
  gcm_maximum_in_flight : Z;
  gcm_operator_signature : SignatureBytes;
}.

#[export] Instance GatewayContextManifestV1_eq_dec : EqDecision GatewayContextManifestV1.
Proof. solve_decision. Defined.

Definition encode_unsigned_GatewayContextManifestV1 (o : GatewayContextManifestV1) : Writer :=
  enc_u16 o.(gcm_core_protocol_version) >>>
  enc_u16 o.(gcm_handoff_version) >>>
  enc_u8 o.(gcm_network_id) >>>
  enc_u64 o.(gcm_context_sequence) >>>
  enc_fixed o.(gcm_previous_manifest_id) >>>
  enc_fixed o.(gcm_operator_pubkey) >>>
  enc_fixed o.(gcm_gateway_pubkey) >>>
  enc_fixed o.(gcm_core_handoff_pubkey) >>>
  enc_u64 o.(gcm_valid_from_ms) >>>
  enc_u64 o.(gcm_valid_until_ms) >>>
  enc_u32 o.(gcm_maximum_frame_bytes) >>>
  enc_u16 o.(gcm_maximum_in_flight).

#[export] Instance GatewayContextManifestV1_unsigned : UnsignedObject GatewayContextManifestV1 := {|
  DOMAIN_TAG := str "meshmine/gateway-context-manifest/v1";
  encode_unsigned := encode_unsigned_GatewayContextManifestV1;
|}.

Definition encode_GatewayContextManifestV1 (o : GatewayContextManifestV1) : Writer :=
  encode_unsigned_GatewayContextManifestV1 o >>> encode_SignatureBytes o.(gcm_operator_signature).

Definition decode_GatewayContextManifestV1 : parser GatewayContextManifestV1 :=
  core_protocol_version ← dec_u16;
  handoff_version ← dec_u16;
  network_id ← dec_u8;
  context_sequence ← dec_u64;
  previous_manifest_id ← dec_array 32;
  operator_pubkey ← dec_array 32;
  gateway_pubkey ← dec_array 32;
  core_handoff_pubkey ← dec_array 32;
  valid_from_ms ← dec_u64;
  valid_until_ms ← dec_u64;
  maximum_frame_bytes ← dec_u32;
  maximum_in_flight ← dec_u16;
  operator_signature ← decode_SignatureBytes;
  mret (mkGatewayContextManifestV1 core_protocol_version handoff_version network_id
         context_sequence previous_manifest_id operator_pubkey gateway_pubkey
         core_handoff_pubkey valid_from_ms valid_until_ms maximum_frame_bytes
         maximum_in_flight operator_signature).

Definition ok_GatewayContextManifestV1 (limits : DecodeLimits) (o : GatewayContextManifestV1) : Prop :=
  uint 16 o.(gcm_core_protocol_version) ∧
  uint 16 o.(gcm_handoff_version) ∧
  uint 8 o.(gcm_network_id) ∧
  uint 64 o.(gcm_context_sequence) ∧
  arr 32 o.(gcm_previous_manifest_id) ∧
  arr 32 o.(gcm_operator_pubkey) ∧
  arr 32 o.(gcm_gateway_pubkey) ∧
  arr 32 o.(gcm_core_handoff_pubkey) ∧
  uint 64 o.(gcm_valid_from_ms) ∧
  uint 64 o.(gcm_valid_until_ms) ∧
  uint 32 o.(gcm_maximum_frame_bytes) ∧
  uint 16 o.(gcm_maximum_in_flight) ∧
  ok_sig limits o.(gcm_operator_signature).

#[export] Instance encode_GatewayContextManifestV1_appends o : Appends (encode_GatewayContextManifestV1 o).
Proof. unfold encode_GatewayContextManifestV1, encode_unsigned_GatewayContextManifestV1. apply _. Qed.

Lemma reads_GatewayContextManifestV1 limits o :
  ok_GatewayContextManifestV1 limits o →
  reads limits decode_GatewayContextManifestV1 (encode_GatewayContextManifestV1 o) o.
Proof.
  unfold ok_GatewayContextManifestV1. intros Hok. destruct_and!.
  unfold decode_GatewayContextManifestV1, encode_GatewayContextManifestV1, encode_unsigned_GatewayContextManifestV1.
  solve_reads. by destruct o.
Qed.
Lemma accepts_GatewayContextManifestV1 limits :
  accepts limits decode_GatewayContextManifestV1
    (λ o bs, ok_GatewayContextManifestV1 limits o ∧ bs = encode_GatewayContextManifestV1 o []).
Proof.
  unfold decode_GatewayContextManifestV1. solve_accepts. split.
  - destruct_and?. repeat (split; [done|]). done.
  - unfold encode_GatewayContextManifestV1, encode_unsigned_GatewayContextManifestV1. by flatten_writers.
Qed.
#[export] Hint Resolve reads_GatewayContextManifestV1 : codec.
#[export] Hint Extern 1 (accepts _ decode_GatewayContextManifestV1 _) =>
  apply accepts_GatewayContextManifestV1 : codec.

#[export] Instance GatewayContextManifestV1_codec : Codec GatewayContextManifestV1 := {|
  encode := encode_GatewayContextManifestV1;
  decode := decode_GatewayContextManifestV1;
|}.
#[export] Instance GatewayContextManifestV1_codec_laws : CodecLaws GatewayContextManifestV1 := {|
  codec_ok := ok_GatewayContextManifestV1;
  encode_appends := encode_GatewayContextManifestV1_appends;
  decode_encode := reads_GatewayContextManifestV1;
  decode_sound := accepts_GatewayContextManifestV1;
|}.

(** The object with its signature blanked. *)
Definition strip_GatewayContextManifestV1 (o : GatewayContextManifestV1) : GatewayContextManifestV1 :=
  mkGatewayContextManifestV1 o.(gcm_core_protocol_version) o.(gcm_handoff_version)
    o.(gcm_network_id) o.(gcm_context_sequence) o.(gcm_previous_manifest_id)
    o.(gcm_operator_pubkey) o.(gcm_gateway_pubkey) o.(gcm_core_handoff_pubkey)
    o.(gcm_valid_from_ms) o.(gcm_valid_until_ms) o.(gcm_maximum_frame_bytes)
    o.(gcm_maximum_in_flight) [].
#[export] Instance GatewayContextManifestV1_unsigned_laws : UnsignedLaws GatewayContextManifestV1.
Proof.
  refine {| strip_signature := strip_GatewayContextManifestV1; blank_signature := encode_SignatureBytes [] [] |}.
  - intros o. cbn [encode GatewayContextManifestV1_codec]. unfold encode_GatewayContextManifestV1.
    by rewrite wseq_nil by apply _.
  - intros limits o Hok. cbn [codec_ok GatewayContextManifestV1_codec_laws] in *.
    unfold ok_GatewayContextManifestV1 in *. blank_ok.
  - by vm_compute.
Defined.

(** ** [GatewayCaptureEnvelopeV1] *)

Record GatewayCaptureEnvelopeV1 := mkGatewayCaptureEnvelopeV1 {
  gce_core_protocol_version : Z;
  gce_handoff_version : Z;
  gce_network_id : Z;
  gce_context_manifest_id : Hash256;
  gce_assignment_id : Hash256;
  gce_session_id : Hash256;
  gce_gateway_pubkey : bytes;
  gce_core_handoff_pubkey : bytes;
  gce_gateway_sequence : Z;
  gce_gateway_connection_id : Hash256;
  gce_gateway_received_ms : Z;
  gce_ntime : Z;
  gce_extra_nonce : bytes;
  gce_nonce : Z;
  gce_raw_share_hash : Hash256;
  gce_gateway_signature : SignatureBytes;
}.

#[export] Instance GatewayCaptureEnvelopeV1_eq_dec : EqDecision GatewayCaptureEnvelopeV1.
Proof. solve_decision. Defined.

Definition encode_unsigned_GatewayCaptureEnvelopeV1 (o : GatewayCaptureEnvelopeV1) : Writer :=
  enc_u16 o.(gce_core_protocol_version) >>>
  enc_u16 o.(gce_handoff_version) >>>
  enc_u8 o.(gce_network_id) >>>
  enc_fixed o.(gce_context_manifest_id) >>>
  enc_fixed o.(gce_assignment_id) >>>
  enc_fixed o.(gce_session_id) >>>
  enc_fixed o.(gce_gateway_pubkey) >>>
  enc_fixed o.(gce_core_handoff_pubkey) >>>
  enc_u64 o.(gce_gateway_sequence) >>>
  enc_fixed o.(gce_gateway_connection_id) >>>
  enc_u64 o.(gce_gateway_received_ms) >>>
  enc_u64 o.(gce_ntime) >>>
  enc_fixed o.(gce_extra_nonce) >>>
  enc_u32 o.(gce_nonce) >>>
  enc_fixed o.(gce_raw_share_hash).

#[export] Instance GatewayCaptureEnvelopeV1_unsigned : UnsignedObject GatewayCaptureEnvelopeV1 := {|
  DOMAIN_TAG := str "meshmine/gateway-capture-envelope/v1";
  encode_unsigned := encode_unsigned_GatewayCaptureEnvelopeV1;
|}.

Definition encode_GatewayCaptureEnvelopeV1 (o : GatewayCaptureEnvelopeV1) : Writer :=
  encode_unsigned_GatewayCaptureEnvelopeV1 o >>> encode_SignatureBytes o.(gce_gateway_signature).

Definition decode_GatewayCaptureEnvelopeV1 : parser GatewayCaptureEnvelopeV1 :=
  core_protocol_version ← dec_u16;
  handoff_version ← dec_u16;
  network_id ← dec_u8;
  context_manifest_id ← dec_array 32;
  assignment_id ← dec_array 32;
  session_id ← dec_array 32;
  gateway_pubkey ← dec_array 32;
  core_handoff_pubkey ← dec_array 32;
  gateway_sequence ← dec_u64;
  gateway_connection_id ← dec_array 32;
  gateway_received_ms ← dec_u64;
  ntime ← dec_u64;
  extra_nonce ← dec_array 24;
  nonce ← dec_u32;
  raw_share_hash ← dec_array 32;
  gateway_signature ← decode_SignatureBytes;
  mret (mkGatewayCaptureEnvelopeV1 core_protocol_version handoff_version network_id
         context_manifest_id assignment_id session_id gateway_pubkey core_handoff_pubkey
         gateway_sequence gateway_connection_id gateway_received_ms ntime extra_nonce
         nonce raw_share_hash gateway_signature).

Definition ok_GatewayCaptureEnvelopeV1 (limits : DecodeLimits) (o : GatewayCaptureEnvelopeV1) : Prop :=
  uint 16 o.(gce_core_protocol_version) ∧
  uint 16 o.(gce_handoff_version) ∧
  uint 8 o.(gce_network_id) ∧
  arr 32 o.(gce_context_manifest_id) ∧
  arr 32 o.(gce_assignment_id) ∧
  arr 32 o.(gce_session_id) ∧
  arr 32 o.(gce_gateway_pubkey) ∧
  arr 32 o.(gce_core_handoff_pubkey) ∧
  uint 64 o.(gce_gateway_sequence) ∧
  arr 32 o.(gce_gateway_connection_id) ∧
  uint 64 o.(gce_gateway_received_ms) ∧
  uint 64 o.(gce_ntime) ∧
  arr 24 o.(gce_extra_nonce) ∧
  uint 32 o.(gce_nonce) ∧
  arr 32 o.(gce_raw_share_hash) ∧
  ok_sig limits o.(gce_gateway_signature).

#[export] Instance encode_GatewayCaptureEnvelopeV1_appends o : Appends (encode_GatewayCaptureEnvelopeV1 o).
Proof. unfold encode_GatewayCaptureEnvelopeV1, encode_unsigned_GatewayCaptureEnvelopeV1. apply _. Qed.

Lemma reads_GatewayCaptureEnvelopeV1 limits o :
  ok_GatewayCaptureEnvelopeV1 limits o →
  reads limits decode_GatewayCaptureEnvelopeV1 (encode_GatewayCaptureEnvelopeV1 o) o.
Proof.
  unfold ok_GatewayCaptureEnvelopeV1. intros Hok. destruct_and!.
  unfold decode_GatewayCaptureEnvelopeV1, encode_GatewayCaptureEnvelopeV1, encode_unsigned_GatewayCaptureEnvelopeV1.
  solve_reads. by destruct o.
Qed.
Lemma accepts_GatewayCaptureEnvelopeV1 limits :
  accepts limits decode_GatewayCaptureEnvelopeV1
    (λ o bs, ok_GatewayCaptureEnvelopeV1 limits o ∧ bs = encode_GatewayCaptureEnvelopeV1 o []).
Proof.
  unfold decode_GatewayCaptureEnvelopeV1. solve_accepts. split.
  - destruct_and?. repeat (split; [done|]). done.
  - unfold encode_GatewayCaptureEnvelopeV1, encode_unsigned_GatewayCaptureEnvelopeV1. by flatten_writers.
Qed.
#[export] Hint Resolve reads_GatewayCaptureEnvelopeV1 : codec.
#[export] Hint Extern 1 (accepts _ decode_GatewayCaptureEnvelopeV1 _) =>
  apply accepts_GatewayCaptureEnvelopeV1 : codec.

#[export] Instance GatewayCaptureEnvelopeV1_codec : Codec GatewayCaptureEnvelopeV1 := {|
  encode := encode_GatewayCaptureEnvelopeV1;
  decode := decode_GatewayCaptureEnvelopeV1;
|}.
#[export] Instance GatewayCaptureEnvelopeV1_codec_laws : CodecLaws GatewayCaptureEnvelopeV1 := {|
  codec_ok := ok_GatewayCaptureEnvelopeV1;
  encode_appends := encode_GatewayCaptureEnvelopeV1_appends;
  decode_encode := reads_GatewayCaptureEnvelopeV1;
  decode_sound := accepts_GatewayCaptureEnvelopeV1;
|}.

(** The object with its signature blanked. *)
Definition strip_GatewayCaptureEnvelopeV1 (o : GatewayCaptureEnvelopeV1) : GatewayCaptureEnvelopeV1 :=
  mkGatewayCaptureEnvelopeV1 o.(gce_core_protocol_version) o.(gce_handoff_version)
    o.(gce_network_id) o.(gce_context_manifest_id) o.(gce_assignment_id)
    o.(gce_session_id) o.(gce_gateway_pubkey) o.(gce_core_handoff_pubkey)
    o.(gce_gateway_sequence) o.(gce_gateway_connection_id) o.(gce_gateway_received_ms)
    o.(gce_ntime) o.(gce_extra_nonce) o.(gce_nonce) o.(gce_raw_share_hash) [].
#[export] Instance GatewayCaptureEnvelopeV1_unsigned_laws : UnsignedLaws GatewayCaptureEnvelopeV1.
Proof.
  refine {| strip_signature := strip_GatewayCaptureEnvelopeV1; blank_signature := encode_SignatureBytes [] [] |}.
  - intros o. cbn [encode GatewayCaptureEnvelopeV1_codec]. unfold encode_GatewayCaptureEnvelopeV1.
    by rewrite wseq_nil by apply _.
  - intros limits o Hok. cbn [codec_ok GatewayCaptureEnvelopeV1_codec_laws] in *.
    unfold ok_GatewayCaptureEnvelopeV1 in *. blank_ok.
  - by vm_compute.
Defined.

(** ** [GatewayAssignmentTransitionV1] *)

Record GatewayAssignmentTransitionV1 := mkGatewayAssignmentTransitionV1 {
  gat_core_protocol_version : Z;
  gat_handoff_version : Z;
  gat_network_id : Z;
  gat_context_manifest_id : Hash256;
  gat_gateway_pubkey : bytes;
  gat_core_handoff_pubkey : bytes;
  gat_transition_sequence : Z;
  gat_previous_assignment_id : Hash256;
  gat_next_assignment_id : Hash256;
  gat_previous_assignment_last_gateway_sequence : Z;
  gat_transition_ms : Z;
  gat_reason_code : Z;
  gat_gateway_signature : SignatureBytes;
}.

#[export] Instance GatewayAssignmentTransitionV1_eq_dec : EqDecision GatewayAssignmentTransitionV1.
Proof. solve_decision. Defined.

Definition encode_unsigned_GatewayAssignmentTransitionV1 (o : GatewayAssignmentTransitionV1) : Writer :=
  enc_u16 o.(gat_core_protocol_version) >>>
  enc_u16 o.(gat_handoff_version) >>>
  enc_u8 o.(gat_network_id) >>>
  enc_fixed o.(gat_context_manifest_id) >>>
  enc_fixed o.(gat_gateway_pubkey) >>>
  enc_fixed o.(gat_core_handoff_pubkey) >>>
  enc_u64 o.(gat_transition_sequence) >>>
  enc_fixed o.(gat_previous_assignment_id) >>>
  enc_fixed o.(gat_next_assignment_id) >>>
  enc_u64 o.(gat_previous_assignment_last_gateway_sequence) >>>
  enc_u64 o.(gat_transition_ms) >>>
  enc_u16 o.(gat_reason_code).

#[export] Instance GatewayAssignmentTransitionV1_unsigned : UnsignedObject GatewayAssignmentTransitionV1 := {|
  DOMAIN_TAG := str "meshmine/gateway-assignment-transition/v1";
  encode_unsigned := encode_unsigned_GatewayAssignmentTransitionV1;
|}.

Definition encode_GatewayAssignmentTransitionV1 (o : GatewayAssignmentTransitionV1) : Writer :=
  encode_unsigned_GatewayAssignmentTransitionV1 o >>> encode_SignatureBytes o.(gat_gateway_signature).

Definition decode_GatewayAssignmentTransitionV1 : parser GatewayAssignmentTransitionV1 :=
  core_protocol_version ← dec_u16;
  handoff_version ← dec_u16;
  network_id ← dec_u8;
  context_manifest_id ← dec_array 32;
  gateway_pubkey ← dec_array 32;
  core_handoff_pubkey ← dec_array 32;
  transition_sequence ← dec_u64;
  previous_assignment_id ← dec_array 32;
  next_assignment_id ← dec_array 32;
  previous_assignment_last_gateway_sequence ← dec_u64;
  transition_ms ← dec_u64;
  reason_code ← dec_u16;
  gateway_signature ← decode_SignatureBytes;
  mret (mkGatewayAssignmentTransitionV1 core_protocol_version handoff_version network_id
         context_manifest_id gateway_pubkey core_handoff_pubkey transition_sequence
         previous_assignment_id next_assignment_id
         previous_assignment_last_gateway_sequence transition_ms reason_code
         gateway_signature).

Definition ok_GatewayAssignmentTransitionV1 (limits : DecodeLimits) (o : GatewayAssignmentTransitionV1) : Prop :=
  uint 16 o.(gat_core_protocol_version) ∧
  uint 16 o.(gat_handoff_version) ∧
  uint 8 o.(gat_network_id) ∧
  arr 32 o.(gat_context_manifest_id) ∧
  arr 32 o.(gat_gateway_pubkey) ∧
  arr 32 o.(gat_core_handoff_pubkey) ∧
  uint 64 o.(gat_transition_sequence) ∧
  arr 32 o.(gat_previous_assignment_id) ∧
  arr 32 o.(gat_next_assignment_id) ∧
  uint 64 o.(gat_previous_assignment_last_gateway_sequence) ∧
  uint 64 o.(gat_transition_ms) ∧
  uint 16 o.(gat_reason_code) ∧
  ok_sig limits o.(gat_gateway_signature).

#[export] Instance encode_GatewayAssignmentTransitionV1_appends o : Appends (encode_GatewayAssignmentTransitionV1 o).
Proof. unfold encode_GatewayAssignmentTransitionV1, encode_unsigned_GatewayAssignmentTransitionV1. apply _. Qed.

Lemma reads_GatewayAssignmentTransitionV1 limits o :
  ok_GatewayAssignmentTransitionV1 limits o →
  reads limits decode_GatewayAssignmentTransitionV1 (encode_GatewayAssignmentTransitionV1 o) o.
Proof.
  unfold ok_GatewayAssignmentTransitionV1. intros Hok. destruct_and!.
  unfold decode_GatewayAssignmentTransitionV1, encode_GatewayAssignmentTransitionV1, encode_unsigned_GatewayAssignmentTransitionV1.
  solve_reads. by destruct o.
Qed.
Lemma accepts_GatewayAssignmentTransitionV1 limits :
  accepts limits decode_GatewayAssignmentTransitionV1
    (λ o bs, ok_GatewayAssignmentTransitionV1 limits o ∧ bs = encode_GatewayAssignmentTransitionV1 o []).
Proof.
  unfold decode_GatewayAssignmentTransitionV1. solve_accepts. split.
  - destruct_and?. repeat (split; [done|]). done.
  - unfold encode_GatewayAssignmentTransitionV1, encode_unsigned_GatewayAssignmentTransitionV1. by flatten_writers.
Qed.
#[export] Hint Resolve reads_GatewayAssignmentTransitionV1 : codec.
#[export] Hint Extern 1 (accepts _ decode_GatewayAssignmentTransitionV1 _) =>
  apply accepts_GatewayAssignmentTransitionV1 : codec.

#[export] Instance GatewayAssignmentTransitionV1_codec : Codec GatewayAssignmentTransitionV1 := {|
  encode := encode_GatewayAssignmentTransitionV1;
  decode := decode_GatewayAssignmentTransitionV1;
|}.
#[export] Instance GatewayAssignmentTransitionV1_codec_laws : CodecLaws GatewayAssignmentTransitionV1 := {|
  codec_ok := ok_GatewayAssignmentTransitionV1;
  encode_appends := encode_GatewayAssignmentTransitionV1_appends;
  decode_encode := reads_GatewayAssignmentTransitionV1;
  decode_sound := accepts_GatewayAssignmentTransitionV1;
|}.

(** The object with its signature blanked. *)
Definition strip_GatewayAssignmentTransitionV1 (o : GatewayAssignmentTransitionV1) : GatewayAssignmentTransitionV1 :=
  mkGatewayAssignmentTransitionV1 o.(gat_core_protocol_version) o.(gat_handoff_version)
    o.(gat_network_id) o.(gat_context_manifest_id) o.(gat_gateway_pubkey)
    o.(gat_core_handoff_pubkey) o.(gat_transition_sequence)
    o.(gat_previous_assignment_id) o.(gat_next_assignment_id)
    o.(gat_previous_assignment_last_gateway_sequence) o.(gat_transition_ms)
    o.(gat_reason_code) [].
#[export] Instance GatewayAssignmentTransitionV1_unsigned_laws : UnsignedLaws GatewayAssignmentTransitionV1.
Proof.
  refine {| strip_signature := strip_GatewayAssignmentTransitionV1; blank_signature := encode_SignatureBytes [] [] |}.
  - intros o. cbn [encode GatewayAssignmentTransitionV1_codec]. unfold encode_GatewayAssignmentTransitionV1.
    by rewrite wseq_nil by apply _.
  - intros limits o Hok. cbn [codec_ok GatewayAssignmentTransitionV1_codec_laws] in *.
    unfold ok_GatewayAssignmentTransitionV1 in *. blank_ok.
  - by vm_compute.
Defined.

(** ** [GatewayCaptureReceiptV1] *)

Record GatewayCaptureReceiptV1 := mkGatewayCaptureReceiptV1 {
  gcr_core_protocol_version : Z;
  gcr_handoff_version : Z;
  gcr_network_id : Z;
  gcr_context_manifest_id : Hash256;
  gcr_assignment_id : Hash256;
  gcr_capture_envelope_id : Hash256;
  gcr_gateway_pubkey : bytes;
  gcr_core_handoff_pubkey : bytes;
  gcr_receipt_sequence : Z;
  gcr_core_received_ms : Z;
  gcr_outcome : Z;
  gcr_reason_code : Z;
  gcr_accepted_share_id : Hash256;
  gcr_core_signature : SignatureBytes;
}.

#[export] Instance GatewayCaptureReceiptV1_eq_dec : EqDecision GatewayCaptureReceiptV1.
Proof. solve_decision. Defined.

Definition encode_unsigned_GatewayCaptureReceiptV1 (o : GatewayCaptureReceiptV1) : Writer :=
  enc_u16 o.(gcr_core_protocol_version) >>>
  enc_u16 o.(gcr_handoff_version) >>>
  enc_u8 o.(gcr_network_id) >>>
  enc_fixed o.(gcr_context_manifest_id) >>>
  enc_fixed o.(gcr_assignment_id) >>>
  enc_fixed o.(gcr_capture_envelope_id) >>>
  enc_fixed o.(gcr_gateway_pubkey) >>>
  enc_fixed o.(gcr_core_handoff_pubkey) >>>
  enc_u64 o.(gcr_receipt_sequence) >>>
  enc_u64 o.(gcr_core_received_ms) >>>
  enc_u8 o.(gcr_outcome) >>>
  enc_u16 o.(gcr_reason_code) >>>
  enc_fixed o.(gcr_accepted_share_id).

#[export] Instance GatewayCaptureReceiptV1_unsigned : UnsignedObject GatewayCaptureReceiptV1 := {|
  DOMAIN_TAG := str "meshmine/gateway-capture-receipt/v1";
  encode_unsigned := encode_unsigned_GatewayCaptureReceiptV1;
|}.

Definition encode_GatewayCaptureReceiptV1 (o : GatewayCaptureReceiptV1) : Writer :=
  encode_unsigned_GatewayCaptureReceiptV1 o >>> encode_SignatureBytes o.(gcr_core_signature).

Definition decode_GatewayCaptureReceiptV1 : parser GatewayCaptureReceiptV1 :=
  core_protocol_version ← dec_u16;
  handoff_version ← dec_u16;
  network_id ← dec_u8;
  context_manifest_id ← dec_array 32;
  assignment_id ← dec_array 32;
  capture_envelope_id ← dec_array 32;
  gateway_pubkey ← dec_array 32;
  core_handoff_pubkey ← dec_array 32;
  receipt_sequence ← dec_u64;
  core_received_ms ← dec_u64;
  outcome ← dec_u8;
  reason_code ← dec_u16;
  accepted_share_id ← dec_array 32;
  core_signature ← decode_SignatureBytes;
  mret (mkGatewayCaptureReceiptV1 core_protocol_version handoff_version network_id
         context_manifest_id assignment_id capture_envelope_id gateway_pubkey
         core_handoff_pubkey receipt_sequence core_received_ms outcome reason_code
         accepted_share_id core_signature).

Definition ok_GatewayCaptureReceiptV1 (limits : DecodeLimits) (o : GatewayCaptureReceiptV1) : Prop :=
  uint 16 o.(gcr_core_protocol_version) ∧
  uint 16 o.(gcr_handoff_version) ∧
  uint 8 o.(gcr_network_id) ∧
  arr 32 o.(gcr_context_manifest_id) ∧
  arr 32 o.(gcr_assignment_id) ∧
  arr 32 o.(gcr_capture_envelope_id) ∧
  arr 32 o.(gcr_gateway_pubkey) ∧
  arr 32 o.(gcr_core_handoff_pubkey) ∧
  uint 64 o.(gcr_receipt_sequence) ∧
  uint 64 o.(gcr_core_received_ms) ∧
  uint 8 o.(gcr_outcome) ∧
  uint 16 o.(gcr_reason_code) ∧
  arr 32 o.(gcr_accepted_share_id) ∧
  ok_sig limits o.(gcr_core_signature).

#[export] Instance encode_GatewayCaptureReceiptV1_appends o : Appends (encode_GatewayCaptureReceiptV1 o).
Proof. unfold encode_GatewayCaptureReceiptV1, encode_unsigned_GatewayCaptureReceiptV1. apply _. Qed.

Lemma reads_GatewayCaptureReceiptV1 limits o :
  ok_GatewayCaptureReceiptV1 limits o →
  reads limits decode_GatewayCaptureReceiptV1 (encode_GatewayCaptureReceiptV1 o) o.
Proof.
  unfold ok_GatewayCaptureReceiptV1. intros Hok. destruct_and!.
  unfold decode_GatewayCaptureReceiptV1, encode_GatewayCaptureReceiptV1, encode_unsigned_GatewayCaptureReceiptV1.
  solve_reads. by destruct o.
Qed.
Lemma accepts_GatewayCaptureReceiptV1 limits :
  accepts limits decode_GatewayCaptureReceiptV1
    (λ o bs, ok_GatewayCaptureReceiptV1 limits o ∧ bs = encode_GatewayCaptureReceiptV1 o []).
Proof.
  unfold decode_GatewayCaptureReceiptV1. solve_accepts. split.
  - destruct_and?. repeat (split; [done|]). done.
  - unfold encode_GatewayCaptureReceiptV1, encode_unsigned_GatewayCaptureReceiptV1. by flatten_writers.
Qed.
#[export] Hint Resolve reads_GatewayCaptureReceiptV1 : codec.
#[export] Hint Extern 1 (accepts _ decode_GatewayCaptureReceiptV1 _) =>
  apply accepts_GatewayCaptureReceiptV1 : codec.

#[export] Instance GatewayCaptureReceiptV1_codec : Codec GatewayCaptureReceiptV1 := {|
  encode := encode_GatewayCaptureReceiptV1;
  decode := decode_GatewayCaptureReceiptV1;
|}.
#[export] Instance GatewayCaptureReceiptV1_codec_laws : CodecLaws GatewayCaptureReceiptV1 := {|
  codec_ok := ok_GatewayCaptureReceiptV1;
  encode_appends := encode_GatewayCaptureReceiptV1_appends;
  decode_encode := reads_GatewayCaptureReceiptV1;
  decode_sound := accepts_GatewayCaptureReceiptV1;
|}.

(** The object with its signature blanked. *)
Definition strip_GatewayCaptureReceiptV1 (o : GatewayCaptureReceiptV1) : GatewayCaptureReceiptV1 :=
  mkGatewayCaptureReceiptV1 o.(gcr_core_protocol_version) o.(gcr_handoff_version)
    o.(gcr_network_id) o.(gcr_context_manifest_id) o.(gcr_assignment_id)
    o.(gcr_capture_envelope_id) o.(gcr_gateway_pubkey) o.(gcr_core_handoff_pubkey)
    o.(gcr_receipt_sequence) o.(gcr_core_received_ms) o.(gcr_outcome)
    o.(gcr_reason_code) o.(gcr_accepted_share_id) [].
#[export] Instance GatewayCaptureReceiptV1_unsigned_laws : UnsignedLaws GatewayCaptureReceiptV1.
Proof.
  refine {| strip_signature := strip_GatewayCaptureReceiptV1; blank_signature := encode_SignatureBytes [] [] |}.
  - intros o. cbn [encode GatewayCaptureReceiptV1_codec]. unfold encode_GatewayCaptureReceiptV1.
    by rewrite wseq_nil by apply _.
  - intros limits o Hok. cbn [codec_ok GatewayCaptureReceiptV1_codec_laws] in *.
    unfold ok_GatewayCaptureReceiptV1 in *. blank_ok.
  - by vm_compute.
Defined.

(** ** [GatewayAssignmentDrainV1] *)

Record GatewayAssignmentDrainV1 := mkGatewayAssignmentDrainV1 {
  gad_core_protocol_version : Z;
  gad_handoff_version : Z;
  gad_network_id : Z;
  gad_context_manifest_id : Hash256;
  gad_assignment_id : Hash256;
  gad_gateway_pubkey : bytes;
  gad_core_handoff_pubkey : bytes;
  gad_last_gateway_sequence : Z;
  gad_final_capture_envelope_id : Hash256;
  gad_drained_ms : Z;
  gad_gateway_signature : SignatureBytes;
}.

#[export] Instance GatewayAssignmentDrainV1_eq_dec : EqDecision GatewayAssignmentDrainV1.
Proof. solve_decision. Defined.

Definition encode_unsigned_GatewayAssignmentDrainV1 (o : GatewayAssignmentDrainV1) : Writer :=
  enc_u16 o.(gad_core_protocol_version) >>>
  enc_u16 o.(gad_handoff_version) >>>
  enc_u8 o.(gad_network_id) >>>
  enc_fixed o.(gad_context_manifest_id) >>>
  enc_fixed o.(gad_assignment_id) >>>
  enc_fixed o.(gad_gateway_pubkey) >>>
  enc_fixed o.(gad_core_handoff_pubkey) >>>
  enc_u64 o.(gad_last_gateway_sequence) >>>
  enc_fixed o.(gad_final_capture_envelope_id) >>>
  enc_u64 o.(gad_drained_ms).

#[export] Instance GatewayAssignmentDrainV1_unsigned : UnsignedObject GatewayAssignmentDrainV1 := {|
  DOMAIN_TAG := str "meshmine/gateway-assignment-drain/v1";
  encode_unsigned := encode_unsigned_GatewayAssignmentDrainV1;
|}.

Definition encode_GatewayAssignmentDrainV1 (o : GatewayAssignmentDrainV1) : Writer :=
  encode_unsigned_GatewayAssignmentDrainV1 o >>> encode_SignatureBytes o.(gad_gateway_signature).

Definition decode_GatewayAssignmentDrainV1 : parser GatewayAssignmentDrainV1 :=
  core_protocol_version ← dec_u16;
  handoff_version ← dec_u16;
  network_id ← dec_u8;
  context_manifest_id ← dec_array 32;
  assignment_id ← dec_array 32;
  gateway_pubkey ← dec_array 32;
  core_handoff_pubkey ← dec_array 32;
  last_gateway_sequence ← dec_u64;
  final_capture_envelope_id ← dec_array 32;
  drained_ms ← dec_u64;
  gateway_signature ← decode_SignatureBytes;
  mret (mkGatewayAssignmentDrainV1 core_protocol_version handoff_version network_id
         context_manifest_id assignment_id gateway_pubkey core_handoff_pubkey
         last_gateway_sequence final_capture_envelope_id drained_ms gateway_signature).

Definition ok_GatewayAssignmentDrainV1 (limits : DecodeLimits) (o : GatewayAssignmentDrainV1) : Prop :=
  uint 16 o.(gad_core_protocol_version) ∧
  uint 16 o.(gad_handoff_version) ∧
  uint 8 o.(gad_network_id) ∧
  arr 32 o.(gad_context_manifest_id) ∧
  arr 32 o.(gad_assignment_id) ∧
  arr 32 o.(gad_gateway_pubkey) ∧
  arr 32 o.(gad_core_handoff_pubkey) ∧
  uint 64 o.(gad_last_gateway_sequence) ∧
  arr 32 o.(gad_final_capture_envelope_id) ∧
  uint 64 o.(gad_drained_ms) ∧
  ok_sig limits o.(gad_gateway_signature).

#[export] Instance encode_GatewayAssignmentDrainV1_appends o : Appends (encode_GatewayAssignmentDrainV1 o).
Proof. unfold encode_GatewayAssignmentDrainV1, encode_unsigned_GatewayAssignmentDrainV1. apply _. Qed.

Lemma reads_GatewayAssignmentDrainV1 limits o :
  ok_GatewayAssignmentDrainV1 limits o →
  reads limits decode_GatewayAssignmentDrainV1 (encode_GatewayAssignmentDrainV1 o) o.
Proof.
  unfold ok_GatewayAssignmentDrainV1. intros Hok. destruct_and!.
  unfold decode_GatewayAssignmentDrainV1, encode_GatewayAssignmentDrainV1, encode_unsigned_GatewayAssignmentDrainV1.
  solve_reads. by destruct o.
Qed.
Lemma accepts_GatewayAssignmentDrainV1 limits :
  accepts limits decode_GatewayAssignmentDrainV1
    (λ o bs, ok_GatewayAssignmentDrainV1 limits o ∧ bs = encode_GatewayAssignmentDrainV1 o []).
Proof.
  unfold decode_GatewayAssignmentDrainV1. solve_accepts. split.
  - destruct_and?. repeat (split; [done|]). done.
  - unfold encode_GatewayAssignmentDrainV1, encode_unsigned_GatewayAssignmentDrainV1. by flatten_writers.
Qed.
#[export] Hint Resolve reads_GatewayAssignmentDrainV1 : codec.
#[export] Hint Extern 1 (accepts _ decode_GatewayAssignmentDrainV1 _) =>
  apply accepts_GatewayAssignmentDrainV1 : codec.

#[export] Instance GatewayAssignmentDrainV1_codec : Codec GatewayAssignmentDrainV1 := {|
  encode := encode_GatewayAssignmentDrainV1;
  decode := decode_GatewayAssignmentDrainV1;
|}.
#[export] Instance GatewayAssignmentDrainV1_codec_laws : CodecLaws GatewayAssignmentDrainV1 := {|
  codec_ok := ok_GatewayAssignmentDrainV1;
  encode_appends := encode_GatewayAssignmentDrainV1_appends;
  decode_encode := reads_GatewayAssignmentDrainV1;
  decode_sound := accepts_GatewayAssignmentDrainV1;
|}.

(** The object with its signature blanked. *)
Definition strip_GatewayAssignmentDrainV1 (o : GatewayAssignmentDrainV1) : GatewayAssignmentDrainV1 :=
  mkGatewayAssignmentDrainV1 o.(gad_core_protocol_version) o.(gad_handoff_version)
    o.(gad_network_id) o.(gad_context_manifest_id) o.(gad_assignment_id)
    o.(gad_gateway_pubkey) o.(gad_core_handoff_pubkey) o.(gad_last_gateway_sequence)
    o.(gad_final_capture_envelope_id) o.(gad_drained_ms) [].
#[export] Instance GatewayAssignmentDrainV1_unsigned_laws : UnsignedLaws GatewayAssignmentDrainV1.
Proof.
  refine {| strip_signature := strip_GatewayAssignmentDrainV1; blank_signature := encode_SignatureBytes [] [] |}.
  - intros o. cbn [encode GatewayAssignmentDrainV1_codec]. unfold encode_GatewayAssignmentDrainV1.
    by rewrite wseq_nil by apply _.
  - intros limits o Hok. cbn [codec_ok GatewayAssignmentDrainV1_codec_laws] in *.
    unfold ok_GatewayAssignmentDrainV1 in *. blank_ok.
  - by vm_compute.
Defined.

(** ** [CoreAssignmentDrainReceiptV1] *)

Record CoreAssignmentDrainReceiptV1 := mkCoreAssignmentDrainReceiptV1 {
  cdr_core_protocol_version : Z;
  cdr_handoff_version : Z;
  cdr_network_id : Z;
  cdr_context_manifest_id : Hash256;
  cdr_assignment_id : Hash256;
  cdr_gateway_drain_id : Hash256;
  cdr_gateway_pubkey : bytes;
  cdr_core_handoff_pubkey : bytes;
  cdr_accepted_through_gateway_sequence : Z;
  cdr_receipt_sequence : Z;
  cdr_core_received_ms : Z;
  cdr_outcome : Z;
  cdr_reason_code : Z;
  cdr_core_signature : SignatureBytes;
}.

#[export] Instance CoreAssignmentDrainReceiptV1_eq_dec : EqDecision CoreAssignmentDrainReceiptV1.
Proof. solve_decision. Defined.

Definition encode_unsigned_CoreAssignmentDrainReceiptV1 (o : CoreAssignmentDrainReceiptV1) : Writer :=
  enc_u16 o.(cdr_core_protocol_version) >>>
  enc_u16 o.(cdr_handoff_version) >>>
  enc_u8 o.(cdr_network_id) >>>
  enc_fixed o.(cdr_context_manifest_id) >>>
  enc_fixed o.(cdr_assignment_id) >>>
  enc_fixed o.(cdr_gateway_drain_id) >>>
  enc_fixed o.(cdr_gateway_pubkey) >>>
  enc_fixed o.(cdr_core_handoff_pubkey) >>>
  enc_u64 o.(cdr_accepted_through_gateway_sequence) >>>
  enc_u64 o.(cdr_receipt_sequence) >>>
  enc_u64 o.(cdr_core_received_ms) >>>
  enc_u8 o.(cdr_outcome) >>>
  enc_u16 o.(cdr_reason_code).

#[export] Instance CoreAssignmentDrainReceiptV1_unsigned : UnsignedObject CoreAssignmentDrainReceiptV1 := {|
  DOMAIN_TAG := str "meshmine/core-assignment-drain-receipt/v1";
  encode_unsigned := encode_unsigned_CoreAssignmentDrainReceiptV1;
|}.

Definition encode_CoreAssignmentDrainReceiptV1 (o : CoreAssignmentDrainReceiptV1) : Writer :=
  encode_unsigned_CoreAssignmentDrainReceiptV1 o >>> encode_SignatureBytes o.(cdr_core_signature).

Definition decode_CoreAssignmentDrainReceiptV1 : parser CoreAssignmentDrainReceiptV1 :=
  core_protocol_version ← dec_u16;
  handoff_version ← dec_u16;
  network_id ← dec_u8;
  context_manifest_id ← dec_array 32;
  assignment_id ← dec_array 32;
  gateway_drain_id ← dec_array 32;
  gateway_pubkey ← dec_array 32;
  core_handoff_pubkey ← dec_array 32;
  accepted_through_gateway_sequence ← dec_u64;
  receipt_sequence ← dec_u64;
  core_received_ms ← dec_u64;
  outcome ← dec_u8;
  reason_code ← dec_u16;
  core_signature ← decode_SignatureBytes;
  mret (mkCoreAssignmentDrainReceiptV1 core_protocol_version handoff_version network_id
         context_manifest_id assignment_id gateway_drain_id gateway_pubkey
         core_handoff_pubkey accepted_through_gateway_sequence receipt_sequence
         core_received_ms outcome reason_code core_signature).

Definition ok_CoreAssignmentDrainReceiptV1 (limits : DecodeLimits) (o : CoreAssignmentDrainReceiptV1) : Prop :=
  uint 16 o.(cdr_core_protocol_version) ∧
  uint 16 o.(cdr_handoff_version) ∧
  uint 8 o.(cdr_network_id) ∧
  arr 32 o.(cdr_context_manifest_id) ∧
  arr 32 o.(cdr_assignment_id) ∧
  arr 32 o.(cdr_gateway_drain_id) ∧
  arr 32 o.(cdr_gateway_pubkey) ∧
  arr 32 o.(cdr_core_handoff_pubkey) ∧
  uint 64 o.(cdr_accepted_through_gateway_sequence) ∧
  uint 64 o.(cdr_receipt_sequence) ∧
  uint 64 o.(cdr_core_received_ms) ∧
  uint 8 o.(cdr_outcome) ∧
  uint 16 o.(cdr_reason_code) ∧
  ok_sig limits o.(cdr_core_signature).

#[export] Instance encode_CoreAssignmentDrainReceiptV1_appends o : Appends (encode_CoreAssignmentDrainReceiptV1 o).
Proof. unfold encode_CoreAssignmentDrainReceiptV1, encode_unsigned_CoreAssignmentDrainReceiptV1. apply _. Qed.

Lemma reads_CoreAssignmentDrainReceiptV1 limits o :
  ok_CoreAssignmentDrainReceiptV1 limits o →
  reads limits decode_CoreAssignmentDrainReceiptV1 (encode_CoreAssignmentDrainReceiptV1 o) o.
Proof.
  unfold ok_CoreAssignmentDrainReceiptV1. intros Hok. destruct_and!.
  unfold decode_CoreAssignmentDrainReceiptV1, encode_CoreAssignmentDrainReceiptV1, encode_unsigned_CoreAssignmentDrainReceiptV1.
  solve_reads. by destruct o.
Qed.
Lemma accepts_CoreAssignmentDrainReceiptV1 limits :
  accepts limits decode_CoreAssignmentDrainReceiptV1
    (λ o bs, ok_CoreAssignmentDrainReceiptV1 limits o ∧ bs = encode_CoreAssignmentDrainReceiptV1 o []).
Proof.
  unfold decode_CoreAssignmentDrainReceiptV1. solve_accepts. split.
  - destruct_and?. repeat (split; [done|]). done.
  - unfold encode_CoreAssignmentDrainReceiptV1, encode_unsigned_CoreAssignmentDrainReceiptV1. by flatten_writers.
Qed.
#[export] Hint Resolve reads_CoreAssignmentDrainReceiptV1 : codec.
#[export] Hint Extern 1 (accepts _ decode_CoreAssignmentDrainReceiptV1 _) =>
  apply accepts_CoreAssignmentDrainReceiptV1 : codec.

#[export] Instance CoreAssignmentDrainReceiptV1_codec : Codec CoreAssignmentDrainReceiptV1 := {|
  encode := encode_CoreAssignmentDrainReceiptV1;
  decode := decode_CoreAssignmentDrainReceiptV1;
|}.
#[export] Instance CoreAssignmentDrainReceiptV1_codec_laws : CodecLaws CoreAssignmentDrainReceiptV1 := {|
  codec_ok := ok_CoreAssignmentDrainReceiptV1;
  encode_appends := encode_CoreAssignmentDrainReceiptV1_appends;
  decode_encode := reads_CoreAssignmentDrainReceiptV1;
  decode_sound := accepts_CoreAssignmentDrainReceiptV1;
|}.

(** The object with its signature blanked. *)
Definition strip_CoreAssignmentDrainReceiptV1 (o : CoreAssignmentDrainReceiptV1) : CoreAssignmentDrainReceiptV1 :=
  mkCoreAssignmentDrainReceiptV1 o.(cdr_core_protocol_version) o.(cdr_handoff_version)
    o.(cdr_network_id) o.(cdr_context_manifest_id) o.(cdr_assignment_id)
    o.(cdr_gateway_drain_id) o.(cdr_gateway_pubkey) o.(cdr_core_handoff_pubkey)
    o.(cdr_accepted_through_gateway_sequence) o.(cdr_receipt_sequence)
    o.(cdr_core_received_ms) o.(cdr_outcome) o.(cdr_reason_code) [].
#[export] Instance CoreAssignmentDrainReceiptV1_unsigned_laws : UnsignedLaws CoreAssignmentDrainReceiptV1.
Proof.
  refine {| strip_signature := strip_CoreAssignmentDrainReceiptV1; blank_signature := encode_SignatureBytes [] [] |}.
  - intros o. cbn [encode CoreAssignmentDrainReceiptV1_codec]. unfold encode_CoreAssignmentDrainReceiptV1.
    by rewrite wseq_nil by apply _.
  - intros limits o Hok. cbn [codec_ok CoreAssignmentDrainReceiptV1_codec_laws] in *.
    unfold ok_CoreAssignmentDrainReceiptV1 in *. blank_ok.
  - by vm_compute.
Defined.
(** ** [GatewayCaptureCursorV1] *)

Record GatewayCaptureCursorV1 := mkGatewayCaptureCursorV1 {
  cur_assignment_id : Hash256;
  cur_next_gateway_sequence : Z;
  cur_last_envelope_id : Hash256;
  cur_last_gateway_received_ms : Z;
  cur_drained_through_sequence : option Z;
}.

#[export] Instance GatewayCaptureCursorV1_eq_dec : EqDecision GatewayCaptureCursorV1.
Proof. solve_decision. Defined.

Definition encode_GatewayCaptureCursorV1 (o : GatewayCaptureCursorV1) : Writer :=
  enc_fixed o.(cur_assignment_id) >>>
  enc_u64 o.(cur_next_gateway_sequence) >>>
  enc_fixed o.(cur_last_envelope_id) >>>
  enc_u64 o.(cur_last_gateway_received_ms) >>>
  encode_option o.(cur_drained_through_sequence) enc_u64.

Definition decode_GatewayCaptureCursorV1 : parser GatewayCaptureCursorV1 :=
  assignment_id ← dec_array 32;
  next_gateway_sequence ← dec_u64;
  last_envelope_id ← dec_array 32;
  last_gateway_received_ms ← dec_u64;
  drained_through_sequence ← dec_option dec_u64;
  mret (mkGatewayCaptureCursorV1 assignment_id next_gateway_sequence last_envelope_id
         last_gateway_received_ms drained_through_sequence).

Definition ok_GatewayCaptureCursorV1 (limits : DecodeLimits) (o : GatewayCaptureCursorV1) : Prop :=
  arr 32 o.(cur_assignment_id) ∧
  uint 64 o.(cur_next_gateway_sequence) ∧
  arr 32 o.(cur_last_envelope_id) ∧
  uint 64 o.(cur_last_gateway_received_ms) ∧
  ok_option (uint 64) o.(cur_drained_through_sequence).

#[export] Instance encode_GatewayCaptureCursorV1_appends o : Appends (encode_GatewayCaptureCursorV1 o).
Proof. unfold encode_GatewayCaptureCursorV1. apply _. Qed.

Lemma reads_GatewayCaptureCursorV1 limits o :
  ok_GatewayCaptureCursorV1 limits o →
  reads limits decode_GatewayCaptureCursorV1 (encode_GatewayCaptureCursorV1 o) o.
Proof.
  unfold ok_GatewayCaptureCursorV1. intros Hok. destruct_and!.
  unfold decode_GatewayCaptureCursorV1, encode_GatewayCaptureCursorV1.
  solve_reads. by destruct o.
Qed.
Lemma accepts_GatewayCaptureCursorV1 limits :
  accepts limits decode_GatewayCaptureCursorV1
    (λ o bs, ok_GatewayCaptureCursorV1 limits o ∧ bs = encode_GatewayCaptureCursorV1 o []).
Proof.
  unfold decode_GatewayCaptureCursorV1. solve_accepts. split.
  - destruct_and?. repeat (split; [done|]). done.
  - unfold encode_GatewayCaptureCursorV1. by flatten_writers.
Qed.
#[export] Instance GatewayCaptureCursorV1_codec : Codec GatewayCaptureCursorV1 := {|
  encode := encode_GatewayCaptureCursorV1;
  decode := decode_GatewayCaptureCursorV1;
|}.
#[export] Instance GatewayCaptureCursorV1_codec_laws : CodecLaws GatewayCaptureCursorV1 := {|
  codec_ok := ok_GatewayCaptureCursorV1;
  encode_appends := encode_GatewayCaptureCursorV1_appends;
  decode_encode := reads_GatewayCaptureCursorV1;
  decode_sound := accepts_GatewayCaptureCursorV1;
|}.
