(* ===== verification/Handoff.v ===== *)
(** * Gateway-to-Core handoff (crates/meshmine-handoff/src/lib.rs)

    The checks on handoff objects, the per-assignment capture cursor, and the
    durable operations: install a context manifest, authorize the first
    assignment of a gateway, record a capture, drain an assignment, move to the
    next one. Each durable operation is a client of the journal, among other
    writers. The theorems are rely-guarantee: an invariant of the store (dense
    captures, one active assignment per gateway) and an order between stores (no
    rollback, drained is final) that every operation keeps and may assume of
    the others. *)

From S2P Require Import Prelude Codec Hash Types Objects Storage Journal Crypto HandoffObjects.

Definition GATEWAY_HANDOFF_V1 : Z := 1.
Definition GATEWAY_OBSERVATION_CORE_RECEIPT_TIME : Z := 1.
Definition GATEWAY_OBSERVATION_DELEGATED_SIGNED_TIME_V1 : Z := 2.
Definition MAX_GATEWAY_CLOCK_SKEW_MS : Z := 5 * 60 * 1000.

Definition MAX_HANDOFF_FRAME_BYTES : Z := 1024 * 1024.
Definition MAX_HANDOFF_IN_FLIGHT : Z := 4096.
Definition CAPTURE_OUTCOME_ACCEPTED : Z := 1.
Definition CAPTURE_OUTCOME_REJECTED : Z := 2.
Definition CAPTURE_OUTCOME_GRACE_NONCREDIT : Z := 3.
Definition CAPTURE_OUTCOME_DUPLICATE : Z := 4.
Definition DRAIN_OUTCOME_COMPLETE : Z := 1.
Definition DRAIN_OUTCOME_REJECTED : Z := 2.
Definition GATEWAY_CAPTURE_CURSOR_NAMESPACE : bytes := str "gateway-capture-cursor/v1".
Definition GATEWAY_CONTEXT_HEAD_NAMESPACE : bytes := str "gateway-context-head/v1".
Definition GATEWAY_ASSIGNMENT_HEAD_NAMESPACE : bytes := str "gateway-assignment-head/v1".
Definition GATEWAY_ASSIGNMENT_STATE_NAMESPACE : bytes := str "gateway-assignment-state/v1".
Definition ASSIGNMENT_STATE_ACTIVE : Z := 1.
Definition ASSIGNMENT_STATE_DRAINED : Z := 2.

(** [[0; 32]] *)
Definition zero_hash : Hash256 := replicate 32 x00.

Inductive HandoffError :=
| HE_Context
| HE_Linkage (what : string)
| HE_Signature
| HE_Sequence
| HE_ObservationTime
| HE_Disposition
| CaptureAfterDrain
| DrainBoundary
| HE_Durable (e : DurableInvariantError)
| HE_Cursor.

Inductive CaptureSequenceDecision := New | ExactRetry.
#[export] Instance CaptureSequenceDecision_eq_dec : EqDecision CaptureSequenceDecision.
Proof. solve_decision. Defined.

(** ** The capture cursor *)

Section Cursor.
Context `{Digests}.

Definition cursor_new (assignment_id : Hash256) : GatewayCaptureCursorV1 :=
  mkGatewayCaptureCursorV1 assignment_id 1 zero_hash 0 None.

Definition classify (cursor : GatewayCaptureCursorV1) (envelope : GatewayCaptureEnvelopeV1) :
    result HandoffError CaptureSequenceDecision :=
  if bool_decide (envelope.(gce_assignment_id) ≠ cursor.(cur_assignment_id))
  then Err (HE_Linkage "cursor assignment")
  else
    let envelope_id := object_id envelope in
    if envelope.(gce_gateway_sequence) =? cursor.(cur_next_gateway_sequence) then
      if bool_decide (is_Some cursor.(cur_drained_through_sequence)) then Err CaptureAfterDrain
      else if (1 <? cursor.(cur_next_gateway_sequence))
              && (envelope.(gce_gateway_received_ms) <? cursor.(cur_last_gateway_received_ms))
      then Err HE_ObservationTime
      else Ok New
    else if bool_decide (checked_add 64 envelope.(gce_gateway_sequence) 1 =
                         Some cursor.(cur_next_gateway_sequence))
            && bool_decide (envelope_id = cursor.(cur_last_envelope_id))
    then Ok ExactRetry
    else Err HE_Sequence.

Definition advance (cursor : GatewayCaptureCursorV1) (envelope : GatewayCaptureEnvelopeV1) :
    result HandoffError GatewayCaptureCursorV1 :=
  decision ← classify cursor envelope;
  match decision with
  | New =>
      next ← ok_or (checked_add 64 cursor.(cur_next_gateway_sequence) 1) HE_Sequence;
      Ok (mkGatewayCaptureCursorV1 cursor.(cur_assignment_id) next (object_id envelope)
            envelope.(gce_gateway_received_ms) cursor.(cur_drained_through_sequence))
  | ExactRetry => Ok cursor
  end.

Definition apply_drain (cursor : GatewayCaptureCursorV1) (drain : GatewayAssignmentDrainV1) :
    result HandoffError GatewayCaptureCursorV1 :=
  if bool_decide (drain.(gad_assignment_id) ≠ cursor.(cur_assignment_id))
     || bool_decide (checked_add 64 drain.(gad_last_gateway_sequence) 1 ≠
                     Some cursor.(cur_next_gateway_sequence))
     || ((drain.(gad_last_gateway_sequence) =? 0)
         && bool_decide (drain.(gad_final_capture_envelope_id) ≠ zero_hash))
     || (negb (drain.(gad_last_gateway_sequence) =? 0)
         && bool_decide (drain.(gad_final_capture_envelope_id) ≠ cursor.(cur_last_envelope_id)))
  then Err DrainBoundary
  else
    match cursor.(cur_drained_through_sequence) with
    | None =>
        Ok (mkGatewayCaptureCursorV1 cursor.(cur_assignment_id) cursor.(cur_next_gateway_sequence)
              cursor.(cur_last_envelope_id) cursor.(cur_last_gateway_received_ms)
              (Some drain.(gad_last_gateway_sequence)))
    | Some existing =>
        if existing =? drain.(gad_last_gateway_sequence) then Ok cursor else Err DrainBoundary
    end.
End Cursor.

(** ** Checks on one object *)

Section Validation.
Context `{Digests} `{Ed25519}.

Definition version_context (core_protocol_version handoff_version network_id expected_network_id : Z)
    (gateway_pubkey core_handoff_pubkey : bytes) : result HandoffError unit :=
  if negb (core_protocol_version =? CORE_V2)
     || negb (handoff_version =? GATEWAY_HANDOFF_V1)
     || negb (network_id =? expected_network_id)
     || bool_decide (gateway_pubkey = zero_hash)
     || bool_decide (core_handoff_pubkey = zero_hash)
     || bool_decide (gateway_pubkey = core_handoff_pubkey)
  then Err HE_Context
  else Ok tt.

(** [verify_object(..).map_err(|_| HandoffError::Signature)] *)
Definition verify_signature {A} `{UnsignedObject A} (key : bytes) (signature : SignatureBytes)
    (network_id : Z) (object : A) : result HandoffError unit :=
  map_err (λ _, HE_Signature) (verify_object key ED25519_SUITE signature network_id object).

(** [matches!(policy, CORE_RECEIPT_TIME | DELEGATED_SIGNED_TIME_V1)] *)
Definition known_policy (policy : Z) : bool :=
  (policy =? GATEWAY_OBSERVATION_CORE_RECEIPT_TIME)
  || (policy =? GATEWAY_OBSERVATION_DELEGATED_SIGNED_TIME_V1).

Definition validate_gateway_assignment (manifest : GatewayContextManifestV1)
    (assignment : GatewayAssignmentV1) : result HandoffError unit :=
  _ ← version_context assignment.(ga_core_protocol_version) assignment.(ga_handoff_version)
        assignment.(ga_network_id) manifest.(gcm_network_id) assignment.(ga_gateway_pubkey)
        assignment.(ga_core_handoff_pubkey);
  if (assignment.(ga_assignment_sequence) =? 0)
     || bool_decide (manifest.(gcm_operator_pubkey) ≠ assignment.(ga_operator_pubkey))
     || bool_decide (manifest.(gcm_gateway_pubkey) ≠ assignment.(ga_gateway_pubkey))
     || bool_decide (manifest.(gcm_core_handoff_pubkey) ≠ assignment.(ga_core_handoff_pubkey))
     || (assignment.(ga_nonce_stride) =? 0)
     || (assignment.(ga_nonce_end) <? assignment.(ga_nonce_start))
     || bytes_ltb assignment.(ga_extra_nonce2_end_be) assignment.(ga_extra_nonce2_start_be)
     || negb (known_policy assignment.(ga_observation_policy))
     || (MAX_GATEWAY_CLOCK_SKEW_MS <? assignment.(ga_maximum_clock_skew_ms))
     || ((assignment.(ga_observation_policy) =? GATEWAY_OBSERVATION_CORE_RECEIPT_TIME)
         && negb (assignment.(ga_maximum_clock_skew_ms) =? 0))
  then Err HE_Context
  else verify_signature assignment.(ga_operator_pubkey) assignment.(ga_operator_signature)
         assignment.(ga_network_id) assignment.

Definition validate_context_manifest (manifest : GatewayContextManifestV1) (now_ms : Z) :
    result HandoffError unit :=
  _ ← version_context manifest.(gcm_core_protocol_version) manifest.(gcm_handoff_version)
        manifest.(gcm_network_id) manifest.(gcm_network_id) manifest.(gcm_gateway_pubkey)
        manifest.(gcm_core_handoff_pubkey);
  if (manifest.(gcm_context_sequence) =? 0)
     || (now_ms <? manifest.(gcm_valid_from_ms))
     || (manifest.(gcm_valid_until_ms) <? now_ms)
     || (manifest.(gcm_maximum_frame_bytes) =? 0)
     || (MAX_HANDOFF_FRAME_BYTES <? manifest.(gcm_maximum_frame_bytes))
     || (manifest.(gcm_maximum_in_flight) =? 0)
     || (MAX_HANDOFF_IN_FLIGHT <? manifest.(gcm_maximum_in_flight))
  then Err HE_Context
  else verify_signature manifest.(gcm_operator_pubkey) manifest.(gcm_operator_signature)
         manifest.(gcm_network_id) manifest.

(** [a.checked_rem(b)] *)
Definition checked_rem (a b : Z) : option Z := if b =? 0 then None else Some (a mod b).

Definition validate_capture_envelope (manifest : GatewayContextManifestV1)
    (assignment : GatewayAssignmentV1) (envelope : GatewayCaptureEnvelopeV1)
    (core_received_ms : Z) : result HandoffError Z :=
  _ ← validate_gateway_assignment manifest assignment;
  _ ← version_context envelope.(gce_core_protocol_version) envelope.(gce_handoff_version)
        envelope.(gce_network_id) assignment.(ga_network_id) envelope.(gce_gateway_pubkey)
        envelope.(gce_core_handoff_pubkey);
  if bool_decide (object_id manifest ≠ envelope.(gce_context_manifest_id))
     || negb (manifest.(gcm_network_id) =? envelope.(gce_network_id))
     || bool_decide (manifest.(gcm_operator_pubkey) ≠ assignment.(ga_operator_pubkey))
     || bool_decide (manifest.(gcm_gateway_pubkey) ≠ envelope.(gce_gateway_pubkey))
     || bool_decide (manifest.(gcm_core_handoff_pubkey) ≠ envelope.(gce_core_handoff_pubkey))
     || bool_decide (assignment.(ga_gateway_pubkey) ≠ envelope.(gce_gateway_pubkey))
     || bool_decide (assignment.(ga_core_handoff_pubkey) ≠ envelope.(gce_core_handoff_pubkey))
     || bool_decide (object_id assignment ≠ envelope.(gce_assignment_id))
     || bool_decide (assignment.(ga_session_id) ≠ envelope.(gce_session_id))
     || negb (assignment.(ga_ntime) =? envelope.(gce_ntime))
     || negb (accepts_extra_nonce assignment envelope.(gce_extra_nonce))
     || (envelope.(gce_nonce) <? assignment.(ga_nonce_start))
     || (assignment.(ga_nonce_end) <? envelope.(gce_nonce))
     || bool_decide (checked_rem (envelope.(gce_nonce) - assignment.(ga_nonce_start))
                       assignment.(ga_nonce_stride) ≠ Some 0)
  then Err (HE_Linkage "capture envelope")
  else if envelope.(gce_gateway_sequence) =? 0 then Err HE_Sequence
  else
    _ ← verify_signature envelope.(gce_gateway_pubkey) envelope.(gce_gateway_signature)
          envelope.(gce_network_id) envelope;
    if (assignment.(ga_observation_policy) =? GATEWAY_OBSERVATION_CORE_RECEIPT_TIME)
       && (assignment.(ga_maximum_clock_skew_ms) =? 0)
    then Ok core_received_ms
    else if (assignment.(ga_observation_policy) =? GATEWAY_OBSERVATION_DELEGATED_SIGNED_TIME_V1)
            && (0 <? assignment.(ga_maximum_clock_skew_ms))
            && (assignment.(ga_maximum_clock_skew_ms) <=? MAX_GATEWAY_CLOCK_SKEW_MS)
            && (Z.abs (envelope.(gce_gateway_received_ms) - core_received_ms)
                <=? assignment.(ga_maximum_clock_skew_ms))
    then Ok envelope.(gce_gateway_received_ms)
    else Err HE_ObservationTime.

Definition validate_capture_receipt (envelope : GatewayCaptureEnvelopeV1)
    (receipt : GatewayCaptureReceiptV1) : result HandoffError unit :=
  _ ← version_context receipt.(gcr_core_protocol_version) receipt.(gcr_handoff_version)
        receipt.(gcr_network_id) envelope.(gce_network_id) receipt.(gcr_gateway_pubkey)
        receipt.(gcr_core_handoff_pubkey);
  if bool_decide (receipt.(gcr_context_manifest_id) ≠ envelope.(gce_context_manifest_id))
     || bool_decide (receipt.(gcr_assignment_id) ≠ envelope.(gce_assignment_id))
     || bool_decide (receipt.(gcr_capture_envelope_id) ≠ object_id envelope)
     || bool_decide (receipt.(gcr_gateway_pubkey) ≠ envelope.(gce_gateway_pubkey))
     || bool_decide (receipt.(gcr_core_handoff_pubkey) ≠ envelope.(gce_core_handoff_pubkey))
     || (receipt.(gcr_receipt_sequence) =? 0)
     || negb (receipt.(gcr_receipt_sequence) =? envelope.(gce_gateway_sequence))
  then Err (HE_Linkage "capture receipt")
  else
    let accepted := receipt.(gcr_outcome) =? CAPTURE_OUTCOME_ACCEPTED in
    if negb ((receipt.(gcr_outcome) =? CAPTURE_OUTCOME_ACCEPTED)
             || (receipt.(gcr_outcome) =? CAPTURE_OUTCOME_REJECTED)
             || (receipt.(gcr_outcome) =? CAPTURE_OUTCOME_GRACE_NONCREDIT)
             || (receipt.(gcr_outcome) =? CAPTURE_OUTCOME_DUPLICATE))
       || eqb accepted (bool_decide (receipt.(gcr_accepted_share_id) = zero_hash))
    then Err HE_Disposition
    else verify_signature receipt.(gcr_core_handoff_pubkey) receipt.(gcr_core_signature)
           receipt.(gcr_network_id) receipt.

Definition validate_transition (manifest : GatewayContextManifestV1)
    (transition : GatewayAssignmentTransitionV1) : result HandoffError unit :=
  _ ← validate_context_manifest manifest transition.(gat_transition_ms);
  _ ← version_context transition.(gat_core_protocol_version) transition.(gat_handoff_version)
        transition.(gat_network_id) manifest.(gcm_network_id) transition.(gat_gateway_pubkey)
        transition.(gat_core_handoff_pubkey);
  if bool_decide (transition.(gat_context_manifest_id) ≠ object_id manifest)
     || bool_decide (transition.(gat_gateway_pubkey) ≠ manifest.(gcm_gateway_pubkey))
     || bool_decide (transition.(gat_core_handoff_pubkey) ≠ manifest.(gcm_core_handoff_pubkey))
     || (transition.(gat_transition_sequence) =? 0)
     || bool_decide (transition.(gat_previous_assignment_id) = zero_hash)
     || bool_decide (transition.(gat_next_assignment_id) = zero_hash)
     || bool_decide (transition.(gat_previous_assignment_id) = transition.(gat_next_assignment_id))
  then Err (HE_Linkage "assignment transition")
  else verify_signature transition.(gat_gateway_pubkey) transition.(gat_gateway_signature)
         transition.(gat_network_id) transition.

Definition validate_gateway_drain (manifest : GatewayContextManifestV1)
    (drain : GatewayAssignmentDrainV1) : result HandoffError unit :=
  _ ← validate_context_manifest manifest drain.(gad_drained_ms);
  _ ← version_context drain.(gad_core_protocol_version) drain.(gad_handoff_version)
        drain.(gad_network_id) manifest.(gcm_network_id) drain.(gad_gateway_pubkey)
        drain.(gad_core_handoff_pubkey);
  if bool_decide (drain.(gad_context_manifest_id) ≠ object_id manifest)
     || bool_decide (drain.(gad_gateway_pubkey) ≠ manifest.(gcm_gateway_pubkey))
     || bool_decide (drain.(gad_core_handoff_pubkey) ≠ manifest.(gcm_core_handoff_pubkey))
     || bool_decide (drain.(gad_assignment_id) = zero_hash)
     || ((drain.(gad_last_gateway_sequence) =? 0)
         && bool_decide (drain.(gad_final_capture_envelope_id) ≠ zero_hash))
     || (negb (drain.(gad_last_gateway_sequence) =? 0)
         && bool_decide (drain.(gad_final_capture_envelope_id) = zero_hash))
  then Err DrainBoundary
  else verify_signature drain.(gad_gateway_pubkey) drain.(gad_gateway_signature)
         drain.(gad_network_id) drain.

Definition validate_core_drain_receipt (manifest : GatewayContextManifestV1)
    (drain : GatewayAssignmentDrainV1) (receipt : CoreAssignmentDrainReceiptV1) :
    result HandoffError unit :=
  _ ← validate_gateway_drain manifest drain;
  _ ← version_context receipt.(cdr_core_protocol_version) receipt.(cdr_handoff_version)
        receipt.(cdr_network_id) drain.(gad_network_id) receipt.(cdr_gateway_pubkey)
        receipt.(cdr_core_handoff_pubkey);
  if bool_decide (receipt.(cdr_context_manifest_id) ≠ drain.(gad_context_manifest_id))
     || bool_decide (receipt.(cdr_assignment_id) ≠ drain.(gad_assignment_id))
     || bool_decide (receipt.(cdr_gateway_drain_id) ≠ object_id drain)
     || bool_decide (receipt.(cdr_gateway_pubkey) ≠ drain.(gad_gateway_pubkey))
     || bool_decide (receipt.(cdr_core_handoff_pubkey) ≠ drain.(gad_core_handoff_pubkey))
     || (receipt.(cdr_receipt_sequence) =? 0)
     || negb (receipt.(cdr_accepted_through_gateway_sequence) =? drain.(gad_last_gateway_sequence))
     || negb ((receipt.(cdr_outcome) =? DRAIN_OUTCOME_COMPLETE)
              || (receipt.(cdr_outcome) =? DRAIN_OUTCOME_REJECTED))
  then Err DrainBoundary
  else verify_signature receipt.(cdr_core_handoff_pubkey) receipt.(cdr_core_signature)
         receipt.(cdr_network_id) receipt.
End Validation.

(** ** Sequence heads and assignment states *)

Record SequenceHeadV1 := mkSequenceHeadV1 {
  head_network_id : Z;
  head_sequence : Z;
  head_object_id : Hash256;
}.

Definition MMCX : bytes := str "MMCX".
Definition MMAH : bytes := str "MMAH".

(** [{network_id:02x}] *)
Definition format_02x (z : Z) : bytes := [nibble_char (z / 16); nibble_char (z mod 16)].

Definition identity_key `{Hex} (network_id : Z) (gateway_pubkey : bytes) : bytes :=
  format_02x network_id ++ str "-" ++ hex_encode gateway_pubkey.

Definition encode_sequence_head (magic : bytes) (head : SequenceHeadV1) : bytes :=
  into_bytes (enc_fixed magic >>> enc_u8 head.(head_network_id) >>>
              enc_u64 head.(head_sequence) >>> enc_fixed head.(head_object_id)).

(** [decoder.read().map_err(|_| HandoffError::Cursor)?] *)
Definition read_cursor {A} (p : parser A) (d : Decoder) : result HandoffError (A * Decoder) :=
  map_err (λ _, HE_Cursor) (p d).

Definition head_limits : DecodeLimits := mkDecodeLimits 64 0.
Definition decode_sequence_head (expected_magic : bytes) (expected_network_id : Z) (bs : bytes) :
    result HandoffError SequenceHeadV1 :=
  decoder ← map_err (λ _, HE_Cursor) (Decoder_new bs head_limits);
  '(magic, decoder) ← read_cursor (dec_array 4) decoder;
  if bool_decide (magic ≠ expected_magic) then Err HE_Cursor
  else
    '(network_id, decoder) ← read_cursor dec_u8 decoder;
    '(sequence, decoder) ← read_cursor dec_u64 decoder;
    '(object_id, decoder) ← read_cursor (dec_array 32) decoder;
    let head := mkSequenceHeadV1 network_id sequence object_id in
    _ ← map_err (λ _, HE_Cursor) (dec_finish decoder);
    if negb (head.(head_network_id) =? expected_network_id) || (head.(head_sequence) =? 0)
       || bool_decide (head.(head_object_id) = zero_hash)
    then Err HE_Cursor
    else Ok head.

Definition assignment_state_value (network_id : Z) (assignment_id : Hash256) (status : Z) : bytes :=
  into_bytes (enc_fixed (str "MMAS") >>> enc_u8 network_id >>> enc_fixed assignment_id >>>
              enc_u8 status).

Definition cursor_limits : DecodeLimits := mkDecodeLimits 128 0.
Definition assignment_limits : DecodeLimits := mkDecodeLimits 4096 0.

(** ** Durable operations *)

Section Durable.
Context `{Digests} `{Ed25519} `{!Hex} {S : Type} `{!DurableStore S} (env : nat → S → S).

(** A client of the store that fails with a [HandoffError]. *)
Definition hclient (A : Type) : Type := nat * S → result HandoffError A * (nat * S).
#[global] Instance hclient_ret : MRet hclient := λ A a w, (Ok a, w).
#[global] Instance hclient_bind : MBind hclient := λ A B f m w,
  match m w with
  | (Ok a, w') => f a w'
  | (Err e, w') => (Err e, w')
  end.
Definition hlift {A} (r : result HandoffError A) : hclient A := λ w, (r, w).
(** [#[from] DurableInvariantError] *)
Definition durable {A} (m : client (S := S) A) : hclient A := λ w,
  let '(r, w') := m w in (map_err HE_Durable r, w').
(** [store.get(..).map_err(DurableInvariantError::from)?] *)
Definition hget (namespace key : bytes) : hclient (option bytes) :=
  durable (store_call env (get namespace key)).

Definition exact_journal_object {T} `{Codec T} (kind : ProtocolRecordKind) (object_id : Hash256)
    (expected : T) : hclient unit :=
  stored ← durable (load env kind object_id);
  hlift (if bool_decide (stored ≠ Some (to_canonical_bytes expected))
         then Err (HE_Linkage "durable handoff authorization") else Ok tt).

(** [BatchCondition::equals], [BatchOperation::put] *)
Definition condition_equals (namespace key value : bytes) : BatchCondition :=
  mkBatchCondition namespace key (Some value).

(** The head that a new manifest must follow. *)
Definition check_manifest_head (manifest : GatewayContextManifestV1) (existing : option bytes) :
    result HandoffError unit :=
  match existing with
  | None =>
      if negb (manifest.(gcm_context_sequence) =? 1)
         || bool_decide (manifest.(gcm_previous_manifest_id) ≠ zero_hash)
      then Err HE_Sequence else Ok tt
  | Some bs =>
      current ← decode_sequence_head MMCX manifest.(gcm_network_id) bs;
      if bool_decide (current.(head_object_id) = object_id manifest) then
        if negb (current.(head_sequence) =? manifest.(gcm_context_sequence))
        then Err HE_Sequence else Ok tt
      else
        next ← ok_or (checked_add 64 current.(head_sequence) 1) HE_Sequence;
        if negb (manifest.(gcm_context_sequence) =? next)
           || bool_decide (manifest.(gcm_previous_manifest_id) ≠ current.(head_object_id))
        then Err HE_Sequence else Ok tt
  end.

Definition persist_gateway_context_manifest (manifest : GatewayContextManifestV1) (now_ms : Z) :
    hclient JournalBatchOutcome :=
  _ ← hlift (validate_context_manifest manifest now_ms);
  let key := identity_key manifest.(gcm_network_id) manifest.(gcm_gateway_pubkey) in
  existing ← hget GATEWAY_CONTEXT_HEAD_NAMESPACE key;
  let manifest_id := object_id manifest in
  _ ← hlift (check_manifest_head manifest existing);
  durable (persist_records_with_conditions_and_batch env
    [mkJournalBatchRecord KindGatewayContextManifest manifest_id (to_canonical_bytes manifest)]
    [mkBatchCondition GATEWAY_CONTEXT_HEAD_NAMESPACE key existing]
    [BatchPut GATEWAY_CONTEXT_HEAD_NAMESPACE key
       (encode_sequence_head MMCX
          (mkSequenceHeadV1 manifest.(gcm_network_id) manifest.(gcm_context_sequence) manifest_id))]).

Definition current_manifest_head_bytes (manifest : GatewayContextManifestV1) :
    hclient (bytes * bytes) :=
  let key := identity_key manifest.(gcm_network_id) manifest.(gcm_gateway_pubkey) in
  existing ← hget GATEWAY_CONTEXT_HEAD_NAMESPACE key;
  bs ← hlift (ok_or existing (HE_Linkage "context manifest head"));
  head ← hlift (decode_sequence_head MMCX manifest.(gcm_network_id) bs);
  if negb (head.(head_sequence) =? manifest.(gcm_context_sequence))
     || bool_decide (head.(head_object_id) ≠ object_id manifest)
  then hlift (Err HE_Sequence)
  else
    _ ← exact_journal_object KindGatewayContextManifest (object_id manifest) manifest;
    mret (key, bs).

Definition current_assignment_head_bytes (assignment : GatewayAssignmentV1) :
    hclient (bytes * bytes) :=
  let key := identity_key assignment.(ga_network_id) assignment.(ga_gateway_pubkey) in
  existing ← hget GATEWAY_ASSIGNMENT_HEAD_NAMESPACE key;
  bs ← hlift (ok_or existing (HE_Linkage "gateway assignment head"));
  head ← hlift (decode_sequence_head MMAH assignment.(ga_network_id) bs);
  if negb (head.(head_sequence) =? assignment.(ga_assignment_sequence))
     || bool_decide (head.(head_object_id) ≠ object_id assignment)
  then hlift (Err HE_Sequence)
  else mret (key, bs).

(** The head under which a first assignment is installed or repeated. *)
Definition check_first_head (assignment : GatewayAssignmentV1) (existing_head : option bytes) :
    result HandoffError unit :=
  match existing_head with
  | None =>
      if negb (assignment.(ga_assignment_sequence) =? 1) then Err HE_Sequence else Ok tt
  | Some bs =>
      current ← decode_sequence_head MMAH assignment.(ga_network_id) bs;
      if bool_decide (current.(head_object_id) ≠ object_id assignment)
         || negb (current.(head_sequence) =? assignment.(ga_assignment_sequence))
      then Err HE_Sequence else Ok tt
  end.

Definition assignment_head (assignment : GatewayAssignmentV1) : SequenceHeadV1 :=
  mkSequenceHeadV1 assignment.(ga_network_id) assignment.(ga_assignment_sequence)
    (object_id assignment).

Definition persist_gateway_assignment_authorization (manifest : GatewayContextManifestV1)
    (assignment : GatewayAssignmentV1) : hclient JournalBatchOutcome :=
  _ ← hlift (validate_gateway_assignment manifest assignment);
  '(context_key, context_head) ← current_manifest_head_bytes manifest;
  let head_key := identity_key assignment.(ga_network_id) assignment.(ga_gateway_pubkey) in
  existing_head ← hget GATEWAY_ASSIGNMENT_HEAD_NAMESPACE head_key;
  let assignment_id := object_id assignment in
  _ ← hlift (check_first_head assignment existing_head);
  let state_key := hex_encode assignment_id in
  let active :=
    assignment_state_value assignment.(ga_network_id) assignment_id ASSIGNMENT_STATE_ACTIVE in
  existing_state ← hget GATEWAY_ASSIGNMENT_STATE_NAMESPACE state_key;
  if match existing_state with
     | Some value => bool_decide (value ≠ active)
     | None => false
     end
  then hlift (Err CaptureAfterDrain)
  else
    durable (persist_records_with_conditions_and_batch env
      [mkJournalBatchRecord KindGatewayAssignment assignment_id (to_canonical_bytes assignment)]
      [condition_equals GATEWAY_CONTEXT_HEAD_NAMESPACE context_key context_head;
       mkBatchCondition GATEWAY_ASSIGNMENT_HEAD_NAMESPACE head_key existing_head;
       mkBatchCondition GATEWAY_ASSIGNMENT_STATE_NAMESPACE state_key existing_state]
      [BatchPut GATEWAY_ASSIGNMENT_HEAD_NAMESPACE head_key
         (encode_sequence_head MMAH (assignment_head assignment));
       BatchPut GATEWAY_ASSIGNMENT_STATE_NAMESPACE state_key active]).

Record PreparedCaptureDisposition := mkPreparedCaptureDisposition {
  pcd_records : list JournalBatchRecord;
  pcd_conditions : list BatchCondition;
  pcd_operations : list BatchOperation;
  pcd_sequence_decision : CaptureSequenceDecision;
}.

(** The stored cursor of an assignment, or a fresh one. *)
Definition load_cursor (assignment_id : Hash256) (existing_cursor : option bytes) :
    result HandoffError GatewayCaptureCursorV1 :=
  match existing_cursor with
  | None => Ok (cursor_new assignment_id)
  | Some bs => map_err (λ _, HE_Cursor) (from_canonical_bytes bs cursor_limits)
  end.

Definition malformed_cursor (assignment_id : Hash256) (cursor : GatewayCaptureCursorV1) : bool :=
  bool_decide (cursor.(cur_assignment_id) ≠ assignment_id)
  || (cursor.(cur_next_gateway_sequence) =? 0)
  || ((cursor.(cur_next_gateway_sequence) =? 1)
      && (bool_decide (cursor.(cur_last_envelope_id) ≠ zero_hash)
          || negb (cursor.(cur_last_gateway_received_ms) =? 0)))
  || ((1 <? cursor.(cur_next_gateway_sequence))
      && bool_decide (cursor.(cur_last_envelope_id) = zero_hash))
  || match cursor.(cur_drained_through_sequence) with
     | Some sequence =>
         bool_decide (checked_add 64 sequence 1 ≠ Some cursor.(cur_next_gateway_sequence))
     | None => false
     end.

Definition capture_records (manifest : GatewayContextManifestV1) (assignment : GatewayAssignmentV1)
    (envelope : GatewayCaptureEnvelopeV1) (receipt : GatewayCaptureReceiptV1) :
    list JournalBatchRecord :=
  [mkJournalBatchRecord KindGatewayContextManifest (object_id manifest) (to_canonical_bytes manifest);
   mkJournalBatchRecord KindGatewayAssignment (object_id assignment) (to_canonical_bytes assignment);
   mkJournalBatchRecord KindGatewayCaptureEnvelope (object_id envelope) (to_canonical_bytes envelope);
   mkJournalBatchRecord KindGatewayCaptureReceipt (object_id envelope) (to_canonical_bytes receipt)].

Definition prepare_capture_disposition (manifest : GatewayContextManifestV1)
    (assignment : GatewayAssignmentV1) (envelope : GatewayCaptureEnvelopeV1)
    (receipt : GatewayCaptureReceiptV1) : hclient PreparedCaptureDisposition :=
  _ ← hlift (validate_context_manifest manifest receipt.(gcr_core_received_ms));
  _ ← hlift (validate_capture_envelope manifest assignment envelope receipt.(gcr_core_received_ms));
  _ ← hlift (validate_capture_receipt envelope receipt);
  _ ← exact_journal_object KindGatewayContextManifest (object_id manifest) manifest;
  _ ← exact_journal_object KindGatewayAssignment (object_id assignment) assignment;
  let records := capture_records manifest assignment envelope receipt in
  existing_envelope ← durable (load env KindGatewayCaptureEnvelope (object_id envelope));
  existing_receipt ← durable (load env KindGatewayCaptureReceipt (object_id envelope));
  if bool_decide (existing_envelope = Some (to_canonical_bytes envelope))
     && bool_decide (existing_receipt = Some (to_canonical_bytes receipt))
  then mret (mkPreparedCaptureDisposition records [] [] ExactRetry)
  else if bool_decide (is_Some existing_envelope) || bool_decide (is_Some existing_receipt)
  then hlift (Err (HE_Durable ImmutableConflict))
  else
    '(context_head_key, context_head) ← current_manifest_head_bytes manifest;
    '(assignment_head_key, assignment_head) ← current_assignment_head_bytes assignment;
    let assignment_state_key := hex_encode (object_id assignment) in
    let active_state :=
      assignment_state_value assignment.(ga_network_id) (object_id assignment)
        ASSIGNMENT_STATE_ACTIVE in
    state ← hget GATEWAY_ASSIGNMENT_STATE_NAMESPACE assignment_state_key;
    if bool_decide (state ≠ Some active_state) then hlift (Err CaptureAfterDrain)
    else
      let cursor_key := hex_encode (object_id assignment) in
      existing_cursor ← hget GATEWAY_CAPTURE_CURSOR_NAMESPACE cursor_key;
      cursor ← hlift (load_cursor (object_id assignment) existing_cursor);
      if malformed_cursor (object_id assignment) cursor then hlift (Err HE_Cursor)
      else
        sequence_decision ← hlift (classify cursor envelope);
        cursor ← hlift (advance cursor envelope);
        mret (mkPreparedCaptureDisposition records
          [condition_equals GATEWAY_CONTEXT_HEAD_NAMESPACE context_head_key context_head;
           condition_equals GATEWAY_ASSIGNMENT_HEAD_NAMESPACE assignment_head_key assignment_head;
           condition_equals GATEWAY_ASSIGNMENT_STATE_NAMESPACE assignment_state_key active_state;
           mkBatchCondition GATEWAY_CAPTURE_CURSOR_NAMESPACE cursor_key existing_cursor]
          [BatchPut GATEWAY_CAPTURE_CURSOR_NAMESPACE cursor_key (to_canonical_bytes cursor)]
          sequence_decision).

Definition persist_noncredit_capture_disposition (manifest : GatewayContextManifestV1)
    (assignment : GatewayAssignmentV1) (envelope : GatewayCaptureEnvelopeV1)
    (receipt : GatewayCaptureReceiptV1) : hclient JournalBatchOutcome :=
  if receipt.(gcr_outcome) =? CAPTURE_OUTCOME_ACCEPTED then hlift (Err HE_Disposition)
  else
    prepared ← prepare_capture_disposition manifest assignment envelope receipt;
    durable (persist_records_with_conditions_and_batch env prepared.(pcd_records)
      prepared.(pcd_conditions) prepared.(pcd_operations)).

Definition load_gateway_assignment (assignment_id : Hash256) : hclient GatewayAssignmentV1 :=
  stored ← durable (load env KindGatewayAssignment assignment_id);
  payload ← hlift (ok_or stored (HE_Linkage "durable gateway assignment"));
  assignment ← hlift (map_err (λ _, HE_Linkage "durable gateway assignment")
    (from_canonical_bytes (A := GatewayAssignmentV1) payload assignment_limits));
  if bool_decide (object_id assignment ≠ assignment_id)
     || bool_decide (to_canonical_bytes assignment ≠ payload)
  then hlift (Err (HE_Linkage "durable gateway assignment"))
  else mret assignment.

Definition persist_gateway_assignment_drain (manifest : GatewayContextManifestV1)
    (drain : GatewayAssignmentDrainV1) : hclient JournalBatchOutcome :=
  _ ← hlift (validate_gateway_drain manifest drain);
  _ ← exact_journal_object KindGatewayContextManifest (object_id manifest) manifest;
  assignment ← load_gateway_assignment drain.(gad_assignment_id);
  _ ← hlift (validate_gateway_assignment manifest assignment);
  let state_key := hex_encode drain.(gad_assignment_id) in
  let active :=
    assignment_state_value drain.(gad_network_id) drain.(gad_assignment_id)
      ASSIGNMENT_STATE_ACTIVE in
  let drained :=
    assignment_state_value drain.(gad_network_id) drain.(gad_assignment_id)
      ASSIGNMENT_STATE_DRAINED in
  existing_state ← hget GATEWAY_ASSIGNMENT_STATE_NAMESPACE state_key;
  let cursor_key := state_key in
  existing_cursor ← hget GATEWAY_CAPTURE_CURSOR_NAMESPACE cursor_key;
  cursor ← hlift (load_cursor drain.(gad_assignment_id) existing_cursor);
  cursor ← hlift (apply_drain cursor drain);
  if bool_decide (existing_state = Some drained) then
    stored ← durable (load env KindGatewayAssignmentDrain drain.(gad_assignment_id));
    if bool_decide (stored ≠ Some (to_canonical_bytes drain))
    then hlift (Err (HE_Durable ImmutableConflict))
    else mret ExactRecord
  else
    '(context_head_key, context_head) ← current_manifest_head_bytes manifest;
    '(assignment_head_key, assignment_head) ← current_assignment_head_bytes assignment;
    if bool_decide (existing_state ≠ Some active)
    then hlift (Err (HE_Linkage "active gateway assignment"))
    else
      durable (persist_records_with_conditions_and_batch env
        [mkJournalBatchRecord KindGatewayAssignmentDrain drain.(gad_assignment_id)
           (to_canonical_bytes drain)]
        [condition_equals GATEWAY_CONTEXT_HEAD_NAMESPACE context_head_key context_head;
         condition_equals GATEWAY_ASSIGNMENT_HEAD_NAMESPACE assignment_head_key assignment_head;
         condition_equals GATEWAY_ASSIGNMENT_STATE_NAMESPACE state_key active;
         mkBatchCondition GATEWAY_CAPTURE_CURSOR_NAMESPACE cursor_key existing_cursor]
        [BatchPut GATEWAY_CAPTURE_CURSOR_NAMESPACE cursor_key (to_canonical_bytes cursor);
         BatchPut GATEWAY_ASSIGNMENT_STATE_NAMESPACE state_key drained]).

Definition persist_gateway_assignment_transition (manifest : GatewayContextManifestV1)
    (next_assignment : GatewayAssignmentV1) (transition : GatewayAssignmentTransitionV1) :
    hclient JournalBatchOutcome :=
  _ ← hlift (validate_transition manifest transition);
  _ ← hlift (validate_gateway_assignment manifest next_assignment);
  previous ← load_gateway_assignment transition.(gat_previous_assignment_id);
  _ ← hlift (validate_gateway_assignment manifest previous);
  if bool_decide (transition.(gat_next_assignment_id) ≠ object_id next_assignment)
     || negb (transition.(gat_transition_sequence) =? next_assignment.(ga_assignment_sequence))
     || bool_decide (checked_add 64 previous.(ga_assignment_sequence) 1 ≠
                     Some next_assignment.(ga_assignment_sequence))
     || bool_decide (previous.(ga_gateway_pubkey) ≠ next_assignment.(ga_gateway_pubkey))
     || bool_decide (previous.(ga_core_handoff_pubkey) ≠ next_assignment.(ga_core_handoff_pubkey))
     || bool_decide (previous.(ga_operator_pubkey) ≠ next_assignment.(ga_operator_pubkey))
  then hlift (Err HE_Sequence)
  else
    '(context_key, context_head) ← current_manifest_head_bytes manifest;
    let head_key :=
      identity_key next_assignment.(ga_network_id) next_assignment.(ga_gateway_pubkey) in
    found_head ← hget GATEWAY_ASSIGNMENT_HEAD_NAMESPACE head_key;
    existing_head ← hlift (ok_or found_head HE_Sequence);
    current ← hlift (decode_sequence_head MMAH next_assignment.(ga_network_id) existing_head);
    let next_id := object_id next_assignment in
    if bool_decide (current.(head_object_id) = next_id)
       && (current.(head_sequence) =? next_assignment.(ga_assignment_sequence))
    then
      _ ← exact_journal_object KindGatewayAssignmentTransition
            transition.(gat_previous_assignment_id) transition;
      mret ExactRecord
    else if bool_decide (current.(head_object_id) ≠ object_id previous)
            || negb (current.(head_sequence) =? previous.(ga_assignment_sequence))
    then hlift (Err HE_Sequence)
    else
      let previous_state_key := hex_encode (object_id previous) in
      let previous_drained :=
        assignment_state_value previous.(ga_network_id) (object_id previous)
          ASSIGNMENT_STATE_DRAINED in
      previous_state ← hget GATEWAY_ASSIGNMENT_STATE_NAMESPACE previous_state_key;
      if bool_decide (previous_state ≠ Some previous_drained) then hlift (Err DrainBoundary)
      else
        found_cursor ← hget GATEWAY_CAPTURE_CURSOR_NAMESPACE previous_state_key;
        previous_cursor ← hlift (ok_or found_cursor DrainBoundary);
        cursor ← hlift (map_err (λ _, HE_Cursor)
          (from_canonical_bytes (A := GatewayCaptureCursorV1) previous_cursor cursor_limits));
        if bool_decide (cursor.(cur_drained_through_sequence) ≠
                        Some transition.(gat_previous_assignment_last_gateway_sequence))
        then hlift (Err DrainBoundary)
        else
          let next_state_key := hex_encode next_id in
          existing_next_state ← hget GATEWAY_ASSIGNMENT_STATE_NAMESPACE next_state_key;
          if bool_decide (is_Some existing_next_state) then hlift (Err HE_Sequence)
          else
            durable (persist_records_with_conditions_and_batch env
              [mkJournalBatchRecord KindGatewayAssignment next_id
                 (to_canonical_bytes next_assignment);
               mkJournalBatchRecord KindGatewayAssignmentTransition
                 transition.(gat_previous_assignment_id) (to_canonical_bytes transition)]
              [condition_equals GATEWAY_CONTEXT_HEAD_NAMESPACE context_key context_head;
               condition_equals GATEWAY_ASSIGNMENT_HEAD_NAMESPACE head_key existing_head;
               condition_equals GATEWAY_ASSIGNMENT_STATE_NAMESPACE previous_state_key
                 previous_drained;
               mkBatchCondition GATEWAY_ASSIGNMENT_STATE_NAMESPACE next_state_key
                 existing_next_state]
              [BatchPut GATEWAY_ASSIGNMENT_HEAD_NAMESPACE head_key
                 (encode_sequence_head MMAH (assignment_head next_assignment));
               BatchPut GATEWAY_ASSIGNMENT_STATE_NAMESPACE next_state_key
                 (assignment_state_value next_assignment.(ga_network_id) next_id
                    ASSIGNMENT_STATE_ACTIVE)]).
End Durable.
