(* ===== verification/HandoffSafety.v ===== *)
(** * Safety of the gateway-to-Core handoff

    The durable operations of [Handoff.v] seen from the store: each commit is one
    step of the relation [handoff_commit], whatever other writers do meanwhile
    (refinement); the steps keep the invariant [handoff_inv] and the order
    [handoff_le] (rule induction). *)

From S2P Require Import Prelude Codec Hash Types Objects Storage Journal Crypto.
From S2P Require Import HandoffObjects Handoff.

Lemma Forall_snoc_last {A} (P : A → Prop) l x : Forall P (l ++ [x]) → P x.
Proof. rewrite Forall_app, Forall_singleton. tauto. Qed.

(** ** Keys of the store *)

Section Keys.
Context `{Hex}.
Definition state_key (id : Hash256) : bytes * bytes :=
  (GATEWAY_ASSIGNMENT_STATE_NAMESPACE, hex_encode id).
Definition cursor_key (id : Hash256) : bytes * bytes :=
  (GATEWAY_CAPTURE_CURSOR_NAMESPACE, hex_encode id).
Definition head_key (network_id : Z) (gateway : bytes) : bytes * bytes :=
  (GATEWAY_ASSIGNMENT_HEAD_NAMESPACE, identity_key network_id gateway).
Definition context_key (network_id : Z) (gateway : bytes) : bytes * bytes :=
  (GATEWAY_CONTEXT_HEAD_NAMESPACE, identity_key network_id gateway).
Definition record_key (kind : ProtocolRecordKind) (id : Hash256) : bytes * bytes :=
  (kind_namespace kind, hex_encode id).
End Keys.

Lemma handoff_namespaces_distinct :
  NoDup [GATEWAY_ASSIGNMENT_STATE_NAMESPACE; GATEWAY_CAPTURE_CURSOR_NAMESPACE;
         GATEWAY_ASSIGNMENT_HEAD_NAMESPACE; GATEWAY_CONTEXT_HEAD_NAMESPACE].
Proof. apply (bool_decide_unpack _). by vm_compute. Qed.

(** None of the four namespaces belongs to the journal. *)
Lemma handoff_not_journal :
  Forall (λ ns, in_journal ns = false)
    [GATEWAY_ASSIGNMENT_STATE_NAMESPACE; GATEWAY_CAPTURE_CURSOR_NAMESPACE;
     GATEWAY_ASSIGNMENT_HEAD_NAMESPACE; GATEWAY_CONTEXT_HEAD_NAMESPACE].
Proof. repeat constructor; by vm_compute. Qed.

Lemma format_02x_inj a b : uint 8 a → uint 8 b → format_02x a = format_02x b → a = b.
Proof.
  assert (∀ z, uint 8 z → format_02x z = lower_hex [z2b z]) as Hf.
  { intros z Hz. unfold format_02x, lower_hex. cbn -[nibble_char z2b]. rewrite b2z_z2b.
    unfold uint in Hz. by rewrite !(Z.mod_small z 256) by lia. }
  intros Ha Hb. rewrite !Hf by done. intros E.
  apply (f_equal (@hex_decode lower_hex_instance)) in E.
  change (lower_hex ?x) with (@hex_encode lower_hex_instance x) in E.
  rewrite !(@hex_decode_encode lower_hex_instance lower_hex_ok) in E.
  injection E as E. by apply z2b_inj.
Qed.

Lemma identity_key_inj `{HexOk} n1 n2 g1 g2 :
  uint 8 n1 → uint 8 n2 → identity_key n1 g1 = identity_key n2 g2 → n1 = n2 ∧ g1 = g2.
Proof.
  intros H1 H2 E. unfold identity_key in E. apply app_inj_1 in E as [En E]; [|done].
  apply format_02x_inj in En as ->; [|done..]. split; [done|].
  apply app_inv_head in E. by apply hex_encode_inj.
Qed.

(** ** What the stored bytes say *)

Definition typed_head (h : SequenceHeadV1) : Prop :=
  uint 8 h.(head_network_id) ∧ uint 64 h.(head_sequence) ∧ arr 32 h.(head_object_id).

Lemma sequence_head_bytes magic h :
  encode_sequence_head magic h =
    magic ++ [z2b h.(head_network_id)] ++ to_le 8 h.(head_sequence) ++ h.(head_object_id).
Proof.
  unfold encode_sequence_head, into_bytes. rewrite !wseq_nil by apply _.
  unfold enc_fixed, enc_u8, enc_u64. by rewrite !app_nil_l.
Qed.

Lemma sequence_head_inj magic h1 h2 :
  typed_head h1 → typed_head h2 → encode_sequence_head magic h1 = encode_sequence_head magic h2 →
  h1 = h2.
Proof.
  intros (Hn1 & Hs1 & _) (Hn2 & Hs2 & _). rewrite !sequence_head_bytes.
  intros E%app_inv_head. apply app_inj_1 in E as [En E]; [|done].
  apply app_inj_1 in E as [Es Ei]; [|by rewrite !to_le_length].
  injection En as En. apply z2b_inj in En; [|done..]. apply to_le_inj in Es; [|by unfold uint in *; lia..].
  destruct h1, h2. by cbn in *; subst.
Qed.

Lemma read_cursor_accepts {A} limits (p : parser A) Q pre rest x d :
  accepts limits p Q → len (pre ++ rest) < 2 ^ 64 →
  read_cursor p (at_pos limits pre rest) = Ok (x, d) →
  ∃ bs rest', rest = bs ++ rest' ∧ d = at_pos limits (pre ++ bs) rest' ∧ Q x bs.
Proof. intros Ha Hl E%map_err_ok. by apply Ha. Qed.

(** [decode_sequence_head] returns the head it was given the bytes of. *)
Lemma decode_sequence_head_sound magic network_id bs h :
  decode_sequence_head magic network_id bs = Ok h →
  bs = encode_sequence_head magic h ∧ typed_head h ∧ h.(head_network_id) = network_id ∧
  h.(head_sequence) ≠ 0.
Proof.
  unfold decode_sequence_head, Decoder_new. cbn [max_object_bytes head_limits].
  destruct (Z.ltb_spec 64 (len bs)) as [|Hl]; [done|]. cbn [map_err].
  change (mbind ?f (Ok ?d)) with (f d). cbv beta.
  change (mkDecoder bs 0 head_limits) with (at_pos head_limits [] bs). intros E.
  apply bind_ok in E as ([x1 d1] & E1 & E).
  apply (read_cursor_accepts _ _ _ _ _ _ _ (accepts_array _ 4)) in E1
    as (b1 & r1 & -> & -> & Hx1 & ->); [|cbn; lia].
  case_bool_decide as Em; [done|]. subst x1. rewrite app_nil_l in *.
  apply bind_ok in E as ([x2 d2] & E2 & E).
  apply (read_cursor_accepts _ _ _ _ _ _ _ (accepts_u8 _)) in E2
    as (b2 & r2 & -> & -> & Hx2 & ->); [|lia].
  apply bind_ok in E as ([x3 d3] & E3 & E).
  apply (read_cursor_accepts _ _ _ _ _ _ _ (accepts_u64 _)) in E3
    as (b3 & r3 & -> & -> & Hx3 & ->); [|rewrite <- app_assoc; lia].
  apply bind_ok in E as ([x4 d4] & E4 & E).
  apply (read_cursor_accepts _ _ _ _ _ _ _ (accepts_array _ 32)) in E4
    as (b4 & r4 & -> & -> & Hx4 & ->); [|rewrite <- !app_assoc; lia].
  apply bind_ok in E as ([] & Ef & E). apply map_err_ok in Ef.
  unfold dec_finish, dec_remaining, at_pos in Ef. cbn [dec_bytes dec_offset] in Ef.
  rewrite len_app, Z.add_simpl_l in Ef.
  assert (r4 = []) as -> by (apply len_0; by destruct (Z.eqb_spec (len r4) 0)).
  match type of E with (if ?c then _ else _) = _ => destruct c eqn:Ec; [done|] end.
  injection E as <-. cbn in Ec.
  apply orb_false_iff in Ec as [Ec _]. apply orb_false_iff in Ec as [En Es].
  apply negb_false_iff, Z.eqb_eq in En. apply Z.eqb_neq in Es.
  split; [|done]. rewrite sequence_head_bytes. unfold enc_fixed, enc_u8, enc_u64.
  by rewrite !app_nil_l, !app_nil_r.
Qed.

Lemma assignment_state_bytes network_id id status :
  assignment_state_value network_id id status =
    str "MMAS" ++ z2b network_id :: id ++ [z2b status].
Proof.
  unfold assignment_state_value, into_bytes. rewrite !wseq_nil by apply _.
  unfold enc_fixed, enc_u8. by rewrite !app_nil_l.
Qed.

(** An assignment's state says active or drained, never both. *)
Lemma active_not_drained n1 n2 id :
  assignment_state_value n1 id ASSIGNMENT_STATE_ACTIVE ≠
  assignment_state_value n2 id ASSIGNMENT_STATE_DRAINED.
Proof.
  rewrite !assignment_state_bytes. intros E%app_inv_head. injection E as _ E.
  apply app_inv_head in E. by injection E.
Qed.

Lemma cursor_bytes_short limits c :
  ok_GatewayCaptureCursorV1 limits c → len (to_canonical_bytes c) < 2 ^ 64.
Proof.
  intros (Ha & _ & He & _). unfold to_canonical_bytes, into_bytes. cbn [encode GatewayCaptureCursorV1_codec].
  unfold encode_GatewayCaptureCursorV1. rewrite !wseq_nil by apply _.
  unfold enc_fixed, enc_u64. rewrite !app_nil_l. unfold arr, len in *.
  rewrite !length_app, !to_le_length.
  destruct (cur_drained_through_sequence c); cbn [encode_option]; rewrite ?wseq_nil by apply _;
    unfold enc_u8, enc_u64; cbn -[to_le Z.pow]; rewrite ?to_le_length; lia.
Qed.

Lemma cursor_bytes_inj c1 c2 :
  ok_GatewayCaptureCursorV1 cursor_limits c1 → ok_GatewayCaptureCursorV1 cursor_limits c2 →
  to_canonical_bytes c1 = to_canonical_bytes c2 → c1 = c2.
Proof.
  intros H1 H2. apply (to_canonical_inj cursor_limits); [done..|]. by eapply cursor_bytes_short.
Qed.

(** An assignment as a value of its Rust type, within the size its record is
    read back with. *)
Definition typed_assignment (a : GatewayAssignmentV1) : Prop :=
  ok_GatewayAssignmentV1 assignment_limits a ∧ len (to_canonical_bytes a) ≤ 4096.

Lemma assignment_bytes_inj a b :
  typed_assignment a → typed_assignment b → to_canonical_bytes a = to_canonical_bytes b → a = b.
Proof. intros [Ha Hl] [Hb _]. apply (to_canonical_inj assignment_limits); [done..|lia]. Qed.

(** Likewise a capture envelope. *)
Definition typed_envelope (e : GatewayCaptureEnvelopeV1) : Prop :=
  ok_GatewayCaptureEnvelopeV1 assignment_limits e ∧ len (to_canonical_bytes e) ≤ 4096.

Lemma envelope_bytes_inj e f :
  typed_envelope e → typed_envelope f → to_canonical_bytes e = to_canonical_bytes f → e = f.
Proof. intros [He Hl] [Hf _]. apply (to_canonical_inj assignment_limits); [done..|lia]. Qed.
Lemma envelope_received e : typed_envelope e → uint 64 e.(gce_gateway_received_ms).
Proof. intros [He _]. unfold ok_GatewayCaptureEnvelopeV1 in He. by destruct_and!. Qed.

(** The durable operations of the handoff. *)
Inductive HandoffCall :=
| CallManifest (m : GatewayContextManifestV1) (now_ms : Z)
| CallAuthorize (m : GatewayContextManifestV1) (a : GatewayAssignmentV1)
| CallCapture (m : GatewayContextManifestV1) (a : GatewayAssignmentV1)
    (e : GatewayCaptureEnvelopeV1) (r : GatewayCaptureReceiptV1)
| CallDrain (m : GatewayContextManifestV1) (d : GatewayAssignmentDrainV1)
| CallTransition (m : GatewayContextManifestV1) (next : GatewayAssignmentV1)
    (t : GatewayAssignmentTransitionV1).

(** ** The steps of the store *)

Section Steps.
Context `{Digests} `{Ed25519} `{Hex}.

(** The view after the journal records and the other operations of a batch. *)
Definition commit_view (v : View) (records : list JournalBatchRecord) (supp : list BatchOperation) :
    View :=
  view_apply v ((put_of <$> (prepared_of <$> records)) ++ supp).

(** No requested record is present with other bytes. *)
Definition records_fit (v : View) (records : list JournalBatchRecord) : Prop :=
  ∀ r x, r ∈ records → v !! record_key r.(jr_kind) r.(jr_durable_key) = Some x → x = r.(jr_value).

Definition recorded (v : View) (a : GatewayAssignmentV1) : Prop :=
  v !! record_key KindGatewayAssignment (object_id a) = Some (to_canonical_bytes a).
Definition state_is (v : View) (network_id : Z) (id : Hash256) (status : Z) : Prop :=
  v !! state_key id = Some (assignment_state_value network_id id status).
Definition is_head (v : View) (a : GatewayAssignmentV1) : Prop :=
  v !! head_key a.(ga_network_id) a.(ga_gateway_pubkey) =
    Some (encode_sequence_head MMAH (assignment_head a)).
Definition manifest_head (m : GatewayContextManifestV1) : SequenceHeadV1 :=
  mkSequenceHeadV1 m.(gcm_network_id) m.(gcm_context_sequence) (object_id m).
(** [m] is the context of its gateway, and in the journal. *)
Definition is_context (v : View) (m : GatewayContextManifestV1) : Prop :=
  v !! context_key m.(gcm_network_id) m.(gcm_gateway_pubkey) =
    Some (encode_sequence_head MMCX (manifest_head m)) ∧
  v !! record_key KindGatewayContextManifest (object_id m) = Some (to_canonical_bytes m).

Definition set_context (m : GatewayContextManifestV1) : BatchOperation :=
  BatchPut GATEWAY_CONTEXT_HEAD_NAMESPACE (identity_key m.(gcm_network_id) m.(gcm_gateway_pubkey))
    (encode_sequence_head MMCX (manifest_head m)).
Definition set_head (a : GatewayAssignmentV1) : BatchOperation :=
  BatchPut GATEWAY_ASSIGNMENT_HEAD_NAMESPACE
    (identity_key a.(ga_network_id) a.(ga_gateway_pubkey))
    (encode_sequence_head MMAH (assignment_head a)).
Definition set_state (network_id : Z) (id : Hash256) (status : Z) : BatchOperation :=
  BatchPut GATEWAY_ASSIGNMENT_STATE_NAMESPACE (hex_encode id)
    (assignment_state_value network_id id status).
Definition set_cursor (id : Hash256) (c : GatewayCaptureCursorV1) : BatchOperation :=
  BatchPut GATEWAY_CAPTURE_CURSOR_NAMESPACE (hex_encode id) (to_canonical_bytes c).

(** Records a capture may carry besides its own evidence. *)
Definition share_record (r : JournalBatchRecord) : Prop :=
  r.(jr_kind) = KindAcceptedWorkKey ∨ r.(jr_kind) = KindAcceptedShare.

Definition typed_manifest (m : GatewayContextManifestV1) : Prop :=
  uint 8 m.(gcm_network_id) ∧ uint 64 m.(gcm_context_sequence).
Definition typed_drain (d : GatewayAssignmentDrainV1) : Prop :=
  uint 64 d.(gad_last_gateway_sequence) ∧ arr 32 d.(gad_assignment_id).

(** The checks of a capture on its objects alone. *)
Definition checked_capture (m : GatewayContextManifestV1) (a : GatewayAssignmentV1)
    (e : GatewayCaptureEnvelopeV1) (r : GatewayCaptureReceiptV1) : Prop :=
  validate_context_manifest m r.(gcr_core_received_ms) = Ok tt ∧
  (∃ observed, validate_capture_envelope m a e r.(gcr_core_received_ms) = Ok observed) ∧
  validate_capture_receipt e r = Ok tt.

(** One committed handoff operation: the call, the share records that a capture
    carries along, and the view before and after. *)
Inductive handoff_commit (v : View) : HandoffCall → list JournalBatchRecord → View → Prop :=
| commit_manifest m now_ms records :
    typed_manifest m → validate_context_manifest m now_ms = Ok tt → records_fit v records →
    records = [mkJournalBatchRecord KindGatewayContextManifest (object_id m) (to_canonical_bytes m)] →
    check_manifest_head m (v !! context_key m.(gcm_network_id) m.(gcm_gateway_pubkey)) = Ok tt →
    handoff_commit v (CallManifest m now_ms) [] (commit_view v records [set_context m])
| commit_authorize m a records :
    typed_assignment a → validate_gateway_assignment m a = Ok tt → is_context v m → records_fit v records →
    records = [mkJournalBatchRecord KindGatewayAssignment (object_id a) (to_canonical_bytes a)] →
    check_first_head a (v !! head_key a.(ga_network_id) a.(ga_gateway_pubkey)) = Ok tt →
    v !! state_key (object_id a) = None ∨
      state_is v a.(ga_network_id) (object_id a) ASSIGNMENT_STATE_ACTIVE →
    handoff_commit v (CallAuthorize m a) [] (commit_view v records
      [set_head a; set_state a.(ga_network_id) (object_id a) ASSIGNMENT_STATE_ACTIVE])
| commit_capture m a e r extra c c' records :
    typed_assignment a → typed_envelope e → checked_capture m a e r → is_context v m →
    Forall share_record extra → records_fit v records →
    records = capture_records m a e r ++ extra →
    recorded v a → is_head v a → state_is v a.(ga_network_id) (object_id a) ASSIGNMENT_STATE_ACTIVE →
    load_cursor (object_id a) (v !! cursor_key (object_id a)) = Ok c →
    malformed_cursor (object_id a) c = false → advance c e = Ok c' →
    handoff_commit v (CallCapture m a e r) extra (commit_view v records [set_cursor (object_id a) c'])
| commit_repeat m a e r extra records :
    checked_capture m a e r →
    Forall share_record extra → records_fit v records → records = capture_records m a e r ++ extra →
    recorded v a →
    v !! record_key KindGatewayContextManifest (object_id m) = Some (to_canonical_bytes m) →
    v !! record_key KindGatewayCaptureEnvelope (object_id e) = Some (to_canonical_bytes e) →
    v !! record_key KindGatewayCaptureReceipt (object_id e) = Some (to_canonical_bytes r) →
    handoff_commit v (CallCapture m a e r) extra (commit_view v records [])
| commit_drain m a d c c' records :
    typed_assignment a → typed_drain d → validate_gateway_drain m d = Ok tt →
    validate_gateway_assignment m a = Ok tt → is_context v m → records_fit v records →
    records = [mkJournalBatchRecord KindGatewayAssignmentDrain (object_id a)
                 (to_canonical_bytes d)] →
    object_id a = d.(gad_assignment_id) → a.(ga_network_id) = d.(gad_network_id) →
    recorded v a → is_head v a → state_is v a.(ga_network_id) (object_id a) ASSIGNMENT_STATE_ACTIVE →
    load_cursor (object_id a) (v !! cursor_key (object_id a)) = Ok c → apply_drain c d = Ok c' →
    handoff_commit v (CallDrain m d) [] (commit_view v records
      [set_cursor (object_id a) c'; set_state a.(ga_network_id) (object_id a) ASSIGNMENT_STATE_DRAINED])
| commit_transition m previous next t c records :
    typed_assignment previous → typed_assignment next → validate_transition m t = Ok tt →
    validate_gateway_assignment m next = Ok tt → validate_gateway_assignment m previous = Ok tt →
    is_context v m → records_fit v records →
    records = [mkJournalBatchRecord KindGatewayAssignment (object_id next) (to_canonical_bytes next);
               mkJournalBatchRecord KindGatewayAssignmentTransition t.(gat_previous_assignment_id)
                 (to_canonical_bytes t)] →
    object_id previous = t.(gat_previous_assignment_id) →
    object_id next = t.(gat_next_assignment_id) →
    t.(gat_transition_sequence) = next.(ga_assignment_sequence) →
    previous.(ga_network_id) = next.(ga_network_id) →
    previous.(ga_gateway_pubkey) = next.(ga_gateway_pubkey) →
    previous.(ga_core_handoff_pubkey) = next.(ga_core_handoff_pubkey) →
    previous.(ga_operator_pubkey) = next.(ga_operator_pubkey) →
    previous.(ga_assignment_sequence) + 1 = next.(ga_assignment_sequence) →
    recorded v previous → is_head v previous →
    state_is v previous.(ga_network_id) (object_id previous) ASSIGNMENT_STATE_DRAINED →
    load_cursor (object_id previous) (v !! cursor_key (object_id previous)) = Ok c →
    c.(cur_drained_through_sequence) = Some t.(gat_previous_assignment_last_gateway_sequence) →
    v !! state_key (object_id next) = None →
    handoff_commit v (CallTransition m next t) [] (commit_view v records
      [set_head next; set_state next.(ga_network_id) (object_id next) ASSIGNMENT_STATE_ACTIVE]).

(** What an operation that finds itself done already has found in the journal. *)
Definition call_recorded (v : View) (call : HandoffCall) : Prop :=
  let in_journal kind id (x : bytes) := v !! record_key kind id = Some x in
  match call with
  | CallManifest m _ => in_journal KindGatewayContextManifest (object_id m) (to_canonical_bytes m)
  | CallAuthorize _ a => recorded v a
  | CallCapture m a e r =>
      in_journal KindGatewayContextManifest (object_id m) (to_canonical_bytes m) ∧ recorded v a ∧
      in_journal KindGatewayCaptureEnvelope (object_id e) (to_canonical_bytes e) ∧
      in_journal KindGatewayCaptureReceipt (object_id e) (to_canonical_bytes r)
  | CallDrain _ d => in_journal KindGatewayAssignmentDrain d.(gad_assignment_id) (to_canonical_bytes d)
  | CallTransition _ _ t =>
      in_journal KindGatewayAssignmentTransition t.(gat_previous_assignment_id) (to_canonical_bytes t)
  end.
End Steps.

(** ** Operations refine the steps *)

Section Wp.
Context {S : Type} `{!DurableStore S, !DurableStoreLaws S} `{HexOk}.
Context (env : nat → S → S) (R : relation View) `{!PreOrder R}.
Hypothesis env_R : ∀ n s v, represents s v → ∃ v', represents (env n s) v' ∧ R v v'.

(** From the view [v], [m] ends; with an error it has changed nothing, with a
    value [Φ] holds of it and the final view. *)
Definition wp {A} (m : hclient (S := S) A) (v : View) (Φ : A → View → Prop) : Prop :=
  ∀ n s, represents s v → ∃ r n' s' v', m (n, s) = (r, (n', s')) ∧ represents s' v' ∧
    match r with Ok a => Φ a v' | Err _ => R v v' end.

Lemma wp_ret {A} (a : A) (v : View) (Φ : A → View → Prop) : Φ a v → wp (mret a) v Φ.
Proof. intros Ha n s Hrep. by exists (Ok a), n, s, v. Qed.

Lemma wp_lift {A} (r : result HandoffError A) (v : View) (Φ : A → View → Prop) :
  (∀ a, r = Ok a → Φ a v) → wp (hlift r) v Φ.
Proof. intros Hr n s Hrep. exists r, n, s, v. split_and!; [done..|]. destruct r; [by apply Hr|done]. Qed.

Lemma wp_bind {A B} (m : hclient (S := S) A) (f : A → hclient (S := S) B) (v : View) (Φ : B → View → Prop) :
  wp m v (λ a v1, R v v1 ∧ wp (f a) v1 Φ) → wp (m ≫= f) v Φ.
Proof.
  intros Hm n s Hrep. destruct (Hm n s Hrep) as (r & n1 & s1 & v1 & E & Hrep1 & Hr).
  unfold mbind, hclient_bind. rewrite E. destruct r as [a|e]; [|by eexists _, n1, s1, v1].
  destruct Hr as [Hle Hf]. destruct (Hf n1 s1 Hrep1) as (r2 & n2 & s2 & v2 & E2 & Hrep2 & Hr2).
  eexists r2, n2, s2, v2. split_and!; [done..|]. destruct r2; [done|by etrans].
Qed.

Lemma wp_lift_bind {A B} (r : result HandoffError A) (f : A → hclient (S := S) B) (v : View) (Φ : B → View → Prop) :
  (∀ a, r = Ok a → wp (f a) v Φ) → wp (hlift r ≫= f) v Φ.
Proof. intros Hf. apply wp_bind, wp_lift. intros a Ha. split; [done|by apply Hf]. Qed.

Lemma wp_get_bind {B} (ns k : bytes) (f : option bytes → hclient (S := S) B) (v : View) (Φ : B → View → Prop) :
  (∀ v1 : View, R v v1 → wp (f (v1 !! (ns, k))) v1 Φ) → wp (hget env ns k ≫= f) v Φ.
Proof.
  intros Hf. apply wp_bind. intros n s Hrep. destruct (env_R n s v Hrep) as (v1 & Hrep1 & Hle).
  destruct (get_spec ns k _ _ Hrep1) as [E HR]. revert E HR.
  unfold spec_get. run_store. intros E HR. unfold hget, durable, store_call.
  destruct (get ns k (env n s)) as [r s'] eqn:Eg. cbn in E, HR.
  destruct (valid_key (ns, k)); cbn in E, HR; subst r; eexists _, _, s', v1; split; try done.
  split; [done|]. split; [done|by apply Hf].
Qed.

Lemma wp_load_bind {B} (kind : ProtocolRecordKind) (id : Hash256) (f : option bytes → hclient (S := S) B) (v : View) (Φ : B → View → Prop) :
  (∀ v1 : View, R v v1 → wp (f (v1 !! record_key kind id)) v1 Φ) →
  wp (durable (load env kind id) ≫= f) v Φ.
Proof. apply wp_get_bind. Qed.

Lemma wp_persist (records : list JournalBatchRecord) (cs : list BatchCondition)
    (supp : list BatchOperation) (v : View) (Φ : JournalBatchOutcome → View → Prop) :
  (∀ v0 v' : View, R v v0 → committed_from records cs supp v0 v' → Φ Committed v') →
  (∀ v' : View, R v v' → all_present v' (prepared_of <$> records) → Φ ExactRecord v') →
  (∀ v' : View, R v v' → Φ PreconditionMismatch v') → (∀ v v', R v v' → journal_le v v') →
  wp (durable (persist_records_with_conditions_and_batch env records cs supp)) v Φ.
Proof.
  intros Hc Hx Ho HRj n s Hrep.
  destruct (persist_records_among env R env_R HRj records cs supp n s v Hrep)
    as (r & n' & s' & v' & E & Hrep' & Hr).
  unfold durable. rewrite E. eexists _, n', s', v'. split; [done|]. split; [done|].
  destruct Hr as [(Hne & Hle & Hp)|(-> & _ & v0 & Hle & Hf)]; [|by eapply Hc].
  destruct r as [[]|e]; [done|by apply Hx, Hp|by apply Ho|done].
Qed.

Lemma wp_exact_object_bind {T B} `{Codec T} (kind : ProtocolRecordKind) (id : Hash256) (expected : T) (f : () → hclient (S := S) B) (v : View) (Φ : B → View → Prop) :
  (∀ v1 : View, R v v1 → v1 !! record_key kind id = Some (to_canonical_bytes expected) → wp (f tt) v1 Φ) →
  wp (exact_journal_object env kind id expected ≫= f) v Φ.
Proof.
  intros Hf. apply wp_bind. unfold exact_journal_object. apply wp_load_bind. intros v1 Hle.
  apply wp_lift. intros [] Hx. split; [done|]. case_bool_decide; [done|]. by apply Hf.
Qed.
End Wp.

(** The checks of an operation that the steps rely on. *)
Section Checks.
Context `{Digests} `{Ed25519}.

Lemma version_context_network pv hv n1 n2 gw core :
  version_context pv hv n1 n2 gw core = Ok tt → n1 = n2.
Proof.
  unfold version_context. intros Hx. inv_ok. rewrite !orb_false_iff in *. destruct_and!.
  by apply Z.eqb_eq, negb_false_iff.
Qed.

Lemma validate_assignment_network m a :
  validate_gateway_assignment m a = Ok tt → a.(ga_network_id) = m.(gcm_network_id).
Proof.
  unfold validate_gateway_assignment. intros ([] & Hv & _)%bind_ok. by apply version_context_network in Hv.
Qed.

Lemma validate_drain_network m d :
  validate_gateway_drain m d = Ok tt → d.(gad_network_id) = m.(gcm_network_id).
Proof.
  unfold validate_gateway_drain. intros ([] & _ & Hx)%bind_ok. apply bind_ok in Hx as ([] & Hv & _).
  by apply version_context_network in Hv.
Qed.
End Checks.

(** The branch of an early [return Err] ends the operation. *)
Ltac wp_if E :=
  match goal with |- wp _ (if ?c then _ else _) _ _ => destruct c eqn:E;
    [apply wp_lift; solve [apply _ | intros ? Hq; discriminate Hq]|] end.

Ltac rely := solve [repeat first [eassumption | etrans; [eassumption|]]].

Section Refinement.
Context `{Digests} `{!DigestsOk} `{Ed25519} `{HexOk}.
Context {S : Type} `{!DurableStore S, !DurableStoreLaws S}.
Context (env : nat → S → S) (R : relation View) `{!PreOrder R}.
Hypothesis env_R : ∀ n s v, represents s v → ∃ v', represents (env n s) v' ∧ R v v'.
Hypothesis R_journal : ∀ v v', R v v' → journal_le v v'.
Hypothesis R_frozen : ∀ v v' network_id id, R v v' →
  state_is v network_id id ASSIGNMENT_STATE_DRAINED → v' !! cursor_key id = v !! cursor_key id.

(** A committed outcome is one step of the store, the call's own; any other leaves it
    alone, and [ExactRecord] says that the call's evidence is in the journal. *)
Definition outcome_step (call : HandoffCall) (v : View) (o : JournalBatchOutcome) (v' : View) : Prop :=
  match o with
  | Committed => ∃ v0, R v v0 ∧ handoff_commit v0 call [] v'
  | ExactRecord => R v v' ∧ call_recorded v' call
  | PreconditionMismatch => R v v'
  end.

Lemma record_kept (v v' : View) kind id x :
  R v v' → v !! record_key kind id = Some x → v' !! record_key kind id = Some x.
Proof. intros Hle Hx. by apply (R_journal v v' Hle); [apply in_journal_kind|]. Qed.

Lemma wp_manifest_head_bind {B : Type} (v : View) m (f : bytes * bytes → hclient (S := S) B)
    (Φ : B → View → Prop) :
  (∀ v1 : View, R v v1 → v1 !! record_key KindGatewayContextManifest (object_id m) = Some (to_canonical_bytes m) →
    wp R (f (identity_key m.(gcm_network_id) m.(gcm_gateway_pubkey),
             encode_sequence_head MMCX (manifest_head m))) v1 Φ) →
  wp R (current_manifest_head_bytes env m ≫= f) v Φ.
Proof.
  intros Hf. apply (wp_bind R). unfold current_manifest_head_bytes.
  apply (wp_get_bind env R env_R). intros v1 Hle1.
  apply (wp_lift_bind R). intros bs _. apply (wp_lift_bind R). intros h Hh.
  destruct (_ || _) eqn:Ec; [apply wp_lift; done|].
  apply (wp_exact_object_bind env R env_R). intros v2 Hle2 Hrec. apply wp_ret.
  assert (R v v2) by rely. split; [done|].
  apply decode_sequence_head_sound in Hh as (-> & _ & Hn & _).
  rewrite orb_false_iff, negb_false_iff, Z.eqb_eq, bool_decide_eq_false in Ec.
  destruct Ec as [Es Ei]. apply dec_stable in Ei.
  replace h with (manifest_head m); [by apply Hf|]. destruct h. unfold manifest_head. by cbn in *; subst.
Qed.

Lemma wp_assignment_head_bind {B : Type} (v : View) a (f : bytes * bytes → hclient (S := S) B)
    (Φ : B → View → Prop) :
  (∀ v1 : View, R v v1 →
    wp R (f (identity_key a.(ga_network_id) a.(ga_gateway_pubkey),
             encode_sequence_head MMAH (assignment_head a))) v1 Φ) →
  wp R (current_assignment_head_bytes env a ≫= f) v Φ.
Proof.
  intros Hf. apply (wp_bind R). unfold current_assignment_head_bytes.
  apply (wp_get_bind env R env_R). intros v1 Hle1.
  apply (wp_lift_bind R). intros bs _. apply (wp_lift_bind R). intros h Hh.
  destruct (_ || _) eqn:Ec; [apply wp_lift; done|]. apply wp_ret. split; [done|].
  apply decode_sequence_head_sound in Hh as (-> & _ & Hn & _).
  rewrite orb_false_iff, negb_false_iff, Z.eqb_eq, bool_decide_eq_false in Ec.
  destruct Ec as [Es Ei]. apply dec_stable in Ei.
  replace h with (assignment_head a); [by apply Hf|]. destruct h. unfold assignment_head. by cbn in *; subst.
Qed.

Lemma wp_load_assignment_bind {B : Type} (v : View) id (f : GatewayAssignmentV1 → hclient (S := S) B)
    (Φ : B → View → Prop) :
  (∀ (v1 : View) a, R v v1 → typed_assignment a → object_id a = id → recorded v1 a →
    wp R (f a) v1 Φ) →
  wp R (load_gateway_assignment env id ≫= f) v Φ.
Proof.
  intros Hf. apply (wp_bind R). unfold load_gateway_assignment.
  apply (wp_load_bind env R env_R). intros v1 Hle1.
  apply (wp_lift_bind R). intros bs Hbs%ok_or_ok. apply (wp_lift_bind R). intros a Ha%map_err_ok.
  destruct (_ || _) eqn:Ec; [apply wp_lift; done|]. apply wp_ret. split; [done|].
  rewrite orb_false_iff, !bool_decide_eq_false in Ec. destruct Ec as [Ei Eb].
  apply dec_stable in Ei, Eb. apply from_canonical_sound in Ha as (Hok & -> & Hl); [|done].
  apply Hf; [done|by split|done|]. unfold recorded. by rewrite Ei.
Qed.

Lemma committed_from_spec (v0 v' : View) records cs supp :
  committed_from records cs supp v0 v' →
  Forall (λ c, v0 !! condition_target c = c.(bc_expected)) cs ∧ records_fit v0 records ∧
  v' = commit_view v0 records supp.
Proof.
  intros (Hc & Hf & ->). split; [|split; [|done]].
  - apply list.Forall_forall. intros c Hin. rewrite forallb_forall in Hc.
    specialize (Hc c (proj1 (list_elem_of_In _ _) Hin)). by apply bool_decide_eq_true in Hc.
  - intros r x Hin Hx. apply (Hf (prepared_of r) x); [|done]. apply list_elem_of_fmap. by exists r.
Qed.

Lemma wp_commit (call : HandoffCall) (v v1 : View) records cs supp :
  R v v1 →
  (∀ v0 : View, R v1 v0 → Forall (λ c, v0 !! condition_target c = c.(bc_expected)) cs →
    records_fit v0 records → handoff_commit v0 call [] (commit_view v0 records supp)) →
  (∀ v' : View, Forall (λ r, v' !! record_key r.(jr_kind) r.(jr_durable_key) = Some r.(jr_value)) records →
    call_recorded v' call) →
  wp R (durable (persist_records_with_conditions_and_batch env records cs supp)) v1 (outcome_step call v).
Proof.
  intros Hle Hc Hx. apply (wp_persist env R env_R).
  - intros v0 v' Hle0 (Hcs & Hfit & ->)%committed_from_spec. exists v0. split; [rely|by apply Hc].
  - intros v' Hle' Hp. split; [rely|]. apply Hx, list.Forall_forall. intros r Hr.
    apply (Hp (prepared_of r)), list_elem_of_fmap. by exists r.
  - intros v' Hle'. cbn. rely.
  - done.
Qed.

Lemma manifest_refines (v : View) m now_ms :
  typed_manifest m →
  wp R (persist_gateway_context_manifest env m now_ms) v (outcome_step (CallManifest m now_ms) v).
Proof.
  intros Hm. unfold persist_gateway_context_manifest. apply (wp_lift_bind R). intros [] Hval.
  apply (wp_get_bind env R env_R). intros v1 Hle1. apply (wp_lift_bind R). intros [] Hcheck.
  apply wp_commit; [done| |].
  - intros v0 Hle0 Hcs Hfit. apply Forall_cons in Hcs as [Hcs _].
    apply (commit_manifest v0 m now_ms); [done..|]. etrans; [|exact Hcheck]. f_equal. exact Hcs.
  - intros v'. by rewrite Forall_singleton.
Qed.

Lemma authorize_refines (v : View) m a :
  typed_assignment a →
  wp R (persist_gateway_assignment_authorization env m a) v (outcome_step (CallAuthorize m a) v).
Proof.
  intros Ha. unfold persist_gateway_assignment_authorization. apply (wp_lift_bind R). intros [] Hval.
  apply wp_manifest_head_bind. intros v1 Hle1 Hman.
  apply (wp_get_bind env R env_R). intros v2 Hle2. apply (wp_lift_bind R). intros [] Hcheck.
  apply (wp_get_bind env R env_R). intros v3 Hle3.
  wp_if Es.
  apply wp_commit; [rely| |intros v'; by rewrite Forall_singleton]. intros v0 Hle0 Hcs Hfit.
  apply Forall_cons in Hcs as [Hx Hcs]. apply Forall_cons in Hcs as [Hh Hcs].
  apply Forall_cons in Hcs as [Hcs _].
  apply (commit_authorize v0 m a); [done..| |done|done| |].
  - split; [exact Hx|]. eapply (record_kept v1); [rely|done].
  - etrans; [|exact Hcheck]. f_equal. exact Hh.
  - change (v0 !! state_key (object_id a) = v3 !! state_key (object_id a)) in Hcs.
    unfold state_is. rewrite Hcs. unfold state_key.
    destruct (v3 !! _) as [x|]; [right|by left]. case_bool_decide; [done|]. by f_equal.
Qed.

Lemma load_cursor_id id existing c :
  load_cursor id existing = Ok c → malformed_cursor id c = false → c.(cur_assignment_id) = id.
Proof.
  unfold malformed_cursor. rewrite !orb_false_iff. intros _ ((((Hi & _) & _) & _) & _).
  apply bool_decide_eq_false in Hi. by apply dec_stable.
Qed.

(** A prepared capture, committed together with share records or none. *)
Definition prepared_commits (call : HandoffCall) (v : View) (p : PreparedCaptureDisposition) (v1 : View) : Prop :=
  R v v1 ∧ ∀ (v0 : View) extra, R v1 v0 → Forall share_record extra →
    Forall (λ c, v0 !! condition_target c = c.(bc_expected)) p.(pcd_conditions) →
    records_fit v0 (p.(pcd_records) ++ extra) →
    handoff_commit v0 call extra (commit_view v0 (p.(pcd_records) ++ extra) p.(pcd_operations)).

Lemma prepare_refines (v : View) m a e r :
  typed_assignment a → typed_envelope e →
  wp R (prepare_capture_disposition env m a e r) v
    (λ p v1, p.(pcd_records) = capture_records m a e r ∧ prepared_commits (CallCapture m a e r) v p v1).
Proof.
  intros Ha He. unfold prepare_capture_disposition. apply (wp_lift_bind R). intros [] Hv1.
  apply (wp_lift_bind R). intros observed Hv2. apply (wp_lift_bind R). intros [] Hv3.
  assert (checked_capture m a e r) as Hchecked by (split; [done|]; split; [by exists observed|done]).
  apply (wp_exact_object_bind env R env_R). intros v1 Hle1 Hman.
  apply (wp_exact_object_bind env R env_R). intros v2 Hle2 Hrec.
  apply (wp_load_bind env R env_R). intros v3 Hle3.
  apply (wp_load_bind env R env_R). intros v4 Hle4.
  destruct (_ && _) eqn:Ex.
  { apply andb_true_iff in Ex as [Ee Er]. apply bool_decide_eq_true in Ee, Er.
    apply wp_ret. split; [done|]. split; [rely|]. intros v0 extra Hle0 Hextra _ Hfit.
    apply (commit_repeat v0 m a e r extra); [done..| | | |].
    - eapply (record_kept v2); [rely|done].
    - eapply (record_kept v1); [rely|done].
    - eapply (record_kept v3); [rely|done].
    - by eapply (record_kept v4). }
  clear Ex. wp_if Ex.
  apply wp_manifest_head_bind. intros v5 Hle5 _.
  apply wp_assignment_head_bind. intros v6 Hle6.
  apply (wp_get_bind env R env_R). intros v7 Hle7.
  wp_if Hst.
  apply (wp_get_bind env R env_R). intros v8 Hle8. apply (wp_lift_bind R). intros c Hc.
  wp_if Em.
  apply (wp_lift_bind R). intros d Hd. apply (wp_lift_bind R). intros c' Hc'.
  apply wp_ret. split; [done|]. split; [rely|]. intros v0 extra Hle0 Hextra Hcs Hfit. cbn [pcd_conditions] in Hcs.
  apply Forall_cons in Hcs as [Hx Hcs]. apply Forall_cons in Hcs as [Hh Hcs].
  apply Forall_cons in Hcs as [Hs Hcs]. apply Forall_cons in Hcs as [Hcs _].
  apply (commit_capture v0 m a e r extra c c'); [done..| |done|done|done| | | | | |].
  - split; [exact Hx|]. eapply (record_kept v1); [rely|done].
  - eapply (record_kept v2); [rely|done].
  - exact Hh.
  - exact Hs.
  - etrans; [|exact Hc]. f_equal. exact Hcs.
  - done.
  - done.
Qed.

Lemma wp_mono {A} (m : hclient (S := S) A) (v : View) (Φ Ψ : A → View → Prop) :
  wp R m v Φ → (∀ a v', Φ a v' → Ψ a v') → wp R m v Ψ.
Proof.
  intros Hm HΦ n s Hrep. destruct (Hm n s Hrep) as (r & n' & s' & v' & E & Hrep' & Hr).
  exists r, n', s', v'. split_and!; [done..|]. destruct r; [by apply HΦ|done].
Qed.

Lemma noncredit_refines (v : View) m a e r :
  typed_assignment a → typed_envelope e →
  wp R (persist_noncredit_capture_disposition env m a e r) v
    (λ o v', r.(gcr_outcome) ≠ CAPTURE_OUTCOME_ACCEPTED ∧ outcome_step (CallCapture m a e r) v o v').
Proof.
  intros Ha He. unfold persist_noncredit_capture_disposition. wp_if Eo. apply Z.eqb_neq in Eo.
  apply (wp_bind R). eapply wp_mono; [by apply prepare_refines|].
  intros p v1 (Hrec & Hle & Hp). split; [done|]. eapply wp_mono; [|intros o v' Ho; split; [done|exact Ho]].
  apply wp_commit; [done| |].
  - intros v0 Hle0 Hcs Hfit. specialize (Hp v0 [] Hle0). rewrite app_nil_r in Hp. by apply Hp.
  - intros v' Hall. rewrite Hrec in Hall. unfold capture_records in Hall. rewrite !Forall_cons in Hall.
    by destruct Hall as (? & ? & ? & ? & _).
Qed.

Lemma drain_refines (v : View) m d :
  typed_drain d → wp R (persist_gateway_assignment_drain env m d) v (outcome_step (CallDrain m d) v).
Proof.
  intros Hd. unfold persist_gateway_assignment_drain.
  apply (wp_lift_bind R). intros [] Hval. pose proof (validate_drain_network _ _ Hval) as Hnd.
  apply (wp_exact_object_bind env R env_R). intros v1 Hle1 _.
  apply wp_load_assignment_bind. intros v2 a Hle2 Ha Hid Hrec.
  apply (wp_lift_bind R). intros [] Hvala. pose proof (validate_assignment_network _ _ Hvala) as Hna.
  apply (wp_get_bind env R env_R). intros v3 Hle3.
  apply (wp_get_bind env R env_R). intros v4 Hle4.
  apply (wp_lift_bind R). intros c Hc. apply (wp_lift_bind R). intros c' Hc'.
  destruct (bool_decide (_ = Some (assignment_state_value _ _ ASSIGNMENT_STATE_DRAINED))).
  { apply (wp_load_bind env R env_R). intros v5 Hle5. wp_if Ex. apply bool_decide_eq_false, dec_stable in Ex.
    apply wp_ret. split; [rely|exact Ex]. }
  apply wp_manifest_head_bind. intros v5 Hle5 Hman.
  apply wp_assignment_head_bind. intros v6 Hle6. wp_if Hst.
  apply wp_commit; [rely| |intros v'; by rewrite Forall_singleton]. intros v0 Hle0 Hcs Hfit.
  apply Forall_cons in Hcs as [Hx Hcs]. apply Forall_cons in Hcs as [Hh Hcs].
  apply Forall_cons in Hcs as [Hs Hcs]. apply Forall_cons in Hcs as [Hcs _].
  assert (a.(ga_network_id) = d.(gad_network_id)) as Hn by congruence.
  rewrite <- Hid, <- Hn in *. apply (commit_drain v0 m a d c c'); try done.
  - split; [exact Hx|]. eapply (record_kept v5); [rely|done].
  - eapply (record_kept v2); [rely|done].
  - etrans; [|exact Hc]. f_equal. exact Hcs.
Qed.

Lemma transition_refines (v : View) m next t :
  typed_assignment next →
  wp R (persist_gateway_assignment_transition env m next t) v (outcome_step (CallTransition m next t) v).
Proof.
  intros Hnext. unfold persist_gateway_assignment_transition.
  apply (wp_lift_bind R). intros [] Hvt. apply (wp_lift_bind R). intros [] Hvn.
  pose proof (validate_assignment_network _ _ Hvn) as Hnn.
  apply wp_load_assignment_bind. intros v1 previous Hle1 Hp Hid Hrec.
  apply (wp_lift_bind R). intros [] Hvp. pose proof (validate_assignment_network _ _ Hvp) as Hnp.
  wp_if El. rewrite !orb_false_iff, !bool_decide_eq_false, negb_false_iff, Z.eqb_eq in El.
  destruct El as (((((Enext & Ets) & Eseq) & Egw) & Ecore) & Eop). apply dec_stable in Enext, Eseq, Egw, Ecore, Eop.
  apply checked_add_some in Eseq as [Eseq _].
  apply wp_manifest_head_bind. intros v2 Hle2 Hman.
  apply (wp_get_bind env R env_R). intros v3 Hle3. apply (wp_lift_bind R). intros hb Hhb%ok_or_ok.
  apply (wp_lift_bind R). intros cur (-> & Hth & Hcn & _)%decode_sequence_head_sound.
  destruct (_ && _).
  { apply (wp_exact_object_bind env R env_R). intros v4 Hle4 Hx. apply wp_ret. split; [rely|exact Hx]. }
  wp_if Ecur. rewrite orb_false_iff, bool_decide_eq_false, negb_false_iff, Z.eqb_eq in Ecur.
  destruct Ecur as [Eci Ecs]. apply dec_stable in Eci.
  assert (cur = assignment_head previous) as ->.
  { destruct cur. unfold assignment_head. cbn in *. f_equal; congruence. }
  apply (wp_get_bind env R env_R). intros v4 Hle4. wp_if Est.
  apply (wp_get_bind env R env_R). intros v5 Hle5. apply (wp_lift_bind R). intros cb Hcb%ok_or_ok.
  apply (wp_lift_bind R). intros c Hc. wp_if Edr. apply bool_decide_eq_false, dec_stable in Edr.
  apply (wp_get_bind env R env_R). intros v6 Hle6. wp_if Ens.
  apply bool_decide_eq_false, eq_None_not_Some in Ens.
  apply wp_commit; [rely| |intros v' Hall; rewrite !Forall_cons in Hall; apply Hall]. intros v0 Hle0 Hcs Hfit.
  apply Forall_cons in Hcs as [Hx Hcs]. apply Forall_cons in Hcs as [Hh Hcs].
  apply Forall_cons in Hcs as [Hs Hcs]. apply Forall_cons in Hcs as [Hcs _].
  assert (previous.(ga_network_id) = next.(ga_network_id)) as Hn by congruence.
  eapply (commit_transition v0 m previous next t c); try done.
  - split; [exact Hx|]. eapply (record_kept v2); [rely|done].
  - eapply (record_kept v1); [rely|done].
  - unfold is_head. rewrite Hn, Egw. exact Hh.
  - apply bool_decide_eq_false, dec_stable in Est.
    assert (v0 !! cursor_key (object_id previous) = v5 !! cursor_key (object_id previous)) as ->.
    { rewrite (R_frozen v4 v0 previous.(ga_network_id)) by (rely || done).
      symmetry. by apply (R_frozen v4 v5 previous.(ga_network_id)). }
    unfold cursor_key. by rewrite Hcb.
  - etrans; [exact Hcs|exact Ens].
Qed.

Definition run_handoff (call : HandoffCall) : hclient (S := S) JournalBatchOutcome :=
  match call with
  | CallManifest m now_ms => persist_gateway_context_manifest env m now_ms
  | CallAuthorize m a => persist_gateway_assignment_authorization env m a
  | CallCapture m a e r => persist_noncredit_capture_disposition env m a e r
  | CallDrain m d => persist_gateway_assignment_drain env m d
  | CallTransition m next t => persist_gateway_assignment_transition env m next t
  end.

(** The arguments are values of their Rust types. *)
Definition typed_call (call : HandoffCall) : Prop :=
  match call with
  | CallManifest m _ => typed_manifest m
  | CallAuthorize _ a => typed_assignment a
  | CallCapture _ a e _ => typed_assignment a ∧ typed_envelope e
  | CallDrain _ d => typed_drain d
  | CallTransition _ next _ => typed_assignment next
  end.

(** A capture recorded by itself earns no credit. *)
Definition call_credit (call : HandoffCall) : Prop :=
  match call with CallCapture _ _ _ r => r.(gcr_outcome) ≠ CAPTURE_OUTCOME_ACCEPTED | _ => True end.

Lemma run_handoff_refines (v : View) call :
  typed_call call → wp R (run_handoff call) v (λ o v', call_credit call ∧ outcome_step call v o v').
Proof.
  destruct call; cbn [typed_call run_handoff call_credit].
  - intros. eapply wp_mono; [by apply manifest_refines|done].
  - intros. eapply wp_mono; [by apply authorize_refines|done].
  - intros [? ?]. by apply noncredit_refines.
  - intros. eapply wp_mono; [by apply drain_refines|done].
  - intros. eapply wp_mono; [by apply transition_refines|done].
Qed.
End Refinement.

(** ** What a commit changes *)

Section CommitView.
Context `{HexOk}.

Lemma kind_namespace_inj k1 k2 : kind_namespace k1 = kind_namespace k2 → k1 = k2.
Proof.
  assert (NoDup (kind_namespace <$> all_kinds)) as Hnd by (apply (bool_decide_unpack _); by vm_compute).
  assert (∀ k, ∃ i, all_kinds !! i = Some k) as Hall.
  { intros k. apply list_elem_of_lookup. destruct k; apply (bool_decide_unpack _); by vm_compute. }
  intros E. destruct (Hall k1) as [i Hi], (Hall k2) as [j Hj].
  assert (i = j) as ->; [|congruence].
  eapply NoDup_lookup; [exact Hnd|rewrite list_lookup_fmap, Hi; done|].
  rewrite list_lookup_fmap, Hj. cbn. by rewrite E.
Qed.

Lemma record_key_inj k1 k2 id1 id2 : record_key k1 id1 = record_key k2 id2 → k1 = k2 ∧ id1 = id2.
Proof. intros [= E1 E2]. split; [by apply kind_namespace_inj|by apply hex_encode_inj]. Qed.

Lemma view_apply_agree (v w : View) ops t : v !! t = w !! t → view_apply v ops !! t = view_apply w ops !! t.
Proof.
  revert v w. induction ops as [|op ops IH]; intros v w E; [done|].
  apply (IH (view_apply v [op]) (view_apply w [op])). destruct op as [ns k x|ns k]; cbn.
  - destruct (decide ((ns, k) = t)) as [<-|]; [by rewrite !lookup_insert_eq|by rewrite !lookup_insert_ne].
  - destruct (decide ((ns, k) = t)) as [<-|]; [by rewrite !lookup_delete_eq|by rewrite !lookup_delete_ne].
Qed.

Definition puts (records : list JournalBatchRecord) : list BatchOperation :=
  put_of <$> (prepared_of <$> records).

Lemma puts_target t records :
  t ∈ operation_target <$> puts records → ∃ r, r ∈ records ∧ t = record_key r.(jr_kind) r.(jr_durable_key).
Proof.
  unfold puts. rewrite targets_put_of. intros (p & -> & Hp)%list_elem_of_fmap.
  apply list_elem_of_fmap in Hp as (r & -> & Hr). by exists r.
Qed.

(** Outside the journal only the supplemental operations count. *)
Lemma commit_view_supp (v : View) records supp t :
  in_journal t.1 = false → commit_view v records supp !! t = view_apply v supp !! t.
Proof.
  intros Hj. unfold commit_view. rewrite view_apply_app. apply view_apply_agree, view_apply_other.
  intros (r & _ & ->)%puts_target. change (in_journal (kind_namespace r.(jr_kind)) = false) in Hj.
  by rewrite in_journal_kind in Hj.
Qed.

(** In the journal only the records count, if the supplemental operations
    stay out of it. *)
Lemma commit_view_journal (v : View) records supp t :
  Forall (λ op, in_journal (operation_target op).1 = false) supp → in_journal t.1 = true →
  commit_view v records supp !! t = view_apply v (puts records) !! t.
Proof.
  intros Hs Hj. unfold commit_view. rewrite view_apply_app. apply view_apply_other.
  intros (op & -> & Hop)%list_elem_of_fmap. rewrite list.Forall_forall in Hs.
  apply Hs in Hop. congruence.
Qed.

Lemma puts_snoc (v : View) records r :
  view_apply v (puts (records ++ [r])) =
    <[record_key r.(jr_kind) r.(jr_durable_key) := r.(jr_value)]> (view_apply v (puts records)).
Proof. unfold puts. rewrite !fmap_app, view_apply_app. done. Qed.

(** A record of the journal after the batch was there before or was requested. *)
Lemma puts_lookup_inv (v : View) records t x :
  view_apply v (puts records) !! t = Some x →
  v !! t = Some x ∨ ∃ r, r ∈ records ∧ t = record_key r.(jr_kind) r.(jr_durable_key) ∧ x = r.(jr_value).
Proof.
  induction records as [|r records IH] using rev_ind; [by left|]. rewrite puts_snoc.
  destruct (decide (record_key r.(jr_kind) r.(jr_durable_key) = t)) as [<-|Hne].
  - rewrite lookup_insert_eq. intros [= <-]. right. exists r. set_solver.
  - rewrite lookup_insert_ne by done. intros [?|(q & ? & ?)]%IH; [by left|right]. exists q. set_solver.
Qed.

(** A requested record is there with its bytes, unless another one with the
    same key has other bytes. *)
Lemma puts_lookup (v : View) records r :
  r ∈ records →
  (∀ q, q ∈ records → record_key q.(jr_kind) q.(jr_durable_key) =
     record_key r.(jr_kind) r.(jr_durable_key) → q.(jr_value) = r.(jr_value)) →
  view_apply v (puts records) !! record_key r.(jr_kind) r.(jr_durable_key) = Some r.(jr_value).
Proof.
  induction records as [|q records IH] using rev_ind; [set_solver|]. intros Hr Hall. rewrite puts_snoc.
  destruct (decide (record_key q.(jr_kind) q.(jr_durable_key) = record_key r.(jr_kind) r.(jr_durable_key)))
    as [E|Hne].
  - rewrite E, lookup_insert_eq. f_equal. apply Hall; [set_solver|done].
  - rewrite lookup_insert_ne by done. apply IH.
    + apply elem_of_app in Hr as [?|Hr]; [done|]. apply list_elem_of_singleton in Hr as ->. done.
    + intros q' Hq'. apply Hall. set_solver.
Qed.

Lemma commit_journal_le (v : View) records supp :
  Forall (λ op, in_journal (operation_target op).1 = false) supp → records_fit v records →
  journal_le v (commit_view v records supp).
Proof.
  intros Hs Hfit ns k x Hj Hx. rewrite commit_view_journal by done.
  induction records as [|r records IH] using rev_ind; [done|]. rewrite puts_snoc.
  assert (records_fit v records) as Hfit' by (intros q y Hq; apply Hfit; set_solver).
  destruct (decide (record_key r.(jr_kind) r.(jr_durable_key) = (ns, k))) as [E|Hne].
  - rewrite E, lookup_insert_eq. f_equal. symmetry. apply (Hfit r); [set_solver|]. by rewrite E.
  - rewrite lookup_insert_ne by done. by apply IH.
Qed.
End CommitView.

(** ** Invariant and order *)

Section Invariant.
Context `{Digests} `{HexOk}.

(** The cursor of an assignment; one that was never stored is the new one. *)
Definition cursor_at (v : View) (id : Hash256) (c : GatewayCaptureCursorV1) : Prop :=
  match v !! cursor_key id with
  | None => c = cursor_new id
  | Some bs => bs = to_canonical_bytes c ∧ ok_GatewayCaptureCursorV1 cursor_limits c
  end.

(** The captures [es] of an assignment: sequence numbers 1, 2, ... without gap,
    times in order, each with its envelope and its disposition in the journal, and no
    other envelope of the assignment there; the cursor stands behind the last one; and a
    cursor that is sealed is sealed behind it, by a drain in the journal that names it. *)
Record history (v : View) (id : Hash256) (c : GatewayCaptureCursorV1)
    (es : list GatewayCaptureEnvelopeV1) : Prop := {
  h_id : c.(cur_assignment_id) = id;
  h_next : c.(cur_next_gateway_sequence) = len es + 1;
  h_last_id : c.(cur_last_envelope_id) = default zero_hash (object_id <$> last es);
  h_last_ms : c.(cur_last_gateway_received_ms) = default 0 (gce_gateway_received_ms <$> last es);
  h_dense : ∀ i e, es !! i = Some e →
    e.(gce_assignment_id) = id ∧ e.(gce_gateway_sequence) = Z.of_nat i + 1;
  h_times : Sorted Z.le (gce_gateway_received_ms <$> es);
  h_journal : Forall (λ e, typed_envelope e ∧
    v !! record_key KindGatewayCaptureEnvelope (object_id e) = Some (to_canonical_bytes e) ∧
    is_Some (v !! record_key KindGatewayCaptureReceipt (object_id e))) es;
  h_exact : ∀ e, typed_envelope e → e.(gce_assignment_id) = id →
    v !! record_key KindGatewayCaptureEnvelope (object_id e) = Some (to_canonical_bytes e) → e ∈ es;
  h_drained : ∀ n, c.(cur_drained_through_sequence) = Some n → n = len es ∧
    ∃ d, v !! record_key KindGatewayAssignmentDrain id = Some (to_canonical_bytes d) ∧
      d.(gad_assignment_id) = id ∧ d.(gad_last_gateway_sequence) = n ∧
      d.(gad_final_capture_envelope_id) = c.(cur_last_envelope_id);
}.

Definition drained (v : View) (id : Hash256) : Prop :=
  ∃ network_id, state_is v network_id id ASSIGNMENT_STATE_DRAINED.

Definition captures_ok (v : View) (id : Hash256) : Prop :=
  ∃ c es, cursor_at v id c ∧ history v id c es ∧
    (is_Some c.(cur_drained_through_sequence) ↔ drained v id).

(** An active assignment is the head of its gateway, so a gateway has one. *)
Definition active_ok (v : View) : Prop :=
  ∀ a, typed_assignment a → recorded v a →
    state_is v a.(ga_network_id) (object_id a) ASSIGNMENT_STATE_ACTIVE → is_head v a.

(** The assignments [l] of a gateway: numbered 1, 2, ... without gap, all in the journal, all
    but the last drained, the last one the head. *)
Record lineage (v : View) (network_id : Z) (gateway : bytes) (l : list GatewayAssignmentV1) : Prop := {
  l_journal : Forall (λ a, typed_assignment a ∧ recorded v a ∧ a.(ga_network_id) = network_id ∧
    a.(ga_gateway_pubkey) = gateway) l;
  l_dense : ∀ i a, l !! i = Some a → a.(ga_assignment_sequence) = Z.of_nat i + 1;
  l_drained : ∀ i a, l !! i = Some a → (i + 1 < length l)%nat →
    state_is v network_id (object_id a) ASSIGNMENT_STATE_DRAINED;
  l_head : v !! head_key network_id gateway =
    (λ a, encode_sequence_head MMAH (assignment_head a)) <$> last l;
}.
Definition lineage_ok (v : View) : Prop :=
  ∀ network_id gateway, uint 8 network_id → ∃ l, lineage v network_id gateway l.

Definition handoff_inv (v : View) : Prop := (∀ id, captures_ok v id) ∧ active_ok v ∧ lineage_ok v.

(** Sequence heads never go back and never change at a sequence. *)
Definition heads_le (namespace magic : bytes) (v v' : View) : Prop :=
  ∀ network_id gateway h, uint 8 network_id → typed_head h →
    v !! (namespace, identity_key network_id gateway) = Some (encode_sequence_head magic h) →
    ∃ h', typed_head h' ∧
      v' !! (namespace, identity_key network_id gateway) = Some (encode_sequence_head magic h') ∧
      h.(head_sequence) ≤ h'.(head_sequence) ∧
      (h.(head_sequence) = h'.(head_sequence) → h' = h).

(** A drained assignment keeps its state and its cursor; no cursor goes back. *)
Definition frozen (v v' : View) (id : Hash256) : Prop :=
  drained v id → v' !! state_key id = v !! state_key id ∧ v' !! cursor_key id = v !! cursor_key id.
Definition cursor_le (v v' : View) (id : Hash256) : Prop :=
  ∀ c, cursor_at v id c →
    ∃ c', cursor_at v' id c' ∧ c.(cur_next_gateway_sequence) ≤ c'.(cur_next_gateway_sequence).

Record handoff_le (v v' : View) : Prop := {
  le_journal : journal_le v v';
  le_frozen : ∀ id, frozen v v' id;
  le_cursor : ∀ id, cursor_le v v' id;
  le_context : heads_le GATEWAY_CONTEXT_HEAD_NAMESPACE MMCX v v';
  le_head : heads_le GATEWAY_ASSIGNMENT_HEAD_NAMESPACE MMAH v v';
}.

#[global] Instance heads_le_preorder namespace magic : PreOrder (heads_le namespace magic).
Proof.
  split.
  - intros v n g h Hn Hh Hv. exists h. split_and!; [done..|lia|done].
  - intros v1 v2 v3 H12 H23 n g h Hn Hh Hv.
    destruct (H12 n g h Hn Hh Hv) as (h2 & Hh2 & Hv2 & Hle2 & Heq2).
    destruct (H23 n g h2 Hn Hh2 Hv2) as (h3 & Hh3 & Hv3 & Hle3 & Heq3).
    exists h3. split_and!; [done..|lia|]. intros E. rewrite Heq3 by lia. apply Heq2. lia.
Qed.

Lemma frozen_trans (v1 v2 v3 : View) id : frozen v1 v2 id → frozen v2 v3 id → frozen v1 v3 id.
Proof.
  intros H12 H23 Hd. destruct (H12 Hd) as [Es Ec]. destruct H23 as [Es' Ec'].
  - destruct Hd as [n Hn]. exists n. unfold state_is. by rewrite Es.
  - split; congruence.
Qed.

#[global] Instance handoff_le_preorder : PreOrder handoff_le.
Proof.
  split.
  - intros v. split; try done. intros id c Hc. exists c. split; [done|lia].
  - intros v1 v2 v3 [J1 F1 C1 X1 Y1] [J2 F2 C2 X2 Y2]. split; try (by etrans).
    + intros id. by eapply frozen_trans.
    + intros id c Hc. destruct (C1 id c Hc) as (c2 & Hc2 & ?). destruct (C2 id c2 Hc2) as (c3 & Hc3 & ?).
      exists c3. split; [done|lia].
Qed.

Lemma cursor_at_unique (v : View) id c c' : cursor_at v id c → cursor_at v id c' → c = c'.
Proof.
  unfold cursor_at. destruct (v !! cursor_key id) as [bs|]; [|congruence].
  intros [-> Hc] [E Hc']. by apply cursor_bytes_inj.
Qed.

Lemma load_cursor_at (v : View) id c : load_cursor id (v !! cursor_key id) = Ok c → cursor_at v id c.
Proof.
  unfold load_cursor, cursor_at. destruct (v !! cursor_key id) as [bs|]; [|by intros [= <-]].
  intros (Hok & -> & _)%map_err_ok%from_canonical_sound; done.
Qed.

Lemma state_inj (v : View) id n1 s1 n2 s2 :
  state_is v n1 id s1 → state_is v n2 id s2 → z2b s1 = z2b s2.
Proof.
  unfold state_is. intros -> E. apply (inj Some) in E. rewrite !assignment_state_bytes in E.
  apply app_inv_head in E. injection E as _ E. apply app_inv_head in E. by injection E.
Qed.

Lemma active_not_drained_at (v : View) n id : state_is v n id ASSIGNMENT_STATE_ACTIVE → ¬ drained v id.
Proof. intros Ha [n' Hd]. pose proof (state_inj v id _ _ _ _ Ha Hd) as E. by vm_compute in E. Qed.
Lemma unset_not_drained (v : View) id : v !! state_key id = None → ¬ drained v id.
Proof. intros Hn [n Hd]. unfold state_is in Hd. congruence. Qed.
End Invariant.

(** ** Every step keeps both *)

Section Preservation.
Context `{Digests} `{!DigestsOk} `{Ed25519} `{HexOk}.

Lemma state_cursor_ne id id' : state_key id ≠ cursor_key id'.
Proof. intros E%(f_equal fst). discriminate E. Qed.
Lemma state_head_ne id n g : state_key id ≠ head_key n g.
Proof. intros E%(f_equal fst). discriminate E. Qed.
Lemma state_context_ne id n g : state_key id ≠ context_key n g.
Proof. intros E%(f_equal fst). discriminate E. Qed.
Lemma cursor_head_ne id n g : cursor_key id ≠ head_key n g.
Proof. intros E%(f_equal fst). discriminate E. Qed.
Lemma cursor_context_ne id n g : cursor_key id ≠ context_key n g.
Proof. intros E%(f_equal fst). discriminate E. Qed.
Lemma head_context_ne n g n' g' : head_key n g ≠ context_key n' g'.
Proof. intros E%(f_equal fst). discriminate E. Qed.
Lemma state_key_inj id id' : state_key id = state_key id' → id = id'.
Proof. intros [= E]. by apply hex_encode_inj. Qed.
Lemma cursor_key_inj id id' : cursor_key id = cursor_key id' → id = id'.
Proof. intros [= E]. by apply hex_encode_inj. Qed.
Lemma head_key_inj n g n' g' : uint 8 n → uint 8 n' → head_key n g = head_key n' g' → n = n' ∧ g = g'.
Proof. intros Hn Hn' E%(f_equal snd). by apply identity_key_inj. Qed.

(** What the four operations of the batches do to a view. *)
Lemma apply_set_state (v : View) n id st ops :
  view_apply v (set_state n id st :: ops) =
  view_apply (<[state_key id := assignment_state_value n id st]> v) ops.
Proof. done. Qed.
Lemma apply_set_cursor (v : View) id c ops :
  view_apply v (set_cursor id c :: ops) = view_apply (<[cursor_key id := to_canonical_bytes c]> v) ops.
Proof. done. Qed.
Lemma apply_set_head (v : View) a ops :
  view_apply v (set_head a :: ops) =
  view_apply (<[head_key a.(ga_network_id) a.(ga_gateway_pubkey) :=
    encode_sequence_head MMAH (assignment_head a)]> v) ops.
Proof. done. Qed.
Lemma apply_set_context (v : View) m ops :
  view_apply v (set_context m :: ops) =
  view_apply (<[context_key m.(gcm_network_id) m.(gcm_gateway_pubkey) :=
    encode_sequence_head MMCX (manifest_head m)]> v) ops.
Proof. done. Qed.
Lemma apply_nil (v : View) : view_apply v [] = v.
Proof. done. Qed.

Create HintDb keys_ne.
Hint Resolve state_cursor_ne state_head_ne state_context_ne cursor_head_ne cursor_context_ne
  head_context_ne : keys_ne.
Hint Extern 5 (_ ≠ _) => apply not_eq_sym : keys_ne.

(** Reads one of the four namespaces after a commit. *)
Ltac commit_lookup :=
  rewrite commit_view_supp by (by vm_compute);
  repeat first [rewrite apply_set_state | rewrite apply_set_cursor | rewrite apply_set_head
    | rewrite apply_set_context | rewrite apply_nil];
  repeat first [rewrite lookup_insert_eq | rewrite lookup_insert_ne by eauto 3 with keys_ne].

(** The envelopes of an assignment in [v'] were in [v]. *)
Definition envelopes_kept (v v' : View) (id : Hash256) : Prop :=
  ∀ e, typed_envelope e → e.(gce_assignment_id) = id →
    v' !! record_key KindGatewayCaptureEnvelope (object_id e) = Some (to_canonical_bytes e) →
    v !! record_key KindGatewayCaptureEnvelope (object_id e) = Some (to_canonical_bytes e).

Lemma history_journal (v v' : View) es :
  journal_le v v' →
  Forall (λ e, typed_envelope e ∧ v !! record_key KindGatewayCaptureEnvelope (object_id e) = Some (to_canonical_bytes e) ∧
    is_Some (v !! record_key KindGatewayCaptureReceipt (object_id e))) es →
  Forall (λ e, typed_envelope e ∧ v' !! record_key KindGatewayCaptureEnvelope (object_id e) = Some (to_canonical_bytes e) ∧
    is_Some (v' !! record_key KindGatewayCaptureReceipt (object_id e))) es.
Proof.
  intros Hj Hall. eapply Forall_impl; [exact Hall|]. intros e (Ht & He & x & Hx).
  split; [done|]. split; [|exists x]; by apply Hj; [apply in_journal_kind|].
Qed.
Lemma history_frame (v v' : View) id c es :
  journal_le v v' → envelopes_kept v v' id → history v id c es → history v' id c es.
Proof.
  intros Hj Hk []. split; try done.
  - by eapply history_journal.
  - intros e He Hid Hv. apply h_exact0; [done..|]. by apply Hk.
  - intros n (-> & d & Hd & ?)%h_drained0. split; [done|]. exists d. split; [|done]. by apply Hj; [apply in_journal_kind|].
Qed.

Lemma captures_ok_frame (v v' : View) id :
  journal_le v v' → envelopes_kept v v' id → v' !! cursor_key id = v !! cursor_key id → (drained v' id ↔ drained v id) →
  captures_ok v id → captures_ok v' id.
Proof.
  intros Hj Hk Hc Hd (c & es & Hcur & Hh & Hdr). exists c, es. split_and!.
  - unfold cursor_at. by rewrite Hc.
  - by eapply history_frame.
  - by rewrite Hd.
Qed.

(** A lineage whose head is not touched. *)
Lemma lineage_frame (v v' : View) n g l :
  journal_le v v' → (∀ id, frozen v v' id) → v' !! head_key n g = v !! head_key n g →
  lineage v n g l → lineage v' n g l.
Proof.
  intros Hj Hf Hh []. split; try done.
  - eapply Forall_impl; [exact l_journal0|]. intros a (? & Hr & ?). split; [done|]. split; [|done].
    by apply Hj; [apply in_journal_kind|].
  - intros i a Hi Hl. pose proof (l_drained0 i a Hi Hl) as Hd. unfold state_is. destruct (Hf (object_id a)) as [-> _]; [by exists n|]. done.
  - by rewrite Hh.
Qed.

Lemma frozen_frame (v v' : View) id :
  v' !! state_key id = v !! state_key id → v' !! cursor_key id = v !! cursor_key id → frozen v v' id.
Proof. by intros ?? _. Qed.
Lemma cursor_le_frame (v v' : View) id : v' !! cursor_key id = v !! cursor_key id → cursor_le v v' id.
Proof. intros E c Hc. exists c. split; [|lia]. unfold cursor_at. by rewrite E. Qed.
Lemma drained_frame (v v' : View) id : v' !! state_key id = v !! state_key id → drained v' id ↔ drained v id.
Proof. intros E. unfold drained, state_is. by rewrite E. Qed.
Lemma heads_le_frame (v v' : View) namespace magic :
  (∀ n g, v' !! (namespace, identity_key n g) = v !! (namespace, identity_key n g)) →
  heads_le namespace magic v v'.
Proof. intros E n g h Hn Hh Hv. exists h. rewrite E. split_and!; [done..|lia|done]. Qed.

(** One head is set: to the same one, or to the next sequence number. *)
Lemma heads_le_set (v v' : View) namespace magic n0 g0 h0 :
  uint 8 n0 → typed_head h0 →
  v' !! (namespace, identity_key n0 g0) = Some (encode_sequence_head magic h0) →
  (∀ h, typed_head h → v !! (namespace, identity_key n0 g0) = Some (encode_sequence_head magic h) →
    h = h0 ∨ h.(head_sequence) < h0.(head_sequence)) →
  (∀ n g, uint 8 n → (n, g) ≠ (n0, g0) →
    v' !! (namespace, identity_key n g) = v !! (namespace, identity_key n g)) →
  heads_le namespace magic v v'.
Proof.
  intros Hn0 Hh0 Hset Hprev Hother n g h Hn Hh Hv.
  destruct (decide ((n, g) = (n0, g0))) as [[= -> ->]|Hne].
  - exists h0. split_and!; [done..| |]; destruct (Hprev h Hh Hv) as [->|]; [lia|lia|done|lia].
  - exists h. rewrite Hother by done. split_and!; [done..|lia|done].
Qed.

Lemma assignment_head_typed a : typed_assignment a → typed_head (assignment_head a).
Proof.
  intros [Ha _]. unfold ok_GatewayAssignmentV1 in Ha. destruct_and!. split_and!; cbn; try done.
  apply domain_hash_length.
Qed.
Lemma assignment_network a : typed_assignment a → uint 8 a.(ga_network_id).
Proof. intros [Ha _]. unfold ok_GatewayAssignmentV1 in Ha. by destruct_and!. Qed.

Lemma is_head_same (v : View) a b :
  typed_assignment a → typed_assignment b → is_head v a → is_head v b →
  a.(ga_network_id) = b.(ga_network_id) → a.(ga_gateway_pubkey) = b.(ga_gateway_pubkey) →
  object_id a = object_id b.
Proof.
  unfold is_head. intros Ha Hb Hha Hhb En Eg. rewrite <- En, <- Eg, Hha in Hhb. apply (inj Some) in Hhb.
  apply sequence_head_inj in Hhb; [|by apply assignment_head_typed..]. by apply (f_equal head_object_id) in Hhb.
Qed.

(** A journal record after a commit was there before or was requested. *)
Lemma record_inv (v : View) records supp kind id x :
  Forall (λ op, in_journal (operation_target op).1 = false) supp →
  commit_view v records supp !! record_key kind id = Some x →
  v !! record_key kind id = Some x ∨
  ∃ r, r ∈ records ∧ r.(jr_kind) = kind ∧ r.(jr_durable_key) = id ∧ r.(jr_value) = x.
Proof.
  intros Hs Hb. rewrite commit_view_journal in Hb by (done || apply in_journal_kind).
  apply puts_lookup_inv in Hb as [?|(r & Hr & E & Hx)]; [by left|right].
  apply record_key_inj in E as [? ?]. by exists r.
Qed.
Lemma envelopes_kept_commit (v : View) records supp id :
  Forall (λ op, in_journal (operation_target op).1 = false) supp →
  Forall (λ r, r.(jr_kind) ≠ KindGatewayCaptureEnvelope) records → envelopes_kept v (commit_view v records supp) id.
Proof.
  intros Hs Hr e _ _ [?|(r & Hin & Hk & _)]%record_inv; [done| |done].
  rewrite list.Forall_forall in Hr. by destruct (Hr r Hin).
Qed.

Lemma recorded_inv (v : View) records supp b :
  Forall (λ op, in_journal (operation_target op).1 = false) supp →
  recorded (commit_view v records supp) b →
  recorded v b ∨ ∃ r, r ∈ records ∧ r.(jr_kind) = KindGatewayAssignment ∧
    r.(jr_durable_key) = object_id b ∧ r.(jr_value) = to_canonical_bytes b.
Proof. apply record_inv. Qed.

(** The parts of the order and of the invariant a step that leaves states,
    cursors and heads alone keeps. *)
Definition supp_outside (supp : list BatchOperation) : Prop :=
  Forall (λ op, in_journal (operation_target op).1 = false) supp.

Lemma supp_outside_dec supp :
  forallb (λ op, negb (in_journal (operation_target op).1)) supp = true → supp_outside supp.
Proof.
  intros Hs. apply list.Forall_forall. intros op Hop. rewrite forallb_forall in Hs.
  apply list_elem_of_In in Hop. apply Hs in Hop. by apply negb_true_iff.
Qed.

(** Whatever the batch, the step is in order if each part is. *)
Lemma step_keeps (v v' : View) :
  journal_le v v' → (∀ id, frozen v v' id ∧ cursor_le v v' id ∧ (captures_ok v id → captures_ok v' id)) →
  heads_le GATEWAY_CONTEXT_HEAD_NAMESPACE MMCX v v' →
  heads_le GATEWAY_ASSIGNMENT_HEAD_NAMESPACE MMAH v v' →
  (active_ok v → active_ok v') → (lineage_ok v → lineage_ok v') →
  handoff_le v v' ∧ (handoff_inv v → handoff_inv v').
Proof.
  intros Hj Hid Hx Hh Ha Hl. split.
  - split; try done; intros id; by destruct (Hid id) as (? & ? & ?).
  - intros (Hc & Hact & Hlin). split; [|by split; [apply Ha|apply Hl]].
    intros id. destruct (Hid id) as (_ & _ & H'). by apply H'.
Qed.

(** No head is touched. *)
Lemma lineages_untouched (v v' : View) :
  journal_le v v' → (∀ id, frozen v v' id ∧ cursor_le v v' id ∧ (captures_ok v id → captures_ok v' id)) →
  (∀ n g, v' !! head_key n g = v !! head_key n g) → lineage_ok v → lineage_ok v'.
Proof.
  intros Hj Hid Hh Hl n g Hn. destruct (Hl n g Hn) as [l Hl']. exists l.
  apply (lineage_frame v); [done| |done..]. intros id. apply Hid.
Qed.

(** An assignment whose state and cursor the step does not touch. *)
Lemma id_untouched (v v' : View) id :
  journal_le v v' → envelopes_kept v v' id → v' !! state_key id = v !! state_key id → v' !! cursor_key id = v !! cursor_key id →
  frozen v v' id ∧ cursor_le v v' id ∧ (captures_ok v id → captures_ok v' id).
Proof.
  intros Hj Hk Hs Hc. split; [by apply frozen_frame|]. split; [by apply cursor_le_frame|].
  apply captures_ok_frame; [done..|]. by apply drained_frame.
Qed.

(** An assignment that becomes active: it was new or active. *)
Lemma id_activated (v v' : View) n id :
  journal_le v v' → envelopes_kept v v' id → v' !! cursor_key id = v !! cursor_key id →
  state_is v' n id ASSIGNMENT_STATE_ACTIVE → ¬ drained v id →
  frozen v v' id ∧ cursor_le v v' id ∧ (captures_ok v id → captures_ok v' id).
Proof.
  intros Hj Hk Hc Hs Hnd. split; [by intros Hd|]. split; [by apply cursor_le_frame|].
  apply captures_ok_frame; [done..|]. pose proof (active_not_drained_at v' n id Hs). tauto.
Qed.

Lemma manifest_keeps (v : View) m records :
  typed_manifest m → records_fit v records →
  records = [mkJournalBatchRecord KindGatewayContextManifest (object_id m) (to_canonical_bytes m)] →
  check_manifest_head m (v !! context_key m.(gcm_network_id) m.(gcm_gateway_pubkey)) = Ok tt →
  let v' := commit_view v records [set_context m] in
  handoff_le v v' ∧ (handoff_inv v → handoff_inv v').
Proof.
  intros Hm Hfit Hrec Hcheck v'. assert (supp_outside [set_context m]) as Hs by by apply supp_outside_dec.
  assert (journal_le v v') as Hj by by apply commit_journal_le.
  assert (∀ n g, v' !! head_key n g = v !! head_key n g) as Hheads by (intros n g; unfold v'; by commit_lookup).
  assert (∀ id, frozen v v' id ∧ cursor_le v v' id ∧ (captures_ok v id → captures_ok v' id)) as Hids.
  { intros id. apply id_untouched; [done| |unfold v'; by commit_lookup..].
    apply envelopes_kept_commit; [done|]. subst records. by repeat constructor. }
  apply step_keeps; [done|done| | | |by apply lineages_untouched].
  - apply (heads_le_set v v' _ _ m.(gcm_network_id) m.(gcm_gateway_pubkey) (manifest_head m)).
    + apply Hm.
    + split_and!; [apply Hm..|apply domain_hash_length].
    + change (v' !! context_key m.(gcm_network_id) m.(gcm_gateway_pubkey) =
        Some (encode_sequence_head MMCX (manifest_head m))). unfold v'. by commit_lookup.
    + intros h Hh Hv. unfold context_key in Hcheck. rewrite Hv in Hcheck.
      unfold check_manifest_head in Hcheck.
      apply bind_ok in Hcheck as (cur & (E & Hcur & Hn & _)%decode_sequence_head_sound & Hcheck).
      apply sequence_head_inj in E as <-; [|done..]. case_bool_decide as Ei.
      * inv_ok. apply negb_false_iff, Z.eqb_eq in E. left. destruct h. unfold manifest_head. by cbn in *; subst.
      * right. inv_ok. apply checked_add_some in Hx as [-> _]. apply orb_false_iff in E as [E _].
        apply negb_false_iff, Z.eqb_eq in E. cbn. lia.
    + intros n g Hn Hne. change (v' !! context_key n g = v !! context_key n g).
      unfold v'. rewrite commit_view_supp by by vm_compute.
      rewrite apply_set_context, apply_nil, lookup_insert_ne; [done|].
      intros E%(f_equal snd). apply identity_key_inj in E as [? ?]; [congruence|apply Hm|done].
  - by apply heads_le_frame.
  - intros Hact b Hb Hrb Hsb. destruct (recorded_inv v _ _ b Hs Hrb) as [Hrb'|(r & Hr & Hk & _)].
    + unfold is_head, v'. commit_lookup. apply Hact; [done..|].
      unfold state_is in Hsb. unfold v' in Hsb. revert Hsb. by commit_lookup.
    + subst records. apply list_elem_of_singleton in Hr as ->. done.
Qed.

(** What a head or a state is read as after the step. *)
Lemma is_head_frame (v v' : View) b :
  v' !! head_key b.(ga_network_id) b.(ga_gateway_pubkey) =
    v !! head_key b.(ga_network_id) b.(ga_gateway_pubkey) →
  is_head v b → is_head v' b.
Proof. unfold is_head. by intros ->. Qed.
Lemma state_is_frame (v v' : View) n id st :
  v' !! state_key id = v !! state_key id → state_is v' n id st → state_is v n id st.
Proof. unfold state_is. by intros ->. Qed.

(** The head of [a]'s gateway is set to [a]; its state becomes active. *)
Section Install.
Context (v : View) (a : GatewayAssignmentV1) (records : list JournalBatchRecord).
Hypothesis Ha : typed_assignment a.
Hypothesis Hfit : records_fit v records.
Hypothesis Hrec : ∀ r, r ∈ records → r.(jr_kind) = KindGatewayAssignment →
  r = mkJournalBatchRecord KindGatewayAssignment (object_id a) (to_canonical_bytes a).
Hypothesis Hmem :
  mkJournalBatchRecord KindGatewayAssignment (object_id a) (to_canonical_bytes a) ∈ records.
Hypothesis Henv : Forall (λ r, r.(jr_kind) ≠ KindGatewayCaptureEnvelope) records.
(** [a] is the last assignment of its gateway, or follows it when that is drained. *)
Hypothesis Hline : ∀ l, lineage v a.(ga_network_id) a.(ga_gateway_pubkey) l →
  (∃ b, last l = Some b ∧ assignment_head b = assignment_head a) ∨
  a.(ga_assignment_sequence) = len l + 1 ∧
  ∀ b, last l = Some b → state_is v a.(ga_network_id) (object_id b) ASSIGNMENT_STATE_DRAINED.
Hypothesis Hnot : ¬ drained v (object_id a).
(** What the old head of the gateway was: none, [a], or one of a lower sequence
    number that is not active. *)
Hypothesis Hold : ∀ h, typed_head h →
  v !! head_key a.(ga_network_id) a.(ga_gateway_pubkey) = Some (encode_sequence_head MMAH h) →
  h = assignment_head a ∨
  h.(head_sequence) < a.(ga_assignment_sequence) ∧ drained v h.(head_object_id).
Let v' : View := commit_view v records
  [set_head a; set_state a.(ga_network_id) (object_id a) ASSIGNMENT_STATE_ACTIVE].

Lemma install_outside :
  supp_outside [set_head a; set_state a.(ga_network_id) (object_id a) ASSIGNMENT_STATE_ACTIVE].
Proof. by apply supp_outside_dec. Qed.

Lemma install_state id :
  v' !! state_key id = if decide (id = object_id a)
    then Some (assignment_state_value a.(ga_network_id) id ASSIGNMENT_STATE_ACTIVE)
    else v !! state_key id.
Proof.
  unfold v'. case_decide as E; [subst id; by commit_lookup|].
  rewrite commit_view_supp by by vm_compute. rewrite apply_set_head, apply_set_state, apply_nil.
  rewrite lookup_insert_ne by (by intros ?%state_key_inj).
  by rewrite lookup_insert_ne by eauto 3 with keys_ne.
Qed.

Lemma install_head n g :
  uint 8 n →
  v' !! head_key n g = if decide (n = a.(ga_network_id) ∧ g = a.(ga_gateway_pubkey))
    then Some (encode_sequence_head MMAH (assignment_head a)) else v !! head_key n g.
Proof.
  intros Hn. unfold v'. case_decide as E; [destruct E as [-> ->]; by commit_lookup|].
  rewrite commit_view_supp by by vm_compute. rewrite apply_set_head, apply_set_state, apply_nil.
  rewrite lookup_insert_ne by eauto 3 with keys_ne. rewrite lookup_insert_ne; [done|].
  intros [? ?]%head_key_inj; [naive_solver|by apply assignment_network|done].
Qed.

Lemma install_recorded b :
  recorded v' b → object_id b = object_id a ∨ recorded v b.
Proof.
  intros [Hb|(r & Hr & Hk & Hi & _)]%recorded_inv; [by right| |apply install_outside].
  left. apply Hrec in Hr; [|done]. by rewrite Hr in Hi.
Qed.

Lemma install_recorded_self : recorded v' a.
Proof.
  unfold recorded, v'. rewrite commit_view_journal by (apply install_outside || apply in_journal_kind).
  apply (puts_lookup v records (mkJournalBatchRecord KindGatewayAssignment (object_id a) (to_canonical_bytes a)) Hmem).
  intros q Hq [Ek _]%record_key_inj. cbn in Ek. by rewrite (Hrec q Hq Ek).
Qed.

Lemma install_active : active_ok v → active_ok v'.
Proof.
  intros Hact b Hb Hrb Hsb. unfold is_head. rewrite install_head by by apply assignment_network.
  destruct (decide (object_id b = object_id a)) as [Ei|Hne].
  - assert (b = a) as ->.
    { apply assignment_bytes_inj; [done..|]. pose proof install_recorded_self as Hself.
      unfold recorded in Hrb, Hself. rewrite Ei, Hself in Hrb. by injection Hrb. }
    by rewrite decide_True.
  - assert (recorded v b) as Hrb' by (apply install_recorded in Hrb as [?|?]; done).
    assert (state_is v b.(ga_network_id) (object_id b) ASSIGNMENT_STATE_ACTIVE) as Hsv.
    { eapply state_is_frame; [|exact Hsb]. by rewrite install_state, decide_False. }
    pose proof (Hact b Hb Hrb' Hsv) as Hh. case_decide as Eg; [exfalso|exact Hh].
    destruct Eg as [En Eg]. unfold is_head in Hh. rewrite En, Eg in Hh.
    apply Hold in Hh as [E|[_ Hd]]; [..|by apply assignment_head_typed].
    + by apply (f_equal head_object_id) in E.
    + by apply (active_not_drained_at v b.(ga_network_id) (object_id b)).
Qed.

Lemma install_journal : journal_le v v'.
Proof. apply commit_journal_le; [apply install_outside|done]. Qed.

Lemma install_ids id : frozen v v' id ∧ cursor_le v v' id ∧ (captures_ok v id → captures_ok v' id).
Proof.
  assert (v' !! cursor_key id = v !! cursor_key id) as Hc by (unfold v'; by commit_lookup).
  assert (envelopes_kept v v' id) as Hk by (apply envelopes_kept_commit; [apply install_outside|done]).
  destruct (decide (id = object_id a)) as [->|Hne].
  - apply (id_activated v v' a.(ga_network_id)); [apply install_journal|done|done| |done].
    unfold state_is. by rewrite install_state, decide_True.
  - apply id_untouched; [apply install_journal|done| |done]. by rewrite install_state, decide_False.
Qed.

Lemma install_lineage : lineage_ok v → lineage_ok v'.
Proof.
  intros Hlin n g Hn. destruct (Hlin n g Hn) as [l Hl]. pose proof (install_head n g Hn) as Hh.
  case_decide as Eg; [destruct Eg as [-> ->]|exists l; by apply (lineage_frame v); [apply install_journal|apply install_ids|..]].
  destruct (Hline l Hl) as [(b & Hb & Eb)|[Hseq Hdr]].
  - exists l. apply (lineage_frame v); [apply install_journal|apply install_ids| |done].
    rewrite Hh, (l_head _ _ _ _ Hl), Hb. cbn [fmap option_fmap option_map]. by rewrite Eb.
  - exists (l ++ [a]). destruct Hl. split.
    + apply Forall_app. split; [|apply Forall_singleton; split_and!; [done|apply install_recorded_self|done..]].
      eapply Forall_impl; [exact l_journal0|]. intros b (? & Hr & ?). split; [done|]. split; [|done].
      by apply install_journal; [apply in_journal_kind|].
    + intros i b [Hi|(Hge & Hi)]%lookup_app_Some; [by apply l_dense0|].
      apply list_lookup_singleton_Some in Hi as [Hi <-]. rewrite Hseq. unfold len. lia.
    + intros i b Hi Hlt. rewrite length_app in Hlt. cbn in Hlt. rewrite lookup_app_l in Hi by lia.
      assert (state_is v a.(ga_network_id) (object_id b) ASSIGNMENT_STATE_DRAINED) as Hd.
      { destruct (decide (i + 1 < length l)%nat); [by apply (l_drained0 i)|]. apply Hdr.
        rewrite last_lookup. rewrite <- Hi. f_equal. lia. }
      unfold state_is. destruct (install_ids (object_id b)) as [Hf _]. destruct Hf as [-> _]; [by exists a.(ga_network_id)|done].
    + by rewrite last_snoc.
Qed.

Lemma install_keeps : handoff_le v v' ∧ (handoff_inv v → handoff_inv v').
Proof.
  apply step_keeps; [apply install_journal|apply install_ids| | |apply install_active|apply install_lineage].
  - apply heads_le_frame. intros n g. change (v' !! context_key n g = v !! context_key n g).
    unfold v'. by commit_lookup.
  - apply (heads_le_set v v' _ _ a.(ga_network_id) a.(ga_gateway_pubkey) (assignment_head a)).
    + by apply assignment_network.
    + by apply assignment_head_typed.
    + change (v' !! head_key a.(ga_network_id) a.(ga_gateway_pubkey) =
        Some (encode_sequence_head MMAH (assignment_head a))).
      rewrite install_head by by apply assignment_network. by rewrite decide_True.
    + intros h Hh Hv. destruct (Hold h Hh Hv) as [?|[? _]]; [by left|by right].
    + intros n g Hn Hne. change (v' !! head_key n g = v !! head_key n g).
      rewrite install_head by done. rewrite decide_False; [done|]. intros [-> ->]. done.
Qed.
End Install.

Lemma authorize_keeps (v : View) a records :
  typed_assignment a → records_fit v records →
  records = [mkJournalBatchRecord KindGatewayAssignment (object_id a) (to_canonical_bytes a)] →
  check_first_head a (v !! head_key a.(ga_network_id) a.(ga_gateway_pubkey)) = Ok tt →
  v !! state_key (object_id a) = None ∨
    state_is v a.(ga_network_id) (object_id a) ASSIGNMENT_STATE_ACTIVE →
  let v' := commit_view v records
    [set_head a; set_state a.(ga_network_id) (object_id a) ASSIGNMENT_STATE_ACTIVE] in
  handoff_le v v' ∧ (handoff_inv v → handoff_inv v').
Proof.
  intros Ha Hfit Hrec Hcheck Hst. apply install_keeps; [done..| | | | | |].
  - intros r Hr _. subst records. by apply list_elem_of_singleton in Hr.
  - subst records. left.
  - subst records. by repeat constructor.
  - intros l Hl. rewrite (l_head _ _ _ _ Hl) in Hcheck. destruct (last l) as [b|] eqn:El; cbn [fmap option_fmap option_map] in Hcheck.
    + left. exists b. split; [done|]. apply last_Some in El as [l' ->].
      pose proof (Forall_snoc_last _ _ _ (l_journal _ _ _ _ Hl)) as Hb.
      unfold check_first_head in Hcheck. apply bind_ok in Hcheck as (cur & (E & Hcur & Hn & _)%decode_sequence_head_sound & Hcheck).
      apply sequence_head_inj in E as <-; [|by apply assignment_head_typed, Hb|done]. inv_ok.
      rewrite orb_false_iff, bool_decide_eq_false, negb_false_iff, Z.eqb_eq in E. destruct E as [Ei Es]. apply dec_stable in Ei.
      unfold assignment_head in *. cbn in *. congruence.
    + right. apply last_None in El as ->. split; [|done]. unfold check_first_head in Hcheck. inv_ok. by apply negb_false_iff, Z.eqb_eq in E.
  - destruct Hst; [by apply unset_not_drained|by eapply active_not_drained_at].
  - intros h Hh Hv. rewrite Hv in Hcheck. unfold check_first_head in Hcheck. left.
    apply bind_ok in Hcheck as (cur & (E & Hcur & Hn & _)%decode_sequence_head_sound & Hcheck).
    apply sequence_head_inj in E as <-; [|done..]. inv_ok.
    rewrite orb_false_iff, bool_decide_eq_false, negb_false_iff, Z.eqb_eq in E. destruct E as [Ei Es].
    apply dec_stable in Ei. destruct h. unfold assignment_head. by cbn in *; subst.
Qed.

Lemma transition_keeps (v : View) previous next t c records :
  typed_assignment previous → typed_assignment next → records_fit v records →
  records = [mkJournalBatchRecord KindGatewayAssignment (object_id next) (to_canonical_bytes next);
             mkJournalBatchRecord KindGatewayAssignmentTransition t.(gat_previous_assignment_id)
               (to_canonical_bytes t)] →
  recorded v previous →
  previous.(ga_network_id) = next.(ga_network_id) →
  previous.(ga_gateway_pubkey) = next.(ga_gateway_pubkey) →
  previous.(ga_assignment_sequence) + 1 = next.(ga_assignment_sequence) →
  is_head v previous →
  state_is v previous.(ga_network_id) (object_id previous) ASSIGNMENT_STATE_DRAINED →
  cursor_at v (object_id previous) c → v !! state_key (object_id next) = None →
  let v' := commit_view v records
    [set_head next; set_state next.(ga_network_id) (object_id next) ASSIGNMENT_STATE_ACTIVE] in
  handoff_le v v' ∧ (handoff_inv v → handoff_inv v').
Proof.
  intros Hp Hn Hfit Hrec Hrp Enet Egw Eseq Hhead Hst Hc Hns. apply install_keeps; [done..| | | | | |].
  - intros r Hr Hk. subst records. apply elem_of_cons in Hr as [->|Hr]; [done|].
    apply list_elem_of_singleton in Hr as ->. done.
  - subst records. left.
  - subst records. by repeat constructor.
  - intros l Hl. right. unfold is_head in Hhead. rewrite Enet, Egw, (l_head _ _ _ _ Hl) in Hhead.
    destruct (last l) as [b|] eqn:El; [|done]. cbn [fmap option_fmap option_map] in Hhead. apply (inj Some) in Hhead.
    pose proof El as El'. apply last_Some in El' as [l' ->]. pose proof (Forall_snoc_last _ _ _ (l_journal _ _ _ _ Hl)) as Hb.
    destruct Hb as (Hb & Hrb & _). apply sequence_head_inj in Hhead; [|by apply assignment_head_typed..].
    pose proof (f_equal head_object_id Hhead) as Ei. cbn in Ei.
    assert (b = previous) as -> by (apply assignment_bytes_inj; [done..|]; unfold recorded in *; rewrite Ei, Hrp in Hrb; by injection Hrb).
    split; [|intros ? [= <-]; by rewrite <- Enet].
    rewrite <- Eseq, (l_dense _ _ _ _ Hl (length l') previous) by (by rewrite lookup_app_r, Nat.sub_diag).
    unfold len. rewrite length_app. cbn. lia.
  - by apply unset_not_drained.
  - intros h Hh Hv. right. unfold is_head in Hhead. rewrite Enet, Egw, Hv in Hhead.
    apply (inj Some) in Hhead. apply sequence_head_inj in Hhead as ->; [|done|by apply assignment_head_typed].
    cbn. split; [lia|]. by exists previous.(ga_network_id).
Qed.

Lemma cursor_ok (v : View) id c : arr 32 id → cursor_at v id c → ok_GatewayCaptureCursorV1 cursor_limits c.
Proof.
  unfold cursor_at. destruct (v !! cursor_key id) as [bs|]; [by intros _ [_ ?]|].
  intros Hid ->. unfold ok_GatewayCaptureCursorV1, uint. cbn. split_and!; done || lia.
Qed.

(** What [advance] does: nothing for a repeated capture, otherwise the next
    number, not after a drain, not earlier than the capture before. *)
Lemma advance_cases c e c' :
  advance c e = Ok c' →
  c' = c ∧ e.(gce_assignment_id) = c.(cur_assignment_id) ∧
    e.(gce_gateway_sequence) + 1 = c.(cur_next_gateway_sequence) ∧ object_id e = c.(cur_last_envelope_id) ∨
  c' = mkGatewayCaptureCursorV1 c.(cur_assignment_id) (c.(cur_next_gateway_sequence) + 1) (object_id e)
         e.(gce_gateway_received_ms) None ∧
  e.(gce_assignment_id) = c.(cur_assignment_id) ∧
  e.(gce_gateway_sequence) = c.(cur_next_gateway_sequence) ∧
  c.(cur_drained_through_sequence) = None ∧ c.(cur_next_gateway_sequence) + 1 < 2 ^ 64 ∧
  (1 < c.(cur_next_gateway_sequence) → c.(cur_last_gateway_received_ms) ≤ e.(gce_gateway_received_ms)).
Proof.
  unfold advance. intros (d & Hd & Hx)%bind_ok.
  unfold classify in Hd. inv_ok. apply bool_decide_eq_false, dec_stable in E. destruct d; [right|left].
  2: { injection Hx as <-. destruct (_ =? _) in Hd; [by inv_ok|]. destruct (_ && _) eqn:Ex in Hd; [|done].
       apply andb_true_iff in Ex as [[Es _]%bool_decide_eq_true%checked_add_some Ei%bool_decide_eq_true]. by split_and!. }
  apply bind_ok in Hx as (n & Hn%ok_or_ok & [= <-]). apply checked_add_some in Hn as [-> Hlt].
  destruct (Z.eqb_spec e.(gce_gateway_sequence) c.(cur_next_gateway_sequence)) as [Es|].
  2: { by inv_ok. }
  inv_ok. apply bool_decide_eq_false, eq_None_not_Some in E0. rewrite E0.
  split_and!; try done. intros Hgt. apply andb_false_iff in E1 as [E1|E1]; [apply Z.ltb_ge in E1; lia|].
  by apply Z.ltb_ge in E1.
Qed.

Lemma capture_records_lookup (v : View) m a e r extra q :
  Forall share_record extra → q ∈ capture_records m a e r →
  view_apply v (puts (capture_records m a e r ++ extra)) !! record_key q.(jr_kind) q.(jr_durable_key) =
    Some q.(jr_value).
Proof.
  intros Hx Hq. apply puts_lookup; [set_solver|]. intros p Hp [Ek Ei]%record_key_inj.
  apply elem_of_app in Hp as [Hp|Hp].
  - unfold capture_records in Hp, Hq. rewrite !elem_of_cons in Hp, Hq.
    destruct Hp as [->|[->|[->|[->|Hp]]]], Hq as [->|[->|[->|[->|Hq]]]];
      try done; try (by apply elem_of_nil in Hp); by apply elem_of_nil in Hq.
  - rewrite list.Forall_forall in Hx. apply Hx in Hp. unfold capture_records in Hq.
    rewrite !elem_of_cons in Hq. destruct Hp as [Hp|Hp]; rewrite Hp in Ek;
      destruct Hq as [->|[->|[->|[->|Hq]]]]; try done; by apply elem_of_nil in Hq.
Qed.

(** A capture that is prepared has a number. *)
Lemma checked_capture_sequence m a e r : checked_capture m a e r → e.(gce_gateway_sequence) ≠ 0.
Proof.
  intros (_ & (o & Ho) & _) E. unfold validate_capture_envelope in Ho. apply bind_ok in Ho as ([] & _ & Ho).
  apply bind_ok in Ho as ([] & _ & Ho). rewrite E in Ho. by destruct (_ || _) in Ho.
Qed.

(** The capture that the cursor takes for a repetition is the last one. *)
Lemma history_repeat (v : View) id c es e :
  history v id c es → typed_envelope e → e.(gce_gateway_sequence) ≠ 0 → object_id e = c.(cur_last_envelope_id) →
  e.(gce_gateway_sequence) + 1 = c.(cur_next_gateway_sequence) →
  (∀ x, v !! record_key KindGatewayCaptureEnvelope (object_id e) = Some x → x = to_canonical_bytes e) → e ∈ es.
Proof.
  intros [] He Hne Hid Hseq Hfit. rewrite h_next0 in Hseq. rewrite h_last_id0 in Hid.
  destruct es as [|q es _] using rev_ind; [unfold len in Hseq; cbn in Hseq; lia|]. rewrite last_snoc in Hid. cbn in Hid.
  apply Forall_snoc_last in h_journal0 as (Hq & Hv & _). rewrite <- Hid in Hv. apply Hfit in Hv.
  apply envelope_bytes_inj in Hv as ->; [|done..]. set_solver.
Qed.

Lemma history_advance (v v' : View) id c es e c' :
  journal_le v v' → history v id c es → typed_envelope e → e.(gce_gateway_sequence) ≠ 0 →
  (∀ x, v !! record_key KindGatewayCaptureEnvelope (object_id e) = Some x → x = to_canonical_bytes e) →
  v' !! record_key KindGatewayCaptureEnvelope (object_id e) = Some (to_canonical_bytes e) →
  is_Some (v' !! record_key KindGatewayCaptureReceipt (object_id e)) →
  (∀ i x, v' !! record_key KindGatewayCaptureEnvelope i = Some x →
    v !! record_key KindGatewayCaptureEnvelope i = Some x ∨ i = object_id e ∧ x = to_canonical_bytes e) →
  advance c e = Ok c' →
  c.(cur_drained_through_sequence) = None ∧ history v' id c' (es ++ [e]) ∨
  c' = c ∧ history v' id c es.
Proof.
  intros Hj Hh Het Hne Hfit He Hr Hnew Hadv.
  assert (∀ l : list GatewayCaptureEnvelopeV1, (∀ q, q ∈ es → q ∈ l) → e ∈ l → ∀ q, typed_envelope q → q.(gce_assignment_id) = id →
    v' !! record_key KindGatewayCaptureEnvelope (object_id q) = Some (to_canonical_bytes q) → q ∈ l) as Hex.
  { intros l Hl Hel q Hq Hqi [Hv|[_ E]]%Hnew; [by apply Hl, (h_exact _ _ _ _ Hh)|].
    by apply envelope_bytes_inj in E as ->. }
  destruct (advance_cases c e c' Hadv) as [(-> & Eid & Es & Ei)|(-> & Eid & Es & Ed & Hlt & Ht)].
  - right. split; [done|]. assert (e ∈ es) as Hin by by eapply history_repeat. destruct Hh. split; try done.
    + by eapply history_journal.
    + intros q. by apply Hex.
    + intros n (-> & d & Hd & ?)%h_drained0. split; [done|]. exists d. split; [|done]. by apply Hj; [apply in_journal_kind|].
  - left. split; [done|]. destruct Hh. split; cbn; rewrite ?last_snoc; try done.
    + rewrite len_app, h_next0. unfold len. cbn. lia.
    + intros i q [Hi|(Hl & Hi)]%lookup_app_Some; [by apply h_dense0|].
      apply list_lookup_singleton_Some in Hi as [Hi <-]. split; [congruence|].
      rewrite Es, h_next0. unfold len. lia.
    + rewrite fmap_app. apply Sorted_snoc; [done|]. rewrite h_last_ms0, h_next0 in Ht.
      destruct es as [|q es _] using rev_ind; [constructor|]. rewrite last_snoc in Ht. cbn in Ht.
      rewrite fmap_app. constructor. apply Ht. rewrite len_app. pose proof (len_nonneg es).
      unfold len at 2. cbn. lia.
    + apply Forall_app. split; [by eapply history_journal|]. by apply Forall_singleton.
    + intros q. apply Hex; set_solver.
Qed.

(** Evidence records add no new assignment. *)
Lemma capture_recorded (v : View) m a e r extra supp b :
  supp_outside supp → Forall share_record extra → recorded v a →
  recorded (commit_view v (capture_records m a e r ++ extra) supp) b → recorded v b.
Proof.
  intros Hs Hx Ha [?|(q & Hq & Hk & Hi & Hv)]%recorded_inv; [done| |done].
  apply elem_of_app in Hq as [Hq|Hq].
  - unfold capture_records in Hq. rewrite !elem_of_cons in Hq.
    destruct Hq as [->|[->|[->|[->|Hq]]]]; try done; [|by apply elem_of_nil in Hq].
    cbn [jr_durable_key jr_value] in *. unfold recorded in *. by rewrite <- Hi, <- Hv.
  - rewrite list.Forall_forall in Hx. apply Hx in Hq as [E|E]; congruence.
Qed.

Lemma capture_envelopes (v : View) m a e r extra supp i x :
  supp_outside supp → Forall share_record extra →
  commit_view v (capture_records m a e r ++ extra) supp !! record_key KindGatewayCaptureEnvelope i = Some x →
  v !! record_key KindGatewayCaptureEnvelope i = Some x ∨ i = object_id e ∧ x = to_canonical_bytes e.
Proof.
  intros Hs Hx [?|(q & Hq & Hk & Hi & Hv)]%record_inv; [by left| |done]. right.
  apply elem_of_app in Hq as [Hq|Hq].
  - unfold capture_records in Hq. rewrite !elem_of_cons in Hq.
    destruct Hq as [->|[->|[->|[->|Hq]]]]; try done. by apply elem_of_nil in Hq.
  - rewrite list.Forall_forall in Hx. apply Hx in Hq as [E|E]; congruence.
Qed.

(** A batch of journal records alone. *)
Lemma records_only_keeps (v : View) records :
  records_fit v records →
  let v' := commit_view v records [] in
  (∀ b, typed_assignment b → recorded v' b → recorded v b) → (∀ id, envelopes_kept v v' id) →
  handoff_le v v' ∧ (handoff_inv v → handoff_inv v').
Proof.
  intros Hfit v' Hrec Hkept. assert (supp_outside []) as Hs by constructor.
  assert (journal_le v v') as Hj by by apply commit_journal_le.
  assert (∀ t, in_journal t.1 = false → v' !! t = v !! t) as Hv.
  { intros t Ht. unfold v'. by rewrite commit_view_supp. }
  assert (∀ id, frozen v v' id ∧ cursor_le v v' id ∧ (captures_ok v id → captures_ok v' id)) as Hids
    by (intros id; apply id_untouched; [done|done|apply Hv; by vm_compute..]).
  apply step_keeps; [done|done| | | |].
  - apply heads_le_frame. intros n g. apply Hv. by vm_compute.
  - apply heads_le_frame. intros n g. apply Hv. by vm_compute.
  - intros Hact b Hb Hrb Hsb. eapply is_head_frame; [apply Hv; by vm_compute|].
    apply Hact; [done|by apply Hrec|]. eapply state_is_frame; [|exact Hsb]. apply Hv. by vm_compute.
  - apply lineages_untouched; [done|done|]. intros n g. apply Hv. by vm_compute.
Qed.

Lemma repeat_keeps (v : View) m a e r extra records :
  Forall share_record extra → records_fit v records → records = capture_records m a e r ++ extra →
  recorded v a → v !! record_key KindGatewayCaptureEnvelope (object_id e) = Some (to_canonical_bytes e) →
  let v' := commit_view v records [] in handoff_le v v' ∧ (handoff_inv v → handoff_inv v').
Proof.
  intros Hx Hfit -> Ha He v'. apply records_only_keeps; [done|..].
  - intros b Hb Hrb. eapply capture_recorded; try done. constructor.
  - intros id q _ _ [?|[Ei ->]]%capture_envelopes; [done| |constructor|done]. by rewrite Ei.
Qed.

(** Accepted shares, journaled outside the handoff. *)
Lemma shares_keep (v : View) records :
  Forall share_record records → records_fit v records →
  let v' := commit_view v records [] in handoff_le v v' ∧ (handoff_inv v → handoff_inv v').
Proof.
  intros Hx Hfit v'. rewrite list.Forall_forall in Hx. apply records_only_keeps; [done|..].
  - intros b _ Hrb. apply recorded_inv in Hrb as [?|(q & Hq & Hk & _)]; [done| |constructor].
    apply Hx in Hq as [Hq|Hq]; congruence.
  - intros id. apply envelopes_kept_commit; [constructor|]. apply list.Forall_forall. intros q [->| ->]%Hx; done.
Qed.

Lemma capture_keeps (v : View) m a e r extra c c' records :
  typed_assignment a → typed_envelope e → e.(gce_gateway_sequence) ≠ 0 → Forall share_record extra →
  records_fit v records → records = capture_records m a e r ++ extra →
  recorded v a → state_is v a.(ga_network_id) (object_id a) ASSIGNMENT_STATE_ACTIVE →
  c.(cur_assignment_id) = object_id a → cursor_at v (object_id a) c → advance c e = Ok c' →
  let v' := commit_view v records [set_cursor (object_id a) c'] in
  handoff_le v v' ∧ (handoff_inv v → handoff_inv v').
Proof.
  intros Ha He Hseq Hx Hfit -> Hra Hst Hcid Hc Hadv v'. set (id := object_id a) in *.
  assert (supp_outside [set_cursor id c']) as Hs by by apply supp_outside_dec.
  assert (journal_le v v') as Hj by by apply commit_journal_le.
  assert (arr 32 id) as Hid by apply domain_hash_length.
  assert (∀ i, v' !! state_key i = v !! state_key i) as Hv'st.
  { intros i. unfold v'. by commit_lookup. }
  assert (v' !! cursor_key id = Some (to_canonical_bytes c')) as Hv'c.
  { unfold v'. by commit_lookup. }
  assert (ok_GatewayCaptureCursorV1 cursor_limits c') as Hok'.
  { pose proof (cursor_ok v id c Hid Hc) as Hok.
    destruct (advance_cases c e c' Hadv) as [[-> _]|(-> & _ & _ & _ & Hlt & _)]; [done|].
    unfold ok_GatewayCaptureCursorV1 in *. cbn. destruct Hok as (? & Hn & _). unfold uint in Hn.
    split_and!; [done|unfold uint; lia|apply domain_hash_length|by apply envelope_received|done]. }
  assert (e.(gce_assignment_id) = id) as Heid.
  { destruct (advance_cases c e c' Hadv) as [(_ & ? & _)|(_ & ? & _)]; congruence. }
  assert (∀ i x, v' !! record_key KindGatewayCaptureEnvelope i = Some x →
    v !! record_key KindGatewayCaptureEnvelope i = Some x ∨ i = object_id e ∧ x = to_canonical_bytes e) as Hnew
    by (intros i x; by apply capture_envelopes).
  assert (∀ i, frozen v v' i ∧ cursor_le v v' i ∧ (captures_ok v i → captures_ok v' i)) as Hids.
  { intros i. destruct (decide (i = id)) as [->|Hne].
    2: { apply id_untouched; [done| |done|].
         - intros q Hq Hqi [?|[_ E]]%Hnew; [done|]. apply envelope_bytes_inj in E as ->; [congruence|done..].
         - unfold v'. rewrite commit_view_supp by by vm_compute.
           rewrite apply_set_cursor, apply_nil, lookup_insert_ne; [done|]. by intros ?%cursor_key_inj. }
    split; [|split].
    + intros Hd. by apply active_not_drained_at in Hst.
    + intros c0 Hc0. rewrite (cursor_at_unique v id c0 c) by done. exists c'.
      split; [unfold cursor_at; by rewrite Hv'c|].
      destruct (advance_cases c e c' Hadv) as [[-> _]|(-> & _)]; cbn; lia.
    + intros (c0 & es & Hc0 & Hh & Hdr). assert (c0 = c) as -> by by eapply cursor_at_unique.
      assert (cursor_at v' id c') as Hc' by (unfold cursor_at; by rewrite Hv'c).
      assert (drained v' id ↔ drained v id) as Hdd by by apply drained_frame.
      destruct (history_advance v v' id c es e c') as [[Hnd Hh']|[-> Hh']]; try done.
      * intros x. apply (Hfit (mkJournalBatchRecord KindGatewayCaptureEnvelope (object_id e) (to_canonical_bytes e))).
        unfold capture_records. set_solver.
      * unfold v'. rewrite commit_view_journal by (done || apply in_journal_kind).
        apply (capture_records_lookup v m a e r extra
          (mkJournalBatchRecord KindGatewayCaptureEnvelope (object_id e) (to_canonical_bytes e)));
          [done|unfold capture_records; set_solver].
      * eexists. unfold v'. rewrite commit_view_journal by (done || apply in_journal_kind).
        apply (capture_records_lookup v m a e r extra
          (mkJournalBatchRecord KindGatewayCaptureReceipt (object_id e) (to_canonical_bytes r)));
          [done|unfold capture_records; set_solver].
      * exists c', (es ++ [e]). split_and!; [done..|]. rewrite Hdd, <- Hdr, Hnd.
        destruct (advance_cases c e c' Hadv) as [[-> _]|(-> & _)]; [by rewrite Hnd|done].
      * exists c, es. by rewrite Hdd. }
  assert (∀ n g, v' !! head_key n g = v !! head_key n g) as Hheads by (intros n g; unfold v'; by commit_lookup).
  apply step_keeps; [done|done| | | |by apply lineages_untouched].
  - apply heads_le_frame. intros n g. change (v' !! context_key n g = v !! context_key n g).
    unfold v'. by commit_lookup.
  - by apply heads_le_frame.
  - intros Hact b Hb Hrb Hsb. apply (is_head_frame v); [done|].
    apply Hact; [done|by eapply capture_recorded|]. eapply state_is_frame; [apply Hv'st|exact Hsb].
Qed.

Lemma apply_drain_cases c d c' :
  apply_drain c d = Ok c' →
  d.(gad_assignment_id) = c.(cur_assignment_id) ∧
  c.(cur_next_gateway_sequence) = d.(gad_last_gateway_sequence) + 1 ∧
  d.(gad_final_capture_envelope_id) =
    (if d.(gad_last_gateway_sequence) =? 0 then zero_hash else c.(cur_last_envelope_id)) ∧
  c' = mkGatewayCaptureCursorV1 c.(cur_assignment_id) c.(cur_next_gateway_sequence)
         c.(cur_last_envelope_id) c.(cur_last_gateway_received_ms) (Some d.(gad_last_gateway_sequence)).
Proof.
  unfold apply_drain. intros Hx. inv_ok. rewrite !orb_false_iff, !bool_decide_eq_false in E.
  destruct E as (((Ea & En) & E0) & E1). apply dec_stable in Ea. apply dec_stable, checked_add_some in En as [En _].
  split; [done|]. split; [done|]. split.
  { destruct (_ =? 0); cbn in E0, E1; [apply bool_decide_eq_false in E0|apply bool_decide_eq_false in E1]; by apply dec_stable. }
  destruct c as [? ? ? ? [n|]]; cbn in *; [|by injection Hx].
  destruct (Z.eqb_spec n d.(gad_last_gateway_sequence)) as [->|]; [by injection Hx|done].
Qed.

Lemma drain_history (v v' : View) id c es d c' :
  journal_le v v' → envelopes_kept v v' id →
  v' !! record_key KindGatewayAssignmentDrain id = Some (to_canonical_bytes d) →
  history v id c es → apply_drain c d = Ok c' → history v' id c' es.
Proof.
  intros Hj Hk Hd [] (Ea & En & Ef & ->)%apply_drain_cases. split; cbn; try done.
  - by eapply history_journal.
  - intros e He Hid Hv. apply h_exact0; [done..|]. by apply Hk.
  - intros n [= <-]. assert (d.(gad_last_gateway_sequence) = len es) as El by lia. split; [done|].
    exists d. split_and!; [done|congruence|done|]. rewrite Ef. destruct (Z.eqb_spec d.(gad_last_gateway_sequence) 0) as [E0|]; [|done].
    rewrite h_last_id0. rewrite E0 in El. symmetry in El. apply len_0 in El as ->. done.
Qed.

Lemma drain_keeps (v : View) a d c c' records :
  typed_assignment a → typed_drain d → records_fit v records →
  records = [mkJournalBatchRecord KindGatewayAssignmentDrain (object_id a) (to_canonical_bytes d)] →
  state_is v a.(ga_network_id) (object_id a) ASSIGNMENT_STATE_ACTIVE →
  cursor_at v (object_id a) c → apply_drain c d = Ok c' →
  let v' := commit_view v records
    [set_cursor (object_id a) c'; set_state a.(ga_network_id) (object_id a) ASSIGNMENT_STATE_DRAINED] in
  handoff_le v v' ∧ (handoff_inv v → handoff_inv v').
Proof.
  intros Ha Hd Hfit Hrec Hst Hc Hadv v'. set (id := object_id a) in *.
  assert (supp_outside [set_cursor id c'; set_state a.(ga_network_id) id ASSIGNMENT_STATE_DRAINED]) as Hs
    by by apply supp_outside_dec.
  assert (journal_le v v') as Hj by by apply commit_journal_le.
  assert (arr 32 id) as Hid by apply domain_hash_length.
  assert (state_is v' a.(ga_network_id) id ASSIGNMENT_STATE_DRAINED) as Hv'st.
  { unfold state_is, v'. by commit_lookup. }
  assert (∀ i, i ≠ id → v' !! state_key i = v !! state_key i) as Hother.
  { intros i Hi. unfold v'. rewrite commit_view_supp by by vm_compute.
    rewrite apply_set_cursor, apply_set_state, apply_nil, lookup_insert_ne by by intros ?%state_key_inj.
    by rewrite lookup_insert_ne by eauto 3 with keys_ne. }
  destruct (apply_drain_cases c d c' Hadv) as (_ & _ & _ & Ec').
  assert (∀ i, envelopes_kept v v' i) as Hkept.
  { intros i. apply envelopes_kept_commit; [done|]. subst records. by repeat constructor. }
  assert (∀ n g, v' !! head_key n g = v !! head_key n g) as Hheads by (intros n g; unfold v'; by commit_lookup).
  assert (cursor_at v' id c') as Hc'.
  { unfold cursor_at, v'. commit_lookup. split; [done|]. pose proof (cursor_ok v id c Hid Hc) as Hok.
    unfold ok_GatewayCaptureCursorV1 in *. rewrite Ec'. cbn. destruct_and!. split_and!; [done..|apply Hd]. }
  assert (∀ i, frozen v v' i ∧ cursor_le v v' i ∧ (captures_ok v i → captures_ok v' i)) as Hids.
  { intros i. destruct (decide (i = id)) as [->|Hne].
    2: { apply id_untouched; [done|done|by apply Hother|]. unfold v'. rewrite commit_view_supp by by vm_compute.
         rewrite apply_set_cursor, apply_set_state, apply_nil, lookup_insert_ne by eauto 3 with keys_ne.
         rewrite lookup_insert_ne; [done|]. by intros ?%cursor_key_inj. }
    split; [|split].
    + intros Hdr. by apply active_not_drained_at in Hst.
    + intros c0 Hc0. rewrite (cursor_at_unique v id c0 c) by done. exists c'. split; [done|].
      rewrite Ec'. cbn. lia.
    + intros (c0 & es & Hc0 & Hh & _). assert (c0 = c) as -> by by eapply cursor_at_unique.
      exists c', es. split; [done|]. split.
      * eapply drain_history; try done. unfold v'. rewrite commit_view_journal by (done || apply in_journal_kind).
        subst records. apply lookup_insert_eq.
      * rewrite Ec'. cbn. split; [|done]. intros _. by exists a.(ga_network_id). }
  apply step_keeps; [done|done| | | |by apply lineages_untouched].
  - apply heads_le_frame. intros n g. change (v' !! context_key n g = v !! context_key n g).
    unfold v'. by commit_lookup.
  - by apply heads_le_frame.
  - intros Hact b Hb Hrb Hsb. apply (is_head_frame v); [done|].
    destruct (decide (object_id b = id)) as [Ei|Hne].
    { rewrite Ei in Hsb. apply active_not_drained_at in Hsb. destruct Hsb. by exists a.(ga_network_id). }
    apply Hact; [done| |].
    + destruct (recorded_inv v _ _ b Hs Hrb) as [?|(r & Hr & Hk & _)]; [done|].
      subst records. apply list_elem_of_singleton in Hr as ->. done.
    + eapply state_is_frame; [by apply Hother|exact Hsb].
Qed.

(** One committed operation respects the order and keeps the invariant. *)
Lemma commit_keeps (v v' : View) call extra :
  handoff_commit v call extra v' → handoff_le v v' ∧ (handoff_inv v → handoff_inv v').
Proof.
  intros [m now_ms records|m a records|m a e r shares c c' records|m a e r shares records|m a d c c' records
         |m previous next t c records].
  - by apply manifest_keeps.
  - by apply authorize_keeps.
  - intros. apply (capture_keeps v m a e r shares c c'); try done; [by eapply checked_capture_sequence| |by apply load_cursor_at].
    by eapply load_cursor_id.
  - intros. by apply (repeat_keeps v m a e r shares).
  - intros. apply (drain_keeps v a d c c'); try done. by apply load_cursor_at.
  - intros. apply (transition_keeps v previous next t c); try done. by apply load_cursor_at.
Qed.
End Preservation.

(** ** Properties *)

(** What one writer may rely on of the others, and guarantees to them. *)
Definition handoff_rely `{Digests, Hex} (v v' : View) : Prop :=
  handoff_le v v' ∧ (handoff_inv v → handoff_inv v').

#[export] Instance handoff_rely_preorder `{Digests, HexOk} : PreOrder handoff_rely.
Proof.
  split; [by intros v|]. intros v1 v2 v3 [L12 I12] [L23 I23]. split; [by etrans|]. tauto.
Qed.

Section Properties.
Context `{Digests} `{HexOk}.

Lemma rely_journal (v v' : View) : handoff_rely v v' → journal_le v v'.
Proof. intros [[] _]. done. Qed.
Lemma rely_frozen (v v' : View) network_id id :
  handoff_rely v v' → state_is v network_id id ASSIGNMENT_STATE_DRAINED →
  v' !! cursor_key id = v !! cursor_key id.
Proof. intros [[] _] Hd. apply le_frozen0. by exists network_id. Qed.

End Properties.

Section Atomicity.
Context `{Digests} `{!DigestsOk} `{Ed25519} `{HexOk}.
Context {S : Type} `{!DurableStore S, !DurableStoreLaws S}.
Context (env : nat → S → S) (R : relation View) `{!PreOrder R}.
Hypothesis env_R : ∀ n s v, represents s v → ∃ v', represents (env n s) v' ∧ R v v'.
Hypothesis R_rely : ∀ v v', R v v' → handoff_rely v v'.

(** C11: handoff operations are atomic steps. The other writers respect any order [R] under
    which they keep the rely; taking equality for [R], every clause below says what the
    call itself does. Each durable handoff operation ends. If it reports [Committed] it has performed
    exactly one step of [handoff_commit], its own: all of its records, its head, state
    and cursor updates and nothing else, at one moment when all of its checks held, on the
    objects and on the store. If it reports [ExactRecord] it has written nothing and its
    evidence is in the journal. If it reports [PreconditionMismatch] or any error it has written
    nothing. A capture that it records earns no credit. In every case it keeps the
    invariant and the order that it relies on in the others. *)
Theorem handoff_call_refines call n s v :
  typed_call call → represents s v →
  ∃ r n' s' v', run_handoff env call (n, s) = (r, (n', s')) ∧ represents s' v' ∧ handoff_rely v v' ∧
    match r with
    | Ok Committed => call_credit call ∧ ∃ v0, R v v0 ∧ handoff_commit v0 call [] v'
    | Ok ExactRecord => R v v' ∧ call_recorded v' call
    | Ok PreconditionMismatch | Err _ => R v v'
    end.
Proof.
  intros Hcall Hrep.
  destruct (run_handoff_refines env R env_R (λ v v' H, rely_journal v v' (R_rely v v' H))
    (λ v v' i j H, rely_frozen v v' i j (R_rely v v' H)) v call Hcall n s Hrep)
    as (r & n' & s' & v' & E & Hrep' & Hr).
  exists r, n', s', v'. split; [done|]. split; [done|].
  destruct r as [[]|e]; cbn in Hr; [|split; [by apply R_rely, Hr|by apply Hr]..|by split; [apply R_rely|]].
  destruct Hr as (Hcr & v0 & Hle & Hc). split; [|by split; [|exists v0]].
  etrans; [by apply R_rely|]. by eapply commit_keeps.
Qed.
End Atomicity.

Section Runs.
Context `{Digests} `{!DigestsOk} `{Ed25519} `{HexOk}.
Context {S : Type} `{!DurableStore S, !DurableStoreLaws S}.
Context (env : nat → S → S).
Hypothesis env_rely :
  ∀ n s v, represents s v → ∃ v', represents (env n s) v' ∧ handoff_rely v v'.

(** A process that performs handoff operations one after the other. *)
Fixpoint run_handoffs (calls : list HandoffCall) (w : nat * S) :
    list (result HandoffError JournalBatchOutcome) * (nat * S) :=
  match calls with
  | [] => ([], w)
  | call :: calls =>
      let '(r, w) := run_handoff env call w in
      let '(rs, w) := run_handoffs calls w in (r :: rs, w)
  end.

Lemma run_handoffs_rely calls n s (v : View) :
  Forall typed_call calls → represents s v →
  ∃ rs n' s' v', run_handoffs calls (n, s) = (rs, (n', s')) ∧ represents s' v' ∧ handoff_rely v v'.
Proof.
  intros Hall. revert n s v. induction Hall as [|call calls Hcall _ IH]; intros n s v Hrep.
  - by exists [], n, s, v.
  - destruct (run_handoff_refines env handoff_rely env_rely rely_journal rely_frozen v call Hcall n s Hrep)
      as (r & n1 & s1 & v1 & E & Hrep1 & Hr).
    assert (handoff_rely v v1) as Hle.
    { destruct r as [[]|e]; cbn in Hr; [|apply Hr..|exact Hr]. destruct Hr as (_ & v0 & Hle & Hc).
      etrans; [exact Hle|]. by eapply commit_keeps. }
    destruct (IH n1 s1 v1 Hrep1) as (rs & n' & s' & v' & E' & Hrep' & Hle').
    exists (r :: rs), n', s', v'. cbn. rewrite E, E'. split; [done|]. split; [done|by etrans].
Qed.

Lemma handoff_inv_empty : handoff_inv ∅.
Proof.
  split_and!.
  - intros id. exists (cursor_new id), []. split; [done|]. split.
    + split; try done; constructor.
    + split; [by intros [? ?]|]. intros [n Hn]. unfold state_is in Hn. by rewrite lookup_empty in Hn.
  - intros a _ Ha. unfold recorded in Ha. by rewrite lookup_empty in Ha.
  - intros n g _. exists []. by split.
Qed.

(** C10: captures are recorded without gaps or conflicts and each gateway mines one assignment.
    From an empty store, after any sequence of handoff operations among any
    conforming writers: the assignments of every gateway are numbered 1, 2, ..., k, all but the last are
    drained and the last is the head; two active assignments of one gateway are the same; the
    captures of every assignment carry the sequence numbers 1, 2, ..., n, in
    order of time, each with its envelope and disposition in the journal, which holds no other
    envelope of the assignment; and the assignment is drained exactly when its cursor is
    sealed, at n, by a drain in the journal that names the n-th capture as the last. *)
Theorem handoff_run_safe calls n s :
  Forall typed_call calls → represents s ∅ →
  ∃ rs n' s' v, run_handoffs calls (n, s) = (rs, (n', s')) ∧ represents s' v ∧ lineage_ok v ∧
    (∀ a b, typed_assignment a → typed_assignment b → recorded v a → recorded v b →
      state_is v a.(ga_network_id) (object_id a) ASSIGNMENT_STATE_ACTIVE →
      state_is v b.(ga_network_id) (object_id b) ASSIGNMENT_STATE_ACTIVE →
      a.(ga_network_id) = b.(ga_network_id) → a.(ga_gateway_pubkey) = b.(ga_gateway_pubkey) → a = b) ∧
    ∀ id, captures_ok v id.
Proof.
  intros Hall Hrep. destruct (run_handoffs_rely calls n s ∅ Hall Hrep)
    as (rs & n' & s' & v & E & Hrep' & _ & Hinv).
  exists rs, n', s', v. split; [done|]. split; [done|].
  destruct (Hinv handoff_inv_empty) as (Hcap & Hact & Hlin). split; [done|]. split; [|done].
  intros a b Ha Hb Hra Hrb Hsa Hsb En Eg. apply assignment_bytes_inj; [done..|].
  assert (object_id a = object_id b) as Ei
    by (apply (is_head_same v); try done; by apply Hact).
  unfold recorded in *. rewrite Ei, Hrb in Hra. by injection Hra.
Qed.

(** Preparing a capture for a drained assignment. *)
Lemma drained_prepare m a e r (v : View) :
  drained v (object_id a) →
  wp handoff_rely (prepare_capture_disposition env m a e r) v (λ p v2,
    p.(pcd_sequence_decision) = ExactRetry ∧ p.(pcd_operations) = [] ∧
    v2 !! record_key KindGatewayCaptureEnvelope (object_id e) = Some (to_canonical_bytes e) ∧
    v2 !! record_key KindGatewayCaptureReceipt (object_id e) = Some (to_canonical_bytes r)).
Proof.
  intros Hd. unfold prepare_capture_disposition. do 3 (apply (wp_lift_bind handoff_rely); intros ? _).
  apply (wp_exact_object_bind env _ env_rely). intros v1 Hle1 _.
  apply (wp_exact_object_bind env _ env_rely). intros v2 Hle2 _.
  apply (wp_load_bind env _ env_rely). intros v3 Hle3.
  apply (wp_load_bind env _ env_rely). intros v4 Hle4.
  destruct (_ && _) eqn:Ex.
  { apply andb_true_iff in Ex as [Ee Er]. apply bool_decide_eq_true in Ee, Er.
    apply wp_ret. split_and!; [done..| |done]. apply (rely_journal v3 v4); [done|apply in_journal_kind|done]. }
  clear Ex. wp_if Ex.
  apply (wp_manifest_head_bind env handoff_rely env_rely). intros v5 Hle5 _.
  apply (wp_assignment_head_bind env handoff_rely env_rely). intros v6 Hle6.
  apply (wp_get_bind env _ env_rely). intros v7 Hle7.
  assert (handoff_rely v v7) as [Hle _] by rely.
  destruct (le_frozen _ _ Hle (object_id a) Hd) as [Es _]. wp_if Hst.
  apply bool_decide_eq_false, dec_stable in Hst. exfalso.
  apply (active_not_drained_at v a.(ga_network_id) (object_id a)); [|done].
  unfold state_is. rewrite <- Es. exact Hst.
Qed.

(** A drain is final. In the race between captures and the drain of their
    assignment, once the drain has committed, no later operation, of this or
    any other writer, moves the assignment's cursor or state, and preparing a
    capture for it succeeds only as the exact repetition of a capture that is
    in the journal already, with nothing left to update. *)
Lemma drain_is_final calls m a e r n s v :
  Forall typed_call calls → represents s v → drained v (object_id a) →
  ∃ rs n1 s1 v1, run_handoffs calls (n, s) = (rs, (n1, s1)) ∧ represents s1 v1 ∧
    v1 !! cursor_key (object_id a) = v !! cursor_key (object_id a) ∧
    v1 !! state_key (object_id a) = v !! state_key (object_id a) ∧
    ∃ res n2 s2 v2, prepare_capture_disposition env m a e r (n1, s1) = (res, (n2, s2)) ∧
      represents s2 v2 ∧
      ∀ p, res = Ok p → p.(pcd_sequence_decision) = ExactRetry ∧ p.(pcd_operations) = [] ∧
        v2 !! record_key KindGatewayCaptureEnvelope (object_id e) = Some (to_canonical_bytes e) ∧
        v2 !! record_key KindGatewayCaptureReceipt (object_id e) = Some (to_canonical_bytes r).
Proof.
  intros Hall Hrep Hd. destruct (run_handoffs_rely calls n s v Hall Hrep)
    as (rs & n1 & s1 & v1 & E & Hrep1 & Hle). exists rs, n1, s1, v1. split; [done|]. split; [done|].
  destruct Hle as [Hle _]. destruct (le_frozen _ _ Hle (object_id a) Hd) as [Es Ec].
  split; [done|]. split; [done|].
  assert (drained v1 (object_id a)) as Hd1.
  { destruct Hd as [k Hk]. exists k. unfold state_is. by rewrite Es. }
  assert (wp handoff_rely (prepare_capture_disposition env m a e r) v1 (λ p v2,
    p.(pcd_sequence_decision) = ExactRetry ∧ p.(pcd_operations) = [] ∧
    v2 !! record_key KindGatewayCaptureEnvelope (object_id e) = Some (to_canonical_bytes e) ∧
    v2 !! record_key KindGatewayCaptureReceipt (object_id e) = Some (to_canonical_bytes r))) as Hwp.
  { by apply drained_prepare. }
  destruct (Hwp n1 s1 Hrep1) as (res & n2 & s2 & v2 & E2 & Hrep2 & Hres).
  exists res, n2, s2, v2. split; [done|]. split; [done|]. by intros p ->.
Qed.
End Runs.

(** ** Witnesses: one gateway, two assignments *)

Module Demo.
#[local] Existing Instances mix_digests mix_digests_ok toy_ed25519 toy_ed25519_ok
  lower_hex_instance lower_hex_ok.

Definition key (b : byte) : bytes := toy_digest 32 [b].
Definition sign {A} `{UnsignedObject A} (b : byte) (object : A) : SignatureBytes :=
  sign_object [b] 2 object.

Definition manifest : GatewayContextManifestV1 :=
  let unsigned := mkGatewayContextManifestV1 2 1 2 1 zero_hash (key x01) (key x02) (key x03)
    0 1000000 4096 16 in
  unsigned (sign x01 (unsigned [])).
Definition assignment (sequence : Z) : GatewayAssignmentV1 :=
  let unsigned := mkGatewayAssignmentV1 2 1 2 (key x11) (key x12) (key x13) (key x01) (key x02)
    (key x03) (key x14) (key x15) sequence 1700000000 1 1 0 [x01; x02; x03; x04]
    [x00; x00; x00; x00] [xff; xff; xff; xff] 0 100 1 (key x16) (key x17) 0 in
  unsigned (sign x01 (unsigned [])).
Definition envelope (sequence nonce : Z) : GatewayCaptureEnvelopeV1 :=
  let unsigned := mkGatewayCaptureEnvelopeV1 2 1 2 (object_id manifest) (object_id (assignment 1))
    (key x11) (key x02) (key x03) sequence (key x21) (500 + sequence) 1700000000
    ([x01; x02; x03; x04] ++ [x00; x00; x00; x09] ++ replicate 16 x00) nonce (key x22) in
  unsigned (sign x02 (unsigned [])).
Definition receipt (sequence nonce : Z) : GatewayCaptureReceiptV1 :=
  let unsigned := mkGatewayCaptureReceiptV1 2 1 2 (object_id manifest) (object_id (assignment 1))
    (object_id (envelope sequence nonce)) (key x02) (key x03) sequence 600 2 7 zero_hash in
  unsigned (sign x03 (unsigned [])).
Definition drain : GatewayAssignmentDrainV1 :=
  let unsigned := mkGatewayAssignmentDrainV1 2 1 2 (object_id manifest) (object_id (assignment 1))
    (key x02) (key x03) 2 (object_id (envelope 2 8)) 700 in
  unsigned (sign x02 (unsigned [])).
Definition transition : GatewayAssignmentTransitionV1 :=
  let unsigned := mkGatewayAssignmentTransitionV1 2 1 2 (object_id manifest) (key x02) (key x03) 2
    (object_id (assignment 1)) (object_id (assignment 2)) 2 800 0 in
  unsigned (sign x02 (unsigned [])).

Definition calls : list HandoffCall :=
  [CallManifest manifest 100; CallAuthorize manifest (assignment 1);
   CallCapture manifest (assignment 1) (envelope 1 7) (receipt 1 7);
   CallCapture manifest (assignment 1) (envelope 3 9) (receipt 3 9);
   CallCapture manifest (assignment 1) (envelope 2 8) (receipt 2 8);
   CallTransition manifest (assignment 2) transition;
   CallDrain manifest drain;
   CallTransition manifest (assignment 2) transition].

Definition run : list (result HandoffError JournalBatchOutcome) * (nat * MemoryStore) :=
  run_handoffs alone calls (0%nat, ∅).
End Demo.

Section DemoRun.
#[local] Existing Instances mix_digests mix_digests_ok toy_ed25519 toy_ed25519_ok
  lower_hex_instance lower_hex_ok.

Lemma demo_assignment_typed k : k = 1 ∨ k = 2 → typed_assignment (Demo.assignment k).
Proof.
  intros [->| ->]; split; try (by vm_compute);
    unfold ok_GatewayAssignmentV1, uint, arr, ok_sig, byte_count; repeat split; by vm_compute.
Qed.

Lemma demo_manifest_typed : typed_manifest Demo.manifest.
Proof. unfold typed_manifest, uint. repeat split; by vm_compute. Qed.
Lemma demo_envelope_typed q k : (q, k) ∈ [(1, 7); (3, 9); (2, 8)] → typed_envelope (Demo.envelope q k).
Proof.
  rewrite !elem_of_cons, elem_of_nil. intros [[= -> ->]|[[= -> ->]|[[= -> ->]|[]]]]; split; try (by vm_compute);
    unfold ok_GatewayCaptureEnvelopeV1, uint, arr, ok_sig, byte_count; repeat split; by vm_compute.
Qed.
Lemma demo_drain_typed : typed_drain Demo.drain.
Proof. unfold typed_drain, uint, arr. repeat split; by vm_compute. Qed.

Lemma demo_calls_typed : Forall typed_call Demo.calls.
Proof.
  pose proof (demo_assignment_typed 1) as H1. pose proof (demo_assignment_typed 2) as H2.
  unfold Demo.calls. repeat (apply Forall_cons; split); [..|apply Forall_nil_2]; unfold typed_call;
    auto using demo_manifest_typed, demo_drain_typed.
  all: split; [auto|apply demo_envelope_typed; set_solver].
Qed.

Lemma alone_rely (n : nat) (s : MemoryStore) (v : View) :
  represents s v → ∃ v', represents (alone n s) v' ∧ handoff_rely v v'.
Proof. intros Hrep. exists v. by split. Qed.

Lemma handoff_call_refines_witness :
  ∃ n' s' v', run_handoff alone (CallManifest Demo.manifest 100) (0%nat, ∅ : MemoryStore) = (Ok Committed, (n', s')) ∧
    represents s' v' ∧ handoff_commit ∅ (CallManifest Demo.manifest 100) [] v'.
Proof.
  assert (∀ v v' : View, v = v' → handoff_rely v v') as Heq by (intros v v' ->; reflexivity).
  destruct (handoff_call_refines alone eq alone_eq Heq (CallManifest Demo.manifest 100) 0 ∅ ∅ demo_manifest_typed
    mem_represents_empty) as (r & n' & s' & v' & E & Hrep & _ & Hc).
  assert (r = Ok Committed) as ->.
  { assert ((run_handoff alone (CallManifest Demo.manifest 100) (0%nat, ∅ : MemoryStore)).1 = Ok Committed)
      as Ev by (vm_compute; reflexivity).
    rewrite E in Ev. exact Ev. }
  destruct Hc as (_ & v0 & <- & Hc). exists n', s', v'. split; [exact E|]. split; [exact Hrep|exact Hc].
Defined.

Lemma handoff_run_safe_witness :
  ∃ rs n' s' v, Demo.run = (rs, (n', s')) ∧
    rs = [Ok Committed; Ok Committed; Ok Committed; Err HE_Sequence; Ok Committed; Err DrainBoundary;
          Ok Committed; Ok Committed] ∧
    represents s' v ∧ captures_ok v (object_id (Demo.assignment 1)).
Proof.
  destruct (handoff_run_safe alone alone_rely Demo.calls 0 ∅ demo_calls_typed mem_represents_empty)
    as (rs & n' & s' & v & E & Hrep & _ & _ & Hc).
  exists rs, n', s', v. split; [exact E|]. split.
  - assert (Demo.run.1 = [Ok Committed; Ok Committed; Ok Committed; Err HE_Sequence; Ok Committed;
      Err DrainBoundary; Ok Committed; Ok Committed]) as Ev by (vm_compute; reflexivity).
    unfold Demo.run in Ev. rewrite E in Ev. exact Ev.
  - split; [exact Hrep|]. apply Hc.
Defined.

(** The store after the drain. *)
Definition demo_drained : nat * MemoryStore := (run_handoffs alone (take 7 Demo.calls) (0%nat, ∅)).2.

Lemma demo_drained_view :
  ∃ v : View, represents demo_drained.2 v ∧ drained v (object_id (Demo.assignment 1)).
Proof.
  destruct (run_handoffs_rely alone alone_rely (take 7 Demo.calls) 0 ∅ ∅)
    as (rs & n' & s' & v & E & Hrep & _); [|apply mem_represents_empty|].
  { apply Forall_take, demo_calls_typed. }
  assert (demo_drained.2 = s') as Es by (unfold demo_drained; by rewrite E).
  exists v. rewrite Es. split; [done|]. exists 2. unfold state_is.
  pose proof (rep_lookup _ _ Hrep GATEWAY_ASSIGNMENT_STATE_NAMESPACE
    (hex_encode (object_id (Demo.assignment 1)))) as Hl.
  unfold state_key. etrans; [symmetry; apply Hl|].
  - by apply contains_nul_false; vm_compute.
  - apply hex_encode_nul.
  - rewrite <- Es. vm_compute. reflexivity.
Qed.

Lemma drain_is_final_witness :
  ∃ v : View, represents demo_drained.2 v ∧ drained v (object_id (Demo.assignment 1)) ∧
    ∃ rs n1 s1 v1, run_handoffs alone [CallTransition Demo.manifest (Demo.assignment 2) Demo.transition]
        demo_drained = (rs, (n1, s1)) ∧ represents s1 v1 ∧
      v1 !! cursor_key (object_id (Demo.assignment 1)) = v !! cursor_key (object_id (Demo.assignment 1)) ∧
      (prepare_capture_disposition alone Demo.manifest (Demo.assignment 1) (Demo.envelope 3 9)
         (Demo.receipt 3 9) (n1, s1)).1 = Err HE_Sequence.
Proof.
  destruct demo_drained_view as (v & Hrep & Hd). exists v. split; [exact Hrep|]. split; [exact Hd|].
  assert (Forall typed_call [CallTransition Demo.manifest (Demo.assignment 2) Demo.transition]) as Ht.
  { apply Forall_cons. split; [|apply Forall_nil_2]. exact (demo_assignment_typed 2 (or_intror eq_refl)). }
  destruct (drain_is_final alone alone_rely _ Demo.manifest (Demo.assignment 1) (Demo.envelope 3 9)
    (Demo.receipt 3 9) demo_drained.1 demo_drained.2 v Ht Hrep Hd)
    as (rs & n1 & s1 & v1 & E & Hrep1 & Ec & _ & _).
  rewrite <- surjective_pairing in E.
  exists rs, n1, s1, v1. split; [exact E|]. split; [exact Hrep1|]. split; [exact Ec|].
  replace (n1, s1) with
    (run_handoffs alone [CallTransition Demo.manifest (Demo.assignment 2) Demo.transition] demo_drained).2
    by (rewrite E; reflexivity).
  vm_compute. reflexivity.
Defined.
End DemoRun.
