(* ===== verification/Share.v ===== *)
(** * Share validation (crates/meshmine-share/src/lib.rs)

    Committee rosters and their certificates, and the validation of a share
    against its signed context (exact and gateway assignments). The local HNS
    node, which checks a certified parent, is a boolean function of the
    certificate. *)

From S2P Require Import Prelude Codec Hash Types Objects Header Target.
From S2P Require Import Merkle Storage Journal Crypto HandoffObjects Handoff.

Inductive CommitteeRole := RoleMask | RoleReceipt | RoleAvailability | RoleSettlement.
#[export] Instance CommitteeRole_eq_dec : EqDecision CommitteeRole.
Proof. solve_decision. Defined.
(** [role as u16] *)
Definition role_code (role : CommitteeRole) : Z :=
  match role with RoleMask => 1 | RoleReceipt => 2 | RoleAvailability => 3 | RoleSettlement => 4 end.

Definition MAX_COMMITTEE_MEMBERS : Z := 256.

Record CommitteeRoster := mkCommitteeRoster {
  cr_protocol_version : Z;
  cr_network_id : Z;
  cr_role : CommitteeRole;
  cr_epoch : Z;
  cr_threshold : Z;
  cr_members : gset bytes;
}.

Record ValidatedShare := mkValidatedShare {
  vs_share : ShareV2;
  vs_share_id : Hash256;
  vs_work_key : Hash256;
  vs_credited_work : U512;
}.
#[export] Instance ValidatedShare_eq_dec : EqDecision ValidatedShare.
Proof. solve_decision. Defined.

Inductive ShareError :=
| SE_Linkage (what : string)
| GatewayHandoff (e : HandoffError)
| OperatorSignature (e : CryptoError)
| CertificateThreshold
| InvalidCommitteeRoster
| IneligibleSigner
| CommitteeMismatch
| InactivePayoutBucket
| RawShareHash
| CaptureTarget
| InvalidNetworkTarget
| DuplicateWork
| MissingParent
| CrossSessionParent
| ParentTooOld
| MaximumDepth
| DuplicateShare
| WorkOverflow
| NotEquivocation
| ParentOracleRejected
| SessionNotOpen
| InvalidCaptureProfile
| SE_Durable (e : DurableInvariantError)
| InvalidReceiptChain
| InvalidSessionClose.

(** A [BTreeSet] of keys in iteration order. *)
Definition set_to_sorted (s : gset bytes) : list bytes := merge_sort bytes_le (elements s).

(** [self.parent_oracle.verify_header_and_chainwork(certificate)] *)
Abbreviation ParentChainOracle := (SessionParentCertificateV2 → bool).

Record ShareValidationContext := mkShareValidationContext {
  svc_assignment : AssignmentV2;
  svc_session : MaskSessionV2;
  svc_parent_certificate : SessionParentCertificateV2;
  svc_body : BlockBodyPackageV2;
  svc_descriptor : BodyErasureDescriptorV2;
  svc_body_certificate : BodyAvailabilityCertificateV2;
  svc_payout_bucket : PayoutBucketV2;
  svc_mask_roster : CommitteeRoster;
  svc_availability_roster : CommitteeRoster;
  svc_settlement_roster : CommitteeRoster;
  svc_observed_ms : Z;
  svc_parent_oracle : ParentChainOracle;
}.

Record GatewayShareValidationContext := mkGatewayShareValidationContext {
  gsv_assignment : GatewayAssignmentV1;
  gsv_context_manifest : GatewayContextManifestV1;
  gsv_capture_envelope : GatewayCaptureEnvelopeV1;
  gsv_session : MaskSessionV2;
  gsv_parent_certificate : SessionParentCertificateV2;
  gsv_body : BlockBodyPackageV2;
  gsv_descriptor : BodyErasureDescriptorV2;
  gsv_body_certificate : BodyAvailabilityCertificateV2;
  gsv_payout_bucket : PayoutBucketV2;
  gsv_mask_roster : CommitteeRoster;
  gsv_availability_roster : CommitteeRoster;
  gsv_settlement_roster : CommitteeRoster;
  gsv_core_received_ms : Z;
  gsv_parent_oracle : ParentChainOracle;
}.

Record CommonShareValidationContext := mkCommonShareValidationContext {
  csv_session : MaskSessionV2;
  csv_parent_certificate : SessionParentCertificateV2;
  csv_body : BlockBodyPackageV2;
  csv_descriptor : BodyErasureDescriptorV2;
  csv_body_certificate : BodyAvailabilityCertificateV2;
  csv_payout_bucket : PayoutBucketV2;
  csv_mask_roster : CommitteeRoster;
  csv_availability_roster : CommitteeRoster;
  csv_settlement_roster : CommitteeRoster;
  csv_observed_ms : Z;
  csv_parent_oracle : ParentChainOracle;
}.

Inductive AssignmentSignature :=
| SignedExact (assignment : AssignmentV2)
| SignedGateway (assignment : GatewayAssignmentV1).

Record AssignmentView := mkAssignmentView {
  av_protocol_version : Z;
  av_network_id : Z;
  av_object_id : Hash256;
  av_session_id : Hash256;
  av_body_package_id : Hash256;
  av_body_certificate_id : Hash256;
  av_operator_pubkey : bytes;
  av_payout_bucket_id : Hash256;
  av_ntime : Z;
  av_edge_target : U256;
  av_capture_target : U256;
  av_extra_nonce_authorized : bool;
  av_signed : AssignmentSignature;
}.

Definition common_of_context (c : ShareValidationContext) : CommonShareValidationContext :=
  mkCommonShareValidationContext c.(svc_session) c.(svc_parent_certificate) c.(svc_body)
    c.(svc_descriptor) c.(svc_body_certificate) c.(svc_payout_bucket) c.(svc_mask_roster)
    c.(svc_availability_roster) c.(svc_settlement_roster) c.(svc_observed_ms) c.(svc_parent_oracle).

Definition gateway_common (c : GatewayShareValidationContext) (observed_ms : Z) :
    CommonShareValidationContext :=
  mkCommonShareValidationContext c.(gsv_session) c.(gsv_parent_certificate) c.(gsv_body)
    c.(gsv_descriptor) c.(gsv_body_certificate) c.(gsv_payout_bucket) c.(gsv_mask_roster)
    c.(gsv_availability_roster) c.(gsv_settlement_roster) observed_ms c.(gsv_parent_oracle).

(** ** Targets and work *)

(** The low 64 bytes, left-padded with zeros. *)
Definition biguint_to_u512 (value : Z) : U512 :=
  let bs := to_bytes_be value in
  replicate (64 - length bs)%nat x00 ++ drop (length bs - 64)%nat bs.

Definition work_for_target (target : U256) : U512 :=
  biguint_to_u512 (Z.shiftl 1 256 / (of_be target + 1)).

Definition compact_target_u256 (bits : Z) : result ShareError U256 :=
  let target := compact_to_target bits in
  if (target <=? 0) || (256 <? big_bits target) then Err InvalidNetworkTarget
  else let bs := to_bytes_be target in Ok (replicate (32 - length bs)%nat x00 ++ bs).

(** ** Rosters *)

Definition roster_validate (r : CommitteeRoster) : result ShareError unit :=
  let members := Z.of_nat (size r.(cr_members)) in
  if (members =? 0) || (MAX_COMMITTEE_MEMBERS <? members) || (r.(cr_threshold) =? 0)
     || (members <? r.(cr_threshold))
  then Err InvalidCommitteeRoster else Ok tt.

Section Validation.
Context `{Digests} `{Ed25519}.

Definition roster_bytes (r : CommitteeRoster) : bytes :=
  to_le 2 r.(cr_protocol_version) ++ [z2b r.(cr_network_id)] ++ to_le 2 (role_code r.(cr_role)) ++
  to_le 8 r.(cr_epoch) ++ to_le 2 r.(cr_threshold) ++ concat (set_to_sorted r.(cr_members)).
Definition roster_id (r : CommitteeRoster) : Hash256 :=
  domain_hash (str "meshmine/committee-roster/v2") (roster_bytes r).

Definition roster_verify {T} `{UnsignedObject T} (r : CommitteeRoster) (signer_set : SignatureSet)
    (object : T) : result ShareError unit :=
  _ ← roster_validate r;
  _ ← map_err OperatorSignature (verify_certificate signer_set r.(cr_network_id) object);
  if len signer_set.(signatures) <? r.(cr_threshold) then Err CertificateThreshold
  else if existsb (λ s, bool_decide (s.(signer_pubkey) ∉ r.(cr_members))) signer_set.(signatures)
  then Err IneligibleSigner
  else Ok tt.

(** ** Assignments *)

Definition view_exact (assignment : AssignmentV2) (extra_nonce : bytes) : AssignmentView :=
  mkAssignmentView assignment.(asg_protocol_version) assignment.(asg_network_id)
    (object_id assignment) assignment.(asg_session_id) assignment.(asg_body_package_id)
    assignment.(asg_body_certificate_id) assignment.(asg_operator_pubkey)
    assignment.(asg_payout_bucket_id) assignment.(asg_ntime) assignment.(asg_edge_target)
    assignment.(asg_capture_target) (bool_decide (assignment.(asg_extra_nonce) = extra_nonce))
    (SignedExact assignment).

Definition view_gateway (assignment : GatewayAssignmentV1) (extra_nonce : bytes) :
    result ShareError AssignmentView :=
  if negb (assignment.(ga_core_protocol_version) =? CORE_V2)
     || negb (assignment.(ga_handoff_version) =? GATEWAY_HANDOFF_V1)
     || bool_decide (assignment.(ga_gateway_pubkey) = zero_hash)
     || bool_decide (assignment.(ga_core_handoff_pubkey) = zero_hash)
     || bool_decide (assignment.(ga_gateway_pubkey) = assignment.(ga_core_handoff_pubkey))
     || negb (known_policy assignment.(ga_observation_policy))
     || (MAX_GATEWAY_CLOCK_SKEW_MS <? assignment.(ga_maximum_clock_skew_ms))
     || ((assignment.(ga_observation_policy) =? GATEWAY_OBSERVATION_CORE_RECEIPT_TIME)
         && negb (assignment.(ga_maximum_clock_skew_ms) =? 0))
  then Err (SE_Linkage "gateway assignment version or handoff identities")
  else Ok (mkAssignmentView assignment.(ga_core_protocol_version) assignment.(ga_network_id)
    (object_id assignment) assignment.(ga_session_id) assignment.(ga_body_package_id)
    assignment.(ga_body_certificate_id) assignment.(ga_operator_pubkey)
    assignment.(ga_payout_bucket_id) assignment.(ga_ntime) assignment.(ga_edge_target)
    assignment.(ga_capture_target) (accepts_extra_nonce assignment extra_nonce)
    (SignedGateway assignment)).

(** [Ok(verify_object(..)?)] with [#[from] CryptoError] *)
Definition verify_operator {T} `{UnsignedObject T} (key : bytes) (signature : SignatureBytes)
    (network_id : Z) (object : T) : result ShareError unit :=
  map_err OperatorSignature (verify_object key ED25519_SUITE signature network_id object).

Definition view_verify_signature (v : AssignmentView) : result ShareError unit :=
  match v.(av_signed) with
  | SignedExact assignment =>
      verify_operator v.(av_operator_pubkey) assignment.(asg_operator_signature) v.(av_network_id)
        assignment
  | SignedGateway assignment =>
      verify_operator v.(av_operator_pubkey) assignment.(ga_operator_signature) v.(av_network_id)
        assignment
  end.

(** ** Share validation

    [validate_share_with_assignment] in its six stages: versions, session window
    and object links; operator signatures; committee certificates; payout bucket;
    target profile; the proof itself, before the local HNS node is asked. *)

Definition check_links (share : ShareV2) (assignment : AssignmentView)
    (context : CommonShareValidationContext) : result ShareError unit :=
  let session := context.(csv_session) in
  let body := context.(csv_body) in
  let core := body.(bbp_template_core) in
  let parent := context.(csv_parent_certificate) in
  let certificate := context.(csv_body_certificate) in
  if negb (share.(sh_protocol_version) =? assignment.(av_protocol_version))
     || negb (share.(sh_protocol_version) =? session.(ms_protocol_version))
     || negb (share.(sh_protocol_version) =? body.(bbp_protocol_version))
     || negb (share.(sh_network_id) =? assignment.(av_network_id))
     || negb (share.(sh_network_id) =? session.(ms_network_id))
     || negb (share.(sh_network_id) =? body.(bbp_network_id))
  then Err (SE_Linkage "protocol version or network")
  else if (context.(csv_observed_ms) <? session.(ms_assignment_start_ms))
     || (session.(ms_submission_end_ms) <? context.(csv_observed_ms))
     || (session.(ms_assignment_end_ms) <? session.(ms_assignment_start_ms))
     || (session.(ms_submission_end_ms) <? session.(ms_assignment_end_ms))
     || (session.(ms_timed_open_after_ms) <? session.(ms_submission_end_ms))
  then Err SessionNotOpen
  else
    _ ← map_err (λ _, SE_Linkage "DAG parent syntax") (validate_parents share);
    if bool_decide (assignment.(av_object_id) ≠ share.(sh_assignment_id))
    then Err (SE_Linkage "share assignment ID")
    else if bool_decide (object_id session ≠ share.(sh_session_id))
       || bool_decide (assignment.(av_session_id) ≠ share.(sh_session_id))
    then Err (SE_Linkage "share session ID")
    else if bool_decide (object_id body ≠ share.(sh_body_package_id))
       || bool_decide (assignment.(av_body_package_id) ≠ share.(sh_body_package_id))
    then Err (SE_Linkage "share body package ID")
    else if bool_decide (object_id context.(csv_descriptor) ≠ certificate.(bac_descriptor_id))
       || bool_decide (context.(csv_descriptor).(bed_body_package_id) ≠ object_id body)
    then Err (SE_Linkage "availability descriptor")
    else if bool_decide (object_id certificate ≠ assignment.(av_body_certificate_id))
    then Err (SE_Linkage "body certificate ID")
    else if bool_decide (object_id parent ≠ session.(ms_parent_certificate_id))
       || bool_decide (parent.(spc_parent_hash) ≠ session.(ms_parent_hash))
       || bool_decide (parent.(spc_parent_hash) ≠ core.(tc_hns_parent_hash))
       || negb (parent.(spc_parent_height) =? core.(tc_hns_parent_height))
    then Err (SE_Linkage "certified HNS parent")
    else if bool_decide (certificate.(bac_parent_hash) ≠ session.(ms_parent_hash))
       || negb (certificate.(bac_parent_height) =? parent.(spc_parent_height))
       || bool_decide (certificate.(bac_consensus_validation_result_hash) ≠
                       body.(bbp_consensus_validation_result_hash))
    then Err (SE_Linkage "body certificate context")
    else if bool_decide (share.(sh_operator_pubkey) ≠ assignment.(av_operator_pubkey))
       || bool_decide (share.(sh_operator_pubkey) ≠ core.(tc_operator_pubkey))
       || bool_decide (share.(sh_operator_pubkey) ≠ context.(csv_payout_bucket).(pb_operator_pubkey))
       || bool_decide (share.(sh_payout_bucket_id) ≠ assignment.(av_payout_bucket_id))
       || bool_decide (share.(sh_payout_bucket_id) ≠ object_id context.(csv_payout_bucket))
    then Err (SE_Linkage "operator or payout bucket")
    else Ok tt.

Definition verify_signatures (share : ShareV2) (assignment : AssignmentView)
    (context : CommonShareValidationContext) : result ShareError unit :=
  let body := context.(csv_body) in
  let bucket := context.(csv_payout_bucket) in
  _ ← verify_operator share.(sh_operator_pubkey) body.(bbp_operator_signature)
        body.(bbp_network_id) body;
  _ ← view_verify_signature assignment;
  _ ← verify_operator share.(sh_operator_pubkey) bucket.(pb_signature) bucket.(pb_network_id) bucket;
  verify_operator share.(sh_operator_pubkey) share.(sh_operator_signature) share.(sh_network_id) share.

Definition verify_committees (context : CommonShareValidationContext) : result ShareError unit :=
  let session := context.(csv_session) in
  if bool_decide (context.(csv_mask_roster).(cr_role) ≠ RoleMask)
     || bool_decide (roster_id context.(csv_mask_roster) ≠ session.(ms_mask_committee_id))
     || bool_decide (context.(csv_availability_roster).(cr_role) ≠ RoleAvailability)
     || bool_decide (context.(csv_settlement_roster).(cr_role) ≠ RoleSettlement)
  then Err CommitteeMismatch
  else
    _ ← roster_verify context.(csv_mask_roster) session.(ms_signer_set) session;
    _ ← roster_verify context.(csv_availability_roster)
          context.(csv_body_certificate).(bac_signer_set) context.(csv_body_certificate);
    roster_verify context.(csv_settlement_roster)
      context.(csv_parent_certificate).(spc_signer_set) context.(csv_parent_certificate).

Definition check_payout_bucket (context : CommonShareValidationContext) : result ShareError unit :=
  assignment_height ←
    ok_or (checked_add 32 context.(csv_body).(bbp_template_core).(tc_hns_parent_height) 1)
      (SE_Linkage "assignment height overflow");
  if (assignment_height <? context.(csv_payout_bucket).(pb_activation_height))
     || match context.(csv_payout_bucket).(pb_retirement_height) with
        | Some height => height <=? assignment_height
        | None => false
        end
  then Err InactivePayoutBucket else Ok tt.

Definition check_targets (share : ShareV2) (assignment : AssignmentView)
    (context : CommonShareValidationContext) : result ShareError unit :=
  let session := context.(csv_session) in
  let bits := context.(csv_body).(bbp_template_core).(tc_bits) in
  if negb (share.(sh_ntime) =? assignment.(av_ntime))
     || negb assignment.(av_extra_nonce_authorized)
     || bool_decide (share.(sh_declared_target) ≠ session.(ms_capture_target))
     || bool_decide (assignment.(av_capture_target) ≠ session.(ms_capture_target))
     || bytes_ltb assignment.(av_edge_target) session.(ms_capture_target)
     || bool_decide (session.(ms_accounting_target) ≠ session.(ms_capture_target))
  then Err (SE_Linkage "assignment proof fields or baseline targets")
  else
    expected_network_target ← compact_target_u256 bits;
    expected_capture ← map_err (λ _, InvalidCaptureProfile)
      (derive_capture_parameters bits session.(ms_blind_band_bits_d));
    if bool_decide (session.(ms_hns_network_target) ≠ expected_network_target)
       || bool_decide (session.(ms_hns_network_target) ≠ expected_capture.(cp_network_target))
       || negb (session.(ms_leading_zero_prefix_q) =? expected_capture.(cp_leading_zero_prefix_q))
       || bool_decide (session.(ms_capture_target) ≠ expected_capture.(cp_capture_target))
    then Err InvalidCaptureProfile else Ok tt.

(** The miner header a share stands for. *)
Definition share_header (share : ShareV2) (context : CommonShareValidationContext) : MinerHeader :=
  let body := context.(csv_body) in
  let core := body.(bbp_template_core) in
  mkMinerHeader share.(sh_nonce) share.(sh_ntime) core.(tc_hns_parent_hash) body.(bbp_tree_root)
    context.(csv_session).(ms_mask_hash) share.(sh_extra_nonce) body.(bbp_reserved_root)
    body.(bbp_witness_root) body.(bbp_merkle_root) core.(tc_block_version) core.(tc_bits).

Definition check_proof (share : ShareV2) (context : CommonShareValidationContext) :
    result ShareError unit :=
  let raw_share_hash := mh_share_hash (share_header share context) in
  if bool_decide (raw_share_hash ≠ share.(sh_raw_share_hash)) then Err RawShareHash
  else if bytes_ltb context.(csv_session).(ms_capture_target) raw_share_hash then Err CaptureTarget
  else Ok tt.

Definition validate_share_with_assignment (share : ShareV2) (assignment : AssignmentView)
    (context : CommonShareValidationContext) : result ShareError ValidatedShare :=
  _ ← check_links share assignment context;
  _ ← verify_signatures share assignment context;
  _ ← verify_committees context;
  _ ← check_payout_bucket context;
  _ ← check_targets share assignment context;
  _ ← check_proof share context;
  if negb (context.(csv_parent_oracle) context.(csv_parent_certificate))
  then Err ParentOracleRejected
  else Ok (mkValidatedShare share (object_id share) (work_key share)
             (work_for_target context.(csv_session).(ms_capture_target))).

Definition validate_share (share : ShareV2) (context : ShareValidationContext) :
    result ShareError ValidatedShare :=
  let assignment := view_exact context.(svc_assignment) share.(sh_extra_nonce) in
  validate_share_with_assignment share assignment (common_of_context context).

Definition validate_gateway_share (share : ShareV2) (context : GatewayShareValidationContext) :
    result ShareError ValidatedShare :=
  let envelope := context.(gsv_capture_envelope) in
  _ ← map_err GatewayHandoff
        (validate_context_manifest context.(gsv_context_manifest) context.(gsv_core_received_ms));
  observed_ms ← map_err GatewayHandoff
    (validate_capture_envelope context.(gsv_context_manifest) context.(gsv_assignment) envelope
       context.(gsv_core_received_ms));
  if negb (envelope.(gce_ntime) =? share.(sh_ntime))
     || bool_decide (envelope.(gce_extra_nonce) ≠ share.(sh_extra_nonce))
     || negb (envelope.(gce_nonce) =? share.(sh_nonce))
     || bool_decide (envelope.(gce_raw_share_hash) ≠ share.(sh_raw_share_hash))
     || bool_decide (share.(sh_local_telemetry_hash) ≠ Some (object_id envelope))
  then Err (SE_Linkage "gateway capture envelope")
  else
    assignment ← view_gateway context.(gsv_assignment) share.(sh_extra_nonce);
    validate_share_with_assignment share assignment (gateway_common context observed_ms).
End Validation.

(** ** Numbers *)

Lemma big_bits_le v n : 0 ≤ n → 0 ≤ v → (n <? big_bits v) = false ↔ v < 2 ^ n.
Proof.
  intros Hn Hv. rewrite Z.ltb_ge. unfold big_bits. destruct (Z.eqb_spec v 0) as [->|].
  - pose proof (Z.pow_pos_nonneg 2 n ltac:(lia) Hn). lia.
  - rewrite Z.abs_eq by done. rewrite (Z.log2_lt_pow2 v n) by lia. lia.
Qed.

Lemma biguint_to_u512_spec v : 0 ≤ v < 2 ^ 512 → biguint_to_u512 v = to_be 64 v.
Proof.
  intros Hv. unfold biguint_to_u512, to_bytes_be.
  assert (0 < bytes_be_len v ≤ 64 ∧ v < 256 ^ bytes_be_len v) as [Hl Hb].
  { destruct (decide (v = 0)) as [->|]; [done|].
    pose proof (bytes_be_len_le v 64 ltac:(change (256 ^ 64) with (2 ^ 512); lia)).
    pose proof (bytes_be_len_bounds v ltac:(lia)). lia. }
  rewrite to_be_length. replace (Z.to_nat (bytes_be_len v) - 64)%nat with 0%nat by lia.
  rewrite drop_0. apply of_be_inj.
  - rewrite length_app, length_replicate, !to_be_length. lia.
  - rewrite of_be_app, of_be_replicate_0, !of_to_be; [lia| |]; [done|]. rewrite Z2Nat.id by lia. lia.
Qed.

(** ** Certificates of a roster *)

Section Certified.
Context `{Digests} `{Ed25519}.

(** At least a threshold of distinct members signed the object. *)
Definition certified {T} `{UnsignedObject T} (r : CommitteeRoster) (signer_set : SignatureSet)
    (object : T) : Prop :=
  signer_set.(signature_suite) = ED25519_SUITE ∧
  keys_increase signer_pubkey signer_set.(signatures) ∧
  Forall (λ e, signed_by r.(cr_network_id) object e.(signer_pubkey) e.(ss_signature))
    signer_set.(signatures) ∧
  r.(cr_threshold) ≤ len signer_set.(signatures) ∧
  Forall (λ e, e.(signer_pubkey) ∈ r.(cr_members)) signer_set.(signatures).

Lemma roster_verify_ok {T} `{UnsignedObject T} r signer_set (object : T) :
  roster_verify r signer_set object = Ok tt ↔
  roster_validate r = Ok tt ∧ certified r signer_set object.
Proof.
  unfold roster_verify, certified. rewrite bind_ok. setoid_rewrite bind_ok.
  setoid_rewrite map_err_ok.
  assert (∀ l, existsb (λ s, bool_decide (s.(signer_pubkey) ∉ r.(cr_members))) l = false ↔
    Forall (λ e, e.(signer_pubkey) ∈ r.(cr_members)) l) as He.
  { induction l as [|x l IH]; cbn; [split; [constructor|done]|].
    rewrite orb_false_iff, IH, Forall_cons, bool_decide_eq_false.
    destruct (decide (x.(signer_pubkey) ∈ r.(cr_members))); tauto. }
  rewrite <- He. split.
  - intros ([] & Hv & [] & Hc & Hrest). apply verify_certificate_ok in Hc as (? & ? & ?).
    destruct (Z.ltb_spec (len signer_set.(signatures)) r.(cr_threshold)); [done|].
    destruct (existsb _ _); [done|]. split_and!; done.
  - intros (Hv & ? & ? & ? & Ht & Hm). exists tt. split; [done|]. exists tt.
    rewrite verify_certificate_ok. split; [done|]. rewrite (proj2 (Z.ltb_ge _ _) Ht), Hm. done.
Qed.
End Certified.

(** ** What validation establishes *)

Section Validated.
Context `{Digests} `{Ed25519}.

(** Checks that return early, as propositions. *)
Lemma if_err_ok {E A} (c : bool) (e : E) (m : result E A) x :
  (if c then Err e else m) = Ok x ↔ c = false ∧ m = Ok x.
Proof. destruct c; naive_solver. Qed.
Lemma bool_decide_ne_false {A} `{EqDecision A} (x y : A) : bool_decide (x ≠ y) = false ↔ x = y.
Proof. rewrite bool_decide_eq_false. split; [apply dec_stable|tauto]. Qed.
Lemma unit_bind_ok {E A} (m : result E unit) (k : result E A) x : m ≫= (λ _, k) = Ok x ↔ m = Ok tt ∧ k = Ok x.
Proof. rewrite bind_ok. split; [by intros ([] & ? & ?)|by exists tt]. Qed.

(** The conditions under which a sequence of checks passes. *)
Ltac checks_iff :=
  repeat first [rewrite if_err_ok | rewrite unit_bind_ok | rewrite map_err_ok];
  rewrite ?orb_false_iff, ?negb_false_iff, ?Z.eqb_eq, ?Z.ltb_ge, ?bool_decide_ne_false.

(** The conditions of passed checks, as equations and bounds. *)
Ltac passed_checks :=
  inv_ok;
  repeat match goal with
  | H : _ || _ = false |- _ => apply orb_false_iff in H as [H ?]
  | H : negb _ = false |- _ => apply negb_false_iff in H
  | H : (_ =? _) = true |- _ => apply Z.eqb_eq in H
  | H : (_ <? _) = false |- _ => apply Z.ltb_ge in H
  | H : bool_decide (_ ≠ _) = false |- _ => apply bool_decide_eq_false, dec_stable in H
  end.

(** *** Links: every object names the others by identity. *)
Record share_linked (share : ShareV2) (assignment : AssignmentView) (context : CommonShareValidationContext) : Prop := {
  sl_versions : share.(sh_protocol_version) = assignment.(av_protocol_version) ∧
    share.(sh_protocol_version) = context.(csv_session).(ms_protocol_version) ∧
    share.(sh_protocol_version) = context.(csv_body).(bbp_protocol_version);
  sl_networks : share.(sh_network_id) = assignment.(av_network_id) ∧
    share.(sh_network_id) = context.(csv_session).(ms_network_id) ∧
    share.(sh_network_id) = context.(csv_body).(bbp_network_id);
  sl_observed : context.(csv_session).(ms_assignment_start_ms) ≤ context.(csv_observed_ms) ≤
    context.(csv_session).(ms_submission_end_ms);
  sl_window : context.(csv_session).(ms_assignment_start_ms) ≤ context.(csv_session).(ms_assignment_end_ms) ≤
    context.(csv_session).(ms_submission_end_ms) ∧
    context.(csv_session).(ms_submission_end_ms) ≤ context.(csv_session).(ms_timed_open_after_ms);
  sl_parents : len share.(sh_gossip_parent_hashes) ≤ MAX_DAG_PARENTS ∧ NoDup share.(sh_gossip_parent_hashes);
  sl_assignment : assignment.(av_object_id) = share.(sh_assignment_id);
  sl_session : object_id context.(csv_session) = share.(sh_session_id) ∧
    assignment.(av_session_id) = share.(sh_session_id);
  sl_body : object_id context.(csv_body) = share.(sh_body_package_id) ∧
    assignment.(av_body_package_id) = share.(sh_body_package_id);
  sl_descriptor : object_id context.(csv_descriptor) = context.(csv_body_certificate).(bac_descriptor_id) ∧
    context.(csv_descriptor).(bed_body_package_id) = object_id context.(csv_body);
  sl_certificate : object_id context.(csv_body_certificate) = assignment.(av_body_certificate_id);
  sl_parent : object_id context.(csv_parent_certificate) = context.(csv_session).(ms_parent_certificate_id) ∧
    context.(csv_parent_certificate).(spc_parent_hash) = context.(csv_session).(ms_parent_hash) ∧
    context.(csv_parent_certificate).(spc_parent_hash) = context.(csv_body).(bbp_template_core).(tc_hns_parent_hash) ∧
    context.(csv_parent_certificate).(spc_parent_height) = context.(csv_body).(bbp_template_core).(tc_hns_parent_height);
  sl_certificate_context : context.(csv_body_certificate).(bac_parent_hash) = context.(csv_session).(ms_parent_hash) ∧
    context.(csv_body_certificate).(bac_parent_height) = context.(csv_parent_certificate).(spc_parent_height) ∧
    context.(csv_body_certificate).(bac_consensus_validation_result_hash) =
      context.(csv_body).(bbp_consensus_validation_result_hash);
  sl_operator : share.(sh_operator_pubkey) = assignment.(av_operator_pubkey) ∧
    share.(sh_operator_pubkey) = context.(csv_body).(bbp_template_core).(tc_operator_pubkey) ∧
    share.(sh_operator_pubkey) = context.(csv_payout_bucket).(pb_operator_pubkey);
  sl_bucket : share.(sh_payout_bucket_id) = assignment.(av_payout_bucket_id) ∧
    share.(sh_payout_bucket_id) = object_id context.(csv_payout_bucket);
}.

Lemma validate_parents_iff share :
  validate_parents share = Ok tt ↔
  len share.(sh_gossip_parent_hashes) ≤ MAX_DAG_PARENTS ∧ NoDup share.(sh_gossip_parent_hashes).
Proof.
  unfold validate_parents. rewrite if_err_ok, Z.ltb_ge. apply and_iff_compat_l.
  transitivity (Z.of_nat (size (list_to_set share.(sh_gossip_parent_hashes) : gset bytes)) = len share.(sh_gossip_parent_hashes)).
  - destruct (Z.eqb_spec (Z.of_nat (size (list_to_set share.(sh_gossip_parent_hashes) : gset bytes)))
      (len share.(sh_gossip_parent_hashes))); naive_solver.
  - unfold len. rewrite Nat2Z.inj_iff. generalize (sh_gossip_parent_hashes share). intros l. split; [|apply size_list_to_set].
    induction l as [|x l IH]; [constructor|]. cbn [list_to_set length]. intros Hl.
    assert (size (list_to_set l : gset bytes) ≤ length l)%nat as Hle.
    { clear. induction l as [|y l IH]; [done|]. cbn [list_to_set length].
      pose proof (size_union_alt ({[y]} : gset bytes) (list_to_set l)) as E. rewrite size_singleton in E.
      pose proof (subseteq_size (list_to_set l ∖ {[y]} : gset bytes) (list_to_set l) ltac:(set_solver)). lia. }
    destruct (decide (x ∈ l)) as [Hx|Hx].
    + assert (({[x]} ∪ list_to_set l : gset bytes) = list_to_set l) as E by set_solver. rewrite E in Hl. lia.
    + rewrite size_union, size_singleton in Hl by set_solver. constructor; [done|]. apply IH. lia.
Qed.

Lemma check_links_iff share assignment context :
  check_links share assignment context = Ok tt ↔ share_linked share assignment context.
Proof.
  unfold check_links. checks_iff. rewrite validate_parents_iff. split.
  - intros Hc. destruct_and!. by split.
  - intros []. destruct_and!. by split_and!.
Qed.

(** *** Signatures of the operator. *)
Definition assignment_signed (v : AssignmentView) : Prop :=
  match v.(av_signed) with
  | SignedExact a => signed_by v.(av_network_id) a v.(av_operator_pubkey) a.(asg_operator_signature)
  | SignedGateway a => signed_by v.(av_network_id) a v.(av_operator_pubkey) a.(ga_operator_signature)
  end.
Record operator_signed (share : ShareV2) (assignment : AssignmentView) (context : CommonShareValidationContext) : Prop := {
  os_share : signed_by share.(sh_network_id) share share.(sh_operator_pubkey) share.(sh_operator_signature);
  os_body : signed_by context.(csv_body).(bbp_network_id) context.(csv_body) share.(sh_operator_pubkey)
    context.(csv_body).(bbp_operator_signature);
  os_bucket : signed_by context.(csv_payout_bucket).(pb_network_id) context.(csv_payout_bucket) share.(sh_operator_pubkey)
    context.(csv_payout_bucket).(pb_signature);
  os_assignment : assignment_signed assignment;
}.

Lemma verify_operator_iff {T} `{UnsignedObject T} key signature network_id (object : T) :
  verify_operator key signature network_id object = Ok tt ↔ signed_by network_id object key signature.
Proof. unfold verify_operator. rewrite map_err_ok, verify_object_ok. tauto. Qed.

Lemma verify_signatures_iff share assignment context :
  verify_signatures share assignment context = Ok tt ↔ operator_signed share assignment context.
Proof.
  unfold verify_signatures. rewrite !unit_bind_ok, !verify_operator_iff.
  assert (view_verify_signature assignment = Ok tt ↔ assignment_signed assignment) as ->.
  { unfold view_verify_signature, assignment_signed. destruct assignment.(av_signed); apply verify_operator_iff. }
  split; [intros (? & ? & ? & ?); by split|by intros []].
Qed.

(** *** Certificates of the committees. *)
Definition committee_of (r : CommitteeRoster) (role : CommitteeRole) : Prop :=
  r.(cr_role) = role ∧ 0 < Z.of_nat (size r.(cr_members)) ≤ MAX_COMMITTEE_MEMBERS ∧
  r.(cr_threshold) ≠ 0 ∧ r.(cr_threshold) ≤ Z.of_nat (size r.(cr_members)).
Record committees_certified (context : CommonShareValidationContext) : Prop := {
  cc_mask : committee_of context.(csv_mask_roster) RoleMask ∧
    roster_id context.(csv_mask_roster) = context.(csv_session).(ms_mask_committee_id) ∧
    certified context.(csv_mask_roster) context.(csv_session).(ms_signer_set) context.(csv_session);
  cc_availability : committee_of context.(csv_availability_roster) RoleAvailability ∧
    certified context.(csv_availability_roster) context.(csv_body_certificate).(bac_signer_set) context.(csv_body_certificate);
  cc_settlement : committee_of context.(csv_settlement_roster) RoleSettlement ∧
    certified context.(csv_settlement_roster) context.(csv_parent_certificate).(spc_signer_set) context.(csv_parent_certificate);
}.

Lemma roster_validate_iff r :
  roster_validate r = Ok tt ↔ 0 < Z.of_nat (size r.(cr_members)) ≤ MAX_COMMITTEE_MEMBERS ∧
    r.(cr_threshold) ≠ 0 ∧ r.(cr_threshold) ≤ Z.of_nat (size r.(cr_members)).
Proof. unfold roster_validate. rewrite if_err_ok, !orb_false_iff, !Z.eqb_neq, !Z.ltb_ge. split; [|naive_solver lia]. lia. Qed.

Lemma verify_committees_iff context : verify_committees context = Ok tt ↔ committees_certified context.
Proof.
  unfold verify_committees. checks_iff. rewrite !roster_verify_ok, !roster_validate_iff. split.
  - intros Hc. split; unfold committee_of; tauto.
  - intros []. unfold committee_of in *. tauto.
Qed.

(** *** The payout bucket at the height of the block. *)
Definition bucket_active (context : CommonShareValidationContext) : Prop :=
  let height := context.(csv_body).(bbp_template_core).(tc_hns_parent_height) + 1 in
  height < 2 ^ 32 ∧ context.(csv_payout_bucket).(pb_activation_height) ≤ height ∧
  ∀ retirement, context.(csv_payout_bucket).(pb_retirement_height) = Some retirement → height < retirement.

Lemma check_payout_bucket_iff context : check_payout_bucket context = Ok tt ↔ bucket_active context.
Proof.
  unfold check_payout_bucket, bucket_active. rewrite bind_ok.
  split.
  - intros (h & [-> Hh]%ok_or_ok%checked_add_some & Hc). rewrite if_err_ok, orb_false_iff, Z.ltb_ge in Hc.
    destruct Hc as [[Ha Hr] _]. split_and!; [lia|done|]. intros r Er. rewrite Er in Hr. by apply Z.leb_gt in Hr.
  - intros (Hh & Ha & Hr). eexists. split; [apply ok_or_ok, checked_add_some; split; [reflexivity|done]|].
    rewrite if_err_ok, orb_false_iff, Z.ltb_ge. split; [|done]. split; [done|].
    destruct (pb_retirement_height _) as [r|]; [|done]. apply Z.leb_gt. by apply Hr.
Qed.

(** *** The target profile of the session. *)
Record targets_agree (share : ShareV2) (assignment : AssignmentView) (context : CommonShareValidationContext) : Prop := {
  ta_ntime : share.(sh_ntime) = assignment.(av_ntime);
  ta_extra_nonce : assignment.(av_extra_nonce_authorized) = true;
  ta_declared : share.(sh_declared_target) = context.(csv_session).(ms_capture_target);
  ta_capture : assignment.(av_capture_target) = context.(csv_session).(ms_capture_target);
  ta_edge : bytes_le context.(csv_session).(ms_capture_target) assignment.(av_edge_target);
  ta_accounting : context.(csv_session).(ms_accounting_target) = context.(csv_session).(ms_capture_target);
  ta_profile : ∃ p, derive_capture_parameters context.(csv_body).(bbp_template_core).(tc_bits)
      context.(csv_session).(ms_blind_band_bits_d) = Ok p ∧
    context.(csv_session).(ms_hns_network_target) = p.(cp_network_target) ∧
    context.(csv_session).(ms_leading_zero_prefix_q) = p.(cp_leading_zero_prefix_q) ∧
    context.(csv_session).(ms_capture_target) = p.(cp_capture_target);
}.

(** Both derivations of the network target agree. *)
Lemma derive_network_target bits d p :
  derive_capture_parameters bits d = Ok p → compact_target_u256 bits = Ok p.(cp_network_target).
Proof.
  unfold derive_capture_parameters, compact_target_u256.
  destruct (Z.leb_spec (compact_to_target bits) 0), (Z.ltb_spec 0 (compact_to_target bits)); try lia; cbn [negb orb]; [done|].
  destruct (_ <? _); [done|]. destruct (_ || _); [done|]. by intros [= <-].
Qed.

Lemma check_targets_iff share assignment context :
  check_targets share assignment context = Ok tt ↔ targets_agree share assignment context.
Proof.
  unfold check_targets. rewrite if_err_ok, !orb_false_iff, !negb_false_iff, Z.eqb_eq, !bool_decide_ne_false, bytes_ltb_false. split.
  - intros [Hc Hp]. destruct_and!. split; try done. apply bind_ok in Hp as (t & _ & Hp).
    apply bind_ok in Hp as (p & Hp%map_err_ok & Hc). rewrite if_err_ok, !orb_false_iff, !negb_false_iff, Z.eqb_eq, !bool_decide_ne_false in Hc.
    exists p. tauto.
  - intros []. split; [by split_and!|]. destruct ta_profile0 as (p & Hp & ? & ? & ?).
    rewrite (derive_network_target _ _ _ Hp), Hp. cbn [map_err mbind result_bind].
    rewrite if_err_ok, !orb_false_iff, !negb_false_iff, Z.eqb_eq, !bool_decide_ne_false. by split_and!.
Qed.

Lemma check_targets_ok share assignment context :
  check_targets share assignment context = Ok tt →
  ∃ p, derive_capture_parameters context.(csv_body).(bbp_template_core).(tc_bits)
         context.(csv_session).(ms_blind_band_bits_d) = Ok p ∧
    context.(csv_session).(ms_leading_zero_prefix_q) = p.(cp_leading_zero_prefix_q) ∧
    context.(csv_session).(ms_capture_target) = p.(cp_capture_target).
Proof. intros [_ _ _ _ _ _ (p & ? & _ & ? & ?)]%check_targets_iff. by exists p. Qed.

(** *** The proof of work. *)
Lemma check_proof_iff share context :
  check_proof share context = Ok tt ↔
  share.(sh_raw_share_hash) = mh_share_hash (share_header share context) ∧
  bytes_le share.(sh_raw_share_hash) context.(csv_session).(ms_capture_target).
Proof.
  unfold check_proof. cbn zeta. rewrite !if_err_ok, bool_decide_ne_false, bytes_ltb_false. split.
  - intros (E & Hle & _). by rewrite <- E.
  - intros [E Hle]. rewrite <- E. by split_and!.
Qed.

(** The capture target [2^(256-q) - 1] is worth [2^q] hashes. *)
Lemma capture_work (target : U256) q :
  0 < q < 256 → of_be target = 2 ^ (256 - q) - 1 → work_for_target target = to_be 64 (2 ^ q).
Proof.
  intros Hq Ht. unfold work_for_target. rewrite Ht.
  replace (2 ^ (256 - q) - 1 + 1) with (2 ^ (256 - q)) by lia.
  assert (Z.shiftl 1 256 / 2 ^ (256 - q) = 2 ^ q) as ->.
  { rewrite Z.shiftl_1_l. replace 256 with (q + (256 - q)) at 1 by lia.
    rewrite Z.pow_add_r by lia. apply Z.div_mul. apply Z.pow_nonzero; lia. }
  apply biguint_to_u512_spec. split; [apply Z.pow_nonneg; lia|]. apply Z.pow_lt_mono_r; lia.
Qed.

Context `{!DigestsOk}.

(** What makes a share worth its credit. *)
Record share_valid (share : ShareV2) (assignment : AssignmentView) (context : CommonShareValidationContext) : Prop := {
  sv_linked : share_linked share assignment context;
  sv_signed : operator_signed share assignment context;
  sv_certified : committees_certified context;
  sv_bucket : bucket_active context;
  sv_targets : targets_agree share assignment context;
  sv_raw_hash : share.(sh_raw_share_hash) = mh_share_hash (share_header share context);
  sv_work : of_be share.(sh_raw_share_hash) < 2 ^ (256 - context.(csv_session).(ms_leading_zero_prefix_q));
  sv_parent : context.(csv_parent_oracle) context.(csv_parent_certificate) = true;
}.
(** Its credit: [2^q] hashes. *)
Definition credited (share : ShareV2) (session : MaskSessionV2) : ValidatedShare :=
  mkValidatedShare share (object_id share) (work_key share) (to_be 64 (2 ^ session.(ms_leading_zero_prefix_q))).

(** The profile of the session in numbers. *)
Lemma profile_numbers share assignment context :
  0 ≤ context.(csv_session).(ms_blind_band_bits_d) → targets_agree share assignment context →
  let q := context.(csv_session).(ms_leading_zero_prefix_q) in
  0 < q < 256 ∧ length context.(csv_session).(ms_capture_target) = 32%nat ∧
  of_be context.(csv_session).(ms_capture_target) = 2 ^ (256 - q) - 1.
Proof.
  intros Hd [_ _ _ _ _ _ (p & Hp & _ & Hq & Ht)]. cbn zeta.
  destruct (derive_capture_parameters_ok _ _ _ Hp Hd) as (_ & _ & _ & Hlen & _ & Hq0 & Hqd & Hd0 & Hp256 & Hcap).
  rewrite Hq, Ht. split; [lia|]. done.
Qed.

Lemma validate_share_iff share assignment context v :
  0 ≤ context.(csv_session).(ms_blind_band_bits_d) →
  validate_share_with_assignment share assignment context = Ok v ↔
  share_valid share assignment context ∧ v = credited share context.(csv_session).
Proof.
  intros Hd. unfold validate_share_with_assignment. checks_iff.
  rewrite check_links_iff, verify_signatures_iff, verify_committees_iff, check_payout_bucket_iff, check_targets_iff, check_proof_iff.
  assert (targets_agree share assignment context → share.(sh_raw_share_hash) = mh_share_hash (share_header share context) →
    (bytes_le share.(sh_raw_share_hash) context.(csv_session).(ms_capture_target) ↔
      of_be share.(sh_raw_share_hash) < 2 ^ (256 - context.(csv_session).(ms_leading_zero_prefix_q))) ∧
    work_for_target context.(csv_session).(ms_capture_target) = to_be 64 (2 ^ context.(csv_session).(ms_leading_zero_prefix_q))) as Hnum.
  { intros Ht Hraw. destruct (profile_numbers _ _ _ Hd Ht) as (Hq & Hlen & Hcap). split; [|by apply capture_work].
    rewrite bytes_le_of_be by (rewrite Hraw, Hlen; apply blake2b_256_length). rewrite Hcap. lia. }
  unfold credited. split.
  - intros (? & ? & ? & ? & Ht & (Hraw & Hle) & Ho & [= <-]). destruct (Hnum Ht Hraw) as [Hiff ->].
    split; [|done]. split; try done. by apply Hiff.
  - intros [[] ->]. destruct Hnum as [Hiff ->]; [done..|]. split_and!; try done. by apply Hiff.
Qed.

(** The gateway's own evidence for a share. *)
Record gateway_evidence (share : ShareV2) (context : GatewayShareValidationContext) (observed_ms : Z) : Prop := {
  ge_manifest : validate_context_manifest context.(gsv_context_manifest) context.(gsv_core_received_ms) = Ok tt;
  ge_envelope : validate_capture_envelope context.(gsv_context_manifest) context.(gsv_assignment)
    context.(gsv_capture_envelope) context.(gsv_core_received_ms) = Ok observed_ms;
  ge_ntime : context.(gsv_capture_envelope).(gce_ntime) = share.(sh_ntime);
  ge_extra_nonce : context.(gsv_capture_envelope).(gce_extra_nonce) = share.(sh_extra_nonce);
  ge_nonce : context.(gsv_capture_envelope).(gce_nonce) = share.(sh_nonce);
  ge_raw_hash : context.(gsv_capture_envelope).(gce_raw_share_hash) = share.(sh_raw_share_hash);
  ge_telemetry : share.(sh_local_telemetry_hash) = Some (object_id context.(gsv_capture_envelope));
}.

(** The view of a gateway assignment that carries the evidence. *)
Definition gateway_view (a : GatewayAssignmentV1) (extra_nonce : bytes) : AssignmentView :=
  mkAssignmentView a.(ga_core_protocol_version) a.(ga_network_id) (object_id a) a.(ga_session_id) a.(ga_body_package_id)
    a.(ga_body_certificate_id) a.(ga_operator_pubkey) a.(ga_payout_bucket_id) a.(ga_ntime) a.(ga_edge_target)
    a.(ga_capture_target) (accepts_extra_nonce a extra_nonce) (SignedGateway a).
Definition exact_view (a : AssignmentV2) (extra_nonce : bytes) : AssignmentView :=
  mkAssignmentView a.(asg_protocol_version) a.(asg_network_id) (object_id a) a.(asg_session_id) a.(asg_body_package_id)
    a.(asg_body_certificate_id) a.(asg_operator_pubkey) a.(asg_payout_bucket_id) a.(asg_ntime) a.(asg_edge_target)
    a.(asg_capture_target) (bool_decide (a.(asg_extra_nonce) = extra_nonce)) (SignedExact a).

Lemma view_gateway_total m a extra_nonce :
  validate_gateway_assignment m a = Ok tt → view_gateway a extra_nonce = Ok (gateway_view a extra_nonce).
Proof.
  unfold validate_gateway_assignment, version_context. intros [Hc Hv]%unit_bind_ok. rewrite if_err_ok, !orb_false_iff in Hc, Hv.
  destruct Hc as [Hc _], Hv as [Hv _]. destruct_and!. unfold view_gateway.
  repeat match goal with H : ?c = false |- context [?c] => rewrite H end. done.
Qed.

Lemma envelope_assignment_valid m a e t o : validate_capture_envelope m a e t = Ok o → validate_gateway_assignment m a = Ok tt.
Proof. unfold validate_capture_envelope. by intros ([] & ? & _)%bind_ok. Qed.


(** Only the proof check answers [CaptureTarget]. *)
Ltac not_capture :=
  repeat first
    [ done
    | match goal with
      | |- _ ≫= _ ≠ _ => let Hc := fresh in intros Hc; apply bind_err in Hc as [Hc|(? & _ & Hc)]; revert Hc
      | |- _ ≫= _ = _ → False =>
          let Hc := fresh in intros Hc; apply bind_err in Hc as [Hc|(? & _ & Hc)]; revert Hc
      | |- map_err _ ?m = _ → False => by destruct m
      | |- ok_or ?m _ = _ → False => by destruct m
      end
    | case_match ].

Lemma check_links_capture share assignment context : check_links share assignment context ≠ Err CaptureTarget.
Proof. unfold check_links. not_capture. Qed.
Lemma verify_operator_capture {T} `{UnsignedObject T} key signature network_id (object : T) :
  verify_operator key signature network_id object ≠ Err CaptureTarget.
Proof. unfold verify_operator. by destruct (verify_object _ _ _ _ _). Qed.
Lemma verify_signatures_capture share assignment context :
  verify_signatures share assignment context ≠ Err CaptureTarget.
Proof.
  unfold verify_signatures, view_verify_signature. not_capture; apply verify_operator_capture.
Qed.
Lemma roster_verify_capture {T} `{UnsignedObject T} r signer_set (object : T) :
  roster_verify r signer_set object ≠ Err CaptureTarget.
Proof.
  unfold roster_verify, roster_validate. not_capture.
Qed.
Lemma verify_committees_capture context : verify_committees context ≠ Err CaptureTarget.
Proof. unfold verify_committees. not_capture; apply roster_verify_capture. Qed.
Lemma check_payout_bucket_capture context : check_payout_bucket context ≠ Err CaptureTarget.
Proof. unfold check_payout_bucket. not_capture. Qed.
Lemma check_targets_capture share assignment context : check_targets share assignment context ≠ Err CaptureTarget.
Proof.
  unfold check_targets, compact_target_u256. not_capture.
Qed.

(** No winning block is refused. If the header of a share, completed with a
    mask that hashes to the session's mask hash and has its announced zero prefix,
    is a valid block, then validation never answers that the share misses the
    capture target. *)
Lemma winning_share_captured share assignment context h :
  0 ≤ context.(csv_session).(ms_blind_band_bits_d) → ok_HnsHeader h →
  miner_of_header h = share_header share context →
  of_be h.(hh_mask) < 2 ^ (256 - context.(csv_session).(ms_leading_zero_prefix_q)) →
  verify_pow (hh_pow_hash h) context.(csv_body).(bbp_template_core).(tc_bits) = true →
  validate_share_with_assignment share assignment context ≠ Err CaptureTarget.
Proof.
  intros Hd Hok Hh Hmask Hpow. unfold validate_share_with_assignment. intros Hc.
  assert (∀ A B (m : result ShareError A) (f : A → result ShareError B),
    m ≠ Err CaptureTarget → m ≫= f = Err CaptureTarget → ∃ a, m = Ok a ∧ f a = Err CaptureTarget) as Hskip.
  { intros A B m f Hm [?|?]%bind_err; done. }
  apply Hskip in Hc as ([] & _ & Hc); [|apply check_links_capture].
  apply Hskip in Hc as ([] & _ & Hc); [|apply verify_signatures_capture].
  apply Hskip in Hc as ([] & _ & Hc); [|apply verify_committees_capture].
  apply Hskip in Hc as ([] & _ & Hc); [|apply check_payout_bucket_capture].
  apply Hskip in Hc as ([] & Hx & Hc); [|apply check_targets_capture].
  destruct (check_targets_ok _ _ _ Hx) as (p & Hp & Hq & Ht). rewrite Hq in Hmask.
  destruct (winning_header_captured _ _ _ h Hd Hp Hok Hmask Hpow) as (Hle & _).
  assert (mh_share_hash (share_header share context) = hh_share_hash h) as Hs by by rewrite <- Hh.
  apply bind_err in Hc as [Hc|(_ & _ & Hc)]; [|by destruct (negb _)].
  unfold check_proof in Hc. rewrite Hs, Ht in Hc. destruct (bool_decide _); [done|].
  rewrite (proj2 (bytes_ltb_false _ _) Hle) in Hc. done.
Qed.
End Validated.

(** The signature set of a committee whose members with [keys] sign. *)
Definition committee_sign `{Digests, Ed25519} {T} `{UnsignedObject T} (keys : list SigningKey) (network_id : Z) (object : T) :
    SignatureSet :=
  match assemble_ed25519_set ((λ key, sign_certificate key network_id object) <$> keys) with
  | Ok set => set
  | Err _ => empty_ed25519
  end.

Section CommitteeSigning.
Context `{Digests} `{Ed25519}.

(** Who can sign for a roster. *)
Record can_sign (roster : CommitteeRoster) (keys : list SigningKey) : Prop := {
  sg_roster : roster_validate roster = Ok tt;
  sg_distinct : NoDup (verifying_key <$> keys);
  sg_members : Forall (λ key, verifying_key key ∈ roster.(cr_members)) keys;
  sg_threshold : roster.(cr_threshold) ≤ len keys;
}.

Lemma committee_sign_certified `{!Ed25519Ok} {T} `{UnsignedObject T} roster keys (object : T) :
  can_sign roster keys →
  certified roster (committee_sign keys roster.(cr_network_id) object) object.
Proof.
  intros Hk. unfold committee_sign.
  pose proof (assembled_certificate keys roster.(cr_network_id) object) as Ha.
  destruct (assemble_ed25519_set _) as [set|e]; [|destruct Ha as [_ []]; apply Hk].
  destruct Ha as (_ & (Hs & Hi & Hv)%verify_certificate_ok & Hp). split_and!; [done..| |].
  - rewrite <- (len_fmap signer_pubkey). unfold len. rewrite Hp, length_fmap. apply Hk.
  - apply list.Forall_forall. intros e He. assert (e.(signer_pubkey) ∈ verifying_key <$> keys) as Hin.
    { rewrite <- Hp. apply list_elem_of_fmap. by exists e. }
    apply list_elem_of_fmap in Hin as (key & -> & Hkey). pose proof (sg_members _ _ Hk) as Hm.
    rewrite list.Forall_forall in Hm. by apply Hm.
Qed.
End CommitteeSigning.

(** ** Witness: a share for the header [demo_block] *)

Module ShareDemo.
#[local] Existing Instances toy_digests toy_ed25519.

Definition hash (b : byte) : Hash256 := replicate 32 b.
Definition operator : SigningKey := [x21].
Definition operator_key : bytes := verifying_key operator.
Definition sign {T} `{UnsignedObject T} (object : T) : SignatureBytes := sign_object operator 2 object.
Definition members : list SigningKey := [[x31]; [x32]; [x33]].
Definition roster (role : CommitteeRole) : CommitteeRoster :=
  mkCommitteeRoster 2 2 role 1 2 (list_to_set (verifying_key <$> members)).
Definition capture : U256 :=
  match derive_capture_parameters 0x1925ae67 12 with Ok p => p.(cp_capture_target) | Err _ => [] end.
Definition network_target : U256 :=
  match compact_target_u256 0x1925ae67 with Ok t => t | Err _ => [] end.

Definition core : TemplateCoreV2 :=
  mkTemplateCoreV2 2 2 (hash x01) 100 operator_key (hash x41) (hash x42) (hash x43) 1 [] [] [] 0
    0x1925ae67 0 (hash x44).
Definition body : BlockBodyPackageV2 :=
  let unsigned := mkBlockBodyPackageV2 2 2 core (object_id core) [] [] (hash x06) (hash x05) (hash x01)
    (hash x04) 0 0 0 0 0 0 0 0 (hash x45) in
  unsigned (sign (unsigned [])).
Definition bucket : PayoutBucketV2 :=
  let unsigned := mkPayoutBucketV2 2 2 operator_key 0 0 (replicate 20 x01) 50 None in
  unsigned (sign (unsigned [])).
Definition parent : SessionParentCertificateV2 :=
  let unsigned := mkSessionParentCertificateV2 2 2 (hash x01) 100 (hash x00) 0 0 zero_hash in
  unsigned (committee_sign members 2 (unsigned empty_ed25519)).
Definition descriptor : BodyErasureDescriptorV2 :=
  mkBodyErasureDescriptorV2 2 2 (object_id body) 0 1 1 1 (hash x46) 200 0.
Definition certificate : BodyAvailabilityCertificateV2 :=
  let unsigned := mkBodyAvailabilityCertificateV2 2 2 (object_id descriptor) (hash x01) 100 (hash x45) 0
    (hash x47) in
  unsigned (committee_sign members 2 (unsigned empty_ed25519)).
Definition session : MaskSessionV2 :=
  let unsigned := mkMaskSessionV2 2 2 0 0 (object_id parent) (hash x01) network_target capture capture 46
    12 (miner_of_header demo_block).(mh_mask_hash) (hash x48) (roster_id (roster RoleMask)) 0 10 20 30
    40 zero_hash in
  unsigned (committee_sign members 2 (unsigned empty_ed25519)).
Definition assignment : AssignmentV2 :=
  let unsigned := mkAssignmentV2 2 2 (object_id session) (object_id body) (object_id certificate)
    operator_key (hash x49) (object_id bucket) 1 0 (replicate 24 x03) 0 100 1 capture capture 0 in
  unsigned (sign (unsigned [])).
Definition share : ShareV2 :=
  let unsigned := mkShareV2 2 2 (object_id session) (object_id assignment) (object_id body) operator_key
    (object_id bucket) 0 0 (replicate 24 x03) (hh_share_hash demo_block) capture [] None in
  unsigned (sign (unsigned [])).
Definition context : ShareValidationContext :=
  mkShareValidationContext assignment session parent body descriptor certificate bucket
    (roster RoleMask) (roster RoleAvailability) (roster RoleSettlement) 15 (λ _, true).
(** The same objects with a gateway's assignment, manifest and envelope. *)
Definition gateway_assignment : GatewayAssignmentV1 :=
  mkGatewayAssignmentV1 2 1 2 (object_id session) (object_id body) (object_id certificate) operator_key
    (hash x51) (hash x52) (hash x49) (object_id bucket) 1 0 1 1 0 [x03; x03; x03; x03] [x03; x03; x03; x03] [x03; x03; x03; x03]
    0 100 1 capture capture 0 [].
Definition manifest : GatewayContextManifestV1 :=
  mkGatewayContextManifestV1 2 1 2 1 zero_hash operator_key (hash x51) (hash x52) 0 1000 4096 16 [].
Definition envelope : GatewayCaptureEnvelopeV1 :=
  mkGatewayCaptureEnvelopeV1 2 1 2 (object_id manifest) (object_id gateway_assignment) (object_id session) (hash x51) (hash x52) 1
    (hash x53) 15 0 (replicate 24 x03) 0 (hh_share_hash demo_block) [].
Definition gateway : GatewayShareValidationContext :=
  mkGatewayShareValidationContext gateway_assignment manifest envelope session parent body descriptor certificate bucket
    (roster RoleMask) (roster RoleAvailability) (roster RoleSettlement) 15 (λ _, true).
End ShareDemo.

Section ShareWitness.
#[local] Existing Instances toy_digests toy_digests_ok toy_ed25519 toy_ed25519_ok.
Let view : AssignmentView := view_exact ShareDemo.assignment ShareDemo.share.(sh_extra_nonce).
Let common : CommonShareValidationContext := common_of_context ShareDemo.context.


Lemma winning_share_captured_witness :
  verify_pow (hh_pow_hash demo_block) 0x1925ae67 = true ∧
  validate_share ShareDemo.share ShareDemo.context ≠ Err CaptureTarget.
Proof.
  split; [vm_compute; reflexivity|].
  apply (winning_share_captured ShareDemo.share view common demo_block).
  - vm_compute. discriminate.
  - unfold ok_HnsHeader, arr, uint. split_and!; by vm_compute.
  - vm_compute. reflexivity.
  - vm_compute. reflexivity.
  - vm_compute. reflexivity.
Defined.
End ShareWitness.
