(* ===== verification/ShareDag.v ===== *)
(** * The share DAG (crates/meshmine-share/src/lib.rs)

    Gossiped shares of one session, each naming up to four parents. The
    invariant describes the graph: parents are known, older and of smaller
    depth, depths are longest paths, and the tips are the childless shares. *)

From S2P Require Import Prelude Codec Hash Types Objects Journal Crypto HandoffObjects Handoff Share.

Record DagNode := mkDagNode {
  dn_share : ValidatedShare;
  dn_depth : Z;
  dn_insertion : Z;
}.

Record ShareDag := mkShareDag {
  dag_session_id : Hash256;
  dag_nodes : gmap Hash256 DagNode;
  dag_tips : gset Hash256;
  dag_insertion : Z;
  dag_max_parent_age : Z;
  dag_max_depth : Z;
}.

Definition dag_new (session_id : Hash256) (max_parent_age max_depth : Z) : ShareDag :=
  mkShareDag session_id ∅ ∅ 0 max_parent_age max_depth.

(** The outcome of an operation whose arithmetic is overflow-checked: [None] is
    the panic. *)
Abbreviation checked A := (option A).

(** The loop over [gossip_parent_hashes], computing the new node's depth. *)
Fixpoint parents_depth (dag : ShareDag) (depth : Z) (parents : list Hash256) :
    checked (result ShareError Z) :=
  match parents with
  | [] => Some (Ok depth)
  | parent_id :: parents =>
      match dag.(dag_nodes) !! parent_id with
      | None => Some (Err MissingParent)
      | Some parent =>
          if bool_decide (parent.(dn_share).(vs_share).(sh_session_id) ≠ dag.(dag_session_id))
          then Some (Err CrossSessionParent)
          else if dag.(dag_max_parent_age) <? saturating_sub dag.(dag_insertion) parent.(dn_insertion)
          then Some (Err ParentTooOld)
          else
            match checked_add 32 parent.(dn_depth) 1 with
            | None => None
            | Some next => parents_depth dag (Z.max depth next) parents
            end
      end
  end.

(** The DAG after the call: an error leaves it as it was. *)
Definition dag_insert (dag : ShareDag) (share : ValidatedShare) :
    checked (result ShareError ShareDag) :=
  if bool_decide (share.(vs_share).(sh_session_id) ≠ dag.(dag_session_id))
  then Some (Err CrossSessionParent)
  else if bool_decide (is_Some (dag.(dag_nodes) !! share.(vs_share_id)))
  then Some (Err DuplicateShare)
  else
    match parents_depth dag 0 share.(vs_share).(sh_gossip_parent_hashes) with
    | None => None
    | Some (Err e) => Some (Err e)
    | Some (Ok depth) =>
        if dag.(dag_max_depth) <? depth then Some (Err MaximumDepth)
        else
          let tips := foldl (λ (tips : gset Hash256) parent, tips ∖ {[parent]}) dag.(dag_tips)
                        share.(vs_share).(sh_gossip_parent_hashes) in
          match checked_add 64 dag.(dag_insertion) 1 with
          | None => None
          | Some insertion =>
              Some (Ok (mkShareDag dag.(dag_session_id)
                (<[share.(vs_share_id) := mkDagNode share depth dag.(dag_insertion)]>
                   dag.(dag_nodes))
                ({[share.(vs_share_id)]} ∪ tips) insertion dag.(dag_max_parent_age)
                dag.(dag_max_depth)))
          end
    end.

Definition dag_tip_ids (dag : ShareDag) : list Hash256 := set_to_sorted dag.(dag_tips).
Definition known_ids (dag : ShareDag) : gset Hash256 := dom dag.(dag_nodes).
Definition validated_share (dag : ShareDag) (share_id : Hash256) : option ValidatedShare :=
  dn_share <$> dag.(dag_nodes) !! share_id.
Definition missing_from (dag : ShareDag) (remote_known : gset Hash256) : list Hash256 :=
  set_to_sorted (remote_known ∖ known_ids dag).
Definition dag_len (dag : ShareDag) : Z := Z.of_nat (size dag.(dag_nodes)).
Definition dag_is_empty (dag : ShareDag) : bool := bool_decide (dag.(dag_nodes) = ∅).

(** Gossip: shares arrive one after the other, and a rejected one is dropped. *)
Fixpoint dag_run (dag : ShareDag) (shares : list ValidatedShare) : checked ShareDag :=
  match shares with
  | [] => Some dag
  | share :: shares =>
      match dag_insert dag share with
      | None => None
      | Some (Err _) => dag_run dag shares
      | Some (Ok dag') => dag_run dag' shares
      end
  end.

(** ** The invariant *)

Definition node_parents (n : DagNode) : list Hash256 :=
  n.(dn_share).(vs_share).(sh_gossip_parent_hashes).

(** [p] is a parent of [c]. *)
Definition parent_of (dag : ShareDag) (p c : Hash256) : Prop :=
  ∃ n, dag.(dag_nodes) !! c = Some n ∧ p ∈ node_parents n.

(** The depth of a node whose parents are [parents]: one more than the deepest. *)
Definition longest (nodes : gmap Hash256 DagNode) (parents : list Hash256) (depth : Z) : Prop :=
  (∀ p, p ∈ parents → ∃ m, nodes !! p = Some m ∧ m.(dn_depth) < depth) ∧
  ((parents = [] ∧ depth = 0) ∨
   ∃ p m, p ∈ parents ∧ nodes !! p = Some m ∧ depth = m.(dn_depth) + 1).

Record dag_inv (dag : ShareDag) : Prop := {
  (** nodes are filed under their identity, and are of the session *)
  dag_keyed id n : dag.(dag_nodes) !! id = Some n →
    n.(dn_share).(vs_share_id) = id ∧
    n.(dn_share).(vs_share).(sh_session_id) = dag.(dag_session_id);
  (** arrival numbers are those of the insertions so far, without repetition *)
  dag_numbered id n : dag.(dag_nodes) !! id = Some n → 0 ≤ n.(dn_insertion) < dag.(dag_insertion);
  dag_arrivals id id' n n' : dag.(dag_nodes) !! id = Some n → dag.(dag_nodes) !! id' = Some n' →
    n.(dn_insertion) = n'.(dn_insertion) → id = id';
  dag_size : Z.of_nat (size dag.(dag_nodes)) = dag.(dag_insertion);
  (** parents are known, arrived earlier, and were young enough then *)
  dag_parents id n p : dag.(dag_nodes) !! id = Some n → p ∈ node_parents n →
    ∃ m, dag.(dag_nodes) !! p = Some m ∧
      0 < n.(dn_insertion) - m.(dn_insertion) ≤ dag.(dag_max_parent_age);
  dag_depths id n : dag.(dag_nodes) !! id = Some n →
    longest dag.(dag_nodes) (node_parents n) n.(dn_depth) ∧
    0 ≤ n.(dn_depth) ≤ dag.(dag_max_depth);
  (** the tips are the shares that no share builds on *)
  dag_tips_exact id :
    id ∈ dag.(dag_tips) ↔ is_Some (dag.(dag_nodes) !! id) ∧ ¬ ∃ c, parent_of dag id c;
}.

Lemma dag_inv_new session_id age depth : dag_inv (dag_new session_id age depth).
Proof.
  split; cbn; try (intros *; rewrite lookup_empty; done); [by rewrite map_size_empty|].
  intros id. split; [set_solver|]. rewrite lookup_empty. intros [[? ?] _]. done.
Qed.

(** What the loop over the parents establishes. *)
Lemma parents_depth_ok dag d parents depth :
  parents_depth dag d parents = Some (Ok depth) →
  d ≤ depth ∧
  (∀ p, p ∈ parents → ∃ m, dag.(dag_nodes) !! p = Some m ∧ m.(dn_depth) < depth ∧
     saturating_sub dag.(dag_insertion) m.(dn_insertion) ≤ dag.(dag_max_parent_age)) ∧
  (depth = d ∨ ∃ p m, p ∈ parents ∧ dag.(dag_nodes) !! p = Some m ∧ depth = m.(dn_depth) + 1).
Proof.
  revert d. induction parents as [|p parents IH]; cbn; intros d.
  { intros [= <-]. split; [lia|]. split; [set_solver|by left]. }
  destruct (dag.(dag_nodes) !! p) as [m|] eqn:Em; [|done]. case_bool_decide; [done|].
  destruct (Z.ltb_spec dag.(dag_max_parent_age) (saturating_sub dag.(dag_insertion) m.(dn_insertion)));
    [done|].
  destruct (checked_add 32 m.(dn_depth) 1) as [next|] eqn:En; [|done].
  apply checked_add_some in En as [-> _]. intros (Hd & Hall & Hex)%IH. split_and!.
  - lia.
  - intros q [->|Hq]%elem_of_cons; [|auto]. exists m. split_and!; [done|lia|lia].
  - destruct Hex as [->|(q & m' & Hq & Hm & ->)]; [|right; exists q, m'; split; [by right|done]].
    destruct (Z.max_spec d (m.(dn_depth) + 1)) as [[_ ->]|[_ ->]]; [|by left].
    right. exists p, m. split; [left|done].
Qed.

(** It does not panic while depths are below the bound, and fails only for the
    reason it names. *)
Lemma parents_depth_total dag d parents :
  dag_inv dag → dag.(dag_max_depth) < 2 ^ 32 - 1 →
  match parents_depth dag d parents with
  | None => False
  | Some (Ok _) => True
  | Some (Err e) =>
      ∃ p, p ∈ parents ∧
        match dag.(dag_nodes) !! p with
        | None => e = MissingParent
        | Some m => e = ParentTooOld ∧ dag.(dag_max_parent_age) < dag.(dag_insertion) - m.(dn_insertion)
        end
  end.
Proof.
  intros Hinv Hmax. revert d. induction parents as [|p parents IH]; cbn; intros d; [done|].
  destruct (dag.(dag_nodes) !! p) as [m|] eqn:Em.
  2:{ exists p. rewrite Em. split; [left|done]. }
  destruct (dag_keyed _ Hinv _ _ Em) as [_ Hs]. rewrite bool_decide_false by (intros Hn; by apply Hn).
  pose proof (dag_numbered _ Hinv _ _ Em).
  destruct (Z.ltb_spec dag.(dag_max_parent_age) (saturating_sub dag.(dag_insertion) m.(dn_insertion))).
  { exists p. rewrite Em. unfold saturating_sub in *. split; [left|]. split; [done|lia]. }
  destruct (dag_depths _ Hinv _ _ Em) as [_ Hd]. rewrite checked_add_fits by lia.
  specialize (IH (Z.max d (m.(dn_depth) + 1))).
  destruct (parents_depth _ _ parents) as [[|e]|]; [done| |done].
  destruct IH as (q & Hq & He). exists q. split; [by right|done].
Qed.

(** A share is accepted exactly when it is of the session, new, all its parents
    are known and young enough, and its depth is within the bound. *)
Lemma dag_insert_cases dag share :
  dag_inv dag → dag.(dag_max_depth) < 2 ^ 32 - 1 → dag.(dag_insertion) < 2 ^ 64 - 1 →
  let parents := share.(vs_share).(sh_gossip_parent_hashes) in
  match dag_insert dag share with
  | None => False
  | Some (Err CrossSessionParent) => share.(vs_share).(sh_session_id) ≠ dag.(dag_session_id)
  | Some (Err DuplicateShare) => is_Some (dag.(dag_nodes) !! share.(vs_share_id))
  | Some (Err MissingParent) => ∃ p, p ∈ parents ∧ dag.(dag_nodes) !! p = None
  | Some (Err ParentTooOld) => ∃ p m, p ∈ parents ∧ dag.(dag_nodes) !! p = Some m ∧
      dag.(dag_max_parent_age) < dag.(dag_insertion) - m.(dn_insertion)
  | Some (Err MaximumDepth) => ∃ depth, longest dag.(dag_nodes) parents depth ∧
      dag.(dag_max_depth) < depth
  | Some (Err _) => False
  | Some (Ok dag') => ∃ depth,
      share.(vs_share).(sh_session_id) = dag.(dag_session_id) ∧
      dag.(dag_nodes) !! share.(vs_share_id) = None ∧
      (∀ p, p ∈ parents → ∃ m, dag.(dag_nodes) !! p = Some m ∧
         dag.(dag_insertion) - m.(dn_insertion) ≤ dag.(dag_max_parent_age)) ∧
      longest dag.(dag_nodes) parents depth ∧ 0 ≤ depth ≤ dag.(dag_max_depth) ∧
      dag' = mkShareDag dag.(dag_session_id)
        (<[share.(vs_share_id) := mkDagNode share depth dag.(dag_insertion)]> dag.(dag_nodes))
        ({[share.(vs_share_id)]} ∪ dag.(dag_tips) ∖ list_to_set parents) (dag.(dag_insertion) + 1)
        dag.(dag_max_parent_age) dag.(dag_max_depth)
  end.
Proof.
  intros Hinv Hmax Hins parents. unfold dag_insert. fold parents. case_bool_decide as Hs; [done|].
  case_bool_decide as Hnew; [done|]. apply eq_None_not_Some in Hnew.
  pose proof (parents_depth_total dag 0 parents Hinv Hmax) as Ht.
  destruct (parents_depth dag 0 parents) as [[depth|e]|] eqn:Ep; [|clear Ep|done].
  - apply parents_depth_ok in Ep as (Hd & Hall & Hex).
    assert (longest dag.(dag_nodes) parents depth) as Hl.
    { split; [intros p (m & ? & ? & _)%Hall; eauto|].
      destruct Hex as [->|?]; [left|by right]. split; [|done].
      destruct parents as [|p l]; [done|]. destruct (Hall p) as (m & Hm & Hlt & _); [left|].
      destruct (dag_depths _ Hinv _ _ Hm). lia. }
    destruct (Z.ltb_spec dag.(dag_max_depth) depth); [by exists depth|].
    rewrite checked_add_fits by lia. exists depth. split_and!; try done.
    + intros p (m & Hm & _ & Ha)%Hall. exists m. split; [done|]. unfold saturating_sub in Ha. lia.
    + f_equal. apply set_eq. intros id. rewrite !elem_of_union. f_equiv.
      clear. generalize dag.(dag_tips). induction parents as [|p l IH]; intros tips; cbn; [set_solver|].
      rewrite IH. set_solver.
  - destruct Ht as (p & Hp & He). destruct (dag.(dag_nodes) !! p) as [m|] eqn:Em.
    + destruct He as [-> ?]. by exists p, m.
    + subst e. by exists p.
Qed.

Lemma longest_insert (nodes : gmap Hash256 DagNode) parents depth id n :
  nodes !! id = None → longest nodes parents depth → longest (<[id := n]> nodes) parents depth.
Proof.
  assert (∀ p m, nodes !! id = None → nodes !! p = Some m → <[id := n]> nodes !! p = Some m) as Hk.
  { intros p m Hid Hm. rewrite lookup_insert_ne by congruence. done. }
  intros Hid [Hall Hex]. split.
  - intros p (m & Hm & ?)%Hall. exists m. auto.
  - destruct Hex as [?|(p & m & ? & ? & ?)]; [by left|]. right. exists p, m. auto.
Qed.

Lemma dag_insert_keeps dag share dag' :
  dag_inv dag → dag.(dag_max_depth) < 2 ^ 32 - 1 → dag.(dag_insertion) < 2 ^ 64 - 1 →
  dag_insert dag share = Some (Ok dag') → dag_inv dag'.
Proof.
  intros Hinv Hmax Hins E. pose proof (dag_insert_cases dag share Hinv Hmax Hins) as Hc.
  cbn zeta in Hc. rewrite E in Hc. clear E.
  destruct Hc as (depth & Hs & Hnew & Hpar & Hl & Hd & ->).
  set (id0 := share.(vs_share_id)) in *. set (n0 := mkDagNode share depth dag.(dag_insertion)).
  assert (∀ p m, dag.(dag_nodes) !! p = Some m → p ≠ id0) as Hne by congruence.
  assert (∀ p c, parent_of (mkShareDag dag.(dag_session_id) (<[id0 := n0]> dag.(dag_nodes))
      ({[id0]} ∪ dag.(dag_tips) ∖ list_to_set (node_parents n0)) (dag.(dag_insertion) + 1)
      dag.(dag_max_parent_age) dag.(dag_max_depth)) p c ↔
    parent_of dag p c ∨ c = id0 ∧ p ∈ node_parents n0) as Hpo.
  { intros p c. unfold parent_of. cbn. destruct (decide (c = id0)) as [->|].
    - rewrite lookup_insert_eq. split; [intros (? & [= <-] & ?); auto|].
      intros [(n & Hn & _)|[_ ?]]; [congruence|eauto].
    - rewrite lookup_insert_ne by done. naive_solver. }
  split; cbn.
  - intros id n [[<- <-]|[_ Hn]]%lookup_insert_Some; [done|]. by apply Hinv.
  - intros id n [[<- <-]|[_ Hn]]%lookup_insert_Some; [cbn|apply (dag_numbered _ Hinv) in Hn; lia].
    pose proof (dag_size _ Hinv). lia.
  - intros id id' n n' [[<- <-]|[? Hn]]%lookup_insert_Some [[<- <-]|[? Hn']]%lookup_insert_Some; cbn;
      [done| | |by eapply Hinv].
    + apply (dag_numbered _ Hinv) in Hn'. lia.
    + apply (dag_numbered _ Hinv) in Hn. lia.
  - rewrite map_size_insert_None by done. pose proof (dag_size _ Hinv). lia.
  - intros id n p [[<- <-]|[_ Hn]]%lookup_insert_Some Hp.
    + destruct (Hpar p Hp) as (m & Hm & ?). exists m. rewrite lookup_insert_ne by (symmetry; eauto).
      apply (dag_numbered _ Hinv) in Hm as ?. cbn. split; [done|lia].
    + destruct (dag_parents _ Hinv _ _ _ Hn Hp) as (m & Hm & ?). exists m.
      by rewrite lookup_insert_ne by (symmetry; eauto).
  - intros id n [[<- <-]|[_ Hn]]%lookup_insert_Some.
    + split; [by apply longest_insert|done].
    + destruct (dag_depths _ Hinv _ _ Hn). split; [by apply longest_insert|done].
  - intros id. setoid_rewrite Hpo. rewrite lookup_insert_is_Some', elem_of_union, elem_of_singleton,
      elem_of_difference, elem_of_list_to_set, (dag_tips_exact _ Hinv).
    split.
    + intros [->|[[Hid Hno] Hnp]]; [|split; [by right|]; naive_solver]. split; [by left|].
      intros (c & [(n & Hn & Hp)|[_ Hp]]).
      * destruct (dag_parents _ Hinv _ _ _ Hn Hp) as (m & Hm & _). congruence.
      * destruct (Hpar _ Hp) as (m & Hm & _). congruence.
    + intros [[Hid|Hid] Hno]; [by left|]. destruct (decide (id = id0)); [by left|]. right. naive_solver.
Qed.

Lemma dag_run_keeps dag shares :
  dag_inv dag → dag.(dag_max_depth) < 2 ^ 32 - 1 → dag.(dag_insertion) + len shares < 2 ^ 64 - 1 →
  match dag_run dag shares with
  | None => False
  | Some dag' => dag_inv dag' ∧ dag'.(dag_session_id) = dag.(dag_session_id) ∧
      dag'.(dag_max_parent_age) = dag.(dag_max_parent_age) ∧
      dag'.(dag_max_depth) = dag.(dag_max_depth) ∧
      dag'.(dag_insertion) ≤ dag.(dag_insertion) + len shares
  end.
Proof.
  revert dag. induction shares as [|share shares IH]; cbn [dag_run]; intros dag Hinv Hmax Hins.
  { rewrite len_nil. split_and!; [done..|lia]. }
  rewrite len_cons in *. pose proof (len_nonneg shares).
  pose proof (dag_insert_cases dag share Hinv Hmax ltac:(lia)) as Hc. cbn zeta in Hc.
  destruct (dag_insert dag share) as [[dag'|e]|] eqn:E; [| |done].
  - apply dag_insert_keeps in E; [|done|done|lia].
    destruct Hc as (? & _ & _ & _ & _ & _ & Hdag'). specialize (IH dag').
    rewrite Hdag' in IH. cbn [dag_session_id dag_max_parent_age dag_max_depth dag_insertion] in IH.
    rewrite <- Hdag' in IH. destruct (dag_run dag' shares); [|by apply IH; [done|done|lia]].
    destruct IH as (? & ? & ? & ? & ?); [done|done|lia|]. split_and!; [done..|lia].
  - specialize (IH dag Hinv Hmax ltac:(lia)). destruct (dag_run dag shares); [|done].
    destruct IH as (? & ? & ? & ? & ?). split_and!; [done..|lia].
Qed.

Lemma ancestor_earlier dag p c :
  dag_inv dag → tc (parent_of dag) p c →
  ∃ m n, dag.(dag_nodes) !! p = Some m ∧ dag.(dag_nodes) !! c = Some n ∧
    m.(dn_insertion) < n.(dn_insertion).
Proof.
  intros Hinv. assert (∀ p c, parent_of dag p c →
    ∃ m n, dag.(dag_nodes) !! p = Some m ∧ dag.(dag_nodes) !! c = Some n ∧
      m.(dn_insertion) < n.(dn_insertion)) as Hstep.
  { intros q d (n & Hn & Hq). destruct (dag_parents _ Hinv _ _ _ Hn Hq) as (m & Hm & ?).
    exists m, n. split_and!; [done..|lia]. }
  induction 1 as [q d Hqd|q r d Hqr _ (m & n & Hm & Hn & ?)]; [auto|].
  destruct (Hstep _ _ Hqr) as (m' & n' & Hm' & Hn' & ?). exists m', n.
  assert (n' = m) as -> by congruence. split_and!; [done..|lia].
Qed.

(** C37: the share DAG stays a DAG. Whatever shares arrive, in whatever order, no
    insertion panics, and afterwards: nodes are filed under their identities and
    are of the session; every parent is known, arrived earlier and was within
    the age bound; depths are the lengths of longest paths and within the bound;
    the tips are exactly the shares nothing builds on; no share is its own
    ancestor; and a share is rejected only for the reason the error names, without
    effect. *)
Theorem share_dag_sound session_id age depth shares share :
  depth < 2 ^ 32 - 1 → len shares < 2 ^ 64 - 1 →
  match dag_run (dag_new session_id age depth) shares with
  | None => False
  | Some dag =>
      dag_inv dag ∧ dag.(dag_session_id) = session_id ∧
      dag.(dag_max_parent_age) = age ∧ dag.(dag_max_depth) = depth ∧
      (∀ id, ¬ tc (parent_of dag) id id) ∧
      match dag_insert dag share with
      | None => False
      | Some (Ok dag') => validated_share dag' share.(vs_share_id) = Some share ∧
          validated_share dag share.(vs_share_id) = None ∧
          ∀ id, id ≠ share.(vs_share_id) → validated_share dag' id = validated_share dag id
      | Some (Err CrossSessionParent) => share.(vs_share).(sh_session_id) ≠ session_id
      | Some (Err DuplicateShare) => share.(vs_share_id) ∈ known_ids dag
      | Some (Err MissingParent) =>
          ¬ Forall (λ p, p ∈ known_ids dag) share.(vs_share).(sh_gossip_parent_hashes)
      | Some (Err ParentTooOld) => Exists (λ p, ∃ m, dag.(dag_nodes) !! p = Some m ∧
          age < dag.(dag_insertion) - m.(dn_insertion)) share.(vs_share).(sh_gossip_parent_hashes)
      | Some (Err MaximumDepth) => ∃ d,
          longest dag.(dag_nodes) share.(vs_share).(sh_gossip_parent_hashes) d ∧ depth < d
      | Some (Err _) => False
      end
  end.
Proof.
  intros Hd Hl. pose proof (dag_run_keeps (dag_new session_id age depth) shares
    (dag_inv_new _ _ _) Hd ltac:(cbn; lia)) as Hr.
  destruct (dag_run _ shares) as [dag|]; [|done]. cbn in Hr.
  destruct Hr as (Hinv & Hsid & Hage & Hmax & Hins). split_and!; try done.
  { intros id (m & n & Hm & Hn & ?)%ancestor_earlier; [|done].
    assert (m = n) as -> by congruence. lia. }
  pose proof (dag_insert_cases dag share Hinv ltac:(lia) ltac:(lia)) as Hc. cbn zeta in Hc.
  destruct (dag_insert dag share) as [[dag'|e]|]; [| |done].
  - destruct Hc as (d & _ & Hnew & _ & _ & _ & ->). unfold validated_share. cbn.
    rewrite lookup_insert_eq, Hnew. split_and!; [done..|]. intros id Hid.
    by rewrite lookup_insert_ne.
  - subst session_id age depth. destruct e; try done.
    + destruct Hc as (p & Hp & Hn). rewrite Forall_forall. intros Hall.
      apply Hall in Hp. unfold known_ids in Hp. apply elem_of_dom in Hp as [? ?]. congruence.
    + apply Exists_exists. naive_solver.
    + unfold known_ids. by apply elem_of_dom.
Qed.

(** A share with the given identity and parents. *)
Definition demo_node (id : byte) (parents : list byte) : ValidatedShare :=
  let h b := replicate 32 b in
  mkValidatedShare (mkShareV2 2 2 (h x01) (h x02) (h x03) (h x04) (h x05) 0 0 [] (h x06) (h x07)
    (h <$> parents) None []) (h id) (h id) [].

(** Three shares, one of them orphaned at first, and a fourth that merges both
    branches. *)
Definition demo_shares : list ValidatedShare :=
  [demo_node x11 []; demo_node x13 [x12]; demo_node x12 [x11]; demo_node x13 [x12]].
Definition demo_dag : ShareDag :=
  default (dag_new [] 0 0) (dag_run (dag_new (replicate 32 x01) 8 8) demo_shares).

Lemma share_dag_sound_witness :
  dag_inv demo_dag ∧ dag_tip_ids demo_dag = [replicate 32 x13] ∧
  (∀ id, ¬ tc (parent_of demo_dag) id id) ∧
  match dag_insert demo_dag (demo_node x14 [x11; x13]) with
  | Some (Ok dag') => validated_share dag' (replicate 32 x14) = Some (demo_node x14 [x11; x13])
  | _ => False
  end.
Proof.
  pose proof (share_dag_sound (replicate 32 x01) 8 8 demo_shares (demo_node x14 [x11; x13])
    eq_refl eq_refl) as Hs.
  assert (dag_tip_ids demo_dag = [replicate 32 x13]) as Ht by (vm_compute; reflexivity).
  assert (match dag_insert demo_dag (demo_node x14 [x11; x13]) with
          | Some (Ok _) => true | _ => false end = true) as Hi by (vm_compute; reflexivity).
  unfold demo_dag in *. destruct (dag_run _ demo_shares) as [dag|]; cbn [default id] in *.
  - destruct Hs as (Hinv & _ & _ & _ & Hac & Hs). split; [exact Hinv|]. split; [exact Ht|].
    split; [exact Hac|]. destruct (dag_insert dag _) as [[dag'|e]|].
    + exact (proj1 Hs).
    + discriminate Hi.
    + discriminate Hi.
  - destruct Hs.
Defined.
