(* ===== verification/Receipts.v ===== *)
(** * Receipts and session close (crates/meshmine-share/src/lib.rs)

    The receipt builder with its durable acceptance paths, batches, the chain of
    batches of a session, conflicting batches, and the close that commits to a
    whole chain. *)

From S2P Require Import Prelude Codec Hash Types Objects Header Target Merkle.
From S2P Require Import Storage Journal Crypto HandoffObjects Handoff HandoffSafety Share.

Record ReceiptBuilder := mkReceiptBuilder {
  bd_protocol_version : Z;
  bd_network_id : Z;
  bd_session_id : Hash256;
  bd_batch_sequence : Z;
  bd_previous_batch_id : Hash256;
  bd_previous_share_count : Z;
  bd_previous_work : U512;
  bd_accepted : gmap Hash256 ValidatedShare;
}.

Record ReceiptEquivocationProof := mkReceiptEquivocationProof {
  rep_session_id : Hash256;
  rep_batch_sequence : Z;
  rep_first_batch_id : Hash256;
  rep_second_batch_id : Hash256;
  rep_equivocating_signers : list bytes;
}.

Record ReceiptChainSummary := mkReceiptChainSummary {
  rcs_session_id : Hash256;
  rcs_final_batch_id : Hash256;
  rcs_accepted_share_ids : list Hash256;
  rcs_accepted_work_keys : list Hash256;
  rcs_total_credited_work : U512;
}.

Definition builder_new (protocol_version network_id : Z) (session_id : Hash256)
    (batch_sequence : Z) (previous_batch_id : Hash256) (previous_share_count : Z)
    (previous_work : U512) : ReceiptBuilder :=
  mkReceiptBuilder protocol_version network_id session_id batch_sequence previous_batch_id
    previous_share_count previous_work ∅.

Definition set_accepted (b : ReceiptBuilder) (accepted : gmap Hash256 ValidatedShare) :
    ReceiptBuilder :=
  mkReceiptBuilder b.(bd_protocol_version) b.(bd_network_id) b.(bd_session_id)
    b.(bd_batch_sequence) b.(bd_previous_batch_id) b.(bd_previous_share_count) b.(bd_previous_work)
    accepted.

(** The first two checks of every acceptance path. *)
Definition check_new (b : ReceiptBuilder) (share : ValidatedShare) : result ShareError unit :=
  if bool_decide (share.(vs_share).(sh_session_id) ≠ b.(bd_session_id))
  then Err (SE_Linkage "receipt session")
  else if bool_decide (is_Some (b.(bd_accepted) !! share.(vs_work_key))) then Err DuplicateWork
  else Ok tt.

(** The builder after the call: an error leaves it as it was. *)
Definition accept (b : ReceiptBuilder) (share : ValidatedShare) : result ShareError ReceiptBuilder :=
  _ ← check_new b share;
  Ok (set_accepted b (<[share.(vs_work_key) := share]> b.(bd_accepted))).

(** [sort_by_key(|share| (share.work_key, share.share_id))] *)
Definition receipt_le (x y : ValidatedShare) : Prop :=
  hash_pair_geb (y.(vs_work_key), y.(vs_share_id)) (x.(vs_work_key), x.(vs_share_id)) = true.
#[global] Instance receipt_le_dec : RelDecision receipt_le.
Proof. intros x y. unfold receipt_le. apply _. Defined.

Definition accepted_sorted (b : ReceiptBuilder) : list ValidatedShare :=
  merge_sort receipt_le (map_to_list b.(bd_accepted)).*2.

Definition sum_work (works : list U512) : Z := foldl (λ sum work, sum + of_be work) 0 works.

(** ** Batches *)

Section Receipts.
Context `{Digests} `{Ed25519}.

Definition finalize (b : ReceiptBuilder) (signer_set : SignatureSet) :
    result ShareError ReceiptBatchV2 :=
  let accepted := accepted_sorted b in
  let accepted_share_ids := vs_share_id <$> accepted in
  let accepted_work_keys := vs_work_key <$> accepted in
  let credited_work := vs_credited_work <$> accepted in
  let cumulative := of_be b.(bd_previous_work) + sum_work credited_work in
  if 512 <? big_bits cumulative then Err WorkOverflow
  else
    cumulative_share_count ←
      ok_or (checked_add 64 b.(bd_previous_share_count) (len accepted)) WorkOverflow;
    Ok (mkReceiptBatchV2 b.(bd_protocol_version) b.(bd_network_id) b.(bd_session_id)
          b.(bd_batch_sequence) b.(bd_previous_batch_id) accepted_share_ids accepted_work_keys
          credited_work (merkle_root_of accepted_share_ids) cumulative_share_count
          (biguint_to_u512 cumulative) signer_set).

(** ** Conflicting batches *)

Definition batch_signers (batch : ReceiptBatchV2) : list bytes :=
  signer_pubkey <$> batch.(rb_signer_set).(signatures).

Definition detect_receipt_equivocation (first second : ReceiptBatchV2) :
    result ShareError ReceiptEquivocationProof :=
  let first_id := object_id first in
  let second_id := object_id second in
  if bool_decide (first.(rb_session_id) ≠ second.(rb_session_id))
     || negb (first.(rb_batch_sequence) =? second.(rb_batch_sequence))
     || bool_decide (first_id = second_id)
  then Err NotEquivocation
  else
    let first_signers : gset bytes := list_to_set (batch_signers first) in
    let equivocating_signers :=
      dedup (merge_sort bytes_le (filter (λ s, s ∈ first_signers) (batch_signers second))) in
    if bool_decide (equivocating_signers = []) then Err NotEquivocation
    else Ok (mkReceiptEquivocationProof first.(rb_session_id) first.(rb_batch_sequence) first_id
               second_id equivocating_signers).

(** ** Chains of batches *)

(** The mutable variables of the loop. *)
Record ChainState := mkChainState {
  cs_share_ids : list Hash256;
  cs_work_keys : list Hash256;
  cs_seen_shares : gset Hash256;
  cs_seen_work : gset Hash256;
  cs_cumulative_work : Z;
}.

(** [keys.iter().any(|key| !seen.insert(key))]: whether a key repeats, and the
    set with the keys up to the first repetition. *)
Fixpoint any_repeated (seen : gset Hash256) (keys : list Hash256) : bool * gset Hash256 :=
  match keys with
  | [] => (false, seen)
  | key :: keys =>
      if bool_decide (key ∈ seen) then (true, seen) else any_repeated ({[key]} ∪ seen) keys
  end.

(** One iteration; [previous] is [None] for index 0. *)
Definition chain_step (receipt_roster : CommitteeRoster) (first : ReceiptBatchV2)
    (previous : option ReceiptBatchV2) (st : ChainState) (batch : ReceiptBatchV2) :
    result ShareError ChainState :=
  _ ← map_err (λ _, InvalidReceiptChain) (validate_entries batch);
  _ ← roster_verify receipt_roster batch.(rb_signer_set) batch;
  let invalid_link :=
    match previous with
    | None => false
    | Some previous =>
        bool_decide (checked_add 64 previous.(rb_batch_sequence) 1 ≠ Some batch.(rb_batch_sequence))
        || bool_decide (batch.(rb_previous_batch_id) ≠ object_id previous)
    end in
  let '(share_repeated, seen_shares) := any_repeated st.(cs_seen_shares) batch.(rb_accepted_share_ids) in
  let '(work_repeated, seen_work) := any_repeated st.(cs_seen_work) batch.(rb_accepted_work_keys) in
  if negb (batch.(rb_protocol_version) =? first.(rb_protocol_version))
     || negb (batch.(rb_network_id) =? first.(rb_network_id))
     || bool_decide (batch.(rb_session_id) ≠ first.(rb_session_id))
     || bool_decide (batch.(rb_share_merkle_root) ≠ merkle_root_of batch.(rb_accepted_share_ids))
     || invalid_link || share_repeated || work_repeated
  then Err InvalidReceiptChain
  else
    let share_ids := st.(cs_share_ids) ++ batch.(rb_accepted_share_ids) in
    let work_keys := st.(cs_work_keys) ++ batch.(rb_accepted_work_keys) in
    let cumulative_work :=
      foldl (λ sum work, sum + of_be work) st.(cs_cumulative_work) batch.(rb_credited_work) in
    if negb (batch.(rb_cumulative_share_count) =? len share_ids)
       || negb (of_be batch.(rb_cumulative_credited_work) =? cumulative_work)
    then Err InvalidReceiptChain
    else Ok (mkChainState share_ids work_keys seen_shares seen_work cumulative_work).

Fixpoint chain_loop (receipt_roster : CommitteeRoster) (first : ReceiptBatchV2)
    (previous : option ReceiptBatchV2) (st : ChainState) (batches : list ReceiptBatchV2) :
    result ShareError ChainState :=
  match batches with
  | [] => Ok st
  | batch :: batches =>
      st ← chain_step receipt_roster first previous st batch;
      chain_loop receipt_roster first (Some batch) st batches
  end.

Definition verify_receipt_chain (batches : list ReceiptBatchV2) (receipt_roster : CommitteeRoster) :
    result ShareError ReceiptChainSummary :=
  match batches with
  | [] => Err InvalidReceiptChain
  | first :: _ =>
      if bool_decide (receipt_roster.(cr_role) ≠ RoleReceipt) then Err InvalidReceiptChain
      else if negb (first.(rb_batch_sequence) =? 0)
         || bool_decide (first.(rb_previous_batch_id) ≠ zero_hash)
      then Err InvalidReceiptChain
      else
        st ← chain_loop receipt_roster first None (mkChainState [] [] ∅ ∅ 0) batches;
        if 512 <? big_bits st.(cs_cumulative_work) then Err WorkOverflow
        else Ok (mkReceiptChainSummary first.(rb_session_id)
                   (object_id (List.last batches first)) st.(cs_share_ids) st.(cs_work_keys)
                   (biguint_to_u512 st.(cs_cumulative_work)))
  end.

(** ** Session close *)

Definition build_session_close (session_id : Hash256) (batches : list ReceiptBatchV2)
    (receipt_roster : CommitteeRoster) (close_reason : Z) (opening_root : Hash256)
    (discovered_blocks : list Hash256) (signer_set : SignatureSet) :
    result ShareError SessionCloseV2 :=
  summary ← verify_receipt_chain batches receipt_roster;
  if bool_decide (summary.(rcs_session_id) ≠ session_id) then Err InvalidSessionClose
  else
    match last batches with
    | None => Err InvalidSessionClose (* [unwrap]: a verified chain is not empty *)
    | Some final_batch =>
        let discovered_blocks := dedup (merge_sort bytes_le discovered_blocks) in
        Ok (mkSessionCloseV2 final_batch.(rb_protocol_version) final_batch.(rb_network_id) session_id
          summary.(rcs_final_batch_id) (merkle_root_of summary.(rcs_accepted_share_ids))
          (merkle_root_of summary.(rcs_accepted_work_keys)) (len summary.(rcs_accepted_share_ids))
          summary.(rcs_total_credited_work) close_reason opening_root discovered_blocks signer_set)
    end.

Definition verify_session_close (close : SessionCloseV2) (batches : list ReceiptBatchV2)
    (receipt_roster settlement_roster : CommitteeRoster) : result ShareError unit :=
  summary ← verify_receipt_chain batches receipt_roster;
  if bool_decide (settlement_roster.(cr_role) ≠ RoleSettlement)
     || bool_decide (close.(sc_session_id) ≠ summary.(rcs_session_id))
     || bool_decide (close.(sc_final_receipt_batch_id) ≠ summary.(rcs_final_batch_id))
     || bool_decide (close.(sc_accepted_share_merkle_root) ≠
                     merkle_root_of summary.(rcs_accepted_share_ids))
     || bool_decide (close.(sc_accepted_work_key_root) ≠
                     merkle_root_of summary.(rcs_accepted_work_keys))
     || negb (close.(sc_accepted_share_count) =? len summary.(rcs_accepted_share_ids))
     || bool_decide (close.(sc_total_credited_work) ≠ summary.(rcs_total_credited_work))
  then Err InvalidSessionClose
  else roster_verify settlement_roster close.(sc_signer_set) close.
End Receipts.

(** ** Durable acceptance *)

Section Durable.
Context `{Digests} `{Ed25519} `{!Hex} {S : Type} `{!DurableStore S} (env : nat → S → S).

(** A client of the store that fails with a [ShareError]. *)
Definition sclient (A : Type) : Type := nat * S → result ShareError A * (nat * S).
#[global] Instance sclient_ret : MRet sclient := λ A a w, (Ok a, w).
#[global] Instance sclient_bind : MBind sclient := λ A B f m w,
  match m w with
  | (Ok a, w') => f a w'
  | (Err e, w') => (Err e, w')
  end.
Definition slift {A} (r : result ShareError A) : sclient A := λ w, (r, w).
(** A journal call whose result is matched on. *)
Definition journal_result {A} (m : client (S := S) A) : sclient (result DurableInvariantError A) := λ w,
  let '(r, w') := m w in (Ok r, w').
Definition handoff {A} (m : hclient (S := S) A) : sclient A := λ w,
  let '(r, w') := m w in (map_err GatewayHandoff r, w').

(** The two journal records of an accepted share. *)
Definition share_records (share : ValidatedShare) : list JournalBatchRecord :=
  [mkJournalBatchRecord KindAcceptedWorkKey share.(vs_work_key) share.(vs_share_id);
   mkJournalBatchRecord KindAcceptedShare share.(vs_share_id) (to_canonical_bytes share.(vs_share))].

Definition accept_durable (b : ReceiptBuilder) (share : ValidatedShare) : sclient ReceiptBuilder :=
  _ ← slift (check_new b share);
  outcome ← journal_result
    (persist_records_with_conditions_and_batch env (share_records share) [] []);
  slift match outcome with
  | Ok (Committed | ExactRecord) => accept b share
  | Ok PreconditionMismatch => Err (SE_Durable ImmutableConflict)
  | Err ImmutableConflict => Err DuplicateWork
  | Err e => Err (SE_Durable e)
  end.

(** The share carries its own identity, work key and credit. *)
Definition check_derivation (share : ValidatedShare) : result ShareError unit :=
  if bool_decide (share.(vs_share_id) ≠ object_id share.(vs_share))
     || bool_decide (share.(vs_work_key) ≠ work_key share.(vs_share))
     || bool_decide (share.(vs_credited_work) ≠ work_for_target share.(vs_share).(sh_declared_target))
  then Err (SE_Linkage "validated gateway share derivation") else Ok tt.

(** The receipt and the envelope are about this share. *)
Definition check_disposition (share : ValidatedShare) (assignment : GatewayAssignmentV1)
    (envelope : GatewayCaptureEnvelopeV1) (receipt : GatewayCaptureReceiptV1) :
    result ShareError unit :=
  if negb (receipt.(gcr_outcome) =? CAPTURE_OUTCOME_ACCEPTED)
     || bool_decide (receipt.(gcr_accepted_share_id) ≠ share.(vs_share_id))
     || bool_decide (share.(vs_share).(sh_assignment_id) ≠ object_id assignment)
     || bool_decide (share.(vs_share).(sh_local_telemetry_hash) ≠ Some (object_id envelope))
     || bool_decide (envelope.(gce_raw_share_hash) ≠ share.(vs_share).(sh_raw_share_hash))
     || negb (envelope.(gce_nonce) =? share.(vs_share).(sh_nonce))
     || negb (envelope.(gce_ntime) =? share.(vs_share).(sh_ntime))
     || bool_decide (envelope.(gce_extra_nonce) ≠ share.(vs_share).(sh_extra_nonce))
  then Err (SE_Linkage "accepted gateway disposition") else Ok tt.

Definition accept_gateway_durable (b : ReceiptBuilder) (share : ValidatedShare)
    (manifest : GatewayContextManifestV1) (assignment : GatewayAssignmentV1)
    (envelope : GatewayCaptureEnvelopeV1) (receipt : GatewayCaptureReceiptV1) :
    sclient ReceiptBuilder :=
  _ ← slift (check_derivation share);
  _ ← slift (check_new b share);
  _ ← slift (check_disposition share assignment envelope receipt);
  prepared ← handoff (prepare_capture_disposition env manifest assignment envelope receipt);
  outcome ← journal_result (persist_records_with_conditions_and_batch env
    (prepared.(pcd_records) ++ share_records share) prepared.(pcd_conditions)
    prepared.(pcd_operations));
  match outcome with
  | Ok (Committed | ExactRecord) => slift (accept b share)
  | Ok PreconditionMismatch => slift (Err (GatewayHandoff HE_Sequence))
  | Err ImmutableConflict =>
      loaded ← journal_result (load env KindAcceptedWorkKey share.(vs_work_key));
      slift match loaded with
      | Err e => Err (SE_Durable e)
      | Ok (Some accepted_share_id) =>
          if bool_decide (accepted_share_id ≠ share.(vs_share_id)) then Err DuplicateWork
          else Err (SE_Durable ImmutableConflict)
      | Ok None => Err (SE_Durable ImmutableConflict)
      end
  | Err e => slift (Err (SE_Durable e))
  end.

Definition finalize_durable (b : ReceiptBuilder) (signer_set : SignatureSet) : sclient ReceiptBatchV2 :=
  batch ← slift (finalize b signer_set);
  outcome ← journal_result
    (persist env KindReceiptBatch (object_id batch) (to_canonical_bytes batch));
  slift (_ ← map_err SE_Durable outcome; Ok batch).
End Durable.

(** ** Totals *)

Lemma sum_work_from z works : foldl (λ sum work, sum + of_be work) z works = z + sumZ (of_be <$> works).
Proof.
  revert z. induction works as [|w works IH]; intros z; cbn; [lia|]. rewrite IH. unfold sumZ. cbn. lia.
Qed.
Lemma sum_work_spec works : sum_work works = sumZ (of_be <$> works).
Proof. unfold sum_work. rewrite sum_work_from. lia. Qed.
Lemma work_total_nonneg works : 0 ≤ sumZ (of_be <$> works).
Proof. apply sumZ_nonneg, Forall_fmap, Forall_true. intros w. apply of_be_range. Qed.

(** ** What a verified chain is *)

Definition chain_ids (batches : list ReceiptBatchV2) : list Hash256 :=
  concat (rb_accepted_share_ids <$> batches).
Definition chain_keys (batches : list ReceiptBatchV2) : list Hash256 :=
  concat (rb_accepted_work_keys <$> batches).
Definition chain_work (batches : list ReceiptBatchV2) : Z :=
  sumZ (of_be <$> concat (rb_credited_work <$> batches)).

Lemma chain_ids_snoc l b : chain_ids (l ++ [b]) = chain_ids l ++ b.(rb_accepted_share_ids).
Proof. unfold chain_ids. by rewrite fmap_app, concat_app; cbn; rewrite app_nil_r. Qed.
Lemma chain_keys_snoc l b : chain_keys (l ++ [b]) = chain_keys l ++ b.(rb_accepted_work_keys).
Proof. unfold chain_keys. by rewrite fmap_app, concat_app; cbn; rewrite app_nil_r. Qed.
Lemma chain_work_snoc l b :
  chain_work (l ++ [b]) = chain_work l + sumZ (of_be <$> b.(rb_credited_work)).
Proof.
  unfold chain_work. rewrite fmap_app, concat_app. cbn. by rewrite app_nil_r, fmap_app, sumZ_app.
Qed.

Lemma any_repeated_ok seen keys seen' :
  any_repeated seen keys = (false, seen') ↔
  NoDup keys ∧ (∀ k, k ∈ keys → k ∉ seen) ∧ seen' = list_to_set keys ∪ seen.
Proof.
  revert seen. induction keys as [|k keys IH]; intros seen; cbn.
  { split; [intros [= <-]|intros (_ & _ & ->)]; [split_and!; [constructor|set_solver|set_solver]|].
    f_equal. set_solver. }
  rewrite NoDup_cons. case_bool_decide as Hk.
  - split; [done|]. intros (_ & Hn & _). destruct (Hn k); [left|done].
  - rewrite IH. split.
    + intros (? & Hn & ->). split_and!; [|done| |set_solver].
      * intros Hin. by apply (Hn k) in Hin; set_solver.
      * intros k' [->|Hin]%elem_of_cons; [done|]. apply Hn in Hin. set_solver.
    + intros ((Hk' & ?) & Hn & ->). split_and!; [done| |set_solver].
      intros k' Hin. assert (k' ∉ seen) by (apply Hn; by right).
      assert (k' ≠ k) by (intros ->; done). set_solver.
Qed.

Lemma any_repeated_fresh (old keys : list Hash256) :
  NoDup keys → (∀ k, k ∈ keys → k ∉ old) →
  any_repeated (list_to_set old) keys = (false, list_to_set keys ∪ list_to_set old).
Proof. intros Hd Hn. apply any_repeated_ok. split_and!; [done| |done]. intros k ?%Hn. set_solver. Qed.

Section Chain.
Context `{Digests} `{Ed25519} (roster : CommitteeRoster) (first : ReceiptBatchV2).

Definition state_of (done : list ReceiptBatchV2) : ChainState :=
  mkChainState (chain_ids done) (chain_keys done) (list_to_set (chain_ids done))
    (list_to_set (chain_keys done)) (chain_work done).

(** [batch] continues the chain [done] of a session: it is certified by the
    roster, numbered and linked to the batch before it, lists new work with one
    credit per share in canonical order, and states the running totals. *)
Record continues (done : list ReceiptBatchV2) (batch : ReceiptBatchV2) : Prop := {
  ct_entries : validate_entries batch = Ok tt;
  ct_certified : certified roster batch.(rb_signer_set) batch;
  ct_version : batch.(rb_protocol_version) = first.(rb_protocol_version);
  ct_network : batch.(rb_network_id) = first.(rb_network_id);
  ct_session : batch.(rb_session_id) = first.(rb_session_id);
  ct_sequence : batch.(rb_batch_sequence) = len done ∧ len done < 2 ^ 64;
  ct_previous :
    batch.(rb_previous_batch_id) = from_option object_id zero_hash (last done);
  ct_root : batch.(rb_share_merkle_root) = merkle_root_of batch.(rb_accepted_share_ids);
  ct_new_shares : NoDup batch.(rb_accepted_share_ids) ∧
    ∀ id, id ∈ batch.(rb_accepted_share_ids) → id ∉ chain_ids done;
  ct_new_work : NoDup batch.(rb_accepted_work_keys) ∧
    ∀ key, key ∈ batch.(rb_accepted_work_keys) → key ∉ chain_keys done;
  ct_count : batch.(rb_cumulative_share_count) = len (chain_ids (done ++ [batch]));
  ct_work : of_be batch.(rb_cumulative_credited_work) = chain_work (done ++ [batch]);
}.

(** The link to the batch before. *)
Definition link_ready (done : list ReceiptBatchV2) (batch : ReceiptBatchV2) : Prop :=
  match last done with
  | Some p => p.(rb_batch_sequence) + 1 = len done
  | None => batch.(rb_batch_sequence) = 0 ∧ batch.(rb_previous_batch_id) = zero_hash
  end.

Lemma link_check done batch :
  link_ready done batch →
  match last done with
  | None => false
  | Some p =>
      bool_decide (checked_add 64 p.(rb_batch_sequence) 1 ≠ Some batch.(rb_batch_sequence))
      || bool_decide (batch.(rb_previous_batch_id) ≠ object_id p)
  end = false ↔
  (batch.(rb_batch_sequence) = len done ∧ len done < 2 ^ 64) ∧
  batch.(rb_previous_batch_id) = from_option object_id zero_hash (last done).
Proof.
  unfold link_ready. destruct (last done) as [p|] eqn:El; cbn.
  - intros Hp. rewrite orb_false_iff, !bool_decide_eq_false.
    assert (checked_add 64 p.(rb_batch_sequence) 1 = Some batch.(rb_batch_sequence) ↔
      batch.(rb_batch_sequence) = len done ∧ len done < 2 ^ 64) as Hc.
    { rewrite checked_add_some, Hp. done. }
    rewrite <- Hc. split; [|naive_solver].
    intros [H1 H2]. apply dec_stable in H1, H2. done.
  - intros [-> ->]. apply last_None in El as ->. split; [|done]. done.
Qed.

Lemma chain_step_ok done batch st :
  roster_validate roster = Ok tt → link_ready done batch →
  chain_step roster first (last done) (state_of done) batch = Ok st ↔
  continues done batch ∧ st = state_of (done ++ [batch]).
Proof.
  intros Hr Hl. pose proof (link_check done batch Hl) as Hlink. unfold chain_step.
  match goal with |- context [match last done with Some _ => _ | None => _ end] =>
    set (bad := match last done with Some _ => _ | None => _ end) in * end.
  clearbody bad. rewrite bind_ok. setoid_rewrite bind_ok. setoid_rewrite map_err_ok.
  destruct (any_repeated (cs_seen_shares _) _) as [r1 seen1] eqn:E1.
  destruct (any_repeated (cs_seen_work _) _) as [r2 seen2] eqn:E2.
  cbn [cs_share_ids cs_work_keys cs_seen_shares cs_seen_work cs_cumulative_work state_of] in *.
  rewrite sum_work_from, <- chain_ids_snoc, <- chain_work_snoc. split.
  - intros ([] & He & [] & Hc%roster_verify_ok & Hrest). destruct Hc as [_ Hc].
    destruct (_ || r2) eqn:Ebad; [done|]. rewrite !orb_false_iff in Ebad.
    destruct Ebad as ((((((Hv & Hn) & Hs) & Hm) & Hb) & H1) & H2).
    rewrite negb_false_iff, Z.eqb_eq in Hv, Hn. apply bool_decide_eq_false, dec_stable in Hs, Hm.
    apply Hlink in Hb as [Hseq Hprev]. subst r1 r2.
    apply any_repeated_ok in E1 as (? & Hn1 & ->). apply any_repeated_ok in E2 as (? & Hn2 & ->).
    destruct (negb _ || _) eqn:Et; [done|]. rewrite orb_false_iff, !negb_false_iff, !Z.eqb_eq in Et.
    destruct Et as [Hcnt Hw]. injection Hrest as <-. split.
    + split; try done; split; [done| |done|]; intros k Hk Hin.
      * apply Hn1 in Hk. set_solver.
      * apply Hn2 in Hk. set_solver.
    + unfold state_of. rewrite chain_ids_snoc, chain_keys_snoc. f_equal; set_solver.
  - intros [Hc ->]. exists tt. split; [apply Hc|]. exists tt. split.
    { apply roster_verify_ok. split; [done|apply Hc]. }
    destruct (ct_new_shares _ _ Hc) as [Hd1 Hn1]. destruct (ct_new_work _ _ Hc) as [Hd2 Hn2].
    assert (r1 = false ∧ seen1 = list_to_set batch.(rb_accepted_share_ids) ∪ list_to_set (chain_ids done))
      as [-> ->].
    { rewrite (any_repeated_fresh _ _ Hd1 Hn1) in E1. naive_solver. }
    assert (r2 = false ∧ seen2 = list_to_set batch.(rb_accepted_work_keys) ∪ list_to_set (chain_keys done))
      as [-> ->].
    { rewrite (any_repeated_fresh _ _ Hd2 Hn2) in E2. naive_solver. }
    rewrite (proj2 Hlink) by (split; apply Hc).
    rewrite (ct_version _ _ Hc), (ct_network _ _ Hc), (ct_session _ _ Hc), <- (ct_root _ _ Hc),
      (ct_count _ _ Hc), (ct_work _ _ Hc), !Z.eqb_refl, !bool_decide_false by (intros Hx; by apply Hx).
    cbn. unfold state_of. rewrite chain_ids_snoc, chain_keys_snoc. f_equal. f_equal; set_solver.
Qed.

Lemma chain_loop_ok done rest st :
  roster_validate roster = Ok tt →
  match rest with b :: _ => link_ready done b | [] => True end →
  chain_loop roster first (last done) (state_of done) rest = Ok st ↔
  (∀ pre b post, rest = pre ++ b :: post → continues (done ++ pre) b) ∧ st = state_of (done ++ rest).
Proof.
  intros Hr. revert done. induction rest as [|b rest IH]; cbn [chain_loop]; intros done Hl.
  { rewrite app_nil_r. split; [intros [= <-]|intros [_ ->]; done].
    split; [|done]. intros [|] ? ? [=]. }
  assert (∀ b', continues done b → link_ready (done ++ [b]) b') as Hnext.
  { intros b' Hb. unfold link_ready. rewrite last_snoc, (proj1 (ct_sequence _ _ Hb)), len_app, len_cons, len_nil. lia. }
  assert (∀ st, chain_loop roster first (Some b) (state_of (done ++ [b])) rest = Ok st ↔
    chain_loop roster first (last (done ++ [b])) (state_of (done ++ [b])) rest = Ok st) as Hlast.
  { intros ?. by rewrite last_snoc. }
  rewrite bind_ok. split.
  - intros (st1 & (Hb & ->)%chain_step_ok & Hrest); [|done..].
    apply Hlast, IH in Hrest as [Hall ->]; [|destruct rest; auto]. rewrite <- app_assoc in *.
    split; [|done]. intros [|x pre] c post [= <- E]; [by rewrite app_nil_r|].
    rewrite E in Hall. specialize (Hall pre c post eq_refl). by rewrite <- app_assoc in Hall.
  - intros [Hall ->]. assert (continues done b) as Hb.
    { specialize (Hall [] b rest eq_refl). by rewrite app_nil_r in Hall. }
    exists (state_of (done ++ [b])). split; [by apply chain_step_ok|]. apply Hlast, IH.
    { destruct rest; auto. }
    rewrite <- app_assoc. split; [|done]. intros pre c post E. rewrite <- app_assoc.
    apply (Hall (b :: pre) c post). cbn. by rewrite E.
Qed.
End Chain.

Section ChainSpec.
Context `{Digests} `{Ed25519}.

(** A complete receipt chain of a session. *)
Record receipt_chain (roster : CommitteeRoster) (batches : list ReceiptBatchV2) : Prop := {
  rc_role : roster.(cr_role) = RoleReceipt;
  rc_roster : roster_validate roster = Ok tt;
  rc_fits : chain_work batches < 2 ^ 512;
  rc_links pre b post : batches = pre ++ b :: post →
    continues roster (List.hd b batches) pre b;
}.

Definition summary_of (first : ReceiptBatchV2) (batches : list ReceiptBatchV2) : ReceiptChainSummary :=
  mkReceiptChainSummary first.(rb_session_id) (object_id (List.last batches first))
    (chain_ids batches) (chain_keys batches) (to_be 64 (chain_work batches)).

Lemma verify_receipt_chain_ok batches roster summary :
  verify_receipt_chain batches roster = Ok summary ↔
  ∃ first rest, batches = first :: rest ∧ receipt_chain roster batches ∧
    summary = summary_of first batches.
Proof.
  destruct batches as [|first rest]; cbn [verify_receipt_chain].
  { split; [done|]. intros (? & ? & ? & _). done. }
  assert (∀ st, roster_validate roster = Ok tt → first.(rb_batch_sequence) = 0 →
      first.(rb_previous_batch_id) = zero_hash →
    chain_loop roster first None (mkChainState [] [] ∅ ∅ 0) (first :: rest) = Ok st ↔
    (∀ pre b post, first :: rest = pre ++ b :: post → continues roster first pre b) ∧
    st = state_of (first :: rest)) as Hloop.
  { intros st Hr Hz0 Hp. apply (chain_loop_ok roster first [] (first :: rest) st Hr). done. }
  assert (0 ≤ chain_work (first :: rest)) as Hnn by apply work_total_nonneg.
  split.
  - case_bool_decide as Hrole; [done|].
    destruct (negb _ || _) eqn:E0; [done|]. rewrite orb_false_iff, negb_false_iff, Z.eqb_eq in E0.
    destruct E0 as [Hz0 Hz]. apply bool_decide_eq_false, dec_stable in Hz.
    rewrite bind_ok. intros (st & Hst & Hrest).
    assert (roster_validate roster = Ok tt) as Hr.
    { cbn [chain_loop] in Hst. unfold chain_step in Hst. rewrite !bind_ok in Hst.
      destruct Hst as (? & (? & _ & Hst)%bind_ok & _). rewrite bind_ok in Hst.
      destruct Hst as ([] & Hv & _). by apply roster_verify_ok in Hv as [? _]. }
    apply Hloop in Hst as [Hall ->]; [|done..]. cbn [state_of cs_cumulative_work cs_share_ids cs_work_keys] in Hrest.
    destruct (512 <? _) eqn:Eb; [done|]. rewrite big_bits_le in Eb by (done || lia).
    exists first, rest. split; [done|]. split; [by split|]. injection Hrest as <-.
    unfold summary_of. by rewrite biguint_to_u512_spec.
  - intros (? & ? & [= <- <-] & Hc & ->). pose proof (rc_links _ _ Hc [] first rest eq_refl) as Hf.
    rewrite bool_decide_false by (intros Hx; by destruct Hx; apply Hc).
    assert (first.(rb_batch_sequence) = 0) as Hz0 by (by destruct (ct_sequence _ _ _ _ Hf)).
    assert (first.(rb_previous_batch_id) = zero_hash) as Hp by apply (ct_previous _ _ _ _ Hf).
    rewrite Hz0, Hp, bool_decide_false by (intros Hx; by apply Hx). cbn [negb orb Z.eqb].
    rewrite bind_ok. exists (state_of (first :: rest)). split.
    { apply Hloop; try done; [apply Hc|]. split; [|done]. intros pre b post E.
      exact (rc_links _ _ Hc pre b post E). }
    cbn [state_of cs_cumulative_work cs_share_ids cs_work_keys].
    rewrite (proj2 (big_bits_le _ 512 ltac:(lia) Hnn)) by apply Hc.
    unfold summary_of. rewrite biguint_to_u512_spec; [done|]. split; [done|apply Hc].
Qed.
End ChainSpec.
