(* ===== verification/ReceiptSafety.v ===== *)
(** * Receipts: what the operations guarantee

    Durable acceptance among concurrent writers, forks of receipt chains, and
    sessions from the first accepted share to a verified close, for the
    operations of [Receipts.v]. *)

From S2P Require Import Prelude Codec Hash Types Objects Header Target Merkle.
From S2P Require Import Storage Journal Crypto HandoffObjects Handoff HandoffSafety Share Receipts.

(** ** Durable acceptance *)

Inductive AcceptCall :=
| CallAccept (share : ValidatedShare)
| CallAcceptGateway (share : ValidatedShare) (m : GatewayContextManifestV1) (a : GatewayAssignmentV1)
    (e : GatewayCaptureEnvelopeV1) (r : GatewayCaptureReceiptV1).

Definition call_share (call : AcceptCall) : ValidatedShare :=
  match call with CallAccept share => share | CallAcceptGateway share _ _ _ _ => share end.

Definition typed_accept (call : AcceptCall) : Prop :=
  match call with
  | CallAccept _ => True
  | CallAcceptGateway _ _ a e _ => typed_assignment a ∧ typed_envelope e
  end.

(** The evidence an accepted call leaves in the journal. *)
Definition call_records `{Digests} (call : AcceptCall) : list JournalBatchRecord :=
  match call with
  | CallAccept share => share_records share
  | CallAcceptGateway share m a e r => capture_records m a e r ++ share_records share
  end.
Definition journaled `{Hex} (v : View) (records : list JournalBatchRecord) : Prop :=
  Forall (λ r, v !! record_key r.(jr_kind) r.(jr_durable_key) = Some r.(jr_value)) records.

(** The journal has other bytes under the work key or the identity of a share. *)
Definition work_conflict `{Hex} (v : View) (share : ValidatedShare) : Prop :=
  ∃ r x, r ∈ share_records share ∧ v !! record_key r.(jr_kind) r.(jr_durable_key) = Some x ∧ x ≠ r.(jr_value).

(** The one write of an acceptance: all of its records together, and for a gateway share the
    capture's own step, to a view in which none of them conflicts. *)
Definition accepted_step `{Digests} `{Ed25519} `{Hex} (call : AcceptCall) (v v' : View) : Prop :=
  match call with
  | CallAccept share => records_fit v (share_records share) ∧ v' = commit_view v (share_records share) []
  | CallAcceptGateway share m a e r =>
      check_derivation share = Ok tt ∧ check_disposition share a e r = Ok tt ∧
      records_fit v (share_records share) ∧ handoff_commit v (CallCapture m a e r) (share_records share) v'
  end.

Section Acceptance.
Context `{Digests} `{!DigestsOk} `{Ed25519} `{HexOk}.
Context {S : Type} `{!DurableStore S, !DurableStoreLaws S}.
Context (env : nat → S → S).

Definition run_accept (b : ReceiptBuilder) (call : AcceptCall) : sclient (S := S) ReceiptBuilder :=
  match call with
  | CallAccept share => accept_durable env b share
  | CallAcceptGateway share m a e r => accept_gateway_durable env b share m a e r
  end.

Lemma present_journaled (v : View) records : all_present v (prepared_of <$> records) → journaled v records.
Proof.
  intros Hp. apply list.Forall_forall. intros r Hr. apply (Hp (prepared_of r)).
  apply list_elem_of_fmap. by exists r.
Qed.

Lemma share_records_kinds share : Forall share_record (share_records share).
Proof. apply Forall_cons. split; [by left|]. apply Forall_cons. split; [by right|constructor]. Qed.
Lemma share_request share : well_formed_request (share_records share) [] [].
Proof.
  split_and!; [done| |done..]. cbn. apply NoDup_cons. split; [|apply NoDup_singleton].
  by intros [= E]%list_elem_of_singleton.
Qed.
Lemma share_keys_valid share : batch_keys_valid [] ((put_of <$> (prepared_of <$> share_records share)) ++ []) = true.
Proof.
  unfold batch_keys_valid, share_records. cbn -[valid_key kind_namespace].
  by rewrite !valid_journal_key.
Qed.

(** A builder that a share is new to takes it. *)
Lemma accept_new b share : check_new b share = Ok tt → ∃ b', accept b share = Ok b'.
Proof. intros E. unfold accept. rewrite E. by eexists. Qed.
Lemma check_new_duplicate b share : check_new b share = Err DuplicateWork → is_Some (b.(bd_accepted) !! share.(vs_work_key)).
Proof. unfold check_new. destruct (bool_decide (_ ≠ _)); [done|]. by case_bool_decide. Qed.

Section Steps.
Context (R : relation View) `{!PreOrder R}.
Hypothesis env_R : ∀ n s v, represents s v → ∃ v', represents (env n s) v' ∧ R v v'.
Hypothesis R_journal : ∀ v v', R v v' → journal_le v v'.

(** What an acceptance from the view [v] to [v'] means. *)
Definition accept_outcome (b : ReceiptBuilder) (call : AcceptCall) (v : View) (r : result ShareError ReceiptBuilder)
    (v' : View) : Prop :=
  let share := call_share call in
  match r with
  | Ok b' => accept b share = Ok b' ∧ journaled v' (call_records call) ∧
      (R v v' ∨ ∃ v0, R v v0 ∧ accepted_step call v0 v')
  | Err e => R v v' ∧
      (e = DuplicateWork → is_Some (b.(bd_accepted) !! share.(vs_work_key)) ∨ work_conflict v' share) ∧
      match call with
      | CallAccept _ => check_new b share = Err e ∨ e = DuplicateWork
      | CallAcceptGateway _ _ _ _ _ => True
      end
  end.

Lemma accept_durable_spec b share n s (v : View) :
  represents s v →
  ∃ r n' s' v', run_accept b (CallAccept share) (n, s) = (r, (n', s')) ∧ represents s' v' ∧
    accept_outcome b (CallAccept share) v r v'.
Proof.
  intros Hrep. cbn [run_accept]. unfold accept_durable, mbind, sclient_bind, slift, journal_result.
  destruct (check_new b share) as [[]|err] eqn:En.
  2: { eexists _, n, s, v. split; [done|]. split; [done|]. split; [done|]. split; [|by left].
       intros ->. left. by apply check_new_duplicate. }
  destruct (accept_new b share En) as [b' Hb'].
  destruct (persist_records_spec env R env_R R_journal (share_records share) [] [] n s v Hrep (share_request share))
    as (r & n' & s' & v' & E & Hrep' & Hr). rewrite E. cbn zeta in Hr.
  destruct r as [[]|e]; cbn [persisted] in Hr.
  - destruct Hr as (v0 & Hle0 & _ & Hfit & ->). eexists _, n', s', _. split; [done|]. split; [done|]. rewrite Hb'.
    destruct (prepare_spec _ _ (prepare_complete _ (proj1 (proj2 (share_request share))))) as [_ Hok].
    split; [done|]. split; [by apply present_journaled, batch_present|]. right. exists v0. split; [done|]. split; [|done].
    intros q x Hq Hx. apply (Hfit (prepared_of q) x); [|done]. apply list_elem_of_fmap. by exists q.
  - by destruct Hr as (v0 & _ & _ & Hf & _).
  - by destruct Hr as (v0 & _ & _ & Hf & _).
  - destruct e; try (destruct Hr as (_ & _ & Hbad); by rewrite share_keys_valid in Hbad).
    destruct Hr as (HR & p & x & Hp & Hx & Hne). eexists _, n', s', v'. split; [done|]. split; [done|].
    split; [done|]. split; [|by right]. intros _. right. apply list_elem_of_fmap in Hp as (q & -> & Hq). by exists q, x.
Qed.

Lemma accept_gateway_spec b share m a e r n s (v : View) :
  typed_assignment a → typed_envelope e → represents s v →
  ∃ res n' s' v', run_accept b (CallAcceptGateway share m a e r) (n, s) = (res, (n', s')) ∧ represents s' v' ∧
    accept_outcome b (CallAcceptGateway share m a e r) v res v'.
Proof.
  intros Ha He Hrep. cbn [run_accept]. unfold accept_gateway_durable, mbind, sclient_bind, slift.
  assert (∀ err (v' : View), R v v' → err ≠ DuplicateWork →
    accept_outcome b (CallAcceptGateway share m a e r) v (Err err) v') as Herr by (intros err v' HR Hne; by split).
  destruct (check_derivation share) as [[]|err] eqn:Ed.
  2: { eexists _, n, s, v. do 2 (split; [done|]). apply Herr; [done|]. unfold check_derivation in Ed. destruct (_ || _) in Ed; congruence. }
  destruct (check_new b share) as [[]|err] eqn:En.
  2: { eexists _, n, s, v. do 2 (split; [done|]). split; [done|]. split; [|done]. intros ->. left. by apply check_new_duplicate. }
  destruct (accept_new b share En) as [b' Hb'].
  destruct (check_disposition share a e r) as [[]|err] eqn:Ep.
  2: { eexists _, n, s, v. do 2 (split; [done|]). apply Herr; [done|]. unfold check_disposition in Ep. destruct (_ || _) in Ep; congruence. }
  destruct (prepare_refines env R env_R R_journal v m a e r Ha He n s Hrep) as (rp & n1 & s1 & v1 & E1 & Hrep1 & Hp).
  unfold handoff. rewrite E1. destruct rp as [p|err]; cbn [map_err].
  2: { eexists _, n1, s1, v1. do 2 (split; [done|]). by apply Herr. }
  destruct Hp as (Hrec & Hle1 & Hp). unfold journal_result.
  destruct (persist_records_among env R env_R R_journal (p.(pcd_records) ++ share_records share) p.(pcd_conditions)
    p.(pcd_operations) n1 s1 v1 Hrep1) as (ro & n2 & s2 & v2 & E2 & Hrep2 & Hr). rewrite E2.
  destruct Hr as [(Hne & Hle2 & Hx)|(-> & Hall & v0 & Hle2 & (Hcs & Hfit & Hv2)%committed_from_spec)].
  2: { eexists _, n2, s2, v2. do 2 (split; [done|]). rewrite Hb'. split; [done|]. rewrite Hrec in Hall. split; [by apply present_journaled|].
       right. exists v0. split; [by etrans|]. split; [done|]. split; [done|]. split; [intros q x Hq; apply Hfit; set_solver|].
       rewrite Hv2. apply Hp; try done. apply share_records_kinds. }
  assert (R v v2) as Hle by by etrans. destruct ro as [[]|err]; [done| | |].
  - eexists _, n2, s2, v2. do 2 (split; [done|]). rewrite Hb'. split; [done|]. split; [|by left].
    specialize (Hx eq_refl). rewrite Hrec in Hx. by apply present_journaled.
  - eexists _, n2, s2, v2. do 2 (split; [done|]). by apply Herr.
  - destruct err; try (eexists _, n2, s2, v2; do 2 (split; [done|]); by apply Herr). unfold load.
    destruct (get_call_among env R (kind_namespace KindAcceptedWorkKey) (hex_encode share.(vs_work_key)) n2 s2 v2 env_R Hrep2
      (valid_journal_key _ _)) as (v3 & s3 & E3 & Hrep3 & Hle3).
    rewrite E3. assert (R v v3) by by etrans. eexists _, _, s3, v3. do 2 (split; [done|]).
    destruct (v3 !! _) as [x|] eqn:Ex; [|by apply Herr]. case_bool_decide as Ei; [|by apply Herr].
    split; [done|]. split; [|done]. intros _. right. exists (mkJournalBatchRecord KindAcceptedWorkKey share.(vs_work_key) share.(vs_share_id)), x.
    split; [unfold share_records; set_solver|]. by split.
Qed.

Lemma run_accept_outcome b call n s (v : View) :
  typed_accept call → represents s v →
  ∃ r n' s' v', run_accept b call (n, s) = (r, (n', s')) ∧ represents s' v' ∧ accept_outcome b call v r v'.
Proof. destruct call; cbn [typed_accept]; [by intros _; apply accept_durable_spec|by intros []; apply accept_gateway_spec]. Qed.
End Steps.

Lemma accepted_step_keeps call (v v' : View) : accepted_step call v v' → handoff_rely v v'.
Proof.
  destruct call; cbn [accepted_step].
  - intros [Hfit ->]. split; apply shares_keep; (done || apply share_records_kinds).
  - intros (_ & _ & _ & Hc). by eapply commit_keeps.
Qed.
Lemma accept_outcome_rely (R : relation View) b call (v : View) r (v' : View) :
  (∀ v v', R v v' → handoff_rely v v') → accept_outcome R b call v r v' → handoff_rely v v'.
Proof.
  intros HR. destruct r as [b'|e]; cbn.
  - intros (_ & _ & [?|(v0 & ? & Hs)]); [by apply HR|]. etrans; [by apply HR|]. by eapply accepted_step_keeps.
  - intros [? _]. by apply HR.
Qed.

Hypothesis env_rely :
  ∀ n s v, represents s v → ∃ v', represents (env n s) v' ∧ handoff_rely v v'.

(** A journal batch whose commits keep the rely. *)
Lemma persist_keeps records cs supp n s (v : View) :
  represents s v →
  (∀ v0 : View, handoff_rely v v0 → Forall (λ c, v0 !! condition_target c = c.(bc_expected)) cs →
    records_fit v0 records → handoff_rely v0 (commit_view v0 records supp)) →
  ∃ r n' s' v', persist_records_with_conditions_and_batch env records cs supp (n, s) = (r, (n', s')) ∧
    represents s' v' ∧ handoff_rely v v' ∧
    (r = Ok Committed ∨ r = Ok ExactRecord → journaled v' records).
Proof.
  intros Hrep Hc.
  destruct (persist_records_among env handoff_rely env_rely rely_journal records cs supp n s v Hrep)
    as (r & n' & s' & v' & E & Hrep' & Hr).
  exists r, n', s', v'. split; [done|]. split; [done|].
  destruct Hr as [(Hne & Hle & Hx)|(-> & Hall & v0 & Hle & Hf)].
  - split; [done|]. intros [->| ->]; [done|]. by apply present_journaled, Hx.
  - split; [|intros _; by apply present_journaled].
    apply committed_from_spec in Hf as (Hcs & Hfit & ->). etrans; [exact Hle|]. by apply Hc.
Qed.

(** Every acceptance ends, is a legitimate step among the others, and a
    successful one is backed by its whole evidence in the journal. *)
Lemma run_accept_spec b call n s (v : View) :
  typed_accept call → represents s v →
  ∃ r n1 s1 v1, run_accept b call (n, s) = (r, (n1, s1)) ∧ represents s1 v1 ∧ handoff_rely v v1 ∧
    ∀ b', r = Ok b' → accept b (call_share call) = Ok b' ∧ journaled v1 (call_records call).
Proof.
  intros Hcall Hrep. destruct (run_accept_outcome handoff_rely env_rely rely_journal b call n s v Hcall Hrep)
    as (r & n1 & s1 & v1 & E & Hrep1 & Hr).
  exists r, n1, s1, v1. do 2 (split; [done|]). split; [by eapply accept_outcome_rely|]. intros b' ->. by destruct Hr as (? & ? & _).
Qed.

Lemma journaled_share (v : View) call :
  journaled v (call_records call) →
  let share := call_share call in
  v !! record_key KindAcceptedWorkKey share.(vs_work_key) = Some share.(vs_share_id) ∧
  v !! record_key KindAcceptedShare share.(vs_share_id) = Some (to_canonical_bytes share.(vs_share)).
Proof.
  unfold journaled. intros Hj.
  assert (Forall (λ r, v !! record_key r.(jr_kind) r.(jr_durable_key) = Some r.(jr_value))
    (share_records (call_share call))) as Hs.
  { destruct call; [done|]. by apply Forall_app in Hj as [_ ?]. }
  apply Forall_cons in Hs as [Hw Hs]. by apply Forall_cons in Hs as [Hs _].
Qed.

Lemma journaled_later (v v' : View) records : handoff_rely v v' → journaled v records → journaled v' records.
Proof.
  intros Hle Hj. eapply Forall_impl; [exact Hj|]. intros r Hr.
  by apply (rely_journal v v' Hle); [apply in_journal_kind|].
Qed.

End Acceptance.

Section AcceptedOnce.
Context `{Digests} `{!DigestsOk} `{Ed25519} `{HexOk}.
Context {S : Type} `{!DurableStore S, !DurableStoreLaws S}.
Context (env : nat → S → S) (R : relation View) `{!PreOrder R}.
Hypothesis env_R : ∀ n s v, represents s v → ∃ v', represents (env n s) v' ∧ R v v'.
Hypothesis R_rely : ∀ v v', R v v' → handoff_rely v v'.

(** C12: work is accepted once. The other writers respect any order [R] under which they keep the
    rely of the handoff; taking equality for [R], every clause says what the call itself does. Both
    durable acceptance paths end and keep the rely. An accepted share has grown the builder by exactly that
    share, and its work key, the share itself and (for a gateway share) the whole handoff
    evidence are in the journal: either they were all there already and nothing was
    written, or they were written together in one step, to a view in which neither the work key nor the
    identity belonged to another share. A refused share has written nothing; it is refused as duplicate work only
    if the builder holds the work or the journal has other bytes under its work key or identity, and
    a share without gateway evidence is refused only so or for a foreign session. From then on,
    in any store the others may bring about, no builder accepts another share for the same work: a
    later acceptance under that work key is of the very same share bytes. *)
Theorem accepted_work_once b call n s v :
  typed_accept call → represents s v →
  ∃ r n1 s1 v1, run_accept env b call (n, s) = (r, (n1, s1)) ∧ represents s1 v1 ∧ handoff_rely v v1 ∧
    accept_outcome R b call v r v1 ∧
    (is_ok r = true → ∀ b2 call2 m s2 v2 b2' w2,
        typed_accept call2 → represents s2 v2 → handoff_rely v1 v2 →
        run_accept env b2 call2 (m, s2) = (Ok b2', w2) →
        (call_share call2).(vs_work_key) = (call_share call).(vs_work_key) →
        (call_share call2).(vs_share_id) = (call_share call).(vs_share_id) ∧
        to_canonical_bytes (call_share call2).(vs_share) =
          to_canonical_bytes (call_share call).(vs_share)).
Proof.
  intros Hcall Hrep. assert (∀ v v', R v v' → journal_le v v') as Hj by (intros; by apply rely_journal, R_rely).
  assert (∀ n s v, represents s v → ∃ v', represents (env n s) v' ∧ handoff_rely v v') as Henv.
  { intros k t w Hw. destruct (env_R k t w Hw) as (w' & ? & ?). exists w'. split; [done|by apply R_rely]. }
  destruct (run_accept_outcome env R env_R Hj b call n s v Hcall Hrep) as (r & n1 & s1 & v1 & E & Hrep1 & Hr).
  exists r, n1, s1, v1. do 2 (split; [done|]). split; [by eapply accept_outcome_rely|]. split; [done|].
  destruct r as [b'|]; [intros _|done]. destruct Hr as (_ & Hjn & _). intros b2 call2 m s2 v2 b2' w2 Hcall2 Hrep2 Hle2 E2 Hkey.
  destruct (run_accept_spec env Henv b2 call2 m s2 v2 Hcall2 Hrep2) as (r3 & n3 & s3 & v3 & E3 & _ & Hle3 & Hr3).
  rewrite E3 in E2. injection E2 as -> _. destruct (Hr3 b2' eq_refl) as [_ Hj3].
  apply (journaled_later v1 v3) in Hjn; [|by etrans].
  apply journaled_share in Hjn as [Hw Hs]. apply journaled_share in Hj3 as [Hw3 Hs3].
  rewrite Hkey, Hw in Hw3. injection Hw3 as Ei. split; [done|]. rewrite <- Ei, Hs in Hs3. congruence.
Qed.
End AcceptedOnce.

(** ** Witness: a gateway share, accepted by two builders *)

Section DemoAcceptance.
#[local] Existing Instances mix_digests mix_digests_ok toy_ed25519 toy_ed25519_ok
  lower_hex_instance lower_hex_ok.

Definition demo_captured : ShareV2 :=
  let envelope := Demo.envelope 1 7 in
  mkShareV2 2 2 (Demo.key x11) (object_id (Demo.assignment 1)) (Demo.key x12) (Demo.key x01)
    (Demo.key x15) envelope.(gce_nonce) envelope.(gce_ntime) envelope.(gce_extra_nonce)
    envelope.(gce_raw_share_hash) (Demo.key x17) [] (Some (object_id envelope)) [].
Definition demo_validated : ValidatedShare :=
  mkValidatedShare demo_captured (object_id demo_captured) (work_key demo_captured)
    (work_for_target demo_captured.(sh_declared_target)).
Definition demo_accepted_receipt : GatewayCaptureReceiptV1 :=
  let unsigned := mkGatewayCaptureReceiptV1 2 1 2 (object_id Demo.manifest)
    (object_id (Demo.assignment 1)) (object_id (Demo.envelope 1 7)) (Demo.key x02) (Demo.key x03) 1
    600 CAPTURE_OUTCOME_ACCEPTED 0 (object_id demo_captured) in
  unsigned (Demo.sign x03 (unsigned [])).
Definition demo_builder : ReceiptBuilder :=
  builder_new 2 2 (Demo.key x11) 0 zero_hash 0 (replicate 64 x00).
Definition demo_gateway_call : AcceptCall :=
  CallAcceptGateway demo_validated Demo.manifest (Demo.assignment 1) (Demo.envelope 1 7)
    demo_accepted_receipt.

(** The store once the first assignment is authorized. *)
Definition demo_authorized : nat * MemoryStore := (run_handoffs alone (take 2 Demo.calls) (0%nat, ∅)).2.

Lemma demo_authorized_view : ∃ v : View, represents demo_authorized.2 v.
Proof.
  destruct (run_handoffs_rely alone alone_rely (take 2 Demo.calls) 0 ∅ ∅)
    as (rs & n' & s' & v & E & Hrep & _); [|apply mem_represents_empty|].
  { apply Forall_take, demo_calls_typed. }
  exists v. unfold demo_authorized. rewrite E. done.
Qed.

Lemma demo_gateway_typed : typed_accept demo_gateway_call.
Proof. split; [apply demo_assignment_typed; by left|apply demo_envelope_typed; set_solver]. Qed.

Lemma eq_rely (v v' : View) : v = v' → handoff_rely v v'.
Proof. by intros ->. Qed.

Lemma accepted_work_once_witness :
  ∃ b1 w1 v v1 w2,
    run_accept alone demo_builder demo_gateway_call demo_authorized = (Ok b1, w1) ∧
    represents demo_authorized.2 v ∧ represents w1.2 v1 ∧ accept_outcome eq demo_builder demo_gateway_call v (Ok b1) v1 ∧
    run_accept alone demo_builder (CallAccept demo_validated) w1 = (Ok b1, w2).
Proof.
  destruct demo_authorized_view as (v & Hrep).
  destruct (accepted_work_once alone eq alone_eq eq_rely demo_builder demo_gateway_call demo_authorized.1
    demo_authorized.2 v demo_gateway_typed Hrep) as (r & n1 & s1 & v1 & E & Hrep1 & _ & Hr & _).
  rewrite <- surjective_pairing in E.
  assert (is_ok (run_accept alone demo_builder demo_gateway_call demo_authorized).1 = true) as Hok by (vm_compute; reflexivity).
  assert (is_ok (run_accept alone demo_builder (CallAccept demo_validated)
            (run_accept alone demo_builder demo_gateway_call demo_authorized).2).1 = true) as Hok2 by (vm_compute; reflexivity).
  rewrite E in Hok, Hok2. cbn [fst snd] in Hok, Hok2. destruct r as [b1|e]; [|discriminate Hok].
  destruct (accepted_work_once alone eq alone_eq eq_rely demo_builder (CallAccept demo_validated) n1 s1 v1 I Hrep1)
    as (r2 & n2 & s2 & v2 & E2 & _ & _ & Hr2 & _).
  rewrite E2 in Hok2. cbn [fst] in Hok2. destruct r2 as [b2|e]; [|discriminate Hok2].
  exists b1, (n1, s1), v, v1, (n2, s2). split; [exact E|]. split; [exact Hrep|]. split; [exact Hrep1|]. split; [exact Hr|].
  rewrite E2. destruct Hr as (Ha & _), Hr2 as (Ha2 & _). cbn [call_share demo_gateway_call] in Ha, Ha2.
  rewrite Ha in Ha2. injection Ha2 as ->. reflexivity.
Defined.
End DemoAcceptance.

(** ** What a verified chain implies *)

Section ChainFacts.
Context `{Digests} `{Ed25519}.
Context (roster : CommitteeRoster) (batches : list ReceiptBatchV2).
Hypothesis Hchain : receipt_chain roster batches.

(** What every batch of the chain establishes of the chain up to it holds of
    the whole chain. *)
Lemma chain_ind (P : list ReceiptBatchV2 → Prop) :
  P [] → (∀ pre b first, continues roster first pre b → P pre → P (pre ++ [b])) → P batches.
Proof.
  intros H1 H2. assert (∀ pre post, batches = pre ++ post → P pre) as Hp.
  { induction pre as [|b pre IH] using rev_ind; intros post E; [done|]. rewrite <- app_assoc in E.
    eapply H2; [exact (rc_links _ _ Hchain pre b post E)|]. by eapply IH. }
  apply (Hp batches []). by rewrite app_nil_r.
Qed.

Lemma chain_ids_NoDup : NoDup (chain_ids batches).
Proof.
  apply chain_ind; [constructor|]. intros pre b first Hb Hpre. rewrite chain_ids_snoc.
  destruct (ct_new_shares _ _ _ _ Hb) as [? Hn]. apply NoDup_app. split_and!; [done| |done].
  intros x ? ?%Hn. done.
Qed.
Lemma chain_keys_NoDup : NoDup (chain_keys batches).
Proof.
  apply chain_ind; [constructor|]. intros pre b first Hb Hpre. rewrite chain_keys_snoc.
  destruct (ct_new_work _ _ _ _ Hb) as [? Hn]. apply NoDup_app. split_and!; [done| |done].
  intros x ? ?%Hn. done.
Qed.
Lemma chain_lengths :
  length (chain_ids batches) = length (chain_keys batches) ∧
  length (chain_ids batches) = length (concat (rb_credited_work <$> batches)).
Proof.
  apply chain_ind; [done|]. intros pre b first Hb [H1 H2].
  destruct (proj1 (validate_entries_spec b) (ct_entries _ _ _ _ Hb)) as (Hk & Hc & _).
  rewrite chain_ids_snoc, chain_keys_snoc, fmap_app, concat_app, !length_app. cbn.
  rewrite length_app. cbn. lia.
Qed.
End ChainFacts.

(** C16: receipt chains are verified exactly. [verify_receipt_chain] accepts a list
    of batches if and only if it is a receipt chain: from sequence 0 and the zero
    hash on, every batch is certified by a threshold of distinct roster members,
    linked to its predecessor by number and identity, of one session, canonically
    ordered, and states the running totals; no share identity and no work key
    occurs twice in the whole chain; the total fits 512 bits. The summary is then
    the concatenation of the batches, and its total the sum of all credits. *)
Theorem receipt_chain_exact `{Digests} `{Ed25519} batches roster summary :
  (verify_receipt_chain batches roster = Ok summary ↔
   ∃ first rest, batches = first :: rest ∧ receipt_chain roster batches ∧
     summary = summary_of first batches) ∧
  (verify_receipt_chain batches roster = Ok summary →
   NoDup summary.(rcs_accepted_share_ids) ∧ NoDup summary.(rcs_accepted_work_keys) ∧
   length summary.(rcs_accepted_share_ids) = length summary.(rcs_accepted_work_keys) ∧
   length summary.(rcs_accepted_share_ids) = length (concat (rb_credited_work <$> batches)) ∧
   of_be summary.(rcs_total_credited_work) =
     sumZ (of_be <$> concat (rb_credited_work <$> batches))).
Proof.
  rewrite verify_receipt_chain_ok. split; [done|]. intros (first & rest & E & Hc & ->).
  cbn [summary_of rcs_accepted_share_ids rcs_accepted_work_keys rcs_total_credited_work].
  destruct (chain_lengths roster batches Hc). split_and!; [|..|done|done|].
  - by eapply chain_ids_NoDup.
  - by eapply chain_keys_NoDup.
  - apply of_to_be. split; [apply work_total_nonneg|]. apply (rc_fits _ _ Hc).
Qed.

(** ** Forks *)

Section Forks.
Context `{Digests} `{Ed25519}.

(** The members who signed both batches. *)
Definition signed_both (roster : CommitteeRoster) (x y : ReceiptBatchV2) (s : bytes) : Prop :=
  s ∈ roster.(cr_members) ∧ (∃ sig, signed_by roster.(cr_network_id) x s sig) ∧
  ∃ sig, signed_by roster.(cr_network_id) y s sig.

Lemma certified_signers roster (x : ReceiptBatchV2) :
  certified roster x.(rb_signer_set) x →
  NoDup (batch_signers x) ∧ roster.(cr_threshold) ≤ len (batch_signers x) ∧
  ∀ s, s ∈ batch_signers x → s ∈ roster.(cr_members) ∧ ∃ sig, signed_by roster.(cr_network_id) x s sig.
Proof.
  intros (_ & Hk & Hs & Ht & Hm). unfold batch_signers. split; [by apply Sorted_lt_NoDup|].
  split; [by rewrite len_fmap|]. intros s (e & -> & He)%list_elem_of_fmap.
  rewrite list.Forall_forall in Hs, Hm. split; [by apply Hm|]. eexists. by apply Hs.
Qed.

Lemma quorum_overlap (members A B : gset bytes) :
  A ⊆ members → B ⊆ members →
  Z.of_nat (size A) + Z.of_nat (size B) - Z.of_nat (size members) ≤ Z.of_nat (size (A ∩ B)).
Proof.
  intros HA HB. assert (size (A ∪ B) ≤ size members)%nat by (apply subseteq_size; set_solver).
  rewrite size_union_alt, size_difference_alt in *.
  replace (A ∩ B) with (B ∩ A) by set_solver. assert (size (B ∩ A) ≤ size B)%nat by (apply subseteq_size; set_solver).
  lia.
Qed.

(** Two certified batches for one slot convict every common signer, at least
    [2t - n] of them. *)
Lemma equivocation_convicts roster x y :
  certified roster x.(rb_signer_set) x → certified roster y.(rb_signer_set) y →
  x.(rb_session_id) = y.(rb_session_id) → x.(rb_batch_sequence) = y.(rb_batch_sequence) →
  object_id x ≠ object_id y →
  Z.of_nat (size roster.(cr_members)) < 2 * roster.(cr_threshold) →
  ∃ culprits, detect_receipt_equivocation x y = Ok (mkReceiptEquivocationProof x.(rb_session_id)
      x.(rb_batch_sequence) (object_id x) (object_id y) culprits) ∧
    Sorted bytes_lt culprits ∧
    2 * roster.(cr_threshold) - Z.of_nat (size roster.(cr_members)) ≤ len culprits ∧
    Forall (signed_both roster x y) culprits.
Proof.
  intros Hx Hy Hs Hq Hne Hn. unfold detect_receipt_equivocation.
  rewrite Hs, Hq, Z.eqb_refl, (bool_decide_false (_ ≠ _)), (bool_decide_false (object_id x = _))
    by (done || intros Hz; by apply Hz). cbn [negb orb].
  apply certified_signers in Hx as (Hdx & Htx & Hmx). apply certified_signers in Hy as (Hdy & Hty & Hmy).
  set (A := list_to_set (batch_signers x) : gset bytes). set (l := filter (λ s, s ∈ A) (batch_signers y)).
  destruct (dedup_sorted (merge_sort bytes_le l)) as (Hsort & Hin & _); [apply Sorted_merge_sort; apply _|].
  set (culprits := dedup (merge_sort bytes_le l)) in *.
  assert (∀ s, s ∈ culprits ↔ s ∈ batch_signers x ∧ s ∈ batch_signers y) as Hc.
  { intros s. rewrite Hin, (merge_sort_Permutation bytes_le l). unfold l.
    rewrite list_elem_of_filter. unfold A. set_solver. }
  assert (2 * roster.(cr_threshold) - Z.of_nat (size roster.(cr_members)) ≤ len culprits) as Hlen.
  { assert (list_to_set culprits =@{gset bytes} A ∩ list_to_set (batch_signers y)) as E.
    { apply set_eq. intros s. rewrite elem_of_list_to_set, Hc. unfold A. set_solver. }
    unfold len. rewrite <- (size_list_to_set (C := gset bytes)) by (by apply Sorted_lt_NoDup). rewrite E.
    etrans; [|apply (quorum_overlap roster.(cr_members))].
    - unfold A. rewrite !size_list_to_set by done. unfold len in *. lia.
    - intros s. unfold A. rewrite elem_of_list_to_set. intros ?%Hmx. tauto.
    - intros s. rewrite elem_of_list_to_set. intros ?%Hmy. tauto. }
  exists culprits. rewrite bool_decide_false by (intros E; rewrite E, len_nil in Hlen; lia).
  split_and!; [done..|]. apply list.Forall_forall. intros s [Hsx Hsy]%Hc.
  destruct (Hmx s Hsx), (Hmy s Hsy). by split_and!.
Qed.

(** Two lists of batches, by identity: one extends the other or they fork. *)
Lemma prefix_or_fork (l1 l2 : list ReceiptBatchV2) :
  (object_id <$> l1) `prefix_of` (object_id <$> l2) ∨ (object_id <$> l2) `prefix_of` (object_id <$> l1) ∨
  ∃ pre1 x post1 pre2 y post2, l1 = pre1 ++ x :: post1 ∧ l2 = pre2 ++ y :: post2 ∧
    object_id <$> pre1 = object_id <$> pre2 ∧ object_id x ≠ object_id y.
Proof.
  revert l2. induction l1 as [|x l1 IH]; intros [|y l2].
  - left. done.
  - left. apply prefix_nil.
  - right. left. apply prefix_nil.
  - destruct (decide (object_id x = object_id y)) as [E|Hne].
    + destruct (IH l2) as [?|[?|(pre1 & a & post1 & pre2 & b & post2 & -> & -> & Hp & Hab)]].
      * left. cbn. rewrite E. by apply prefix_cons.
      * right. left. cbn. rewrite E. by apply prefix_cons.
      * right. right. exists (x :: pre1), a, post1, (y :: pre2), b, post2. cbn. rewrite E, Hp. done.
    + right. right. exists [], x, l1, [], y, l2. done.
Qed.

(** C18: receipt chains fork only in public view. Of two verified chains of one
    session under one roster either one extends the other, or they part at some
    point, in two different certified batches for one slot after equal
    histories; if the threshold is a majority of the roster, the equivocation
    detector then returns a proof that convicts at least [2t - n] members, each
    with valid signatures on both batches. *)
Theorem receipt_fork_attributable roster chain1 chain2 summary1 summary2 :
  verify_receipt_chain chain1 roster = Ok summary1 →
  verify_receipt_chain chain2 roster = Ok summary2 →
  summary1.(rcs_session_id) = summary2.(rcs_session_id) →
  (object_id <$> chain1) `prefix_of` (object_id <$> chain2) ∨
  (object_id <$> chain2) `prefix_of` (object_id <$> chain1) ∨
  ∃ pre1 x post1 pre2 y post2, chain1 = pre1 ++ x :: post1 ∧ chain2 = pre2 ++ y :: post2 ∧
    object_id <$> pre1 = object_id <$> pre2 ∧ object_id x ≠ object_id y ∧
    certified roster x.(rb_signer_set) x ∧ certified roster y.(rb_signer_set) y ∧
    (Z.of_nat (size roster.(cr_members)) < 2 * roster.(cr_threshold) →
     ∃ culprits, detect_receipt_equivocation x y = Ok (mkReceiptEquivocationProof
         summary1.(rcs_session_id) (len pre1) (object_id x) (object_id y) culprits) ∧
       Sorted bytes_lt culprits ∧
       2 * roster.(cr_threshold) - Z.of_nat (size roster.(cr_members)) ≤ len culprits ∧
       Forall (signed_both roster x y) culprits).
Proof.
  intros (f1 & r1 & E1 & Hc1 & ->)%verify_receipt_chain_ok (f2 & r2 & E2 & Hc2 & ->)%verify_receipt_chain_ok Hs.
  destruct (prefix_or_fork chain1 chain2)
    as [?|[?|(pre1 & x & post1 & pre2 & y & post2 & Ex & Ey & Hp & Hne)]]; [by left|by right; left|].
  right. right. exists pre1, x, post1, pre2, y, post2. do 4 (split; [done|]).
  pose proof (rc_links _ _ Hc1 _ _ _ Ex) as Hx. pose proof (rc_links _ _ Hc2 _ _ _ Ey) as Hy.
  rewrite E1 in Hx. rewrite E2 in Hy. cbn [List.hd] in Hx, Hy. cbn [summary_of rcs_session_id] in *.
  split; [apply Hx|]. split; [apply Hy|]. intros Hn.
  destruct (equivocation_convicts roster x y) as (culprits & Hd & ? & ? & ?);
    [apply Hx|apply Hy| | |done|done|].
  - rewrite (ct_session _ _ _ _ Hx), (ct_session _ _ _ _ Hy). done.
  - rewrite (proj1 (ct_sequence _ _ _ _ Hx)), (proj1 (ct_sequence _ _ _ _ Hy)).
    apply (f_equal length) in Hp. rewrite !length_fmap in Hp. unfold len. lia.
  - exists culprits. rewrite Hd, (ct_session _ _ _ _ Hx), (proj1 (ct_sequence _ _ _ _ Hx)). done.
Qed.
End Forks.

(** ** From accepted shares to a verified close *)

Definition with_signers (b : ReceiptBatchV2) (signer_set : SignatureSet) : ReceiptBatchV2 :=
  mkReceiptBatchV2 b.(rb_protocol_version) b.(rb_network_id) b.(rb_session_id) b.(rb_batch_sequence)
    b.(rb_previous_batch_id) b.(rb_accepted_share_ids) b.(rb_accepted_work_keys) b.(rb_credited_work)
    b.(rb_share_merkle_root) b.(rb_cumulative_share_count) b.(rb_cumulative_credited_work) signer_set.
Definition close_with_signers (c : SessionCloseV2) (signer_set : SignatureSet) : SessionCloseV2 :=
  mkSessionCloseV2 c.(sc_protocol_version) c.(sc_network_id) c.(sc_session_id)
    c.(sc_final_receipt_batch_id) c.(sc_accepted_share_merkle_root) c.(sc_accepted_work_key_root)
    c.(sc_accepted_share_count) c.(sc_total_credited_work) c.(sc_close_reason)
    c.(sc_mask_opening_transcript_root) c.(sc_discovered_hns_block_ids) signer_set.

(** Shares accepted into a builder one after the other. *)
Definition accept_all (b : ReceiptBuilder) (shares : list ValidatedShare) :
    result ShareError ReceiptBuilder := fold_result accept b shares.

Section Sessions.
Context `{Digests} `{Ed25519}.

(** The builder that continues after a batch. *)
Definition next_builder (batch : ReceiptBatchV2) : ReceiptBuilder :=
  builder_new batch.(rb_protocol_version) batch.(rb_network_id) batch.(rb_session_id)
    (batch.(rb_batch_sequence) + 1) (object_id batch) batch.(rb_cumulative_share_count)
    batch.(rb_cumulative_credited_work).

(** A receipt committee at work: in each round the builder accepts shares, the
    batch is finalized and signed, and the next builder continues from it. *)
Fixpoint session_batches (sign : ReceiptBatchV2 → SignatureSet) (builder : ReceiptBuilder)
    (rounds : list (list ValidatedShare)) : result ShareError (list ReceiptBatchV2) :=
  match rounds with
  | [] => Ok []
  | shares :: rounds =>
      full ← accept_all builder shares;
      unsigned ← finalize full empty_ed25519;
      let batch := with_signers unsigned (sign unsigned) in
      rest ← session_batches sign (next_builder batch) rounds;
      Ok (batch :: rest)
  end.
End Sessions.

#[global] Instance receipt_le_total : Total receipt_le.
Proof.
  intros x y. unfold receipt_le, hash_pair_geb. cbn.
  rewrite (bytes_cmp_antisym x.(vs_work_key) y.(vs_work_key)).
  destruct (bytes_cmp x.(vs_work_key) y.(vs_work_key)); cbn; [|by left|by right].
  unfold bytes_leb. rewrite (bytes_cmp_antisym x.(vs_share_id) y.(vs_share_id)).
  destruct (bytes_cmp _ _); cbn; auto.
Qed.

(** Accepting shares of the session with new work keys. *)
Lemma accept_all_ok b shares :
  Forall (λ s, s.(vs_share).(sh_session_id) = b.(bd_session_id)) shares →
  NoDup (vs_work_key <$> shares) → Forall (λ s, b.(bd_accepted) !! s.(vs_work_key) = None) shares →
  ∃ m, accept_all b shares = Ok (set_accepted b m) ∧
    (map_to_list m).*2 ≡ₚ (map_to_list b.(bd_accepted)).*2 ++ shares.
Proof.
  revert b. induction shares as [|s shares IH]; intros b Hs Hd Hn; cbn.
  { exists b.(bd_accepted). rewrite app_nil_r. split; [by destruct b|done]. }
  apply Forall_cons in Hs as [Hs Hss]. apply Forall_cons in Hn as [Hn Hns].
  cbn in Hd. apply NoDup_cons in Hd as [Hd Hds]. unfold accept, check_new.
  rewrite (bool_decide_false (_ ≠ _)) by (intros Hz; by apply Hz).
  rewrite (bool_decide_false (is_Some _)) by (rewrite Hn; by intros [? ?]). cbn.
  destruct (IH (set_accepted b (<[s.(vs_work_key) := s]> b.(bd_accepted)))) as (m & Hm & Hp).
  - done.
  - done.
  - apply list.Forall_forall. intros t Ht. cbn. rewrite lookup_insert_ne.
    + rewrite list.Forall_forall in Hns. by apply Hns.
    + intros E. apply Hd. rewrite E. apply list_elem_of_fmap. by exists t.
  - exists m. split; [exact Hm|]. rewrite Hp. cbn. rewrite map_to_list_insert by done. cbn.
    by rewrite Permutation_middle.
Qed.

(** The receipt of a builder that holds [shares]. *)
Lemma accepted_sorted_ok b shares :
  (map_to_list b.(bd_accepted)).*2 ≡ₚ shares → NoDup (vs_work_key <$> shares) →
  accepted_sorted b ≡ₚ shares ∧
  Sorted hash_pair_lt (zip (vs_work_key <$> accepted_sorted b) (vs_share_id <$> accepted_sorted b)).
Proof.
  intros Hp Hd. unfold accepted_sorted.
  pose proof (Sorted_merge_sort receipt_le (map_to_list b.(bd_accepted)).*2) as Hs.
  pose proof (merge_sort_Permutation receipt_le (map_to_list b.(bd_accepted)).*2) as Hm.
  assert (merge_sort receipt_le (map_to_list b.(bd_accepted)).*2 ≡ₚ shares) as Hm' by by etrans.
  split; [done|]. rewrite <- Hm' in Hd. clear Hp Hm Hm'.
  induction Hs as [|x l Hl IH Hx]; [constructor|]. cbn in Hd |- *. apply NoDup_cons in Hd as [Hnx Hd].
  constructor; [by apply IH|]. destruct Hx as [|y l Hxy]; constructor.
  apply hash_pair_geb_false. revert Hxy. unfold receipt_le, hash_pair_geb. cbn.
  rewrite (bytes_cmp_antisym x.(vs_work_key) y.(vs_work_key)).
  destruct (bytes_cmp x.(vs_work_key) y.(vs_work_key)) eqn:E; cbn; [|done|done].
  apply bytes_cmp_eq in E. destruct Hnx. cbn. rewrite E. left.
Qed.

(** A builder whose totals fit finalizes to the batch of its shares. *)
Lemma finalize_ok `{Digests} b signer_set :
  let sorted := accepted_sorted b in
  let total := of_be b.(bd_previous_work) + sumZ (of_be <$> (vs_credited_work <$> sorted)) in
  total < 2 ^ 512 → b.(bd_previous_share_count) + len sorted < 2 ^ 64 →
  finalize b signer_set = Ok (mkReceiptBatchV2 b.(bd_protocol_version) b.(bd_network_id)
    b.(bd_session_id) b.(bd_batch_sequence) b.(bd_previous_batch_id) (vs_share_id <$> sorted)
    (vs_work_key <$> sorted) (vs_credited_work <$> sorted) (merkle_root_of (vs_share_id <$> sorted))
    (b.(bd_previous_share_count) + len sorted) (to_be 64 total) signer_set).
Proof.
  intros sorted total Ht Hc. unfold finalize. fold sorted. rewrite sum_work_spec. fold total.
  assert (0 ≤ total) as Hn.
  { unfold total. pose proof (of_be_range b.(bd_previous_work)).
    pose proof (work_total_nonneg (vs_credited_work <$> sorted)). lia. }
  rewrite (proj2 (big_bits_le total 512 ltac:(lia) Hn)) by done.
  rewrite checked_add_fits, biguint_to_u512_spec by done. reflexivity.
Qed.

Section SessionRun.
Context `{Digests} `{Ed25519} `{!Ed25519Ok}.
Context (roster : CommitteeRoster) (keys : list SigningKey) (version network_id : Z) (session_id : Hash256).
Hypothesis Hkeys : can_sign roster keys.
Local Abbreviation sign := (committee_sign keys roster.(cr_network_id)).
Local Abbreviation credits := (fmap (λ s, of_be s.(vs_credited_work))).

(** Where a session stands after the batches [done], which list [shares]. *)
Record session_at (done : list ReceiptBatchV2) (shares : list ValidatedShare) (b : ReceiptBuilder) :
    Prop := {
  sa_builder : b = builder_new version network_id session_id (len done)
    (from_option object_id zero_hash (last done)) (len (chain_ids done)) (to_be 64 (chain_work done));
  sa_ids : chain_ids done ≡ₚ vs_share_id <$> shares;
  sa_keys : chain_keys done ≡ₚ vs_work_key <$> shares;
  sa_work : chain_work done = sumZ (credits shares);
}.

Definition of_session (first : ReceiptBatchV2) : Prop :=
  first.(rb_protocol_version) = version ∧ first.(rb_network_id) = network_id ∧
  first.(rb_session_id) = session_id.

(** The batch of a round, before it is signed. *)
Definition round_batch (done : list ReceiptBatchV2) (sorted : list ValidatedShare) : ReceiptBatchV2 :=
  mkReceiptBatchV2 version network_id session_id (len done)
    (from_option object_id zero_hash (last done)) (vs_share_id <$> sorted) (vs_work_key <$> sorted)
    (vs_credited_work <$> sorted) (merkle_root_of (vs_share_id <$> sorted))
    (len (chain_ids done) + len sorted) (to_be 64 (chain_work done + sumZ (credits sorted)))
    empty_ed25519.

Lemma credits_nonneg shares : 0 ≤ sumZ (credits shares).
Proof. pose proof (work_total_nonneg (vs_credited_work <$> shares)) as Hz. by rewrite <- list_fmap_compose in Hz. Qed.

(** The builder of a round makes that batch. *)
Lemma round_builds done shares b new :
  session_at done shares b → Forall (λ s, s.(vs_share).(sh_session_id) = session_id) new →
  NoDup (vs_work_key <$> new) → len shares + len new < 2 ^ 64 →
  sumZ (credits shares) + sumZ (credits new) < 2 ^ 512 →
  ∃ full sorted, accept_all b new = Ok full ∧ sorted ≡ₚ new ∧
    finalize full empty_ed25519 = Ok (round_batch done sorted) ∧
    Sorted hash_pair_lt (zip (vs_work_key <$> sorted) (vs_share_id <$> sorted)).
Proof.
  intros [Hb Hids Hkey Hwork] Hnew Hd Hcount Hfit.
  destruct (accept_all_ok b new) as (m & Ha & Hm); [by rewrite Hb|done| |].
  { rewrite Hb. apply Forall_true. intros s. apply lookup_empty. }
  assert ((map_to_list m).*2 ≡ₚ new) as Hm' by (rewrite Hm, Hb; cbn; by rewrite map_to_list_empty).
  destruct (accepted_sorted_ok (set_accepted b m) new Hm' Hd) as [Hp Hs].
  exists (set_accepted b m), (accepted_sorted (set_accepted b m)). do 2 (split; [done|]). split; [|done].
  pose proof (credits_nonneg shares). pose proof (credits_nonneg new).
  assert (len (accepted_sorted (set_accepted b m)) = len new) as Hl by (unfold len; by rewrite Hp).
  assert (len (chain_ids done) = len shares) as Hl0 by (unfold len; by rewrite Hids, length_fmap).
  assert (sumZ (credits (accepted_sorted (set_accepted b m))) = sumZ (credits new)) as Hsum by (by rewrite Hp).
  assert (of_be (to_be 64 (chain_work done)) = chain_work done) as Hw.
  { apply of_to_be. change (256 ^ Z.of_nat 64) with (2 ^ 512). lia. }
  assert (∀ l : list ValidatedShare, sumZ (of_be <$> (vs_credited_work <$> l)) = sumZ (credits l)) as Hc.
  { intros l. by rewrite <- list_fmap_compose. }
  rewrite finalize_ok; rewrite ?Hc, ?Hsum, ?Hl; subst b;
    cbn [set_accepted builder_new bd_previous_work bd_previous_share_count]; rewrite ?Hw; [|lia|lia].
  unfold round_batch. by rewrite Hsum, Hl.
Qed.

Lemma round_continues done shares b new sorted first :
  session_at done shares b → of_session first → sorted ≡ₚ new →
  Sorted hash_pair_lt (zip (vs_work_key <$> sorted) (vs_share_id <$> sorted)) →
  NoDup (vs_share_id <$> shares ++ new) → NoDup (vs_work_key <$> shares ++ new) →
  len done < 2 ^ 64 → sumZ (credits shares) + sumZ (credits new) < 2 ^ 512 →
  let unsigned := round_batch done sorted in
  let batch := with_signers unsigned (sign unsigned) in
  continues roster first done batch ∧ session_at (done ++ [batch]) (shares ++ new) (next_builder batch).
Proof.
  intros [_ Hids Hkey Hwork] (Hv & Hn & Hsid) Hp Hs Hd1 Hd2 Hlen Hfit unsigned batch.
  rewrite fmap_app in Hd1, Hd2. apply NoDup_app in Hd1 as (_ & Hx1 & Hd1).
  apply NoDup_app in Hd2 as (_ & Hx2 & Hd2).
  pose proof (credits_nonneg shares). pose proof (credits_nonneg new).
  assert (sumZ (credits sorted) = sumZ (credits new)) as Hsum by (by rewrite Hp).
  assert (certified roster batch.(rb_signer_set) batch) as Hcert by exact (committee_sign_certified roster keys unsigned Hkeys).
  assert (chain_ids (done ++ [batch]) = chain_ids done ++ (vs_share_id <$> sorted)) as Ei by apply chain_ids_snoc.
  assert (chain_work (done ++ [batch]) = chain_work done + sumZ (credits new)) as Ew.
  { rewrite chain_work_snoc, <- Hsum. f_equal. cbn. by rewrite <- list_fmap_compose. }
  assert (of_be batch.(rb_cumulative_credited_work) = chain_work (done ++ [batch])) as Hcw.
  { rewrite Ew, <- Hsum. apply of_to_be. change (256 ^ Z.of_nat 64) with (2 ^ 512). lia. }
  split.
  - split; try done.
    + apply validate_entries_spec. cbn. rewrite !length_fmap. split_and!; [done..|by apply hash_pairs_NoDup|].
      apply Hcert.
    + split; [cbn; by rewrite Hp|]. cbn. intros id Hin Hold. rewrite Hids in Hold. rewrite Hp in Hin.
      by eapply Hx1.
    + split; [cbn; by rewrite Hp|]. cbn. intros k Hin Hold. rewrite Hkey in Hold. rewrite Hp in Hin.
      by eapply Hx2.
    + rewrite Ei, len_app, len_fmap. done.
  - split.
    + unfold next_builder. rewrite last_snoc, len_app, Ei, len_app, len_fmap, Ew, <- Hsum. done.
    + rewrite Ei, fmap_app, Hids, Hp. done.
    + rewrite chain_keys_snoc, fmap_app, Hkey. cbn. by rewrite Hp.
    + rewrite Ew, Hwork, fmap_app, sumZ_app. done.
Qed.

(** The shares of a session: of the session, no identity and no work twice, and
    within the widths of the totals. *)
Record session_shares (shares : list ValidatedShare) : Prop := {
  ss_session : Forall (λ s, s.(vs_share).(sh_session_id) = session_id) shares;
  ss_ids : NoDup (vs_share_id <$> shares);
  ss_keys : NoDup (vs_work_key <$> shares);
  ss_count : len shares < 2 ^ 64;
  ss_work : sumZ (credits shares) < 2 ^ 512;
}.

Lemma session_shares_prefix shares more : session_shares (shares ++ more) → session_shares shares.
Proof.
  intros [Hs Hi Hk Hc Hw]. rewrite fmap_app in Hi, Hk. rewrite fmap_app, sumZ_app in Hw.
  apply Forall_app in Hs as [? _]. apply NoDup_app in Hi as (? & _ & _). apply NoDup_app in Hk as (? & _ & _).
  rewrite len_app in Hc. pose proof (len_nonneg more). pose proof (credits_nonneg more). split; (done || lia).
Qed.

Lemma session_run done shares b rounds :
  session_at done shares b → session_shares (shares ++ concat rounds) →
  len done + len rounds ≤ 2 ^ 64 →
  ∃ batches, session_batches sign b rounds = Ok batches ∧ length batches = length rounds ∧
    Forall of_session batches ∧
    (∀ pre x post first, batches = pre ++ x :: post → of_session first →
       continues roster first (done ++ pre) x) ∧
    ∃ b', session_at (done ++ batches) (shares ++ concat rounds) b'.
Proof.
  revert done shares b. induction rounds as [|new rounds IH]; intros done shares b Hat Hok Hlen.
  { exists []. cbn. rewrite !app_nil_r. split_and!; [done..| |by exists b]. intros [|] ? ? ? [=]. }
  cbn [concat] in Hok |- *. rewrite app_assoc in Hok |- *. rewrite len_cons in Hlen.
  pose proof (len_nonneg rounds). pose proof (session_shares_prefix _ _ Hok) as Hpre.
  destruct Hpre as [Hs Hi Hk Hc Hw]. apply Forall_app in Hs as [_ Hs].
  assert (NoDup (vs_work_key <$> new)) as Hkn.
  { rewrite fmap_app in Hk. by apply NoDup_app in Hk as (_ & _ & ?). }
  rewrite len_app in Hc. rewrite fmap_app, sumZ_app in Hw.
  destruct (round_builds done shares b new Hat Hs Hkn Hc Hw) as (full & sorted & Ha & Hp & Hf & Hsort).
  set (batch := with_signers (round_batch done sorted) (sign (round_batch done sorted))).
  assert (∀ first, of_session first → continues roster first done batch ∧
    session_at (done ++ [batch]) (shares ++ new) (next_builder batch)) as Hround.
  { intros first Hfirst. eapply round_continues; (done || lia). }
  assert (of_session batch) as Hbatch by done.
  destruct (Hround batch Hbatch) as [_ Hat'].
  destruct (IH _ _ _ Hat' Hok) as (batches & Hrun & Hl & Hall & Hlinks & b' & Hend).
  { rewrite len_app. unfold len at 2. cbn. lia. }
  exists (batch :: batches). cbn [session_batches]. rewrite Ha. cbn [mbind result_bind]. rewrite Hf.
  cbn [mbind result_bind]. cbv zeta. fold batch. rewrite Hrun.
  split; [done|]. split; [cbn; by rewrite Hl|]. split; [by apply Forall_cons|]. split.
  - intros [|y pre] x post first [= <- E] Hfirst; [rewrite app_nil_r; by apply Hround|].
    specialize (Hlinks pre x post first E Hfirst). by rewrite <- app_assoc in Hlinks.
  - exists b'. by rewrite <- app_assoc in Hend.
Qed.

Lemma session_start :
  session_at [] [] (builder_new version network_id session_id 0 zero_hash 0 (replicate 64 x00)).
Proof. by split. Qed.

Lemma session_chain rounds :
  roster.(cr_role) = RoleReceipt → rounds ≠ [] → len rounds ≤ 2 ^ 64 → session_shares (concat rounds) →
  ∃ first rest,
    session_batches sign (builder_new version network_id session_id 0 zero_hash 0 (replicate 64 x00)) rounds
      = Ok (first :: rest) ∧
    receipt_chain roster (first :: rest) ∧ of_session first ∧
    chain_ids (first :: rest) ≡ₚ vs_share_id <$> concat rounds ∧
    chain_keys (first :: rest) ≡ₚ vs_work_key <$> concat rounds ∧
    chain_work (first :: rest) = sumZ (credits (concat rounds)) ∧
    length (first :: rest) = length rounds.
Proof.
  intros Hrole Hne Hlen Hok.
  destruct (session_run [] [] _ rounds session_start Hok Hlen) as (batches & Hrun & Hl & Hall & Hlinks & b' & Hend).
  destruct batches as [|first rest]; [by destruct rounds|]. exists first, rest.
  apply Forall_cons in Hall as [Hfirst _]. destruct Hend as [_ Hi Hk Hw]. cbn [app] in Hi, Hk, Hw.
  split_and!; try done. split; [done|apply Hkeys|rewrite Hw; apply Hok|].
  intros pre b post E. cbn [List.hd]. by apply (Hlinks pre b post first E).
Qed.
End SessionRun.

(** The close of a verified chain. *)
Section Close.
Context `{Digests} `{Ed25519}.

Definition chain_close (first : ReceiptBatchV2) (rest : list ReceiptBatchV2) (reason : Z)
    (opening_root : Hash256) (blocks : list Hash256) : SessionCloseV2 :=
  let batches := first :: rest in
  let final := List.last batches first in
  mkSessionCloseV2 final.(rb_protocol_version) final.(rb_network_id) first.(rb_session_id)
    (object_id final) (merkle_root_of (chain_ids batches)) (merkle_root_of (chain_keys batches))
    (len (chain_ids batches)) (to_be 64 (chain_work batches)) reason opening_root
    (dedup (merge_sort bytes_le blocks)) empty_ed25519.

Lemma close_builds roster first rest reason opening_root blocks :
  receipt_chain roster (first :: rest) →
  build_session_close first.(rb_session_id) (first :: rest) roster reason opening_root blocks
    empty_ed25519 = Ok (chain_close first rest reason opening_root blocks).
Proof.
  intros Hc. unfold build_session_close.
  rewrite (proj2 (verify_receipt_chain_ok (first :: rest) roster (summary_of first (first :: rest)))) by eauto.
  cbn [mbind result_bind]. rewrite bool_decide_false by (intros Hz; by apply Hz).
  assert (last (first :: rest) = Some (List.last (first :: rest) first)) as ->; [|reflexivity].
  destruct (exists_last (l := first :: rest)) as (l & x & E); [done|].
  rewrite E, last_snoc, last_last. done.
Qed.

Lemma close_verifies `{!Ed25519Ok} roster settlement keys first rest reason opening_root blocks :
  receipt_chain roster (first :: rest) → can_sign settlement keys →
  settlement.(cr_role) = RoleSettlement →
  let close := chain_close first rest reason opening_root blocks in
  verify_session_close (close_with_signers close (committee_sign keys settlement.(cr_network_id) close))
    (first :: rest) roster settlement = Ok tt.
Proof.
  intros Hc Hk Hrole close. unfold verify_session_close.
  rewrite (proj2 (verify_receipt_chain_ok (first :: rest) roster (summary_of first (first :: rest)))) by eauto.
  cbn [mbind result_bind]. rewrite !bool_decide_false by (intros Hz; by apply Hz).
  cbn [close_with_signers close chain_close sc_accepted_share_count summary_of rcs_accepted_share_ids].
  rewrite Z.eqb_refl. cbn [negb orb]. apply roster_verify_ok. split; [apply Hk|].
  exact (committee_sign_certified settlement keys close Hk).
Qed.
End Close.

(** C20: an honest session always closes. Let a receipt committee with enough
    signing members process any rounds of validated shares of a session, no share
    and no work twice, within the widths of the totals. Then every round yields a
    batch, the batches verify as a receipt chain, a session close can be built from
    them, and once a quorum of the settlement committee signs it, it verifies. The
    close counts every accepted share, carries exactly the sum of their credits,
    and its roots commit to exactly their identities and work keys; discovered
    blocks are listed once each, in order. *)
Theorem honest_session_closes `{Digests} `{Ed25519} `{!Ed25519Ok} roster settlement keys settlement_keys
    version network_id session_id rounds reason opening_root blocks :
  can_sign roster keys → roster.(cr_role) = RoleReceipt →
  can_sign settlement settlement_keys → settlement.(cr_role) = RoleSettlement →
  rounds ≠ [] → len rounds ≤ 2 ^ 64 → session_shares session_id (concat rounds) →
  ∃ batches close,
    session_batches (committee_sign keys roster.(cr_network_id))
      (builder_new version network_id session_id 0 zero_hash 0 (replicate 64 x00)) rounds = Ok batches ∧
    build_session_close session_id batches roster reason opening_root blocks empty_ed25519 = Ok close ∧
    verify_session_close
      (close_with_signers close (committee_sign settlement_keys settlement.(cr_network_id) close))
      batches roster settlement = Ok tt ∧
    length batches = length rounds ∧
    close.(sc_accepted_share_count) = len (concat rounds) ∧
    of_be close.(sc_total_credited_work) = sumZ ((λ s, of_be s.(vs_credited_work)) <$> concat rounds) ∧
    (∃ ids work_keys, ids ≡ₚ vs_share_id <$> concat rounds ∧ work_keys ≡ₚ vs_work_key <$> concat rounds ∧
      merkle_root ids = Some close.(sc_accepted_share_merkle_root) ∧
      merkle_root work_keys = Some close.(sc_accepted_work_key_root)) ∧
    Sorted bytes_lt close.(sc_discovered_hns_block_ids) ∧
    (∀ block, block ∈ close.(sc_discovered_hns_block_ids) ↔ block ∈ blocks).
Proof.
  intros Hk Hrole Hsk Hsrole Hne Hlen Hok.
  destruct (session_chain roster keys version network_id session_id Hk rounds Hrole Hne Hlen Hok)
    as (first & rest & Hrun & Hchain & (_ & _ & Hsid) & Hi & Hkey & Hw & Hl).
  pose proof (close_builds roster first rest reason opening_root blocks Hchain) as Hbuild.
  rewrite Hsid in Hbuild. eexists (first :: rest), _. split; [exact Hrun|]. split; [exact Hbuild|].
  split; [by apply close_verifies|]. split; [done|].
  cbn [chain_close sc_accepted_share_count sc_total_credited_work sc_accepted_share_merkle_root
    sc_accepted_work_key_root sc_discovered_hns_block_ids].
  split; [unfold len; by rewrite Hi, length_fmap|]. split.
  { rewrite of_to_be, Hw; [done|]. split; [apply work_total_nonneg|apply Hchain]. }
  split; [exists (chain_ids (first :: rest)), (chain_keys (first :: rest)); split_and!;
    (done || apply merkle_root_of_spec)|].
  destruct (dedup_sorted (merge_sort bytes_le blocks)) as (? & Hin & _); [apply Sorted_merge_sort; apply _|].
  split; [done|]. intros block. rewrite Hin. by rewrite (merge_sort_Permutation bytes_le blocks).
Qed.

(** ** Witness: a committee of three, two of which sign *)

Module SessionDemo.
#[local] Existing Instances mix_digests mix_digests_ok toy_ed25519 toy_ed25519_ok.

Definition signer (b : byte) : SigningKey := [b].
Definition session : Hash256 := replicate 32 x01.
Definition roster (role : CommitteeRole) : CommitteeRoster :=
  mkCommitteeRoster 2 2 role 1 2 (list_to_set (verifying_key <$> [signer x01; signer x02; signer x03])).
Definition share (id : byte) (work : Z) : ValidatedShare :=
  let h b := replicate 32 b in
  mkValidatedShare (mkShareV2 2 2 session (h x02) (h x03) (h x04) (h x05) 0 0 [] (h x06) (h x07) [] None [])
    (h id) (h (z2b (255 - b2z id))) (to_be 64 work).
Definition rounds : list (list ValidatedShare) := [[share x11 5; share x12 7]; []; [share x13 9]].
Definition start : ReceiptBuilder := builder_new 2 2 session 0 zero_hash 0 (replicate 64 x00).
(** The batch of one share, signed by the members with the given keys. *)
Definition chain (keys : list SigningKey) (shares : list ValidatedShare) : list ReceiptBatchV2 :=
  match session_batches (committee_sign keys 2) start [shares] with Ok l => l | Err _ => [] end.
End SessionDemo.

Section SessionWitness.
#[local] Existing Instances mix_digests mix_digests_ok toy_ed25519 toy_ed25519_ok.

Lemma demo_can_sign role (keys : list SigningKey) :
  (2 ≤ length keys)%nat → NoDup (verifying_key <$> keys) →
  Forall (λ key, key ∈ [SessionDemo.signer x01; SessionDemo.signer x02; SessionDemo.signer x03]) keys → can_sign (SessionDemo.roster role) keys.
Proof.
  intros Hl Hd Hm. split; [by vm_compute|done| |change (2 ≤ Z.of_nat (length keys)); lia].
  eapply Forall_impl; [exact Hm|]. intros key Hkey. cbn [SessionDemo.roster cr_members].
  apply elem_of_list_to_set, list_elem_of_fmap. by exists key.
Qed.

Lemma demo_session_shares : session_shares SessionDemo.session (concat SessionDemo.rounds).
Proof.
  split.
  - repeat (apply Forall_cons; split; [reflexivity|]). apply Forall_nil_2.
  - apply (bool_decide_unpack _). by vm_compute.
  - apply (bool_decide_unpack _). by vm_compute.
  - by vm_compute.
  - by vm_compute.
Qed.

Lemma honest_session_closes_witness :
  ∃ batches close,
    session_batches (committee_sign [SessionDemo.signer x02; SessionDemo.signer x01] 2) SessionDemo.start SessionDemo.rounds = Ok batches ∧
    verify_session_close close batches (SessionDemo.roster RoleReceipt) (SessionDemo.roster RoleSettlement)
      = Ok tt ∧
    close.(sc_accepted_share_count) = 3 ∧ of_be close.(sc_total_credited_work) = 21.
Proof.
  destruct (honest_session_closes (SessionDemo.roster RoleReceipt) (SessionDemo.roster RoleSettlement)
    [SessionDemo.signer x02; SessionDemo.signer x01] [SessionDemo.signer x03; SessionDemo.signer x01] 2 2 SessionDemo.session SessionDemo.rounds 1 zero_hash [])
    as (batches & close & Hrun & _ & Hv & _ & Hc & Hw & _).
  - apply demo_can_sign; [cbn; lia|apply (bool_decide_unpack _); by vm_compute|].
    repeat (apply Forall_cons; split; [set_solver|]). apply Forall_nil_2.
  - reflexivity.
  - apply demo_can_sign; [cbn; lia|apply (bool_decide_unpack _); by vm_compute|].
    repeat (apply Forall_cons; split; [set_solver|]). apply Forall_nil_2.
  - reflexivity.
  - discriminate.
  - by vm_compute.
  - exact demo_session_shares.
  - exists batches, (close_with_signers close (committee_sign [SessionDemo.signer x03; SessionDemo.signer x01] 2 close)).
    split; [exact Hrun|]. split; [exact Hv|]. split; [exact Hc|]. etrans; [exact Hw|]. by vm_compute.
Defined.

Lemma receipt_chain_exact_witness :
  ∃ summary, verify_receipt_chain (SessionDemo.chain [SessionDemo.signer x01; SessionDemo.signer x03] [SessionDemo.share x11 5])
      (SessionDemo.roster RoleReceipt) = Ok summary ∧
    NoDup summary.(rcs_accepted_work_keys) ∧ of_be summary.(rcs_total_credited_work) = 5.
Proof.
  destruct (verify_receipt_chain (SessionDemo.chain [SessionDemo.signer x01; SessionDemo.signer x03] [SessionDemo.share x11 5])
      (SessionDemo.roster RoleReceipt)) as [summary|e] eqn:E.
  - exists summary. split; [reflexivity|].
    destruct (receipt_chain_exact (SessionDemo.chain [SessionDemo.signer x01; SessionDemo.signer x03] [SessionDemo.share x11 5])
      (SessionDemo.roster RoleReceipt) summary) as [_ Hc].
    destruct (Hc E) as (_ & Hk & _ & _ & Hw). split; [exact Hk|]. etrans; [exact Hw|]. by vm_compute.
  - assert (is_ok (verify_receipt_chain (SessionDemo.chain [SessionDemo.signer x01; SessionDemo.signer x03] [SessionDemo.share x11 5])
      (SessionDemo.roster RoleReceipt)) = true) as Ho by (vm_compute; reflexivity).
    rewrite E in Ho. discriminate Ho.
Defined.

Lemma receipt_fork_attributable_witness :
  ∃ x y proof, x ∈ SessionDemo.chain [SessionDemo.signer x01; SessionDemo.signer x02] [SessionDemo.share x11 5] ∧
    y ∈ SessionDemo.chain [SessionDemo.signer x02; SessionDemo.signer x03] [SessionDemo.share x12 7] ∧
    detect_receipt_equivocation x y = Ok proof ∧ 1 ≤ len proof.(rep_equivocating_signers).
Proof.
  set (c1 := SessionDemo.chain [SessionDemo.signer x01; SessionDemo.signer x02] [SessionDemo.share x11 5]).
  set (c2 := SessionDemo.chain [SessionDemo.signer x02; SessionDemo.signer x03] [SessionDemo.share x12 7]).
  assert (∀ keys shares, is_ok (verify_receipt_chain (SessionDemo.chain keys shares)
      (SessionDemo.roster RoleReceipt)) = true →
    ∃ summary, verify_receipt_chain (SessionDemo.chain keys shares) (SessionDemo.roster RoleReceipt) = Ok summary)
    as Hok.
  { intros keys shares Ho. destruct (verify_receipt_chain _ _) as [summary|]; [by exists summary|discriminate Ho]. }
  destruct (Hok [SessionDemo.signer x01; SessionDemo.signer x02] [SessionDemo.share x11 5]) as [s1 E1]; [vm_compute; reflexivity|].
  destruct (Hok [SessionDemo.signer x02; SessionDemo.signer x03] [SessionDemo.share x12 7]) as [s2 E2]; [vm_compute; reflexivity|].
  destruct (receipt_fork_attributable (SessionDemo.roster RoleReceipt) c1 c2 s1 s2 E1 E2)
    as [Hp|[Hp|(pre1 & x & post1 & pre2 & y & post2 & Ex & Ey & _ & _ & _ & _ & Hd)]].
  - apply verify_receipt_chain_ok in E1 as (f1 & r1 & F1 & _ & ->).
    apply verify_receipt_chain_ok in E2 as (f2 & r2 & F2 & _ & ->).
    assert (rb_session_id <$> SessionDemo.chain [SessionDemo.signer x01; SessionDemo.signer x02] [SessionDemo.share x11 5] = [SessionDemo.session])
      as G1 by (vm_compute; reflexivity).
    assert (rb_session_id <$> SessionDemo.chain [SessionDemo.signer x02; SessionDemo.signer x03] [SessionDemo.share x12 7] = [SessionDemo.session])
      as G2 by (vm_compute; reflexivity).
    rewrite F1 in G1. rewrite F2 in G2. injection G1 as G1 _. injection G2 as G2 _.
    cbn [summary_of rcs_session_id]. by rewrite G1, G2.
  - exfalso. apply (bool_decide_eq_true _) in Hp. revert Hp. vm_compute. discriminate.
  - exfalso. apply (bool_decide_eq_true _) in Hp. revert Hp. vm_compute. discriminate.
  - destruct Hd as (culprits & Hdet & _ & Hlen & _); [by vm_compute|].
    eexists x, y, _. split; [change (x ∈ c1); clearbody c1; rewrite Ex; apply elem_of_app; right; left|].
    split; [change (y ∈ c2); clearbody c2; rewrite Ey; apply elem_of_app; right; left|].
    split; [exact Hdet|]. exact Hlen.
Defined.
End SessionWitness.
