(* ===== verification/Risk.v ===== *)
(** * Committee risk (crates/meshmine-committee-risk/src/lib.rs)

    Exact probabilities that an adversary captures or blocks a committee, and the
    release gate computed from them. [BigUint] is [Z]; an [f64] bound is its
    64-bit pattern. The floating-point figures of a report, which no decision
    reads, and the Monte Carlo cross-check are left out. *)

From Stdlib Require Export QArith Qpower Qminmax.
From S2P Require Import Prelude Codec Hash Target.
#[global] Open Scope Z_scope.

Definition SECONDS_PER_YEAR : Z := 365 * 24 * 60 * 60.
Definition MAX_COMMITTEE_SIZE : Z := 256.
Definition MAX_CORRELATION_GROUPS : Z := 8.

Record ExactProbability := mkExactProbability {
  numerator : Z;
  denominator : Z;
}.
#[export] Instance ExactProbability_eq_dec : EqDecision ExactProbability.
Proof. solve_decision. Defined.

Record EligiblePopulation := mkEligiblePopulation {
  total_members : Z;
  adversarial_members : Z;
}.

Record RoleParameters := mkRoleParameters {
  rp_name : bytes;
  rp_committee_size : Z;
  rp_certificate_threshold : Z;
  rp_opening_threshold : Z;
  rp_eligible_population : option EligiblePopulation;
}.

Record CorrelationGroup := mkCorrelationGroup {
  member_fraction : ExactProbability;
  outage_probability : ExactProbability;
  compromise_probability : ExactProbability;
}.

Record RoleOverlap := mkRoleOverlap {
  first_role : Z;
  second_role : Z;
  shared_members : Z;
}.

Inductive ParallelLaneModel := IndependentCommittees | SharedCommittee.

(** An [f64] as [to_bits] shows it. *)
Abbreviation f64 := Z.

Record RiskProfile := mkRiskProfile {
  adversarial_work_fraction : ExactProbability;
  eligible_adversarial_fraction : ExactProbability;
  member_online_probability : ExactProbability;
  correlation_groups : list CorrelationGroup;
  rotation_interval_seconds : Z;
  lookback_window_blocks : Z;
  minimum_lookback_blocks : Z;
  parallel_lanes : Z;
  lane_model : ParallelLaneModel;
  annual_security_target : f64;
  annual_liveness_target : f64;
  roles : list RoleParameters;
  overlaps : list RoleOverlap;
}.

(** The exact part of a role's report: the [f64] field [annual_any] of both
    [ProbabilityRisk]s is left out. *)
Record RoleRiskReport := mkRoleRiskReport {
  rr_name : bytes;
  rr_committee_size : Z;
  rr_certificate_threshold : Z;
  rr_opening_threshold : Z;
  rr_binomial_certificate_capture : ExactProbability;
  rr_binomial_opening_capture : ExactProbability;
  rr_hypergeometric_certificate_capture : option ExactProbability;
  rr_hypergeometric_opening_capture : option ExactProbability;
  rr_correlated_certificate_capture : ExactProbability;
  rr_correlated_opening_capture : ExactProbability;
  rr_adversarial_certificate_block : ExactProbability;
  rr_adversarial_opening_block : ExactProbability;
  rr_too_few_honest_online_for_certificate : ExactProbability;
  rr_too_few_honest_online_for_opening : ExactProbability;
  rr_combined_certificate_block : ExactProbability;
  rr_combined_opening_block : ExactProbability;
  rr_capture_per_selection : ExactProbability;
  rr_blocking_per_selection : ExactProbability;
}.

Record OverlapRiskReport := mkOverlapRiskReport {
  or_first_role : bytes;
  or_second_role : bytes;
  or_shared_members : Z;
  or_joint_certificate_capture : ExactProbability;
  or_independent_certificate_product : ExactProbability;
}.

(** Without the three [f64] fields. *)
Record DeploymentRiskReport := mkDeploymentRiskReport {
  dr_profile_commitment : Hash256;
  dr_committee_selections_per_year : Z;
  dr_role_reports : list RoleRiskReport;
  dr_overlap_reports : list OverlapRiskReport;
  dr_per_selection_capture_union_bound : ExactProbability;
  dr_per_selection_blocking_union_bound : ExactProbability;
  dr_annual_capture_union_bound_exact : ExactProbability;
  dr_annual_blocking_union_bound_exact : ExactProbability;
  dr_security_target_met : bool;
  dr_liveness_target_met : bool;
}.

Inductive RiskError :=
| ZeroDenominator | ProbabilityOutOfRange | EmptyRoles | InvalidCommittee | InvalidRotation
| LookbackTooShort | InvalidCorrelationGroups | InvalidRoleOverlap | InvalidAnnualTarget
| SecurityBoundExceeded | LivenessBoundExceeded.

(** The unique role of that name. *)
Definition report_role (r : DeploymentRiskReport) (name : bytes) : option RoleRiskReport :=
  match filter (λ role, role.(rr_name) = name) r.(dr_role_reports) with
  | [role] => Some role
  | _ => None
  end.

(** ** Exact probabilities *)

Definition prob_zero : ExactProbability := mkExactProbability 0 1.
Definition prob_one : ExactProbability := mkExactProbability 1 1.

Definition reduced (num den : Z) : ExactProbability :=
  if num =? 0 then prob_zero
  else let divisor := Z.gcd num den in mkExactProbability (num / divisor) (den / divisor).

Definition prob_new (num den : Z) : result RiskError ExactProbability :=
  if den =? 0 then Err ZeroDenominator
  else if den <? num then Err ProbabilityOutOfRange
  else Ok (reduced num den).

(** [self <= other] by [Ord::cmp] *)
Definition prob_leb (p q : ExactProbability) : bool :=
  p.(numerator) * q.(denominator) <=? q.(numerator) * p.(denominator).

Definition complement (p : ExactProbability) : ExactProbability :=
  reduced (p.(denominator) - p.(numerator)) p.(denominator).
Definition capped_at_one (p : ExactProbability) : ExactProbability :=
  if prob_leb p prob_one then p else prob_one.
Definition prob_add (p q : ExactProbability) : ExactProbability :=
  capped_at_one
    (reduced (p.(numerator) * q.(denominator) + q.(numerator) * p.(denominator))
       (p.(denominator) * q.(denominator))).
(** [None]: the assertion fails. *)
Definition prob_subtract (p q : ExactProbability) : option ExactProbability :=
  if prob_leb q p then
    Some (reduced (p.(numerator) * q.(denominator) - q.(numerator) * p.(denominator))
            (p.(denominator) * q.(denominator)))
  else None.
Definition multiply (p q : ExactProbability) : ExactProbability :=
  reduced (p.(numerator) * q.(numerator)) (p.(denominator) * q.(denominator)).
Definition prob_pow (p : ExactProbability) (exponent : Z) : ExactProbability :=
  reduced (p.(numerator) ^ exponent) (p.(denominator) ^ exponent).
Definition maximum (p q : ExactProbability) : ExactProbability := if prob_leb q p then p else q.

(** ** Tails *)

Definition choose (n k : Z) : Z :=
  if n <? k then 0
  else
    let k := Z.min k (n - k) in
    foldl (λ value index, value * (n - index) / (index + 1)) 1 (seqZ 0 k).

Definition binomial_mass (trials successes : Z) (p : ExactProbability) : ExactProbability :=
  if trials <? successes then prob_zero
  else
    reduced (choose trials successes * p.(numerator) ^ successes
             * (p.(denominator) - p.(numerator)) ^ (trials - successes))
      (p.(denominator) ^ trials).

Definition binomial_tail (trials at_least : Z) (p : ExactProbability) : ExactProbability :=
  if at_least =? 0 then prob_one
  else if trials <? at_least then prob_zero
  else
    foldl (λ result successes, prob_add result (binomial_mass trials successes p)) prob_zero
      (seqZ at_least (trials - at_least + 1)).

Definition validate_population (population : EligiblePopulation) (draws : Z) : result RiskError unit :=
  if (population.(total_members) =? 0)
     || (population.(total_members) <? population.(adversarial_members))
     || (population.(total_members) <? draws)
  then Err InvalidCommittee else Ok tt.

Definition hypergeometric_tail (population : EligiblePopulation) (draws at_least : Z) :
    result RiskError ExactProbability :=
  _ ← validate_population population draws;
  if at_least =? 0 then Ok prob_one
  else
    let den := choose population.(total_members) draws in
    let maximum := Z.min draws population.(adversarial_members) in
    let honest := population.(total_members) - population.(adversarial_members) in
    let num :=
      foldl (λ num adversarial,
               let honest_draws := draws - adversarial in
               if honest_draws <=? honest
               then num + choose population.(adversarial_members) adversarial
                          * choose honest honest_draws
               else num)
        0 (seqZ at_least (maximum - at_least + 1)) in
    prob_new num den.

Definition categorical_block_probability
    (committee_size adversarial_block_threshold honest_online_threshold : Z)
    (adversarial honest_online : ExactProbability) : ExactProbability :=
  let other := complement (prob_add adversarial honest_online) in
  foldl (λ result adversarial_count,
    foldl (λ result honest_online_count,
        if (adversarial_count <? adversarial_block_threshold)
           && (honest_online_threshold <=? honest_online_count)
        then result
        else
          let other_count := committee_size - adversarial_count - honest_online_count in
          let combinations := choose committee_size adversarial_count
                              * choose (committee_size - adversarial_count) honest_online_count in
          prob_add result
            (reduced (combinations * adversarial.(numerator) ^ adversarial_count
                      * honest_online.(numerator) ^ honest_online_count
                      * other.(numerator) ^ other_count)
               (adversarial.(denominator) ^ adversarial_count
                * honest_online.(denominator) ^ honest_online_count
                * other.(denominator) ^ other_count)))
      result (seqZ 0 (committee_size - adversarial_count + 1)))
    prob_zero (seqZ 0 (committee_size + 1)).

Definition joint_binomial_tail (first_size first_threshold second_size second_threshold shared : Z)
    (p : ExactProbability) : ExactProbability :=
  foldl (λ result shared_adversarial,
    let shared_mass := binomial_mass shared shared_adversarial p in
    let first_needed := saturating_sub first_threshold shared_adversarial in
    let second_needed := saturating_sub second_threshold shared_adversarial in
    let first_tail := binomial_tail (first_size - shared) first_needed p in
    let second_tail := binomial_tail (second_size - shared) second_needed p in
    prob_add result (multiply (multiply shared_mass first_tail) second_tail))
    prob_zero (seqZ 0 (shared + 1)).

(** ** Correlated failure domains *)

Inductive GroupState := GroupNormal | GroupOutage | GroupCompromised.
Inductive TailKind := TailAdversarial | HonestOnlineFailure.

(** The calls of the visitor, in order: weight, compromised and outage
    fractions. *)
Fixpoint visit_recurse (groups : list CorrelationGroup) (weight compromised outage : ExactProbability) :
    list (ExactProbability * ExactProbability * ExactProbability) :=
  match groups with
  | [] => [(weight, compromised, outage)]
  | group :: groups =>
      let normal_probability :=
        complement (prob_add group.(outage_probability) group.(compromise_probability)) in
      flat_map (λ '(state, state_probability),
          if bool_decide (state_probability = prob_zero) then []
          else
            let next_compromised :=
              match state with
              | GroupCompromised => prob_add compromised group.(member_fraction)
              | _ => compromised
              end in
            let next_outage :=
              match state with
              | GroupOutage => prob_add outage group.(member_fraction)
              | _ => outage
              end in
            visit_recurse groups (multiply weight state_probability) next_compromised next_outage)
        [(GroupNormal, normal_probability); (GroupOutage, group.(outage_probability));
         (GroupCompromised, group.(compromise_probability))]
  end.
Definition visit_group_states (profile : RiskProfile) :
    list (ExactProbability * ExactProbability * ExactProbability) :=
  visit_recurse profile.(correlation_groups) prob_one prob_zero prob_zero.

Definition correlated_tail (profile : RiskProfile) (committee_size threshold : Z) (kind : TailKind) :
    ExactProbability :=
  foldl (λ result '(weight, compromised, outage),
    let p :=
      match kind with
      | TailAdversarial =>
          let base_honest := complement profile.(eligible_adversarial_fraction) in
          let effective := prob_add profile.(eligible_adversarial_fraction)
                             (multiply base_honest compromised) in
          binomial_tail committee_size threshold effective
      | HonestOnlineFailure =>
          let unavailable_domain := prob_add compromised outage in
          let honest_online :=
            multiply (multiply (complement profile.(eligible_adversarial_fraction))
                        profile.(member_online_probability))
              (complement unavailable_domain) in
          complement (binomial_tail committee_size threshold honest_online)
      end in
    prob_add result (multiply weight p)) prob_zero (visit_group_states profile).

Definition correlated_joint_tail (profile : RiskProfile) (first second : RoleParameters)
    (shared first_threshold second_threshold : Z) : ExactProbability :=
  foldl (λ result '(weight, compromised, _),
    let base_honest := complement profile.(eligible_adversarial_fraction) in
    let effective := prob_add profile.(eligible_adversarial_fraction)
                       (multiply base_honest compromised) in
    let joint := joint_binomial_tail first.(rp_committee_size) first_threshold
                   second.(rp_committee_size) second_threshold shared effective in
    prob_add result (multiply weight joint)) prob_zero (visit_group_states profile).

Definition correlated_combined_block (profile : RiskProfile)
    (committee_size adversarial_block_threshold honest_online_threshold : Z) : ExactProbability :=
  foldl (λ result '(weight, compromised, outage),
    let base_honest := complement profile.(eligible_adversarial_fraction) in
    let adversarial := prob_add profile.(eligible_adversarial_fraction)
                         (multiply base_honest compromised) in
    let unavailable_domain := prob_add compromised outage in
    let honest_online := multiply (multiply base_honest profile.(member_online_probability))
                           (complement unavailable_domain) in
    let block := categorical_block_probability committee_size adversarial_block_threshold
                   honest_online_threshold adversarial honest_online in
    prob_add result (multiply weight block)) prob_zero (visit_group_states profile).

(** ** Floating-point bounds *)

Definition f64_exponent_bits (bits : f64) : Z := Z.land (Z.shiftr bits 52) 0x7ff.
Definition f64_fraction (bits : f64) : Z := Z.land bits (2 ^ 52 - 1).
Definition f64_is_finite (bits : f64) : bool := negb (f64_exponent_bits bits =? 0x7ff).
(** The rational a finite double stands for (IEEE 754, binary64). *)
Definition f64_value (bits : f64) : Q :=
  let magnitude :=
    (if f64_exponent_bits bits =? 0
     then inject_Z (f64_fraction bits) * Qpower 2 (-1074)
     else inject_Z (2 ^ 52 + f64_fraction bits) * Qpower 2 (f64_exponent_bits bits - 1075))%Q in
  if Z.testbit bits 63 then Qopp magnitude else magnitude.
(** [value == q] for a constant [q] *)
Definition f64_eqb (bits : f64) (q : Q) : bool :=
  f64_is_finite bits && Qeq_bool (f64_value bits) q.

Definition valid_bound (value : f64) : bool :=
  f64_is_finite value && (Qle_bool 0 (f64_value value) && Qle_bool (f64_value value) 1).

Definition exact_f64_probability (value : f64) : ExactProbability :=
  if f64_eqb value 0 then prob_zero
  else if f64_eqb value 1 then prob_one
  else
    let exponent_bits := Z.land (Z.shiftr value 52) 0x7ff in
    let fraction := Z.land value (Z.shiftl 1 52 - 1) in
    let '(significand, exponent) :=
      if exponent_bits =? 0 then (fraction, -1074)
      else (Z.lor fraction (Z.shiftl 1 52), exponent_bits - 1023 - 52) in
    if 0 <=? exponent then reduced (Z.shiftl significand exponent) 1
    else reduced significand (Z.shiftl 1 (- exponent)).

Definition annual_union_bound (p : ExactProbability) (events : Z) : ExactProbability :=
  if (p.(numerator) =? 0) || (events =? 0) then prob_zero
  else
    let num := p.(numerator) * events in
    if p.(denominator) <=? num then prob_one else reduced num p.(denominator).

Definition meets_target (p : ExactProbability) (events : Z) (target : f64) : bool :=
  prob_leb (annual_union_bound p events) (exact_f64_probability target).

Definition selections_per_year (profile : RiskProfile) : Z :=
  let rotations := div_ceil SECONDS_PER_YEAR profile.(rotation_interval_seconds) in
  match profile.(lane_model) with
  | IndependentCommittees => saturating_mul 64 rotations profile.(parallel_lanes)
  | SharedCommittee => rotations
  end.

(** ** Validation *)

Definition validate_probability (p : ExactProbability) : result RiskError unit :=
  if p.(denominator) =? 0 then Err ZeroDenominator
  else if p.(denominator) <? p.(numerator) then Err ProbabilityOutOfRange
  else Ok tt.

Definition probability_sum_exceeds_one (first second : ExactProbability) : bool :=
  first.(denominator) * second.(denominator)
    <? first.(numerator) * second.(denominator) + second.(numerator) * first.(denominator).

(** One iteration over the roles; the state is the roles before this one. *)
Definition validate_role (prior : list RoleParameters) (role : RoleParameters) :
    result RiskError (list RoleParameters) :=
  if bool_decide (role.(rp_name) = [])
     || existsb (λ p, bool_decide (p.(rp_name) = role.(rp_name))) prior
     || (role.(rp_committee_size) =? 0) || (MAX_COMMITTEE_SIZE <? role.(rp_committee_size))
     || (role.(rp_certificate_threshold) =? 0)
     || (role.(rp_committee_size) <? role.(rp_certificate_threshold))
     || (role.(rp_opening_threshold) =? 0)
     || (role.(rp_committee_size) <? role.(rp_opening_threshold))
  then Err InvalidCommittee
  else
    _ ← match role.(rp_eligible_population) with
        | Some population => validate_population population role.(rp_committee_size)
        | None => Ok tt
        end;
    Ok (prior ++ [role]).

(** One iteration over the groups; the state is [group_fraction]. *)
Definition validate_group (group_fraction : ExactProbability) (group : CorrelationGroup) :
    result RiskError ExactProbability :=
  _ ← validate_probability group.(member_fraction);
  _ ← validate_probability group.(outage_probability);
  _ ← validate_probability group.(compromise_probability);
  if probability_sum_exceeds_one group.(outage_probability) group.(compromise_probability)
  then Err InvalidCorrelationGroups
  else if probability_sum_exceeds_one group_fraction group.(member_fraction)
  then Err InvalidCorrelationGroups
  else Ok (prob_add group_fraction group.(member_fraction)).

Definition validate_overlap (roles : list RoleParameters) (overlap : RoleOverlap) :
    result RiskError unit :=
  if (len roles <=? overlap.(first_role)) || (len roles <=? overlap.(second_role))
     || (overlap.(first_role) =? overlap.(second_role))
  then Err InvalidRoleOverlap
  else match roles !! Z.to_nat overlap.(first_role), roles !! Z.to_nat overlap.(second_role) with
       | Some first, Some second =>
           if Z.min first.(rp_committee_size) second.(rp_committee_size) <? overlap.(shared_members)
           then Err InvalidRoleOverlap else Ok tt
       | _, _ => Err InvalidRoleOverlap
       end.

Definition validate_profile (profile : RiskProfile) : result RiskError unit :=
  _ ← validate_probability profile.(adversarial_work_fraction);
  _ ← validate_probability profile.(eligible_adversarial_fraction);
  _ ← validate_probability profile.(member_online_probability);
  if bool_decide (profile.(roles) = []) then Err EmptyRoles
  else if (profile.(rotation_interval_seconds) =? 0) || (profile.(parallel_lanes) =? 0)
  then Err InvalidRotation
  else if profile.(lookback_window_blocks) <? profile.(minimum_lookback_blocks)
  then Err LookbackTooShort
  else if negb (valid_bound profile.(annual_security_target))
          || negb (valid_bound profile.(annual_liveness_target))
  then Err InvalidAnnualTarget
  else
    _ ← fold_result validate_role [] profile.(roles);
    if MAX_CORRELATION_GROUPS <? len profile.(correlation_groups) then Err InvalidCorrelationGroups
    else
      group_fraction ← fold_result validate_group prob_zero profile.(correlation_groups);
      if negb (prob_leb group_fraction prob_one) then Err InvalidCorrelationGroups
      else
        _ ← collect (validate_overlap profile.(roles)) profile.(overlaps);
        Ok tt.

(** ** The commitment to a profile *)

Definition encode_len (length : Z) : bytes := to_le 8 (Z.min length U64_MAX).
Definition encode_probability_commitment (p : ExactProbability) : bytes :=
  encode_len (len (to_bytes_be p.(numerator))) ++ to_bytes_be p.(numerator) ++
  encode_len (len (to_bytes_be p.(denominator))) ++ to_bytes_be p.(denominator).
Definition canonical_bound_bits (value : f64) : Z := if f64_eqb value 0 then 0 else value.

Definition group_commitment (group : CorrelationGroup) : bytes :=
  encode_probability_commitment group.(member_fraction) ++
  encode_probability_commitment group.(outage_probability) ++
  encode_probability_commitment group.(compromise_probability).
Definition role_commitment (role : RoleParameters) : bytes :=
  encode_len (len role.(rp_name)) ++ role.(rp_name) ++ to_le 2 role.(rp_committee_size) ++
  to_le 2 role.(rp_certificate_threshold) ++ to_le 2 role.(rp_opening_threshold) ++
  match role.(rp_eligible_population) with
  | Some population =>
      [x01] ++ to_le 4 population.(total_members) ++ to_le 4 population.(adversarial_members)
  | None => [x00]
  end.
Definition overlap_commitment (overlap : RoleOverlap) : bytes :=
  encode_len overlap.(first_role) ++ encode_len overlap.(second_role) ++
  to_le 2 overlap.(shared_members).

Definition profile_bytes (profile : RiskProfile) : bytes :=
  encode_probability_commitment profile.(adversarial_work_fraction) ++
  encode_probability_commitment profile.(eligible_adversarial_fraction) ++
  encode_probability_commitment profile.(member_online_probability) ++
  encode_len (len profile.(correlation_groups)) ++
  concat (group_commitment <$> profile.(correlation_groups)) ++
  to_le 8 profile.(rotation_interval_seconds) ++ to_le 4 profile.(lookback_window_blocks) ++
  to_le 4 profile.(minimum_lookback_blocks) ++ to_le 2 profile.(parallel_lanes) ++
  [match profile.(lane_model) with IndependentCommittees => x00 | SharedCommittee => x01 end] ++
  to_le 8 (canonical_bound_bits profile.(annual_security_target)) ++
  to_le 8 (canonical_bound_bits profile.(annual_liveness_target)) ++
  encode_len (len profile.(roles)) ++ concat (role_commitment <$> profile.(roles)) ++
  encode_len (len profile.(overlaps)) ++ concat (overlap_commitment <$> profile.(overlaps)).

Definition risk_profile_commitment_validated `{Digests} (profile : RiskProfile) : Hash256 :=
  blake2b_256 [str "meshmine/committee-risk-profile/v2"; profile_bytes profile].
Definition risk_profile_commitment `{Digests} (profile : RiskProfile) : result RiskError Hash256 :=
  _ ← validate_profile profile;
  Ok (risk_profile_commitment_validated profile).

(** ** Assessment *)

Definition opt_maximum (p : ExactProbability) (q : option ExactProbability) : ExactProbability :=
  match q with Some q => maximum p q | None => p end.

(** [.as_ref().map(f).transpose()] *)
Definition opt_transpose {E A B} (f : A → result E B) (o : option A) : result E (option B) :=
  match o with Some a => b ← f a; Ok (Some b) | None => Ok None end.

Definition assess_role (profile : RiskProfile) (role : RoleParameters) :
    result RiskError RoleRiskReport :=
  let size := role.(rp_committee_size) in
  let certificate := role.(rp_certificate_threshold) in
  let opening := role.(rp_opening_threshold) in
  let adversarial := profile.(eligible_adversarial_fraction) in
  hypergeometric_certificate_capture ←
    opt_transpose (λ p, hypergeometric_tail p size certificate) role.(rp_eligible_population);
  hypergeometric_opening_capture ←
    opt_transpose (λ p, hypergeometric_tail p size opening) role.(rp_eligible_population);
  let correlated_certificate_capture := correlated_tail profile size certificate TailAdversarial in
  let correlated_opening_capture := correlated_tail profile size opening TailAdversarial in
  let certificate_block_threshold := size - certificate + 1 in
  let opening_block_threshold := size - opening + 1 in
  let combined_certificate_block :=
    correlated_combined_block profile size certificate_block_threshold certificate in
  let combined_opening_block :=
    correlated_combined_block profile size opening_block_threshold opening in
  let capture :=
    opt_maximum
      (opt_maximum (maximum correlated_certificate_capture correlated_opening_capture)
         hypergeometric_certificate_capture)
      hypergeometric_opening_capture in
  let blocking := maximum combined_certificate_block combined_opening_block in
  Ok (mkRoleRiskReport role.(rp_name) size certificate opening
        (binomial_tail size certificate adversarial) (binomial_tail size opening adversarial)
        hypergeometric_certificate_capture hypergeometric_opening_capture
        correlated_certificate_capture correlated_opening_capture
        (correlated_tail profile size certificate_block_threshold TailAdversarial)
        (correlated_tail profile size opening_block_threshold TailAdversarial)
        (correlated_tail profile size certificate HonestOnlineFailure)
        (correlated_tail profile size opening HonestOnlineFailure)
        combined_certificate_block combined_opening_block capture blocking).

(** [None]: a role index is out of range (a panic; validation excludes it). *)
Definition assess_overlap (profile : RiskProfile) (overlap : RoleOverlap) : option OverlapRiskReport :=
  first ← profile.(roles) !! Z.to_nat overlap.(first_role);
  second ← profile.(roles) !! Z.to_nat overlap.(second_role);
  Some (mkOverlapRiskReport first.(rp_name) second.(rp_name) overlap.(shared_members)
          (correlated_joint_tail profile first second overlap.(shared_members)
             first.(rp_certificate_threshold) second.(rp_certificate_threshold))
          (multiply
             (binomial_tail first.(rp_committee_size) first.(rp_certificate_threshold)
                profile.(eligible_adversarial_fraction))
             (binomial_tail second.(rp_committee_size) second.(rp_certificate_threshold)
                profile.(eligible_adversarial_fraction)))).

Section Assessment.
Context `{Digests}.

(** [None]: a panic. *)
Definition assess_profile (profile : RiskProfile) : option (result RiskError DeploymentRiskReport) :=
  match validate_profile profile with
  | Err e => Some (Err e)
  | Ok _ =>
      let events := selections_per_year profile in
      match collect (assess_role profile) profile.(roles) with
      | Err e => Some (Err e)
      | Ok role_reports =>
          overlap_reports ← mapM (assess_overlap profile) profile.(overlaps);
          let capture_union :=
            foldl (λ sum role, prob_add sum role.(rr_capture_per_selection)) prob_zero role_reports in
          let blocking_union :=
            foldl (λ sum role, prob_add sum role.(rr_blocking_per_selection)) prob_zero role_reports in
          Some (Ok (mkDeploymentRiskReport (risk_profile_commitment_validated profile) events
                      role_reports overlap_reports capture_union blocking_union
                      (annual_union_bound capture_union events)
                      (annual_union_bound blocking_union events)
                      (meets_target capture_union events profile.(annual_security_target))
                      (meets_target blocking_union events profile.(annual_liveness_target))))
      end
  end.

Definition enforce_profile (profile : RiskProfile) : option (result RiskError DeploymentRiskReport) :=
  outcome ← assess_profile profile;
  Some (report ← outcome;
        if negb report.(dr_security_target_met) then Err SecurityBoundExceeded
        else if negb report.(dr_liveness_target_met) then Err LivenessBoundExceeded
        else Ok report).
End Assessment.
