(* ===== verification/RiskExact.v ===== *)
(** * Exactness of the committee risk assessment

    The reference: committee members drawn one after the other, each adversarial,
    honest and online, or neither, with given probabilities; failure domains that
    fail as a whole; a finite population whose subsets are equally likely. Every
    probability of Risk.v is proved to be the one of this process, and the
    release gate to be the union bound over a year of selections. *)

From Stdlib Require Import Lqa.
From S2P Require Import Prelude Codec Hash Target Risk.
Local Open Scope Q_scope.

(** ** Values *)

(** The rational of an exact probability, and what makes it a probability. *)
Definition val (p : ExactProbability) : Q := numerator p # Z.to_pos (denominator p).
Definition wf_prob (p : ExactProbability) : Prop :=
  (0 <= numerator p <= denominator p)%Z ∧ (0 < denominator p)%Z.
(** [p] is a probability of value [q]. *)
Definition reps (p : ExactProbability) (q : Q) : Prop := wf_prob p ∧ val p == q.

#[export] Instance reps_proper : Proper ((=) ==> Qeq ==> iff) reps.
Proof. intros p ? <- q q' Hq. unfold reps. by rewrite Hq. Qed.

Lemma val_eq p n d : (0 < denominator p)%Z → (0 < d)%Z →
  val p == n # Z.to_pos d ↔ (numerator p * d = n * denominator p)%Z.
Proof. intros Hp Hd. unfold val, Qeq. cbn [Qnum Qden]. by rewrite !Z2Pos.id by done. Qed.

Lemma reduced_spec n d : (0 <= n)%Z → (0 < d)%Z →
  (0 <= numerator (reduced n d))%Z ∧ (0 < denominator (reduced n d))%Z ∧
  val (reduced n d) == n # Z.to_pos d.
Proof.
  intros Hn Hd. unfold reduced. destruct (Z.eqb_spec n 0) as [->|Hn0].
  { cbn. split_and!; [lia..|]. unfold Qeq. cbn. lia. }
  destruct (Z.gcd_divide_l n d) as [n' Hn'], (Z.gcd_divide_r n d) as [d' Hd'].
  assert (0 < Z.gcd n d)%Z as Hg.
  { pose proof (Z.gcd_nonneg n d). destruct (Z.eq_dec (Z.gcd n d) 0) as [E|]; [|lia].
    apply Z.gcd_eq_0_l in E. lia. }
  set (g := Z.gcd n d) in *. cbn [numerator denominator].
  assert (n / g = n')%Z as En by (rewrite Hn' at 1; apply Z.div_mul; lia).
  assert (d / g = d')%Z as Ed by (rewrite Hd' at 1; apply Z.div_mul; lia).
  assert (0 < d')%Z by nia. assert (0 <= n')%Z by nia.
  rewrite En, Ed. split_and!; [lia..|].
  apply val_eq; cbn [numerator denominator]; [lia..|]. nia.
Qed.

Lemma val_range p : wf_prob p → 0 <= val p <= 1.
Proof.
  intros [[H0 H1] Hd]. unfold val, Qle. cbn. rewrite Z2Pos.id by done. lia.
Qed.

Lemma reps_range p q : reps p q → 0 <= q <= 1.
Proof. intros [Hw <-]. by apply val_range. Qed.

Lemma reps_reduced n d q :
  (0 <= n)%Z → (0 < d)%Z → n # Z.to_pos d == q → q <= 1 → reps (reduced n d) q.
Proof.
  intros Hn Hd Hq H1. destruct (reduced_spec n d Hn Hd) as (Hrn & Hrd & Hv).
  rewrite Hq in Hv. split; [|done]. split; [|done]. split; [done|].
  rewrite <- Hv in H1. unfold val, Qle in H1. cbn in H1. rewrite Z2Pos.id in H1 by done. lia.
Qed.

Lemma prob_leb_spec p q : (0 < denominator p)%Z → (0 < denominator q)%Z →
  prob_leb p q = true ↔ val p <= val q.
Proof.
  intros Hp Hq. unfold prob_leb, val, Qle. cbn. rewrite !Z2Pos.id by done. apply Z.leb_le.
Qed.

(** ** Operations on values *)

Lemma reps_zero : reps prob_zero 0.
Proof. split; [split; cbn; lia | reflexivity]. Qed.
Lemma reps_one : reps prob_one 1.
Proof. split; [split; cbn; lia | reflexivity]. Qed.

(** A fraction as a quotient of integers. *)
Lemma frac_div n d : (0 < d)%Z → n # Z.to_pos d == inject_Z n / inject_Z d.
Proof.
  intros Hd. rewrite (Qmake_Qdiv n). rewrite Z2Pos.id by done. reflexivity.
Qed.
Lemma val_div p : wf_prob p → val p == inject_Z (numerator p) / inject_Z (denominator p).
Proof. intros [_ Hd]. by apply frac_div. Qed.
Lemma inject_pos z : (0 < z)%Z → ~ inject_Z z == 0.
Proof. intros Hz E. unfold Qeq in E. cbn in E. lia. Qed.

(** Products and sums of integers pushed through, then [field]. *)
Ltac frac := rewrite ?inject_Z_plus, ?inject_Z_mult; field; split_and?; by apply inject_pos.

Lemma reps_complement p a : reps p a → reps (complement p) (1 - a).
Proof.
  intros [Hw Hv]. pose proof (val_range p Hw) as Hr. rewrite Hv in Hr.
  pose proof (val_div p Hw) as Hd. destruct Hw as [Hn Hp]. apply reps_reduced; [lia..| |lra].
  rewrite frac_div, <- Hv, Hd by done. unfold Z.sub. rewrite inject_Z_plus, inject_Z_opp.
  field. by apply inject_pos.
Qed.

Lemma reps_mul p q a b : reps p a → reps q b → reps (multiply p q) (a * b).
Proof.
  intros Hp Hq. pose proof (reps_range _ _ Hp). pose proof (reps_range _ _ Hq).
  destruct Hp as [Hwp Hp], Hq as [Hwq Hq]. pose proof (val_div p Hwp). pose proof (val_div q Hwq).
  destruct Hwp as [? ?], Hwq as [? ?]. apply reps_reduced; [nia..| |nra].
  rewrite frac_div by nia. rewrite <- Hp, <- Hq, H1, H2. frac.
Qed.

(** An uncapped sum. *)
Lemma reps_add p q a b : reps p a → reps q b → a + b <= 1 → reps (prob_add p q) (a + b).
Proof.
  intros [Hwp Hp] [Hwq Hq] Hle. pose proof (val_div p Hwp). pose proof (val_div q Hwq).
  destruct Hwp as [? ?], Hwq as [? ?]. unfold prob_add, capped_at_one.
  assert (reps (reduced (numerator p * denominator q + numerator q * denominator p)
                  (denominator p * denominator q)) (a + b)) as Hr.
  { apply reps_reduced; [nia..| |done]. rewrite frac_div by nia. rewrite <- Hp, <- Hq, H, H0. frac. }
  rewrite (proj2 (prob_leb_spec _ _ (proj2 (proj1 Hr)) (proj2 (proj1 reps_one)))); [done|].
  destruct Hr as [_ ->]. by rewrite (proj2 reps_one).
Qed.

(** The sum of any two probabilities is capped. *)
Lemma reps_add_capped p q a b : reps p a → reps q b → reps (prob_add p q) (Qmin (a + b) 1).
Proof.
  intros Hp Hq. destruct (Qlt_le_dec 1 (a + b)) as [Hlt|Hle].
  2: { rewrite Q.min_l by done. by apply reps_add. }
  rewrite Q.min_r by lra. destruct Hp as [Hwp Hp], Hq as [Hwq Hq].
  pose proof (val_div p Hwp). pose proof (val_div q Hwq). destruct Hwp as [? ?], Hwq as [? ?].
  unfold prob_add, capped_at_one.
  edestruct (reduced_spec (numerator p * denominator q + numerator q * denominator p)
    (denominator p * denominator q)) as (Hrn & Hrd & Hv); [nia..|].
  destruct (prob_leb _ _) eqn:E; [|apply reps_one]. exfalso.
  apply (proj1 (prob_leb_spec _ _ Hrd (proj2 (proj1 reps_one)))) in E.
  rewrite (proj2 reps_one), Hv, frac_div in E by nia.
  apply (Qlt_not_le _ _ Hlt). eapply Qle_trans; [|exact E]. apply Qle_lteq. right.
  rewrite <- Hp, <- Hq, H, H0. frac.
Qed.

Lemma reps_max p q a b : reps p a → reps q b → reps (maximum p q) (Qmax a b).
Proof.
  intros Hp Hq. unfold maximum. destruct (prob_leb q p) eqn:E.
  - apply (proj1 (prob_leb_spec _ _ (proj2 (proj1 Hq)) (proj2 (proj1 Hp)))) in E.
    rewrite (proj2 Hp), (proj2 Hq) in E. by rewrite Q.max_l.
  - destruct (Qlt_le_dec a b) as [Hlt|Hle]; [rewrite Q.max_r by lra; done|]. exfalso.
    assert (prob_leb q p = true); [|congruence].
    apply (prob_leb_spec _ _ (proj2 (proj1 Hq)) (proj2 (proj1 Hp))).
    by rewrite (proj2 Hp), (proj2 Hq).
Qed.

(** ** Sums *)

Definition sumQ (l : list Q) : Q := foldr Qplus 0 l.

Lemma sumQ_nil : sumQ [] = 0.
Proof. done. Qed.
Lemma sumQ_cons x l : sumQ (x :: l) = x + sumQ l.
Proof. done. Qed.
Lemma sumQ_app l1 l2 : sumQ (l1 ++ l2) == sumQ l1 + sumQ l2.
Proof.
  induction l1 as [|x l1 IH]; cbn [app]; [rewrite sumQ_nil; ring|]. rewrite !sumQ_cons, IH. ring.
Qed.
Lemma sumQ_nonneg {A} (f : A → Q) l : (∀ x, x ∈ l → 0 <= f x) → 0 <= sumQ (f <$> l).
Proof.
  intros Hf. induction l as [|x l IH]; cbn [fmap list_fmap]; [rewrite sumQ_nil; lra|]. rewrite sumQ_cons.
  assert (0 <= f x) by (apply Hf; left).
  assert (0 <= sumQ (f <$> l)) by (apply IH; intros; apply Hf; by right). lra.
Qed.
Lemma sumQ_ext {A} (f g : A → Q) l : (∀ x, x ∈ l → f x == g x) → sumQ (f <$> l) == sumQ (g <$> l).
Proof.
  intros Hf. induction l as [|x l IH]; [reflexivity|]. rewrite !fmap_cons, !sumQ_cons.
  rewrite (Hf x) by left. rewrite IH; [reflexivity|]. intros; apply Hf. by right.
Qed.

(** A loop that adds [f x] for every [x] stays uncapped while the sum is a
    probability. *)
Lemma reps_foldl {A} (step : ExactProbability → A → ExactProbability) (f : A → Q) l r a :
  (∀ r a x, x ∈ l → reps r a → a + f x <= 1 → reps (step r x) (a + f x)) →
  (∀ x, x ∈ l → 0 <= f x) → reps r a → a + sumQ (f <$> l) <= 1 →
  reps (foldl step r l) (a + sumQ (f <$> l)).
Proof.
  revert r a. induction l as [|x l IH]; intros r a Hstep Hf Hr Hle; cbn [foldl].
  { cbn. by rewrite Qplus_0_r. }
  rewrite fmap_cons, sumQ_cons in *. rewrite Qplus_assoc.
  assert (0 <= sumQ (f <$> l)) by (apply sumQ_nonneg; intros; apply Hf; by right).
  apply IH; [| |apply Hstep; [left|done|lra]|lra].
  - intros r' a' y Hy. apply Hstep. by right.
  - intros y Hy. apply Hf. by right.
Qed.

(** [qsum f n] adds [f 0 ... f (n - 1)]. *)
Fixpoint qsum (f : nat → Q) (n : nat) : Q :=
  match n with O => 0 | S n => qsum f n + f n end.

Lemma qsum_S f n : qsum f (S n) = qsum f n + f n.
Proof. done. Qed.
Lemma qsum_ext f g n : (∀ i, (i < n)%nat → f i == g i) → qsum f n == qsum g n.
Proof.
  induction n as [|n IH]; intros Hf; [reflexivity|].
  rewrite !qsum_S, IH, Hf by auto with arith. reflexivity.
Qed.
Lemma qsum_add f g n : qsum (λ i, f i + g i) n == qsum f n + qsum g n.
Proof. induction n as [|n IH]; [reflexivity|]. rewrite !qsum_S, IH. ring. Qed.
Lemma qsum_scale c f n : qsum (λ i, c * f i) n == c * qsum f n.
Proof. induction n as [|n IH]; [cbn [qsum]; ring|]. rewrite !qsum_S, IH. ring. Qed.
Lemma qsum_shift f n : qsum f (S n) == f O + qsum (λ i, f (S i)) n.
Proof.
  induction n as [|n IH]; [cbn [qsum]; ring|]. rewrite qsum_S, IH, (qsum_S (λ i, f (S i))). ring.
Qed.

(** A sum over the integers [0 .. n - 1]. *)
Lemma sumQ_seqZ (f : Z → Q) (n : nat) :
  sumQ (f <$> seqZ 0 (Z.of_nat n)) == qsum (λ i, f (Z.of_nat i)) n.
Proof.
  induction n as [|n IH]; [reflexivity|].
  replace (Z.of_nat (S n)) with (Z.of_nat n + 1)%Z by lia.
  rewrite seqZ_app, fmap_app, sumQ_app, IH, Z.add_0_l by lia.
  change (seqZ (Z.of_nat n) 1) with [(0 + Z.of_nat n)%Z]. rewrite Z.add_0_l.
  cbn [fmap list_fmap]. rewrite sumQ_cons, sumQ_nil, qsum_S. ring.
Qed.

(** ** Binomial coefficients *)

Fixpoint binom (n k : nat) : Z :=
  match n, k with
  | _, O => 1%Z
  | O, S _ => 0%Z
  | S n, S k => (binom n k + binom n (S k))%Z
  end.

Lemma binom_0_r n : binom n 0 = 1%Z.
Proof. by destruct n. Qed.
Lemma binom_gt n k : (n < k)%nat → binom n k = 0%Z.
Proof.
  revert k. induction n as [|n IH]; intros [|k] Hk; cbn [binom]; [lia|done|lia|].
  rewrite !IH by lia. done.
Qed.
Lemma binom_nonneg n k : (0 <= binom n k)%Z.
Proof.
  revert k. induction n as [|n IH]; intros [|k]; cbn [binom]; [lia..|].
  pose proof (IH k). pose proof (IH (S k)). lia.
Qed.
Lemma binom_pos n k : (k <= n)%nat → (0 < binom n k)%Z.
Proof.
  revert k. induction n as [|n IH]; intros [|k] Hk; cbn [binom]; [lia..|].
  pose proof (IH k ltac:(lia)). pose proof (binom_nonneg n (S k)). lia.
Qed.

(** The factor from one coefficient of a row to the next. *)
Lemma binom_step n k :
  (binom n k * (Z.of_nat n - Z.of_nat k) = binom n (S k) * (Z.of_nat k + 1))%Z.
Proof.
  revert k. induction n as [|n IH]; intros [|k]; cbn [binom]; [lia..| |].
  - pose proof (IH O) as E. rewrite !binom_0_r in *. nia.
  - pose proof (IH k) as E1. pose proof (IH (S k)) as E2. nia.
Qed.

Lemma binom_sym n m : binom (n + m) n = binom (n + m) m.
Proof.
  revert m. induction n as [|n IH]; intros m.
  - cbn [Nat.add]. rewrite binom_0_r. induction m as [|m IHm]; [done|]. cbn [binom].
    rewrite <- IHm, (binom_gt m (S m)) by lia. lia.
  - induction m as [|m IHm].
    + rewrite Nat.add_0_r, binom_0_r. clear IH. induction (S n) as [|k IHk]; [done|].
      cbn [binom]. rewrite IHk, (binom_gt k (S k)) by lia. lia.
    + replace (S n + S m)%nat with (S (n + S m)) by lia. cbn [binom].
      rewrite (IH (S m)). replace (n + S m)%nat with (S n + m)%nat by lia. rewrite IHm. lia.
Qed.

(** The loop of [choose] divides exactly and computes the coefficient. *)
Lemma choose_loop n j :
  (j <= n)%nat →
  foldl (λ value index, value * (Z.of_nat n - index) / (index + 1))%Z 1%Z (seqZ 0 (Z.of_nat j))
    = binom n j.
Proof.
  induction j as [|j IH]; intros Hj; [by rewrite binom_0_r|].
  replace (Z.of_nat (S j)) with (Z.of_nat j + 1)%Z by lia. rewrite seqZ_app, foldl_app, IH by lia.
  change (seqZ (0 + Z.of_nat j) 1) with [(0 + (0 + Z.of_nat j))%Z]. cbn [foldl].
  rewrite !Z.add_0_l, binom_step. apply Z.div_mul. lia.
Qed.

Lemma choose_spec n k : choose (Z.of_nat n) (Z.of_nat k) = binom n k.
Proof.
  unfold choose. destruct (Z.ltb_spec (Z.of_nat n) (Z.of_nat k)) as [Hlt|Hle].
  { by rewrite binom_gt by lia. }
  cbn zeta. destruct (Z.min_spec (Z.of_nat k) (Z.of_nat n - Z.of_nat k)) as [[_ ->]|[_ ->]].
  - apply choose_loop. lia.
  - replace (Z.of_nat n - Z.of_nat k)%Z with (Z.of_nat (n - k)) by lia. rewrite choose_loop by lia.
    pose proof (binom_sym k (n - k)) as E. replace (k + (n - k))%nat with n in E by lia. done.
Qed.

(** ** Weighted paths

    [paths n G] adds [G i m] over the 2^n sequences of [n] choices with [i]
    choices of the one kind and [m] of the other. *)
Fixpoint paths (n : nat) (G : nat → nat → Q) : Q :=
  match n with
  | O => G O O
  | S n => paths n (λ i m, G (S i) m) + paths n (λ i m, G i (S m))
  end.

Lemma paths_S n G : paths (S n) G = paths n (λ i m, G (S i) m) + paths n (λ i m, G i (S m)).
Proof. done. Qed.
Lemma paths_ext n G G' : (∀ i m, G i m == G' i m) → paths n G == paths n G'.
Proof.
  revert G G'. induction n as [|n IH]; intros G G' HG; [apply HG|]. rewrite !paths_S.
  apply Qplus_comp; apply IH; intros; apply HG.
Qed.
Lemma paths_add n G G' : paths n (λ i m, G i m + G' i m) == paths n G + paths n G'.
Proof. revert G G'. induction n as [|n IH]; intros G G'; [reflexivity|]. rewrite !paths_S, !IH. ring. Qed.
Lemma paths_scale n c G : paths n (λ i m, c * G i m) == c * paths n G.
Proof. revert G. induction n as [|n IH]; intros G; [reflexivity|]. rewrite !paths_S, !IH. ring. Qed.

(** The paths by their number of choices of the first kind. *)
Lemma paths_binom n G :
  paths n G == qsum (λ i, inject_Z (binom n i) * G i (n - i)%nat) (S n).
Proof.
  revert G. induction n as [|n IH]; intros G.
  { cbn [paths qsum binom Nat.sub]. ring. }
  rewrite paths_S, !IH, (qsum_shift (λ i, inject_Z (binom (S n) i) * G i (S n - i)%nat)).
  assert (qsum (λ i, inject_Z (binom (S n) (S i)) * G (S i) (S n - S i)%nat) (S n) ==
          qsum (λ i, inject_Z (binom n i) * G (S i) (n - i)%nat) (S n)
          + qsum (λ i, inject_Z (binom n (S i)) * G (S i) (n - i)%nat) (S n)) as ->.
  { rewrite <- qsum_add. apply qsum_ext. intros i _. cbn [binom Nat.sub]. rewrite inject_Z_plus. ring. }
  rewrite (qsum_S (λ i, inject_Z (binom n (S i)) * G (S i) (n - i)%nat)), (binom_gt n (S n)) by lia.
  assert (qsum (λ i, inject_Z (binom n i) * G i (S (n - i))) (S n) ==
          G 0%nat (S n) + qsum (λ i, inject_Z (binom n (S i)) * G (S i) (n - i)%nat) n) as ->.
  { rewrite qsum_shift, binom_0_r, Nat.sub_0_r. apply Qplus_comp; [ring|]. apply qsum_ext.
    intros i Hi. by replace (S (n - S i)) with (n - i)%nat by lia. }
  rewrite binom_0_r, Nat.sub_0_r. change (inject_Z 0) with 0. ring.
Qed.

(** ** The reference process *)

(** The expectation of [f] of the number of successes in [n] trials that succeed
    with weight [p] and fail with weight [q]. *)
Fixpoint bern (n : nat) (p q : Q) (f : nat → Q) : Q :=
  match n with
  | O => f O
  | S n => p * bern n p q (λ i, f (S i)) + q * bern n p q f
  end.

(** Members that are adversarial, honest and online, or neither: the expectation
    of [f] of the first two counts. *)
Fixpoint draws (n : nat) (a h o : Q) (f : nat → nat → Q) : Q :=
  match n with
  | O => f O O
  | S n => a * draws n a h o (λ i j, f (S i) j)
           + (h * draws n a h o (λ i j, f i (S j)) + o * draws n a h o f)
  end.

Fixpoint qpow (q : Q) (n : nat) : Q := match n with O => 1 | S n => q * qpow q n end.
Lemma qpow_S q n : qpow q (S n) = q * qpow q n.
Proof. done. Qed.
Lemma bern_S n p q f : bern (S n) p q f = p * bern n p q (λ i, f (S i)) + q * bern n p q f.
Proof. done. Qed.
Lemma draws_S n a h o f :
  draws (S n) a h o f = a * draws n a h o (λ i j, f (S i) j)
    + (h * draws n a h o (λ i j, f i (S j)) + o * draws n a h o f).
Proof. done. Qed.

Lemma bern_paths n p q f : bern n p q f == paths n (λ i m, qpow p i * qpow q m * f i).
Proof.
  revert f. induction n as [|n IH]; intros f; [cbn [bern paths qpow]; ring|].
  rewrite bern_S, paths_S, !IH, <- !paths_scale.
  apply Qplus_comp; apply paths_ext; intros i m; rewrite qpow_S; ring.
Qed.

Lemma draws_paths n a h o f : draws n a h o f == paths n (λ i m, qpow a i * bern m h o (f i)).
Proof.
  revert f. induction n as [|n IH]; intros f; [cbn [draws paths qpow bern]; ring|].
  rewrite draws_S, paths_S, !IH, <- !paths_scale, <- paths_add.
  apply Qplus_comp; apply paths_ext; intros i m.
  - change (λ j : nat, f (S i) j) with (f (S i)). rewrite qpow_S. ring.
  - cbn beta. rewrite bern_S. ring.
Qed.

(** The closed forms the code sums. *)
Lemma bern_sum n p q f :
  bern n p q f == qsum (λ i, inject_Z (binom n i) * (qpow p i * qpow q (n - i)) * f i) (S n).
Proof. rewrite bern_paths, paths_binom. apply qsum_ext. intros i _. ring. Qed.

Lemma draws_sum n a h o f :
  draws n a h o f ==
  qsum (λ i, qsum (λ j, inject_Z (binom n i) * inject_Z (binom (n - i) j)
                        * (qpow a i * qpow h j * qpow o (n - i - j)) * f i j) (S (n - i))) (S n).
Proof.
  rewrite draws_paths, paths_binom. apply qsum_ext. intros i _.
  rewrite bern_sum, <- !qsum_scale. apply qsum_ext. intros j _. ring.
Qed.

(** ** Expectations *)

#[export] Instance bern_proper n :
  Proper (Qeq ==> Qeq ==> pointwise_relation nat Qeq ==> Qeq) (bern n).
Proof.
  induction n as [|n IH]; intros p p' Hp q q' Hq f f' Hf; [apply Hf|]. rewrite !bern_S.
  apply Qplus_comp; apply Qmult_comp; try done; apply IH; try done. intros i. apply Hf.
Qed.
#[export] Instance draws_proper n :
  Proper (Qeq ==> Qeq ==> Qeq ==> pointwise_relation nat (pointwise_relation nat Qeq) ==> Qeq) (draws n).
Proof.
  induction n as [|n IH]; intros a a' Ha h h' Hh o o' Ho f f' Hf; [apply Hf|]. rewrite !draws_S.
  apply Qplus_comp; [|apply Qplus_comp]; apply Qmult_comp; try done; apply IH; try done; intros i j; apply Hf.
Qed.
#[export] Instance qpow_proper : Proper (Qeq ==> (=) ==> Qeq) qpow.
Proof. intros p p' Hp n ? <-. induction n as [|n IH]; [reflexivity|]. by rewrite !qpow_S, IH, Hp. Qed.

Definition unit_valued (f : nat → Q) : Prop := ∀ i, 0 <= f i <= 1.

Lemma bern_range n p q f : 0 <= p → 0 <= q → p + q == 1 → unit_valued f → 0 <= bern n p q f <= 1.
Proof.
  intros Hp Hq Hpq. revert f. induction n as [|n IH]; intros f Hf; [apply Hf|].
  rewrite bern_S. pose proof (IH f Hf). pose proof (IH (λ i, f (S i)) (λ i, Hf (S i))). nra.
Qed.
Lemma draws_range n a h o f :
  0 <= a → 0 <= h → 0 <= o → a + h + o == 1 → (∀ i, unit_valued (f i)) → 0 <= draws n a h o f <= 1.
Proof.
  intros Ha Hh Ho Hs. revert f. induction n as [|n IH]; intros f Hf; [apply Hf|].
  rewrite draws_S. pose proof (IH f Hf). pose proof (IH (λ i j, f (S i) j) (λ i, Hf (S i))).
  pose proof (IH (λ i j, f i (S j)) (λ i j, Hf i (S j))). nra.
Qed.
Lemma bern_const n p q c : p + q == 1 → bern n p q (λ _, c) == c.
Proof.
  intros Hpq. induction n as [|n IH]; [reflexivity|]. rewrite bern_S, IH.
  assert (p == 1 - q) as -> by (rewrite <- Hpq; ring). ring.
Qed.
Lemma bern_scale n p q c f : bern n p q (λ i, c * f i) == c * bern n p q f.
Proof. revert f. induction n as [|n IH]; intros f; [reflexivity|]. rewrite !bern_S, !IH. ring. Qed.

(** The first count alone: the members that are not adversarial merge. *)
Lemma draws_marginal n a h o f : draws n a h o (λ i _, f i) == bern n a (h + o) f.
Proof. revert f. induction n as [|n IH]; intros f; [reflexivity|]. rewrite draws_S, bern_S, !IH. ring. Qed.

Definition ind (b : bool) : Q := if b then 1 else 0.
Lemma ind_range b : 0 <= ind b <= 1.
Proof. destruct b; cbn; lra. Qed.
#[export] Hint Resolve ind_range : core.

Lemma qpow_nonneg q n : 0 <= q → 0 <= qpow q n.
Proof. intros Hq. induction n as [|n IH]; [cbn; lra|]. rewrite qpow_S. nra. Qed.
Lemma inject_nonneg z : (0 <= z)%Z → 0 <= inject_Z z.
Proof. intros Hz. unfold Qle. cbn. lia. Qed.
Lemma qpow_inject z n : inject_Z (z ^ Z.of_nat n) == qpow (inject_Z z) n.
Proof.
  induction n as [|n IH]; [reflexivity|].
  rewrite Nat2Z.inj_succ, Z.pow_succ_r, inject_Z_mult, IH by lia. reflexivity.
Qed.
Lemma qpow_nonzero q n : ~ q == 0 → ~ qpow q n == 0.
Proof.
  intros Hq. induction n as [|n IH]; [intros E; discriminate E|]. rewrite qpow_S.
  intros [E|E]%Qmult_integral; auto.
Qed.
Lemma qpow_div p q n : ~ q == 0 → qpow (p / q) n == qpow p n / qpow q n.
Proof.
  intros Hq. induction n as [|n IH]; [reflexivity|]. rewrite !qpow_S, IH. field.
  split; auto using qpow_nonzero.
Qed.
Lemma qpow_add q n m : qpow q (n + m) == qpow q n * qpow q m.
Proof. induction n as [|n IH]; cbn [Nat.add]; [cbn [qpow]; ring|]. rewrite !qpow_S, IH. ring. Qed.

Lemma qsum_nonneg f n : (∀ i, (i < n)%nat → 0 <= f i) → 0 <= qsum f n.
Proof.
  induction n as [|n IH]; intros Hf; [apply Qle_refl|]. rewrite qsum_S.
  pose proof (IH (λ i Hi, Hf i (Nat.lt_lt_succ_r _ _ Hi))). pose proof (Hf n (Nat.lt_succ_diag_r n)). lra.
Qed.
Lemma qsum_term f n k : (∀ i, (i < n)%nat → 0 <= f i) → (k < n)%nat → f k <= qsum f n.
Proof.
  induction n as [|n IH]; intros Hf Hk; [lia|]. rewrite qsum_S.
  pose proof (qsum_nonneg f n (λ i Hi, Hf i (Nat.lt_lt_succ_r _ _ Hi))).
  pose proof (Hf n (Nat.lt_succ_diag_r n)). destruct (decide (k = n)) as [->|]; [lra|].
  pose proof (IH (λ i Hi, Hf i (Nat.lt_lt_succ_r _ _ Hi)) ltac:(lia)). lra.
Qed.

(** The probability of exactly [k] successes. *)
Definition mass (n k : nat) (a : Q) : Q := inject_Z (binom n k) * (qpow a k * qpow (1 - a) (n - k)).

Lemma mass_nonneg n k a : 0 <= a <= 1 → 0 <= mass n k a.
Proof.
  intros Ha. unfold mass. apply Qmult_le_0_compat; [apply inject_nonneg, binom_nonneg|].
  apply Qmult_le_0_compat; apply qpow_nonneg; lra.
Qed.
Lemma bern_mass n a f : bern n a (1 - a) f == qsum (λ k, mass n k a * f k) (S n).
Proof. apply bern_sum. Qed.
Lemma mass_le_one n k a : 0 <= a <= 1 → (k <= n)%nat → mass n k a <= 1.
Proof.
  intros Ha Hk. rewrite <- (bern_const n a (1 - a) 1) by ring. rewrite bern_mass.
  assert (mass n k a == mass n k a * 1) as -> by ring.
  apply (qsum_term (λ k, mass n k a * 1)); [|lia]. intros i _. pose proof (mass_nonneg n i a Ha). lra.
Qed.

(** ** Binomial tails *)

Lemma reps_binomial_mass n k p a :
  reps p a → (k <= n)%nat → reps (binomial_mass (Z.of_nat n) (Z.of_nat k) p) (mass n k a).
Proof.
  intros Hp Hk. pose proof (reps_range _ _ Hp) as Ha. pose proof (val_div p (proj1 Hp)) as Hv.
  destruct Hp as [[Hn Hd] Hp]. unfold binomial_mass. rewrite (proj2 (Z.ltb_ge _ _)) by lia.
  rewrite choose_spec. replace (Z.of_nat n - Z.of_nat k)%Z with (Z.of_nat (n - k)) by lia.
  pose proof (binom_nonneg n k). apply reps_reduced; [|by apply Z.pow_pos_nonneg; lia| |by apply mass_le_one].
  { apply Z.mul_nonneg_nonneg; [apply Z.mul_nonneg_nonneg; [done|]|]; apply Z.pow_nonneg; lia. }
  rewrite frac_div by (apply Z.pow_pos_nonneg; lia). rewrite !inject_Z_mult, !qpow_inject.
  unfold mass. rewrite <- Hp, Hv.
  assert (1 - inject_Z (numerator p) / inject_Z (denominator p) ==
          inject_Z (denominator p - numerator p) / inject_Z (denominator p)) as ->.
  { unfold Z.sub. rewrite inject_Z_plus, inject_Z_opp. field. by apply inject_pos. }
  pose proof (inject_pos _ Hd) as Hnz. rewrite !qpow_div by done.
  replace n with (k + (n - k))%nat at 3 by lia. rewrite qpow_add. field.
  split; by apply qpow_nonzero.
Qed.

Lemma seqZ_split k m : (0 <= k <= m)%Z → seqZ 0 m = seqZ 0 k ++ seqZ k (m - k).
Proof. intros Hk. rewrite <- (Z.add_0_l k) at 2. rewrite <- seqZ_app by lia. f_equal. lia. Qed.
Lemma sumQ_zero {A} (f : A → Q) l : (∀ x, x ∈ l → f x == 0) → sumQ (f <$> l) == 0.
Proof.
  intros Hf. rewrite (sumQ_ext f (λ _, 0)) by done. clear Hf.
  induction l as [|x l IH]; [reflexivity|]. rewrite fmap_cons, sumQ_cons, IH. ring.
Qed.

(** A sum over [k .. m - 1] as one over [0 .. m - 1]. *)
Lemma sumQ_tail (f : Z → Q) (k m : nat) :
  (k <= m)%nat →
  sumQ (f <$> seqZ (Z.of_nat k) (Z.of_nat m - Z.of_nat k)) ==
  qsum (λ i, f (Z.of_nat i) * ind (k <=? i)%nat) m.
Proof.
  intros Hk. set (g := λ z, f z * ind (k <=? Z.to_nat z)%nat).
  transitivity (qsum (λ i, g (Z.of_nat i)) m).
  2: { apply qsum_ext. intros i _. unfold g. by rewrite Nat2Z.id. }
  rewrite <- sumQ_seqZ, (seqZ_split (Z.of_nat k)), fmap_app, sumQ_app, (sumQ_zero g) by
    (try lia; intros z Hz%elem_of_seqZ; unfold g; rewrite (proj2 (Nat.leb_gt _ _)) by lia; apply Qmult_0_r).
  rewrite Qplus_0_l. apply sumQ_ext. intros z Hz%elem_of_seqZ. unfold g.
  rewrite (proj2 (Nat.leb_le _ _)) by lia. cbn [ind]. ring.
Qed.

Lemma reps_binomial_tail n k p a :
  reps p a →
  reps (binomial_tail (Z.of_nat n) (Z.of_nat k) p) (bern n a (1 - a) (λ i, ind (k <=? i)%nat)).
Proof.
  intros Hp. pose proof (reps_range _ _ Hp) as Ha. unfold binomial_tail.
  destruct (Z.eqb_spec (Z.of_nat k) 0) as [Hk|Hk].
  { assert (k = O) as -> by lia. cbn [Nat.leb ind]. rewrite bern_const by ring. apply reps_one. }
  destruct (Z.ltb_spec (Z.of_nat n) (Z.of_nat k)) as [Hlt|Hle].
  { rewrite bern_mass, (qsum_ext _ (λ _, 0 * 0)); [rewrite qsum_scale, Qmult_0_l; apply reps_zero|].
    intros i Hi. rewrite (proj2 (Nat.leb_gt _ _)) by lia. apply Qmult_0_r. }
  replace (Z.of_nat n - Z.of_nat k + 1)%Z with (Z.of_nat (S n) - Z.of_nat k)%Z by lia.
  set (f := λ z, mass n (Z.to_nat z) a).
  assert (bern n a (1 - a) (λ i, ind (k <=? i)%nat) ==
          0 + sumQ (f <$> seqZ (Z.of_nat k) (Z.of_nat (S n) - Z.of_nat k))) as E.
  { rewrite Qplus_0_l, sumQ_tail, bern_mass by lia. apply qsum_ext. intros i _. unfold f.
    by rewrite Nat2Z.id. }
  rewrite E. apply reps_foldl; [| |apply reps_zero|].
  - intros r b z Hz%elem_of_seqZ Hr Hle'. apply reps_add; [done| |done].
    rewrite <- (Z2Nat.id z) at 1 by lia. apply reps_binomial_mass; [done|lia].
  - intros z _. by apply mass_nonneg.
  - rewrite <- E. apply bern_range; [lra..| |intros i; apply ind_range]. ring.
Qed.

(** ** Blocking by adversarial or missing members *)

(** The committee is blocked: too many adversarial members, or too few honest
    members online. *)
Definition blocked (adversarial_block honest_needed i j : nat) : bool :=
  negb ((i <? adversarial_block)%nat && (honest_needed <=? j)%nat).

Lemma qpow_val p n : wf_prob p →
  qpow (val p) n == inject_Z (numerator p ^ Z.of_nat n) / inject_Z (denominator p ^ Z.of_nat n).
Proof.
  intros Hw. rewrite val_div, !qpow_inject by done. apply qpow_div, inject_pos, Hw.
Qed.

(** One term of the double sum. *)
Lemma trinomial_term pa ph po i j k (c : Z) q :
  wf_prob pa → wf_prob ph → wf_prob po → (0 <= c)%Z →
  q == inject_Z c * (qpow (val pa) i * qpow (val ph) j * qpow (val po) k) → q <= 1 →
  reps (reduced (c * numerator pa ^ Z.of_nat i * numerator ph ^ Z.of_nat j * numerator po ^ Z.of_nat k)
          (denominator pa ^ Z.of_nat i * denominator ph ^ Z.of_nat j * denominator po ^ Z.of_nat k)) q.
Proof.
  intros Ha Hh Ho Hc Hq H1.
  assert (∀ p n, wf_prob p → (0 <= numerator p ^ Z.of_nat n)%Z ∧ (0 < denominator p ^ Z.of_nat n)%Z) as Hpow.
  { intros p n [? ?]. split; [apply Z.pow_nonneg | apply Z.pow_pos_nonneg]; lia. }
  destruct (Hpow pa i Ha), (Hpow ph j Hh), (Hpow po k Ho).
  apply reps_reduced; [by repeat apply Z.mul_nonneg_nonneg|by repeat apply Z.mul_pos_pos| |done].
  rewrite Hq, frac_div, !qpow_val by (done || by repeat apply Z.mul_pos_pos).
  rewrite !inject_Z_mult. field. split_and!; by apply inject_pos.
Qed.

Lemma reps_categorical_block n bt ht pa ph a h :
  reps pa a → reps ph h → a + h <= 1 →
  reps (categorical_block_probability (Z.of_nat n) (Z.of_nat bt) (Z.of_nat ht) pa ph)
    (draws n a h (1 - (a + h)) (λ i j, ind (blocked bt ht i j))).
Proof.
  intros Ha Hh Hle. pose proof (reps_range _ _ Ha). pose proof (reps_range _ _ Hh).
  pose proof (reps_complement _ _ (reps_add _ _ _ _ Ha Hh Hle)) as Ho.
  unfold categorical_block_probability. set (po := complement (prob_add pa ph)) in *. cbn zeta.
  set (o := 1 - (a + h)) in *. assert (0 <= o) by (unfold o; lra).
  set (g := λ (i j : nat), inject_Z (binom n i) * inject_Z (binom (n - i) j)
              * (qpow a i * qpow h j * qpow o (n - i - j)) * ind (blocked bt ht i j)).
  assert (∀ i j, 0 <= g i j) as Hg.
  { intros i j. unfold g. pose proof (ind_range (blocked bt ht i j)).
    repeat apply Qmult_le_0_compat; first [apply inject_nonneg, binom_nonneg | apply qpow_nonneg; lra | lra]. }
  set (inner := λ zi, sumQ ((λ zj, g (Z.to_nat zi) (Z.to_nat zj)) <$> seqZ 0 (Z.of_nat n - zi + 1))).
  assert (draws n a h o (λ i j, ind (blocked bt ht i j)) ==
          0 + sumQ (inner <$> seqZ 0 (Z.of_nat n + 1))) as E.
  { rewrite Qplus_0_l. replace (Z.of_nat n + 1)%Z with (Z.of_nat (S n)) by lia.
    rewrite sumQ_seqZ, draws_sum. apply qsum_ext. intros i Hi. unfold inner.
    replace (Z.of_nat n - Z.of_nat i + 1)%Z with (Z.of_nat (S (n - i))) by lia.
    rewrite sumQ_seqZ. apply qsum_ext. intros j _. by rewrite !Nat2Z.id. }
  rewrite E. apply reps_foldl; [| |apply reps_zero|].
  - intros r b zi Hzi%elem_of_seqZ Hr Hb. unfold inner at 1. apply reps_foldl; [|intros; apply Hg|done|done].
    intros r' b' zj Hzj%elem_of_seqZ Hr' Hb'. pose proof (reps_range _ _ Hr').
    set (i := Z.to_nat zi) in *. set (j := Z.to_nat zj) in *.
    rewrite <- (Z2Nat.id zi), <- (Z2Nat.id zj) by lia. fold i j.
    assert ((Z.of_nat i <? Z.of_nat bt)%Z && (Z.of_nat ht <=? Z.of_nat j)%Z = negb (blocked bt ht i j)) as ->.
    { unfold blocked. rewrite negb_involutive. f_equal; apply eq_bool_prop_intro.
      - rewrite !Is_true_true, Z.ltb_lt, Nat.ltb_lt. lia.
      - rewrite !Is_true_true, Z.leb_le, Nat.leb_le. lia. }
    unfold g in *. destruct (blocked bt ht i j); cbn [negb ind] in *.
    2: { by rewrite Qmult_0_r, Qplus_0_r. }
    apply reps_add; [done| |done].
    replace (Z.of_nat n - Z.of_nat i)%Z with (Z.of_nat (n - i)) by lia.
    replace (Z.of_nat (n - i) - Z.of_nat j)%Z with (Z.of_nat (n - i - j)) by lia.
    rewrite !choose_spec. pose proof (binom_nonneg n i). pose proof (binom_nonneg (n - i) j).
    apply trinomial_term; [apply Ha|apply Hh|apply Ho|by apply Z.mul_nonneg_nonneg| |lra].
    rewrite inject_Z_mult, (proj2 Ha), (proj2 Hh), (proj2 Ho). ring.
  - intros zi _. apply sumQ_nonneg. intros; apply Hg.
  - rewrite <- E. apply draws_range; [lra..| |intros i j; apply ind_range]. unfold o. ring.
Qed.

(** ** Committees with shared members *)

(** Both committees are captured: [s] members sit in both. *)
Definition joint_capture (n1 t1 n2 t2 s : nat) (a : Q) : Q :=
  bern s a (1 - a) (λ i,
    bern (n1 - s) a (1 - a) (λ j,
      bern (n2 - s) a (1 - a) (λ k, ind ((t1 <=? i + j)%nat && (t2 <=? i + k)%nat)))).

Lemma ind_andb b c : ind (b && c) == ind b * ind c.
Proof. destruct b, c; reflexivity. Qed.

Lemma leb_add_sub t i j : (t <=? i + j)%nat = (t - i <=? j)%nat.
Proof. apply eq_bool_prop_intro. rewrite !Is_true_true, !Nat.leb_le. lia. Qed.

(** Given the shared members the two committees are independent. *)
Lemma joint_capture_product n1 t1 n2 t2 s a :
  joint_capture n1 t1 n2 t2 s a ==
  bern s a (1 - a) (λ i, bern (n1 - s) a (1 - a) (λ j, ind (t1 - i <=? j)%nat)
                         * bern (n2 - s) a (1 - a) (λ k, ind (t2 - i <=? k)%nat)).
Proof.
  unfold joint_capture. apply bern_proper; [reflexivity..|]. intros i.
  rewrite Qmult_comm, <- bern_scale. apply bern_proper; [reflexivity..|]. intros j.
  rewrite Qmult_comm, <- bern_scale. apply bern_proper; [reflexivity..|]. intros k.
  rewrite ind_andb, (leb_add_sub t1), (leb_add_sub t2). ring.
Qed.

Lemma reps_joint_tail n1 t1 n2 t2 s p a :
  reps p a → (s <= n1)%nat → (s <= n2)%nat →
  reps (joint_binomial_tail (Z.of_nat n1) (Z.of_nat t1) (Z.of_nat n2) (Z.of_nat t2) (Z.of_nat s) p)
    (joint_capture n1 t1 n2 t2 s a).
Proof.
  intros Hp H1 H2. pose proof (reps_range _ _ Hp) as Ha. rewrite joint_capture_product.
  set (tails := λ i, bern (n1 - s) a (1 - a) (λ j, ind (t1 - i <=? j)%nat)
                     * bern (n2 - s) a (1 - a) (λ k, ind (t2 - i <=? k)%nat)).
  assert (∀ n t, 0 <= bern n a (1 - a) (λ j, ind (t <=? j)%nat) <= 1) as Ht.
  { intros n t. apply bern_range; [lra..|ring|intros j; apply ind_range]. }
  assert (unit_valued tails) as Hu.
  { intros i. unfold tails. pose proof (Ht (n1 - s)%nat (t1 - i)%nat).
    pose proof (Ht (n2 - s)%nat (t2 - i)%nat). nra. }
  set (f := λ z, mass s (Z.to_nat z) a * tails (Z.to_nat z)).
  assert (bern s a (1 - a) tails == 0 + sumQ (f <$> seqZ 0 (Z.of_nat s + 1))) as E.
  { rewrite Qplus_0_l. replace (Z.of_nat s + 1)%Z with (Z.of_nat (S s)) by lia.
    rewrite sumQ_seqZ, bern_mass. apply qsum_ext. intros i _. unfold f. by rewrite Nat2Z.id. }
  rewrite E. unfold joint_binomial_tail. apply reps_foldl; [| |apply reps_zero|].
  - intros r b z Hz%elem_of_seqZ Hr Hb. apply reps_add; [done| |done]. unfold f, tails.
    rewrite Qmult_assoc. set (i := Z.to_nat z) in *. rewrite <- (Z2Nat.id z) by lia. fold i.
    assert (∀ t, saturating_sub (Z.of_nat t) (Z.of_nat i) = Z.of_nat (t - i)) as Hs.
    { intros t. unfold saturating_sub. lia. }
    rewrite !Hs. replace (Z.of_nat n1 - Z.of_nat s)%Z with (Z.of_nat (n1 - s)) by lia.
    replace (Z.of_nat n2 - Z.of_nat s)%Z with (Z.of_nat (n2 - s)) by lia.
    apply reps_mul; [apply reps_mul; [apply reps_binomial_mass; [done|lia]|]|]; by apply reps_binomial_tail.
  - intros z _. unfold f. pose proof (mass_nonneg s (Z.to_nat z) a Ha). pose proof (Hu (Z.to_nat z)). nra.
  - rewrite <- E. apply bern_range; [lra..|ring|done].
Qed.

(** ** Drawing from a finite population *)

(** The subsets of [d] members, each once. *)
Fixpoint combinations {A} (d : nat) (l : list A) : list (list A) :=
  match d, l with
  | O, _ => [[]]
  | S _, [] => []
  | S d', x :: l => (cons x <$> combinations d' l) ++ combinations d l
  end.
Definition adversaries (c : list bool) : nat := length (filter (λ b, b = true) c).
(** [a] adversarial and [h] honest members. *)
Definition population_of (a h : nat) : list bool := replicate a true ++ replicate h false.
(** The share of the [d]-subsets with at least [k] adversarial members. *)
Definition subset_capture (a h d k : nat) : Q :=
  inject_Z (len (filter (λ c, (k <= adversaries c)%nat) (combinations d (population_of a h))))
  / inject_Z (len (combinations d (population_of a h))).

Lemma combinations_length {A} d (l : list A) : len (combinations d l) = binom (length l) d.
Proof.
  revert d. induction l as [|x l IH]; intros [|d]; cbn [combinations length binom]; [done..|].
  by rewrite len_app, len_fmap, !IH.
Qed.

(** The sum of [f] of the number of adversarial members, over the subsets. *)
Definition subset_sum (f : nat → Q) (d : nat) (l : list bool) : Q :=
  sumQ ((λ c, f (adversaries c)) <$> combinations d l).

Lemma subset_sum_cons f d b l :
  subset_sum f (S d) (b :: l) ==
  subset_sum (λ i, f (if b then S i else i)) d l + subset_sum f (S d) l.
Proof.
  unfold subset_sum. cbn [combinations]. rewrite fmap_app, sumQ_app, <- list_fmap_compose.
  apply Qplus_comp; [|reflexivity]. apply sumQ_ext. intros c _. unfold compose, adversaries.
  destruct b; cbn [filter list_filter]; [rewrite decide_True by done | rewrite decide_False by done]; reflexivity.
Qed.
Lemma subset_sum_0 f l : subset_sum f 0 l == f O.
Proof. unfold subset_sum. destruct l; cbn [combinations fmap list_fmap]; rewrite sumQ_cons, sumQ_nil; apply Qplus_0_r. Qed.

Lemma subset_sum_honest f d h :
  subset_sum f d (replicate h false) == inject_Z (binom h d) * f O.
Proof.
  revert d. induction h as [|h IH]; intros [|d]; cbn [replicate].
  - rewrite subset_sum_0. cbn [binom]. ring.
  - unfold subset_sum. cbn [combinations binom fmap list_fmap]. rewrite sumQ_nil. ring.
  - rewrite subset_sum_0. cbn [binom]. ring.
  - rewrite subset_sum_cons, !IH. cbn [binom]. rewrite inject_Z_plus. ring.
Qed.

(** Vandermonde: a subset takes [i] adversarial and [d - i] honest members. *)
Lemma subset_sum_paths f d a h :
  subset_sum f d (population_of a h) ==
  paths a (λ i _, if (i <=? d)%nat then inject_Z (binom h (d - i)) * f i else 0).
Proof.
  revert f d. induction a as [|a IH]; intros f d.
  { cbn [paths Nat.leb]. rewrite Nat.sub_0_r. apply subset_sum_honest. }
  change (population_of (S a) h) with (true :: population_of a h). rewrite paths_S.
  destruct d as [|d].
  - rewrite subset_sum_0, <- (subset_sum_0 f (population_of a h)), IH.
    rewrite (paths_ext a (λ i _, if (S i <=? 0)%nat then _ else 0) (λ _ _, 0 * 0)) by done.
    rewrite paths_scale. ring.
  - rewrite subset_sum_cons, !IH. reflexivity.
Qed.

Lemma qsum_extend f n m :
  (n <= m)%nat → (∀ i, (n <= i < m)%nat → f i == 0) → qsum f m == qsum f n.
Proof.
  induction 1 as [|m Hm IH]; intros Hf; [reflexivity|]. rewrite qsum_S, IH by (intros; apply Hf; lia).
  rewrite (Hf m) by lia. ring.
Qed.

Lemma subset_sum_binom f d a h :
  subset_sum f d (population_of a h) ==
  qsum (λ i, inject_Z (binom a i) * inject_Z (binom h (d - i)) * f i) (S (Nat.min d a)).
Proof.
  rewrite subset_sum_paths, paths_binom.
  rewrite (qsum_extend _ (S (Nat.min d a)) (S a)).
  - apply qsum_ext. intros i Hi. rewrite (proj2 (Nat.leb_le _ _)) by lia. ring.
  - lia.
  - intros i Hi. rewrite (proj2 (Nat.leb_gt _ _)) by lia. apply Qmult_0_r.
Qed.

Lemma inject_filter {A} (P : A → Prop) `{∀ x, Decision (P x)} l :
  inject_Z (len (filter P l)) == sumQ ((λ x, ind (bool_decide (P x))) <$> l).
Proof.
  induction l as [|x l IH]; [reflexivity|]. rewrite fmap_cons, sumQ_cons. rewrite filter_cons.
  destruct (decide (P x)); [rewrite bool_decide_true by done | rewrite bool_decide_false by done]; cbn [ind].
  - rewrite len_cons, inject_Z_plus, IH. ring.
  - rewrite IH. ring.
Qed.

Lemma filter_every {A} (P : A → Prop) `{∀ x, Decision (P x)} (l : list A) : (∀ x, P x) → filter P l = l.
Proof. intros HP. induction l as [|x l IH]; [done|]. by rewrite filter_cons_True, IH. Qed.

Lemma foldl_inject {A} (step : Z → A → Z) (f : A → Q) l acc :
  (∀ acc x, x ∈ l → inject_Z (step acc x) == inject_Z acc + f x) →
  inject_Z (foldl step acc l) == inject_Z acc + sumQ (f <$> l).
Proof.
  revert acc. induction l as [|x l IH]; intros acc Hs; cbn [foldl].
  { rewrite fmap_nil, sumQ_nil. ring. }
  rewrite IH, fmap_cons, sumQ_cons, Hs; [ring|left|]. intros; apply Hs. by right.
Qed.

Lemma sumQ_range (f : Z → Q) (k m : nat) :
  sumQ (f <$> seqZ (Z.of_nat k) (Z.of_nat m - Z.of_nat k)) ==
  qsum (λ i, f (Z.of_nat i) * ind (k <=? i)%nat) m.
Proof.
  destruct (decide (k <= m)%nat); [by apply sumQ_tail|].
  rewrite seqZ_nil, fmap_nil, sumQ_nil by lia. rewrite (qsum_ext _ (λ _, 0 * 0)), qsum_scale; [ring|].
  intros i Hi. rewrite (proj2 (Nat.leb_gt _ _)) by lia. apply Qmult_0_r.
Qed.

Lemma reps_hypergeometric a h d k :
  (0 < a + h)%nat → (d <= a + h)%nat →
  ∃ r, hypergeometric_tail (mkEligiblePopulation (Z.of_nat (a + h)) (Z.of_nat a)) (Z.of_nat d) (Z.of_nat k)
       = Ok r ∧ reps r (subset_capture a h d k).
Proof.
  intros Hpos Hd. unfold hypergeometric_tail, validate_population. cbn [total_members adversarial_members].
  rewrite (proj2 (Z.eqb_neq (Z.of_nat (a + h)) 0)), (proj2 (Z.ltb_ge _ (Z.of_nat a))),
    (proj2 (Z.ltb_ge _ (Z.of_nat d))) by lia. cbn [orb mbind result_bind].
  assert (len (combinations d (population_of a h)) = binom (a + h) d) as Hall.
  { rewrite combinations_length. unfold population_of. by rewrite length_app, !length_replicate. }
  pose proof (binom_pos _ _ Hd) as Hden.
  unfold subset_capture. rewrite Hall.
  destruct (Z.eqb_spec (Z.of_nat k) 0) as [Hk|Hk].
  { exists prob_one. split; [done|]. assert (k = O) as -> by lia.
    rewrite filter_every by (intros; lia). rewrite Hall.
    assert (inject_Z (binom (a + h) d) / inject_Z (binom (a + h) d) == 1) as ->; [|apply reps_one].
    field. by apply inject_pos. }
  set (num := foldl _ _ _). rewrite choose_spec.
  assert (num = len (filter (λ c, (k <= adversaries c)%nat) (combinations d (population_of a h)))) as Hnum.
  { apply inject_Z_injective. rewrite inject_filter. unfold num.
    rewrite (foldl_inject _ (λ z, inject_Z (binom a (Z.to_nat z)) * inject_Z (binom h (d - Z.to_nat z)))).
    - replace (Z.min (Z.of_nat d) (Z.of_nat a) - Z.of_nat k + 1)%Z
        with (Z.of_nat (S (Nat.min d a)) - Z.of_nat k)%Z by lia.
      rewrite sumQ_range. change (inject_Z 0) with 0. rewrite Qplus_0_l.
      transitivity (subset_sum (λ i, ind (k <=? i)%nat) d (population_of a h)).
      + rewrite subset_sum_binom. apply qsum_ext. intros i _. by rewrite !Nat2Z.id.
      + apply sumQ_ext. intros c _. rewrite (bool_decide_ext _ (k <=? adversaries c = true)%nat)
          by by rewrite Nat.leb_le. by destruct (_ <=? _)%nat.
    - intros acc z Hz%elem_of_seqZ. remember (Z.to_nat z) as i eqn:Ei.
      assert (z = Z.of_nat i) as -> by lia.
      replace (Z.of_nat (a + h) - Z.of_nat a)%Z with (Z.of_nat h) by lia.
      replace (Z.of_nat d - Z.of_nat i)%Z with (Z.of_nat (d - i)) by lia.
      destruct (Z.leb_spec (Z.of_nat (d - i)) (Z.of_nat h)).
      + rewrite !choose_spec, inject_Z_plus, inject_Z_mult. reflexivity.
      + rewrite (binom_gt h) by lia. change (inject_Z 0) with 0. ring. }
  rewrite Hnum. pose proof (length_filter (λ c, (k <= adversaries c)%nat) (combinations d (population_of a h))) as Hle.
  set (good := len (filter _ _)) in *.
  assert (0 <= good <= binom (a + h) d)%Z as Hg by (unfold good, len in *; lia).
  unfold prob_new. rewrite (proj2 (Z.eqb_neq _ _)), (proj2 (Z.ltb_ge _ _)) by lia.
  eexists. split; [done|]. apply reps_reduced; [lia|done|by apply frac_div|].
  apply Qle_shift_div_r; [unfold Qlt; cbn; lia|]. rewrite Qmult_1_l, <- Zle_Qle. lia.
Qed.

(** ** Correlated failure domains *)

Definition wf_group (g : CorrelationGroup) : Prop :=
  wf_prob g.(member_fraction) ∧ wf_prob g.(outage_probability) ∧ wf_prob g.(compromise_probability) ∧
  val g.(outage_probability) + val g.(compromise_probability) <= 1.
Definition group_total (gs : list CorrelationGroup) : Q := sumQ ((λ g, val g.(member_fraction)) <$> gs).

Lemma group_total_cons g gs : group_total (g :: gs) = val g.(member_fraction) + group_total gs.
Proof. done. Qed.
Lemma group_total_nonneg gs : Forall wf_group gs → 0 <= group_total gs.
Proof. intros Hgs. apply sumQ_nonneg. intros g Hg. rewrite Forall_forall in Hgs. apply val_range, Hgs, Hg. Qed.

(** Every domain is, independently, in order, down or compromised as a whole: the
    expectation of [f] of the compromised and the unavailable fraction. *)
Fixpoint over_groups (gs : list CorrelationGroup) (f : Q → Q → Q) (c o : Q) : Q :=
  match gs with
  | [] => f c o
  | g :: gs =>
      (1 - (val g.(outage_probability) + val g.(compromise_probability))) * over_groups gs f c o
      + (val g.(outage_probability) * over_groups gs f c (o + val g.(member_fraction))
         + val g.(compromise_probability) * over_groups gs f (c + val g.(member_fraction)) o)
  end.

Lemma over_groups_cons g gs f c o :
  over_groups (g :: gs) f c o =
  (1 - (val g.(outage_probability) + val g.(compromise_probability))) * over_groups gs f c o
  + (val g.(outage_probability) * over_groups gs f c (o + val g.(member_fraction))
     + val g.(compromise_probability) * over_groups gs f (c + val g.(member_fraction)) o).
Proof. done. Qed.

Section groups.
  Context (F : ExactProbability → ExactProbability → ExactProbability) (f : Q → Q → Q).
  Context (HF : ∀ pc c po o, reps pc c → reps po o → c + o <= 1 → reps (F pc po) (f c o)).

Definition visitor (result : ExactProbability) (state : ExactProbability * ExactProbability * ExactProbability) :
    ExactProbability :=
  prob_add result (multiply state.1.1 (F state.1.2 state.2)).

Lemma over_groups_range gs pc c po o :
  Forall wf_group gs → reps pc c → reps po o → c + o + group_total gs <= 1 →
  0 <= over_groups gs f c o <= 1.
Proof.
  intros Hgs. revert pc c po o. induction Hgs as [|g gs (Hf & Ho & Hc & Hs) Hgs IH]; intros pc c po o Hpc Hpo Hle.
  { cbn in Hle. apply (reps_range (F pc po)), HF; [done..|]. lra. }
  rewrite group_total_cons in Hle.
  pose proof (val_range _ Hf). pose proof (val_range _ Ho). pose proof (val_range _ Hc).
  pose proof (group_total_nonneg gs Hgs).
  pose proof (reps_range _ _ Hpc). pose proof (reps_range _ _ Hpo).
  pose proof (IH _ _ _ _ Hpc Hpo ltac:(lra)).
  assert (reps (prob_add po (member_fraction g)) (o + val (member_fraction g))) as Hpo'
    by (apply reps_add; [done|by split|lra]).
  assert (reps (prob_add pc (member_fraction g)) (c + val (member_fraction g))) as Hpc'
    by (apply reps_add; [done|by split|lra]).
  pose proof (IH _ _ _ _ Hpc Hpo' ltac:(lra)). pose proof (IH _ _ _ _ Hpc' Hpo ltac:(lra)).
  rewrite over_groups_cons. nra.
Qed.

Lemma reps_visit gs pw w pc c po o r a :
  Forall wf_group gs → reps pw w → reps pc c → reps po o → reps r a →
  c + o + group_total gs <= 1 → a + w * over_groups gs f c o <= 1 →
  reps (foldl visitor r (visit_recurse gs pw pc po)) (a + w * over_groups gs f c o).
Proof.
  intros Hgs. revert pw w pc c po o r a.
  induction Hgs as [|g gs (Hf & Ho & Hc & Hs) Hgs IH]; intros pw w pc c po o r a Hpw Hpc Hpo Hr Hle Ha.
  { cbn [visit_recurse foldl visitor over_groups fst snd] in *. unfold visitor. cbn [fst snd].
    apply reps_add; [done| |done]. apply reps_mul; [done|]. apply HF; [done..|]. cbn in Hle. lra. }
  rewrite group_total_cons in Hle.
  pose proof (group_total_nonneg gs Hgs).
  pose proof (reps_range _ _ Hpw). pose proof (reps_range _ _ Hpc). pose proof (reps_range _ _ Hpo).
  pose proof (val_range _ Hf). pose proof (val_range _ Ho). pose proof (val_range _ Hc).
  assert (reps (prob_add po (member_fraction g)) (o + val (member_fraction g))) as Hpo'
    by (apply reps_add; [done|by split|lra]).
  assert (reps (prob_add pc (member_fraction g)) (c + val (member_fraction g))) as Hpc'
    by (apply reps_add; [done|by split|lra]).
  assert (∀ ps s pc c po o r a,
    reps ps s → reps pc c → reps po o → c + o + group_total gs <= 1 → reps r a →
    a + w * (s * over_groups gs f c o) <= 1 →
    reps (foldl visitor r (if bool_decide (ps = prob_zero) then []
                           else visit_recurse gs (multiply pw ps) pc po))
      (a + w * (s * over_groups gs f c o))) as Hbranch.
  { clear -Hpw IH. intros ps s pc c po o r a Hps Hpc Hpo Hle Hr Ha. case_bool_decide as Hz.
    - subst ps. assert (s == 0) as -> by (rewrite <- (proj2 Hps); reflexivity). cbn [foldl].
      by rewrite Qmult_0_l, Qmult_0_r, Qplus_0_r.
    - rewrite Qmult_assoc in *. apply IH; [by apply reps_mul|done..]. }
  assert (reps (outage_probability g) (val (outage_probability g))) as Hro by by split.
  assert (reps (compromise_probability g) (val (compromise_probability g))) as Hrc by by split.
  pose proof (reps_complement _ _ (reps_add _ _ _ _ Hro Hrc Hs)) as Hrn.
  cbn [visit_recurse flat_map]. rewrite app_nil_r, !foldl_app.
  pose proof (over_groups_range _ _ _ _ _ Hgs Hpc Hpo ltac:(lra)) as E1.
  pose proof (over_groups_range _ _ _ _ _ Hgs Hpc Hpo' ltac:(lra)) as E2.
  pose proof (over_groups_range _ _ _ _ _ Hgs Hpc' Hpo ltac:(lra)) as E3.
  rewrite over_groups_cons in *.
  set (X1 := (1 - _) * over_groups gs f c o) in *. set (X2 := _ * over_groups gs f c (o + _)) in *.
  set (X3 := _ * over_groups gs f (c + _) o) in *.
  assert (0 <= X1) by (unfold X1; nra). assert (0 <= X2) by (unfold X2; nra).
  assert (0 <= X3) by (unfold X3; nra).
  assert (0 <= w * X1) by nra. assert (0 <= w * X2) by nra. assert (0 <= w * X3) by nra.
  assert (a + w * (X1 + (X2 + X3)) == a + w * X1 + w * X2 + w * X3) as Heq by ring.
  rewrite Heq in *. apply Hbranch; [done|done|done|lra| |done].
  apply Hbranch; [done|done|done|lra| |fold X2; lra].
  apply Hbranch; [done|done|done|lra|done|fold X1; lra].
Qed.
End groups.

(** ** Targets and the union bound *)

Ltac qminmax :=
  repeat match goal with
         | |- context [Qmin ?a ?b] => destruct (Q.min_spec a b) as [[? ->]|[? ->]]
         | |- context [Qmax ?a ?b] => destruct (Q.max_spec a b) as [[? ->]|[? ->]]
         end.

Lemma reps_capped_sum {A} (g : A → ExactProbability) (f : A → Q) l r a :
  (∀ x, x ∈ l → reps (g x) (f x)) → reps r (Qmin a 1) →
  reps (foldl (λ sum x, prob_add sum (g x)) r l) (Qmin (a + sumQ (f <$> l)) 1).
Proof.
  revert r a. induction l as [|x l IH]; intros r a Hg Hr; cbn [foldl].
  { rewrite fmap_nil, sumQ_nil, Qplus_0_r. done. }
  rewrite fmap_cons, sumQ_cons, Qplus_assoc. apply IH; [intros; apply Hg; by right|].
  assert (reps (g x) (f x)) as Hx by (apply Hg; left). pose proof (reps_range _ _ Hx).
  pose proof (reps_add_capped _ _ _ _ Hr Hx) as Ha. revert Ha. apply reps_proper; [done|].
  destruct (Q.min_spec a 1) as [[? ->]|[? ->]]; qminmax; lra.
Qed.

Lemma reps_annual_union_bound p q events :
  reps p q → (1 <= events)%Z →
  reps (annual_union_bound p events) (Qmin (inject_Z events * q) 1).
Proof.
  intros Hp He. pose proof (reps_range _ _ Hp). pose proof (val_div p (proj1 Hp)) as Hv.
  destruct Hp as [[Hn Hd] Hp]. unfold annual_union_bound.
  rewrite (proj2 (Z.eqb_neq events 0)), orb_false_r by lia.
  assert (inject_Z events * q == (numerator p * events) # Z.to_pos (denominator p)) as E.
  { rewrite frac_div, <- Hp, Hv by done. rewrite inject_Z_mult. field. by apply inject_pos. }
  destruct (Z.eqb_spec (numerator p) 0) as [Hz|Hz].
  { rewrite E, Hz. rewrite Q.min_l; [|unfold Qle; cbn; lia].
    assert ((0 * events) # Z.to_pos (denominator p) == 0) as -> by (unfold Qeq; cbn; lia). apply reps_zero. }
  destruct (Z.leb_spec (denominator p) (numerator p * events)).
  - rewrite Q.min_r; [apply reps_one|]. rewrite E. unfold Qle. cbn. rewrite Z2Pos.id by done. lia.
  - assert (inject_Z events * q <= 1) as Hle.
    { rewrite E. unfold Qle. cbn. rewrite Z2Pos.id by done. lia. }
    rewrite Q.min_l by done. apply reps_reduced; [nia|done|by symmetry|done].
Qed.

(** A selection happens at least once a year. *)
Lemma selections_positive profile :
  (0 < rotation_interval_seconds profile)%Z → (1 <= parallel_lanes profile)%Z →
  (1 <= selections_per_year profile)%Z.
Proof.
  intros Hr Hl. unfold selections_per_year.
  assert (1 <= div_ceil SECONDS_PER_YEAR (rotation_interval_seconds profile))%Z as Hd.
  { unfold div_ceil. pose proof (Z.div_mod SECONDS_PER_YEAR (rotation_interval_seconds profile) ltac:(lia)).
    pose proof (Z.mod_pos_bound SECONDS_PER_YEAR (rotation_interval_seconds profile) Hr).
    assert (0 < SECONDS_PER_YEAR)%Z by done.
    destruct (Z.ltb_spec 0 (SECONDS_PER_YEAR mod rotation_interval_seconds profile)); cbn [Z.b2z]; nia. }
  destruct (lane_model profile); [|done]. unfold saturating_mul. nia.
Qed.

(** The exact value of a double between 0 and 1. *)
Lemma reps_exact_f64 bits :
  uint 64 bits → valid_bound bits = true → reps (exact_f64_probability bits) (f64_value bits).
Proof.
  intros Hb. unfold valid_bound. rewrite !andb_true_iff, !Qle_bool_iff. intros (Hfin & H0 & H1).
  unfold exact_f64_probability, f64_eqb. rewrite Hfin. cbn [andb].
  destruct (Qeq_bool (f64_value bits) 0) eqn:E0.
  { apply Qeq_bool_iff in E0. rewrite E0. apply reps_zero. }
  destruct (Qeq_bool (f64_value bits) 1) eqn:E1.
  { apply Qeq_bool_iff in E1. rewrite E1. apply reps_one. }
  apply Qeq_bool_neq in E0. clear E1.
  change (Z.land bits (Z.shiftl 1 52 - 1)) with (f64_fraction bits).
  change (Z.land (Z.shiftr bits 52) 0x7ff) with (f64_exponent_bits bits).
  assert (0 <= f64_fraction bits < 2 ^ 52)%Z as Hfr.
  { unfold f64_fraction. change (2 ^ 52 - 1)%Z with (Z.ones 52). rewrite Z.land_ones by lia.
    apply Z.mod_pos_bound. lia. }
  assert (0 <= f64_exponent_bits bits)%Z by (apply Z.land_nonneg; right; lia).
  assert (Z.lor (f64_fraction bits) (Z.shiftl 1 52) = 2 ^ 52 + f64_fraction bits)%Z as ->.
  { rewrite Z.lor_comm, lor_shiftl_small by (done || lia). lia. }
  set (s := if (f64_exponent_bits bits =? 0)%Z then _ else _ : Z * Z).
  set (sig := if (f64_exponent_bits bits =? 0)%Z then f64_fraction bits else (2 ^ 52 + f64_fraction bits)%Z).
  set (ex := if (f64_exponent_bits bits =? 0)%Z then (-1074)%Z else (f64_exponent_bits bits - 1075)%Z).
  assert (s = (sig, ex)) as ->.
  { unfold s, sig, ex. destruct (_ =? 0)%Z; [done|]. f_equal. lia. }
  assert (0 <= sig)%Z as Hsig by (unfold sig; destruct (_ =? 0)%Z; lia).
  assert (f64_value bits == inject_Z sig * Qpower 2 ex) as Hv.
  { assert (0 <= inject_Z sig * Qpower 2 ex) as Hm.
    { apply Qmult_le_0_compat; [by apply inject_nonneg|]. apply Qpower_0_le. lra. }
    revert E0 H0. unfold f64_value, sig, ex in *. destruct (_ =? 0)%Z; cbn zeta;
      destruct (Z.testbit bits 63); intros E0 H0; try reflexivity; destruct E0; lra. }
  rewrite Hv in *. clearbody sig ex. destruct (Z.leb_spec 0 ex) as [He|He].
  - apply reps_reduced; [by apply Z.shiftl_nonneg|done| |done].
    rewrite Z.shiftl_mul_pow2, frac_div, inject_Z_mult, Zpower_Qpower by done.
    change (inject_Z 1) with 1. change (inject_Z 2) with 2. field.
  - assert (0 < 2 ^ (- ex))%Z as Hp by (apply Z.pow_pos_nonneg; lia).
    rewrite Z.shiftl_1_l. apply reps_reduced; [done..| |done].
    rewrite frac_div, Zpower_Qpower, Qpower_opp by (done || lia). change (inject_Z 2) with 2.
    field. apply Qpower_not_0. intros E; discriminate E.
Qed.

(** ** Profiles *)

(** What the types of the fields guarantee: unsigned integers and bit patterns. *)
Definition typed_prob (p : ExactProbability) : Prop := (0 <= numerator p)%Z ∧ (0 <= denominator p)%Z.
Definition typed_role (r : RoleParameters) : Prop :=
  (0 <= rp_committee_size r)%Z ∧ (0 <= rp_certificate_threshold r)%Z ∧ (0 <= rp_opening_threshold r)%Z ∧
  match rp_eligible_population r with
  | Some p => (0 <= total_members p)%Z ∧ (0 <= adversarial_members p)%Z
  | None => True
  end.
Definition typed_group (g : CorrelationGroup) : Prop :=
  typed_prob g.(member_fraction) ∧ typed_prob g.(outage_probability) ∧ typed_prob g.(compromise_probability).
Record typed_profile (P : RiskProfile) : Prop := {
  tp_work : typed_prob P.(adversarial_work_fraction);
  tp_eligible : typed_prob P.(eligible_adversarial_fraction);
  tp_online : typed_prob P.(member_online_probability);
  tp_groups : Forall typed_group P.(correlation_groups);
  tp_rotation : (0 <= rotation_interval_seconds P)%Z;
  tp_lanes : (0 <= parallel_lanes P)%Z;
  tp_security : uint 64 P.(annual_security_target);
  tp_liveness : uint 64 P.(annual_liveness_target);
  tp_roles : Forall typed_role P.(roles);
  tp_overlaps : Forall (λ o, (0 <= first_role o)%Z ∧ (0 <= second_role o)%Z ∧ (0 <= shared_members o)%Z)
                  P.(overlaps);
}.

(** What validation adds for a role. *)
Definition wf_role (r : RoleParameters) : Prop :=
  (1 <= rp_certificate_threshold r <= rp_committee_size r)%Z ∧
  (1 <= rp_opening_threshold r <= rp_committee_size r)%Z ∧ (rp_committee_size r <= 256)%Z ∧
  match rp_eligible_population r with
  | Some p => (0 < total_members p)%Z ∧ (0 <= adversarial_members p <= total_members p)%Z ∧
              (rp_committee_size r <= total_members p)%Z
  | None => True
  end.

Record valid_profile (P : RiskProfile) : Prop := {
  vp_eligible : wf_prob P.(eligible_adversarial_fraction);
  vp_online : wf_prob P.(member_online_probability);
  vp_groups : Forall wf_group P.(correlation_groups);
  vp_total : group_total P.(correlation_groups) <= 1;
  vp_roles : Forall wf_role P.(roles);
  vp_names : NoDup (rp_name <$> P.(roles));
  vp_events : (1 <= selections_per_year P)%Z;
  vp_security : valid_bound P.(annual_security_target) = true;
  vp_liveness : valid_bound P.(annual_liveness_target) = true;
  vp_overlaps : Forall (λ o, ∃ first second,
                  P.(roles) !! Z.to_nat (first_role o) = Some first ∧
                  P.(roles) !! Z.to_nat (second_role o) = Some second ∧
                  (shared_members o <= rp_committee_size first)%Z ∧
                  (shared_members o <= rp_committee_size second)%Z) P.(overlaps);
}.

Lemma validate_probability_ok p u : typed_prob p → validate_probability p = Ok u → wf_prob p.
Proof.
  intros [Hn Hd]. unfold validate_probability. destruct (Z.eqb_spec (denominator p) 0); [done|].
  destruct (Z.ltb_spec (denominator p) (numerator p)); [done|]. intros _. split; lia.
Qed.

Lemma sum_exceeds_one p q : wf_prob p → wf_prob q →
  probability_sum_exceeds_one p q = false ↔ val p + val q <= 1.
Proof.
  intros Hp Hq. unfold probability_sum_exceeds_one. rewrite Z.ltb_ge.
  destruct Hp as [? ?], Hq as [? ?]. unfold val, Qle, Qplus. cbn. rewrite Pos2Z.inj_mul, !Z2Pos.id by done. lia.
Qed.

Lemma validate_group_ok q b g q' :
  reps q b → typed_group g → validate_group q g = Ok q' →
  wf_group g ∧ b + val g.(member_fraction) <= 1 ∧ reps q' (b + val g.(member_fraction)).
Proof.
  intros Hq (Ht1 & Ht2 & Ht3). unfold validate_group. intros Hv.
  repeat (apply bind_ok in Hv as (? & ?%validate_probability_ok & Hv); [|done]).
  destruct (probability_sum_exceeds_one (outage_probability g) _) eqn:E1; [done|].
  destruct (probability_sum_exceeds_one q _) eqn:E2; [done|]. injection Hv as <-.
  apply sum_exceeds_one in E1; [|done..]. apply sum_exceeds_one in E2; [|apply Hq|done].
  rewrite (proj2 Hq) in E2. split; [by unfold wf_group|]. split; [done|]. apply reps_add; [done|by split|done].
Qed.

Lemma validate_groups_ok q b gs q' :
  reps q b → Forall typed_group gs → fold_result validate_group q gs = Ok q' →
  Forall wf_group gs ∧ b + group_total gs <= 1.
Proof.
  intros Hq Hgs. revert q b Hq. induction Hgs as [|g gs Hg Hgs IH]; intros q b Hq Hv; cbn [fold_result] in Hv.
  { split; [constructor|]. pose proof (reps_range _ _ Hq). unfold group_total. rewrite fmap_nil, sumQ_nil. lra. }
  apply bind_ok in Hv as (q1 & H1 & Hv). destruct (validate_group_ok _ _ _ _ Hq Hg H1) as (Hwf & _ & Hq1).
  destruct (IH _ _ Hq1 Hv) as [Hall Hle]. split; [by constructor|]. rewrite group_total_cons. lra.
Qed.

Lemma validate_role_ok prior r prior' :
  typed_role r → validate_role prior r = Ok prior' →
  wf_role r ∧ prior' = prior ++ [r] ∧ rp_name r ∉ rp_name <$> prior.
Proof.
  intros (H1 & H2 & H3 & H4). unfold validate_role.
  destruct (_ || _) eqn:E; [done|]. repeat (apply orb_false_iff in E as [E ?]).
  apply Z.ltb_ge in H, H5, H7. apply Z.eqb_neq in H0, H6, H8. unfold MAX_COMMITTEE_SIZE in *.
  intros Hv. apply bind_ok in Hv as (u & Hp & Hv). injection Hv as <-. split_and!; [|done|].
  - unfold wf_role. split_and!; [lia..|]. destruct (rp_eligible_population r) as [p|]; [|done].
    revert Hp. unfold validate_population. destruct (Z.eqb_spec (total_members p) 0); [done|].
    destruct (Z.ltb_spec (total_members p) (adversarial_members p)); [done|].
    destruct (Z.ltb_spec (total_members p) (rp_committee_size r)); [done|]. lia.
  - intros (p & Hn & Hin)%list_elem_of_fmap.
    assert (existsb (λ p, bool_decide (rp_name p = rp_name r)) prior = true); [|congruence].
    apply existsb_exists. exists p. split; [by apply list_elem_of_In|]. by apply bool_decide_eq_true.
Qed.

Lemma validate_roles_ok prior rs prior' :
  Forall typed_role rs → fold_result validate_role prior rs = Ok prior' →
  Forall wf_role rs ∧ (NoDup (rp_name <$> prior) → NoDup (rp_name <$> prior ++ rs)).
Proof.
  intros Hrs. revert prior. induction Hrs as [|r rs Hr Hrs IH]; intros prior Hv; cbn [fold_result] in Hv.
  { split; [constructor|]. by rewrite app_nil_r. }
  apply bind_ok in Hv as (p1 & H1 & Hv). destruct (validate_role_ok _ _ _ Hr H1) as (Hwf & -> & Hnew).
  destruct (IH _ Hv) as [Hall Hnd]. split; [by constructor|]. intros Hp.
  rewrite <- app_assoc in Hnd. apply Hnd. rewrite fmap_app. apply NoDup_app. split_and!; [done| |].
  - intros x Hx Hx'. apply list_elem_of_singleton in Hx' as ->. done.
  - apply NoDup_singleton.
Qed.

Lemma validate_profile_ok P u : typed_profile P → validate_profile P = Ok u → valid_profile P.
Proof.
  intros [] Hv. unfold validate_profile in Hv.
  apply bind_ok in Hv as (? & _ & Hv).
  apply bind_ok in Hv as (? & He%validate_probability_ok & Hv); [|done].
  apply bind_ok in Hv as (? & Ho%validate_probability_ok & Hv); [|done].
  case_bool_decide; [done|].
  destruct (_ || _) eqn:Er in Hv; [done|]. apply orb_false_iff in Er as [Hrot%Z.eqb_neq Hlane%Z.eqb_neq].
  destruct (_ <? _)%Z in Hv; [done|].
  destruct (_ || _) eqn:Eb in Hv; [done|]. apply orb_false_iff in Eb as [Hsec%negb_false_iff Hliv%negb_false_iff].
  apply bind_ok in Hv as (? & Hroles & Hv). apply validate_roles_ok in Hroles as [Hroles Hnames]; [|done].
  destruct (_ <? _)%Z in Hv; [done|]. apply bind_ok in Hv as (? & Hgroups & Hv).
  apply (validate_groups_ok _ _ _ _ reps_zero) in Hgroups as [Hgroups Htot]; [|done].
  destruct (negb _) in Hv; [done|]. apply bind_ok in Hv as (? & Hov%collect_ok & _).
  constructor; [done..|lra|done|apply Hnames; constructor|apply selections_positive; lia|done|done|].
  apply Forall_forall. intros o (i & Hi)%list_elem_of_lookup.
  destruct (Forall2_lookup_l _ _ _ _ _ Hov Hi) as (v & _ & Hov').
  unfold validate_overlap in Hov'. destruct (_ || _) in Hov'; [done|].
  destruct (roles P !! Z.to_nat (first_role o)) as [first|]; [|done].
  destruct (roles P !! Z.to_nat (second_role o)) as [second|]; [|done].
  destruct (Z.ltb_spec (Z.min (rp_committee_size first) (rp_committee_size second)) (shared_members o)); [done|].
  exists first, second. split_and!; [done..|lia|lia].
Qed.

(** ** What a report promises *)

Section references.
  Context (P : RiskProfile).
Let α : Q := val P.(eligible_adversarial_fraction).
Let online : Q := val P.(member_online_probability).

(** A member is adversarial by itself or through its compromised domain; honest
    and online if neither it nor its domain fails. *)
Definition adversarial_share (c : Q) : Q := α + (1 - α) * c.
Definition online_share (c o : Q) : Q := (1 - α) * online * (1 - (c + o)).

(** At least [t] of [n] members are adversarial. *)
Definition capture_probability (n t : nat) : Q :=
  over_groups P.(correlation_groups)
    (λ c _, bern n (adversarial_share c) (1 - adversarial_share c) (λ i, ind (t <=? i)%nat)) 0 0.
(** Fewer than [t] of [n] members are honest and online. *)
Definition starved_probability (n t : nat) : Q :=
  over_groups P.(correlation_groups)
    (λ c o, 1 - bern n (online_share c o) (1 - online_share c o) (λ i, ind (t <=? i)%nat)) 0 0.
(** Enough adversarial members to withhold a quorum of [t], or too few honest
    members online for one. *)
Definition blocking_probability (n t : nat) : Q :=
  over_groups P.(correlation_groups)
    (λ c o, draws n (adversarial_share c) (online_share c o)
              (1 - (adversarial_share c + online_share c o))
              (λ i j, ind (blocked (n - t + 1) t i j))) 0 0.
Definition overlap_probability (n1 t1 n2 t2 s : nat) : Q :=
  over_groups P.(correlation_groups) (λ c _, joint_capture n1 t1 n2 t2 s (adversarial_share c)) 0 0.

Definition role_subset_capture (r : RoleParameters) (t : Z) : option Q :=
  (λ p, subset_capture (Z.to_nat (adversarial_members p))
          (Z.to_nat (total_members p - adversarial_members p))
          (Z.to_nat (rp_committee_size r)) (Z.to_nat t)) <$> rp_eligible_population r.
Definition opt_Qmax (q : Q) (o : option Q) : Q := match o with Some x => Qmax q x | None => q end.

(** The worst of the models, for certificates and for openings. *)
Definition role_capture (r : RoleParameters) : Q :=
  let n := Z.to_nat (rp_committee_size r) in
  opt_Qmax (opt_Qmax (Qmax (capture_probability n (Z.to_nat (rp_certificate_threshold r)))
                           (capture_probability n (Z.to_nat (rp_opening_threshold r))))
              (role_subset_capture r (rp_certificate_threshold r)))
    (role_subset_capture r (rp_opening_threshold r)).
Definition role_blocking (r : RoleParameters) : Q :=
  let n := Z.to_nat (rp_committee_size r) in
  Qmax (blocking_probability n (Z.to_nat (rp_certificate_threshold r)))
       (blocking_probability n (Z.to_nat (rp_opening_threshold r))).
End references.

Definition opt_reps (p : option ExactProbability) (q : option Q) : Prop :=
  match p, q with Some p, Some q => reps p q | None, None => True | _, _ => False end.

(** Every figure of a role's report is the probability it names. *)
Record report_exact (P : RiskProfile) (r : RoleParameters) (rr : RoleRiskReport) : Prop := {
  re_policy : rr_name rr = rp_name r ∧ rr_committee_size rr = rp_committee_size r ∧
              rr_certificate_threshold rr = rp_certificate_threshold r ∧
              rr_opening_threshold rr = rp_opening_threshold r;
  re_certificate : reps (rr_correlated_certificate_capture rr)
    (capture_probability P (Z.to_nat (rp_committee_size r)) (Z.to_nat (rp_certificate_threshold r)));
  re_opening : reps (rr_correlated_opening_capture rr)
    (capture_probability P (Z.to_nat (rp_committee_size r)) (Z.to_nat (rp_opening_threshold r)));
  re_subset_certificate : opt_reps (rr_hypergeometric_certificate_capture rr)
    (role_subset_capture r (rp_certificate_threshold r));
  re_subset_opening : opt_reps (rr_hypergeometric_opening_capture rr)
    (role_subset_capture r (rp_opening_threshold r));
  re_starved : reps (rr_too_few_honest_online_for_certificate rr)
    (starved_probability P (Z.to_nat (rp_committee_size r)) (Z.to_nat (rp_certificate_threshold r)));
  re_combined : reps (rr_combined_certificate_block rr)
    (blocking_probability P (Z.to_nat (rp_committee_size r)) (Z.to_nat (rp_certificate_threshold r)));
  re_capture : reps (rr_capture_per_selection rr) (role_capture P r);
  re_blocking : reps (rr_blocking_per_selection rr) (role_blocking P r);
}.

Lemma foldl_pointwise {A B} (f g : A → B → A) a l :
  (∀ a b, f a b = g a b) → foldl f a l = foldl g a l.
Proof. intros Hfg. revert a. induction l as [|b l IH]; intros a; cbn; [done|]. by rewrite Hfg, IH. Qed.

Section exactness.
  Context (P : RiskProfile) (Hv : valid_profile P).
Let α : Q := val P.(eligible_adversarial_fraction).

Lemma reps_alpha : reps P.(eligible_adversarial_fraction) α.
Proof. split; [apply Hv | reflexivity]. Qed.
Lemma alpha_range : 0 <= α <= 1.
Proof. apply val_range, Hv. Qed.

Lemma reps_adversarial pc c : reps pc c →
  reps (prob_add P.(eligible_adversarial_fraction)
          (multiply (complement P.(eligible_adversarial_fraction)) pc)) (adversarial_share P c).
Proof.
  intros Hc. pose proof (reps_range _ _ Hc). pose proof alpha_range. pose proof reps_alpha as Ha.
  apply reps_add; [done| |fold α; nra]. apply reps_mul; [by apply reps_complement|done].
Qed.

Lemma reps_online pc c po o : reps pc c → reps po o → c + o <= 1 →
  reps (multiply (multiply (complement P.(eligible_adversarial_fraction)) P.(member_online_probability))
          (complement (prob_add pc po))) (online_share P c o).
Proof.
  intros Hc Ho Hle. apply reps_mul; [apply reps_mul|].
  - apply reps_complement, reps_alpha.
  - split; [apply Hv | reflexivity].
  - apply reps_complement. by apply reps_add.
Qed.

(** A member is in one of the classes. *)
Lemma shares_le_one c o : 0 <= c → 0 <= o → c + o <= 1 →
  adversarial_share P c + online_share P c o <= 1.
Proof.
  intros Hc Ho Hle. unfold adversarial_share, online_share. fold α.
  pose proof alpha_range. pose proof (val_range _ (vp_online P Hv)) as Hm.
  set (m := val (member_online_probability P)) in *.
  assert (0 <= (1 - α) * (1 - (c + o))) by nra.
  assert (0 <= (1 - α) * (1 - (c + o)) * (1 - m)) by nra. nra.
Qed.

(** The three correlated sums, from the one over the failure domains. *)
Lemma reps_correlated F f step :
  (∀ pc c po o, reps pc c → reps po o → c + o <= 1 → reps (F pc po) (f c o)) →
  (∀ r x, step r x = visitor F r x) →
  reps (foldl step prob_zero (visit_group_states P)) (over_groups P.(correlation_groups) f 0 0).
Proof.
  intros HF Hstep. rewrite (foldl_pointwise _ (visitor F)) by done. unfold visit_group_states.
  pose proof (vp_total P Hv).
  pose proof (over_groups_range F f HF _ _ _ _ _ (vp_groups P Hv) reps_zero reps_zero ltac:(lra)).
  assert (over_groups (correlation_groups P) f 0 0 ==
          0 + 1 * over_groups (correlation_groups P) f 0 0) as -> by ring.
  apply reps_visit; [done|apply Hv|apply reps_one|apply reps_zero..|lra|lra].
Qed.

Lemma reps_capture n t :
  reps (correlated_tail P (Z.of_nat n) (Z.of_nat t) TailAdversarial) (capture_probability P n t).
Proof.
  eapply (reps_correlated (λ pc _, binomial_tail (Z.of_nat n) (Z.of_nat t)
    (prob_add P.(eligible_adversarial_fraction)
       (multiply (complement P.(eligible_adversarial_fraction)) pc)))); [|by intros r [[? ?] ?]].
  intros pc c po o Hc _ _. by apply reps_binomial_tail, reps_adversarial.
Qed.

Lemma reps_starved n t :
  reps (correlated_tail P (Z.of_nat n) (Z.of_nat t) HonestOnlineFailure) (starved_probability P n t).
Proof.
  eapply (reps_correlated (λ pc po, complement (binomial_tail (Z.of_nat n) (Z.of_nat t)
    (multiply (multiply (complement P.(eligible_adversarial_fraction)) P.(member_online_probability))
       (complement (prob_add pc po)))))); [|by intros r [[? ?] ?]].
  intros pc c po o Hc Ho Hle. by apply reps_complement, reps_binomial_tail, reps_online.
Qed.

Lemma reps_combined_block n t : (t <= n)%nat →
  reps (correlated_combined_block P (Z.of_nat n) (Z.of_nat n - Z.of_nat t + 1) (Z.of_nat t))
    (blocking_probability P n t).
Proof.
  intros Ht. replace (Z.of_nat n - Z.of_nat t + 1)%Z with (Z.of_nat (n - t + 1)) by lia.
  eapply (reps_correlated (λ pc po, categorical_block_probability (Z.of_nat n) (Z.of_nat (n - t + 1)) (Z.of_nat t)
    (prob_add P.(eligible_adversarial_fraction)
       (multiply (complement P.(eligible_adversarial_fraction)) pc))
    (multiply (multiply (complement P.(eligible_adversarial_fraction)) P.(member_online_probability))
       (complement (prob_add pc po))))); [|by intros r [[? ?] ?]].
  intros pc c po o Hc Ho Hle. pose proof (reps_range _ _ Hc). pose proof (reps_range _ _ Ho).
  apply reps_categorical_block; [by apply reps_adversarial|by apply reps_online|apply shares_le_one; lra].
Qed.

Lemma reps_overlap n1 t1 n2 t2 s first second :
  (s <= n1)%nat → (s <= n2)%nat →
  rp_committee_size first = Z.of_nat n1 → rp_committee_size second = Z.of_nat n2 →
  reps (correlated_joint_tail P first second (Z.of_nat s) (Z.of_nat t1) (Z.of_nat t2))
    (overlap_probability P n1 t1 n2 t2 s).
Proof.
  intros H1 H2 E1 E2.
  eapply (reps_correlated (λ pc _, joint_binomial_tail (Z.of_nat n1) (Z.of_nat t1) (Z.of_nat n2) (Z.of_nat t2)
    (Z.of_nat s) (prob_add P.(eligible_adversarial_fraction)
       (multiply (complement P.(eligible_adversarial_fraction)) pc)))).
  2: { intros r [[? ?] ?]. unfold visitor. cbn [fst snd]. by rewrite E1, E2. }
  intros pc c po o Hc _ _. by apply reps_joint_tail; [apply reps_adversarial|..].
Qed.

Lemma reps_population r t :
  wf_role r → (0 <= t)%Z →
  ∃ o, opt_transpose (λ p, hypergeometric_tail p (rp_committee_size r) t) (rp_eligible_population r) = Ok o ∧
       opt_reps o (role_subset_capture r t).
Proof.
  intros (Hc & Ho & _ & Hp) Ht. unfold role_subset_capture, opt_transpose.
  destruct (rp_eligible_population r) as [[total adv]|]; [|by exists None].
  cbn [total_members adversarial_members fmap option_fmap option_map] in *.
  destruct (reps_hypergeometric (Z.to_nat adv) (Z.to_nat (total - adv)) (Z.to_nat (rp_committee_size r))
    (Z.to_nat t)) as (q & Hq & Hr); [lia..|].
  replace (Z.of_nat (Z.to_nat adv + Z.to_nat (total - adv))) with total in Hq by lia.
  rewrite !Z2Nat.id in Hq by lia. rewrite Hq. by exists (Some q).
Qed.

Lemma reps_opt_max p q o x : reps p q → opt_reps o x → reps (opt_maximum p o) (opt_Qmax q x).
Proof. intros Hp Ho. destruct o, x; try done. by apply reps_max. Qed.

Lemma assess_role_exact r : wf_role r → ∃ rr, assess_role P r = Ok rr ∧ report_exact P r rr.
Proof.
  intros Hr. pose proof Hr as (Hc & Ho & _ & _). unfold assess_role. cbn zeta.
  destruct (reps_population r (rp_certificate_threshold r)) as (hc & -> & Hhc); [done|lia|].
  destruct (reps_population r (rp_opening_threshold r)) as (ho & -> & Hho); [done|lia|].
  cbn [mbind result_bind]. eexists. split; [reflexivity|].
  assert (∀ t, (0 <= t)%Z → reps (correlated_tail P (rp_committee_size r) t TailAdversarial)
    (capture_probability P (Z.to_nat (rp_committee_size r)) (Z.to_nat t))) as Hcap.
  { intros t Ht. rewrite <- (Z2Nat.id (rp_committee_size r)), <- (Z2Nat.id t) at 1 by lia. apply reps_capture. }
  assert (∀ t, (0 <= t <= rp_committee_size r)%Z →
    reps (correlated_combined_block P (rp_committee_size r) (rp_committee_size r - t + 1) t)
      (blocking_probability P (Z.to_nat (rp_committee_size r)) (Z.to_nat t))) as Hblk.
  { intros t Ht. pose proof (reps_combined_block (Z.to_nat (rp_committee_size r)) (Z.to_nat t) ltac:(lia)) as Hb.
    by rewrite !Z2Nat.id in Hb by lia. }
  constructor; cbn -[correlated_tail correlated_combined_block]; [done|apply Hcap; lia|apply Hcap; lia|done|done| | | |].
  - rewrite <- (Z2Nat.id (rp_committee_size r)), <- (Z2Nat.id (rp_certificate_threshold r)) at 1 by lia.
    apply reps_starved.
  - apply Hblk. lia.
  - unfold role_capture. repeat apply reps_opt_max; [|done|done]. apply reps_max; apply Hcap; lia.
  - apply reps_max; apply Hblk; lia.
Qed.
End exactness.

(** ** The gate *)

Definition annual_capture (P : RiskProfile) : Q :=
  inject_Z (selections_per_year P) * sumQ (role_capture P <$> P.(roles)).
Definition annual_blocking (P : RiskProfile) : Q :=
  inject_Z (selections_per_year P) * sumQ (role_blocking P <$> P.(roles)).

(** The decision is the union bound over roles and selections, against the exact
    value of the double. *)
Lemma meets_target_spec p sum events target :
  reps p (Qmin sum 1) → 0 <= sum → (1 <= events)%Z → uint 64 target → valid_bound target = true →
  meets_target p events target = true ↔ Qmin (inject_Z events * sum) 1 <= f64_value target.
Proof.
  intros Hp Hs He Ht Hb. pose proof (reps_annual_union_bound _ _ _ Hp He) as Ha.
  pose proof (reps_exact_f64 _ Ht Hb) as Hf. unfold meets_target.
  rewrite prob_leb_spec by (apply Ha || apply Hf). rewrite (proj2 Ha), (proj2 Hf).
  assert (1 <= inject_Z events) as He' by (change 1 with (inject_Z 1); by rewrite <- Zle_Qle).
  assert (Qmin (inject_Z events * Qmin sum 1) 1 == Qmin (inject_Z events * sum) 1) as ->; [|done].
  destruct (Q.min_spec sum 1) as [[? ->]|[? ->]]; [reflexivity|]. qminmax; nra.
Qed.

Lemma collect_total {E A B} (f : A → result E B) (R : A → B → Prop) l :
  (∀ x, x ∈ l → ∃ y, f x = Ok y ∧ R x y) → ∃ ys, collect f l = Ok ys ∧ Forall2 R l ys.
Proof.
  induction l as [|x l IH]; intros Hf; [by exists []|].
  destruct (Hf x) as (y & Hy & HR); [left|]. destruct IH as (ys & Hys & HRs); [intros; apply Hf; by right|].
  exists (y :: ys). split; [|by constructor]. cbn. rewrite Hy. cbn. by rewrite Hys.
Qed.

Lemma capped_union (P : RiskProfile) (get : RoleRiskReport → ExactProbability) (f : RoleParameters → Q) rs reports :
  Forall2 (λ r rr, reps (get rr) (f r)) rs reports →
  reps (foldl (λ sum rr, prob_add sum (get rr)) prob_zero reports) (Qmin (sumQ (f <$> rs)) 1) ∧
  0 <= sumQ (f <$> rs).
Proof.
  intros Hall. split.
  - assert (foldl (λ sum rr, prob_add sum (get rr)) prob_zero reports =
            foldl (λ sum x, prob_add sum (get x.2)) prob_zero (zip rs reports)) as ->.
    { assert (reports = (zip rs reports).*2) as E by (rewrite snd_zip; [done|apply Forall2_length in Hall; lia]).
      rewrite E at 1. by rewrite foldl_fmap. }
    assert (rs = (zip rs reports).*1) as E by (rewrite fst_zip; [done|apply Forall2_length in Hall; lia]).
    rewrite E at 2. rewrite <- list_fmap_compose, <- (Qplus_0_l (sumQ _)).
    apply reps_capped_sum; [|apply reps_zero]. intros [r rr] (i & Hi)%list_elem_of_lookup.
    apply lookup_zip_Some in Hi as [H1 H2]. apply (Forall2_lookup_lr _ _ _ _ _ _ Hall H1 H2).
  - apply sumQ_nonneg. intros r (i & Hi)%list_elem_of_lookup.
    destruct (Forall2_lookup_l _ _ _ _ _ Hall Hi) as (rr & _ & Hr). apply (reps_range _ _ Hr).
Qed.

(** The report of a validated profile. *)
Lemma assess_profile_exact `{Digests} P u :
  typed_profile P → validate_profile P = Ok u →
  ∃ report,
    assess_profile P = Some (Ok report) ∧
    dr_profile_commitment report = risk_profile_commitment_validated P ∧
    Forall2 (report_exact P) P.(roles) (dr_role_reports report) ∧
    (dr_security_target_met report = true ↔
       Qmin (annual_capture P) 1 <= f64_value P.(annual_security_target)) ∧
    (dr_liveness_target_met report = true ↔
       Qmin (annual_blocking P) 1 <= f64_value P.(annual_liveness_target)).
Proof.
  intros Ht Hval. pose proof (validate_profile_ok _ _ Ht Hval) as Hv. unfold assess_profile. rewrite Hval.
  destruct (collect_total (assess_role P) (report_exact P) (roles P)) as (reports & -> & Hall).
  { intros r Hr. apply assess_role_exact; [done|]. pose proof (vp_roles P Hv) as Hw.
    rewrite Forall_forall in Hw. by apply Hw. }
  assert (∃ os, mapM (assess_overlap P) (overlaps P) = Some os) as (os & ->).
  { apply mapM_is_Some. eapply Forall_impl; [apply (vp_overlaps P Hv)|].
    intros o (first & second & E1 & E2 & _). unfold compose, assess_overlap.
    rewrite E1. cbn. rewrite E2. by eexists. }
  cbn [mbind option_bind]. eexists. split; [reflexivity|]. cbn -[meets_target]. split; [done|]. split; [done|].
  destruct (capped_union P rr_capture_per_selection (role_capture P) (roles P) reports) as [Hc Hc0].
  { eapply Forall2_impl; [exact Hall|]. by intros r rr []. }
  destruct (capped_union P rr_blocking_per_selection (role_blocking P) (roles P) reports) as [Hb Hb0].
  { eapply Forall2_impl; [exact Hall|]. by intros r rr []. }
  split; apply meets_target_spec; try done; by apply Hv || apply Ht.
Qed.

(** C30: the tails the risk tool sums are the probabilities they claim to be, with
    no rounding and no capping. For any adversarial share [a] and honest online
    share [h]: [binomial_tail] is the probability that at least [t] of [n] members
    drawn one by one are adversarial, [categorical_block_probability] that the
    committee is blocked, [joint_binomial_tail] that two committees sharing [s]
    members are both captured, and [hypergeometric_tail] the share of all subsets
    of a finite population with at least [t] adversarial members. *)
Theorem risk_tails_exact (p q : ExactProbability) (a h : Q) (n t : nat) :
  reps p a → reps q h → a + h <= 1 →
  reps (binomial_tail (Z.of_nat n) (Z.of_nat t) p) (bern n a (1 - a) (λ i, ind (t <=? i)%nat)) ∧
  (∀ bt, reps (categorical_block_probability (Z.of_nat n) (Z.of_nat bt) (Z.of_nat t) p q)
           (draws n a h (1 - (a + h)) (λ i j, ind (blocked bt t i j)))) ∧
  (∀ n2 t2 s, (s <= n)%nat → (s <= n2)%nat →
     reps (joint_binomial_tail (Z.of_nat n) (Z.of_nat t) (Z.of_nat n2) (Z.of_nat t2) (Z.of_nat s) p)
       (joint_capture n t n2 t2 s a)) ∧
  (∀ adversarial honest, (0 < adversarial + honest)%nat → (n <= adversarial + honest)%nat →
     ∃ r, hypergeometric_tail (mkEligiblePopulation (Z.of_nat (adversarial + honest)) (Z.of_nat adversarial))
            (Z.of_nat n) (Z.of_nat t) = Ok r ∧ reps r (subset_capture adversarial honest n t)).
Proof.
  intros Hp Hq Hle. split_and!.
  - by apply reps_binomial_tail.
  - intros bt. by apply reps_categorical_block.
  - intros n2 t2 s H1 H2. by apply reps_joint_tail.
  - intros adversarial honest H1 H2. by apply reps_hypergeometric.
Qed.

(** A third adversarial, a half honest and online, two of three members. *)
Lemma risk_tails_exact_witness :
  reps (binomial_tail 3 2 (mkExactProbability 1 3)) (7 # 27) ∧
  ∃ r, hypergeometric_tail (mkEligiblePopulation 5 2) 3 2 = Ok r ∧ reps r (3 # 10).
Proof.
  assert (reps (mkExactProbability 1 3) (1 # 3)) as Hp by (split; [split; cbn; lia | reflexivity]).
  assert (reps (mkExactProbability 1 2) (1 # 2)) as Hq by (split; [split; cbn; lia | reflexivity]).
  destruct (risk_tails_exact _ _ _ _ 3 2 Hp Hq ltac:(lra)) as (Ht & _ & _ & Hh). split.
  - eapply reps_proper; [reflexivity| |exact Ht]. vm_compute. reflexivity.
  - destruct (Hh 2%nat 3%nat) as (r & Hr & Hv); [lia..|]. exists r. split; [exact Hr|].
    eapply reps_proper; [reflexivity| |exact Hv]. vm_compute. reflexivity.
Defined.

(** C22: the release gate decides exactly what its contract says. For every
    profile that passes validation the assessment returns (no error, no panic) a
    report in which every role's capture and blocking probability is the one of
    the reference process under correlated failures, and the two targets are met
    exactly when the union bound over all roles and all selections of a year, at
    most 1, is at most the exact rational value of the configured double;
    [enforce_profile] passes exactly when both are. *)
Theorem risk_gate_exact `{Digests} (P : RiskProfile) :
  typed_profile P → validate_profile P = Ok tt →
  ∃ report,
    assess_profile P = Some (Ok report) ∧
    Forall2 (report_exact P) P.(roles) (dr_role_reports report) ∧
    (dr_security_target_met report = true ↔
       Qmin (annual_capture P) 1 <= f64_value P.(annual_security_target)) ∧
    (dr_liveness_target_met report = true ↔
       Qmin (annual_blocking P) 1 <= f64_value P.(annual_liveness_target)) ∧
    (enforce_profile P = Some (Ok report) ↔
       Qmin (annual_capture P) 1 <= f64_value P.(annual_security_target) ∧
       Qmin (annual_blocking P) 1 <= f64_value P.(annual_liveness_target)).
Proof.
  intros Ht Hv. destruct (assess_profile_exact P tt Ht Hv) as (report & Ha & _ & Hall & Hs & Hl).
  exists report. split_and!; [done..|]. unfold enforce_profile. rewrite Ha, <- Hs, <- Hl. cbn [mbind option_bind result_bind].
  destruct (dr_security_target_met report), (dr_liveness_target_met report); cbn [negb];
    split; (by intros [? ?]) || done.
Qed.

Module RiskDemo.
(** One committee of three with quorum two and one selection a year. *)
Definition demo_profile : RiskProfile :=
  mkRiskProfile (mkExactProbability 1 10) (mkExactProbability 1 10) (mkExactProbability 9 10)
    [mkCorrelationGroup (mkExactProbability 1 4) (mkExactProbability 1 100) (mkExactProbability 1 200)]
    SECONDS_PER_YEAR 2016 1008 1 SharedCommittee 0x3fe0000000000000 0x3fe0000000000000
    [mkRoleParameters (str "mask") 3 2 2 (Some (mkEligiblePopulation 20 2))] [].
Lemma demo_typed : typed_profile demo_profile.
Proof.
  assert (∀ a b, (0 <= a)%Z → (0 <= b)%Z → typed_prob (mkExactProbability a b)) as Hp by done.
  constructor; cbn; try by apply Hp. all: try done.
  - constructor; [|constructor]. split_and!; by apply Hp.
  - constructor; [|constructor]. unfold typed_role. cbn. lia.
Qed.
End RiskDemo.

Lemma risk_gate_exact_witness :
  ∃ report, @enforce_profile toy_digests RiskDemo.demo_profile = Some (Ok report).
Proof.
  destruct (@risk_gate_exact toy_digests RiskDemo.demo_profile RiskDemo.demo_typed) as (report & Ha & _ & _ & _ & He);
    [vm_compute; reflexivity|].
  exists report. apply He. clear. split; vm_compute; intros E; discriminate E.
Defined.
