(* ===== verification/Committee.v ===== *)
(** * Committee selection (crates/meshmine-committee/src/lib.rs)

    Eligibility snapshots, public fault exclusions, the bootstrap schedule, the
    weighted draw of a committee without replacement, verification of a proposed
    roster, the production gate and replacement after a liveness failure. *)

From S2P Require Import Prelude Codec Hash Types Objects Target Merkle.
From S2P Require Import Payout Crypto Share Risk.

Definition ELIGIBILITY_LEAF_DOMAIN : bytes := str "meshmine/eligibility-leaf/v2".
Definition ELIGIBILITY_SNAPSHOT_DOMAIN : bytes := str "meshmine/eligibility-snapshot/v2".
Definition COMMITTEE_SEED_DOMAIN : bytes := str "meshmine/committee-seed/v2".
Definition COMMITTEE_DRAW_DOMAIN : bytes := str "meshmine/committee-draw/v2".
Definition COMMITTEE_SELECTION_DOMAIN : bytes := str "meshmine/committee-selection/v2".
Definition ELIGIBILITY_FAULT_DOMAIN : bytes := str "meshmine/eligibility-fault/v2".
Definition MAX_ELIGIBILITY_LEAVES : Z := 1000000.
Definition MAX_ENTROPY_HASHES : Z := 1024.

Record EligibilityLeaf := mkEligibilityLeaf {
  el_operator_pubkey : bytes;
  el_finalized_work : U512;
  el_eligible_role_mask : Z;
}.
#[export] Instance EligibilityLeaf_eq_dec : EqDecision EligibilityLeaf.
Proof. solve_decision. Defined.

Record EligibilitySnapshot := mkEligibilitySnapshot {
  es_protocol_version : Z;
  es_network_id : Z;
  es_sequence : Z;
  es_source_start_height : Z;
  es_source_end_height : Z;
  es_finalized_at_height : Z;
  es_leaves : list EligibilityLeaf;
  es_eligibility_root : Hash256;
}.

Record SelectionContext := mkSelectionContext {
  ctx_epoch : Z;
  ctx_selection_anchor_height : Z;
  ctx_entropy_start_height : Z;
  ctx_delayed_hns_entropy : list Hash256;
  ctx_prior_threshold_beacon : Hash256;
}.

Inductive BootstrapPhase := PhaseStatic | PhaseHybrid | PhaseDynamic.
#[export] Instance BootstrapPhase_eq_dec : EqDecision BootstrapPhase.
Proof. solve_decision. Defined.
(** [phase as u8] *)
Definition phase_code (phase : BootstrapPhase) : Z :=
  match phase with PhaseStatic => 0 | PhaseHybrid => 1 | PhaseDynamic => 2 end.

Record BootstrapSchedule := mkBootstrapSchedule {
  hybrid_start_epoch : Z;
  dynamic_start_epoch : Z;
}.

Record SelectionPolicy := mkSelectionPolicy {
  pol_committee_size : Z;
  pol_certificate_threshold : Z;
  pol_opening_threshold : Z;
  pol_minimum_lookback_blocks : Z;
  pol_hybrid_static_seats : Z;
}.

Record SelectedRoster := mkSelectedRoster {
  sr_protocol_version : Z;
  sr_network_id : Z;
  sr_role : CommitteeRole;
  sr_epoch : Z;
  sr_phase : BootstrapPhase;
  sr_certificate_threshold : Z;
  sr_opening_threshold : Z;
  sr_eligibility_snapshot_id : Hash256;
  sr_eligibility_root : Hash256;
  sr_selection_seed : Hash256;
  sr_selection_transcript_hash : Hash256;
  sr_members : list bytes;
  sr_production_eligible : bool;
  sr_production_risk_profile_commitment : option Hash256;
}.
#[export] Instance SelectedRoster_eq_dec : EqDecision SelectedRoster.
Proof. solve_decision. Defined.

(** The private wrapper: only selection, verification and authorization make one. *)
Inductive VerifiedRoster := Verified (artifact : SelectedRoster).
Definition artifact (r : VerifiedRoster) : SelectedRoster := let 'Verified a := r in a.

Record LivenessFailureEvidence := mkLivenessFailureEvidence {
  lf_role : CommitteeRole;
  lf_epoch : Z;
  lf_missed_deadline_ms : Z;
  lf_unavailable_members : gset bytes;
  lf_transcript_root : Hash256;
}.

Inductive EligibilityFaultKind :=
| EarlyMaskReveal | ReceiptDoubleSign | AvailabilityFailure | SettlementDoubleSign.
#[export] Instance EligibilityFaultKind_eq_dec : EqDecision EligibilityFaultKind.
Proof. solve_decision. Defined.
(** [kind as u8]; the derived order is the order of the codes. *)
Definition kind_code (kind : EligibilityFaultKind) : Z :=
  match kind with
  | EarlyMaskReveal => 1 | ReceiptDoubleSign => 2 | AvailabilityFailure => 3 | SettlementDoubleSign => 4
  end.
#[export] Instance EligibilityFaultKind_countable : Countable EligibilityFaultKind.
Proof.
  refine (inj_countable kind_code
    (λ n, match n with
          | 1 => Some EarlyMaskReveal | 2 => Some ReceiptDoubleSign
          | 3 => Some AvailabilityFailure | 4 => Some SettlementDoubleSign | _ => None end) _).
  by intros [].
Defined.

Record EligibilityFaultEvidence := mkEligibilityFaultEvidence {
  ef_member_pubkey : bytes;
  ef_role : CommitteeRole;
  ef_kind : EligibilityFaultKind;
  ef_observed_epoch : Z;
  ef_exclusion_through_epoch : Z;
  ef_evidence_root : Hash256;
}.
#[export] Instance EligibilityFaultEvidence_eq_dec : EqDecision EligibilityFaultEvidence.
Proof. solve_decision. Defined.

Abbreviation FaultKey := (bytes * Z * EligibilityFaultKind)%type.
Record EligibilityFaultLedger := mkEligibilityFaultLedger {
  faults : gmap FaultKey EligibilityFaultEvidence;
}.
Definition EligibilityFaultLedger_default : EligibilityFaultLedger := mkEligibilityFaultLedger ∅.

Record RotationController := mkRotationController {
  rc_active : VerifiedRoster;
  rc_failures : list LivenessFailureEvidence;
}.

Inductive CommitteeError :=
| InvalidEligibilitySnapshot | EligibilityWeightOverflow | EligibilityNotDelayed | InvalidEntropyWindow
| InvalidPolicy | InsufficientEligibleOperators | RosterMismatch | CertificateContextMismatch
| CE_Certificate (e : ShareError) | ProductionGate | InvalidReplacement | ReplacementStillBlocked
| CounterOverflow | InvalidFaultEvidence.

(** ** Roles *)

(** [1 << (role_code(role) - 1)] *)
Definition role_bit (role : CommitteeRole) : Z := Z.shiftl 1 (role_code role - 1).
(** [!mask] of a [u8] *)
Definition not_u8 (mask : Z) : Z := Z.lxor 255 mask.

Definition role_tag (role : CommitteeRole) : bytes :=
  match role with
  | RoleMask => str "mask" | RoleReceipt => str "receipt" | RoleAvailability => str "availability"
  | RoleSettlement => str "settlement"
  end.

Definition role_eligible (leaf : EligibilityLeaf) (role : CommitteeRole) : bool :=
  negb (Z.land leaf.(el_eligible_role_mask) (role_bit role) =? 0).

(** ** Snapshots *)

Definition leaf_le (a b : EligibilityLeaf) : Prop := bytes_le a.(el_operator_pubkey) b.(el_operator_pubkey).
#[export] Instance leaf_le_dec : RelDecision leaf_le.
Proof. intros a b. unfold leaf_le. apply _. Defined.

Definition leaf_invalid (leaf : EligibilityLeaf) : bool :=
  forallb (λ b, bool_decide (b = x00)) leaf.(el_finalized_work)
  || (leaf.(el_eligible_role_mask) =? 0)
  || negb (Z.land leaf.(el_eligible_role_mask) (not_u8 0x0f) =? 0).

Definition validate_leaves (leaves : list EligibilityLeaf) : result CommitteeError unit :=
  if bool_decide (leaves = []) || (MAX_ELIGIBILITY_LEAVES <? len leaves)
     || windows2_any (λ a b, bytes_leb b.(el_operator_pubkey) a.(el_operator_pubkey)) leaves
     || existsb leaf_invalid leaves
  then Err InvalidEligibilitySnapshot else Ok tt.

Section Snapshots.
Context `{Digests}.

Definition leaf_id (leaf : EligibilityLeaf) : Hash256 :=
  domain_hash ELIGIBILITY_LEAF_DOMAIN
    (into_bytes (enc_fixed leaf.(el_operator_pubkey) >>> enc_fixed leaf.(el_finalized_work) >>>
                 enc_u8 leaf.(el_eligible_role_mask))).

Definition build_eligibility (protocol_version network_id sequence source_start_height source_end_height
    finalized_at_height : Z) (leaves : list EligibilityLeaf) :
    result CommitteeError EligibilitySnapshot :=
  if (source_end_height <? source_start_height) || (finalized_at_height <? source_end_height)
  then Err InvalidEligibilitySnapshot
  else
    let leaves := merge_sort leaf_le leaves in
    _ ← validate_leaves leaves;
    let eligibility_root := merkle_root_of (leaf_id <$> leaves) in
    Ok (mkEligibilitySnapshot protocol_version network_id sequence source_start_height source_end_height
          finalized_at_height leaves eligibility_root).

Definition eligibility_snapshot_id (s : EligibilitySnapshot) : Hash256 :=
  domain_hash ELIGIBILITY_SNAPSHOT_DOMAIN
    (into_bytes (enc_u16 s.(es_protocol_version) >>> enc_u8 s.(es_network_id) >>>
       enc_u64 s.(es_sequence) >>> enc_u32 s.(es_source_start_height) >>>
       enc_u32 s.(es_source_end_height) >>> enc_u32 s.(es_finalized_at_height) >>>
       enc_u64 (len s.(es_leaves)) >>> enc_fixed s.(es_eligibility_root))).

Definition verify_eligibility (s : EligibilitySnapshot) : result CommitteeError unit :=
  rebuilt ← build_eligibility s.(es_protocol_version) s.(es_network_id) s.(es_sequence)
              s.(es_source_start_height) s.(es_source_end_height) s.(es_finalized_at_height)
              s.(es_leaves);
  if bool_decide (rebuilt.(es_leaves) ≠ s.(es_leaves))
     || bool_decide (rebuilt.(es_eligibility_root) ≠ s.(es_eligibility_root))
  then Err InvalidEligibilitySnapshot else Ok tt.

(** ** Public faults *)

Definition evidence_id (e : EligibilityFaultEvidence) : Hash256 :=
  domain_hash ELIGIBILITY_FAULT_DOMAIN
    (into_bytes (enc_fixed e.(ef_member_pubkey) >>> enc_u8 (role_code e.(ef_role)) >>>
       enc_u8 (kind_code e.(ef_kind)) >>> enc_u64 e.(ef_observed_epoch) >>>
       enc_u64 e.(ef_exclusion_through_epoch) >>> enc_fixed e.(ef_evidence_root))).

Definition correct_role (kind : EligibilityFaultKind) (role : CommitteeRole) : bool :=
  match kind, role with
  | EarlyMaskReveal, RoleMask | ReceiptDoubleSign, RoleReceipt
  | AvailabilityFailure, RoleAvailability | SettlementDoubleSign, RoleSettlement => true
  | _, _ => false
  end.

Definition fault_key (e : EligibilityFaultEvidence) : FaultKey :=
  (e.(ef_member_pubkey), role_code e.(ef_role), e.(ef_kind)).

Definition record_fault (l : EligibilityFaultLedger) (evidence : EligibilityFaultEvidence) :
    result CommitteeError EligibilityFaultLedger :=
  if negb (correct_role evidence.(ef_kind) evidence.(ef_role))
     || (evidence.(ef_exclusion_through_epoch) <? evidence.(ef_observed_epoch))
     || bool_decide (evidence.(ef_evidence_root) = replicate 32 x00)
  then Err InvalidFaultEvidence
  else match l.(faults) !! fault_key evidence with
       | Some existing => if bool_decide (existing ≠ evidence) then Err InvalidFaultEvidence else Ok l
       | None => Ok (mkEligibilityFaultLedger (<[fault_key evidence := evidence]> l.(faults)))
       end.

(** [self.faults.values()]: in the order of the keys. *)
Definition fault_key_leb (a b : FaultKey) : bool :=
  bytes_ltb a.1.1 b.1.1
  || (bool_decide (a.1.1 = b.1.1)
      && ((a.1.2 <? b.1.2) || ((a.1.2 =? b.1.2) && (kind_code a.2 <=? kind_code b.2)))).
Definition fault_le (a b : FaultKey * EligibilityFaultEvidence) : Prop := fault_key_leb a.1 b.1 = true.
#[export] Instance fault_le_dec : RelDecision fault_le.
Proof. intros a b. unfold fault_le. apply _. Defined.
Definition fault_values (l : EligibilityFaultLedger) : list EligibilityFaultEvidence :=
  snd <$> merge_sort fault_le (map_to_list l.(faults)).

Definition excludes (epoch : Z) (evidence : EligibilityFaultEvidence) (leaf : EligibilityLeaf) : bool :=
  bool_decide (evidence.(ef_member_pubkey) = leaf.(el_operator_pubkey))
  && (evidence.(ef_observed_epoch) <=? epoch) && (epoch <=? evidence.(ef_exclusion_through_epoch)).
Definition apply_leaf (l : EligibilityFaultLedger) (epoch : Z) (leaf : EligibilityLeaf) : EligibilityLeaf :=
  foldl (λ leaf evidence,
    if excludes epoch evidence leaf
    then mkEligibilityLeaf leaf.(el_operator_pubkey) leaf.(el_finalized_work)
           (Z.land leaf.(el_eligible_role_mask) (not_u8 (role_bit evidence.(ef_role))))
    else leaf) leaf (fault_values l).
Definition apply_faults (l : EligibilityFaultLedger) (leaves : list EligibilityLeaf) (epoch : Z) :
    list EligibilityLeaf := apply_leaf l epoch <$> leaves.

Definition evidence_root (l : EligibilityFaultLedger) : Hash256 :=
  merkle_root_of (evidence_id <$> fault_values l).
End Snapshots.

(** ** Schedule and inputs *)

Definition phase (s : BootstrapSchedule) (epoch : Z) : result CommitteeError BootstrapPhase :=
  if (s.(hybrid_start_epoch) =? 0) || (s.(dynamic_start_epoch) <=? s.(hybrid_start_epoch))
  then Err InvalidPolicy
  else Ok (if epoch <? s.(hybrid_start_epoch) then PhaseStatic
           else if epoch <? s.(dynamic_start_epoch) then PhaseHybrid else PhaseDynamic).

Section Selection.
Context `{Digests} `{Ed25519}.

Definition validate_selection_inputs (snapshot : EligibilitySnapshot) (context : SelectionContext)
    (policy : SelectionPolicy) (schedule : BootstrapSchedule) (bootstrap_members : list bytes) :
    result CommitteeError unit :=
  ph ← phase schedule context.(ctx_epoch);
  if (policy.(pol_committee_size) =? 0)
     || (MAX_COMMITTEE_MEMBERS <? policy.(pol_committee_size))
     || (policy.(pol_certificate_threshold) =? 0)
     || (policy.(pol_committee_size) <? policy.(pol_certificate_threshold))
     || (policy.(pol_opening_threshold) =? 0)
     || (policy.(pol_committee_size) <? policy.(pol_opening_threshold))
     || (policy.(pol_committee_size) <? policy.(pol_hybrid_static_seats))
     || (bool_decide (ph = PhaseStatic) && negb (len bootstrap_members =? policy.(pol_committee_size)))
     || (bool_decide (ph = PhaseHybrid) && (len bootstrap_members <? policy.(pol_hybrid_static_seats)))
  then Err InvalidPolicy
  else
    let canonical_bootstrap := dedup (merge_sort bytes_le bootstrap_members) in
    if negb (len canonical_bootstrap =? len bootstrap_members) then Err InvalidPolicy
    else if bool_decide (ph = PhaseStatic) then Ok tt
    else
      _ ← verify_eligibility snapshot;
      delayed_at ← ok_or (checked_add 32 snapshot.(es_finalized_at_height)
                            policy.(pol_minimum_lookback_blocks)) EligibilityNotDelayed;
      if context.(ctx_selection_anchor_height) <? delayed_at then Err EligibilityNotDelayed
      else
        let count := len context.(ctx_delayed_hns_entropy) in
        _ ← ensure (count <? 2 ^ 32) InvalidEntropyWindow;
        entropy_end ← ok_or (height ← checked_add 32 context.(ctx_entropy_start_height) count;
                             checked_sub height 1) InvalidEntropyWindow;
        if bool_decide (context.(ctx_delayed_hns_entropy) = [])
           || (MAX_ENTROPY_HASHES <? count)
           || (context.(ctx_entropy_start_height) <=? snapshot.(es_finalized_at_height))
           || (context.(ctx_selection_anchor_height) <? entropy_end)
        then Err InvalidEntropyWindow else Ok tt.

Definition committee_seed (snapshot : EligibilitySnapshot) (context : SelectionContext)
    (role : CommitteeRole) : Hash256 :=
  domain_hash COMMITTEE_SEED_DOMAIN
    (into_bytes (enc_fixed (eligibility_snapshot_id snapshot) >>>
       enc_fixed snapshot.(es_eligibility_root) >>> enc_u32 context.(ctx_entropy_start_height) >>>
       enc_u64 (len context.(ctx_delayed_hns_entropy)) >>>
       enc_each enc_fixed context.(ctx_delayed_hns_entropy) >>>
       enc_fixed context.(ctx_prior_threshold_beacon) >>> enc_bytes (role_tag role) >>>
       enc_u64 context.(ctx_epoch))).

Definition bootstrap_seed (protocol_version network_id epoch : Z) (role : CommitteeRole)
    (bootstrap_members : list bytes) : Hash256 :=
  let members := merge_sort bytes_le bootstrap_members in
  domain_hash COMMITTEE_SEED_DOMAIN
    (into_bytes (enc_u16 protocol_version >>> enc_u8 network_id >>> enc_bytes (role_tag role) >>>
       enc_u64 epoch >>> enc_u64 (len members) >>> enc_each enc_fixed members)).

(** ** The weighted draw *)

Definition draw_candidate (seed : Hash256) (draw_index counter : Z) : Z :=
  of_be (blake2b_512 [into_bytes (enc_bytes COMMITTEE_DRAW_DOMAIN >>> enc_fixed seed >>>
                                  enc_u16 draw_index >>> enc_u64 counter)]).

(** The loop over counters is the one of the payout tickets, with its own error. *)
Definition draw_residue (candidate : Z → Z) (limit total : Z) : result CommitteeError (Z * Z) :=
  map_err (λ _, CounterOverflow) (ticket_residue candidate limit total).

(** [candidates.iter().position(|(_, weight)| { cumulative += weight; residue < cumulative })] *)
Fixpoint winner_position (cumulative residue : Z) (candidates : list (bytes * Z)) : option nat :=
  match candidates with
  | [] => None
  | (_, weight) :: candidates =>
      let cumulative := cumulative + weight in
      if residue <? cumulative then Some 0%nat
      else Datatypes.S <$> winner_position cumulative residue candidates
  end.

Record DrawState := mkDrawState {
  ds_candidates : list (bytes * Z);
  ds_selected : list bytes;
  ds_counters : list Z;
}.

Definition draw_step (candidate : Z → Z → Z) (st : DrawState) (draw_index : Z) :
    result CommitteeError DrawState :=
  let total := sumZ st.(ds_candidates).*2 in
  if (total =? 0) || (512 <? big_bits total) then Err EligibilityWeightOverflow
  else
    let limit := SPACE / total * total in
    '(residue, counter) ← draw_residue (candidate draw_index) limit total;
    winner_index ← ok_or (winner_position 0 residue st.(ds_candidates)) EligibilityWeightOverflow;
    winner ← ok_or (fst <$> st.(ds_candidates) !! winner_index) EligibilityWeightOverflow;
    Ok (mkDrawState (delete winner_index st.(ds_candidates)) (st.(ds_selected) ++ [winner])
          (st.(ds_counters) ++ [counter])).

Definition draw_candidates (snapshot : EligibilitySnapshot) (role : CommitteeRole) (excluded : gset bytes) :
    list (bytes * Z) :=
  filter (λ c, c.2 ≠ 0)
    ((λ leaf, (leaf.(el_operator_pubkey), of_be leaf.(el_finalized_work))) <$>
       filter (λ leaf, role_eligible leaf role = true ∧ leaf.(el_operator_pubkey) ∉ excluded)
         snapshot.(es_leaves)).

Definition weighted_draw_without_replacement (snapshot : EligibilitySnapshot) (role : CommitteeRole)
    (seed : Hash256) (count : Z) (excluded : gset bytes) :
    result CommitteeError (list bytes * list Z) :=
  let candidates := draw_candidates snapshot role excluded in
  if len candidates <? count then Err InsufficientEligibleOperators
  else
    st ← fold_result (draw_step (draw_candidate seed)) (mkDrawState candidates [] []) (seqZ 0 count);
    Ok (st.(ds_selected), st.(ds_counters)).

Definition selection_transcript (seed : Hash256) (ph : BootstrapPhase) (sorted_members : list bytes)
    (draw_records : list (bytes * Z)) : Hash256 :=
  domain_hash COMMITTEE_SELECTION_DOMAIN
    (into_bytes (enc_fixed seed >>> enc_u8 (phase_code ph) >>> enc_u64 (len draw_records) >>>
       enc_each (λ r, enc_fixed r.1 >>> enc_u64 r.2) draw_records >>>
       enc_u64 (len sorted_members) >>> enc_each enc_fixed sorted_members)).

(** The members in the order they were chosen, and the record of the draws. The
    subtraction cannot underflow: inputs are validated first. *)
Definition select_members (snapshot : EligibilitySnapshot) (role : CommitteeRole) (policy : SelectionPolicy)
    (ph : BootstrapPhase) (seed : Hash256) (bootstrap : list bytes) :
    result CommitteeError (list bytes * list (bytes * Z)) :=
  match ph with
  | PhaseStatic => Ok (bootstrap, [])
  | PhaseHybrid =>
      let selected := take (Z.to_nat policy.(pol_hybrid_static_seats)) bootstrap in
      '(dynamic, dynamic_counters) ←
        weighted_draw_without_replacement snapshot role seed
          (policy.(pol_committee_size) - policy.(pol_hybrid_static_seats)) (list_to_set selected);
      Ok (selected ++ dynamic, zip dynamic dynamic_counters)
  | PhaseDynamic =>
      '(dynamic, dynamic_counters) ←
        weighted_draw_without_replacement snapshot role seed policy.(pol_committee_size) ∅;
      Ok (dynamic, zip dynamic dynamic_counters)
  end.

Definition select_roster (snapshot : EligibilitySnapshot) (context : SelectionContext)
    (role : CommitteeRole) (policy : SelectionPolicy) (schedule : BootstrapSchedule)
    (bootstrap_members : list bytes) : result CommitteeError VerifiedRoster :=
  _ ← validate_selection_inputs snapshot context policy schedule bootstrap_members;
  ph ← phase schedule context.(ctx_epoch);
  let seed :=
    if bool_decide (ph = PhaseStatic)
    then bootstrap_seed snapshot.(es_protocol_version) snapshot.(es_network_id) context.(ctx_epoch)
           role bootstrap_members
    else committee_seed snapshot context role in
  let bootstrap := dedup (merge_sort bytes_le bootstrap_members) in
  '(selected, draw_records) ← select_members snapshot role policy ph seed bootstrap;
  let selected := merge_sort bytes_le selected in
  if negb (len selected =? policy.(pol_committee_size))
     || windows2_any (λ a b, bool_decide (a = b)) selected
  then Err InsufficientEligibleOperators
  else
    let transcript := selection_transcript seed ph selected draw_records in
    let '(snapshot_id, root) :=
      if bool_decide (ph = PhaseStatic) then (replicate 32 x00, replicate 32 x00)
      else (eligibility_snapshot_id snapshot, snapshot.(es_eligibility_root)) in
    Ok (Verified (mkSelectedRoster snapshot.(es_protocol_version) snapshot.(es_network_id) role
          context.(ctx_epoch) ph policy.(pol_certificate_threshold) policy.(pol_opening_threshold)
          snapshot_id root seed transcript selected false None)).

(** ** Rosters *)

Definition selection_id (r : SelectedRoster) : Hash256 :=
  domain_hash COMMITTEE_SELECTION_DOMAIN
    (into_bytes (enc_u16 r.(sr_protocol_version) >>> enc_u8 r.(sr_network_id) >>>
       enc_u8 (role_code r.(sr_role)) >>> enc_u64 r.(sr_epoch) >>> enc_u8 (phase_code r.(sr_phase)) >>>
       enc_u16 r.(sr_certificate_threshold) >>> enc_u16 r.(sr_opening_threshold) >>>
       enc_fixed r.(sr_eligibility_snapshot_id) >>> enc_fixed r.(sr_eligibility_root) >>>
       enc_fixed r.(sr_selection_seed) >>> enc_fixed r.(sr_selection_transcript_hash) >>>
       enc_u64 (len r.(sr_members)) >>> enc_each enc_fixed r.(sr_members))).

Definition as_share_roster (r : SelectedRoster) : CommitteeRoster :=
  mkCommitteeRoster r.(sr_protocol_version) r.(sr_network_id) r.(sr_role) r.(sr_epoch)
    r.(sr_certificate_threshold) (list_to_set r.(sr_members)).

Definition committee_id (r : SelectedRoster) : Hash256 := roster_id (as_share_roster r).

Definition trust_notice (r : SelectedRoster) : string :=
  match r.(sr_phase) with
  | PhaseStatic => "static bootstrap committee: explicitly trusted"
  | PhaseHybrid => "hybrid static and finalized-work committee"
  | PhaseDynamic => "finalized-work committee: production remains release-gated"
  end%string.

Definition verify_roster_certificate {T} `{UnsignedObject T} (r : VerifiedRoster)
    (expected_role : CommitteeRole) (expected_epoch : Z) (signer_set : SignatureSet) (object : T) :
    result CommitteeError unit :=
  if bool_decide ((artifact r).(sr_role) ≠ expected_role) || negb ((artifact r).(sr_epoch) =? expected_epoch)
  then Err CertificateContextMismatch
  else
    _ ← map_err CE_Certificate (roster_verify (as_share_roster (artifact r)) signer_set object);
    Ok tt.

Definition with_production (r : SelectedRoster) (eligible : bool) (commitment : option Hash256) :
    SelectedRoster :=
  mkSelectedRoster r.(sr_protocol_version) r.(sr_network_id) r.(sr_role) r.(sr_epoch) r.(sr_phase)
    r.(sr_certificate_threshold) r.(sr_opening_threshold) r.(sr_eligibility_snapshot_id)
    r.(sr_eligibility_root) r.(sr_selection_seed) r.(sr_selection_transcript_hash) r.(sr_members)
    eligible commitment.

Definition verify_roster (candidate : SelectedRoster) (snapshot : EligibilitySnapshot)
    (context : SelectionContext) (role : CommitteeRole) (policy : SelectionPolicy)
    (schedule : BootstrapSchedule) (bootstrap_members : list bytes) :
    result CommitteeError VerifiedRoster :=
  expected ← select_roster snapshot context role policy schedule bootstrap_members;
  let normalized := with_production candidate false None in
  if bool_decide (normalized ≠ artifact expected) then Err RosterMismatch
  else Ok (Verified normalized).

Definition authorize_production (roster : VerifiedRoster) (risk_report : DeploymentRiskReport)
    (explicit_review_release : bool) : result CommitteeError VerifiedRoster :=
  let r := artifact roster in
  match report_role risk_report (role_tag r.(sr_role)) with
  | None => Err ProductionGate
  | Some role_report =>
      if bool_decide (r.(sr_phase) ≠ PhaseDynamic)
         || r.(sr_production_eligible)
         || bool_decide (is_Some r.(sr_production_risk_profile_commitment))
         || negb risk_report.(dr_security_target_met)
         || negb risk_report.(dr_liveness_target_met)
         || negb (role_report.(rr_committee_size) =? len r.(sr_members))
         || negb (role_report.(rr_certificate_threshold) =? r.(sr_certificate_threshold))
         || negb (role_report.(rr_opening_threshold) =? r.(sr_opening_threshold))
         || negb explicit_review_release
      then Err ProductionGate
      else Ok (Verified (with_production r true (Some risk_report.(dr_profile_commitment))))
  end.

(** ** Rotation *)

Definition RotationController_new (active : VerifiedRoster) : RotationController :=
  mkRotationController active [].

(** [None]: the next epoch overflows (a panic). *)
Definition replace_after_failure (c : RotationController) (evidence : LivenessFailureEvidence)
    (replacement : VerifiedRoster) : option (result CommitteeError RotationController) :=
  let active := artifact c.(rc_active) in
  let next := artifact replacement in
  if bool_decide (evidence.(lf_role) ≠ active.(sr_role))
     || negb (evidence.(lf_epoch) =? active.(sr_epoch))
     || (evidence.(lf_missed_deadline_ms) =? 0)
     || bool_decide (evidence.(lf_unavailable_members) = ∅)
     || bool_decide (next.(sr_role) ≠ active.(sr_role))
  then Some (Err InvalidReplacement)
  else
    next_epoch ← checked_add 64 active.(sr_epoch) 1;
    if negb (next.(sr_epoch) =? next_epoch) then Some (Err InvalidReplacement)
    else
      let online := len (filter (λ member, member ∉ evidence.(lf_unavailable_members)) next.(sr_members)) in
      if online <? next.(sr_certificate_threshold) then Some (Err ReplacementStillBlocked)
      else Some (Ok (mkRotationController replacement (c.(rc_failures) ++ [evidence]))).
End Selection.
