(* ===== verification/CommitteeSafety.v ===== *)
(** * Committee selection: proofs

    The weighted draw ends and takes the candidate its digest falls on; a selected
    committee has distinct, eligible members and a quorum; recorded faults keep
    their operators out; verification never imports the production flag; a
    replacement committee can certify without the members that failed. *)

From S2P Require Import Prelude Codec Hash Types Objects Target Merkle.
From S2P Require Import Payout Crypto Share Risk RiskExact Committee.

(** ** The draw *)

Definition positive_weights (cs : list (bytes * Z)) : Prop := Forall (λ c, 0 < c.2) cs.

Lemma positive_nonneg cs : positive_weights cs → Forall (Z.le 0) cs.*2.
Proof. intros Hp. apply Forall_fmap. eapply Forall_impl; [exact Hp|]. cbn. lia. Qed.
Lemma positive_sum cs : positive_weights cs → cs ≠ [] → sumZ cs.*2 ≠ 0.
Proof.
  intros Hp Hne. destruct Hp as [|c cs Hc Hcs]; [done|]. rewrite fmap_cons, sumZ_cons.
  pose proof (sumZ_nonneg _ (positive_nonneg _ Hcs)). lia.
Qed.

(** The search stops at the first interval that holds the residue. *)
Lemma winner_position_partition run r cs :
  winner_position run r cs =
  let j := partition_point (λ upper, upper <=? r) (cumulative_sums run cs.*2) in
  if (j <? length cs)%nat then Some j else None.
Proof.
  revert run. induction cs as [|[b w] cs IH]; intros run; [done|].
  cbn [winner_position fmap list_fmap cumulative_sums snd partition_point length]. rewrite IH. cbn zeta.
  destruct (Z.ltb_spec r (run + w)), (Z.leb_spec (run + w) r); try lia; [done|].
  destruct (Nat.ltb_spec (partition_point (λ upper, upper <=? r) (cumulative_sums (run + w) cs.*2)) (length cs));
    destruct (Nat.ltb_spec (Datatypes.S (partition_point (λ upper, upper <=? r) (cumulative_sums (run + w) cs.*2)))
                (Datatypes.S (length cs))); try lia; done.
Qed.

Section Draw.
  Context (cand : Z → Z → Z).

(** One draw: the weights do not fit the digest space, no counter is accepted, or
    the winner leaves the candidates. *)
Lemma draw_step_cases st i :
  positive_weights st.(ds_candidates) →
  let cs := st.(ds_candidates) in
  (draw_step cand st i = Err EligibilityWeightOverflow ∧ (cs = [] ∨ 2 ^ 512 ≤ sumZ cs.*2)) ∨
  (draw_step cand st i = Err CounterOverflow ∧
     ∀ k, 0 ≤ k < 2 ^ 64 → SPACE / sumZ cs.*2 * sumZ cs.*2 ≤ cand i k) ∨
  (∃ w k, draw_step cand st i =
            Ok (mkDrawState (delete (picked_index cs.*2 (cand i k)) cs) (st.(ds_selected) ++ [w])
                  (st.(ds_counters) ++ [k])) ∧
          ticket_won (cand i) cs w k ∧ sumZ cs.*2 < 2 ^ 512).
Proof.
  intros Hpos. cbn zeta. unfold draw_step. set (cs := ds_candidates st) in *.
  pose proof (positive_nonneg _ Hpos) as Hw. pose proof (sumZ_nonneg _ Hw) as Hs.
  destruct (Z.eqb_spec (sumZ cs.*2) 0) as [Hz|Hz].
  { left. cbn [orb]. split; [done|]. left. destruct (decide (cs = [])); [done|]. by destruct (positive_sum cs). }
  cbn [orb]. destruct (512 <? big_bits (sumZ cs.*2)) eqn:Hb.
  { left. split; [done|]. right. destruct (Z.lt_ge_cases (sumZ cs.*2) (2 ^ 512)) as [Hlt|]; [|done].
    apply (big_bits_le _ 512) in Hlt; [congruence|lia|done]. }
  apply (big_bits_le _ 512) in Hb; [|lia|done]. right. unfold draw_residue.
  destruct (ticket_residue_total (cand i) (SPACE / sumZ cs.*2 * sumZ cs.*2) (sumZ cs.*2))
    as [(k & Hk & Hc & Hmin & ->)|[Hall ->]]; [right|by left].
  destruct (picked_bucket cs Hw Hz (cand i k)) as (b & w & Hpw & Hp). exists b, k.
  cbn -[SPACE]. rewrite winner_position_partition. cbn zeta. fold (picked_index cs.*2 (cand i k)).
  rewrite (proj2 (Nat.ltb_lt _ _)) by (by eapply lookup_lt_Some). cbn. rewrite Hp. cbn.
  split; [done|]. split; [|done]. split_and!; [lia|lia|done|done|]. by exists w.
Qed.

(** Draws one after the other, from what is left. *)
Inductive drawn : Z → list (bytes * Z) → list bytes → list Z → list (bytes * Z) → Prop :=
| drawn_nil i cs : drawn i cs [] [] cs
| drawn_cons i cs w k ws ks left_over :
    ticket_won (cand i) cs w k →
    drawn (i + 1) (delete (picked_index cs.*2 (cand i k)) cs) ws ks left_over →
    drawn i cs (w :: ws) (k :: ks) left_over.

Lemma ticket_won_leaves cs w k i :
  ticket_won (cand i) cs w k →
  ∃ x, 0 < x ∧ cs ≡ₚ (w, x) :: delete (picked_index cs.*2 (cand i k)) cs.
Proof. intros (_ & _ & _ & x & Hx & Hl). exists x. split; [done|]. by apply delete_Permutation. Qed.

Lemma drawn_permutation i cs ws ks left_over :
  drawn i cs ws ks left_over → cs.*1 ≡ₚ ws ++ left_over.*1.
Proof.
  induction 1 as [|i cs w k ws ks left_over Hw _ IH]; [done|].
  destruct (ticket_won_leaves _ _ _ _ Hw) as (x & _ & Hp). rewrite Hp at 1. cbn. by rewrite IH.
Qed.
Lemma drawn_length i cs ws ks left_over : drawn i cs ws ks left_over → length ws = length ks.
Proof. induction 1; cbn; lia. Qed.

Lemma positive_delete cs j : positive_weights cs → positive_weights (delete j cs).
Proof. apply Forall_delete. Qed.

(** A whole run of draws: it always ends, in one of three ways. *)
Lemma draw_loop n i st :
  positive_weights st.(ds_candidates) →
  let out := fold_result (draw_step cand) st (seqZ i (Z.of_nat n)) in
  let cs := st.(ds_candidates) in
  (∃ ws ks left_over, out = Ok (mkDrawState left_over (st.(ds_selected) ++ ws) (st.(ds_counters) ++ ks)) ∧
     drawn i cs ws ks left_over ∧ length ws = n) ∨
  (out = Err EligibilityWeightOverflow ∧ ((length cs < n)%nat ∨ 2 ^ 512 ≤ sumZ cs.*2)) ∨
  (out = Err CounterOverflow ∧
     ∃ j ws ks rest, i ≤ j < i + Z.of_nat n ∧ drawn i cs ws ks rest ∧
       ∀ k, 0 ≤ k < 2 ^ 64 → SPACE / sumZ rest.*2 * sumZ rest.*2 ≤ cand j k).
Proof.
  revert i st. induction n as [|n IH]; intros i st Hpos; cbn zeta.
  { left. exists [], [], (ds_candidates st). rewrite !app_nil_r. destruct st. split; [done|]. split; [constructor|done]. }
  rewrite seqZ_cons by lia. replace (Z.pred (Z.of_nat (Datatypes.S n))) with (Z.of_nat n) by lia.
  cbn [fold_result]. destruct (draw_step_cases st i Hpos) as [[-> Hov]|[[-> Hall]|(w & k & -> & Hw & Hfit)]].
  - right. left. split; [done|]. destruct Hov as [->|?]; [left; cbn; lia|by right].
  - right. right. split; [done|]. exists i, [], [], (ds_candidates st). split; [lia|]. split; [constructor|done].
  - cbn [mbind result_bind]. set (st' := mkDrawState _ _ _).
    destruct (ticket_won_leaves _ _ _ _ Hw) as (x & Hx & Hp).
    specialize (IH (i + 1) st' (positive_delete _ _ Hpos)). cbn zeta in IH.
    rewrite <- Z.add_1_r. destruct IH as [(ws & ks & lo & -> & Hd & Hl)|[[-> Hov]|(-> & j & ws & ks & rest & Hj & Hd & Hall)]].
    + left. exists (w :: ws), (k :: ks), lo. cbn [ds_selected ds_counters]. subst st'. cbn [ds_selected ds_counters].
      rewrite <- !app_assoc. split; [done|]. split; [by econstructor|]. cbn. lia.
    + right. left. split; [done|]. subst st'. cbn [ds_candidates] in Hov. destruct Hov as [Hlen|Hbig].
      * left. rewrite Hp. cbn. lia.
      * right. rewrite Hp, fmap_cons, sumZ_cons. cbn [snd]. lia.
    + right. right. split; [done|]. exists j, (w :: ws), (k :: ks), rest. split; [lia|]. split; [by econstructor|done].
Qed.
End Draw.

(** The draws are determined by the digests. *)
Lemma drawn_unique cand i cs ws ks lo ws' ks' lo' :
  drawn cand i cs ws ks lo → drawn cand i cs ws' ks' lo' → length ws = length ws' → ws = ws' ∧ ks = ks'.
Proof.
  intros Hd. revert ws' ks' lo'. induction Hd as [|i cs w k ws ks lo Hw _ IH]; intros ws' ks' lo' Hd' Hl.
  { inversion Hd'; subst; [done|]. cbn in Hl. lia. }
  inversion Hd' as [|i' cs' w' k' ws'' ks'' lo'' Hw' Hd'']; subst; cbn in Hl; [lia|].
  destruct (ticket_won_unique cs (cand i) _ _ _ _ Hw Hw') as [<- <-].
  destruct (IH _ _ _ Hd'' ltac:(lia)) as [<- <-]. done.
Qed.

(** ** Candidates *)

(** An operator of the snapshot who may serve in the role. *)
Definition eligible_operator (snapshot : EligibilitySnapshot) (role : CommitteeRole) (m : bytes) : Prop :=
  ∃ leaf, leaf ∈ snapshot.(es_leaves) ∧ leaf.(el_operator_pubkey) = m ∧ role_eligible leaf role = true ∧
          0 < of_be leaf.(el_finalized_work).

Lemma draw_candidates_positive snapshot role excluded :
  positive_weights (draw_candidates snapshot role excluded).
Proof.
  apply list.Forall_forall. intros c [Hz Hc]%list_elem_of_filter.
  apply list_elem_of_fmap in Hc as (leaf & -> & _). cbn in *.
  pose proof (of_be_range leaf.(el_finalized_work)). lia.
Qed.

Lemma draw_candidates_eligible snapshot role excluded m :
  m ∈ (draw_candidates snapshot role excluded).*1 → eligible_operator snapshot role m ∧ m ∉ excluded.
Proof.
  intros ([b w] & -> & Hc)%list_elem_of_fmap.
  pose proof (draw_candidates_positive snapshot role excluded) as Hp.
  unfold positive_weights in Hp. rewrite list.Forall_forall in Hp. pose proof (Hp _ Hc) as Hw.
  apply list_elem_of_filter in Hc as [_ Hc]. apply list_elem_of_fmap in Hc as (leaf & E & Hl).
  apply list_elem_of_filter in Hl as [[Hr Hx] Hin]. injection E as -> ->. cbn in *.
  split; [|done]. by exists leaf.
Qed.

Lemma leaves_sorted_NoDup leaves u :
  validate_leaves leaves = Ok u → NoDup (el_operator_pubkey <$> leaves).
Proof.
  unfold validate_leaves. destruct (_ || _) eqn:E; [done|]. intros _.
  repeat (apply orb_false_iff in E as [E ?]). apply windows2_any_false in H0.
  apply Sorted_lt_NoDup. clear -H0. induction H0 as [|a l Hl IH Ha]; constructor; [done|].
  destruct Ha as [|b l Hb]; constructor. by apply bytes_leb_false.
Qed.

Lemma draw_candidates_NoDup snapshot role excluded :
  NoDup (el_operator_pubkey <$> snapshot.(es_leaves)) → NoDup (draw_candidates snapshot role excluded).*1.
Proof.
  intros Hnd. eapply sublist_NoDup; [exact Hnd|]. unfold draw_candidates.
  etrans; [apply fmap_sublist, sublist_filter|].
  rewrite <- list_fmap_compose. apply fmap_sublist, sublist_filter.
Qed.

Section Selected.
Context `{Digests} `{Ed25519}.

(** The draw of a committee: it returns for every input, and says why when it
    does not return members. *)
Lemma weighted_draw_cases snapshot role seed count excluded :
  0 ≤ count →
  let cs := draw_candidates snapshot role excluded in
  let out := weighted_draw_without_replacement snapshot role seed count excluded in
  (∃ ws ks rest, out = Ok (ws, ks) ∧ drawn (draw_candidate seed) 0 cs ws ks rest ∧ len ws = count) ∨
  (out = Err InsufficientEligibleOperators ∧ len cs < count) ∨
  (out = Err EligibilityWeightOverflow ∧ 2 ^ 512 ≤ sumZ cs.*2) ∨
  (out = Err CounterOverflow ∧
     ∃ j ws ks rest, 0 ≤ j < count ∧ drawn (draw_candidate seed) 0 cs ws ks rest ∧
       ∀ k, 0 ≤ k < 2 ^ 64 → SPACE / sumZ rest.*2 * sumZ rest.*2 ≤ draw_candidate seed j k).
Proof.
  intros Hc. cbn zeta. unfold weighted_draw_without_replacement.
  set (cs := draw_candidates snapshot role excluded). cbn zeta.
  destruct (Z.ltb_spec (len cs) count) as [Hlt|Hge]; [right; left; done|].
  rewrite <- (Z2Nat.id count) by done.
  destruct (draw_loop (draw_candidate seed) (Z.to_nat count) 0 (mkDrawState cs [] []))
    as [(ws & ks & lo & -> & Hd & Hl)|[[-> Hov]|(-> & j & Hj)]]; [apply draw_candidates_positive|..]; cbn in *.
  - left. exists ws, ks, lo. split; [done|]. split; [done|]. unfold len. lia.
  - right. right. left. split; [done|]. destruct Hov as [Hl|]; [unfold len in Hge; lia|done].
  - right. right. right. split; [done|]. exists j. exact Hj.
Qed.

Lemma weighted_draw_ok snapshot role seed count excluded ws ks :
  0 ≤ count →
  weighted_draw_without_replacement snapshot role seed count excluded = Ok (ws, ks) →
  len ws = count ∧ (∃ rest, drawn (draw_candidate seed) 0 (draw_candidates snapshot role excluded) ws ks rest) ∧
  Forall (λ m, eligible_operator snapshot role m ∧ m ∉ excluded) ws.
Proof.
  intros Hc Hd. destruct (weighted_draw_cases snapshot role seed count excluded Hc)
    as [(ws' & ks' & rest & E & Hdr & Hl)|[[E _]|[[E _]|[E _]]]]; rewrite Hd in E; try done.
  injection E as <- <-. split; [done|]. split; [by exists rest|]. apply list.Forall_forall. intros m Hm.
  apply draw_candidates_eligible. rewrite (drawn_permutation _ _ _ _ _ _ Hdr). apply elem_of_app. by left.
Qed.

(** ** Snapshots and inputs *)

Lemma verify_eligibility_ok s u :
  verify_eligibility s = Ok u →
  validate_leaves s.(es_leaves) = Ok tt ∧ merge_sort leaf_le s.(es_leaves) = s.(es_leaves) ∧
  s.(es_eligibility_root) = merkle_root_of (leaf_id <$> s.(es_leaves)) ∧
  s.(es_source_start_height) ≤ s.(es_source_end_height) ≤ s.(es_finalized_at_height).
Proof.
  unfold verify_eligibility, build_eligibility. intros Hv.
  destruct (_ || _) eqn:Eh in Hv; [done|]. apply orb_false_iff in Eh as [?%Z.ltb_ge ?%Z.ltb_ge].
  apply bind_ok in Hv as (rebuilt & Hb & Hv). apply bind_ok in Hb as ([] & Hl & Hb). injection Hb as <-.
  cbn [es_leaves es_eligibility_root] in Hv. destruct (_ || _) eqn:E in Hv; [done|].
  apply orb_false_iff in E as [E1 E2]. apply bool_decide_eq_false, dec_stable in E1, E2.
  rewrite E1 in *. split_and!; [done..|lia|lia].
Qed.

(** What holds of the inputs of a selection outside the static phase. *)
Record delayed_inputs (snapshot : EligibilitySnapshot) (context : SelectionContext)
    (policy : SelectionPolicy) : Prop := {
  di_verified : verify_eligibility snapshot = Ok tt;
  di_lookback : snapshot.(es_finalized_at_height) + policy.(pol_minimum_lookback_blocks)
                  ≤ context.(ctx_selection_anchor_height);
  di_entropy : snapshot.(es_finalized_at_height) < context.(ctx_entropy_start_height);
  di_window : context.(ctx_entropy_start_height) + len context.(ctx_delayed_hns_entropy) - 1
                ≤ context.(ctx_selection_anchor_height);
  di_count : 1 ≤ len context.(ctx_delayed_hns_entropy) ≤ MAX_ENTROPY_HASHES;
}.

Record valid_inputs (snapshot : EligibilitySnapshot) (context : SelectionContext)
    (policy : SelectionPolicy) (schedule : BootstrapSchedule) (bootstrap : list bytes)
    (ph : BootstrapPhase) : Prop := {
  vi_phase : phase schedule context.(ctx_epoch) = Ok ph;
  vi_size : policy.(pol_committee_size) ≠ 0 ∧ policy.(pol_committee_size) ≤ MAX_COMMITTEE_MEMBERS;
  vi_certificate : policy.(pol_certificate_threshold) ≠ 0 ∧
                   policy.(pol_certificate_threshold) ≤ policy.(pol_committee_size);
  vi_opening : policy.(pol_opening_threshold) ≠ 0 ∧
               policy.(pol_opening_threshold) ≤ policy.(pol_committee_size);
  vi_seats : policy.(pol_hybrid_static_seats) ≤ policy.(pol_committee_size);
  vi_static : ph = PhaseStatic → len bootstrap = policy.(pol_committee_size);
  vi_hybrid : ph = PhaseHybrid → policy.(pol_hybrid_static_seats) ≤ len bootstrap;
  vi_distinct : NoDup bootstrap;
  vi_delayed : ph ≠ PhaseStatic → delayed_inputs snapshot context policy;
}.

(** Sorting and deduplicating keeps the length only of distinct keys. *)
Lemma dedup_length l : (length (dedup l) ≤ length l)%nat.
Proof.
  induction l as [|x l IH]; [done|]. destruct l as [|y l]; [done|]. rewrite dedup_cons.
  case_bool_decide; cbn [length] in *; lia.
Qed.
Lemma dedup_full l : length (dedup l) = length l → dedup l = l.
Proof.
  induction l as [|x l IH]; [done|]. destruct l as [|y l]; [done|]. rewrite dedup_cons.
  pose proof (dedup_length (y :: l)). case_bool_decide; cbn [length] in *; intros Hl; [lia|].
  f_equal. apply IH. cbn [length]. lia.
Qed.
Lemma dedup_NoDup l : NoDup l → dedup l = l.
Proof.
  induction 1 as [|x l Hx _ IH]; [done|]. destruct l as [|y l]; [done|]. rewrite dedup_cons, IH.
  rewrite bool_decide_false; [done|]. intros ->. apply Hx. left.
Qed.
Lemma dedup_merge_sort l :
  len (dedup (merge_sort bytes_le l)) = len l → NoDup l ∧ dedup (merge_sort bytes_le l) = merge_sort bytes_le l.
Proof.
  intros Hl. pose proof (merge_sort_Permutation bytes_le l) as Hp.
  assert (dedup (merge_sort bytes_le l) = merge_sort bytes_le l) as E.
  { apply dedup_full. rewrite Hp at 2. unfold len in Hl. lia. }
  split; [|done]. rewrite <- Hp, <- E. apply Sorted_lt_NoDup, dedup_sorted, Sorted_merge_sort. apply _.
Qed.

Lemma validate_selection_inputs_ok snapshot context policy schedule bootstrap u :
  validate_selection_inputs snapshot context policy schedule bootstrap = Ok u →
  ∃ ph, valid_inputs snapshot context policy schedule bootstrap ph.
Proof.
  unfold validate_selection_inputs. intros Hv. apply bind_ok in Hv as (ph & Hph & Hv). exists ph.
  destruct (_ || _) eqn:E in Hv; [done|]. repeat (apply orb_false_iff in E as [E ?]).
  apply Z.eqb_neq in E, H7, H5. apply Z.ltb_ge in H3, H4, H6, H8. 
  apply andb_false_iff in H1, H2. rewrite bool_decide_eq_false in H1, H2.
  destruct (Z.eqb_spec (len (dedup (merge_sort bytes_le bootstrap))) (len bootstrap)) as [Hd|]; [|done].
  cbn [negb] in Hv. destruct (dedup_merge_sort _ Hd) as [Hnd _].
  constructor; [done|split; lia..|done| | |done|].
  - intros ->. destruct H2 as [|Hs%negb_false_iff%Z.eqb_eq]; done.
  - intros ->. destruct H1 as [|Hs%Z.ltb_ge]; done.
  - intros Hns. rewrite bool_decide_false in Hv by done.
    apply bind_ok in Hv as ([] & Hver & Hv). apply bind_ok in Hv as (d & Hda & Hv).
    apply ok_or_ok, checked_add_some in Hda as [-> _].
    destruct (Z.ltb_spec (ctx_selection_anchor_height context)
      (es_finalized_at_height snapshot + pol_minimum_lookback_blocks policy)); [done|].
    apply bind_ok in Hv as (_ & _ & Hv). apply bind_ok in Hv as (e & He & Hv). apply ok_or_ok in He.
    destruct (_ || _) eqn:Ee in Hv; [done|]. repeat (apply orb_false_iff in Ee as [Ee ?]).
    apply Z.ltb_ge in H10, H12. apply Z.leb_gt in H11. apply bool_decide_eq_false in Ee.
    destruct (checked_add 32 _ _) as [hh|] eqn:Ea in He; [|done]. apply checked_add_some in Ea as [-> _].
    cbn in He. unfold checked_sub in He. case_match; [|done]. injection He as <-.
    constructor; [done|lia|lia|lia|]. split; [|done]. destruct (ctx_delayed_hns_entropy context) as [|x xs]; [done|].
    rewrite len_cons. pose proof (len_nonneg xs). lia.
Qed.

(** ** Selected rosters *)

(** How the members of a phase come about. *)
Definition members_of (snapshot : EligibilitySnapshot) (role : CommitteeRole) (policy : SelectionPolicy)
    (bootstrap : list bytes) (ph : BootstrapPhase) (members : list bytes) : Prop :=
  match ph with
  | PhaseStatic => members ≡ₚ bootstrap
  | PhaseHybrid => ∃ static dynamic,
      members ≡ₚ static ++ dynamic ∧ len static = policy.(pol_hybrid_static_seats) ∧
      static ⊆ bootstrap ∧ Forall (λ m, eligible_operator snapshot role m ∧ m ∉ static) dynamic
  | PhaseDynamic => Forall (eligible_operator snapshot role) members
  end.

Record sound_roster (snapshot : EligibilitySnapshot) (context : SelectionContext) (role : CommitteeRole)
    (policy : SelectionPolicy) (bootstrap : list bytes) (a : SelectedRoster) : Prop := {
  so_context : a.(sr_role) = role ∧ a.(sr_epoch) = context.(ctx_epoch) ∧
               a.(sr_network_id) = snapshot.(es_network_id) ∧
               a.(sr_protocol_version) = snapshot.(es_protocol_version);
  so_sorted : Sorted bytes_lt a.(sr_members);
  so_size : len a.(sr_members) = policy.(pol_committee_size) ∧ 1 ≤ policy.(pol_committee_size) ≤ MAX_COMMITTEE_MEMBERS;
  so_quorum : 1 ≤ a.(sr_certificate_threshold) ≤ len a.(sr_members) ∧
              1 ≤ a.(sr_opening_threshold) ≤ len a.(sr_members);
  so_members : members_of snapshot role policy bootstrap a.(sr_phase) a.(sr_members);
  so_delayed : a.(sr_phase) ≠ PhaseStatic → delayed_inputs snapshot context policy;
  so_gated : a.(sr_production_eligible) = false ∧ a.(sr_production_risk_profile_commitment) = None;
}.

(** Sizes are unsigned. *)
Definition typed_policy (p : SelectionPolicy) : Prop :=
  0 ≤ p.(pol_committee_size) ∧ 0 ≤ p.(pol_certificate_threshold) ∧ 0 ≤ p.(pol_opening_threshold) ∧
  0 ≤ p.(pol_hybrid_static_seats).

Lemma select_members_ok snapshot context role policy schedule bootstrap ph seed selected records :
  typed_policy policy → valid_inputs snapshot context policy schedule bootstrap ph →
  select_members snapshot role policy ph seed (dedup (merge_sort bytes_le bootstrap)) = Ok (selected, records) →
  members_of snapshot role policy bootstrap ph selected.
Proof.
  intros Ht Hv Hs. pose proof (merge_sort_Permutation bytes_le bootstrap) as Hp.
  assert (dedup (merge_sort bytes_le bootstrap) = merge_sort bytes_le bootstrap) as Ed.
  { apply dedup_NoDup. rewrite Hp. apply Hv. }
  rewrite Ed in Hs. destruct ph; cbn [select_members] in Hs.
  - injection Hs as <- _. done.
  - apply bind_ok in Hs as ([ws ks] & Hd & Hs). injection Hs as <- _.
    apply weighted_draw_ok in Hd as (_ & _ & Hall); [|destruct Hv; lia].
    exists (take (Z.to_nat (pol_hybrid_static_seats policy)) (merge_sort bytes_le bootstrap)), ws.
    split; [done|]. split_and!.
    + unfold len. rewrite length_take, Hp. destruct Ht as (_ & _ & _ & Ht).
      pose proof (vi_hybrid _ _ _ _ _ _ Hv eq_refl) as Hh. unfold len in Hh. lia.
    + intros m Hm. rewrite <- Hp. apply elem_of_take in Hm as (i & Hi & _). by eapply list_elem_of_lookup_2.
    + eapply Forall_impl; [exact Hall|]. intros m [He Hm]. split; [done|]. by rewrite elem_of_list_to_set in Hm.
  - apply bind_ok in Hs as ([ws ks] & Hd & Hs). injection Hs as <- _.
    apply weighted_draw_ok in Hd as (_ & _ & Hall); [|destruct Ht; lia].
    eapply Forall_impl; [exact Hall|]. by intros m [? _].
Qed.

#[local] Instance members_of_proper snapshot role policy bootstrap ph :
  Proper ((≡ₚ) ==> iff) (members_of snapshot role policy bootstrap ph).
Proof.
  intros l l' Hl. destruct ph; cbn [members_of]; [by rewrite Hl| |by rewrite Hl].
  by setoid_rewrite Hl.
Qed.

(** Sorted keys without equal neighbours increase. *)
Lemma sorted_distinct l :
  windows2_any (λ a b, bool_decide (a = b)) (merge_sort bytes_le l) = false →
  Sorted bytes_lt (merge_sort bytes_le l).
Proof.
  intros Hw%windows2_any_false. pose proof (Sorted_merge_sort bytes_le l) as Hs.
  revert Hw Hs. generalize (merge_sort bytes_le l) as k. clear. intros k Hw Hs.
  induction Hs as [|x k Hk IH Hx]; constructor; inversion Hw as [|? ? Hw1 Hw2]; subst; [by apply IH|].
  destruct Hx as [|y k Hy]; constructor. inversion Hw2 as [|? ? E]; subst. apply bool_decide_eq_false in E.
  by apply bytes_le_lt in Hy as [?|].
Qed.

Lemma select_roster_sound snapshot context role policy schedule bootstrap r :
  typed_policy policy →
  select_roster snapshot context role policy schedule bootstrap = Ok r →
  phase schedule context.(ctx_epoch) = Ok (artifact r).(sr_phase) ∧
  (artifact r).(sr_certificate_threshold) = policy.(pol_certificate_threshold) ∧
  sound_roster snapshot context role policy bootstrap (artifact r).
Proof.
  intros Ht Hs. unfold select_roster in Hs. apply bind_ok in Hs as (u & Hv & Hs).
  apply validate_selection_inputs_ok in Hv as (ph & Hv).
  rewrite (vi_phase _ _ _ _ _ _ Hv) in Hs. cbn [mbind result_bind] in Hs. cbn zeta in Hs.
  set (seed := if bool_decide (ph = PhaseStatic) then _ else _) in Hs.
  apply bind_ok in Hs as ([selected records] & Hm & Hs).
  destruct (_ || _) eqn:E in Hs; [done|]. apply orb_false_iff in E as [E Hw].
  apply negb_false_iff, Z.eqb_eq in E. apply sorted_distinct in Hw.
  apply (select_members_ok _ context _ _ schedule) in Hm; [|done..].
  destruct (if bool_decide (ph = PhaseStatic) then _ else _) as [sid root]. injection Hs as <-. cbn [artifact].
  destruct Hv as [Hph Hsz Hct Hop Hse _ _ _ Hdel], Ht as (? & ? & ? & ?).
  split; [done|]. split; [done|]. constructor; cbn; rewrite ?E; [done|done|lia|lia| |done|done].
  by rewrite (merge_sort_Permutation bytes_le selected).
Qed.

(** ** Order independence *)

Lemma merge_sort_keyed_unique (leaves leaves' : list EligibilityLeaf) :
  leaves ≡ₚ leaves' → NoDup (el_operator_pubkey <$> leaves) →
  merge_sort leaf_le leaves = merge_sort leaf_le leaves'.
Proof.
  intros Hp Hnd.
  assert (Transitive leaf_le) by (intros a b c; unfold leaf_le; apply bytes_le_trans).
  assert (Total leaf_le) by (intros a b; unfold leaf_le; apply bytes_le_total).
  pose proof (merge_sort_Permutation leaf_le leaves) as P1.
  pose proof (merge_sort_Permutation leaf_le leaves') as P2.
  eapply (StronglySorted_unique_strong leaf_le);
    [|apply StronglySorted_merge_sort; apply _..|by rewrite P1, P2].
  intros a b Ha Hb Hab Hba. rewrite P1 in Ha. rewrite P2, <- Hp in Hb.
  assert (el_operator_pubkey a = el_operator_pubkey b) as E by (by apply (anti_symm bytes_le)).
  apply list_elem_of_lookup in Ha as (i & Hi), Hb as (j & Hj).
  assert (i = j) as ->; [|congruence].
  eapply NoDup_lookup; [exact Hnd|rewrite list_lookup_fmap, Hi; done|]. rewrite list_lookup_fmap, Hj. cbn. by rewrite E.
Qed.

(** Building does not depend on the order in which the leaves arrive. *)
Lemma build_eligibility_order pv net seq a b fin leaves leaves' :
  leaves ≡ₚ leaves' →
  build_eligibility pv net seq a b fin leaves = build_eligibility pv net seq a b fin leaves'.
Proof.
  intros Hp. unfold build_eligibility. destruct (_ || _); [done|]. cbn zeta.
  destruct (decide (NoDup (el_operator_pubkey <$> leaves))) as [Hnd|Hnd].
  { by rewrite (merge_sort_keyed_unique leaves leaves'). }
  assert (∀ l, ¬ NoDup (el_operator_pubkey <$> l) →
    validate_leaves (merge_sort leaf_le l) = Err InvalidEligibilitySnapshot) as Hbad.
  { intros l Hl. destruct (validate_leaves _) as [u|e] eqn:E.
    - apply leaves_sorted_NoDup in E. rewrite (merge_sort_Permutation leaf_le l) in E. done.
    - revert E. unfold validate_leaves. destruct (_ || _); congruence. }
  rewrite !Hbad; [done| |done]. by rewrite <- Hp.
Qed.

(** A built snapshot verifies. *)
Lemma build_verifies pv net seq a b fin leaves s :
  build_eligibility pv net seq a b fin leaves = Ok s → verify_eligibility s = Ok tt.
Proof.
  unfold build_eligibility, verify_eligibility. destruct (_ || _) eqn:E; [done|]. intros Hb.
  apply bind_ok in Hb as (u & Hv & Hb). injection Hb as <-. cbn [es_leaves es_eligibility_root].
  unfold build_eligibility. cbn [es_source_start_height es_source_end_height es_finalized_at_height].
  rewrite E. cbn zeta.
  assert (merge_sort leaf_le (merge_sort leaf_le leaves) = merge_sort leaf_le leaves) as ->.
  { apply merge_sort_keyed_unique; [by apply merge_sort_Permutation|]. by eapply leaves_sorted_NoDup. }
  rewrite Hv. cbn. by rewrite !bool_decide_false by (intros []; done).
Qed.

Lemma select_roster_order snapshot context role policy schedule bootstrap bootstrap' :
  bootstrap ≡ₚ bootstrap' →
  select_roster snapshot context role policy schedule bootstrap =
  select_roster snapshot context role policy schedule bootstrap'.
Proof.
  intros Hp. assert (merge_sort bytes_le bootstrap = merge_sort bytes_le bootstrap') as E.
  { apply (Sorted_unique bytes_le); [apply Sorted_merge_sort; apply _..|].
    by rewrite !(merge_sort_Permutation bytes_le). }
  assert (len bootstrap = len bootstrap') as El by (unfold len; by rewrite Hp).
  unfold select_roster, validate_selection_inputs, bootstrap_seed. by rewrite E, El.
Qed.

(** ** Faults *)

Lemma role_code_range role : 0 ≤ role_code role - 1 < 4.
Proof. by destruct role. Qed.
Lemma role_code_inj r1 r2 : role_code r1 = role_code r2 → r1 = r2.
Proof. by destruct r1, r2. Qed.

Lemma role_eligible_testbit leaf role :
  role_eligible leaf role = Z.testbit leaf.(el_eligible_role_mask) (role_code role - 1).
Proof.
  unfold role_eligible, role_bit. pose proof (role_code_range role) as Hr.
  set (k := role_code role - 1) in *. set (m := el_eligible_role_mask leaf). rewrite Z.shiftl_1_l.
  destruct (Z.testbit m k) eqn:Hb.
  - destruct (Z.eqb_spec (Z.land m (2 ^ k)) 0) as [E|]; [|done].
    assert (Z.testbit (Z.land m (2 ^ k)) k = false) as E' by (rewrite E; apply Z.bits_0).
    rewrite Z.land_spec, Hb, Z.pow2_bits_true in E' by lia. done.
  - destruct (Z.eqb_spec (Z.land m (2 ^ k)) 0) as [E|E]; [done|]. destruct E. apply Z.bits_inj'.
    intros n Hn. rewrite Z.land_spec, Z.bits_0. destruct (decide (n = k)) as [->|Hne].
    + by rewrite Hb.
    + by rewrite Z.pow2_bits_false, andb_false_r.
Qed.

Lemma cleared_bit mask evidence_role role :
  Z.testbit (Z.land mask (not_u8 (role_bit evidence_role))) (role_code role - 1) =
  Z.testbit mask (role_code role - 1) && negb (bool_decide (evidence_role = role)).
Proof.
  pose proof (role_code_range role). unfold not_u8, role_bit.
  rewrite Z.land_spec, Z.lxor_spec, Z.shiftl_1_l. f_equal.
  destruct (decide (evidence_role = role)) as [->|Hne].
  - rewrite bool_decide_true, Z.pow2_bits_true by (done || lia). by destruct role.
  - rewrite bool_decide_false, Z.pow2_bits_false by (done || intros E; apply Hne, role_code_inj; lia).
    by destruct role.
Qed.

(** A role stays open exactly when no recorded fault closes it. *)
Definition closed_by (l : EligibilityFaultLedger) (epoch : Z) (leaf : EligibilityLeaf) (role : CommitteeRole) : bool :=
  existsb (λ e, excludes epoch e leaf && bool_decide (e.(ef_role) = role)) (fault_values l).

Lemma apply_leaf_exact l epoch leaf role :
  (apply_leaf l epoch leaf).(el_operator_pubkey) = leaf.(el_operator_pubkey) ∧
  (apply_leaf l epoch leaf).(el_finalized_work) = leaf.(el_finalized_work) ∧
  role_eligible (apply_leaf l epoch leaf) role = role_eligible leaf role && negb (closed_by l epoch leaf role).
Proof.
  unfold apply_leaf, closed_by. generalize (fault_values l) as es. intros es.
  assert (∀ acc, acc.(el_operator_pubkey) = leaf.(el_operator_pubkey) →
    let out := foldl (λ leaf evidence, if excludes epoch evidence leaf
      then mkEligibilityLeaf leaf.(el_operator_pubkey) leaf.(el_finalized_work)
             (Z.land leaf.(el_eligible_role_mask) (not_u8 (role_bit evidence.(ef_role))))
      else leaf) acc es in
    out.(el_operator_pubkey) = leaf.(el_operator_pubkey) ∧ out.(el_finalized_work) = acc.(el_finalized_work) ∧
    role_eligible out role = role_eligible acc role
      && negb (existsb (λ e, excludes epoch e leaf && bool_decide (e.(ef_role) = role)) es)) as Hgen; [|by apply Hgen].
  induction es as [|e es IH]; intros acc Hk; cbn [foldl existsb]; [by rewrite andb_true_r|].
  assert (excludes epoch e acc = excludes epoch e leaf) as -> by (unfold excludes; by rewrite Hk).
  destruct (excludes epoch e leaf); cbn [andb orb]; [|by apply IH].
  destruct (IH (mkEligibilityLeaf acc.(el_operator_pubkey) acc.(el_finalized_work)
    (Z.land acc.(el_eligible_role_mask) (not_u8 (role_bit e.(ef_role))))) Hk) as (H1' & H2' & H3').
  split; [exact H1'|]. split; [exact H2'|]. cbn zeta in H3'. rewrite H3'.
  rewrite !role_eligible_testbit. cbn [el_eligible_role_mask]. rewrite cleared_bit, negb_orb. by rewrite andb_assoc.
Qed.

Lemma fault_values_spec l e : e ∈ fault_values l ↔ ∃ k, l.(faults) !! k = Some e.
Proof.
  unfold fault_values. rewrite (merge_sort_Permutation fault_le), list_elem_of_fmap. split.
  - intros ([k e'] & -> & Hin). exists k. by apply elem_of_map_to_list.
  - intros (k & Hk). exists (k, e). split; [done|]. by apply elem_of_map_to_list.
Qed.

(** Ledgers reached by recording evidence. *)
Definition ledger_step (l l' : EligibilityFaultLedger) : Prop := ∃ e, record_fault l e = Ok l'.

Lemma record_fault_ok l e l' :
  record_fault l e = Ok l' →
  correct_role e.(ef_kind) e.(ef_role) = true ∧ e.(ef_observed_epoch) ≤ e.(ef_exclusion_through_epoch) ∧
  l'.(faults) !! fault_key e = Some e ∧ l.(faults) ⊆ l'.(faults).
Proof.
  unfold record_fault. destruct (_ || _) eqn:E; [done|].
  apply orb_false_iff in E as [[E1%negb_false_iff E2%Z.ltb_ge]%orb_false_iff _].
  destruct (faults l !! fault_key e) as [e'|] eqn:Hl.
  - case_bool_decide as Hne; [done|]. subst. intros [= <-]. done.
  - intros [= <-]. split_and!; [done..| |]; cbn [faults]; [by rewrite lookup_insert_eq|by apply insert_subseteq].
Qed.

Lemma ledger_grows l l' : rtc ledger_step l l' → l.(faults) ⊆ l'.(faults).
Proof.
  induction 1 as [|l l1 l2 (e & He) _ IH]; [done|]. apply record_fault_ok in He as (_ & _ & _ & He). by etrans.
Qed.

(** Evidence of the same kind against the same member is never replaced: a
    second fault in a later epoch is refused. *)
Lemma repeat_fault_rejected l e l' e' :
  record_fault l e = Ok l' → fault_key e' = fault_key e → e' ≠ e →
  record_fault l' e' = Err InvalidFaultEvidence.
Proof.
  intros (_ & _ & Hl & _)%record_fault_ok Hk Hne. unfold record_fault. destruct (_ || _); [done|].
  rewrite Hk, Hl. by rewrite bool_decide_true by congruence.
Qed.

(** An operator whose only role is closed stays in the leaves with an empty mask,
    and no snapshot can be built from them. *)
Lemma sole_role_blocks_snapshot l epoch leaves leaf pv net seq a b fin :
  leaf ∈ leaves → (apply_leaf l epoch leaf).(el_eligible_role_mask) = 0 →
  build_eligibility pv net seq a b fin (apply_faults l leaves epoch) = Err InvalidEligibilitySnapshot.
Proof.
  intros Hin Hz. unfold build_eligibility. destruct (_ || _); [done|]. cbn zeta.
  destruct (validate_leaves _) as [u|e] eqn:E.
  2: { unfold validate_leaves in E. destruct (_ || _) in E; [|done]. by injection E as <-. }
  exfalso. unfold validate_leaves in E. destruct (_ || _) eqn:Eb in E; [done|].
  apply orb_false_iff in Eb as [_ Eb].
  assert (existsb leaf_invalid (merge_sort leaf_le (apply_faults l leaves epoch)) = true); [|congruence].
  apply existsb_exists. exists (apply_leaf l epoch leaf). split.
  - apply list_elem_of_In. rewrite (merge_sort_Permutation leaf_le). by apply list_elem_of_fmap_2.
  - unfold leaf_invalid. by rewrite Hz, Z.eqb_refl, orb_true_r.
Qed.

Lemma build_leaves pv net seq a b fin leaves s :
  build_eligibility pv net seq a b fin leaves = Ok s →
  es_leaves s ≡ₚ leaves ∧ NoDup (el_operator_pubkey <$> leaves).
Proof.
  unfold build_eligibility. destruct (_ || _); [done|]. intros Hb. apply bind_ok in Hb as (u & Hv & Hb).
  injection Hb as <-. cbn. apply leaves_sorted_NoDup in Hv. rewrite (merge_sort_Permutation leaf_le) in Hv.
  split; [apply merge_sort_Permutation|done].
Qed.

(** No candidate for the role has a recorded fault for it. *)
Lemma closed_not_eligible l epoch leaves pv net seq a b fin s e :
  build_eligibility pv net seq a b fin (apply_faults l leaves epoch) = Ok s →
  e ∈ fault_values l → e.(ef_observed_epoch) ≤ epoch ≤ e.(ef_exclusion_through_epoch) →
  ¬ eligible_operator s e.(ef_role) e.(ef_member_pubkey).
Proof.
  intros Hb He Hep (leaf & Hin & Hk & Hr & _). apply build_leaves in Hb as [Hp _]. rewrite Hp in Hin.
  apply list_elem_of_fmap in Hin as (leaf0 & -> & _).
  destruct (apply_leaf_exact l epoch leaf0 e.(ef_role)) as (Hk0 & _ & Hr0). rewrite Hr0 in Hr.
  apply andb_true_iff in Hr as [_ Hr]. apply negb_true_iff in Hr.
  assert (closed_by l epoch leaf0 (ef_role e) = true); [|congruence].
  apply existsb_exists. exists e. split; [by apply list_elem_of_In|]. unfold excludes.
  rewrite Hk0 in Hk. rewrite !bool_decide_true by congruence. rewrite andb_true_r. cbn [andb].
  rewrite andb_true_iff, !Z.leb_le. lia.
Qed.

(** The weighted draw of a committee always ends and is exact. Draw [i] goes to
    the candidate whose weight interval holds the residue of the first accepted
    digest of index [i], among the candidates not drawn before; the members drawn
    are determined by the digests. Otherwise it reports that there are too few
    candidates, that their weights exceed the digest space, or that all 2^64
    digests of a draw were rejected. *)
Lemma committee_draw_exact snapshot role seed count excluded :
  0 ≤ count →
  let cs := draw_candidates snapshot role excluded in
  let out := weighted_draw_without_replacement snapshot role seed count excluded in
  (∃ ws ks rest, out = Ok (ws, ks) ∧ drawn (draw_candidate seed) 0 cs ws ks rest ∧ len ws = count ∧
     cs.*1 ≡ₚ ws ++ rest.*1 ∧
     ∀ ws' ks' rest', drawn (draw_candidate seed) 0 cs ws' ks' rest' → len ws' = count → ws' = ws ∧ ks' = ks) ∨
  (out = Err InsufficientEligibleOperators ∧ len cs < count) ∨
  (out = Err EligibilityWeightOverflow ∧ 2 ^ 512 ≤ sumZ cs.*2) ∨
  (out = Err CounterOverflow ∧
     ∃ j ws ks rest, 0 ≤ j < count ∧ drawn (draw_candidate seed) 0 cs ws ks rest ∧
       ∀ k, 0 ≤ k < 2 ^ 64 → SPACE / sumZ rest.*2 * sumZ rest.*2 ≤ draw_candidate seed j k).
Proof.
  intros Hc. destruct (weighted_draw_cases snapshot role seed count excluded Hc)
    as [(ws & ks & rest & Ho & Hd & Hl)|Hother]; [left|by right].
  exists ws, ks, rest. split_and!; [done..|by eapply drawn_permutation|].
  intros ws' ks' rest' Hd' Hl'. eapply drawn_unique; [done..|]. unfold len in *. lia.
Qed.

(** C21: whatever committee is selected is sound. Its members are strictly sorted,
    of the policy's number, with thresholds between one and that number; they are
    the bootstrap members (static phase), the configured number of bootstrap
    members and otherwise eligible operators (hybrid), or eligible operators only
    (dynamic). Outside the static phase the snapshot verifies, was final for the
    whole lookback, and the entropy was mined after it and before the anchor. No
    selection is production eligible, and neither the order of the bootstrap list
    nor that of the leaves changes the result. *)
Theorem committee_selection_sound snapshot context role policy schedule bootstrap r :
  typed_policy policy →
  select_roster snapshot context role policy schedule bootstrap = Ok r →
  phase schedule context.(ctx_epoch) = Ok (artifact r).(sr_phase) ∧
  sound_roster snapshot context role policy bootstrap (artifact r) ∧
  (∀ bootstrap', bootstrap ≡ₚ bootstrap' →
     select_roster snapshot context role policy schedule bootstrap' = Ok r) ∧
  (∀ pv net seq a b fin leaves leaves', leaves ≡ₚ leaves' →
     build_eligibility pv net seq a b fin leaves' = build_eligibility pv net seq a b fin leaves).
Proof.
  intros Ht Hs. destruct (select_roster_sound _ _ _ _ _ _ _ Ht Hs) as (Hph & _ & Hsound). split_and!; [done..| |].
  - intros bs' Hp. rewrite <- Hs. symmetry. by apply select_roster_order.
  - intros. symmetry. by apply build_eligibility_order.
Qed.

(** A recorded fault keeps its operator out. Once evidence is recorded, any
    later ledger applied to any leaves in an epoch of the exclusion gives a
    snapshot from which the operator is never drawn for that role; in the hybrid
    phase it can only hold a bootstrap seat. Applying the ledger closes exactly
    the roles of recorded faults and changes nothing else of a leaf. *)
Lemma faulty_operator_excluded ledger evidence ledger' later leaves epoch pv net seq a b fin snapshot
    context policy schedule bootstrap r :
  typed_policy policy →
  record_fault ledger evidence = Ok ledger' → rtc ledger_step ledger' later →
  evidence.(ef_observed_epoch) ≤ epoch ≤ evidence.(ef_exclusion_through_epoch) →
  build_eligibility pv net seq a b fin (apply_faults later leaves epoch) = Ok snapshot →
  select_roster snapshot context evidence.(ef_role) policy schedule bootstrap = Ok r →
  ((artifact r).(sr_phase) = PhaseDynamic → evidence.(ef_member_pubkey) ∉ (artifact r).(sr_members)) ∧
  (evidence.(ef_member_pubkey) ∈ (artifact r).(sr_members) → evidence.(ef_member_pubkey) ∈ bootstrap) ∧
  (∀ leaf role, role_eligible (apply_leaf later epoch leaf) role =
                role_eligible leaf role && negb (closed_by later epoch leaf role)).
Proof.
  intros Ht (_ & _ & Hrec & _)%record_fault_ok Hlater Hep Hb Hs.
  assert (evidence ∈ fault_values later) as Hin.
  { apply fault_values_spec. exists (fault_key evidence). eapply lookup_weaken; [exact Hrec|by apply ledger_grows]. }
  pose proof (closed_not_eligible _ _ _ _ _ _ _ _ _ _ _ Hb Hin Hep) as Hno.
  destruct (select_roster_sound _ _ _ _ _ _ _ Ht Hs) as (_ & _ & [_ _ _ _ Hm _ _]).
  split_and!; [| |intros; apply apply_leaf_exact].
  - intros Hph Hmem. rewrite Hph in Hm. cbn [members_of] in Hm. rewrite list.Forall_forall in Hm.
    by apply Hno, Hm.
  - intros Hmem. destruct (sr_phase (artifact r)); cbn [members_of] in Hm.
    + by rewrite <- Hm.
    + destruct Hm as (static & dynamic & Hp & _ & Hsub & Hd). rewrite Hp in Hmem.
      apply elem_of_app in Hmem as [?|Hmem]; [by apply Hsub|]. rewrite list.Forall_forall in Hd.
      exfalso. apply Hno, (Hd _ Hmem).
    + rewrite list.Forall_forall in Hm. exfalso. apply Hno, (Hm _ Hmem).
Qed.

(** ** Verification, production and replacement *)

Lemma verify_roster_ok candidate snapshot context role policy schedule bootstrap v :
  verify_roster candidate snapshot context role policy schedule bootstrap = Ok v ↔
  select_roster snapshot context role policy schedule bootstrap = Ok v ∧
  with_production candidate false None = artifact v.
Proof.
  unfold verify_roster. rewrite bind_ok. split.
  - intros (r & Hr & Hv). cbn zeta in Hv. case_bool_decide as E; [done|]. injection Hv as <-.
    cbn [artifact]. split; [|done]. rewrite Hr. destruct r as [r]. cbn in E. by rewrite E.
  - intros [Hr E]. exists v. split; [done|]. cbn zeta. rewrite bool_decide_false by auto. rewrite E. by destruct v.
Qed.

Lemma report_role_in report name rr :
  report_role report name = Some rr → rr ∈ dr_role_reports report ∧ rr_name rr = name.
Proof.
  unfold report_role. intros Hr.
  assert (rr ∈ filter (λ role, rr_name role = name) (dr_role_reports report)) as Hin.
  { destruct (filter _ _) as [|x [|y l]]; try done. injection Hr as ->. left. }
  by apply list_elem_of_filter in Hin as [? ?].
Qed.

Lemma authorize_production_ok roster report release p :
  authorize_production roster report release = Ok p →
  let r := artifact roster in
  ∃ rr, report_role report (role_tag r.(sr_role)) = Some rr ∧
    r.(sr_phase) = PhaseDynamic ∧ dr_security_target_met report = true ∧ dr_liveness_target_met report = true ∧
    rr_committee_size rr = len r.(sr_members) ∧ rr_certificate_threshold rr = r.(sr_certificate_threshold) ∧
    rr_opening_threshold rr = r.(sr_opening_threshold) ∧ release = true ∧
    artifact p = with_production r true (Some (dr_profile_commitment report)).
Proof.
  unfold authorize_production. cbn zeta. destruct (report_role _ _) as [rr|]; [|done].
  destruct (_ || _) eqn:E; [done|]. intros [= <-]. repeat (apply orb_false_iff in E as [E ?]).
  repeat match goal with
         | H : negb _ = false |- _ => apply negb_false_iff in H
         | H : (_ =? _) = true |- _ => apply Z.eqb_eq in H
         end.
  apply bool_decide_eq_false, dec_stable in E. exists rr. split_and!; done.
Qed.

(** Production follows the gate. A verified roster is exactly what selection
    computes, whatever production flags the candidate carried, and is not
    production eligible. It becomes so only when it is dynamic, its release was
    reviewed, and a report of a validated profile covers its role with the same
    size and thresholds while the yearly capture and blocking bounds of that
    profile meet their targets; the roster then carries that profile's
    commitment. *)
Lemma production_follows_gate candidate snapshot context role policy schedule bootstrap v profile report
    release p :
  typed_profile profile → assess_profile profile = Some (Ok report) →
  verify_roster candidate snapshot context role policy schedule bootstrap = Ok v →
  authorize_production v report release = Ok p →
  select_roster snapshot context role policy schedule bootstrap = Ok v ∧
  with_production candidate false None = artifact v ∧
  (artifact v).(sr_production_eligible) = false ∧
  release = true ∧ (artifact v).(sr_phase) = PhaseDynamic ∧
  artifact p = with_production (artifact v) true (Some (risk_profile_commitment_validated profile)) ∧
  (Qmin (annual_capture profile) 1 <= f64_value profile.(annual_security_target))%Q ∧
  (Qmin (annual_blocking profile) 1 <= f64_value profile.(annual_liveness_target))%Q ∧
  ∃ params, params ∈ profile.(roles) ∧ params.(rp_name) = role_tag (artifact v).(sr_role) ∧
    params.(rp_committee_size) = len (artifact v).(sr_members) ∧
    params.(rp_certificate_threshold) = (artifact v).(sr_certificate_threshold) ∧
    params.(rp_opening_threshold) = (artifact v).(sr_opening_threshold).
Proof.
  intros Ht Ha [Hsel Hn]%verify_roster_ok Hp.
  destruct (validate_profile profile) as [u|e] eqn:Hv; [|unfold assess_profile in Ha; rewrite Hv in Ha; done].
  destruct (assess_profile_exact profile u Ht Hv) as (report' & Ha' & Hc & Hall & Hs & Hl).
  rewrite Ha in Ha'. injection Ha' as <-.
  apply authorize_production_ok in Hp as (rr & Hrr & Hph & Hsec & Hliv & Hsz & Hct & Hop & -> & ->).
  apply report_role_in in Hrr as [Hin Hname]. apply list_elem_of_lookup in Hin as (i & Hi).
  destruct (Forall2_lookup_r _ _ _ _ _ Hall Hi) as (params & Hparams & [Hpol _ _ _ _ _ _ _ _]).
  rewrite Hc. split_and!; [done|done| |done|done|done|by apply Hs|by apply Hl|].
  - by rewrite <- Hn.
  - exists params. destruct Hpol as (? & ? & ? & ?). split_and!; [by eapply list_elem_of_lookup_2|congruence..].
Qed.

(** ** Replacement *)

Lemma sound_roster_validates snapshot context role policy bootstrap a :
  sound_roster snapshot context role policy bootstrap a → roster_validate (as_share_roster a) = Ok tt.
Proof.
  intros [_ Hs Hsz Hq _ _ _]. unfold roster_validate, as_share_roster. cbn [cr_members cr_threshold].
  rewrite size_list_to_set by (by apply Sorted_lt_NoDup). fold (len a.(sr_members)).
  rewrite (proj2 (Z.eqb_neq (len (sr_members a)) 0)), (proj2 (Z.ltb_ge MAX_COMMITTEE_MEMBERS _)),
    (proj2 (Z.eqb_neq (sr_certificate_threshold a) 0)), (proj2 (Z.ltb_ge (len (sr_members a)) _)) by lia. done.
Qed.

Lemma replace_after_failure_ok c evidence replacement c' :
  replace_after_failure c evidence replacement = Some (Ok c') →
  let active := artifact c.(rc_active) in let next := artifact replacement in
  evidence.(lf_role) = active.(sr_role) ∧ evidence.(lf_epoch) = active.(sr_epoch) ∧
  next.(sr_role) = active.(sr_role) ∧ next.(sr_epoch) = active.(sr_epoch) + 1 ∧
  next.(sr_certificate_threshold)
    ≤ len (filter (λ m, m ∉ evidence.(lf_unavailable_members)) next.(sr_members)) ∧
  c' = mkRotationController replacement (c.(rc_failures) ++ [evidence]).
Proof.
  unfold replace_after_failure. cbn zeta. destruct (_ || _) eqn:E; [done|].
  repeat (apply orb_false_iff in E as [E ?]). apply bool_decide_eq_false, dec_stable in E, H1.
  apply negb_false_iff, Z.eqb_eq in H4.
  destruct (checked_add 64 _ 1) as [n|] eqn:Hn; [|done]. apply checked_add_some in Hn as [-> _]. cbn.
  destruct (Z.eqb_spec (sr_epoch (artifact replacement)) (sr_epoch (artifact (rc_active c)) + 1)); [|done]. cbn.
  destruct (Z.ltb_spec (len (filter (λ m, m ∉ lf_unavailable_members evidence) (sr_members (artifact replacement))))
    (sr_certificate_threshold (artifact replacement))); [done|]. intros [= <-]. done.
Qed.
End Selected.

(** C31: replacement restores liveness. When a controller accepts a selected
    committee after a failure, the new committee is active in the next epoch of
    the same role and the failure is on record, and the members that did not fail
    suffice: their signatures on any object assemble, in any order, into a
    certificate that the active roster accepts. *)
Theorem replacement_restores_quorum `{Digests} `{Ed25519} `{!Ed25519Ok} c evidence replacement c'
    snapshot context role policy schedule bootstrap (keys : list SigningKey) :
  typed_policy policy →
  select_roster snapshot context role policy schedule bootstrap = Ok replacement →
  replace_after_failure c evidence replacement = Some (Ok c') →
  verifying_key <$> keys
    ≡ₚ filter (λ m, m ∉ evidence.(lf_unavailable_members)) (artifact replacement).(sr_members) →
  (artifact c'.(rc_active)).(sr_epoch) = (artifact c.(rc_active)).(sr_epoch) + 1 ∧
  c'.(rc_failures) = c.(rc_failures) ++ [evidence] ∧
  (∀ {T} `{UnsignedObject T} (object : T),
     verify_roster_certificate c'.(rc_active) (artifact c.(rc_active)).(sr_role)
       ((artifact c.(rc_active)).(sr_epoch) + 1)
       (committee_sign keys snapshot.(es_network_id) object) object = Ok tt).
Proof.
  intros Ht Hsel Hr Hkeys. apply replace_after_failure_ok in Hr as (_ & _ & Hrole & Hep & Hq & ->).
  destruct (select_roster_sound _ _ _ _ _ _ _ Ht Hsel) as (_ & _ & Hsound).
  pose proof (sound_roster_validates _ _ _ _ _ _ Hsound) as Hval. cbn [rc_active rc_failures].
  split; [done|]. split; [done|]. intros T HT object. unfold verify_roster_certificate.
  rewrite bool_decide_false by auto. rewrite (proj2 (Z.eqb_eq _ _) Hep). cbn [negb orb].
  assert (can_sign (as_share_roster (artifact replacement)) keys) as Hcan.
  { constructor; [done| | |].
    - rewrite Hkeys. apply NoDup_filter. apply Sorted_lt_NoDup, Hsound.
    - apply list.Forall_forall. intros key Hk. cbn [cr_members as_share_roster].
      assert (verifying_key key ∈ verifying_key <$> keys) as Hin by by apply list_elem_of_fmap_2.
      rewrite Hkeys in Hin. apply list_elem_of_filter in Hin as [_ Hin]. by apply elem_of_list_to_set.
    - cbn [cr_threshold as_share_roster]. rewrite <- (len_fmap verifying_key). unfold len in *. by rewrite Hkeys. }
  assert (snapshot.(es_network_id) = (as_share_roster (artifact replacement)).(cr_network_id)) as ->.
  { symmetry. apply Hsound. }
  rewrite (proj2 (roster_verify_ok _ _ _) (conj Hval (committee_sign_certified _ _ object Hcan))). done.
Qed.

(** ** Witnesses: four operators, committees of three with quorum two *)

Module CommitteeDemo.
#[local] Existing Instances toy_digests toy_ed25519.
Definition signer (b : byte) : SigningKey := [b].
Definition key (b : byte) : bytes := verifying_key (signer b).
Definition leaf (b : byte) (work : Z) : EligibilityLeaf := mkEligibilityLeaf (key b) (to_be 64 work) 15.
Definition leaves : list EligibilityLeaf := [leaf x04 4; leaf x01 7; leaf x03 2; leaf x02 5].
Definition fault : EligibilityFaultEvidence :=
  mkEligibilityFaultEvidence (key x02) RoleMask EarlyMaskReveal 4 9 (replicate 32 x0a).
Definition ledger : EligibilityFaultLedger :=
  match record_fault EligibilityFaultLedger_default fault with Ok l => l | Err _ => EligibilityFaultLedger_default end.
Definition snapshot : EligibilitySnapshot :=
  match build_eligibility 2 2 1 1 90 100 (apply_faults ledger leaves 5) with
  | Ok s => s
  | Err _ => mkEligibilitySnapshot 0 0 0 0 0 0 [] []
  end.
Definition context (epoch : Z) : SelectionContext :=
  mkSelectionContext epoch 130 120 [replicate 32 x0b; replicate 32 x0c] (replicate 32 x0d).
Definition policy : SelectionPolicy := mkSelectionPolicy 3 2 2 20 1.
Definition schedule : BootstrapSchedule := mkBootstrapSchedule 2 4.
Definition select (epoch : Z) : result CommitteeError VerifiedRoster :=
  select_roster snapshot (context epoch) RoleMask policy schedule [].
Definition roster (epoch : Z) : VerifiedRoster :=
  match select epoch with
  | Ok r => r
  | Err _ => Verified (mkSelectedRoster 0 0 RoleMask 0 PhaseStatic 0 0 [] [] [] [] [] false None)
  end.
Definition failure : LivenessFailureEvidence := mkLivenessFailureEvidence RoleMask 5 1000 {[key x04]} (replicate 32 x0e).

Lemma policy_typed : typed_policy policy.
Proof. unfold typed_policy. cbn. lia. Qed.
Lemma selected epoch : is_ok (select epoch) = true → select epoch = Ok (roster epoch).
Proof. unfold roster. by destruct (select epoch). Qed.
(** One dynamic mask committee of three a year, without adversaries. *)
Definition profile : RiskProfile :=
  mkRiskProfile prob_zero prob_zero prob_one [] SECONDS_PER_YEAR 2016 1008 1 SharedCommittee 0 0
    [mkRoleParameters (str "mask") 3 2 2 None] [].
Lemma profile_typed : typed_profile profile.
Proof.
  assert (typed_prob prob_zero ∧ typed_prob prob_one) as [? ?] by done.
  constructor; cbn; try done. constructor; [|constructor]. unfold typed_role. cbn. lia.
Qed.
End CommitteeDemo.

Section CommitteeWitness.
#[local] Existing Instances toy_digests toy_digests_ok toy_ed25519 toy_ed25519_ok.
Import CommitteeDemo.

Lemma committee_draw_exact_witness :
  ∃ ws ks, weighted_draw_without_replacement snapshot RoleMask (replicate 32 x01) 2 ∅ = Ok (ws, ks) ∧ len ws = 2.
Proof.
  assert (0 ≤ 2) as H2 by lia.
  pose proof (committee_draw_exact snapshot RoleMask (replicate 32 x01) 2 ∅ H2) as Hd. cbv zeta in Hd.
  destruct Hd as [(ws & ks & _ & Ho & _ & Hl & _)|Hother]; [exists ws, ks; split; [exact Ho|exact Hl]|]. exfalso.
  assert (is_ok (weighted_draw_without_replacement snapshot RoleMask (replicate 32 x01) 2 ∅) = true) as Hok
    by (vm_compute; reflexivity).
  destruct Hother as [[E _]|[[E _]|[E _]]]; rewrite E in Hok; discriminate Hok.
Defined.

Lemma committee_selection_sound_witness :
  select 5 = Ok (roster 5) ∧ len (artifact (roster 5)).(sr_members) = 3.
Proof.
  assert (select 5 = Ok (roster 5)) as Hs by (apply selected; vm_compute; reflexivity). split; [exact Hs|].
  destruct (committee_selection_sound _ _ _ _ _ _ _ policy_typed Hs) as (_ & [_ _ [Hl _] _ _ _ _] & _). exact Hl.
Defined.

Lemma faulty_operator_excluded_witness :
  record_fault EligibilityFaultLedger_default fault = Ok ledger ∧
  fault.(ef_member_pubkey) ∉ (artifact (roster 5)).(sr_members).
Proof.
  assert (record_fault EligibilityFaultLedger_default fault = Ok ledger) as Hrec.
  { unfold ledger. destruct (record_fault _ _) eqn:E; [reflexivity|]. exfalso.
    assert (is_ok (record_fault EligibilityFaultLedger_default fault) = true) as Hok by (vm_compute; reflexivity).
    rewrite E in Hok. discriminate Hok. }
  assert (build_eligibility 2 2 1 1 90 100 (apply_faults ledger leaves 5) = Ok snapshot) as Hb.
  { unfold snapshot. destruct (build_eligibility _ _ _ _ _ _ _) eqn:E; [reflexivity|]. exfalso.
    assert (is_ok (build_eligibility 2 2 1 1 90 100 (apply_faults ledger leaves 5)) = true) as Hok
      by (vm_compute; reflexivity).
    rewrite E in Hok. discriminate Hok. }
  assert (select 5 = Ok (roster 5)) as Hs by (apply selected; vm_compute; reflexivity).
  split; [exact Hrec|].
  eapply (faulty_operator_excluded _ fault ledger ledger leaves 5); [exact policy_typed|exact Hrec|reflexivity| |exact Hb|exact Hs|].
  - cbn. lia.
  - vm_compute. reflexivity.
Defined.

Lemma production_follows_gate_witness :
  ∃ report p, assess_profile profile = Some (Ok report) ∧
    authorize_production (roster 5) report true = Ok p ∧ (artifact (roster 5)).(sr_phase) = PhaseDynamic.
Proof.
  assert (select 5 = Ok (roster 5)) as Hs by (apply selected; vm_compute; reflexivity).
  assert (is_ok (verify_roster (artifact (roster 5)) snapshot (context 5) RoleMask policy schedule []) = true) as Hv
    by (vm_compute; reflexivity).
  destruct (verify_roster (artifact (roster 5)) snapshot (context 5) RoleMask policy schedule []) as [v|] eqn:Ev;
    [|discriminate Hv]. clear Hv.
  assert (v = roster 5) as -> by (apply verify_roster_ok in Ev as [Ev _]; unfold select in Hs; congruence).
  destruct (assess_profile profile) as [[report|e]|] eqn:Ea; [|vm_compute in Ea; discriminate Ea..].
  assert (is_ok (authorize_production (roster 5) report true) = true) as Hok.
  { vm_compute in Ea. injection Ea as <-. vm_compute. reflexivity. }
  destruct (authorize_production (roster 5) report true) as [p|] eqn:Ep; [|discriminate Hok].
  exists report, p. split; [reflexivity|]. split; [exact Ep|].
  apply (production_follows_gate _ _ _ _ _ _ _ _ _ _ _ _ profile_typed Ea Ev Ep).
Defined.

Lemma replacement_restores_quorum_witness :
  ∃ c', replace_after_failure (RotationController_new (roster 5)) failure (roster 6) = Some (Ok c') ∧
    (artifact c'.(rc_active)).(sr_epoch) = 6.
Proof.
  assert (select 6 = Ok (roster 6)) as Hs by (apply selected; vm_compute; reflexivity).
  destruct (replace_after_failure (RotationController_new (roster 5)) failure (roster 6)) as [[c'|e]|] eqn:Er;
    [|vm_compute in Er; discriminate Er..].
  exists c'. split; [reflexivity|].
  apply (replacement_restores_quorum _ _ _ _ _ _ _ _ _ _ [signer x01; signer x03] policy_typed Hs Er).
  vm_compute. reflexivity.
Defined.
End CommitteeWitness.
