(* ===== verification/Availability.v ===== *)
(** * Body availability (crates/meshmine-body/src/availability.rs)

    Erasure-coded bodies with Merkle proofs per shard, their reconstruction,
    retrieval challenges, durable persistence, admission control and retention.
    The Reed-Solomon crate is the class [ErasureCode]. *)

From S2P Require Import Prelude Codec Hash Types Objects Target Merkle Storage Journal.
From S2P Require Import Payout.

(** ** The erasure code *)

(** [ReedSolomon::new(data, parity)] and, on its result, [encode] and
    [reconstruct]; an error is its text. *)
Class ErasureCode := {
  rs_new : nat → nat → result bytes unit;
  rs_encode : nat → nat → list bytes → result bytes (list bytes);
  rs_reconstruct : nat → nat → list (option bytes) → result bytes (list (option bytes));
}.

(** What the crate documents: encoding equally long, nonempty shards keeps the
    data shards and fills in the parity shards; from any [data] shards of an
    encoding the others are reconstructed. *)
Class ErasureCodeOk `{ErasureCode} : Prop := {
  rs_encode_ok data parity size shards :
    rs_new data parity = Ok tt → (0 < size)%nat → length shards = (data + parity)%nat →
    Forall (λ s, length s = size) shards →
    ∃ out, rs_encode data parity shards = Ok out ∧ length out = (data + parity)%nat ∧
           Forall (λ s, length s = size) out ∧ take data out = take data shards;
  rs_reconstruct_ok data parity size shards out (partial : list (option bytes)) :
    rs_new data parity = Ok tt → (0 < size)%nat → length shards = (data + parity)%nat →
    Forall (λ s, length s = size) shards → rs_encode data parity shards = Ok out →
    Forall2 (λ p s, p = None ∨ p = Some s) partial out →
    (data ≤ length (omap id partial))%nat →
    rs_reconstruct data parity partial = Ok (Some <$> out);
}.

Definition SHARD_DOMAIN : bytes := str "meshmine/body-shard/v2".
Definition CHALLENGE_DOMAIN : bytes := str "meshmine/body-challenge/v2".

Record ShardProof := mkShardProof {
  spf_shard_index : Z;
  spf_total_shards : Z;
  spf_siblings : list Hash256;
}.
Record StoredShard := mkStoredShard {
  ssh_index : Z;
  ssh_bytes : bytes;
  ssh_proof : ShardProof;
}.
Record EncodedBody := mkEncodedBody {
  eb_descriptor : BodyErasureDescriptorV2;
  eb_shards : list StoredShard;
}.
Record RetrievalChallenge := mkRetrievalChallenge {
  rch_descriptor_id : Hash256;
  rch_challenge_round : Z;
  rch_shard_indices : list Z;
}.
Record AdmissionLimits := mkAdmissionLimits {
  al_max_package_size : Z;
  al_max_pending_bytes : Z;
  al_max_pending_per_operator : Z;
  al_max_total_shards : Z;
}.
Record AdmissionPolicy := mkAdmissionPolicy {
  ap_bootstrap_allowlist : gset bytes;
  ap_accepted_service_receipts : gset Hash256;
  ap_minimum_request_stamp_zero_bits : Z;
}.
Inductive AdmissionCredential :=
| BootstrapAllowlist
| WorkStamp (nonce : Z)
| ServiceReceipt (receipt_id : Hash256).
Record AvailabilityRetentionPolicy := mkAvailabilityRetentionPolicy {
  arp_reorganization_horizon : Z;
  arp_audit_retention_blocks : Z;
}.
Record AvailabilitySettlementState := mkAvailabilitySettlementState {
  ass_parent_height : Z;
  ass_session_closed : bool;
  ass_mask_opened : bool;
  ass_discovered_block_safely_propagated : bool;
  ass_storage_compensation_end_height : Z;
  ass_audit_retention_end_height : Z;
}.
Record AdmissionController := mkAdmissionController {
  adm_seen : gset Hash256;
  adm_spent_service_receipts : gset Hash256;
  adm_pending_by_operator : gmap bytes Z;
  adm_pending_bytes : Z;
  adm_invalid_strikes : gmap bytes Z;
  adm_banned_until_height : gmap bytes Z;
}.
Definition AdmissionController_default : AdmissionController := mkAdmissionController ∅ ∅ ∅ 0 ∅ ∅.

Inductive AvailabilityError :=
| InvalidParameters (data parity : Z)
| PackageTooLarge
| ReedSolomonError (error : bytes)
| InsufficientShards
| InvalidShardLength (index : Z)
| InvalidShardProof (index : Z)
| ShardOutOfRange (index : Z)
| DuplicateShard (index : Z)
| InvalidReconstructedSize
| DuplicateBody
| AdmissionPackageSize
| AdmissionByteBudget
| AdmissionOperatorQuota
| AdmissionShardLimit
| AdmissionCredentialRejected
| AdmissionBanned.

Inductive BodyPersistenceError :=
| DescriptorMismatch
| BPE_Durable (e : DurableInvariantError).

(** ** Retention *)

Definition may_prune (p : AvailabilityRetentionPolicy) (descriptor : BodyErasureDescriptorV2)
    (state : AvailabilitySettlementState) (canonical_height : Z) : bool :=
  let reorg_end := saturating_add 32 state.(ass_parent_height) p.(arp_reorganization_horizon) in
  let audit_end := saturating_add 32 state.(ass_audit_retention_end_height) p.(arp_audit_retention_blocks) in
  state.(ass_session_closed) && state.(ass_mask_opened)
  && state.(ass_discovered_block_safely_propagated)
  && (descriptor.(bed_expiry_height) <=? canonical_height)
  && (reorg_end <=? canonical_height)
  && (state.(ass_storage_compensation_end_height) <=? canonical_height)
  && (audit_end <=? canonical_height).

Section Availability.
Context `{Digests} `{ErasureCode}.

(** ** Shard proofs *)

Definition shard_leaf (body_id : Hash256) (index : Z) (shard : bytes) : Hash256 :=
  domain_hash SHARD_DOMAIN
    (into_bytes (enc_fixed body_id >>> enc_u16 index >>> enc_bytes shard)).

(** [while level.len() > 1]: the siblings on the way up. The length of the level
    is enough fuel, as for the root. *)
Fixpoint proof_loop (fuel : nat) (level : list Hash256) (position : nat) : list Hash256 :=
  match fuel with
  | O => []
  | S fuel =>
      if (1 <? length level)%nat then
        let sibling := Nat.lxor position 1 in
        default merkle_sentinel (level !! sibling)
          :: proof_loop fuel (merkle_next level) (Nat.shiftr position 1)
      else []
  end.
Definition create_proof (leaves : list Hash256) (index : nat) : ShardProof :=
  mkShardProof (Z.of_nat index mod 2 ^ 16) (len leaves mod 2 ^ 16)
    (proof_loop (length leaves) (merkle_leaf <$> leaves) index).

(** One iteration of [verify_proof]. *)
Definition proof_step (acc : Hash256 * nat) (sibling : Hash256) : Hash256 * nat :=
  let '(root, position) := acc in
  (if (Nat.land position 1 =? 0)%nat then merkle_node root sibling else merkle_node sibling root,
   Nat.shiftr position 1).
Definition verify_proof (leaf : Hash256) (proof : ShardProof) (expected_root : Hash256) : bool :=
  bool_decide ((foldl proof_step (merkle_leaf leaf, Z.to_nat proof.(spf_shard_index)) proof.(spf_siblings)).1
               = expected_root).

Definition verify_shard (descriptor : BodyErasureDescriptorV2) (shard : StoredShard) : bool :=
  if negb (shard.(ssh_proof).(spf_shard_index) =? shard.(ssh_index)) then false
  else match checked_add 16 descriptor.(bed_data_shards) descriptor.(bed_parity_shards) with
       | None => false
       | Some total =>
           if negb (shard.(ssh_proof).(spf_total_shards) =? total) then false
           else
             let leaf := shard_leaf descriptor.(bed_body_package_id) shard.(ssh_index) shard.(ssh_bytes) in
             verify_proof leaf shard.(ssh_proof) descriptor.(bed_shard_merkle_root)
       end.

(** ** Encoding and reconstruction *)

(** [for (index, byte) in bytes.iter().enumerate()
      { shards[index / shard_size][index % shard_size] = *byte }] *)
Definition fill_shards (shard_size : nat) (shards : list bytes) (body : bytes) : list bytes :=
  foldl (λ shards '(index, b), alter (<[(index mod shard_size)%nat := b]>) (index / shard_size)%nat shards)
    shards (zip (seq 0 (length body)) body).

Definition encode_body (protocol_version network_id : Z) (body_package_id : Hash256)
    (canonical_body_bytes : bytes) (data_shards parity_shards expiry_height : Z) :
    result AvailabilityError EncodedBody :=
  if (data_shards =? 0) || (parity_shards =? 0) then Err (InvalidParameters data_shards parity_shards)
  else
    total ← ok_or (checked_add 16 data_shards parity_shards) (InvalidParameters data_shards parity_shards);
    let original_size := len canonical_body_bytes in
    _ ← ensure (original_size <? 2 ^ 32) PackageTooLarge;
    let shard_size := div_ceil (Z.max (len canonical_body_bytes) 1) data_shards in
    _ ← ensure (shard_size <? 2 ^ 32) PackageTooLarge;
    let shards := replicate (Z.to_nat total) (replicate (Z.to_nat shard_size) x00) in
    let shards := fill_shards (Z.to_nat shard_size) shards canonical_body_bytes in
    _ ← map_err ReedSolomonError (rs_new (Z.to_nat data_shards) (Z.to_nat parity_shards));
    shards ← map_err ReedSolomonError
               (rs_encode (Z.to_nat data_shards) (Z.to_nat parity_shards) shards);
    let leaves := imap (λ index shard, shard_leaf body_package_id (Z.of_nat index mod 2 ^ 16) shard) shards in
    let root := merkle_root_of leaves in
    let stored := imap (λ index bs, mkStoredShard (Z.of_nat index mod 2 ^ 16) bs (create_proof leaves index))
                    shards in
    Ok (mkEncodedBody
          (mkBodyErasureDescriptorV2 protocol_version network_id body_package_id original_size data_shards
             parity_shards shard_size root expiry_height 0)
          stored).

(** One supplied shard. *)
Definition supply_shard (descriptor : BodyErasureDescriptorV2) (total : Z)
    (shards : list (option bytes)) (shard : StoredShard) : result AvailabilityError (list (option bytes)) :=
  let i := Z.to_nat shard.(ssh_index) in
  if total <=? shard.(ssh_index) then Err (ShardOutOfRange shard.(ssh_index))
  else if negb (len shard.(ssh_bytes) =? descriptor.(bed_shard_size))
  then Err (InvalidShardLength shard.(ssh_index))
  else if bool_decide (is_Some (mjoin (shards !! i))) then Err (DuplicateShard shard.(ssh_index))
  else if negb (verify_shard descriptor shard) then Err (InvalidShardProof shard.(ssh_index))
  else Ok (<[i := Some shard.(ssh_bytes)]> shards).

Definition reconstruct_body (descriptor : BodyErasureDescriptorV2) (supplied : list StoredShard) :
    result AvailabilityError bytes :=
  let data := descriptor.(bed_data_shards) in
  let parity := descriptor.(bed_parity_shards) in
  total ← ok_or (checked_add 16 data parity) (InvalidParameters data parity);
  shards ← fold_result (supply_shard descriptor total) (replicate (Z.to_nat total) None) supplied;
  if len (omap id shards) <? data then Err InsufficientShards
  else
    _ ← map_err ReedSolomonError (rs_new (Z.to_nat data) (Z.to_nat parity));
    shards ← map_err ReedSolomonError (rs_reconstruct (Z.to_nat data) (Z.to_nat parity) shards);
    parts ← collect (λ shard, ok_or shard InsufficientShards) (take (Z.to_nat data) shards);
    let body := concat parts in
    if len body <? descriptor.(bed_original_size) then Err InvalidReconstructedSize
    else Ok (take (Z.to_nat descriptor.(bed_original_size)) body).

(** ** Retrieval challenges *)

Definition challenge_index (descriptor_id : Hash256) (challenge_round : Z) (challenger_nonce : Hash256)
    (total counter : Z) : Z :=
  let candidate := domain_hash CHALLENGE_DOMAIN
    (into_bytes (enc_fixed descriptor_id >>> enc_u64 challenge_round >>> enc_fixed challenger_nonce >>>
                 enc_u64 counter)) in
  of_le (take 2 candidate) mod total.

(** One iteration of the [while] loop: the indices so far and the counter; [None]
    leaves by a panic of [counter += 1]. *)
Definition challenge_step (index : Z → Z) (requested : Z) (st : list Z * Z) :
    (list Z * Z) + option (list Z) :=
  let '(indices, counter) := st in
  if requested <=? len indices then inr (Some indices)
  else
    let i := index counter in
    let indices := if bool_decide (i ∈ indices) then indices else indices ++ [i] in
    match checked_add 64 counter 1 with
    | Some counter => inl (indices, counter)
    | None => inr None
    end.

(** The counter ends the loop within 2^64 + 1 iterations. *)
Definition challenge_indices (index : Z → Z) (requested : Z) : option (list Z) :=
  match loop_pos (challenge_step index requested) (2 ^ 64 + 1)%positive ([], 0) with
  | inr r => r
  | inl _ => None
  end.

(** [None]: a panic. *)
Definition make_retrieval_challenge (descriptor : BodyErasureDescriptorV2) (challenge_round : Z)
    (challenger_nonce : Hash256) (requested_shards : Z) :
    option (result AvailabilityError RetrievalChallenge) :=
  let data := descriptor.(bed_data_shards) in
  let parity := descriptor.(bed_parity_shards) in
  match checked_add 16 data parity with
  | Some total =>
      if 0 <? total then
        let requested := Z.min requested_shards total in
        let descriptor_id := object_id descriptor in
        indices ← challenge_indices (challenge_index descriptor_id challenge_round challenger_nonce total)
                    requested;
        Some (Ok (mkRetrievalChallenge descriptor_id challenge_round indices))
      else Some (Err (InvalidParameters data parity))
  | None => Some (Err (InvalidParameters data parity))
  end.

Definition verify_challenge_response (descriptor : BodyErasureDescriptorV2) (challenge : RetrievalChallenge)
    (responses : list StoredShard) : bool :=
  if bool_decide (challenge.(rch_descriptor_id) ≠ object_id descriptor)
     || negb (len responses =? len challenge.(rch_shard_indices))
  then false
  else forallb (λ expected,
         match list_find (λ response, response.(ssh_index) = expected) responses with
         | Some (_, response) => verify_shard descriptor response
         | None => false
         end) challenge.(rch_shard_indices).

(** ** Admission *)

(** The loop is the one of the header crate. *)
Definition leading_zero_bits (hash : Hash256) : Z := count_leading_zero_bits hash.

Definition valid_admission_credential (policy : AdmissionPolicy) (credential : AdmissionCredential)
    (operator : bytes) (descriptor_id : Hash256) : bool :=
  match credential with
  | BootstrapAllowlist => bool_decide (operator ∈ policy.(ap_bootstrap_allowlist))
  | ServiceReceipt receipt_id => bool_decide (receipt_id ∈ policy.(ap_accepted_service_receipts))
  | WorkStamp nonce =>
      if (policy.(ap_minimum_request_stamp_zero_bits) =? 0)
         || (256 <? policy.(ap_minimum_request_stamp_zero_bits))
      then false
      else
        let stamp := domain_hash (str "meshmine/body-request-stamp/v2")
          (into_bytes (enc_fixed operator >>> enc_fixed descriptor_id >>> enc_u64 nonce)) in
        policy.(ap_minimum_request_stamp_zero_bits) <=? leading_zero_bits stamp
  end.

Definition receipt_of (credential : AdmissionCredential) : option Hash256 :=
  match credential with ServiceReceipt receipt_id => Some receipt_id | _ => None end.

Definition admit_body (c : AdmissionController) (limits : AdmissionLimits) (policy : AdmissionPolicy)
    (credential : AdmissionCredential) (operator : bytes) (current_height : Z)
    (descriptor : BodyErasureDescriptorV2) : result AvailabilityError AdmissionController :=
  if match c.(adm_banned_until_height) !! operator with
     | Some until => current_height <? until
     | None => false
     end
  then Err AdmissionBanned
  else
    let descriptor_id := object_id descriptor in
    if negb (valid_admission_credential policy credential operator descriptor_id)
    then Err AdmissionCredentialRejected
    else if match receipt_of credential with
            | Some receipt_id => bool_decide (receipt_id ∈ c.(adm_spent_service_receipts))
            | None => false
            end
    then Err AdmissionCredentialRejected
    else if bool_decide (descriptor_id ∈ c.(adm_seen)) then Err DuplicateBody
    else if limits.(al_max_package_size) <? descriptor.(bed_original_size) then Err AdmissionPackageSize
    else
      let bad := InvalidParameters descriptor.(bed_data_shards) descriptor.(bed_parity_shards) in
      total ← ok_or (checked_add 16 descriptor.(bed_data_shards) descriptor.(bed_parity_shards)) bad;
      if (descriptor.(bed_data_shards) =? 0) || (descriptor.(bed_parity_shards) =? 0)
         || (descriptor.(bed_shard_size) =? 0)
      then Err bad
      else if limits.(al_max_total_shards) <? total then Err AdmissionShardLimit
      else
        let pending := default 0 (c.(adm_pending_by_operator) !! operator) in
        if limits.(al_max_pending_per_operator) <=? pending then Err AdmissionOperatorQuota
        else
          next_bytes ← ok_or (checked_add 64 c.(adm_pending_bytes) descriptor.(bed_original_size))
                         AdmissionByteBudget;
          if limits.(al_max_pending_bytes) <? next_bytes then Err AdmissionByteBudget
          else Ok (mkAdmissionController
                     ({[descriptor_id]} ∪ c.(adm_seen))
                     (match receipt_of credential with
                      | Some receipt_id => {[receipt_id]} ∪ c.(adm_spent_service_receipts)
                      | None => c.(adm_spent_service_receipts)
                      end)
                     (<[operator := pending + 1]> c.(adm_pending_by_operator)) next_bytes
                     c.(adm_invalid_strikes) c.(adm_banned_until_height)).

Definition complete (c : AdmissionController) (operator : bytes) (original_size : Z) : AdmissionController :=
  mkAdmissionController c.(adm_seen) c.(adm_spent_service_receipts)
    (match c.(adm_pending_by_operator) !! operator with
     | Some pending =>
         let pending := saturating_sub pending 1 in
         if pending =? 0 then delete operator c.(adm_pending_by_operator)
         else <[operator := pending]> c.(adm_pending_by_operator)
     | None => c.(adm_pending_by_operator)
     end)
    (saturating_sub c.(adm_pending_bytes) original_size)
    c.(adm_invalid_strikes) c.(adm_banned_until_height).

Definition record_invalid_body (c : AdmissionController) (operator : bytes)
    (current_height strike_threshold ban_blocks : Z) : AdmissionController :=
  if (strike_threshold =? 0) || (ban_blocks =? 0) then c
  else
    let strikes := saturating_add 16 (default 0 (c.(adm_invalid_strikes) !! operator)) 1 in
    let banned := strike_threshold <=? strikes in
    mkAdmissionController c.(adm_seen) c.(adm_spent_service_receipts) c.(adm_pending_by_operator)
      c.(adm_pending_bytes)
      (<[operator := if banned then 0 else strikes]> c.(adm_invalid_strikes))
      (if banned
       then <[operator := saturating_add 32 current_height ban_blocks]> c.(adm_banned_until_height)
       else c.(adm_banned_until_height)).

(** ** Persistence *)

Section Persistence.
Context {S : Type} `{!DurableStore S} `{!Hex} (env : nat → S → S).

Definition shard_key (descriptor_id : Hash256) (shard : StoredShard) : bytes :=
  descriptor_id ++ to_le 2 shard.(ssh_index).
Definition shard_value (shard : StoredShard) : bytes :=
  into_bytes (enc_u16 shard.(ssh_index) >>> enc_bytes shard.(ssh_bytes) >>>
    enc_u16 shard.(ssh_proof).(spf_total_shards) >>>
    enc_varint (len shard.(ssh_proof).(spf_siblings)) >>>
    enc_each enc_fixed shard.(ssh_proof).(spf_siblings)).

(** The records in the order they are written. *)
Definition body_records (body_package_id : Hash256) (canonical_body_bytes : bytes)
    (consensus_validation_result_hash : Hash256) (encoded : EncodedBody) :
    list (ProtocolRecordKind * bytes * bytes) :=
  let descriptor_id := object_id encoded.(eb_descriptor) in
  [(KindBodyPackage, body_package_id, canonical_body_bytes);
   (KindBodyValidation, body_package_id, consensus_validation_result_hash);
   (KindErasureDescriptor, descriptor_id,
    into_bytes (encode_BodyErasureDescriptorV2 encoded.(eb_descriptor)))]
  ++ ((λ shard, (KindBodyShard, shard_key descriptor_id shard, shard_value shard)) <$> encoded.(eb_shards)).

(** One [journal.persist] after the other, left with [?]. *)
Fixpoint persist_each (records : list (ProtocolRecordKind * bytes * bytes)) (w : nat * S) :
    result BodyPersistenceError unit * (nat * S) :=
  match records with
  | [] => (Ok tt, w)
  | (kind, key, value) :: records =>
      match persist env kind key value w with
      | (Ok _, w) => persist_each records w
      | (Err e, w) => (Err (BPE_Durable e), w)
      end
  end.

Definition persist_encoded_body (body_package_id : Hash256) (canonical_body_bytes : bytes)
    (consensus_validation_result_hash : Hash256) (encoded : EncodedBody) (w : nat * S) :
    result BodyPersistenceError unit * (nat * S) :=
  if bool_decide (encoded.(eb_descriptor).(bed_body_package_id) ≠ body_package_id)
     || negb (encoded.(eb_descriptor).(bed_original_size) =? len canonical_body_bytes)
  then (Err DescriptorMismatch, w)
  else persist_each (body_records body_package_id canonical_body_bytes consensus_validation_result_hash
                       encoded) w.
End Persistence.
End Availability.
