(* ===== verification/AvailabilitySafety.v ===== *)
(** * Body availability: proofs

    A body comes back from any sufficient set of its shards and from nothing
    else; challenges ask for distinct shards; admission keeps its accounts;
    persistence leaves every record behind. *)

From S2P Require Import Prelude Codec Hash Types Objects Target Merkle Storage Journal.
From S2P Require Import Payout Availability.

(** ** Filling the shards *)

Lemma concat_alter (s : nat) (shards : list bytes) k b :
  (0 < s)%nat → Forall (λ x, length x = s) shards → (k < s * length shards)%nat →
  concat (alter (<[(k mod s)%nat := b]>) (k / s)%nat shards) = <[k := b]> (concat shards).
Proof.
  intros Hs Hall. revert k. induction Hall as [|x shards Hx Hall IH]; intros k Hk; cbn [length] in Hk; [lia|].
  destruct (Nat.lt_ge_cases k s) as [Hlt|Hge].
  - rewrite Nat.div_small, Nat.mod_small by done. cbn. by rewrite insert_app_l by lia.
  - replace k with ((k - s) + 1 * s)%nat at 1 2 by lia.
    rewrite Nat.div_add, Nat.Div0.mod_add by lia. rewrite Nat.add_1_r. cbn.
    fold (alter (<[((k - s) mod s)%nat := b]>) ((k - s) / s)%nat shards). rewrite IH by nia.
    rewrite insert_app_r_alt by lia. by rewrite Hx.
Qed.

Lemma alter_uniform (s k : nat) (b : byte) j (shards : list bytes) :
  Forall (λ x, length x = s) shards → Forall (λ x, length x = s) (alter (<[k := b]>) j shards).
Proof. intros Hall. apply Forall_alter; [done|]. intros x _ Hx. by rewrite length_insert. Qed.

Lemma concat_uniform (s : nat) (shards : list bytes) :
  Forall (λ x, length x = s) shards → length (concat shards) = (s * length shards)%nat.
Proof. induction 1 as [|x l Hx _ IH]; cbn; [lia|]. rewrite length_app, Hx, IH. lia. Qed.

Lemma fill_from (s : nat) body i (shards : list bytes) :
  (0 < s)%nat → Forall (λ x, length x = s) shards → (i + length body ≤ s * length shards)%nat →
  let out := foldl (λ shards '(index, b), alter (<[(index mod s)%nat := b]>) (index / s)%nat shards)
               shards (zip (seq i (length body)) body) in
  length out = length shards ∧ Forall (λ x, length x = s) out ∧
  concat out = take i (concat shards) ++ body ++ drop (i + length body) (concat shards).
Proof.
  intros Hs. revert i shards.
  induction body as [|b body IH]; intros i shards Hall Hl; cbn [length seq zip_with foldl] in *; cbn zeta.
  { rewrite Nat.add_0_r. cbn [app]. by rewrite take_drop. }
  destruct (IH (S i) (alter (<[(i mod s)%nat := b]>) (i / s)%nat shards)) as (E1 & E2 & E3).
  { by apply alter_uniform. } { rewrite length_alter. lia. }
  rewrite length_alter in E1. split; [done|]. split; [done|]. rewrite E3, concat_alter by (done || lia).
  pose proof (concat_uniform s shards Hall) as Hlen.
  rewrite drop_insert_lt, insert_take_drop by lia.
  assert (take (S i) (take i (concat shards) ++ b :: drop (S i) (concat shards)) = take i (concat shards) ++ [b]) as ->.
  { rewrite take_app_ge by (rewrite length_take; lia). do 2 f_equal.
    rewrite length_take. by replace (S i - i `min` length (concat shards))%nat with 1%nat by lia. }
  rewrite <- app_assoc. cbn [app]. by replace (S i + length body)%nat with (i + S (length body))%nat by lia.
Qed.

Lemma fill_shards_spec s shards body :
  (0 < s)%nat → Forall (λ x, length x = s) shards → (length body ≤ s * length shards)%nat →
  length (fill_shards s shards body) = length shards ∧
  Forall (λ x, length x = s) (fill_shards s shards body) ∧
  concat (fill_shards s shards body) = body ++ drop (length body) (concat shards).
Proof. intros Hs Hall Hl. by apply (fill_from s body 0 shards). Qed.

(** ** Merkle proofs *)

Lemma land_1 p : Nat.land p 1 = (p mod 2)%nat.
Proof. change 1%nat with (Nat.ones 1). by rewrite Nat.land_ones. Qed.
Lemma shiftr_1 p : Nat.shiftr p 1 = (p / 2)%nat.
Proof. by rewrite Nat.shiftr_div_pow2. Qed.
Lemma lxor_1_even q : Nat.lxor (2 * q) 1 = (2 * q + 1)%nat.
Proof. symmetry. apply Nat.add_nocarry_lxor. rewrite land_1, Nat.mul_comm. apply Nat.Div0.mod_mul. Qed.
Lemma lxor_1_odd q : Nat.lxor (2 * q + 1) 1 = (2 * q)%nat.
Proof. by rewrite <- lxor_1_even, Nat.lxor_assoc, Nat.lxor_nilpotent, Nat.lxor_0_r. Qed.

Section Proofs.
Context `{Digests}.

(** The pair of a position on the next level. *)
Lemma merkle_next_lookup level q h :
  (level !! (2 * q)%nat = Some h →
   merkle_next level !! q = Some (merkle_node h (default merkle_sentinel (level !! (2 * q + 1)%nat)))) ∧
  (level !! (2 * q + 1)%nat = Some h →
   ∃ l, level !! (2 * q)%nat = Some l ∧ merkle_next level !! q = Some (merkle_node l h)).
Proof.
  revert q. induction level as [|x|x y rest IH] using list_pair_ind; intros q; [done| |].
  - destruct q as [|q]; [cbn; split; [by intros [= ->]|done]|].
    split; intros E; apply lookup_lt_Some in E; cbn in E; lia.
  - destruct q as [|q]; [cbn; split; [by intros [= ->]|intros [= ->]; by exists x]|].
    replace (2 * S q)%nat with (S (S (2 * q))) by lia. replace (S (S (2 * q)) + 1)%nat with (S (S (2 * q + 1))) by lia.
    cbn [lookup list_lookup merkle_next]. apply IH.
Qed.

(** The proof of a leaf leads to the root. *)
Lemma proof_loop_root fuel level position h root :
  level !! position = Some h → merkle_loop fuel level = Some root →
  (foldl proof_step (h, position) (proof_loop fuel level position)).1 = root.
Proof.
  revert level position h. induction fuel as [|fuel IH]; intros level position h Hp Hr.
  { destruct level as [|x [|y level]]; cbn in Hr; try done. injection Hr as <-.
    destruct position; [by injection Hp as ->|done]. }
  destruct level as [|x [|y level]]; [done| |].
  { cbn in Hr. injection Hr as <-. cbn. destruct position; [by injection Hp as ->|done]. }
  set (lv := x :: y :: level) in *. change (merkle_loop fuel (merkle_next lv) = Some root) in Hr.
  cbn [proof_loop]. change (1 <? length lv)%nat with true. cbn [foldl proof_step].
  rewrite shiftr_1, land_1. destruct (Nat.Even_or_Odd position) as [[q ->]|[q ->]].
  - destruct (merkle_next_lookup lv q h) as [Hn _]. specialize (Hn Hp).
    assert ((2 * q) mod 2 = 0)%nat as -> by (rewrite Nat.mul_comm; apply Nat.Div0.mod_mul).
    assert ((2 * q) / 2 = q)%nat as -> by (rewrite Nat.mul_comm; by apply Nat.div_mul).
    rewrite lxor_1_even. by apply IH.
  - destruct (merkle_next_lookup lv q h) as [_ Hn]. destruct (Hn Hp) as (l & Hl & Hnl).
    assert ((2 * q + 1) mod 2 = 1)%nat as ->.
    { rewrite Nat.add_comm, Nat.mul_comm, Nat.Div0.mod_add. done. }
    assert ((2 * q + 1) / 2 = q)%nat as ->.
    { rewrite Nat.add_comm, Nat.mul_comm, Nat.div_add by done. done. }
    rewrite lxor_1_odd, Hl. by apply IH.
Qed.

(** The messages hashed to check a proof. *)
Definition step_message (root sibling : Hash256) (position : nat) : bytes :=
  x01 :: if (Nat.land position 1 =? 0)%nat then root ++ sibling else sibling ++ root.
Fixpoint path_messages (root : Hash256) (position : nat) (siblings : list Hash256) : list bytes :=
  match siblings with
  | [] => []
  | s :: siblings =>
      step_message root s position
        :: path_messages (proof_step (root, position) s).1 (Nat.shiftr position 1) siblings
  end.
Definition proof_messages (leaf : Hash256) (proof : ShardProof) : list bytes :=
  (x00 :: leaf) :: path_messages (merkle_leaf leaf) (Z.to_nat proof.(spf_shard_index)) proof.(spf_siblings).

Inductive subtree : mtree → mtree → Prop :=
| subtree_refl t : subtree t t
| subtree_left t l r : subtree t l → subtree t (MNode l r)
| subtree_right t l r : subtree t r → subtree t (MNode l r).

Lemma subtree_messages t t' : subtree t t' → tree_messages t ⊆ tree_messages t'.
Proof. induction 1; cbn; set_solver. Qed.
Lemma subtree_fringe t t' : subtree t t' → fringe t ⊆ fringe t'.
Proof. induction 1; cbn; set_solver. Qed.
Lemma subtree_children l r t : subtree (MNode l r) t → subtree l t ∧ subtree r t.
Proof.
  intros Hs. remember (MNode l r) as n. induction Hs as [|? ? ? _ IH|? ? ? _ IH]; subst.
  - split; [apply subtree_left | apply subtree_right]; constructor.
  - destruct (IH eq_refl). split; by apply subtree_left.
  - destruct (IH eq_refl). split; by apply subtree_right.
Qed.

Context `{!DigestsOk}.

Lemma step_message_hash root sibling position :
  (proof_step (root, position) sibling).1 = blake2b 32 (step_message root sibling position).
Proof.
  unfold proof_step, step_message. cbn [fst].
  destruct (_ =? 0)%nat; unfold merkle_node, blake2b_256; cbn; by rewrite app_nil_r.
Qed.

(** Every node on a path that reaches the root is a node of the tree. *)
Lemma path_in_tree siblings root position t :
  length root = 32%nat → Forall (λ s, length s = 32%nat) siblings →
  (foldl proof_step (root, position) siblings).1 = tree_hash t →
  (∃ t', subtree t' t ∧ root = tree_hash t') ∨
  ∃ m1 m2, m1 ∈ path_messages root position siblings ∧ m2 ∈ tree_messages t ∧ collides 32 m1 m2.
Proof.
  intros Hr Hs. revert root position Hr.
  induction Hs as [|s siblings Hs Hsib IH]; intros root position Hr Hf; cbn [foldl] in Hf.
  { left. exists t. split; [constructor|done]. }
  destruct (proof_step (root, position) s) as [root' position'] eqn:Estep.
  assert (root' = blake2b 32 (step_message root s position)) as Eroot.
  { by rewrite <- step_message_hash, Estep. }
  assert (position' = Nat.shiftr position 1) as -> by (by injection Estep).
  cbn [path_messages]. rewrite Estep. cbn [fst].
  destruct (IH root' (Nat.shiftr position 1)) as [(t' & Hsub & Ht')|(m1 & m2 & ? & ? & ?)].
  { rewrite Eroot. apply blake2b_length. } { done. } 2: { right. exists m1, m2. set_solver. }
  rewrite Eroot, tree_hash_message in Ht'. apply blake2b_eq in Ht' as [Ht'|Hc].
  2: { right. do 2 eexists. split_and!; [left| |exact Hc]. eapply subtree_messages; [done|]. apply tree_message_in. }
  destruct t' as [|y|l r]; [done|done|]. cbn in Ht'. injection Ht' as Ht'.
  apply subtree_children in Hsub as [Hl Hr']. left.
  destruct (_ =? 0)%nat; apply app_inj_1 in Ht' as [E1 E2]; rewrite ?tree_hash_length; try done.
  - by exists l.
  - by exists r.
Qed.

(** A checked proof is for a leaf of the list, or exhibits a collision. *)
Lemma verify_proof_sound leaf proof leaves :
  length leaf = 32%nat → Forall (λ s, length s = 32%nat) proof.(spf_siblings) →
  verify_proof leaf proof (merkle_root_of leaves) = true →
  leaf ∈ leaves ∨
  ∃ m1 m2, m1 ∈ proof_messages leaf proof ∧ m2 ∈ merkle_messages leaves ∧ collides 32 m1 m2.
Proof.
  intros Hl Hs Hv. unfold verify_proof in Hv. apply bool_decide_eq_true in Hv.
  destruct (merkle_root_tree leaves) as [Hroot Hfr]. rewrite merkle_root_of_spec in Hroot. injection Hroot as Hroot.
  rewrite Hroot in Hv. apply path_in_tree in Hv as [(t' & Hsub & Ht')|(m1 & m2 & ? & ? & ?)].
  - rewrite tree_hash_message in Ht'. unfold merkle_leaf, blake2b_256 in Ht'.
    replace (concat [[x00]; leaf]) with (x00 :: leaf) in Ht' by (cbn; by rewrite app_nil_r).
    apply blake2b_eq in Ht' as [Ht'|Hc].
    + destruct t' as [|y|l r]; [done| |done]. injection Ht' as ->. left. rewrite <- Hfr.
      apply (subtree_fringe _ _ Hsub). cbn. left.
    + right. do 2 eexists. split_and!; [left| |exact Hc]. eapply subtree_messages; [done|]. apply tree_message_in.
  - right. exists m1, m2. split_and!; [by right|done..].
  - apply blake2b_256_length.
  - done.
Qed.

(** A created proof checks. *)
Lemma create_proof_verifies leaves index leaf :
  leaves !! index = Some leaf → len leaves < 2 ^ 16 →
  verify_proof leaf (create_proof leaves index) (merkle_root_of leaves) = true.
Proof.
  intros Hl Hlen. unfold verify_proof. apply bool_decide_eq_true. cbn [create_proof spf_shard_index spf_siblings].
  pose proof (lookup_lt_Some _ _ _ Hl) as Hi. unfold len in Hlen. rewrite Z.mod_small, Nat2Z.id by lia.
  apply (proof_loop_root _ (merkle_leaf <$> leaves)); [by rewrite list_lookup_fmap, Hl|].
  pose proof (merkle_root_of_spec leaves) as Hr. unfold merkle_root in Hr at 1. by destruct leaves.
Qed.
End Proofs.

(** ** Encoded bodies *)

Lemma div_ceil_bounds a b : 0 < a → 0 < b → a ≤ div_ceil a b * b ∧ 1 ≤ div_ceil a b.
Proof.
  intros Ha Hb. unfold div_ceil. pose proof (Z.div_mod a b ltac:(lia)). pose proof (Z.mod_pos_bound a b Hb).
  destruct (Z.ltb_spec 0 (a mod b)); cbn [Z.b2z]; nia.
Qed.

Section Bodies.
Context `{Digests} `{!DigestsOk} `{ErasureCode} `{!ErasureCodeOk}.

Definition stored_shard (leaves : list Hash256) (i : nat) (bs : bytes) : StoredShard :=
  mkStoredShard (Z.of_nat i mod 2 ^ 16) bs (create_proof leaves i).

(** What an encoding consists of. *)
Record encoding (body : bytes) (d p : nat) (size : nat) (filled shards : list bytes) (enc : EncodedBody) : Prop := {
  en_size : (0 < size)%nat ∧ (length body ≤ d * size)%nat;
  en_counts : (0 < d)%nat ∧ (0 < p)%nat ∧ Z.of_nat (d + p) < 2 ^ 16;
  en_new : rs_new d p = Ok tt;
  en_filled : length filled = (d + p)%nat ∧ Forall (λ s, length s = size) filled;
  en_encode : rs_encode d p filled = Ok shards;
  en_shards : length shards = (d + p)%nat ∧ Forall (λ s, length s = size) shards;
  en_body : take (length body) (concat (take d shards)) = body;
  en_descriptor :
    enc.(eb_descriptor).(bed_original_size) = len body ∧ enc.(eb_descriptor).(bed_data_shards) = Z.of_nat d ∧
    enc.(eb_descriptor).(bed_parity_shards) = Z.of_nat p ∧ enc.(eb_descriptor).(bed_shard_size) = Z.of_nat size;
  en_root : enc.(eb_descriptor).(bed_shard_merkle_root) =
    merkle_root_of (imap (λ i s, shard_leaf enc.(eb_descriptor).(bed_body_package_id) (Z.of_nat i mod 2 ^ 16) s) shards);
  en_stored : enc.(eb_shards) =
    imap (stored_shard (imap (λ i s, shard_leaf enc.(eb_descriptor).(bed_body_package_id) (Z.of_nat i mod 2 ^ 16) s)
      shards)) shards;
}.

Lemma take_concat_uniform (s d : nat) (l : list bytes) :
  Forall (λ x, length x = s) l → concat (take d l) = take (d * s) (concat l).
Proof.
  intros Hl. revert d. induction Hl as [|x l Hx _ IH]; intros [|d]; cbn; [by rewrite ?take_nil..|].
  rewrite take_app_ge by lia. rewrite Hx, IH. do 2 f_equal. lia.
Qed.

Lemma encode_body_ok pv net id body data parity expiry enc :
  0 ≤ data → 0 ≤ parity → encode_body pv net id body data parity expiry = Ok enc →
  enc.(eb_descriptor).(bed_body_package_id) = id ∧
  ∃ size filled shards, encoding body (Z.to_nat data) (Z.to_nat parity) size filled shards enc.
Proof.
  intros Hd Hp. unfold encode_body. destruct (_ || _) eqn:E0; [done|].
  apply orb_false_iff in E0 as [?%Z.eqb_neq ?%Z.eqb_neq]. intros He.
  apply bind_ok in He as (total & Ht & He). apply ok_or_ok, checked_add_some in Ht as [-> Ht].
  apply bind_ok in He as (_ & _ & He). cbn zeta in He.
  set (size := div_ceil (Z.max (len body) 1) data) in *.
  pose proof (div_ceil_bounds (Z.max (len body) 1) data ltac:(lia) ltac:(lia)) as [Hc Hge]. fold size in Hc, Hge.
  apply bind_ok in He as (_ & _ & He). apply bind_ok in He as ([] & Hn & He). apply map_err_ok in Hn.
  apply bind_ok in He as (shards & Hs & He). apply map_err_ok in Hs. injection He as <-. cbn [eb_descriptor bed_body_package_id].
  split; [done|]. set (zeros := replicate (Z.to_nat (data + parity)) (replicate (Z.to_nat size) x00)) in *.
  assert (Forall (λ s, length s = Z.to_nat size) zeros) as Hz.
  { apply Forall_replicate. apply length_replicate. }
  assert (length zeros = (Z.to_nat data + Z.to_nat parity)%nat) as Hzl by (unfold zeros; rewrite length_replicate; lia).
  assert (length body ≤ Z.to_nat data * Z.to_nat size)%nat as Hbl by (unfold len in Hc; nia).
  destruct (fill_shards_spec (Z.to_nat size) zeros body) as (F1 & F2 & F3); [lia|done|nia|].
  destruct (rs_encode_ok (Z.to_nat data) (Z.to_nat parity) (Z.to_nat size) _ Hn ltac:(lia) ltac:(by rewrite F1) F2)
    as (out & Ho & Hol & Hou & Hot). rewrite Hs in Ho. injection Ho as <-.
  exists (Z.to_nat size), (fill_shards (Z.to_nat size) zeros body), shards.
  constructor; cbn -[shard_leaf merkle_root_of]; try done.
  - split; [lia|done].
  - lia.
  - split; [by rewrite F1|done].
  - rewrite Hot, (take_concat_uniform (Z.to_nat size)), F3 by done. rewrite take_take.
    replace (length body `min` (Z.to_nat data * Z.to_nat size))%nat with (length body) by lia. apply take_app_length.
  - rewrite !Z2Nat.id by lia. done.
Qed.

(** Encoding succeeds for every size and count the code supports. *)
Lemma encode_body_succeeds pv net id body data parity expiry :
  0 < data → 0 < parity → data + parity < 2 ^ 16 → len body < 2 ^ 32 →
  rs_new (Z.to_nat data) (Z.to_nat parity) = Ok tt →
  ∃ enc, encode_body pv net id body data parity expiry = Ok enc.
Proof.
  intros Hd Hp Ht Hl Hn. unfold encode_body.
  rewrite !(proj2 (Z.eqb_neq _ 0)) by lia. cbn [orb]. rewrite checked_add_fits by done. cbn [ok_or mbind result_bind].
  rewrite (proj2 (Z.ltb_lt _ _) Hl). cbn [ensure mbind result_bind]. cbn zeta.
  set (size := div_ceil (Z.max (len body) 1) data).
  pose proof (div_ceil_bounds (Z.max (len body) 1) data ltac:(lia) ltac:(lia)) as [Hc Hge]. fold size in Hc, Hge.
  assert (size < 2 ^ 32) as Hsz.
  { unfold size, div_ceil. pose proof (len_nonneg body).
    pose proof (Z.div_mod (Z.max (len body) 1) data ltac:(lia)).
    pose proof (Z.mod_pos_bound (Z.max (len body) 1) data Hd).
    destruct (Z.ltb_spec 0 (Z.max (len body) 1 mod data)); cbn [Z.b2z]; nia. }
  rewrite (proj2 (Z.ltb_lt _ _) Hsz). cbn [ensure mbind result_bind]. rewrite Hn. cbn [map_err mbind result_bind].
  set (zeros := replicate (Z.to_nat (data + parity)) (replicate (Z.to_nat size) x00)).
  assert (Forall (λ s, length s = Z.to_nat size) zeros) as Hz.
  { apply Forall_replicate. apply length_replicate. }
  assert (length zeros = (Z.to_nat data + Z.to_nat parity)%nat) as Hzl by (unfold zeros; rewrite length_replicate; lia).
  destruct (fill_shards_spec (Z.to_nat size) zeros body) as (F1 & F2 & F3); [lia|done|unfold len in Hc; nia|].
  destruct (rs_encode_ok (Z.to_nat data) (Z.to_nat parity) (Z.to_nat size) _ Hn ltac:(lia) ltac:(by rewrite F1) F2)
    as (out & -> & _). cbn. by eexists.
Qed.

(** ** Reconstruction *)

(** Slots that hold nothing or the encoded shard. *)
Abbreviation consistent := (Forall2 (λ (p : option bytes) s, p = None ∨ p = Some s)).

Section One.
  Context (body : bytes) (d p size : nat) (filled shards : list bytes) (enc : EncodedBody).
  Context (Hen : encoding body d p size filled shards enc).

Let descriptor : BodyErasureDescriptorV2 := enc.(eb_descriptor).
Let id : Hash256 := descriptor.(bed_body_package_id).
Let leaves : list Hash256 := imap (λ i s, shard_leaf id (Z.of_nat i mod 2 ^ 16) s) shards.

Lemma leaves_length : length leaves = (d + p)%nat.
Proof. unfold leaves. rewrite length_imap. apply Hen. Qed.
Lemma total_shards : checked_add 16 descriptor.(bed_data_shards) descriptor.(bed_parity_shards) = Some (Z.of_nat (d + p)).
Proof.
  destruct (en_descriptor _ _ _ _ _ _ _ Hen) as (_ & Hd & Hp & _). unfold descriptor. rewrite Hd, Hp.
  pose proof (en_counts _ _ _ _ _ _ _ Hen). rewrite checked_add_fits by lia. f_equal. lia.
Qed.

(** A shard of the encoding checks. *)
Lemma stored_shard_verifies i bs :
  shards !! i = Some bs → verify_shard descriptor (stored_shard leaves i bs) = true.
Proof.
  intros Hi. pose proof (lookup_lt_Some _ _ _ Hi) as Hlt. pose proof (en_counts _ _ _ _ _ _ _ Hen) as (_ & _ & Hc).
  pose proof (proj1 (en_shards _ _ _ _ _ _ _ Hen)) as Hl. unfold verify_shard, stored_shard.
  cbn [ssh_index ssh_bytes ssh_proof create_proof spf_shard_index spf_total_shards]. rewrite Z.eqb_refl. cbn [negb].
  rewrite total_shards. unfold len. rewrite leaves_length, (Z.mod_small (Z.of_nat (d + p))), Z.eqb_refl by lia. cbn [negb].
  unfold descriptor. rewrite (en_root _ _ _ _ _ _ _ Hen). apply create_proof_verifies.
  - rewrite list_lookup_imap, Hi. done.
  - unfold len. rewrite length_imap. lia.
Qed.

(** Enough consistent slots give the body back. *)
Lemma reconstruct_consistent partial :
  consistent partial shards → (d ≤ length (omap (λ x, x) partial))%nat →
  (_ ← map_err ReedSolomonError (rs_new d p);
   shards ← map_err ReedSolomonError (rs_reconstruct d p partial);
   parts ← collect (λ shard, ok_or shard InsufficientShards) (take d shards);
   if len (concat parts) <? descriptor.(bed_original_size) then Err InvalidReconstructedSize
   else Ok (take (Z.to_nat descriptor.(bed_original_size)) (concat parts))) = Ok body.
Proof.
  intros Hc Hn. destruct Hen as [[Hs1 Hs2] Hcnt Hnew [Hf1 Hf2] Henc [Hl Hu] Hbody (Ho & _ & _ & _) _ _].
  rewrite Hnew. cbn [map_err mbind result_bind].
  rewrite (rs_reconstruct_ok d p size filled shards partial) by done. cbn [map_err mbind result_bind].
  assert (collect (λ shard, ok_or shard InsufficientShards) (take d (Some <$> shards)) = Ok (take d shards)) as ->.
  { apply collect_ok. rewrite <- fmap_take. apply Forall2_fmap_l, Forall_Forall2_diag. by apply Forall_true. }
  cbn [mbind result_bind]. unfold descriptor. rewrite Ho.
  assert (length (concat (take d shards)) = (size * d)%nat) as Hcl.
  { rewrite (concat_uniform size) by (by apply Forall_take). rewrite length_take. lia. }
  rewrite (proj2 (Z.ltb_ge _ _)) by (unfold len; nia). f_equal. unfold len. by rewrite Nat2Z.id.
Qed.

Lemma omap_insert_new (l : list (option bytes)) i x :
  l !! i = Some None → length (omap (λ x, x) (<[i := Some x]> l)) = S (length (omap (λ x, x) l)).
Proof.
  revert i. induction l as [|o l IH]; intros [|i] Hi; cbn in *; [done..| |].
  - injection Hi as ->. done.
  - destruct o; cbn; by rewrite IH.
Qed.

(** Accepting a shard whose bytes are the encoded ones. *)
Lemma supply_shard_accepts partial i bs st :
  consistent partial shards → shards !! i = Some bs → partial !! i = Some None →
  st.(ssh_index) = Z.of_nat i → st.(ssh_bytes) = bs → verify_shard descriptor st = true →
  supply_shard descriptor (Z.of_nat (d + p)) partial st = Ok (<[i := Some bs]> partial) ∧
  consistent (<[i := Some bs]> partial) shards.
Proof.
  intros Hc Hi Hp Hix Hb Hv. pose proof (lookup_lt_Some _ _ _ Hi). destruct Hen as [_ _ _ _ _ [Hl Hu] _ (_ & _ & _ & Hsz) _ _].
  unfold supply_shard. rewrite Hix, Hb, Nat2Z.id. rewrite (proj2 (Z.leb_gt _ _)) by lia.
  unfold descriptor at 1. rewrite Hsz. unfold len. rewrite (Forall_lookup_1 _ _ _ _ Hu Hi), Z.eqb_refl. cbn [negb].
  rewrite Hp. cbn. rewrite Hv. cbn [negb]. split; [done|].
  rewrite <- (list_insert_id shards i bs Hi). apply Forall2_insert; [done|by right].
Qed.

(** Any distinct shards of the encoding are accepted. *)
Lemma supply_all supplied partial :
  consistent partial shards →
  (∀ st, st ∈ supplied → ∃ i bs, shards !! i = Some bs ∧ st = stored_shard leaves i bs ∧ partial !! i = Some None) →
  NoDup (ssh_index <$> supplied) →
  ∃ partial', fold_result (supply_shard descriptor (Z.of_nat (d + p))) partial supplied = Ok partial' ∧
    consistent partial' shards ∧
    length (omap (λ x, x) partial') = (length (omap (λ x, x) partial) + length supplied)%nat.
Proof.
  revert partial. induction supplied as [|st supplied IH]; intros partial Hc Hall Hnd.
  { exists partial. split_and!; [done..|]. cbn. lia. }
  destruct (Hall st) as (i & bs & Hi & Hst & Hp); [left|]. cbn [fold_result].
  assert (∀ j x, shards !! j = Some x → ssh_index (stored_shard leaves j x) = Z.of_nat j) as Hix.
  { intros j x Hj%lookup_lt_Some. cbn. rewrite (proj1 (en_shards _ _ _ _ _ _ _ Hen)) in Hj.
    pose proof (en_counts _ _ _ _ _ _ _ Hen). apply Z.mod_small. lia. }
  destruct (supply_shard_accepts partial i bs st Hc Hi Hp) as [-> Hc'].
  { rewrite Hst. by apply Hix. } { by rewrite Hst. } { rewrite Hst. by apply stored_shard_verifies. }
  cbn [mbind result_bind]. rewrite fmap_cons in Hnd. apply NoDup_cons in Hnd as [Hnew Hnd].
  destruct (IH (<[i := Some bs]> partial) Hc') as (partial' & Hf & Hc'' & Hlen); [|done|].
  - intros st' Hst'. destruct (Hall st') as (j & x & Hj & E & Hpj); [by right|]. exists j, x. split_and!; [done..|].
    rewrite list_lookup_insert_ne; [done|]. intros ->. apply Hnew. apply list_elem_of_fmap. exists st'.
    split; [|done]. rewrite Hst, E, !Hix by done. done.
  - exists partial'. split_and!; [done..|]. rewrite Hlen, omap_insert_new by done. cbn. lia.
Qed.

(** The messages hashed for the encoding and for a shard. *)
Definition leaf_message (index : Z) (shard : bytes) : bytes :=
  domain_preimage SHARD_DOMAIN (into_bytes (enc_fixed id >>> enc_u16 index >>> enc_bytes shard)).
Definition encoding_messages : list bytes :=
  imap (λ i s, leaf_message (Z.of_nat i mod 2 ^ 16) s) shards ++ merkle_messages leaves.
Definition shard_messages (st : StoredShard) : list bytes :=
  leaf_message st.(ssh_index) st.(ssh_bytes)
    :: proof_messages (shard_leaf id st.(ssh_index) st.(ssh_bytes)) st.(ssh_proof).

(** The types of a shard received from a peer. *)
Definition typed_shard (st : StoredShard) : Prop :=
  uint 16 st.(ssh_index) ∧ Forall (λ s, length s = 32%nat) st.(ssh_proof).(spf_siblings).

Lemma leaf_body_inj i j (x y : bytes) :
  uint 16 i → uint 16 j → length x = length y →
  into_bytes (enc_fixed id >>> enc_u16 i >>> enc_bytes x) = into_bytes (enc_fixed id >>> enc_u16 j >>> enc_bytes y) →
  i = j ∧ x = y.
Proof.
  intros Hi Hj Hl. unfold into_bytes, wseq, enc_bytes, enc_fixed, enc_u16, wseq. cbn [app]. intros E.
  rewrite (appends (w:=enc_varint (len x))), (appends (w:=enc_varint (len y))), <- !app_assoc in E. apply app_inv_head in E.
  apply app_inj_1 in E as [E1 E2]; [|by rewrite !to_le_length]. split.
  - rewrite <- (of_to_le 2 i), <- (of_to_le 2 j) by (cbn; unfold uint in *; lia). by rewrite E1.
  - assert (len x = len y) as El by (unfold len; lia). rewrite El in E2. by apply app_inv_head in E2.
Qed.

(** A shard of the right length that checks is the encoded one, or exhibits a
    collision. *)
Lemma verify_shard_sound st :
  typed_shard st → len st.(ssh_bytes) = Z.of_nat size → verify_shard descriptor st = true →
  (∃ i, st.(ssh_index) = Z.of_nat i ∧ shards !! i = Some st.(ssh_bytes)) ∨
  ∃ m1 m2, m1 ∈ shard_messages st ∧ m2 ∈ encoding_messages ∧ collides 32 m1 m2.
Proof.
  intros [Hix Hsib] Hlen. unfold verify_shard. destruct (negb _); [done|]. rewrite total_shards.
  destruct (negb _); [done|]. cbn zeta. unfold descriptor at 2. rewrite (en_root _ _ _ _ _ _ _ Hen).
  fold descriptor id leaves. intros Hv.
  apply verify_proof_sound in Hv as [Hin|(m1 & m2 & ? & ? & ?)]; [| |apply domain_hash_length|done].
  2: { right. exists m1, m2. split_and!; [by right|apply elem_of_app; by right|done]. }
  unfold leaves in Hin. apply elem_of_lookup_imap in Hin as (i & x & Heq & Hi).
  pose proof (lookup_lt_Some _ _ _ Hi) as Hlt. destruct (en_shards _ _ _ _ _ _ _ Hen) as [Hl Hu].
  pose proof (en_counts _ _ _ _ _ _ _ Hen) as (_ & _ & Hc).
  unfold shard_leaf in Heq. apply domain_hash_binding in Heq as [[_ Heq]|Hcol]; [| |done..].
  - apply leaf_body_inj in Heq as [Hi' Hx]; [|done|unfold uint; apply Z.mod_pos_bound; lia|].
    + left. exists i. rewrite Hi', Z.mod_small by lia. split; [done|]. by rewrite Hx.
    + pose proof (Forall_lookup_1 _ _ _ _ Hu Hi) as Hxl. cbn in Hxl. unfold len in Hlen. lia.
  - right. do 2 eexists. split_and!; [left| |exact Hcol]. apply elem_of_app. left.
    apply elem_of_lookup_imap. exists i, x. done.
Qed.

(** Whatever shards are accepted, the slots stay those of the encoding. *)
Lemma supply_sound supplied partial partial' :
  consistent partial shards → Forall typed_shard supplied →
  fold_result (supply_shard descriptor (Z.of_nat (d + p))) partial supplied = Ok partial' →
  consistent partial' shards ∨
  ∃ st m1 m2, st ∈ supplied ∧ m1 ∈ shard_messages st ∧ m2 ∈ encoding_messages ∧ collides 32 m1 m2.
Proof.
  intros Hc Hty. revert partial Hc. induction Hty as [|st supplied Hst Hty IH]; intros partial Hc Hf; cbn [fold_result] in Hf.
  { injection Hf as <-. by left. }
  apply bind_ok in Hf as (p1 & Hs & Hf). unfold supply_shard in Hs.
  destruct (_ <=? _); [done|]. destruct (Z.eqb_spec (len (ssh_bytes st)) (bed_shard_size descriptor)) as [Hl|]; [|done].
  cbn [negb] in Hs. case_bool_decide; [done|]. destruct (verify_shard descriptor st) eqn:Hv; [|done]. injection Hs as <-.
  destruct (verify_shard_sound st Hst) as [(i & Hi & Hx)|(m1 & m2 & ? & ? & ?)]; [|done| |].
  { rewrite Hl. apply (en_descriptor _ _ _ _ _ _ _ Hen). }
  - rewrite Hi, Nat2Z.id in Hf. destruct (IH (<[i := Some st.(ssh_bytes)]> partial)) as [?|(st' & m1 & m2 & ? & ?)];
      [|done|by left|right; exists st', m1, m2; split; [by right|done]].
    rewrite <- (list_insert_id shards i _ Hx). apply Forall2_insert; [done|by right].
  - right. exists st, m1, m2. split_and!; [left|done..].
Qed.
End One.

Lemma consistent_start (shards : list bytes) (n : nat) :
  length shards = n → consistent (replicate n None) shards.
Proof. intros <-. apply Forall2_replicate_l; [done|]. apply Forall_forall. intros s _. by left. Qed.
Lemma omap_replicate_none (n : nat) : omap (λ x : option bytes, x) (replicate n None) = [].
Proof. by induction n. Qed.

(** C35: a body survives the loss of any [parity] shards: encoding succeeds for
    every body below 4 GiB and every pair of counts the erasure code supports,
    and any shards of the encoding with distinct indices, in any order, at least
    [data_shards] of them, reconstruct exactly the body. *)
Theorem availability_roundtrip pv net id body data parity expiry :
  0 < data → 0 < parity → data + parity < 2 ^ 16 → len body < 2 ^ 32 →
  rs_new (Z.to_nat data) (Z.to_nat parity) = Ok tt →
  ∃ enc, encode_body pv net id body data parity expiry = Ok enc ∧
    len enc.(eb_shards) = data + parity ∧
    ∀ supplied, supplied ⊆ enc.(eb_shards) → NoDup (ssh_index <$> supplied) → data ≤ len supplied →
      reconstruct_body enc.(eb_descriptor) supplied = Ok body.
Proof.
  intros Hd Hp Ht Hl Hn. destruct (encode_body_succeeds pv net id body data parity expiry Hd Hp Ht Hl Hn) as [enc He].
  exists enc. split; [done|]. apply encode_body_ok in He as (_ & size & filled & shards & Hen); [|lia..].
  pose proof (en_shards _ _ _ _ _ _ _ Hen) as [Hlen _]. pose proof (en_stored _ _ _ _ _ _ _ Hen) as Hst.
  split; [rewrite Hst; unfold len; rewrite length_imap, Hlen; lia|].
  intros supplied Hsub Hnd Hen'. unfold reconstruct_body.
  rewrite (total_shards _ _ _ _ _ _ _ Hen). cbn [ok_or mbind result_bind]. rewrite Nat2Z.id.
  destruct (supply_all _ _ _ _ _ _ _ Hen supplied (replicate (Z.to_nat data + Z.to_nat parity) None))
    as (partial & Hf & Hc & Hpl).
  { by apply consistent_start. } 2: { done. }
  { intros st Hin. apply Hsub in Hin. rewrite Hst in Hin. apply elem_of_lookup_imap in Hin as (i & bs & -> & Hi).
    exists i, bs. split_and!; [done..|]. apply lookup_replicate. split; [done|].
    apply lookup_lt_Some in Hi. lia. }
  rewrite Hf. cbn [mbind result_bind]. rewrite omap_replicate_none in Hpl. cbn [length Nat.add] in Hpl.
  destruct (en_descriptor _ _ _ _ _ _ _ Hen) as (_ & Ed & Ep & _). rewrite Ed, Ep, !Nat2Z.id.
  rewrite (proj2 (Z.ltb_ge _ _)) by (unfold len, Datatypes.id in *; lia).
  apply (reconstruct_consistent _ _ _ _ _ _ _ Hen); [done|]. unfold len in Hen'. lia.
Qed.

(** C34: nothing but the body comes out of reconstruction. Whatever shards peers
    supply against the descriptor of an encoding, a reconstruction that succeeds
    returns the encoded body; otherwise a supplied shard exhibits two different
    messages, named here, with the same BLAKE2b digest. *)
Theorem reconstruction_sound pv net body_id body data parity expiry enc supplied out :
  0 ≤ data → 0 ≤ parity → encode_body pv net body_id body data parity expiry = Ok enc →
  Forall typed_shard supplied → reconstruct_body enc.(eb_descriptor) supplied = Ok out →
  out = body ∨
  ∃ st m1 m2, st ∈ supplied ∧ m1 ∈ shard_messages enc st ∧
    m2 ∈ encoding_messages (ssh_bytes <$> enc.(eb_shards)) enc ∧ collides 32 m1 m2.
Proof.
  intros Hd Hp He Hty. apply encode_body_ok in He as (_ & size & filled & shards & Hen); [|done..].
  unfold reconstruct_body. rewrite (total_shards _ _ _ _ _ _ _ Hen). cbn [ok_or mbind result_bind]. intros Hr.
  apply bind_ok in Hr as (partial & Hf & Hr). rewrite Nat2Z.id in Hf.
  assert (ssh_bytes <$> enc.(eb_shards) = shards) as ->.
  { rewrite (en_stored _ _ _ _ _ _ _ Hen), fmap_imap.
    apply list_eq. intros i. rewrite list_lookup_imap. by destruct (shards !! i). }
  apply (supply_sound _ _ _ _ _ _ _ Hen) in Hf as [Hc|?]; [|by right|by apply consistent_start, Hen|done].
  destruct (Z.ltb_spec (len (omap Datatypes.id partial)) (bed_data_shards (eb_descriptor enc))) as [|Hge]; [done|].
  destruct (en_descriptor _ _ _ _ _ _ _ Hen) as (_ & Ed & Ep & _). rewrite Ed, Ep, !Nat2Z.id in Hr. rewrite Ed in Hge.
  rewrite (reconstruct_consistent _ _ _ _ _ _ _ Hen) in Hr; [by injection Hr as ->; left|done|].
  unfold len, Datatypes.id in Hge. lia.
Qed.
End Bodies.

(** ** Challenges *)

Lemma challenge_loop index requested n indices counter :
  let good l := NoDup l ∧ (∀ i, i ∈ l → ∃ c, 0 ≤ c ∧ i = index c) ∧ len l ≤ requested in
  0 ≤ counter → good indices →
  match loop_nat (challenge_step index requested) n (indices, counter) with
  | inr (Some l) => good l ∧ len l = requested
  | _ => True
  end.
Proof.
  cbn zeta. revert indices counter. induction n as [|n IH]; intros indices counter Hc (Hnd & Hin & Hl); [done|].
  cbn [loop_nat challenge_step]. destruct (Z.leb_spec requested (len indices)); [split; [done|lia]|].
  destruct (checked_add 64 counter 1) as [c'|] eqn:Ec; [|done]. apply checked_add_some in Ec as [-> _].
  apply IH; [lia|]. case_bool_decide; [done|]. split_and!.
  - apply NoDup_app. split_and!; [done| |apply NoDup_singleton]. intros x Hx ->%list_elem_of_singleton. done.
  - intros i [?|Hi]%elem_of_app; [by apply Hin|]. apply list_elem_of_singleton in Hi as ->. by exists counter.
  - unfold len in *. rewrite length_app. cbn. lia.
Qed.

(** A retrieval challenge asks for the requested number of distinct shards of
    the body, at most all of them. *)
Lemma retrieval_challenge_distinct `{Digests} descriptor round nonce requested c :
  uint 16 descriptor.(bed_data_shards) → uint 16 descriptor.(bed_parity_shards) → uint 16 requested →
  make_retrieval_challenge descriptor round nonce requested = Some (Ok c) →
  let total := descriptor.(bed_data_shards) + descriptor.(bed_parity_shards) in
  c.(rch_descriptor_id) = object_id descriptor ∧ NoDup c.(rch_shard_indices) ∧
  len c.(rch_shard_indices) = Z.min requested total ∧ Forall (λ i, 0 ≤ i < total) c.(rch_shard_indices).
Proof.
  unfold uint. intros Hd Hp Hr. unfold make_retrieval_challenge.
  destruct (checked_add 16 _ _) as [total|] eqn:Et; [|done]. apply checked_add_some in Et as [-> _].
  cbn zeta. destruct (Z.ltb_spec 0 (bed_data_shards descriptor + bed_parity_shards descriptor)) as [Hpos|]; [|done].
  set (index := challenge_index _ _ _ _). unfold challenge_indices. rewrite loop_pos_nat.
  pose proof (challenge_loop index (Z.min requested (bed_data_shards descriptor + bed_parity_shards descriptor))
    (Pos.to_nat (2 ^ 64 + 1)) [] 0) as Hloop. cbn zeta in Hloop.
  destruct (loop_nat _ _ _) as [|[l|]]; cbn; try done. intros [= <-]. cbn.
  destruct Hloop as ((Hnd & Hin & _) & Hl); [done| |].
  { split_and!; [apply NoDup_nil_2|intros ? []%not_elem_of_nil|change (len (A:=Z) []) with 0; lia]. }
  split_and!; [done..|]. apply Forall_forall. intros i (k & _ & ->)%Hin. by apply Z.mod_pos_bound.
Qed.

(** ** Admission *)

Section Admission.
Context `{Digests} (limits : AdmissionLimits) (policy : AdmissionPolicy).

(** The histories of a controller: what was admitted and not completed, the
    descriptors admitted and the service receipts spent so far. *)
Inductive admission_run : AdmissionController → list (bytes * Z) → list Hash256 → list Hash256 → Prop :=
| run_start : admission_run AdmissionController_default [] [] []
| run_admit c pending ids receipts credential operator height descriptor c' :
    admission_run c pending ids receipts → 0 ≤ descriptor.(bed_original_size) →
    admit_body c limits policy credential operator height descriptor = Ok c' →
    admission_run c' ((operator, descriptor.(bed_original_size)) :: pending) (object_id descriptor :: ids)
      (option_list (receipt_of credential) ++ receipts)
| run_complete c pending pending' ids receipts operator size :
    admission_run c pending ids receipts → pending ≡ₚ (operator, size) :: pending' →
    admission_run (complete c operator size) pending' ids receipts
| run_strike c pending ids receipts operator height threshold ban :
    admission_run c pending ids receipts →
    admission_run (record_invalid_body c operator height threshold ban) pending ids receipts.

Definition held_by (operator : bytes) (pending : list (bytes * Z)) : Z :=
  len (filter (λ e, e.1 = operator) pending).

Record accounts (c : AdmissionController) (pending : list (bytes * Z)) (ids receipts : list Hash256) : Prop := {
  ac_bytes : c.(adm_pending_bytes) = sumZ pending.*2 ∧ sumZ pending.*2 ≤ limits.(al_max_pending_bytes);
  ac_sizes : Forall (λ e, 0 ≤ e.2 ≤ limits.(al_max_package_size)) pending;
  ac_counts operator : default 0 (c.(adm_pending_by_operator) !! operator) = held_by operator pending;
  ac_entries operator n : c.(adm_pending_by_operator) !! operator = Some n → 0 < n;
  ac_quota operator : held_by operator pending ≤ limits.(al_max_pending_per_operator);
  ac_seen id : id ∈ c.(adm_seen) ↔ id ∈ ids;
  ac_once : NoDup ids;
  ac_spent id : id ∈ c.(adm_spent_service_receipts) ↔ id ∈ receipts;
  ac_receipts : NoDup receipts ∧ Forall (λ r, r ∈ policy.(ap_accepted_service_receipts)) receipts;
}.

Lemma held_by_cons operator operator' size pending :
  held_by operator ((operator', size) :: pending) =
  held_by operator pending + if decide (operator' = operator) then 1 else 0.
Proof.
  unfold held_by, len. rewrite filter_cons. cbn [fst]. destruct (decide _); cbn [length]; lia.
Qed.
#[local] Instance held_by_perm operator : Proper ((≡ₚ) ==> (=)) (held_by operator).
Proof. intros l1 l2 Hl. unfold held_by, len. by rewrite Hl. Qed.
Lemma held_by_nonneg operator pending : 0 ≤ held_by operator pending.
Proof. unfold held_by, len. lia. Qed.

(** What an admission checked and did. *)
Lemma admit_ok c credential operator height descriptor c' :
  admit_body c limits policy credential operator height descriptor = Ok c' →
  let id := object_id descriptor in
  let held := default 0 (c.(adm_pending_by_operator) !! operator) in
  (∀ until, c.(adm_banned_until_height) !! operator = Some until → until ≤ height) ∧
  valid_admission_credential policy credential operator id = true ∧
  (∀ r, receipt_of credential = Some r → r ∉ c.(adm_spent_service_receipts)) ∧
  id ∉ c.(adm_seen) ∧ descriptor.(bed_original_size) ≤ limits.(al_max_package_size) ∧
  held < limits.(al_max_pending_per_operator) ∧
  c.(adm_pending_bytes) + descriptor.(bed_original_size) ≤ limits.(al_max_pending_bytes) ∧
  c'.(adm_seen) = {[id]} ∪ c.(adm_seen) ∧
  (∀ r, r ∈ c'.(adm_spent_service_receipts) ↔
        r ∈ option_list (receipt_of credential) ∨ r ∈ c.(adm_spent_service_receipts)) ∧
  c'.(adm_pending_by_operator) = <[operator := held + 1]> c.(adm_pending_by_operator) ∧
  c'.(adm_pending_bytes) = c.(adm_pending_bytes) + descriptor.(bed_original_size).
Proof.
  unfold admit_body. intros Ha. cbn zeta in *.
  destruct (match adm_banned_until_height c !! operator with Some _ => _ | None => _ end) eqn:Eb; [done|].
  destruct (valid_admission_credential _ _ _ _) eqn:Ev; [|done]. cbn [negb] in Ha.
  destruct (match receipt_of credential with Some _ => _ | None => _ end) eqn:Er; [done|].
  case_bool_decide as Hseen; [done|]. destruct (Z.ltb_spec (al_max_package_size limits) (bed_original_size descriptor)); [done|].
  apply bind_ok in Ha as (total & _ & Ha). destruct (_ || _); [done|]. destruct (_ <? total); [done|].
  destruct (Z.leb_spec (al_max_pending_per_operator limits) (default 0 (adm_pending_by_operator c !! operator))); [done|].
  apply bind_ok in Ha as (next & Hn & Ha). apply ok_or_ok, checked_add_some in Hn as [-> _].
  destruct (Z.ltb_spec (al_max_pending_bytes limits) (adm_pending_bytes c + bed_original_size descriptor)); [done|].
  injection Ha as <-. cbn. split_and!; try done.
  - intros u E. rewrite E in Eb. by apply Z.ltb_ge in Eb.
  - intros r E. rewrite E in Er. by apply bool_decide_eq_false in Er.
  - intros r. destruct (receipt_of credential); cbn; set_solver.
Qed.

Lemma admit_accounts c pending ids receipts credential operator height descriptor c' :
  accounts c pending ids receipts → 0 ≤ descriptor.(bed_original_size) →
  admit_body c limits policy credential operator height descriptor = Ok c' →
  accounts c' ((operator, descriptor.(bed_original_size)) :: pending) (object_id descriptor :: ids)
    (option_list (receipt_of credential) ++ receipts).
Proof.
  intros [[Hb Hb'] Hs Hcnt Hent Hq Hseen Honce Hspent [Hr1 Hr2]] Hpos Ha.
  apply admit_ok in Ha. cbn zeta in Ha. destruct Ha as (_ & Hv & Hnew & Hid & Hsz & Hheld & Hbytes & Es & Er & Ep & Eb).
  constructor.
  - rewrite Eb, fmap_cons, sumZ_cons. cbn [snd]. lia.
  - constructor; [cbn; lia|done].
  - intros o. rewrite held_by_cons, Ep. destruct (decide (operator = o)) as [->|].
    + rewrite lookup_insert_eq. cbn. by rewrite Hcnt.
    + rewrite lookup_insert_ne by done. rewrite Hcnt. lia.
  - intros o n. rewrite Ep, lookup_insert_Some. rewrite Hcnt. pose proof (held_by_nonneg operator pending).
    intros [[_ <-]|[_ E]]; [lia|by apply Hent in E].
  - intros o. rewrite held_by_cons. specialize (Hq o). destruct (decide (operator = o)) as [->|]; [|lia].
    rewrite Hcnt in Hheld. lia.
  - intros id. rewrite Es. set_solver.
  - apply NoDup_cons. split; [by rewrite <- Hseen|done].
  - intros r. rewrite Er, elem_of_app, Hspent. done.
  - destruct credential as [|nonce|r]; [done..|]. cbn in *. apply bool_decide_eq_true in Hv. split.
    + apply NoDup_cons. split; [rewrite <- Hspent; by apply Hnew|done].
    + by constructor.
Qed.

Lemma complete_accounts c pending pending' ids receipts operator size :
  accounts c pending ids receipts → pending ≡ₚ (operator, size) :: pending' →
  accounts (complete c operator size) pending' ids receipts.
Proof.
  intros [[Hb Hb'] Hs Hcnt Hent Hq Hseen Honce Hspent Hr] Hperm. rewrite Hperm in Hb, Hb', Hs.
  inversion Hs as [|? ? Hsz Hs']; subst. cbn in Hsz. rewrite fmap_cons, sumZ_cons in Hb, Hb'. cbn [snd] in Hb, Hb'.
  assert (0 ≤ sumZ pending'.*2) as Hnn.
  { apply sumZ_nonneg, Forall_fmap. eapply Forall_impl; [exact Hs'|]. cbn. lia. }
  assert (∀ o, default 0 (adm_pending_by_operator c !! o) =
               held_by o pending' + if decide (operator = o) then 1 else 0) as Hcnt'.
  { intros o. by rewrite Hcnt, Hperm, held_by_cons. }
  assert (∀ o, held_by o pending' ≤ held_by o pending) as Hle.
  { intros o. rewrite Hperm, held_by_cons. destruct (decide _); lia. }
  assert (adm_pending_by_operator (complete c operator size) =
          if decide (held_by operator pending' = 0) then delete operator c.(adm_pending_by_operator)
          else <[operator := held_by operator pending']> c.(adm_pending_by_operator)) as Ep.
  { cbn. specialize (Hcnt' operator). rewrite decide_True in Hcnt' by done. pose proof (held_by_nonneg operator pending').
    destruct (adm_pending_by_operator c !! operator) as [n|]; cbn in Hcnt'; [|lia].
    unfold saturating_sub. replace (Z.max (n - 1) 0) with (held_by operator pending') by lia.
    destruct (Z.eqb_spec (held_by operator pending') 0); case_decide; done. }
  constructor; try done.
  - cbn. unfold saturating_sub. lia.
  - intros o. rewrite Ep. specialize (Hcnt' o). destruct (decide (operator = o)) as [->|].
    + destruct (decide _) as [E|]; [rewrite lookup_delete_eq; cbn; lia|by rewrite lookup_insert_eq].
    + destruct (decide _); [rewrite lookup_delete_ne by done|rewrite lookup_insert_ne by done]; lia.
  - intros o n. rewrite Ep. pose proof (held_by_nonneg operator pending').
    destruct (decide _); rewrite ?lookup_delete_Some, ?lookup_insert_Some.
    + intros [_ E]. by apply Hent in E.
    + intros [[_ <-]|[_ E]]; [lia|by apply Hent in E].
  - intros o. etrans; [apply Hle|apply Hq].
Qed.

Lemma admission_run_accounts c pending ids receipts :
  0 ≤ limits.(al_max_pending_bytes) → 0 ≤ limits.(al_max_pending_per_operator) →
  admission_run c pending ids receipts → accounts c pending ids receipts.
Proof.
  intros Hl1 Hl2. induction 1.
  - constructor; try done; try (intros; cbn; set_solver); [constructor|].
    split; constructor.
  - by eapply admit_accounts.
  - by eapply complete_accounts.
  - unfold record_invalid_body. destruct (_ || _); [done|]. destruct IHadmission_run. by constructor.
Qed.
End Admission.

(** Admission keeps exact accounts. Through any sequence of admissions,
    completions of pending bodies and invalid-body strikes, the pending bytes are
    the sum of the sizes of the admitted and uncompleted bodies and stay within
    the byte budget, every operator's counter is the number of its pending
    bodies and stays within the quota, no body is admitted twice, and every
    service receipt accepted as a credential is one the policy lists and is spent
    at most once. *)
Lemma admission_accounts_exact `{Digests} limits policy c pending ids receipts :
  0 ≤ limits.(al_max_pending_bytes) → 0 ≤ limits.(al_max_pending_per_operator) →
  admission_run limits policy c pending ids receipts →
  c.(adm_pending_bytes) = sumZ pending.*2 ∧ c.(adm_pending_bytes) ≤ limits.(al_max_pending_bytes) ∧
  (∀ operator, default 0 (c.(adm_pending_by_operator) !! operator) = held_by operator pending ∧
               held_by operator pending ≤ limits.(al_max_pending_per_operator)) ∧
  NoDup ids ∧ NoDup receipts ∧ Forall (λ r, r ∈ policy.(ap_accepted_service_receipts)) receipts ∧
  (pending = [] → c.(adm_pending_by_operator) = ∅).
Proof.
  intros Hl1 Hl2 Hrun. apply admission_run_accounts in Hrun as [[Hb Hb'] _ Hcnt Hent Hq _ Honce _ [Hr1 Hr2]]; [|done..].
  split_and!; try done; [lia|]. intros ->. apply map_empty. intros o. specialize (Hcnt o).
  destruct (_ !! o) as [n|] eqn:E; [|done]. apply Hent in E. change (held_by o []) with 0 in Hcnt. cbn [default from_option Datatypes.id] in Hcnt. unfold Datatypes.id in Hcnt. lia.
Qed.

(** What one report changes. *)
Lemma record_invalid_body_strikes c operator height threshold ban strikes :
  0 < threshold < 2 ^ 16 → 0 < ban → default 0 (c.(adm_invalid_strikes) !! operator) = strikes → strikes + 1 ≤ threshold →
  let c' := record_invalid_body c operator height threshold ban in
  (strikes + 1 < threshold → default 0 (c'.(adm_invalid_strikes) !! operator) = strikes + 1) ∧
  (strikes + 1 = threshold →
   c'.(adm_banned_until_height) !! operator = Some (saturating_add 32 height ban)).
Proof.
  intros Ht Hb Hs Hle. unfold record_invalid_body. rewrite Hs, !(proj2 (Z.eqb_neq _ 0)) by lia. cbn [orb]. cbn zeta.
  assert (saturating_add 16 strikes 1 = strikes + 1) as -> by (unfold saturating_add; lia).
  destruct (Z.leb_spec threshold (strikes + 1)); (split; [intros ?|intros ?]); try lia; cbn [adm_invalid_strikes adm_banned_until_height];
    by rewrite lookup_insert_eq.
Qed.

Lemma strikes_ban_run c operator height threshold ban (k : nat) :
  0 < threshold < 2 ^ 16 → 0 < ban → default 0 (c.(adm_invalid_strikes) !! operator) + Z.of_nat (S k) = threshold →
  (Nat.iter (S k) (λ c, record_invalid_body c operator height threshold ban) c).(adm_banned_until_height) !! operator
  = Some (saturating_add 32 height ban).
Proof.
  intros Ht Hb. revert c. induction k as [|k IH]; intros c Hs.
  - apply (record_invalid_body_strikes c operator height threshold ban _ Ht Hb eq_refl); lia.
  - rewrite Nat.iter_succ_r. apply IH.
    rewrite (proj1 (record_invalid_body_strikes c operator height threshold ban _ Ht Hb eq_refl ltac:(lia))); lia.
Qed.

(** An operator that delivers [strike_threshold] invalid bodies is refused until
    the ban ends. *)
Lemma strikes_lead_to_ban `{Digests} c operator height threshold ban limits policy credential height' descriptor :
  0 < threshold < 2 ^ 16 → 0 < ban → c.(adm_invalid_strikes) !! operator = None →
  height' < saturating_add 32 height ban →
  admit_body (Nat.iter (Z.to_nat threshold) (λ c, record_invalid_body c operator height threshold ban) c)
    limits policy credential operator height' descriptor = Err AdmissionBanned.
Proof.
  intros Ht Hb Hn Hh. unfold admit_body. destruct (Z.to_nat threshold) as [|k] eqn:Ek; [lia|].
  rewrite (strikes_ban_run c operator height threshold ban k Ht Hb); [by rewrite (proj2 (Z.ltb_lt _ _) Hh)|].
  rewrite Hn. cbn [default]. lia.
Qed.

(** Retention is over only after the last of the four deadlines, once the session
    is closed, its mask opened and its block propagated. *)
Lemma may_prune_after_deadlines p descriptor state height :
  may_prune p descriptor state height = true →
  state.(ass_session_closed) = true ∧ state.(ass_mask_opened) = true ∧
  state.(ass_discovered_block_safely_propagated) = true ∧
  Forall (λ deadline, deadline ≤ height)
    [descriptor.(bed_expiry_height);
     saturating_add 32 state.(ass_parent_height) p.(arp_reorganization_horizon);
     state.(ass_storage_compensation_end_height);
     saturating_add 32 state.(ass_audit_retention_end_height) p.(arp_audit_retention_blocks)].
Proof.
  unfold may_prune. rewrite !andb_true_iff, !Z.leb_le. intros ((((((? & ?) & ?) & ?) & ?) & ?) & ?).
  split_and!; [done..|]. by repeat constructor.
Qed.

(** ** Persistence *)

Section Persisted.
Context `{Digests} {S : Type} `{!DurableStore S, !DurableStoreLaws S} `{HexOk} (env : nat → S → S).
Hypothesis env_journal : ∀ n s v, represents s v → ∃ v', represents (env n s) v' ∧ journal_le v v'.

Definition record_present (v : View) (record : ProtocolRecordKind * bytes * bytes) : Prop :=
  let '(kind, key, value) := record in v !! (kind_namespace kind, hex_encode key) = Some value.
Definition record_conflicts (v : View) (record : ProtocolRecordKind * bytes * bytes) : Prop :=
  let '(kind, key, value) := record in
  ∃ y, y ≠ value ∧ v !! (kind_namespace kind, hex_encode key) = Some y.

Lemma record_present_le v v' r : journal_le v v' → record_present v r → record_present v' r.
Proof. destruct r as [[kind key] value]. intros Hle. apply Hle, in_journal_kind. Qed.

Lemma persist_each_spec records n s v :
  represents s v →
  ∃ r n' s' v', persist_each env records (n, s) = (r, (n', s')) ∧ represents s' v' ∧ journal_le v v' ∧
    (r = Ok tt ∧ Forall (record_present v') records ∨
     r = Err (BPE_Durable ImmutableConflict) ∧ Exists (record_conflicts v') records).
Proof.
  revert n s v. induction records as [|[[kind key] value] records IH]; intros n s v Hrep; cbn [persist_each].
  { exists (Ok tt), n, s, v. split_and!; [done..|by left]. }
  destruct (persist_spec env journal_le env_journal (λ v v' H, H) kind key value n s v Hrep) as (r & n1 & s1 & v1 & -> & Hrep1 & Hle1 & Hr).
  destruct Hr as [[-> Hv]|(-> & y & Hne & Hy)].
  - destruct (IH n1 s1 v1 Hrep1) as (r & n2 & s2 & v2 & -> & Hrep2 & Hle2 & Hr).
    exists r, n2, s2, v2. split; [done|]. split; [done|]. split; [by etrans|].
    destruct Hr as [[-> Hall]|[-> Hex]]; [left; split; [done|]|right; split; [done|by right]].
    constructor; [|done]. by apply (record_present_le v1 _ (kind, key, value)).
  - eexists _, n1, s1, v1. split_and!; [done..|]. right. split; [done|]. left. by exists y.
Qed.

(** Persisting an encoded body among other writers: a mismatched descriptor
    changes nothing; otherwise either the package, its validation result, the
    descriptor and every shard are in the journal, or one of them was already
    there with different bytes. *)
Lemma body_persistence id body result_hash encoded n s v :
  represents s v →
  let matches := encoded.(eb_descriptor).(bed_body_package_id) = id ∧
                 encoded.(eb_descriptor).(bed_original_size) = len body in
  let records := body_records id body result_hash encoded in
  ∃ r n' s' v', persist_encoded_body env id body result_hash encoded (n, s) = (r, (n', s')) ∧
    represents s' v' ∧ journal_le v v' ∧
    (r = Ok tt ∧ matches ∧ Forall (record_present v') records ∨
     r = Err DescriptorMismatch ∧ ¬ matches ∧ (n', s') = (n, s) ∨
     r = Err (BPE_Durable ImmutableConflict) ∧ matches ∧ Exists (record_conflicts v') records).
Proof.
  intros Hrep. cbn zeta. unfold persist_encoded_body.
  destruct (bool_decide _ || _) eqn:E.
  - eexists _, n, s, v. split_and!; [done..|]. right; left. split_and!; [done| |done]. intros [M1 M2].
    rewrite M2, Z.eqb_refl in E. rewrite bool_decide_eq_false_2 in E by (by intros []). done.
  - apply orb_false_iff in E as [E1%bool_decide_eq_false E2%negb_false_iff%Z.eqb_eq]. apply dec_stable in E1.
    destruct (persist_each_spec (body_records id body result_hash encoded) n s v Hrep)
      as (r & n' & s' & v' & -> & Hrep' & Hle & Hr).
    exists r, n', s', v'. split_and!; [done..|]. destruct Hr as [[-> ?]|[-> ?]]; [by left|by right; right].
Qed.
End Persisted.

(** ** Witnesses *)

(** A repetition code: one data shard, copied. *)
Definition repetition_code : ErasureCode := {|
  rs_new data parity := if (data =? 1)%nat then Ok tt else Err [];
  rs_encode data parity shards := Ok (replicate (length shards) (default [] (head shards)));
  rs_reconstruct data parity partial :=
    Ok (replicate (length partial) (head (omap id partial)));
|}.
Lemma repetition_code_ok : @ErasureCodeOk repetition_code.
Proof.
  split; cbn.
  - intros data parity size shards Hn Hs Hl Hall. destruct (Nat.eqb_spec data 1) as [->|]; [|done].
    destruct shards as [|x shards]; [done|]. inversion Hall; subst. eexists. split; [done|].
    rewrite length_replicate. split; [done|]. split; [by apply Forall_replicate|done].
  - intros data parity size shards out partial Hn Hs Hl Hall Ho Hc Hd. injection Ho as <-.
    destruct (Nat.eqb_spec data 1) as [->|]; [|done]. destruct shards as [|x shards]; [done|].
    cbn [head default from_option] in *. change (Datatypes.id x) with x in *.
    rewrite (Forall2_length _ _ _ Hc), length_replicate, fmap_replicate.
    assert (∀ y, y ∈ omap id partial → y = x) as Hx.
    { intros y (o & Ho & Hy)%list_elem_of_omap. cbn in Hy. subst o.
      apply list_elem_of_lookup in Ho as [i Ho]. destruct (Forall2_lookup_l _ _ _ _ _ Hc Ho) as (z & Hz & [?|E]); [done|].
      injection E as ->. apply lookup_replicate in Hz as [? _]. done. }
    destruct (omap id partial) as [|y l]; cbn [length head] in *; [lia|]. by rewrite (Hx y) by left.
Qed.

Module AvailabilityWitness.
#[local] Existing Instances toy_digests toy_digests_ok repetition_code repetition_code_ok.

Definition body_id : Hash256 := replicate 32 x07.
Definition body : bytes := [x0a; x0b; x0c].
Definition encoded : EncodedBody :=
  match encode_body 2 0 body_id body 1 2 900 with Ok e => e | Err _ => mkEncodedBody (mkBodyErasureDescriptorV2 2 0 body_id 0 0 0 0 [] 0 0) [] end.

Lemma encoded_ok : encode_body 2 0 body_id body 1 2 900 = Ok encoded.
Proof.
  unfold encoded. destruct (encode_body _ _ _ _ _ _ _) eqn:E; [reflexivity|]. exfalso.
  assert (is_ok (encode_body 2 0 body_id body 1 2 900) = true) as Hok by (vm_compute; reflexivity).
  rewrite E in Hok. discriminate Hok.
Qed.

Lemma availability_roundtrip_witness :
  reconstruct_body encoded.(eb_descriptor) (drop 2 encoded.(eb_shards)) = Ok body.
Proof.
  destruct (availability_roundtrip 2 0 body_id body 1 2 900) as (enc & He & Hl & Hr); [lia|lia|lia|vm_compute; reflexivity|reflexivity|].
  rewrite encoded_ok in He. injection He as <-. apply Hr.
  - intros st Hst. rewrite <- (take_drop 2 (eb_shards encoded)). apply elem_of_app. by right.
  - apply (bool_decide_eq_true_1 (NoDup (ssh_index <$> drop 2 (eb_shards encoded)))). vm_compute. reflexivity.
  - unfold len in *. rewrite length_drop. lia.
Defined.

Lemma reconstruction_sound_witness :
  Forall typed_shard (take 1 encoded.(eb_shards)) ∧
  is_ok (reconstruct_body encoded.(eb_descriptor) (take 1 encoded.(eb_shards))) = true ∧
  ∀ out, reconstruct_body encoded.(eb_descriptor) (take 1 encoded.(eb_shards)) = Ok out →
  out = body ∨
  ∃ st m1 m2, st ∈ take 1 encoded.(eb_shards) ∧ m1 ∈ shard_messages encoded st ∧
    m2 ∈ encoding_messages (ssh_bytes <$> encoded.(eb_shards)) encoded ∧ collides 32 m1 m2.
Proof.
  assert (Forall typed_shard (take 1 encoded.(eb_shards))) as Hty.
  { apply Forall_forall. intros st Hst.
    assert (forallb (λ st, (0 <=? ssh_index st) && (ssh_index st <? 2 ^ 16) &&
      forallb (λ s, (length s =? 32)%nat) (spf_siblings (ssh_proof st))) (take 1 encoded.(eb_shards)) = true) as Hb
      by (vm_compute; reflexivity).
    rewrite forallb_forall in Hb. apply list_elem_of_In in Hst. apply Hb in Hst.
    apply andb_true_iff in Hst as [[?%Z.leb_le ?%Z.ltb_lt]%andb_true_iff Hs]. split; [unfold uint; lia|].
    rewrite forallb_forall in Hs. apply Forall_forall. intros s Hin. apply Nat.eqb_eq, Hs. by apply list_elem_of_In. }
  split; [exact Hty|]. split; [vm_compute; reflexivity|]. intros out Hout.
  apply (reconstruction_sound 2 0 body_id body 1 2 900 encoded _ out); [lia|lia|exact encoded_ok|exact Hty|exact Hout].
Defined.

Definition limits : AdmissionLimits := mkAdmissionLimits 1000 2000 2 8.
Definition policy : AdmissionPolicy := mkAdmissionPolicy ∅ {[ replicate 32 x05 ]} 8.
Definition operator : bytes := replicate 32 x01.
Definition admitted : AdmissionController :=
  match admit_body AdmissionController_default limits policy (ServiceReceipt (replicate 32 x05)) operator 10
          encoded.(eb_descriptor) with Ok c => c | Err _ => AdmissionController_default end.

Lemma admission_accounts_exact_witness :
  ∃ ids receipts, admission_run limits policy (complete admitted operator 3) [] ids receipts ∧
    (complete admitted operator 3).(adm_pending_by_operator) = ∅.
Proof.
  assert (admit_body AdmissionController_default limits policy (ServiceReceipt (replicate 32 x05)) operator 10
            encoded.(eb_descriptor) = Ok admitted) as Ha.
  { unfold admitted. destruct (admit_body _ _ _ _ _ _ _) eqn:E; [reflexivity|]. exfalso.
    assert (is_ok (admit_body AdmissionController_default limits policy (ServiceReceipt (replicate 32 x05)) operator 10
              encoded.(eb_descriptor)) = true) as Hok by (vm_compute; reflexivity).
    rewrite E in Hok. discriminate Hok. }
  assert (bed_original_size (eb_descriptor encoded) = 3) as Hs by (vm_compute; reflexivity).
  assert (∃ ids receipts, admission_run limits policy (complete admitted operator 3) [] ids receipts)
    as (ids & receipts & Hrun).
  { do 2 eexists. eapply run_complete; [|reflexivity]. rewrite <- Hs. eapply run_admit; [constructor|lia|exact Ha]. }
  exists ids, receipts. split; [exact Hrun|].
  apply (admission_accounts_exact limits policy _ [] ids receipts); [cbn; lia|cbn; lia|exact Hrun|reflexivity].
Defined.
End AvailabilityWitness.
