(* ===== verification/Client.v ===== *)
(** * Clients of the durable store

    The monad of code that calls a [DurableStore], fails with its own error type
    and runs among other writers, and the rules of a total-correctness logic for
    it: each store call is one atomic step, before which the other writers may
    take any number of steps of a relation [R]; and the view of a concrete store. *)

From S2P Require Import Prelude Storage Journal.

Section Monad.
Context {S : Type} `{!DurableStore S} {E : Type}.
(** What the other writers do before the client's [n]-th call, and [#[from] StorageError]. *)
Context (env : nat → S → S) (from_storage : StorageError → E).

Definition eclient (A : Type) : Type := nat * S → result E A * (nat * S).
#[global] Instance eclient_ret : MRet eclient := λ A a w, (Ok a, w).
#[global] Instance eclient_bind : MBind eclient := λ A B f m w,
  match m w with
  | (Ok a, w') => f a w'
  | (Err e, w') => (Err e, w')
  end.
Definition elift {A} (r : result E A) : eclient A := λ w, (r, w).
Definition ecall {A} (m : store_m S A) : eclient A := λ '(n, s),
  let '(r, s') := m (env n s) in (map_err from_storage r, (Datatypes.S n, s')).
(** The moment at which something outside the store is asked: no two are the same. *)
Definition emoment : eclient nat := λ '(n, s), (Ok n, (Datatypes.S n, s)).
End Monad.

(** [.map_err(f)?] and a result that is matched on instead. *)
Definition emap_err {S E E' A} (f : E → E') (m : eclient (S := S) (E := E) A) : eclient (S := S) (E := E') A := λ w,
  let '(r, w') := m w in (map_err f r, w').
Definition eattempt {S E E' A} (m : eclient (S := S) (E := E) A) :
    eclient (S := S) (E := E') (result E A) := λ w,
  let '(r, w') := m w in (Ok r, w').

Section Logic.
Context {S : Type} `{!DurableStore S, !DurableStoreLaws S} {E : Type}.

(** Run from a store that represents [v], [m] ends with a result and a view that
    satisfy [Φ]. *)
Definition ewp {A} (m : eclient (S := S) (E := E) A) (v : View) (Φ : result E A → View → Prop) : Prop :=
  ∀ n s, represents s v → ∃ r n' s' v', m (n, s) = (r, (n', s')) ∧ represents s' v' ∧ Φ r v'.

Lemma ewp_ret {A} (a : A) (v : View) (Φ : result E A → View → Prop) : Φ (Ok a) v → ewp (mret a) v Φ.
Proof. intros Ha n s Hrep. by exists (Ok a), n, s, v. Qed.
Lemma ewp_lift {A} (r : result E A) (v : View) (Φ : result E A → View → Prop) : Φ r v → ewp (elift r) v Φ.
Proof. intros Ha n s Hrep. by exists r, n, s, v. Qed.
Lemma ewp_mono {A} (m : eclient (S := S) A) (v : View) (Φ Ψ : result E A → View → Prop) :
  (∀ r v', Φ r v' → Ψ r v') → ewp m v Φ → ewp m v Ψ.
Proof. intros Himp Hm n s Hrep. destruct (Hm n s Hrep) as (r & n' & s' & v' & ? & ? & ?). naive_solver. Qed.
Lemma ewp_bind {A B} (m : eclient (S := S) A) (f : A → eclient B) (v : View) (Φ : result E B → View → Prop) :
  ewp m v (λ r v1, match r with Ok a => ewp (f a) v1 Φ | Err e => Φ (Err e) v1 end) → ewp (m ≫= f) v Φ.
Proof.
  intros Hm n s Hrep. destruct (Hm n s Hrep) as (r & n1 & s1 & v1 & Er & Hrep1 & Hr).
  unfold mbind, eclient_bind. rewrite Er. destruct r as [a|e]; [|by eexists _, n1, s1, v1]. by apply Hr.
Qed.
Lemma ewp_lift_bind {A B} (r : result E A) (f : A → eclient (S := S) B) (v : View) (Φ : result E B → View → Prop) :
  (∀ a, r = Ok a → ewp (f a) v Φ) → (∀ e, r = Err e → Φ (Err e) v) → ewp (elift r ≫= f) v Φ.
Proof. intros Hok Herr. apply ewp_bind, ewp_lift. destruct r; auto. Qed.
Lemma ewp_moment_bind {B} (f : nat → eclient (S := S) B) (v : View) (Φ : result E B → View → Prop) :
  (∀ n, ewp (f n) v Φ) → ewp (emoment ≫= f) v Φ.
Proof. intros Hf n s Hrep. by apply Hf. Qed.
Lemma ewp_map_err {E' A} (f : E' → E) (m : eclient (S := S) (E := E') A) (v : View) (Φ : result E A → View → Prop) :
  (∀ n s, represents s v → ∃ r n' s' v', m (n, s) = (r, (n', s')) ∧ represents s' v' ∧ Φ (map_err f r) v') →
  ewp (emap_err f m) v Φ.
Proof.
  intros Hm n s Hrep. destruct (Hm n s Hrep) as (r & n' & s' & v' & Em & ? & ?).
  unfold emap_err. rewrite Em. by eexists _, n', s', v'.
Qed.

Context (env : nat → S → S) (from_storage : StorageError → E) (R : relation View).
Hypothesis env_R : ∀ n s v, represents s v → ∃ v', represents (env n s) v' ∧ R v v'.

(** A call whose specification maps every view to a result and a view. *)
Lemma ewp_call {A} (m : store_m S A) (spec : store_m View A) (v : View) (Φ : result E A → View → Prop) :
  simulates m spec → (∀ v1, R v v1 → Φ (map_err from_storage (spec v1).1) (spec v1).2) →
  ewp (ecall env from_storage m) v Φ.
Proof.
  intros Hsim HΦ n s Hrep. destruct (env_R n s v Hrep) as (v1 & Hrep1 & Hle).
  destruct (Hsim _ _ Hrep1) as [E1 HR]. unfold ecall. destruct (m (env n s)) as [r s'] eqn:Em. cbn in E1, HR.
  eexists _, _, s', _. split; [done|]. split; [exact HR|]. rewrite E1. by apply HΦ.
Qed.

Lemma ewp_get (ns k : bytes) (v : View) (Φ : result E (option bytes) → View → Prop) :
  valid_key (ns, k) = true → (∀ v1 : View, R v v1 → Φ (Ok (v1 !! (ns, k))) v1) →
  ewp (ecall env from_storage (get ns k)) v Φ.
Proof.
  intros Hv HΦ. eapply ewp_call; [apply get_spec|]. intros v1 Hle. unfold spec_get. run_store.
  rewrite Hv. cbn. by apply HΦ.
Qed.
Lemma ewp_put (ns k x : bytes) (v : View) (Φ : result E unit → View → Prop) :
  valid_key (ns, k) = true → (∀ v1 : View, R v v1 → Φ (Ok tt) (<[(ns, k) := x]> v1)) →
  ewp (ecall env from_storage (put ns k x)) v Φ.
Proof.
  intros Hv HΦ. eapply ewp_call; [apply put_spec|]. intros v1 Hle. unfold spec_put. run_store.
  rewrite Hv. cbn. by apply HΦ.
Qed.
Lemma ewp_delete (ns k : bytes) (v : View) (Φ : result E unit → View → Prop) :
  valid_key (ns, k) = true → (∀ v1 : View, R v v1 → Φ (Ok tt) (delete (ns, k) v1)) →
  ewp (ecall env from_storage (delete_key ns k)) v Φ.
Proof.
  intros Hv HΦ. eapply ewp_call; [apply delete_spec|]. intros v1 Hle. unfold spec_delete. run_store.
  rewrite Hv. cbn. by apply HΦ.
Qed.

Definition conditions_hold (v : View) (cs : list BatchCondition) : Prop :=
  Forall (λ c, v !! condition_target c = c.(bc_expected)) cs.
Lemma conditions_hold_spec (v : View) cs : forallb (condition_holds v) cs = true ↔ conditions_hold v cs.
Proof.
  unfold conditions_hold. rewrite forallb_forall, Forall_forall. unfold condition_holds.
  setoid_rewrite bool_decide_eq_true. setoid_rewrite list_elem_of_In. done.
Qed.

Lemma ewp_spec_batch {A} (m : store_m S A) cs ops (v : View) (Φ : result E A → View → Prop)
    (ret : bool → A) :
  simulates m (b ← spec_apply_batch_if_all cs ops; mret (ret b)) → batch_keys_valid cs ops = true →
  (∀ v1 : View, R v v1 → conditions_hold v1 cs → Φ (Ok (ret true)) (view_apply v1 ops)) →
  (∀ v1 : View, R v v1 → ¬ conditions_hold v1 cs → Φ (Ok (ret false)) v1) →
  ewp (ecall env from_storage m) v Φ.
Proof.
  intros Hsim Hv Ht Hf. eapply ewp_call; [exact Hsim|]. intros v1 Hle. unfold spec_apply_batch_if_all. run_store.
  unfold batch_keys_valid in Hv. apply andb_true_iff in Hv as [-> ->]. cbn.
  destruct (forallb (condition_holds v1) cs) eqn:Ec; cbn.
  - apply Ht; [done|]. by apply conditions_hold_spec.
  - apply Hf; [done|]. rewrite <- conditions_hold_spec. congruence.
Qed.

Lemma simulates_bool (m : store_m S bool) spec :
  simulates m spec → simulates m (b ← spec; mret b).
Proof.
  intros Hs s v Hrep. destruct (Hs s v Hrep) as [E1 E2]. unfold mbind, store_bind.
  destruct (spec v) as [[b|e] v']; cbn in *; by rewrite E1.
Qed.
Lemma ewp_batch_if_all cs ops (v : View) (Φ : result E bool → View → Prop) :
  batch_keys_valid cs ops = true →
  (∀ v1 : View, R v v1 → conditions_hold v1 cs → Φ (Ok true) (view_apply v1 ops)) →
  (∀ v1 : View, R v v1 → ¬ conditions_hold v1 cs → Φ (Ok false) v1) →
  ewp (ecall env from_storage (apply_batch_if_all cs ops)) v Φ.
Proof. apply (ewp_spec_batch _ _ _ _ _ (λ b, b)), simulates_bool, apply_batch_if_all_spec. Qed.
Lemma ewp_batch_if ns k expected ops (v : View) (Φ : result E bool → View → Prop) :
  batch_keys_valid [mkBatchCondition ns k expected] ops = true →
  (∀ v1 : View, R v v1 → v1 !! (ns, k) = expected → Φ (Ok true) (view_apply v1 ops)) →
  (∀ v1 : View, R v v1 → v1 !! (ns, k) ≠ expected → Φ (Ok false) v1) →
  ewp (ecall env from_storage (apply_batch_if ns k expected ops)) v Φ.
Proof.
  intros Hv Ht Hf. eapply (ewp_spec_batch _ _ _ _ _ (λ b, b)).
  - apply simulates_bool, apply_batch_if_spec.
  - done.
  - intros v1 Hle Hc. apply Ht; [done|]. unfold conditions_hold in Hc. by rewrite Forall_singleton in Hc.
  - intros v1 Hle Hc. apply Hf; [done|]. intros Heq. apply Hc, Forall_singleton. done.
Qed.
Lemma ewp_cas ns k expected x (v : View) (Φ : result E bool → View → Prop) :
  valid_key (ns, k) = true →
  (∀ v1 : View, R v v1 → v1 !! (ns, k) = expected → Φ (Ok true) (<[(ns, k) := x]> v1)) →
  (∀ v1 : View, R v v1 → v1 !! (ns, k) ≠ expected → Φ (Ok false) v1) →
  ewp (ecall env from_storage (compare_and_swap ns k expected x)) v Φ.
Proof.
  intros Hv Ht Hf. eapply (ewp_spec_batch _ _ _ _ _ (λ b, b)).
  - apply simulates_bool, compare_and_swap_spec.
  - unfold batch_keys_valid, condition_target, operation_target. cbn [fmap list_fmap forallb bc_namespace bc_key]. by rewrite Hv.
  - intros v1 Hle Hc. apply Ht; [done|]. unfold conditions_hold in Hc. by rewrite Forall_singleton in Hc.
  - intros v1 Hle Hc. apply Hf; [done|]. intros Heq. apply Hc, Forall_singleton. done.
Qed.

(** The first page of a namespace whose records each fit a page. *)
Lemma ewp_first_page ns limits (v : View) (Φ : result E NamespacePage → View → Prop) :
  valid_key (ns, []) = true → page_limits_ok limits →
  (∀ v1 : View, R v v1 → Forall (admissible limits) (namespace_entries v1 ns)) →
  (∀ (v1 : View) l1 l2, R v v1 → namespace_entries v1 ns = l1 ++ l2 → (l2 ≠ [] → l1 ≠ []) →
    Φ (Ok (mkNamespacePage (to_record <$> l1) (bool_decide (l2 ≠ [])))) v1) →
  ewp (ecall env from_storage (scan_namespace_after ns None limits)) v Φ.
Proof.
  intros Hv Hl Hadm HΦ. eapply ewp_call; [apply scan_namespace_after_spec|]. intros v1 Hle.
  unfold spec_scan_namespace_after. run_store. rewrite Hv. cbn.
  match goal with |- context [filter ?P ?l] => replace (filter P l) with l end.
  2: { induction (namespace_entries v1 ns); [done|]. rewrite filter_cons_True by done. by f_equal. }
  destruct (page_loop_prefix limits [] 0 (namespace_entries v1 ns)) as (l1 & l2 & El & Ep & Hne);
    [done|by apply Hadm|destruct Hl; lia|done|].
  rewrite Ep. cbn. apply (HΦ v1 l1 l2); [done..|]. intros Hl2 ->. by apply (Hne Hl2).
Qed.
End Logic.

(** ** The view of a concrete store *)

Fixpoint split_nul (f : bytes) : option (bytes * bytes) :=
  match f with
  | [] => None
  | b :: f =>
      if bool_decide (b = x00) then if bool_decide (x00 ∈ f) then None else Some ([], f)
      else '(ns, k) ← split_nul f; Some (b :: ns, k)
  end.
Lemma split_nul_spec f ns k : split_nul f = Some (ns, k) → f = ns ++ [x00] ++ k ∧ x00 ∉ ns ∧ x00 ∉ k.
Proof.
  revert ns. induction f as [|b f IH]; intros ns; cbn [split_nul]; [done|]. case_bool_decide as Eb.
  - case_bool_decide; [done|]. intros [= <- <-]. subst b. split_and!; [done|apply not_elem_of_nil|done].
  - intros ([ns' k'] & Hs & [= <- ->])%bind_Some. destruct (IH ns' Hs) as (-> & ? & ?). split_and!; [done| |done].
    rewrite not_elem_of_cons. by split.
Qed.
Definition well_keyed (m : MemoryStore) : bool := forallb (λ p, bool_decide (is_Some (split_nul p.1))) (map_to_list m).
Lemma well_keyed_view (m : MemoryStore) : well_keyed m = true → ∃ v : View, represents m v.
Proof.
  unfold well_keyed. induction m as [|f x m Hf IH] using map_ind; [intros _; exists ∅; apply mem_represents_empty|].
  rewrite forallb_forall. intros Hk.
  destruct IH as [v Hrep].
  { apply forallb_forall. intros p Hp. apply Hk. revert Hp. rewrite <- !list_elem_of_In. destruct p as [g y].
    rewrite !elem_of_map_to_list. intros Hg. rewrite lookup_insert_ne; [done|]. intros ->. congruence. }
  assert (is_Some (split_nul f)) as [[ns k] Hs].
  { apply (bool_decide_eq_true (is_Some (split_nul (f, x).1))), (Hk (f, x)).
    apply list_elem_of_In, elem_of_map_to_list, lookup_insert_eq. }
  destruct (split_nul_spec _ _ _ Hs) as (-> & ? & ?). exists (<[(ns, k) := x]> v). apply (mem_represents_insert m v Hrep).
  by apply valid_key_spec.
Qed.
(** A row of the view is a row of the store. *)
Lemma view_row (m : MemoryStore) (v : View) (ns k : bytes) :
  represents m v → bool_decide (x00 ∈ ns) || bool_decide (x00 ∈ k) = false → v !! (ns, k) = m !! (ns ++ [x00] ++ k).
Proof. intros Hrep [?%bool_decide_eq_false ?%bool_decide_eq_false]%orb_false_iff. symmetry. by apply Hrep. Qed.
