(* ===== verification/Work.v ===== *)
(** * Work leases and their records (crates/meshmine-work: capabilities.rs,
    lease.rs, record.rs, target.rs)

    What a device can do, the envelope of a signed assignment, the leases cut out
    of it, the prepared jobs and captures, all with their canonical codecs, and
    the controller that adapts a device's edge target. *)

From S2P Require Import Prelude Codec Hash Types Objects Target Header.

(** ** Device capabilities *)

Inductive BackendKind :=
| HandyStratum | NativeWorker | ExternalProcess | Cuda | Rocm | Arm64Cpu | X86Cpu | Vulkan | Simulator.
#[export] Instance BackendKind_eq_dec : EqDecision BackendKind.
Proof. solve_decision. Defined.

(** [self.backend_kind as u8] *)
Definition backend_code (k : BackendKind) : Z :=
  match k with
  | HandyStratum => 1 | NativeWorker => 2 | ExternalProcess => 3 | Cuda => 4 | Rocm => 5
  | Arm64Cpu => 6 | X86Cpu => 7 | Vulkan => 8 | Simulator => 255
  end.

Inductive CapabilityError :=
| ZeroDeviceId | ZeroJobRate | ZeroBatchSize | InvalidRangeCompletionClaim | StrideWithoutRange
| UnknownBackendKind (value : Z).

Definition backend_from_u8 (value : Z) : result CapabilityError BackendKind :=
  match value with
  | 1 => Ok HandyStratum | 2 => Ok NativeWorker | 3 => Ok ExternalProcess | 4 => Ok Cuda | 5 => Ok Rocm
  | 6 => Ok Arm64Cpu | 7 => Ok X86Cpu | 8 => Ok Vulkan | 255 => Ok Simulator
  | _ => Err (UnknownBackendKind value)
  end.

Record DeviceCapabilities := mkDeviceCapabilities {
  dc_device_id : Hash256;
  dc_backend_kind : BackendKind;
  dc_supports_nonce_range : bool;
  dc_supports_nonce_stride : bool;
  dc_supports_extra_nonce_range : bool;
  dc_supports_ntime_rolling : bool;
  dc_supports_job_prepare : bool;
  dc_reports_range_completion : bool;
  dc_minimum_device_target : U256;
  dc_maximum_job_rate_hz : Z;
  dc_preferred_batch_size : Z;
  dc_measured_hashrate : option Z;
  dc_telemetry_level : Z;
}.
#[export] Instance DeviceCapabilities_eq_dec : EqDecision DeviceCapabilities.
Proof. solve_decision. Defined.

Definition validate_capabilities (c : DeviceCapabilities) : result CapabilityError unit :=
  if bool_decide (c.(dc_device_id) = replicate 32 x00) then Err ZeroDeviceId
  else if c.(dc_maximum_job_rate_hz) =? 0 then Err ZeroJobRate
  else if c.(dc_preferred_batch_size) =? 0 then Err ZeroBatchSize
  else if c.(dc_supports_nonce_stride) && negb c.(dc_supports_nonce_range) then Err StrideWithoutRange
  else if c.(dc_reports_range_completion) && negb c.(dc_supports_nonce_range)
  then Err InvalidRangeCompletionClaim
  else Ok tt.

Definition is_stock_asic (c : DeviceCapabilities) : bool :=
  bool_decide (c.(dc_backend_kind) = HandyStratum) && negb c.(dc_reports_range_completion).

Definition same_static_contract (c other : DeviceCapabilities) : bool :=
  bool_decide (c.(dc_device_id) = other.(dc_device_id)) &&
  bool_decide (c.(dc_backend_kind) = other.(dc_backend_kind)) &&
  bool_decide (c.(dc_supports_nonce_range) = other.(dc_supports_nonce_range)) &&
  bool_decide (c.(dc_supports_nonce_stride) = other.(dc_supports_nonce_stride)) &&
  bool_decide (c.(dc_supports_extra_nonce_range) = other.(dc_supports_extra_nonce_range)) &&
  bool_decide (c.(dc_supports_ntime_rolling) = other.(dc_supports_ntime_rolling)) &&
  bool_decide (c.(dc_supports_job_prepare) = other.(dc_supports_job_prepare)) &&
  bool_decide (c.(dc_reports_range_completion) = other.(dc_reports_range_completion)) &&
  bool_decide (c.(dc_minimum_device_target) = other.(dc_minimum_device_target)) &&
  bool_decide (c.(dc_maximum_job_rate_hz) = other.(dc_maximum_job_rate_hz)) &&
  bool_decide (c.(dc_preferred_batch_size) = other.(dc_preferred_batch_size)) &&
  bool_decide (c.(dc_telemetry_level) = other.(dc_telemetry_level)).

(** ** Readers shared by the records *)

Definition bool_value (value : Z) : result CodecError bool :=
  match value with 0 => Ok false | 1 => Ok true | _ => Err (InvalidField "boolean") end.
Definition dec_bool : parser bool := v ← dec_u8; plift (bool_value v).
Definition enc_bool (b : bool) : Writer := enc_u8 (Z.b2z b).
Definition dec_optional_u64 (name : string) : parser (option Z) :=
  tag ← dec_u8;
  if tag =? 0 then mret None
  else if tag =? 1 then value ← dec_u64; mret (Some value)
  else plift (Err (InvalidField name)).
Definition dec_backend_kind : parser BackendKind :=
  v ← dec_u8; plift (map_err (λ _, InvalidField "backend_kind") (backend_from_u8 v)).

#[export] Instance enc_bool_appends b : Appends (enc_bool b).
Proof. unfold enc_bool. apply _. Qed.
#[global] Typeclasses Opaque enc_bool.

Lemma reads_bool limits b : reads limits dec_bool (enc_bool b) b.
Proof.
  eapply reads_bind_end; [apply reads_u8; destruct b; unfold uint; cbn; lia|].
  apply reads_plift. by destruct b.
Qed.
Lemma accepts_bool limits : accepts limits dec_bool (λ b bs, True ∧ bs = enc_bool b []).
Proof.
  eapply accepts_bind; [apply accepts_u8|]. intros v bs [_ ->].
  eapply accepts_mono; [apply accepts_plift|]. intros b bs [Hb ->]. split; [done|].
  unfold enc_bool. rewrite app_nil_r. unfold bool_value in Hb. by repeat case_match; simplify_eq.
Qed.
Lemma reads_optional_u64 limits name o :
  ok_option (uint 64) o → reads limits (dec_optional_u64 name) (encode_option o enc_u64) o.
Proof.
  intros Ho. destruct o as [x|]; unfold encode_option, dec_optional_u64.
  - eapply reads_bind; [apply _|by apply reads_u8|]. cbn [Z.eqb].
    eapply reads_bind_end; [by apply reads_u64|]. apply reads_ret.
  - eapply reads_bind_end; [by apply reads_u8|]. apply reads_ret.
Qed.
Lemma accepts_optional_u64 limits name :
  accepts limits (dec_optional_u64 name) (λ o bs, ok_option (uint 64) o ∧ bs = encode_option o enc_u64 []).
Proof.
  eapply accepts_bind; [apply accepts_u8|]. intros tag bs [Ht ->].
  apply accepts_if; [intros ->%Z.eqb_eq; by apply accepts_ret|]. intros _.
  apply accepts_if; [intros ->%Z.eqb_eq|intros _; eapply accepts_mono; [apply accepts_plift|by intros ? ? [? _]]].
  eapply accepts_bind; [apply accepts_u64|]. intros x bs [HP ->]. apply accepts_ret. split; [done|].
  unfold encode_option. by rewrite wseq_nil, app_nil_r by apply _.
Qed.
Lemma reads_backend_kind limits k : reads limits dec_backend_kind (enc_u8 (backend_code k)) k.
Proof.
  eapply reads_bind_end; [apply reads_u8; destruct k; unfold uint; cbn; lia|].
  apply reads_plift. by destruct k.
Qed.
Lemma accepts_backend_kind limits :
  accepts limits dec_backend_kind (λ k bs, True ∧ bs = enc_u8 (backend_code k) []).
Proof.
  eapply accepts_bind; [apply accepts_u8|]. intros v bs [_ ->].
  eapply accepts_mono; [apply accepts_plift|]. intros k bs [Hk%map_err_ok ->]. split; [done|].
  rewrite app_nil_r. unfold backend_from_u8 in Hk. by repeat case_match; simplify_eq.
Qed.
#[export] Hint Resolve reads_bool reads_optional_u64 reads_backend_kind : codec.
#[export] Hint Extern 1 (accepts _ dec_bool _) => apply accepts_bool : codec.
#[export] Hint Extern 1 (accepts _ (dec_optional_u64 _) _) => apply accepts_optional_u64 : codec.
#[export] Hint Extern 1 (accepts _ dec_backend_kind _) => apply accepts_backend_kind : codec.

(** The constraints gathered by [solve_accepts]. *)
Ltac destruct_unit_ok :=
  destruct_and?; repeat match goal with
  | u : () |- _ => destruct u
  | H : ensure _ _ = Ok _ |- _ => apply ensure_ok in H
  end.

Definition capabilities_valid (c : DeviceCapabilities) : bool := is_ok (validate_capabilities c).
Definition encode_DeviceCapabilities (o : DeviceCapabilities) : Writer :=
  enc_fixed o.(dc_device_id) >>>
  enc_u8 (backend_code o.(dc_backend_kind)) >>>
  enc_bool o.(dc_supports_nonce_range) >>>
  enc_bool o.(dc_supports_nonce_stride) >>>
  enc_bool o.(dc_supports_extra_nonce_range) >>>
  enc_bool o.(dc_supports_ntime_rolling) >>>
  enc_bool o.(dc_supports_job_prepare) >>>
  enc_bool o.(dc_reports_range_completion) >>>
  enc_fixed o.(dc_minimum_device_target) >>>
  enc_u32 o.(dc_maximum_job_rate_hz) >>>
  enc_u64 o.(dc_preferred_batch_size) >>>
  encode_option o.(dc_measured_hashrate) enc_u64 >>>
  enc_u8 o.(dc_telemetry_level).
Definition decode_DeviceCapabilities : parser DeviceCapabilities :=
  device_id ← dec_array 32;
  backend_kind ← dec_backend_kind;
  supports_nonce_range ← dec_bool;
  supports_nonce_stride ← dec_bool;
  supports_extra_nonce_range ← dec_bool;
  supports_ntime_rolling ← dec_bool;
  supports_job_prepare ← dec_bool;
  reports_range_completion ← dec_bool;
  minimum_device_target ← dec_array 32;
  maximum_job_rate_hz ← dec_u32;
  preferred_batch_size ← dec_u64;
  measured_hashrate ← dec_optional_u64 "measured_hashrate";
  telemetry_level ← dec_u8;
  let value := mkDeviceCapabilities device_id backend_kind supports_nonce_range supports_nonce_stride
    supports_extra_nonce_range supports_ntime_rolling supports_job_prepare
    reports_range_completion minimum_device_target maximum_job_rate_hz preferred_batch_size
    measured_hashrate telemetry_level in
  _ ← plift (ensure (capabilities_valid value) (InvalidField "device_capabilities"));
  mret value.

Definition ok_DeviceCapabilities (limits : DecodeLimits) (o : DeviceCapabilities) : Prop :=
  arr 32 o.(dc_device_id) ∧
  arr 32 o.(dc_minimum_device_target) ∧
  uint 32 o.(dc_maximum_job_rate_hz) ∧
  uint 64 o.(dc_preferred_batch_size) ∧
  ok_option (uint 64) o.(dc_measured_hashrate) ∧
  uint 8 o.(dc_telemetry_level) ∧
  capabilities_valid o = true.

#[export] Instance encode_DeviceCapabilities_appends o : Appends (encode_DeviceCapabilities o).
Proof. unfold encode_DeviceCapabilities. apply _. Qed.
Lemma reads_DeviceCapabilities limits o : ok_DeviceCapabilities limits o → reads limits decode_DeviceCapabilities (encode_DeviceCapabilities o) o.
Proof.
  unfold ok_DeviceCapabilities. intros Hok. destruct_and!. unfold decode_DeviceCapabilities, encode_DeviceCapabilities. solve_reads.
  all: destruct o; first [reflexivity | by apply (ensure_ok _ _ tt)].
Qed.
Lemma accepts_DeviceCapabilities limits :
  accepts limits decode_DeviceCapabilities (λ o bs, ok_DeviceCapabilities limits o ∧ bs = encode_DeviceCapabilities o []).
Proof.
  unfold decode_DeviceCapabilities. solve_accepts. split.
  - destruct_unit_ok. repeat (split; [done|]). done.
  - unfold encode_DeviceCapabilities. by flatten_writers.
Qed.
#[export] Instance DeviceCapabilities_codec : Codec DeviceCapabilities := {| encode := encode_DeviceCapabilities; decode := decode_DeviceCapabilities |}.
#[export] Instance DeviceCapabilities_codec_laws : CodecLaws DeviceCapabilities := {|
  codec_ok := ok_DeviceCapabilities; encode_appends := encode_DeviceCapabilities_appends;
  decode_encode := reads_DeviceCapabilities; decode_sound := accepts_DeviceCapabilities |}.

(** ** Leases *)

Definition WORK_PROTOCOL_VERSION : Z := 1.
Definition WORK_LEASE_DOMAIN : bytes := str "MESHMINE/WORK_LEASE/V1".
Definition PREPARED_DEVICE_JOB_DOMAIN : bytes := str "MESHMINE/PREPARED_DEVICE_JOB/V1".
Definition WORK_SCHEMA_VERSION : Z := 2.
Definition CAPTURE_DOMAIN : bytes := str "MESHMINE/WORK_CAPTURE/V2".

Inductive EnvelopeKind := KindAssignmentV2 | KindGatewayAssignmentV1.
#[export] Instance EnvelopeKind_eq_dec : EqDecision EnvelopeKind.
Proof. solve_decision. Defined.

Record WorkEnvelope := mkWorkEnvelope {
  we_kind : EnvelopeKind;
  we_assignment_id : Hash256;
  we_assignment_sequence : Z;
  we_job_generation : Z;
  we_worker_id_hash : Hash256;
  we_ntime : Z;
  we_extra_nonce_profile : Z;
  we_extra_nonce_start : bytes;
  we_extra_nonce_end : bytes;
  we_nonce_start : Z;
  we_nonce_end : Z;
  we_nonce_stride : Z;
  we_edge_target : U256;
  we_capture_target : U256;
  we_telemetry_level : Z;
}.
#[export] Instance WorkEnvelope_eq_dec : EqDecision WorkEnvelope.
Proof. solve_decision. Defined.
Record WorkLease := mkWorkLease {
  wl_protocol_version : Z;
  wl_lease_id : Hash256;
  wl_assignment_id : Hash256;
  wl_assignment_sequence : Z;
  wl_job_generation : Z;
  wl_device_id : Hash256;
  wl_extra_nonce_profile : Z;
  wl_extra_nonce_start : bytes;
  wl_extra_nonce_end : bytes;
  wl_nonce_start : Z;
  wl_nonce_end : Z;
  wl_nonce_stride : Z;
  wl_edge_target : U256;
  wl_capture_target : U256;
  wl_activated_at_ms : Z;
  wl_expires_at_ms : option Z;
  wl_completion_report_allowed : bool;
}.
#[export] Instance WorkLease_eq_dec : EqDecision WorkLease.
Proof. solve_decision. Defined.
Record PreparedDeviceJob := mkPreparedDeviceJob {
  pj_protocol_version : Z;
  pj_job_id : Hash256;
  pj_assignment_id : Hash256;
  pj_lease_id : Hash256;
  pj_generation : Z;
  pj_previous_block : Hash256;
  pj_merkle_root : Hash256;
  pj_witness_root : Hash256;
  pj_tree_root : Hash256;
  pj_reserved_root : Hash256;
  pj_version : Z;
  pj_bits : Z;
  pj_ntime : Z;
  pj_mask_hash : Hash256;
  pj_extra_nonce_start : bytes;
  pj_extra_nonce_end : bytes;
  pj_nonce_start : Z;
  pj_nonce_end : Z;
  pj_nonce_stride : Z;
  pj_edge_target : U256;
  pj_capture_target : U256;
}.
#[export] Instance PreparedDeviceJob_eq_dec : EqDecision PreparedDeviceJob.
Proof. solve_decision. Defined.
Record CaptureRecord := mkCaptureRecord {
  cr_version : Z;
  cr_capture_id : Hash256;
  cr_lease_id : Hash256;
  cr_assignment_id : Hash256;
  cr_device_id : Hash256;
  cr_generation : Z;
  cr_nonce : Z;
  cr_ntime : Z;
  cr_extra_nonce : bytes;
  cr_raw_share_hash : Hash256;
  cr_received_at_ms : Z;
}.
#[export] Instance CaptureRecord_eq_dec : EqDecision CaptureRecord.
Proof. solve_decision. Defined.

Inductive LeaseError :=
| InvalidNonceRange | InvalidExtraNonceRange | InvalidExtraNonceProfile | DeviceTargetTooHard
| LeaseOutsideEnvelope | UnsupportedLease | InvalidLeaseId | InvalidJobId | JobLeaseMismatch.

Definition gateway_extra_nonce (prefix extra_nonce2 : bytes) : bytes := prefix ++ extra_nonce2 ++ replicate 16 x00.
Definition extra_nonce2 (value : bytes) : option Z :=
  if existsb (λ b, negb (b2z b =? 0)) (drop 8 value) then None
  else Some (of_be (take 4 (drop 4 value))).

Definition validate_targets (edge capture : U256) : result LeaseError unit :=
  if bytes_ltb edge capture then Err DeviceTargetTooHard else Ok tt.
Definition validate_nonce_range (start end_ stride : Z) : result LeaseError unit :=
  if (end_ <? start) || (stride =? 0) then Err InvalidNonceRange else Ok tt.

Section Work.
Context `{Digests}.

Definition lease_body (o : WorkLease) : bytes :=
  into_bytes (
    enc_u16 o.(wl_protocol_version) >>>
    enc_fixed o.(wl_assignment_id) >>>
    enc_u64 o.(wl_assignment_sequence) >>>
    enc_u64 o.(wl_job_generation) >>>
    enc_fixed o.(wl_device_id) >>>
    enc_u16 o.(wl_extra_nonce_profile) >>>
    enc_fixed o.(wl_extra_nonce_start) >>>
    enc_fixed o.(wl_extra_nonce_end) >>>
    enc_u32 o.(wl_nonce_start) >>>
    enc_u32 o.(wl_nonce_end) >>>
    enc_u32 o.(wl_nonce_stride) >>>
    enc_fixed o.(wl_edge_target) >>>
    enc_fixed o.(wl_capture_target) >>>
    enc_u64 o.(wl_activated_at_ms) >>>
    encode_option o.(wl_expires_at_ms) enc_u64 >>>
    enc_bool o.(wl_completion_report_allowed)).
Definition lease_canonical_id (o : WorkLease) : Hash256 := domain_hash WORK_LEASE_DOMAIN (lease_body o).
Definition job_body (o : PreparedDeviceJob) : bytes :=
  into_bytes (
    enc_u16 o.(pj_protocol_version) >>>
    enc_fixed o.(pj_assignment_id) >>>
    enc_fixed o.(pj_lease_id) >>>
    enc_u64 o.(pj_generation) >>>
    enc_fixed o.(pj_previous_block) >>>
    enc_fixed o.(pj_merkle_root) >>>
    enc_fixed o.(pj_witness_root) >>>
    enc_fixed o.(pj_tree_root) >>>
    enc_fixed o.(pj_reserved_root) >>>
    enc_u32 o.(pj_version) >>>
    enc_u32 o.(pj_bits) >>>
    enc_u64 o.(pj_ntime) >>>
    enc_fixed o.(pj_mask_hash) >>>
    enc_fixed o.(pj_extra_nonce_start) >>>
    enc_fixed o.(pj_extra_nonce_end) >>>
    enc_u32 o.(pj_nonce_start) >>>
    enc_u32 o.(pj_nonce_end) >>>
    enc_u32 o.(pj_nonce_stride) >>>
    enc_fixed o.(pj_edge_target) >>>
    enc_fixed o.(pj_capture_target)).
Definition job_canonical_id (o : PreparedDeviceJob) : Hash256 :=
  domain_hash PREPARED_DEVICE_JOB_DOMAIN (job_body o).
Definition capture_body (o : CaptureRecord) : bytes :=
  into_bytes (
    enc_u16 o.(cr_version) >>>
    enc_fixed o.(cr_lease_id) >>>
    enc_fixed o.(cr_assignment_id) >>>
    enc_fixed o.(cr_device_id) >>>
    enc_u64 o.(cr_generation) >>>
    enc_u32 o.(cr_nonce) >>>
    enc_u64 o.(cr_ntime) >>>
    enc_fixed o.(cr_extra_nonce) >>>
    enc_fixed o.(cr_raw_share_hash)).
Definition capture_canonical_id (o : CaptureRecord) : Hash256 := domain_hash CAPTURE_DOMAIN (capture_body o).

Definition lease_valid (o : WorkLease) : bool :=
  (o.(wl_protocol_version) =? WORK_PROTOCOL_VERSION) && bool_decide (lease_canonical_id o = o.(wl_lease_id)).
Definition job_valid (o : PreparedDeviceJob) : bool :=
  (o.(pj_protocol_version) =? WORK_PROTOCOL_VERSION) && bool_decide (job_canonical_id o = o.(pj_job_id)).
Definition capture_valid (o : CaptureRecord) : bool :=
  (o.(cr_version) =? WORK_SCHEMA_VERSION) && bool_decide (capture_canonical_id o = o.(cr_capture_id)).

Definition encode_WorkLease (o : WorkLease) : Writer :=
  enc_u16 o.(wl_protocol_version) >>>
  enc_fixed o.(wl_lease_id) >>>
  enc_fixed o.(wl_assignment_id) >>>
  enc_u64 o.(wl_assignment_sequence) >>>
  enc_u64 o.(wl_job_generation) >>>
  enc_fixed o.(wl_device_id) >>>
  enc_u16 o.(wl_extra_nonce_profile) >>>
  enc_fixed o.(wl_extra_nonce_start) >>>
  enc_fixed o.(wl_extra_nonce_end) >>>
  enc_u32 o.(wl_nonce_start) >>>
  enc_u32 o.(wl_nonce_end) >>>
  enc_u32 o.(wl_nonce_stride) >>>
  enc_fixed o.(wl_edge_target) >>>
  enc_fixed o.(wl_capture_target) >>>
  enc_u64 o.(wl_activated_at_ms) >>>
  encode_option o.(wl_expires_at_ms) enc_u64 >>>
  enc_bool o.(wl_completion_report_allowed).
Definition decode_WorkLease : parser WorkLease :=
  protocol_version ← dec_u16;
  lease_id ← dec_array 32;
  assignment_id ← dec_array 32;
  assignment_sequence ← dec_u64;
  job_generation ← dec_u64;
  device_id ← dec_array 32;
  extra_nonce_profile ← dec_u16;
  extra_nonce_start ← dec_array 24;
  extra_nonce_end ← dec_array 24;
  nonce_start ← dec_u32;
  nonce_end ← dec_u32;
  nonce_stride ← dec_u32;
  edge_target ← dec_array 32;
  capture_target ← dec_array 32;
  activated_at_ms ← dec_u64;
  expires_at_ms ← dec_optional_u64 "expires_at_ms";
  completion_report_allowed ← dec_bool;
  let value := mkWorkLease protocol_version lease_id assignment_id assignment_sequence job_generation device_id
    extra_nonce_profile extra_nonce_start extra_nonce_end nonce_start nonce_end nonce_stride
    edge_target capture_target activated_at_ms expires_at_ms completion_report_allowed in
  _ ← plift (ensure (lease_valid value) (InvalidField "work_lease"));
  mret value.

Definition ok_WorkLease (limits : DecodeLimits) (o : WorkLease) : Prop :=
  uint 16 o.(wl_protocol_version) ∧
  arr 32 o.(wl_lease_id) ∧
  arr 32 o.(wl_assignment_id) ∧
  uint 64 o.(wl_assignment_sequence) ∧
  uint 64 o.(wl_job_generation) ∧
  arr 32 o.(wl_device_id) ∧
  uint 16 o.(wl_extra_nonce_profile) ∧
  arr 24 o.(wl_extra_nonce_start) ∧
  arr 24 o.(wl_extra_nonce_end) ∧
  uint 32 o.(wl_nonce_start) ∧
  uint 32 o.(wl_nonce_end) ∧
  uint 32 o.(wl_nonce_stride) ∧
  arr 32 o.(wl_edge_target) ∧
  arr 32 o.(wl_capture_target) ∧
  uint 64 o.(wl_activated_at_ms) ∧
  ok_option (uint 64) o.(wl_expires_at_ms) ∧
  lease_valid o = true.

#[export] Instance encode_WorkLease_appends o : Appends (encode_WorkLease o).
Proof. unfold encode_WorkLease. apply _. Qed.
Lemma reads_WorkLease limits o : ok_WorkLease limits o → reads limits decode_WorkLease (encode_WorkLease o) o.
Proof.
  unfold ok_WorkLease. intros Hok. destruct_and!. unfold decode_WorkLease, encode_WorkLease. solve_reads.
  all: destruct o; first [reflexivity | by apply (ensure_ok _ _ tt)].
Qed.
Lemma accepts_WorkLease limits :
  accepts limits decode_WorkLease (λ o bs, ok_WorkLease limits o ∧ bs = encode_WorkLease o []).
Proof.
  unfold decode_WorkLease. solve_accepts. split.
  - destruct_unit_ok. repeat (split; [done|]). done.
  - unfold encode_WorkLease. by flatten_writers.
Qed.
#[export] Instance WorkLease_codec : Codec WorkLease := {| encode := encode_WorkLease; decode := decode_WorkLease |}.
#[export] Instance WorkLease_codec_laws : CodecLaws WorkLease := {|
  codec_ok := ok_WorkLease; encode_appends := encode_WorkLease_appends;
  decode_encode := reads_WorkLease; decode_sound := accepts_WorkLease |}.

Definition encode_PreparedDeviceJob (o : PreparedDeviceJob) : Writer :=
  enc_u16 o.(pj_protocol_version) >>>
  enc_fixed o.(pj_job_id) >>>
  enc_fixed o.(pj_assignment_id) >>>
  enc_fixed o.(pj_lease_id) >>>
  enc_u64 o.(pj_generation) >>>
  enc_fixed o.(pj_previous_block) >>>
  enc_fixed o.(pj_merkle_root) >>>
  enc_fixed o.(pj_witness_root) >>>
  enc_fixed o.(pj_tree_root) >>>
  enc_fixed o.(pj_reserved_root) >>>
  enc_u32 o.(pj_version) >>>
  enc_u32 o.(pj_bits) >>>
  enc_u64 o.(pj_ntime) >>>
  enc_fixed o.(pj_mask_hash) >>>
  enc_fixed o.(pj_extra_nonce_start) >>>
  enc_fixed o.(pj_extra_nonce_end) >>>
  enc_u32 o.(pj_nonce_start) >>>
  enc_u32 o.(pj_nonce_end) >>>
  enc_u32 o.(pj_nonce_stride) >>>
  enc_fixed o.(pj_edge_target) >>>
  enc_fixed o.(pj_capture_target).
Definition decode_PreparedDeviceJob : parser PreparedDeviceJob :=
  protocol_version ← dec_u16;
  job_id ← dec_array 32;
  assignment_id ← dec_array 32;
  lease_id ← dec_array 32;
  generation ← dec_u64;
  previous_block ← dec_array 32;
  merkle_root ← dec_array 32;
  witness_root ← dec_array 32;
  tree_root ← dec_array 32;
  reserved_root ← dec_array 32;
  version ← dec_u32;
  bits ← dec_u32;
  ntime ← dec_u64;
  mask_hash ← dec_array 32;
  extra_nonce_start ← dec_array 24;
  extra_nonce_end ← dec_array 24;
  nonce_start ← dec_u32;
  nonce_end ← dec_u32;
  nonce_stride ← dec_u32;
  edge_target ← dec_array 32;
  capture_target ← dec_array 32;
  let value := mkPreparedDeviceJob protocol_version job_id assignment_id lease_id generation previous_block merkle_root
    witness_root tree_root reserved_root version bits ntime mask_hash extra_nonce_start
    extra_nonce_end nonce_start nonce_end nonce_stride edge_target capture_target in
  _ ← plift (ensure (job_valid value) (InvalidField "prepared_device_job"));
  mret value.

Definition ok_PreparedDeviceJob (limits : DecodeLimits) (o : PreparedDeviceJob) : Prop :=
  uint 16 o.(pj_protocol_version) ∧
  arr 32 o.(pj_job_id) ∧
  arr 32 o.(pj_assignment_id) ∧
  arr 32 o.(pj_lease_id) ∧
  uint 64 o.(pj_generation) ∧
  arr 32 o.(pj_previous_block) ∧
  arr 32 o.(pj_merkle_root) ∧
  arr 32 o.(pj_witness_root) ∧
  arr 32 o.(pj_tree_root) ∧
  arr 32 o.(pj_reserved_root) ∧
  uint 32 o.(pj_version) ∧
  uint 32 o.(pj_bits) ∧
  uint 64 o.(pj_ntime) ∧
  arr 32 o.(pj_mask_hash) ∧
  arr 24 o.(pj_extra_nonce_start) ∧
  arr 24 o.(pj_extra_nonce_end) ∧
  uint 32 o.(pj_nonce_start) ∧
  uint 32 o.(pj_nonce_end) ∧
  uint 32 o.(pj_nonce_stride) ∧
  arr 32 o.(pj_edge_target) ∧
  arr 32 o.(pj_capture_target) ∧
  job_valid o = true.

#[export] Instance encode_PreparedDeviceJob_appends o : Appends (encode_PreparedDeviceJob o).
Proof. unfold encode_PreparedDeviceJob. apply _. Qed.
Lemma reads_PreparedDeviceJob limits o : ok_PreparedDeviceJob limits o → reads limits decode_PreparedDeviceJob (encode_PreparedDeviceJob o) o.
Proof.
  unfold ok_PreparedDeviceJob. intros Hok. destruct_and!. unfold decode_PreparedDeviceJob, encode_PreparedDeviceJob. solve_reads.
  all: destruct o; first [reflexivity | by apply (ensure_ok _ _ tt)].
Qed.
Lemma accepts_PreparedDeviceJob limits :
  accepts limits decode_PreparedDeviceJob (λ o bs, ok_PreparedDeviceJob limits o ∧ bs = encode_PreparedDeviceJob o []).
Proof.
  unfold decode_PreparedDeviceJob. solve_accepts. split.
  - destruct_unit_ok. repeat (split; [done|]). done.
  - unfold encode_PreparedDeviceJob. by flatten_writers.
Qed.
#[export] Instance PreparedDeviceJob_codec : Codec PreparedDeviceJob := {| encode := encode_PreparedDeviceJob; decode := decode_PreparedDeviceJob |}.
#[export] Instance PreparedDeviceJob_codec_laws : CodecLaws PreparedDeviceJob := {|
  codec_ok := ok_PreparedDeviceJob; encode_appends := encode_PreparedDeviceJob_appends;
  decode_encode := reads_PreparedDeviceJob; decode_sound := accepts_PreparedDeviceJob |}.

Definition encode_CaptureRecord (o : CaptureRecord) : Writer :=
  enc_u16 o.(cr_version) >>>
  enc_fixed o.(cr_capture_id) >>>
  enc_fixed o.(cr_lease_id) >>>
  enc_fixed o.(cr_assignment_id) >>>
  enc_fixed o.(cr_device_id) >>>
  enc_u64 o.(cr_generation) >>>
  enc_u32 o.(cr_nonce) >>>
  enc_u64 o.(cr_ntime) >>>
  enc_fixed o.(cr_extra_nonce) >>>
  enc_fixed o.(cr_raw_share_hash) >>>
  enc_u64 o.(cr_received_at_ms).
Definition decode_CaptureRecord : parser CaptureRecord :=
  version ← dec_u16;
  capture_id ← dec_array 32;
  lease_id ← dec_array 32;
  assignment_id ← dec_array 32;
  device_id ← dec_array 32;
  generation ← dec_u64;
  nonce ← dec_u32;
  ntime ← dec_u64;
  extra_nonce ← dec_array 24;
  raw_share_hash ← dec_array 32;
  received_at_ms ← dec_u64;
  let value := mkCaptureRecord version capture_id lease_id assignment_id device_id generation nonce ntime extra_nonce
    raw_share_hash received_at_ms in
  _ ← plift (ensure (capture_valid value) (InvalidField "capture_record"));
  mret value.

Definition ok_CaptureRecord (limits : DecodeLimits) (o : CaptureRecord) : Prop :=
  uint 16 o.(cr_version) ∧
  arr 32 o.(cr_capture_id) ∧
  arr 32 o.(cr_lease_id) ∧
  arr 32 o.(cr_assignment_id) ∧
  arr 32 o.(cr_device_id) ∧
  uint 64 o.(cr_generation) ∧
  uint 32 o.(cr_nonce) ∧
  uint 64 o.(cr_ntime) ∧
  arr 24 o.(cr_extra_nonce) ∧
  arr 32 o.(cr_raw_share_hash) ∧
  uint 64 o.(cr_received_at_ms) ∧
  capture_valid o = true.

#[export] Instance encode_CaptureRecord_appends o : Appends (encode_CaptureRecord o).
Proof. unfold encode_CaptureRecord. apply _. Qed.
Lemma reads_CaptureRecord limits o : ok_CaptureRecord limits o → reads limits decode_CaptureRecord (encode_CaptureRecord o) o.
Proof.
  unfold ok_CaptureRecord. intros Hok. destruct_and!. unfold decode_CaptureRecord, encode_CaptureRecord. solve_reads.
  all: destruct o; first [reflexivity | by apply (ensure_ok _ _ tt)].
Qed.
Lemma accepts_CaptureRecord limits :
  accepts limits decode_CaptureRecord (λ o bs, ok_CaptureRecord limits o ∧ bs = encode_CaptureRecord o []).
Proof.
  unfold decode_CaptureRecord. solve_accepts. split.
  - destruct_unit_ok. repeat (split; [done|]). done.
  - unfold encode_CaptureRecord. by flatten_writers.
Qed.
#[export] Instance CaptureRecord_codec : Codec CaptureRecord := {| encode := encode_CaptureRecord; decode := decode_CaptureRecord |}.
#[export] Instance CaptureRecord_codec_laws : CodecLaws CaptureRecord := {|
  codec_ok := ok_CaptureRecord; encode_appends := encode_CaptureRecord_appends;
  decode_encode := reads_CaptureRecord; decode_sound := accepts_CaptureRecord |}.

Definition decode_capabilities (bs : bytes) : result CodecError DeviceCapabilities :=
  from_canonical_bytes bs DecodeLimits_default.
Definition decode_lease (bs : bytes) : result CodecError WorkLease := from_canonical_bytes bs DecodeLimits_default.

(** ** Envelopes *)

Definition from_assignment (value : AssignmentV2) (generation : Z) : result LeaseError WorkEnvelope :=
  _ ← validate_targets value.(asg_edge_target) value.(asg_capture_target);
  _ ← validate_nonce_range value.(asg_nonce_start) value.(asg_nonce_end) value.(asg_nonce_stride);
  Ok (mkWorkEnvelope KindAssignmentV2 (object_id value) value.(asg_assignment_sequence) generation
        value.(asg_worker_id_hash) value.(asg_ntime) 0 value.(asg_extra_nonce) value.(asg_extra_nonce)
        value.(asg_nonce_start) value.(asg_nonce_end) value.(asg_nonce_stride) value.(asg_edge_target)
        value.(asg_capture_target) value.(asg_telemetry_level)).

Definition from_gateway_assignment (value : GatewayAssignmentV1) (generation : Z) :
    result LeaseError WorkEnvelope :=
  _ ← validate_targets value.(ga_edge_target) value.(ga_capture_target);
  _ ← validate_nonce_range value.(ga_nonce_start) value.(ga_nonce_end) value.(ga_nonce_stride);
  if negb (value.(ga_extra_nonce_profile) =? GATEWAY_EXTRA_NONCE_PROFILE_HANDY_PREFIX4_VARIABLE4_ZERO16)
  then Err InvalidExtraNonceProfile
  else if bytes_ltb value.(ga_extra_nonce2_end_be) value.(ga_extra_nonce2_start_be)
  then Err InvalidExtraNonceRange
  else
    let start := gateway_extra_nonce value.(ga_extra_nonce_prefix) value.(ga_extra_nonce2_start_be) in
    let end_ := gateway_extra_nonce value.(ga_extra_nonce_prefix) value.(ga_extra_nonce2_end_be) in
    Ok (mkWorkEnvelope KindGatewayAssignmentV1 (object_id value) value.(ga_assignment_sequence) generation
          value.(ga_worker_id_hash) value.(ga_ntime) value.(ga_extra_nonce_profile) start end_
          value.(ga_nonce_start) value.(ga_nonce_end) value.(ga_nonce_stride) value.(ga_edge_target)
          value.(ga_capture_target) value.(ga_telemetry_level)).

(** [a.is_multiple_of(b)] *)
Definition is_multiple_of (a b : Z) : bool := if b =? 0 then a =? 0 else a mod b =? 0.

Definition validate_lease (e : WorkEnvelope) (lease : WorkLease) (capabilities : DeviceCapabilities) :
    result LeaseError unit :=
  if negb (lease.(wl_protocol_version) =? WORK_PROTOCOL_VERSION)
     || bool_decide (lease.(wl_assignment_id) ≠ e.(we_assignment_id))
     || negb (lease.(wl_assignment_sequence) =? e.(we_assignment_sequence))
     || negb (lease.(wl_job_generation) =? e.(we_job_generation))
     || negb (lease.(wl_extra_nonce_profile) =? e.(we_extra_nonce_profile))
     || bytes_ltb lease.(wl_extra_nonce_start) e.(we_extra_nonce_start)
     || bytes_ltb e.(we_extra_nonce_end) lease.(wl_extra_nonce_end)
     || bytes_ltb lease.(wl_extra_nonce_end) lease.(wl_extra_nonce_start)
     || (lease.(wl_nonce_start) <? e.(we_nonce_start))
     || (e.(we_nonce_end) <? lease.(wl_nonce_end))
     || (lease.(wl_nonce_end) <? lease.(wl_nonce_start))
     || (e.(we_nonce_stride) =? 0)
     || (lease.(wl_nonce_stride) =? 0)
     || negb (is_multiple_of lease.(wl_nonce_stride) e.(we_nonce_stride))
     || negb (is_multiple_of (saturating_sub lease.(wl_nonce_start) e.(we_nonce_start)) e.(we_nonce_stride))
     || bytes_ltb e.(we_edge_target) lease.(wl_edge_target)
     || bytes_ltb lease.(wl_edge_target) e.(we_capture_target)
     || bool_decide (lease.(wl_capture_target) ≠ e.(we_capture_target))
  then Err LeaseOutsideEnvelope
  else if bool_decide (lease.(wl_extra_nonce_start) ≠ lease.(wl_extra_nonce_end))
          && negb capabilities.(dc_supports_extra_nonce_range)
  then Err UnsupportedLease
  else if (negb (lease.(wl_nonce_start) =? e.(we_nonce_start))
           || negb (lease.(wl_nonce_end) =? e.(we_nonce_end))
           || negb (lease.(wl_nonce_stride) =? e.(we_nonce_stride)))
          && negb capabilities.(dc_supports_nonce_range)
  then Err UnsupportedLease
  else if negb (lease.(wl_nonce_stride) =? e.(we_nonce_stride)) && negb capabilities.(dc_supports_nonce_stride)
  then Err UnsupportedLease
  else if bool_decide (lease.(wl_completion_report_allowed) ≠ capabilities.(dc_reports_range_completion))
          || bytes_ltb lease.(wl_edge_target) capabilities.(dc_minimum_device_target)
  then Err UnsupportedLease
  else
    _ ← validate_targets lease.(wl_edge_target) lease.(wl_capture_target);
    if bool_decide (lease_canonical_id lease ≠ lease.(wl_lease_id)) then Err InvalidLeaseId else Ok tt.

Definition accepts_extra_nonce (lease : WorkLease) (extra_nonce : bytes) : bool :=
  if bytes_ltb extra_nonce lease.(wl_extra_nonce_start) || bytes_ltb lease.(wl_extra_nonce_end) extra_nonce
  then false
  else if lease.(wl_extra_nonce_profile) =? 0 then
    bool_decide (lease.(wl_extra_nonce_start) = lease.(wl_extra_nonce_end))
    && bool_decide (extra_nonce = lease.(wl_extra_nonce_start))
  else if lease.(wl_extra_nonce_profile) =? GATEWAY_EXTRA_NONCE_PROFILE_HANDY_PREFIX4_VARIABLE4_ZERO16 then
    bool_decide (take 4 extra_nonce = take 4 lease.(wl_extra_nonce_start))
    && bool_decide (take 4 extra_nonce = take 4 lease.(wl_extra_nonce_end))
    && forallb (λ b, b2z b =? 0) (drop 8 extra_nonce)
  else false.

Definition validate_against_lease (job : PreparedDeviceJob) (lease : WorkLease) : result LeaseError unit :=
  if negb (job.(pj_protocol_version) =? WORK_PROTOCOL_VERSION)
     || bool_decide (job.(pj_assignment_id) ≠ lease.(wl_assignment_id))
     || bool_decide (job.(pj_lease_id) ≠ lease.(wl_lease_id))
     || negb (job.(pj_generation) =? lease.(wl_job_generation))
     || (job.(pj_ntime) =? 0)
     || bool_decide (job.(pj_extra_nonce_start) ≠ lease.(wl_extra_nonce_start))
     || bool_decide (job.(pj_extra_nonce_end) ≠ lease.(wl_extra_nonce_end))
     || negb (job.(pj_nonce_start) =? lease.(wl_nonce_start))
     || negb (job.(pj_nonce_end) =? lease.(wl_nonce_end))
     || negb (job.(pj_nonce_stride) =? lease.(wl_nonce_stride))
     || bool_decide (job.(pj_edge_target) ≠ lease.(wl_edge_target))
     || bool_decide (job.(pj_capture_target) ≠ lease.(wl_capture_target))
  then Err JobLeaseMismatch
  else if bool_decide (job_canonical_id job ≠ job.(pj_job_id)) then Err InvalidJobId else Ok tt.

Definition assignment_fingerprint (e : WorkEnvelope) : Hash256 :=
  blake2b_256 [into_bytes (
    enc_fixed e.(we_assignment_id) >>>
    enc_u64 e.(we_job_generation) >>>
    enc_u16 e.(we_extra_nonce_profile) >>>
    enc_fixed e.(we_extra_nonce_start) >>>
    enc_fixed e.(we_extra_nonce_end) >>>
    enc_u32 e.(we_nonce_start) >>>
    enc_u32 e.(we_nonce_end) >>>
    enc_u32 e.(we_nonce_stride))].
End Work.

(** ** The adaptive edge target *)

Record TargetControllerConfig := mkTargetControllerConfig {
  tcc_desired_submission_interval_ms : Z;
  tcc_minimum_observations : Z;
  tcc_maximum_step_numerator : Z;
  tcc_maximum_step_denominator : Z;
}.
Definition TargetControllerConfig_default : TargetControllerConfig := mkTargetControllerConfig 15000 4 4 1.
Inductive TargetControllerError := InvalidConfiguration | InvalidBounds.
Record AdaptiveTargetController := mkAdaptiveTargetController {
  atc_config : TargetControllerConfig;
  atc_capture_target : U256;
  atc_device_minimum_target : U256;
  atc_maximum_edge_target : U256;
  atc_current_target : U256;
  atc_observed_interval_sum_ms : Z;
  atc_observations : Z;
}.

Definition harder_bound (capture device_minimum : U256) : U256 :=
  if bytes_leb device_minimum capture then capture else device_minimum.

Definition big_to_u256 (value : Z) : U256 :=
  if value =? 0 then replicate 32 x00
  else
    let bs := to_bytes_be value in
    let start := (32 - length bs)%nat in
    replicate start x00 ++ drop (length bs - 32) bs.

Definition AdaptiveTargetController_new (config : TargetControllerConfig)
    (capture_target device_minimum_target maximum_edge_target initial_target : U256) :
    result TargetControllerError AdaptiveTargetController :=
  if (config.(tcc_desired_submission_interval_ms) =? 0) || (config.(tcc_minimum_observations) =? 0)
     || (config.(tcc_maximum_step_numerator) =? 0) || (config.(tcc_maximum_step_denominator) =? 0)
     || (config.(tcc_maximum_step_numerator) <? config.(tcc_maximum_step_denominator))
  then Err InvalidConfiguration
  else
    let lower := harder_bound capture_target device_minimum_target in
    if bytes_ltb maximum_edge_target lower || bytes_ltb initial_target lower
       || bytes_ltb maximum_edge_target initial_target
    then Err InvalidBounds
    else Ok (mkAdaptiveTargetController config capture_target device_minimum_target maximum_edge_target
               initial_target 0 0).

Definition observe_submission (c : AdaptiveTargetController) (interval_ms : Z) :
    option U256 * AdaptiveTargetController :=
  let config := c.(atc_config) in
  let with_target target sum observations :=
    mkAdaptiveTargetController config c.(atc_capture_target) c.(atc_device_minimum_target)
      c.(atc_maximum_edge_target) target sum observations in
  let sum := saturating_add 128 c.(atc_observed_interval_sum_ms) (Z.max interval_ms 1) in
  let observations := saturating_add 32 c.(atc_observations) 1 in
  if observations <? config.(tcc_minimum_observations)
  then (None, with_target c.(atc_current_target) sum observations)
  else
    let average := sum / observations in
    let current := of_be c.(atc_current_target) in
    let proposed := current * Z.max average 1 / config.(tcc_desired_submission_interval_ms) in
    let maximum := current * config.(tcc_maximum_step_numerator) / config.(tcc_maximum_step_denominator) in
    let minimum := current * config.(tcc_maximum_step_denominator) / config.(tcc_maximum_step_numerator) in
    let bounded_step := Z.min (Z.max proposed minimum) maximum in
    let lower := of_be (harder_bound c.(atc_capture_target) c.(atc_device_minimum_target)) in
    let protocol_maximum := of_be c.(atc_maximum_edge_target) in
    let bounded := Z.min (Z.min (Z.max bounded_step lower) protocol_maximum) (2 ^ 256 - 1) in
    let target := big_to_u256 bounded in
    (Some target, with_target target 0 0).

Lemma big_to_u256_spec z : 0 ≤ z < 2 ^ 256 → arr 32 (big_to_u256 z) ∧ of_be (big_to_u256 z) = z.
Proof.
  intros Hz. unfold big_to_u256. destruct (Z.eqb_spec z 0) as [->|Hne]; [split; [done|apply of_be_replicate_0]|].
  destruct (bytes_be_len_bounds z ltac:(lia)) as (Hn1 & Hlo & Hhi).
  assert (bytes_be_len z ≤ 32) as Hn.
  { destruct (Z.le_gt_cases (bytes_be_len z) 32) as [|Hgt]; [done|].
    assert (256 ^ 32 ≤ 256 ^ (bytes_be_len z - 1)) by (apply Z.pow_le_mono_r; lia). lia. }
  cbn zeta. unfold to_bytes_be, arr. rewrite length_app, length_replicate, length_drop, to_be_length.
  replace (Z.to_nat (bytes_be_len z) - 32)%nat with 0%nat by lia. rewrite drop_0. split; [lia|].
  rewrite of_be_app, of_be_replicate_0, of_to_be; [lia|]. rewrite Z2Nat.id by lia. lia.
Qed.

(** The state of a controller. *)
Record controller_ok (c : AdaptiveTargetController) : Prop := {
  co_config : 0 < c.(atc_config).(tcc_desired_submission_interval_ms) ∧
    0 < c.(atc_config).(tcc_maximum_step_denominator) ≤ c.(atc_config).(tcc_maximum_step_numerator);
  co_typed : arr 32 c.(atc_capture_target) ∧ arr 32 c.(atc_device_minimum_target) ∧
    arr 32 c.(atc_maximum_edge_target) ∧ arr 32 c.(atc_current_target);
  co_bounds : of_be c.(atc_capture_target) ≤ of_be c.(atc_current_target) ∧
    of_be c.(atc_device_minimum_target) ≤ of_be c.(atc_current_target) ≤ of_be c.(atc_maximum_edge_target);
  co_window : 0 ≤ c.(atc_observed_interval_sum_ms) ∧ 0 ≤ c.(atc_observations);
}.

Lemma harder_bound_spec a b :
  arr 32 a → arr 32 b → arr 32 (harder_bound a b) ∧ of_be (harder_bound a b) = Z.max (of_be a) (of_be b).
Proof.
  unfold arr, harder_bound. intros Ha Hb. destruct (bytes_leb b a) eqn:E.
  - apply bytes_leb_spec, bytes_le_of_be in E; [|congruence]. split; [done|lia].
  - assert (¬ bytes_le b a) as Hn by (rewrite <- bytes_leb_spec; congruence).
    rewrite bytes_le_of_be in Hn by congruence. split; [done|lia].
Qed.

Lemma controller_new_ok config capture device maximum initial c :
  0 ≤ config.(tcc_desired_submission_interval_ms) → 0 ≤ config.(tcc_maximum_step_denominator) →
  arr 32 capture → arr 32 device → arr 32 maximum → arr 32 initial →
  AdaptiveTargetController_new config capture device maximum initial = Ok c → controller_ok c.
Proof.
  intros H1 H2 Hc Hd Hm Hi. unfold AdaptiveTargetController_new. cbn zeta.
  match goal with |- (if ?b then _ else _) = _ → _ => destruct b eqn:E1; [done|] end.
  match goal with |- (if ?b then _ else _) = _ → _ => destruct b eqn:E2; [done|] end. intros [= <-].
  rewrite !orb_false_iff, !Z.eqb_neq, Z.ltb_ge in E1. rewrite !orb_false_iff in E2. destruct E2 as [[_ E2] E3].
  destruct (harder_bound_spec capture device Hc Hd) as [Hl He].
  assert (∀ x y, arr 32 x → arr 32 y → bytes_ltb x y = false → of_be y ≤ of_be x) as Hle.
  { unfold arr. intros x y Hx Hy E. apply bytes_le_of_be; [congruence|]. apply bytes_not_lt. rewrite <- bytes_ltb_spec. congruence. }
  apply Hle in E2; [|done..]. apply Hle in E3; [|done..]. rewrite He in E2. destruct_and!. constructor; cbn -[of_be]; split_and!; try done; lia.
Qed.

(** Whatever is observed, the edge target stays at least the capture target and
    the device's minimum and at most the signed edge target; a change stays within
    the configured factor of the previous target, up to these bounds. *)
Lemma adaptive_target_bounded c interval_ms :
  controller_ok c →
  let '(r, c') := observe_submission c interval_ms in
  controller_ok c' ∧ (c'.(atc_capture_target), c'.(atc_maximum_edge_target)) = (c.(atc_capture_target), c.(atc_maximum_edge_target)) ∧
  match r with
  | None => c'.(atc_current_target) = c.(atc_current_target)
  | Some target =>
      c'.(atc_current_target) = target ∧ c'.(atc_observations) = 0 ∧
      let n := c.(atc_config).(tcc_maximum_step_numerator) in
      let d := c.(atc_config).(tcc_maximum_step_denominator) in
      let current := of_be c.(atc_current_target) in
      current * d / n ≤ of_be target ≤ current * n / d
  end.
Proof.
  intros [(Hi & Hd) (T1 & T2 & T3 & T4) (B1 & B2) (W1 & W2)]. unfold observe_submission.
  set (sum := saturating_add 128 _ _). set (obs := saturating_add 32 _ _).
  assert (0 ≤ sum ∧ 0 ≤ obs) as [Hsum Hobs] by (unfold sum, obs, saturating_add; lia).
  destruct (_ <? _); [split; [by constructor|done]|]. cbn zeta.
  set (current := of_be (atc_current_target c)) in *.
  set (n := tcc_maximum_step_numerator (atc_config c)) in *. set (d := tcc_maximum_step_denominator (atc_config c)) in *.
  destruct (harder_bound_spec _ _ T1 T2) as [_ ->].
  set (step := Z.min (Z.max _ _) _). pose proof (of_be_range (atc_maximum_edge_target c)) as Hr.
  unfold len in Hr. unfold arr in T3. rewrite T3 in Hr. change (256 ^ Z.of_nat 32) with (2 ^ 256) in Hr.
  assert (0 ≤ current) as Hcur by apply of_be_range.
  assert (current * d / n ≤ current ≤ current * n / d) as [S1 S2].
  { split; [apply Z.div_le_upper_bound; nia|apply Z.div_le_lower_bound; nia]. }
  assert (current * d / n ≤ step ≤ current * n / d) as Hstep by (unfold step; lia).
  set (bounded := Z.min step (2 ^ 256 - 1)).
  pose proof (of_be_range (atc_capture_target c)) as Hcap.
  assert (0 ≤ bounded < 2 ^ 256) as Hb.
  { unfold bounded, step. pose proof (of_be_range (atc_device_minimum_target c)). lia. }
  destruct (big_to_u256_spec bounded Hb) as [Ha Hv]. split; [|split; [done|]].
  - constructor; cbn [atc_config atc_capture_target atc_device_minimum_target atc_maximum_edge_target
      atc_current_target atc_observed_interval_sum_ms atc_observations]; try done.
    rewrite Hv. unfold bounded, step. lia.
  - cbn [atc_current_target atc_observations]. split; [done|]. split; [done|]. rewrite Hv. unfold bounded. lia.
Qed.
