(* ===== verification/Planner.v ===== *)
(** * The work planner (crates/meshmine-work/src/planner.rs)

    Cuts durable leases out of a signed envelope: a cursor per assignment in the
    store, one active lease per device. Each operation is a client of the store
    among other planners. *)

From S2P Require Import Prelude Codec Hash Types Objects Storage Journal Client Work.

Definition WORK_SCHEMA_NAMESPACE : bytes := str "work-schema".
Definition WORK_SCHEMA_KEY : bytes := str "version".
Definition DEVICE_NAMESPACE : bytes := str "work-device-v1".
Definition LEASE_NAMESPACE : bytes := str "work-lease-v1".
Definition ACTIVE_LEASE_NAMESPACE : bytes := str "work-active-lease-v1".
Definition CURSOR_NAMESPACE : bytes := str "work-cursor-v1".
Definition EXCLUSIVE_NAMESPACE : bytes := str "work-exclusive-v1".

Record PlannerLimits := mkPlannerLimits {
  pl_maximum_extra_nonce_values_per_lease : Z;
  pl_maximum_nonce_values_per_lease : Z;
  pl_target_native_lease_ms : Z;
}.
Definition PlannerLimits_default : PlannerLimits := mkPlannerLimits 65536 (16 * 1024 * 1024) 250.

Inductive PlannerError :=
| PE_Storage (e : StorageError)
| PE_Lease (e : LeaseError)
| InvalidCapabilities
| SchemaMismatch
| DeviceBusy
| EnvelopeExhausted
| UnsupportedEnvelope
| AllocationRace
| CorruptLease
| UnauthorizedCompletion
| InvalidExpiration.

(** ** Cursors *)

Inductive CursorState := Unset | Next (value : Z) | Exhausted.

Definition encode_cursor (value : Z) : bytes := x00 :: to_le 8 value.
Definition encode_exhausted_cursor : bytes := [x01].
Definition decode_cursor (bs : option bytes) : result PlannerError CursorState :=
  match bs with
  | None => Ok Unset
  | Some bs =>
      if (len bs =? 9) && bool_decide (head bs = Some x00) then Ok (Next (of_le (tail bs)))
      else if bool_decide (bs = [x01]) then Ok Exhausted
      else Err CorruptLease
  end.

(** ** Leases *)

Record LeaseRange := mkLeaseRange {
  lr_extra_nonce_start : bytes;
  lr_extra_nonce_end : bytes;
  lr_nonce_start : Z;
  lr_nonce_end : Z;
  lr_nonce_stride : Z;
}.

Section Planner.
Context `{Digests} `{!Hex}.

Definition with_lease_id (lease : WorkLease) (id : Hash256) : WorkLease :=
  mkWorkLease lease.(wl_protocol_version) id lease.(wl_assignment_id) lease.(wl_assignment_sequence)
    lease.(wl_job_generation) lease.(wl_device_id) lease.(wl_extra_nonce_profile)
    lease.(wl_extra_nonce_start) lease.(wl_extra_nonce_end) lease.(wl_nonce_start) lease.(wl_nonce_end)
    lease.(wl_nonce_stride) lease.(wl_edge_target) lease.(wl_capture_target) lease.(wl_activated_at_ms)
    lease.(wl_expires_at_ms) lease.(wl_completion_report_allowed).

Definition build_lease (envelope : WorkEnvelope) (capabilities : DeviceCapabilities) (range : LeaseRange)
    (edge_target : U256) (now_ms : Z) (expires_at_ms : option Z) : WorkLease :=
  let lease := mkWorkLease WORK_PROTOCOL_VERSION (replicate 32 x00) envelope.(we_assignment_id)
    envelope.(we_assignment_sequence) envelope.(we_job_generation) capabilities.(dc_device_id)
    envelope.(we_extra_nonce_profile) range.(lr_extra_nonce_start) range.(lr_extra_nonce_end)
    range.(lr_nonce_start) range.(lr_nonce_end) range.(lr_nonce_stride) edge_target
    envelope.(we_capture_target) now_ms expires_at_ms capabilities.(dc_reports_range_completion) in
  with_lease_id lease (lease_canonical_id lease).

Definition extra_cursor_key (envelope : WorkEnvelope) : bytes :=
  hex_encode envelope.(we_assignment_id) ++ str ":extra".
Definition nonce_cursor_key (envelope : WorkEnvelope) : bytes :=
  hex_encode envelope.(we_assignment_id) ++ str ":nonce".

(** The range that [allocate_extra_nonce] cuts at the cursor, and the next cursor.
    [open] has refused a zero limit. *)
Definition extra_nonce_range (limits : PlannerLimits) (envelope : WorkEnvelope)
    (capabilities : DeviceCapabilities) (start end_ : Z) (cursor_bytes : option bytes) :
    result PlannerError (LeaseRange * option Z) :=
  state ← decode_cursor cursor_bytes;
  cursor ← match state with
           | Unset => Ok start
           | Next value => Ok value
           | Exhausted => Err EnvelopeExhausted
           end;
  if (cursor <? start) || (end_ <? cursor) then Err EnvelopeExhausted
  else if 2 ^ 32 <=? cursor then Err EnvelopeExhausted
  else
    let batch := capabilities.(dc_preferred_batch_size) in
    let requested := Z.min (Z.max (if batch <? 2 ^ 32 then batch else 2 ^ 32 - 1) 1)
                       limits.(pl_maximum_extra_nonce_values_per_lease) in
    let lease_end := Z.min (saturating_add 32 cursor (requested - 1)) end_ in
    let next := checked_add 32 lease_end 1 in
    let prefix := take 4 envelope.(we_extra_nonce_start) in
    Ok (mkLeaseRange (gateway_extra_nonce prefix (to_be 4 cursor))
          (gateway_extra_nonce prefix (to_be 4 lease_end)) envelope.(we_nonce_start)
          envelope.(we_nonce_end) envelope.(we_nonce_stride), next).

(** The range that [allocate_nonce] cuts. The stride of an envelope is not zero. *)
Definition nonce_range (limits : PlannerLimits) (envelope : WorkEnvelope)
    (capabilities : DeviceCapabilities) (cursor_bytes : option bytes) :
    result PlannerError (LeaseRange * option Z) :=
  state ← decode_cursor cursor_bytes;
  cursor ← match state with
           | Unset => Ok envelope.(we_nonce_start)
           | Next value => Ok value
           | Exhausted => Err EnvelopeExhausted
           end;
  if envelope.(we_nonce_end) <? cursor then Err EnvelopeExhausted
  else
    let measured_batch :=
      (λ hashrate, Z.min (saturating_mul 128 hashrate limits.(pl_target_native_lease_ms) / 1000) (2 ^ 64 - 1))
        <$> capabilities.(dc_measured_hashrate) in
    let requested := Z.max (Z.min (default capabilities.(dc_preferred_batch_size) measured_batch)
                              limits.(pl_maximum_nonce_values_per_lease)) 1 in
    let stride := envelope.(we_nonce_stride) in
    let maximum_steps := saturating_sub envelope.(we_nonce_end) cursor / stride in
    let selected_steps := Z.min (saturating_sub requested 1) maximum_steps in
    let lease_end := saturating_add 64 cursor (saturating_mul 64 selected_steps stride) in
    let next := checked_add 64 lease_end stride in
    _ ← ensure (cursor <? 2 ^ 32) EnvelopeExhausted;
    _ ← ensure (lease_end <? 2 ^ 32) EnvelopeExhausted;
    Ok (mkLeaseRange envelope.(we_extra_nonce_start) envelope.(we_extra_nonce_end) cursor lease_end stride,
        match next with
        | Some value => if value <=? envelope.(we_nonce_end) then Some value else None
        | None => None
        end).

Definition whole_range (envelope : WorkEnvelope) : LeaseRange :=
  mkLeaseRange envelope.(we_extra_nonce_start) envelope.(we_extra_nonce_end) envelope.(we_nonce_start)
    envelope.(we_nonce_end) envelope.(we_nonce_stride).

Definition condition_absent (namespace key : bytes) : BatchCondition := mkBatchCondition namespace key None.

Definition exclusive_conditions (envelope : WorkEnvelope) (capabilities : DeviceCapabilities) :
    list BatchCondition :=
  [condition_absent ACTIVE_LEASE_NAMESPACE (hex_encode capabilities.(dc_device_id));
   condition_absent EXCLUSIVE_NAMESPACE (hex_encode envelope.(we_assignment_id))].
Definition exclusive_operations (envelope : WorkEnvelope) (capabilities : DeviceCapabilities)
    (lease : WorkLease) : list BatchOperation :=
  [BatchPut LEASE_NAMESPACE (hex_encode lease.(wl_lease_id)) (to_canonical_bytes lease);
   BatchPut ACTIVE_LEASE_NAMESPACE (hex_encode capabilities.(dc_device_id)) lease.(wl_lease_id);
   BatchPut EXCLUSIVE_NAMESPACE (hex_encode envelope.(we_assignment_id)) capabilities.(dc_device_id)].

Definition allocation_conditions (cursor_key : bytes) (cursor_before : option bytes)
    (capabilities : DeviceCapabilities) : list BatchCondition :=
  [mkBatchCondition CURSOR_NAMESPACE cursor_key cursor_before;
   condition_absent ACTIVE_LEASE_NAMESPACE (hex_encode capabilities.(dc_device_id))].
Definition allocation_operations (cursor_key : bytes) (cursor_after : option bytes)
    (capabilities : DeviceCapabilities) (lease : WorkLease) : list BatchOperation :=
  [BatchPut LEASE_NAMESPACE (hex_encode lease.(wl_lease_id)) (to_canonical_bytes lease);
   BatchPut ACTIVE_LEASE_NAMESPACE (hex_encode capabilities.(dc_device_id)) lease.(wl_lease_id);
   BatchPut CURSOR_NAMESPACE cursor_key (default encode_exhausted_cursor cursor_after)].

(** ** Operations *)

Section Durable.
Context {S : Type} `{!DurableStore S} (env : nat → S → S).
Abbreviation pclient := (eclient (S := S) (E := PlannerError)).
Abbreviation pcall := (ecall env PE_Storage).

(** A compare-and-swap whose loser looks whether the value is there anyway. *)
Definition swap_or_present (namespace key : bytes) (expected : option bytes) (value : bytes) : pclient bool :=
  swapped ← pcall (compare_and_swap namespace key expected value);
  if swapped : bool then mret true
  else
    current ← pcall (get namespace key);
    mret (bool_decide (current = Some value)).

Definition planner_open (limits : PlannerLimits) : pclient unit :=
  if (limits.(pl_maximum_extra_nonce_values_per_lease) =? 0)
     || (limits.(pl_maximum_nonce_values_per_lease) =? 0) || (limits.(pl_target_native_lease_ms) =? 0)
  then elift (Err UnsupportedEnvelope)
  else
    let expected := to_le 2 WORK_SCHEMA_VERSION in
    stored ← pcall (get WORK_SCHEMA_NAMESPACE WORK_SCHEMA_KEY);
    match stored with
    | Some value => elift (if bool_decide (value = expected) then Ok tt else Err SchemaMismatch)
    | None =>
        present ← swap_or_present WORK_SCHEMA_NAMESPACE WORK_SCHEMA_KEY None expected;
        elift (if present : bool then Ok tt else Err SchemaMismatch)
    end.

Definition register_device (capabilities : DeviceCapabilities) : pclient unit :=
  _ ← elift (map_err (λ _, InvalidCapabilities) (validate_capabilities capabilities));
  let key := hex_encode capabilities.(dc_device_id) in
  let bs := to_canonical_bytes capabilities in
  stored ← pcall (get DEVICE_NAMESPACE key);
  if bool_decide (stored = Some bs) then mret tt
  else
    _ ← match stored with
        | Some existing =>
            prior ← elift (map_err (λ _, InvalidCapabilities) (decode_capabilities existing));
            elift (ensure (same_static_contract prior capabilities) InvalidCapabilities)
        | None => mret tt
        end;
    present ← swap_or_present DEVICE_NAMESPACE key stored bs;
    elift (if present : bool then Ok tt else Err AllocationRace).

Definition persist_exclusive (envelope : WorkEnvelope) (capabilities : DeviceCapabilities)
    (lease : WorkLease) : pclient unit :=
  applied ← pcall (apply_batch_if_all (exclusive_conditions envelope capabilities)
                     (exclusive_operations envelope capabilities lease));
  elift (if applied : bool then Ok tt else Err EnvelopeExhausted).

Definition persist_allocation (cursor_key : bytes) (cursor_before cursor_after : option bytes)
    (capabilities : DeviceCapabilities) (lease : WorkLease) : pclient unit :=
  applied ← pcall (apply_batch_if_all (allocation_conditions cursor_key cursor_before capabilities)
                     (allocation_operations cursor_key cursor_after capabilities lease));
  elift (if applied : bool then Ok tt else Err AllocationRace).

Context (limits : PlannerLimits).

Definition allocate_extra_nonce (envelope : WorkEnvelope) (capabilities : DeviceCapabilities)
    (edge_target : U256) (now_ms : Z) (expires_at_ms : option Z) : pclient WorkLease :=
  if negb capabilities.(dc_supports_extra_nonce_range) then elift (Err UnsupportedEnvelope)
  else
    start ← elift (ok_or (extra_nonce2 envelope.(we_extra_nonce_start)) UnsupportedEnvelope);
    end_ ← elift (ok_or (extra_nonce2 envelope.(we_extra_nonce_end)) UnsupportedEnvelope);
    let cursor_key := extra_cursor_key envelope in
    cursor_bytes ← pcall (get CURSOR_NAMESPACE cursor_key);
    range ← elift (extra_nonce_range limits envelope capabilities start end_ cursor_bytes);
    let lease := build_lease envelope capabilities range.1 edge_target now_ms expires_at_ms in
    _ ← persist_allocation cursor_key cursor_bytes (encode_cursor <$> range.2) capabilities lease;
    mret lease.

Definition allocate_nonce (envelope : WorkEnvelope) (capabilities : DeviceCapabilities)
    (edge_target : U256) (now_ms : Z) (expires_at_ms : option Z) : pclient WorkLease :=
  if bool_decide (envelope.(we_extra_nonce_start) ≠ envelope.(we_extra_nonce_end))
  then elift (Err UnsupportedEnvelope)
  else if negb capabilities.(dc_supports_nonce_range) then
    let lease := build_lease envelope capabilities (whole_range envelope) edge_target now_ms expires_at_ms in
    _ ← persist_exclusive envelope capabilities lease;
    mret lease
  else
    let cursor_key := nonce_cursor_key envelope in
    cursor_bytes ← pcall (get CURSOR_NAMESPACE cursor_key);
    range ← elift (nonce_range limits envelope capabilities cursor_bytes);
    let lease := build_lease envelope capabilities range.1 edge_target now_ms expires_at_ms in
    _ ← persist_allocation cursor_key cursor_bytes (encode_cursor <$> range.2) capabilities lease;
    mret lease.

(** Deletes the active marker of a device if it is the given one. *)
Definition release_active (device_id : bytes) (lease_id : bytes) : pclient bool :=
  let active_key := hex_encode device_id in
  pcall (apply_batch_if ACTIVE_LEASE_NAMESPACE active_key (Some lease_id)
           [BatchDelete ACTIVE_LEASE_NAMESPACE active_key]).

Definition allocate_with_edge_target (envelope : WorkEnvelope) (capabilities : DeviceCapabilities)
    (edge_target : U256) (now_ms : Z) (expires_at_ms : option Z) : pclient WorkLease :=
  if match expires_at_ms with Some expiry => expiry <=? now_ms | None => false end
  then elift (Err InvalidExpiration)
  else if bytes_ltb edge_target envelope.(we_capture_target) || bytes_ltb envelope.(we_edge_target) edge_target
          || bytes_ltb edge_target capabilities.(dc_minimum_device_target)
  then elift (Err UnsupportedEnvelope)
  else
    _ ← register_device capabilities;
    active ← pcall (get ACTIVE_LEASE_NAMESPACE (hex_encode capabilities.(dc_device_id)));
    current ← match active with
      | None => mret None
      | Some existing_id =>
          _ ← elift (ensure (len existing_id =? 32) CorruptLease);
          stored ← pcall (get LEASE_NAMESPACE (hex_encode existing_id));
          bs ← elift (ok_or stored CorruptLease);
          lease ← elift (map_err (λ _, CorruptLease) (decode_lease bs));
          if match lease.(wl_expires_at_ms) with Some expiry => expiry <? now_ms | None => false end then
            released ← release_active capabilities.(dc_device_id) existing_id;
            elift (if released : bool then Ok None else Err AllocationRace)
          else if bool_decide (lease.(wl_assignment_id) = envelope.(we_assignment_id))
                  && (lease.(wl_job_generation) =? envelope.(we_job_generation)) then
            _ ← elift (map_err PE_Lease (validate_lease envelope lease capabilities));
            mret (Some lease)
          else elift (Err DeviceBusy)
      end;
    match current with
    | Some lease => mret lease
    | None =>
        match envelope.(we_kind) with
        | KindGatewayAssignmentV1 => allocate_extra_nonce envelope capabilities edge_target now_ms expires_at_ms
        | KindAssignmentV2 => allocate_nonce envelope capabilities edge_target now_ms expires_at_ms
        end
    end.

Definition allocate (envelope : WorkEnvelope) (capabilities : DeviceCapabilities) (now_ms : Z)
    (expires_at_ms : option Z) : pclient WorkLease :=
  allocate_with_edge_target envelope capabilities envelope.(we_edge_target) now_ms expires_at_ms.

Definition retire (device_id lease_id : bytes) : pclient bool := release_active device_id lease_id.

Definition planner_complete (capabilities : DeviceCapabilities) (lease_id : bytes) : pclient bool :=
  if negb capabilities.(dc_reports_range_completion) then elift (Err UnauthorizedCompletion)
  else retire capabilities.(dc_device_id) lease_id.

Definition active_lease (device_id : bytes) : pclient (option WorkLease) :=
  active ← pcall (get ACTIVE_LEASE_NAMESPACE (hex_encode device_id));
  match active with
  | None => mret None
  | Some lease_id =>
      _ ← elift (ensure (len lease_id =? 32) CorruptLease);
      stored ← pcall (get LEASE_NAMESPACE (hex_encode lease_id));
      bs ← elift (ok_or stored CorruptLease);
      lease ← elift (map_err (λ _, CorruptLease) (decode_lease bs));
      mret (Some lease)
  end.
End Durable.
End Planner.
