(* ===== verification/PlannerSafety.v ===== *)
(** * The work planner: proofs

    The transition relation that every planner follows, the invariant that its
    runs keep, and the refinement of the planner's operations by it, among any
    number of other planners. *)

From S2P Require Import Prelude Codec Hash Types Objects Target Storage Journal Client Work Planner.

(** ** Envelopes *)

(** What a signed assignment guarantees of its envelope. *)
Record envelope_ok (e : WorkEnvelope) : Prop := {
  eo_typed : arr 32 e.(we_assignment_id) ∧ uint 64 e.(we_assignment_sequence) ∧ uint 64 e.(we_job_generation) ∧
    arr 32 e.(we_edge_target) ∧ arr 32 e.(we_capture_target);
  eo_nonces : uint 32 e.(we_nonce_start) ∧ uint 32 e.(we_nonce_end) ∧ uint 32 e.(we_nonce_stride) ∧
    e.(we_nonce_start) ≤ e.(we_nonce_end) ∧ 0 < e.(we_nonce_stride);
  eo_extra : match e.(we_kind) with
    | KindAssignmentV2 =>
        e.(we_extra_nonce_profile) = 0 ∧ arr 24 e.(we_extra_nonce_start) ∧
        e.(we_extra_nonce_start) = e.(we_extra_nonce_end)
    | KindGatewayAssignmentV1 =>
        e.(we_extra_nonce_profile) = GATEWAY_EXTRA_NONCE_PROFILE_HANDY_PREFIX4_VARIABLE4_ZERO16 ∧
        ∃ prefix s t, arr 4 prefix ∧ uint 32 s ∧ uint 32 t ∧ s ≤ t ∧
          e.(we_extra_nonce_start) = gateway_extra_nonce prefix (to_be 4 s) ∧
          e.(we_extra_nonce_end) = gateway_extra_nonce prefix (to_be 4 t)
    end;
}.

Lemma validate_nonce_range_ok s t stride :
  uint 32 s → uint 32 stride → validate_nonce_range s t stride = Ok tt → s ≤ t ∧ 0 < stride.
Proof.
  unfold validate_nonce_range, uint. destruct (_ || _) eqn:E; [done|].
  apply orb_false_iff in E as [?%Z.ltb_ge ?%Z.eqb_neq]. lia.
Qed.

Lemma from_assignment_ok `{Digests} `{!DigestsOk} a g e :
  ok_AssignmentV2 DecodeLimits_default a → uint 64 g → from_assignment a g = Ok e → envelope_ok e.
Proof.
  intros Ha Hg (_ & _ & He)%bind_ok. apply bind_ok in He as ([] & Hn & [= <-]).
  unfold ok_AssignmentV2 in Ha. destruct_and!. apply validate_nonce_range_ok in Hn as [??]; [|done..].
  constructor; cbn -[to_be of_be gateway_extra_nonce].
  - split_and!; try done. apply domain_hash_length.
  - done.
  - done.
Qed.

Lemma four_bytes bs : arr 4 bs → bs = to_be 4 (of_be bs) ∧ uint 32 (of_be bs).
Proof.
  intros Hl. unfold arr in Hl. split.
  - rewrite <- Hl. by rewrite to_of_be.
  - pose proof (of_be_range bs) as Hr. unfold len in Hr. rewrite Hl in Hr. exact Hr.
Qed.

Lemma from_gateway_assignment_ok `{Digests} `{!DigestsOk} a g e :
  ok_GatewayAssignmentV1 DecodeLimits_default a → uint 64 g → from_gateway_assignment a g = Ok e → envelope_ok e.
Proof.
  intros Ha Hg (_ & _ & He)%bind_ok. apply bind_ok in He as ([] & Hn & He).
  unfold ok_GatewayAssignmentV1 in Ha. destruct_and!. apply validate_nonce_range_ok in Hn as [??]; [|done..].
  destruct (Z.eqb_spec (ga_extra_nonce_profile a) GATEWAY_EXTRA_NONCE_PROFILE_HANDY_PREFIX4_VARIABLE4_ZERO16)
    as [Hp|]; [|done]. cbn [negb] in He.
  destruct (bytes_ltb _ _) eqn:Eb; [done|]. injection He as <-.
  destruct (four_bytes (ga_extra_nonce2_start_be a)) as [Es ?]; [done|].
  destruct (four_bytes (ga_extra_nonce2_end_be a)) as [Et ?]; [done|].
  constructor; cbn -[to_be of_be gateway_extra_nonce].
  - split_and!; try done. apply domain_hash_length.
  - done.
  - split; [done|]. exists (ga_extra_nonce_prefix a), (of_be (ga_extra_nonce2_start_be a)),
      (of_be (ga_extra_nonce2_end_be a)). rewrite <- Es, <- Et. split_and!; try done.
    apply bytes_le_of_be; [unfold arr in *; congruence|]. apply bytes_not_lt. rewrite <- bytes_ltb_spec. congruence.
Qed.

(** ** The space of an envelope

    Gateway assignments are cut along the second extra nonce, others along the
    header nonce. *)

Definition second_extra_nonce (value : bytes) : Z := of_be (take 4 (drop 4 value)).

Definition space_start (e : WorkEnvelope) : Z :=
  match e.(we_kind) with
  | KindAssignmentV2 => e.(we_nonce_start)
  | KindGatewayAssignmentV1 => second_extra_nonce e.(we_extra_nonce_start)
  end.
Definition space_end (e : WorkEnvelope) : Z :=
  match e.(we_kind) with
  | KindAssignmentV2 => e.(we_nonce_end)
  | KindGatewayAssignmentV1 => second_extra_nonce e.(we_extra_nonce_end)
  end.
Definition space_step (e : WorkEnvelope) : Z :=
  match e.(we_kind) with KindAssignmentV2 => e.(we_nonce_stride) | KindGatewayAssignmentV1 => 1 end.
(** The part of the space that a lease covers. *)
Definition lease_span (e : WorkEnvelope) (l : WorkLease) : Z * Z :=
  match e.(we_kind) with
  | KindAssignmentV2 => (l.(wl_nonce_start), l.(wl_nonce_end))
  | KindGatewayAssignmentV1 => (second_extra_nonce l.(wl_extra_nonce_start), second_extra_nonce l.(wl_extra_nonce_end))
  end.

Definition cursor_key `{Hex} (e : WorkEnvelope) : bytes :=
  match e.(we_kind) with
  | KindAssignmentV2 => nonce_cursor_key e
  | KindGatewayAssignmentV1 => extra_cursor_key e
  end.
Definition plan_range (limits : PlannerLimits) (e : WorkEnvelope) (c : DeviceCapabilities)
    (cursor_bytes : option bytes) : result PlannerError (LeaseRange * option Z) :=
  match e.(we_kind) with
  | KindAssignmentV2 => nonce_range limits e c cursor_bytes
  | KindGatewayAssignmentV1 =>
      extra_nonce_range limits e c (space_start e) (space_end e) cursor_bytes
  end.

Lemma take_drop_extra (prefix m : bytes) :
  arr 4 prefix → arr 4 m →
  take 4 (gateway_extra_nonce prefix m) = prefix ∧ take 4 (drop 4 (gateway_extra_nonce prefix m)) = m ∧
  drop 8 (gateway_extra_nonce prefix m) = replicate 16 x00.
Proof.
  unfold arr, gateway_extra_nonce. intros H1 H2. split_and!.
  - by rewrite <- H1, take_app_length.
  - rewrite <- H1, drop_app_length. by rewrite H1, <- H2, take_app_length.
  - change 8%nat with (4 + 4)%nat. rewrite <- H1 at 1. rewrite <- drop_drop, drop_app_length.
    by rewrite <- H2, drop_app_length.
Qed.

Lemma second_extra_nonce_gateway prefix z :
  arr 4 prefix → uint 32 z → second_extra_nonce (gateway_extra_nonce prefix (to_be 4 z)) = z.
Proof.
  intros Hp Hz. unfold second_extra_nonce.
  destruct (take_drop_extra prefix (to_be 4 z)) as (_ & -> & _); [done|apply to_be_length|].
  apply of_to_be. exact Hz.
Qed.
Lemma extra_nonce2_gateway prefix z :
  arr 4 prefix → uint 32 z → extra_nonce2 (gateway_extra_nonce prefix (to_be 4 z)) = Some z.
Proof.
  intros Hp Hz. unfold extra_nonce2.
  destruct (take_drop_extra prefix (to_be 4 z)) as (_ & Em & ->); [done|apply to_be_length|].
  rewrite Em, of_to_be by exact Hz. done.
Qed.

Lemma space_bounds e :
  envelope_ok e → uint 32 (space_start e) ∧ uint 32 (space_end e) ∧ space_start e ≤ space_end e ∧
  0 < space_step e < 2 ^ 32.
Proof.
  intros [_ (? & ? & Hst & ? & ?) Hx]. unfold space_start, space_end, space_step. unfold uint in Hst.
  destruct (we_kind e); [split_and!; done || lia|].
  destruct Hx as (_ & prefix & s & t & Hp & Hs & Ht & Hle & -> & ->).
  rewrite !second_extra_nonce_gateway by done. split_and!; done || lia.
Qed.

(** ** Cutting a range *)

Definition limits_ok (limits : PlannerLimits) : Prop :=
  1 ≤ limits.(pl_maximum_extra_nonce_values_per_lease) ∧ 1 ≤ limits.(pl_maximum_nonce_values_per_lease).

(** Where a cursor stands in the space. *)
Definition cursor_at (e : WorkEnvelope) (bs : option bytes) (c : Z) : Prop :=
  decode_cursor bs = Ok Unset ∧ c = space_start e ∨
  decode_cursor bs = Ok (Next c) ∨
  decode_cursor bs = Ok Exhausted ∧ space_end e < c.

Lemma decode_encode_cursor z : 0 ≤ z < 2 ^ 64 → decode_cursor (Some (encode_cursor z)) = Ok (Next z).
Proof.
  intros Hz. unfold decode_cursor, encode_cursor. unfold len. cbn [length]. rewrite to_le_length.
  cbn [Nat.add head]. rewrite bool_decide_eq_true_2 by done. cbn [andb Z.of_nat Z.eqb].
  cbn [tail]. rewrite of_to_le by done. done.
Qed.

Section Ranges.
Context (limits : PlannerLimits) (e : WorkEnvelope) (c : DeviceCapabilities).
Hypothesis Hlim : limits_ok limits.
Hypothesis Henv : envelope_ok e.

(** The cut starts at the cursor, stays in the space, is aligned, and the cursor
    moves right behind it. *)
Lemma plan_range_spec bs at_ range next :
  cursor_at e bs at_ → space_start e ≤ at_ → plan_range limits e c bs = Ok (range, next) →
  ∃ t, at_ ≤ t ≤ space_end e ∧ (t - at_) mod space_step e = 0 ∧
    cursor_at e (Some (default encode_exhausted_cursor (encode_cursor <$> next))) (t + space_step e) ∧
    match e.(we_kind) with
    | KindAssignmentV2 =>
        range = mkLeaseRange e.(we_extra_nonce_start) e.(we_extra_nonce_end) at_ t e.(we_nonce_stride)
    | KindGatewayAssignmentV1 =>
        let prefix := take 4 e.(we_extra_nonce_start) in
        range = mkLeaseRange (gateway_extra_nonce prefix (to_be 4 at_)) (gateway_extra_nonce prefix (to_be 4 t))
                  e.(we_nonce_start) e.(we_nonce_end) e.(we_nonce_stride)
    end.
Proof.
  intros Hat Hge. destruct (space_bounds e Henv) as (Hs & Ht & Hle & Hstep). unfold uint in *.
  unfold plan_range, space_step, space_start, space_end in *. destruct (we_kind e) eqn:Ek.
  - unfold nonce_range. intros Hr. apply bind_ok in Hr as (st & Hst & Hr). apply bind_ok in Hr as (cur & Hc & Hr).
    assert (cur = at_) as ->.
    { unfold cursor_at, space_start in Hat. rewrite Ek in Hat. destruct Hat as [[E ->]|[E|[E _]]]; rewrite E in Hst;
        injection Hst as <-; cbn in Hc; congruence. }
    destruct (Z.ltb_spec (we_nonce_end e) at_); [done|]. cbn zeta in Hr.
    set (requested := Z.max _ 1) in *.
    set (steps := Z.min (saturating_sub requested 1) (saturating_sub (we_nonce_end e) at_ / we_nonce_stride e)) in *.
    assert (0 ≤ steps ∧ steps * we_nonce_stride e ≤ we_nonce_end e - at_) as [Hs0 Hs1].
    { pose proof (Z.div_mod (we_nonce_end e - at_) (we_nonce_stride e) ltac:(lia)).
      pose proof (Z.mod_pos_bound (we_nonce_end e - at_) (we_nonce_stride e) ltac:(lia)).
      assert (saturating_sub (we_nonce_end e) at_ = we_nonce_end e - at_) as E by (unfold saturating_sub; lia).
      unfold steps. rewrite E. pose proof (Z.div_pos (we_nonce_end e - at_) (we_nonce_stride e) ltac:(lia) ltac:(lia)).
      unfold saturating_sub. split; [lia|]. nia. }
    assert (saturating_add 64 at_ (saturating_mul 64 steps (we_nonce_stride e)) = at_ + steps * we_nonce_stride e) as Hend.
    { unfold saturating_add, saturating_mul. lia. }
    rewrite Hend in Hr. apply bind_ok in Hr as (_ & _ & Hr). apply bind_ok in Hr as (_ & _ & Hr).
    injection Hr as <- <-. exists (at_ + steps * we_nonce_stride e). split; [lia|]. split; [|split].
    + replace (at_ + steps * we_nonce_stride e - at_) with (steps * we_nonce_stride e) by lia. apply Z.mod_mul. lia.
    + unfold cursor_at, space_end. rewrite Ek. rewrite checked_add_fits by lia.
      destruct (Z.leb_spec (at_ + steps * we_nonce_stride e + we_nonce_stride e) (we_nonce_end e)).
      * right; left. apply decode_encode_cursor. lia.
      * right; right. split; [done|lia].
    + done.
  - unfold extra_nonce_range. intros Hr. apply bind_ok in Hr as (st & Hst & Hr). apply bind_ok in Hr as (cur & Hc & Hr).
    assert (cur = at_) as ->.
    { unfold cursor_at, space_start in Hat. rewrite Ek in Hat. destruct Hat as [[E ->]|[E|[E _]]]; rewrite E in Hst;
        injection Hst as <-; cbn in Hc; congruence. }
    destruct (_ || _) eqn:Eo; [done|]. apply orb_false_iff in Eo as [_ Hend%Z.ltb_ge].
    destruct (Z.leb_spec (2 ^ 32) at_); [done|]. cbn zeta in Hr.
    set (requested := Z.min (Z.max _ 1) _) in *.
    assert (1 ≤ requested) as Hreq by (unfold requested; destruct Hlim; lia).
    set (t := Z.min (saturating_add 32 at_ (requested - 1)) (second_extra_nonce (we_extra_nonce_end e))) in *.
    assert (at_ ≤ t ≤ second_extra_nonce (we_extra_nonce_end e)) as Hbt by (unfold t, saturating_add; lia).
    injection Hr as <- <-. exists t. split; [done|]. split; [by rewrite Z.mod_1_r|]. split; [|done].
    unfold cursor_at, space_end. rewrite Ek. destruct (checked_add 32 t 1) as [n|] eqn:En.
    + apply checked_add_some in En as [-> ?]. right; left. apply decode_encode_cursor. lia.
    + right; right. split; [done|]. unfold checked_add in En. case_match; [done|]. rewrite Z.ltb_ge in *. lia.
Qed.
End Ranges.

(** ** The transition relation *)

(** What two envelopes of one assignment share. *)
Definition same_space (e1 e2 : WorkEnvelope) : Prop :=
  e1.(we_kind) = e2.(we_kind) ∧ e1.(we_extra_nonce_profile) = e2.(we_extra_nonce_profile) ∧
  e1.(we_extra_nonce_start) = e2.(we_extra_nonce_start) ∧ e1.(we_extra_nonce_end) = e2.(we_extra_nonce_end) ∧
  e1.(we_nonce_start) = e2.(we_nonce_start) ∧ e1.(we_nonce_end) = e2.(we_nonce_end) ∧
  e1.(we_nonce_stride) = e2.(we_nonce_stride).

(** The envelopes that planners are given: an assignment identifier stands for one
    signed assignment. *)
Class SignedEnvelopes (authorized : WorkEnvelope → Prop) : Prop := {
  signed_ok e : authorized e → envelope_ok e;
  signed_unique e1 e2 :
    authorized e1 → authorized e2 → e1.(we_assignment_id) = e2.(we_assignment_id) → same_space e1 e2;
}.

(** A lease granted from the cursor, or a whole envelope granted exclusively. *)
Inductive grant := Ranged (l : WorkLease) | Exclusive (l : WorkLease).
Definition grant_lease (g : grant) : WorkLease := match g with Ranged l | Exclusive l => l end.

Definition planner_namespace (ns : bytes) : Prop :=
  ns ∈ [DEVICE_NAMESPACE; LEASE_NAMESPACE; ACTIVE_LEASE_NAMESPACE; CURSOR_NAMESPACE; EXCLUSIVE_NAMESPACE].

Definition device_ok (c : DeviceCapabilities) : Prop := ok_DeviceCapabilities DecodeLimits_default c.
Definition terms_ok (target : U256) (now_ms : Z) (expires_at_ms : option Z) : Prop :=
  arr 32 target ∧ uint 64 now_ms ∧ ok_option (uint 64) expires_at_ms.

Section Steps.
Context `{Digests} `{!Hex} (authorized : WorkEnvelope → Prop).

Inductive plan_step : View → list grant → View → Prop :=
| step_other v v' :
    (∀ ns k, planner_namespace ns → v' !! (ns, k) = v !! (ns, k)) → plan_step v [] v'
| step_register v c :
    device_ok c →
    (∀ x, v !! (DEVICE_NAMESPACE, hex_encode c.(dc_device_id)) = Some x →
      ∃ prior, decode_capabilities x = Ok prior ∧ same_static_contract prior c = true) →
    plan_step v [] (<[(DEVICE_NAMESPACE, hex_encode c.(dc_device_id)) := to_canonical_bytes c]> v)
| step_release v device id :
    v !! (ACTIVE_LEASE_NAMESPACE, hex_encode device) = Some id →
    plan_step v [] (delete (ACTIVE_LEASE_NAMESPACE, hex_encode device) v)
| step_allocate v limits e c target now_ms expires_at_ms range next :
    limits_ok limits → authorized e → device_ok c → terms_ok target now_ms expires_at_ms →
    plan_range limits e c (v !! (CURSOR_NAMESPACE, cursor_key e)) = Ok (range, next) →
    v !! (ACTIVE_LEASE_NAMESPACE, hex_encode c.(dc_device_id)) = None →
    let l := build_lease e c range target now_ms expires_at_ms in
    plan_step v [Ranged l]
      (view_apply v (allocation_operations (cursor_key e) (encode_cursor <$> next) c l))
| step_exclusive v e c target now_ms expires_at_ms :
    authorized e → device_ok c → terms_ok target now_ms expires_at_ms →
    e.(we_kind) = KindAssignmentV2 → c.(dc_supports_nonce_range) = false →
    v !! (ACTIVE_LEASE_NAMESPACE, hex_encode c.(dc_device_id)) = None →
    v !! (EXCLUSIVE_NAMESPACE, hex_encode e.(we_assignment_id)) = None →
    let l := build_lease e c (whole_range e) target now_ms expires_at_ms in
    plan_step v [Exclusive l] (view_apply v (exclusive_operations e c l)).

(** The grants of a run, oldest first. *)
Inductive plan_run : View → list grant → View → Prop :=
| run_nil v : plan_run v [] v
| run_snoc v h v1 g v2 : plan_run v h v1 → plan_step v1 g v2 → plan_run v (h ++ g) v2.

Lemma plan_run_app v1 h1 v2 h2 v3 : plan_run v1 h1 v2 → plan_run v2 h2 v3 → plan_run v1 (h1 ++ h2) v3.
Proof.
  intros H1. induction 1 as [|v h v' g v'' _ IH Hs]; [by rewrite app_nil_r|].
  rewrite app_assoc. eapply run_snoc; [by apply IH|done].
Qed.
Lemma plan_run_one v g v' : plan_step v g v' → plan_run v g v'.
Proof. intros Hs. rewrite <- (app_nil_l g). by eapply run_snoc; [constructor|]. Qed.

(** The relation between views that planners rely on and guarantee. *)
Definition planner_rely (v v' : View) : Prop := ∃ h, plan_run v h v'.
#[export] Instance planner_rely_preorder : PreOrder planner_rely.
Proof.
  split; [intros v; exists []; constructor|].
  intros v1 v2 v3 [h1 H1] [h2 H2]. exists (h1 ++ h2). by eapply plan_run_app.
Qed.
End Steps.

(** ** Tilings *)

(** Consecutive aligned spans from [c], the next one starting at [c']. *)
Fixpoint tiles (step c : Z) (spans : list (Z * Z)) (c' : Z) : Prop :=
  match spans with
  | [] => c' = c
  | (s, t) :: spans => s = c ∧ s ≤ t ∧ (t - s) mod step = 0 ∧ tiles step (t + step) spans c'
  end.

Lemma tiles_snoc step c spans c1 t :
  tiles step c spans c1 → c1 ≤ t → (t - c1) mod step = 0 → tiles step c (spans ++ [(c1, t)]) (t + step).
Proof.
  revert c. induction spans as [|[s u] spans IH]; intros c Ht Hle Hm; cbn in *; [by subst|].
  destruct Ht as (-> & ? & ? & Ht). split_and!; [done..|]. by apply IH.
Qed.
Lemma tiles_le step c spans c' : 0 < step → tiles step c spans c' → c ≤ c'.
Proof.
  intros Hs. revert c. induction spans as [|[s t] spans IH]; intros c Ht; cbn in Ht; [lia|].
  destruct Ht as (-> & ? & _ & Ht%IH). lia.
Qed.
(** Earlier spans end before later ones start. *)
Lemma tiles_ordered step c spans c' i j si sj ti tj :
  0 < step → tiles step c spans c' → spans !! i = Some (si, ti) → spans !! j = Some (sj, tj) →
  (i < j)%nat → c ≤ si ≤ ti ∧ ti < sj.
Proof.
  intros Hs. revert c i j. induction spans as [|[s t] spans IH]; intros c i j Ht Hi Hj Hij; [done|].
  cbn in Ht. destruct Ht as (-> & Hst & _ & Ht). destruct j as [|j]; [lia|]. destruct i as [|i].
  - injection Hi as <- <-. split; [lia|].
    assert (t + step ≤ sj) as Hsj; [|lia]. clear IH Hij. cbn in Hj. revert Ht Hj. generalize (t + step) as b.
    revert j. induction spans as [|[s2 t2] spans IH2]; intros j b Ht Hj; [done|]. destruct Ht as (-> & ? & _ & Ht).
    destruct j as [|j]; [injection Hj as -> ->; lia|]. specialize (IH2 j _ Ht Hj). lia.
  - destruct (IH _ i j Ht Hi Hj) as [? ?]; [lia|]. lia.
Qed.

(** ** Leases as built *)

Section Leases.
Context `{Digests} `{!DigestsOk}.

(** How a lease lies in its envelope. *)
Definition lease_in (e : WorkEnvelope) (l : WorkLease) : Prop :=
  l.(wl_assignment_id) = e.(we_assignment_id) ∧ l.(wl_extra_nonce_profile) = e.(we_extra_nonce_profile) ∧
  l.(wl_nonce_stride) = e.(we_nonce_stride) ∧
  match e.(we_kind) with
  | KindAssignmentV2 =>
      l.(wl_extra_nonce_start) = e.(we_extra_nonce_start) ∧ l.(wl_extra_nonce_end) = e.(we_extra_nonce_end)
  | KindGatewayAssignmentV1 =>
      l.(wl_nonce_start) = e.(we_nonce_start) ∧ l.(wl_nonce_end) = e.(we_nonce_end) ∧
      ∃ s t, uint 32 s ∧ uint 32 t ∧
        l.(wl_extra_nonce_start) = gateway_extra_nonce (take 4 e.(we_extra_nonce_start)) (to_be 4 s) ∧
        l.(wl_extra_nonce_end) = gateway_extra_nonce (take 4 e.(we_extra_nonce_start)) (to_be 4 t)
  end.

Lemma gateway_prefix e :
  envelope_ok e → e.(we_kind) = KindGatewayAssignmentV1 → arr 4 (take 4 e.(we_extra_nonce_start)).
Proof.
  intros [_ _ Hx] Ek. rewrite Ek in Hx. destruct Hx as (_ & p & s & t & Hp & _ & _ & _ & -> & _).
  destruct (take_drop_extra p (to_be 4 s)) as [-> _]; [done|apply to_be_length|done].
Qed.

Lemma build_lease_ok e c range target now_ms expires :
  envelope_ok e → device_ok c → terms_ok target now_ms expires →
  arr 24 range.(lr_extra_nonce_start) → arr 24 range.(lr_extra_nonce_end) → uint 32 range.(lr_nonce_start) →
  uint 32 range.(lr_nonce_end) → uint 32 range.(lr_nonce_stride) →
  let l := build_lease e c range target now_ms expires in
  ok_WorkLease DecodeLimits_default l.
Proof.
  intros [(? & ? & ? & ? & ?) _ Hx] Hc (? & ? & ?) ? ? ? ? ?. cbn zeta. unfold ok_WorkLease.
  unfold device_ok, ok_DeviceCapabilities in Hc. destruct_and!. cbn -[lease_valid].
  split_and!; try done.
  - apply domain_hash_length.
  - destruct (we_kind e); [by destruct Hx as [-> _]|by destruct Hx as [-> _]].
  - unfold lease_valid. cbn [wl_protocol_version wl_lease_id build_lease with_lease_id].
    apply andb_true_iff. split; [done|]. by apply bool_decide_eq_true.
Qed.

Lemma lease_size l : ok_WorkLease DecodeLimits_default l → len (to_canonical_bytes l) ≤ DEFAULT_MAX_BYTES.
Proof.
  unfold ok_WorkLease, arr. intros Hok. destruct_and!. unfold to_canonical_bytes, into_bytes. cbn [encode WorkLease_codec].
  unfold encode_WorkLease. rewrite !wseq_nil by apply _.
  destruct (wl_expires_at_ms l); unfold encode_option, enc_u8, enc_u16, enc_u32, enc_u64, enc_fixed, enc_bool; unfold wseq;
    cbn [app]; unfold len, enc_u8; repeat (rewrite ?length_app, ?to_le_length; cbn [length app]); unfold DEFAULT_MAX_BYTES; lia.
Qed.
Lemma decode_stored_lease l : ok_WorkLease DecodeLimits_default l → decode_lease (to_canonical_bytes l) = Ok l.
Proof.
  intros Hok. unfold decode_lease. apply from_canonical_complete; [split; by vm_compute|done|].
  by apply lease_size.
Qed.

(** The lease cut at the cursor. *)
Lemma cut_lease limits e c bs at_ range next target now_ms expires :
  limits_ok limits → envelope_ok e → device_ok c → terms_ok target now_ms expires →
  cursor_at e bs at_ → space_start e ≤ at_ → plan_range limits e c bs = Ok (range, next) →
  let l := build_lease e c range target now_ms expires in
  ok_WorkLease DecodeLimits_default l ∧ lease_in e l ∧
  ∃ t, at_ ≤ t ≤ space_end e ∧ (t - at_) mod space_step e = 0 ∧ lease_span e l = (at_, t) ∧
    cursor_at e (Some (default encode_exhausted_cursor (encode_cursor <$> next))) (t + space_step e).
Proof.
  intros Hlim He Hc Hterms Hat Hge Hr. cbn zeta.
  destruct (plan_range_spec limits e c Hlim He bs at_ range next Hat Hge Hr) as (t & Hb & Hm & Hcur & Hrange).
  destruct (space_bounds e He) as (Hs & Ht & _ & _). pose proof He as [_ (Hn1 & Hn2 & Hn3 & _) Hx].
  assert (uint 32 at_ ∧ uint 32 t) as [Ua Ut] by (unfold uint in *; lia).
  unfold space_start, space_end in *. unfold lease_in, lease_span.
  destruct (we_kind e) eqn:Ek; subst range; cbn zeta.
  - split; [|split; [done|by exists t]].
    destruct Hx as (_ & Hx1 & Hx2). apply build_lease_ok; try done; cbn; congruence.
  - pose proof (gateway_prefix e He Ek) as Hp.
    assert (∀ z, arr 24 (gateway_extra_nonce (take 4 (we_extra_nonce_start e)) (to_be 4 z))) as Ha.
    { intros z. unfold arr, gateway_extra_nonce. rewrite !length_app, to_be_length, length_replicate.
      unfold arr in Hp. by rewrite Hp. }
    split; [apply build_lease_ok; try done; apply Ha|]. split.
    + cbn -[gateway_extra_nonce to_be]. do 5 (split; [done|]). by exists at_, t.
    + exists t. do 2 (split; [done|]). split; [|done].
      cbn [build_lease with_lease_id wl_extra_nonce_start wl_extra_nonce_end lr_extra_nonce_start lr_extra_nonce_end].
      by rewrite !second_extra_nonce_gateway by done.
Qed.

Lemma whole_lease e c target now_ms expires :
  envelope_ok e → device_ok c → terms_ok target now_ms expires → e.(we_kind) = KindAssignmentV2 →
  ok_WorkLease DecodeLimits_default (build_lease e c (whole_range e) target now_ms expires).
Proof.
  intros He Hc Hterms Ek. pose proof He as [_ (? & ? & ? & _) Hx]. rewrite Ek in Hx.
  destruct Hx as (_ & Hx1 & Hx2). apply build_lease_ok; try done; cbn; congruence.
Qed.
End Leases.

(** ** The invariant of runs *)

(** Keys of different namespaces. *)
Ltac other_namespace := let Heq := fresh in intros Heq; apply (f_equal fst) in Heq; vm_compute in Heq; discriminate Heq.
Ltac view_lookup :=
  unfold allocation_operations, exclusive_operations, view_apply; cbn [foldl];
  repeat first [rewrite lookup_insert_eq | rewrite lookup_insert_ne by other_namespace].

Section Invariant.
Context `{Digests} `{!DigestsOk} `{HexOk} (authorized : WorkEnvelope → Prop) `{!SignedEnvelopes authorized}.

Lemma hex_inj (x y : bytes) : hex_encode x = hex_encode y → x = y.
Proof. intros E. apply (f_equal hex_decode) in E. rewrite !hex_decode_encode in E. congruence. Qed.

Lemma planner_cursor_key_inj e1 e2 : cursor_key e1 = cursor_key e2 → e1.(we_assignment_id) = e2.(we_assignment_id).
Proof.
  unfold cursor_key, extra_cursor_key, nonce_cursor_key. intros E. apply hex_inj.
  destruct (we_kind e1), (we_kind e2); apply app_inj_2 in E as [E1 E2]; try done.
Qed.

Definition ranged_leases (e : WorkEnvelope) (h : list grant) : list WorkLease :=
  omap (λ g, match g with
             | Ranged l => if decide (l.(wl_assignment_id) = e.(we_assignment_id)) then Some l else None
             | Exclusive _ => None
             end) h.
Definition exclusive_ids (h : list grant) : list Hash256 :=
  omap (λ g, match g with Exclusive l => Some l.(wl_assignment_id) | Ranged _ => None end) h.

Record planned (h : list grant) (v : View) : Prop := {
  pl_tiles e : authorized e →
    ∃ c, cursor_at e (v !! (CURSOR_NAMESPACE, cursor_key e)) c ∧
      tiles (space_step e) (space_start e) (lease_span e <$> ranged_leases e h) c ∧
      Forall (λ p, p.2 ≤ space_end e) (lease_span e <$> ranged_leases e h);
  pl_exclusive : NoDup (exclusive_ids h) ∧
    ∀ id, id ∈ exclusive_ids h → is_Some (v !! (EXCLUSIVE_NAMESPACE, hex_encode id));
  pl_ok g : g ∈ h → ok_WorkLease DecodeLimits_default (grant_lease g);
  pl_in l : Ranged l ∈ h → ∃ e, authorized e ∧ lease_in e l;
  pl_stored g : g ∈ h → is_Some (v !! (LEASE_NAMESPACE, hex_encode (grant_lease g).(wl_lease_id)));
  pl_leases k x : v !! (LEASE_NAMESPACE, k) = Some x →
    ∃ g, g ∈ h ∧ k = hex_encode (grant_lease g).(wl_lease_id) ∧ x = to_canonical_bytes (grant_lease g);
  pl_active d id : v !! (ACTIVE_LEASE_NAMESPACE, hex_encode d) = Some id →
    ∃ g, g ∈ h ∧ (grant_lease g).(wl_lease_id) = id ∧ (grant_lease g).(wl_device_id) = d;
}.

Lemma planned_empty : planned [] ∅.
Proof.
  split; try (intros; set_solver).
  - intros e He. exists (space_start e). rewrite lookup_empty. split; [by left|]. split; [done|constructor].
  - split; [constructor|set_solver].
Qed.

Lemma ranged_leases_app e h g : ranged_leases e (h ++ g) = ranged_leases e h ++ ranged_leases e g.
Proof. apply omap_app. Qed.

(** Steps that leave the cursors, leases and exclusive markers alone. *)
Lemma planned_quiet h (v v' : View) :
  planned h v →
  (∀ ns k, ns ∈ [LEASE_NAMESPACE; CURSOR_NAMESPACE; EXCLUSIVE_NAMESPACE] → v' !! (ns, k) = v !! (ns, k)) →
  (∀ k x, v' !! (ACTIVE_LEASE_NAMESPACE, k) = Some x → v !! (ACTIVE_LEASE_NAMESPACE, k) = Some x) →
  planned h v'.
Proof.
  intros [Ht [Hx1 Hx2] Hok Hin Hst Hl Ha] Hsame Hact.
  split; try done.
  - intros e He. rewrite Hsame by set_solver. by apply Ht.
  - split; [done|]. intros id Hid. rewrite Hsame by set_solver. by apply Hx2.
  - intros g Hg. rewrite Hsame by set_solver. by apply Hst.
  - intros k x. rewrite Hsame by set_solver. apply Hl.
  - intros d id Hd. by apply Ha, Hact.
Qed.

(** What a new lease record and active marker preserve. *)
Lemma planned_records h (v v' : View) g :
  planned h v → ok_WorkLease DecodeLimits_default (grant_lease g) →
  (∀ k, v' !! (LEASE_NAMESPACE, k) =
     if decide (k = hex_encode (grant_lease g).(wl_lease_id)) then Some (to_canonical_bytes (grant_lease g))
     else v !! (LEASE_NAMESPACE, k)) →
  (∀ k, v' !! (ACTIVE_LEASE_NAMESPACE, k) =
     if decide (k = hex_encode (grant_lease g).(wl_device_id)) then Some (grant_lease g).(wl_lease_id)
     else v !! (ACTIVE_LEASE_NAMESPACE, k)) →
  (∀ g', g' ∈ h ++ [g] → ok_WorkLease DecodeLimits_default (grant_lease g')) ∧
  (∀ g', g' ∈ h ++ [g] → is_Some (v' !! (LEASE_NAMESPACE, hex_encode (grant_lease g').(wl_lease_id)))) ∧
  (∀ k x, v' !! (LEASE_NAMESPACE, k) = Some x →
    ∃ g', g' ∈ h ++ [g] ∧ k = hex_encode (grant_lease g').(wl_lease_id) ∧ x = to_canonical_bytes (grant_lease g')) ∧
  (∀ d id, v' !! (ACTIVE_LEASE_NAMESPACE, hex_encode d) = Some id →
    ∃ g', g' ∈ h ++ [g] ∧ (grant_lease g').(wl_lease_id) = id ∧ (grant_lease g').(wl_device_id) = d).
Proof.
  intros [_ _ Hok _ Hst Hl Ha] Hg EL EA. split_and!.
  - intros g' [?| ->%list_elem_of_singleton]%elem_of_app; auto.
  - intros g' Hg'. rewrite EL. destruct (decide _) as [|Hne]; [by eexists|].
    apply elem_of_app in Hg' as [?| ->%list_elem_of_singleton]; [by apply Hst|done].
  - intros k x. rewrite EL. destruct (decide _) as [->|]; [intros [= <-]; exists g; set_solver|].
    intros (g' & ? & ?)%Hl. exists g'. set_solver.
  - intros d id. rewrite EA. destruct (decide _) as [E%hex_inj|]; [intros [= <-]; exists g; set_solver|].
    intros (g' & ? & ?)%Ha. exists g'. set_solver.
Qed.

Lemma same_space_span e1 e2 :
  same_space e1 e2 → e1.(we_assignment_id) = e2.(we_assignment_id) →
  cursor_key e1 = cursor_key e2 ∧ space_start e1 = space_start e2 ∧ space_end e1 = space_end e2 ∧
  space_step e1 = space_step e2 ∧ (∀ l, lease_span e1 l = lease_span e2 l) ∧
  (∀ h, ranged_leases e1 h = ranged_leases e2 h).
Proof.
  intros (Hk & Hp & Hs & He & Hn1 & Hn2 & Hn3) Hid.
  unfold cursor_key, extra_cursor_key, nonce_cursor_key, space_start, space_end, space_step, lease_span, ranged_leases.
  rewrite Hk, Hs, He, Hn1, Hn2, Hn3, Hid. done.
Qed.

Lemma planned_allocate h (v : View) limits e c target now_ms expires range next :
  planned h v → limits_ok limits → authorized e → device_ok c → terms_ok target now_ms expires →
  plan_range limits e c (v !! (CURSOR_NAMESPACE, cursor_key e)) = Ok (range, next) →
  let l := build_lease e c range target now_ms expires in
  planned (h ++ [Ranged l]) (view_apply v (allocation_operations (cursor_key e) (encode_cursor <$> next) c l)).
Proof.
  intros Hpl Hlim He Hc Hterms Hr l. pose proof (signed_ok e He) as Heok.
  destruct (pl_tiles h v Hpl e He) as (at_ & Hat & Htiles & Hends).
  assert (0 < space_step e) as Hstep by apply (space_bounds e Heok).
  pose proof (tiles_le _ _ _ _ Hstep Htiles) as Hge.
  destruct (cut_lease limits e c _ at_ range next target now_ms expires Hlim Heok Hc Hterms Hat Hge Hr)
    as (Hlok & Hlin & t & Hb & Hm & Hspan & Hcur). fold l in Hlok, Hlin, Hspan.
  set (v' := view_apply v _).
  destruct (planned_records h v v' (Ranged l) Hpl Hlok) as (P1 & P2 & P3 & P4).
  { intros k. unfold v'. view_lookup. cbn [grant_lease]. destruct (decide _) as [->|Hne]; [by rewrite lookup_insert_eq|].
    rewrite lookup_insert_ne by congruence. done. }
  { intros k. unfold v'. view_lookup. cbn [grant_lease]. change (wl_device_id l) with (dc_device_id c).
    destruct (decide _) as [->|Hne]; [by rewrite lookup_insert_eq|]. rewrite lookup_insert_ne by congruence. by view_lookup. }
  split; try done.
  - intros e2 He2. destruct (decide (e2.(we_assignment_id) = e.(we_assignment_id))) as [Hid|Hne].
    + pose proof (signed_unique e2 e He2 He Hid) as Hsame. pose proof Hsame as (Hk & _).
      destruct (same_space_span e2 e Hsame Hid) as (E1 & E2 & E3 & E4 & E5 & E6).
      exists (t + space_step e). rewrite E1, E2, E3, E4, E6. unfold v'. view_lookup.
      assert (cursor_at e2 (Some (default encode_exhausted_cursor (encode_cursor <$> next))) (t + space_step e)) as Hcur2.
      { unfold cursor_at in *. by rewrite E2, E3. }
      rewrite (list_fmap_ext (lease_span e2) (lease_span e) _ (λ _ l _, E5 l)).
      rewrite ranged_leases_app. cbn [ranged_leases omap list_omap]. rewrite decide_True by done.
      rewrite fmap_app. cbn [fmap list_fmap]. rewrite Hspan. split; [done|]. split.
      * by apply tiles_snoc; [|lia|].
      * apply Forall_app. split; [done|]. constructor; [cbn; lia|constructor].
    + destruct (pl_tiles h v Hpl e2 He2) as (c2 & Hc2 & Ht2 & Hf2). exists c2. unfold v'. view_lookup.
      rewrite lookup_insert_ne by (intros [= E]; by apply planner_cursor_key_inj in E). view_lookup.
      rewrite ranged_leases_app. cbn [ranged_leases omap list_omap].
      rewrite decide_False by (destruct Hlin as (-> & _); congruence). by rewrite app_nil_r.
  - unfold exclusive_ids. rewrite omap_app. cbn. rewrite app_nil_r. destruct (pl_exclusive h v Hpl) as [Hn Hx].
    split; [done|]. intros id Hid. unfold v'. view_lookup. by apply Hx.
  - intros l' [Hl'|Hl']%elem_of_app; [by apply (pl_in h v Hpl)|].
    apply list_elem_of_singleton in Hl' as [= ->]. by exists e.
Qed.

Lemma planned_exclusive h (v : View) e c target now_ms expires :
  planned h v → authorized e → device_ok c → terms_ok target now_ms expires → e.(we_kind) = KindAssignmentV2 →
  v !! (EXCLUSIVE_NAMESPACE, hex_encode e.(we_assignment_id)) = None →
  let l := build_lease e c (whole_range e) target now_ms expires in
  planned (h ++ [Exclusive l]) (view_apply v (exclusive_operations e c l)).
Proof.
  intros Hpl He Hc Hterms Hk Habs l. pose proof (signed_ok e He) as Heok.
  assert (ok_WorkLease DecodeLimits_default l) as Hlok by (by apply whole_lease).
  set (v' := view_apply v _).
  destruct (planned_records h v v' (Exclusive l) Hpl Hlok) as (P1 & P2 & P3 & P4).
  { intros k. unfold v'. view_lookup. cbn [grant_lease]. destruct (decide _) as [->|Hne]; [by rewrite lookup_insert_eq|].
    rewrite lookup_insert_ne by congruence. done. }
  { intros k. unfold v'. view_lookup. cbn [grant_lease]. change (wl_device_id l) with (dc_device_id c).
    destruct (decide _) as [->|Hne]; [by rewrite lookup_insert_eq|]. rewrite lookup_insert_ne by congruence. by view_lookup. }
  split; try done.
  - intros e2 He2. destruct (pl_tiles h v Hpl e2 He2) as (c2 & Hc2 & Ht2 & Hf2). exists c2. unfold v'. view_lookup.
    rewrite ranged_leases_app. cbn [ranged_leases omap list_omap]. by rewrite app_nil_r.
  - destruct (pl_exclusive h v Hpl) as [Hn Hx]. unfold exclusive_ids. rewrite omap_app. cbn. split.
    + apply NoDup_app. split_and!; [done| |apply NoDup_singleton]. intros id Hid ->%list_elem_of_singleton.
      apply Hx in Hid as [y Hy]. change (v !! (EXCLUSIVE_NAMESPACE, hex_encode (we_assignment_id e)) = Some y) in Hy. congruence.
    + intros id Hid. unfold v'. view_lookup. destruct (decide (id = e.(we_assignment_id))) as [->|Hne];
        [rewrite lookup_insert_eq; by eexists|].
      rewrite lookup_insert_ne by (intros [= E]; by apply hex_inj in E). view_lookup.
      apply elem_of_app in Hid as [Hid| ->%list_elem_of_singleton]; [by apply Hx|done].
  - intros l' [Hl'|Hl']%elem_of_app; [by apply (pl_in h v Hpl)|]. apply list_elem_of_singleton in Hl'. done.
Qed.

Lemma planned_step h (v : View) g v' : planned h v → plan_step authorized v g v' → planned (h ++ g) v'.
Proof.
  intros Hpl. destruct 1 as [v v' Hsame|v c Hc _|v d id _|v limits e c target now_ms expires range next Hlim He Hc Ht Hr _|
    v e c target now_ms expires He Hc Ht Hk _ _ Habs].
  - rewrite app_nil_r. apply (planned_quiet h v); [done| |].
    + intros ns k Hns. apply Hsame. unfold planner_namespace. set_solver.
    + intros k x. by rewrite Hsame by (unfold planner_namespace; set_solver).
  - rewrite app_nil_r. apply (planned_quiet h v); [done| |].
    + intros ns k Hns. rewrite lookup_insert_ne; [done|]. intros [= <- _].
      repeat (apply elem_of_cons in Hns as [Hns|Hns]; [vm_compute in Hns; discriminate Hns|]). by apply not_elem_of_nil in Hns.
    + intros k x. by view_lookup.
  - rewrite app_nil_r. apply (planned_quiet h v); [done| |].
    + intros ns k Hns. rewrite lookup_delete_ne; [done|]. intros [= <- _].
      repeat (apply elem_of_cons in Hns as [Hns|Hns]; [vm_compute in Hns; discriminate Hns|]). by apply not_elem_of_nil in Hns.
    + intros k x. rewrite lookup_delete_Some. tauto.
  - by eapply planned_allocate.
  - by apply planned_exclusive.
Qed.

Lemma planned_run v h1 h v' : planned h1 v → plan_run authorized v h v' → planned (h1 ++ h) v'.
Proof.
  intros Hpl. induction 1 as [|v h v1 g v2 _ IH Hs]; [by rewrite app_nil_r|].
  rewrite app_assoc. eapply planned_step; [by apply IH|done].
Qed.
End Invariant.

(** ** Refinement *)

Definition typed_device (c : DeviceCapabilities) : Prop :=
  arr 32 c.(dc_device_id) ∧ arr 32 c.(dc_minimum_device_target) ∧ uint 32 c.(dc_maximum_job_rate_hz) ∧
  uint 64 c.(dc_preferred_batch_size) ∧ ok_option (uint 64) c.(dc_measured_hashrate) ∧
  uint 8 c.(dc_telemetry_level).
Lemma typed_device_ok c : typed_device c → validate_capabilities c = Ok tt → device_ok c.
Proof.
  intros (? & ? & ? & ? & ? & ?) Hv. unfold device_ok, ok_DeviceCapabilities, capabilities_valid. by rewrite Hv.
Qed.

Section Refinement.
Context `{Digests} `{!DigestsOk} `{HexOk} (authorized : WorkEnvelope → Prop) `{!SignedEnvelopes authorized}.
Context {S : Type} `{!DurableStore S, !DurableStoreLaws S} (env : nat → S → S).
Hypothesis env_R : ∀ n s v, represents s v → ∃ v', represents (env n s) v' ∧ planner_rely authorized v v'.
(** The run so far, and where the operation starts. *)
Context (h0 : list grant) (v0 : View).
Hypothesis run0 : plan_run authorized ∅ h0 v0.

Abbreviation reached v := (∃ h, plan_run authorized v0 h v).

Lemma reached_rely v v' : reached v → planner_rely authorized v v' → reached v'.
Proof. intros [h Hh] [h' Hh']. exists (h ++ h'). by eapply plan_run_app. Qed.
Lemma reached_step v g v' : reached v → plan_step authorized v g v' → reached v'.
Proof. intros [h Hh] Hs. exists (h ++ g). by eapply run_snoc. Qed.
Lemma reached_planned v : reached v → ∃ h, plan_run authorized v0 h v ∧ planned authorized (h0 ++ h) v.
Proof.
  intros [h Hh]. exists h. split; [done|]. apply (planned_run authorized v0 h0 h v); [|exact Hh].
  apply (planned_run authorized ∅ [] h0 v0); [exact (planned_empty authorized)|exact run0].
Qed.

Lemma valid_hex_key ns d : x00 ∉ ns → valid_key (ns, hex_encode d) = true.
Proof. intros Hns. apply valid_key_spec. split; [done|apply hex_encode_nul]. Qed.
Lemma valid_cursor_key e : valid_key (CURSOR_NAMESPACE, cursor_key e) = true.
Proof.
  apply valid_key_spec. split; [vm_compute; set_solver|].
  unfold cursor_key, extra_cursor_key, nonce_cursor_key.
  destruct (we_kind e); rewrite elem_of_app; intros [Hn%hex_encode_nul|Hn]; try done; vm_compute in Hn; set_solver.
Qed.

Ltac key_ok := apply valid_hex_key; vm_compute; set_solver.

Lemma swap_refines ns k expected x v (Φ : result PlannerError bool → View → Prop) :
  valid_key (ns, k) = true → reached v →
  (∀ v1 : View, reached v1 → v1 !! (ns, k) = expected → Φ (Ok true) (<[(ns, k) := x]> v1)) →
  (∀ b v1, reached v1 → Φ (Ok b) v1) →
  ewp (swap_or_present env ns k expected x) v Φ.
Proof.
  intros Hk Hv Ht Hf. unfold swap_or_present. apply ewp_bind, (ewp_cas env PE_Storage _ env_R); [done| |].
  - intros v1 Hle Hx. apply ewp_ret. apply Ht; [by eapply reached_rely|done].
  - intros v1 Hle _. apply ewp_bind, (ewp_get env PE_Storage _ env_R); [done|]. intros v2 Hle2. apply ewp_ret.
    apply Hf. do 2 (eapply reached_rely; [|eassumption]). done.
Qed.

Lemma register_refines c v (Φ : result PlannerError unit → View → Prop) :
  typed_device c → reached v →
  (∀ r v', reached v' → (r = Ok tt → device_ok c) → r ≠ Err CorruptLease → (∀ e, r ≠ Err (PE_Storage e)) → Φ r v') →
  ewp (register_device env c) v Φ.
Proof.
  intros Hc Hv HΦ. unfold register_device. apply ewp_lift_bind; [|intros e He; apply HΦ; try done].
  2: { destruct (validate_capabilities c); [done|]. by injection He as <-. }
  2: { destruct (validate_capabilities c); [done|]. by injection He as <-. }
  intros [] Hok%map_err_ok. pose proof (typed_device_ok c Hc Hok) as Hdev.
  apply ewp_bind, (ewp_get env PE_Storage _ env_R); [key_ok|]. intros v1 Hle1.
  assert (reached v1) as Hv1 by (by eapply reached_rely).
  case_bool_decide as Hsame; [apply ewp_ret; by apply HΦ|].
  set (stored := v1 !! _) in *.
  apply ewp_bind. eapply (ewp_mono _ _ (λ r v', v' = v1 ∧ match r with
    | Ok _ => ∀ x, stored = Some x → ∃ prior, decode_capabilities x = Ok prior ∧ same_static_contract prior c = true
    | Err e => e = InvalidCapabilities end)).
  2: { destruct stored as [existing|]; [|apply ewp_ret; split; done].
    apply ewp_lift_bind; [|intros e He; split; [done|]]; [|by destruct (decode_capabilities existing); simplify_eq/=].
    intros prior Hp%map_err_ok. apply ewp_lift. split; [done|]. unfold ensure.
    destruct (same_static_contract prior c) eqn:Es; [|done]. intros x [= <-]. by exists prior. }
  intros r v' [-> Hr]. destruct r as [[]|e]; [|subst e; by apply HΦ].
  apply ewp_bind, swap_refines; [key_ok|done| |].
  - intros v2 Hv2 Hx. apply ewp_lift. apply HΦ; try done. eapply reached_step; [done|].
    apply step_register; [done|]. rewrite Hx. exact Hr.
  - intros b v2 Hv2. apply ewp_lift. destruct b; by apply HΦ.
Qed.

(** How an allocation ends: with a lease of the history, or an error that blames
    neither the store nor its records. *)
Definition granted (r : result PlannerError WorkLease) (v' : View) : Prop :=
  ∃ h, plan_run authorized v0 h v' ∧ (∀ l, r = Ok l → ∃ g, g ∈ h0 ++ h ∧ grant_lease g = l) ∧
    r ≠ Err CorruptLease ∧ ∀ e, r ≠ Err (PE_Storage e).

Lemma granted_err err v : reached v → err ≠ CorruptLease → (∀ e, err ≠ PE_Storage e) → granted (Err err) v.
Proof. intros [h Hh] H1' H2'. exists h. split_and!; [done|done|congruence|congruence]. Qed.
Lemma granted_step v g v' : reached v → plan_step authorized v [g] v' → granted (Ok (grant_lease g)) v'.
Proof.
  intros [h Hh] Hs. exists (h ++ [g]). split; [by eapply run_snoc|]. split; [|done].
  intros l [= <-]. exists g. split; [set_solver|done].
Qed.

Lemma plan_range_err limits e c bs at_ err :
  cursor_at e bs at_ → plan_range limits e c bs = Err err → err = EnvelopeExhausted.
Proof.
  intros Hat. assert (∃ st, decode_cursor bs = Ok st) as [st Hst].
  { destruct Hat as [[E _]|[E|[E _]]]; by eexists. }
  unfold plan_range, nonce_range, extra_nonce_range. rewrite Hst. cbn [mbind result_bind].
  destruct (we_kind e), st as [|value|]; cbn [mbind result_bind]; unfold ensure; intros E;
    repeat (case_match; cbn [mbind result_bind] in E; simplify_eq; try done); congruence.
Qed.

Lemma persist_allocation_refines limits e c target now_ms expires range next bs v :
  limits_ok limits → authorized e → device_ok c → terms_ok target now_ms expires → reached v →
  plan_range limits e c bs = Ok (range, next) →
  let l := build_lease e c range target now_ms expires in
  ewp (_ ← persist_allocation env (cursor_key e) bs (encode_cursor <$> next) c l; mret l) v granted.
Proof.
  intros Hlim He Hc Hterms Hv Hr l. apply ewp_bind. unfold persist_allocation.
  apply ewp_bind, (ewp_batch_if_all env PE_Storage _ env_R).
  - unfold batch_keys_valid, allocation_conditions, allocation_operations, condition_target, operation_target, condition_absent.
    cbn [fmap list_fmap forallb bc_namespace bc_key]. rewrite valid_cursor_key.
    rewrite !valid_hex_key by (vm_compute; set_solver). done.
  - intros v1 Hle Hcs. apply ewp_lift, ewp_ret. unfold conditions_hold, allocation_conditions, condition_absent in Hcs.
    apply Forall_cons in Hcs as [Hc1 Hcs]. apply Forall_cons in Hcs as [Hc2 _].
    unfold condition_target in Hc1, Hc2. cbn [bc_namespace bc_key bc_expected] in Hc1, Hc2.
    apply (granted_step v1 (Ranged l)); [by eapply reached_rely|].
    apply step_allocate with limits; try done. by rewrite Hc1.
  - intros v1 Hle _. apply ewp_lift. apply granted_err; [by eapply reached_rely|done..].
Qed.

Lemma reached_cursor v e :
  reached v → authorized e → ∃ c, cursor_at e (v !! (CURSOR_NAMESPACE, cursor_key e)) c.
Proof. intros (h & _ & Hpl)%reached_planned He. destruct (pl_tiles _ _ _ Hpl e He) as (c & Hc & _). by exists c. Qed.

Lemma allocate_extra_refines limits e c target now_ms expires v :
  limits_ok limits → authorized e → device_ok c → terms_ok target now_ms expires → reached v →
  e.(we_kind) = KindGatewayAssignmentV1 →
  ewp (allocate_extra_nonce env limits e c target now_ms expires) v granted.
Proof.
  intros Hlim He Hc Hterms Hv Hk. unfold allocate_extra_nonce.
  destruct (dc_supports_extra_nonce_range c); [|by apply ewp_lift, granted_err]. cbn [negb].
  assert (∀ bs z, extra_nonce2 bs = Some z → z = second_extra_nonce bs) as Hx.
  { intros bs z. unfold extra_nonce2. case_match; [done|]. by intros [= <-]. }
  apply ewp_lift_bind; [intros start Hs%ok_or_ok%Hx|intros err Herr; apply granted_err; by case_match || (unfold ok_or in Herr; case_match; simplify_eq)].
  apply ewp_lift_bind; [intros end_ Ht%ok_or_ok%Hx|intros err Herr; apply granted_err; by case_match || (unfold ok_or in Herr; case_match; simplify_eq)].
  assert (extra_cursor_key e = cursor_key e) as -> by (unfold cursor_key; by rewrite Hk).
  apply ewp_bind, (ewp_get env PE_Storage _ env_R); [apply valid_cursor_key|]. intros v1 Hle.
  assert (reached v1) as Hv1 by (by eapply reached_rely).
  assert (extra_nonce_range limits e c start end_ (v1 !! (CURSOR_NAMESPACE, cursor_key e)) =
          plan_range limits e c (v1 !! (CURSOR_NAMESPACE, cursor_key e))) as ->.
  { unfold plan_range, space_start, space_end. by rewrite Hk, Hs, Ht. }
  apply ewp_lift_bind.
  - intros [range next] Hr. by apply (persist_allocation_refines limits).
  - intros err Herr. destruct (reached_cursor v1 e Hv1 He) as [at_ Hat].
    apply (plan_range_err limits e c _ at_) in Herr as ->; [by apply granted_err|done].
Qed.

Lemma allocate_nonce_refines limits e c target now_ms expires v :
  limits_ok limits → authorized e → device_ok c → terms_ok target now_ms expires → reached v →
  e.(we_kind) = KindAssignmentV2 →
  ewp (allocate_nonce env limits e c target now_ms expires) v granted.
Proof.
  intros Hlim He Hc Hterms Hv Hk. unfold allocate_nonce.
  case_bool_decide; [by apply ewp_lift, granted_err|].
  destruct (dc_supports_nonce_range c) eqn:Ec; cbn [negb].
  - assert (nonce_cursor_key e = cursor_key e) as -> by (unfold cursor_key; by rewrite Hk).
    apply ewp_bind, (ewp_get env PE_Storage _ env_R); [apply valid_cursor_key|]. intros v1 Hle.
    assert (reached v1) as Hv1 by (by eapply reached_rely).
    assert (nonce_range limits e c (v1 !! (CURSOR_NAMESPACE, cursor_key e)) =
            plan_range limits e c (v1 !! (CURSOR_NAMESPACE, cursor_key e))) as ->.
    { unfold plan_range. by rewrite Hk. }
    apply ewp_lift_bind.
    + intros [range next] Hr. by apply (persist_allocation_refines limits).
    + intros err Herr. destruct (reached_cursor v1 e Hv1 He) as [at_ Hat].
      apply (plan_range_err limits e c _ at_) in Herr as ->; [by apply granted_err|done].
  - cbn zeta. apply ewp_bind. unfold persist_exclusive. apply ewp_bind, (ewp_batch_if_all env PE_Storage _ env_R).
    + unfold batch_keys_valid, exclusive_conditions, exclusive_operations, condition_target, operation_target, condition_absent.
      cbn [fmap list_fmap forallb bc_namespace bc_key]. rewrite !valid_hex_key by (vm_compute; set_solver). done.
    + intros v1 Hle Hcs. apply ewp_lift, ewp_ret. unfold conditions_hold, exclusive_conditions, condition_absent in Hcs.
      apply Forall_cons in Hcs as [Hc1 Hcs]. apply Forall_cons in Hcs as [Hc2 _].
      unfold condition_target in Hc1, Hc2. cbn [bc_namespace bc_key bc_expected] in Hc1, Hc2.
      apply (granted_step v1 (Exclusive _)); [by eapply reached_rely|]. by apply step_exclusive.
    + intros v1 Hle _. apply ewp_lift. apply granted_err; [by eapply reached_rely|done..].
Qed.

Lemma release_refines d id v (Φ : result PlannerError bool → View → Prop) :
  reached v → (∀ b v', reached v' → Φ (Ok b) v') → ewp (release_active env d id) v Φ.
Proof.
  intros Hv HΦ. unfold release_active. apply (ewp_batch_if env PE_Storage _ env_R).
  - unfold batch_keys_valid, condition_target, operation_target. cbn [fmap list_fmap forallb bc_namespace bc_key].
    rewrite !valid_hex_key by (vm_compute; set_solver). done.
  - intros v1 Hle Hx. apply HΦ. eapply reached_step; [by eapply reached_rely|]. by apply (step_release _ v1 d id).
  - intros v1 Hle _. apply HΦ. by eapply reached_rely.
Qed.

(** An active marker leads to a stored lease of the history. *)
Lemma active_lease_stored v1 v2 d id :
  reached v1 → planner_rely authorized v1 v2 → v1 !! (ACTIVE_LEASE_NAMESPACE, hex_encode d) = Some id →
  length id = 32%nat ∧ ∃ l, v2 !! (LEASE_NAMESPACE, hex_encode id) = Some (to_canonical_bytes l) ∧
    decode_lease (to_canonical_bytes l) = Ok l ∧ granted (Ok l) v2.
Proof.
  intros Hv1 Hle Ha. destruct (reached_planned v1 Hv1) as (h1 & Hr1 & Hp1).
  destruct (pl_active _ _ _ Hp1 d id Ha) as (g & Hg & Hid & _). destruct Hle as [h2 Hr2].
  assert (plan_run authorized v0 (h1 ++ h2) v2) as Hrun by (by eapply plan_run_app).
  assert (planned authorized (h0 ++ h1 ++ h2) v2) as Hp2.
  { rewrite app_assoc. by eapply (planned_run authorized v1). }
  pose proof (pl_ok _ _ _ Hp1 g Hg) as Hok. split.
  { unfold ok_WorkLease, arr in Hok. destruct_and!. congruence. }
  destruct (pl_stored _ _ _ Hp2 g) as [x Hx]; [rewrite app_assoc; apply elem_of_app; by left|].
  rewrite Hid in Hx. destruct (pl_leases _ _ _ Hp2 _ _ Hx) as (g' & Hg' & _ & ->).
  exists (grant_lease g'). split; [done|]. split; [by apply decode_stored_lease, (pl_ok _ _ _ Hp2)|].
  exists (h1 ++ h2). split; [done|]. split; [|done]. intros l [= <-]. by exists g'.
Qed.

Lemma granted_more l v v' : granted (Ok l) v → planner_rely authorized v v' → granted (Ok l) v'.
Proof.
  intros (h & Hr & Hl & _) [h' Hr']. exists (h ++ h'). split; [by eapply plan_run_app|]. split; [|done].
  intros l' [= <-]. destruct (Hl l eq_refl) as (g & Hg & ?). exists g. split; [|done]. rewrite app_assoc.
  apply elem_of_app. by left.
Qed.

Lemma allocate_refines limits e c target now_ms expires v :
  limits_ok limits → authorized e → typed_device c → terms_ok target now_ms expires → reached v →
  ewp (allocate_with_edge_target env limits e c target now_ms expires) v granted.
Proof.
  intros Hlim He Hc Hterms Hv. unfold allocate_with_edge_target.
  destruct (match expires with Some _ => _ | None => _ end); [by apply ewp_lift, granted_err|].
  destruct (_ || _); [by apply ewp_lift, granted_err|]. apply ewp_bind, register_refines; [done..|].
  intros r v1 Hv1 Hdev Hr1 Hr2. destruct r as [[]|err]; [|apply granted_err; [done|congruence|congruence]].
  specialize (Hdev eq_refl). apply ewp_bind, (ewp_get env PE_Storage _ env_R); [key_ok|]. intros v2 Hle2.
  assert (reached v2) as Hv2 by (by eapply reached_rely). apply ewp_bind.
  eapply (ewp_mono _ _ (λ r v', reached v' ∧ match r with
    | Ok None => True | Ok (Some l) => granted (Ok l) v' | Err err => granted (Err err) v' end)).
  { intros r v3 [Hv3 Hr]. destruct r as [[l|]|err]; [by apply ewp_ret| |done].
    destruct (we_kind e) eqn:Ek; [by apply allocate_nonce_refines|by apply allocate_extra_refines]. }
  destruct (v2 !! _) as [id|] eqn:Ea; [|by apply ewp_ret].
  assert (planner_rely authorized v2 v2) as Hrefl by reflexivity.
  destruct (active_lease_stored v2 v2 _ id Hv2 Hrefl Ea) as [Hlen _].
  apply ewp_lift_bind; [intros _ _|intros err Herr]; [|unfold ensure, len in Herr; by rewrite Hlen in Herr].
  apply ewp_bind, (ewp_get env PE_Storage _ env_R); [key_ok|]. intros v3 Hle3.
  assert (reached v3) as Hv3 by (by eapply reached_rely).
  destruct (active_lease_stored v2 v3 _ id Hv2 Hle3 Ea) as (_ & l & El & Ed & Hl). rewrite El.
  apply ewp_lift_bind; [intros bs Hbs%ok_or_ok|done]. assert (bs = to_canonical_bytes l) as -> by congruence.
  apply ewp_lift_bind; [intros l' Hl'|intros err Herr]; [|by rewrite Ed in Herr].
  rewrite Ed in Hl'. injection Hl' as <-.
  destruct (match wl_expires_at_ms l with Some _ => _ | None => _ end).
  - apply ewp_bind, release_refines; [done|]. intros b v4 Hv4. apply ewp_lift. split; [done|].
    destruct b; [done|by apply granted_err].
  - destruct (_ && _); [|apply ewp_lift; split; [done|by apply granted_err]].
    apply ewp_lift_bind; [intros _ _; apply ewp_ret; by split|]. intros err Herr. split; [done|].
    unfold map_err in Herr. case_match; [done|]. injection Herr as <-. by apply granted_err.
Qed.
End Refinement.

(** ** Disjoint work *)

(** The work a lease admits: what the capture check accepts. *)
Definition lease_covers (l : WorkLease) (extra_nonce : bytes) (nonce : Z) : Prop :=
  accepts_extra_nonce l extra_nonce = true ∧ l.(wl_nonce_start) ≤ nonce ≤ l.(wl_nonce_end) ∧
  (nonce - l.(wl_nonce_start)) mod l.(wl_nonce_stride) = 0.

Definition space_point (e : WorkEnvelope) (extra_nonce : bytes) (nonce : Z) : Z :=
  match e.(we_kind) with
  | KindAssignmentV2 => nonce
  | KindGatewayAssignmentV1 => second_extra_nonce extra_nonce
  end.

Lemma of_be_gateway (x : bytes) :
  arr 24 x → forallb (λ b, b2z b =? 0) (drop 8 x) = true →
  of_be x = of_be (take 4 x) * 256 ^ 20 + second_extra_nonce x * 256 ^ 16.
Proof.
  unfold arr. intros Hl Hz. unfold second_extra_nonce.
  rewrite <- (take_drop 4 x) at 1. rewrite <- (take_drop 4 (drop 4 x)) at 1. rewrite drop_drop. cbn [Nat.add].
  assert (drop 8 x = replicate 16 x00) as ->.
  { rewrite <- (take_drop 8 x) in Hl. rewrite length_app, length_take in Hl.
    assert (length (drop 8 x) = 16%nat) as Hd by (rewrite length_drop in *; lia).
    apply list_eq. intros i. rewrite forallb_forall in Hz. destruct (lt_dec i 16).
    - rewrite lookup_replicate_2 by done. destruct (drop 8 x !! i) as [b|] eqn:Eb.
      + assert (b2z b = 0) as Hb by (apply Z.eqb_eq, Hz, list_elem_of_In, (list_elem_of_lookup_2 _ _ _ Eb)).
        f_equal. by destruct b.
      + apply lookup_ge_None in Eb. lia.
    - rewrite !(proj2 (lookup_ge_None _ _)); [done|rewrite length_replicate; lia|lia]. }
  rewrite !of_be_app, of_be_replicate_0. unfold len. rewrite length_app, length_replicate, length_take, length_drop, Hl. cbn. lia.
Qed.

Lemma gateway_bytes prefix z :
  arr 4 prefix → uint 32 z →
  of_be (gateway_extra_nonce prefix (to_be 4 z)) = of_be prefix * 256 ^ 20 + z * 256 ^ 16.
Proof.
  intros Hp Hz. destruct (take_drop_extra prefix (to_be 4 z)) as (E1 & _ & E3); [done|apply to_be_length|].
  rewrite of_be_gateway.
  - by rewrite E1, second_extra_nonce_gateway.
  - unfold arr, gateway_extra_nonce in *. rewrite !length_app, to_be_length, length_replicate, Hp. done.
  - by rewrite E3.
Qed.

Lemma lease_covers_point e l x nonce :
  envelope_ok e → lease_in e l → arr 24 x → lease_covers l x nonce →
  (lease_span e l).1 ≤ space_point e x nonce ≤ (lease_span e l).2.
Proof.
  intros He (_ & Hprof & _ & Hin) Hx (Ha & Hn & _). unfold lease_span, space_point.
  pose proof He as [_ _ Hextra]. destruct (we_kind e) eqn:Ek; [done|].
  destruct Hextra as [Hp _]. destruct Hin as (_ & _ & s & t & Us & Ut & Es & Et).
  pose proof (gateway_prefix e He Ek) as Hpre. unfold accepts_extra_nonce in Ha. rewrite Hprof, Hp in Ha.
  destruct (_ || _) eqn:Eo in Ha; [done|]. unfold GATEWAY_EXTRA_NONCE_PROFILE_HANDY_PREFIX4_VARIABLE4_ZERO16 in Ha.
  change (1 =? 0) with false in Ha. change (1 =? 1) with true in Ha. cbv iota in Ha.
  apply andb_true_iff in Ha as [Ha Hz]. apply andb_true_iff in Ha as [Hp1%bool_decide_eq_true _]. rewrite Es in Hp1.
  assert (∀ z, arr 4 (to_be 4 z)) as H4 by (intros; apply to_be_length).
  rewrite (proj1 (take_drop_extra _ _ Hpre (H4 s))) in Hp1.
  apply orb_false_iff in Eo as [E1 E2].
  assert (∀ z, length (gateway_extra_nonce (take 4 (we_extra_nonce_start e)) (to_be 4 z)) = 24%nat) as H24.
  { intros z. unfold gateway_extra_nonce. rewrite !length_app, to_be_length, length_replicate. unfold arr in Hpre. by rewrite Hpre. }
  rewrite Es in E1. rewrite Et in E2. unfold arr in Hx.
  assert (∀ a b, bytes_ltb a b = false → length a = length b → of_be b ≤ of_be a) as Hle.
  { intros a b E Hl. apply bytes_le_of_be; [done|]. apply bytes_not_lt. rewrite <- bytes_ltb_spec. congruence. }
  apply Hle in E1; [|by rewrite H24]. apply Hle in E2; [|by rewrite H24].
  rewrite gateway_bytes in E1, E2 by done. rewrite (of_be_gateway x) in E1, E2 by (exact Hx || done). rewrite Hp1 in E1, E2.
  rewrite Es, Et. cbn [fst snd]. rewrite !second_extra_nonce_gateway by done. lia.
Qed.

Section Disjoint.
Context `{Digests} `{!DigestsOk} `{HexOk} (authorized : WorkEnvelope → Prop) `{!SignedEnvelopes authorized}.

Lemma ranged_lookup e h1 h2 h3 l1 l2 :
  l1.(wl_assignment_id) = e.(we_assignment_id) → l2.(wl_assignment_id) = e.(we_assignment_id) →
  ∃ i j, (i < j)%nat ∧ ranged_leases e (h1 ++ Ranged l1 :: h2 ++ Ranged l2 :: h3) !! i = Some l1 ∧
    ranged_leases e (h1 ++ Ranged l1 :: h2 ++ Ranged l2 :: h3) !! j = Some l2.
Proof.
  intros E1 E2. set (r1 := ranged_leases e h1). set (r2 := ranged_leases e h2).
  assert (ranged_leases e (h1 ++ Ranged l1 :: h2 ++ Ranged l2 :: h3) = r1 ++ l1 :: r2 ++ l2 :: ranged_leases e h3) as ->.
  { unfold ranged_leases. rewrite omap_app. cbn [omap list_omap]. rewrite decide_True by done. f_equal. f_equal.
    rewrite omap_app. cbn [omap list_omap]. by rewrite decide_True. }
  exists (length r1), (length r1 + S (length r2))%nat. split; [lia|]. split.
  - by rewrite list_lookup_middle.
  - rewrite lookup_app_r by lia. replace (length r1 + S (length r2) - length r1)%nat with (S (length r2)) by lia.
    cbn. by apply list_lookup_middle.
Qed.

(** No header is covered by two leases cut from one assignment. *)
Lemma ranged_disjoint h v i j l1 l2 x nonce :
  planned authorized h v → (i < j)%nat → h !! i = Some (Ranged l1) → h !! j = Some (Ranged l2) →
  l1.(wl_assignment_id) = l2.(wl_assignment_id) → arr 24 x →
  lease_covers l1 x nonce → lease_covers l2 x nonce → False.
Proof.
  intros Hpl Hij Hi Hj Hid Hx C1 C2.
  destruct (pl_in _ _ _ Hpl l1) as (e & He & L1); [by eapply list_elem_of_lookup_2|].
  destruct (pl_in _ _ _ Hpl l2) as (e' & He' & L2'); [by eapply list_elem_of_lookup_2|].
  assert (lease_in e l2) as L2.
  { destruct L1 as [A1 _]. destruct L2' as (A2 & A3 & A4 & A5).
    destruct (signed_unique e e' He He') as (K1 & K2 & K3 & K4 & K5 & K6 & K7); [congruence|].
    unfold lease_in. rewrite K1, K2, K3, K4, K5, K6, K7. split; [congruence|done]. }
  pose proof (signed_ok e He) as Heok. pose proof (space_bounds e Heok) as (_ & _ & _ & Hst & _).
  destruct (pl_tiles _ _ _ Hpl e He) as (c & _ & Ht & _).
  assert (∃ h1 h2 h3, h = h1 ++ Ranged l1 :: h2 ++ Ranged l2 :: h3) as (h1 & h2 & h3 & ->).
  { apply take_drop_middle in Hi as Eh. exists (take i h). rewrite <- Eh in Hj. rewrite lookup_app_r in Hj.
    - apply lookup_lt_Some in Hi. rewrite length_take in Hj. replace (j - i `min` length h)%nat with (S (j - i - 1)) in Hj by lia.
      cbn in Hj. apply take_drop_middle in Hj as Ej. exists (take (j - i - 1) (drop (S i) h)), (drop (S (j - i - 1)) (drop (S i) h)).
      rewrite <- Eh at 1. by rewrite Ej.
    - rewrite length_take. lia. }
  destruct (ranged_lookup e h1 h2 h3 l1 l2) as (i' & j' & Hij' & Hi' & Hj'); [apply L1|apply L2|].
  pose proof (lease_covers_point e l1 x nonce Heok L1 Hx C1) as P1.
  pose proof (lease_covers_point e l2 x nonce Heok L2 Hx C2) as P2.
  destruct (lease_span e l1) as [s1 t1] eqn:S1. destruct (lease_span e l2) as [s2 t2] eqn:S2. cbn in P1, P2.
  destruct (tiles_ordered _ _ _ _ i' j' s1 s2 t1 t2 Hst Ht) as [_ Hlt]; try lia;
    rewrite list_lookup_fmap, ?Hi', ?Hj'; cbn; congruence.
Qed.
End Disjoint.

(** Envelopes made from signed assignments with distinct identifiers. *)
Definition signed_by `{Digests} (direct : list AssignmentV2) (gateway : list GatewayAssignmentV1)
    (e : WorkEnvelope) : Prop :=
  ∃ g, uint 64 g ∧
    ((∃ a, a ∈ direct ∧ ok_AssignmentV2 DecodeLimits_default a ∧ from_assignment a g = Ok e) ∨
     (∃ a, a ∈ gateway ∧ ok_GatewayAssignmentV1 DecodeLimits_default a ∧ from_gateway_assignment a g = Ok e)).

Lemma NoDup_fmap_unique {A B} (f : A → B) l x y : NoDup (f <$> l) → x ∈ l → y ∈ l → f x = f y → x = y.
Proof.
  intros Hnd [i Hi]%list_elem_of_lookup [j Hj]%list_elem_of_lookup E.
  assert (i = j) as ->; [|congruence]. eapply (NoDup_lookup (f <$> l)); [done|by rewrite list_lookup_fmap, Hi|].
  rewrite list_lookup_fmap, Hj. cbn. by rewrite E.
Qed.

Lemma assignments_signed `{Digests} `{!DigestsOk} direct gateway :
  NoDup ((object_id <$> direct) ++ (object_id <$> gateway)) → SignedEnvelopes (signed_by direct gateway).
Proof.
  intros (Hd & Hdis & Hg)%NoDup_app. split.
  - intros e (g & Ug & [(a & _ & Ha & He)|(a & _ & Ha & He)]); [by eapply from_assignment_ok|by eapply from_gateway_assignment_ok].
  - assert (∀ a g e, from_assignment a g = Ok e → e.(we_assignment_id) = object_id a) as I1.
    { intros a g e (_ & _ & He)%bind_ok. by apply bind_ok in He as (_ & _ & [= <-]). }
    assert (∀ a g e, from_gateway_assignment a g = Ok e → e.(we_assignment_id) = object_id a) as I2.
    { intros a g e (_ & _ & He)%bind_ok. apply bind_ok in He as (_ & _ & He).
      destruct (negb _); [done|]. destruct (bytes_ltb _ _); [done|]. by injection He as <-. }
    intros e1 e2 (g1 & _ & [(a1 & Ha1 & _ & E1)|(a1 & Ha1 & _ & E1)]) (g2 & _ & [(a2 & Ha2 & _ & E2)|(a2 & Ha2 & _ & E2)]) Hid.
    + rewrite (I1 _ _ _ E1), (I1 _ _ _ E2) in Hid. apply (NoDup_fmap_unique _ _ _ _ Hd) in Hid as <-; [|done..].
      apply bind_ok in E1 as (_ & _ & E1). apply bind_ok in E1 as (_ & _ & [= <-]).
      apply bind_ok in E2 as (_ & _ & E2). by apply bind_ok in E2 as (_ & _ & [= <-]).
    + exfalso. rewrite (I1 _ _ _ E1), (I2 _ _ _ E2) in Hid. apply (Hdis (object_id a1)); [by apply list_elem_of_fmap_2|].
      rewrite Hid. by apply list_elem_of_fmap_2.
    + exfalso. rewrite (I2 _ _ _ E1), (I1 _ _ _ E2) in Hid. apply (Hdis (object_id a2)); [by apply list_elem_of_fmap_2|].
      rewrite <- Hid. by apply list_elem_of_fmap_2.
    + rewrite (I2 _ _ _ E1), (I2 _ _ _ E2) in Hid. apply (NoDup_fmap_unique _ _ _ _ Hg) in Hid as <-; [|done..].
      apply bind_ok in E1 as (_ & _ & E1). apply bind_ok in E1 as (_ & _ & E1).
      apply bind_ok in E2 as (_ & _ & E2). apply bind_ok in E2 as (_ & _ & E2).
      destruct (negb _); [done|]. destruct (bytes_ltb _ _); [done|]. by injection E1 as <-; injection E2 as <-.
Qed.

(** ** Runs of a planner *)

Inductive PlannerCall :=
| CallRegister (c : DeviceCapabilities)
| CallAllocate (limits : PlannerLimits) (e : WorkEnvelope) (c : DeviceCapabilities) (target : U256)
    (now_ms : Z) (expires_at_ms : option Z)
| CallRetire (device_id lease_id : bytes)
| CallComplete (c : DeviceCapabilities) (lease_id : bytes)
| CallActive (device_id : bytes).

Section Runs.
Context `{Digests} `{!DigestsOk} `{HexOk} (authorized : WorkEnvelope → Prop) `{!SignedEnvelopes authorized}.
Context {S : Type} `{!DurableStore S, !DurableStoreLaws S} (env : nat → S → S).
(** The other planners and any other users of the store. *)
Hypothesis env_R : ∀ n s v, represents s v → ∃ v', represents (env n s) v' ∧ planner_rely authorized v v'.

Definition typed_planner_call (call : PlannerCall) : Prop :=
  match call with
  | CallRegister c => typed_device c
  | CallAllocate limits e c target now_ms expires =>
      limits_ok limits ∧ authorized e ∧ typed_device c ∧ terms_ok target now_ms expires
  | _ => True
  end.

(** The lease a call returns, if any. *)
Definition run_planner_call (call : PlannerCall) : eclient (S := S) (E := PlannerError) (option WorkLease) :=
  match call with
  | CallRegister c => _ ← register_device env c; mret None
  | CallAllocate limits e c target now_ms expires =>
      l ← allocate_with_edge_target env limits e c target now_ms expires; mret (Some l)
  | CallRetire d id => _ ← retire env d id; mret None
  | CallComplete c id => _ ← planner_complete env c id; mret None
  | CallActive d => active_lease env d
  end.

Definition returned (h : list grant) (r : result PlannerError (option WorkLease)) : Prop :=
  (∀ l, r = Ok (Some l) → ∃ g, g ∈ h ∧ grant_lease g = l) ∧ r ≠ Err CorruptLease ∧ ∀ e, r ≠ Err (PE_Storage e).

Lemma planner_call_runs h0 v0 call :
  plan_run authorized ∅ h0 v0 → typed_planner_call call →
  ewp (run_planner_call call) v0 (λ r v', ∃ h, plan_run authorized v0 h v' ∧ returned (h0 ++ h) r).
Proof.
  intros Hrun Hcall. assert (∃ h, plan_run authorized v0 h v0) as Hstart by (exists []; constructor).
  assert (∀ r, (∃ b, r = Ok b ∧ b = None) ∨ (∃ e, r = Err e ∧ e ≠ CorruptLease ∧ ∀ x, e ≠ PE_Storage x) →
    ∀ v', (∃ h, plan_run authorized v0 h v') → ∃ h, plan_run authorized v0 h v' ∧ returned (h0 ++ h) r) as Hquiet.
  { intros r Hr v' [h Hh]. exists h. split; [done|]. unfold returned.
    destruct Hr as [(b & -> & ->)|(e & -> & ? & ?)]; split_and!; congruence. }
  destruct call as [c|limits e c target now_ms expires|d id|c id|d]; cbn [run_planner_call typed_planner_call] in *.
  - apply ewp_bind, (register_refines authorized env env_R h0 v0 Hrun); [done..|].
    intros [[]|e] v' Hv' _ Hr1 Hr2; [apply ewp_ret|]; apply Hquiet; [left; by eexists|done|right|done].
    exists e. split_and!; congruence.
  - destruct Hcall as (? & ? & ? & ?). apply ewp_bind.
    eapply ewp_mono; [|by apply (allocate_refines authorized env env_R h0 v0 Hrun)].
    intros [l|e'] v' (h & Hh & Hl & Hr1 & Hr2); [apply ewp_ret|]; exists h; (split; [done|]); unfold returned; split_and!;
      try congruence. intros l' [= <-]. by apply Hl.
  - apply ewp_bind, (release_refines authorized env env_R h0 v0 Hrun); [done|]. intros b v' Hv'. apply ewp_ret, Hquiet; [left; by eexists|done].
  - apply ewp_bind. unfold planner_complete. destruct (negb _).
    + apply ewp_lift, Hquiet; [right; by eexists|done].
    + apply (release_refines authorized env env_R h0 v0 Hrun); [done|]. intros b v' Hv'. apply ewp_ret, Hquiet; [left; by eexists|done].
  - unfold active_lease. apply ewp_bind, (ewp_get env PE_Storage _ env_R); [apply valid_hex_key; vm_compute; set_solver|].
    intros v1 Hle1. assert (∃ h, plan_run authorized v0 h v1) as Hv1 by (by eapply reached_rely).
    destruct (v1 !! _) as [id|] eqn:Ea; [|apply ewp_ret, Hquiet; [left; by eexists|done]].
    destruct (active_lease_stored authorized h0 v0 Hrun v1 v1 d id Hv1 ltac:(reflexivity) Ea) as [Hlen _].
    apply ewp_lift_bind; [intros _ _|intros err Herr]; [|unfold ensure, len in Herr; by rewrite Hlen in Herr].
    apply ewp_bind, (ewp_get env PE_Storage _ env_R); [apply valid_hex_key; vm_compute; set_solver|]. intros v3 Hle3.
    destruct (active_lease_stored authorized h0 v0 Hrun v1 v3 d id Hv1 Hle3 Ea) as (_ & l & El & Ed & Hl). rewrite El.
    apply ewp_lift_bind; [intros bs Hbs%ok_or_ok|done]. assert (bs = to_canonical_bytes l) as -> by congruence.
    apply ewp_lift_bind; [intros l' Hl'|intros err Herr]; [|by rewrite Ed in Herr].
    rewrite Ed in Hl'. injection Hl' as <-. apply ewp_ret. destruct Hl as (h & Hh & Hl & _). exists h. split; [done|].
    unfold returned. split_and!; try congruence. intros l' [= <-]. by apply Hl.
Qed.

(** A process that performs planner operations one after the other. *)
Fixpoint run_planner (calls : list PlannerCall) (w : nat * S) :
    list (result PlannerError (option WorkLease)) * (nat * S) :=
  match calls with
  | [] => ([], w)
  | call :: calls =>
      let '(r, w) := run_planner_call call w in
      let '(rs, w) := run_planner calls w in (r :: rs, w)
  end.

Lemma run_planner_runs calls h0 v0 n s :
  Forall typed_planner_call calls → plan_run authorized ∅ h0 v0 → represents s v0 →
  ∃ rs n' s' v' h, run_planner calls (n, s) = (rs, (n', s')) ∧ represents s' v' ∧
    plan_run authorized ∅ (h0 ++ h) v' ∧ Forall (returned (h0 ++ h)) rs.
Proof.
  intros Hall. revert h0 v0 n s. induction Hall as [|call calls Hcall _ IH]; intros h0 v0 n s Hrun Hrep.
  { exists [], n, s, v0, []. rewrite app_nil_r. by split_and!. }
  destruct (planner_call_runs h0 v0 call Hrun Hcall n s Hrep) as (r & n1 & s1 & v1 & E & Hrep1 & h1 & Hh1 & Hr).
  destruct (IH (h0 ++ h1) v1 n1 s1) as (rs & n' & s' & v' & h & E' & Hrep' & Hrun' & Hrs); [by eapply plan_run_app|done|].
  exists (r :: rs), n', s', v', (h1 ++ h). cbn. rewrite E, E'. rewrite app_assoc. split_and!; [done..|].
  constructor; [|done]. destruct Hr as (Hl & ? & ?). split; [|done]. intros l El. destruct (Hl l El) as (g & Hg & ?).
  exists g. split; [|done]. apply elem_of_app. by left.
Qed.

(** C2: no work is leased twice. From an empty store, whatever other planners do in
    between, a sequence of planner calls follows a history of grants that contains
    every lease it returns, and never blames the store or its records. In that
    history the leases cut from one assignment tile its space without gap or
    overlap from its start, so no header (extra nonce, nonce) is covered by two of
    them, and an assignment is granted exclusively at most once. *)
Theorem planner_work_disjoint calls n s :
  Forall typed_planner_call calls → represents s ∅ →
  ∃ rs n' s' v h, run_planner calls (n, s) = (rs, (n', s')) ∧ represents s' v ∧
    plan_run authorized ∅ h v ∧ Forall (returned h) rs ∧
    (∀ e, authorized e → ∃ c, tiles (space_step e) (space_start e) (lease_span e <$> ranged_leases e h) c ∧
      Forall (λ p, p.2 ≤ space_end e) (lease_span e <$> ranged_leases e h)) ∧
    (∀ i j l1 l2 x nonce, (i < j)%nat → h !! i = Some (Ranged l1) → h !! j = Some (Ranged l2) →
      l1.(wl_assignment_id) = l2.(wl_assignment_id) → arr 24 x →
      ¬ (lease_covers l1 x nonce ∧ lease_covers l2 x nonce)) ∧
    NoDup (exclusive_ids h).
Proof.
  intros Hall Hrep. destruct (run_planner_runs calls [] ∅ n s Hall (run_nil _ _) Hrep)
    as (rs & n' & s' & v & h & E & Hrep' & Hrun & Hrs). cbn [app] in Hrun, Hrs.
  pose proof (planned_run authorized ∅ [] h v (planned_empty authorized) Hrun) as Hpl. cbn [app] in Hpl.
  exists rs, n', s', v, h. split_and!; try done.
  - intros e He. destruct (pl_tiles _ _ _ Hpl e He) as (c & _ & ?). by exists c.
  - intros i j l1 l2 x nonce Hij Hi Hj Hid Hx [C1 C2]. by eapply (ranged_disjoint authorized h v i j).
  - apply Hpl.
Qed.
End Runs.

(** ** Witnesses *)

Module PlannerWitness.
#[local] Existing Instances toy_digests toy_digests_ok lower_hex_instance lower_hex_ok MemoryStore_laws.

Definition signed_assignment : AssignmentV2 :=
  mkAssignmentV2 2 0 (replicate 32 x01) (replicate 32 x02) (replicate 32 x03) (replicate 32 x04) (replicate 32 x05)
    (replicate 32 x06) 9 1000 (replicate 24 x00) 100 131 3 (replicate 32 xff) (replicate 32 x0f) 0 (replicate 64 x00).
Definition envelope : WorkEnvelope :=
  match from_assignment signed_assignment 22 with
  | Ok e => e
  | Err _ => mkWorkEnvelope KindAssignmentV2 [] 0 0 [] 0 0 [] [] 0 0 0 [] [] 0
  end.
Definition device (b : byte) (ranged : bool) : DeviceCapabilities :=
  mkDeviceCapabilities (replicate 32 b) X86Cpu ranged ranged true false true ranged (replicate 32 x00) 1 4 None 0.
Definition limits : PlannerLimits := mkPlannerLimits 2 4 250.
Definition allocate_call (b : byte) (ranged : bool) : PlannerCall :=
  CallAllocate limits envelope (device b ranged) (replicate 32 xff) 5 None.

Lemma envelope_made : from_assignment signed_assignment 22 = Ok envelope.
Proof.
  unfold envelope. destruct (from_assignment _ _) eqn:E; [reflexivity|]. exfalso.
  assert (is_ok (from_assignment signed_assignment 22) = true) as Hok by (vm_compute; reflexivity).
  rewrite E in Hok. discriminate Hok.
Qed.
Lemma envelope_signed : signed_by [signed_assignment] [] envelope.
Proof.
  exists 22. split; [unfold uint; lia|]. left. exists signed_assignment. split; [left|]. split; [|exact envelope_made].
  unfold ok_AssignmentV2, ok_sig, byte_count, arr, uint, len. split_and!; vm_compute; first [reflexivity | discriminate].
Qed.
#[local] Instance envelopes_signed : SignedEnvelopes (signed_by [signed_assignment] []).
Proof. apply assignments_signed. cbn. rewrite app_nil_r. apply NoDup_singleton. Qed.
Lemma alone_planner (n : nat) (s : MemoryStore) (v : View) :
  represents s v → ∃ v', represents (alone n s) v' ∧ planner_rely (signed_by [signed_assignment] []) v v'.
Proof. intros Hrep. exists v. split; [exact Hrep|]. exists []. constructor. Qed.
Lemma allocate_call_typed b ranged : typed_planner_call (signed_by [signed_assignment] []) (allocate_call b ranged).
Proof.
  split; [split; cbn; lia|]. split; [exact envelope_signed|]. split.
  - unfold typed_device, arr, uint. cbn. split_and!; try reflexivity; lia.
  - unfold terms_ok, arr, uint. cbn. split_and!; try reflexivity; lia.
Qed.

Lemma planner_work_disjoint_witness :
  let calls := [allocate_call x21 true; allocate_call x22 true] in
  forallb is_ok (run_planner alone calls (0%nat, ∅ : MemoryStore)).1 = true ∧
  ∃ rs n' s' v h, run_planner alone calls (0%nat, ∅ : MemoryStore) = (rs, (n', s')) ∧
    plan_run (signed_by [signed_assignment] []) ∅ h v ∧ Forall (returned h) rs ∧ NoDup (exclusive_ids h).
Proof.
  cbn zeta. split; [vm_compute; reflexivity|].
  destruct (planner_work_disjoint (signed_by [signed_assignment] []) alone alone_planner
    [allocate_call x21 true; allocate_call x22 true] 0 (∅ : MemoryStore))
    as (rs & n' & s' & v & h & E & _ & Hrun & Hrs & _ & _ & Hx).
  - constructor; [apply allocate_call_typed|constructor; [apply allocate_call_typed|constructor]].
  - exact mem_represents_empty.
  - exists rs, n', s', v, h. split; [exact E|]. split; [exact Hrun|]. split; [exact Hrs|exact Hx].
Defined.

(** A whole-envelope lease is granted over ranges that are already leased. *)
Definition first_leases : list WorkLease :=
  omap (λ r, match r with Ok (Some l) => Some l | _ => None end)
    (run_planner alone [allocate_call x21 true; allocate_call x22 false] (0%nat, ∅ : MemoryStore)).1.
Definition coversb (l : WorkLease) (x : bytes) (nonce : Z) : bool :=
  accepts_extra_nonce l x && (wl_nonce_start l <=? nonce) && (nonce <=? wl_nonce_end l)
  && ((nonce - wl_nonce_start l) mod wl_nonce_stride l =? 0).
Lemma exclusive_overlaps_ranged :
  len first_leases = 2 ∧ Forall (λ l, lease_covers l (replicate 24 x00) 103) first_leases.
Proof.
  split; [vm_compute; reflexivity|].
  assert (forallb (λ l, coversb l (replicate 24 x00) 103) first_leases = true) as Hc by (vm_compute; reflexivity).
  rewrite forallb_forall in Hc. apply Forall_forall. intros l Hl. apply list_elem_of_In, Hc in Hl. unfold coversb in Hl.
  rewrite !andb_true_iff, !Z.leb_le, Z.eqb_eq in Hl. unfold lease_covers. tauto.
Qed.
End PlannerWitness.
