(* ===== verification/Coordinator.v ===== *)
(** * The work coordinator (crates/meshmine-work/src/coordinator.rs)

    Registers mining backends, prepares, activates and cancels generations of
    work on them, checks every capture against its lease and delivers it to a
    durable consumer. Backends ([MiningBackend]) and the consumer ([CaptureSink])
    are the traits of the source, as classes; their states are part of the
    coordinator's. *)

From S2P Require Import Prelude Codec Hash Types Objects Header Storage Journal Client Work Planner.

Definition CAPTURE_NAMESPACE : bytes := str "work-capture-v2".
Definition CAPTURE_TOMBSTONE_NAMESPACE : bytes := str "work-capture-tombstone-v2".
Definition GENERATION_NAMESPACE : bytes := str "work-generation-v1".
Definition LEASE_JOB_NAMESPACE : bytes := str "work-lease-job-v1".
Definition JOB_NAMESPACE : bytes := str "work-job-v1".

Inductive DeviceEvent :=
| JobAcknowledged (generation observed_at_ms : Z)
| Capture (generation nonce ntime : Z) (extra_nonce : bytes) (raw_share_hash : Hash256) (received_at_ms : Z)
| RangeCompleted (generation : Z) (lease_id : Hash256)
| Telemetry (generation : Z) (hashes_reported temperature_millicelsius power_millijoules : option Z)
| Disconnected.

Inductive BackendError :=
| BE_InvalidCapabilities
| ConflictingPreparedJob
| GenerationNotPrepared
| GenerationNotActive
| EventCapacity
| Operation (error : bytes).

(** The traits: a method that takes [&mut self] returns the new state;
    [poll_events] also lists the events it handed to its callback. *)
Class MiningBackend (B : Type) := {
  backend_capabilities : B → DeviceCapabilities;
  prepare_job : B → PreparedDeviceJob → result BackendError unit * B;
  activate_job : B → Z → result BackendError unit * B;
  cancel_job : B → Z → result BackendError unit * B;
  poll_events : B → result BackendError unit * list DeviceEvent * B;
}.
Class CaptureSink (K : Type) := {
  (** the downstream identifier, or an error text *)
  admit_capture : K → CaptureRecord → result bytes Hash256 * K;
}.

Record TemplateWork := mkTemplateWork {
  tw_generation : Z;
  tw_previous_block : Hash256;
  tw_merkle_root : Hash256;
  tw_witness_root : Hash256;
  tw_tree_root : Hash256;
  tw_reserved_root : Hash256;
  tw_version : Z;
  tw_bits : Z;
  tw_ntime : Z;
  tw_mask_hash : Hash256;
}.

Inductive CaptureOutcome :=
| TelemetryOnly (raw_share_hash : Hash256)
| DurablyAdmitted (capture_id downstream_id : Hash256)
| Duplicate (capture_id : Hash256).

Record CoordinatorStatus := mkCoordinatorStatus {
  cs_registered_backends : Z;
  cs_prepared_devices : Z;
  cs_active_devices : Z;
  cs_current_generation : option Z;
  cs_pending_captures : Z;
}.

Record CoordinatorLimits := mkCoordinatorLimits {
  cl_maximum_backends : Z;
  cl_maximum_events_per_poll : Z;
  cl_maximum_pending_capture_records : Z;
  cl_maximum_pending_capture_bytes : Z;
}.
Definition CoordinatorLimits_default : CoordinatorLimits :=
  mkCoordinatorLimits 4096 4096 100000 (64 * 1024 * 1024).

Inductive CoordinatorError :=
| CE_Planner (e : PlannerError)
| CE_Backend (e : BackendError)
| CE_Storage (e : StorageError)
| CE_Lease (e : LeaseError)
| BackendNotFound
| BackendConflict
| GenerationMismatch
| JobNotPrepared
| StaleGeneration
| CaptureOutsideLease
| CaptureHashMismatch
| HighHash
| Downstream (error : bytes)
| CE_UnauthorizedCompletion
| CorruptState
| RecoveryCapacity
| InvalidLimits
| Capacity.

Definition validate_coordinator_limits (l : CoordinatorLimits) : result CoordinatorError CoordinatorLimits :=
  if (l.(cl_maximum_backends) =? 0) || (l.(cl_maximum_events_per_poll) =? 0)
     || (l.(cl_maximum_pending_capture_records) =? 0) || (l.(cl_maximum_pending_capture_bytes) =? 0)
  then Err InvalidLimits else Ok l.

Section Coordinator.
Context {B : Type} `{!MiningBackend B} {K : Type} `{!CaptureSink K} `{Digests} `{!Hex}.

Record BackendSlot := mkBackendSlot {
  bs_backend : B;
  bs_capabilities : DeviceCapabilities;
  bs_prepared : option (WorkLease * PreparedDeviceJob);
  bs_active_generation : option Z;
}.
Record WorkCoordinator := mkWorkCoordinator {
  wc_planner : PlannerLimits;
  wc_sink : K;
  wc_backends : gmap bytes BackendSlot;
  wc_current_generation : option Z;
  wc_limits : CoordinatorLimits;
}.

Definition with_limits (planner : PlannerLimits) (sink : K) (limits : CoordinatorLimits) :
    result CoordinatorError WorkCoordinator :=
  limits ← validate_coordinator_limits limits;
  Ok (mkWorkCoordinator planner sink ∅ None limits).

Definition set_slot (device_id : bytes) (slot : BackendSlot) (c : WorkCoordinator) : WorkCoordinator :=
  mkWorkCoordinator c.(wc_planner) c.(wc_sink) (<[device_id := slot]> c.(wc_backends))
    c.(wc_current_generation) c.(wc_limits).
Definition set_sink (sink : K) (c : WorkCoordinator) : WorkCoordinator :=
  mkWorkCoordinator c.(wc_planner) sink c.(wc_backends) c.(wc_current_generation) c.(wc_limits).
Definition set_generation (generation : option Z) (c : WorkCoordinator) : WorkCoordinator :=
  mkWorkCoordinator c.(wc_planner) c.(wc_sink) c.(wc_backends) generation c.(wc_limits).
Definition with_backend (slot : BackendSlot) (backend : B) : BackendSlot :=
  mkBackendSlot backend slot.(bs_capabilities) slot.(bs_prepared) slot.(bs_active_generation).
Definition with_work (slot : BackendSlot) (prepared : option (WorkLease * PreparedDeviceJob))
    (active : option Z) : BackendSlot :=
  mkBackendSlot slot.(bs_backend) slot.(bs_capabilities) prepared active.

(** ** Pure parts *)

Definition no_active (c : WorkCoordinator) (generation : Z) : bool :=
  forallb (λ '(_, slot), bool_decide (slot.(bs_active_generation) ≠ Some generation)) (map_to_list c.(wc_backends)).

Definition job_of (envelope : WorkEnvelope) (template : TemplateWork) (lease : WorkLease) : PreparedDeviceJob :=
  let job id := mkPreparedDeviceJob WORK_PROTOCOL_VERSION id envelope.(we_assignment_id) lease.(wl_lease_id)
    template.(tw_generation) template.(tw_previous_block) template.(tw_merkle_root) template.(tw_witness_root)
    template.(tw_tree_root) template.(tw_reserved_root) template.(tw_version) template.(tw_bits)
    template.(tw_ntime) template.(tw_mask_hash) lease.(wl_extra_nonce_start) lease.(wl_extra_nonce_end)
    lease.(wl_nonce_start) lease.(wl_nonce_end) lease.(wl_nonce_stride) lease.(wl_edge_target)
    lease.(wl_capture_target) in
  job (job_canonical_id (job (replicate 32 x00))).

Definition job_matches_template (job : PreparedDeviceJob) (template : TemplateWork) : bool :=
  (job.(pj_generation) =? template.(tw_generation))
  && bool_decide (job.(pj_previous_block) = template.(tw_previous_block))
  && bool_decide (job.(pj_merkle_root) = template.(tw_merkle_root))
  && bool_decide (job.(pj_witness_root) = template.(tw_witness_root))
  && bool_decide (job.(pj_tree_root) = template.(tw_tree_root))
  && bool_decide (job.(pj_reserved_root) = template.(tw_reserved_root))
  && (job.(pj_version) =? template.(tw_version))
  && (job.(pj_bits) =? template.(tw_bits))
  && (job.(pj_ntime) =? template.(tw_ntime))
  && bool_decide (job.(pj_mask_hash) = template.(tw_mask_hash)).

Definition capture_in_lease (lease : WorkLease) (job : PreparedDeviceJob) (nonce ntime : Z) (extra_nonce : bytes)
    (received_at_ms : Z) : bool :=
  negb (negb (ntime =? job.(pj_ntime))
        || negb (accepts_extra_nonce lease extra_nonce)
        || (nonce <? lease.(wl_nonce_start))
        || (lease.(wl_nonce_end) <? nonce)
        || (lease.(wl_nonce_stride) =? 0)
        || negb (saturating_sub nonce lease.(wl_nonce_start) mod lease.(wl_nonce_stride) =? 0)
        || match lease.(wl_expires_at_ms) with Some expiry => expiry <? received_at_ms | None => false end).

Definition capture_header (job : PreparedDeviceJob) (nonce ntime : Z) (extra_nonce : bytes) : MinerHeader :=
  mkMinerHeader nonce ntime job.(pj_previous_block) job.(pj_tree_root) job.(pj_mask_hash) extra_nonce
    job.(pj_reserved_root) job.(pj_witness_root) job.(pj_merkle_root) job.(pj_version) job.(pj_bits).

Definition capture_record (lease : WorkLease) (device_id : bytes) (generation nonce ntime : Z)
    (extra_nonce : bytes) (raw_share_hash : Hash256) (received_at_ms : Z) : CaptureRecord :=
  let record id := mkCaptureRecord WORK_SCHEMA_VERSION id lease.(wl_lease_id) lease.(wl_assignment_id) device_id
    generation nonce ntime extra_nonce raw_share_hash received_at_ms in
  record (capture_canonical_id (record (replicate 32 x00))).

(** ** The operations *)

Section Durable.
Context {S : Type} `{!DurableStore S} (env : nat → S → S).

Definition world : Type := WorkCoordinator * (nat * S).
(** An operation leaves through [?] with whatever state it has reached. *)
Definition cm (A : Type) : Type := world → result CoordinatorError A * world.
#[global] Instance cm_ret : MRet cm := λ A a w, (Ok a, w).
#[global] Instance cm_bind : MBind cm := λ A B f m w,
  match m w with
  | (Ok a, w') => f a w'
  | (Err e, w') => (Err e, w')
  end.
Definition clift {A} (r : result CoordinatorError A) : cm A := λ w, (r, w).
Definition cget : cm WorkCoordinator := λ w, (Ok w.1, w).
Definition cmodify (f : WorkCoordinator → WorkCoordinator) : cm unit := λ w, (Ok tt, (f w.1, w.2)).
Definition cstore {A} (m : store_m S A) : cm A := λ '(c, w),
  let '(r, w') := ecall env CE_Storage m w in (r, (c, w')).
Definition cplanner {A} (m : eclient (S := S) (E := PlannerError) A) : cm A := λ '(c, w),
  let '(r, w') := m w in (map_err CE_Planner r, (c, w')).
(** [let _ = ..] and a matched result *)
Definition cattempt {A} (m : cm A) : cm (result CoordinatorError A) := λ w, let '(r, w') := m w in (Ok r, w').

Definition find_slot (device_id : bytes) : cm BackendSlot :=
  c ← cget; clift (ok_or (c.(wc_backends) !! device_id) BackendNotFound).
(** A call of a method of the slot's backend, whose new state is kept also on an error. *)
Definition backend_call (device_id : bytes) (slot : BackendSlot) (call : B → result BackendError unit * B) : cm BackendSlot :=
  let '(r, backend) := call slot.(bs_backend) in
  let slot := with_backend slot backend in
  _ ← cmodify (set_slot device_id slot);
  clift (map_err CE_Backend (r ≫= λ _, Ok slot)).
Definition sink_call (record : CaptureRecord) : cm (result bytes Hash256) :=
  c ← cget;
  let '(r, sink) := admit_capture c.(wc_sink) record in
  _ ← cmodify (set_sink sink);
  mret r.

Definition register_backend (backend : B) : cm bytes :=
  c ← cget;
  if c.(wc_limits).(cl_maximum_backends) <=? Z.of_nat (size c.(wc_backends)) then clift (Err Capacity)
  else
    let capabilities := backend_capabilities backend in
    _ ← clift (map_err (λ _, BackendConflict) (validate_capabilities capabilities));
    _ ← cplanner (register_device env capabilities);
    let device_id := capabilities.(dc_device_id) in
    if bool_decide (is_Some (c.(wc_backends) !! device_id)) then clift (Err BackendConflict)
    else
      _ ← cmodify (set_slot device_id (mkBackendSlot backend capabilities None None));
      mret device_id.

Definition recover_backend (device_id : bytes) (envelope : WorkEnvelope) (template : TemplateWork) (now_ms : Z) :
    cm bool :=
  slot ← find_slot device_id;
  active ← cplanner (active_lease env device_id);
  match active with
  | None => mret false
  | Some lease =>
      if bool_decide (lease.(wl_device_id) ≠ device_id) then clift (Err CorruptState)
      else if match lease.(wl_expires_at_ms) with Some expiry => expiry <? now_ms | None => false end then
        _ ← cplanner (retire env device_id lease.(wl_lease_id));
        mret false
      else if negb (envelope.(we_job_generation) =? template.(tw_generation))
              || negb (envelope.(we_ntime) =? template.(tw_ntime))
              || bool_decide (envelope.(we_assignment_id) ≠ lease.(wl_assignment_id))
      then clift (Err GenerationMismatch)
      else
        _ ← clift (map_err CE_Lease (validate_lease envelope lease slot.(bs_capabilities)));
        stored_id ← cstore (get LEASE_JOB_NAMESPACE (hex_encode lease.(wl_lease_id)));
        job_id ← clift (ok_or stored_id CorruptState);
        _ ← clift (ensure (len job_id =? 32) CorruptState);
        stored_job ← cstore (get JOB_NAMESPACE (hex_encode job_id));
        job_bytes ← clift (ok_or stored_job CorruptState);
        job ← clift (map_err (λ _, CorruptState) (from_canonical_bytes job_bytes DecodeLimits_default));
        _ ← clift (map_err CE_Lease (validate_against_lease job lease));
        if negb (job_matches_template job template) then clift (Err CorruptState)
        else
          slot ← backend_call device_id slot (λ b, prepare_job b job);
          _ ← cmodify (set_slot device_id (with_work slot (Some (lease, job)) None));
          mret true
  end.

Definition prepare (device_id : bytes) (envelope : WorkEnvelope) (template : TemplateWork) (now_ms : Z)
    (expires_at_ms : option Z) : cm PreparedDeviceJob :=
  if negb (envelope.(we_job_generation) =? template.(tw_generation)) || negb (envelope.(we_ntime) =? template.(tw_ntime))
  then clift (Err GenerationMismatch)
  else
    c ← cget;
    slot ← find_slot device_id;
    lease ← cplanner (allocate env c.(wc_planner) envelope slot.(bs_capabilities) now_ms expires_at_ms);
    _ ← clift (map_err CE_Lease (validate_lease envelope lease slot.(bs_capabilities)));
    let job := job_of envelope template lease in
    _ ← clift (map_err CE_Lease (validate_against_lease job lease));
    let job_key := hex_encode job.(pj_job_id) in
    let lease_key := hex_encode lease.(wl_lease_id) in
    let job_bytes := to_canonical_bytes job in
    let mapping := job.(pj_job_id) in
    existing_job ← cstore (get JOB_NAMESPACE job_key);
    existing_mapping ← cstore (get LEASE_JOB_NAMESPACE lease_key);
    if match existing_job with Some bs => bool_decide (bs ≠ job_bytes) | None => false end
       || match existing_mapping with Some bs => bool_decide (bs ≠ mapping) | None => false end
    then clift (Err CorruptState)
    else
      applied ← cstore (apply_batch_if_all
        [mkBatchCondition JOB_NAMESPACE job_key existing_job;
         mkBatchCondition LEASE_JOB_NAMESPACE lease_key existing_mapping]
        [BatchPut JOB_NAMESPACE job_key job_bytes; BatchPut LEASE_JOB_NAMESPACE lease_key mapping]);
      if negb applied then clift (Err CorruptState)
      else
        stored_job ← cstore (get JOB_NAMESPACE job_key);
        if bool_decide (stored_job ≠ Some job_bytes) then clift (Err CorruptState)
        else
          stored_mapping ← cstore (get LEASE_JOB_NAMESPACE lease_key);
          if bool_decide (stored_mapping ≠ Some mapping) then clift (Err CorruptState)
          else
            delivered ← cattempt (backend_call device_id slot (λ b, prepare_job b job));
            match delivered with
            | Err error =>
                _ ← cattempt (cplanner (retire env device_id lease.(wl_lease_id)));
                clift (Err error)
            | Ok slot =>
                _ ← cmodify (set_slot device_id (with_work slot (Some (lease, job)) slot.(bs_active_generation)));
                mret job
            end.

Definition activate (device_id : bytes) (generation : Z) : cm unit :=
  slot ← find_slot device_id;
  prepared ← clift (ok_or slot.(bs_prepared) JobNotPrepared);
  if negb (prepared.1.(wl_job_generation) =? generation) || negb (prepared.2.(pj_generation) =? generation)
  then clift (Err StaleGeneration)
  else
    slot ← backend_call device_id slot (λ b, activate_job b generation);
    _ ← cmodify (set_slot device_id (with_work slot slot.(bs_prepared) (Some generation)));
    _ ← cmodify (set_generation (Some generation));
    cstore (put GENERATION_NAMESPACE (str "active") (to_le 8 generation)).

(** [current_generation] is dropped once no backend runs it. *)
Definition drop_generation (generation : Z) : cm unit :=
  c ← cget;
  if no_active c generation && bool_decide (c.(wc_current_generation) = Some generation) then
    _ ← cmodify (set_generation None);
    cstore (delete_key GENERATION_NAMESPACE (str "active"))
  else mret tt.

Definition prepared_for (slot : BackendSlot) (generation : Z) : option WorkLease :=
  match slot.(bs_prepared) with
  | Some (lease, job) => if job.(pj_generation) =? generation then Some lease else None
  | None => None
  end.

Definition cancel (device_id : bytes) (generation : Z) : cm unit :=
  slot ← find_slot device_id;
  slot ← backend_call device_id slot (λ b, cancel_job b generation);
  _ ← match prepared_for slot generation with
      | Some lease => _ ← cplanner (retire env device_id lease.(wl_lease_id)); mret tt
      | None => mret tt
      end;
  _ ← cmodify (set_slot device_id (with_work slot
        (if prepared_for slot generation then None else slot.(bs_prepared))
        (if bool_decide (slot.(bs_active_generation) = Some generation) then None
         else slot.(bs_active_generation))));
  drop_generation generation.

Fixpoint cancel_each (device_ids : list bytes) (generation : Z) : cm unit :=
  match device_ids with
  | [] => mret tt
  | device_id :: device_ids => _ ← cattempt (cancel device_id generation); cancel_each device_ids generation
  end.

Fixpoint prepare_loop (assignments : list (bytes * WorkEnvelope)) (template : TemplateWork) (now_ms : Z)
    (expires_at_ms : option Z) (prepared_devices : list bytes) (jobs : list PreparedDeviceJob) :
    cm (list PreparedDeviceJob) :=
  match assignments with
  | [] => mret jobs
  | (device_id, envelope) :: assignments =>
      prepared ← cattempt (prepare device_id envelope template now_ms expires_at_ms);
      match prepared with
      | Ok job =>
          prepare_loop assignments template now_ms expires_at_ms (prepared_devices ++ [device_id]) (jobs ++ [job])
      | Err error => _ ← cancel_each prepared_devices template.(tw_generation); clift (Err error)
      end
  end.
Definition prepare_generation (assignments : list (bytes * WorkEnvelope)) (template : TemplateWork)
    (now_ms : Z) (expires_at_ms : option Z) : cm (list PreparedDeviceJob) :=
  prepare_loop assignments template now_ms expires_at_ms [] [].

Fixpoint activate_loop (device_ids : list bytes) (generation : Z) (activated : list bytes) : cm unit :=
  match device_ids with
  | [] => mret tt
  | device_id :: device_ids =>
      r ← cattempt (activate device_id generation);
      match r with
      | Ok _ => activate_loop device_ids generation (activated ++ [device_id])
      | Err error => _ ← cancel_each activated generation; clift (Err error)
      end
  end.
Definition activate_generation (device_ids : list bytes) (generation : Z) : cm unit :=
  activate_loop device_ids generation [].

Fixpoint cancel_loop (device_ids : list bytes) (generation : Z) (first_error : option CoordinatorError) :
    cm (option CoordinatorError) :=
  match device_ids with
  | [] => mret first_error
  | device_id :: device_ids =>
      r ← cattempt (cancel device_id generation);
      cancel_loop device_ids generation
        match r, first_error with Err error, None => Some error | _, _ => first_error end
  end.
Definition cancel_generation (device_ids : list bytes) (generation : Z) : cm unit :=
  first_error ← cancel_loop device_ids generation None;
  match first_error with Some error => clift (Err error) | None => drop_generation generation end.

Definition require_active (device_id : bytes) (generation : Z) : cm unit :=
  slot ← find_slot device_id;
  clift (ensure (bool_decide (slot.(bs_active_generation) = Some generation)) StaleGeneration).

(** Delivery of a record that is durably pending under its bytes. *)
Definition deliver (record : CaptureRecord) (bs : bytes) : cm CaptureOutcome :=
  let key := hex_encode record.(cr_capture_id) in
  r ← sink_call record;
  downstream_id ← clift (map_err Downstream r);
  applied ← cstore (apply_batch_if CAPTURE_NAMESPACE key (Some bs)
    [BatchPut CAPTURE_TOMBSTONE_NAMESPACE key downstream_id; BatchDelete CAPTURE_NAMESPACE key]);
  if negb applied then clift (Err CorruptState)
  else mret (DurablyAdmitted record.(cr_capture_id) downstream_id).

Definition process_capture (device_id : bytes) (generation nonce ntime : Z) (extra_nonce : bytes)
    (raw_share_hash : Hash256) (received_at_ms : Z) : cm CaptureOutcome :=
  _ ← require_active device_id generation;
  slot ← find_slot device_id;
  prepared ← clift (ok_or slot.(bs_prepared) JobNotPrepared);
  let '(lease, job) := prepared in
  if negb (capture_in_lease lease job nonce ntime extra_nonce received_at_ms) then clift (Err CaptureOutsideLease)
  else
    let expected := mh_share_hash (capture_header job nonce ntime extra_nonce) in
    if bool_decide (expected ≠ raw_share_hash) then clift (Err CaptureHashMismatch)
    else if bytes_ltb job.(pj_edge_target) raw_share_hash then clift (Err HighHash)
    else if bytes_ltb job.(pj_capture_target) raw_share_hash then mret (TelemetryOnly raw_share_hash)
    else
      let record := capture_record lease device_id generation nonce ntime extra_nonce raw_share_hash received_at_ms in
      let capture_id := record.(cr_capture_id) in
      let key := hex_encode capture_id in
      tombstone ← cstore (get CAPTURE_TOMBSTONE_NAMESPACE key);
      if bool_decide (is_Some tombstone) then mret (Duplicate capture_id)
      else
        let bs := to_canonical_bytes record in
        swapped ← cstore (compare_and_swap CAPTURE_NAMESPACE key None bs);
        _ ← (if swapped : bool then mret tt
             else
               pending ← cstore (get CAPTURE_NAMESPACE key);
               clift (ensure (bool_decide (pending = Some bs)) CorruptState));
        deliver record bs.

(** The slot exists: [poll_device] has looked it up. *)
Definition process_event (device_id : bytes) (event : DeviceEvent) : cm (option CaptureOutcome) :=
  match event with
  | JobAcknowledged generation _ => _ ← require_active device_id generation; mret None
  | Capture generation nonce ntime extra_nonce raw_share_hash received_at_ms =>
      outcome ← process_capture device_id generation nonce ntime extra_nonce raw_share_hash received_at_ms;
      mret (Some outcome)
  | RangeCompleted generation lease_id =>
      _ ← require_active device_id generation;
      slot ← find_slot device_id;
      if negb slot.(bs_capabilities).(dc_reports_range_completion) then clift (Err CE_UnauthorizedCompletion)
      else
        prepared ← clift (ok_or slot.(bs_prepared) JobNotPrepared);
        if bool_decide (prepared.1.(wl_lease_id) ≠ lease_id) || negb (prepared.1.(wl_job_generation) =? generation)
        then clift (Err CE_UnauthorizedCompletion)
        else
          _ ← cplanner (planner_complete env slot.(bs_capabilities) lease_id);
          _ ← cmodify (set_slot device_id (with_work slot None None));
          mret None
  | Telemetry generation _ _ _ => _ ← require_active device_id generation; mret None
  | Disconnected =>
      slot ← find_slot device_id;
      _ ← match slot.(bs_prepared) with
          | Some (lease, _) => _ ← cplanner (retire env device_id lease.(wl_lease_id)); mret tt
          | None => mret tt
          end;
      _ ← cmodify (set_slot device_id (with_work slot None None));
      mret None
  end.

Fixpoint process_events (device_id : bytes) (events : list DeviceEvent) (outcomes : list CaptureOutcome) :
    cm (list CaptureOutcome) :=
  match events with
  | [] => mret outcomes
  | event :: events =>
      outcome ← process_event device_id event;
      process_events device_id events (outcomes ++ option_list outcome)
  end.

Definition poll_device (device_id : bytes) : cm (list CaptureOutcome) :=
  c ← cget;
  slot ← find_slot device_id;
  let '(r, events, backend) := poll_events slot.(bs_backend) in
  _ ← cmodify (set_slot device_id (with_backend slot backend));
  _ ← clift (map_err CE_Backend r);
  if c.(wc_limits).(cl_maximum_events_per_poll) <? len events then clift (Err Capacity)
  else process_events device_id events [].

Definition coordinator_status : cm CoordinatorStatus :=
  c ← cget;
  pending ← cstore (scan_namespace CAPTURE_NAMESPACE
    (mkScanLimits c.(wc_limits).(cl_maximum_pending_capture_records) 4096
       c.(wc_limits).(cl_maximum_pending_capture_bytes)));
  let slots := (map_to_list c.(wc_backends)).*2 in
  mret (mkCoordinatorStatus (len slots)
    (len (filter (λ slot, is_Some slot.(bs_prepared)) slots))
    (len (filter (λ slot, is_Some slot.(bs_active_generation)) slots))
    c.(wc_current_generation) (len pending)).

Fixpoint retry_loop (records : list NamespaceRecord) (outcomes : list CaptureOutcome) : cm (list CaptureOutcome) :=
  match records with
  | [] => mret outcomes
  | record :: records =>
      capture ← clift (map_err (λ _, CorruptState) (from_canonical_bytes record.(nr_value) DecodeLimits_default));
      let key := hex_encode capture.(cr_capture_id) in
      tombstone ← cstore (get CAPTURE_TOMBSTONE_NAMESPACE key);
      outcome ← match tombstone with
        | Some downstream_id =>
            _ ← clift (ensure (len downstream_id =? 32) CorruptState);
            _ ← cstore (delete_key CAPTURE_NAMESPACE key);
            mret (Duplicate capture.(cr_capture_id))
        | None => deliver capture record.(nr_value)
        end;
      retry_loop records (outcomes ++ [outcome])
  end.

Definition retry_pending_captures (maximum : Z) : cm (list CaptureOutcome) :=
  if maximum =? 0 then clift (Err RecoveryCapacity)
  else
    page ← cstore (scan_namespace_after CAPTURE_NAMESPACE None
      (mkScanLimits maximum (4 * 1024) (saturating_mul 64 maximum (4 * 1024))));
    retry_loop page.(page_records) [].
End Durable.
End Coordinator.

(** The sink of the in-process deployments. *)
Definition MemoryCaptureSink : Type := gmap Hash256 CaptureRecord.
Definition memory_admit_capture `{Digests} (records : MemoryCaptureSink) (capture : CaptureRecord) :
    result bytes Hash256 * MemoryCaptureSink :=
  (Ok (domain_hash (str "MESHMINE/MEMORY_SINK/V1") capture.(cr_capture_id)),
   <[capture.(cr_capture_id) := capture]> records).
#[export] Instance MemoryCaptureSink_sink `{Digests} : CaptureSink MemoryCaptureSink :=
  {| admit_capture := memory_admit_capture |}.
