(* ===== verification/CoordinatorSafety.v ===== *)
(** * The work coordinator: proofs

    Captures are acknowledged only when they are valid work of an active lease and
    the consumer has them; a capture that was accepted is never lost. *)

From S2P Require Import Prelude Codec Hash Types Objects Header Storage Journal Client Work Planner Coordinator.

Section Logic.
Context {B : Type} `{!MiningBackend B} {K : Type} `{!CaptureSink K} `{Digests} `{HexOk}.
Context {S : Type} `{!DurableStore S, !DurableStoreLaws S}.
Abbreviation coordinator := (WorkCoordinator (B := B) (K := K)).
Abbreviation cmS := (cm (B := B) (K := K) (S := S)).

(** Run from state [c] and a store that represents [v], [m] ends in [Φ]. *)
Definition cwp {A} (m : cmS A) (c : coordinator) (v : View)
    (Φ : result CoordinatorError A → coordinator → View → Prop) : Prop :=
  ∀ n s, represents s v →
    ∃ r c' n' s' v', m (c, (n, s)) = (r, (c', (n', s'))) ∧ represents s' v' ∧ Φ r c' v'.

Lemma cwp_ret {A} (a : A) c (v : View) (Φ : result CoordinatorError A → coordinator → View → Prop) :
  Φ (Ok a) c v → cwp (mret a) c v Φ.
Proof. intros Ha n s Hrep. by exists (Ok a), c, n, s, v. Qed.
Lemma cwp_lift {A} (r : result CoordinatorError A) c (v : View) (Φ : result CoordinatorError A → coordinator → View → Prop) :
  Φ r c v → cwp (clift r) c v Φ.
Proof. intros Ha n s Hrep. by exists r, c, n, s, v. Qed.
Lemma cwp_mono {A} (m : cmS A) c (v : View) (Φ Ψ : result CoordinatorError A → coordinator → View → Prop) :
  (∀ r c' v', Φ r c' v' → Ψ r c' v') → cwp m c v Φ → cwp m c v Ψ.
Proof. intros Himp Hm n s Hrep. destruct (Hm n s Hrep) as (r & c' & n' & s' & v' & ? & ? & ?). naive_solver. Qed.
Lemma cwp_bind {A A'} (m : cmS A) (f : A → cmS A') c (v : View) (Φ : result CoordinatorError A' → coordinator → View → Prop) :
  cwp m c v (λ r c1 v1, match r with Ok a => cwp (f a) c1 v1 Φ | Err e => Φ (Err e) c1 v1 end) → cwp (m ≫= f) c v Φ.
Proof.
  intros Hm n s Hrep. destruct (Hm n s Hrep) as (r & c1 & n1 & s1 & v1 & Er & Hrep1 & Hr).
  unfold mbind, cm_bind. rewrite Er. destruct r as [a|e]; [|by eexists _, c1, n1, s1, v1]. by apply Hr.
Qed.
Lemma cwp_lift_bind {A A'} (r : result CoordinatorError A) (f : A → cmS A') c (v : View)
    (Φ : result CoordinatorError A' → coordinator → View → Prop) :
  (∀ a, r = Ok a → cwp (f a) c v Φ) → (∀ e, r = Err e → Φ (Err e) c v) → cwp (clift r ≫= f) c v Φ.
Proof. intros Hok Herr. apply cwp_bind, cwp_lift. destruct r; auto. Qed.
Lemma cwp_get_bind {A'} (f : coordinator → cmS A') c (v : View) (Φ : result CoordinatorError A' → coordinator → View → Prop) :
  cwp (f c) c v Φ → cwp (cget ≫= f) c v Φ.
Proof. intros Hf n s Hrep. unfold mbind, cm_bind, cget. by apply Hf. Qed.
Lemma cwp_modify g c (v : View) (Φ : result CoordinatorError unit → coordinator → View → Prop) :
  Φ (Ok tt) (g c) v → cwp (cmodify g) c v Φ.
Proof. intros Hg n s Hrep. by exists (Ok tt), (g c), n, s, v. Qed.
Lemma cwp_find_slot_bind {A'} device_id (f : BackendSlot → cmS A') c (v : View)
    (Φ : result CoordinatorError A' → coordinator → View → Prop) :
  match c.(wc_backends) !! device_id with
  | Some slot => cwp (f slot) c v Φ
  | None => Φ (Err BackendNotFound) c v
  end → cwp (find_slot device_id ≫= f) c v Φ.
Proof.
  intros Hf n s Hrep. unfold mbind at 1, cm_bind at 1, find_slot, mbind, cm_bind, cget, clift. cbn.
  destruct (wc_backends c !! device_id); cbn; [by apply Hf|]. by eexists _, c, n, s, v.
Qed.

Context (env : nat → S → S) (R : relation View).
Hypothesis env_R : ∀ n s v, represents s v → ∃ v', represents (env n s) v' ∧ R v v'.

Lemma cwp_store {A} (m : store_m S A) c (v : View) (Φ : result CoordinatorError A → coordinator → View → Prop) :
  ewp (ecall env CE_Storage m) v (λ r v', Φ r c v') → cwp (cstore env m) c v Φ.
Proof.
  intros Hm n s Hrep. destruct (Hm n s Hrep) as (r & n' & s' & v' & E & Hrep' & Hr).
  unfold cstore. rewrite E. by exists r, c, n', s', v'.
Qed.
Lemma cwp_sink_bind {A'} record (f : result bytes Hash256 → cmS A') c (v : View)
    (Φ : result CoordinatorError A' → coordinator → View → Prop) :
  (∀ r sink, admit_capture c.(wc_sink) record = (r, sink) → cwp (f r) (set_sink sink c) v Φ) →
  cwp (sink_call record ≫= f) c v Φ.
Proof.
  intros Hf n s Hrep. destruct (admit_capture (wc_sink c) record) as [r sink] eqn:Ea.
  destruct (Hf r sink eq_refl n s Hrep) as (r' & c' & n' & s' & v' & E & ?). exists r', c', n', s', v'.
  split; [|done]. rewrite <- E. unfold mbind at 1, cm_bind at 1.
  assert (sink_call record (c, (n, s)) = (Ok r, (set_sink sink c, (n, s)))) as ->; [|done].
  unfold sink_call, mbind, cm_bind, cget. cbn [fst]. by rewrite Ea.
Qed.
End Logic.

(** ** Captures *)

(** Other users of the store do not touch the captures. *)
Definition capture_frame (v v' : View) : Prop :=
  ∀ ns k, ns ∈ [CAPTURE_NAMESPACE; CAPTURE_TOMBSTONE_NAMESPACE] → v' !! (ns, k) = v !! (ns, k).
#[export] Instance capture_frame_preorder : PreOrder capture_frame.
Proof. split; [by intros v ns k|]. intros v1 v2 v3 H1 H2 ns k Hns. by rewrite H2, H1. Qed.

Abbreviation pending_at v k := (v !! (CAPTURE_NAMESPACE, k)).
Abbreviation tombstone_at v k := (v !! (CAPTURE_TOMBSTONE_NAMESPACE, k)).

(** The captures of [v'] are those of [v], except for the key. *)
Definition captures_change (k : bytes) (pending tombstone : option bytes) (v v' : View) : Prop :=
  pending_at v' k = pending ∧ tombstone_at v' k = tombstone ∧
  ∀ ns k', ns ∈ [CAPTURE_NAMESPACE; CAPTURE_TOMBSTONE_NAMESPACE] → k' ≠ k → v' !! (ns, k') = v !! (ns, k').

Section Captures.
Context {B : Type} `{!MiningBackend B} {K : Type} `{!CaptureSink K} `{Digests} `{!DigestsOk} `{HexOk}.
Context {S : Type} `{!DurableStore S, !DurableStoreLaws S} (env : nat → S → S).
Hypothesis env_frame : ∀ n s v, represents s v → ∃ v', represents (env n s) v' ∧ capture_frame v v'.
Abbreviation coordinator := (WorkCoordinator (B := B) (K := K)).

Lemma frame_pending (v v' : View) k : capture_frame v v' → pending_at v' k = pending_at v k.
Proof. intros Hf. apply Hf. set_solver. Qed.
Lemma frame_tombstone (v v' : View) k : capture_frame v v' → tombstone_at v' k = tombstone_at v k.
Proof. intros Hf. apply Hf. set_solver. Qed.
Lemma frame_change k p t (v v1 v' : View) :
  capture_frame v v1 → captures_change k p t v1 v' → captures_change k p t v v'.
Proof.
  intros Hf (Hp & Ht & Ho). split_and!; [done..|]. intros ns k' Hns Hne. rewrite Ho by done. by apply Hf.
Qed.
Lemma change_same k (v v' : View) :
  capture_frame v v' → captures_change k (pending_at v k) (tombstone_at v k) v v'.
Proof.
  intros Hf. split_and!; [by apply frame_pending|by apply frame_tombstone|]. intros ns k' Hns _. by apply Hf.
Qed.

Lemma capture_key_valid ns id :
  ns ∈ [CAPTURE_NAMESPACE; CAPTURE_TOMBSTONE_NAMESPACE] → valid_key (ns, hex_encode id) = true.
Proof.
  intros Hns. apply valid_key_spec. split; [|apply hex_encode_nul].
  repeat (apply elem_of_cons in Hns as [->|Hns]; [vm_compute; set_solver|]). by apply not_elem_of_nil in Hns.
Qed.
Ltac capture_key := apply capture_key_valid; set_solver.
Ltac other_ns := let Heq := fresh in intros Heq; apply (f_equal fst) in Heq; vm_compute in Heq; discriminate Heq.

(** How the delivery of a pending record ends. *)
Definition delivered (record : CaptureRecord) (bs : bytes) (c : coordinator) (v : View)
    (r : result CoordinatorError CaptureOutcome) (c' : coordinator) (v' : View) : Prop :=
  let k := hex_encode record.(cr_capture_id) in
  ∃ answer sink, admit_capture c.(wc_sink) record = (answer, sink) ∧ c' = set_sink sink c ∧
    match answer with
    | Ok d => r = Ok (DurablyAdmitted record.(cr_capture_id) d) ∧ captures_change k None (Some d) v v'
    | Err e => r = Err (Downstream e) ∧ captures_change k (Some bs) (tombstone_at v k) v v'
    end.

Lemma deliver_spec record bs c (v : View) :
  pending_at v (hex_encode record.(cr_capture_id)) = Some bs →
  cwp (deliver env record bs) c v (delivered record bs c v).
Proof.
  intros Hp. unfold deliver, delivered. apply cwp_sink_bind. intros answer sink Ea.
  apply cwp_lift_bind.
  - intros d Hd%map_err_ok. subst answer. apply cwp_bind, cwp_store, (ewp_batch_if env CE_Storage _ env_frame).
    + unfold batch_keys_valid, condition_target, operation_target. cbn [fmap list_fmap forallb bc_namespace bc_key].
      rewrite !capture_key_valid by set_solver. done.
    + intros v1 Hf _. cbn [negb]. apply cwp_ret. exists (Ok d), sink. split_and!; [done..|].
      eapply frame_change; [exact Hf|]. unfold view_apply. cbn [foldl]. split_and!.
      * by rewrite lookup_delete_eq.
      * rewrite lookup_delete_ne by other_ns. by rewrite lookup_insert_eq.
      * intros ns k' Hns Hne. rewrite lookup_delete_ne by congruence. by rewrite lookup_insert_ne by congruence.
    + intros v1 Hf Hne. exfalso. apply Hne. by rewrite (frame_pending _ _ _ Hf).
  - intros e He. destruct answer as [d|e']; [done|]. injection He as <-. exists (Err e'), sink.
    split_and!; [done..|]. rewrite <- Hp. by apply change_same.
Qed.

(** What makes a capture valid work of a prepared job. *)
Definition valid_capture (lease : WorkLease) (job : PreparedDeviceJob) (nonce ntime : Z) (extra_nonce : bytes)
    (raw_share_hash : Hash256) (received_at_ms : Z) : Prop :=
  ntime = job.(pj_ntime) ∧ accepts_extra_nonce lease extra_nonce = true ∧
  lease.(wl_nonce_start) ≤ nonce ≤ lease.(wl_nonce_end) ∧
  (nonce - lease.(wl_nonce_start)) mod lease.(wl_nonce_stride) = 0 ∧
  (∀ expiry, lease.(wl_expires_at_ms) = Some expiry → received_at_ms ≤ expiry) ∧
  mh_share_hash (capture_header job nonce ntime extra_nonce) = raw_share_hash ∧
  bytes_le raw_share_hash job.(pj_edge_target).

Lemma capture_in_lease_spec lease job nonce ntime x t :
  capture_in_lease lease job nonce ntime x t = true →
  ntime = job.(pj_ntime) ∧ accepts_extra_nonce lease x = true ∧
  lease.(wl_nonce_start) ≤ nonce ≤ lease.(wl_nonce_end) ∧
  (nonce - lease.(wl_nonce_start)) mod lease.(wl_nonce_stride) = 0 ∧
  (∀ expiry, lease.(wl_expires_at_ms) = Some expiry → t ≤ expiry).
Proof.
  unfold capture_in_lease. rewrite negb_true_iff, !orb_false_iff, !negb_false_iff, !Z.ltb_ge, Z.eqb_neq, !Z.eqb_eq.
  intros ((((((? & ?) & ?) & ?) & ?) & Hm) & He). split_and!; try done.
  - unfold saturating_sub in Hm. by rewrite Z.max_l in Hm by lia.
  - intros expiry E. rewrite E in He. by apply Z.ltb_ge in He.
Qed.

Lemma not_ltb_le a b : bytes_ltb a b = false → bytes_le b a.
Proof. intros E. apply bytes_not_lt. rewrite <- bytes_ltb_spec. congruence. Qed.

(** What the processing of a capture may do. *)
Inductive capture_step (device_id : bytes) (generation nonce ntime : Z) (extra_nonce : bytes) (hash : Hash256)
    (received : Z) (c : coordinator) (v : View) :
    result CoordinatorError CaptureOutcome → coordinator → View → Prop :=
| capture_rejected e v' :
    (∀ x, e ≠ Downstream x) → capture_frame v v' →
    capture_step device_id generation nonce ntime extra_nonce hash received c v (Err e) c v'
| capture_telemetry slot lease job v' :
    c.(wc_backends) !! device_id = Some slot → slot.(bs_active_generation) = Some generation →
    slot.(bs_prepared) = Some (lease, job) → valid_capture lease job nonce ntime extra_nonce hash received →
    bytes_lt job.(pj_capture_target) hash → capture_frame v v' →
    capture_step device_id generation nonce ntime extra_nonce hash received c v (Ok (TelemetryOnly hash)) c v'
| capture_known slot lease job v' :
    c.(wc_backends) !! device_id = Some slot → slot.(bs_active_generation) = Some generation →
    slot.(bs_prepared) = Some (lease, job) → valid_capture lease job nonce ntime extra_nonce hash received →
    let record := capture_record lease device_id generation nonce ntime extra_nonce hash received in
    is_Some (tombstone_at v (hex_encode record.(cr_capture_id))) → capture_frame v v' →
    capture_step device_id generation nonce ntime extra_nonce hash received c v (Ok (Duplicate record.(cr_capture_id))) c v'
| capture_delivered slot lease job r c' v' :
    c.(wc_backends) !! device_id = Some slot → slot.(bs_active_generation) = Some generation →
    slot.(bs_prepared) = Some (lease, job) → valid_capture lease job nonce ntime extra_nonce hash received →
    bytes_le hash job.(pj_capture_target) →
    let record := capture_record lease device_id generation nonce ntime extra_nonce hash received in
    tombstone_at v (hex_encode record.(cr_capture_id)) = None →
    delivered record (to_canonical_bytes record) c v r c' v' →
    capture_step device_id generation nonce ntime extra_nonce hash received c v r c' v'.

Lemma process_capture_steps device_id generation nonce ntime x hash received c (v : View) :
  cwp (process_capture env device_id generation nonce ntime x hash received) c v
    (capture_step device_id generation nonce ntime x hash received c v).
Proof.
  assert (capture_frame v v) as Hrefl by reflexivity.
  unfold process_capture, require_active. apply cwp_bind. apply cwp_find_slot_bind.
  destruct (wc_backends c !! device_id) as [slot|] eqn:Es; [|by apply capture_rejected].
  apply cwp_lift. unfold ensure. case_bool_decide as Ha; [|by apply capture_rejected].
  apply cwp_find_slot_bind. rewrite Es. apply cwp_lift_bind; [|intros e He; apply capture_rejected; [|done]].
  2: { unfold ok_or in He. case_match; by simplify_eq. }
  intros [lease job] Hp%ok_or_ok.
  destruct (capture_in_lease lease job nonce ntime x received) eqn:El; [|by apply cwp_lift, capture_rejected]. cbn [negb].
  apply capture_in_lease_spec in El as (L1 & L2 & L3 & L4 & L5).
  case_bool_decide as Hh; [by apply cwp_lift, capture_rejected|].
  destruct (bytes_ltb (pj_edge_target job) hash) eqn:E1; [by apply cwp_lift, capture_rejected|]. apply not_ltb_le in E1.
  assert (valid_capture lease job nonce ntime x hash received) as Hvalid by done.
  destruct (bytes_ltb (pj_capture_target job) hash) eqn:E2.
  { apply cwp_ret. apply bytes_ltb_spec in E2. by eapply capture_telemetry. }
  apply not_ltb_le in E2. set (record := capture_record _ _ _ _ _ _ _ _).
  apply cwp_bind, cwp_store, (ewp_get env CE_Storage _ env_frame); [capture_key|]. intros v1 Hf1.
  rewrite (frame_tombstone _ _ _ Hf1).
  case_bool_decide as Ht.
  { apply cwp_ret. by apply (capture_known _ _ _ _ _ _ _ _ _ slot lease job). }
  apply eq_None_not_Some in Ht. apply cwp_bind, cwp_store, (ewp_cas env CE_Storage _ env_frame); [capture_key| |].
  - intros v2 Hf2 Hnone. apply cwp_bind, cwp_ret. set (v3 := <[_ := _]> v2).
    eapply cwp_mono; [|apply deliver_spec; unfold v3; by rewrite lookup_insert_eq].
    intros r c' v' (answer & sink & Eadm & -> & Hr). apply (capture_delivered _ _ _ _ _ _ _ _ _ slot lease job); try done.
    exists answer, sink. split; [done|]. split; [done|]. cbn zeta.
    assert (∀ p t w, captures_change (hex_encode record.(cr_capture_id)) p t v3 w →
      captures_change (hex_encode record.(cr_capture_id)) p t v w) as Hlift.
    { intros p t w (C1 & C2 & C3). split_and!; [done..|]. intros ns k' Hns Hne. rewrite C3 by done. unfold v3.
      rewrite lookup_insert_ne by congruence. rewrite (Hf2 ns k' Hns). by apply Hf1. }
    destruct answer as [d|e]; (destruct Hr as [-> Hr]; split; [done|]); apply Hlift; [done|].
    assert (tombstone_at v3 (hex_encode (cr_capture_id record)) = tombstone_at v (hex_encode (cr_capture_id record))) as Et.
    { unfold v3. rewrite lookup_insert_ne by other_ns. by rewrite (frame_tombstone _ _ _ Hf2), (frame_tombstone _ _ _ Hf1). }
    by rewrite Et in Hr.
  - intros v2 Hf2 _. apply cwp_bind, cwp_bind, cwp_store, (ewp_get env CE_Storage _ env_frame); [capture_key|]. intros v3 Hf3.
    assert (capture_frame v v3) as Hf by (do 2 (etrans; [eassumption|]); done).
    apply cwp_lift. unfold ensure. case_bool_decide as Hb; [|by apply capture_rejected].
    eapply cwp_mono; [|by apply deliver_spec].
    intros r c' v' (answer & sink & Eadm & -> & Hr). apply (capture_delivered _ _ _ _ _ _ _ _ _ slot lease job); try done.
    exists answer, sink. split; [done|]. split; [done|]. cbn zeta.
    destruct answer as [d|e]; (destruct Hr as [-> Hr]; split; [done|]); (eapply frame_change; [exact Hf|]); [done|].
    by rewrite (frame_tombstone _ _ _ Hf) in Hr.
Qed.

(** The identity of a capture does not depend on when it arrived. *)
Lemma capture_id_received lease d g n t x h r1 r2 :
  cr_capture_id (capture_record lease d g n t x h r1) = cr_capture_id (capture_record lease d g n t x h r2).
Proof. done. Qed.

(** ** Redelivery *)

(** Pending captures are canonical records under their own identifiers. *)
Definition captures_ok (v : View) : Prop :=
  (∀ k x, pending_at v k = Some x → ∃ record, ok_CaptureRecord DecodeLimits_default record ∧
    x = to_canonical_bytes record ∧ k = hex_encode record.(cr_capture_id)) ∧
  (∀ k x, tombstone_at v k = Some x → length x = 32%nat).

Lemma captures_ok_change k p t (v v' : View) :
  captures_ok v → captures_change k p t v v' →
  (∀ x, p = Some x → pending_at v k = Some x ∨ ∃ record, ok_CaptureRecord DecodeLimits_default record ∧
    x = to_canonical_bytes record ∧ k = hex_encode record.(cr_capture_id)) →
  (∀ x, t = Some x → length x = 32%nat) → captures_ok v'.
Proof.
  intros [P T] (Cp & Ct & Co) Hp Ht. split.
  - intros k' x Hx. destruct (decide (k' = k)) as [->|Hne].
    + rewrite Cp in Hx. destruct (Hp x Hx) as [?|?]; [by apply P|done].
    + rewrite Co in Hx by (set_solver || done). by apply P.
  - intros k' x Hx. destruct (decide (k' = k)) as [->|Hne]; [apply Ht; congruence|].
    rewrite Co in Hx by (set_solver || done). by eapply T.
Qed.

Lemma captures_frame_ok (v v' : View) : captures_ok v → capture_frame v v' → captures_ok v'.
Proof.
  intros [P T] Hf. split; intros k x Hx.
  - rewrite (frame_pending _ _ _ Hf) in Hx. by apply P.
  - rewrite (frame_tombstone _ _ _ Hf) in Hx. by eapply T.
Qed.

Lemma capture_size r : ok_CaptureRecord DecodeLimits_default r → len (to_canonical_bytes r) ≤ 1024.
Proof.
  unfold ok_CaptureRecord, arr. intros Hok. destruct_and!. unfold to_canonical_bytes, into_bytes. cbn [encode CaptureRecord_codec].
  unfold encode_CaptureRecord. rewrite !wseq_nil by apply _.
  unfold enc_u16, enc_u32, enc_u64, enc_fixed. cbn [app]. unfold len.
  repeat (rewrite ?length_app, ?to_le_length; cbn [length app]). lia.
Qed.
Lemma decode_pending r :
  ok_CaptureRecord DecodeLimits_default r → from_canonical_bytes (to_canonical_bytes r) DecodeLimits_default = Ok r.
Proof.
  intros Hok. apply from_canonical_complete; [split; by vm_compute|done|].
  etrans; [by apply capture_size|]. by vm_compute.
Qed.

(** The consumer answers with identifiers, and takes every capture. *)
Definition sink_accepts : Prop :=
  ∀ (k : K) record, ∃ d k', admit_capture k record = (Ok d, k') ∧ length d = 32%nat.

Lemma sink_accepts_length :
  sink_accepts → ∀ (k : K) rec d k', admit_capture k rec = (Ok d, k') → length d = 32%nat.
Proof. intros Hacc k rec d k' E. destruct (Hacc k rec) as (d' & k1 & E' & Hd). congruence. Qed.

(** The pending records [l], in order, given to the consumer [k] once each, except
    those that have a tombstone in [v]: the outcomes, the tombstones and the consumer afterwards. *)
Inductive handed (v : View) :
    list (bytes * bytes) → K → list CaptureOutcome → list (bytes * bytes) → K → Prop :=
| handed_nil k : handed v [] k [] [] k
| handed_known record x d l k os ts k' :
    from_canonical_bytes x DecodeLimits_default = Ok record →
    tombstone_at v (hex_encode record.(cr_capture_id)) = Some d →
    handed v l k os ts k' →
    handed v ((hex_encode record.(cr_capture_id), x) :: l) k
      (Duplicate record.(cr_capture_id) :: os) ((hex_encode record.(cr_capture_id), d) :: ts) k'
| handed_new record x d l k k1 os ts k' :
    from_canonical_bytes x DecodeLimits_default = Ok record →
    tombstone_at v (hex_encode record.(cr_capture_id)) = None →
    admit_capture k record = (Ok d, k1) →
    handed v l k1 os ts k' →
    handed v ((hex_encode record.(cr_capture_id), x) :: l) k
      (DurablyAdmitted record.(cr_capture_id) d :: os) ((hex_encode record.(cr_capture_id), d) :: ts) k'.

Lemma handed_keys v l k os ts k' : handed v l k os ts k' → ts.*1 = l.*1.
Proof. induction 1; cbn; by f_equal. Qed.
Lemma handed_frame (v v' : View) l k os ts k' :
  (∀ x, x ∈ l.*1 → tombstone_at v' x = tombstone_at v x) → handed v' l k os ts k' → handed v l k os ts k'.
Proof.
  intros Hf Hh. induction Hh as [| |]; [constructor|..]; cbn [fmap list_fmap fst] in Hf.
  - apply handed_known; [done|by rewrite <- Hf by left|]. apply IHHh. intros y Hy. apply Hf. by right.
  - eapply handed_new; [done|by rewrite <- Hf by left|done|]. apply IHHh. intros y Hy. apply Hf. by right.
Qed.
Lemma handed_app v l1 l2 k k1 k2 os1 os2 ts1 ts2 :
  handed v l1 k os1 ts1 k1 → handed v l2 k1 os2 ts2 k2 → handed v (l1 ++ l2) k (os1 ++ os2) (ts1 ++ ts2) k2.
Proof. intros Ha Hb. induction Ha; [done|apply handed_known; auto|eapply handed_new; eauto]. Qed.

(** The state after the records [l] of [v] were handed to the consumer. *)
Definition drained (l : list (bytes * bytes)) (c : coordinator) (v : View) (os : list CaptureOutcome)
    (c' : coordinator) (v' : View) : Prop :=
  ∃ ts sink, handed v l c.(wc_sink) os ts sink ∧ c' = set_sink sink c ∧
    (∀ k, pending_at v' k = if decide (k ∈ l.*1) then None else pending_at v k) ∧
    (∀ k d, (k, d) ∈ ts → tombstone_at v' k = Some d) ∧
    (∀ k, k ∉ l.*1 → tombstone_at v' k = tombstone_at v k).

Lemma drained_nil c (v v' : View) : capture_frame v v' → drained [] c v [] c v'.
Proof.
  intros Hf. exists [], (wc_sink c). split_and!; [constructor|by destruct c|..].
  - intros k. rewrite decide_False by (by apply not_elem_of_nil). by apply frame_pending.
  - by intros k d ?%elem_of_nil.
  - intros k _. by apply frame_tombstone.
Qed.
Lemma drained_app l1 l2 c c1 c2 (v v1 v2 : View) os1 os2 :
  NoDup (l1 ++ l2).*1 → drained l1 c v os1 c1 v1 → drained l2 c1 v1 os2 c2 v2 →
  drained (l1 ++ l2) c v (os1 ++ os2) c2 v2.
Proof.
  rewrite fmap_app. intros (_ & Hdisj & _)%NoDup_app (ts1 & k1 & Ha & -> & P1 & T1 & F1) (ts2 & k2 & Hb & -> & P2 & T2 & F2).
  pose proof (handed_keys _ _ _ _ _ _ Ha) as E1. pose proof (handed_keys _ _ _ _ _ _ Hb) as E2.
  exists (ts1 ++ ts2), k2. split_and!.
  - eapply handed_app; [exact Ha|]. eapply handed_frame; [|exact Hb]. intros x Hx. apply F1. intros Hx1. by apply (Hdisj x).
  - done.
  - intros k. rewrite P2, P1, fmap_app. destruct (decide (k ∈ l2.*1)); [by rewrite decide_True by set_solver|].
    destruct (decide (k ∈ l1.*1)); [by rewrite decide_True by set_solver|by rewrite decide_False by set_solver].
  - intros k d [Hin|Hin]%elem_of_app; [|by apply T2]. rewrite F2; [by apply T1|]. apply Hdisj. rewrite <- E1.
    apply list_elem_of_fmap. by exists (k, d).
  - intros k. rewrite fmap_app, not_elem_of_app. intros [? ?]. by rewrite F2, F1.
Qed.
Lemma drained_earlier l c (v v1 v' : View) os c' :
  capture_frame v v1 → drained l c v1 os c' v' → drained l c v os c' v'.
Proof.
  intros Hf (ts & sink & Hh & -> & Hp & Ht & Hn). exists ts, sink. split_and!; try done.
  - eapply handed_frame; [|exact Hh]. intros x _. by apply frame_tombstone.
  - intros k. by rewrite Hp, (frame_pending _ _ _ Hf).
  - intros k Hk. by rewrite Hn, (frame_tombstone _ _ _ Hf).
Qed.
Lemma drained_length l c (v v' : View) os c' : drained l c v os c' v' → length os = length l.
Proof. intros (ts & sink & Hh & _). induction Hh; cbn; by f_equal. Qed.
Lemma drained_ok l c (v v' : View) os c' :
  (∀ k rec d k', admit_capture k rec = (Ok d, k') → length d = 32%nat) →
  captures_ok v → drained l c v os c' v' → captures_ok v'.
Proof.
  intros Hsink [P T] (ts & sink & Hh & _ & Hp & Ht & Hf). split.
  - intros k x Hx. rewrite Hp in Hx. case_decide; [done|]. by apply P.
  - intros k x Hx. destruct (decide (k ∈ l.*1)) as [Hin|Hin]; [|rewrite Hf in Hx by done; by eapply T].
    rewrite <- (handed_keys _ _ _ _ _ _ Hh) in Hin. apply list_elem_of_fmap in Hin as ([k' d] & -> & Hin).
    pose proof (Ht _ _ Hin) as Ed. cbn [fst] in Hx. assert (x = d) as -> by congruence. clear Hp Hf Hx Ht Ed.
    induction Hh as [|record y d' l q os ts q' _ Hd Hh IH|record y d' l q q1 os ts q' _ Hn Ha Hh IH]; [by apply elem_of_nil in Hin|..];
      (apply elem_of_cons in Hin as [[= -> ->]|Hin]; [|by apply IH]); [by eapply T|by eapply Hsink].
Qed.

(** The handling of one pending record by the retry. *)
Lemma drained_one record d o c c' (v v' : View) :
  ok_CaptureRecord DecodeLimits_default record →
  (tombstone_at v (hex_encode record.(cr_capture_id)) = Some d ∧ o = Duplicate record.(cr_capture_id) ∧ c' = c ∨
   tombstone_at v (hex_encode record.(cr_capture_id)) = None ∧ o = DurablyAdmitted record.(cr_capture_id) d ∧
     ∃ sink, admit_capture c.(wc_sink) record = (Ok d, sink) ∧ c' = set_sink sink c) →
  captures_change (hex_encode record.(cr_capture_id)) None (Some d) v v' →
  drained [(hex_encode record.(cr_capture_id), to_canonical_bytes record)] c v [o] c' v'.
Proof.
  intros Hrec%decode_pending Hcase (Cp & Ct & Co). set (key := hex_encode _) in *.
  assert (∃ sink, handed v [(key, to_canonical_bytes record)] c.(wc_sink) [o] [(key, d)] sink ∧ c' = set_sink sink c)
    as (sink & Hh & ->).
  { destruct Hcase as [(Ht & -> & ->)|(Ht & -> & sink & Ha & ->)].
    - exists (wc_sink c). split; [|by destruct c]. apply handed_known; [done|done|constructor].
    - exists sink. split; [|done]. eapply handed_new; [done|done|done|constructor]. }
  exists [(key, d)], sink. split_and!; [done|done|..]; cbn [fmap list_fmap fst].
  - intros k. destruct (decide (k = key)) as [->|Hne]; [by rewrite decide_True by left|].
    rewrite decide_False by set_solver. by apply Co; [set_solver|].
  - by intros k d' [= -> ->]%list_elem_of_singleton.
  - intros k Hk. apply Co; [set_solver|]. set_solver.
Qed.

Lemma retry_loop_drains (l : list (bytes * bytes)) outs (c : coordinator) (v : View) :
  sink_accepts → captures_ok v → NoDup l.*1 → (∀ k x, (k, x) ∈ l → pending_at v k = Some x) →
  cwp (retry_loop env (to_record <$> l) outs) c v (λ r c' v', ∃ os,
    r = Ok (outs ++ os) ∧ drained l c v os c' v').
Proof.
  intros Hacc. pose proof (sink_accepts_length Hacc) as Hsink.
  revert outs c v. induction l as [|[k x] l IH]; intros outs c v Hok Hnd Hpend.
  { apply cwp_ret. exists []. rewrite app_nil_r. split; [done|]. by apply drained_nil. }
  cbn [retry_loop fmap list_fmap to_record fst snd]. pose proof Hnd as [Hnew Hnd']%NoDup_cons.
  assert (pending_at v k = Some x) as Hk by (apply Hpend; left).
  destruct (proj1 Hok k x Hk) as (record & Hr & -> & ->). cbn [nr_value].
  unfold to_record. cbn [fst snd nr_value]. rewrite decode_pending by done. cbn [map_err].
  apply cwp_lift_bind; [|done]. intros capture [= <-].
  apply cwp_bind, cwp_store, (ewp_get env CE_Storage _ env_frame); [capture_key|]. intros v1 Hf1.
  set (key := hex_encode (cr_capture_id record)) in *.
  apply cwp_bind. eapply (cwp_mono _ _ _ (λ r c' v', ∃ o, r = Ok o ∧ drained [(key, to_canonical_bytes record)] c v [o] c' v')).
  { intros r c2 v2 (o & -> & Hone). pose proof Hone as (_ & _ & _ & _ & Hp2 & _).
    eapply cwp_mono; [|apply (IH (outs ++ [o]) c2 v2)].
    - intros r' c' v' (os & -> & Hrest). exists (o :: os). split; [by rewrite <- app_assoc|].
      by apply (drained_app [(key, to_canonical_bytes record)] l _ c2 _ _ v2 _ [o] os).
    - by eapply drained_ok.
    - done.
    - intros k' y Hin. rewrite Hp2, decide_False; [apply Hpend; by right|]. cbn [fmap list_fmap fst].
      intros ->%list_elem_of_singleton. apply Hnew. apply list_elem_of_fmap. by exists (key, y). }
  rewrite (frame_tombstone _ _ _ Hf1). destruct (tombstone_at v key) as [d|] eqn:Et.
  - pose proof (proj2 Hok _ _ Et) as Hd. apply cwp_lift_bind; [|intros e He; unfold ensure, len in He; by rewrite Hd in He].
    intros _ _. apply cwp_bind, cwp_store, (ewp_delete env CE_Storage _ env_frame); [capture_key|]. intros v2 Hf2.
    apply cwp_ret. eexists. split; [done|]. apply (drained_one record d); [done|by left|]. fold key.
    assert (capture_frame v v2) as Hf by (etrans; eassumption). eapply frame_change; [exact Hf|]. split_and!.
    + by rewrite lookup_delete_eq.
    + rewrite lookup_delete_ne by other_ns. by rewrite (frame_tombstone _ _ _ Hf).
    + intros ns k' Hns Hne. by rewrite lookup_delete_ne by congruence.
  - eapply cwp_mono; [|apply deliver_spec; by rewrite (frame_pending _ _ _ Hf1)].
    intros r c' v' (answer & sink & Ea & -> & Hr'). destruct (Hacc (wc_sink c) record) as (d & k' & Ea' & Hd).
    rewrite Ea' in Ea. injection Ea as <- <-. destruct Hr' as [-> Hch]. eexists. split; [done|].
    apply (drained_one record d); [done|right; split_and!; [done..|by exists k']|]. eapply frame_change; [exact Hf1|exact Hch].
Qed.

(** A submission as the backends' event type has it. *)
Definition typed_capture (device_id : bytes) (generation nonce ntime : Z) (extra_nonce : bytes) (hash : Hash256)
    (received : Z) : Prop :=
  arr 32 device_id ∧ uint 64 generation ∧ uint 32 nonce ∧ uint 64 ntime ∧ arr 24 extra_nonce ∧ arr 32 hash ∧ uint 64 received.
Definition typed_slots (c : coordinator) : Prop :=
  ∀ d slot lease job, c.(wc_backends) !! d = Some slot → slot.(bs_prepared) = Some (lease, job) →
    arr 32 lease.(wl_lease_id) ∧ arr 32 lease.(wl_assignment_id).

Lemma capture_record_ok lease d g n t x h r :
  typed_capture d g n t x h r → arr 32 lease.(wl_lease_id) → arr 32 lease.(wl_assignment_id) →
  ok_CaptureRecord DecodeLimits_default (capture_record lease d g n t x h r).
Proof.
  intros (? & ? & ? & ? & ? & ? & ?) ? ?. unfold ok_CaptureRecord, capture_record. cbn zeta.
  cbn [cr_version cr_capture_id cr_lease_id cr_assignment_id cr_device_id cr_generation cr_nonce cr_ntime cr_extra_nonce cr_raw_share_hash cr_received_at_ms].
  split; [unfold uint; by vm_compute|]. split; [apply domain_hash_length|]. do 9 (split; [assumption|]).
  unfold capture_valid. by rewrite bool_decide_eq_true_2.
Qed.

Lemma delivered_ok record c (v : View) r c' (v' : View) :
  (∀ k rec d k', admit_capture k rec = (Ok d, k') → length d = 32%nat) →
  captures_ok v → ok_CaptureRecord DecodeLimits_default record →
  delivered record (to_canonical_bytes record) c v r c' v' → captures_ok v'.
Proof.
  intros Hsink Hok Hrec (answer & sink & Ea & _ & Hr). destruct answer as [d|e]; destruct Hr as [_ Hch].
  - eapply captures_ok_change; [exact Hok|exact Hch|done|]. intros y [= <-]. by eapply Hsink.
  - eapply captures_ok_change; [exact Hok|exact Hch| |].
    + intros y [= <-]. right. by exists record.
    + intros y Hy. by eapply (proj2 Hok).
Qed.

(** C6: a capture is acknowledged only as valid work that the consumer has.
    Whatever a device submits, among other writers of the store, the coordinator's answer
    is one of four: a rejection, a telemetry share or a known capture, which leave the
    captures and the consumer alone; or a delivery of a record of the active lease of
    that device, whose hash is that of the prepared header and meets the capture target. A
    delivery the consumer answers leaves its tombstone and no pending record; one it refuses
    leaves the record pending. Captures stay canonical, and once a capture is acknowledged
    the same work, whenever it comes again, reaches neither the consumer nor the captures. *)
Theorem capture_acknowledgement_sound device_id generation nonce ntime x hash received (c : coordinator) (v : View) :
  (∀ k rec d k', admit_capture k rec = (Ok d, k') → length d = 32%nat) →
  captures_ok v → typed_slots c → typed_capture device_id generation nonce ntime x hash received →
  cwp (process_capture env device_id generation nonce ntime x hash received) c v (λ r c' v',
    captures_ok v' ∧ capture_step device_id generation nonce ntime x hash received c v r c' v' ∧
    ((∃ id d, r = Ok (DurablyAdmitted id d)) → ∀ received',
      cwp (process_capture env device_id generation nonce ntime x hash received') c' v' (λ _ c'' v'',
        c'' = c' ∧ capture_frame v' v''))).
Proof.
  intros Hsink Hok Hslots Htyped. eapply cwp_mono; [|apply process_capture_steps].
  intros r c' v' Hstep. split_and!; [|done|].
  - destruct Hstep as [e v' _ Hf|slot lease job v' _ _ _ _ _ Hf|slot lease job v' _ _ _ _ _ _ Hf|slot lease job r c' v' Hs _ Hp _ _ record _ Hd];
      [by eapply captures_frame_ok..|].
    destruct (Hslots _ _ _ _ Hs Hp). eapply delivered_ok; [done|done| |done]. by apply capture_record_ok.
  - intros (id & d & ->) received'. eapply cwp_mono; [|apply process_capture_steps].
    inversion Hstep as [| | |slot lease job r' c1 v1 Hs _ Hp _ _ record _ (answer & sink & _ & -> & Hr)]; subst.
    destruct answer as [d'|e]; [|by destruct Hr]. destruct Hr as [_ (_ & Ht & _)].
    intros r c'' v'' Hagain. destruct Hagain as [| | |slot' lease' job' r2 c2 v2 Hs' _ Hp' _ _ record' Hnone _]; [done..|].
    exfalso. cbn [set_sink wc_backends] in Hs'. rewrite Hs in Hs'. injection Hs' as <-. rewrite Hp in Hp'. injection Hp' as <- <-.
    unfold record' in Hnone. rewrite (capture_id_received _ _ _ _ _ _ _ _ received) in Hnone. fold record in Hnone.
    by rewrite Ht in Hnone.
Qed.

(** The hexadecimal text of a byte string has two digits per byte. *)
Hypothesis hex_length : ∀ bs, len (hex_encode bs) = 2 * len bs.

Definition retry_limits (maximum : Z) : ScanLimits := mkScanLimits maximum (4 * 1024) (saturating_mul 64 maximum (4 * 1024)).

Lemma captures_admissible maximum (v : View) :
  captures_ok v → 1 ≤ maximum → maximum * 4096 < 2 ^ 63 →
  page_limits_ok (retry_limits maximum) ∧ Forall (admissible (retry_limits maximum)) (namespace_entries v CAPTURE_NAMESPACE).
Proof.
  intros [Hok _] Hm1 Hm2. unfold retry_limits, saturating_mul. rewrite Z.min_l by lia. split; [split; cbn; lia|].
  apply Forall_forall. intros [k x] Hin%elem_of_namespace_entries.
  destruct (Hok _ _ Hin) as (r & Hr & -> & ->). pose proof (capture_size r Hr).
  unfold ok_CaptureRecord, arr in Hr. destruct_and! Hr. split; cbn [fst snd maximum_value_bytes maximum_total_bytes]; [lia|].
  rewrite hex_length. unfold len in *. lia.
Qed.

(** What remains of the pending captures after a page is delivered. *)
Lemma entries_rest (l1 l2 : list (bytes * bytes)) (v v' : View) :
  namespace_entries v CAPTURE_NAMESPACE = l1 ++ l2 →
  (∀ k, pending_at v' k = if decide (k ∈ l1.*1) then None else pending_at v k) →
  namespace_entries v' CAPTURE_NAMESPACE = l2.
Proof.
  intros El Hp. pose proof (namespace_entries_sorted v CAPTURE_NAMESPACE) as Hs. rewrite El in Hs.
  apply sorted_listing_unique; [apply namespace_entries_sorted|by apply StronglySorted_app in Hs as (_ & _ & ?)|].
  intros [k x]. rewrite elem_of_namespace_entries, Hp.
  assert (∀ y, (k, y) ∈ l2 → k ∉ l1.*1) as Hdisj.
  { intros y Hy (e & -> & He)%list_elem_of_fmap. apply StronglySorted_app in Hs as (Hs & _ & _).
    specialize (Hs _ _ He Hy). by apply (bytes_lt_irrefl e.1). }
  case_decide as Hk.
  - split; [done|]. intros Hx. by apply Hdisj in Hx.
  - rewrite <- elem_of_namespace_entries, El, elem_of_app. split; [|by right]. intros [Hx|?]; [|done]. destruct Hk. apply list_elem_of_fmap. by exists (k, x).
Qed.

Lemma retry_page (maximum : Z) (c : coordinator) (v : View) :
  sink_accepts → captures_ok v → 1 ≤ maximum → maximum * 4096 < 2 ^ 63 →
  cwp (retry_pending_captures env maximum) c v (λ r c' v', ∃ os l1 l2,
    r = Ok os ∧ namespace_entries v CAPTURE_NAMESPACE = l1 ++ l2 ∧ (l2 ≠ [] → l1 ≠ []) ∧
    namespace_entries v' CAPTURE_NAMESPACE = l2 ∧ drained l1 c v os c' v').
Proof.
  intros Hacc Hok Hm1 Hm2. unfold retry_pending_captures. rewrite (proj2 (Z.eqb_neq _ _)) by lia.
  fold (retry_limits maximum). apply cwp_bind, cwp_store.
  assert (∀ v1, capture_frame v v1 → captures_ok v1) as Hframe by (intros v1; by apply captures_frame_ok).
  apply (ewp_first_page env CE_Storage _ env_frame);
    [by vm_compute|by apply (captures_admissible maximum v)|intros v1 Hf; by apply (captures_admissible maximum v1), Hm2; [apply Hframe|]|].
  intros v1 l1 l2 Hf El Hne. specialize (Hframe v1 Hf). cbn [page_records].
  assert (namespace_entries v1 CAPTURE_NAMESPACE = namespace_entries v CAPTURE_NAMESPACE) as Ev.
  { apply sorted_listing_unique; [apply namespace_entries_sorted..|]. intros [k x].
    by rewrite !elem_of_namespace_entries, (frame_pending _ _ _ Hf). }
  pose proof (namespace_entries_sorted v1 CAPTURE_NAMESPACE) as Hs. rewrite El in Hs.
  eapply cwp_mono; [|apply (retry_loop_drains l1); [done..| |]].
  - intros r c' v' (os & -> & Hd). exists os, l1, l2. rewrite <- Ev. split_and!; try done.
    + eapply entries_rest; [exact El|]. by destruct Hd as (_ & _ & _ & _ & Hp & _).
    + by eapply drained_earlier.
  - apply StronglySorted_app_1_l in Hs. apply sorted_keys_nodup, Hs.
  - intros k x Hin. apply elem_of_namespace_entries. rewrite El. apply elem_of_app. by left.
Qed.

(** The operator's loop: retry [n] times. *)
Fixpoint retry_times (n : nat) (maximum : Z) : cm (B := B) (K := K) (S := S) (list CaptureOutcome) :=
  match n with
  | 0%nat => mret []
  | Datatypes.S n => os ← retry_pending_captures env maximum; os' ← retry_times n maximum; mret (os ++ os')
  end.

Lemma retry_times_drains maximum n (c : coordinator) (v : View) :
  sink_accepts → 1 ≤ maximum → maximum * 4096 < 2 ^ 63 →
  captures_ok v → (length (namespace_entries v CAPTURE_NAMESPACE) ≤ n)%nat →
  cwp (retry_times n maximum) c v (λ r c' v', ∃ os, r = Ok os ∧
    drained (namespace_entries v CAPTURE_NAMESPACE) c v os c' v').
Proof.
  intros Hacc Hm1 Hm2. revert c v. induction n as [|n IH]; intros c v Hok Hn; cbn [retry_times].
  - apply cwp_ret. exists []. destruct (namespace_entries v CAPTURE_NAMESPACE) eqn:E; [|cbn in Hn; lia].
    split; [done|]. by apply drained_nil.
  - apply cwp_bind. eapply cwp_mono; [|by apply retry_page].
    intros r c1 v1 (os & l1 & l2 & -> & El & Hne & El2 & Hd1).
    apply cwp_bind. eapply cwp_mono; [|apply (IH c1 v1)].
    + intros r c2 v2 (os' & -> & Hd2). apply cwp_ret. exists (os ++ os'). split; [done|].
      rewrite El2 in Hd2. rewrite El. eapply drained_app; [|exact Hd1|exact Hd2].
      rewrite <- El. apply sorted_keys_nodup, namespace_entries_sorted.
    + eapply drained_ok; [by apply sink_accepts_length|exact Hok|exact Hd1].
    + rewrite El, length_app in Hn. rewrite El2. destruct l2; [cbn; lia|]. destruct l1; [by destruct Hne|]. cbn in *. lia.
Qed.

(** C7: an accepted capture is never lost, and is delivered once. From any state of
    the store in which the pending captures are canonical records, with a consumer that
    takes what it is given, retrying as often as there are pending captures, in pages of
    any positive size, gives the consumer exactly the pending records that have no
    tombstone yet, each once and in key order ([handed]): the consumer ends in the state
    those calls lead to and nothing else of the coordinator changes, the outcome of each
    record is the consumer's own answer (or a repetition, for the ones it had answered
    before), that answer is the record's tombstone, no other tombstone changes, and
    nothing is left pending. *)
Theorem pending_captures_drain (maximum : Z) (c : coordinator) (v : View) :
  sink_accepts → captures_ok v → 1 ≤ maximum → maximum * 4096 < 2 ^ 63 →
  let pending := namespace_entries v CAPTURE_NAMESPACE in
  cwp (retry_times (length pending) maximum) c v (λ r c' v', ∃ os ts sink,
    r = Ok os ∧ length os = length pending ∧
    handed v pending c.(wc_sink) os ts sink ∧ c' = set_sink sink c ∧
    captures_ok v' ∧ (∀ k, pending_at v' k = None) ∧
    (∀ k, is_Some (pending_at v k) → ∃ d, (k, d) ∈ ts ∧ tombstone_at v' k = Some d) ∧
    ∀ k, pending_at v k = None → tombstone_at v' k = tombstone_at v k).
Proof.
  intros Hacc Hok Hm1 Hm2 pending. eapply cwp_mono; [|by apply retry_times_drains].
  intros r c' v' (os & -> & Hd). pose proof (drained_length _ _ _ _ _ _ Hd) as Hlen.
  pose proof (drained_ok _ _ _ _ _ _ (sink_accepts_length Hacc) Hok Hd) as Hok'.
  destruct Hd as (ts & sink & Hh & -> & Hp & Ht & Hf). fold pending in Hlen, Hh, Hp, Hf.
  assert (∀ k, k ∈ pending.*1 ↔ is_Some (pending_at v k)) as Hin.
  { intros k. rewrite list_elem_of_fmap. split.
    - intros ([k' x] & -> & Hx%elem_of_namespace_entries). by exists x.
    - intros [x Hx]. exists (k, x). split; [done|]. by apply elem_of_namespace_entries. }
  exists os, ts, sink. split_and!; try done.
  - intros k. rewrite Hp. case_decide as Hk; [done|]. apply eq_None_not_Some. by rewrite <- Hin.
  - intros k Hk%Hin. rewrite <- (handed_keys _ _ _ _ _ _ Hh) in Hk. apply list_elem_of_fmap in Hk as ([k' d] & -> & Hk).
    exists d. split; [done|by apply Ht].
  - intros k Hk. apply Hf. rewrite Hin, Hk. by intros [].
Qed.
End Captures.

(** ** A worked example *)

Module CoordinatorWitness.
#[local] Existing Instances toy_digests toy_digests_ok lower_hex_instance lower_hex_ok MemoryStore_laws.

Lemma lower_hex_length bs : len (hex_encode bs) = 2 * len bs.
Proof. change (len (lower_hex bs) = 2 * len bs). unfold len. induction bs as [|b bs IH]; [reflexivity|]. cbn -[nibble_char Z.mul] in *. unfold lower_hex in IH. lia. Qed.

Lemma alone_captures (n : nat) (s : MemoryStore) (v : View) :
  represents s v → ∃ v', represents (alone n s) v' ∧ capture_frame v v'.
Proof. intros Hrep. exists v. split; [exact Hrep|reflexivity]. Qed.

(** A device that is never spoken to. *)
#[local] Instance quiet_backend : MiningBackend DeviceCapabilities :=
  {| backend_capabilities d := d; prepare_job d _ := (Ok tt, d); activate_job d _ := (Ok tt, d);
     cancel_job d _ := (Ok tt, d); poll_events d := (Ok tt, [], d) |}.
Definition device : DeviceCapabilities :=
  mkDeviceCapabilities (replicate 32 x21) X86Cpu true true true false true true (replicate 32 x00) 1 4 None 0.
Definition lease : WorkLease :=
  mkWorkLease 1 (replicate 32 x11) (replicate 32 x12) 9 22 (replicate 32 x21) 0 (replicate 24 x00) (replicate 24 x00)
    100 131 3 (replicate 32 xff) (replicate 32 xff) 0 None true.
Definition job : PreparedDeviceJob :=
  mkPreparedDeviceJob 1 (replicate 32 x13) (replicate 32 x12) (replicate 32 x11) 22 (replicate 32 x01) (replicate 32 x02)
    (replicate 32 x03) (replicate 32 x04) (replicate 32 x05) 1 2 1000 (replicate 32 x06) (replicate 24 x00) (replicate 24 x00)
    100 131 3 (replicate 32 xff) (replicate 32 xff).
Definition hash : Hash256 := mh_share_hash (capture_header job 103 1000 (replicate 24 x00)).
Definition coordinator_with {K} (sink : K) : WorkCoordinator (B := DeviceCapabilities) (K := K) :=
  mkWorkCoordinator (mkPlannerLimits 2 4 250) sink
    {[ replicate 32 x21 := mkBackendSlot device device (Some (lease, job)) (Some 22) ]} (Some 22) CoordinatorLimits_default.
Abbreviation submit received := (process_capture alone (replicate 32 x21) 22 103 1000 (replicate 24 x00) hash received).
Definition record : CaptureRecord := capture_record lease (replicate 32 x21) 22 103 1000 (replicate 24 x00) hash 5.

Lemma submission_typed : typed_capture (replicate 32 x21) 22 103 1000 (replicate 24 x00) hash 5.
Proof. unfold typed_capture, arr, uint. split_and!; first [reflexivity | lia | apply blake2b_256_length]. Qed.
Lemma slots_typed {K} (sink : K) : typed_slots (coordinator_with sink).
Proof.
  intros d slot l j Hd Hs. cbn in Hd. apply lookup_singleton_Some in Hd as [_ <-]. cbn in Hs. injection Hs as <- <-.
  split; reflexivity.
Qed.
Lemma memory_sink_answers (k : MemoryCaptureSink) rec d k' : admit_capture k rec = (Ok d, k') → length d = 32%nat.
Proof.
  unfold admit_capture, MemoryCaptureSink_sink, memory_admit_capture. intros E.
  apply (f_equal (λ p, match p.1 with Ok d => length d | Err _ => 32%nat end)) in E. cbn [fst] in E.
  rewrite <- E. apply domain_hash_length.
Qed.
Lemma memory_sink_accepts : sink_accepts (K := MemoryCaptureSink).
Proof. intros k rec. eexists _, _. split; [reflexivity|apply domain_hash_length]. Qed.
Lemma record_ok : ok_CaptureRecord DecodeLimits_default record.
Proof. apply capture_record_ok; [exact submission_typed|reflexivity..]. Qed.

Lemma capture_acknowledgement_sound_witness :
  match (submit 5 (coordinator_with (∅ : MemoryCaptureSink), (0%nat, ∅ : MemoryStore))).1 with
  | Ok (DurablyAdmitted _ _) => True | _ => False end ∧
  cwp (S := MemoryStore) (submit 5) (coordinator_with (∅ : MemoryCaptureSink)) ∅ (λ r c' v', captures_ok v').
Proof.
  split; [vm_compute; exact I|].
  eapply cwp_mono; [|apply (capture_acknowledgement_sound alone alone_captures (replicate 32 x21) 22 103 1000
    (replicate 24 x00) hash 5 (coordinator_with (∅ : MemoryCaptureSink)) ∅)].
  - intros r c' v' [Hok _]. exact Hok.
  - exact memory_sink_answers.
  - split; intros k x Hx; rewrite lookup_empty in Hx; discriminate Hx.
  - apply slots_typed.
  - exact submission_typed.
Defined.

Definition one_pending : View := {[ (CAPTURE_NAMESPACE, hex_encode record.(cr_capture_id)) := to_canonical_bytes record ]}.
Lemma one_pending_ok : captures_ok one_pending.
Proof.
  unfold one_pending. split; intros k x Hx; apply lookup_singleton_Some in Hx as [Hk <-].
  - injection Hk as <-. exists record. split; [exact record_ok|split; reflexivity].
  - apply (f_equal fst) in Hk. vm_compute in Hk. discriminate Hk.
Qed.

Lemma pending_captures_drain_witness :
  is_Some (pending_at one_pending (hex_encode record.(cr_capture_id))) ∧
  cwp (retry_times alone (length (namespace_entries one_pending CAPTURE_NAMESPACE)) 1)
    (coordinator_with (∅ : MemoryCaptureSink)) one_pending
    (λ r c' v', pending_at v' (hex_encode record.(cr_capture_id)) = None ∧
       is_Some (tombstone_at v' (hex_encode record.(cr_capture_id))) ∧
       c'.(wc_sink) = {[ record.(cr_capture_id) := record ]}).
Proof.
  assert (is_Some (pending_at one_pending (hex_encode record.(cr_capture_id)))) as Hp.
  { exists (to_canonical_bytes record). apply lookup_singleton_eq. }
  split; [exact Hp|].
  assert (namespace_entries one_pending CAPTURE_NAMESPACE = [(hex_encode record.(cr_capture_id), to_canonical_bytes record)]) as Ee
    by (vm_compute; reflexivity).
  eapply cwp_mono; [|apply (pending_captures_drain alone alone_captures lower_hex_length 1
    (coordinator_with (∅ : MemoryCaptureSink)) one_pending memory_sink_accepts one_pending_ok); lia].
  intros r c' v' (os & ts & sink & _ & _ & Hh & -> & _ & Hnone & Htomb & _).
  split; [apply Hnone|]. split; [destruct (Htomb _ Hp) as (d & _ & ->); by exists d|].
  rewrite Ee in Hh. inversion Hh as [|rec x d l k os' ts' k' Hx Hd|rec x d l k k1 os' ts' k' Hx Hn Ha Hrest]; subst.
  - unfold one_pending in Hd. apply lookup_singleton_Some in Hd as [Hk _]. apply (f_equal fst) in Hk. vm_compute in Hk. discriminate Hk.
  - inversion Hrest; subst. injection Ha as _ <-.
    assert (Ok record = Ok rec) as [= <-] by (etrans; [symmetry; exact (decode_pending record record_ok)|exact Hx]).
    reflexivity.
Defined.

(** A consumer that is down. *)
#[local] Instance refusing_sink : CaptureSink unit := {| admit_capture k _ := (Err (str "down"), k) |}.

(** While a capture is pending, the same work received at another millisecond is
    answered as corruption of the store, and at the same millisecond as a delivery. *)
Lemma pending_repetition_corrupt :
  let '(r1, w) := submit 5 (coordinator_with tt, (0%nat, ∅ : MemoryStore)) in
  r1 = Err (Downstream (str "down")) ∧ (submit 5 w).1 = Err (Downstream (str "down")) ∧ (submit 6 w).1 = Err CorruptState.
Proof. vm_compute. split_and!; reflexivity. Qed.
End CoordinatorWitness.
