(* ===== verification/Gf256.v ===== *)
(** * Secret sharing over GF(2^8) (meshmine-mpc-api)

    The field arithmetic of the opening backend, Shamir's scheme over it, and
    the interpolation theory that makes it correct and secret. *)

From Stdlib Require Import Field.
From S2P Require Import Prelude Header.

(** ** Interpolation over a field *)

Section Interpolation.
Context {F : Type} `{!EqDecision F} (zero one : F) (add mul sub : F → F → F) (opp : F → F) (div : F → F → F) (inv : F → F).
Hypothesis fth : field_theory zero one add mul sub opp div inv eq.
Add Field interpolation_field : fth.
Local Infix "+" := add.
Local Infix "*" := mul.
Local Infix "-" := sub.
Local Infix "/" := div.
Local Notation "0" := zero.
Local Notation "1" := one.

(** Evaluation of a coefficient list. *)
Fixpoint peval (p : list F) (x : F) : F :=
  match p with
  | [] => 0
  | c :: p => c + x * peval p x
  end.

Fixpoint sum_over {A} (f : A → F) (l : list A) : F :=
  match l with [] => 0 | a :: l => f a + sum_over f l end.
Fixpoint prod_over {A} (f : A → F) (l : list A) : F :=
  match l with [] => 1 | a :: l => f a * prod_over f l end.

Lemma sub_nonzero a b : a ≠ b → a - b ≠ 0.
Proof. intros Hne E. apply Hne. replace a with ((a - b) + b) by ring. rewrite E. ring. Qed.

Lemma sum_over_ext {A} (f g : A → F) l : (∀ a, a ∈ l → f a = g a) → sum_over f l = sum_over g l.
Proof. induction l as [|a l IH]; intros Hfg; cbn; [done|]. rewrite Hfg, IH; [done|set_solver..]. Qed.
Lemma sum_over_linear {A} (f g : A → F) c d l :
  sum_over (λ a, c * f a + d * g a) l = c * sum_over f l + d * sum_over g l.
Proof. induction l as [|a l IH]; cbn; [ring|]. rewrite IH. ring. Qed.

(** The weight of the value at [x] when the polynomial through the nodes [xs]
    is evaluated at zero. *)
Definition weight (xs : list F) (x : F) : F := prod_over (λ x', x' / (x' - x)) (filter (λ x', x' ≠ x) xs).
Definition interpolate (xs : list F) (y : F → F) : F := sum_over (λ x, y x * weight xs x) xs.

Lemma weight_cons a xs x : x ≠ a → weight (a :: xs) x = a / (a - x) * weight xs x.
Proof. intros Hne. unfold weight. by rewrite filter_cons_True by congruence. Qed.
Lemma weight_self a xs : weight (a :: xs) a = weight xs a.
Proof. unfold weight. by rewrite filter_cons_False by tauto. Qed.
Lemma interpolate_cons a xs y :
  a ∉ xs → interpolate (a :: xs) y = y a * weight xs a + sum_over (λ x, y x * (a / (a - x) * weight xs x)) xs.
Proof.
  intros Ha. unfold interpolate. cbn [sum_over]. rewrite weight_self. f_equal. apply sum_over_ext. intros x Hx.
  rewrite weight_cons; [done|set_solver].
Qed.

Lemma interpolate_step a b xs y :
  a ≠ b → a ∉ xs → b ∉ xs →
  (b - a) * interpolate (a :: b :: xs) y = b * interpolate (a :: xs) y - a * interpolate (b :: xs) y.
Proof.
  intros Hab Ha Hb. rewrite (interpolate_cons a (b :: xs)) by set_solver.
  rewrite !interpolate_cons by done. cbn [sum_over]. rewrite weight_cons, weight_self by done.
  rewrite (sum_over_ext _ (λ x, (b / (b - a)) * (y x * (a / (a - x) * weight xs x))
    + (opp a / (b - a)) * (y x * (b / (b - x) * weight xs x)))).
  2: { intros x Hx. rewrite weight_cons by set_solver. field. split_and!; apply sub_nonzero; set_solver. }
  rewrite sum_over_linear. field. split; apply sub_nonzero; congruence.
Qed.

Lemma interpolate_one xs : xs ≠ [] → NoDup xs → interpolate xs (λ _, 1) = 1.
Proof.
  remember (length xs) as n eqn:Hn. revert xs Hn. induction n as [|n IH]; intros [|a [|b xs]] Hn Hne Hnd; try done.
  - unfold interpolate, weight. cbn. rewrite decide_False by tauto. cbn. ring.
  - apply NoDup_cons in Hnd as [Ha Hnd]. apply NoDup_cons in Hnd as [Hb Hnd].
    assert (b - a ≠ 0) as Hba by (apply sub_nonzero; set_solver). cbn in Hn.
    assert ((b - a) * interpolate (a :: b :: xs) (λ _, 1) = (b - a) * 1) as E.
    { rewrite interpolate_step by set_solver. rewrite !IH; [ring|by cbn; lia|done|..].
      all: try (apply NoDup_cons; set_solver). all: cbn; try lia; done. }
    assert (∀ u w, (b - a) * u = (b - a) * w → u = w) as Hcancel; [|by apply Hcancel].
    intros u w Huw. replace u with ((b - a) * u / (b - a)) by (field; done). rewrite Huw. field. done.
Qed.

(** Division by [X - a]. *)
Fixpoint quotient (a : F) (p : list F) : list F :=
  match p with
  | [] => []
  | c :: p => match p with [] => [] | _ => peval p a :: quotient a p end
  end.
Lemma quotient_length a p : length (quotient a p) = Nat.pred (length p).
Proof. induction p as [|c [|d p] IH]; [done..|]. cbn [quotient length] in *. rewrite IH. done. Qed.
Lemma quotient_eval a p x : peval p x = peval p a + (x - a) * peval (quotient a p) x.
Proof.
  induction p as [|c [|d p] IH]; [cbn; ring..|].
  change (peval (c :: d :: p) x) with (c + x * peval (d :: p) x). rewrite IH.
  change (quotient a (c :: d :: p)) with (peval (d :: p) a :: quotient a (d :: p)).
  change (peval (c :: d :: p) a) with (c + a * peval (d :: p) a).
  cbn [peval]. ring.
Qed.

(** Interpolation recovers the constant term. *)
Lemma interpolate_correct xs p : NoDup xs → (length p ≤ length xs)%nat → interpolate xs (peval p) = peval p 0.
Proof.
  revert p. induction xs as [|a xs IH]; intros p Hnd Hlen.
  { destruct p; [done|cbn in Hlen; lia]. }
  pose proof (interpolate_one (a :: xs) ltac:(done) Hnd) as H1. apply NoDup_cons in Hnd as [Ha Hnd].
  rewrite interpolate_cons in * by done.
  rewrite (sum_over_ext _ (λ x, peval p a * (1 * (a / (a - x) * weight xs x))
    + opp a * (peval (quotient a p) x * weight xs x))).
  2: { intros x Hx. rewrite (quotient_eval a p x). field. apply sub_nonzero. set_solver. }
  rewrite sum_over_linear. fold (interpolate xs (peval (quotient a p))).
  rewrite IH; [|done|rewrite quotient_length; cbn in Hlen; lia].
  rewrite (quotient_eval a p 0).
  transitivity (peval p a * (1 * weight xs a + sum_over (λ x, 1 * (a / (a - x) * weight xs x)) xs)
    + opp a * peval (quotient a p) 0); [ring|]. rewrite H1. ring.
Qed.

(** ** Uniqueness and existence *)

Definition zeros (p : list F) : Prop := Forall (eq 0) p.
Lemma peval_zeros p x : zeros p → peval p x = 0.
Proof. induction 1 as [|c p <- _ IH]; cbn; [done|]. rewrite IH. ring. Qed.
Lemma quotient_zeros a c p : zeros (quotient a (c :: p)) → zeros p.
Proof.
  revert c. induction p as [|d p IH]; intros c Hz; [constructor|].
  change (quotient a (c :: d :: p)) with (peval (d :: p) a :: quotient a (d :: p)) in Hz.
  inversion Hz as [|? ? Hd Hq]; subst. pose proof (IH d Hq) as Hp. constructor; [|done].
  rewrite Hd. cbn [peval]. rewrite (peval_zeros p a Hp). ring.
Qed.

Lemma mul_cancel a b : a ≠ 0 → a * b = 0 → b = 0.
Proof. intros Ha E. replace b with (a * b / a) by (field; done). rewrite E. field. done. Qed.

Lemma roots_zero xs p : NoDup xs → (length p ≤ length xs)%nat → (∀ x, x ∈ xs → peval p x = 0) → zeros p.
Proof.
  revert p. induction xs as [|a xs IH]; intros p Hnd Hlen Hr.
  { destruct p; [constructor|cbn in Hlen; lia]. }
  apply NoDup_cons in Hnd as [Ha Hnd]. destruct p as [|c p]; [constructor|].
  assert (peval (c :: p) a = 0) as Hpa by (apply Hr; left).
  assert (zeros (quotient a (c :: p))) as Hq.
  { apply IH; [done|rewrite quotient_length; cbn in *; lia|]. intros x Hx.
    apply (mul_cancel (x - a)); [apply sub_nonzero; set_solver|].
    assert (peval (c :: p) x = 0) as Hpx by (apply Hr; by right).
    rewrite (quotient_eval a), Hpa in Hpx. rewrite <- Hpx. ring. }
  apply quotient_zeros in Hq. constructor; [|done]. rewrite <- Hpa. cbn [peval]. rewrite (peval_zeros p a Hq). ring.
Qed.

Lemma peval_sub p q x : length p = length q → peval (zip_with sub p q) x = peval p x - peval q x.
Proof.
  revert q. induction p as [|c p IH]; intros [|d q] Hl; cbn in *; try done; [ring|]. rewrite IH by lia. ring.
Qed.
Lemma interpolation_unique xs p q :
  NoDup xs → length p = length xs → length q = length xs → (∀ x, x ∈ xs → peval p x = peval q x) → p = q.
Proof.
  intros Hnd Hp Hq Heq. assert (zeros (zip_with sub p q)) as Hz.
  { apply (roots_zero xs); [done|rewrite length_zip_with; lia|]. intros x Hx.
    rewrite peval_sub, Heq by (lia || done). ring. }
  assert (length p = length q) as Hl by lia. clear -Hz Hl fth. revert q Hl Hz.
  induction p as [|c p IH]; intros [|d q] Hl Hz; try done. cbn in *. inversion Hz as [|? ? Hd Hz']; subst.
  f_equal; [|apply IH; [lia|done]]. replace c with ((c - d) + d) by ring. rewrite <- Hd. ring.
Qed.

(** Multiplication by [X - a]. *)
Definition times_root (a : F) (p : list F) : list F := zip_with sub (0 :: p) (mul a <$> (p ++ [0])).
Lemma peval_snoc_zero p x : peval (p ++ [0]) x = peval p x.
Proof. induction p as [|c p IH]; cbn; [ring|]. by rewrite IH. Qed.
Lemma peval_scale a p x : peval (mul a <$> p) x = a * peval p x.
Proof. induction p as [|c p IH]; cbn; [ring|]. rewrite IH. ring. Qed.
Lemma times_root_eval a p x : peval (times_root a p) x = (x - a) * peval p x.
Proof.
  unfold times_root. rewrite peval_sub by (rewrite length_fmap, length_app; cbn; lia).
  rewrite peval_scale, peval_snoc_zero. cbn [peval]. ring.
Qed.
Lemma times_root_length a p : length (times_root a p) = S (length p).
Proof. unfold times_root. rewrite length_zip_with, length_fmap, length_app. cbn [length]. lia. Qed.

Lemma interpolation_exists xs (y : F → F) : NoDup xs → ∃ p, length p = length xs ∧ ∀ x, x ∈ xs → peval p x = y x.
Proof.
  revert y. induction xs as [|a xs IH]; intros y Hnd.
  { exists []. split; [done|]. intros x Hx. by apply not_elem_of_nil in Hx. }
  apply NoDup_cons in Hnd as [Ha Hnd]. destruct (IH (λ x, (y x - y a) / (x - a)) Hnd) as (q & Hq & Hv).
  destruct (times_root a q) as [|c p] eqn:Ep; [by pose proof (times_root_length a q) as Hl; rewrite Ep in Hl|].
  exists (c + y a :: p). split; [pose proof (times_root_length a q) as Hl; rewrite Ep in Hl; cbn in *; lia|].
  assert (∀ x, peval (c + y a :: p) x = y a + (x - a) * peval q x) as Hx.
  { intros x. rewrite <- times_root_eval, Ep. cbn [peval]. ring. }
  intros x [->|Hin]%elem_of_cons; rewrite Hx; [ring|]. rewrite Hv by done. field. apply sub_nonzero. set_solver.
Qed.
End Interpolation.

(** ** The field of bytes *)

(** [while right != 0]: a byte has eight bits. *)
Fixpoint gf_mul_loop (fuel : nat) (left right product : Z) : Z :=
  match fuel with
  | O => product
  | S fuel =>
      if right =? 0 then product
      else
        let product := if negb (Z.land right 1 =? 0) then Z.lxor product left else product in
        let high := Z.land left 0x80 in
        let left := Z.land (Z.shiftl left 1) 0xff in
        let left := if negb (high =? 0) then Z.lxor left 0x1b else left in
        gf_mul_loop fuel left (Z.shiftr right 1) product
  end.
Definition gf_mul (left right : byte) : byte := z2b (gf_mul_loop 8 (b2z left) (b2z right) 0).

Fixpoint gf_pow_loop (fuel : nat) (value : byte) (exponent : Z) (result : byte) : byte :=
  match fuel with
  | O => result
  | S fuel =>
      if exponent =? 0 then result
      else
        let result := if negb (Z.land exponent 1 =? 0) then gf_mul result value else result in
        gf_pow_loop fuel (gf_mul value value) (Z.shiftr exponent 1) result
  end.
Definition gf_pow (value exponent : byte) : byte := gf_pow_loop 8 value (b2z exponent) x01.
Definition gf_div (numerator denominator : byte) : byte := gf_mul numerator (gf_pow denominator xfe).

Definition gf_eval (coefficients : bytes) (x : byte) : byte :=
  foldl (λ value coefficient, byte_xor (gf_mul value x) coefficient) x00 (reverse coefficients).

(** *** The laws *)

Definition all_bytes : bytes := z2b <$> seqZ 0 256.
Lemma all_bytes_all b : b ∈ all_bytes.
Proof. apply list_elem_of_fmap. exists (b2z b). split; [by rewrite z2b_b2z|]. apply elem_of_seqZ. pose proof (b2z_range b). lia. Qed.
Lemma forall_bytes (P : byte → bool) : forallb P all_bytes = true → ∀ b, P b = true.
Proof. intros HP b. rewrite forallb_forall in HP. apply HP, list_elem_of_In, all_bytes_all. Qed.
Lemma forall_bytes_2 (P : byte → byte → bool) :
  forallb (λ a, forallb (P a) all_bytes) all_bytes = true → ∀ a b, P a b = true.
Proof. intros HP a b. by apply forall_bytes, (forall_bytes _ HP). Qed.

(** Every loop ends within its eight rounds. *)
Lemma gf_mul_loop_enough fuel l r p : 0 ≤ r < 2 ^ Z.of_nat fuel → gf_mul_loop (S fuel) l r p = gf_mul_loop fuel l r p.
Proof.
  revert l r p. induction fuel as [|fuel IH]; intros l r p Hr.
  - cbn in Hr. by replace r with 0 by lia.
  - change (gf_mul_loop (S (S fuel)) l r p) with
      (if r =? 0 then p else gf_mul_loop (S fuel)
        (let left := Z.land (Z.shiftl l 1) 0xff in if negb (Z.land l 0x80 =? 0) then Z.lxor left 0x1b else left)
        (Z.shiftr r 1) (if negb (Z.land r 1 =? 0) then Z.lxor p l else p)).
    rewrite IH; [done|]. rewrite Z.shiftr_div_pow2 by lia. rewrite Nat2Z.inj_succ, Z.pow_succ_r in Hr by lia.
    split; [apply Z.div_pos; lia|apply Z.div_lt_upper_bound; lia].
Qed.

Lemma byte_xor_comm a b : byte_xor a b = byte_xor b a.
Proof. unfold byte_xor. by rewrite Z.lxor_comm. Qed.
Lemma b2z_byte_xor a b : b2z (byte_xor a b) = Z.lxor (b2z a) (b2z b).
Proof.
  unfold byte_xor. rewrite b2z_z2b. apply Z.mod_small, (lxor_range 8); [lia|apply b2z_range..].
Qed.
Lemma byte_xor_assoc a b c : byte_xor a (byte_xor b c) = byte_xor (byte_xor a b) c.
Proof. apply b2z_inj. by rewrite !b2z_byte_xor, Z.lxor_assoc. Qed.
Lemma byte_xor_0 a : byte_xor x00 a = a.
Proof. apply b2z_inj. rewrite b2z_byte_xor. change (b2z x00) with 0. apply Z.lxor_0_l. Qed.
Lemma byte_xor_self a : byte_xor a a = x00.
Proof. apply b2z_inj. rewrite b2z_byte_xor. apply Z.lxor_nilpotent. Qed.

(** Powers of the generator 3 and their logarithms. *)
Definition gf_powers : bytes := Nat.iter 255 (λ l, match l with b :: _ => gf_mul b x03 :: l | [] => [x01] end) [].
Definition gf_table : gmap Z byte := list_to_map (zip (seqZ 0 255) (reverse gf_powers)).
Definition gf_exp (z : Z) : byte := default x00 (gf_table !! (z mod 255)).
Definition gf_logs : gmap Z Z := list_to_map (zip (b2z <$> reverse gf_powers) (seqZ 0 255)).
Definition gf_log (b : byte) : Z := default 0 (gf_logs !! b2z b).

Definition beq (a b : byte) : bool := b2z a =? b2z b.
Lemma beq_true a b : beq a b = true → a = b.
Proof. intros E%Z.eqb_eq. by apply b2z_inj. Qed.

Lemma gf_log_exp b : b ≠ x00 → gf_exp (gf_log b) = b.
Proof.
  intros Hb. pose proof (forall_bytes (λ b, beq b x00 || beq (gf_exp (gf_log b)) b) ltac:(vm_compute; reflexivity) b) as Hc.
  apply orb_true_iff in Hc as [?%beq_true|Hc]; [done|by apply beq_true].
Qed.
Lemma gf_mul_log a b : a ≠ x00 → b ≠ x00 → gf_mul a b = gf_exp (gf_log a + gf_log b).
Proof.
  intros Ha Hb. pose proof (forall_bytes_2 (λ a b, beq a x00 || beq b x00 || beq (gf_mul a b) (gf_exp (gf_log a + gf_log b)))
    ltac:(vm_compute; reflexivity) a b) as Hc.
  rewrite !orb_true_iff in Hc. destruct Hc as [[?%beq_true|?%beq_true]|?%beq_true]; done.
Qed.

Lemma gf_exp_mod z : gf_exp (z mod 255) = gf_exp z.
Proof. unfold gf_exp. by rewrite Z.mod_mod. Qed.
Lemma gf_exp_spec z : gf_exp z ≠ x00 ∧ gf_log (gf_exp z) = z mod 255.
Proof.
  rewrite <- gf_exp_mod. assert (forallb (λ z, negb (beq (gf_exp z) x00) && (gf_log (gf_exp z) =? z)) (seqZ 0 255) = true) as Hc
    by (vm_compute; reflexivity).
  rewrite forallb_forall in Hc. specialize (Hc (z mod 255)). rewrite andb_true_iff, negb_true_iff, Z.eqb_eq in Hc.
  destruct Hc as [Hc Hl]; [apply list_elem_of_In, elem_of_seqZ; apply Z.mod_pos_bound; lia|].
  split; [|exact Hl]. intros E. rewrite E in Hc. discriminate Hc.
Qed.
Lemma gf_exp_congr y z : y mod 255 = z mod 255 → gf_exp y = gf_exp z.
Proof. intros E. unfold gf_exp. by rewrite E. Qed.
#[global] Opaque gf_exp gf_log.

Lemma gf_mul_0_l a : gf_mul x00 a = x00.
Proof. apply beq_true. revert a. apply forall_bytes. vm_compute. reflexivity. Qed.
Lemma gf_mul_0_r a : gf_mul a x00 = x00.
Proof. done. Qed.
Lemma gf_mul_1_l a : gf_mul x01 a = a.
Proof. apply beq_true. revert a. apply forall_bytes. vm_compute. reflexivity. Qed.
Lemma gf_mul_comm a b : gf_mul a b = gf_mul b a.
Proof.
  destruct (decide (a = x00)) as [->|Ha]; [by rewrite gf_mul_0_l|].
  destruct (decide (b = x00)) as [->|Hb]; [by rewrite gf_mul_0_l|]. by rewrite !gf_mul_log, Z.add_comm.
Qed.
Lemma gf_mul_assoc a b c : gf_mul a (gf_mul b c) = gf_mul (gf_mul a b) c.
Proof.
  destruct (decide (a = x00)) as [->|Ha]; [by rewrite !gf_mul_0_l|].
  destruct (decide (b = x00)) as [->|Hb]; [by rewrite gf_mul_0_l, !gf_mul_0_r, gf_mul_0_l|].
  destruct (decide (c = x00)) as [->|Hc]; [done|].
  rewrite (gf_mul_log a b), (gf_mul_log b c) by assumption.
  rewrite !gf_mul_log by first [assumption | apply gf_exp_spec].
  rewrite (proj2 (gf_exp_spec (gf_log a + gf_log b))), (proj2 (gf_exp_spec (gf_log b + gf_log c))).
  apply gf_exp_congr. rewrite Z.add_mod_idemp_l, Z.add_mod_idemp_r by lia. by rewrite Z.add_assoc.
Qed.
Lemma gf_inverse a : a ≠ x00 → gf_mul (gf_pow a xfe) a = x01.
Proof.
  intros Ha. pose proof (forall_bytes (λ a, beq a x00 || beq (gf_mul (gf_pow a xfe) a) x01) ltac:(vm_compute; reflexivity) a) as Hc.
  apply orb_true_iff in Hc as [?%beq_true|?%beq_true]; done.
Qed.

Definition xtime (left : Z) : Z :=
  let high := Z.land left 0x80 in
  let left := Z.land (Z.shiftl left 1) 0xff in
  if negb (high =? 0) then Z.lxor left 0x1b else left.
Lemma xtime_linear a b : uint 8 a → uint 8 b → uint 8 (xtime a) ∧ xtime (Z.lxor a b) = Z.lxor (xtime a) (xtime b).
Proof.
  assert (forallb (λ a, forallb (λ b, (0 <=? xtime a) && (xtime a <? 256)
    && (xtime (Z.lxor a b) =? Z.lxor (xtime a) (xtime b))) (seqZ 0 256)) (seqZ 0 256) = true) as Hc by (vm_compute; reflexivity).
  intros Ha Hb. rewrite forallb_forall in Hc. specialize (Hc a). rewrite forallb_forall in Hc.
  specialize (Hc ltac:(by apply list_elem_of_In, elem_of_seqZ) b ltac:(by apply list_elem_of_In, elem_of_seqZ)).
  rewrite !andb_true_iff, Z.leb_le, Z.ltb_lt, Z.eqb_eq in Hc. unfold uint. change (2 ^ 8) with 256. tauto.
Qed.
Lemma gf_mul_loop_step fuel l r p :
  gf_mul_loop (S fuel) l r p =
  if r =? 0 then p else gf_mul_loop fuel (xtime l) (Z.shiftr r 1) (if negb (Z.land r 1 =? 0) then Z.lxor p l else p).
Proof. done. Qed.
Lemma gf_mul_loop_linear fuel a b r p q :
  uint 8 a → uint 8 b →
  gf_mul_loop fuel (Z.lxor a b) r (Z.lxor p q) = Z.lxor (gf_mul_loop fuel a r p) (gf_mul_loop fuel b r q).
Proof.
  revert a b r p q. induction fuel as [|fuel IH]; intros a b r p q Ha Hb; [done|].
  rewrite !gf_mul_loop_step. destruct (r =? 0); [done|]. destruct (xtime_linear a b Ha Hb) as [Hxa ->].
  destruct (xtime_linear b a Hb Ha) as [Hxb _].
  destruct (negb _); rewrite <- IH by done; f_equal. rewrite <- !Z.lxor_assoc. f_equal.
  rewrite !Z.lxor_assoc. f_equal. apply Z.lxor_comm.
Qed.
Lemma gf_mul_loop_range fuel l r p : uint 8 l → uint 8 p → uint 8 (gf_mul_loop fuel l r p).
Proof.
  revert l r p. induction fuel as [|fuel IH]; intros l r p Hl Hp; [done|]. rewrite gf_mul_loop_step.
  destruct (r =? 0); [done|]. apply IH; [by apply (xtime_linear l l)|]. destruct (negb _); [apply lxor_range; lia || done|done].
Qed.
Lemma gf_distr a b c : gf_mul (byte_xor a b) c = byte_xor (gf_mul a c) (gf_mul b c).
Proof.
  apply b2z_inj. rewrite b2z_byte_xor. unfold gf_mul. rewrite !b2z_z2b, b2z_byte_xor.
  assert (∀ x, uint 8 (b2z x)) as Hu by apply b2z_range. change 256 with (2 ^ 8).
  rewrite !Z.mod_small by (apply gf_mul_loop_range; [|done]; first [apply Hu | apply lxor_range; [lia|apply Hu..]]).
  rewrite <- gf_mul_loop_linear by apply Hu. done.
Qed.

(** The bytes with exclusive or and [gf_mul] are a field. *)
Lemma gf_field : field_theory x00 x01 byte_xor gf_mul byte_xor (λ a, a) gf_div (λ a, gf_pow a xfe) eq.
Proof.
  split; [split| | |].
  - apply byte_xor_0.
  - apply byte_xor_comm.
  - apply byte_xor_assoc.
  - apply gf_mul_1_l.
  - apply gf_mul_comm.
  - apply gf_mul_assoc.
  - apply gf_distr.
  - done.
  - apply byte_xor_self.
  - done.
  - done.
  - apply gf_inverse.
Qed.

(** ** Shamir's scheme *)

(** The random number generator ([RngCore], [SeedableRng]): a third-party
    stream cipher. *)
Class RngCore (R : Type) := {
  fill_bytes : nat → R → bytes * R;
  fill_bytes_length n r : length (fill_bytes n r).1 = n;
}.

Record OpeningShare := mkOpeningShare {
  os_session_binding : bytes;
  os_member_pubkey : bytes;
  os_x : byte;
  os_values : bytes;
  os_signature : bytes;
}.
#[export] Instance OpeningShare_eq_dec : EqDecision OpeningShare.
Proof. solve_decision. Defined.

Section Shamir.
Context {R : Type} `{!RngCore R}.

(** [coefficients] of every byte of the secret, drawn in order. *)
Fixpoint draw_coefficients (secret : bytes) (threshold : nat) (rng : R) : list bytes * R :=
  match secret with
  | [] => ([], rng)
  | secret_byte :: secret =>
      let '(random, rng) := fill_bytes (Nat.pred threshold) rng in
      let '(rest, rng) := draw_coefficients secret threshold rng in
      ((secret_byte :: random) :: rest, rng)
  end.
Definition shamir_split (secret : bytes) (threshold share_count : nat) (rng : R) : list bytes * R :=
  let '(coefficients, rng) := draw_coefficients secret threshold rng in
  ((λ x, (λ c, gf_eval c (z2b x)) <$> coefficients) <$> seqZ 1 (Z.of_nat share_count), rng).
End Shamir.

Definition lagrange_basis (xs : list byte) (index : nat) (x : byte) : byte :=
  foldl (λ basis '(other_index, other), if decide (index = other_index) then basis
    else gf_mul basis (gf_div other (byte_xor other x))) x01 (imap pair xs).
Definition reconstruct_byte (shares : list OpeningShare) (byte_index : nat) : byte :=
  foldl (λ value '(index, share),
    byte_xor value (gf_mul (nth byte_index share.(os_values) x00) (lagrange_basis (os_x <$> shares) index share.(os_x))))
    x00 (imap pair shares).
Definition shamir_reconstruct (shares : list OpeningShare) : bytes := reconstruct_byte shares <$> seq 0 32.

Abbreviation gpeval := (peval x00 byte_xor gf_mul).
Abbreviation gweight := (weight x01 gf_mul byte_xor gf_div).

Lemma gf_eval_peval c x : gf_eval c x = gpeval c x.
Proof.
  unfold gf_eval. induction c as [|a c IH]; [done|]. rewrite reverse_cons, foldl_app, IH. cbn.
  by rewrite gf_mul_comm, byte_xor_comm.
Qed.

Lemma basis_fold (xs : list byte) index k x acc :
  (∀ j y, xs !! j = Some y → (index = k + j)%nat ↔ y = x) →
  foldl (λ basis '(other_index, other), if decide (index = other_index) then basis
    else gf_mul basis (gf_div other (byte_xor other x))) acc (imap (λ j, pair (k + j)%nat) xs) =
  gf_mul acc (gweight xs x).
Proof.
  revert k acc. induction xs as [|y xs IH]; intros k acc Hx.
  { unfold weight. cbn. by rewrite gf_mul_comm, gf_mul_1_l. }
  rewrite imap_cons. cbn [foldl]. rewrite Nat.add_0_r.
  rewrite (imap_ext _ (λ j, pair (S k + j)%nat)) by (intros; cbn; f_equal; lia).
  rewrite IH by (intros j z Hj; rewrite <- (Hx (S j) z Hj); lia).
  pose proof (Hx 0%nat y eq_refl) as H0. rewrite Nat.add_0_r in H0.
  destruct (decide (index = k)) as [E|E].
  - apply H0 in E as ->. by rewrite weight_self.
  - rewrite weight_cons by (intros ->; apply E, H0; done). by rewrite gf_mul_assoc.
Qed.
Lemma lagrange_basis_weight xs index x : NoDup xs → xs !! index = Some x → lagrange_basis xs index x = gweight xs x.
Proof.
  intros Hnd Hi. unfold lagrange_basis. rewrite (imap_ext _ (λ j, pair (0 + j)%nat)) by done.
  rewrite basis_fold; [apply gf_mul_1_l|]. intros j y Hj. cbn. split; [congruence|].
  intros ->. by eapply NoDup_lookup.
Qed.

Lemma reconstruct_fold (shares : list OpeningShare) xs i k acc (y : byte → byte) :
  NoDup xs → (∀ j s, shares !! j = Some s → xs !! (k + j)%nat = Some s.(os_x) ∧ nth i s.(os_values) x00 = y s.(os_x)) →
  foldl (λ value '(index, share), byte_xor value (gf_mul (nth i share.(os_values) x00) (lagrange_basis xs index share.(os_x))))
    acc (imap (λ j, pair (k + j)%nat) shares) =
  byte_xor acc (sum_over x00 byte_xor (λ x, gf_mul (y x) (gweight xs x)) (os_x <$> shares)).
Proof.
  intros Hnd. revert k acc. induction shares as [|s shares IH]; intros k acc Hs.
  { cbn. by rewrite byte_xor_comm, byte_xor_0. }
  rewrite imap_cons. cbn [foldl fmap list_fmap sum_over]. rewrite Nat.add_0_r.
  rewrite (imap_ext _ (λ j, pair (S k + j)%nat)) by (intros; cbn; f_equal; lia).
  rewrite IH. 2: { intros j s' Hj. replace (S k + j)%nat with (k + S j)%nat by lia. by apply Hs. }
  destruct (Hs 0%nat s eq_refl) as [H0 ->]. rewrite Nat.add_0_r in H0.
  rewrite (lagrange_basis_weight _ _ _ Hnd H0). by rewrite byte_xor_assoc.
Qed.

(** Shares that lie on polynomials of length at most their number give back the
    constant terms. *)
Lemma reconstruct_correct (shares : list OpeningShare) (coefficients : list bytes) :
  NoDup (os_x <$> shares) → length coefficients = 32%nat →
  Forall (λ c, length c ≤ length shares)%nat coefficients →
  Forall (λ s, s.(os_values) = (λ c, gf_eval c s.(os_x)) <$> coefficients) shares →
  shamir_reconstruct shares = (λ c, gf_eval c x00) <$> coefficients.
Proof.
  intros Hnd Hlen Hc Hs. apply list_eq_same_length with 32%nat; [by rewrite length_fmap|done|].
  intros i v w Hi Hv Hw. unfold shamir_reconstruct in Hv. rewrite list_lookup_fmap, lookup_seq_lt in Hv by done.
  injection Hv as <-. rewrite list_lookup_fmap in Hw. apply fmap_Some in Hw as (c & Hci & ->).
  unfold reconstruct_byte. rewrite (imap_ext _ (λ j, pair (0 + j)%nat)) by done.
  rewrite (reconstruct_fold _ _ _ 0 _ (gf_eval c) Hnd).
  - rewrite byte_xor_0, gf_eval_peval. etrans; [|apply (interpolate_correct _ _ _ _ _ _ _ _ gf_field (os_x <$> shares) c Hnd)].
    + apply (sum_over_ext _ _ _ _ _ _ _ _ gf_field). intros x _. by rewrite gf_eval_peval.
    + rewrite length_fmap. by eapply (Forall_lookup_1 (λ c, length c ≤ length shares)%nat).
  - intros j s Hj. rewrite Nat.add_0_l, list_lookup_fmap, Hj. split; [done|]. eapply Forall_lookup_1 in Hs; [|exact Hj].
    rewrite Hs. erewrite nth_lookup_Some; [done|]. by rewrite list_lookup_fmap, Hci.
Qed.

(** *** Correctness and secrecy *)

Lemma gf_eval_zero c r : gf_eval (c :: r) x00 = c.
Proof. rewrite gf_eval_peval. cbn. by rewrite gf_mul_0_l, byte_xor_comm, byte_xor_0. Qed.

Section Schemes.
Context {R : Type} `{!RngCore R}.

Lemma draw_coefficients_spec secret threshold (rng : R) :
  let coefficients := (draw_coefficients secret threshold rng).1 in
  length coefficients = length secret ∧ Forall (λ c, length c = S (Nat.pred threshold)) coefficients ∧
  (λ c, gf_eval c x00) <$> coefficients = secret.
Proof.
  revert rng. induction secret as [|s secret IH]; intros rng; [by repeat constructor|]. cbn [draw_coefficients].
  pose proof (fill_bytes_length (Nat.pred threshold) rng) as Hl.
  destruct (fill_bytes _ rng) as [random rng1]. cbn in Hl. destruct (IH rng1) as (H1 & H2 & H3).
  destruct (draw_coefficients secret threshold rng1) as [rest rng2]. cbn [fst length fmap list_fmap] in *. split_and!.
  - by rewrite H1.
  - constructor; [cbn; by rewrite Hl|done].
  - by rewrite H3, gf_eval_zero.
Qed.

(** [share] is one of the shares of a split. *)
Definition share_of (split : list bytes) (share : OpeningShare) : Prop :=
  share.(os_x) ≠ x00 ∧ split !! Z.to_nat (b2z share.(os_x) - 1) = Some share.(os_values).

Lemma shamir_correct secret threshold count (rng : R) (shares : list OpeningShare) :
  length secret = 32%nat → (1 ≤ threshold)%nat → (count ≤ 255)%nat →
  Forall (share_of (shamir_split secret threshold count rng).1) shares →
  NoDup (os_x <$> shares) → (threshold ≤ length shares)%nat →
  shamir_reconstruct shares = secret.
Proof.
  intros Hlen Ht Hn Hs Hnd Hk. pose proof (draw_coefficients_spec secret threshold rng) as (H1 & H2 & H3).
  unfold shamir_split in Hs. destruct (draw_coefficients secret threshold rng) as [coefficients rng']. cbn [fst] in *.
  rewrite <- H3. apply reconstruct_correct; [done|lia| |].
  - eapply Forall_impl; [exact H2|]. cbn. intros c Hc. lia.
  - eapply Forall_impl; [exact Hs|]. intros s (Hx & Hv). rewrite list_lookup_fmap in Hv.
    apply fmap_Some in Hv as (x & Hx' & ->). apply lookup_seqZ in Hx' as [-> Hlt].
    assert (b2z (os_x s) ≠ 0) as H0 by (intros E; apply Hx, b2z_inj; rewrite E; done).
    pose proof (b2z_range (os_x s)). replace (1 + Z.of_nat (Z.to_nat (b2z (os_x s) - 1))) with (b2z (os_x s)) by lia.
    by rewrite z2b_b2z.
Qed.

(** Any [threshold] of the shares give the secret back. Whatever the random
    generator returns, every list of shares of a split with distinct abscissae, of
    which there are at least [threshold], in any order, reconstructs exactly the
    secret that was split. *)
Lemma shamir_roundtrip secret threshold count (rng : R) (shares : list OpeningShare) :
  length secret = 32%nat → (1 ≤ threshold)%nat → (count ≤ 255)%nat →
  Forall (share_of (shamir_split secret threshold count rng).1) shares →
  NoDup (os_x <$> shares) → (threshold ≤ length shares)%nat →
  shamir_reconstruct shares = secret.
Proof. apply shamir_correct. Qed.
End Schemes.

(** A generator that reads a given tape. *)
Definition tape_fill (n : nat) (tape : bytes) : bytes * bytes := (take n (tape ++ replicate n x00), drop n tape).
#[export] Program Instance tape_rng : RngCore bytes := {| fill_bytes := tape_fill |}.
Next Obligation. intros n r. cbn. rewrite length_take, length_app, length_replicate. lia. Qed.

(** The random coefficients of one byte are determined by the secret byte and
    the values at all but one of the nodes. *)
Lemma random_unique s xs (v : byte → byte) :
  NoDup xs → x00 ∉ xs → ∃ random, (length random = length xs ∧ ∀ x, x ∈ xs → gf_eval (s :: random) x = v x) ∧
    ∀ random', length random' = length xs → (∀ x, x ∈ xs → gf_eval (s :: random') x = v x) → random' = random.
Proof.
  intros Hnd H0. assert (NoDup (x00 :: xs)) as Hnd0 by (by apply NoDup_cons).
  destruct (interpolation_exists _ _ _ _ _ _ _ _ gf_field (x00 :: xs) (λ x, if decide (x = x00) then s else v x) Hnd0)
    as (p & Hp & Hv). destruct p as [|c random]; [done|].
  assert (c = s) as ->.
  { specialize (Hv x00 ltac:(left)). rewrite decide_True, <- gf_eval_peval, gf_eval_zero in Hv by done. done. }
  exists random. split; [split|].
  - cbn in Hp. lia.
  - intros x Hx. rewrite gf_eval_peval, Hv by (by right). rewrite decide_False; [done|congruence].
  - intros random' Hl Hv'. enough (s :: random' = s :: random) as E by congruence.
    apply (interpolation_unique _ _ _ _ _ _ _ _ gf_field (x00 :: xs)); [done|cbn; lia|done|].
    intros x [->|Hx]%elem_of_cons; rewrite <- !gf_eval_peval; [by rewrite !gf_eval_zero|].
    rewrite Hv' by done. rewrite gf_eval_peval, Hv by (by right). rewrite decide_False; [done|congruence].
Qed.

Lemma tape_split n (tape : bytes) : (n ≤ length tape)%nat → tape_fill n tape = (take n tape, drop n tape).
Proof. intros Hn. unfold tape_fill. by rewrite take_app_le. Qed.

Lemma coefficients_unique secret threshold xs (v : byte → bytes) :
  NoDup xs → x00 ∉ xs → length xs = Nat.pred threshold → (∀ x, x ∈ xs → length (v x) = length secret) →
  ∃ tape, (length tape = length secret * Nat.pred threshold ∧
      ∀ x, x ∈ xs → (λ c, gf_eval c x) <$> (draw_coefficients secret threshold tape).1 = v x)%nat ∧
    ∀ tape', (length tape' = length secret * Nat.pred threshold)%nat →
      (∀ x, x ∈ xs → (λ c, gf_eval c x) <$> (draw_coefficients secret threshold tape').1 = v x) → tape' = tape.
Proof.
  intros Hnd H0 Hxs. revert v. induction secret as [|s secret IH]; intros v Hv.
  { exists []. split; [|intros tape' ?%nil_length_inv; done]. split; [done|]. intros x Hx.
    cbn. specialize (Hv x Hx). by destruct (v x). }
  destruct (random_unique s xs (λ x, hd x00 (v x)) Hnd H0) as (random & [Hl Hr] & Hru).
  destruct (IH (λ x, tail (v x))) as (tape & [Htl Htr] & Htu).
  { intros x Hx. specialize (Hv x Hx). destruct (v x); cbn in *; [done|lia]. }
  assert (∀ tape', length tape' = (S (length secret) * Nat.pred threshold)%nat → ∀ x,
    (λ c, gf_eval c x) <$> (draw_coefficients (s :: secret) threshold tape').1 =
    gf_eval (s :: take (Nat.pred threshold) tape') x ::
      ((λ c, gf_eval c x) <$> (draw_coefficients secret threshold (drop (Nat.pred threshold) tape')).1)) as Hstep.
  { intros tape' Hl' x. cbn [draw_coefficients]. change (fill_bytes (Nat.pred threshold) tape') with (tape_fill (Nat.pred threshold) tape').
    rewrite tape_split by (cbn in Hl'; lia). by destruct (draw_coefficients secret threshold (drop (Nat.pred threshold) tape')). }
  exists (random ++ tape). split; [split|].
  - rewrite length_app, Hl, Htl, Hxs. cbn. lia.
  - intros x Hx. rewrite Hstep by (rewrite length_app, Hl, Htl, Hxs; cbn; lia).
    rewrite <- Hxs, <- Hl, take_app_length, drop_app_length. rewrite Hr, Htr by done.
    specialize (Hv x Hx). by destruct (v x).
  - intros tape' Hl' Hv'. rewrite <- (take_drop (Nat.pred threshold) tape'). f_equal.
    + apply Hru; [rewrite length_take, Hxs; cbn in Hl'; lia|]. intros x Hx. specialize (Hv' x Hx).
      rewrite Hstep in Hv' by done. by rewrite <- Hv'.
    + apply Htu; [rewrite length_drop; cbn in Hl'; lia|]. intros x Hx. specialize (Hv' x Hx).
      rewrite Hstep in Hv' by done. by rewrite <- Hv'.
Qed.

(** What the holders of the shares [xs] see. *)
Definition sees (secret : bytes) (threshold count : nat) (xs : list Z) (view : Z → bytes) (tape : bytes) : Prop :=
  length tape = (length secret * Nat.pred threshold)%nat ∧
  ∀ x, x ∈ xs → (shamir_split secret threshold count tape).1 !! Z.to_nat (x - 1) = Some (view x).

(** C4: fewer than [threshold] shares say nothing about the secret. For every
    secret and every content of [threshold - 1] shares there is exactly one
    choice of the random coefficients that produces it: with uniform coefficients,
    what that many members see has the same distribution whatever the secret is. *)
Theorem shamir_secrecy secret threshold count (xs : list Z) (view : Z → bytes) :
  (count ≤ 255)%nat → NoDup xs → Forall (λ x, 1 ≤ x ≤ Z.of_nat count) xs → length xs = Nat.pred threshold →
  (∀ x, x ∈ xs → length (view x) = length secret) →
  ∃ tape, sees secret threshold count xs view tape ∧
    ∀ tape', sees secret threshold count xs view tape' → tape' = tape.
Proof.
  intros Hn Hnd Hx Hl Hv. rewrite Forall_forall in Hx.
  assert (∀ x, x ∈ xs → b2z (z2b x) = x) as Hb.
  { intros x Hin. rewrite b2z_z2b. apply Z.mod_small. specialize (Hx x Hin). lia. }
  assert (∀ tape, sees secret threshold count xs view tape ↔
    length tape = (length secret * Nat.pred threshold)%nat ∧
    ∀ b, b ∈ z2b <$> xs → (λ c, gf_eval c b) <$> (draw_coefficients secret threshold tape).1 = view (b2z b)) as Hsees.
  { intros tape. unfold sees, shamir_split. destruct (draw_coefficients secret threshold tape) as [cs rng]. cbn [fst].
    apply and_iff_compat_l. split.
    - intros H b (x & -> & Hin)%list_elem_of_fmap. specialize (H x Hin). specialize (Hx x Hin).
      rewrite Hb by done. rewrite list_lookup_fmap, lookup_seqZ_lt in H by lia.
      replace (1 + Z.of_nat (Z.to_nat (x - 1))) with x in H by lia. by injection H.
    - intros H x Hin. specialize (Hx x Hin). rewrite list_lookup_fmap, lookup_seqZ_lt by lia.
      replace (1 + Z.of_nat (Z.to_nat (x - 1))) with x by lia. cbn [fmap option_fmap option_map]. f_equal.
      rewrite (H (z2b x)) by (apply list_elem_of_fmap; by exists x). by rewrite Hb. }
  destruct (coefficients_unique secret threshold (z2b <$> xs) (λ b, view (b2z b))) as (tape & Ht & Hu).
  - apply NoDup_fmap_2_strong; [|done]. intros x y Hx' Hy' E. rewrite <- (Hb x), <- (Hb y) by done. by rewrite E.
  - intros (x & E & Hin)%list_elem_of_fmap. specialize (Hx x Hin). apply (f_equal b2z) in E.
    rewrite Hb in E by done. change (b2z x00) with 0 in E. lia.
  - by rewrite length_fmap.
  - intros b (x & -> & Hin)%list_elem_of_fmap. rewrite Hb by done. by apply Hv.
  - exists tape. split; [by apply Hsees|]. intros tape' [? ?]%Hsees. by apply Hu.
Qed.

(** ** A worked example *)

Definition demo_secret : bytes := z2b <$> seqZ 40 32.
Definition demo_tape : bytes := z2b <$> seqZ 7 64.
Definition demo_share (x : byte) : OpeningShare :=
  mkOpeningShare [] [] x (default [] ((shamir_split demo_secret 3 5 demo_tape).1 !! Z.to_nat (b2z x - 1))) [].

Lemma shamir_roundtrip_witness :
  shamir_reconstruct [demo_share x05; demo_share x02; demo_share x04] = demo_secret ∧ demo_secret ≠ [].
Proof.
  split; [|discriminate].
  apply (shamir_roundtrip demo_secret 3 5 demo_tape [demo_share x05; demo_share x02; demo_share x04]).
  - reflexivity.
  - lia.
  - lia.
  - repeat constructor; try discriminate; vm_compute; reflexivity.
  - apply (bool_decide_unpack _). vm_compute. exact I.
  - cbn. lia.
Defined.
Lemma shamir_secrecy_witness :
  ∃ tape, sees demo_secret 3 5 [2; 5] (λ _, replicate 32 x77) tape.
Proof.
  destruct (shamir_secrecy demo_secret 3 5 [2; 5] (λ _, replicate 32 x77)) as (tape & Ht & _).
  - lia.
  - apply (bool_decide_unpack _). vm_compute. exact I.
  - repeat constructor; lia.
  - reflexivity.
  - reflexivity.
  - exists tape. exact Ht.
Defined.
