(* ===== verification/Mpc.v ===== *)
(** * Mask sessions and timed openings (crates/meshmine-mpc-api/src/lib.rs)

    The versioned boundary and the verifiable-secret-sharing backend: set-up of a
    mask session, timed opening, fast evaluation, early reveals, winner-triggered
    close and permanent retirement. The stream cipher of the set-up is the class
    [RngCore] with the seeding [SeedableRng]. *)

From S2P Require Import Prelude Codec Hash Types Objects Header Merkle Storage Journal Crypto Client Gf256.

Class SeedableRng (R : Type) := { from_seed : Hash256 → R }.

Definition MATERIAL_NAMESPACE : bytes := str "mask-opening-v2".
Definition SESSION_RESERVATION_NAMESPACE : bytes := str "mask-session-reservation-v2".
Definition RETIRED_SESSION_NAMESPACE : bytes := str "mask-session-retired-v2".
Definition PUBLIC_TRANSCRIPT_NAMESPACE : bytes := str "mask-public-transcript-v2".
Definition SHARE_COMMITMENT_DOMAIN : bytes := str "meshmine/opening-share-commitment/v2".
Definition SHARE_SIGNATURE_DOMAIN : bytes := str "meshmine/mask-opening-share/v2".
Definition SESSION_BINDING_DOMAIN : bytes := str "meshmine/mask-vss-session/v2".
Definition TRANSCRIPT_DOMAIN : bytes := str "meshmine/mask-vss-transcript/v2".
Definition VSS_RNG_DOMAIN : bytes := str "meshmine/mask-vss-rng/v2".

Record BackendSecurityProperties := mkBackendSecurityProperties {
  malicious_secure : bool;
  guaranteed_output_delivery : bool;
  identifiable_abort : bool;
  trusted_setup_coordinator : bool;
  bsp_production_eligible : bool;
}.
Definition security_properties : BackendSecurityProperties := mkBackendSecurityProperties false false true true false.

Record SetupRequest := mkSetupRequest {
  sr_protocol_version : Z;
  sr_network_id : Z;
  sr_lane_id : Z;
  sr_session_sequence : Z;
  sr_parent_hash : Hash256;
  sr_leading_zero_prefix_q : Z;
  sr_blind_band_bits_d : Z;
  sr_threshold : Z;
  sr_timed_open_after_ms : Z;
  sr_deterministic_seed : bytes;
}.
Record VssSetup := mkVssSetup {
  vs_session_binding : Hash256;
  vs_parent_hash : Hash256;
  vs_mask_hash : Hash256;
  vs_mask_commitment_root : Hash256;
  vs_transcript_root : Hash256;
  vs_leading_zero_prefix_q : Z;
  vs_blind_band_bits_d : Z;
  vs_threshold : Z;
  vs_timed_open_after_ms : Z;
  vs_members : list bytes;
  vs_share_commitments : list Hash256;
}.
Record OpenedMask := mkOpenedMask {
  om_mask : Hash256;
  om_opening_transcript_root : Hash256;
  om_valid_opening_members : list bytes;
}.
Record AcceptedShareHash := mkAcceptedShareHash { ash_share_id : Hash256; ash_raw_share_hash : Hash256 }.
Record TimestampedAcceptedShare := mkTimestampedAcceptedShare { tas_share : AcceptedShareHash; tas_accepted_at_ms : Z }.
Record EarlyRevealOutcome := mkEarlyRevealOutcome {
  er_first_observed_ms : Z;
  er_revealing_member : bytes;
  er_eligible_share_ids : list Hash256;
  er_ineligible_share_ids : list Hash256;
  er_winner_share_ids : list Hash256;
  er_assignments_stopped : bool;
  er_mask_permanently_retired : bool;
}.
Record WinnerTriggeredCloseOutcome := mkWinnerTriggeredCloseOutcome {
  wt_winning_share_id : Hash256;
  wt_deterministic_cutoff_ms : Z;
  wt_eligible_share_ids : list Hash256;
  wt_ineligible_share_ids : list Hash256;
  wt_opened : OpenedMask;
  wt_assignments_stopped : bool;
  wt_submissions_stopped_after_cutoff : bool;
  wt_block_reconstruction_required : bool;
  wt_session_restart_required : bool;
  wt_mask_permanently_retired : bool;
}.
Inductive FastEvalOutcome :=
| Losing (winner : bool) (transcript_root : Hash256)
| Winner (winner : bool) (opened : OpenedMask)
| FastAborted (transcript_root : Hash256).
Inductive SessionPhase :=
| MaskCommitted | Assigning | SubmissionGrace | ReceiptFinalizing | Opening | Opened | Closed | Aborted
| TimedRecovery | FailedThreshold.
Record TimedOpeningGate := mkTimedOpeningGate {
  tg_phase : SessionPhase;
  tg_timed_open_after_ms : Z;
  tg_accepted_boundary_fixed : bool;
}.
Inductive MpcError :=
| InvalidThreshold | InvalidMaskParameters | DuplicateMember | OpeningTooEarly | BoundaryNotFixed
| InvalidOpeningBinding | InvalidOpeningCommitment | InvalidOpeningSignature | InsufficientOpeningShares
| MaskHashMismatch | MaskConstraintViolation | MissingOpeningMaterial | SessionReuse | SessionRetired
| OpeningMaterialConflict | FastOutcomeNotWinner | WinnerShareNotEligible
| Mpc_Storage (e : StorageError)
| Mpc_Codec (e : CodecError).

Definition fix_receipt_boundary (g : TimedOpeningGate) : TimedOpeningGate :=
  mkTimedOpeningGate Opening g.(tg_timed_open_after_ms) true.
Definition abort_with_accepted_shares (g : TimedOpeningGate) : TimedOpeningGate :=
  mkTimedOpeningGate TimedRecovery g.(tg_timed_open_after_ms) g.(tg_accepted_boundary_fixed).

(** ** Mask bits *)

Definition get_bit (bs : Hash256) (bit : Z) : bool :=
  let shift := 7 - bit mod 8 in
  negb (Z.land (b2z (nth (Z.to_nat (bit / 8)) bs x00)) (Z.shiftl 1 shift) =? 0).
Definition set_bit (bs : Hash256) (bit : Z) (value : bool) : Hash256 :=
  let shift := 7 - bit mod 8 in
  let at_byte := Z.to_nat (bit / 8) in
  let old := b2z (nth at_byte bs x00) in
  if value then <[at_byte := z2b (Z.lor old (Z.shiftl 1 shift))]> bs
  else <[at_byte := z2b (Z.land old (Z.lxor 0xff (Z.shiftl 1 shift)))]> bs.
(** [a..b] *)
Definition range (a b : Z) : list Z := seqZ a (b - a).

Definition mask_parameters_valid (zero_prefix blind_bits : Z) : bool :=
  negb (zero_prefix =? 0) && (negb (blind_bits =? 0) || (zero_prefix =? 1))
  && match checked_add 16 zero_prefix blind_bits with Some blind_end => blind_end <=? 256 | None => false end.
Definition mask_constraints_valid (mask : Hash256) (zero_prefix blind_bits : Z) : bool :=
  if negb (mask_parameters_valid zero_prefix blind_bits) then false
  else
    match checked_add 16 zero_prefix blind_bits with
    | Some blind_end =>
        if negb (blind_end <=? 256) then false
        else
          forallb (λ bit, negb (get_bit mask bit)) (range 0 zero_prefix)
          && (if blind_bits =? 0 then existsb (get_bit mask) (range zero_prefix 256)
              else existsb (get_bit mask) (range zero_prefix blind_end))
    | None => false
    end.

Definition constrain (mask : Hash256) (zero_prefix : Z) : Hash256 :=
  foldl (λ mask bit, set_bit mask bit false) mask (range 0 zero_prefix).
(** [loop]: one draw of the generator per unit of fuel. *)
Fixpoint generate_constrained_mask {R} `{!RngCore R} (draws : nat) (rng : R) (zero_prefix blind_bits : Z) :
    option (Hash256 * R) :=
  match draws with
  | O => None
  | S draws =>
      let '(mask, rng) := fill_bytes 32 rng in
      let mask := constrain mask zero_prefix in
      let has_required_nonzero :=
        if blind_bits =? 0 then existsb (get_bit mask) (range zero_prefix 256)
        else existsb (get_bit mask) (range zero_prefix (zero_prefix + blind_bits)) in
      if has_required_nonzero then Some (mask, rng)
      else generate_constrained_mask draws rng zero_prefix blind_bits
  end.

(** ** Messages and keys *)

Section Messages.
Context `{Digests} `{!Hex}.

Definition session_binding_body (request : SetupRequest) (mask_hash : Hash256) (members : list bytes) : bytes :=
  into_bytes (
    enc_u16 request.(sr_protocol_version) >>>
    enc_u8 request.(sr_network_id) >>>
    enc_u16 request.(sr_lane_id) >>>
    enc_u64 request.(sr_session_sequence) >>>
    enc_fixed request.(sr_parent_hash) >>>
    enc_u16 request.(sr_leading_zero_prefix_q) >>>
    enc_u16 request.(sr_blind_band_bits_d) >>>
    enc_u8 request.(sr_threshold) >>>
    enc_u64 request.(sr_timed_open_after_ms) >>>
    enc_fixed mask_hash >>>
    enc_varint (len members) >>>
    enc_each enc_fixed members).
Definition session_binding (request : SetupRequest) (mask_hash : Hash256) (members : list bytes) : Hash256 :=
  domain_hash SESSION_BINDING_DOMAIN (session_binding_body request mask_hash members).

Definition opening_body (binding pubkey : bytes) (x : byte) (values : bytes) : bytes :=
  into_bytes (enc_fixed binding >>> enc_fixed pubkey >>> enc_u8 (b2z x) >>> enc_fixed values).
Definition opening_commitment (binding pubkey : bytes) (x : byte) (values : bytes) : Hash256 :=
  domain_hash SHARE_COMMITMENT_DOMAIN (opening_body binding pubkey x values).
Definition opening_message (binding pubkey : bytes) (x : byte) (values : bytes) : Hash256 :=
  domain_hash SHARE_SIGNATURE_DOMAIN (opening_body binding pubkey x values).
Definition share_commitment (s : OpeningShare) : Hash256 :=
  opening_commitment s.(os_session_binding) s.(os_member_pubkey) s.(os_x) s.(os_values).

Definition setup_transcript_root (binding mask_hash commitment_root : Hash256) (members : list bytes) : Hash256 :=
  domain_hash TRANSCRIPT_DOMAIN (into_bytes (
    enc_fixed binding >>> enc_fixed mask_hash >>> enc_fixed commitment_root >>> enc_each enc_fixed members)).
Definition fast_eval_transcript (setup : VssSetup) (raw_share_hash : Hash256) : Hash256 :=
  domain_hash (str "meshmine/fast-eval/v2")
    (into_bytes (enc_fixed setup.(vs_session_binding) >>> enc_fixed raw_share_hash)).
Definition vss_rng_seed (request : SetupRequest) : Hash256 :=
  domain_hash VSS_RNG_DOMAIN (into_bytes (
    enc_u16 request.(sr_protocol_version) >>>
    enc_u8 request.(sr_network_id) >>>
    enc_u16 request.(sr_lane_id) >>>
    enc_u64 request.(sr_session_sequence) >>>
    enc_fixed request.(sr_parent_hash) >>>
    enc_fixed request.(sr_deterministic_seed))).

Definition material_key (session member : bytes) : bytes := hex_encode session ++ str "/" ++ hex_encode member.
Definition logical_session_key (request : SetupRequest) : bytes :=
  format_u64 request.(sr_network_id) ++ str "/" ++ format_u64 request.(sr_lane_id) ++ str "/"
  ++ format_u64 request.(sr_session_sequence).
End Messages.

(** ** Opening shares on the wire *)

Definition write_opening_share (share : OpeningShare) : Writer :=
  enc_fixed share.(os_session_binding) >>>
  enc_fixed share.(os_member_pubkey) >>>
  enc_u8 (b2z share.(os_x)) >>>
  enc_fixed share.(os_values) >>>
  enc_bytes share.(os_signature).
Definition parse_opening_share : parser OpeningShare :=
  session_binding ← dec_array 32;
  member_pubkey ← dec_array 32;
  x ← dec_u8;
  values ← dec_array 32;
  signature ← dec_bytes_max 128;
  mret (mkOpeningShare session_binding member_pubkey (z2b x) values signature).
#[export] Instance OpeningShare_codec : Codec OpeningShare :=
  {| encode := write_opening_share; decode := parse_opening_share |}.

Definition encode_opening_share (share : OpeningShare) : bytes := to_canonical_bytes share.
Definition decode_opening_share (bs : bytes) : result MpcError OpeningShare :=
  map_err Mpc_Codec (from_canonical_bytes bs DecodeLimits_default).

Definition ok_opening_share (limits : DecodeLimits) (share : OpeningShare) : Prop :=
  arr 32 share.(os_session_binding) ∧ arr 32 share.(os_member_pubkey) ∧ arr 32 share.(os_values) ∧
  byte_count limits 128 (len share.(os_signature)).
#[export] Instance write_opening_share_appends o : Appends (write_opening_share o).
Proof. unfold write_opening_share. apply _. Qed.
Lemma reads_opening_share limits o : ok_opening_share limits o → reads limits parse_opening_share (write_opening_share o) o.
Proof.
  unfold ok_opening_share. intros (? & ? & ? & ?). assert (uint 8 (b2z o.(os_x))) by apply b2z_range.
  unfold parse_opening_share, write_opening_share. solve_reads. rewrite z2b_b2z. by destruct o.
Qed.
Lemma accepts_opening_share limits :
  accepts limits parse_opening_share (λ o bs, ok_opening_share limits o ∧ bs = write_opening_share o []).
Proof.
  unfold parse_opening_share. solve_accepts. split.
  - repeat (split; [done|]). done.
  - unfold write_opening_share. cbn [os_session_binding os_member_pubkey os_x os_values os_signature].
    rewrite b2z_z2b, Z.mod_small by done. by flatten_writers.
Qed.
#[export] Instance OpeningShare_codec_laws : CodecLaws OpeningShare := {|
  codec_ok := ok_opening_share; encode_appends := write_opening_share_appends;
  decode_encode := reads_opening_share; decode_sound := accepts_opening_share |}.

(** ** Openings *)

Definition pubkey_le (a b : bytes) : Prop := bytes_le a b.
#[export] Instance pubkey_le_dec : RelDecision pubkey_le.
Proof. intros a b. unfold pubkey_le. apply _. Defined.
Definition share_x_le (a b : OpeningShare) : Prop := b2z a.(os_x) ≤ b2z b.(os_x).
#[export] Instance share_x_le_dec : RelDecision share_x_le.
Proof. intros a b. unfold share_x_le. apply _. Defined.

(** [iter().position(|member| member == &pubkey)] *)
Definition position (members : list bytes) (pubkey : bytes) : option nat :=
  fst <$> list_find (λ member, member = pubkey) members.

Section Openings.
Context `{Digests} `{Ed25519}.

Definition verify_opening_signature (share : OpeningShare) : result MpcError unit :=
  if negb (key_valid share.(os_member_pubkey)) then Err InvalidOpeningSignature
  else if negb (len share.(os_signature) =? 64) then Err InvalidOpeningSignature
  else if ed_verify share.(os_member_pubkey)
      (opening_message share.(os_session_binding) share.(os_member_pubkey) share.(os_x) share.(os_values))
      share.(os_signature)
  then Ok tt else Err InvalidOpeningSignature.

(** One round of the loop over the opening shares; [seen_x] is a set, and
    [share_commitments[member_index]] panics when there is none. *)
Definition check_opening (setup : VssSetup) (state : list OpeningShare * list byte) (share : OpeningShare) :
    result MpcError (list OpeningShare * list byte) :=
  let '(valid, seen_x) := state in
  match position setup.(vs_members) share.(os_member_pubkey) with
  | None => Err InvalidOpeningBinding
  | Some member_index =>
      if bool_decide (share.(os_session_binding) ≠ setup.(vs_session_binding))
         || negb (b2z share.(os_x) =? Z.of_nat member_index + 1)
         || bool_decide (share.(os_x) ∈ seen_x)
      then Err InvalidOpeningBinding
      else if bool_decide (Some (share_commitment share) ≠ setup.(vs_share_commitments) !! member_index)
      then Err InvalidOpeningCommitment
      else
        _ ← verify_opening_signature share;
        Ok (valid ++ [share], share.(os_x) :: seen_x)
  end.

Definition reconstruct_verified (setup : VssSetup) (opening_shares : list OpeningShare) : result MpcError OpenedMask :=
  if bool_decide (merkle_root_of setup.(vs_share_commitments) ≠ setup.(vs_mask_commitment_root))
  then Err InvalidOpeningCommitment
  else
    '(valid, _) ← fold_result (check_opening setup) ([], []) opening_shares;
    if len valid <? setup.(vs_threshold) then Err InsufficientOpeningShares
    else
      let valid := merge_sort share_x_le valid in
      let mask := shamir_reconstruct (take (Z.to_nat setup.(vs_threshold)) valid) in
      if negb (mask_constraints_valid mask setup.(vs_leading_zero_prefix_q) setup.(vs_blind_band_bits_d))
      then Err MaskConstraintViolation
      else if bool_decide (blake2b_256 [setup.(vs_parent_hash); mask] ≠ setup.(vs_mask_hash)) then Err MaskHashMismatch
      else
        let opening_hashes := share_commitment <$> valid in
        Ok (mkOpenedMask mask (merkle_root_of opening_hashes) (os_member_pubkey <$> valid)).

Definition timed_open (setup : VssSetup) (opening_shares : list OpeningShare) (gate : TimedOpeningGate) (now_ms : Z) :
    result MpcError OpenedMask :=
  if negb gate.(tg_accepted_boundary_fixed) then Err BoundaryNotFixed
  else if (now_ms <? gate.(tg_timed_open_after_ms)) || (now_ms <? setup.(vs_timed_open_after_ms))
  then Err OpeningTooEarly
  else reconstruct_verified setup opening_shares.

Definition fast_evaluate (setup : VssSetup) (private_opening_material : list OpeningShare) (raw_share_hash network_target : Hash256)
    (force_abort : bool) : result MpcError FastEvalOutcome :=
  let transcript_root := fast_eval_transcript setup raw_share_hash in
  if force_abort then Ok (FastAborted transcript_root)
  else
    opened ← reconstruct_verified setup private_opening_material;
    let pow := xor_hashes raw_share_hash opened.(om_mask) in
    if bytes_leb pow network_target then Ok (Winner true opened) else Ok (Losing false transcript_root).

Definition evaluate_accepted_winners (opened : OpenedMask) (accepted : list AcceptedShareHash) (network_target : Hash256) :
    list Hash256 :=
  omap (λ share, if bytes_leb (xor_hashes share.(ash_raw_share_hash) opened.(om_mask)) network_target
                 then Some share.(ash_share_id) else None) accepted.

(** The loop of [handle_early_reveal] and of the winner-triggered close. *)
Definition split_at_cutoff (cutoff : Z) (accepted : list TimestampedAcceptedShare) : list Hash256 * list Hash256 :=
  foldl (λ '(eligible, ineligible) share,
    if share.(tas_accepted_at_ms) <=? cutoff then (eligible ++ [share.(tas_share).(ash_share_id)], ineligible)
    else (eligible, ineligible ++ [share.(tas_share).(ash_share_id)])) ([], []) accepted.
Definition winners_before (cutoff : Z) (mask network_target : Hash256) (accepted : list TimestampedAcceptedShare) : list Hash256 :=
  omap (λ share,
    if share.(tas_accepted_at_ms) <=? cutoff then
      if bytes_leb (xor_hashes share.(tas_share).(ash_raw_share_hash) mask) network_target
      then Some share.(tas_share).(ash_share_id) else None
    else None) accepted.

Definition handle_early_reveal (setup : VssSetup) (revealed_mask : Hash256) (revealing_member : bytes)
    (first_observed_ms : Z) (accepted : list TimestampedAcceptedShare) (network_target : Hash256) :
    result MpcError EarlyRevealOutcome :=
  if bool_decide (revealing_member ∉ setup.(vs_members)) then Err InvalidOpeningBinding
  else if bool_decide (blake2b_256 [setup.(vs_parent_hash); revealed_mask] ≠ setup.(vs_mask_hash)) then Err MaskHashMismatch
  else if negb (mask_constraints_valid revealed_mask setup.(vs_leading_zero_prefix_q) setup.(vs_blind_band_bits_d))
  then Err MaskConstraintViolation
  else
    let '(eligible, ineligible) := split_at_cutoff first_observed_ms accepted in
    let winners := winners_before first_observed_ms revealed_mask network_target accepted in
    Ok (mkEarlyRevealOutcome first_observed_ms revealing_member eligible ineligible winners true true).
End Openings.

(** ** The durable backend *)

Definition draw_setup_mask {R} `{!RngCore R, !SeedableRng R} `{Digests} (draws : nat) (request : SetupRequest) :
    option (Hash256 * R) :=
  generate_constrained_mask draws (from_seed (R := R) (vss_rng_seed request)) request.(sr_leading_zero_prefix_q)
    request.(sr_blind_band_bits_d).

Section Durable.
Context {R : Type} `{!RngCore R, !SeedableRng R} `{Digests} `{Ed25519} `{!Hex}.
Context {S : Type} `{!DurableStore S} (env : nat → S → S).
Abbreviation mpc := (eclient (S := S) (E := MpcError)).
Abbreviation call m := (ecall env Mpc_Storage m).
Abbreviation lift r := (elift (S := S) (E := MpcError) r).

(** [!put_if_absent(..)? && get(..)?.as_deref() != Some(value)] is an error. *)
Definition write_once (namespace key value : bytes) (e : MpcError) : mpc unit :=
  fresh ← call (put_if_absent namespace key value);
  if fresh : bool then mret tt
  else
    existing ← call (get namespace key);
    lift (ensure (bool_decide (existing = Some value)) e).

Definition validate_request (request : SetupRequest) (members : list SigningKey) : result MpcError unit :=
  if (len members =? 0) || (255 <? len members) || (request.(sr_threshold) =? 0) || (len members <? request.(sr_threshold))
  then Err InvalidThreshold
  else if negb (mask_parameters_valid request.(sr_leading_zero_prefix_q) request.(sr_blind_band_bits_d))
  then Err InvalidMaskParameters
  else ensure (bool_decide (NoDup (verifying_key <$> members))) DuplicateMember.

(** [ordered.sort_by_key(|key| key.verifying_key().to_bytes())] *)
Definition key_le (a b : SigningKey) : Prop := bytes_le (verifying_key a) (verifying_key b).
#[global] Instance key_le_dec : RelDecision key_le.
Proof. intros a b. unfold key_le. apply _. Defined.

(** What [setup] computes before it writes: the result and the opening shares. *)
Definition opening_share_of (binding : Hash256) (shares : list bytes) (index : nat) (key : SigningKey) : OpeningShare :=
  let member_pubkey := verifying_key key in
  let x := z2b (Z.of_nat index + 1) in
  let values := default [] (shares !! index) in
  mkOpeningShare binding member_pubkey x values (ed_sign key (opening_message binding member_pubkey x values)).
Definition prepare_setup (request : SetupRequest) (members : list SigningKey) (mask : Hash256) (rng : R) :
    VssSetup * list OpeningShare :=
  let ordered := merge_sort key_le members in
  let ordered_pubkeys := verifying_key <$> ordered in
  let mask_hash := blake2b_256 [request.(sr_parent_hash); mask] in
  let binding := session_binding request mask_hash ordered_pubkeys in
  let shares := (shamir_split mask (Z.to_nat request.(sr_threshold)) (length ordered) rng).1 in
  let opening_shares := imap (opening_share_of binding shares) ordered in
  let commitments := share_commitment <$> opening_shares in
  let mask_commitment_root := merkle_root_of commitments in
  let transcript_root := setup_transcript_root binding mask_hash mask_commitment_root ordered_pubkeys in
  (mkVssSetup binding request.(sr_parent_hash) mask_hash mask_commitment_root transcript_root
     request.(sr_leading_zero_prefix_q) request.(sr_blind_band_bits_d) request.(sr_threshold)
     request.(sr_timed_open_after_ms) ordered_pubkeys commitments, opening_shares).

Fixpoint persist_shares (shares : list OpeningShare) : mpc unit :=
  match shares with
  | [] => mret tt
  | share :: shares =>
      _ ← write_once MATERIAL_NAMESPACE (material_key share.(os_session_binding) share.(os_member_pubkey))
            (encode_opening_share share) OpeningMaterialConflict;
      persist_shares shares
  end.

(** [None] when the generator has not produced a mask within [draws] draws. *)
Definition setup (draws : nat) (request : SetupRequest) (members : list SigningKey) : mpc (option VssSetup) :=
  _ ← lift (validate_request request members);
  let reservation_key := logical_session_key request in
  reserved ← call (get SESSION_RESERVATION_NAMESPACE reservation_key);
  retired ← match reserved with
    | Some binding => call (get RETIRED_SESSION_NAMESPACE (hex_encode binding))
    | None => mret None
    end;
  if bool_decide (is_Some retired) then lift (Err SessionRetired)
  else
    match draw_setup_mask (R := R) draws request with
    | None => mret None
    | Some (mask, rng) =>
        let '(result, opening_shares) := prepare_setup request members mask rng in
        _ ← write_once SESSION_RESERVATION_NAMESPACE reservation_key result.(vs_session_binding) SessionReuse;
        _ ← persist_shares opening_shares;
        mret (Some result)
    end.

Definition load_opening (binding member_pubkey : bytes) : mpc OpeningShare :=
  bs ← call (get MATERIAL_NAMESPACE (material_key binding member_pubkey));
  bs ← lift (ok_or bs MissingOpeningMaterial);
  lift (decode_opening_share bs).

Definition erase_opening (binding member_pubkey : bytes) : mpc unit :=
  call (delete_key MATERIAL_NAMESPACE (material_key binding member_pubkey)).
Fixpoint erase_openings (binding : bytes) (members : list bytes) : mpc unit :=
  match members with
  | [] => mret tt
  | member :: members => _ ← erase_opening binding member; erase_openings binding members
  end.

Definition retirement_transcript (setup : VssSetup) (opened : OpenedMask) : bytes :=
  into_bytes (enc_fixed opened.(om_mask) >>> enc_fixed setup.(vs_mask_hash) >>> enc_fixed setup.(vs_transcript_root)
              >>> enc_fixed opened.(om_opening_transcript_root)).
Definition retire_after_audit (setup : VssSetup) (opened : OpenedMask) : mpc unit :=
  if bool_decide (blake2b_256 [setup.(vs_parent_hash); opened.(om_mask)] ≠ setup.(vs_mask_hash)) then lift (Err MaskHashMismatch)
  else if negb (mask_constraints_valid opened.(om_mask) setup.(vs_leading_zero_prefix_q) setup.(vs_blind_band_bits_d))
  then lift (Err MaskConstraintViolation)
  else
    let key := hex_encode setup.(vs_session_binding) in
    _ ← write_once PUBLIC_TRANSCRIPT_NAMESPACE key (retirement_transcript setup opened) OpeningMaterialConflict;
    _ ← call (put_if_absent RETIRED_SESSION_NAMESPACE key setup.(vs_session_binding));
    erase_openings setup.(vs_session_binding) setup.(vs_members).

Definition public_retirement_transcript (binding : Hash256) : mpc (option bytes) :=
  call (get PUBLIC_TRANSCRIPT_NAMESPACE (hex_encode binding)).

Definition early_reveal_transcript (setup : VssSetup) (revealing_member : bytes) (first_observed_ms : Z) : Hash256 :=
  domain_hash (str "meshmine/early-mask-reveal/v2")
    (into_bytes (enc_fixed setup.(vs_session_binding) >>> enc_fixed revealing_member >>> enc_u64 first_observed_ms)).
Definition handle_and_retire_early_reveal (setup : VssSetup) (revealed_mask : Hash256) (revealing_member : bytes)
    (first_observed_ms : Z) (accepted : list TimestampedAcceptedShare) (network_target : Hash256) : mpc EarlyRevealOutcome :=
  outcome ← lift (handle_early_reveal setup revealed_mask revealing_member first_observed_ms accepted network_target);
  _ ← retire_after_audit setup (mkOpenedMask revealed_mask
        (early_reveal_transcript setup revealing_member first_observed_ms) [revealing_member]);
  mret outcome.

Definition handle_and_retire_fast_winner (setup : VssSetup) (outcome : FastEvalOutcome) (winning_share_id : Hash256)
    (released_at_ms : Z) (accepted : list TimestampedAcceptedShare) (network_target : Hash256) :
    mpc WinnerTriggeredCloseOutcome :=
  match outcome with
  | Winner true opened =>
      winner ← lift (ok_or (snd <$> list_find (λ share, share.(tas_share).(ash_share_id) = winning_share_id
        ∧ share.(tas_accepted_at_ms) ≤ released_at_ms) accepted) WinnerShareNotEligible);
      let pow := xor_hashes winner.(tas_share).(ash_raw_share_hash) opened.(om_mask) in
      if bytes_ltb network_target pow then lift (Err FastOutcomeNotWinner)
      else
        let '(eligible, ineligible) := split_at_cutoff released_at_ms accepted in
        _ ← retire_after_audit setup opened;
        mret (mkWinnerTriggeredCloseOutcome winning_share_id released_at_ms eligible ineligible opened
          true true true true true)
  | _ => lift (Err FastOutcomeNotWinner)
  end.
End Durable.
