(* ===== verification/MpcSafety.v ===== *)
(** * Mask sessions: proofs

    The mask of a session keeps its public prefix clear, opens to itself from any
    threshold of its shares, and is never set up again once retired. *)

From S2P Require Import Prelude Codec Hash Types Objects Header Target Merkle Storage Journal Crypto Client Gf256 Mpc.

(** ** Mask bits *)

Lemma byte_bit (b : byte) (s : Z) : 0 ≤ s < 8 → negb (Z.land (b2z b) (Z.shiftl 1 s) =? 0) = Z.testbit (b2z b) s.
Proof.
  intros Hs. pose proof (forall_bytes (λ b, forallb (λ s, Bool.eqb (negb (Z.land (b2z b) (Z.shiftl 1 s) =? 0)) (Z.testbit (b2z b) s))
    (seqZ 0 8)) ltac:(vm_compute; reflexivity) b) as Hc.
  rewrite forallb_forall in Hc. apply Bool.eqb_prop, Hc, list_elem_of_In, elem_of_seqZ. lia.
Qed.
Lemma byte_clear (b : byte) (s t : Z) :
  0 ≤ s < 8 → 0 ≤ t < 8 →
  Z.testbit (b2z (z2b (Z.land (b2z b) (Z.lxor 0xff (Z.shiftl 1 s))))) t = if t =? s then false else Z.testbit (b2z b) t.
Proof.
  intros Hs Ht. pose proof (forall_bytes (λ b, forallb (λ s, forallb (λ t,
    Bool.eqb (Z.testbit (b2z (z2b (Z.land (b2z b) (Z.lxor 0xff (Z.shiftl 1 s))))) t) (if t =? s then false else Z.testbit (b2z b) t))
    (seqZ 0 8)) (seqZ 0 8)) ltac:(vm_compute; reflexivity) b) as Hc.
  rewrite forallb_forall in Hc. specialize (Hc s ltac:(apply list_elem_of_In, elem_of_seqZ; lia)).
  rewrite forallb_forall in Hc. apply Bool.eqb_prop, Hc, list_elem_of_In, elem_of_seqZ. lia.
Qed.

Lemma get_bit_byte bs bit : 0 ≤ bit → get_bit bs bit = Z.testbit (b2z (nth (Z.to_nat (bit / 8)) bs x00)) (7 - bit mod 8).
Proof. intros Hb. unfold get_bit. apply byte_bit. pose proof (Z.mod_pos_bound bit 8). lia. Qed.

(** Bits are numbered from the most significant one of the big-endian value. *)
Lemma get_bit_testbit bs bit :
  0 ≤ bit < 8 * len bs → get_bit bs bit = Z.testbit (of_be bs) (8 * len bs - 1 - bit).
Proof.
  revert bit. induction bs as [|b bs IH]; intros bit Hb; [change (len []) with 0 in Hb; lia|].
  rewrite len_cons in Hb |- *. pose proof (len_nonneg bs). pose proof (b2z_range b). pose proof (of_be_range bs) as Hr.
  rewrite get_bit_byte by lia. rewrite of_be_cons.
  assert (256 ^ len bs = 2 ^ (8 * len bs)) as E256 by (rewrite Z.pow_mul_r by lia; done). rewrite E256 in *.
  rewrite <- lor_shiftl_small by (unfold uint; lia). rewrite Z.lor_spec, Z.shiftl_spec by lia.
  destruct (Z.lt_ge_cases bit 8) as [Hlt|Hge].
  - rewrite (Z.div_small bit 8), (Z.mod_small bit 8) by lia. cbn [nth Z.to_nat].
    replace (8 * (len bs + 1) - 1 - bit - 8 * len bs) with (7 - bit) by lia.
    rewrite <- (Z.mod_small (of_be bs) (2 ^ (8 * len bs))) by lia. by rewrite Z.mod_pow2_bits_high, orb_false_r by lia.
  - rewrite (Z.testbit_neg_r (b2z b)), orb_false_l by lia.
    replace (8 * (len bs + 1) - 1 - bit) with (8 * len bs - 1 - (bit - 8)) by lia.
    rewrite <- IH, get_bit_byte by lia.
    replace (bit / 8) with (Z.succ ((bit - 8) / 8)) by (rewrite <- Z.add_1_r, <- Z.div_add by lia; f_equal; lia).
    rewrite Z2Nat.inj_succ by (apply Z.div_pos; lia). cbn [nth]. do 2 f_equal.
    rewrite <- (Z.mod_add (bit - 8) 1 8) by lia. f_equal. lia.
Qed.

Lemma clear_prefix_bound bs q :
  0 ≤ q ≤ 8 * len bs → (∀ bit, 0 ≤ bit < q → get_bit bs bit = false) → of_be bs < 2 ^ (8 * len bs - q).
Proof.
  intros Hq Hz. destruct (Z.eq_dec (of_be bs) 0) as [E|Hne]; [rewrite E; apply Z.pow_pos_nonneg; lia|].
  pose proof (of_be_range bs) as Hr. assert (256 ^ len bs = 2 ^ (8 * len bs)) as E256 by (rewrite Z.pow_mul_r by lia; done).
  rewrite E256 in Hr. apply Z.log2_lt_pow2; [lia|]. apply Z.nle_gt. intros Hge.
  assert (Z.log2 (of_be bs) < 8 * len bs) as Hl by (apply Z.log2_lt_pow2; lia).
  specialize (Hz (8 * len bs - 1 - Z.log2 (of_be bs)) ltac:(lia)). rewrite get_bit_testbit in Hz by lia.
  replace (8 * len bs - 1 - _) with (Z.log2 (of_be bs)) in Hz by lia. by rewrite Z.bit_log2 in Hz by lia.
Qed.

Lemma set_bit_length bs bit b : length (set_bit bs bit b) = length bs.
Proof. unfold set_bit. by destruct b; rewrite length_insert. Qed.
Lemma get_set_bit bs bit bit' :
  length bs = 32%nat → 0 ≤ bit < 256 → 0 ≤ bit' < 256 →
  get_bit (set_bit bs bit false) bit' = if bit' =? bit then false else get_bit bs bit'.
Proof.
  intros Hl Hb Hb'. rewrite !get_bit_byte by lia. unfold set_bit.
  assert (Z.to_nat (bit / 8) < length bs)%nat as Hlt.
  { rewrite Hl. pose proof (Z.div_lt_upper_bound bit 8 32). pose proof (Z.div_pos bit 8). lia. }
  assert (∀ k c, nth k (<[Z.to_nat (bit / 8) := c]> bs) x00 = if decide (k = Z.to_nat (bit / 8)) then c else nth k bs x00) as Hnth.
  { intros k c. rewrite !nth_lookup. case_decide as E; [subst; by rewrite list_lookup_insert_eq|].
    by rewrite list_lookup_insert_ne by congruence. }
  rewrite Hnth. pose proof (Z.mod_pos_bound bit 8). pose proof (Z.mod_pos_bound bit' 8).
  pose proof (Z.div_mod bit 8). pose proof (Z.div_mod bit' 8). pose proof (Z.div_pos bit 8). pose proof (Z.div_pos bit' 8).
  case_decide as E.
  - rewrite byte_clear by lia. assert (bit' / 8 = bit / 8) as Ed by lia. rewrite E.
    destruct (Z.eqb_spec (7 - bit' mod 8) (7 - bit mod 8)), (Z.eqb_spec bit' bit); try done; [lia|]. subst. lia.
  - rewrite (proj2 (Z.eqb_neq bit' bit)); [done|]. intros ->. done.
Qed.

Lemma constrain_spec mask q :
  length mask = 32%nat → 0 ≤ q ≤ 256 →
  length (constrain mask q) = 32%nat ∧ ∀ bit, 0 ≤ bit < q → get_bit (constrain mask q) bit = false.
Proof.
  intros Hl Hq. unfold constrain, range. rewrite Z.sub_0_r.
  assert (∀ n m, length m = 32%nat → 0 ≤ n → ∀ k, 0 ≤ k → k + n ≤ 256 → (∀ bit, 0 ≤ bit < k → get_bit m bit = false) →
    let m' := foldl (λ mask bit, set_bit mask bit false) m (seqZ k n) in
    length m' = 32%nat ∧ ∀ bit, 0 ≤ bit < k + n → get_bit m' bit = false) as Hloop.
  { intros n m Hm Hn. revert m Hm. induction n as [n IH] using (well_founded_induction (Z.lt_wf 0)). intros m Hm k Hk Hkn Hz.
    destruct (Z.eq_dec n 0) as [->|Hne]; [rewrite Z.add_0_r; by cbn|].
    rewrite seqZ_cons by lia. cbn [foldl].
    destruct (IH (Z.pred n) ltac:(lia) ltac:(lia) (set_bit m k false) ltac:(by rewrite set_bit_length) (Z.succ k) ltac:(lia) ltac:(lia))
      as [H1 H2].
    - intros bit Hb. rewrite get_set_bit by lia. destruct (Z.eqb_spec bit k); [done|]. apply Hz. lia.
    - split; [done|]. intros bit Hb. apply H2. lia. }
  destruct (Hloop q mask Hl ltac:(lia) 0 ltac:(lia) ltac:(lia) ltac:(lia)) as [H1 H2]. split; [done|].
  intros bit Hb. apply H2. lia.
Qed.

Lemma mask_parameters_spec q d :
  mask_parameters_valid q d = true → 0 ≤ q → 0 ≤ d → 1 ≤ q ∧ q + d ≤ 256 ∧ checked_add 16 q d = Some (q + d).
Proof.
  unfold mask_parameters_valid, checked_add. rewrite !andb_true_iff, negb_true_iff, Z.eqb_neq.
  intros [[Hq _] Hs] ? ?. destruct (q + d <? 2 ^ 16); [|done]. apply Z.leb_le in Hs. split_and!; [lia|lia|done].
Qed.
Lemma elem_of_range a b x : x ∈ range a b ↔ a ≤ x < b.
Proof. unfold range. rewrite elem_of_seqZ. lia. Qed.
Lemma mask_constraints_prefix mask q d :
  mask_constraints_valid mask q d = true → 0 ≤ q → 0 ≤ d → q ≤ 256 ∧ ∀ bit, 0 ≤ bit < q → get_bit mask bit = false.
Proof.
  unfold mask_constraints_valid. intros Hv Hq Hd. destruct (mask_parameters_valid q d) eqn:Ep; [|done].
  destruct (mask_parameters_spec q d Ep Hq Hd) as (H1 & H2 & E). rewrite E in Hv. cbn in Hv.
  destruct (q + d <=? 256); [|done]. apply andb_true_iff in Hv as [Hv _]. split; [lia|].
  intros bit Hb. rewrite forallb_forall in Hv. apply negb_true_iff, Hv, list_elem_of_In, elem_of_range. done.
Qed.

(** What the generator accepts satisfies the constraints of the session. *)
Lemma generated_mask_valid {R} `{!RngCore R} draws (rng rng' : R) q d mask :
  mask_parameters_valid q d = true → 0 ≤ q → 0 ≤ d →
  generate_constrained_mask draws rng q d = Some (mask, rng') →
  length mask = 32%nat ∧ mask_constraints_valid mask q d = true.
Proof.
  intros Hp Hq Hd. destruct (mask_parameters_spec q d Hp Hq Hd) as (H1 & H2 & E).
  revert rng. induction draws as [|draws IH]; intros rng; [done|]. cbn [generate_constrained_mask].
  pose proof (fill_bytes_length 32 rng) as Hl. destruct (fill_bytes 32 rng) as [m rng1]. cbn [fst] in Hl.
  destruct (constrain_spec m q Hl ltac:(lia)) as [Hc Hz].
  match goal with |- (if ?b then _ else _) = _ → _ => destruct b eqn:Eb end; [|apply IH].
  intros [= <- _]. split; [done|]. unfold mask_constraints_valid. rewrite Hp, E. cbn [negb].
  rewrite (proj2 (Z.leb_le _ _)) by lia. cbn [negb]. apply andb_true_iff. split; [|by destruct (d =? 0)].
  apply forallb_forall. intros bit Hb%list_elem_of_In%elem_of_range. apply negb_true_iff, Hz. done.
Qed.

(** ** Opening *)

Section Opening.
Context {R : Type} `{!RngCore R} `{Digests} `{!DigestsOk} `{Ed25519} `{!Ed25519Ok}.

(** A request in the range of its types. *)
Definition typed_request (request : SetupRequest) : Prop :=
  0 ≤ request.(sr_leading_zero_prefix_q) ∧ 0 ≤ request.(sr_blind_band_bits_d) ∧ 0 ≤ request.(sr_threshold).

Lemma validate_request_spec request members :
  validate_request request members = Ok tt → typed_request request →
  1 ≤ request.(sr_threshold) ≤ len members ∧ len members ≤ 255 ∧ NoDup (verifying_key <$> members) ∧
  mask_parameters_valid request.(sr_leading_zero_prefix_q) request.(sr_blind_band_bits_d) = true.
Proof.
  unfold validate_request, typed_request. intros Hv (Hq & Hd & Ht).
  match type of Hv with (if ?b then _ else _) = _ => destruct b eqn:Eb; [done|] end.
  rewrite !orb_false_iff, !Z.eqb_neq, !Z.ltb_ge in Eb. destruct (mask_parameters_valid _ _); [|done]. cbn [negb] in Hv.
  unfold ensure in Hv. case_bool_decide; [|done]. split_and!; try done; lia.
Qed.

Section Session.
Context (request : SetupRequest) (members : list SigningKey) (mask : Hash256) (rng : R).
Hypothesis valid : validate_request request members = Ok tt.
Hypothesis typed : typed_request request.

Let ordered := merge_sort key_le members.
Let vs := (prepare_setup request members mask rng).1.
Let shares := (prepare_setup request members mask rng).2.
Let split := (shamir_split mask (Z.to_nat request.(sr_threshold)) (length ordered) rng).1.

Lemma ordered_facts : (length ordered ≤ 255)%nat ∧ len ordered = len members ∧ NoDup (verifying_key <$> ordered).
Proof.
  destruct (validate_request_spec _ _ valid typed) as (_ & Hn & Hnd & _). unfold ordered, len in *.
  rewrite merge_sort_Permutation. split_and!; [lia|done|done].
Qed.

Lemma share_lookup s : s ∈ shares → ∃ i key,
  ordered !! i = Some key ∧ (i < 255)%nat ∧ s = opening_share_of vs.(vs_session_binding) split i key ∧ shares !! i = Some s.
Proof.
  intros (i & Hi)%list_elem_of_lookup. pose proof Hi as Hi'. unfold shares, prepare_setup in Hi. cbn [snd] in Hi.
  rewrite list_lookup_imap in Hi. apply fmap_Some in Hi as (key & Hk & ->). exists i, key. split; [done|].
  split; [|done]. apply lookup_lt_Some in Hk. fold ordered in Hk. pose proof (proj1 ordered_facts). lia.
Qed.
Lemma share_x s i key : (i < 255)%nat → s = opening_share_of vs.(vs_session_binding) split i key → b2z s.(os_x) = Z.of_nat i + 1.
Proof. intros Hi ->. cbn [os_x opening_share_of]. rewrite b2z_z2b. apply Z.mod_small. lia. Qed.

Lemma share_x_inj s s' : s ∈ shares → s' ∈ shares → s.(os_x) = s'.(os_x) → s = s'.
Proof.
  intros (i & k & _ & Hi & Es & Hs)%share_lookup (i' & k' & _ & Hi' & Es' & Hs')%share_lookup E.
  apply (f_equal b2z) in E. rewrite (share_x s i k), (share_x s' i' k') in E by done.
  assert (i = i') by lia. congruence.
Qed.

Lemma position_lookup (l : list bytes) i x : NoDup l → l !! i = Some x → position l x = Some i.
Proof.
  intros Hnd Hi. unfold position. enough (list_find (λ m, m = x) l = Some (i, x)) as -> by done.
  apply list_find_Some. split_and!; [done..|]. intros j y Hj Hlt ->. pose proof (NoDup_lookup _ _ _ _ Hnd Hi Hj). lia.
Qed.

Lemma check_own_share s acc seen :
  s ∈ shares → s.(os_x) ∉ seen → check_opening vs (acc, seen) s = Ok (acc ++ [s], s.(os_x) :: seen).
Proof.
  intros Hin Hseen. destruct (share_lookup s Hin) as (i & key & Hk & Hi & Es & Hs).
  destruct ordered_facts as (_ & _ & Hnd). unfold check_opening.
  assert (position vs.(vs_members) s.(os_member_pubkey) = Some i) as ->.
  { apply position_lookup; [exact Hnd|]. unfold vs, prepare_setup. cbn [fst vs_members]. fold ordered.
    rewrite list_lookup_fmap, Hk, Es. done. }
  rewrite (share_x s i key Hi Es), Z.eqb_refl. rewrite (bool_decide_eq_false_2 (_ ≠ _)) by (rewrite Es; cbn; tauto).
  rewrite (bool_decide_eq_false_2 (_ ∈ _)) by done. cbn [negb orb].
  assert (vs.(vs_share_commitments) !! i = Some (share_commitment s)) as ->.
  { change (vs.(vs_share_commitments)) with (share_commitment <$> shares). by rewrite list_lookup_fmap, Hs. }
  rewrite bool_decide_eq_false_2 by tauto. unfold verify_opening_signature.
  assert (key_valid (os_member_pubkey s) = true) as -> by (rewrite Es; apply verifying_key_valid).
  assert (len (os_signature s) = 64) as -> by (rewrite Es; unfold len; cbn [os_signature opening_share_of]; by rewrite ed_sign_length).
  cbn [negb Z.eqb]. change (64 =? 64) with true. cbn [negb].
  replace (ed_verify _ _ _) with true; [done|]. rewrite Es. symmetry. apply ed_sign_verifies.
Qed.

Lemma check_own_shares sel acc seen :
  (∀ s, s ∈ sel → s ∈ shares) → NoDup sel → (∀ s, s ∈ sel → s.(os_x) ∉ seen) →
  ∃ seen', fold_result (check_opening vs) (acc, seen) sel = Ok (acc ++ sel, seen').
Proof.
  revert acc seen. induction sel as [|s sel IH]; intros acc seen Hin Hnd Hseen.
  { exists seen. cbn. by rewrite app_nil_r. }
  apply NoDup_cons in Hnd as [Hs Hnd]. cbn [fold_result].
  rewrite check_own_share by (first [apply Hin | apply Hseen]; left).
  destruct (IH (acc ++ [s]) (s.(os_x) :: seen)) as (seen' & E).
  - intros s' Hs'. apply Hin. by right.
  - done.
  - intros s' Hs' [E|E]%elem_of_cons; [|by eapply Hseen; [right|]].
    apply Hs. rewrite (share_x_inj s s'); [done|apply Hin; by left|apply Hin; by right|done].
  - exists seen'. change (mbind ?f (Ok ?a)) with (f a). cbv beta. rewrite E, <- app_assoc. done.
Qed.

Lemma own_share_of s : s ∈ shares → share_of split s.
Proof.
  intros (i & key & Hk & Hi & Es & Hs)%share_lookup. split.
  - intros E. pose proof (share_x s i key Hi Es) as Hx. rewrite E in Hx. change (b2z x00) with 0 in Hx. lia.
  - rewrite (share_x s i key Hi Es). replace (Z.to_nat (Z.of_nat i + 1 - 1)) with i by lia.
    rewrite Es. cbn [os_values opening_share_of]. destruct (split !! i) eqn:E; [done|]. exfalso.
    apply lookup_ge_None in E. unfold split, shamir_split in E. destruct (draw_coefficients _ _ _).
    cbn [fst] in E. rewrite length_fmap, length_seqZ in E. apply lookup_lt_Some in Hk. lia.
Qed.

Lemma sel_nodup_x sel : (∀ s, s ∈ sel → s ∈ shares) → NoDup sel → NoDup (os_x <$> sel).
Proof. intros Hin Hnd. apply NoDup_fmap_2_strong; [|done]. intros s s' ??. apply share_x_inj; auto. Qed.

(** Any threshold of the members opens the session to its mask. *)
Lemma own_shares_open sel :
  length mask = 32%nat → (∀ s, s ∈ sel → s ∈ shares) → NoDup sel → request.(sr_threshold) ≤ len sel →
  mask_constraints_valid mask request.(sr_leading_zero_prefix_q) request.(sr_blind_band_bits_d) = true →
  ∃ opened, reconstruct_verified vs sel = Ok opened ∧ opened.(om_mask) = mask ∧
    opened.(om_valid_opening_members) ≡ₚ os_member_pubkey <$> sel.
Proof.
  intros mask_length Hin Hnd Hlen Hmask. unfold reconstruct_verified. rewrite bool_decide_eq_false_2 by tauto.
  destruct (check_own_shares sel [] []) as (seen & E); [done|done|set_solver|]. rewrite E. cbn [app].
  change (mbind ?f (Ok ?a)) with (f a). cbv beta iota. change (vs_threshold vs) with (sr_threshold request).
  rewrite (proj2 (Z.ltb_ge _ _)) by lia.
  destruct (validate_request_spec _ _ valid typed) as (Ht & _). pose proof (proj1 ordered_facts).
  assert (shamir_reconstruct (take (Z.to_nat request.(sr_threshold)) (merge_sort share_x_le sel)) = mask) as ->.
  { apply (shamir_correct mask (Z.to_nat request.(sr_threshold)) (length ordered) rng); [done|lia|done| | |].
    - apply Forall_take, Forall_forall. intros s Hs. rewrite merge_sort_Permutation in Hs. by apply own_share_of, Hin.
    - rewrite fmap_take. assert (NoDup (os_x <$> merge_sort share_x_le sel)) as Hs by (rewrite merge_sort_Permutation; by apply sel_nodup_x).
      rewrite <- (take_drop (Z.to_nat request.(sr_threshold)) (os_x <$> _)) in Hs. by apply NoDup_app in Hs as [? _].
    - rewrite length_take, merge_sort_Permutation. unfold len in Hlen. lia. }
  change (vs_leading_zero_prefix_q vs) with (sr_leading_zero_prefix_q request).
  change (vs_blind_band_bits_d vs) with (sr_blind_band_bits_d request). rewrite Hmask. cbn [negb].
  rewrite bool_decide_eq_false_2 by (intros Hne; by apply Hne). eexists. split; [done|]. split; [done|].
  cbn [om_valid_opening_members]. by rewrite merge_sort_Permutation.
Qed.
End Session.
End Opening.

(** ** Recovery after a restart *)

Definition mask_namespaces : list bytes :=
  [MATERIAL_NAMESPACE; SESSION_RESERVATION_NAMESPACE; RETIRED_SESSION_NAMESPACE; PUBLIC_TRANSCRIPT_NAMESPACE].
(** Other users of the store do not touch the mask sessions. *)
Definition mask_frame (v v' : View) : Prop := ∀ ns k, ns ∈ mask_namespaces → v' !! (ns, k) = v !! (ns, k).
#[export] Instance mask_frame_preorder : PreOrder mask_frame.
Proof. split; [by intros v ns k|]. intros v1 v2 v3 H1 H2 ns k Hns. by rewrite H2, H1. Qed.
Lemma mask_frame_insert ns k x (v v' : View) : mask_frame v v' → mask_frame (<[(ns, k) := x]> v) (<[(ns, k) := x]> v').
Proof.
  intros Hf ns' k' Hns. destruct (decide ((ns, k) = (ns', k'))) as [<-|Hne]; [by rewrite !lookup_insert_eq|].
  rewrite !lookup_insert_ne by done. by apply Hf.
Qed.

Section Keys.
Context `{HexOk}.
Lemma namespaces_nul ns : ns ∈ mask_namespaces → x00 ∉ ns.
Proof.
  intros Hns. repeat (apply elem_of_cons in Hns as [->|Hns]; [vm_compute; set_solver|]). by apply not_elem_of_nil in Hns.
Qed.
Lemma hex_key_valid ns bs : ns ∈ mask_namespaces → valid_key (ns, hex_encode bs) = true.
Proof. intros Hns. apply valid_key_spec. split; [by apply namespaces_nul|apply hex_encode_nul]. Qed.
Lemma material_key_valid a b : valid_key (MATERIAL_NAMESPACE, material_key a b) = true.
Proof.
  apply valid_key_spec. split; [apply namespaces_nul; left|]. unfold material_key. rewrite !not_elem_of_app.
  split_and!; [apply hex_encode_nul|by apply contains_nul_false|apply hex_encode_nul].
Qed.
Lemma session_key_valid request : valid_key (SESSION_RESERVATION_NAMESPACE, logical_session_key request) = true.
Proof.
  apply valid_key_spec. split; [apply namespaces_nul; set_solver|]. unfold logical_session_key, format_u64.
  rewrite !not_elem_of_app, !elem_of_reverse. split_and!; try by apply contains_nul_false.
  all: by apply decimal_digits_not_in.
Qed.
Lemma material_key_inj a b a' b' : material_key a b = material_key a' b' → a = a' ∧ b = b'.
Proof.
  unfold material_key. change (str "/") with [x2f]. intros E.
  apply separator_inj_r in E as [Ea Eb]; [|apply hex_encode_no_slash..]. split; by apply hex_encode_inj.
Qed.
End Keys.

Section Recovery.
Context {R : Type} `{!RngCore R, !SeedableRng R} `{Digests} `{!DigestsOk} `{Ed25519} `{!Ed25519Ok} `{HexOk}.
Context {S : Type} `{!DurableStore S, !DurableStoreLaws S} (env : nat → S → S).
Hypothesis env_frame : ∀ n s v, represents s v → ∃ v', represents (env n s) v' ∧ mask_frame v v'.

Lemma ewp_write_once ns k x e (v : View) (Φ : result MpcError unit → View → Prop) :
  ns ∈ mask_namespaces → valid_key (ns, k) = true → v !! (ns, k) = None ∨ v !! (ns, k) = Some x →
  (∀ v' : View, mask_frame (<[(ns, k) := x]> v) v' → Φ (Ok tt) v') → ewp (write_once env ns k x e) v Φ.
Proof.
  intros Hns Hk Hv HΦ. unfold write_once, put_if_absent.
  apply ewp_bind, (ewp_cas env Mpc_Storage _ env_frame); [done| |].
  - intros v1 Hf _. apply ewp_ret, HΦ. by apply mask_frame_insert.
  - intros v1 Hf Hne. rewrite (Hf _ _ Hns) in Hne. destruct Hv as [Hv|Hv]; [done|].
    apply ewp_bind, (ewp_get env Mpc_Storage _ env_frame); [done|]. intros v2 Hf2. apply ewp_lift.
    assert (mask_frame v v2) as Hf' by (etrans; eassumption).
    rewrite (Hf' _ _ Hns), Hv. unfold ensure. rewrite bool_decide_eq_true_2 by done. apply HΦ.
    by rewrite insert_id.
Qed.

Abbreviation share_key s := (material_key s.(os_session_binding) s.(os_member_pubkey)).

(** The view in which the shares have been written. *)
Definition written (shares : list OpeningShare) (v v' : View) : Prop :=
  (∀ s, s ∈ shares → v' !! (MATERIAL_NAMESPACE, share_key s) = Some (encode_opening_share s)) ∧
  ∀ ns k, ns ∈ mask_namespaces → (ns = MATERIAL_NAMESPACE → ∀ s, s ∈ shares → k ≠ share_key s) → v' !! (ns, k) = v !! (ns, k).

Lemma persist_shares_spec shares (v : View) (Φ : result MpcError unit → View → Prop) :
  NoDup ((λ s, share_key s) <$> shares) →
  (∀ s, s ∈ shares → v !! (MATERIAL_NAMESPACE, share_key s) = None ∨
    v !! (MATERIAL_NAMESPACE, share_key s) = Some (encode_opening_share s)) →
  (∀ v' : View, written shares v v' → Φ (Ok tt) v') → ewp (persist_shares env shares) v Φ.
Proof.
  revert v. induction shares as [|s shares IH]; intros v Hnd Hv HΦ; cbn [persist_shares].
  { apply ewp_ret, HΦ. split; [set_solver|done]. }
  apply NoDup_cons in Hnd as [Hs Hnd].
  assert (∀ s', s' ∈ shares → share_key s' ≠ share_key s) as Hne.
  { intros s' Hs' E. apply Hs, list_elem_of_fmap. by exists s'. }
  apply ewp_bind, ewp_write_once; [left|apply material_key_valid|apply Hv; left|]. intros v1 Hf.
  apply IH; [done| |].
  - intros s' Hs'. rewrite (Hf MATERIAL_NAMESPACE _ ltac:(left)), lookup_insert_ne by (intros E; simplify_eq; by eapply Hne).
    apply Hv. by right.
  - intros v' [Hw Ho]. apply HΦ. split.
    + intros s' [->|Hs']%elem_of_cons; [|by apply Hw]. rewrite Ho; [|left|].
      * by rewrite (Hf MATERIAL_NAMESPACE _ ltac:(left)), lookup_insert_eq.
      * intros _ s'' Hs'' E. by apply (Hne s'').
    + intros ns k Hns Hk. rewrite Ho, (Hf _ _ Hns).
      * rewrite lookup_insert_ne; [done|]. intros E. injection E as <- <-. by apply (Hk eq_refl s ltac:(left)).
      * done.
      * intros -> s' Hs'. apply Hk; [done|by right].
Qed.

(** Nothing of the session is in the store yet, or exactly what it would write. *)
Definition session_free (request : SetupRequest) (vs : VssSetup) (shares : list OpeningShare) (v : View) : Prop :=
  (v !! (SESSION_RESERVATION_NAMESPACE, logical_session_key request) = None ∨
   v !! (SESSION_RESERVATION_NAMESPACE, logical_session_key request) = Some vs.(vs_session_binding)) ∧
  v !! (RETIRED_SESSION_NAMESPACE, hex_encode vs.(vs_session_binding)) = None ∧
  ∀ s, s ∈ shares → v !! (MATERIAL_NAMESPACE, share_key s) = None ∨
    v !! (MATERIAL_NAMESPACE, share_key s) = Some (encode_opening_share s).
(** Everything of it is. *)
Definition session_stored (request : SetupRequest) (vs : VssSetup) (shares : list OpeningShare) (v : View) : Prop :=
  v !! (SESSION_RESERVATION_NAMESPACE, logical_session_key request) = Some vs.(vs_session_binding) ∧
  v !! (RETIRED_SESSION_NAMESPACE, hex_encode vs.(vs_session_binding)) = None ∧
  ∀ s, s ∈ shares → v !! (MATERIAL_NAMESPACE, share_key s) = Some (encode_opening_share s).
Lemma stored_free request vs shares (v : View) : session_stored request vs shares v → session_free request vs shares v.
Proof. intros (Hr & Ht & Hm). split_and!; auto. Qed.

Lemma own_keys_nodup request members mask (rng : R) :
  validate_request request members = Ok tt → typed_request request →
  NoDup ((λ s, share_key s) <$> (prepare_setup request members mask rng).2).
Proof.
  intros Hv Ht. destruct (ordered_facts request members Hv Ht) as (_ & _ & Hnd).
  apply NoDup_fmap_2_strong.
  - intros s s' Hs Hs' [_ E]%material_key_inj.
    apply (share_lookup request members mask rng Hv Ht) in Hs as (i & k & Hi & _ & Es & Hl).
    apply (share_lookup request members mask rng Hv Ht) in Hs' as (j & k' & Hj & _ & Es' & Hl').
    rewrite Es, Es' in E. cbn [os_member_pubkey opening_share_of] in E.
    assert (i = j) as ->; [|congruence].
    eapply NoDup_lookup; [exact Hnd| |]; rewrite list_lookup_fmap; [by rewrite Hi|by rewrite Hj, E].
  - apply NoDup_alt. intros i j s Hi Hj.
    pose proof (share_lookup request members mask rng Hv Ht s ltac:(by eapply list_elem_of_lookup_2)) as (k & key & Hk & Hk255 & Es & _).
    assert (∀ m, (prepare_setup request members mask rng).2 !! m = Some s → m = k) as Hm; [|by rewrite (Hm i), (Hm j)].
    intros m Hlm. unfold prepare_setup in Hlm. cbn [snd] in Hlm. rewrite list_lookup_imap in Hlm.
    apply fmap_Some in Hlm as (key' & Hm & Es'). pose proof (lookup_lt_Some _ _ _ Hm) as Hlt.
    pose proof (proj1 (ordered_facts request members Hv Ht)).
    apply (f_equal (λ s, b2z (os_x s))) in Es'. rewrite (share_x _ _ _ _ _ _ _ Hk255 Es) in Es'.
    cbn [os_x opening_share_of] in Es'. rewrite b2z_z2b, Z.mod_small in Es' by lia. lia.
Qed.

Lemma setup_stores draws request members mask (rng : R) (v : View) :
  validate_request request members = Ok tt → typed_request request →
  draw_setup_mask draws request = Some (mask, rng) →
  let '(vs, shares) := prepare_setup request members mask rng in
  session_free request vs shares v →
  ewp (setup (R := R) env draws request members) v (λ r v', r = Ok (Some vs) ∧ session_stored request vs shares v').
Proof.
  intros Hv Ht Hdraw. pose proof (own_keys_nodup request members mask rng Hv Ht) as Hnd.
  destruct (prepare_setup request members mask rng) as [vs shares] eqn:Ep. cbn [snd] in Hnd.
  intros (Hres & Hret & Hmat). unfold setup. rewrite Hv. apply ewp_lift_bind; [|done]. intros _ _.
  apply ewp_bind, (ewp_get env Mpc_Storage _ env_frame); [apply session_key_valid|]. intros v1 Hf1.
  rewrite (Hf1 SESSION_RESERVATION_NAMESPACE) by set_solver.
  apply ewp_bind. apply ewp_mono with (λ r v2, r = Ok None ∧ mask_frame v v2).
  2: { destruct Hres as [->| ->]; [by apply ewp_ret|].
    apply (ewp_get env Mpc_Storage _ env_frame); [apply hex_key_valid; set_solver|]. intros v2 Hf2.
    assert (mask_frame v v2) as Hf by (etrans; eassumption). by rewrite (Hf RETIRED_SESSION_NAMESPACE), Hret by set_solver. }
  intros r v2 [-> Hf2]. rewrite bool_decide_eq_false_2 by (by intros [? ?]). rewrite Hdraw, Ep.
  apply ewp_bind, ewp_write_once; [set_solver|apply session_key_valid|by rewrite (Hf2 SESSION_RESERVATION_NAMESPACE) by set_solver|].
  intros v3 Hf3. apply ewp_bind, persist_shares_spec; [done| |].
  - intros s Hs. rewrite (Hf3 MATERIAL_NAMESPACE _ ltac:(left)), lookup_insert_ne by (by intros ?). rewrite (Hf2 MATERIAL_NAMESPACE _ ltac:(left)). by apply Hmat.
  - intros v4 [Hw Ho]. apply ewp_ret. split; [done|]. split_and!; [| |exact Hw].
    + rewrite Ho by (first [set_solver | done]). by rewrite (Hf3 SESSION_RESERVATION_NAMESPACE), lookup_insert_eq by set_solver.
    + rewrite Ho by (first [set_solver | done]). rewrite (Hf3 RETIRED_SESSION_NAMESPACE) by set_solver. rewrite lookup_insert_ne by (by intros ?).
      by rewrite (Hf2 RETIRED_SESSION_NAMESPACE) by set_solver.
Qed.

Lemma own_share_ok request members mask (rng : R) s :
  validate_request request members = Ok tt → typed_request request → length mask = 32%nat →
  s ∈ (prepare_setup request members mask rng).2 → decode_opening_share (encode_opening_share s) = Ok s.
Proof.
  intros Hv Ht Hm Hs. pose proof (own_share_of request members mask rng Hv Ht s Hs) as [_ Hval].
  apply (share_lookup request members mask rng Hv Ht) in Hs as (i & key & Hk & Hi & Es & _).
  unfold shamir_split in Hval. pose proof (draw_coefficients_spec mask (Z.to_nat (sr_threshold request)) rng) as (Hc & _).
  destruct (draw_coefficients mask _ rng) as [cs rng']. cbn [fst] in Hval, Hc. rewrite list_lookup_fmap in Hval.
  apply fmap_Some in Hval as (x & _ & Hval).
  assert (ok_opening_share DecodeLimits_default s) as Hok.
  { unfold ok_opening_share, arr. rewrite Hval, length_fmap, Hc, Hm. rewrite Es.
    cbn [os_session_binding os_member_pubkey os_signature opening_share_of].
    unfold prepare_setup. cbn [fst vs_session_binding]. split_and!; [apply domain_hash_length|apply verifying_key_length|done|].
    unfold byte_count, len. rewrite ed_sign_length. split_and!; by vm_compute. }
  unfold decode_opening_share, encode_opening_share.
  rewrite from_canonical_complete; [done|split; by vm_compute|done|].
  unfold ok_opening_share, arr, byte_count in Hok. destruct_and! Hok. unfold to_canonical_bytes, into_bytes. cbn [encode OpeningShare_codec].
  unfold write_opening_share, enc_bytes. rewrite !wseq_nil by apply _. unfold enc_u8, enc_fixed.
  assert (len (os_signature s) = 64) as El by (rewrite Es; unfold len; cbn [os_signature opening_share_of]; by rewrite ed_sign_length).
  rewrite El. assert (enc_varint 64 [] = [x40]) as -> by by vm_compute. unfold len in *. cbn [app].
  repeat (rewrite ?length_app, ?to_le_length; cbn [length app]). etrans; [|instantiate (1 := 1024); by vm_compute]. lia.
Qed.

(** The callers' loop over the members that take part in an opening. *)
Fixpoint load_openings (binding : Hash256) (pubkeys : list bytes) : eclient (S := S) (E := MpcError) (list OpeningShare) :=
  match pubkeys with
  | [] => mret []
  | pubkey :: pubkeys => share ← load_opening env binding pubkey; shares ← load_openings binding pubkeys; mret (share :: shares)
  end.

Lemma load_openings_spec binding pubkeys shares (v : View) :
  Forall2 (λ pubkey s, s.(os_session_binding) = binding ∧ s.(os_member_pubkey) = pubkey ∧
    decode_opening_share (encode_opening_share s) = Ok s ∧
    v !! (MATERIAL_NAMESPACE, share_key s) = Some (encode_opening_share s)) pubkeys shares →
  ewp (load_openings binding pubkeys) v (λ r v', r = Ok shares ∧ mask_frame v v').
Proof.
  intros Hall. remember v as v0 eqn:E0 in Hall.
  assert (mask_frame v0 v) as Hv by (subst; reflexivity). assert (mask_frame v v) as Hvv by reflexivity.
  clear E0. revert v Hv Hvv. induction Hall as [|pubkey s pubkeys shares (Eb & Ep & Ed & Hs) _ IH]; intros v Hv _; cbn [load_openings].
  { by apply ewp_ret. }
  apply ewp_bind. unfold load_opening. apply ewp_bind, (ewp_get env Mpc_Storage _ env_frame); [apply material_key_valid|].
  intros v1 Hf. assert (mask_frame v0 v1) as Hf1 by (etrans; eassumption).
  rewrite (Hf1 MATERIAL_NAMESPACE) by left. rewrite <- Eb, <- Ep, Hs. cbn [ok_or].
  apply ewp_lift_bind; [|done]. intros bs [= <-]. apply ewp_lift. rewrite Ed. rewrite Eb.
  apply ewp_bind. eapply ewp_mono; [|by apply IH]. intros r v2 [-> Hf2]. apply ewp_ret. split; [done|]. by etrans.
Qed.

(** C5: a mask session survives restarts and opens to its mask. If nothing
    of the session is in the store (or what an interrupted set-up left) and the generator
    yields a mask, set-up succeeds with a mask that satisfies the session's
    constraints; running it again returns the same set-up; and any [threshold] distinct
    members who load their shares from the store open the session, once the
    boundary is fixed and the time has come, to exactly that mask, whose hash was
    published. *)
Theorem mask_session_recovers draws request members mask (rng : R) (v : View) :
  validate_request request members = Ok tt → typed_request request →
  draw_setup_mask draws request = Some (mask, rng) →
  let vs := (prepare_setup request members mask rng).1 in
  session_free request vs (prepare_setup request members mask rng).2 v →
  ewp (setup (R := R) env draws request members) v (λ r v',
    r = Ok (Some vs) ∧ vs.(vs_mask_hash) = blake2b_256 [request.(sr_parent_hash); mask] ∧
    mask_constraints_valid mask request.(sr_leading_zero_prefix_q) request.(sr_blind_band_bits_d) = true ∧
    ewp (setup (R := R) env draws request members) v' (λ r' _, r' = r) ∧
    ∀ pubkeys gate now_ms, NoDup pubkeys → pubkeys ⊆ vs.(vs_members) → request.(sr_threshold) ≤ len pubkeys →
      gate.(tg_accepted_boundary_fixed) = true → gate.(tg_timed_open_after_ms) ≤ now_ms →
      vs.(vs_timed_open_after_ms) ≤ now_ms →
      ewp (load_openings vs.(vs_session_binding) pubkeys) v' (λ r' _, ∃ shares opened, r' = Ok shares ∧
        timed_open vs shares gate now_ms = Ok opened ∧ opened.(om_mask) = mask)).
Proof.
  intros Hv Ht Hdraw vs Hfree. destruct (validate_request_spec _ _ Hv Ht) as (_ & _ & _ & Hp).
  assert (length mask = 32%nat ∧ mask_constraints_valid mask request.(sr_leading_zero_prefix_q) request.(sr_blind_band_bits_d) = true)
    as [Hm Hc].
  { destruct Ht as (? & ? & _). unfold draw_setup_mask in Hdraw. by eapply generated_mask_valid. }
  pose proof (λ v, setup_stores draws request members mask rng v Hv Ht Hdraw) as Hset.
  pose proof (share_lookup request members mask rng Hv Ht) as Hlook.
  pose proof (λ s, own_share_ok request members mask rng s Hv Ht Hm) as Hdec.
  pose proof (own_shares_open request members mask rng Hv Ht) as Hopen.
  subst vs. destruct (prepare_setup request members mask rng) as [vs shares] eqn:Ep. cbn [fst snd] in *.
  eapply ewp_mono; [|by apply Hset]. intros r v' [-> Hst]. split_and!; [done| |done| |].
  - unfold prepare_setup in Ep. by injection Ep as <- _.
  - eapply ewp_mono; [|apply Hset, stored_free, Hst]. by intros r v'' [-> _].
  - intros pubkeys gate now Hnd Hsub Hlen Hb Hg Hs.
    assert (∃ sel, Forall2 (λ pubkey s, s ∈ shares ∧ s.(os_member_pubkey) = pubkey) pubkeys sel) as [sel Hsel].
    { assert (∀ p, p ∈ pubkeys → ∃ s, s ∈ shares ∧ s.(os_member_pubkey) = p) as Hex.
      { intros p Hin%Hsub. unfold prepare_setup in Ep. injection Ep as <- <-. cbn [vs_members] in Hin.
        apply list_elem_of_fmap in Hin as (key & -> & (i & Hi)%list_elem_of_lookup).
        eexists. split; [eapply list_elem_of_lookup_2; by rewrite list_lookup_imap, Hi|done]. }
      clear -Hex. induction pubkeys as [|p pubkeys IH]; [by exists []|].
      destruct IH as [sel Hsel]; [intros p' Hp'; apply Hex; by right|]. destruct (Hex p ltac:(left)) as (s & ? & ?).
      exists (s :: sel). by constructor. }
    eapply ewp_mono; [|apply (load_openings_spec _ pubkeys sel)].
    + intros r v'' [-> _]. destruct (Hopen sel Hm) as (opened & Ho & Hmask & _).
      * intros s (i & Hi)%list_elem_of_lookup. destruct (Forall2_lookup_r _ _ _ _ _ Hsel Hi) as (p & _ & Hin & _). done.
      * apply (NoDup_fmap_1 os_member_pubkey). replace (os_member_pubkey <$> sel) with pubkeys; [done|].
        clear -Hsel. induction Hsel as [|p s ps ss [_ <-] _ ->]; done.
      * apply Forall2_length in Hsel. unfold len in *. by rewrite <- Hsel.
      * done.
      * exists sel, opened. split; [done|]. split; [|done]. unfold timed_open. rewrite Hb. cbn [negb].
        by rewrite (proj2 (Z.ltb_ge _ _)), (proj2 (Z.ltb_ge _ _)) by lia.
    + destruct Hst as (_ & _ & Hmat). eapply Forall2_impl; [exact Hsel|]. intros p s [Hin <-].
      split_and!; [|done|by apply Hdec|by apply Hmat].
      destruct (Hlook s Hin) as (i & key & _ & _ & -> & _). done.
Qed.
End Recovery.

(** ** Retirement *)

(** Other users of the store keep reservations and tombstones. *)
Definition mask_le (v v' : View) : Prop :=
  ∀ ns k x, ns ∈ [SESSION_RESERVATION_NAMESPACE; RETIRED_SESSION_NAMESPACE] → v !! (ns, k) = Some x → v' !! (ns, k) = Some x.
#[export] Instance mask_le_preorder : PreOrder mask_le.
Proof. split; [by intros v ns k x|]. intros v1 v2 v3 H1 H2 ns k x Hns Hx. eauto. Qed.

Section Retirement.
Context {R : Type} `{!RngCore R, !SeedableRng R} `{Digests} `{!DigestsOk} `{Ed25519} `{!Ed25519Ok} `{HexOk}.
Context {S : Type} `{!DurableStore S, !DurableStoreLaws S} (env : nat → S → S).
Hypothesis env_le : ∀ n s v, represents s v → ∃ v', represents (env n s) v' ∧ mask_le v v'.

Lemma write_once_le ns k x e (v : View) :
  ns ∈ mask_namespaces → valid_key (ns, k) = true →
  ewp (write_once env ns k x e) v (λ r v', mask_le v v' ∧
    (r = Ok tt → ns = SESSION_RESERVATION_NAMESPACE → v' !! (ns, k) = Some x)).
Proof.
  intros Hns Hk. unfold write_once, put_if_absent. apply ewp_bind, (ewp_cas env Mpc_Storage _ env_le); [done| |].
  - intros v1 Hle Hnone. apply ewp_ret. split; [|by rewrite lookup_insert_eq].
    intros ns' k' y Hns' Hy. apply (Hle ns' k' y Hns') in Hy. rewrite lookup_insert_ne; [done|]. intros E. congruence.
  - intros v1 Hle Hne. apply ewp_bind, (ewp_get env Mpc_Storage _ env_le); [done|]. intros v2 Hle2. apply ewp_lift.
    split; [by etrans|]. unfold ensure. case_bool_decide; by intros.
Qed.

Lemma persist_shares_le shares (v : View) : ewp (persist_shares env shares) v (λ _ v', mask_le v v').
Proof.
  revert v. induction shares as [|s shares IH]; intros v; cbn [persist_shares]; [by apply ewp_ret|].
  apply ewp_bind. eapply ewp_mono; [|apply write_once_le; [left|apply material_key_valid]].
  intros [[]|e] v1 [Hle _]; [|done]. eapply ewp_mono; [|apply IH]. intros r v2 Hle2. by etrans.
Qed.

Lemma erase_openings_le binding pubkeys (v : View) : ewp (erase_openings env binding pubkeys) v (λ _ v', mask_le v v').
Proof.
  revert v. induction pubkeys as [|p pubkeys IH]; intros v; cbn [erase_openings]; [by apply ewp_ret|].
  apply ewp_bind, (ewp_delete env Mpc_Storage _ env_le); [apply material_key_valid|]. intros v1 Hle.
  eapply ewp_mono; [|apply IH]. intros r v2 Hle2. etrans; [|exact Hle2]. intros ns k x Hns Hx.
  rewrite lookup_delete_ne; [by apply Hle|]. intros E. apply (f_equal fst) in E. cbn [fst] in E. subst ns.
  apply elem_of_cons in Hns as [E|Hns]; [by vm_compute in E|]. apply list_elem_of_singleton in Hns. by vm_compute in Hns.
Qed.

(** A set-up reserves its logical session. *)
Lemma setup_reserves draws request members (v : View) :
  ewp (setup (R := R) env draws request members) v (λ r v', ∀ vs, r = Ok (Some vs) →
    v' !! (SESSION_RESERVATION_NAMESPACE, logical_session_key request) = Some vs.(vs_session_binding)).
Proof.
  unfold setup. apply ewp_lift_bind; [intros _ _|done].
  apply ewp_bind, (ewp_get env Mpc_Storage _ env_le); [apply session_key_valid|]. intros v1 _.
  apply ewp_bind. apply ewp_mono with (λ _ _, True).
  2: { destruct (v1 !! _); [|by apply ewp_ret]. apply (ewp_get env Mpc_Storage _ env_le); [apply hex_key_valid; set_solver|done]. }
  intros [retired|e] v2 _; [|done]. case_bool_decide; [by apply ewp_lift|].
  destruct (draw_setup_mask draws request) as [[mask rng]|]; [|by apply ewp_ret].
  destruct (prepare_setup request members mask rng) as [vs shares].
  apply ewp_bind. eapply ewp_mono; [|apply write_once_le; [set_solver|apply session_key_valid]].
  intros [[]|e] v3 [_ Hres]; [|done]. apply ewp_bind. eapply ewp_mono; [|apply persist_shares_le].
  intros [[]|e] v4 Hle; [|done]. apply ewp_ret. intros vs' [= <-]. apply (Hle SESSION_RESERVATION_NAMESPACE); [left|]. by apply Hres.
Qed.

Lemma retire_writes vs opened (v : View) :
  ewp (retire_after_audit env vs opened) v (λ r v', mask_le v v' ∧
    (r = Ok tt → is_Some (v' !! (RETIRED_SESSION_NAMESPACE, hex_encode vs.(vs_session_binding))))).
Proof.
  unfold retire_after_audit. case_bool_decide; [by apply ewp_lift|].
  destruct (negb _); [by apply ewp_lift|].
  apply ewp_bind. eapply ewp_mono; [|apply write_once_le; [set_solver|apply hex_key_valid; set_solver]].
  intros [[]|e] v1 [Hle1 _]; [|done]. apply ewp_bind. unfold put_if_absent.
  apply (ewp_cas env Mpc_Storage _ env_le); [apply hex_key_valid; set_solver| |].
  - intros v2 Hle2 Hnone. eapply ewp_mono; [|apply erase_openings_le]. intros r v3 Hle3.
    assert (mask_le v2 (<[(RETIRED_SESSION_NAMESPACE, hex_encode (vs_session_binding vs)) := vs_session_binding vs]> v2)) as Hins.
    { intros ns k x Hns Hx. rewrite lookup_insert_ne; [done|]. intros E. congruence. }
    split; [by do 3 (etrans; [eassumption|])|]. intros _. eexists. apply Hle3; [set_solver|]. apply lookup_insert_eq.
  - intros v2 Hle2 Hsome. eapply ewp_mono; [|apply erase_openings_le]. intros r v3 Hle3.
    split; [by do 2 (etrans; [eassumption|])|]. intros _.
    destruct (v2 !! (RETIRED_SESSION_NAMESPACE, hex_encode (vs_session_binding vs))) as [x|] eqn:E; [|done].
    exists x. apply Hle3; [set_solver|done].
Qed.

Lemma setup_refused draws request members binding (v : View) :
  v !! (SESSION_RESERVATION_NAMESPACE, logical_session_key request) = Some binding →
  is_Some (v !! (RETIRED_SESSION_NAMESPACE, hex_encode binding)) →
  ewp (setup (R := R) env draws request members) v (λ r _, validate_request request members = Ok tt → r = Err SessionRetired).
Proof.
  intros Hres [x Hret]. unfold setup. apply ewp_lift_bind; [intros _ _|by intros e ->].
  apply ewp_bind, (ewp_get env Mpc_Storage _ env_le); [apply session_key_valid|]. intros v1 Hle1.
  rewrite (Hle1 SESSION_RESERVATION_NAMESPACE _ binding ltac:(left) Hres). apply ewp_bind.
  apply (ewp_get env Mpc_Storage _ env_le); [apply hex_key_valid; set_solver|]. intros v2 Hle2.
  rewrite (Hle2 RETIRED_SESSION_NAMESPACE _ x), bool_decide_eq_true_2; [by apply ewp_lift|by eexists|set_solver|].
  apply Hle1; [set_solver|done].
Qed.

(** A retired mask is never set up again. Among other users of the store that
    keep reservations and tombstones, once a session was set up and its retirement
    returned, every later set-up of the same lane and sequence, by any committee
    and with any seed, is refused as retired. *)
Lemma retired_session_final draws request members (v : View) :
  ewp (setup (R := R) env draws request members) v (λ r v1, ∀ vs opened, r = Ok (Some vs) →
    ewp (retire_after_audit env vs opened) v1 (λ r' v2, r' = Ok tt →
      ∀ draws' request' members', logical_session_key request' = logical_session_key request →
        validate_request request' members' = Ok tt →
        ewp (setup (R := R) env draws' request' members') v2 (λ r'' _, r'' = Err SessionRetired))).
Proof.
  eapply ewp_mono; [|apply setup_reserves]. intros r v1 Hres vs opened ->. specialize (Hres vs eq_refl).
  eapply ewp_mono; [|apply retire_writes]. intros r' v2 [Hle Hret] -> draws' request' members' Hkey Hv.
  eapply ewp_mono; [|apply (setup_refused _ _ _ vs.(vs_session_binding)); [|by apply Hret]].
  - intros r'' v3 Hr. by apply Hr.
  - rewrite Hkey. apply Hle; [left|done].
Qed.
End Retirement.

(** ** Opened sessions and blocks *)

Section Blocks.
Context `{Digests} `{!DigestsOk} `{Ed25519}.

Lemma reconstructed_constraints vs shares opened :
  reconstruct_verified vs shares = Ok opened →
  mask_constraints_valid opened.(om_mask) vs.(vs_leading_zero_prefix_q) vs.(vs_blind_band_bits_d) = true ∧
  length opened.(om_mask) = 32%nat ∧ blake2b_256 [vs.(vs_parent_hash); opened.(om_mask)] = vs.(vs_mask_hash).
Proof.
  unfold reconstruct_verified. case_bool_decide; [done|]. intros ([valid seen] & _ & Hr)%bind_ok.
  destruct (len valid <? _); [done|]. destruct (mask_constraints_valid _ _ _) eqn:E; [|done]. cbn [negb] in Hr.
  case_bool_decide as Eh; [done|]. injection Hr as <-. cbn [om_mask]. split_and!; [done|done|]. exact Eh.
Qed.

(** C32: opening a session finds its blocks. Whatever shares open it, if the
    session's prefix and band are those derived from the network target, every
    header that is a block under the opened mask has a share hash within the capture
    target, so that it was submitted; and the winners among the accepted shares are
    exactly those whose hash, unmasked, meets the network's proof of work. *)
Theorem opened_session_finds_blocks vs shares opened bits d p :
  0 ≤ d → derive_capture_parameters bits d = Ok p →
  vs.(vs_leading_zero_prefix_q) = p.(cp_leading_zero_prefix_q) → vs.(vs_blind_band_bits_d) = d →
  reconstruct_verified vs shares = Ok opened →
  (∀ h, ok_HnsHeader h → h.(hh_mask) = opened.(om_mask) → verify_pow (hh_pow_hash h) bits = true →
    bytes_le (hh_share_hash h) p.(cp_capture_target)) ∧
  ∀ accepted, Forall (λ s, arr 32 s.(ash_raw_share_hash)) accepted →
    evaluate_accepted_winners opened accepted p.(cp_network_target) =
    ash_share_id <$> filter (λ s, verify_pow (xor_hashes s.(ash_raw_share_hash) opened.(om_mask)) bits = true) accepted.
Proof.
  intros Hd Hp Hq Hb (Hc & Hl & _)%reconstructed_constraints.
  pose proof (derive_capture_parameters_ok bits d p Hp Hd) as (Ht & Hnt & Hnl & _ & _ & Hq0 & _). rewrite Hq, Hb in Hc.
  destruct (mask_constraints_prefix _ _ _ Hc ltac:(lia) Hd) as [Hq256 Hz]. split.
  - intros h Hh Em Hpow. apply (winning_header_captured bits d p h); try done. rewrite Em.
    pose proof (clear_prefix_bound opened.(om_mask) p.(cp_leading_zero_prefix_q)) as Hbound. unfold len in Hbound.
    rewrite Hl in Hbound. apply Hbound; [lia|done].
  - intros accepted Hacc. induction Hacc as [|s accepted Hs _ IH]; [done|].
    unfold evaluate_accepted_winners in *. cbn [omap list_omap]. unfold arr in *.
    assert (bytes_leb (xor_hashes (ash_raw_share_hash s) (om_mask opened)) (cp_network_target p) =
      verify_pow (xor_hashes (ash_raw_share_hash s) (om_mask opened)) bits) as ->.
    { apply eq_bool_prop_intro. rewrite !Is_true_true, bytes_leb_spec.
      rewrite bytes_le_of_be by (unfold xor_hashes; rewrite length_zip_with, Hs, Hl, Hnl; done). rewrite Hnt.
      unfold verify_pow. by rewrite (proj2 (target_guard _) Ht), Z.leb_le. }
    destruct (verify_pow _ bits) eqn:Ev.
    + rewrite filter_cons_True by done. cbn. by rewrite IH.
    + rewrite filter_cons_False by congruence. by rewrite IH.
Qed.
End Blocks.

(** ** A worked example *)

Module MpcWitness.
#[local] Existing Instances toy_digests toy_digests_ok toy_ed25519 toy_ed25519_ok lower_hex_instance lower_hex_ok MemoryStore_laws.
#[local] Instance tape_seed : SeedableRng bytes := {| from_seed seed := concat (replicate 8 seed) |}.

Definition session_request : SetupRequest := mkSetupRequest 2 1 3 7 (replicate 32 x0a) 1 4 2 500 (replicate 32 x0b).
Definition committee : list SigningKey := [replicate 32 x33; replicate 32 x31; replicate 32 x32] : list bytes.
Definition drawn : Hash256 * bytes := default ([], []) (draw_setup_mask 1 session_request).

Lemma drawn_ok : draw_setup_mask 1 session_request = Some drawn.
Proof.
  unfold drawn. destruct (draw_setup_mask 1 session_request) eqn:E; [reflexivity|]. exfalso.
  assert (bool_decide (is_Some (draw_setup_mask (R := bytes) 1 session_request)) = true) as Hs by (vm_compute; reflexivity).
  rewrite E in Hs. discriminate Hs.
Qed.
Lemma committee_valid : validate_request session_request committee = Ok tt.
Proof. vm_compute. reflexivity. Qed.
Lemma request_typed : typed_request session_request.
Proof. unfold typed_request. cbn. lia. Qed.
Lemma alone_masks (n : nat) (s : MemoryStore) (v : View) : represents s v → ∃ v', represents (alone n s) v' ∧ mask_frame v v'.
Proof. intros Hrep. exists v. split; [exact Hrep|reflexivity]. Qed.
Lemma alone_mask_le (n : nat) (s : MemoryStore) (v : View) : represents s v → ∃ v', represents (alone n s) v' ∧ mask_le v v'.
Proof. intros Hrep. exists v. split; [exact Hrep|reflexivity]. Qed.
Definition session_setup : VssSetup := (prepare_setup session_request committee drawn.1 drawn.2).1.
Definition session_shares : list OpeningShare := (prepare_setup session_request committee drawn.1 drawn.2).2.

Lemma mask_session_recovers_witness :
  ewp (setup (R := bytes) (S := MemoryStore) alone 1 session_request committee) ∅ (λ r v', r = Ok (Some session_setup)).
Proof.
  eapply ewp_mono; [|apply (mask_session_recovers alone alone_masks 1 session_request committee drawn.1 drawn.2 ∅)].
  - intros r v' [Hr _]. exact Hr.
  - exact committee_valid.
  - exact request_typed.
  - rewrite drawn_ok. destruct drawn. reflexivity.
  - split; [left; apply lookup_empty|]. split; [apply lookup_empty|]. intros s _. left. apply lookup_empty.
Defined.

Definition opened_mask : OpenedMask := mkOpenedMask drawn.1 (replicate 32 x01) [].
Lemma retired_session_final_witness :
  let '(r, w) := setup (R := bytes) alone 1 session_request committee (0%nat, ∅ : MemoryStore) in
  let '(r', w') := retire_after_audit alone session_setup opened_mask w in
  (is_ok r && is_ok r' && is_ok (retire_after_audit alone session_setup opened_mask w').1 = true) ∧
  (setup (R := bytes) alone 1 session_request committee w').1 = Err SessionRetired.
Proof.
  destruct (retired_session_final (R := bytes) alone alone_mask_le 1 session_request committee ∅ 0%nat ∅ mem_represents_empty)
    as (r & n & s & v & E & Hrep & Hfinal).
  rewrite E. assert (r = Ok (Some session_setup)) as ->.
  { change r with (r, (n, s)).1. rewrite <- E. vm_compute. reflexivity. }
  destruct (Hfinal session_setup opened_mask eq_refl n s Hrep) as (r' & n' & s' & v' & E' & Hrep' & Hrest).
  rewrite E'. assert (is_ok (retire_after_audit alone session_setup opened_mask (n, s)).1 = true ∧
    is_ok (retire_after_audit alone session_setup opened_mask (n', s')).1 = true) as [Hok Hok2].
  { replace (n', s') with (retire_after_audit alone session_setup opened_mask (n, s)).2 by (by rewrite E').
    replace (n, s) with (setup (R := bytes) alone 1 session_request committee (0%nat, ∅ : MemoryStore)).2 by (by rewrite E).
    split; vm_compute; reflexivity. }
  rewrite E' in Hok. cbn [fst] in Hok. destruct r' as [[]|e]; [|discriminate Hok].
  split; [rewrite Hok2; reflexivity|].
  destruct (Hrest eq_refl 1%nat session_request committee eq_refl committee_valid n' s' Hrep') as (r'' & n'' & s'' & v'' & E'' & _ & ->).
  rewrite E''. reflexivity.
Defined.

(** While a set-up is between its check and its writes another process retires
    the session: the set-up still succeeds and writes the opening shares again. *)
Definition retiring (n : nat) (s : MemoryStore) : MemoryStore :=
  if decide (n = 2%nat) then (retire_after_audit alone session_setup opened_mask (0%nat, s)).2.2 else s.
Lemma retirement_race :
  let first := setup (R := bytes) alone 1 session_request committee (0%nat, ∅ : MemoryStore) in
  let second := setup (R := bytes) retiring 1 session_request committee (0%nat, first.2.2) in
  is_ok second.1 = true ∧
  (setup (R := bytes) alone 1 session_request committee (0%nat, second.2.2)).1 = Err SessionRetired ∧
  forallb (λ key, is_ok (load_opening alone session_setup.(vs_session_binding) (verifying_key key) (0%nat, second.2.2)).1)
    committee = true.
Proof. vm_compute. split_and!; reflexivity. Qed.

Definition block_request : SetupRequest := mkSetupRequest 2 1 3 8 (replicate 32 x0a) 46 12 2 500 (replicate 32 x0b).
Definition block_drawn : Hash256 * bytes := default ([], []) (draw_setup_mask 1 block_request).
Definition block_session : VssSetup * list OpeningShare := prepare_setup block_request committee block_drawn.1 block_drawn.2.
Definition winning_share : AcceptedShareHash := mkAcceptedShareHash (replicate 32 x77) block_drawn.1.

Lemma opened_session_finds_blocks_witness :
  ∃ opened p, reconstruct_verified block_session.1 (take 2 block_session.2) = Ok opened ∧
    derive_capture_parameters 0x1925ae67 12 = Ok p ∧
    evaluate_accepted_winners opened [winning_share] p.(cp_network_target) =
    ash_share_id <$> filter (λ s, verify_pow (xor_hashes s.(ash_raw_share_hash) opened.(om_mask)) 0x1925ae67 = true) [winning_share] ∧
    evaluate_accepted_winners opened [winning_share] p.(cp_network_target) = [replicate 32 x77].
Proof.
  assert (match reconstruct_verified block_session.1 (take 2 block_session.2), derive_capture_parameters 0x1925ae67 12 with
    | Ok opened, Ok p => (p.(cp_leading_zero_prefix_q) =? 46)
        && bool_decide (evaluate_accepted_winners opened [winning_share] p.(cp_network_target) = [replicate 32 x77])
    | _, _ => false end = true) as Hc by (vm_compute; reflexivity).
  destruct (reconstruct_verified block_session.1 (take 2 block_session.2)) as [opened|] eqn:Eo; [|discriminate Hc].
  destruct (derive_capture_parameters 0x1925ae67 12) as [p|] eqn:Ep; [|discriminate Hc].
  apply andb_true_iff in Hc as [Hq%Z.eqb_eq Hw%bool_decide_eq_true].
  exists opened, p. split; [reflexivity|]. split; [reflexivity|]. split; [|exact Hw].
  destruct (opened_session_finds_blocks block_session.1 (take 2 block_session.2) opened 0x1925ae67 12 p) as [_ Hwin].
  - lia.
  - exact Ep.
  - rewrite Hq. reflexivity.
  - reflexivity.
  - exact Eo.
  - apply Hwin. constructor; [vm_compute; reflexivity|constructor].
Defined.
End MpcWitness.
