(* ===== verification/Circuit.v ===== *)
(** * The mask-hash circuit (crates/meshmine-mpc-api/src/mask_hash_circuit.rs)

    The Boolean circuit of the mask commitment: the backend trait, BLAKE2b written
    against it, the circuit builder, packed evaluation and the Bristol rendering. *)

From S2P Require Import Prelude Journal.

Definition INPUT_BITS : Z := 512.
Definition OUTPUT_BITS : Z := 256.

Definition IV : list Z :=
  [0x6a09e667f3bcc908; 0xbb67ae8584caa73b; 0x3c6ef372fe94f82b; 0xa54ff53a5f1d36f1;
   0x510e527fade682d1; 0x9b05688c2b3e6c1f; 0x1f83d9abfb41bd6b; 0x5be0cd19137e2179].

Definition SIGMA : list (list nat) :=
  [[0; 1; 2; 3; 4; 5; 6; 7; 8; 9; 10; 11; 12; 13; 14; 15];
   [14; 10; 4; 8; 9; 15; 13; 6; 1; 12; 0; 2; 11; 7; 5; 3];
   [11; 8; 12; 0; 5; 2; 15; 13; 10; 14; 3; 6; 7; 1; 9; 4];
   [7; 9; 3; 1; 13; 12; 11; 14; 2; 6; 5; 10; 4; 0; 15; 8];
   [9; 0; 5; 7; 2; 4; 10; 15; 14; 1; 11; 12; 6; 8; 3; 13];
   [2; 12; 6; 10; 0; 11; 8; 3; 4; 13; 7; 5; 15; 14; 1; 9];
   [12; 5; 1; 15; 14; 13; 4; 10; 0; 7; 6; 3; 9; 2; 8; 11];
   [13; 11; 7; 14; 12; 1; 3; 9; 5; 0; 15; 4; 8; 6; 2; 10];
   [6; 15; 14; 9; 11; 3; 0; 8; 12; 2; 13; 7; 1; 4; 10; 5];
   [10; 2; 8; 4; 7; 6; 1; 5; 15; 11; 9; 14; 3; 12; 13; 0];
   [0; 1; 2; 3; 4; 5; 6; 7; 8; 9; 10; 11; 12; 13; 14; 15];
   [14; 10; 4; 8; 9; 15; 13; 6; 1; 12; 0; 2; 11; 7; 5; 3]]%nat.

(** ** Methods that take [&mut backend] *)

Definition gen (B A : Type) : Type := B → A * B.
#[export] Instance gen_ret {B} : MRet (gen B) := λ A a b, (a, b).
#[export] Instance gen_bind {B} : MBind (gen B) := λ A A' f m b, let '(a, b') := m b in f a b'.

Class BooleanBackend (B W : Type) := {
  bxor : W → W → gen B W;
  band : W → W → gen B W;
  bnot : W → gen B W;
  bconstant : bool → gen B W;
}.

(** [std::array::from_fn], alone and with a variable the closure updates. *)
Fixpoint from_fn_at {B A} (n start : nat) (f : nat → gen B A) : gen B (list A) :=
  match n with
  | O => mret []
  | S n => a ← f start; rest ← from_fn_at n (S start) f; mret (a :: rest)
  end.
Definition from_fn {B A} (n : nat) (f : nat → gen B A) : gen B (list A) := from_fn_at n 0 f.
Fixpoint from_fn_with {B A V} (n start : nat) (f : nat → V → gen B (A * V)) (state : V) : gen B (list A) :=
  match n with
  | O => mret []
  | S n =>
      r ← f start state;
      let '(a, state) := r in
      rest ← from_fn_with n (S start) f state;
      mret (a :: rest)
  end.

(** ** BLAKE2b over a backend *)

Section Generic.
Context {B W : Type} `{!BooleanBackend B W} `{!Inhabited W}.
(** [Word<W>]: 64 wires, the least significant bit first. *)
Abbreviation Word := (list W).

Definition constant_word (value : Z) : gen B Word :=
  from_fn 64 (λ bit, bconstant (Z.land (Z.shiftr value (Z.of_nat bit)) 1 =? 1)).
Definition xor_word (left right : Word) : gen B Word := from_fn 64 (λ bit, bxor (left !!! bit) (right !!! bit)).
Definition add_word (left right : Word) : gen B Word :=
  carry ← bconstant false;
  from_fn_with 64 0 (λ bit carry,
    pair_xor ← bxor (left !!! bit) (right !!! bit);
    sum ← bxor pair_xor carry;
    both ← band (left !!! bit) (right !!! bit);
    propagated ← band carry pair_xor;
    carry ← bxor both propagated;
    mret (sum, carry)) carry.
Definition rotate_right (word : Word) (distance : nat) : Word :=
  (λ bit, word !!! ((bit + distance) mod 64)%nat) <$> seq 0 64.

Definition g (state : list Word) (a b c d : nat) (x y : Word) : gen B (list Word) :=
  a_plus_b ← add_word (state !!! a) (state !!! b);
  new_a ← add_word a_plus_b x;
  let state := <[a := new_a]> state in
  t ← xor_word (state !!! d) (state !!! a);
  let state := <[d := rotate_right t 32]> state in
  t ← add_word (state !!! c) (state !!! d);
  let state := <[c := t]> state in
  t ← xor_word (state !!! b) (state !!! c);
  let state := <[b := rotate_right t 24]> state in
  a_plus_b ← add_word (state !!! a) (state !!! b);
  new_a ← add_word a_plus_b y;
  let state := <[a := new_a]> state in
  t ← xor_word (state !!! d) (state !!! a);
  let state := <[d := rotate_right t 16]> state in
  t ← add_word (state !!! c) (state !!! d);
  let state := <[c := t]> state in
  t ← xor_word (state !!! b) (state !!! c);
  mret (<[b := rotate_right t 63]> state).

(** One round of the loop over [SIGMA]. *)
Definition circuit_round (message : list Word) (state : list Word) (schedule : list nat) : gen B (list Word) :=
  let m i := message !!! (schedule !!! i) in
  state ← g state 0 4 8 12 (m 0%nat) (m 1%nat);
  state ← g state 1 5 9 13 (m 2%nat) (m 3%nat);
  state ← g state 2 6 10 14 (m 4%nat) (m 5%nat);
  state ← g state 3 7 11 15 (m 6%nat) (m 7%nat);
  state ← g state 0 5 10 15 (m 8%nat) (m 9%nat);
  state ← g state 1 6 11 12 (m 10%nat) (m 11%nat);
  state ← g state 2 7 8 13 (m 12%nat) (m 13%nat);
  g state 3 4 9 14 (m 14%nat) (m 15%nat).
Fixpoint circuit_rounds (message : list Word) (state : list Word) (schedules : list (list nat)) : gen B (list Word) :=
  match schedules with
  | [] => mret state
  | schedule :: schedules => state ← circuit_round message state schedule; circuit_rounds message state schedules
  end.

Definition blake2b_256_one_block (input : list W) : gen B (list W) :=
  message ← from_fn 16 (λ word,
    if (word <? 8)%nat then mret ((λ bit, input !!! (word * 64 + bit)%nat) <$> seq 0 64) else constant_word 0);
  hash ← from_fn 8 (λ word, constant_word (IV !!! word));
  parameters ← constant_word 0x01010020;
  first ← xor_word (hash !!! 0%nat) parameters;
  let hash := <[0%nat := first]> hash in
  state ← from_fn 16 (λ word,
    if (word <? 8)%nat then mret (hash !!! word) else constant_word (IV !!! (word - 8)%nat));
  input_length ← constant_word 64;
  t ← xor_word (state !!! 12%nat) input_length;
  let state := <[12%nat := t]> state in
  t ← from_fn 64 (λ bit, bnot ((state !!! 14%nat) !!! bit));
  let state := <[14%nat := t]> state in
  state ← circuit_rounds message state SIGMA;
  digest_words ← from_fn 4 (λ word,
    first ← xor_word (hash !!! word) (state !!! word);
    xor_word first (state !!! (word + 8)%nat));
  mret ((λ bit, (digest_words !!! (bit / 64)%nat) !!! (bit mod 64)%nat) <$> seq 0 256).
End Generic.

(** ** The builder *)

Inductive BooleanGate :=
| GateXor (left right output : Z)
| GateAnd (left right output : Z)
| GateInv (input output : Z).
Inductive CircuitError := WrongInputCount.

(** [gates] is kept with the last gate first; [push] is the constructor. *)
Record CircuitBuilder := mkCircuitBuilder {
  cb_gates : list BooleanGate;
  cb_next_wire : Z;
  cb_zero : option Z;
  cb_one : option Z;
}.
Definition builder_new (input_wires : Z) : CircuitBuilder := mkCircuitBuilder [] input_wires None None.
(** [allocate], then [gates.push]. *)
Definition builder_push (gate : Z → BooleanGate) : gen CircuitBuilder Z := λ b,
  let wire := b.(cb_next_wire) in
  (wire, mkCircuitBuilder (gate wire :: b.(cb_gates)) (wire + 1) b.(cb_zero) b.(cb_one)).
Definition builder_xor (left right : Z) : gen CircuitBuilder Z := builder_push (GateXor left right).
Definition builder_and (left right : Z) : gen CircuitBuilder Z := builder_push (GateAnd left right).
Definition builder_not (input : Z) : gen CircuitBuilder Z := builder_push (GateInv input).
Definition builder_zero : gen CircuitBuilder Z := λ b,
  match b.(cb_zero) with
  | Some zero => (zero, b)
  | None =>
      let '(zero, b) := builder_xor 0 0 b in
      (zero, mkCircuitBuilder b.(cb_gates) b.(cb_next_wire) (Some zero) b.(cb_one))
  end.
Definition builder_constant (value : bool) : gen CircuitBuilder Z := λ b,
  if value then
    match b.(cb_one) with
    | Some one => (one, b)
    | None =>
        let '(zero, b) := builder_zero b in
        let '(one, b) := builder_not zero b in
        (one, mkCircuitBuilder b.(cb_gates) b.(cb_next_wire) b.(cb_zero) (Some one))
    end
  else builder_zero b.
#[export] Instance CircuitBuilder_backend : BooleanBackend CircuitBuilder Z :=
  {| bxor := builder_xor; band := builder_and; bnot := builder_not; bconstant := builder_constant |}.

Record MaskHashCircuit := mkMaskHashCircuit {
  mc_gates : list BooleanGate;
  mc_wire_count : Z;
  mc_output_wires : list Z;
}.
Definition build : MaskHashCircuit :=
  let builder := builder_new INPUT_BITS in
  let input_wires := seqZ 0 INPUT_BITS in
  let '(hash, builder) := blake2b_256_one_block input_wires builder in
  let '(zero, builder) := builder_constant false builder in
  let '(output_wires, builder) := from_fn (Z.to_nat OUTPUT_BITS) (λ index, builder_xor (hash !!! index) zero) builder in
  mkMaskHashCircuit (reverse builder.(cb_gates)) builder.(cb_next_wire) output_wires.
Definition gate_count (c : MaskHashCircuit) : Z := len c.(mc_gates).

(** ** Evaluation *)

(** [wires]: a vector, here a map whose domain is [0..wire_count]; reading or
    writing outside of it panics ([None]). *)
Definition write_wire (wires : gmap Z Z) (output value : Z) : option (gmap Z Z) :=
  _ ← wires !! output; Some (<[output := value]> wires).
Definition eval_gate (wires : gmap Z Z) (gate : BooleanGate) : option (gmap Z Z) :=
  match gate with
  | GateXor a b output => l ← wires !! a; r ← wires !! b; write_wire wires output (Z.lxor l r)
  | GateAnd a b output => l ← wires !! a; r ← wires !! b; write_wire wires output (Z.land l r)
  | GateInv input output => i ← wires !! input; write_wire wires output (Z.lxor i (2 ^ 64 - 1))
  end.
Fixpoint eval_gates (wires : gmap Z Z) (gates : list BooleanGate) : option (gmap Z Z) :=
  match gates with
  | [] => Some wires
  | gate :: gates => wires ← eval_gate wires gate; eval_gates wires gates
  end.
Definition initial_wires (wire_count : Z) (inputs : list Z) : gmap Z Z :=
  list_to_map (zip (seqZ 0 (len inputs)) inputs) ∪ list_to_map ((λ w, (w, 0)) <$> seqZ 0 wire_count).

Definition evaluate_packed (c : MaskHashCircuit) (inputs : list Z) : option (result CircuitError (list Z)) :=
  if negb (len inputs =? INPUT_BITS) then Some (Err WrongInputCount)
  else
    wires ← eval_gates (initial_wires c.(mc_wire_count) inputs) c.(mc_gates);
    outputs ← mapM (λ w, wires !! w) c.(mc_output_wires);
    Some (Ok outputs).

(** ** Rendering *)

Definition line (text : bytes) : bytes := text ++ [x0a].
Definition words (ws : list bytes) : bytes := concat (imap (λ i w, if (i =? 0)%nat then w else str " " ++ w) ws).
Definition render_gate (gate : BooleanGate) : bytes :=
  match gate with
  | GateXor a b wire => line (words [str "2 1"; format_u64 a; format_u64 b; format_u64 wire; str "XOR"])
  | GateAnd a b wire => line (words [str "2 1"; format_u64 a; format_u64 b; format_u64 wire; str "AND"])
  | GateInv input wire => line (words [str "1 1"; format_u64 input; format_u64 wire; str "INV"])
  end.
Definition bristol_string (c : MaskHashCircuit) : bytes :=
  line (words [format_u64 (gate_count c); format_u64 c.(mc_wire_count)]) ++ line (str "2 256 256") ++ line (str "1 256")
  ++ line [] ++ concat (render_gate <$> c.(mc_gates)).
