(* ===== verification/CircuitSafety.v ===== *)
(** * The mask-hash circuit: proofs

    BLAKE2b as RFC 7693 has it, the promise of a Boolean backend, the circuit
    against that promise, and the builder that keeps it. *)

From S2P Require Import Prelude Circuit.

(** ** The reference *)

Module Rfc7693.
(** The initial values are the fractional parts of the square roots of the first
    eight primes. *)
Definition iv : list Z := (λ p, Z.sqrt (p * 2 ^ 128) mod 2 ^ 64) <$> [2; 3; 5; 7; 11; 13; 17; 19].
Definition sigma : list (list nat) :=
  [[0; 1; 2; 3; 4; 5; 6; 7; 8; 9; 10; 11; 12; 13; 14; 15];
   [14; 10; 4; 8; 9; 15; 13; 6; 1; 12; 0; 2; 11; 7; 5; 3];
   [11; 8; 12; 0; 5; 2; 15; 13; 10; 14; 3; 6; 7; 1; 9; 4];
   [7; 9; 3; 1; 13; 12; 11; 14; 2; 6; 5; 10; 4; 0; 15; 8];
   [9; 0; 5; 7; 2; 4; 10; 15; 14; 1; 11; 12; 6; 8; 3; 13];
   [2; 12; 6; 10; 0; 11; 8; 3; 4; 13; 7; 5; 15; 14; 1; 9];
   [12; 5; 1; 15; 14; 13; 4; 10; 0; 7; 6; 3; 9; 2; 8; 11];
   [13; 11; 7; 14; 12; 1; 3; 9; 5; 0; 15; 4; 8; 6; 2; 10];
   [6; 15; 14; 9; 11; 3; 0; 8; 12; 2; 13; 7; 1; 4; 10; 5];
   [10; 2; 8; 4; 7; 6; 1; 5; 15; 11; 9; 14; 3; 12; 13; 0]]%nat.

Definition add64 (a b : Z) : Z := (a + b) mod 2 ^ 64.
Definition rotr64 (x n : Z) : Z := Z.lor (Z.shiftr x n) (Z.land (Z.shiftl x (64 - n)) (2 ^ 64 - 1)).

Definition mix (v : list Z) (a b c d : nat) (x y : Z) : list Z :=
  let v := <[a := add64 (add64 (v !!! a) (v !!! b)) x]> v in
  let v := <[d := rotr64 (Z.lxor (v !!! d) (v !!! a)) 32]> v in
  let v := <[c := add64 (v !!! c) (v !!! d)]> v in
  let v := <[b := rotr64 (Z.lxor (v !!! b) (v !!! c)) 24]> v in
  let v := <[a := add64 (add64 (v !!! a) (v !!! b)) y]> v in
  let v := <[d := rotr64 (Z.lxor (v !!! d) (v !!! a)) 16]> v in
  let v := <[c := add64 (v !!! c) (v !!! d)]> v in
  <[b := rotr64 (Z.lxor (v !!! b) (v !!! c)) 63]> v.

Definition round (m v : list Z) (s : list nat) : list Z :=
  let w i := m !!! (s !!! i) in
  let v := mix v 0 4 8 12 (w 0%nat) (w 1%nat) in
  let v := mix v 1 5 9 13 (w 2%nat) (w 3%nat) in
  let v := mix v 2 6 10 14 (w 4%nat) (w 5%nat) in
  let v := mix v 3 7 11 15 (w 6%nat) (w 7%nat) in
  let v := mix v 0 5 10 15 (w 8%nat) (w 9%nat) in
  let v := mix v 1 6 11 12 (w 10%nat) (w 11%nat) in
  let v := mix v 2 7 8 13 (w 12%nat) (w 13%nat) in
  mix v 3 4 9 14 (w 14%nat) (w 15%nat).
(** Twelve rounds; the schedules repeat after ten. *)
Definition schedules : list (list nat) := (λ i, sigma !!! (i mod 10)%nat) <$> seq 0 12.

(** The compression of the last block, after [t] bytes. *)
Definition compress_last (h m : list Z) (t : Z) : list Z :=
  let v := h ++ iv in
  let v := <[12%nat := Z.lxor (v !!! 12%nat) (t mod 2 ^ 64)]> v in
  let v := <[13%nat := Z.lxor (v !!! 13%nat) (t / 2 ^ 64)]> v in
  let v := <[14%nat := Z.lxor (v !!! 14%nat) (2 ^ 64 - 1)]> v in
  let v := foldl (round m) v schedules in
  (λ i, Z.lxor (Z.lxor (h !!! i) (v !!! i)) (v !!! (i + 8)%nat)) <$> seq 0 8.

(** A message of at most 128 bytes and no key. *)
Definition message_words (message : bytes) : list Z :=
  (λ i, of_le (take 8 (drop (8 * i) (message ++ replicate 128 x00)))) <$> seq 0 16.
Definition blake2b_block (out : Z) (message : bytes) : bytes :=
  let h := <[0%nat := Z.lxor (iv !!! 0%nat) (Z.lxor 0x01010000 out)]> iv in
  take (Z.to_nat out) (concat (to_le 8 <$> compress_last h (message_words message) (len message))).

(** The test vector of the RFC. *)
Example abc : blake2b_block 64 (str "abc") = to_be 64
  0xba80a53f981c4d0d6a2797b69f12f6e94c212f14685ac4b74b12bb6fdbffa2d17d87c5392aab792dc252d5de4533cc9518d38aa8dbf1925ab92386edd4009923.
Proof. vm_compute. reflexivity. Qed.
End Rfc7693.
Import Rfc7693.

Lemma constants_agree : IV = iv ∧ SIGMA = schedules.
Proof. split; vm_compute; reflexivity. Qed.

(** ** What a backend promises

    [carries b w x]: in state [b] the wire [w] carries the bit [x]. Operations only
    extend the state, and wires keep what they carry. *)

Class BooleanBackendLaws (B W : Type) `{!BooleanBackend B W} := {
  sound : B → Prop;
  extends : relation B;
  carries : B → W → bool → Prop;
  extends_preorder :: PreOrder extends;
  carries_mono b b' w x : extends b b' → carries b w x → carries b' w x;
  bxor_spec b l r x y : sound b → carries b l x → carries b r y →
    let '(o, b') := bxor l r b in sound b' ∧ extends b b' ∧ carries b' o (xorb x y);
  band_spec b l r x y : sound b → carries b l x → carries b r y →
    let '(o, b') := band l r b in sound b' ∧ extends b b' ∧ carries b' o (x && y);
  bnot_spec b w x : sound b → carries b w x →
    let '(o, b') := bnot w b in sound b' ∧ extends b b' ∧ carries b' o (negb x);
  bconstant_spec b x : sound b →
    let '(o, b') := bconstant x b in sound b' ∧ extends b b' ∧ carries b' o x;
}.

Section Words.
Context {B W : Type} `{!BooleanBackend B W, !BooleanBackendLaws B W} `{!Inhabited W}.

(** Run in a sound state [b], [m] returns and its result satisfies [Φ] in an
    extension of [b]. *)
Definition gwp {A} (m : gen B A) (b : B) (Φ : A → B → Prop) : Prop :=
  let '(a, b') := m b in sound b' ∧ extends b b' ∧ Φ a b'.

Lemma gwp_ret {A} (a : A) b (Φ : A → B → Prop) : sound b → Φ a b → gwp (mret a) b Φ.
Proof. intros Hs Ha. by split_and!. Qed.
Lemma gwp_bind {A A'} (m : gen B A) (f : A → gen B A') b (Φ : A' → B → Prop) :
  gwp m b (λ a b', sound b' → extends b b' → gwp (f a) b' Φ) → gwp (m ≫= f) b Φ.
Proof.
  unfold gwp, mbind, gen_bind. destruct (m b) as [a b1]. intros (Hs & He & Hf). specialize (Hf Hs He).
  destruct (f a b1) as [a' b2]. destruct Hf as (Hs2 & He2 & Ha). split_and!; [done|by etrans|done].
Qed.
Lemma gwp_mono {A} (m : gen B A) b (Φ Ψ : A → B → Prop) : gwp m b Φ → (∀ a b', extends b b' → Φ a b' → Ψ a b') → gwp m b Ψ.
Proof. unfold gwp. destruct (m b) as [a b1]. intros (? & ? & ?) Himp. split_and!; auto. Qed.

Lemma from_fn_at_gwp {A} n start (f : nat → gen B A) b (Q : nat → A → B → Prop) :
  (∀ i a b1 b2, extends b1 b2 → Q i a b1 → Q i a b2) → sound b →
  (∀ i b', (start ≤ i < start + n)%nat → sound b' → extends b b' → gwp (f i) b' (Q i)) →
  gwp (from_fn_at n start f) b (λ l b', length l = n ∧ ∀ i a, l !! i = Some a → Q (start + i)%nat a b').
Proof.
  intros Hmono. revert start b. induction n as [|n IH]; intros start b Hs Hf; cbn [from_fn_at].
  { apply gwp_ret; done. }
  apply gwp_bind. eapply gwp_mono; [apply (Hf start b); [lia|done|reflexivity]|]. intros a b1 He Ha Hs1 _.
  apply gwp_bind. eapply gwp_mono; [apply (IH (S start) b1 Hs1)|].
  - intros i b' Hi Hs' He'. apply Hf; [lia|done|]. by etrans.
  - intros l b2 He2 [Hl Hq] Hs2 _. apply gwp_ret; [done|]. split; [cbn; by rewrite Hl|].
    intros [|i] a' Hi; cbn in Hi.
    + injection Hi as <-. rewrite Nat.add_0_r. by eapply Hmono.
    + replace (start + S i)%nat with (S start + i)%nat by lia. by apply Hq.
Qed.
Lemma from_fn_gwp {A} n (f : nat → gen B A) b (Q : nat → A → B → Prop) :
  (∀ i a b1 b2, extends b1 b2 → Q i a b1 → Q i a b2) → sound b →
  (∀ i b', (i < n)%nat → sound b' → extends b b' → gwp (f i) b' (Q i)) →
  gwp (from_fn n f) b (λ l b', length l = n ∧ ∀ i a, l !! i = Some a → Q i a b').
Proof. intros Hm Hs Hf. apply (from_fn_at_gwp n 0); [done|done|]. intros i b' Hi. apply Hf. lia. Qed.

(** ** Words *)

Definition word_is (b : B) (w : list W) (z : Z) : Prop :=
  length w = 64%nat ∧ uint 64 z ∧ ∀ i, (i < 64)%nat → carries b (w !!! i) (Z.testbit z (Z.of_nat i)).
Definition words_are (b : B) (ws : list (list W)) (zs : list Z) : Prop := Forall2 (word_is b) ws zs.

Lemma word_is_mono b b' w z : extends b b' → word_is b w z → word_is b' w z.
Proof. intros He (Hl & Hz & Hw). split_and!; [done..|]. intros i Hi. by eapply carries_mono, Hw. Qed.
Lemma words_are_mono b b' ws zs : extends b b' → words_are b ws zs → words_are b' ws zs.
Proof. intros He Hw. eapply Forall2_impl; [exact Hw|]. intros w z. by apply word_is_mono. Qed.
Lemma words_lookup b ws zs i : words_are b ws zs → (i < length zs)%nat → word_is b (ws !!! i) (zs !!! i).
Proof.
  intros Hw Hi. destruct (lookup_lt_is_Some_2 zs i Hi) as [z Hz]. destruct (Forall2_lookup_r _ _ _ _ _ Hw Hz) as (w & Hw' & Hz').
  by rewrite (list_lookup_total_correct _ _ _ Hw'), (list_lookup_total_correct _ _ _ Hz).
Qed.
Lemma words_insert b ws zs i w z : words_are b ws zs → word_is b w z → words_are b (<[i := w]> ws) (<[i := z]> zs).
Proof. intros Hws Hw. by apply Forall2_insert. Qed.

Lemma word_of_fn b (l : list W) z :
  uint 64 z → length l = 64%nat → (∀ i a, l !! i = Some a → carries b a (Z.testbit z (Z.of_nat i))) → word_is b l z.
Proof.
  intros Hz Hl Hc. split_and!; [done..|]. intros i Hi. apply Hc. apply list_lookup_lookup_total_lt. lia.
Qed.
Lemma from_fn_word b (f : nat → gen B W) z :
  sound b → uint 64 z → (∀ i b', (i < 64)%nat → sound b' → extends b b' →
    gwp (f i) b' (λ w b'', carries b'' w (Z.testbit z (Z.of_nat i)))) →
  gwp (from_fn 64 f) b (λ l b', word_is b' l z).
Proof.
  intros Hs Hz Hf. eapply gwp_mono.
  - apply (from_fn_gwp 64 f b (λ i w b', carries b' w (Z.testbit z (Z.of_nat i)))); [|done|done].
    intros i a b1 b2. apply carries_mono.
  - intros l b' _ [Hl Hc]. by apply word_of_fn.
Qed.

Lemma low_bit z i : 0 ≤ i → (Z.land (Z.shiftr z i) 1 =? 1) = Z.testbit z i.
Proof.
  intros Hi. change 1 with (Z.ones 1) at 1. rewrite Z.land_ones, Z.pow_1_r, Zmod_odd, Z.testbit_odd by lia.
  by destruct (Z.odd _).
Qed.
Lemma constant_word_spec b z : sound b → uint 64 z → gwp (constant_word z) b (λ w b', word_is b' w z).
Proof.
  intros Hs Hz. apply from_fn_word; [done|done|]. intros i b' Hi Hs' _. rewrite low_bit by lia. by apply bconstant_spec.
Qed.
Lemma xor_word_spec b l r x y :
  sound b → word_is b l x → word_is b r y → gwp (xor_word l r) b (λ w b', word_is b' w (Z.lxor x y)).
Proof.
  intros Hs (_ & Hx & Hl) (_ & Hy & Hr). apply from_fn_word; [done|by apply lxor_range|]. intros i b' Hi Hs' He.
  rewrite Z.lxor_spec. apply bxor_spec; [done|eapply carries_mono; [done|by apply Hl]|eapply carries_mono; [done|by apply Hr]].
Qed.
Lemma not_word_spec b w x :
  sound b → word_is b w x → gwp (from_fn 64 (λ bit, bnot (w !!! bit))) b (λ w' b', word_is b' w' (Z.lxor x (2 ^ 64 - 1))).
Proof.
  intros Hs (_ & Hx & Hw). apply from_fn_word; [done|apply lxor_range; [lia|done|unfold uint; lia]|]. intros i b' Hi Hs' He.
  rewrite Z.lxor_spec. change (2 ^ 64 - 1) with (Z.ones 64). rewrite (Z.ones_spec_low 64) by lia. rewrite xorb_true_r.
  apply bnot_spec; [done|]. eapply carries_mono; [done|by apply Hw].
Qed.

(** The full adder, bit by bit. *)
Definition carry_into (a b k : Z) : bool := Z.testbit (a mod 2 ^ k + b mod 2 ^ k) k.
Lemma div_testbit a k : 0 ≤ k → Z.testbit a k = Z.odd (a / 2 ^ k).
Proof. intros Hk. rewrite Z.testbit_odd, Z.shiftr_div_pow2 by done. done. Qed.
Lemma add_bit a b k :
  0 ≤ a → 0 ≤ b → 0 ≤ k →
  Z.testbit (a + b) k = xorb (xorb (Z.testbit a k) (Z.testbit b k)) (carry_into a b k) ∧
  carry_into a b (k + 1) =
    xorb (Z.testbit a k && Z.testbit b k) (carry_into a b k && xorb (Z.testbit a k) (Z.testbit b k)).
Proof.
  intros Ha Hb Hk. unfold carry_into. rewrite !div_testbit by lia. pose proof (Z.pow_pos_nonneg 2 k ltac:(lia) Hk) as HP.
  rewrite Z.pow_add_r by lia. change (2 ^ 1) with 2. set (P := 2 ^ k) in *.
  rewrite (Z.rem_mul_r a P 2), (Z.rem_mul_r b P 2) by lia.
  pose proof (Z.mod_pos_bound a P HP). pose proof (Z.mod_pos_bound b P HP).
  assert (∀ u w, (u + P * w) / P = w + u / P) as Hdiv by (intros u w; rewrite Z.mul_comm, Z.div_add by lia; lia).
  replace (a + b) with (a mod P + b mod P + P * (a / P + b / P)) by (pose proof (Z.div_mod a P); pose proof (Z.div_mod b P); lia).
  replace (a mod P + P * (a / P mod 2) + (b mod P + P * (b / P mod 2))) with (a mod P + b mod P + P * (a / P mod 2 + b / P mod 2)) by lia.
  rewrite <- Z.div_div, !Hdiv by lia. rewrite !Zmod_odd.
  assert (0 ≤ (a mod P + b mod P) / P ≤ 1) as Hc.
  { split; [apply Z.div_pos; lia|]. apply Z.lt_succ_r, Z.div_lt_upper_bound; lia. }
  rewrite !Z.odd_add. generalize dependent ((a mod P + b mod P) / P). intros c Hc.
  assert (c = 0 ∨ c = 1) as [-> | ->] by lia; destruct (Z.odd (a / P)), (Z.odd (b / P)); done.
Qed.

Lemma from_fn_with_gwp {A V} n start (f : nat → V → gen B (A * V)) v b (Q : nat → A → B → Prop) (J : nat → V → B → Prop) :
  (∀ i a b1 b2, extends b1 b2 → Q i a b1 → Q i a b2) → sound b → J start v b →
  (∀ i v b', (start ≤ i < start + n)%nat → sound b' → extends b b' → J i v b' →
    gwp (f i v) b' (λ r b'', Q i r.1 b'' ∧ J (S i) r.2 b'')) →
  gwp (from_fn_with n start f v) b (λ l b', length l = n ∧ ∀ i a, l !! i = Some a → Q (start + i)%nat a b').
Proof.
  intros Hmono. revert start v b. induction n as [|n IH]; intros start v b Hs Hj Hf; cbn [from_fn_with].
  { apply gwp_ret; done. }
  apply gwp_bind. eapply gwp_mono; [apply (Hf start v b); [lia|done|reflexivity|done]|].
  intros [a v'] b1 He [Ha Hj'] Hs1 _. cbn [fst snd] in Ha, Hj'.
  apply gwp_bind. eapply gwp_mono; [apply (IH (S start) v' b1 Hs1 Hj')|].
  - intros i v'' b' Hi Hs' He'. apply Hf; [lia|done|]. by etrans.
  - intros l b2 He2 [Hl Hq] Hs2 _. apply gwp_ret; [done|]. split; [cbn; by rewrite Hl|].
    intros [|i] a' Hi; cbn in Hi.
    + injection Hi as <-. rewrite Nat.add_0_r. by eapply Hmono.
    + replace (start + S i)%nat with (S start + i)%nat by lia. by apply Hq.
Qed.

Lemma add64_range x y : uint 64 (add64 x y).
Proof. unfold uint, add64. apply Z.mod_pos_bound. lia. Qed.
Lemma gwp_step {A A'} (m : gen B A) (f : A → gen B A') b (Φ : A → B → Prop) (Ψ : A' → B → Prop) :
  gwp m b Φ → (∀ a b', sound b' → extends b b' → Φ a b' → gwp (f a) b' Ψ) → gwp (m ≫= f) b Ψ.
Proof. intros Hm Hf. apply gwp_bind. eapply gwp_mono; [exact Hm|]. intros a b' He Ha Hs _. by apply Hf. Qed.

Lemma add_word_spec b l r x y :
  sound b → word_is b l x → word_is b r y → gwp (add_word l r) b (λ w b', word_is b' w (add64 x y)).
Proof.
  intros Hs (_ & Hx & Hl) (_ & Hy & Hr). unfold add_word. eapply gwp_step; [by apply (bconstant_spec b false)|].
  intros carry b1 Hs1 He1 Hc. eapply gwp_mono.
  - apply (from_fn_with_gwp 64 0 _ carry b1 (λ i w b', carries b' w (Z.testbit (add64 x y) (Z.of_nat i)))
      (λ i c b', carries b' c (carry_into x y (Z.of_nat i)))).
    + intros i a b2 b3. apply carries_mono.
    + done.
    + change (carry_into x y (Z.of_nat 0)) with (Z.testbit (x mod 1 + y mod 1) 0). by rewrite !Z.mod_1_r.
    + intros i c b2 Hi Hs2 He2 Hci. destruct (add_bit x y (Z.of_nat i)) as [Hsum Hcarry]; [apply Hx|apply Hy|lia|].
      assert (extends b b2) as He by (by etrans).
      pose proof (carries_mono _ _ _ _ He (Hl i ltac:(lia))) as Hli. pose proof (carries_mono _ _ _ _ He (Hr i ltac:(lia))) as Hri.
      eapply gwp_step; [by apply (bxor_spec b2 _ _ _ _ Hs2 Hli Hri)|]. intros px b3 Hs3 He3 Hpx.
      eapply gwp_step; [by apply (bxor_spec b3 _ _ _ _ Hs3 Hpx (carries_mono _ _ _ _ He3 Hci))|]. intros sum b4 Hs4 He4 Hsm.
      assert (extends b2 b4) as He24 by (by etrans).
      eapply gwp_step; [by apply (band_spec b4 _ _ _ _ Hs4 (carries_mono _ _ _ _ He24 Hli) (carries_mono _ _ _ _ He24 Hri))|].
      intros both b5 Hs5 He5 Hboth.
      assert (extends b2 b5 ∧ extends b3 b5) as [He25 He35] by (split; by etrans).
      eapply gwp_step; [by apply (band_spec b5 _ _ _ _ Hs5 (carries_mono _ _ _ _ He25 Hci) (carries_mono _ _ _ _ He35 Hpx))|].
      intros prop b6 Hs6 He6 Hprop.
      eapply gwp_step; [by apply (bxor_spec b6 _ _ _ _ Hs6 (carries_mono _ _ _ _ He6 Hboth) Hprop)|].
      intros carry' b7 Hs7 He7 Hcarry'. apply gwp_ret; [done|]. cbn [fst snd]. split.
      * unfold add64. rewrite Z.mod_pow2_bits_low by lia. rewrite Hsum.
        apply (carries_mono b4); [by do 2 (etrans; [eassumption|])|exact Hsm].
      * rewrite Nat2Z.inj_succ, <- Z.add_1_r, Hcarry. exact Hcarry'.
  - intros w b' _ [Hlen Hq]. apply word_of_fn; [apply add64_range|done|exact Hq].
Qed.

Lemma rotr64_testbit z d i :
  uint 64 z → 0 < d < 64 → 0 ≤ i < 64 → Z.testbit (rotr64 z d) i = Z.testbit z ((i + d) mod 64).
Proof.
  intros Hz Hd Hi. unfold rotr64. rewrite Z.lor_spec, Z.shiftr_spec, Z.land_spec, Z.shiftl_spec by lia.
  change (2 ^ 64 - 1) with (Z.ones 64). rewrite Z.ones_spec_low, andb_true_r by lia.
  destruct (Z.lt_ge_cases (i + d) 64) as [Hlt|Hge].
  - rewrite Z.mod_small by lia. rewrite (Z.testbit_neg_r _ (i - (64 - d))), orb_false_r by lia. done.
  - replace ((i + d) mod 64) with (i + d - 64) by (rewrite <- (Z.mod_small (i + d - 64) 64), <- (Z.mod_add (i + d - 64) 1 64) by lia; f_equal; lia).
    rewrite <- (Z.mod_small z (2 ^ 64) Hz) at 1. rewrite Z.mod_pow2_bits_high, orb_false_l by lia. f_equal. lia.
Qed.
Lemma rotr64_range z d : uint 64 z → 0 < d < 64 → uint 64 (rotr64 z d).
Proof.
  intros [Hz0 Hz] Hd. unfold rotr64. assert (0 ≤ Z.shiftr z d) by (by apply Z.shiftr_nonneg).
  assert (uint 64 (Z.land (Z.shiftl z (64 - d)) (2 ^ 64 - 1))) as [Hr0 Hr].
  { change (2 ^ 64 - 1) with (Z.ones 64). rewrite Z.land_ones by lia. unfold uint. apply Z.mod_pos_bound. lia. }
  assert (Z.shiftr z d < 2 ^ 64) as Hs.
  { rewrite Z.shiftr_div_pow2 by lia. apply Z.div_lt_upper_bound; [lia|]. pose proof (Z.pow_le_mono_r 2 0 d). lia. }
  assert (∀ a, 0 ≤ a → a < 2 ^ 64 → Z.log2 a < 64) as Hl.
  { intros a Ha Hlt. destruct (Z.eq_dec a 0) as [->|]; [done|]. apply Z.log2_lt_pow2; lia. }
  split; [by apply Z.lor_nonneg|]. destruct (Z.eq_dec (Z.lor (Z.shiftr z d) (Z.land (Z.shiftl z (64 - d)) (2 ^ 64 - 1))) 0) as [->|Hne]; [done|].
  apply Z.log2_lt_pow2; [pose proof (proj2 (Z.lor_nonneg (Z.shiftr z d) (Z.land (Z.shiftl z (64 - d)) (2 ^ 64 - 1))) ltac:(done)); lia|].
  rewrite Z.log2_lor by done. apply Z.max_lub_lt; by apply Hl.
Qed.
Lemma rotate_right_spec b w z d : word_is b w z → (0 < d < 64)%nat → word_is b (rotate_right w d) (rotr64 z (Z.of_nat d)).
Proof.
  intros (Hl & Hz & Hw) Hd. apply word_of_fn; [apply rotr64_range; [done|lia]|done|].
  intros i a Hi. unfold rotate_right in Hi. rewrite list_lookup_fmap in Hi. apply fmap_Some in Hi as (k & [-> Hk]%lookup_seq & ->).
  rewrite Nat.add_0_l, rotr64_testbit by (done || lia). rewrite <- Nat2Z.inj_add, <- (Nat2Z.inj_mod _ 64).
  apply Hw. apply Nat.mod_upper_bound. lia.
Qed.

(** ** The compression *)

Ltac lift_words He :=
  repeat match goal with
    | H : word_is ?b _ _ |- _ => lazymatch type of He with extends b _ => apply (word_is_mono _ _ _ _ He) in H end
    | H : words_are ?b _ _ |- _ => lazymatch type of He with extends b _ => apply (words_are_mono _ _ _ _ He) in H end
    end.
Ltac word_op lem Hw :=
  eapply gwp_step; [eapply lem; [eassumption|..]; first [eassumption | apply words_lookup; [eassumption|]; rewrite ?length_insert; lia]|];
  let w := fresh "w" in let b := fresh "b" in let Hs := fresh "Hs" in let He := fresh "He" in
  intros w b Hs He Hw; cbv beta in Hw; lift_words He; clear He.
Ltac rotated Hw d := apply (rotate_right_spec _ _ _ d) in Hw; [|lia].
Ltac stored Hst i Hw := apply (words_insert _ _ _ i _ _ Hst) in Hw; clear Hst; rename Hw into Hst.

Lemma g_spec b ws zs i j k l x y X Y :
  sound b → words_are b ws zs → word_is b x X → word_is b y Y →
  (i < length zs)%nat → (j < length zs)%nat → (k < length zs)%nat → (l < length zs)%nat →
  gwp (g ws i j k l x y) b (λ ws' b', words_are b' ws' (mix zs i j k l X Y)).
Proof.
  intros Hs Hst Hx Hy Hi Hj Hk Hl. unfold g, mix. cbv zeta.
  word_op add_word_spec Hab. word_op add_word_spec Ha. stored Hst i Ha.
  word_op xor_word_spec Hd. rotated Hd 32%nat. stored Hst l Hd.
  word_op add_word_spec Hc. stored Hst k Hc.
  word_op xor_word_spec Hb. rotated Hb 24%nat. stored Hst j Hb.
  word_op add_word_spec Hab'. word_op add_word_spec Ha. stored Hst i Ha.
  word_op xor_word_spec Hd. rotated Hd 16%nat. stored Hst l Hd.
  word_op add_word_spec Hc. stored Hst k Hc.
  word_op xor_word_spec Hb. rotated Hb 63%nat. stored Hst j Hb.
  by apply gwp_ret.
Qed.
Lemma mix_length zs i j k l x y : length (mix zs i j k l x y) = length zs.
Proof. unfold mix. cbv zeta. by rewrite !length_insert. Qed.

Lemma round_spec b message ms ws zs schedule :
  sound b → words_are b message ms → words_are b ws zs → length ms = 16%nat → length zs = 16%nat →
  length schedule = 16%nat → Forall (λ i, i < 16)%nat schedule →
  gwp (circuit_round message ws schedule) b (λ ws' b', words_are b' ws' (round ms zs schedule)).
Proof.
  intros Hs Hm Hst Hml Hzl Hsl Hsch. unfold circuit_round, round. cbv zeta.
  assert (∀ b' i, words_are b' message ms → (i < 16)%nat → word_is b' (message !!! (schedule !!! i)) (ms !!! (schedule !!! i))) as Hmsg.
  { intros b' i Hm' Hi. apply words_lookup; [done|]. rewrite Hml. rewrite Forall_forall in Hsch. apply Hsch.
    eapply list_elem_of_lookup_2, list_lookup_lookup_total_lt. lia. }
  do 7 (eapply gwp_step; [eapply g_spec;
      [eassumption|eassumption|apply Hmsg; [eassumption|lia]|apply Hmsg; [eassumption|lia]|rewrite ?mix_length; lia..]|];
    let He := fresh "He" in clear Hst; intros ? ? ? He Hst; cbv beta in Hst; lift_words He; clear He).
  apply g_spec; [eassumption|eassumption|apply Hmsg; [eassumption|lia]|apply Hmsg; [eassumption|lia]|rewrite ?mix_length; lia..].
Qed.
Lemma round_length ms zs schedule : length (round ms zs schedule) = length zs.
Proof. unfold round. cbv zeta. by rewrite !mix_length. Qed.

Lemma rounds_spec b message ms ws zs schedules :
  sound b → words_are b message ms → words_are b ws zs → length ms = 16%nat → length zs = 16%nat →
  Forall (λ s, length s = 16%nat ∧ Forall (λ i, i < 16)%nat s) schedules →
  gwp (circuit_rounds message ws schedules) b (λ ws' b', words_are b' ws' (foldl (round ms) zs schedules)).
Proof.
  intros Hs Hm Hst Hml Hzl Hsch. revert b ws zs Hs Hm Hst Hzl.
  induction Hsch as [|s ss [Hs1 Hs2] _ IH]; intros b ws zs Hs Hm Hst Hzl; cbn [circuit_rounds foldl]; [by apply gwp_ret|].
  eapply gwp_step; [by apply round_spec|]. intros ws' b' Hs' He Hws. cbv beta in Hws. lift_words He.
  apply IH; [done|done|done|by rewrite round_length].
Qed.

Lemma from_fn_words b n (f : nat → gen B (list W)) zs :
  sound b → length zs = n →
  (∀ i b', (i < n)%nat → sound b' → extends b b' → gwp (f i) b' (λ w b'', word_is b'' w (zs !!! i))) →
  gwp (from_fn n f) b (λ ws b', words_are b' ws zs).
Proof.
  intros Hs Hl Hf. eapply gwp_mono.
  - apply (from_fn_gwp n f b (λ i w b', word_is b' w (zs !!! i))); [|done|done]. intros i w b1 b2. apply word_is_mono.
  - intros ws b' _ [Hlen Hw]. apply Forall2_same_length_lookup_2; [by rewrite Hlen|]. intros i w z Hi Hz.
    apply Hw in Hi. by rewrite (list_lookup_total_correct _ _ _ Hz) in Hi.
Qed.

Lemma iv_range i : (i < 8)%nat → uint 64 (iv !!! i).
Proof.
  intros Hi. assert (Forall (uint 64) iv) as Hiv by (repeat constructor; unfold uint; vm_compute; done).
  rewrite Forall_forall in Hiv. apply Hiv. eapply list_elem_of_lookup_2, list_lookup_lookup_total_lt. by vm_compute.
Qed.
Lemma schedules_ok : Forall (λ s, length s = 16%nat ∧ Forall (λ i, i < 16)%nat s) schedules.
Proof.
  assert (forallb (λ s, (length s =? 16)%nat && forallb (λ i, i <? 16)%nat s) schedules = true) as Hc by (vm_compute; reflexivity).
  rewrite forallb_forall in Hc. apply Forall_forall. intros s Hs%list_elem_of_In%Hc. apply andb_true_iff in Hs as [Hl Hi].
  split; [by apply Nat.eqb_eq|]. rewrite forallb_forall in Hi. apply Forall_forall. intros i Hi'%list_elem_of_In%Hi. by apply Nat.ltb_lt.
Qed.

(** The message words of a single block of sixty-four bytes. *)
Definition input_words (b : B) (input : list W) (ms : list Z) : Prop :=
  length ms = 16%nat ∧ (∀ k, (k < 8)%nat → word_is b ((λ bit, input !!! (k * 64 + bit)%nat) <$> seq 0 64) (ms !!! k)) ∧
  ∀ k, (8 ≤ k < 16)%nat → ms !!! k = 0.

Definition initial_hash : list Z := <[0%nat := Z.lxor (iv !!! 0%nat) (Z.lxor 0x01010000 32)]> iv.
Lemma lookup_total_app_l' {A} `{!Inhabited A} (l1 l2 : list A) i : (i < length l1)%nat → (l1 ++ l2) !!! i = l1 !!! i.
Proof. intros Hi. rewrite !list_lookup_total_alt, lookup_app_l by done. done. Qed.
Lemma lookup_total_app_r' {A} `{!Inhabited A} (l1 l2 : list A) i : (length l1 ≤ i)%nat → (l1 ++ l2) !!! i = l2 !!! (i - length l1)%nat.
Proof. intros Hi. rewrite !list_lookup_total_alt, lookup_app_r by done. done. Qed.

Lemma lookup_total_take' {A} `{!Inhabited A} (l : list A) n i : (i < n)%nat → take n l !!! i = l !!! i.
Proof. intros Hi. by rewrite !list_lookup_total_alt, lookup_take_lt by done. Qed.

Lemma blake2b_256_one_block_spec b input ms :
  sound b → input_words b input ms →
  gwp (blake2b_256_one_block input) b (λ out b', length out = 256%nat ∧
    Forall (uint 64) (take 4 (compress_last initial_hash ms 64)) ∧
    ∀ i, (i < 256)%nat → carries b' (out !!! i)
      (Z.testbit (compress_last initial_hash ms 64 !!! (i / 64)%nat) (Z.of_nat (i mod 64)%nat))).
Proof.
  intros Hs (Hml & Hin & Hzero). destruct constants_agree as [EIV ESIGMA]. unfold blake2b_256_one_block. rewrite EIV, ESIGMA.
  assert (length iv = 8%nat) as Hiv by by vm_compute.
  eapply gwp_step; [apply (from_fn_words _ _ _ ms); [done|done|]|].
  { intros i b' Hi Hs' He. destruct (Nat.ltb_spec i 8).
    - apply gwp_ret; [done|]. eapply word_is_mono; [done|]. by apply Hin.
    - rewrite Hzero by lia. by apply constant_word_spec. }
  intros message b1 Hs1 He1 Hm. cbv beta in Hm.
  eapply gwp_step; [apply (from_fn_words _ _ _ iv); [done|done|]|].
  { intros i b' Hi Hs' He. apply constant_word_spec; [done|]. by apply iv_range. }
  intros hash b2 Hs2 He2 Hh. cbv beta in Hh. lift_words He2.
  eapply gwp_step; [by apply constant_word_spec|]. intros params b3 Hs3 He3 Hp. cbv beta in Hp. lift_words He3.
  word_op xor_word_spec Hfirst. stored Hh 0%nat Hfirst. change (<[0%nat := _]> iv) with initial_hash in Hh.
  assert (length initial_hash = 8%nat) as Hih by by vm_compute.
  eapply gwp_step; [apply (from_fn_words _ _ _ (initial_hash ++ iv)); [done|by vm_compute|]|].
  { intros i b' Hi Hs' He. destruct (Nat.ltb_spec i 8).
    - apply gwp_ret; [done|]. rewrite lookup_total_app_l' by lia. eapply word_is_mono; [done|]. apply words_lookup; [done|lia].
    - rewrite lookup_total_app_r', Hih by lia. apply constant_word_spec; [done|]. apply iv_range. lia. }
  intros state b5 Hs5 He5 Hst. cbv beta in Hst. lift_words He5.
  eapply gwp_step; [by apply (constant_word_spec _ 64)|]. intros ilen b6 Hs6 He6 Hlen. cbv beta in Hlen. lift_words He6.
  assert (length (initial_hash ++ iv) = 16%nat) as Hl16 by by vm_compute.
  word_op xor_word_spec H12. stored Hst 12%nat H12.
  eapply gwp_step; [apply not_word_spec; [eassumption|apply words_lookup; [eassumption|rewrite length_insert; lia]]|].
  intros t b8 Hs8 He8 Ht. cbv beta in Ht. lift_words He8. stored Hst 14%nat Ht.
  eapply gwp_step; [apply rounds_spec; [done|eassumption|eassumption|done|by rewrite !length_insert|apply schedules_ok]|].
  intros final b9 Hs9 He9 Hf. cbv beta in Hf. lift_words He9.
  set (vfinal := foldl (round ms) _ schedules) in Hf.
  assert (length vfinal = 16%nat) as Hvl.
  { unfold vfinal. generalize schedules. intros l. assert (∀ zs, length zs = 16%nat → length (foldl (round ms) zs l) = 16%nat) as Hfold.
    { induction l as [|s l IH]; intros zs Hz; [done|]. cbn [foldl]. apply IH. by rewrite round_length. }
    apply Hfold. by rewrite !length_insert. }
  assert (compress_last initial_hash ms 64 =
    (λ i, Z.lxor (Z.lxor (initial_hash !!! i) (vfinal !!! i)) (vfinal !!! (i + 8)%nat)) <$> seq 0 8) as Ecomp.
  { unfold compress_last, vfinal. cbv zeta. change (64 mod 2 ^ 64) with 64. change (64 / 2 ^ 64) with 0. rewrite Z.lxor_0_r.
    assert (∀ (l : list Z) i, <[i := l !!! i]> l = l) as Hid.
    { intros l i. destruct (l !! i) as [x|] eqn:E; [rewrite (list_lookup_total_correct _ _ _ E); by apply list_insert_id|].
      apply list_insert_ge. by apply lookup_ge_None. }
    by rewrite Hid. }
  assert (∀ j, (j < 8)%nat → compress_last initial_hash ms 64 !!! j =
    Z.lxor (Z.lxor (initial_hash !!! j) (vfinal !!! j)) (vfinal !!! (j + 8)%nat)) as Hcomp.
  { intros j Hj. rewrite Ecomp. apply list_lookup_total_correct. rewrite list_lookup_fmap, lookup_seq_lt by done. done. }
  eapply gwp_step; [apply (from_fn_words _ _ _ (take 4 (compress_last initial_hash ms 64))); [done|by rewrite Ecomp|]|].
  { intros i b' Hi Hs' He. lift_words He. rewrite lookup_total_take' by done. rewrite Hcomp by lia.
    word_op xor_word_spec Hx. apply xor_word_spec; [done|done|]. apply words_lookup; [done|lia]. }
  intros digest b10 Hs10 He10 Hd. cbv beta in Hd. apply gwp_ret; [done|]. split; [done|]. split.
  { apply Forall_lookup. intros j z Hj. by destruct (Forall2_lookup_r _ _ _ _ _ Hd Hj) as (? & _ & _ & ? & _). }
  intros i Hi. rewrite (list_lookup_total_correct _ _ _ (eq_trans (list_lookup_fmap _ _ _) (f_equal _ (lookup_seq_lt 0 256 i Hi)))).
  cbn [fmap option_fmap option_map]. rewrite Nat.add_0_l.
  assert (i / 64 < 4)%nat as Hq by (apply Nat.Div0.div_lt_upper_bound; lia).
  destruct (words_lookup _ _ _ (i / 64) Hd) as (_ & _ & Hc); [rewrite Ecomp; done|].
  rewrite lookup_total_take' in Hc by done. apply Hc, Nat.mod_upper_bound. lia.
Qed.
End Words.

(** ** The builder keeps the promise *)

Section Builder.
Context (inputs : list Z) (lane : Z).
Hypothesis inputs_length : len inputs = INPUT_BITS.
Hypothesis lane_range : 0 ≤ lane < 64.

(** The values of the wires that exist, gate after gate. *)
Definition input_map : gmap Z Z := list_to_map (zip (seqZ 0 (len inputs)) inputs).
Definition add_gate (m : gmap Z Z) (gate : BooleanGate) : option (gmap Z Z) :=
  match gate with
  | GateXor a b output => l ← m !! a; r ← m !! b; Some (<[output := Z.lxor l r]> m)
  | GateAnd a b output => l ← m !! a; r ← m !! b; Some (<[output := Z.land l r]> m)
  | GateInv input output => i ← m !! input; Some (<[output := Z.lxor i (2 ^ 64 - 1)]> m)
  end.
Fixpoint values (gates : list BooleanGate) : option (gmap Z Z) :=
  match gates with
  | [] => Some input_map
  | gate :: gates => m ← values gates; add_gate m gate
  end.

Definition lane_at (m : gmap Z Z) (w : Z) (x : bool) : Prop := ∃ z, m !! w = Some z ∧ Z.testbit z lane = x.
Definition builder_sound (b : CircuitBuilder) : Prop :=
  ∃ m, values b.(cb_gates) = Some m ∧ 1 ≤ b.(cb_next_wire) ∧ (∀ w, is_Some (m !! w) ↔ 0 ≤ w < b.(cb_next_wire)) ∧
    (∀ w, b.(cb_zero) = Some w → lane_at m w false) ∧ (∀ w, b.(cb_one) = Some w → lane_at m w true).
Definition builder_extends (b b' : CircuitBuilder) : Prop :=
  ∀ m, values b.(cb_gates) = Some m → ∃ m', values b'.(cb_gates) = Some m' ∧ m ⊆ m'.
Definition builder_carries (b : CircuitBuilder) (w : Z) (x : bool) : Prop :=
  ∃ m, values b.(cb_gates) = Some m ∧ lane_at m w x.

Lemma lane_at_mono m m' w x : m ⊆ m' → lane_at m w x → lane_at m' w x.
Proof. intros Hm (z & Hz & Hx). exists z. split; [by eapply lookup_weaken|done]. Qed.

Lemma builder_push_spec b m gate z x :
  builder_sound b → values b.(cb_gates) = Some m → Z.testbit z lane = x →
  add_gate m (gate b.(cb_next_wire)) = Some (<[b.(cb_next_wire) := z]> m) →
  let '(o, b') := builder_push gate b in
  builder_sound b' ∧ builder_extends b b' ∧ builder_carries b' o x ∧ b'.(cb_zero) = b.(cb_zero) ∧ b'.(cb_one) = b.(cb_one).
Proof.
  intros (m' & Hm' & H1 & Hdom & Hz & Ho) Hm Hx Hadd. rewrite Hm in Hm'. injection Hm' as <-. cbn [builder_push].
  assert (m !! b.(cb_next_wire) = None) as Hnew.
  { apply eq_None_not_Some. intros Hs%Hdom. lia. }
  assert (m ⊆ <[b.(cb_next_wire) := z]> m) as Hsub by (by apply insert_subseteq).
  assert (values (gate b.(cb_next_wire) :: b.(cb_gates)) = Some (<[b.(cb_next_wire) := z]> m)) as Hv by (cbn [values]; by rewrite Hm).
  split_and!; [| | |done|done].
  - eexists. split; [exact Hv|]. cbn [cb_next_wire cb_zero cb_one]. split_and!; [lia| | |].
    + intros w. rewrite lookup_insert_is_Some, Hdom. lia.
    + intros w Hw. by eapply lane_at_mono, Hz.
    + intros w Hw. by eapply lane_at_mono, Ho.
  - intros m' Hm'. rewrite Hm in Hm'. injection Hm' as <-. eexists. split; [exact Hv|done].
  - eexists. split; [exact Hv|]. exists z. split; [apply lookup_insert_eq|done].
Qed.

Lemma builder_zero_spec b : builder_sound b →
  let '(o, b') := builder_zero b in builder_sound b' ∧ builder_extends b b' ∧ builder_carries b' o false ∧ b'.(cb_one) = b.(cb_one).
Proof.
  intros Hs. pose proof Hs as (m & Hm & H1 & Hdom & Hz & Ho). unfold builder_zero. destruct (cb_zero b) as [w|] eqn:Ez.
  { split_and!; [done|intros m' ?; by exists m'|exists m; split; [done|by apply Hz]|done]. }
  destruct (proj2 (Hdom 0) ltac:(lia)) as [z0 Hz0].
  pose proof (builder_push_spec b m (GateXor 0 0) (Z.lxor z0 z0) false Hs Hm) as Hp. unfold builder_xor.
  destruct (builder_push (GateXor 0 0) b) as [o b1].
  destruct Hp as ((m1 & Hm1 & H1' & Hdom1 & _ & Ho1) & He & Hc & _ & Eone).
  { by rewrite Z.lxor_nilpotent, Z.bits_0. }
  { cbn. by rewrite Hz0. }
  split_and!; [|done|done|done].
  exists m1. cbn [cb_gates cb_next_wire cb_zero cb_one]. split_and!; [done..| |done].
  intros w [= <-]. destruct Hc as (m' & Hm' & Hl). congruence.
Qed.

#[export] Program Instance builder_laws : BooleanBackendLaws CircuitBuilder Z :=
  {| sound := builder_sound; extends := builder_extends; carries := builder_carries |}.
Next Obligation.
  split; [intros b m Hm; by exists m|]. intros b1 b2 b3 H1 H2 m Hm. destruct (H1 m Hm) as (m2 & Hm2 & Hs2).
  destruct (H2 m2 Hm2) as (m3 & Hm3 & Hs3). exists m3. split; [done|]. by etrans.
Qed.
Next Obligation.
  intros b b' w x He (m & Hm & Hl). destruct (He m Hm) as (m' & Hm' & Hs). exists m'. split; [done|]. by eapply lane_at_mono.
Qed.
Next Obligation.
  intros b l r x y Hs (m & Hm & zl & Hl & Hx) (m' & Hm' & zr & Hr & Hy). assert (m' = m) as -> by congruence.
  pose proof (builder_push_spec b m (GateXor l r) (Z.lxor zl zr) (xorb x y) Hs Hm) as Hp. cbn [bxor CircuitBuilder_backend].
  unfold builder_xor. destruct (builder_push _ b). destruct Hp as (? & ? & ? & _); [by rewrite Z.lxor_spec, Hx, Hy|cbn; by rewrite Hl; cbn; rewrite Hr|].
  by split_and!.
Qed.
Next Obligation.
  intros b l r x y Hs (m & Hm & zl & Hl & Hx) (m' & Hm' & zr & Hr & Hy). assert (m' = m) as -> by congruence.
  pose proof (builder_push_spec b m (GateAnd l r) (Z.land zl zr) (x && y) Hs Hm) as Hp. cbn [band CircuitBuilder_backend].
  unfold builder_and. destruct (builder_push _ b). destruct Hp as (? & ? & ? & _); [by rewrite Z.land_spec, Hx, Hy|cbn; by rewrite Hl; cbn; rewrite Hr|].
  by split_and!.
Qed.
Next Obligation.
  intros b w x Hs (m & Hm & z & Hz & Hx).
  pose proof (builder_push_spec b m (GateInv w) (Z.lxor z (2 ^ 64 - 1)) (negb x) Hs Hm) as Hp. cbn [bnot CircuitBuilder_backend].
  unfold builder_not. destruct (builder_push _ b). destruct Hp as (? & ? & ? & _).
  - change (2 ^ 64 - 1) with (Z.ones 64). by rewrite Z.lxor_spec, Hx, Z.ones_spec_low, xorb_true_r by lia.
  - cbn -[Z.pow]. by rewrite Hz.
  - by split_and!.
Qed.
Next Obligation.
  intros b x Hs. cbn [bconstant CircuitBuilder_backend]. unfold builder_constant. pose proof Hs as (m & Hm & _ & _ & _ & Ho).
  pose proof (builder_zero_spec b Hs) as Hz. destruct x.
  2: { destruct (builder_zero b). destruct Hz as (? & ? & ? & _). by split_and!. }
  destruct (cb_one b) as [w|] eqn:Eo.
  { split_and!; [done|intros m' ?; by exists m'|exists m; split; [done|by apply Ho]]. }
  destruct (builder_zero b) as [zero b1]. destruct Hz as (Hs1 & He1 & (m1 & Hm1 & z & Hz & Hzb) & _).
  pose proof (builder_push_spec b1 m1 (GateInv zero) (Z.lxor z (2 ^ 64 - 1)) true Hs1 Hm1) as Hp. unfold builder_not.
  destruct (builder_push _ b1) as [one b2].
  destruct Hp as ((m2 & Hm2 & H1 & Hdom & Hz2 & _) & He2 & Hc & _).
  { change (2 ^ 64 - 1) with (Z.ones 64). by rewrite Z.lxor_spec, Hzb, Z.ones_spec_low by lia. }
  { cbn -[Z.pow]. by rewrite Hz. }
  split_and!.
  - exists m2. cbn [cb_gates cb_next_wire cb_zero cb_one]. split_and!; [done..|]. intros w [= <-].
    destruct Hc as (m' & Hm' & Hl). congruence.
  - intros m' Hm'. destruct (He1 m' Hm') as (m'' & Hm'' & Hsub). destruct (He2 m'' Hm'') as (m3 & Hm3 & Hsub3).
    exists m3. split; [done|by etrans].
  - exact Hc.
Qed.

Lemma input_map_lookup w : input_map !! w = if decide (0 ≤ w < len inputs) then Some (inputs !!! Z.to_nat w) else None.
Proof.
  unfold input_map. case_decide as Hw.
  - apply elem_of_list_to_map_1.
    + rewrite fst_zip by (rewrite length_seqZ; unfold len; lia). apply NoDup_seqZ.
    + apply list_elem_of_lookup. exists (Z.to_nat w). apply lookup_zip_with_Some. exists w, (inputs !!! Z.to_nat w).
      split; [done|]. split; [apply lookup_seqZ; unfold len in *; lia|]. apply list_lookup_lookup_total_lt. unfold len in Hw. lia.
  - apply not_elem_of_list_to_map_1. rewrite fst_zip by (rewrite length_seqZ; unfold len; lia). rewrite elem_of_seqZ. lia.
Qed.
Lemma builder_new_sound : builder_sound (builder_new INPUT_BITS).
Proof.
  exists input_map. cbn [builder_new cb_gates cb_next_wire cb_zero cb_one]. split_and!; [done|done| |done|done].
  intros w. rewrite input_map_lookup, inputs_length. case_decide; (split; [done|]); [by eexists|done].
Qed.

(** *** Evaluation in the full vector *)

Definition zero_map (n : Z) : gmap Z Z := list_to_map ((λ w, (w, 0)) <$> seqZ 0 n).
Lemma zero_map_some n w : 0 ≤ w < n → is_Some (zero_map n !! w).
Proof.
  intros Hw. exists 0. apply elem_of_list_to_map_1.
  - rewrite <- list_fmap_compose. cbn. rewrite list_fmap_id. apply NoDup_seqZ.
  - apply list_elem_of_fmap. exists w. split; [done|]. by apply elem_of_seqZ.
Qed.
Lemma eval_gates_app wires g1 g2 : eval_gates wires (g1 ++ g2) = (wires ← eval_gates wires g1; eval_gates wires g2).
Proof. revert wires. induction g1 as [|g g1 IH]; intros wires; [done|]. cbn. destruct (eval_gate wires g); [apply IH|done]. Qed.

Lemma values_domain gate m m' : add_gate m gate = Some m' → ∀ w, is_Some (m !! w) → is_Some (m' !! w).
Proof.
  intros E w Hw. destruct gate; cbn in E; repeat (apply bind_Some in E as (? & _ & E)); injection E as <-;
    rewrite lookup_insert_is_Some; destruct (decide (output = w)); tauto.
Qed.

Lemma eval_union gates m n :
  values gates = Some m → (∀ w, is_Some (m !! w) → 0 ≤ w < n) →
  eval_gates (initial_wires n inputs) (reverse gates) = Some (m ∪ zero_map n).
Proof.
  revert m. induction gates as [|gate gates IH]; intros m Hm Hdom.
  { injection Hm as <-. done. }
  cbn [values] in Hm. apply bind_Some in Hm as (m0 & Hm0 & Hadd). rewrite reverse_cons, eval_gates_app.
  rewrite (IH m0 Hm0) by (intros w Hw; by eapply Hdom, values_domain). cbn.
  assert (∀ w z, m0 !! w = Some z → (m0 ∪ zero_map n) !! w = Some z) as Hl by (intros w z Hw; by apply lookup_union_Some_l).
  assert (∀ o z, m = <[o := z]> m0 → write_wire (m0 ∪ zero_map n) o z = Some (m ∪ zero_map n)) as Hwrite.
  { intros o z ->. unfold write_wire. destruct (zero_map_some n o) as [y Hy].
    { apply Hdom. rewrite lookup_insert_eq. by eexists. }
    assert (is_Some ((m0 ∪ zero_map n) !! o)) as [u ->] by (apply lookup_union_is_Some; right; by eexists).
    cbn. by rewrite insert_union_l. }
  destruct gate; cbn in Hadd; [apply bind_Some in Hadd as (zl & El & Hadd); apply bind_Some in Hadd as (zr & Er & Hadd)..|apply bind_Some in Hadd as (zl & El & Hadd)];
    injection Hadd as <-; cbn -[Z.pow]; rewrite (Hl _ _ El); cbn -[Z.pow]; rewrite ?(Hl _ _ Er); cbn -[Z.pow]; by rewrite (Hwrite _ _ eq_refl).
Qed.
End Builder.

(** ** Lanes *)

#[export] Instance byte_inhabited : Inhabited byte := populate x00.

(** The byte whose bits, the least significant first, are [f 0], [f 1], .. *)
Definition bits_byte (f : nat → bool) : byte :=
  z2b (foldr (λ i acc, Z.b2z (f i) + 2 * acc) 0 (seq 0 8)).
(** The bytes of one case: byte [k] is on wires [8k .. 8k+7]. *)
Definition lane_bytes (wires : list Z) (lane : Z) : bytes :=
  (λ k, bits_byte (λ i, Z.testbit (wires !!! (8 * k + i)%nat) lane)) <$> seq 0 (length wires / 8).

Lemma bits_byte_testbit f i : (i < 8)%nat → Z.testbit (b2z (bits_byte f)) (Z.of_nat i) = f i.
Proof.
  intros Hi. unfold bits_byte. cbn [seq foldr].
  do 8 (destruct i as [|i]; [destruct (f 0%nat), (f 1%nat), (f 2%nat), (f 3%nat), (f 4%nat), (f 5%nat), (f 6%nat), (f 7%nat); reflexivity|]).
  lia.
Qed.
Lemma byte_ext (a b : byte) : (∀ i, (i < 8)%nat → Z.testbit (b2z a) (Z.of_nat i) = Z.testbit (b2z b) (Z.of_nat i)) → a = b.
Proof.
  intros Hab. apply b2z_inj, Z.bits_inj'. intros i Hi. pose proof (b2z_range a). pose proof (b2z_range b).
  destruct (Z.lt_ge_cases i 8) as [Hlt|Hge].
  - specialize (Hab (Z.to_nat i) ltac:(lia)). by rewrite Z2Nat.id in Hab by lia.
  - rewrite <- (Z.mod_small (b2z a) (2 ^ 8)), <- (Z.mod_small (b2z b) (2 ^ 8)) by lia. by rewrite !Z.mod_pow2_bits_high by lia.
Qed.
Lemma of_le_testbit bs i :
  (i < 8 * length bs)%nat → Z.testbit (of_le bs) (Z.of_nat i) = Z.testbit (b2z (bs !!! (i / 8)%nat)) (Z.of_nat (i mod 8)).
Proof.
  revert i. induction bs as [|b bs IH]; intros i Hi; [cbn in Hi; lia|]. cbn [of_le].
  pose proof (b2z_range b). replace (b2z b + 256 * of_le bs) with (of_le bs * 2 ^ 8 + b2z b) by lia.
  rewrite <- lor_shiftl_small by (unfold uint; lia). rewrite Z.lor_spec, Z.shiftl_spec by lia.
  destruct (Nat.lt_ge_cases i 8) as [Hlt|Hge].
  - rewrite Z.testbit_neg_r, orb_false_l by lia. by rewrite Nat.div_small, Nat.mod_small by done.
  - rewrite <- (Z.mod_small (b2z b) (2 ^ 8)), Z.mod_pow2_bits_high, orb_false_r by lia.
    replace (Z.of_nat i - 8) with (Z.of_nat (i - 8)) by lia. cbn [length] in Hi. rewrite IH by lia.
    replace i with (i - 8 + 1 * 8)%nat at 3 4 by lia. rewrite Nat.div_add, Nat.Div0.mod_add by lia.
    by rewrite Nat.add_1_r.
Qed.
Lemma to_le_lookup n z j : (j < n)%nat → 0 ≤ z → to_le n z !! j = Some (z2b (z / 256 ^ Z.of_nat j)).
Proof.
  revert z j. induction n as [|n IH]; intros z j Hj Hz; [lia|]. destruct j as [|j]; cbn [to_le].
  - cbn. by rewrite Z.div_1_r.
  - cbn. rewrite IH by (lia || apply Z.div_pos; lia). rewrite Z.div_div by (lia || apply Z.pow_pos_nonneg; lia).
    by rewrite Nat2Z.inj_succ, Z.pow_succ_r by lia.
Qed.
Lemma words_lookup_byte (H : list Z) k :
  Forall (Z.le 0) H → (k < 8 * length H)%nat →
  concat (to_le 8 <$> H) !! k = Some (z2b (H !!! (k / 8)%nat / 256 ^ Z.of_nat (k mod 8))).
Proof.
  intros HH. revert k. induction HH as [|h H Hh _ IH]; intros k Hk; [cbn in Hk; lia|]. cbn [fmap list_fmap concat].
  destruct (Nat.lt_ge_cases k 8) as [Hlt|Hge].
  - rewrite lookup_app_l by (by rewrite to_le_length). rewrite Nat.div_small, Nat.mod_small by done. by apply to_le_lookup.
  - rewrite lookup_app_r by (by rewrite to_le_length). rewrite to_le_length, IH by (cbn in Hk; lia).
    replace k with (k - 8 + 1 * 8)%nat at 3 4 by lia. rewrite Nat.div_add, Nat.Div0.mod_add by lia. by rewrite Nat.add_1_r.
Qed.
Lemma word_byte_testbit z j i : (i < 8)%nat → Z.testbit (b2z (z2b (z / 256 ^ Z.of_nat j))) (Z.of_nat i) = Z.testbit z (Z.of_nat (8 * j + i)).
Proof.
  intros Hi. rewrite b2z_z2b. change 256 with (2 ^ 8). rewrite Z.mod_pow2_bits_low by lia.
  rewrite <- Z.pow_mul_r, Z.div_pow2_bits by lia. f_equal. lia.
Qed.

(** Byte [k], bit [i] of the message words. *)
Lemma message_words_testbit message k i :
  length message = 64%nat → (k < 8)%nat → (i < 64)%nat →
  Z.testbit (message_words message !!! k) (Z.of_nat i) = Z.testbit (b2z (message !!! (8 * k + i / 8)%nat)) (Z.of_nat (i mod 8)).
Proof.
  intros Hl Hk Hi. unfold message_words.
  erewrite list_lookup_total_correct by (by rewrite list_lookup_fmap, lookup_seq_lt by lia). rewrite Nat.add_0_l.
  rewrite drop_app_le, take_app_le by (rewrite ?length_drop; lia).
  rewrite of_le_testbit by (rewrite length_take, length_drop; lia). do 2 f_equal.
  assert (i / 8 < 8)%nat by (apply Nat.Div0.div_lt_upper_bound; lia).
  by rewrite !list_lookup_total_alt, lookup_take_lt, lookup_drop by lia.
Qed.
Lemma message_words_high message k : length message = 64%nat → (8 ≤ k < 16)%nat → message_words message !!! k = 0.
Proof.
  intros Hl Hk. unfold message_words. erewrite list_lookup_total_correct by (by rewrite list_lookup_fmap, lookup_seq_lt by lia).
  rewrite Nat.add_0_l, drop_app_ge by lia. rewrite drop_replicate, take_replicate.
  assert (∀ n, of_le (replicate n x00) = 0) as Hz; [|apply Hz]. induction n as [|n IH]; [done|]. cbn [replicate of_le]. by rewrite IH.
Qed.
Lemma message_words_range message k : (k < 16)%nat → uint 64 (message_words message !!! k).
Proof.
  intros Hk. unfold message_words. erewrite list_lookup_total_correct by (by rewrite list_lookup_fmap, lookup_seq_lt by lia).
  set (bs := take 8 _). pose proof (of_le_range bs) as Hr.
  assert (len bs ≤ 8) as Hle by (unfold bs, len; rewrite length_take; lia). pose proof (len_nonneg bs).
  pose proof (Z.pow_le_mono_r 256 (len bs) 8). unfold uint. change (2 ^ 64) with (256 ^ 8). lia.
Qed.

Lemma compress_length h m t : length (compress_last h m t) = 8%nat.
Proof. unfold compress_last. cbv zeta. by rewrite length_fmap, length_seq. Qed.

(** ** The circuit *)

Lemma seqZ_total m n i : (i < Z.to_nat n)%nat → seqZ m n !!! i = m + Z.of_nat i.
Proof. intros Hi. apply list_lookup_total_correct, lookup_seqZ. lia. Qed.

(** The input wires carry the message of the lane. *)
Lemma lane_input_words inputs lane (Hlane : 0 ≤ lane < 64) :
  len inputs = INPUT_BITS →
  @input_words CircuitBuilder Z _ (builder_laws inputs lane Hlane) _ (builder_new INPUT_BITS) (seqZ 0 INPUT_BITS)
    (message_words (lane_bytes inputs lane)).
Proof.
  intros Hlen. assert (length inputs = 512%nat) as Hl512 by (unfold len, INPUT_BITS in Hlen; lia).
  assert (length (lane_bytes inputs lane) = 64%nat) as Hlb by (unfold lane_bytes; by rewrite length_fmap, length_seq, Hl512).
  split; [unfold message_words; by rewrite length_fmap|]. split; [|intros k Hk; by apply message_words_high].
  intros k Hk. split; [by rewrite length_fmap|]. split; [apply message_words_range; lia|]. intros i Hi.
  erewrite list_lookup_total_correct by (by rewrite list_lookup_fmap, lookup_seq_lt by lia). rewrite Nat.add_0_l.
  rewrite seqZ_total by (unfold INPUT_BITS; lia). exists (input_map inputs). split; [done|].
  exists (inputs !!! (k * 64 + i)%nat). split.
  { rewrite input_map_lookup, decide_True by (rewrite Hlen; unfold INPUT_BITS; lia). do 2 f_equal. lia. }
  rewrite message_words_testbit by done. pose proof (Nat.mod_upper_bound i 8 ltac:(lia)). unfold lane_bytes.
  assert (i / 8 < 8)%nat by (apply Nat.Div0.div_lt_upper_bound; lia).
  erewrite (list_lookup_total_correct (_ <$> seq 0 _)).
  2: { rewrite list_lookup_fmap, lookup_seq_lt; [done|]. rewrite Hl512. change (512 / 8)%nat with 64%nat. lia. }
  rewrite bits_byte_testbit by done. do 2 f_equal. pose proof (Nat.div_mod_eq i 8). lia.
Qed.

#[local] Opaque blake2b_256_one_block compress_last from_fn.

Lemma build_lane inputs lane :
  len inputs = INPUT_BITS → 0 ≤ lane < 64 →
  let H := compress_last initial_hash (message_words (lane_bytes inputs lane)) 64 in
  ∃ outs, evaluate_packed build inputs = Some (Ok outs) ∧ length outs = 256%nat ∧ Forall (uint 64) (take 4 H) ∧
    ∀ i, (i < 256)%nat → Z.testbit (outs !!! i) lane = Z.testbit (H !!! (i / 64)%nat) (Z.of_nat (i mod 64)).
Proof.
  intros Hlen Hlane H. set (laws := builder_laws inputs lane Hlane).
  pose proof (@blake2b_256_one_block_spec CircuitBuilder Z _ laws _ (builder_new INPUT_BITS) (seqZ 0 INPUT_BITS)
    (message_words (lane_bytes inputs lane)) (builder_new_sound inputs lane Hlen) (lane_input_words inputs lane Hlane Hlen)) as Hblake.
  fold H in Hblake. unfold evaluate_packed. rewrite Hlen, Z.eqb_refl. cbn [negb]. unfold build. unfold gwp in Hblake.
  destruct (blake2b_256_one_block (seqZ 0 INPUT_BITS) (builder_new INPUT_BITS)) as [hash b1].
  destruct Hblake as (Hs1 & _ & Hhl & Hrange & Hhash).
  pose proof (bconstant_spec (BooleanBackendLaws := laws) b1 false Hs1) as Hz. cbn [bconstant CircuitBuilder_backend] in Hz.
  destruct (builder_constant false b1) as [zero b2]. destruct Hz as (Hs2 & He2 & Hzero).
  pose proof (@from_fn_gwp CircuitBuilder Z _ laws _ (Z.to_nat OUTPUT_BITS) (λ index, builder_xor (hash !!! index) zero) b2
    (λ i w b', builder_carries inputs lane b' w (Z.testbit (H !!! (i / 64)%nat) (Z.of_nat (i mod 64))))) as Hout.
  unfold gwp in Hout. destruct (from_fn (Z.to_nat OUTPUT_BITS) _ b2) as [outputs b3].
  destruct Hout as ((m & Hm & _ & Hdom & _) & _ & Hol & Hcarry).
  - intros i w c c' He Hc. exact (carries_mono (BooleanBackendLaws := laws) c c' w _ He Hc).
  - exact Hs2.
  - intros i b' Hi Hs' He. rewrite <- (xorb_false_r (Z.testbit _ _)).
    apply (bxor_spec (BooleanBackendLaws := laws)); [done| |exact (carries_mono (BooleanBackendLaws := laws) _ _ _ _ He Hzero)].
    apply (carries_mono (BooleanBackendLaws := laws) b2); [done|]. apply (carries_mono (BooleanBackendLaws := laws) b1); [done|].
    apply Hhash. exact Hi.
  - cbn [mc_gates mc_wire_count mc_output_wires]. rewrite (eval_union inputs lane Hlane _ m) by (done || (intros w; apply Hdom)). cbn [mbind option_bind].
    assert (∀ i w, outputs !! i = Some w → ∃ z, m !! w = Some z ∧ Z.testbit z lane = Z.testbit (H !!! (i / 64)%nat) (Z.of_nat (i mod 64))) as Hwire.
    { intros i w Hi. destruct (Hcarry i w Hi) as (m' & Hm' & z & Hz & Hb). rewrite Hm in Hm'. injection Hm' as <-. by exists z. }
    destruct (mapM_is_Some_2 (λ w, (m ∪ zero_map b3.(cb_next_wire)) !! w) outputs) as [outs Houts].
    { apply Forall_lookup. intros i w Hi. destruct (Hwire i w Hi) as (z & Hz & _). exists z. by apply lookup_union_Some_l. }
    rewrite Houts. exists outs. apply mapM_Some_1 in Houts. pose proof (Forall2_length _ _ _ Houts) as Hlo. split; [done|].
    assert (length outs = 256%nat) as Hl by (rewrite <- Hlo, Hol; done). split_and!; [done|done|].
    intros i Hi. destruct (lookup_lt_is_Some_2 outs i ltac:(lia)) as [z Hz].
    destruct (Forall2_lookup_r _ _ _ _ _ Houts Hz) as (w & Hw & Hwz). destruct (Hwire i w Hw) as (z' & Hz' & Hb).
    rewrite (lookup_union_Some_l _ _ _ _ Hz') in Hwz. injection Hwz as ->. by rewrite (list_lookup_total_correct _ _ _ Hz).
Qed.

#[local] Transparent blake2b_256_one_block compress_last from_fn.

Lemma take_words (H : list Z) : (4 ≤ length H)%nat → take 32 (concat (to_le 8 <$> H)) = concat (to_le 8 <$> take 4 H).
Proof.
  intros Hl. rewrite <- (take_drop 4 H) at 1. rewrite fmap_app, concat_app. apply take_app_length'.
  destruct H as [|a [|b [|c [|d H]]]]; cbn in Hl; try lia. cbn [take fmap list_fmap concat]. by rewrite !length_app, !to_le_length.
Qed.

(** C3: the circuit computes the mask hash. For every 512 packed inputs, evaluation
    returns, and in each of the 64 lanes the output is BLAKE2b-256, as RFC 7693
    defines it, of the 64 bytes of that lane: of the parent hash followed by the mask. Any
    other number of inputs is refused. *)
Theorem circuit_computes_blake2b inputs :
  if len inputs =? INPUT_BITS then
    ∃ outs, evaluate_packed build inputs = Some (Ok outs) ∧ len outs = OUTPUT_BITS ∧
      ∀ lane, 0 ≤ lane < 64 → lane_bytes outs lane = blake2b_block 32 (lane_bytes inputs lane)
  else evaluate_packed build inputs = Some (Err WrongInputCount).
Proof.
  destruct (Z.eqb_spec (len inputs) INPUT_BITS) as [Hlen|Hne].
  2: { unfold evaluate_packed. by rewrite (proj2 (Z.eqb_neq _ _) Hne). }
  destruct (build_lane inputs 0 Hlen ltac:(lia)) as (outs & Ho & Hl & _). exists outs. split; [done|].
  split; [unfold len; by rewrite Hl|]. intros lane Hlane.
  destruct (build_lane inputs lane Hlen Hlane) as (outs' & Ho' & _ & Hrange & Hbits). rewrite Ho in Ho'. injection Ho' as <-.
  unfold blake2b_block. fold initial_hash. assert (length inputs = 512%nat) as Hl512 by (unfold len, INPUT_BITS in Hlen; lia).
  assert (len (lane_bytes inputs lane) = 64) as -> by (unfold len, lane_bytes; by rewrite length_fmap, length_seq, Hl512).
  pose proof (compress_length initial_hash (message_words (lane_bytes inputs lane)) 64) as H8.
  revert Hrange Hbits H8. generalize (compress_last initial_hash (message_words (lane_bytes inputs lane)) 64).
  intros H Hrange Hbits H8.
  change (Z.to_nat 32) with 32%nat. rewrite take_words by lia.
  assert (length (take 4 H) = 4%nat) as H4 by (rewrite length_take; lia).
  apply list_eq_same_length with 32%nat.
  - destruct (take 4 H) as [|? [|? [|? [|? [|]]]]]; try done.
  - unfold lane_bytes. by rewrite length_fmap, length_seq, Hl.
  - intros k x y Hk Hx Hy. rewrite words_lookup_byte in Hy by (first [lia | eapply Forall_impl; [exact Hrange|]; by intros ? []]).
    apply (inj Some) in Hy as <-. unfold lane_bytes in Hx. rewrite Hl, list_lookup_fmap, lookup_seq_lt in Hx by done. apply (inj Some) in Hx as <-.
    apply byte_ext. intros i Hi. rewrite bits_byte_testbit, word_byte_testbit by done. rewrite Hbits by lia.
    assert (k / 8 < 4)%nat by (apply Nat.Div0.div_lt_upper_bound; lia). rewrite lookup_total_take' by done.
    pose proof (Nat.div_mod_eq k 8). pose proof (Nat.mod_upper_bound k 8 ltac:(lia)).
    replace (8 * (0 + k) + i)%nat with (8 * (k mod 8) + i + (k / 8) * 64)%nat by lia.
    rewrite Nat.div_add, Nat.Div0.mod_add by lia. rewrite Nat.div_small, Nat.mod_small by lia. done.
Qed.

(** Gate [k] of the circuit writes wire [512 + k] and reads earlier wires only. *)
Definition gate_ordered (wire : Z) (gate : BooleanGate) : bool :=
  match gate with
  | GateXor a b output | GateAnd a b output => (0 <=? a) && (a <? wire) && (0 <=? b) && (b <? wire) && (output =? wire)
  | GateInv input output => (0 <=? input) && (input <? wire) && (output =? wire)
  end.
Fixpoint gates_ordered (wire : Z) (gates : list BooleanGate) : bool :=
  match gates with [] => true | gate :: gates => gate_ordered wire gate && gates_ordered (wire + 1) gates end.

(** The circuit has the shape that consumers of the rendering rely on. It has
    fewer than 250000 gates; gate [k] writes wire [512 + k] and reads only
    earlier wires, so every wire is written once and before it is read; the wires are the
    inputs and the gates; and the output is the last 256 wires, in order. *)
Lemma circuit_well_formed :
  gate_count build < 250000 ∧ gates_ordered INPUT_BITS build.(mc_gates) = true ∧
  build.(mc_wire_count) = INPUT_BITS + gate_count build ∧
  build.(mc_output_wires) = seqZ (build.(mc_wire_count) - OUTPUT_BITS) OUTPUT_BITS.
Proof. split_and!; vm_compute; reflexivity. Qed.
