(* ===== verification/Text.v ===== *)
(** * Text: what the code uses of Rust's strings

    A [&str] is its UTF-8 bytes. [chars] decodes it, [from_utf8] is its
    success; splitting, trimming, the case-insensitive comparison and the
    parsing of numbers are the Standard Library's. *)


From S2P Require Import Prelude.
#[local] Set Default Goal Selector "!".


(** ** UTF-8 *)

Definition continuation (b : byte) : bool := (128 <=? b2z b) && (b2z b <? 192).
Definition scalar2 (b0 b1 : byte) : Z := (b2z b0 - 192) * 64 + (b2z b1 - 128).
Definition scalar3 (b0 b1 b2 : byte) : Z := (b2z b0 - 224) * 4096 + (b2z b1 - 128) * 64 + (b2z b2 - 128).
Definition scalar4 (b0 b1 b2 b3 : byte) : Z :=
  (b2z b0 - 240) * 262144 + (b2z b1 - 128) * 4096 + (b2z b2 - 128) * 64 + (b2z b3 - 128).
Definition surrogate (c : Z) : bool := (55296 <=? c) && (c <=? 57343).

(** The scalar values of a UTF-8 text: shortest forms only, no surrogates, at
    most U+10FFFF. *)
Fixpoint chars (bs : bytes) : option (list Z) :=
  match bs with
  | [] => Some []
  | b0 :: bs1 =>
      if b2z b0 <? 128 then cs ← chars bs1; Some (b2z b0 :: cs)
      else if b2z b0 <? 194 then None
      else
        match bs1 with
        | b1 :: bs2 =>
            if negb (continuation b1) then None
            else if b2z b0 <? 224 then cs ← chars bs2; Some (scalar2 b0 b1 :: cs)
            else
              match bs2 with
              | b2 :: bs3 =>
                  if negb (continuation b2) then None
                  else if b2z b0 <? 240 then
                    let c := scalar3 b0 b1 b2 in
                    if (c <? 2048) || surrogate c then None else cs ← chars bs3; Some (c :: cs)
                  else
                    match bs3 with
                    | b3 :: bs4 =>
                        let c := scalar4 b0 b1 b2 b3 in
                        if negb (continuation b3) || (c <? 65536) || (1114111 <? c) then None
                        else cs ← chars bs4; Some (c :: cs)
                    | [] => None
                    end
              | [] => None
              end
        | [] => None
        end
  end.
Definition from_utf8 (bs : bytes) : option bytes := _ ← chars bs; Some bs.

(** [char::is_control], [char::is_whitespace]. *)
Definition is_control (c : Z) : bool := (c <? 32) || ((127 <=? c) && (c <? 160)).
Definition is_whitespace (c : Z) : bool :=
  ((9 <=? c) && (c <=? 13)) || (c =? 32) || (c =? 133) || (c =? 160) || (c =? 5760) ||
  ((8192 <=? c) && (c <=? 8202)) || (c =? 8232) || (c =? 8233) || (c =? 8239) || (c =? 8287) || (c =? 12288).

Fixpoint drop_while (p : Z → bool) (cs : list Z) : list Z :=
  match cs with
  | [] => []
  | c :: cs' => if p c then drop_while p cs' else cs
  end.
(** [str::trim], as scalar values. *)
Definition trim (s : bytes) : list Z :=
  reverse (drop_while is_whitespace (reverse (drop_while is_whitespace (default [] (chars s))))).

(** [s.chars().take(n)]: up to the first byte of the next scalar value. *)
Fixpoint take_chars (n : nat) (bs : bytes) : bytes :=
  match bs with
  | [] => []
  | b :: bs =>
      if continuation b then b :: take_chars n bs
      else match n with O => [] | Datatypes.S n => b :: take_chars n bs end
  end.

(** ** ASCII *)

Definition to_ascii_lowercase1 (b : byte) : byte :=
  if (65 <=? b2z b) && (b2z b <=? 90) then z2b (b2z b + 32) else b.
Definition to_ascii_lowercase (s : bytes) : bytes := to_ascii_lowercase1 <$> s.
(** Compared byte by byte. *)
Definition eq_ignore_ascii_case (s t : bytes) : bool :=
  bool_decide (to_ascii_lowercase s = to_ascii_lowercase t).
Definition is_ascii_hexdigit (b : byte) : bool :=
  let z := b2z b in ((48 <=? z) && (z <=? 57)) || ((97 <=? z) && (z <=? 102)) || ((65 <=? z) && (z <=? 70)).

Definition starts_with (prefix s : bytes) : bool := bool_decide (take (length prefix) s = prefix).

(** [str::parse::<usize>]: an optional plus sign and at least one decimal digit, at most
    [u64::MAX]. *)
Fixpoint parse_digits (acc : Z) (cs : list Z) : option Z :=
  match cs with
  | [] => Some acc
  | c :: cs =>
      if (48 <=? c) && (c <=? 57) then
        let acc := acc * 10 + (c - 48) in
        if acc <? 2 ^ USIZE then parse_digits acc cs else None
      else None
  end.
Definition parse_usize (cs : list Z) : option Z :=
  match cs with
  | [] => None
  | c :: cs' =>
      if c =? 43 then match cs' with [] => None | _ => parse_digits 0 cs' end
      else parse_digits 0 cs
  end.

(** ** Splitting *)

Definition CRLF : bytes := [x0d; x0a].

(** [s.split("\r\n")]: never empty. *)
Fixpoint split_crlf (s : bytes) : list bytes :=
  match s with
  | [] => [[]]
  | b :: s' =>
      match s' with
      | b' :: s'' =>
          if bool_decide (b = x0d) && bool_decide (b' = x0a) then [] :: split_crlf s''
          else match split_crlf s' with l :: ls => (b :: l) :: ls | [] => [[b]] end
      | [] => [[b]]
      end
  end.
(** Lines with CR LF between them. *)
Fixpoint join_crlf (ls : list bytes) : bytes :=
  match ls with
  | [] => []
  | [l] => l
  | l :: ls => l ++ CRLF ++ join_crlf ls
  end.

(** [s.split_once(sep)] for a separator of one byte. *)
Fixpoint split_once (sep : byte) (s : bytes) : option (bytes * bytes) :=
  match s with
  | [] => None
  | b :: s =>
      if bool_decide (b = sep) then Some ([], s)
      else '(l, r) ← split_once sep s; Some (b :: l, r)
  end.

(** [s.windows(n).position(|w| w == pattern)] for a pattern of [n > 0] bytes. *)
Fixpoint find_window (pattern s : bytes) : option nat :=
  if starts_with pattern s then Some 0%nat
  else match s with [] => None | _ :: s => i ← find_window pattern s; Some (Datatypes.S i) end.

(** ** Lemmas on splitting *)

(** A line: no CR LF in it. *)
Definition no_crlf (l : bytes) : Prop := ∀ p q, l ≠ p ++ CRLF ++ q.

Lemma no_crlf_cons b l : no_crlf (b :: l) → no_crlf l.
Proof. intros H p q ->. by apply (H (b :: p) q). Qed.

Lemma no_crlf_nil : no_crlf [].
Proof. intros p q H. by destruct p. Qed.

Lemma split_crlf_cons b s :
  (∀ s', b :: s ≠ CRLF ++ s') →
  split_crlf (b :: s) = match split_crlf s with l :: ls => (b :: l) :: ls | [] => [[b]] end.
Proof.
  intros H. destruct s as [|b' s]; [done|]. cbn [split_crlf].
  destruct (bool_decide (b = x0d) && bool_decide (b' = x0a)) eqn:E; [|done].
  apply andb_true_iff in E as [->%bool_decide_eq_true ->%bool_decide_eq_true]. by destruct (H s).
Qed.
Lemma split_crlf_ne s : split_crlf s ≠ [].
Proof.
  destruct s as [|b [|b' s]]; [done..|]. cbn [split_crlf]. case_match; [done|]. by case_match.
Qed.

Lemma split_crlf_ind (P : bytes → Prop) :
  P [] → (∀ s, P s → P (CRLF ++ s)) → (∀ b s, (∀ s', b :: s ≠ CRLF ++ s') → P s → P (b :: s)) → ∀ s, P s.
Proof.
  intros Hnil Hcrlf Hcons s. remember (length s) as n eqn:Hn. revert s Hn.
  induction n as [n IH] using lt_wf_ind. intros [|b s] ->; [done|]. cbn [length] in IH.
  destruct s as [|b' s]; [apply Hcons; [done|apply (IH 0%nat); [lia|done]]|].
  destruct (decide (b = x0d ∧ b' = x0a)) as [[-> ->]|Hne].
  - apply (Hcrlf s), (IH (length s)); cbn; [lia|done].
  - apply Hcons; [|apply (IH (length (b' :: s))); cbn; [lia|done]]. intros s' [= -> -> _]. tauto.
Qed.

(** Splitting distributes over CR LF, wherever the first part ends. *)
Lemma split_crlf_app p s : split_crlf (p ++ CRLF ++ s) = split_crlf p ++ split_crlf s.
Proof.
  induction p as [|p IH|b p Hb IH] using split_crlf_ind; [done|..].
  - rewrite <- app_assoc. by cbn [app CRLF split_crlf] in *; rewrite IH.
  - rewrite <- app_comm_cons, !split_crlf_cons, IH; [|done|].
    + by destruct (split_crlf p) as [|l ls] eqn:E; [destruct (split_crlf_ne p)|].
    + intros s' [= -> E]. destruct p as [|b' p]; [done|]. injection E as -> _. by destruct (Hb p).
Qed.
Lemma split_crlf_blank s : split_crlf (CRLF ++ s) = [] :: split_crlf s.
Proof. done. Qed.
Lemma split_crlf_line l : no_crlf l → split_crlf l = [l].
Proof.
  induction l as [|b l IH]; [done|]. intros H. rewrite split_crlf_cons by (intros s'; apply (H [] s')).
  by rewrite IH by by eapply no_crlf_cons.
Qed.
Lemma join_crlf_cons l ls : ls ≠ [] → join_crlf (l :: ls) = l ++ CRLF ++ join_crlf ls.
Proof. by destruct ls. Qed.

Lemma split_join_crlf ls : ls ≠ [] → Forall no_crlf ls → split_crlf (join_crlf ls) = ls.
Proof.
  intros Hne H. induction H as [|l ls Hl Hls IH]; [done|]. destruct ls as [|l' ls]; [by apply split_crlf_line|].
  rewrite join_crlf_cons, split_crlf_app, IH, split_crlf_line by done. done.
Qed.
Lemma join_split_crlf s : join_crlf (split_crlf s) = s.
Proof.
  induction s as [|s IH|b s Hb IH] using split_crlf_ind; [done|..].
  - rewrite split_crlf_blank.
    by rewrite join_crlf_cons, IH by apply split_crlf_ne.
  - rewrite split_crlf_cons by done. destruct (split_crlf s) as [|l ls] eqn:E; [by destruct (split_crlf_ne s)|].
    rewrite <- IH. by destruct ls.
Qed.
Lemma split_crlf_lines s : Forall no_crlf (split_crlf s).
Proof.
  induction s as [|s IH|b s Hb IH] using split_crlf_ind.
  - constructor; [apply no_crlf_nil|constructor].
  - rewrite split_crlf_blank. constructor; [apply no_crlf_nil|done].
  - rewrite split_crlf_cons by done. pose proof (join_split_crlf s) as Hj.
    destruct (split_crlf s) as [|l ls] eqn:E; [by destruct (split_crlf_ne s)|]. inversion_clear IH as [|?? Hl Hls].
    constructor; [|done]. intros [|b' p] q Hq; [|injection Hq as -> ->; by apply (Hl p q)].
    cbn [CRLF app] in Hq. injection Hq as -> ->. destruct ls as [|l' ls]; cbn [join_crlf] in Hj; subst s; by eapply Hb.
Qed.

Lemma join_crlf_length ls ls' : ls ≠ [] → (length (join_crlf ls) ≤ length (join_crlf (ls ++ ls')))%nat.
Proof.
  induction ls as [|l ls IH]; [done|]. intros _. destruct ls as [|l' ls].
  - cbn [app]. destruct ls' as [|l' ls']; [done|]. rewrite (join_crlf_cons l (l' :: ls')), length_app by done. cbn [join_crlf]. lia.
  - rewrite <- (app_comm_cons (l' :: ls) ls' l), (join_crlf_cons l (l' :: ls)), (join_crlf_cons l ((l' :: ls) ++ ls')), !length_app by done. specialize (IH ltac:(done)). lia.
Qed.

Lemma starts_with_spec p s : starts_with p s = true ↔ ∃ s', s = p ++ s'.
Proof.
  unfold starts_with. rewrite bool_decide_eq_true. split.
  - intros H. exists (drop (length p) s). rewrite <- H at 1. by rewrite take_drop.
  - intros [s' ->]. by rewrite take_app_length.
Qed.

Lemma find_window_some pattern s i :
  find_window pattern s = Some i ↔
  (∃ p q, s = p ++ pattern ++ q ∧ length p = i) ∧ ∀ p q, s = p ++ pattern ++ q → (i ≤ length p)%nat.
Proof.
  revert i. induction s as [|b s IH]; intros i; cbn [find_window];
    destruct (starts_with pattern _) eqn:E.
  1,3: apply starts_with_spec in E as [s' E]; split;
    [intros [= <-]; split; [by exists [], s'|intros; lia]|intros [_ H]; specialize (H [] s' E); cbn in H; f_equal; lia].
  - split; [done|]. intros [(p & q & Hs & _) _]. symmetry in Hs. apply app_eq_nil in Hs as [_ [-> _]%app_eq_nil]. done.
  - assert (∀ p q, b :: s = p ++ pattern ++ q → ∃ p', p = b :: p' ∧ s = p' ++ pattern ++ q) as Hcons.
    { intros [|b' p] q Hs; [|injection Hs as -> ->; by exists p].
      exfalso. assert (starts_with pattern (b :: s) = true) by (apply starts_with_spec; by exists q). congruence. }
    split.
    + destruct (find_window pattern s) as [j|]; [|done]. intros [= <-]. destruct (proj1 (IH j) eq_refl) as [(p & q & -> & <-) Hmin].
      split; [by exists (b :: p), q|]. intros p' q' (p'' & -> & Hs)%Hcons. apply Hmin in Hs. cbn. lia.
    + intros [(p & q & (p' & -> & Hs)%Hcons & Hl) Hmin]. destruct i as [|i]; [done|].
      rewrite (proj2 (IH i)); [done|]. split; [exists p', q; cbn in Hl; split; [done|lia]|].
      intros p'' q'' ->. specialize (Hmin (b :: p'') q'' eq_refl). cbn in Hmin. lia.
Qed.

(** The first blank line of a text that begins with non-empty lines. *)
Lemma find_blank_line ls body :
  ls ≠ [] → Forall no_crlf ls → [] ∉ ls →
  find_window (CRLF ++ CRLF) (join_crlf ls ++ (CRLF ++ CRLF) ++ body) = Some (length (join_crlf ls)).
Proof.
  intros Hne Hls Hempty. apply find_window_some. split; [by exists (join_crlf ls), body|].
  intros p q E. apply (f_equal split_crlf) in E. rewrite <- !app_assoc in E.
  rewrite !split_crlf_app, (split_join_crlf ls), !split_crlf_blank in E by done.
  assert (length ls ≤ length (split_crlf p))%nat as Hl.
  { apply not_gt. intros Hgt. apply Hempty. apply list_elem_of_lookup. exists (length (split_crlf p)).
    rewrite <- (lookup_app_l ls ([] :: split_crlf body)) by lia. by rewrite E, list_lookup_middle. }
  apply (f_equal (take (length ls))) in E. rewrite take_app_length, take_app_le in E by done.
  rewrite <- (join_split_crlf p), <- (take_drop (length ls) (split_crlf p)), <- E. by apply join_crlf_length.
Qed.

Lemma split_once_some sep s l r : split_once sep s = Some (l, r) ↔ s = l ++ sep :: r ∧ sep ∉ l.
Proof.
  revert l r. induction s as [|b s IH]; intros l r; cbn [split_once].
  { split; [done|]. by intros [H _]; destruct l. }
  case_bool_decide as Hb.
  - subst b. split; [intros [= <- <-]; split; [done|apply not_elem_of_nil]|]. intros [H Hn]. destruct l as [|c l]; [by injection H as ->|].
    injection H as <- _. by destruct Hn; left.
  - destruct (split_once sep s) as [[l' r']|] eqn:E; cbn; split.
    + intros [= <- <-]. destruct (proj1 (IH l' r') eq_refl) as [-> Hn]. split; [done|]. by apply not_elem_of_cons.
    + intros [H Hn]. destruct l as [|c l]; injection H as <- H; [done|]. apply not_elem_of_cons in Hn as [_ Hn].
      by injection (proj2 (IH l r) (conj H Hn)) as -> ->.
    + done.
    + intros [H Hn]. destruct l as [|c l]; injection H as <- H; [done|]. apply not_elem_of_cons in Hn as [_ Hn].
      by discriminate (proj2 (IH l r) (conj H Hn)).
Qed.
