(* ===== verification/Oracle.v ===== *)
(** * The live parent oracle (crates/meshmine-parent-oracle/src/lib.rs)

    Qualification of a parent certificate against one local node: the policy, the
    views the node returns, the HTTP exchange, the checks on a snapshot, and the
    oracle with its one-entry cache. The JSON library is the class [SerdeJson]
    and the socket the class [Tcp]; an exchange moves a world [W]. *)

From S2P Require Import Prelude Codec Hash Types Objects Storage Journal Text.

#[local] Set Default Goal Selector "!".

Definition MAX_PARENT_RPC_RESPONSE_BYTES : Z := 2 * 1024 * 1024.
Definition MAX_PARENT_RPC_PATH_BYTES : Z := 512.
Definition MAX_PARENT_AUTHORIZATION_BYTES : Z := 4096.
Definition MIN_HSRD_PARENT_AUTHORITY_API_VERSION : Z := 10.
Definition MAX_HTTP_HEADER_BYTES : Z := 64 * 1024.

(** [Duration], in nanoseconds. *)
Abbreviation Duration := Z.
Definition from_secs (s : Z) : Duration := s * 1000000000.
Definition as_millis (d : Duration) : Z := d / 1000000.
Definition MAX_MAINNET_CANARY_HEADER_AGE : Duration := from_secs (30 * 60).
Definition MAX_MAINNET_CANARY_CACHE_TTL : Duration := from_secs 1.

Inductive ParentOracleError :=
| PO_InvalidConfiguration
| PO_Transport (message : bytes)
| PO_Http
| PO_OversizedResponse
| PO_JsonRpc
| PO_Remote (message : bytes)
| PO_Network
| PO_Noncanonical
| PO_CertificateMismatch
| PO_Depth
| PO_Stale
| PO_AuthorityUnavailable
| PO_Clock.
Definition error_to_string (e : ParentOracleError) : bytes :=
  match e with
  | PO_InvalidConfiguration => str "parent-oracle configuration is invalid"
  | PO_Transport message => str "parent source transport failed: " ++ message
  | PO_Http => str "parent source returned an invalid HTTP response"
  | PO_OversizedResponse => str "parent source returned an oversized response"
  | PO_JsonRpc => str "parent source returned malformed JSON-RPC"
  | PO_Remote message => str "parent source rejected the JSON-RPC request: " ++ message
  | PO_Network => str "parent source network does not match the certificate network"
  | PO_Noncanonical => str "parent certificate is not on the authoritative active chain"
  | PO_CertificateMismatch => str "parent certificate fields do not match the live HNS header"
  | PO_Depth => str "parent certificate is outside the configured confirmation/depth policy"
  | PO_Stale => str "parent header is older than the configured freshness policy"
  | PO_AuthorityUnavailable => str "hsrd is not currently a complete native consensus authority"
  | PO_Clock => str "system clock is unavailable"
  end.
#[export] Instance ParentOracleError_eq_dec : EqDecision ParentOracleError.
Proof. solve_decision. Defined.

(** ** Socket addresses *)

Inductive SocketAddr :=
| SocketV4 (octets : list Z) (port : Z)
| SocketV6 (segments : list Z) (scope_id port : Z).

Definition is_loopback (a : SocketAddr) : bool :=
  match a with
  | SocketV4 octets _ => bool_decide (octets !! 0%nat = Some 127)
  | SocketV6 segments _ _ => bool_decide (segments = [0; 0; 0; 0; 0; 0; 0; 1])
  end.

Definition intersperse (sep : bytes) (ws : list bytes) : bytes :=
  concat (imap (λ i w, if (i =? 0)%nat then w else sep ++ w) ws).
Definition ipv4_text (octets : list Z) : bytes := intersperse (str ".") (format_u64 <$> octets).
(** [{:x}] of a [u16]. *)
Definition format_hex16 (z : Z) : bytes :=
  let digits := [z / 4096; z / 256 mod 16; z / 16 mod 16; z mod 16] in
  nibble_char <$>
    match digits with
    | [0; 0; 0; d] => [d]
    | [0; 0; c; d] => [c; d]
    | [0; b; c; d] => [b; c; d]
    | _ => digits
    end.
(** The first longest run of zero segments: its start and length. *)
Definition longest_zeros (segments : list Z) : nat * nat :=
  let '(longest, _) := foldl (λ '(longest, current) '(i, segment),
    if (segment : Z) =? 0 then
      let current : nat * nat := if (current.2 =? 0)%nat then (i, 1%nat) else (current.1, Datatypes.S current.2) in
      (if (longest.2 <? current.2)%nat then current else longest, current)
    else (longest, (0%nat, 0%nat))) ((0%nat, 0%nat), (0%nat, 0%nat)) (imap pair segments) in
  longest.
Definition ipv6_text (segments : list Z) : bytes :=
  match segments with
  | [0; 0; 0; 0; 0; 65535; a; b] => str "::ffff:" ++ ipv4_text [a / 256; a mod 256; b / 256; b mod 256]
  | _ =>
      let '(start, count) := longest_zeros segments in
      let text segments := intersperse (str ":") (format_hex16 <$> segments) in
      if (1 <? count)%nat then text (take start segments) ++ str "::" ++ text (drop (start + count) segments)
      else text segments
  end.
Definition address_text (a : SocketAddr) : bytes :=
  match a with
  | SocketV4 octets port => ipv4_text octets ++ str ":" ++ format_u64 port
  | SocketV6 segments scope_id port =>
      str "[" ++ ipv6_text segments ++ (if scope_id =? 0 then [] else str "%" ++ format_u64 scope_id) ++
      str "]:" ++ format_u64 port
  end.

(** ** Source and policy *)

Record ParentRpcSource := mkParentRpcSource {
  prs_label : bytes;
  prs_address : SocketAddr;
  prs_path : bytes;
  prs_authorization_header : bytes;
  prs_connect_timeout : Duration;
  prs_read_timeout : Duration;
  prs_write_timeout : Duration;
  prs_maximum_response_bytes : Z;
}.
(** [s.chars().any(|c| matches!(c, '\r' | '\n'))]; both are single bytes. *)
Definition has_line_break (s : bytes) : bool := existsb (λ b, bool_decide (b = x0d) || bool_decide (b = x0a)) s.
Definition validate_source (s : ParentRpcSource) : result ParentOracleError unit :=
  if bool_decide (s.(prs_label) = []) || (64 <? len s.(prs_label)) ||
     existsb is_control (default [] (chars s.(prs_label))) ||
     negb (is_loopback s.(prs_address)) ||
     negb (starts_with (str "/") s.(prs_path)) || (MAX_PARENT_RPC_PATH_BYTES <? len s.(prs_path)) ||
     has_line_break s.(prs_path) ||
     (s.(prs_connect_timeout) =? 0) || (s.(prs_read_timeout) =? 0) || (s.(prs_write_timeout) =? 0) ||
     (s.(prs_maximum_response_bytes) =? 0) || (MAX_PARENT_RPC_RESPONSE_BYTES <? s.(prs_maximum_response_bytes)) ||
     bool_decide (s.(prs_authorization_header) = []) ||
     (MAX_PARENT_AUTHORIZATION_BYTES <? len s.(prs_authorization_header)) ||
     has_line_break s.(prs_authorization_header)
  then Err PO_InvalidConfiguration else Ok tt.

Record LiveParentPolicy := mkLiveParentPolicy {
  lpp_network_id : Z;
  lpp_minimum_confirmations : Z;
  lpp_maximum_certificate_depth : Z;
  lpp_maximum_header_age : Duration;
  lpp_cache_ttl : Duration;
}.
Definition validate_policy (p : LiveParentPolicy) : result ParentOracleError unit :=
  if (3 <? p.(lpp_network_id)) || (p.(lpp_minimum_confirmations) =? 0) ||
     (saturating_add 32 p.(lpp_maximum_certificate_depth) 1 <? p.(lpp_minimum_confirmations)) ||
     (p.(lpp_maximum_header_age) =? 0) || (from_secs 60 <? p.(lpp_cache_ttl)) ||
     ((p.(lpp_network_id) =? 0) &&
      ((MAX_MAINNET_CANARY_HEADER_AGE <? p.(lpp_maximum_header_age)) ||
       (MAX_MAINNET_CANARY_CACHE_TTL <? p.(lpp_cache_ttl))))
  then Err PO_InvalidConfiguration else Ok tt.

(** ** What the node returns *)

Record ParentHeaderView := mkParentHeaderView {
  phv_hash : bytes;
  phv_height : Z;
  phv_chainwork : bytes;
  phv_confirmations : Z;
  phv_time : Z;
}.
Record ParentChainView := mkParentChainView {
  pcv_blocks : Z;
  pcv_headers : Z;
  pcv_best_block_hash : bytes;
}.
Record ParentConsensusReadinessView := mkParentConsensusReadinessView {
  rd_header_pow_difficulty : bool;
  rd_checkpoints_and_deployments : bool;
  rd_block_syntax : bool;
  rd_absolute_finality : bool;
  rd_sighash_primitives : bool;
  rd_relative_lock_primitives : bool;
  rd_witness_program_foundation : bool;
  rd_signature_backend : bool;
  rd_input_authorization_fail_closed : bool;
  rd_relative_sequence_locks : bool;
  rd_scripts : bool;
  rd_covenant_linkage : bool;
  rd_contextual_covenants : bool;
  rd_claims_and_airdrops : bool;
  rd_name_state : bool;
  rd_urkel_roots : bool;
  rd_sequence_consistent_snapshots : bool;
  rd_durable_store_identity : bool;
  rd_side_chain_storage : bool;
  rd_best_work_fork_choice : bool;
  rd_validated_reorg_planning : bool;
  rd_atomic_reorganizations : bool;
  rd_wal_durability : bool;
  rd_historical_replay : bool;
  rd_invalid_corpus : bool;
}.

Definition readiness_default : ParentConsensusReadinessView :=
  mkParentConsensusReadinessView false false false false false false false false false false false false false false false false false false false false false false false false false.
Definition readiness_complete (r : ParentConsensusReadinessView) : bool :=
  r.(rd_header_pow_difficulty) && r.(rd_checkpoints_and_deployments) && r.(rd_block_syntax) &&
  r.(rd_absolute_finality) && r.(rd_sighash_primitives) && r.(rd_relative_lock_primitives) &&
  r.(rd_witness_program_foundation) && r.(rd_signature_backend) && r.(rd_input_authorization_fail_closed) &&
  r.(rd_relative_sequence_locks) && r.(rd_scripts) && r.(rd_covenant_linkage) &&
  r.(rd_contextual_covenants) && r.(rd_claims_and_airdrops) && r.(rd_name_state) && r.(rd_urkel_roots) &&
  r.(rd_sequence_consistent_snapshots) && r.(rd_durable_store_identity) && r.(rd_side_chain_storage) &&
  r.(rd_best_work_fork_choice) && r.(rd_validated_reorg_planning) && r.(rd_atomic_reorganizations) &&
  r.(rd_wal_durability) && r.(rd_historical_replay) && r.(rd_invalid_corpus).

Record ParentTipValidationView := mkParentTipValidationView {
  tv_header_context_valid : bool;
  tv_checkpoint_valid : bool;
  tv_deployment_state_valid : bool;
  tv_body_present : bool;
  tv_body_syntax_valid : bool;
  tv_absolute_finality_valid : bool;
  tv_relative_locks_valid : bool;
  tv_scripts_valid : bool;
  tv_covenant_links_valid : bool;
  tv_covenants_context_valid : bool;
  tv_claims_and_airdrops_valid : bool;
  tv_utxo_connected : bool;
  tv_name_state_connected : bool;
  tv_tree_root_valid : bool;
  tv_undo_present : bool;
  tv_active_chain : bool;
  tv_failed : bool;
}.

Definition is_mining_authoritative (t : ParentTipValidationView) : bool :=
  t.(tv_header_context_valid) && t.(tv_checkpoint_valid) && t.(tv_deployment_state_valid) &&
  t.(tv_body_present) && t.(tv_body_syntax_valid) && t.(tv_absolute_finality_valid) &&
  t.(tv_relative_locks_valid) && t.(tv_scripts_valid) && t.(tv_covenant_links_valid) &&
  t.(tv_covenants_context_valid) && t.(tv_claims_and_airdrops_valid) && t.(tv_utxo_connected) &&
  t.(tv_name_state_connected) && t.(tv_tree_root_valid) && t.(tv_undo_present) && t.(tv_active_chain) &&
  negb t.(tv_failed).

Record ParentAuthorityView := mkParentAuthorityView {
  pav_mode : bytes;
  pav_synchronized : bool;
  pav_mainnet_canary_enabled : bool;
  pav_mainnet_canary_active : bool;
  pav_consensus_complete : bool;
  pav_can_authorize_mining_templates : bool;
  pav_can_accept_mining_candidates : bool;
  pav_blockers : list bytes;
  pav_readiness : ParentConsensusReadinessView;
}.
Record ParentAuthoritySnapshot := mkParentAuthoritySnapshot {
  pas_api_version : Z;
  pas_network : bytes;
  pas_rpc_authentication_required : bool;
  pas_chain : ParentChainView;
  pas_header : ParentHeaderView;
  pas_authority : ParentAuthorityView;
  pas_authoritative_mining_tip : bool;
  pas_pending_best_chain_activation : bool;
  pas_tip_validation : option ParentTipValidationView;
}.
Record ParentQualificationStatus := mkParentQualificationStatus {
  pqs_checked_at_ms : Z;
  pqs_qualified : bool;
  pqs_tip_required : bool;
  pqs_certificate_id : bytes;
  pqs_parent_hash : bytes;
  pqs_parent_height : Z;
  pqs_authoritative_source : bytes;
  pqs_reason : bytes;
  pqs_hsrd : option ParentHeaderView;
  pqs_hsrd_authority : option ParentAuthorityView;
}.
Definition status_initial : ParentQualificationStatus :=
  mkParentQualificationStatus 0 false false [] [] 0 [] (str "not checked") None None.
Record CachedQualification := mkCachedQualification {
  cq_certificate_id : Hash256;
  cq_tip_required : bool;
  cq_expires_at_ms : Z;
  cq_status : ParentQualificationStatus;
}.
Record LiveParentOracle := mkLiveParentOracle {
  lpo_policy : LiveParentPolicy;
  lpo_hsrd : ParentRpcSource;
  lpo_cache : option CachedQualification;
  lpo_status : ParentQualificationStatus;
}.
Definition oracle_new (policy : LiveParentPolicy) (hsrd : ParentRpcSource) : result ParentOracleError LiveParentOracle :=
  _ ← validate_policy policy;
  _ ← validate_source hsrd;
  Ok (mkLiveParentOracle policy hsrd None status_initial).
Definition oracle_status (o : LiveParentOracle) : ParentQualificationStatus := o.(lpo_status).

(** ** The HTTP exchange *)

Definition SEPARATOR : bytes := CRLF ++ CRLF.

(** One header line after the status line. *)
Definition check_line (content_length : option Z) (line : bytes) : result ParentOracleError (option Z) :=
  '(name, value) ← ok_or (split_once x3a line) PO_Http;
  if eq_ignore_ascii_case name (str "transfer-encoding") && negb (bool_decide (trim value = [])) then Err PO_Http
  else if eq_ignore_ascii_case name (str "content-length") then
    length ← ok_or (parse_usize (trim value)) PO_Http;
    if bool_decide (is_Some content_length) then Err PO_Http else Ok (Some length)
  else Ok content_length.
Definition status_ok (status : bytes) : bool :=
  starts_with (str "HTTP/1.1 200 ") status || starts_with (str "HTTP/1.0 200 ") status.
Definition parse_http_response (response : bytes) : result ParentOracleError bytes :=
  separator ← ok_or (find_window SEPARATOR response) PO_Http;
  if MAX_HTTP_HEADER_BYTES <? Z.of_nat separator then Err PO_Http
  else
    headers ← ok_or (from_utf8 (take separator response)) PO_Http;
    match split_crlf headers with
    | [] => Err PO_Http
    | status :: lines =>
        if negb (status_ok status) then Err PO_Http
        else
          content_length ← fold_result check_line None lines;
          let body := drop (separator + 4) response in
          match content_length with
          | Some length => if negb (len body =? length) then Err PO_Http else Ok body
          | None => Ok body
          end
    end.

Definition request_head (source : ParentRpcSource) (body_length : Z) : bytes :=
  str "POST " ++ source.(prs_path) ++ str " HTTP/1.1" ++ CRLF ++
  str "Host: " ++ address_text source.(prs_address) ++ CRLF ++
  str "Content-Type: application/json" ++ CRLF ++
  str "Accept: application/json" ++ CRLF ++
  str "Content-Length: " ++ format_u64 body_length ++ CRLF ++
  str "Connection: close" ++ CRLF ++
  str "Authorization: " ++ source.(prs_authorization_header) ++ CRLF ++ CRLF.

Class SerdeJson (Value : Type) := {
  (* the object with members jsonrpc = 2.0, id, method, and params, an array of strings *)
  request_to_vec : Z → bytes → list bytes → option bytes;
  from_slice : bytes → option Value;
  value_get : Value → bytes → option Value;
  as_u64 : Value → option Z;
  as_str : Value → option bytes;
  is_null : Value → bool;
  snapshot_from_value : Value → option ParentAuthoritySnapshot;
}.
(** [tcp_send]: connect with the timeouts, write and flush. [tcp_read]: read to the
    end of the stream, but no more than so many bytes. *)
Class Tcp (Stream W : Type) := {
  tcp_send : SocketAddr → Duration → Duration → Duration → bytes → W → result bytes Stream * W;
  tcp_read : Stream → Z → W → result bytes bytes * W;
}.

Section Rpc.
Context {Value Stream W : Type} `{!SerdeJson Value, !Tcp Stream W}.

Definition rpc_result (source : ParentRpcSource) (id maximum : Z) (response : bytes) : result ParentOracleError Value :=
  if maximum <? len response then Err PO_OversizedResponse
  else
    body ← parse_http_response response;
    if source.(prs_maximum_response_bytes) <? len body then Err PO_OversizedResponse
    else
      envelope ← ok_or (from_slice body) PO_JsonRpc;
      if bool_decide ((value_get envelope (str "id") ≫= as_u64) ≠ Some id) then Err PO_JsonRpc
      else
        match value_get envelope (str "error") with
        | Some error =>
            if is_null error then ok_or (value_get envelope (str "result")) PO_JsonRpc
            else Err (PO_Remote (take_chars 1024
                   (default (str "remote JSON-RPC error") (value_get error (str "message") ≫= as_str))))
        | None => ok_or (value_get envelope (str "result")) PO_JsonRpc
        end.

(** The counter of request numbers wraps. *)
Definition rpc_call (source : ParentRpcSource) (method : bytes) (params : list bytes) (s : Z * W) :
    result ParentOracleError Value * (Z * W) :=
  match validate_source source with
  | Err e => (Err e, s)
  | Ok _ =>
      let '(id, w) := s in
      let next := (id + 1) mod 2 ^ 64 in
      match request_to_vec id method params with
      | None => (Err PO_JsonRpc, (next, w))
      | Some body =>
          let '(sent, w) := tcp_send source.(prs_address) source.(prs_connect_timeout) source.(prs_read_timeout)
            source.(prs_write_timeout) (request_head source (len body) ++ body) w in
          match sent with
          | Err message => (Err (PO_Transport message), (next, w))
          | Ok stream =>
              match checked_add USIZE source.(prs_maximum_response_bytes) MAX_HTTP_HEADER_BYTES with
              | None => (Err PO_OversizedResponse, (next, w))
              | Some maximum =>
                  let '(received, w) := tcp_read stream (maximum + 1) w in
                  match received with
                  | Err message => (Err (PO_Transport message), (next, w))
                  | Ok response => (rpc_result source id maximum response, (next, w))
                  end
              end
          end
      end
  end.

Definition normalize_chainwork_hex (value : bytes) : result ParentOracleError bytes :=
  if bool_decide (value = []) || (64 <? len value) || negb (forallb is_ascii_hexdigit value) then Err PO_JsonRpc
  else Ok (to_ascii_lowercase (replicate (64 - length value) x30 ++ value)).

Definition check_snapshot `{!Hex} (snapshot : ParentAuthoritySnapshot) : result ParentOracleError ParentAuthoritySnapshot :=
  if negb (len snapshot.(pas_header).(phv_hash) =? 64) ||
     bool_decide (hex_decode snapshot.(pas_header).(phv_hash) = None) ||
     negb (len snapshot.(pas_chain).(pcv_best_block_hash) =? 64) ||
     bool_decide (hex_decode snapshot.(pas_chain).(pcv_best_block_hash) = None)
  then Err PO_JsonRpc
  else
    _ ← normalize_chainwork_hex snapshot.(pas_header).(phv_chainwork);
    Ok snapshot.
Definition fetch_parent_authority `{!Hex} (source : ParentRpcSource) (hash : Hash256) (s : Z * W) :
    result ParentOracleError ParentAuthoritySnapshot * (Z * W) :=
  let '(value, s) := rpc_call source (str "getparentauthority") [hex_encode hash] s in
  (value ← value;
   snapshot ← ok_or (snapshot_from_value value) PO_JsonRpc;
   check_snapshot snapshot, s).
End Rpc.

(** ** The checks on a snapshot *)

Definition expected_chain_name (network_id : Z) : result ParentOracleError bytes :=
  if network_id =? 0 then Ok (str "mainnet")
  else if network_id =? 1 then Ok (str "testnet")
  else if network_id =? 2 then Ok (str "regtest")
  else if network_id =? 3 then Ok (str "simnet")
  else Err PO_Network.

(** [u64::try_from(d.as_millis()).unwrap_or(u64::MAX)] *)
Definition millis_u64 (d : Duration) : Z := Z.min (as_millis d) U64_MAX.

Section Qualify.
Context `{!Digests, !Hex}.

Definition validate_certificate_fields (c : SessionParentCertificateV2) (h : ParentHeaderView) : result ParentOracleError unit :=
  let expected_hash := hex_encode c.(spc_parent_hash) in
  let expected_work := hex_encode c.(spc_parent_chainwork) in
  if negb (eq_ignore_ascii_case h.(phv_hash) expected_hash) || negb (h.(phv_height) =? c.(spc_parent_height)) ||
     negb (h.(phv_time) =? c.(spc_observed_ntime))
  then Err PO_CertificateMismatch
  else
    work ← normalize_chainwork_hex h.(phv_chainwork);
    if negb (eq_ignore_ascii_case work expected_work) then Err PO_CertificateMismatch else Ok tt.

Definition validate_authoritative_header (policy : LiveParentPolicy) (c : SessionParentCertificateV2) (chain : ParentChainView)
    (h : ParentHeaderView) (now_ms : Z) (tip_required : bool) : result ParentOracleError unit :=
  if (h.(phv_confirmations) <=? 0) || (chain.(pcv_headers) <? chain.(pcv_blocks)) ||
     (chain.(pcv_blocks) <? c.(spc_parent_height))
  then Err PO_Noncanonical
  else if U32_MAX <? h.(phv_confirmations) then Err PO_Depth
  else
    let confirmations := h.(phv_confirmations) in
    let depth := saturating_sub chain.(pcv_blocks) c.(spc_parent_height) in
    if (confirmations <? policy.(lpp_minimum_confirmations)) || (policy.(lpp_maximum_certificate_depth) <? depth) ||
       negb (saturating_add 32 depth 1 =? confirmations)
    then Err PO_Depth
    else
      _ ← validate_certificate_fields c h;
      if tip_required &&
         (negb (confirmations =? 1) || negb (chain.(pcv_blocks) =? c.(spc_parent_height)) ||
          negb (eq_ignore_ascii_case chain.(pcv_best_block_hash) (hex_encode c.(spc_parent_hash))))
      then Err PO_Noncanonical
      else
        let age_ms := saturating_sub now_ms (saturating_mul 64 h.(phv_time) 1000) in
        if millis_u64 policy.(lpp_maximum_header_age) <? age_ms then Err PO_Stale else Ok tt.

(** The conditions under which the node is taken for an authority. *)
Definition authority_available (policy : LiveParentPolicy) (s : ParentAuthoritySnapshot) : bool :=
  negb (negb s.(pas_rpc_authentication_required) ||
    negb (bool_decide (s.(pas_authority).(pav_mode) = str "native")) ||
    negb s.(pas_authority).(pav_consensus_complete) ||
    negb (readiness_complete s.(pas_authority).(pav_readiness)) ||
    negb s.(pas_authority).(pav_can_authorize_mining_templates) ||
    negb s.(pas_authority).(pav_can_accept_mining_candidates) ||
    negb (bool_decide (s.(pas_authority).(pav_blockers) = [])) ||
    negb s.(pas_authoritative_mining_tip) ||
    s.(pas_pending_best_chain_activation) ||
    negb (match s.(pas_tip_validation) with Some t => is_mining_authoritative t | None => false end) ||
    ((policy.(lpp_network_id) =? 0) &&
     (negb s.(pas_authority).(pav_synchronized) ||
      negb s.(pas_authority).(pav_mainnet_canary_enabled) ||
      negb s.(pas_authority).(pav_mainnet_canary_active) ||
      negb (s.(pas_chain).(pcv_headers) =? s.(pas_chain).(pcv_blocks))))).

Definition qualified_reason (tip_required : bool) : bytes :=
  str "authenticated native hsrd " ++ (if tip_required then str "active-tip" else str "canonical-depth") ++
  str " consensus-authority qualification passed".
(** [qualify_uncached] from the fetched snapshot on. *)
Definition qualify_snapshot (policy : LiveParentPolicy) (hsrd : ParentRpcSource) (c : SessionParentCertificateV2)
    (now_ms : Z) (tip_required : bool) (s : ParentAuthoritySnapshot) : result ParentOracleError ParentQualificationStatus :=
  if s.(pas_api_version) <? MIN_HSRD_PARENT_AUTHORITY_API_VERSION then Err PO_AuthorityUnavailable
  else
    name ← expected_chain_name policy.(lpp_network_id);
    if bool_decide (s.(pas_network) ≠ name) then Err PO_Network
    else if negb (authority_available policy s) then Err PO_AuthorityUnavailable
    else
      _ ← validate_authoritative_header policy c s.(pas_chain) s.(pas_header) now_ms tip_required;
      Ok (mkParentQualificationStatus now_ms true tip_required (hex_encode (object_id c)) (hex_encode c.(spc_parent_hash))
            c.(spc_parent_height) hsrd.(prs_label) (qualified_reason tip_required) (Some s.(pas_header))
            (Some s.(pas_authority))).

(** The status that records a failure. *)
Definition failed_status (hsrd : ParentRpcSource) (c : SessionParentCertificateV2) (now_ms : Z) (tip_required : bool)
    (e : ParentOracleError) : ParentQualificationStatus :=
  mkParentQualificationStatus now_ms false tip_required (hex_encode (object_id c)) (hex_encode c.(spc_parent_hash))
    c.(spc_parent_height) hsrd.(prs_label) (error_to_string e) None None.

(** The sections of [qualify_with_mode] under a lock: the cache is read, the
    status is written, the cache is written. *)
Definition cache_lookup (o : LiveParentOracle) (c : SessionParentCertificateV2) (now_ms : Z) (tip_required : bool) :
    option ParentQualificationStatus :=
  match o.(lpo_cache) with
  | Some cached =>
      if bool_decide (cached.(cq_certificate_id) = object_id c) && Bool.eqb cached.(cq_tip_required) tip_required &&
         (now_ms <=? cached.(cq_expires_at_ms))
      then Some cached.(cq_status) else None
  | None => None
  end.
Definition publish_status (o : LiveParentOracle) (c : SessionParentCertificateV2) (now_ms : Z) (tip_required : bool)
    (r : result ParentOracleError ParentQualificationStatus) : LiveParentOracle :=
  mkLiveParentOracle o.(lpo_policy) o.(lpo_hsrd) o.(lpo_cache)
    match r with Ok status => status | Err e => failed_status o.(lpo_hsrd) c now_ms tip_required e end.
Definition publish_cache (o : LiveParentOracle) (c : SessionParentCertificateV2) (now_ms : Z) (tip_required : bool)
    (r : result ParentOracleError ParentQualificationStatus) : LiveParentOracle :=
  mkLiveParentOracle o.(lpo_policy) o.(lpo_hsrd)
    match r with
    | Ok status => Some (mkCachedQualification (object_id c) tip_required
                     (saturating_add 64 now_ms (millis_u64 o.(lpo_policy).(lpp_cache_ttl))) status)
    | Err _ => None
    end o.(lpo_status).

(** [wall_ms], of the time elapsed since the epoch; before it there is none. *)
Definition wall_ms (elapsed : option Duration) : result ParentOracleError Z :=
  elapsed ← ok_or elapsed PO_Clock;
  if as_millis elapsed <=? U64_MAX then Ok (as_millis elapsed) else Err PO_Clock.

Context {Value Stream W : Type} `{!SerdeJson Value, !Tcp Stream W}.

Definition qualify_uncached (o : LiveParentOracle) (c : SessionParentCertificateV2) (now_ms : Z) (tip_required : bool)
    (s : Z * W) : result ParentOracleError ParentQualificationStatus * (Z * W) :=
  if negb (c.(spc_network_id) =? o.(lpo_policy).(lpp_network_id)) then (Err PO_Network, s)
  else
    let '(snapshot, s) := fetch_parent_authority o.(lpo_hsrd) c.(spc_parent_hash) s in
    (snapshot ← snapshot; qualify_snapshot o.(lpo_policy) o.(lpo_hsrd) c now_ms tip_required snapshot, s).

Definition qualify_with_mode (o : LiveParentOracle) (c : SessionParentCertificateV2) (tip_required : bool)
    (elapsed : option Duration) (s : Z * W) :
    result ParentOracleError ParentQualificationStatus * LiveParentOracle * (Z * W) :=
  match wall_ms elapsed with
  | Err e => (Err e, o, s)
  | Ok now_ms =>
      match cache_lookup o c now_ms tip_required with
      | Some status => (Ok status, o, s)
      | None =>
          let '(r, s) := qualify_uncached o c now_ms tip_required s in
          (r, publish_cache (publish_status o c now_ms tip_required r) c now_ms tip_required r, s)
      end
  end.
Definition qualify (o : LiveParentOracle) (c : SessionParentCertificateV2) := qualify_with_mode o c false.
Definition qualify_active (o : LiveParentOracle) (c : SessionParentCertificateV2) := qualify_with_mode o c true.
Definition verify_header_and_chainwork (o : LiveParentOracle) (c : SessionParentCertificateV2)
    (elapsed : option Duration) (s : Z * W) : bool := is_ok (qualify o c elapsed s).1.1.
End Qualify.
