(* ===== verification/OracleSafety.v ===== *)
(** * The parent oracle: what its answers mean

    The accepted HTTP responses, the request that is sent, and the soundness of every
    answer of an oracle that any number of threads use at once. *)

From S2P Require Import Prelude Codec Hash Types Objects Storage Journal Text Oracle.

#[local] Set Default Goal Selector "!".

(** ** Responses *)

Abbreviation field := (bytes * bytes)%type.
Definition field_line (f : field) : bytes := f.1 ++ x3a :: f.2.
Definition is_field (name : bytes) (f : field) : Prop := to_ascii_lowercase f.1 = name.
#[export] Instance is_field_dec name f : Decision (is_field name f).
Proof. unfold is_field. apply _. Defined.
Definition no_coding (f : field) : Prop := is_field (str "transfer-encoding") f → trim f.2 = [].

(** The header fields announce the body: no transfer coding, and one content length, which is
    exact, or none. *)
Definition content_lengths (fields : list field) : list field := filter (is_field (str "content-length")) fields.
Definition announces (fields : list field) (body : bytes) : Prop :=
  Forall no_coding fields ∧
  (content_lengths fields = [] ∨
   ∃ f, content_lengths fields = [f] ∧ parse_usize (trim f.2) = Some (len body)).

Lemma eq_ignore_ascii_case_field name f :
  to_ascii_lowercase name = name → eq_ignore_ascii_case f.1 name = bool_decide (is_field name f).
Proof. intros H. unfold eq_ignore_ascii_case, is_field. by rewrite H. Qed.

Lemma check_line_field cl f :
  x3a ∉ f.1 →
  check_line cl (field_line f) =
  if bool_decide (is_field (str "transfer-encoding") f) && negb (bool_decide (trim f.2 = [])) then Err PO_Http
  else if bool_decide (is_field (str "content-length") f) then
    length ← ok_or (parse_usize (trim f.2)) PO_Http;
    if bool_decide (is_Some cl) then Err PO_Http else Ok (Some length)
  else Ok cl.
Proof.
  intros Hn. unfold check_line, field_line.
  rewrite (proj2 (split_once_some x3a _ f.1 f.2)) by done. cbn [ok_or mbind result_bind].
  by rewrite !eq_ignore_ascii_case_field by by vm_compute.
Qed.

Lemma fold_check_line fields cl cl' :
  Forall (λ f, x3a ∉ f.1) fields →
  fold_result check_line cl (field_line <$> fields) = Ok cl' ↔
  Forall no_coding fields ∧
  (content_lengths fields = [] ∧ cl' = cl ∨
   ∃ f z, content_lengths fields = [f] ∧ parse_usize (trim f.2) = Some z ∧ cl = None ∧ cl' = Some z).
Proof.
  intros Hn. revert cl. induction Hn as [|f fields Hf Hn IH]; intros cl; rewrite ?fmap_cons; cbn [fold_result].
  { split; [intros [= ->]; split; [done|by left]|]. by intros [_ [[_ ->]|(f & z & ? & _)]]. }
  rewrite check_line_field by done. unfold content_lengths. rewrite Forall_cons, filter_cons.
  case_bool_decide as Hte; cbn [andb]; [case_bool_decide as Htrim; cbn [negb]|].
  2: { cbn [mbind result_bind]. split; [done|]. intros [[H _] _]. by destruct Htrim, H. }
  all: assert (no_coding f) as Hcode by (unfold no_coding; tauto).
  all: case_bool_decide as Hcl; [rewrite decide_True by done|rewrite decide_False by done].
  1: { exfalso. unfold is_field in *. rewrite Hcl in Hte. discriminate Hte. }
  1,3: cbn [mbind result_bind]; rewrite IH; tauto.
  destruct (parse_usize (trim f.2)) as [z|] eqn:Ez; cbn [ok_or mbind result_bind].
  2: { split; [done|]. intros [_ [[? _]|(f' & z & [= <- _] & Ez' & _)]]; [done|congruence]. }
  case_bool_decide as Hsome.
  - split; [done|]. intros [_ [[? _]|(f' & z' & _ & _ & -> & _)]]; [done|by destruct Hsome].
  - apply eq_None_not_Some in Hsome as ->. cbn [mbind result_bind]. rewrite IH. fold (content_lengths fields). split.
    + intros [Hte' [[Hnone ->]|(? & ? & _ & _ & ? & _)]]; [|done]. split; [by split|]. right. exists f, z. by rewrite Hnone.
    + intros [[_ Hte'] [[? _]|(f' & z' & [= <- Hnone] & Ez' & _ & ->)]]; [done|]. split; [done|]. left. split; [done|congruence].
Qed.

Lemma fields_of_lines lines cl cl' :
  fold_result check_line cl lines = Ok cl' → ∃ fields, lines = field_line <$> fields ∧ Forall (λ f, x3a ∉ f.1) fields.
Proof.
  revert cl. induction lines as [|l lines IH]; intros cl; cbn [fold_result]; [by exists []|].
  intros H. apply bind_ok in H as (cl1 & H1 & H2). apply IH in H2 as (fields & -> & Hf).
  unfold check_line in H1. apply bind_ok in H1 as ([name value] & H1 & _).
  apply ok_or_ok, split_once_some in H1 as [-> Hn]. exists ((name, value) :: fields). split; [done|]. by constructor.
Qed.

(** C33: the HTTP parser accepts exactly the responses that mean one thing: a
    status line with code 200 and header fields of at most 64 KiB of UTF-8, a blank line,
    and the body; no transfer coding, and at most one content length, which
    is then the length of the body. The result is that body. *)
Theorem http_response_exact response body :
  parse_http_response response = Ok body ↔
  ∃ status fields, let head := join_crlf (status :: (field_line <$> fields)) in
    response = head ++ SEPARATOR ++ body ∧ status_ok status = true ∧
    Forall no_crlf (status :: (field_line <$> fields)) ∧ Forall (λ f, x3a ∉ f.1) fields ∧
    len head ≤ MAX_HTTP_HEADER_BYTES ∧ is_Some (chars head) ∧ announces fields body.
Proof.
  unfold parse_http_response. split.
  - intros H. apply bind_ok in H as (sep & Hsep%ok_or_ok & H).
    apply find_window_some in Hsep as [(head & rest & -> & <-) _].
    destruct (Z.ltb_spec MAX_HTTP_HEADER_BYTES (Z.of_nat (length head))) as [|Hlen]; [done|].
    rewrite take_app_length in H. apply bind_ok in H as (head' & Hutf%ok_or_ok & H).
    unfold from_utf8 in Hutf. destruct (chars head) as [cs|] eqn:Ecs; [|done]. injection Hutf as <-.
    destruct (split_crlf head) as [|status lines] eqn:Es; [done|].
    destruct (status_ok status) eqn:Est; [|done]. cbn [negb] in H. apply bind_ok in H as (cl & Hcl & H).
    destruct (fields_of_lines _ _ _ Hcl) as (fields & -> & Hcolon). exists status, fields. cbn zeta.
    pose proof (join_split_crlf head) as Hj. rewrite Es in Hj. rewrite Hj.
    replace (length head + 4)%nat with (length (head ++ SEPARATOR)) in H by (rewrite length_app; done).
    rewrite (app_assoc head), drop_app_length in H.
    apply fold_check_line in Hcl as [Hcode Hcl]; [|done].
    assert (rest = body ∧ announces fields body) as [-> Hann].
    { destruct Hcl as [[Hnone ->]|(f & z & Hone & Hz & _ & ->)].
      - injection H as ->. split; [done|]. split; [done|by left].
      - destruct (Z.eqb_spec (len rest) z) as [<-|]; [|done]. injection H as ->. split; [done|]. split; [done|]. right. by exists f. }
    split_and!; try done. rewrite <- Es. apply split_crlf_lines.
  - intros (status & fields & Hresp & Hst & Hlines & Hcolon & Hlen & [cs Hcs] & Hcode & Hcl). cbn zeta in *.
    set (head := join_crlf _) in *.
    assert (find_window SEPARATOR response = Some (length head)) as ->.
    { rewrite Hresp. apply find_blank_line; [done|done|]. apply not_elem_of_cons. split; [intros <-; done|].
      intros (f & Hf & _)%list_elem_of_fmap. unfold field_line in Hf. by destruct f.1. }
    cbn [ok_or mbind result_bind]. unfold len in Hlen. rewrite (proj2 (Z.ltb_ge _ _)) by done.
    rewrite Hresp, take_app_length. unfold from_utf8. rewrite Hcs. cbn [ok_or mbind option_bind result_bind].
    unfold head. rewrite split_join_crlf by done. fold head. rewrite Hst. cbn [negb].
    replace (length head + 4)%nat with (length (head ++ SEPARATOR)) by (rewrite length_app; done).
    rewrite (app_assoc head), drop_app_length.
    destruct Hcl as [Hnone|(f & Hone & Hz)].
    + rewrite (proj2 (fold_check_line fields None None Hcolon)); [done|]. split; [done|by left].
    + rewrite (proj2 (fold_check_line fields None (Some (len body)) Hcolon)).
      * cbn [mbind result_bind]. by rewrite Z.eqb_refl.
      * split; [done|]. right. by exists f, (len body).
Qed.

(** ** The request *)

Definition no_break (s : bytes) : Prop := Forall (λ b, b ≠ x0d ∧ b ≠ x0a) s.

Lemma no_break_crlf s : no_break s → no_crlf s.
Proof. intros H p q ->. apply Forall_app in H as [_ H]. inversion_clear H as [|?? [? _] _]. done. Qed.
Lemma has_line_break_false s : has_line_break s = false → no_break s.
Proof.
  unfold has_line_break, no_break. induction s as [|b s IH]; [done|]. cbn [existsb]. rewrite !orb_false_iff.
  intros [[?%bool_decide_eq_false ?%bool_decide_eq_false] ?]. constructor; auto.
Qed.
Lemma no_break_app s t : no_break (s ++ t) ↔ no_break s ∧ no_break t.
Proof. apply Forall_app. Qed.
Lemma no_break_decide s : bool_decide (no_break s) = true → no_break s.
Proof. apply bool_decide_eq_true. Qed.

Lemma format_u64_no_break z : no_break (format_u64 z).
Proof.
  unfold format_u64, no_break. rewrite Forall_reverse. generalize 20%nat. intros n. revert z.
  induction n as [|n IH]; intros z; cbn [decimal_digits]; [done|]. constructor.
  - pose proof (Z.mod_pos_bound z 10 ltac:(lia)) as Hz. revert Hz. generalize (z mod 10). intros d Hd.
    assert (b2z (z2b (48 + d)) = 48 + d) as E by (rewrite b2z_z2b; apply Z.mod_small; lia).
    by split; intros Hb; rewrite Hb in E; vm_compute (b2z _) in E; lia.
  - case_match; [done|apply IH].
Qed.
Lemma intersperse_no_break sep ws : no_break sep → Forall no_break ws → no_break (intersperse sep ws).
Proof.
  intros Hs Hw. unfold intersperse, no_break. apply Forall_concat, Forall_lookup. intros i x Hx.
  rewrite list_lookup_imap in Hx. destruct (ws !! i) as [w|] eqn:Ew; [|done]. injection Hx as <-.
  assert (no_break w) by (by eapply Forall_lookup_1). case_match; [done|]. by apply no_break_app.
Qed.
Lemma address_text_no_break a : is_loopback a = true → no_break (address_text a).
Proof.
  destruct a as [octets port|segments scope_id port]; cbn [is_loopback address_text]; intros H%bool_decide_eq_true.
  - rewrite !no_break_app. split_and!; [|by apply no_break_decide|apply format_u64_no_break].
    apply intersperse_no_break; [by apply no_break_decide|]. apply Forall_fmap, Forall_true. intros z. apply format_u64_no_break.
  - subst segments. rewrite !no_break_app. split_and!; try (by apply no_break_decide); [|apply format_u64_no_break].
    case_match; [constructor|]. rewrite no_break_app. split; [by apply no_break_decide|apply format_u64_no_break].
Qed.

(** The fields of the request. *)
Definition request_lines (source : ParentRpcSource) (body_length : Z) : list bytes :=
  [str "POST " ++ source.(prs_path) ++ str " HTTP/1.1"; str "Host: " ++ address_text source.(prs_address);
   str "Content-Type: application/json"; str "Accept: application/json"; str "Content-Length: " ++ format_u64 body_length;
   str "Connection: close"; str "Authorization: " ++ source.(prs_authorization_header)].

(** A validated source cannot inject into its request. Whatever its path and credential
    are, the lines before the first blank line of what is sent are exactly the request
    line and the six fields, and the body follows. *)
Lemma request_lines_exact source body :
  validate_source source = Ok tt →
  let request := request_head source (len body) ++ body in
  ∃ separator, find_window SEPARATOR request = Some separator ∧
    split_crlf (take separator request) = request_lines source (len body) ∧ drop (separator + 4) request = body.
Proof.
  intros Hv. unfold validate_source in Hv. destruct (_ || _) eqn:E in Hv; [done|]. rewrite !orb_false_iff in E.
  destruct E as [[[[[[[[[[[[[[_ _] _] Hloop%negb_false_iff] _] _] Hpath%has_line_break_false] _] _] _] _] _] _] _] Hauth%has_line_break_false].
  apply address_text_no_break in Hloop. pose proof (format_u64_no_break (len body)) as Hlen.
  assert (request_head source (len body) = join_crlf (request_lines source (len body)) ++ SEPARATOR) as ->.
  { unfold request_head, request_lines. cbn [join_crlf]. by rewrite <- !app_assoc. }
  assert (Forall no_crlf (request_lines source (len body))) as Hlines.
  { unfold request_lines. repeat (apply Forall_cons; split; [apply no_break_crlf; rewrite ?no_break_app;
      repeat split; first [done|by apply no_break_decide]|]). constructor. }
  cbn zeta. rewrite <- app_assoc. exists (length (join_crlf (request_lines source (len body)))). split_and!.
  - apply find_blank_line; [done|done|]. unfold request_lines. intros H. repeat (apply elem_of_cons in H as [H|H]; [by cbn in H|]). by apply not_elem_of_nil in H.
  - rewrite take_app_length. by apply split_join_crlf.
  - rewrite app_assoc. set (head := _ ++ SEPARATOR).
    replace (_ + 4)%nat with (length head) by (unfold head; rewrite length_app; done). by rewrite drop_app_length.
Qed.

(** ** Hexadecimal numbers *)

Definition nibble_of (c : byte) : Z := default 0 (nibble_value (to_ascii_lowercase1 c)).
(** The number a hexadecimal text stands for, in either case. *)
Definition hex_number (s : bytes) : Z := foldl (λ acc c, 16 * acc + nibble_of c) 0 s.

Lemma to_ascii_lowercase_idemp s : to_ascii_lowercase (to_ascii_lowercase s) = to_ascii_lowercase s.
Proof.
  unfold to_ascii_lowercase. rewrite <- list_fmap_compose. apply list_fmap_ext. intros _ b _. cbn. destruct b; by vm_compute.
Qed.
Lemma hex_number_lowercase s : hex_number (to_ascii_lowercase s) = hex_number s.
Proof.
  unfold hex_number. generalize 0. induction s as [|b s IH]; intros acc; [done|]. cbn [to_ascii_lowercase fmap list_fmap foldl].
  fold (to_ascii_lowercase s). rewrite IH. f_equal. f_equal. by destruct b; vm_compute.
Qed.
Lemma hex_number_zeros n s : hex_number (replicate n x30 ++ s) = hex_number s.
Proof. unfold hex_number. induction n as [|n IH]; [done|]. cbn [replicate app foldl]. exact IH. Qed.
Lemma hex_number_lower_hex bs : hex_number (lower_hex bs) = of_be bs.
Proof.
  induction bs as [|b bs IH] using rev_ind; [done|]. unfold hex_number, lower_hex in *.
  rewrite fmap_app, concat_app, foldl_app, IH. unfold of_be. rewrite reverse_app. cbn [reverse rev_append app of_le fmap list_fmap concat foldl].
  assert (nibble_of (nibble_char (b2z b / 16)) = b2z b / 16 ∧ nibble_of (nibble_char (b2z b mod 16)) = b2z b mod 16) as [-> ->].
  { destruct b; by vm_compute. }
  pose proof (Z.div_mod (b2z b) 16 ltac:(lia)). lia.
Qed.

(** ** What an answer vouches for *)

Section Sound.
Context {digests : Digests} {hexes : Hex}.
(** [hex::encode]: two lower-case digits for each byte. *)
Hypothesis hex_lower : ∀ bs, hex_encode bs = lower_hex bs.

(** The snapshot of an authority of the certificate's network that, at time [t], has the
    certificate's parent on its active chain, deep enough and not too deep, with
    the same height, time and work, and as its tip when that was asked for; and the parent
    is fresh. *)
Definition vouches (policy : LiveParentPolicy) (c : SessionParentCertificateV2) (t : Z) (tip_required : bool)
    (s : ParentAuthoritySnapshot) : Prop :=
  let chain := s.(pas_chain) in let h := s.(pas_header) in
  c.(spc_network_id) = policy.(lpp_network_id) ∧
  MIN_HSRD_PARENT_AUTHORITY_API_VERSION ≤ s.(pas_api_version) ∧
  expected_chain_name c.(spc_network_id) = Ok s.(pas_network) ∧ authority_available policy s = true ∧
  c.(spc_parent_height) ≤ chain.(pcv_blocks) ≤ chain.(pcv_headers) ∧
  policy.(lpp_minimum_confirmations) ≤ h.(phv_confirmations) ∧
  h.(phv_confirmations) = Z.min (chain.(pcv_blocks) - c.(spc_parent_height) + 1) U32_MAX ∧
  chain.(pcv_blocks) - c.(spc_parent_height) ≤ policy.(lpp_maximum_certificate_depth) ∧
  to_ascii_lowercase h.(phv_hash) = lower_hex c.(spc_parent_hash) ∧
  h.(phv_height) = c.(spc_parent_height) ∧ h.(phv_time) = c.(spc_observed_ntime) ∧
  hex_number h.(phv_chainwork) = of_be c.(spc_parent_chainwork) ∧
  (tip_required = true → chain.(pcv_blocks) = c.(spc_parent_height) ∧
     to_ascii_lowercase chain.(pcv_best_block_hash) = lower_hex c.(spc_parent_hash)) ∧
  t ≤ 1000 * c.(spc_observed_ntime) + as_millis policy.(lpp_maximum_header_age).

Lemma lower_hex_lowercase bs : to_ascii_lowercase (lower_hex bs) = lower_hex bs.
Proof.
  unfold lower_hex, to_ascii_lowercase. induction bs as [|b bs IH]; [done|]. rewrite fmap_cons. cbn [concat]. rewrite fmap_app, IH.
  f_equal. destruct b; by vm_compute.
Qed.
Lemma eq_ignore_ascii_case_hex s bs : eq_ignore_ascii_case s (lower_hex bs) = true ↔ to_ascii_lowercase s = lower_hex bs.
Proof. unfold eq_ignore_ascii_case. by rewrite bool_decide_eq_true, lower_hex_lowercase. Qed.

Lemma validate_certificate_fields_ok c h :
  validate_certificate_fields c h = Ok tt →
  to_ascii_lowercase h.(phv_hash) = lower_hex c.(spc_parent_hash) ∧
  h.(phv_height) = c.(spc_parent_height) ∧ h.(phv_time) = c.(spc_observed_ntime) ∧
  hex_number h.(phv_chainwork) = of_be c.(spc_parent_chainwork).
Proof.
  unfold validate_certificate_fields. rewrite !hex_lower. destruct (_ || _) eqn:E; [done|].
  rewrite !orb_false_iff, !negb_false_iff in E. destruct E as [[Eh%eq_ignore_ascii_case_hex Eg%Z.eqb_eq] Et%Z.eqb_eq].
  intros (work & Hw & H)%bind_ok. destruct (eq_ignore_ascii_case work _) eqn:Ew; [|done]. apply eq_ignore_ascii_case_hex in Ew.
  split_and!; try done. unfold normalize_chainwork_hex in Hw. destruct (_ || _) in Hw; [done|]. injection Hw as <-.
  rewrite to_ascii_lowercase_idemp in Ew. rewrite <- hex_number_lower_hex, <- Ew, hex_number_lowercase. by rewrite hex_number_zeros.
Qed.

Lemma qualify_snapshot_vouches policy hsrd c t tip s status :
  c.(spc_network_id) = policy.(lpp_network_id) → qualify_snapshot policy hsrd c t tip s = Ok status →
  vouches policy c t tip s.
Proof.
  intros Hnet H. unfold qualify_snapshot in H.
  destruct (Z.ltb_spec s.(pas_api_version) MIN_HSRD_PARENT_AUTHORITY_API_VERSION) as [|Hapi]; [done|].
  apply bind_ok in H as (name & Hname & H). case_bool_decide as Hn; [done|]. subst name.
  destruct (authority_available policy s) eqn:Hauth; [|done]. cbn [negb] in H.
  apply bind_ok in H as ([] & H & _). unfold validate_authoritative_header in H.
  destruct (_ || _) eqn:E1 in H; [done|]. rewrite !orb_false_iff in E1. destruct E1 as [[Hc Hh] Hb].
  apply Z.leb_gt in Hc. apply Z.ltb_ge in Hh, Hb. destruct (Z.ltb_spec U32_MAX s.(pas_header).(phv_confirmations)); [done|].
  destruct (_ || _) eqn:E2 in H; [done|]. rewrite !orb_false_iff, negb_false_iff in E2. destruct E2 as [[Hmin Hdepth] Hconf].
  unfold saturating_sub, saturating_add in *. rewrite Z.max_l in * by lia. apply Z.ltb_ge in Hmin, Hdepth. apply Z.eqb_eq in Hconf.
  apply bind_ok in H as ([] & Hfields & H). apply validate_certificate_fields_ok in Hfields as (Hhash & Hheight & Htime & Hwork).
  destruct (tip && _) eqn:Etip in H; [done|]. destruct (Z.ltb_spec (millis_u64 policy.(lpp_maximum_header_age))
    (Z.max (t - saturating_mul 64 s.(pas_header).(phv_time) 1000) 0)) as [|Hage]; [done|].
  unfold vouches. rewrite Hnet. split_and!; try done; try lia.
  - intros ->. cbn [andb] in Etip. rewrite !orb_false_iff, !negb_false_iff, hex_lower in Etip.
    destruct Etip as [[_ Hblocks%Z.eqb_eq] Hbest%eq_ignore_ascii_case_hex]. by split.
  - rewrite <- Htime. unfold millis_u64, saturating_mul in Hage. lia.
Qed.

(** The signature of a certificate does not matter. *)
Lemma vouches_strip policy c c' t tip s :
  strip_signature c = strip_signature c' → vouches policy c t tip s → vouches policy c' t tip s.
Proof.
  destruct c, c'. cbn [strip_signature SessionParentCertificateV2_unsigned_laws]. unfold strip_SessionParentCertificateV2. cbn.
  intros [= -> -> -> -> -> -> -> ->]. unfold vouches. cbn. done.
Qed.

(** ** Threads *)

Context {Value Stream W : Type} {json : SerdeJson Value} {tcp : Tcp Stream W}.
Variable limits : DecodeLimits.

(** A call whose result is known and being published; first the status is written, then the cache. *)
Record Call := mkCall {
  ca_certificate : SessionParentCertificateV2;
  ca_now_ms : Z;
  ca_tip_required : bool;
  ca_result : result ParentOracleError ParentQualificationStatus;
  ca_status_written : bool;
}.
(** The oracle, the calls in flight, and the history: the snapshots fetched, with the time at
    which the call began, and the answers given. *)
Record Threads := mkThreads {
  th_oracle : LiveParentOracle;
  th_calls : list Call;
  th_fetched : list (Z * Hash256 * ParentAuthoritySnapshot);
  th_answers : list (SessionParentCertificateV2 * Z * bool * result ParentOracleError ParentQualificationStatus);
}.
(** What a call that is not answered from the cache fetches. *)
Definition fetched_by (o : LiveParentOracle) (c : SessionParentCertificateV2) (now_ms : Z) (s : Z * W) :
    list (Z * Hash256 * ParentAuthoritySnapshot) :=
  match (fetch_parent_authority o.(lpo_hsrd) c.(spc_parent_hash) s).1 with
  | Ok snapshot => [(now_ms, c.(spc_parent_hash), snapshot)]
  | Err _ => []
  end.

(** A call reads the cache; when that does not answer it, it fetches (the fetch depends on
    no shared state, so it is part of the same step, with any world), writes the
    status and then the cache. Certificates are decoded ones. *)
Inductive thread_step : Threads → Threads → Prop :=
| step_hit th c now_ms tip_required status :
    codec_ok limits c → cache_lookup th.(th_oracle) c now_ms tip_required = Some status →
    thread_step th (mkThreads th.(th_oracle) th.(th_calls) th.(th_fetched)
      ((c, now_ms, tip_required, Ok status) :: th.(th_answers)))
| step_fetch th c now_ms tip_required s r s' :
    codec_ok limits c → cache_lookup th.(th_oracle) c now_ms tip_required = None →
    qualify_uncached th.(th_oracle) c now_ms tip_required s = (r, s') →
    thread_step th (mkThreads th.(th_oracle) (mkCall c now_ms tip_required r false :: th.(th_calls))
      (fetched_by th.(th_oracle) c now_ms s ++ th.(th_fetched)) th.(th_answers))
| step_status th calls1 calls2 c now_ms tip_required r :
    th.(th_calls) = calls1 ++ mkCall c now_ms tip_required r false :: calls2 →
    thread_step th (mkThreads (publish_status th.(th_oracle) c now_ms tip_required r)
      (calls1 ++ mkCall c now_ms tip_required r true :: calls2) th.(th_fetched) th.(th_answers))
| step_cache th calls1 calls2 c now_ms tip_required r :
    th.(th_calls) = calls1 ++ mkCall c now_ms tip_required r true :: calls2 →
    thread_step th (mkThreads (publish_cache th.(th_oracle) c now_ms tip_required r)
      (calls1 ++ calls2) th.(th_fetched) ((c, now_ms, tip_required, r) :: th.(th_answers))).

(** A call of [qualify_with_mode] alone is such a run. *)
Lemma qualify_with_mode_steps th c tip_required elapsed now_ms s :
  codec_ok limits c → wall_ms elapsed = Ok now_ms →
  let '(r, o', _) := qualify_with_mode th.(th_oracle) c tip_required elapsed s in
  ∃ fetched, rtc thread_step th (mkThreads o' th.(th_calls) fetched ((c, now_ms, tip_required, r) :: th.(th_answers))).
Proof.
  intros Hc Hw. unfold qualify_with_mode. rewrite Hw. destruct (cache_lookup _ c now_ms tip_required) as [status|] eqn:El.
  { exists th.(th_fetched). by apply rtc_once, step_hit. }
  destruct (qualify_uncached _ c now_ms tip_required s) as [r s'] eqn:Eq.
  exists (fetched_by th.(th_oracle) c now_ms s ++ th.(th_fetched)).
  eapply rtc_l; [by eapply step_fetch|]. eapply rtc_l; [by eapply (step_status _ [])|].
  apply rtc_once. exact (step_cache (mkThreads _ (mkCall c now_ms tip_required r true :: th.(th_calls)) _ _) [] th.(th_calls)
    c now_ms tip_required r eq_refl).
Qed.

(** The status is justified by a fetched snapshot. *)
Definition justified (policy : LiveParentPolicy) (hsrd : ParentRpcSource) fetched (c : SessionParentCertificateV2) (t : Z)
    (tip_required : bool) (status : ParentQualificationStatus) : Prop :=
  codec_ok limits c ∧ c.(spc_network_id) = policy.(lpp_network_id) ∧
  ∃ s, (t, c.(spc_parent_hash), s) ∈ (fetched : list (Z * Hash256 * ParentAuthoritySnapshot)) ∧
    qualify_snapshot policy hsrd c t tip_required s = Ok status.
Definition answered (policy : LiveParentPolicy) (hsrd : ParentRpcSource) fetched (c : SessionParentCertificateV2) (now_ms : Z)
    (tip_required : bool) (status : ParentQualificationStatus) : Prop :=
  ∃ c0 t, codec_ok limits c ∧ object_id c0 = object_id c ∧ now_ms ≤ t + as_millis policy.(lpp_cache_ttl) ∧
    justified policy hsrd fetched c0 t tip_required status.
Definition threads_ok (policy : LiveParentPolicy) (hsrd : ParentRpcSource) (th : Threads) : Prop :=
  th.(th_oracle).(lpo_policy) = policy ∧ th.(th_oracle).(lpo_hsrd) = hsrd ∧
  (∀ cached, th.(th_oracle).(lpo_cache) = Some cached → ∃ c t,
     cached.(cq_certificate_id) = object_id c ∧ cached.(cq_expires_at_ms) ≤ t + as_millis policy.(lpp_cache_ttl) ∧
     justified policy hsrd th.(th_fetched) c t cached.(cq_tip_required) cached.(cq_status)) ∧
  (∀ call status, call ∈ th.(th_calls) → call.(ca_result) = Ok status →
     justified policy hsrd th.(th_fetched) call.(ca_certificate) call.(ca_now_ms) call.(ca_tip_required) status) ∧
  ∀ c now_ms tip status, (c, now_ms, tip, Ok status) ∈ th.(th_answers) →
    answered policy hsrd th.(th_fetched) c now_ms tip status.

Lemma justified_mono policy hsrd fetched fetched' c t tip status :
  fetched ⊆ fetched' → justified policy hsrd fetched c t tip status → justified policy hsrd fetched' c t tip status.
Proof. intros Hsub (Hc & Hn & s & Hs & Hq). split; [done|]. split; [done|]. exists s. split; [by apply Hsub|done]. Qed.
Lemma answered_mono policy hsrd fetched fetched' c t tip status :
  fetched ⊆ fetched' → answered policy hsrd fetched c t tip status → answered policy hsrd fetched' c t tip status.
Proof. intros Hsub (c0 & t0 & Hc & Hid & Ht & Hj). exists c0, t0. by eauto using justified_mono. Qed.

Lemma qualify_uncached_justified o c now_ms tip s r s' status fetched :
  codec_ok limits c → qualify_uncached o c now_ms tip s = (r, s') → r = Ok status →
  justified o.(lpo_policy) o.(lpo_hsrd) (fetched_by o c now_ms s ++ fetched) c now_ms tip status.
Proof.
  intros Hc H ->. unfold qualify_uncached in H. destruct (Z.eqb_spec c.(spc_network_id) o.(lpo_policy).(lpp_network_id)) as [Hn|]; [|done].
  cbn [negb] in H. destruct (fetch_parent_authority _ _ s) as [[snapshot|] s1] eqn:Ef; cbn [mbind result_bind] in H; [|done].
  injection H as H _. split; [done|]. split; [done|]. exists snapshot. split; [|done].
  unfold fetched_by. rewrite Ef. cbn. left.
Qed.

Lemma thread_step_ok policy hsrd th th' :
  0 ≤ policy.(lpp_cache_ttl) → threads_ok policy hsrd th → thread_step th th' → threads_ok policy hsrd th'.
Proof.
  intros Httl (Hp & Hh & Hcache & Hcalls & Hanswers) Hstep.
  assert (∀ t, saturating_add 64 t (millis_u64 policy.(lpp_cache_ttl)) ≤ t + as_millis policy.(lpp_cache_ttl)) as Hexp.
  { intros t. unfold saturating_add, millis_u64. lia. }
  destruct Hstep as [th c now tip status Hc Hl|th c now tip s r s' Hc Hl Hq|th c1 c2 c now tip r Hcs|th c1 c2 c now tip r Hcs];
    unfold threads_ok; cbn [th_oracle th_calls th_fetched th_answers lpo_policy lpo_hsrd lpo_cache publish_status publish_cache].
  - split_and!; try done. intros c' now' tip' status' [[= -> -> -> ->]|Hin]%elem_of_cons; [|by apply Hanswers].
    unfold cache_lookup in Hl. destruct (lpo_cache _) as [cached|] eqn:Ec; [|done].
    destruct (_ && _) eqn:E in Hl; [|done]. injection Hl as <-. rewrite !andb_true_iff in E.
    destruct E as [[Hid%bool_decide_eq_true Htip%Bool.eqb_prop] Hnow%Z.leb_le].
    destruct (Hcache cached eq_refl) as (c0 & t & Hid0 & Hexpires & Hj). exists c0, t. rewrite <- Htip.
    split_and!; [done|congruence|lia|done].
  - split_and!; try done.
    + intros cached Ec. destruct (Hcache cached Ec) as (c0 & t & ? & ? & ?). exists c0, t.
      split_and!; [done..|]. eapply justified_mono; [|done]. by apply list_subseteq_app_r.
    + intros call status [->|Hin]%elem_of_cons Hr.
      * rewrite <- Hp, <- Hh. by eapply qualify_uncached_justified.
      * eapply justified_mono; [|by apply Hcalls]. by apply list_subseteq_app_r.
    + intros c' now' tip' status' Hin. eapply answered_mono; [|by apply Hanswers]. by apply list_subseteq_app_r.
  - split_and!; try done. intros call status Hin Hr. apply elem_of_app in Hin as [Hin|[->|Hin]%elem_of_cons].
    + apply Hcalls; [|done]. rewrite Hcs. set_solver.
    + apply (Hcalls (mkCall c now tip r false)); [|done]. rewrite Hcs. set_solver.
    + apply Hcalls; [|done]. rewrite Hcs. set_solver.
  - assert (∀ status, r = Ok status → justified policy hsrd th.(th_fetched) c now tip status) as Hr.
    { intros status ->. apply (Hcalls (mkCall c now tip (Ok status) true)); [|done]. rewrite Hcs. set_solver. }
    split_and!; try done.
    + intros cached Hc. destruct r as [status|]; [|done]. injection Hc as <-. exists c, now. cbn.
      rewrite Hp. split_and!; [done|apply Hexp|by apply Hr].
    + intros call status Hin. apply Hcalls. rewrite Hcs. set_solver.
    + intros c' now' tip' status' [[= -> -> -> <-]|Hin]%elem_of_cons; [|by apply Hanswers]. exists c, now.
      specialize (Hr _ eq_refl). split_and!; [apply Hr|done| |done]. unfold as_millis. pose proof (Z.div_pos policy.(lpp_cache_ttl) 1000000). lia.
Qed.

Lemma certificate_size (c : SessionParentCertificateV2) :
  codec_ok limits c → len (to_canonical_bytes (strip_signature c)) < 2 ^ 64.
Proof.
  intros Hc. cbn [codec_ok SessionParentCertificateV2_codec_laws] in Hc. unfold ok_SessionParentCertificateV2, arr in Hc. destruct_and!.
  unfold to_canonical_bytes, into_bytes. cbn [strip_signature SessionParentCertificateV2_unsigned_laws encode SessionParentCertificateV2_codec].
  unfold encode_SessionParentCertificateV2, encode_unsigned_SessionParentCertificateV2, strip_SessionParentCertificateV2, encode_prefix.
  cbn [spc_protocol_version spc_network_id spc_parent_hash spc_parent_height spc_parent_chainwork spc_observed_ntime
       spc_certificate_sequence spc_previous_parent_certificate_id spc_signer_set].
  rewrite !wseq_nil by apply _. unfold enc_u16, enc_u8, enc_fixed, enc_u32, enc_u64. unfold len.
  rewrite !app_nil_l, !length_app, !to_le_length.
  change (length (encode_SignatureSet empty_ed25519 [])) with (Z.to_nat (len (encode_SignatureSet empty_ed25519 []))).
  assert (len (encode_SignatureSet empty_ed25519 []) < 1000) by by vm_compute.
  repeat match goal with E : length _ = _ |- _ => rewrite E; clear E end. cbn [length]. lia.
Qed.

(** The longest a cached answer may be used, by the policies an oracle accepts. *)
Definition cache_bound_ms (network_id : Z) : Z := if network_id =? 0 then 1000 else 60000.

Lemma oracle_new_ttl policy hsrd o :
  oracle_new policy hsrd = Ok o → as_millis policy.(lpp_cache_ttl) ≤ cache_bound_ms policy.(lpp_network_id).
Proof.
  intros ([] & Hp & _)%bind_ok. unfold validate_policy in Hp. destruct (_ || _) eqn:E in Hp; [done|].
  rewrite !orb_false_iff, Z.ltb_ge in E. destruct E as [[_ Httl] Hmain]. unfold as_millis, cache_bound_ms, from_secs in *.
  destruct (policy.(lpp_network_id) =? 0); cbn [andb] in Hmain.
  - apply orb_false_iff in Hmain as [_ Hmain%Z.ltb_ge]. unfold MAX_MAINNET_CANARY_CACHE_TTL, from_secs in Hmain.
    apply Z.div_le_upper_bound; lia.
  - apply Z.div_le_upper_bound; lia.
Qed.

(** C9: every qualification is backed by the node. Whatever certificates any
    number of threads ask a new oracle about, whatever the node answers and however the calls
    interleave, an accepted certificate was vouched for by a snapshot that was
    fetched by a call that began at most a minute (on the main network, a second) earlier:
    the authority of that network has the certificate's parent on its active chain with
    the same height, time and work, within the depth limits, fresh, and as the tip when
    asked; or the certificate's identity collides with another's. *)
Theorem parent_answers_vouched policy hsrd o th c now_ms tip_required status :
  0 ≤ policy.(lpp_cache_ttl) → oracle_new policy hsrd = Ok o →
  rtc thread_step (mkThreads o [] [] []) th →
  (c, now_ms, tip_required, Ok status) ∈ th.(th_answers) →
  ∃ c0 t s, (t, c0.(spc_parent_hash), s) ∈ th.(th_fetched) ∧
    now_ms ≤ t + cache_bound_ms policy.(lpp_network_id) ∧ status.(pqs_hsrd) = Some s.(pas_header) ∧
    (vouches policy c t tip_required s ∧ c0.(spc_parent_hash) = c.(spc_parent_hash) ∨
     collides 32 (id_preimage c0) (id_preimage c)).
Proof.
  intros Httl Hnew Hrun. pose proof (oracle_new_ttl _ _ _ Hnew) as Hbound.
  assert (threads_ok policy hsrd th) as (_ & _ & _ & _ & Hok).
  { revert Hrun. apply rtc_ind_r; [|by eauto using thread_step_ok].
    apply bind_ok in Hnew as (_ & _ & (_ & _ & [= <-])%bind_ok).
    split_and!; try done; [by intros ?? ?%not_elem_of_nil|by intros ???? ?%not_elem_of_nil]. }
  intros (c0 & t & Hc & Hid & Hnow & Hc0 & Hn & s & Hs & Hq)%Hok. exists c0, t, s. split_and!; [done|lia| |].
  - unfold qualify_snapshot in Hq. case_match; [done|]. apply bind_ok in Hq as (name & _ & Hq).
    case_bool_decide; [done|]. case_match; [done|]. by apply bind_ok in Hq as (_ & _ & [= <-]).
  - destruct (object_id_binding limits c0 c) as [Hstrip|]; [done|done|by apply certificate_size|done| |by right].
    left. split; [eapply vouches_strip; [done|]; by eapply qualify_snapshot_vouches|].
    destruct c0, c. by injection Hstrip.
Qed.
End Sound.

(** ** Witnesses *)

Module OracleWitness.
#[local] Existing Instance toy_digests.
#[local] Existing Instance lower_hex_instance.

Definition certificate : SessionParentCertificateV2 :=
  mkSessionParentCertificateV2 2 2 (replicate 32 x11) 100 (replicate 31 x00 ++ [x2a]) 1000 1 (replicate 32 x00) empty_ed25519.
Definition ready : ParentConsensusReadinessView :=
  mkParentConsensusReadinessView true true true true true true true true true true true true true true true true true true
    true true true true true true true.
Definition valid_tip : ParentTipValidationView :=
  mkParentTipValidationView true true true true true true true true true true true true true true true true false.
Definition snapshot : ParentAuthoritySnapshot :=
  mkParentAuthoritySnapshot 10 (str "regtest") true (mkParentChainView 100 100 (lower_hex (replicate 32 x11)))
    (mkParentHeaderView (lower_hex (replicate 32 x11)) 100 (str "2A") 1 1000)
    (mkParentAuthorityView (str "native") true false false true true true [] ready) true false (Some valid_tip).
#[local] Instance one_value : SerdeJson bytes := {|
  request_to_vec _ _ _ := Some (str "{}");
  from_slice body := Some body;
  value_get _ key := Some key;
  as_u64 _ := Some 1;
  as_str _ := None;
  is_null _ := true;
  snapshot_from_value _ := Some snapshot;
|}.
Definition response : bytes := str "HTTP/1.1 200 OK" ++ CRLF ++ str "Content-Length: 2" ++ SEPARATOR ++ str "{}".
#[local] Instance one_node : Tcp unit unit := {|
  tcp_send _ _ _ _ _ w := (Ok tt, w);
  tcp_read _ _ w := (Ok response, w);
|}.
Definition policy : LiveParentPolicy := mkLiveParentPolicy 2 1 5 (from_secs 600) (from_secs 10).
Definition source : ParentRpcSource :=
  mkParentRpcSource (str "hsrd") (SocketV4 [127; 0; 0; 1] 14037) (str "/") (str "Basic eA==") 1 1 1 4096.

Lemma certificate_ok : codec_ok DecodeLimits_default certificate.
Proof. cbn [codec_ok SessionParentCertificateV2_codec_laws]. unfold ok_SessionParentCertificateV2, ok_SignatureSet, ok_vec.
  split_and!; first [done|by vm_compute|constructor]. Qed.

Lemma parent_answers_vouched_witness :
  ∃ th status c0 t s, (certificate, 1005000, true, Ok status) ∈ th.(th_answers) ∧
    (t, c0.(spc_parent_hash), s) ∈ th.(th_fetched) ∧ 1005000 ≤ t + 60000 ∧ status.(pqs_hsrd) = Some s.(pas_header) ∧
    (vouches policy certificate t true s ∧ c0.(spc_parent_hash) = certificate.(spc_parent_hash) ∨
     collides 32 (id_preimage c0) (id_preimage certificate)).
Proof.
  destruct (oracle_new policy source) as [o|] eqn:Eo; [|vm_compute in Eo; discriminate Eo].
  pose proof (qualify_with_mode_steps DecodeLimits_default (mkThreads o [] [] []) certificate true
    (Some (from_secs 1005)) 1005000 (1, tt) certificate_ok ltac:(by vm_compute)) as H.
  cbn [th_oracle] in H. destruct (qualify_with_mode o certificate true (Some (from_secs 1005)) (1, tt)) as [[r o'] s'] eqn:Eq.
  destruct r as [status|e]; [|vm_compute in Eo; injection Eo as <-; vm_compute in Eq; discriminate Eq].
  destruct H as [fetched Hrun]. match type of Hrun with rtc _ _ ?th => exists th, status end.
  destruct (parent_answers_vouched (hexes := lower_hex_instance) (λ bs, eq_refl (lower_hex bs)) DecodeLimits_default policy source o _ certificate 1005000 true status
    ltac:(by vm_compute) Eo Hrun) as (c0 & t & s & H); [left|]. exists c0, t, s. split; [left|]. exact H.
Defined.

Lemma request_lines_exact_witness :
  ∃ separator, find_window SEPARATOR (request_head source 2 ++ str "{}") = Some separator ∧
    split_crlf (take separator (request_head source 2 ++ str "{}")) = request_lines source 2 ∧
    drop (separator + 4) (request_head source 2 ++ str "{}") = str "{}".
Proof. apply (request_lines_exact source (str "{}")). by vm_compute. Defined.
End OracleWitness.
