(* ===== verification/Recovery.v ===== *)
(** * Payout recovery checkpoints (crates/meshmine-settlement/src/recovery.rs)

    The sealed restart point of payout admission, its canonical encoding, the
    source fence and the durable head, and the operations that install and load a
    checkpoint, as clients of a store among other writers. *)

From S2P Require Import Prelude Codec Hash Types Objects Header Merkle Storage Journal Settlement Body Payout Snapshot Crypto Client.

Definition PAYOUT_RECOVERY_CHECKPOINT_V1 : Z := 1.
Definition PAYOUT_RECOVERY_HEAD_NAMESPACE : bytes := str "payout-recovery-checkpoint-head/v1".
Definition PAYOUT_RECOVERY_SOURCE_FENCE_NAMESPACE : bytes := str "payout-recovery-source-fence/v1".
Definition MAX_EXPECTED_PAYOUT_PLANS : Z := 100000.
Definition MAX_CANONICAL_PLAN_BINDINGS : Z := 100000.
Definition MAX_PAYOUT_RECOVERY_COMMITTEE_MEMBERS : Z := 256.
Definition MAX_PAYOUT_CHECKPOINT_BYTES : Z := 64 * 1024 * 1024.
Definition PAYOUT_RECOVERY_HEAD_MAGIC : bytes := str "MMCH".
Definition PAYOUT_RECOVERY_SOURCE_FENCE_MAGIC : bytes := str "MMSF".
Definition PAYOUT_RECOVERY_WRAPPER_DOMAIN : bytes := str "meshmine/payout-recovery-wrapper/v1".

(** ** The records *)

Record PayoutRecoverySourceFenceV1 := mkPayoutRecoverySourceFenceV1 {
  sf_disposition_count : Z;
  sf_disposition_commitment : Hash256;
  sf_snapshot_count : Z;
  sf_snapshot_head_id : Hash256;
  sf_plan_count : Z;
  sf_plan_head_id : Hash256;
  sf_canonical_event_count : Z;
  sf_canonical_event_commitment : Hash256;
}.
#[export] Instance PayoutRecoverySourceFenceV1_eq_dec : EqDecision PayoutRecoverySourceFenceV1.
Proof. solve_decision. Defined.

Record ExpectedPayoutPlanV1 := mkExpectedPayoutPlanV1 {
  ep_plan_sequence : Z;
  ep_snapshot_id : Hash256;
}.
#[export] Instance ExpectedPayoutPlanV1_eq_dec : EqDecision ExpectedPayoutPlanV1.
Proof. solve_decision. Defined.

Record CanonicalPlanBindingV1 := mkCanonicalPlanBindingV1 {
  cb_plan_sequence : Z;
  cb_payout_plan_id : Hash256;
  cb_payout_snapshot_id : Hash256;
}.
#[export] Instance CanonicalPlanBindingV1_eq_dec : EqDecision CanonicalPlanBindingV1.
Proof. solve_decision. Defined.

Record PayoutRecoveryHeadV1 := mkPayoutRecoveryHeadV1 {
  hd_network_id : Z;
  hd_checkpoint_sequence : Z;
  hd_checkpoint_id : Hash256;
  hd_checkpoint_wrapper_id : Hash256;
}.
#[export] Instance PayoutRecoveryHeadV1_eq_dec : EqDecision PayoutRecoveryHeadV1.
Proof. solve_decision. Defined.

Record PayoutRecoveryCommitteePolicyV1 := mkPayoutRecoveryCommitteePolicyV1 {
  rp_network_id : Z;
  rp_settlement_committee_id : Hash256;
  rp_payout_policy_fingerprint : Hash256;
  rp_threshold : Z;
  rp_members : gset bytes;
}.
Inductive PayoutRecoveryPersistOutcome := RecoveryCommitted | AlreadyCurrent.
Record PayoutRecoveryCheckpointV1 := mkPayoutRecoveryCheckpointV1 {
  rc_core_protocol_version : Z;
  rc_checkpoint_version : Z;
  rc_network_id : Z;
  rc_checkpoint_sequence : Z;
  rc_previous_checkpoint_id : Hash256;
  rc_payout_policy_fingerprint : Hash256;
  rc_source_fence : PayoutRecoverySourceFenceV1;
  rc_accumulator : SnapshotAccumulatorCheckpoint;
  rc_expected_plans : list ExpectedPayoutPlanV1;
  rc_canonical_plan_bindings : list CanonicalPlanBindingV1;
  rc_signer_set : SignatureSet;
}.
#[export] Instance BucketCredit_eq_dec : EqDecision BucketCredit.
Proof. solve_decision. Defined.
#[export] Instance ClosedSessionCredits_eq_dec : EqDecision ClosedSessionCredits.
Proof. solve_decision. Defined.
#[export] Instance SnapshotAccumulatorCheckpoint_eq_dec : EqDecision SnapshotAccumulatorCheckpoint.
Proof. solve_decision. Defined.
#[export] Instance PayoutRecoveryCheckpointV1_eq_dec : EqDecision PayoutRecoveryCheckpointV1.
Proof. solve_decision. Defined.

(** ** Codecs *)

Definition encode_PayoutRecoverySourceFenceV1 (o : PayoutRecoverySourceFenceV1) : Writer :=
  enc_u64 o.(sf_disposition_count) >>>
  enc_fixed o.(sf_disposition_commitment) >>>
  enc_u64 o.(sf_snapshot_count) >>>
  enc_fixed o.(sf_snapshot_head_id) >>>
  enc_u64 o.(sf_plan_count) >>>
  enc_fixed o.(sf_plan_head_id) >>>
  enc_u64 o.(sf_canonical_event_count) >>>
  enc_fixed o.(sf_canonical_event_commitment).

Definition decode_PayoutRecoverySourceFenceV1 : parser PayoutRecoverySourceFenceV1 :=
  disposition_count ← dec_u64;
  disposition_commitment ← dec_array 32;
  snapshot_count ← dec_u64;
  snapshot_head_id ← dec_array 32;
  plan_count ← dec_u64;
  plan_head_id ← dec_array 32;
  canonical_event_count ← dec_u64;
  canonical_event_commitment ← dec_array 32;
  mret (mkPayoutRecoverySourceFenceV1 disposition_count disposition_commitment snapshot_count snapshot_head_id plan_count plan_head_id canonical_event_count canonical_event_commitment).

Definition ok_PayoutRecoverySourceFenceV1 (limits : DecodeLimits) (o : PayoutRecoverySourceFenceV1) : Prop :=
  uint 64 o.(sf_disposition_count) ∧
  arr 32 o.(sf_disposition_commitment) ∧
  uint 64 o.(sf_snapshot_count) ∧
  arr 32 o.(sf_snapshot_head_id) ∧
  uint 64 o.(sf_plan_count) ∧
  arr 32 o.(sf_plan_head_id) ∧
  uint 64 o.(sf_canonical_event_count) ∧
  arr 32 o.(sf_canonical_event_commitment).

#[export] Instance encode_PayoutRecoverySourceFenceV1_appends o : Appends (encode_PayoutRecoverySourceFenceV1 o).
Proof. unfold encode_PayoutRecoverySourceFenceV1. apply _. Qed.

Lemma reads_PayoutRecoverySourceFenceV1 limits o :
  ok_PayoutRecoverySourceFenceV1 limits o → reads limits decode_PayoutRecoverySourceFenceV1 (encode_PayoutRecoverySourceFenceV1 o) o.
Proof.
  unfold ok_PayoutRecoverySourceFenceV1. intros Hok. destruct_and!. unfold decode_PayoutRecoverySourceFenceV1, encode_PayoutRecoverySourceFenceV1.
  solve_reads. by destruct o.
Qed.

Lemma accepts_PayoutRecoverySourceFenceV1 limits :
  accepts limits decode_PayoutRecoverySourceFenceV1 (λ o bs, ok_PayoutRecoverySourceFenceV1 limits o ∧ bs = encode_PayoutRecoverySourceFenceV1 o []).
Proof.
  unfold decode_PayoutRecoverySourceFenceV1. solve_accepts. split.
  - destruct_and?. repeat (split; [done|]). done.
  - unfold encode_PayoutRecoverySourceFenceV1. by flatten_writers.
Qed.

#[export] Hint Resolve reads_PayoutRecoverySourceFenceV1 : codec.
#[export] Hint Extern 1 (accepts _ decode_PayoutRecoverySourceFenceV1 _) => apply accepts_PayoutRecoverySourceFenceV1 : codec.

#[global] Typeclasses Opaque encode_PayoutRecoverySourceFenceV1.

#[export] Instance PayoutRecoverySourceFenceV1_codec : Codec PayoutRecoverySourceFenceV1 := {| encode := encode_PayoutRecoverySourceFenceV1; decode := decode_PayoutRecoverySourceFenceV1 |}.

#[export] Instance PayoutRecoverySourceFenceV1_codec_laws : CodecLaws PayoutRecoverySourceFenceV1 := {|
  codec_ok := ok_PayoutRecoverySourceFenceV1;
  encode_appends := encode_PayoutRecoverySourceFenceV1_appends;
  decode_encode := reads_PayoutRecoverySourceFenceV1;
  decode_sound := accepts_PayoutRecoverySourceFenceV1;
|}.

Definition encode_ExpectedPayoutPlanV1 (o : ExpectedPayoutPlanV1) : Writer :=
  enc_u64 o.(ep_plan_sequence) >>>
  enc_fixed o.(ep_snapshot_id).

Definition decode_ExpectedPayoutPlanV1 : parser ExpectedPayoutPlanV1 :=
  plan_sequence ← dec_u64;
  snapshot_id ← dec_array 32;
  mret (mkExpectedPayoutPlanV1 plan_sequence snapshot_id).

Definition ok_ExpectedPayoutPlanV1 (limits : DecodeLimits) (o : ExpectedPayoutPlanV1) : Prop :=
  uint 64 o.(ep_plan_sequence) ∧
  arr 32 o.(ep_snapshot_id).

#[export] Instance encode_ExpectedPayoutPlanV1_appends o : Appends (encode_ExpectedPayoutPlanV1 o).
Proof. unfold encode_ExpectedPayoutPlanV1. apply _. Qed.

Lemma reads_ExpectedPayoutPlanV1 limits o :
  ok_ExpectedPayoutPlanV1 limits o → reads limits decode_ExpectedPayoutPlanV1 (encode_ExpectedPayoutPlanV1 o) o.
Proof.
  unfold ok_ExpectedPayoutPlanV1. intros Hok. destruct_and!. unfold decode_ExpectedPayoutPlanV1, encode_ExpectedPayoutPlanV1.
  solve_reads. by destruct o.
Qed.

Lemma accepts_ExpectedPayoutPlanV1 limits :
  accepts limits decode_ExpectedPayoutPlanV1 (λ o bs, ok_ExpectedPayoutPlanV1 limits o ∧ bs = encode_ExpectedPayoutPlanV1 o []).
Proof.
  unfold decode_ExpectedPayoutPlanV1. solve_accepts. split.
  - destruct_and?. repeat (split; [done|]). done.
  - unfold encode_ExpectedPayoutPlanV1. by flatten_writers.
Qed.

#[export] Hint Resolve reads_ExpectedPayoutPlanV1 : codec.
#[export] Hint Extern 1 (accepts _ decode_ExpectedPayoutPlanV1 _) => apply accepts_ExpectedPayoutPlanV1 : codec.

#[global] Typeclasses Opaque encode_ExpectedPayoutPlanV1.

#[export] Instance ExpectedPayoutPlanV1_codec : Codec ExpectedPayoutPlanV1 := {| encode := encode_ExpectedPayoutPlanV1; decode := decode_ExpectedPayoutPlanV1 |}.

#[export] Instance ExpectedPayoutPlanV1_codec_laws : CodecLaws ExpectedPayoutPlanV1 := {|
  codec_ok := ok_ExpectedPayoutPlanV1;
  encode_appends := encode_ExpectedPayoutPlanV1_appends;
  decode_encode := reads_ExpectedPayoutPlanV1;
  decode_sound := accepts_ExpectedPayoutPlanV1;
|}.

Definition encode_CanonicalPlanBindingV1 (o : CanonicalPlanBindingV1) : Writer :=
  enc_u64 o.(cb_plan_sequence) >>>
  enc_fixed o.(cb_payout_plan_id) >>>
  enc_fixed o.(cb_payout_snapshot_id).

Definition decode_CanonicalPlanBindingV1 : parser CanonicalPlanBindingV1 :=
  plan_sequence ← dec_u64;
  payout_plan_id ← dec_array 32;
  payout_snapshot_id ← dec_array 32;
  mret (mkCanonicalPlanBindingV1 plan_sequence payout_plan_id payout_snapshot_id).

Definition ok_CanonicalPlanBindingV1 (limits : DecodeLimits) (o : CanonicalPlanBindingV1) : Prop :=
  uint 64 o.(cb_plan_sequence) ∧
  arr 32 o.(cb_payout_plan_id) ∧
  arr 32 o.(cb_payout_snapshot_id).

#[export] Instance encode_CanonicalPlanBindingV1_appends o : Appends (encode_CanonicalPlanBindingV1 o).
Proof. unfold encode_CanonicalPlanBindingV1. apply _. Qed.

Lemma reads_CanonicalPlanBindingV1 limits o :
  ok_CanonicalPlanBindingV1 limits o → reads limits decode_CanonicalPlanBindingV1 (encode_CanonicalPlanBindingV1 o) o.
Proof.
  unfold ok_CanonicalPlanBindingV1. intros Hok. destruct_and!. unfold decode_CanonicalPlanBindingV1, encode_CanonicalPlanBindingV1.
  solve_reads. by destruct o.
Qed.

Lemma accepts_CanonicalPlanBindingV1 limits :
  accepts limits decode_CanonicalPlanBindingV1 (λ o bs, ok_CanonicalPlanBindingV1 limits o ∧ bs = encode_CanonicalPlanBindingV1 o []).
Proof.
  unfold decode_CanonicalPlanBindingV1. solve_accepts. split.
  - destruct_and?. repeat (split; [done|]). done.
  - unfold encode_CanonicalPlanBindingV1. by flatten_writers.
Qed.

#[export] Hint Resolve reads_CanonicalPlanBindingV1 : codec.
#[export] Hint Extern 1 (accepts _ decode_CanonicalPlanBindingV1 _) => apply accepts_CanonicalPlanBindingV1 : codec.

#[global] Typeclasses Opaque encode_CanonicalPlanBindingV1.

#[export] Instance CanonicalPlanBindingV1_codec : Codec CanonicalPlanBindingV1 := {| encode := encode_CanonicalPlanBindingV1; decode := decode_CanonicalPlanBindingV1 |}.

#[export] Instance CanonicalPlanBindingV1_codec_laws : CodecLaws CanonicalPlanBindingV1 := {|
  codec_ok := ok_CanonicalPlanBindingV1;
  encode_appends := encode_CanonicalPlanBindingV1_appends;
  decode_encode := reads_CanonicalPlanBindingV1;
  decode_sound := accepts_CanonicalPlanBindingV1;
|}.

(** [encode_bucket_credit], [decode_bucket_credit]. *)
Definition encode_BucketCredit (o : BucketCredit) : Writer :=
  encode_PayoutBucketV2 o.(bc_bucket) >>>
  enc_fixed o.(bc_credit).

Definition decode_BucketCredit : parser BucketCredit :=
  bucket ← decode_PayoutBucketV2;
  credit ← dec_array 64;
  mret (mkBucketCredit bucket credit).

Definition ok_BucketCredit (limits : DecodeLimits) (o : BucketCredit) : Prop :=
  ok_PayoutBucketV2 limits o.(bc_bucket) ∧
  arr 64 o.(bc_credit).

#[export] Instance encode_BucketCredit_appends o : Appends (encode_BucketCredit o).
Proof. unfold encode_BucketCredit. apply _. Qed.

Lemma reads_BucketCredit limits o :
  ok_BucketCredit limits o → reads limits decode_BucketCredit (encode_BucketCredit o) o.
Proof.
  unfold ok_BucketCredit. intros Hok. destruct_and!. unfold decode_BucketCredit, encode_BucketCredit.
  solve_reads. by destruct o.
Qed.

Lemma accepts_BucketCredit limits :
  accepts limits decode_BucketCredit (λ o bs, ok_BucketCredit limits o ∧ bs = encode_BucketCredit o []).
Proof.
  unfold decode_BucketCredit. solve_accepts. split.
  - destruct_and?. repeat (split; [done|]). done.
  - unfold encode_BucketCredit. by flatten_writers.
Qed.

#[export] Hint Resolve reads_BucketCredit : codec.
#[export] Hint Extern 1 (accepts _ decode_BucketCredit _) => apply accepts_BucketCredit : codec.

#[global] Typeclasses Opaque encode_BucketCredit.

(** [encode_closed_session], [decode_closed_session]. *)
Definition encode_ClosedSessionCredits (o : ClosedSessionCredits) : Writer :=
  enc_fixed o.(csc_session_close_id) >>>
  enc_u32 o.(csc_close_anchor_height) >>>
  enc_vec encode_BucketCredit o.(csc_work) >>>
  enc_vec encode_BucketCredit o.(csc_service).

Definition decode_ClosedSessionCredits : parser ClosedSessionCredits :=
  session_close_id ← dec_array 32;
  close_anchor_height ← dec_u32;
  work ← dec_vec DEFAULT_MAX_RETAINED_BUCKET_CREDITS decode_BucketCredit;
  service ← dec_vec DEFAULT_MAX_RETAINED_BUCKET_CREDITS decode_BucketCredit;
  mret (mkClosedSessionCredits session_close_id close_anchor_height work service).

Definition ok_ClosedSessionCredits (limits : DecodeLimits) (o : ClosedSessionCredits) : Prop :=
  arr 32 o.(csc_session_close_id) ∧
  uint 32 o.(csc_close_anchor_height) ∧
  ok_vec limits DEFAULT_MAX_RETAINED_BUCKET_CREDITS (ok_BucketCredit limits) o.(csc_work) ∧
  ok_vec limits DEFAULT_MAX_RETAINED_BUCKET_CREDITS (ok_BucketCredit limits) o.(csc_service).

#[export] Instance encode_ClosedSessionCredits_appends o : Appends (encode_ClosedSessionCredits o).
Proof. unfold encode_ClosedSessionCredits. apply _. Qed.

Lemma reads_ClosedSessionCredits limits o :
  ok_ClosedSessionCredits limits o → reads limits decode_ClosedSessionCredits (encode_ClosedSessionCredits o) o.
Proof.
  unfold ok_ClosedSessionCredits. intros Hok. destruct_and!. unfold decode_ClosedSessionCredits, encode_ClosedSessionCredits.
  solve_reads. by destruct o.
Qed.

Lemma accepts_ClosedSessionCredits limits :
  accepts limits decode_ClosedSessionCredits (λ o bs, ok_ClosedSessionCredits limits o ∧ bs = encode_ClosedSessionCredits o []).
Proof.
  unfold decode_ClosedSessionCredits. solve_accepts. split.
  - destruct_and?. repeat (split; [done|]). done.
  - unfold encode_ClosedSessionCredits. by flatten_writers.
Qed.

#[export] Hint Resolve reads_ClosedSessionCredits : codec.
#[export] Hint Extern 1 (accepts _ decode_ClosedSessionCredits _) => apply accepts_ClosedSessionCredits : codec.

#[global] Typeclasses Opaque encode_ClosedSessionCredits.

Definition encode_SnapshotAccumulatorCheckpoint (o : SnapshotAccumulatorCheckpoint) : Writer :=
  enc_u8 o.(ck_network_id) >>>
  enc_u64 o.(ck_next_sequence) >>>
  enc_fixed o.(ck_previous_snapshot_id) >>>
  enc_fixed o.(ck_snapshot_step_work) >>>
  enc_fixed o.(ck_pplns_window_work) >>>
  enc_fixed o.(ck_settlement_committee_id) >>>
  enc_vec encode_ClosedSessionCredits o.(ck_closed_sessions) >>>
  enc_fixed o.(ck_new_work_since_snapshot).

Definition decode_SnapshotAccumulatorCheckpoint : parser SnapshotAccumulatorCheckpoint :=
  network_id ← dec_u8;
  next_sequence ← dec_u64;
  previous_snapshot_id ← dec_array 32;
  snapshot_step_work ← dec_array 64;
  pplns_window_work ← dec_array 64;
  settlement_committee_id ← dec_array 32;
  closed_sessions ← dec_vec DEFAULT_MAX_RETAINED_SESSIONS decode_ClosedSessionCredits;
  new_work_since_snapshot ← dec_array 64;
  mret (mkSnapshotAccumulatorCheckpoint network_id next_sequence previous_snapshot_id snapshot_step_work pplns_window_work settlement_committee_id closed_sessions new_work_since_snapshot).

Definition ok_SnapshotAccumulatorCheckpoint (limits : DecodeLimits) (o : SnapshotAccumulatorCheckpoint) : Prop :=
  uint 8 o.(ck_network_id) ∧
  uint 64 o.(ck_next_sequence) ∧
  arr 32 o.(ck_previous_snapshot_id) ∧
  arr 64 o.(ck_snapshot_step_work) ∧
  arr 64 o.(ck_pplns_window_work) ∧
  arr 32 o.(ck_settlement_committee_id) ∧
  ok_vec limits DEFAULT_MAX_RETAINED_SESSIONS (ok_ClosedSessionCredits limits) o.(ck_closed_sessions) ∧
  arr 64 o.(ck_new_work_since_snapshot).

#[export] Instance encode_SnapshotAccumulatorCheckpoint_appends o : Appends (encode_SnapshotAccumulatorCheckpoint o).
Proof. unfold encode_SnapshotAccumulatorCheckpoint. apply _. Qed.

Lemma reads_SnapshotAccumulatorCheckpoint limits o :
  ok_SnapshotAccumulatorCheckpoint limits o → reads limits decode_SnapshotAccumulatorCheckpoint (encode_SnapshotAccumulatorCheckpoint o) o.
Proof.
  unfold ok_SnapshotAccumulatorCheckpoint. intros Hok. destruct_and!. unfold decode_SnapshotAccumulatorCheckpoint, encode_SnapshotAccumulatorCheckpoint.
  solve_reads. by destruct o.
Qed.

Lemma accepts_SnapshotAccumulatorCheckpoint limits :
  accepts limits decode_SnapshotAccumulatorCheckpoint (λ o bs, ok_SnapshotAccumulatorCheckpoint limits o ∧ bs = encode_SnapshotAccumulatorCheckpoint o []).
Proof.
  unfold decode_SnapshotAccumulatorCheckpoint. solve_accepts. split.
  - destruct_and?. repeat (split; [done|]). done.
  - unfold encode_SnapshotAccumulatorCheckpoint. by flatten_writers.
Qed.

#[export] Hint Resolve reads_SnapshotAccumulatorCheckpoint : codec.
#[export] Hint Extern 1 (accepts _ decode_SnapshotAccumulatorCheckpoint _) => apply accepts_SnapshotAccumulatorCheckpoint : codec.

#[global] Typeclasses Opaque encode_SnapshotAccumulatorCheckpoint.

#[export] Instance SnapshotAccumulatorCheckpoint_codec : Codec SnapshotAccumulatorCheckpoint := {| encode := encode_SnapshotAccumulatorCheckpoint; decode := decode_SnapshotAccumulatorCheckpoint |}.

#[export] Instance SnapshotAccumulatorCheckpoint_codec_laws : CodecLaws SnapshotAccumulatorCheckpoint := {|
  codec_ok := ok_SnapshotAccumulatorCheckpoint;
  encode_appends := encode_SnapshotAccumulatorCheckpoint_appends;
  decode_encode := reads_SnapshotAccumulatorCheckpoint;
  decode_sound := accepts_SnapshotAccumulatorCheckpoint;
|}.

Definition encode_unsigned_PayoutRecoveryCheckpointV1 (o : PayoutRecoveryCheckpointV1) : Writer :=
  enc_u16 o.(rc_core_protocol_version) >>>
  enc_u16 o.(rc_checkpoint_version) >>>
  enc_u8 o.(rc_network_id) >>>
  enc_u64 o.(rc_checkpoint_sequence) >>>
  enc_fixed o.(rc_previous_checkpoint_id) >>>
  enc_fixed o.(rc_payout_policy_fingerprint) >>>
  encode_PayoutRecoverySourceFenceV1 o.(rc_source_fence) >>>
  encode_SnapshotAccumulatorCheckpoint o.(rc_accumulator) >>>
  enc_vec encode_ExpectedPayoutPlanV1 o.(rc_expected_plans) >>>
  enc_vec encode_CanonicalPlanBindingV1 o.(rc_canonical_plan_bindings).

#[export] Instance PayoutRecoveryCheckpointV1_unsigned : UnsignedObject PayoutRecoveryCheckpointV1 := {|
  DOMAIN_TAG := str "meshmine/payout-recovery-checkpoint/v1";
  encode_unsigned := encode_unsigned_PayoutRecoveryCheckpointV1;
|}.

Definition encode_PayoutRecoveryCheckpointV1 (o : PayoutRecoveryCheckpointV1) : Writer :=
  encode_unsigned_PayoutRecoveryCheckpointV1 o >>> encode_SignatureSet o.(rc_signer_set).

Definition decode_PayoutRecoveryCheckpointV1 : parser PayoutRecoveryCheckpointV1 :=
  core_protocol_version ← dec_u16;
  checkpoint_version ← dec_u16;
  network_id ← dec_u8;
  checkpoint_sequence ← dec_u64;
  previous_checkpoint_id ← dec_array 32;
  payout_policy_fingerprint ← dec_array 32;
  source_fence ← decode_PayoutRecoverySourceFenceV1;
  accumulator ← decode_SnapshotAccumulatorCheckpoint;
  expected_plans ← dec_vec MAX_EXPECTED_PAYOUT_PLANS decode_ExpectedPayoutPlanV1;
  canonical_plan_bindings ← dec_vec MAX_CANONICAL_PLAN_BINDINGS decode_CanonicalPlanBindingV1;
  signer_set ← decode_SignatureSet;
  mret (mkPayoutRecoveryCheckpointV1 core_protocol_version checkpoint_version network_id checkpoint_sequence previous_checkpoint_id payout_policy_fingerprint source_fence accumulator expected_plans canonical_plan_bindings signer_set).

Definition ok_PayoutRecoveryCheckpointV1 (limits : DecodeLimits) (o : PayoutRecoveryCheckpointV1) : Prop :=
  uint 16 o.(rc_core_protocol_version) ∧
  uint 16 o.(rc_checkpoint_version) ∧
  uint 8 o.(rc_network_id) ∧
  uint 64 o.(rc_checkpoint_sequence) ∧
  arr 32 o.(rc_previous_checkpoint_id) ∧
  arr 32 o.(rc_payout_policy_fingerprint) ∧
  ok_PayoutRecoverySourceFenceV1 limits o.(rc_source_fence) ∧
  ok_SnapshotAccumulatorCheckpoint limits o.(rc_accumulator) ∧
  ok_vec limits MAX_EXPECTED_PAYOUT_PLANS (ok_ExpectedPayoutPlanV1 limits) o.(rc_expected_plans) ∧
  ok_vec limits MAX_CANONICAL_PLAN_BINDINGS (ok_CanonicalPlanBindingV1 limits) o.(rc_canonical_plan_bindings) ∧
  ok_SignatureSet limits o.(rc_signer_set).

#[export] Instance encode_PayoutRecoveryCheckpointV1_appends o : Appends (encode_PayoutRecoveryCheckpointV1 o).
Proof. unfold encode_PayoutRecoveryCheckpointV1, encode_unsigned_PayoutRecoveryCheckpointV1. apply _. Qed.

Lemma reads_PayoutRecoveryCheckpointV1 limits o :
  ok_PayoutRecoveryCheckpointV1 limits o → reads limits decode_PayoutRecoveryCheckpointV1 (encode_PayoutRecoveryCheckpointV1 o) o.
Proof.
  unfold ok_PayoutRecoveryCheckpointV1. intros Hok. destruct_and!. unfold decode_PayoutRecoveryCheckpointV1, encode_PayoutRecoveryCheckpointV1, encode_unsigned_PayoutRecoveryCheckpointV1.
  solve_reads. by destruct o.
Qed.

Lemma accepts_PayoutRecoveryCheckpointV1 limits :
  accepts limits decode_PayoutRecoveryCheckpointV1 (λ o bs, ok_PayoutRecoveryCheckpointV1 limits o ∧ bs = encode_PayoutRecoveryCheckpointV1 o []).
Proof.
  unfold decode_PayoutRecoveryCheckpointV1. solve_accepts. split.
  - destruct_and?. repeat (split; [done|]). done.
  - unfold encode_PayoutRecoveryCheckpointV1, encode_unsigned_PayoutRecoveryCheckpointV1. by flatten_writers.
Qed.

#[export] Hint Resolve reads_PayoutRecoveryCheckpointV1 : codec.
#[export] Hint Extern 1 (accepts _ decode_PayoutRecoveryCheckpointV1 _) => apply accepts_PayoutRecoveryCheckpointV1 : codec.

#[global] Typeclasses Opaque encode_PayoutRecoveryCheckpointV1.

#[export] Instance PayoutRecoveryCheckpointV1_codec : Codec PayoutRecoveryCheckpointV1 := {| encode := encode_PayoutRecoveryCheckpointV1; decode := decode_PayoutRecoveryCheckpointV1 |}.

#[export] Instance PayoutRecoveryCheckpointV1_codec_laws : CodecLaws PayoutRecoveryCheckpointV1 := {|
  codec_ok := ok_PayoutRecoveryCheckpointV1;
  encode_appends := encode_PayoutRecoveryCheckpointV1_appends;
  decode_encode := reads_PayoutRecoveryCheckpointV1;
  decode_sound := accepts_PayoutRecoveryCheckpointV1;
|}.

Definition encode_PayoutRecoveryHeadV1 (o : PayoutRecoveryHeadV1) : Writer :=
  enc_u8 o.(hd_network_id) >>>
  enc_u64 o.(hd_checkpoint_sequence) >>>
  enc_fixed o.(hd_checkpoint_id) >>>
  enc_fixed o.(hd_checkpoint_wrapper_id).

Definition decode_PayoutRecoveryHeadV1 : parser PayoutRecoveryHeadV1 :=
  network_id ← dec_u8;
  checkpoint_sequence ← dec_u64;
  checkpoint_id ← dec_array 32;
  checkpoint_wrapper_id ← dec_array 32;
  mret (mkPayoutRecoveryHeadV1 network_id checkpoint_sequence checkpoint_id checkpoint_wrapper_id).

Definition ok_PayoutRecoveryHeadV1 (limits : DecodeLimits) (o : PayoutRecoveryHeadV1) : Prop :=
  uint 8 o.(hd_network_id) ∧
  uint 64 o.(hd_checkpoint_sequence) ∧
  arr 32 o.(hd_checkpoint_id) ∧
  arr 32 o.(hd_checkpoint_wrapper_id).

#[export] Instance encode_PayoutRecoveryHeadV1_appends o : Appends (encode_PayoutRecoveryHeadV1 o).
Proof. unfold encode_PayoutRecoveryHeadV1. apply _. Qed.

Lemma reads_PayoutRecoveryHeadV1 limits o :
  ok_PayoutRecoveryHeadV1 limits o → reads limits decode_PayoutRecoveryHeadV1 (encode_PayoutRecoveryHeadV1 o) o.
Proof.
  unfold ok_PayoutRecoveryHeadV1. intros Hok. destruct_and!. unfold decode_PayoutRecoveryHeadV1, encode_PayoutRecoveryHeadV1.
  solve_reads. by destruct o.
Qed.

Lemma accepts_PayoutRecoveryHeadV1 limits :
  accepts limits decode_PayoutRecoveryHeadV1 (λ o bs, ok_PayoutRecoveryHeadV1 limits o ∧ bs = encode_PayoutRecoveryHeadV1 o []).
Proof.
  unfold decode_PayoutRecoveryHeadV1. solve_accepts. split.
  - destruct_and?. repeat (split; [done|]). done.
  - unfold encode_PayoutRecoveryHeadV1. by flatten_writers.
Qed.

#[export] Hint Resolve reads_PayoutRecoveryHeadV1 : codec.
#[export] Hint Extern 1 (accepts _ decode_PayoutRecoveryHeadV1 _) => apply accepts_PayoutRecoveryHeadV1 : codec.

#[global] Typeclasses Opaque encode_PayoutRecoveryHeadV1.

(** ** The durable rows *)

Inductive PayoutRecoveryError :=
| RE_InvalidCheckpoint
| RE_Sequence
| RE_InvalidHead
| RE_MissingCheckpoint
| RE_NonCanonicalCheckpoint
| RE_CheckpointTooLarge
| RE_InvalidCommitteePolicy
| RE_InvalidCertificate
| RE_InvalidSourceFence
| RE_SourceFenceMismatch
| RE_SourceFenceRegression
| RE_PolicyChange
| RE_ConcurrentUpdate
| RE_Durable (error : DurableInvariantError).

(** The row of the source fence: magic, version, network and fence. All failures
    to decode a row are one error, so the checks may follow the reads. *)
Record SourceFenceRow := mkSourceFenceRow {
  fr_network_id : Z;
  fr_fence : PayoutRecoverySourceFenceV1;
}.
Definition write_source_fence (row : SourceFenceRow) : Writer :=
  enc_fixed PAYOUT_RECOVERY_SOURCE_FENCE_MAGIC >>>
  enc_u16 PAYOUT_RECOVERY_CHECKPOINT_V1 >>>
  enc_u8 row.(fr_network_id) >>>
  encode_PayoutRecoverySourceFenceV1 row.(fr_fence).
Definition check_row (magic expected : bytes) (version : Z) : result CodecError unit :=
  if bool_decide (magic = expected) && (version =? PAYOUT_RECOVERY_CHECKPOINT_V1) then Ok tt
  else Err (InvalidField "magic or version").
Definition parse_source_fence : parser SourceFenceRow :=
  magic ← dec_array 4;
  version ← dec_u16;
  network_id ← dec_u8;
  fence ← decode_PayoutRecoverySourceFenceV1;
  _ ← plift (check_row magic PAYOUT_RECOVERY_SOURCE_FENCE_MAGIC version);
  mret (mkSourceFenceRow network_id fence).
#[export] Instance SourceFenceRow_codec : Codec SourceFenceRow := {| encode := write_source_fence; decode := parse_source_fence |}.

Definition write_head (head : PayoutRecoveryHeadV1) : Writer :=
  enc_fixed PAYOUT_RECOVERY_HEAD_MAGIC >>>
  enc_u16 PAYOUT_RECOVERY_CHECKPOINT_V1 >>>
  encode_PayoutRecoveryHeadV1 head.
Definition parse_head : parser PayoutRecoveryHeadV1 :=
  magic ← dec_array 4;
  version ← dec_u16;
  head ← decode_PayoutRecoveryHeadV1;
  _ ← plift (check_row magic PAYOUT_RECOVERY_HEAD_MAGIC version);
  mret head.
#[export] Instance PayoutRecoveryHeadV1_codec : Codec PayoutRecoveryHeadV1 := {| encode := write_head; decode := parse_head |}.

Lemma check_row_ok magic expected version :
  check_row magic expected version = Ok tt ↔ magic = expected ∧ version = PAYOUT_RECOVERY_CHECKPOINT_V1.
Proof. unfold check_row. case_bool_decide; destruct (Z.eqb_spec version PAYOUT_RECOVERY_CHECKPOINT_V1); cbn; naive_solver. Qed.

Definition ok_SourceFenceRow (limits : DecodeLimits) (row : SourceFenceRow) : Prop :=
  uint 8 row.(fr_network_id) ∧ ok_PayoutRecoverySourceFenceV1 limits row.(fr_fence).
#[export] Instance write_source_fence_appends row : Appends (write_source_fence row).
Proof. unfold write_source_fence. apply _. Qed.
Lemma reads_source_fence limits row : ok_SourceFenceRow limits row → reads limits parse_source_fence (write_source_fence row) row.
Proof.
  intros [? ?]. assert (arr 4 PAYOUT_RECOVERY_SOURCE_FENCE_MAGIC) by done. assert (uint 16 PAYOUT_RECOVERY_CHECKPOINT_V1) by done.
  unfold parse_source_fence, write_source_fence. solve_reads; [by apply check_row_ok|]. by destruct row.
Qed.
Lemma accepts_source_fence limits :
  accepts limits parse_source_fence (λ row bs, ok_SourceFenceRow limits row ∧ bs = write_source_fence row []).
Proof.
  unfold parse_source_fence. solve_accepts. repeat match goal with u : () |- _ => destruct u end. apply check_row_ok in Hvalid as [-> ->]. split; [by split|].
  unfold write_source_fence. by flatten_writers.
Qed.
#[export] Instance SourceFenceRow_codec_laws : CodecLaws SourceFenceRow := {|
  codec_ok := ok_SourceFenceRow; encode_appends := write_source_fence_appends;
  decode_encode := reads_source_fence; decode_sound := accepts_source_fence |}.

#[export] Instance write_head_appends head : Appends (write_head head).
Proof. unfold write_head. apply _. Qed.
Lemma reads_head limits head : ok_PayoutRecoveryHeadV1 limits head → reads limits parse_head (write_head head) head.
Proof.
  intros ?. assert (arr 4 PAYOUT_RECOVERY_HEAD_MAGIC) by done. assert (uint 16 PAYOUT_RECOVERY_CHECKPOINT_V1) by done.
  unfold parse_head, write_head. solve_reads; [by apply check_row_ok|]. done.
Qed.
Lemma accepts_head limits : accepts limits parse_head (λ head bs, ok_PayoutRecoveryHeadV1 limits head ∧ bs = write_head head []).
Proof.
  unfold parse_head. solve_accepts. repeat match goal with u : () |- _ => destruct u end. apply check_row_ok in Hvalid as [-> ->]. split; [done|].
  unfold write_head. by flatten_writers.
Qed.
#[export] Instance PayoutRecoveryHeadV1_codec_laws : CodecLaws PayoutRecoveryHeadV1 := {|
  codec_ok := ok_PayoutRecoveryHeadV1; encode_appends := write_head_appends;
  decode_encode := reads_head; decode_sound := accepts_head |}.

(** ** The source fence *)

Definition ZERO_HASH : Hash256 := replicate 32 x00.

Definition zero_count_has_nonzero_head (count : Z) (head : Hash256) : bool :=
  ((count =? 0) && bool_decide (head ≠ ZERO_HASH)) || (negb (count =? 0) && bool_decide (head = ZERO_HASH)).
Definition validate_coherence (f : PayoutRecoverySourceFenceV1) : result PayoutRecoveryError unit :=
  if zero_count_has_nonzero_head f.(sf_disposition_count) f.(sf_disposition_commitment) ||
     zero_count_has_nonzero_head f.(sf_snapshot_count) f.(sf_snapshot_head_id) ||
     zero_count_has_nonzero_head f.(sf_plan_count) f.(sf_plan_head_id) ||
     zero_count_has_nonzero_head f.(sf_canonical_event_count) f.(sf_canonical_event_commitment) ||
     (f.(sf_snapshot_count) <? f.(sf_plan_count)) || (f.(sf_disposition_count) <? f.(sf_snapshot_count))
  then Err RE_InvalidCheckpoint else Ok tt.

Definition component_is_monotonic (previous_count : Z) (previous_head : Hash256) (next_count : Z) (next_head : Hash256) : bool :=
  ((previous_count <? next_count) && bool_decide (next_head ≠ previous_head)) ||
  ((next_count =? previous_count) && bool_decide (next_head = previous_head)).
Definition validate_monotonic_after (f previous : PayoutRecoverySourceFenceV1) : result PayoutRecoveryError unit :=
  if negb (component_is_monotonic previous.(sf_disposition_count) previous.(sf_disposition_commitment)
             f.(sf_disposition_count) f.(sf_disposition_commitment)) ||
     negb (component_is_monotonic previous.(sf_snapshot_count) previous.(sf_snapshot_head_id)
             f.(sf_snapshot_count) f.(sf_snapshot_head_id)) ||
     negb (component_is_monotonic previous.(sf_plan_count) previous.(sf_plan_head_id) f.(sf_plan_count) f.(sf_plan_head_id)) ||
     negb (component_is_monotonic previous.(sf_canonical_event_count) previous.(sf_canonical_event_commitment)
             f.(sf_canonical_event_count) f.(sf_canonical_event_commitment))
  then Err RE_SourceFenceRegression else Ok tt.

Definition encode_source_fence (network_id : Z) (fence : PayoutRecoverySourceFenceV1) : bytes :=
  to_canonical_bytes (mkSourceFenceRow network_id fence).
Definition decode_source_fence (network_id : Z) (bs : bytes) : result PayoutRecoveryError PayoutRecoverySourceFenceV1 :=
  row ← map_err (λ _, RE_InvalidSourceFence) (from_canonical_bytes bs (mkDecodeLimits 192 0));
  if negb (row.(fr_network_id) =? network_id) then Err RE_InvalidSourceFence
  else
    _ ← map_err (λ _, RE_InvalidSourceFence) (validate_coherence row.(fr_fence));
    Ok row.(fr_fence).

Definition payout_recovery_source_fence_transition (network_id : Z) (previous : option PayoutRecoverySourceFenceV1)
    (next : PayoutRecoverySourceFenceV1) : result PayoutRecoveryError (BatchCondition * BatchOperation) :=
  _ ← validate_coherence next;
  _ ← match previous with
      | Some previous => _ ← validate_coherence previous; validate_monotonic_after next previous
      | None => Ok tt
      end;
  let key := format_u64 network_id in
  Ok (mkBatchCondition PAYOUT_RECOVERY_SOURCE_FENCE_NAMESPACE key (encode_source_fence network_id <$> previous),
      BatchPut PAYOUT_RECOVERY_SOURCE_FENCE_NAMESPACE key (encode_source_fence network_id next)).

(** ** The head *)

Definition encode_head (head : PayoutRecoveryHeadV1) : bytes := to_canonical_bytes head.
Definition decode_head (network_id : Z) (bs : bytes) : result PayoutRecoveryError PayoutRecoveryHeadV1 :=
  head ← map_err (λ _, RE_InvalidHead) (from_canonical_bytes bs (mkDecodeLimits 96 0));
  if negb (head.(hd_network_id) =? network_id) || (head.(hd_checkpoint_sequence) =? 0) ||
     bool_decide (head.(hd_checkpoint_id) = ZERO_HASH) || bool_decide (head.(hd_checkpoint_wrapper_id) = ZERO_HASH)
  then Err RE_InvalidHead else Ok head.

(** ** Checkpoints *)

Definition CHECKPOINT_LIMITS : DecodeLimits := mkDecodeLimits MAX_PAYOUT_CHECKPOINT_BYTES DEFAULT_MAX_RETAINED_BUCKET_CREDITS.

Section Checkpoints.
(** [size_of::<BucketCredit>()] *)
Context (bucket_credit_size : Z).
Context `{Digests} `{Ed25519}.

Definition expected_sequences_are_contiguous (start : Z) (plans : list ExpectedPayoutPlanV1) : bool :=
  forallb (λ '(offset, entry), bool_decide (checked_add 64 start (Z.of_nat offset) = Some entry.(ep_plan_sequence)))
    (imap pair plans).
Definition all_distinct {A} `{Countable A} (l : list A) : bool := bool_decide (size (list_to_set l : gset A) = length l).

Definition validate_structure (c : PayoutRecoveryCheckpointV1) : result PayoutRecoveryError unit :=
  let fence := c.(rc_source_fence) in let acc := c.(rc_accumulator) in
  let plans := c.(rc_expected_plans) in let bindings := c.(rc_canonical_plan_bindings) in
  _ ← validate_coherence fence;
  expected_queue_length ← ok_or (checked_sub fence.(sf_snapshot_count) fence.(sf_plan_count)) RE_InvalidCheckpoint;
  expected_next_snapshot ← ok_or (checked_add 64 fence.(sf_snapshot_count) 1) RE_InvalidCheckpoint;
  expected_plan_start ← ok_or (checked_add 64 fence.(sf_plan_count) 1) RE_InvalidCheckpoint;
  restored_accumulator ← map_err (λ _, RE_InvalidCheckpoint) (from_checkpoint bucket_credit_size acc SnapshotAccumulatorLimits_default);
  canonical_accumulator ← map_err (λ _, RE_InvalidCheckpoint) (checkpoint restored_accumulator);
  if negb (c.(rc_core_protocol_version) =? CORE_V2) ||
     negb (c.(rc_checkpoint_version) =? PAYOUT_RECOVERY_CHECKPOINT_V1) ||
     (c.(rc_checkpoint_sequence) =? 0) ||
     bool_decide (c.(rc_payout_policy_fingerprint) = ZERO_HASH) ||
     negb (acc.(ck_network_id) =? c.(rc_network_id)) ||
     negb (acc.(ck_next_sequence) =? expected_next_snapshot) ||
     bool_decide (acc.(ck_previous_snapshot_id) ≠ fence.(sf_snapshot_head_id)) ||
     bool_decide (acc.(ck_snapshot_step_work) = replicate 64 x00) ||
     bool_decide (acc.(ck_pplns_window_work) = replicate 64 x00) ||
     (DEFAULT_MAX_RETAINED_SESSIONS <? len acc.(ck_closed_sessions)) ||
     (MAX_EXPECTED_PAYOUT_PLANS <? len plans) ||
     negb (len plans =? expected_queue_length) ||
     (MAX_CANONICAL_PLAN_BINDINGS <? len bindings) ||
     bool_decide (canonical_accumulator ≠ acc) ||
     negb (expected_sequences_are_contiguous expected_plan_start plans) ||
     windows2_any (λ a b, b.(ep_plan_sequence) <=? a.(ep_plan_sequence)) plans ||
     existsb (λ e, (e.(ep_plan_sequence) =? 0) || bool_decide (e.(ep_snapshot_id) = ZERO_HASH)) plans ||
     windows2_any (λ a b, b.(cb_plan_sequence) <=? a.(cb_plan_sequence)) bindings ||
     existsb (λ e, (e.(cb_plan_sequence) =? 0) || (fence.(sf_plan_count) <? e.(cb_plan_sequence)) ||
       bool_decide (e.(cb_payout_plan_id) = ZERO_HASH) || bool_decide (e.(cb_payout_snapshot_id) = ZERO_HASH)) bindings ||
     negb (all_distinct (cb_plan_sequence <$> bindings)) ||
     negb (all_distinct (cb_payout_plan_id <$> bindings)) ||
     negb (all_distinct (cb_payout_snapshot_id <$> bindings)) ||
     negb (all_distinct (ep_snapshot_id <$> plans)) ||
     existsb (λ id, bool_decide (id ∈ ep_snapshot_id <$> plans)) (cb_payout_snapshot_id <$> bindings) ||
     ((fence.(sf_plan_count) =? 0) && negb (bool_decide (bindings = []))) ||
     (negb (fence.(sf_plan_count) =? 0) &&
      match last bindings with
      | Some b => negb (b.(cb_plan_sequence) =? fence.(sf_plan_count)) || bool_decide (b.(cb_payout_plan_id) ≠ fence.(sf_plan_head_id))
      | None => true
      end) ||
     (negb (fence.(sf_snapshot_count) =? fence.(sf_plan_count)) &&
      match last plans with Some e => bool_decide (e.(ep_snapshot_id) ≠ fence.(sf_snapshot_head_id)) | None => true end) ||
     ((fence.(sf_snapshot_count) =? fence.(sf_plan_count)) && negb (bool_decide (plans = []))) ||
     negb (is_ok (validate_order c.(rc_signer_set)))
  then Err RE_InvalidCheckpoint else Ok tt.

Definition canonical_payload (c : PayoutRecoveryCheckpointV1) : result PayoutRecoveryError bytes :=
  _ ← validate_structure c;
  let payload := to_canonical_bytes c in
  if MAX_PAYOUT_CHECKPOINT_BYTES <? len payload then Err RE_CheckpointTooLarge
  else
    decoded ← map_err (λ _, RE_NonCanonicalCheckpoint) (from_canonical_bytes payload CHECKPOINT_LIMITS);
    if bool_decide (decoded ≠ c) || bool_decide (to_canonical_bytes decoded ≠ payload) then Err RE_NonCanonicalCheckpoint
    else Ok payload.

Definition validate_committee_policy (p : PayoutRecoveryCommitteePolicyV1) : result PayoutRecoveryError unit :=
  if bool_decide (p.(rp_settlement_committee_id) = ZERO_HASH) || bool_decide (p.(rp_payout_policy_fingerprint) = ZERO_HASH) ||
     bool_decide (p.(rp_members) = ∅) || (MAX_PAYOUT_RECOVERY_COMMITTEE_MEMBERS <? Z.of_nat (size p.(rp_members))) ||
     (p.(rp_threshold) =? 0) || (Z.of_nat (size p.(rp_members)) <? p.(rp_threshold))
  then Err RE_InvalidCommitteePolicy else Ok tt.
Definition verify_checkpoint (p : PayoutRecoveryCommitteePolicyV1) (c : PayoutRecoveryCheckpointV1) : result PayoutRecoveryError unit :=
  _ ← validate_committee_policy p;
  if negb (c.(rc_network_id) =? p.(rp_network_id)) ||
     bool_decide (c.(rc_accumulator).(ck_settlement_committee_id) ≠ p.(rp_settlement_committee_id)) ||
     bool_decide (c.(rc_payout_policy_fingerprint) ≠ p.(rp_payout_policy_fingerprint)) ||
     negb (c.(rc_signer_set).(signature_suite) =? ED25519_SUITE) ||
     (len c.(rc_signer_set).(signatures) <? p.(rp_threshold)) ||
     existsb (λ s, negb (bool_decide (s.(signer_pubkey) ∈ p.(rp_members)))) c.(rc_signer_set).(signatures) ||
     negb (is_ok (verify_certificate c.(rc_signer_set) c.(rc_network_id) c))
  then Err RE_InvalidCertificate else Ok tt.

Definition validate_checkpoint_transition (previous next : PayoutRecoveryCheckpointV1) : result PayoutRecoveryError unit :=
  if bool_decide (next.(rc_payout_policy_fingerprint) ≠ previous.(rc_payout_policy_fingerprint)) ||
     bool_decide (next.(rc_accumulator).(ck_snapshot_step_work) ≠ previous.(rc_accumulator).(ck_snapshot_step_work)) ||
     bool_decide (next.(rc_accumulator).(ck_pplns_window_work) ≠ previous.(rc_accumulator).(ck_pplns_window_work)) ||
     bool_decide (next.(rc_accumulator).(ck_settlement_committee_id) ≠ previous.(rc_accumulator).(ck_settlement_committee_id))
  then Err RE_PolicyChange
  else
    _ ← validate_monotonic_after next.(rc_source_fence) previous.(rc_source_fence);
    if bool_decide (next.(rc_source_fence) = previous.(rc_source_fence)) &&
       (bool_decide (next.(rc_accumulator) ≠ previous.(rc_accumulator)) ||
        bool_decide (next.(rc_expected_plans) ≠ previous.(rc_expected_plans)) ||
        bool_decide (next.(rc_canonical_plan_bindings) ≠ previous.(rc_canonical_plan_bindings)))
    then Err RE_SourceFenceRegression else Ok tt.

(** ** Installing and loading *)

Context `{!Hex} {S : Type} `{!DurableStore S} (env : nat → S → S).
Abbreviation recovery := (eclient (S := S) (E := PayoutRecoveryError)).
(** [.map_err(DurableInvariantError::from)?] of a store call, and a journal call. *)
Abbreviation scall m := (ecall env (λ e, RE_Durable (DIE_Storage e)) m).
Abbreviation jcall m := (emap_err RE_Durable m).
Abbreviation lift r := (elift (S := S) (E := PayoutRecoveryError) r).

(** The checks on a payload read from the journal. *)
Definition accept_payload (p : PayoutRecoveryCommitteePolicyV1) (head : PayoutRecoveryHeadV1) (payload : bytes) :
    result PayoutRecoveryError PayoutRecoveryCheckpointV1 :=
  c ← map_err (λ _, RE_NonCanonicalCheckpoint) (from_canonical_bytes payload CHECKPOINT_LIMITS);
  _ ← validate_structure c;
  if negb (c.(rc_network_id) =? head.(hd_network_id)) ||
     negb (c.(rc_checkpoint_sequence) =? head.(hd_checkpoint_sequence)) ||
     bool_decide (object_id c ≠ head.(hd_checkpoint_id)) ||
     bool_decide (domain_hash PAYOUT_RECOVERY_WRAPPER_DOMAIN payload ≠ head.(hd_checkpoint_wrapper_id)) ||
     bool_decide (to_canonical_bytes c ≠ payload)
  then Err RE_NonCanonicalCheckpoint
  else
    _ ← verify_checkpoint p c;
    Ok c.
Definition load_checkpoint_at_head (p : PayoutRecoveryCommitteePolicyV1) (head : PayoutRecoveryHeadV1) :
    recovery PayoutRecoveryCheckpointV1 :=
  payload ← jcall (load env KindPayoutRecoveryCheckpoint head.(hd_checkpoint_wrapper_id));
  payload ← lift (ok_or payload RE_MissingCheckpoint);
  lift (accept_payload p head payload).

Definition source_fence_matches (network_id : Z) (expected : PayoutRecoverySourceFenceV1) : recovery bool :=
  bs ← scall (get PAYOUT_RECOVERY_SOURCE_FENCE_NAMESPACE (format_u64 network_id));
  match bs with
  | None => mret false
  | Some bs =>
      observed ← lift (decode_source_fence network_id bs);
      mret (bool_decide (observed = expected) && bool_decide (bs = encode_source_fence network_id expected))
  end.

Definition head_of (c : PayoutRecoveryCheckpointV1) : PayoutRecoveryHeadV1 :=
  mkPayoutRecoveryHeadV1 c.(rc_network_id) c.(rc_checkpoint_sequence) (object_id c)
    (domain_hash PAYOUT_RECOVERY_WRAPPER_DOMAIN (to_canonical_bytes c)).

(** The current head already names the checkpoint. *)
Definition confirm_current (p : PayoutRecoveryCommitteePolicyV1) (c : PayoutRecoveryCheckpointV1) (current : PayoutRecoveryHeadV1)
    (head_bytes : bytes) : recovery PayoutRecoveryPersistOutcome :=
  if negb (current.(hd_checkpoint_sequence) =? c.(rc_checkpoint_sequence)) then lift (Err RE_Sequence)
  else
    _ ← load_checkpoint_at_head p current;
    let key := format_u64 c.(rc_network_id) in
    applied ← scall (apply_batch_if_all
      [mkBatchCondition PAYOUT_RECOVERY_HEAD_NAMESPACE key (Some head_bytes);
       mkBatchCondition PAYOUT_RECOVERY_SOURCE_FENCE_NAMESPACE key (Some (encode_source_fence c.(rc_network_id) c.(rc_source_fence)))]
      []);
    if applied : bool then mret AlreadyCurrent else lift (Err RE_ConcurrentUpdate).
(** The checkpoint follows the current head. *)
Definition check_successor (p : PayoutRecoveryCommitteePolicyV1) (c : PayoutRecoveryCheckpointV1) (current : PayoutRecoveryHeadV1) :
    recovery unit :=
  next ← lift (ok_or (checked_add 64 current.(hd_checkpoint_sequence) 1) RE_Sequence);
  if negb (c.(rc_checkpoint_sequence) =? next) || bool_decide (c.(rc_previous_checkpoint_id) ≠ current.(hd_checkpoint_id))
  then lift (Err RE_Sequence)
  else
    previous ← load_checkpoint_at_head p current;
    lift (validate_checkpoint_transition previous c).

(** The transaction that installs a checkpoint over the head row [existing]. *)
Definition install (c : PayoutRecoveryCheckpointV1) (payload : bytes) (existing : option bytes) :
    recovery PayoutRecoveryPersistOutcome :=
  let key := format_u64 c.(rc_network_id) in
  let checkpoint_wrapper_id := domain_hash PAYOUT_RECOVERY_WRAPPER_DOMAIN payload in
  let head := mkPayoutRecoveryHeadV1 c.(rc_network_id) c.(rc_checkpoint_sequence) (object_id c) checkpoint_wrapper_id in
  outcome ← jcall (persist_records_with_conditions_and_batch env
    [mkJournalBatchRecord KindPayoutRecoveryCheckpoint checkpoint_wrapper_id payload]
    [mkBatchCondition PAYOUT_RECOVERY_HEAD_NAMESPACE key existing;
     mkBatchCondition PAYOUT_RECOVERY_SOURCE_FENCE_NAMESPACE key (Some (encode_source_fence c.(rc_network_id) c.(rc_source_fence)))]
    [BatchPut PAYOUT_RECOVERY_HEAD_NAMESPACE key (encode_head head)]);
  match outcome with
  | Committed => mret RecoveryCommitted
  | ExactRecord =>
      matches ← source_fence_matches c.(rc_network_id) c.(rc_source_fence);
      if negb matches then lift (Err RE_ConcurrentUpdate)
      else
        bs ← scall (get PAYOUT_RECOVERY_HEAD_NAMESPACE key);
        match bs with
        | Some bs =>
            match decode_head c.(rc_network_id) bs with
            | Ok h => if bool_decide (h = head) then mret AlreadyCurrent else lift (Err RE_ConcurrentUpdate)
            | Err _ => lift (Err RE_ConcurrentUpdate)
            end
        | None => lift (Err RE_ConcurrentUpdate)
        end
  | PreconditionMismatch => lift (Err RE_ConcurrentUpdate)
  end.

Definition persist_payout_recovery_checkpoint (c : PayoutRecoveryCheckpointV1) (p : PayoutRecoveryCommitteePolicyV1) :
    recovery PayoutRecoveryPersistOutcome :=
  payload ← lift (canonical_payload c);
  _ ← lift (verify_checkpoint p c);
  matches ← source_fence_matches c.(rc_network_id) c.(rc_source_fence);
  if negb matches then lift (Err RE_SourceFenceMismatch)
  else
    existing ← scall (get PAYOUT_RECOVERY_HEAD_NAMESPACE (format_u64 c.(rc_network_id)));
    match existing with
    | Some bs =>
        current ← lift (decode_head c.(rc_network_id) bs);
        if bool_decide (current.(hd_checkpoint_id) = object_id c) then confirm_current p c current bs
        else
          _ ← check_successor p c current;
          install c payload existing
    | None =>
        if negb (c.(rc_checkpoint_sequence) =? 1) || bool_decide (c.(rc_previous_checkpoint_id) ≠ ZERO_HASH)
        then lift (Err RE_Sequence)
        else install c payload existing
    end.

Definition load_payout_recovery_checkpoint (p : PayoutRecoveryCommitteePolicyV1) : recovery (option PayoutRecoveryCheckpointV1) :=
  _ ← lift (validate_committee_policy p);
  let network_id := p.(rp_network_id) in
  bs ← scall (get PAYOUT_RECOVERY_HEAD_NAMESPACE (format_u64 network_id));
  match bs with
  | None => mret None
  | Some bs =>
      head ← lift (decode_head network_id bs);
      c ← load_checkpoint_at_head p head;
      matches ← source_fence_matches network_id c.(rc_source_fence);
      if negb matches then lift (Err RE_SourceFenceMismatch) else mret (Some c)
  end.
End Checkpoints.
