(* ===== verification/RecoverySafety.v ===== *)
(** * Recovery checkpoints: what is loaded, installed and kept

    What the checks on a checkpoint establish, the installation of a checkpoint
    as one atomic step among other writers, the chain that the calls of any number
    of processes build, and that an installed checkpoint is loaded again. *)

From S2P Require Import Prelude Codec Hash Types Objects Header Merkle Storage Journal Settlement Body Payout Snapshot Crypto Client Recovery.

#[local] Set Default Goal Selector "!".

(** ** Rows *)

Definition head_key (network_id : Z) : bytes * bytes := (PAYOUT_RECOVERY_HEAD_NAMESPACE, format_u64 network_id).
Definition fence_key (network_id : Z) : bytes * bytes := (PAYOUT_RECOVERY_SOURCE_FENCE_NAMESPACE, format_u64 network_id).

Lemma row_key_valid ns network_id : bool_decide (x00 ∈ ns) = false → valid_key (ns, format_u64 network_id) = true.
Proof.
  intros Hns%bool_decide_eq_false. apply valid_key_spec. split; [done|]. unfold format_u64. rewrite elem_of_reverse.
  by apply decimal_digits_not_in.
Qed.
Lemma head_key_valid network_id : valid_key (head_key network_id) = true.
Proof. by apply row_key_valid. Qed.
Lemma fence_key_valid network_id : valid_key (fence_key network_id) = true.
Proof. by apply row_key_valid. Qed.
Lemma head_key_fence n m : head_key n ≠ fence_key m.
Proof. intros E. apply (f_equal fst) in E. vm_compute in E. discriminate E. Qed.
Lemma head_key_journal n : in_journal (head_key n).1 = false.
Proof. by vm_compute. Qed.
Lemma fence_key_journal n : in_journal (fence_key n).1 = false.
Proof. by vm_compute. Qed.

Lemma decode_head_ok network_id bs head :
  decode_head network_id bs = Ok head →
  bs = encode_head head ∧ ok_PayoutRecoveryHeadV1 (mkDecodeLimits 96 0) head ∧ head.(hd_network_id) = network_id.
Proof.
  unfold decode_head. intros (h & Hh%map_err_ok & H)%bind_ok. apply from_canonical_sound in Hh as (Hok & -> & _); [|done].
  destruct (_ || _) eqn:E in H; [done|]. injection H as <-. rewrite !orb_false_iff, negb_false_iff in E.
  destruct E as [[[E%Z.eqb_eq _] _] _]. done.
Qed.
Lemma encode_head_inj h h' :
  ok_PayoutRecoveryHeadV1 (mkDecodeLimits 96 0) h → ok_PayoutRecoveryHeadV1 (mkDecodeLimits 96 0) h' →
  encode_head h = encode_head h' → h = h'.
Proof.
  intros Hh Hh' E. eapply (to_canonical_inj (mkDecodeLimits 96 0)); [done|done| |done].
  unfold to_canonical_bytes, into_bytes, len. cbn [encode PayoutRecoveryHeadV1_codec]. unfold write_head, encode_PayoutRecoveryHeadV1.
  rewrite !wseq_nil by apply _. unfold ok_PayoutRecoveryHeadV1, arr in *. destruct_and!.
  unfold enc_fixed, enc_u16, enc_u8, enc_u64. rewrite !app_nil_l, !length_app, !to_le_length.
  repeat match goal with E : length _ = _ |- _ => rewrite E; clear E end. by vm_compute.
Qed.

(** The answer of [source_fence_matches] about a row. *)
Definition fence_result (network_id : Z) (expected : PayoutRecoverySourceFenceV1) (row : option bytes) :
    result PayoutRecoveryError bool :=
  match row with
  | None => Ok false
  | Some bs =>
      observed ← decode_source_fence network_id bs;
      Ok (bool_decide (observed = expected) && bool_decide (bs = encode_source_fence network_id expected))
  end.
Lemma fence_result_true network_id expected row :
  fence_result network_id expected row = Ok true → row = Some (encode_source_fence network_id expected).
Proof.
  destruct row as [bs|]; [|done]. cbn. intros (observed & _ & H)%bind_ok. injection H as H.
  apply andb_true_iff in H as [_ ->%bool_decide_eq_true]. done.
Qed.
Lemma fence_result_complete network_id expected :
  uint 8 network_id → ok_PayoutRecoverySourceFenceV1 (mkDecodeLimits 192 0) expected → validate_coherence expected = Ok tt →
  fence_result network_id expected (Some (encode_source_fence network_id expected)) = Ok true.
Proof.
  intros Hn Hok Hcoh. unfold fence_result, decode_source_fence, encode_source_fence. rewrite from_canonical_complete; [|done|done|].
  - cbn [map_err mbind result_bind fr_network_id fr_fence]. rewrite Z.eqb_refl. cbn [negb]. rewrite Hcoh. cbn [map_err mbind result_bind].
    by rewrite !bool_decide_eq_true_2.
  - unfold to_canonical_bytes, into_bytes, len. cbn [encode SourceFenceRow_codec]. unfold write_source_fence, encode_PayoutRecoverySourceFenceV1.
    rewrite !wseq_nil by apply _. unfold ok_PayoutRecoverySourceFenceV1, arr in Hok. destruct_and!. cbn [fr_network_id fr_fence].
    unfold enc_fixed, enc_u16, enc_u8, enc_u64. rewrite !app_nil_l, !length_app, !to_le_length.
    repeat match goal with E : length _ = _ |- _ => rewrite E; clear E end. by vm_compute.
Qed.

(** ** What the checks establish *)

Lemma size_list_to_set_le {A} `{Countable A} (l : list A) : (size (list_to_set l : gset A) ≤ length l)%nat.
Proof.
  induction l as [|x l IH]; [by rewrite list_to_set_nil, size_empty|]. rewrite list_to_set_cons.
  destruct (decide (x ∈ (list_to_set l : gset A))).
  - replace ({[x]} ∪ list_to_set l : gset A) with (list_to_set l : gset A) by set_solver. cbn. lia.
  - rewrite size_union by set_solver. rewrite size_singleton. cbn. lia.
Qed.
Lemma all_distinct_NoDup {A} `{Countable A} (l : list A) : all_distinct l = true → NoDup l.
Proof.
  unfold all_distinct. rewrite bool_decide_eq_true. induction l as [|x l IH]; [constructor|]. rewrite list_to_set_cons. cbn [length].
  intros E. pose proof (size_list_to_set_le l). destruct (decide (x ∈ l)).
  - exfalso. replace ({[x]} ∪ list_to_set l : gset A) with (list_to_set l : gset A) in E by set_solver. lia.
  - constructor; [done|]. apply IH. rewrite size_union, size_singleton in E by set_solver. lia.
Qed.

Lemma contiguous_sequences start plans :
  expected_sequences_are_contiguous start plans = true → ep_plan_sequence <$> plans = seqZ start (len plans).
Proof.
  unfold expected_sequences_are_contiguous. rewrite forallb_forall. intros Hall. apply list_eq_same_length with (length plans).
  - unfold len. rewrite length_seqZ. lia.
  - by rewrite length_fmap.
  - intros i x y Hi Hx Hy. rewrite list_lookup_fmap in Hx. apply fmap_Some in Hx as (e & He & ->).
    apply lookup_seqZ in Hy as [-> _]. specialize (Hall (i, e)).
    assert (bool_decide (checked_add 64 start (Z.of_nat i) = Some (ep_plan_sequence e)) = true) as Hc%bool_decide_eq_true.
    { apply Hall, list_elem_of_In, list_elem_of_lookup. exists i. by rewrite list_lookup_imap, He. }
    by apply checked_add_some in Hc as [-> _].
Qed.

Section Checks.
Context (bucket_credit_size : Z) {digests : Digests} {ed : Ed25519}.

(** A threshold of the policy's members signed the checkpoint, each once. *)
Definition certified_by (p : PayoutRecoveryCommitteePolicyV1) (c : PayoutRecoveryCheckpointV1) : Prop :=
  c.(rc_network_id) = p.(rp_network_id) ∧ c.(rc_accumulator).(ck_settlement_committee_id) = p.(rp_settlement_committee_id) ∧
  c.(rc_payout_policy_fingerprint) = p.(rp_payout_policy_fingerprint) ∧
  p.(rp_threshold) ≤ len c.(rc_signer_set).(signatures) ∧ keys_increase signer_pubkey c.(rc_signer_set).(signatures) ∧
  Forall (λ s, s.(signer_pubkey) ∈ p.(rp_members) ∧ signed_by c.(rc_network_id) c s.(signer_pubkey) s.(ss_signature))
    c.(rc_signer_set).(signatures).
Lemma verify_checkpoint_ok p c : verify_checkpoint p c = Ok tt → certified_by p c.
Proof.
  intros ([] & _ & H)%bind_ok. destruct (_ || _) eqn:E in H; [done|]. rewrite !orb_false_iff, !negb_false_iff in E.
  destruct E as [[[[[[En%Z.eqb_eq Ec%bool_decide_eq_false] Ef%bool_decide_eq_false] _] Et%Z.ltb_ge] Em] Ev].
  apply dec_stable in Ec, Ef. destruct (verify_certificate _ _ c) as [[]|] eqn:Ecert; [|done].
  apply verify_certificate_ok in Ecert as (_ & Hinc & Hsigs). unfold certified_by. split_and!; [done..|].
  apply Forall_and. split; [|done]. apply Forall_forall. intros s Hs. apply dec_stable. intros Hn.
  assert (existsb (λ s, negb (bool_decide (s.(signer_pubkey) ∈ p.(rp_members)))) c.(rc_signer_set).(signatures) = true); [|congruence].
  apply existsb_exists. exists s. split; [by apply list_elem_of_In|]. by rewrite bool_decide_eq_false_2.
Qed.

(** The checkpoint is a complete restart point: the accumulator is restored
    exactly and continues the snapshot chain of the fence; the plans that are expected are
    those of the snapshots without one, in order, up to the last snapshot; and the plans
    bound so far are recorded once each, the last one being the fence's. *)
Definition restart_point (c : PayoutRecoveryCheckpointV1) : Prop :=
  let fence := c.(rc_source_fence) in let acc := c.(rc_accumulator) in
  let plans := c.(rc_expected_plans) in let bindings := c.(rc_canonical_plan_bindings) in
  (∃ a, from_checkpoint bucket_credit_size acc SnapshotAccumulatorLimits_default = Ok a ∧ checkpoint a = Ok acc) ∧
  acc.(ck_network_id) = c.(rc_network_id) ∧ acc.(ck_next_sequence) = fence.(sf_snapshot_count) + 1 ∧
  acc.(ck_previous_snapshot_id) = fence.(sf_snapshot_head_id) ∧
  ep_plan_sequence <$> plans = seqZ (fence.(sf_plan_count) + 1) (fence.(sf_snapshot_count) - fence.(sf_plan_count)) ∧
  (fence.(sf_snapshot_count) ≠ fence.(sf_plan_count) → ep_snapshot_id <$> last plans = Some fence.(sf_snapshot_head_id)) ∧
  Sorted (λ a b, a.(cb_plan_sequence) < b.(cb_plan_sequence)) bindings ∧
  NoDup (cb_payout_plan_id <$> bindings) ∧
  NoDup ((cb_payout_snapshot_id <$> bindings) ++ (ep_snapshot_id <$> plans)) ∧
  (fence.(sf_plan_count) ≠ 0 →
   (λ b, (b.(cb_plan_sequence), b.(cb_payout_plan_id))) <$> last bindings = Some (fence.(sf_plan_count), fence.(sf_plan_head_id))).

Lemma existsb_false_forall {A} (f : A → bool) l : existsb f l = false → ∀ x, x ∈ l → f x = false.
Proof.
  intros H x Hx. apply not_true_iff_false. intros Hf. assert (existsb f l = true); [|congruence].
  apply existsb_exists. exists x. split; [by apply list_elem_of_In|done].
Qed.

Lemma validate_structure_ok c : validate_structure bucket_credit_size c = Ok tt →
  validate_coherence c.(rc_source_fence) = Ok tt ∧ c.(rc_checkpoint_sequence) ≠ 0 ∧ restart_point c.
Proof.
  unfold validate_structure. intros ([] & Hcoh & H)%bind_ok. apply bind_ok in H as (queue & Hqueue%ok_or_ok & H).
  apply bind_ok in H as (next & Hnext%ok_or_ok & H). apply bind_ok in H as (start & Hstart%ok_or_ok & H).
  apply bind_ok in H as (a & Ha%map_err_ok & H). apply bind_ok in H as (acc & Hacc%map_err_ok & H).
  destruct (_ || _) eqn:E in H; [done|]. clear H.
  repeat match type of E with _ || _ = false => apply orb_false_iff in E as [E ?] end.
  repeat match goal with
    | H : negb _ = false |- _ => apply negb_false_iff in H
    | H : (_ =? _) = true |- _ => apply Z.eqb_eq in H
    | H : bool_decide (_ ≠ _) = false |- _ => apply bool_decide_eq_false, dec_stable in H
    end.
  apply checked_add_some in Hnext as [-> _], Hstart as [-> _]. unfold checked_sub in Hqueue. destruct (_ <=? _) in Hqueue; [|done]. injection Hqueue as <-.
  subst acc. split; [done|]. split.
  { match goal with H : (c.(rc_checkpoint_sequence) =? 0) = false |- _ => by apply Z.eqb_neq in H end. }
  unfold restart_point. split_and!; try done.
  - by exists a.
  - match goal with H : expected_sequences_are_contiguous _ _ = true |- _ => rewrite (contiguous_sequences _ _ H) end. by f_equal.
  - intros Hne. match goal with H : negb _ && match last c.(rc_expected_plans) with Some _ => _ | None => _ end = false |- _ => revert H end.
    rewrite (proj2 (Z.eqb_neq _ _) Hne). destruct (last c.(rc_expected_plans)) as [e|]; cbn; [|by intros ?]. intros He%bool_decide_eq_false%dec_stable. by rewrite He.
  - match goal with H : windows2_any _ c.(rc_canonical_plan_bindings) = false |- _ => apply windows2_any_false in H; revert H end.
    apply Sorted_iff. intros x y. by rewrite Z.leb_gt.
  - by apply all_distinct_NoDup.
  - apply NoDup_app. split_and!; [by apply all_distinct_NoDup| |by apply all_distinct_NoDup].
    intros id Hid Hin. match goal with H : existsb (λ id, bool_decide (id ∈ _)) _ = false |- _ => apply (existsb_false_forall _ _ H) in Hid end.
    by apply bool_decide_eq_false in Hid.
  - intros Hne. match goal with H : negb _ && match last c.(rc_canonical_plan_bindings) with Some _ => _ | None => _ end = false |- _ => revert H end.
    rewrite (proj2 (Z.eqb_neq _ _) Hne). destruct (last c.(rc_canonical_plan_bindings)) as [b|]; cbn; [|by intros ?]. rewrite orb_false_iff, negb_false_iff.
    intros [Hs%Z.eqb_eq Hp%bool_decide_eq_false%dec_stable]. by rewrite Hs, Hp.
Qed.
End Checks.

(** ** The operations among other writers *)

Section Installed.
Context (bucket_credit_size : Z) {digests : Digests} {digests_ok : DigestsOk} {ed : Ed25519} {hexes : Hex} {hex_ok : HexOk}.

Definition record_key (head : PayoutRecoveryHeadV1) : bytes * bytes :=
  (kind_namespace KindPayoutRecoveryCheckpoint, hex_encode head.(hd_checkpoint_wrapper_id)).
(** What is read at a head. *)
Definition at_head (p : PayoutRecoveryCommitteePolicyV1) (head : PayoutRecoveryHeadV1) (v : View) :
    result PayoutRecoveryError PayoutRecoveryCheckpointV1 :=
  payload ← ok_or (v !! record_key head) RE_MissingCheckpoint;
  accept_payload bucket_credit_size p head payload.

(** The checkpoint can be installed: it is canonical, a restart point and certified. *)
Definition installable (p : PayoutRecoveryCommitteePolicyV1) (c : PayoutRecoveryCheckpointV1) : Prop :=
  canonical_payload bucket_credit_size c = Ok (to_canonical_bytes c) ∧ verify_checkpoint p c = Ok tt.

(** One installation, as a step of the store: the fence row is the checkpoint's, the head row
    names its predecessor, if there is one, which the transition check passed, and
    the checkpoint and the head that names it are written. *)
Definition checkpoint_step (p : PayoutRecoveryCommitteePolicyV1) (c : PayoutRecoveryCheckpointV1) (v v' : View) : Prop :=
  installable p c ∧
  v !! fence_key c.(rc_network_id) = Some (encode_source_fence c.(rc_network_id) c.(rc_source_fence)) ∧
  match v !! head_key c.(rc_network_id) with
  | None => c.(rc_checkpoint_sequence) = 1 ∧ c.(rc_previous_checkpoint_id) = ZERO_HASH
  | Some bs => ∃ head previous, decode_head c.(rc_network_id) bs = Ok head ∧ at_head p head v = Ok previous ∧
      c.(rc_checkpoint_sequence) = head.(hd_checkpoint_sequence) + 1 ∧
      c.(rc_previous_checkpoint_id) = head.(hd_checkpoint_id) ∧ validate_checkpoint_transition previous c = Ok tt
  end ∧
  (∀ bs, v !! record_key (head_of c) = Some bs → bs = to_canonical_bytes c) ∧
  v' = <[head_key c.(rc_network_id) := encode_head (head_of c)]> (<[record_key (head_of c) := to_canonical_bytes c]> v).

Lemma canonical_payload_ok c payload :
  canonical_payload bucket_credit_size c = Ok payload →
  payload = to_canonical_bytes c ∧ validate_structure bucket_credit_size c = Ok tt ∧
  from_canonical_bytes (to_canonical_bytes c) CHECKPOINT_LIMITS = Ok c.
Proof.
  unfold canonical_payload. intros ([] & Hs & H)%bind_ok. destruct (_ <? _) in H; [done|].
  apply bind_ok in H as (d & Hd%map_err_ok & H). destruct (_ || _) eqn:E in H; [done|]. injection H as <-.
  apply orb_false_iff in E as [E%bool_decide_eq_false%dec_stable _]. by subst d.
Qed.

Lemma accept_payload_ok p head payload c :
  accept_payload bucket_credit_size p head payload = Ok c →
  payload = to_canonical_bytes c ∧ from_canonical_bytes payload CHECKPOINT_LIMITS = Ok c ∧
  validate_structure bucket_credit_size c = Ok tt ∧ verify_checkpoint p c = Ok tt ∧ head = head_of c.
Proof.
  unfold accept_payload. intros (d & Hd%map_err_ok & H)%bind_ok. apply bind_ok in H as ([] & Hs & H).
  destruct (_ || _) eqn:E in H; [done|]. apply bind_ok in H as ([] & Hv & H). injection H as <-.
  rewrite !orb_false_iff, !negb_false_iff in E.
  destruct E as [[[[En%Z.eqb_eq Es%Z.eqb_eq] Ei%bool_decide_eq_false%dec_stable] Ew%bool_decide_eq_false%dec_stable] Ep%bool_decide_eq_false%dec_stable].
  split_and!; try done. destruct head. unfold head_of. cbn in *. by subst.
Qed.
Lemma accept_payload_complete p c :
  installable p c → accept_payload bucket_credit_size p (head_of c) (to_canonical_bytes c) = Ok c.
Proof.
  intros [(_ & Hs & Hd)%canonical_payload_ok Hv]. unfold accept_payload. rewrite Hd. cbn [map_err mbind result_bind]. rewrite Hs.
  cbn [mbind result_bind head_of hd_network_id hd_checkpoint_sequence hd_checkpoint_id hd_checkpoint_wrapper_id].
  rewrite !Z.eqb_refl, !bool_decide_eq_false_2 by tauto. cbn [negb orb]. by rewrite Hv.
Qed.

Lemma record_key_valid head : valid_key (record_key head) = true.
Proof. apply valid_journal_key. Qed.
Lemma record_key_journal head : in_journal (record_key head).1 = true.
Proof. apply in_journal_kind. Qed.
Lemma at_head_journal p head v v' c : journal_le v v' → at_head p head v = Ok c → at_head p head v' = Ok c.
Proof.
  intros Hle (payload & Hp%ok_or_ok & Ha)%bind_ok. unfold at_head.
  assert (v' !! record_key head = Some payload) as -> by exact (Hle _ _ payload (record_key_journal head) Hp). done.
Qed.

Context {S : Type} `{!DurableStore S, !DurableStoreLaws S} (env : nat → S → S) (R : relation View) `{!PreOrder R}.
Hypothesis env_R : ∀ n s v, represents s v → ∃ v', represents (env n s) v' ∧ R v v'.
Hypothesis R_journal : ∀ v v', R v v' → journal_le v v'.

Lemma ewp_at_head p head v (Φ : result PayoutRecoveryError PayoutRecoveryCheckpointV1 → View → Prop) :
  (∀ v1, R v v1 → Φ (at_head p head v1) v1) → ewp (load_checkpoint_at_head bucket_credit_size env p head) v Φ.
Proof.
  intros HΦ. unfold load_checkpoint_at_head. apply ewp_bind, ewp_map_err. intros n s Hrep.
  destruct (get_call_among env R _ _ n s v env_R Hrep (record_key_valid head)) as (v1 & s1 & Eg & Hrep1 & Hle).
  eexists _, _, s1, v1. split; [exact Eg|]. split; [done|]. cbn [map_err]. specialize (HΦ v1 Hle). unfold at_head, record_key in HΦ.
  apply ewp_lift_bind; [intros payload Hp|intros e He].
  - rewrite Hp in HΦ. cbn [mbind result_bind] in HΦ. by apply ewp_lift.
  - by rewrite He in HΦ.
Qed.

Lemma ewp_fence n f v (Φ : result PayoutRecoveryError bool → View → Prop) :
  (∀ v1, R v v1 → Φ (fence_result n f (v1 !! fence_key n)) v1) → ewp (source_fence_matches env n f) v Φ.
Proof.
  intros HΦ. unfold source_fence_matches. apply ewp_bind. eapply ewp_get; [exact env_R|apply fence_key_valid|]. intros v1 Hle.
  specialize (HΦ v1 Hle). unfold fence_result, fence_key in HΦ. destruct (v1 !! _) as [bs|]; [|by apply ewp_ret].
  apply ewp_lift_bind; [intros o Ho|intros e He].
  - rewrite Ho in HΦ. by apply ewp_ret.
  - by rewrite He in HΦ.
Qed.

(** C29: what is loaded can be restarted from. Whatever the store holds and whatever
    other writers do, a checkpoint that is loaded was signed by a threshold of
    the local policy's members, its accumulator is restored exactly, its queue of expected
    plans and its plan bindings are complete, and its source fence is the live one. *)
Theorem recovered_checkpoint_sound p v :
  ewp (load_payout_recovery_checkpoint bucket_credit_size env p) v (λ r v', ∀ c, r = Ok (Some c) →
    certified_by p c ∧ restart_point bucket_credit_size c ∧
    v' !! fence_key p.(rp_network_id) = Some (encode_source_fence p.(rp_network_id) c.(rc_source_fence))).
Proof.
  unfold load_payout_recovery_checkpoint. apply ewp_lift_bind; [|by intros]. intros _ _. apply ewp_bind.
  eapply ewp_get; [exact env_R|apply head_key_valid|]. intros v1 _. destruct (v1 !! _) as [bs|]; [|by apply ewp_ret].
  apply ewp_lift_bind; [|by intros]. intros head _. apply ewp_bind, ewp_at_head. intros v2 _.
  destruct (at_head p head v2) as [c|] eqn:Ea; [|done]. apply bind_ok in Ea as (payload & _ & (_ & _ & Hs & Hv & _)%accept_payload_ok).
  apply ewp_bind, ewp_fence. intros v3 _. destruct (fence_result _ _ _) as [[]|] eqn:Ef; [|by apply ewp_lift|done]. cbn [negb].
  apply ewp_ret. intros c' [= <-]. split_and!; [by apply verify_checkpoint_ok|by apply validate_structure_ok|].
  by apply fence_result_true in Ef.
Qed.

(** What the head names at some moment, with the fence matching just before. *)
Definition confirmed (c : PayoutRecoveryCheckpointV1) (v v' : View) : Prop :=
  ∃ v1 v2 bs head, R v v1 ∧ R v1 v2 ∧ R v2 v' ∧
    v1 !! fence_key c.(rc_network_id) = Some (encode_source_fence c.(rc_network_id) c.(rc_source_fence)) ∧
    v2 !! head_key c.(rc_network_id) = Some bs ∧ decode_head c.(rc_network_id) bs = Ok head ∧
    head.(hd_checkpoint_id) = object_id c ∧ head.(hd_checkpoint_sequence) = c.(rc_checkpoint_sequence).

(** What a call to install [c] means. *)
Definition persist_result (p : PayoutRecoveryCommitteePolicyV1) (c : PayoutRecoveryCheckpointV1) (v : View)
    (r : result PayoutRecoveryError PayoutRecoveryPersistOutcome) (v' : View) : Prop :=
  match r with
  | Ok RecoveryCommitted => ∃ v0, R v v0 ∧ checkpoint_step p c v0 v'
  | Ok AlreadyCurrent => confirmed c v v'
  | Err _ => R v v'
  end.
Lemma persist_result_earlier p c v v1 r v' : R v v1 → persist_result p c v1 r v' → persist_result p c v r v'.
Proof.
  intros Hle. destruct r as [[]|]; cbn.
  - intros (v0 & ? & ?). exists v0. split; [by etrans|done].
  - intros (v2 & v3 & bs & head & ? & H). exists v2, v3, bs, head. split; [by etrans|done].
  - by etrans.
Qed.

(** A failed call. *)
Ltac failed := try apply ewp_lift; unfold persist_result; first [done|reflexivity|by etrans].

Lemma ewp_confirm_current p c current bs v :
  decode_head c.(rc_network_id) bs = Ok current → current.(hd_checkpoint_id) = object_id c →
  ewp (confirm_current bucket_credit_size env p c current bs) v (persist_result p c v).
Proof.
  intros Hd Hid. unfold confirm_current. destruct (Z.eqb_spec current.(hd_checkpoint_sequence) c.(rc_checkpoint_sequence)) as [Hs|];
    cbn [negb]; [|failed]. apply ewp_bind, ewp_at_head. intros v1 H1. destruct (at_head p current v1); [|failed].
  apply ewp_bind. eapply ewp_batch_if_all; [exact env_R| | |].
  - unfold batch_keys_valid.
    change (forallb valid_key [head_key c.(rc_network_id); fence_key c.(rc_network_id)] && forallb valid_key [] = true).
    cbn [forallb]. by rewrite head_key_valid, fence_key_valid.
  - intros v2 H2 Hc. apply ewp_ret. unfold conditions_hold in Hc. rewrite !Forall_cons in Hc. destruct Hc as (Hh & Hf & _). cbn.
    exists v2, v2, bs, current. split_and!; try done. by etrans.
  - intros v2 H2 _. failed.
Qed.

Lemma ewp_install p c existing v :
  installable p c →
  (∀ v0, R v v0 → v0 !! head_key c.(rc_network_id) = existing →
    match existing with
    | None => c.(rc_checkpoint_sequence) = 1 ∧ c.(rc_previous_checkpoint_id) = ZERO_HASH
    | Some bs => ∃ head previous, decode_head c.(rc_network_id) bs = Ok head ∧ at_head p head v0 = Ok previous ∧
        c.(rc_checkpoint_sequence) = head.(hd_checkpoint_sequence) + 1 ∧
        c.(rc_previous_checkpoint_id) = head.(hd_checkpoint_id) ∧ validate_checkpoint_transition previous c = Ok tt
    end) →
  ewp (install env c (to_canonical_bytes c) existing) v (persist_result p c v).
Proof.
  intros Hi Hpred. unfold install. fold (head_of c). apply ewp_bind, ewp_map_err. intros n s Hrep.
  set (records := [_]). set (cs := [_; _]). set (supp := [_]).
  destruct (persist_records_among env R env_R R_journal records cs supp n s v Hrep) as (r & n' & s' & v' & E & Hrep' & Hr).
  exists r, n', s', v'. split; [exact E|]. split; [done|]. destruct Hr as [(Hne & Hle & _)|(-> & _ & v0 & Hle & Hc & Hf & ->)].
  - destruct r as [[]|e]; cbn [map_err]; [done| | |failed].
    + apply ewp_bind, ewp_fence. intros v1 H1. destruct (fence_result _ _ _) as [b|] eqn:Ef; [|failed].
      destruct b; cbn [negb]; [|failed]. apply fence_result_true in Ef.
      apply ewp_bind. eapply ewp_get; [exact env_R|apply head_key_valid|]. intros v2 H2.
      assert (R v v2) by exact (transitivity (transitivity Hle H1) H2).
      destruct (v2 !! _) as [bs|] eqn:Ebs; [|failed]. destruct (decode_head _ bs) as [h|] eqn:Eh; [|failed].
      case_bool_decide as Hh; [|failed]. subst h. apply ewp_ret. cbn. exists v1, v2, bs, (head_of c).
      split_and!; try done. exact (transitivity Hle H1).
    + failed.
  - cbn [map_err]. apply ewp_ret. cbn. exists v0. split; [done|]. cbn [forallb cs] in Hc. rewrite !andb_true_iff in Hc.
    destruct Hc as (Hh%bool_decide_eq_true & Hfe%bool_decide_eq_true & _). unfold condition_target in Hh, Hfe.
    cbn [bc_namespace bc_key bc_expected] in Hh, Hfe. fold (head_key c.(rc_network_id)) in Hh. fold (fence_key c.(rc_network_id)) in Hfe.
    unfold checkpoint_step. split_and!; [done|done| | |done].
    + rewrite Hh. by apply Hpred.
    + intros bs Hbs. apply (Hf (prepared_of (mkJournalBatchRecord KindPayoutRecoveryCheckpoint
        (head_of c).(hd_checkpoint_wrapper_id) (to_canonical_bytes c))) bs); [left|done].
Qed.

Lemma checkpoint_persist_spec p c v :
  ewp (persist_payout_recovery_checkpoint bucket_credit_size env c p) v (persist_result p c v).
Proof.
  unfold persist_payout_recovery_checkpoint. apply ewp_lift_bind; [|by intros; failed]. intros payload Hp.
  destruct (canonical_payload_ok _ _ Hp) as [-> _]. apply ewp_lift_bind; [|by intros; failed]. intros [] Hv.
  assert (installable p c) as Hi by done.
  apply ewp_bind, ewp_fence. intros v1 H1. destruct (fence_result _ _ _) as [[]|]; [|failed|failed]. cbn [negb].
  apply ewp_bind. eapply ewp_get; [exact env_R|apply head_key_valid|]. intros v2 H2. assert (R v v2) as H02 by exact (transitivity H1 H2).
  eapply ewp_mono; [intros r v'; by apply persist_result_earlier, H02|].
  destruct (v2 !! _) as [bs|] eqn:Ebs.
  2: { destruct (_ || _) eqn:E; [failed|]. rewrite orb_false_iff, negb_false_iff in E.
       destruct E as [E1%Z.eqb_eq E2%bool_decide_eq_false%dec_stable]. apply ewp_install; [done|]. by intros. }
  apply ewp_lift_bind; [|by intros; failed]. intros current Hcur. case_bool_decide as Hid; [by apply ewp_confirm_current|].
  unfold check_successor. apply ewp_bind, ewp_lift_bind; [|by intros; failed]. intros next Hnext%ok_or_ok.
  apply checked_add_some in Hnext as [-> _]. destruct (_ || _) eqn:E; [failed|]. rewrite orb_false_iff, negb_false_iff in E.
  destruct E as [E1%Z.eqb_eq E2%bool_decide_eq_false%dec_stable]. apply ewp_bind, ewp_at_head. intros v3 H3.
  destruct (at_head p current v3) as [previous|] eqn:Ea; [|failed]. apply ewp_lift.
  destruct (validate_checkpoint_transition previous c) as [[]|] eqn:Et; [|failed].
  eapply ewp_mono; [intros r v'; by apply persist_result_earlier, H3|]. apply ewp_install; [done|].
  intros v0 H0 _. exists current, previous. split_and!; try done. eapply at_head_journal; [|done]. by apply R_journal.
Qed.

(** C27: installing a checkpoint is one atomic step. Among writers that keep the
    journal, a call that reports a commit performed exactly one step, at a moment when
    the fence row was the checkpoint's and the head named its accepted
    predecessor; one that reports the checkpoint as current found it named by the
    head; and one that fails changed nothing. *)
Theorem checkpoint_persist_refines p c v :
  ewp (persist_payout_recovery_checkpoint bucket_credit_size env c p) v (persist_result p c v).
Proof. apply checkpoint_persist_spec. Qed.
End Installed.

(** ** The chain *)

Definition component_le (count : Z) (head : Hash256) (count' : Z) (head' : Hash256) : Prop :=
  count ≤ count' ∧ (count = count' → head = head').
(** No source went back, and none changed without advancing. *)
Definition fence_le (f f' : PayoutRecoverySourceFenceV1) : Prop :=
  component_le f.(sf_disposition_count) f.(sf_disposition_commitment) f'.(sf_disposition_count) f'.(sf_disposition_commitment) ∧
  component_le f.(sf_snapshot_count) f.(sf_snapshot_head_id) f'.(sf_snapshot_count) f'.(sf_snapshot_head_id) ∧
  component_le f.(sf_plan_count) f.(sf_plan_head_id) f'.(sf_plan_count) f'.(sf_plan_head_id) ∧
  component_le f.(sf_canonical_event_count) f.(sf_canonical_event_commitment)
    f'.(sf_canonical_event_count) f'.(sf_canonical_event_commitment).
Lemma component_le_trans c1 h1 c2 h2 c3 h3 : component_le c1 h1 c2 h2 → component_le c2 h2 c3 h3 → component_le c1 h1 c3 h3.
Proof.
  intros [H1 E1] [H2 E2]. split; [lia|]. intros ->. assert (c2 = c3) as Hc by lia. rewrite E1 by done. by apply E2.
Qed.
#[export] Instance fence_le_trans : Transitive fence_le.
Proof. intros f1 f2 f3 H1 H2. unfold fence_le in *. destruct_and!. split_and!; by eapply component_le_trans. Qed.
Lemma component_is_monotonic_le c h c' h' : component_is_monotonic c h c' h' = true → component_le c h c' h'.
Proof.
  unfold component_is_monotonic. rewrite orb_true_iff, !andb_true_iff, Z.ltb_lt, Z.eqb_eq, !bool_decide_eq_true.
  intros [[? ?]|[-> ->]]; split; [lia|lia|lia|done].
Qed.
Lemma validate_monotonic_le f previous : validate_monotonic_after f previous = Ok tt → fence_le previous f.
Proof.
  unfold validate_monotonic_after. destruct (_ || _) eqn:E; [done|]. rewrite !orb_false_iff, !negb_false_iff in E.
  destruct E as [[[E1 E2] E3] E4]. intros _. split_and!; by apply component_is_monotonic_le.
Qed.

(** Later checkpoints keep the payout settings and do not take the fence back; without
    new sources they carry the same state. *)
Definition succeeds (c' c : PayoutRecoveryCheckpointV1) : Prop :=
  fence_le c.(rc_source_fence) c'.(rc_source_fence) ∧
  c'.(rc_payout_policy_fingerprint) = c.(rc_payout_policy_fingerprint) ∧
  c'.(rc_accumulator).(ck_snapshot_step_work) = c.(rc_accumulator).(ck_snapshot_step_work) ∧
  c'.(rc_accumulator).(ck_pplns_window_work) = c.(rc_accumulator).(ck_pplns_window_work) ∧
  c'.(rc_accumulator).(ck_settlement_committee_id) = c.(rc_accumulator).(ck_settlement_committee_id).
#[export] Instance succeeds_trans : Transitive succeeds.
Proof.
  intros c1 c2 c3 (F1 & ? & ? & ? & ?) (F2 & ? & ? & ? & ?). split; [by etrans|]. split_and!; congruence.
Qed.
Lemma transition_succeeds previous c : validate_checkpoint_transition previous c = Ok tt → succeeds c previous.
Proof.
  unfold validate_checkpoint_transition. destruct (_ || _) eqn:E; [done|]. rewrite !orb_false_iff in E.
  destruct E as [[[E1 E2] E3] E4]. apply bool_decide_eq_false, dec_stable in E1, E2, E3, E4.
  intros ([] & Hm & _)%bind_ok. split; [by apply validate_monotonic_le|done].
Qed.

Section Chain.
Context (bucket_credit_size : Z) {digests : Digests} {digests_ok : DigestsOk} {ed : Ed25519} {hexes : Hex} {hex_ok : HexOk}.
Context (p : PayoutRecoveryCommitteePolicyV1).
Abbreviation n := p.(rp_network_id).

Lemma checkpoint_step_journal c v v' : checkpoint_step bucket_credit_size p c v v' → journal_le v v'.
Proof.
  intros (_ & _ & _ & Hrec & ->) ns k x Hj Hx. rewrite lookup_insert_ne.
  2: { intros E. pose proof (head_key_journal c.(rc_network_id)) as Hh. rewrite E in Hh. cbn [fst] in Hh. congruence. }
  destruct (decide (record_key (head_of c) = (ns, k))) as [E|]; [|by rewrite lookup_insert_ne].
  rewrite E, lookup_insert_eq. rewrite <- E in Hx. by rewrite (Hrec x Hx).
Qed.
(** Checkpoints, the newest first: numbered from 1, each naming its predecessor. *)
Fixpoint linked (cs : list PayoutRecoveryCheckpointV1) : Prop :=
  match cs with
  | [] => True
  | c :: rest =>
      match rest with
      | [] => c.(rc_checkpoint_sequence) = 1 ∧ c.(rc_previous_checkpoint_id) = ZERO_HASH
      | c' :: _ => c.(rc_checkpoint_sequence) = c'.(rc_checkpoint_sequence) + 1 ∧
          c.(rc_previous_checkpoint_id) = object_id c' ∧ validate_checkpoint_transition c' c = Ok tt
      end ∧ linked rest
  end.
Definition chain_ok (v : View) (cs : list PayoutRecoveryCheckpointV1) : Prop :=
  v !! head_key n = (λ c, encode_head (head_of c)) <$> head cs ∧ linked cs ∧
  Forall (λ c, c.(rc_network_id) = n ∧ installable bucket_credit_size p c ∧
    v !! record_key (head_of c) = Some (to_canonical_bytes c)) cs.

Lemma installable_ok c : installable bucket_credit_size p c → ok_PayoutRecoveryCheckpointV1 CHECKPOINT_LIMITS c.
Proof. intros [(_ & _ & Hd)%canonical_payload_ok _]. by apply from_canonical_sound in Hd as [? _]. Qed.
Lemma head_of_ok c limits : installable bucket_credit_size p c → ok_PayoutRecoveryHeadV1 limits (head_of c).
Proof.
  intros Hi%installable_ok. unfold ok_PayoutRecoveryCheckpointV1 in Hi. destruct_and!.
  unfold ok_PayoutRecoveryHeadV1, head_of, arr. cbn. split_and!; try done; apply domain_hash_length.
Qed.

(** What a writer may do: keep the journal and the chain, to which it may add. *)
Definition recovery_rely (v v' : View) : Prop :=
  journal_le v v' ∧ ∀ cs, chain_ok v cs → ∃ new, chain_ok v' (new ++ cs).
#[export] Instance recovery_rely_preorder : PreOrder recovery_rely.
Proof.
  split; [intros v; split; [reflexivity|]; intros cs Hcs; by exists []|]. intros v1 v2 v3 [J1 H1] [J2 H2]. split; [by etrans|].
  intros cs Hcs. destruct (H1 cs Hcs) as [new1 Hcs1]. destruct (H2 _ Hcs1) as [new2 Hcs2]. exists (new2 ++ new1). by rewrite <- app_assoc.
Qed.
Lemma checkpoint_step_network c v v' : checkpoint_step bucket_credit_size p c v v' → c.(rc_network_id) = n.
Proof. intros ([_ (? & _)%verify_checkpoint_ok] & _). done. Qed.

(** The head row of a chain names its newest checkpoint. *)
Lemma chain_head v cs bs h : chain_ok v cs → v !! head_key n = Some bs → decode_head n bs = Ok h →
  ∃ c rest, cs = c :: rest ∧ h = head_of c.
Proof.
  intros (Hh & _ & Hall) Hbs Hd. rewrite Hbs in Hh. destruct cs as [|c rest]; [done|]. cbn [head fmap option_fmap option_map] in Hh.
  injection Hh as ->. exists c, rest. split; [done|]. inversion_clear Hall as [|?? (_ & Hi & _) _].
  apply decode_head_ok in Hd as (Henc & Hok & _). symmetry. apply encode_head_inj; [by apply head_of_ok|done..].
Qed.

(** An installation puts the checkpoint at the head of the chain. *)
Lemma chain_step c v v' cs : chain_ok v cs → checkpoint_step bucket_credit_size p c v v' → chain_ok v' (c :: cs).
Proof.
  intros Hcs Hstep. pose proof (checkpoint_step_journal _ _ _ Hstep) as Hle. pose proof (checkpoint_step_network _ _ _ Hstep) as Hn.
  pose proof Hcs as (Hh & Hl & Hall). destruct Hstep as (Hi & _ & Hpred & _ & ->). rewrite Hn in *. split; [by rewrite lookup_insert_eq|]. split.
  - destruct (v !! head_key n) as [bs|] eqn:Ebs.
    + destruct Hpred as (h & previous & Hd & Hat & Hseq & Hprev & Ht). destruct (chain_head _ _ _ _ Hcs Ebs Hd) as (c' & rest & -> & ->).
      split; [|done]. inversion_clear Hall as [|?? (Hn' & Hi' & Hr) _]. assert (previous = c') as ->; [|done].
      apply bind_ok in Hat as (payload & Hp%ok_or_ok & Ha). rewrite Hr in Hp. apply (inj Some) in Hp as <-.
      apply accept_payload_ok in Ha as (_ & Hfrom & _). destruct Hi' as [(_ & _ & Hfrom')%canonical_payload_ok _]. rewrite Hfrom' in Hfrom. by injection Hfrom.
    + destruct cs as [|c' cs]; [done|]. cbn [head fmap option_fmap option_map] in Hh. done.
  - constructor.
    + split_and!; [done..|]. rewrite lookup_insert_ne, lookup_insert_eq; [done|].
      intros E. pose proof (head_key_journal n) as Hj. rewrite E, record_key_journal in Hj. done.
    + eapply Forall_impl; [exact Hall|]. intros c' (? & ? & Hr). split_and!; [done..|]. exact (Hle _ _ _ (record_key_journal (head_of c')) Hr).
Qed.

(** What an answer says of the chain: a committed checkpoint is in it, and a current one by its identity and number. *)
Definition answer_in (cs : list PayoutRecoveryCheckpointV1) (c : PayoutRecoveryCheckpointV1)
    (r : result PayoutRecoveryError PayoutRecoveryPersistOutcome) : Prop :=
  match r with
  | Ok RecoveryCommitted => c ∈ cs
  | Ok AlreadyCurrent => ∃ c', c' ∈ cs ∧ object_id c' = object_id c ∧ c'.(rc_checkpoint_sequence) = c.(rc_checkpoint_sequence)
  | Err _ => True
  end.
Lemma answer_in_app new cs c r : answer_in cs c r → answer_in (new ++ cs) c r.
Proof. destruct r as [[]|]; cbn; set_solver. Qed.

Context {S : Type} `{!DurableStore S, !DurableStoreLaws S} (env : nat → S → S).
(** The other writers may be other processes that install checkpoints. *)
Hypothesis env_rely : ∀ n s v, represents s v → ∃ v', represents (env n s) v' ∧ recovery_rely v v'.

Lemma persist_in_chain c v cs :
  chain_ok v cs →
  ewp (persist_payout_recovery_checkpoint bucket_credit_size env c p) v (λ r v',
    journal_le v v' ∧ ∃ new, chain_ok v' (new ++ cs) ∧ answer_in (new ++ cs) c r).
Proof.
  intros Hcs. destruct (decide (c.(rc_network_id) = n)) as [Hn|Hn].
  2: { unfold persist_payout_recovery_checkpoint. assert (journal_le v v) by reflexivity. apply ewp_lift_bind; [|by intros; split; [|exists []]]. intros payload _.
       apply ewp_lift_bind; [|by intros; split; [|exists []]]. intros [] (? & _)%verify_checkpoint_ok. done. }
  eapply ewp_mono; [|by apply (checkpoint_persist_spec bucket_credit_size env recovery_rely env_rely (λ v v' H, proj1 H))].
  intros [[]|e] v' Hr; cbn in Hr.
  - destruct Hr as (v0 & [Hj Hle] & Hstep). split; [etrans; [exact Hj|by eapply checkpoint_step_journal]|].
    destruct (Hle cs Hcs) as [new Hcs0]. exists (c :: new). split; [by apply (chain_step c v0)|]. by left.
  - destruct Hr as (v1 & v2 & bs & h & [J1 H1] & [J2 H2] & [J3 H3] & _ & Hbs & Hd & Hid & Hseq).
    split; [by repeat (etrans; [eassumption|])|]. destruct (H1 cs Hcs) as [new1 Hcs1]. destruct (H2 _ Hcs1) as [new2 Hcs2]. destruct (H3 _ Hcs2) as [new3 Hcs3].
    rewrite Hn in Hbs, Hd. destruct (chain_head _ _ _ _ Hcs2 Hbs Hd) as (c' & rest & E & ->).
    exists (new3 ++ new2 ++ new1). rewrite <- !app_assoc. split; [done|]. rewrite E. apply answer_in_app. exists c'. by split; [left|].
  - destruct Hr as [Hj Hle]. split; [done|]. destruct (Hle cs Hcs) as [new Hcs']. by exists new.
Qed.

(** A process that installs checkpoints one after the other, whether or not it succeeds. *)
Fixpoint persist_all (checkpoints : list PayoutRecoveryCheckpointV1) (w : nat * S) :
    list (result PayoutRecoveryError PayoutRecoveryPersistOutcome) * (nat * S) :=
  match checkpoints with
  | [] => ([], w)
  | c :: checkpoints =>
      let '(r, w) := persist_payout_recovery_checkpoint bucket_credit_size env c p w in
      let '(rs, w) := persist_all checkpoints w in (r :: rs, w)
  end.
Lemma persist_all_chain checkpoints k s v cs :
  chain_ok v cs → represents s v →
  ∃ rs k' s' v' new, persist_all checkpoints (k, s) = (rs, (k', s')) ∧ represents s' v' ∧ chain_ok v' (new ++ cs) ∧
    Forall2 (answer_in (new ++ cs)) checkpoints rs.
Proof.
  revert k s v cs. induction checkpoints as [|c checkpoints IH]; intros k s v cs Hcs Hrep.
  { exists [], k, s, v, []. split_and!; [done..|constructor]. }
  destruct (persist_in_chain c v cs Hcs k s Hrep) as (r & k1 & s1 & v1 & E & Hrep1 & _ & new1 & Hcs1 & Ha).
  destruct (IH k1 s1 v1 _ Hcs1 Hrep1) as (rs & k' & s' & v' & new & E' & Hrep' & Hcs' & Has).
  exists (r :: rs), k', s', v', (new ++ new1). cbn [persist_all]. rewrite E, E', <- app_assoc. split_and!; [done..|].
  constructor; [by apply answer_in_app|done].
Qed.

Lemma linked_sequences cs : linked cs → rc_checkpoint_sequence <$> cs = reverse (seqZ 1 (len cs)).
Proof.
  intros Hl. assert ((∀ c, head cs = Some c → c.(rc_checkpoint_sequence) = len cs) ∧
    rc_checkpoint_sequence <$> cs = reverse (seqZ 1 (len cs))) as [_ ?]; [|done].
  induction cs as [|c cs IH]; [done|]. destruct Hl as [Hc Hl]. destruct (IH Hl) as [Hhead Hseq].
  assert (c.(rc_checkpoint_sequence) = len (c :: cs)) as Hs.
  { rewrite len_cons. destruct cs as [|c' cs]; [by destruct Hc|]. destruct Hc as [-> _]. by rewrite (Hhead c'). }
  split; [by intros ? [= <-]|]. rewrite fmap_cons, Hseq, Hs, len_cons. pose proof (len_nonneg cs).
  rewrite seqZ_app, reverse_app by lia. rewrite (seqZ_cons (1 + len cs)) by lia. rewrite (seqZ_nil _ (Z.pred 1)) by lia.
  cbn [reverse rev_append app]. by rewrite Z.add_comm.
Qed.
Lemma linked_succeeds cs : linked cs → StronglySorted succeeds cs.
Proof.
  intros Hl. apply Sorted_StronglySorted; [exact succeeds_trans|]. induction cs as [|c cs IH]; [constructor|]. destruct Hl as [Hc Hl].
  constructor; [by apply IH|]. destruct cs as [|c' cs]; constructor. apply transition_succeeds, Hc.
Qed.

(** C28: checkpoints form one chain. Any run of calls that install checkpoints, among other processes that
    do the same, ends; whatever is submitted, the chain of certified checkpoints in the journal, empty at first, is only added to: the
    head row names the last of a list numbered 1, 2, 3 and so on, each naming its
    predecessor, with the same payout settings throughout and source fences that never
    go back. Every checkpoint that a call reports as committed is in the chain, and for one that is reported as current the
    chain has one of the same identity and number. There is no fork. *)
Theorem recovery_chain_linear checkpoints k s v cs :
  chain_ok v cs → represents s v →
  ∃ rs k' s' v' new, persist_all checkpoints (k, s) = (rs, (k', s')) ∧ represents s' v' ∧ chain_ok v' (new ++ cs) ∧
    Forall2 (answer_in (new ++ cs)) checkpoints rs ∧
    rc_checkpoint_sequence <$> new ++ cs = reverse (seqZ 1 (len (new ++ cs))) ∧ StronglySorted succeeds (new ++ cs).
Proof.
  intros Hcs Hrep. destruct (persist_all_chain checkpoints k s v cs Hcs Hrep) as (rs & k' & s' & v' & new & E & Hrep' & Hcs' & Has).
  exists rs, k', s', v', new. destruct (Hcs') as (_ & Hl & _). split_and!; [done..|by apply linked_sequences|by apply linked_succeeds].
Qed.
End Chain.

(** ** Loading again *)

Section Reload.
Context (bucket_credit_size : Z) {digests : Digests} {digests_ok : DigestsOk} {ed : Ed25519} {hexes : Hex} {hex_ok : HexOk}.
Context {S : Type} `{!DurableStore S, !DurableStoreLaws S} (env : nat → S → S).
Context (p : PayoutRecoveryCommitteePolicyV1).
(** The other writers keep the journal and leave the two rows of this network alone. *)
Definition rows_kept (v v' : View) : Prop :=
  journal_le v v' ∧ v' !! head_key p.(rp_network_id) = v !! head_key p.(rp_network_id) ∧
  v' !! fence_key p.(rp_network_id) = v !! fence_key p.(rp_network_id).
#[export] Instance rows_kept_preorder : PreOrder rows_kept.
Proof.
  split; [by intros v|]. intros v1 v2 v3 (? & H1 & H2) (? & H3 & H4). split; [by etrans|]. by rewrite H3, H4.
Qed.
Hypothesis env_rows : ∀ n s v, represents s v → ∃ v', represents (env n s) v' ∧ rows_kept v v'.

Lemma decode_head_of c :
  installable bucket_credit_size p c → object_id c ≠ ZERO_HASH → hd_checkpoint_wrapper_id (head_of c) ≠ ZERO_HASH →
  decode_head c.(rc_network_id) (encode_head (head_of c)) = Ok (head_of c).
Proof.
  intros Hi Hid Hw. unfold decode_head, encode_head. pose proof (head_of_ok _ _ c (mkDecodeLimits 96 0) Hi) as Hok.
  rewrite from_canonical_complete; [|done|done|].
  - cbn [map_err mbind result_bind]. change (head_of c).(hd_network_id) with c.(rc_network_id).
    rewrite Z.eqb_refl, !bool_decide_eq_false_2 by done. cbn [negb orb].
    destruct Hi as [(_ & (_ & Hs & _)%validate_structure_ok & _)%canonical_payload_ok _]. cbn [head_of hd_checkpoint_sequence].
    by rewrite (proj2 (Z.eqb_neq _ _) Hs).
  - unfold to_canonical_bytes, into_bytes, len. cbn [encode PayoutRecoveryHeadV1_codec]. unfold write_head, encode_PayoutRecoveryHeadV1.
    rewrite !wseq_nil by apply _. unfold ok_PayoutRecoveryHeadV1, arr in Hok. destruct_and!.
    unfold enc_fixed, enc_u16, enc_u8, enc_u64. rewrite !app_nil_l, !length_app, !to_le_length.
    repeat match goal with E : length _ = _ |- _ => rewrite E; clear E end. by vm_compute.
Qed.

(** A checkpoint that was installed is loaded again. When a call reports the commit of a
    checkpoint and the rows of its network stay as they are, loading returns exactly that
    checkpoint (unless one of its two identities is the zero hash, which marks an
    absent head). *)
Lemma checkpoint_reloads c v :
  object_id c ≠ ZERO_HASH → hd_checkpoint_wrapper_id (head_of c) ≠ ZERO_HASH →
  ewp (persist_payout_recovery_checkpoint bucket_credit_size env c p) v (λ r v', r = Ok RecoveryCommitted →
    ewp (load_payout_recovery_checkpoint bucket_credit_size env p) v' (λ r' _, r' = Ok (Some c))).
Proof.
  intros Hid Hw. eapply ewp_mono; [|eapply (checkpoint_persist_spec bucket_credit_size env rows_kept env_rows); by intros ?? []].
  intros r v' Hr ->. destruct Hr as (v0 & _ & Hi & Hf & _ & _ & Hv').
  assert (c.(rc_network_id) = p.(rp_network_id)) as Hn by (by destruct Hi as [_ (? & _)%verify_checkpoint_ok]).
  assert (validate_committee_policy p = Ok tt) as Hp by (by destruct Hi as [_ ([] & ? & _)%bind_ok]).
  assert (v' !! head_key p.(rp_network_id) = Some (encode_head (head_of c))) as Hh' by (by rewrite Hv', Hn, lookup_insert_eq).
  assert (v' !! record_key (head_of c) = Some (to_canonical_bytes c)) as Hr'.
  { rewrite Hv', lookup_insert_ne, lookup_insert_eq; [done|]. intros E. pose proof (head_key_journal c.(rc_network_id)) as Hj.
    by rewrite E, record_key_journal in Hj. }
  assert (v' !! fence_key p.(rp_network_id) = Some (encode_source_fence c.(rc_network_id) c.(rc_source_fence))) as Hf'.
  { rewrite Hv', <- Hn, lookup_insert_ne by apply head_key_fence. rewrite lookup_insert_ne; [done|].
    intros E. pose proof (fence_key_journal c.(rc_network_id)) as Hj. by rewrite <- E, record_key_journal in Hj. }
  unfold load_payout_recovery_checkpoint. rewrite Hp. apply ewp_lift_bind; [|done]. intros _ _. apply ewp_bind.
  eapply ewp_get; [exact env_rows|apply head_key_valid|]. intros v1 (Hj1 & Eh1 & Ef1). fold (head_key p.(rp_network_id)).
  rewrite Eh1, Hh', <- Hn. rewrite (decode_head_of c Hi Hid Hw). apply ewp_lift_bind; [|done]. intros h [= <-].
  apply ewp_bind. apply (ewp_at_head bucket_credit_size env rows_kept env_rows). intros v2 (Hj2 & Eh2 & Ef2).
  assert (at_head bucket_credit_size p (head_of c) v2 = Ok c) as ->.
  { unfold at_head. rewrite (Hj2 _ _ _ (record_key_journal (head_of c)) (Hj1 _ _ _ (record_key_journal (head_of c)) Hr')).
    by apply accept_payload_complete. }
  apply ewp_bind. apply (ewp_fence env rows_kept env_rows). intros v3 (Hj3 & Eh3 & Ef3).
  rewrite Hn, Ef3, Ef2, Ef1, Hf', Hn. pose proof (installable_ok _ _ _ Hi) as Hok. unfold ok_PayoutRecoveryCheckpointV1 in Hok.
  destruct Hi as [(_ & (Hcoh & _)%validate_structure_ok & _)%canonical_payload_ok _]. destruct_and!.
  rewrite fence_result_complete; [|congruence|done|done]. by apply ewp_ret.
Qed.
End Reload.

(** ** Witnesses *)

Module RecoveryWitness.
#[local] Existing Instances low_digests low_digests_ok toy_ed25519 lower_hex_instance lower_hex_ok MemoryStore_laws.

Definition members : list SigningKey := [replicate 32 x31; replicate 32 x32; replicate 32 x33] : list bytes.
Definition policy : PayoutRecoveryCommitteePolicyV1 :=
  mkPayoutRecoveryCommitteePolicyV1 2 (replicate 32 x06) (replicate 32 x05) 2 (list_to_set (verifying_key <$> members)).
Definition fence : PayoutRecoverySourceFenceV1 :=
  mkPayoutRecoverySourceFenceV1 1 (replicate 32 x01) 1 (replicate 32 x02) 0 ZERO_HASH 0 ZERO_HASH.
Definition accumulator : SnapshotAccumulatorCheckpoint :=
  mkSnapshotAccumulatorCheckpoint 2 2 (replicate 32 x02) (to_be 64 10) (to_be 64 100) (replicate 32 x06) [] (to_be 64 0).
Definition unsigned (signer_set : SignatureSet) : PayoutRecoveryCheckpointV1 :=
  mkPayoutRecoveryCheckpointV1 CORE_V2 1 2 1 ZERO_HASH (replicate 32 x05) fence accumulator
    [mkExpectedPayoutPlanV1 1 (replicate 32 x02)] [] signer_set.
Definition seal (unsigned : SignatureSet → PayoutRecoveryCheckpointV1) : PayoutRecoveryCheckpointV1 :=
  unsigned match assemble_ed25519_set ((λ key, sign_certificate key 2 (unsigned empty_ed25519)) <$> take 2 members) with
           | Ok set => set
           | Err _ => empty_ed25519
           end.
Definition sealed : PayoutRecoveryCheckpointV1 := seal unsigned.
(** Its successor, and another checkpoint for the same number. *)
Definition next : PayoutRecoveryCheckpointV1 :=
  seal (mkPayoutRecoveryCheckpointV1 CORE_V2 1 2 2 (object_id sealed) (replicate 32 x05) fence accumulator
    [mkExpectedPayoutPlanV1 1 (replicate 32 x02)] []).
Definition fork : PayoutRecoveryCheckpointV1 :=
  seal (mkPayoutRecoveryCheckpointV1 CORE_V2 1 2 2 (replicate 32 x09) (replicate 32 x05) fence accumulator
    [mkExpectedPayoutPlanV1 1 (replicate 32 x02)] []).
Definition fenced : View := {[ fence_key 2 := encode_source_fence 2 fence ]}.
Definition fenced_store : MemoryStore :=
  (put PAYOUT_RECOVERY_SOURCE_FENCE_NAMESPACE (format_u64 2) (encode_source_fence 2 fence) (∅ : MemoryStore)).2.
Lemma fenced_represents : represents fenced_store fenced.
Proof. apply (mem_represents_insert ∅ ∅ mem_represents_empty). by vm_compute. Qed.
(** The store after the first of them. *)
Definition sealed_store : nat * MemoryStore := (persist_payout_recovery_checkpoint 208 alone sealed policy (0%nat, fenced_store)).2.

Lemma alone_rows (n : nat) (s : MemoryStore) (v : View) : represents s v → ∃ v', represents (alone n s) v' ∧ rows_kept policy v v'.
Proof. intros Hrep. exists v. split; [exact Hrep|reflexivity]. Qed.
Lemma alone_recovery (n : nat) (s : MemoryStore) (v : View) : represents s v → ∃ v', represents (alone n s) v' ∧ recovery_rely 208 policy v v'.
Proof. intros Hrep. exists v. split; [exact Hrep|reflexivity]. Qed.

(** The installed checkpoint is loaded, and is what the theorem says. *)
Lemma recovered_checkpoint_sound_witness :
  ∃ w v', load_payout_recovery_checkpoint 208 alone policy sealed_store = (Ok (Some sealed), w) ∧ represents w.2 v' ∧
    certified_by policy sealed ∧ restart_point 208 sealed ∧ v' !! fence_key 2 = Some (encode_source_fence 2 fence).
Proof.
  destruct (well_keyed_view sealed_store.2 ltac:(vm_compute; reflexivity)) as [v Hrep].
  destruct (recovered_checkpoint_sound 208 alone (rows_kept policy) alone_rows policy v sealed_store.1 sealed_store.2 Hrep)
    as (r & n' & s' & v' & E & Hrep' & Hr).
  rewrite <- surjective_pairing in E.
  assert (r = Ok (Some sealed)) as ->.
  { transitivity (load_payout_recovery_checkpoint 208 alone policy sealed_store).1; [rewrite E; reflexivity|vm_compute; reflexivity]. }
  exists (n', s'), v'. split; [exact E|]. split; [exact Hrep'|]. exact (Hr sealed eq_refl).
Defined.

Lemma checkpoint_persist_refines_witness :
  ewp (persist_payout_recovery_checkpoint 208 (S := MemoryStore) alone sealed policy) fenced
    (persist_result 208 journal_le policy sealed fenced).
Proof. exact (checkpoint_persist_refines 208 alone journal_le alone_journal (λ v v' H, H) policy sealed fenced). Defined.

(** A run: the first is installed and confirmed, the other second refused, the successor installed. *)
Lemma recovery_chain_linear_witness :
  ∃ w v new, persist_all 208 policy alone [sealed; sealed; fork; next] (0%nat, fenced_store) =
      ([Ok RecoveryCommitted; Ok AlreadyCurrent; Err RE_Sequence; Ok RecoveryCommitted], w) ∧
    chain_ok 208 policy v new ∧ sealed ∈ new ∧ next ∈ new ∧ rc_checkpoint_sequence <$> new = reverse (seqZ 1 (len new)) ∧ StronglySorted succeeds new.
Proof.
  assert (chain_ok 208 policy fenced []) as H0 by (split_and!; [by vm_compute|done|constructor]).
  destruct (recovery_chain_linear 208 policy alone alone_recovery [sealed; sealed; fork; next] 0%nat fenced_store fenced [] H0 fenced_represents)
    as (rs & k & s & v & new & E & _ & Hcs & Ha & Hs & Hl). rewrite app_nil_r in *.
  assert (rs = [Ok RecoveryCommitted; Ok AlreadyCurrent; Err RE_Sequence; Ok RecoveryCommitted]) as ->.
  { transitivity (persist_all 208 policy alone [sealed; sealed; fork; next] (0%nat, fenced_store)).1; [rewrite E; reflexivity|vm_compute; reflexivity]. }
  exists (k, s), v, new. rewrite !Forall2_cons in Ha. destruct Ha as (H1 & _ & _ & H2 & _). by split_and!.
Defined.

Lemma checkpoint_reloads_witness :
  ewp (persist_payout_recovery_checkpoint 208 (S := MemoryStore) alone sealed policy) fenced (λ r v', r = Ok RecoveryCommitted →
    ewp (load_payout_recovery_checkpoint 208 (S := MemoryStore) alone policy) v' (λ r' _, r' = Ok (Some sealed))).
Proof.
  apply (checkpoint_reloads 208 alone policy alone_rows sealed fenced); intros E; vm_compute in E; discriminate E.
Defined.
End RecoveryWitness.
