(* ===== verification/Bundle.v ===== *)
(** * Core assignment bundles (crates/meshmine-core-link/src/bundle.rs)

    The signed bundle that carries one complete mining context from the Core to an
    operator: its canonical encoding with the committee rosters in it, its
    validation, and the gateway job derived from it (with the gateway's job type,
    difficulty and job identifier, crates/meshmine-gateway/src/lib.rs). *)

From S2P Require Import Prelude Codec Hash Types Objects Header Target Merkle Storage Journal Crypto HandoffObjects Handoff Share Body.

#[local] Set Default Goal Selector "!".

Definition CORE_ASSIGNMENT_BUNDLE_V1 : Z := 1.
Definition MAX_CORE_ASSIGNMENT_BUNDLE_BYTES : Z := 8 * 1024 * 1024.
Definition MAX_BUNDLE_COMMITTEE_MEMBERS : Z := MAX_COMMITTEE_MEMBERS.

#[export] Instance CommitteeRoster_eq_dec : EqDecision CommitteeRoster.
Proof. solve_decision. Defined.

Record AssignmentReplacementV1 := mkAssignmentReplacementV1 {
  arp_previous_assignment_id : Hash256;
  arp_credit_cutoff_ms : Z;
  arp_previous_submission_end_ms : Z;
  arp_reason_code : Z;
}.
#[export] Instance AssignmentReplacementV1_eq_dec : EqDecision AssignmentReplacementV1.
Proof. solve_decision. Defined.

Record CoreAssignmentBundleV1 := mkCoreAssignmentBundleV1 {
  bu_bundle_version : Z;
  bu_network_id : Z;
  bu_bundle_sequence : Z;
  bu_previous_bundle_id : Hash256;
  bu_manifest : GatewayContextManifestV1;
  bu_assignment : GatewayAssignmentV1;
  bu_session : MaskSessionV2;
  bu_parent_certificate : SessionParentCertificateV2;
  bu_body : BlockBodyPackageV2;
  bu_descriptor : BodyErasureDescriptorV2;
  bu_body_certificate : BodyAvailabilityCertificateV2;
  bu_payout_bucket : PayoutBucketV2;
  bu_mask_roster : CommitteeRoster;
  bu_availability_roster : CommitteeRoster;
  bu_settlement_roster : CommitteeRoster;
  bu_advertised_difficulty : Z;
  bu_replacement : option AssignmentReplacementV1;
  bu_core_signature : SignatureBytes;
}.
#[export] Instance CoreAssignmentBundleV1_eq_dec : EqDecision CoreAssignmentBundleV1.
Proof. solve_decision. Defined.

(** The error of the gateway functions that a bundle uses. *)
Inductive GatewayError := InvalidDifficulty.

Inductive BundleError :=
| BE_Codec (e : CodecError)
| BE_Crypto (e : CryptoError)
| BE_Handoff (e : HandoffError)
| BE_Gateway (e : GatewayError)
| BE_Share (e : ShareError)
| BE_Body
| BE_Linkage (what : string).

(** ** Rosters in a bundle *)

Definition encode_roster (roster : CommitteeRoster) : Writer :=
  enc_u16 roster.(cr_protocol_version) >>>
  enc_u8 roster.(cr_network_id) >>>
  enc_u16 (role_code roster.(cr_role)) >>>
  enc_u64 roster.(cr_epoch) >>>
  enc_u16 roster.(cr_threshold) >>>
  enc_varint (Z.of_nat (size roster.(cr_members))) >>>
  enc_each enc_fixed (set_to_sorted roster.(cr_members)).

(** [match decoder.u16()? { 1 => CommitteeRole::Mask, .. }] *)
Definition role_of_code (code : Z) : result CodecError CommitteeRole :=
  if code =? 1 then Ok RoleMask
  else if code =? 2 then Ok RoleReceipt
  else if code =? 3 then Ok RoleAvailability
  else if code =? 4 then Ok RoleSettlement
  else Err (InvalidField "committee role").

(** [for _ in 0..count { if !members.insert(decoder.array()?) { .. } }] *)
Fixpoint dec_members (count : nat) (members : gset bytes) : parser (gset bytes) :=
  match count with
  | O => mret members
  | S count =>
      member ← dec_array 32;
      if bool_decide (member ∈ members) then pfail (InvalidField "duplicate committee member")
      else dec_members count ({[member]} ∪ members)
  end.

Definition decode_roster : parser CommitteeRoster :=
  protocol_version ← dec_u16;
  network_id ← dec_u8;
  code ← dec_u16;
  role ← plift (role_of_code code);
  epoch ← dec_u64;
  threshold ← dec_u16;
  count ← dec_length MAX_BUNDLE_COMMITTEE_MEMBERS;
  members ← dec_members (Z.to_nat count) ∅;
  mret (mkCommitteeRoster protocol_version network_id role epoch threshold members).

Definition ok_roster (limits : DecodeLimits) (roster : CommitteeRoster) : Prop :=
  uint 16 roster.(cr_protocol_version) ∧ uint 8 roster.(cr_network_id) ∧ uint 64 roster.(cr_epoch) ∧
  uint 16 roster.(cr_threshold) ∧
  item_count limits MAX_BUNDLE_COMMITTEE_MEMBERS (Z.of_nat (size roster.(cr_members))) ∧
  set_Forall (arr 32) roster.(cr_members).

#[export] Instance encode_roster_appends roster : Appends (encode_roster roster).
Proof. unfold encode_roster. apply _. Qed.

Lemma set_to_sorted_perm s : set_to_sorted s ≡ₚ elements s.
Proof. apply merge_sort_Permutation. Qed.
Lemma set_to_sorted_length s : length (set_to_sorted s) = size s.
Proof. by rewrite (set_to_sorted_perm s). Qed.
Lemma list_to_set_sorted s : list_to_set (set_to_sorted s) = s.
Proof. apply set_eq. intros x. rewrite elem_of_list_to_set, (set_to_sorted_perm s). apply elem_of_elements. Qed.

Lemma reads_members (limits : DecodeLimits) (l : list bytes) (members : gset bytes) :
  NoDup l → (∀ x, x ∈ l → x ∉ members) → Forall (arr 32) l →
  reads limits (dec_members (length l) members) (enc_each enc_fixed l) (list_to_set l ∪ members).
Proof.
  intros Hn. revert members. induction Hn as [|x l Hx _ IH]; intros members Hnew Hl; cbn [length dec_members].
  - rewrite list_to_set_nil, (left_id_L ∅ (∪)). apply reads_ret.
  - inversion_clear Hl as [|?? Hx32 Hl']. eapply (reads_ext _ _ (enc_fixed x >>> enc_each enc_fixed l)); [done|].
    eapply reads_bind; [apply _|by apply reads_array|]. rewrite bool_decide_eq_false_2 by (apply Hnew; set_solver).
    replace (list_to_set (x :: l) ∪ members : gset bytes) with (list_to_set l ∪ ({[x]} ∪ members) : gset bytes).
    2: { rewrite list_to_set_cons. set_solver. }
    apply IH; [|done]. intros y Hy. rewrite elem_of_union, elem_of_singleton. intros [->|Hm]; [done|].
    apply (Hnew y); [by apply elem_of_cons; right|done].
Qed.

Lemma role_of_code_role role : role_of_code (role_code role) = Ok role.
Proof. by destruct role. Qed.

Lemma reads_roster limits roster : ok_roster limits roster → reads limits decode_roster (encode_roster roster) roster.
Proof.
  intros (? & ? & ? & ? & Hcount & Hall). unfold decode_roster, encode_roster.
  assert (uint 16 (role_code roster.(cr_role))) by (by destruct roster.(cr_role)).
  do 3 (eapply reads_bind; [apply _|eauto with codec|]). eapply reads_bind_nil; [apply reads_plift, role_of_code_role|].
  do 2 (eapply reads_bind; [apply _|eauto with codec|]). eapply reads_bind; [apply _|by apply reads_length|].
  rewrite Nat2Z.id, <- set_to_sorted_length. eapply reads_bind_ret.
  - apply reads_members.
    + rewrite (set_to_sorted_perm roster.(cr_members)). apply NoDup_elements.
    + set_solver.
    + apply Forall_forall. intros x. rewrite (set_to_sorted_perm roster.(cr_members)), elem_of_elements. apply Hall.
  - intros d. unfold mret, parser_ret. rewrite (right_id_L ∅ (∪)), list_to_set_sorted. by destruct roster.
Qed.
#[export] Hint Resolve reads_roster : codec.

Lemma accepts_members (limits : DecodeLimits) (count : nat) (members : gset bytes) :
  set_Forall (arr 32) members →
  accepts limits (dec_members count members) (λ s _, set_Forall (arr 32) s ∧ size s = (size members + count)%nat).
Proof.
  revert members. induction count as [|count IH]; intros members Hm; cbn [dec_members].
  - apply accepts_ret. split; [done|lia].
  - eapply accepts_bind; [apply accepts_array|]. intros x bs [Hx ->]. case_bool_decide as Hin; [apply accepts_fail|].
    eapply accepts_mono; [apply IH|].
    + apply set_Forall_union; [by apply set_Forall_singleton|done].
    + intros s bs [Hs Hsize]. split; [done|]. rewrite Hsize, size_union, size_singleton by set_solver. lia.
Qed.
Lemma accepts_roster limits : accepts limits decode_roster (λ roster _, ok_roster limits roster).
Proof.
  unfold decode_roster. do 3 (eapply accepts_bind; [eauto with codec|]; intros ? ? [? ->]).
  eapply accepts_bind; [apply accepts_plift|]. intros role ? [_ ->]. do 2 (eapply accepts_bind; [eauto with codec|]; intros ? ? [? ->]).
  eapply accepts_bind; [apply accepts_length|]. intros count ? [Hc ->]. eapply accepts_bind; [by apply accepts_members|].
  intros s bs [Hs Hsize]. apply accepts_ret. rewrite size_empty in Hsize. split_and!; try done. cbn [cr_members].
  rewrite Hsize. replace (Z.of_nat (0 + Z.to_nat count)) with count; [done|]. destruct Hc as ((? & _) & _). lia.
Qed.

(** Members in any order are read as the same roster: the bytes of a roster are not unique. *)
Lemma roster_order_ignored :
  let members := [replicate 32 x02; replicate 32 x01] : list bytes in
  let roster := mkCommitteeRoster 2 1 RoleMask 7 2 (list_to_set members) in
  let reordered := into_bytes (enc_u16 2 >>> enc_u8 1 >>> enc_u16 1 >>> enc_u64 7 >>> enc_u16 2 >>> enc_varint 2 >>>
    enc_each enc_fixed members) in
  reordered ≠ into_bytes (encode_roster roster) ∧
  fst <$> decode_roster (at_pos DecodeLimits_default [] reordered) = Ok roster.
Proof. cbn zeta. split; [by vm_compute|]. vm_compute. done. Qed.

(** ** The bundle's encoding *)

Definition encode_replacement (replacement : AssignmentReplacementV1) : Writer :=
  enc_fixed replacement.(arp_previous_assignment_id) >>>
  enc_u64 replacement.(arp_credit_cutoff_ms) >>>
  enc_u64 replacement.(arp_previous_submission_end_ms) >>>
  enc_u16 replacement.(arp_reason_code).
Definition decode_replacement : parser AssignmentReplacementV1 :=
  previous_assignment_id ← dec_array 32;
  credit_cutoff_ms ← dec_u64;
  previous_submission_end_ms ← dec_u64;
  reason_code ← dec_u16;
  mret (mkAssignmentReplacementV1 previous_assignment_id credit_cutoff_ms previous_submission_end_ms reason_code).
Definition ok_replacement (r : AssignmentReplacementV1) : Prop :=
  arr 32 r.(arp_previous_assignment_id) ∧ uint 64 r.(arp_credit_cutoff_ms) ∧
  uint 64 r.(arp_previous_submission_end_ms) ∧ uint 16 r.(arp_reason_code).
#[export] Instance encode_replacement_appends r : Appends (encode_replacement r).
Proof. unfold encode_replacement. apply _. Qed.
Lemma reads_replacement limits r : ok_replacement r → reads limits decode_replacement (encode_replacement r) r.
Proof. intros (? & ? & ? & ?). unfold decode_replacement, encode_replacement. solve_reads. by destruct r. Qed.
#[export] Hint Resolve reads_replacement : codec.

Definition encode_unsigned_CoreAssignmentBundleV1 (o : CoreAssignmentBundleV1) : Writer :=
  enc_u16 o.(bu_bundle_version) >>>
  enc_u8 o.(bu_network_id) >>>
  enc_u64 o.(bu_bundle_sequence) >>>
  enc_fixed o.(bu_previous_bundle_id) >>>
  encode_GatewayContextManifestV1 o.(bu_manifest) >>>
  encode_GatewayAssignmentV1 o.(bu_assignment) >>>
  encode_MaskSessionV2 o.(bu_session) >>>
  encode_SessionParentCertificateV2 o.(bu_parent_certificate) >>>
  encode_BlockBodyPackageV2 o.(bu_body) >>>
  encode_BodyErasureDescriptorV2 o.(bu_descriptor) >>>
  encode_BodyAvailabilityCertificateV2 o.(bu_body_certificate) >>>
  encode_PayoutBucketV2 o.(bu_payout_bucket) >>>
  encode_roster o.(bu_mask_roster) >>>
  encode_roster o.(bu_availability_roster) >>>
  encode_roster o.(bu_settlement_roster) >>>
  enc_u32 o.(bu_advertised_difficulty) >>>
  encode_option o.(bu_replacement) encode_replacement.

#[export] Instance CoreAssignmentBundleV1_unsigned : UnsignedObject CoreAssignmentBundleV1 := {|
  DOMAIN_TAG := str "meshmine/core-assignment-bundle/v1";
  encode_unsigned := encode_unsigned_CoreAssignmentBundleV1;
|}.

Definition encode_CoreAssignmentBundleV1 (o : CoreAssignmentBundleV1) : Writer :=
  encode_unsigned_CoreAssignmentBundleV1 o >>> encode_SignatureBytes o.(bu_core_signature).

Section Decoding.
Context {digests : Digests}.

Definition decode_CoreAssignmentBundleV1 : parser CoreAssignmentBundleV1 :=
  bundle_version ← dec_u16;
  network_id ← dec_u8;
  bundle_sequence ← dec_u64;
  previous_bundle_id ← dec_array 32;
  manifest ← decode_GatewayContextManifestV1;
  assignment ← decode_GatewayAssignmentV1;
  session ← decode_MaskSessionV2;
  parent_certificate ← decode_SessionParentCertificateV2;
  body ← decode_BlockBodyPackageV2;
  descriptor ← decode_BodyErasureDescriptorV2;
  body_certificate ← decode_BodyAvailabilityCertificateV2;
  payout_bucket ← decode_PayoutBucketV2;
  mask_roster ← decode_roster;
  availability_roster ← decode_roster;
  settlement_roster ← decode_roster;
  advertised_difficulty ← dec_u32;
  replacement ← dec_option decode_replacement;
  core_signature ← decode_SignatureBytes;
  mret (mkCoreAssignmentBundleV1 bundle_version network_id bundle_sequence previous_bundle_id manifest assignment session
    parent_certificate body descriptor body_certificate payout_bucket mask_roster availability_roster settlement_roster
    advertised_difficulty replacement core_signature).

#[global] Instance CoreAssignmentBundleV1_codec : Codec CoreAssignmentBundleV1 := {|
  encode := encode_CoreAssignmentBundleV1;
  decode := decode_CoreAssignmentBundleV1;
|}.

(** A bundle that fits its Rust type and the limits. *)
Definition ok_bundle (limits : DecodeLimits) (o : CoreAssignmentBundleV1) : Prop :=
  uint 16 o.(bu_bundle_version) ∧ uint 8 o.(bu_network_id) ∧ uint 64 o.(bu_bundle_sequence) ∧
  arr 32 o.(bu_previous_bundle_id) ∧
  ok_GatewayContextManifestV1 limits o.(bu_manifest) ∧
  ok_GatewayAssignmentV1 limits o.(bu_assignment) ∧
  ok_MaskSessionV2 limits o.(bu_session) ∧
  ok_SessionParentCertificateV2 limits o.(bu_parent_certificate) ∧
  ok_BlockBodyPackageV2 limits o.(bu_body) ∧
  ok_BodyErasureDescriptorV2 limits o.(bu_descriptor) ∧
  ok_BodyAvailabilityCertificateV2 limits o.(bu_body_certificate) ∧
  ok_PayoutBucketV2 limits o.(bu_payout_bucket) ∧
  ok_roster limits o.(bu_mask_roster) ∧ ok_roster limits o.(bu_availability_roster) ∧
  ok_roster limits o.(bu_settlement_roster) ∧ uint 32 o.(bu_advertised_difficulty) ∧
  ok_option ok_replacement o.(bu_replacement) ∧ ok_sig limits o.(bu_core_signature).

#[global] Instance encode_bundle_appends o : Appends (encode_CoreAssignmentBundleV1 o).
Proof. unfold encode_CoreAssignmentBundleV1, encode_unsigned_CoreAssignmentBundleV1. apply _. Qed.

Lemma reads_bundle limits o : ok_bundle limits o → reads limits decode_CoreAssignmentBundleV1 (encode_CoreAssignmentBundleV1 o) o.
Proof.
  unfold ok_bundle. intros Hok. destruct_and!.
  unfold decode_CoreAssignmentBundleV1, encode_CoreAssignmentBundleV1, encode_unsigned_CoreAssignmentBundleV1.
  solve_reads. by destruct o.
Qed.

Lemma accepts_bundle limits : accepts limits decode_CoreAssignmentBundleV1 (λ o _, ok_bundle limits o).
Proof.
  unfold decode_CoreAssignmentBundleV1.
  do 12 (eapply accepts_bind; [solve [eauto with codec]|]; intros ? ? [? ->]).
  do 3 (eapply accepts_bind; [apply accepts_roster|]; intros ? ? ?). eapply accepts_bind; [eauto with codec|]; intros ? ? [? ->].
  eapply accepts_bind; [apply (accepts_option_ok _ _ encode_replacement ok_replacement)|].
  { unfold decode_replacement. solve_accepts. split; [done|]. unfold encode_replacement. by flatten_writers. }
  intros ? ? [? ->]. eapply accepts_bind; [eauto with codec|]; intros ? ? [? ->]. apply accepts_ret.
  unfold ok_bundle. cbn. by split_and!.
Qed.
(** A bundle that is decoded fits its type. *)
Lemma decoded_bundle_ok limits bs b :
  uint 64 limits.(max_object_bytes) → from_canonical_bytes bs limits = Ok b → ok_bundle limits b.
Proof.
  intros Hmax. unfold from_canonical_bytes, Decoder_new. destruct (Z.ltb_spec limits.(max_object_bytes) (len bs)) as [|Hle]; [done|].
  change (mbind ?f (Ok ?d)) with (f d). cbv beta. intros ([v d] & Hd & Hx)%bind_ok. apply bind_ok in Hx as (u & _ & [= ->]).
  unfold uint in Hmax. destruct (accepts_bundle limits [] bs b d) as (_ & _ & _ & _ & Hok); [rewrite app_nil_l; lia|done|done].
Qed.
End Decoding.
#[export] Hint Resolve reads_bundle : codec.

(** [from_canonical_bytes] of a type whose encodings are read back, canonical or not. *)
Lemma from_canonical_reads `{Codec A} limits (x : A) :
  uint 64 limits.(max_object_bytes) → reads limits decode (encode x) x →
  len (to_canonical_bytes x) ≤ limits.(max_object_bytes) → from_canonical_bytes (to_canonical_bytes x) limits = Ok x.
Proof.
  intros Hmax Hr Hlen. unfold from_canonical_bytes, Decoder_new, to_canonical_bytes, into_bytes in *.
  destruct (Z.ltb_spec limits.(max_object_bytes) (len (encode x []))); [lia|].
  change (mbind ?f (Ok ?d)) with (f d). cbv beta. specialize (Hr [] []). unfold at_pos in Hr.
  rewrite !app_nil_l, !app_nil_r in Hr. change (len []) with 0 in Hr. unfold uint in Hmax. rewrite Hr by lia. cbn.
  unfold dec_finish, dec_remaining. cbn. by rewrite Z.sub_diag.
Qed.

(** ** The gateway's side of a bundle *)

Record GatewayJob := mkGatewayJob {
  gj_id : bytes;
  gj_assignment_sequence : Z;
  gj_previous_block : Hash256;
  gj_merkle_root : Hash256;
  gj_witness_root : Hash256;
  gj_tree_root : Hash256;
  gj_reserved_root : Hash256;
  gj_version : Z;
  gj_bits : Z;
  gj_ntime : Z;
  gj_mask_hash : Hash256;
  gj_leading_zero_prefix_q : Z;
  gj_blind_band_bits_d : Z;
  gj_capture_target : Hash256;
  gj_advertised_device_target : Hash256;
  gj_advertised_difficulty : Z;
  gj_issued_ms : Z;
  gj_assignment_end_ms : Z;
  gj_submission_end_ms : Z;
  gj_transaction_hashes : list Hash256;
}.
Record PreviousJobTransition := mkPreviousJobTransition {
  pjt_job_id : bytes;
  pjt_credit_cutoff_ms : Z;
  pjt_submission_end_ms : Z;
}.

Definition MAX_HANDY_DIFFICULTY : Z := 67108863.
(** [[0xff; 32]] with its first three bytes zero, as a number. *)
Definition DIFF1_MAX : Z := 2 ^ 232 - 1.

Definition handy_target_from_difficulty (difficulty : Z) : result GatewayError Hash256 :=
  if (difficulty =? 0) || (MAX_HANDY_DIFFICULTY <? difficulty) then Err InvalidDifficulty
  else
    let target := DIFF1_MAX / difficulty in
    let effective := compact_to_target (target_to_compact target) in
    if effective <? 0 then Err InvalidDifficulty
    else
      let bs := to_bytes_be effective in
      if 32 <? len bs then Err InvalidDifficulty
      else Ok (replicate (32 - length bs) x00 ++ bs).

Definition gateway_assignment_job_id `{Digests, Hex} (assignment : GatewayAssignmentV1) : bytes :=
  hex_encode (object_id assignment).

(** ** Validation *)

Section Validation.
Context {digests : Digests} {ed : Ed25519}.

Definition check_bundle_versions (b : CoreAssignmentBundleV1) (pinned_core_pubkey : bytes) : result BundleError unit :=
  if negb (b.(bu_bundle_version) =? CORE_ASSIGNMENT_BUNDLE_V1)
     || negb (b.(bu_network_id) =? b.(bu_manifest).(gcm_network_id))
     || negb (b.(bu_network_id) =? b.(bu_assignment).(ga_network_id))
     || (b.(bu_bundle_sequence) =? 0)
     || negb (len b.(bu_core_signature) =? 64)
  then Err (BE_Linkage "bundle version, network, or sequence")
  else if negb (b.(bu_manifest).(gcm_core_protocol_version) =? CORE_V2)
     || negb (b.(bu_manifest).(gcm_handoff_version) =? GATEWAY_HANDOFF_V1)
     || negb (b.(bu_assignment).(ga_core_protocol_version) =? CORE_V2)
     || negb (b.(bu_assignment).(ga_handoff_version) =? GATEWAY_HANDOFF_V1)
     || negb (b.(bu_session).(ms_protocol_version) =? CORE_V2)
     || negb (b.(bu_parent_certificate).(spc_protocol_version) =? CORE_V2)
     || negb (b.(bu_body).(bbp_protocol_version) =? CORE_V2)
     || negb (b.(bu_descriptor).(bed_protocol_version) =? CORE_V2)
     || negb (b.(bu_body_certificate).(bac_protocol_version) =? CORE_V2)
     || negb (b.(bu_payout_bucket).(pb_protocol_version) =? CORE_V2)
  then Err (BE_Linkage "nested protocol version")
  else if bool_decide (b.(bu_manifest).(gcm_core_handoff_pubkey) ≠ pinned_core_pubkey)
     || bool_decide (b.(bu_assignment).(ga_core_handoff_pubkey) ≠ pinned_core_pubkey)
  then Err (BE_Linkage "pinned Core handoff identity")
  else Ok tt.

Definition check_bundle_identities (b : CoreAssignmentBundleV1) : result BundleError unit :=
  let body := b.(bu_body) in let core := body.(bbp_template_core) in
  let assignment := b.(bu_assignment) in let parent := b.(bu_parent_certificate) in
  if bool_decide (validation_result_hash body.(bbp_network_id) body.(bbp_template_core_id) body.(bbp_coinbase_raw)
                    body.(bbp_transactions_raw) ≠ body.(bbp_consensus_validation_result_hash))
  then Err (BE_Linkage "body validation commitment")
  else if bool_decide (assignment.(ga_session_id) ≠ object_id b.(bu_session))
     || bool_decide (assignment.(ga_body_package_id) ≠ object_id body)
     || bool_decide (assignment.(ga_body_certificate_id) ≠ object_id b.(bu_body_certificate))
     || bool_decide (b.(bu_session).(ms_parent_certificate_id) ≠ object_id parent)
     || bool_decide (b.(bu_session).(ms_parent_hash) ≠ parent.(spc_parent_hash))
     || bool_decide (core.(tc_hns_parent_hash) ≠ parent.(spc_parent_hash))
     || negb (core.(tc_hns_parent_height) =? parent.(spc_parent_height))
     || bool_decide (b.(bu_descriptor).(bed_body_package_id) ≠ object_id body)
     || bool_decide (b.(bu_body_certificate).(bac_descriptor_id) ≠ object_id b.(bu_descriptor))
     || bool_decide (b.(bu_body_certificate).(bac_parent_hash) ≠ parent.(spc_parent_hash))
     || negb (b.(bu_body_certificate).(bac_parent_height) =? parent.(spc_parent_height))
     || bool_decide (b.(bu_body_certificate).(bac_consensus_validation_result_hash) ≠
                     body.(bbp_consensus_validation_result_hash))
     || bool_decide (assignment.(ga_payout_bucket_id) ≠ object_id b.(bu_payout_bucket))
     || bool_decide (assignment.(ga_operator_pubkey) ≠ core.(tc_operator_pubkey))
     || bool_decide (assignment.(ga_operator_pubkey) ≠ b.(bu_payout_bucket).(pb_operator_pubkey))
     || bool_decide (assignment.(ga_gateway_pubkey) ≠ b.(bu_manifest).(gcm_gateway_pubkey))
     || bool_decide (assignment.(ga_core_handoff_pubkey) ≠ b.(bu_manifest).(gcm_core_handoff_pubkey))
  then Err (BE_Linkage "nested object identity")
  else if bool_decide (body.(bbp_template_core_id) ≠ object_id core) then Err (BE_Linkage "template core ID")
  else Ok tt.

(** [verify_object(..)?] and [roster.verify(..)?] *)
Definition bundle_verify {A} `{UnsignedObject A} (key : bytes) (signature : SignatureBytes) (network_id : Z) (object : A) :
    result BundleError unit :=
  map_err BE_Crypto (verify_object key ED25519_SUITE signature network_id object).

Definition check_bundle_signatures (b : CoreAssignmentBundleV1) : result BundleError unit :=
  let operator := b.(bu_assignment).(ga_operator_pubkey) in
  _ ← bundle_verify operator b.(bu_body).(bbp_operator_signature) b.(bu_network_id) b.(bu_body);
  _ ← bundle_verify operator b.(bu_assignment).(ga_operator_signature) b.(bu_network_id) b.(bu_assignment);
  bundle_verify operator b.(bu_payout_bucket).(pb_signature) b.(bu_network_id) b.(bu_payout_bucket).

Definition check_bundle_committees (b : CoreAssignmentBundleV1) : result BundleError unit :=
  if bool_decide (b.(bu_mask_roster).(cr_role) ≠ RoleMask)
     || bool_decide (roster_id b.(bu_mask_roster) ≠ b.(bu_session).(ms_mask_committee_id))
     || bool_decide (b.(bu_availability_roster).(cr_role) ≠ RoleAvailability)
     || bool_decide (b.(bu_settlement_roster).(cr_role) ≠ RoleSettlement)
  then Err (BE_Linkage "committee role or identity")
  else
    _ ← map_err BE_Share (roster_verify b.(bu_mask_roster) b.(bu_session).(ms_signer_set) b.(bu_session));
    _ ← map_err BE_Share (roster_verify b.(bu_availability_roster) b.(bu_body_certificate).(bac_signer_set)
          b.(bu_body_certificate));
    map_err BE_Share (roster_verify b.(bu_settlement_roster) b.(bu_parent_certificate).(spc_signer_set)
      b.(bu_parent_certificate)).

Definition check_bundle_targets (b : CoreAssignmentBundleV1) : result BundleError unit :=
  let session := b.(bu_session) in let core := b.(bu_body).(bbp_template_core) in
  if (session.(ms_assignment_end_ms) <? session.(ms_assignment_start_ms))
     || (session.(ms_submission_end_ms) <? session.(ms_assignment_end_ms))
     || (session.(ms_timed_open_after_ms) <? session.(ms_submission_end_ms))
     || (b.(bu_assignment).(ga_ntime) <? core.(tc_minimum_ntime))
     || bool_decide (b.(bu_assignment).(ga_capture_target) ≠ session.(ms_capture_target))
     || bytes_ltb b.(bu_assignment).(ga_edge_target) session.(ms_capture_target)
     || bool_decide (session.(ms_accounting_target) ≠ session.(ms_capture_target))
  then Err (BE_Linkage "session schedule or target")
  else
    capture ← map_err (λ _, BE_Linkage "capture profile")
      (derive_capture_parameters core.(tc_bits) session.(ms_blind_band_bits_d));
    if bool_decide (session.(ms_hns_network_target) ≠ capture.(cp_network_target))
       || negb (session.(ms_leading_zero_prefix_q) =? capture.(cp_leading_zero_prefix_q))
       || bool_decide (session.(ms_capture_target) ≠ capture.(cp_capture_target))
    then Err (BE_Linkage "capture profile")
    else
      target ← map_err BE_Gateway (handy_target_from_difficulty b.(bu_advertised_difficulty));
      if bool_decide (target ≠ b.(bu_assignment).(ga_edge_target)) then Err (BE_Linkage "HandyStratum difficulty")
      else Ok tt.

Definition check_bundle_bucket (b : CoreAssignmentBundleV1) : result BundleError unit :=
  assignment_height ← ok_or (checked_add 32 b.(bu_body).(bbp_template_core).(tc_hns_parent_height) 1)
    (BE_Linkage "assignment height");
  if (assignment_height <? b.(bu_payout_bucket).(pb_activation_height))
     || match b.(bu_payout_bucket).(pb_retirement_height) with
        | Some height => height <=? assignment_height
        | None => false
        end
  then Err (BE_Linkage "payout bucket activation") else Ok tt.

Definition check_bundle_replacement (b : CoreAssignmentBundleV1) : result BundleError unit :=
  let sequence := b.(bu_assignment).(ga_assignment_sequence) in
  match b.(bu_replacement) with
  | None =>
      if negb (sequence =? 1) then Err (BE_Linkage "replacement sequence")
      else if negb (b.(bu_bundle_sequence) =? 1) || bool_decide (b.(bu_previous_bundle_id) ≠ zero_hash)
      then Err (BE_Linkage "initial bundle sequence") else Ok tt
  | Some replacement =>
      if negb (1 <? sequence) then Err (BE_Linkage "replacement sequence")
      else if bool_decide (replacement.(arp_previous_assignment_id) = zero_hash)
         || bool_decide (replacement.(arp_previous_assignment_id) = object_id b.(bu_assignment))
         || (b.(bu_session).(ms_assignment_start_ms) <? replacement.(arp_credit_cutoff_ms))
         || (replacement.(arp_previous_submission_end_ms) <? replacement.(arp_credit_cutoff_ms))
         || bool_decide (b.(bu_previous_bundle_id) = zero_hash)
         || negb (b.(bu_bundle_sequence) =? sequence)
      then Err (BE_Linkage "replacement boundary") else Ok tt
  end.

Definition bundle_validate (b : CoreAssignmentBundleV1) (now_ms : Z) (pinned_core_pubkey : bytes) : result BundleError unit :=
  _ ← check_bundle_versions b pinned_core_pubkey;
  _ ← bundle_verify pinned_core_pubkey b.(bu_core_signature) b.(bu_network_id) b;
  _ ← map_err BE_Handoff (validate_context_manifest b.(bu_manifest) now_ms);
  _ ← map_err BE_Handoff (validate_gateway_assignment b.(bu_manifest) b.(bu_assignment));
  _ ← map_err (λ _, BE_Body) (validate_body_package b.(bu_body));
  _ ← check_bundle_identities b;
  _ ← check_bundle_signatures b;
  _ ← check_bundle_committees b;
  _ ← check_bundle_targets b;
  _ ← check_bundle_bucket b;
  check_bundle_replacement b.

Context {hexes : Hex}.

Definition gateway_job (b : CoreAssignmentBundleV1) : result BundleError GatewayJob :=
  let body := b.(bu_body) in let core := body.(bbp_template_core) in let session := b.(bu_session) in
  (* [u32::try_from] *)
  if 2 ^ 32 <=? b.(bu_assignment).(ga_ntime) then Err (BE_Linkage "assignment nTime")
  else Ok (mkGatewayJob (gateway_assignment_job_id b.(bu_assignment)) 0 session.(ms_parent_hash) body.(bbp_merkle_root)
    body.(bbp_witness_root) body.(bbp_tree_root) body.(bbp_reserved_root) core.(tc_block_version) core.(tc_bits)
    b.(bu_assignment).(ga_ntime) session.(ms_mask_hash) session.(ms_leading_zero_prefix_q) session.(ms_blind_band_bits_d)
    session.(ms_capture_target) b.(bu_assignment).(ga_edge_target) b.(bu_advertised_difficulty)
    session.(ms_assignment_start_ms) session.(ms_assignment_end_ms) session.(ms_submission_end_ms)
    core.(tc_ordered_non_coinbase_txids)).

Definition previous_job_transition (b : CoreAssignmentBundleV1) : option PreviousJobTransition :=
  (λ r, mkPreviousJobTransition (hex_encode r.(arp_previous_assignment_id)) r.(arp_credit_cutoff_ms)
    r.(arp_previous_submission_end_ms)) <$> b.(bu_replacement).
End Validation.
