(* ===== verification/Spool.v ===== *)
(** * The operator's capture spool (crates/meshmine-core-link/src/spool.rs)

    The operator keeps, next to its gateway, the bundles it accepted and a durable
    queue of signed capture envelopes: one per captured share, numbered without gaps per
    assignment, until the Core's receipt replaces it. The operations are clients of a
    store among other writers. The captured share itself and its identity are
    the gateway's (crates/meshmine-gateway/src/lib.rs). *)

From S2P Require Import Prelude Codec Hash Types Objects Header Target Merkle Storage Journal Crypto HandoffObjects Handoff Share Body Client Bundle.

#[local] Set Default Goal Selector "!".

Definition OPERATOR_BUNDLE_NAMESPACE : bytes := str "core-link-operator-bundle/v1".
Definition OPERATOR_ASSIGNMENT_INDEX_NAMESPACE : bytes := str "core-link-operator-assignment-index/v1".
Definition OPERATOR_CAPTURE_ENVELOPE_NAMESPACE : bytes := str "core-link-capture-envelope/v1".
Definition OPERATOR_CAPTURE_RECEIPT_NAMESPACE : bytes := str "core-link-capture-receipt/v1".
Definition OPERATOR_CAPTURE_SEQUENCE_NAMESPACE : bytes := str "core-link-capture-sequence/v1".
Definition OPERATOR_CAPTURE_CAPACITY_NAMESPACE : bytes := str "core-link-capture-capacity/v1".
Definition OPERATOR_CAPTURE_CAPACITY_KEY : bytes := str "pending".
Definition OPERATOR_DRAIN_NAMESPACE : bytes := str "core-link-assignment-drain/v1".
Definition OPERATOR_TRANSITION_NAMESPACE : bytes := str "core-link-assignment-transition/v1".
Definition MAX_OPERATOR_CAPTURE_RECORDS : Z := 100000.
Definition MAX_OPERATOR_CAPTURE_BYTES : Z := 512 * 1024 * 1024.

(** ** Captures *)

Inductive TelemetryLevel := StockAsic | ObservableController | RangeProgrammable | AuditableHardware.
(** [level as u8] *)
Definition telemetry_code (level : TelemetryLevel) : Z :=
  match level with StockAsic => 0 | ObservableController => 1 | RangeProgrammable => 2 | AuditableHardware => 3 end.

Record ForwardedCapture := mkForwardedCapture {
  fc_username : bytes;
  fc_job_id : bytes;
  fc_assignment_sequence : Z;
  fc_miner_header : MinerHeader;
  fc_raw_share_hash : Hash256;
  fc_received_ms : Z;
  fc_credit_eligible : bool;
  fc_telemetry_level : TelemetryLevel;
}.

Definition capture_work_key `{Digests} (capture : ForwardedCapture) : Hash256 :=
  let header := capture.(fc_miner_header) in
  domain_hash (str "meshmine/gateway-work/v2")
    (capture.(fc_job_id) ++ header.(mh_extra_nonce) ++ to_le 4 header.(mh_time) ++ to_le 4 header.(mh_nonce) ++
     capture.(fc_raw_share_hash)).

(** ** Rows *)

Record GatewaySequenceHeadV1 := mkGatewaySequenceHeadV1 {
  gsh_assignment_id : Hash256;
  gsh_sequence : Z;
  gsh_final_envelope_id : Hash256;
}.
#[export] Instance GatewaySequenceHeadV1_eq_dec : EqDecision GatewaySequenceHeadV1.
Proof. solve_decision. Defined.

Record OperatorCaptureCapacityV1 := mkOperatorCaptureCapacityV1 {
  pending_records : Z;
  pending_bytes : Z;
}.
Definition OperatorCaptureCapacityV1_default : OperatorCaptureCapacityV1 := mkOperatorCaptureCapacityV1 0 0.

Inductive SpoolError :=
| SP_Storage (e : StorageError)
| SP_Codec (e : CodecError)
| SP_Assignment
| SP_Conflict
| SequenceRace
| SP_Receipt
| SP_Capacity.

Definition SEQUENCE_HEAD_MAGIC : bytes := str "MMS8".
Definition encode_GatewaySequenceHeadV1 (o : GatewaySequenceHeadV1) : Writer :=
  enc_fixed SEQUENCE_HEAD_MAGIC >>>
  enc_fixed o.(gsh_assignment_id) >>>
  enc_u64 o.(gsh_sequence) >>>
  enc_fixed o.(gsh_final_envelope_id).
Definition check_head_magic (magic : bytes) : result CodecError unit :=
  if bool_decide (magic ≠ SEQUENCE_HEAD_MAGIC) then Err (InvalidField "gateway sequence magic") else Ok tt.
Definition decode_GatewaySequenceHeadV1 : parser GatewaySequenceHeadV1 :=
  magic ← dec_array 4;
  _ ← plift (check_head_magic magic);
  assignment_id ← dec_array 32;
  sequence ← dec_u64;
  final_envelope_id ← dec_array 32;
  mret (mkGatewaySequenceHeadV1 assignment_id sequence final_envelope_id).
#[export] Instance GatewaySequenceHeadV1_codec : Codec GatewaySequenceHeadV1 := {|
  encode := encode_GatewaySequenceHeadV1;
  decode := decode_GatewaySequenceHeadV1;
|}.

Definition ok_sequence_head (limits : DecodeLimits) (o : GatewaySequenceHeadV1) : Prop :=
  arr 32 o.(gsh_assignment_id) ∧ uint 64 o.(gsh_sequence) ∧ arr 32 o.(gsh_final_envelope_id).
#[export] Instance encode_GatewaySequenceHeadV1_appends o : Appends (encode_GatewaySequenceHeadV1 o).
Proof. unfold encode_GatewaySequenceHeadV1. apply _. Qed.
Lemma reads_sequence_head limits o :
  ok_sequence_head limits o → reads limits decode_GatewaySequenceHeadV1 (encode_GatewaySequenceHeadV1 o) o.
Proof.
  intros (? & ? & ?). assert (arr 4 SEQUENCE_HEAD_MAGIC) by done.
  unfold decode_GatewaySequenceHeadV1, encode_GatewaySequenceHeadV1. eapply reads_bind; [apply _|by apply reads_array|].
  eapply reads_bind_nil; [by apply (reads_plift _ _ tt)|]. solve_reads. by destruct o.
Qed.
Lemma accepts_sequence_head limits :
  accepts limits decode_GatewaySequenceHeadV1
    (λ o bs, ok_sequence_head limits o ∧ bs = encode_GatewaySequenceHeadV1 o []).
Proof.
  unfold decode_GatewaySequenceHeadV1. solve_accepts. unfold check_head_magic in Hvalid. case_bool_decide as E; [done|].
  subst. split; [done|]. unfold encode_GatewaySequenceHeadV1. by flatten_writers.
Qed.
#[export] Instance GatewaySequenceHeadV1_codec_laws : CodecLaws GatewaySequenceHeadV1 := {|
  codec_ok := ok_sequence_head;
  encode_appends := encode_GatewaySequenceHeadV1_appends;
  decode_encode := reads_sequence_head;
  decode_sound := accepts_sequence_head;
|}.

Definition encode_sequence_head (head : GatewaySequenceHeadV1) : bytes := to_canonical_bytes head.
Definition decode_sequence_head (bs : bytes) : result SpoolError GatewaySequenceHeadV1 :=
  map_err SP_Codec (from_canonical_bytes bs (mkDecodeLimits 80 0)).

Definition encode_capture_capacity (capacity : OperatorCaptureCapacityV1) : bytes :=
  to_le 8 capacity.(pending_records) ++ to_le 8 capacity.(pending_bytes).
Definition capacity_exceeded (capacity : OperatorCaptureCapacityV1) : bool :=
  (MAX_OPERATOR_CAPTURE_RECORDS <? capacity.(pending_records)) || (MAX_OPERATOR_CAPTURE_BYTES <? capacity.(pending_bytes)).
Definition decode_capture_capacity (bs : bytes) : result SpoolError OperatorCaptureCapacityV1 :=
  if negb (len bs =? 16) then Err SP_Conflict
  else
    let capacity := mkOperatorCaptureCapacityV1 (of_le (take 8 bs)) (of_le (drop 8 bs)) in
    if capacity_exceeded capacity then Err SP_Capacity else Ok capacity.

(** [format!("{sequence:020}")] *)
Definition assignment_sequence_key (sequence : Z) : bytes :=
  let digits := format_u64 sequence in replicate (20 - length digits) x30 ++ digits.

(** ** Checks *)

Definition ENVELOPE_LIMITS : DecodeLimits := mkDecodeLimits 4096 0.
Definition BUNDLE_LIMITS : DecodeLimits := mkDecodeLimits (8 * 1024 * 1024) 100000.

Definition validate_capture_matches (capture : ForwardedCapture) (envelope : GatewayCaptureEnvelopeV1) : result SpoolError unit :=
  let header := capture.(fc_miner_header) in
  if negb (envelope.(gce_ntime) =? header.(mh_time))
     || bool_decide (envelope.(gce_extra_nonce) ≠ header.(mh_extra_nonce))
     || negb (envelope.(gce_nonce) =? header.(mh_nonce))
     || bool_decide (envelope.(gce_raw_share_hash) ≠ capture.(fc_raw_share_hash))
  then Err SP_Conflict else Ok tt.

Definition validate_capture_context (capture : ForwardedCapture) (b : CoreAssignmentBundleV1) : result SpoolError unit :=
  let header := capture.(fc_miner_header) in
  let session := b.(bu_session) in let body := b.(bu_body) in
  if (capture.(fc_received_ms) <? session.(ms_assignment_start_ms))
     || (session.(ms_submission_end_ms) <? capture.(fc_received_ms))
     || bool_decide (header.(mh_prev_block) ≠ session.(ms_parent_hash))
     || bool_decide (header.(mh_mask_hash) ≠ session.(ms_mask_hash))
     || bool_decide (header.(mh_merkle_root) ≠ body.(bbp_merkle_root))
     || bool_decide (header.(mh_witness_root) ≠ body.(bbp_witness_root))
     || bool_decide (header.(mh_tree_root) ≠ body.(bbp_tree_root))
     || bool_decide (header.(mh_reserved_root) ≠ body.(bbp_reserved_root))
     || negb (header.(mh_version) =? body.(bbp_template_core).(tc_block_version))
     || negb (header.(mh_bits) =? body.(bbp_template_core).(tc_bits))
  then Err SP_Assignment else Ok tt.

Section Checks.
Context {digests : Digests} {hexes : Hex}.

Definition validate_capture_assignment (capture : ForwardedCapture) (assignment : GatewayAssignmentV1) :
    result SpoolError unit :=
  let header := capture.(fc_miner_header) in
  let nonce_offset := checked_sub header.(mh_nonce) assignment.(ga_nonce_start) in
  if negb (capture.(fc_assignment_sequence) =? assignment.(ga_assignment_sequence))
     || bool_decide (capture.(fc_job_id) ≠ hex_encode (object_id assignment))
     || negb (header.(mh_time) =? assignment.(ga_ntime))
     || negb (accepts_extra_nonce assignment header.(mh_extra_nonce))
     || match nonce_offset with
        | None => true
        | Some offset => (assignment.(ga_nonce_end) <? header.(mh_nonce)) || (assignment.(ga_nonce_stride) =? 0)
                         || negb (offset mod assignment.(ga_nonce_stride) =? 0)
        end
     || negb (telemetry_code capture.(fc_telemetry_level) =? assignment.(ga_telemetry_level))
     || bool_decide (mh_share_hash header ≠ capture.(fc_raw_share_hash))
     || bytes_ltb assignment.(ga_capture_target) capture.(fc_raw_share_hash)
  then Err SP_Assignment else Ok tt.
End Checks.

(** ** The spool *)

Record OperatorCaptureSpool `{Ed25519} := mkOperatorCaptureSpool {
  os_network_id : Z;
  os_gateway_signing_key : SigningKey;
  os_core_handoff_pubkey : bytes;
  os_connection_id : Hash256;
}.
#[global] Arguments OperatorCaptureSpool {_}.
#[global] Arguments mkOperatorCaptureSpool {_}.

Section Spool.
Context {digests : Digests} {ed : Ed25519} {hexes : Hex} {S : Type} `{!DurableStore S} (env : nat → S → S).
Context (spool : OperatorCaptureSpool).
Abbreviation spooled := (eclient (S := S) (E := SpoolError)).
Abbreviation call m := (ecall env SP_Storage m).
Abbreviation lift r := (elift (S := S) (E := SpoolError) r).

(** The keys that the bundle must be made for. *)
Definition foreign_bundle (b : CoreAssignmentBundleV1) : bool :=
  negb (b.(bu_network_id) =? spool.(os_network_id))
  || bool_decide (b.(bu_assignment).(ga_gateway_pubkey) ≠ verifying_key spool.(os_gateway_signing_key))
  || bool_decide (b.(bu_assignment).(ga_core_handoff_pubkey) ≠ spool.(os_core_handoff_pubkey))
  || negb (is_ok (verify_object spool.(os_core_handoff_pubkey) ED25519_SUITE b.(bu_core_signature) b.(bu_network_id) b)).

Definition persist_bundle (b : CoreAssignmentBundleV1) : spooled unit :=
  if foreign_bundle b then lift (Err SP_Assignment)
  else
    let bundle_id := object_id b in
    let bundle_key := hex_encode bundle_id in
    let assignment_key := assignment_sequence_key b.(bu_assignment).(ga_assignment_sequence) in
    let bs := to_canonical_bytes b in
    existing_bundle ← call (get OPERATOR_BUNDLE_NAMESPACE bundle_key);
    existing_index ← call (get OPERATOR_ASSIGNMENT_INDEX_NAMESPACE assignment_key);
    if bool_decide (existing_bundle = Some bs) && bool_decide (existing_index = Some bundle_id) then mret tt
    else if bool_decide (is_Some existing_bundle) || bool_decide (is_Some existing_index) then lift (Err SP_Conflict)
    else
      applied ← call (apply_batch_if_all
        [mkBatchCondition OPERATOR_BUNDLE_NAMESPACE bundle_key None;
         mkBatchCondition OPERATOR_ASSIGNMENT_INDEX_NAMESPACE assignment_key None]
        [BatchPut OPERATOR_BUNDLE_NAMESPACE bundle_key bs;
         BatchPut OPERATOR_ASSIGNMENT_INDEX_NAMESPACE assignment_key bundle_id]);
      if applied : bool then mret tt else lift (Err SequenceRace).

Definition bundle_for_sequence (sequence : Z) : spooled CoreAssignmentBundleV1 :=
  indexed ← call (get OPERATOR_ASSIGNMENT_INDEX_NAMESPACE (assignment_sequence_key sequence));
  bundle_id ← lift (ok_or indexed SP_Assignment);
  if negb (len bundle_id =? 32) then lift (Err SP_Conflict)
  else
    stored ← call (get OPERATOR_BUNDLE_NAMESPACE (hex_encode bundle_id));
    bs ← lift (ok_or stored SP_Assignment);
    b ← lift (map_err SP_Codec (from_canonical_bytes bs BUNDLE_LIMITS));
    if bool_decide (object_id b ≠ bundle_id)
       || bool_decide (to_canonical_bytes b ≠ bs)
       || negb (b.(bu_assignment).(ga_assignment_sequence) =? sequence)
       || foreign_bundle b
    then lift (Err SP_Conflict)
    else mret b.

Definition fresh_head (assignment_id : Hash256) : GatewaySequenceHeadV1 := mkGatewaySequenceHeadV1 assignment_id 0 zero_hash.
(** The head that a row stands for. *)
Definition current_head (assignment_id : Hash256) (row : option bytes) : result SpoolError GatewaySequenceHeadV1 :=
  match row with
  | None => Ok (fresh_head assignment_id)
  | Some bs => decode_sequence_head bs
  end.
Definition current_capacity (row : option bytes) : result SpoolError OperatorCaptureCapacityV1 :=
  match row with
  | Some bs => decode_capture_capacity bs
  | None => Ok OperatorCaptureCapacityV1_default
  end.

Definition unsigned_envelope (capture : ForwardedCapture) (b : CoreAssignmentBundleV1) (sequence : Z)
    (signature : SignatureBytes) : GatewayCaptureEnvelopeV1 :=
  let header := capture.(fc_miner_header) in
  mkGatewayCaptureEnvelopeV1 CORE_V2 GATEWAY_HANDOFF_V1 spool.(os_network_id) (object_id b.(bu_manifest))
    (object_id b.(bu_assignment)) (object_id b.(bu_session)) (verifying_key spool.(os_gateway_signing_key))
    spool.(os_core_handoff_pubkey) sequence spool.(os_connection_id) capture.(fc_received_ms) header.(mh_time)
    header.(mh_extra_nonce) header.(mh_nonce) capture.(fc_raw_share_hash) signature.
Definition signed_envelope (capture : ForwardedCapture) (b : CoreAssignmentBundleV1) (sequence : Z) : GatewayCaptureEnvelopeV1 :=
  unsigned_envelope capture b sequence
    (sign_object spool.(os_gateway_signing_key) spool.(os_network_id) (unsigned_envelope capture b sequence [])).

(** The room for one more envelope of the given size. *)
Definition grow_capacity (capacity : OperatorCaptureCapacityV1) (envelope_len : Z) : result SpoolError OperatorCaptureCapacityV1 :=
  records ← ok_or (checked_add 64 capacity.(pending_records) 1) SP_Capacity;
  total ← ok_or (checked_add 64 capacity.(pending_bytes) envelope_len) SP_Capacity;
  let next_capacity := mkOperatorCaptureCapacityV1 records total in
  if capacity_exceeded next_capacity then Err SP_Capacity else Ok next_capacity.

Definition prepare_envelope (capture : ForwardedCapture) : spooled GatewayCaptureEnvelopeV1 :=
  let work_key_hex := hex_encode (capture_work_key capture) in
  b ← bundle_for_sequence capture.(fc_assignment_sequence);
  _ ← lift (validate_capture_assignment capture b.(bu_assignment));
  _ ← lift (validate_capture_context capture b);
  stored ← call (get OPERATOR_CAPTURE_ENVELOPE_NAMESPACE work_key_hex);
  match stored with
  | Some bs =>
      envelope ← lift (map_err SP_Codec (from_canonical_bytes bs ENVELOPE_LIMITS));
      _ ← lift (validate_capture_matches capture envelope);
      mret envelope
  | None =>
      let assignment_id := object_id b.(bu_assignment) in
      let sequence_key := hex_encode assignment_id in
      existing_head ← call (get OPERATOR_CAPTURE_SEQUENCE_NAMESPACE sequence_key);
      current ← lift (current_head assignment_id existing_head);
      if bool_decide (current.(gsh_assignment_id) ≠ assignment_id) then lift (Err SP_Conflict)
      else
        next_sequence ← lift (ok_or (checked_add 64 current.(gsh_sequence) 1) SP_Capacity);
        let envelope := signed_envelope capture b next_sequence in
        let envelope_id := object_id envelope in
        let envelope_bytes := to_canonical_bytes envelope in
        existing_capacity ← call (get OPERATOR_CAPTURE_CAPACITY_NAMESPACE OPERATOR_CAPTURE_CAPACITY_KEY);
        capacity ← lift (current_capacity existing_capacity);
        next_capacity ← lift (grow_capacity capacity (len envelope_bytes));
        let next_head := mkGatewaySequenceHeadV1 assignment_id next_sequence envelope_id in
        applied ← call (apply_batch_if_all
          [mkBatchCondition OPERATOR_CAPTURE_SEQUENCE_NAMESPACE sequence_key existing_head;
           mkBatchCondition OPERATOR_CAPTURE_ENVELOPE_NAMESPACE work_key_hex None;
           mkBatchCondition OPERATOR_CAPTURE_CAPACITY_NAMESPACE OPERATOR_CAPTURE_CAPACITY_KEY existing_capacity]
          [BatchPut OPERATOR_CAPTURE_SEQUENCE_NAMESPACE sequence_key (encode_sequence_head next_head);
           BatchPut OPERATOR_CAPTURE_ENVELOPE_NAMESPACE work_key_hex envelope_bytes;
           BatchPut OPERATOR_CAPTURE_CAPACITY_NAMESPACE OPERATOR_CAPTURE_CAPACITY_KEY (encode_capture_capacity next_capacity)]);
        if applied : bool then mret envelope else lift (Err SequenceRace)
  end.

Definition shrink_capacity (capacity : OperatorCaptureCapacityV1) (envelope_len : Z) : result SpoolError OperatorCaptureCapacityV1 :=
  records ← ok_or (checked_sub capacity.(pending_records) 1) SP_Conflict;
  total ← ok_or (checked_sub capacity.(pending_bytes) envelope_len) SP_Conflict;
  Ok (mkOperatorCaptureCapacityV1 records total).

Definition record_receipt (work_key : Hash256) (envelope : GatewayCaptureEnvelopeV1) (receipt : GatewayCaptureReceiptV1) :
    spooled unit :=
  _ ← lift (map_err (λ _, SP_Receipt) (validate_capture_receipt envelope receipt));
  if bool_decide (receipt.(gcr_core_handoff_pubkey) ≠ spool.(os_core_handoff_pubkey))
     || negb (receipt.(gcr_network_id) =? spool.(os_network_id))
  then lift (Err SP_Receipt)
  else
    let key := hex_encode work_key in
    let receipt_bytes := to_canonical_bytes receipt in
    recorded ← call (get OPERATOR_CAPTURE_RECEIPT_NAMESPACE key);
    if bool_decide (recorded = Some receipt_bytes) then mret tt
    else
      let envelope_bytes := to_canonical_bytes envelope in
      found ← call (get OPERATOR_CAPTURE_ENVELOPE_NAMESPACE key);
      stored_envelope ← lift (ok_or found SP_Conflict);
      if bool_decide (stored_envelope ≠ envelope_bytes) then lift (Err SP_Conflict)
      else
        found_capacity ← call (get OPERATOR_CAPTURE_CAPACITY_NAMESPACE OPERATOR_CAPTURE_CAPACITY_KEY);
        existing_capacity ← lift (ok_or found_capacity SP_Conflict);
        capacity ← lift (decode_capture_capacity existing_capacity);
        next_capacity ← lift (shrink_capacity capacity (len envelope_bytes));
        applied ← call (apply_batch_if_all
          [mkBatchCondition OPERATOR_CAPTURE_RECEIPT_NAMESPACE key None;
           mkBatchCondition OPERATOR_CAPTURE_ENVELOPE_NAMESPACE key (Some envelope_bytes);
           mkBatchCondition OPERATOR_CAPTURE_CAPACITY_NAMESPACE OPERATOR_CAPTURE_CAPACITY_KEY (Some existing_capacity)]
          [BatchPut OPERATOR_CAPTURE_RECEIPT_NAMESPACE key receipt_bytes;
           BatchDelete OPERATOR_CAPTURE_ENVELOPE_NAMESPACE key;
           BatchPut OPERATOR_CAPTURE_CAPACITY_NAMESPACE OPERATOR_CAPTURE_CAPACITY_KEY (encode_capture_capacity next_capacity)]);
        if applied : bool then mret tt
        else
          now ← call (get OPERATOR_CAPTURE_RECEIPT_NAMESPACE key);
          if bool_decide (now = Some receipt_bytes) then mret tt else lift (Err SequenceRace).

(** [receipt] *)
Definition recorded_receipt (work_key : Hash256) : spooled (option GatewayCaptureReceiptV1) :=
  found ← call (get OPERATOR_CAPTURE_RECEIPT_NAMESPACE (hex_encode work_key));
  match found with
  | None => mret None
  | Some bs =>
      receipt ← lift (map_err SP_Codec (from_canonical_bytes bs ENVELOPE_LIMITS));
      mret (Some receipt)
  end.

Definition sequence_head (assignment_id : Hash256) : spooled GatewaySequenceHeadV1 :=
  row ← call (get OPERATOR_CAPTURE_SEQUENCE_NAMESPACE (hex_encode assignment_id));
  lift (current_head assignment_id row).

Definition PENDING_LIMITS : ScanLimits :=
  mkScanLimits MAX_OPERATOR_CAPTURE_RECORDS (16 * 1024) MAX_OPERATOR_CAPTURE_BYTES.
(** [for record in records] *)
Fixpoint count_pending (assignment_id : Hash256) (records : list NamespaceRecord) (pending : Z) : spooled Z :=
  match records with
  | [] => mret pending
  | record :: records =>
      recorded ← call (get OPERATOR_CAPTURE_RECEIPT_NAMESPACE record.(nr_key));
      if bool_decide (is_Some recorded) then count_pending assignment_id records pending
      else
        envelope ← lift (map_err SP_Codec
          (from_canonical_bytes (A := GatewayCaptureEnvelopeV1) record.(nr_value) ENVELOPE_LIMITS));
        if bool_decide (envelope.(gce_assignment_id) = assignment_id) then
          pending ← lift (ok_or (checked_add USIZE pending 1) SP_Capacity);
          count_pending assignment_id records pending
        else count_pending assignment_id records pending
  end.
Definition pending_for_assignment (assignment_id : Hash256) : spooled Z :=
  records ← call (scan_namespace OPERATOR_CAPTURE_ENVELOPE_NAMESPACE PENDING_LIMITS);
  count_pending assignment_id records 0.

Definition persist_drain_and_transition (drain : GatewayAssignmentDrainV1) (transition : GatewayAssignmentTransitionV1) :
    spooled unit :=
  let drain_key := hex_encode drain.(gad_assignment_id) in
  let transition_key := hex_encode transition.(gat_previous_assignment_id) in
  let drain_bytes := to_canonical_bytes drain in
  let transition_bytes := to_canonical_bytes transition in
  existing_drain ← call (get OPERATOR_DRAIN_NAMESPACE drain_key);
  existing_transition ← call (get OPERATOR_TRANSITION_NAMESPACE transition_key);
  if bool_decide (existing_drain = Some drain_bytes) && bool_decide (existing_transition = Some transition_bytes)
  then mret tt
  else if bool_decide (is_Some existing_drain) || bool_decide (is_Some existing_transition) then lift (Err SP_Conflict)
  else
    applied ← call (apply_batch_if_all
      [mkBatchCondition OPERATOR_DRAIN_NAMESPACE drain_key None;
       mkBatchCondition OPERATOR_TRANSITION_NAMESPACE transition_key None]
      [BatchPut OPERATOR_DRAIN_NAMESPACE drain_key drain_bytes;
       BatchPut OPERATOR_TRANSITION_NAMESPACE transition_key transition_bytes]);
    if applied : bool then mret tt else lift (Err SequenceRace).
End Spool.

(** ** Draining an assignment *)

Section Drain.
Context {digests : Digests} {ed : Ed25519}.

Definition drain_of (b : CoreAssignmentBundleV1) (head : GatewaySequenceHeadV1) (key : SigningKey) (drained_ms : Z)
    (signature : SignatureBytes) : GatewayAssignmentDrainV1 :=
  mkGatewayAssignmentDrainV1 CORE_V2 GATEWAY_HANDOFF_V1 b.(bu_network_id) (object_id b.(bu_manifest))
    (object_id b.(bu_assignment)) (verifying_key key) b.(bu_assignment).(ga_core_handoff_pubkey) head.(gsh_sequence)
    head.(gsh_final_envelope_id) drained_ms signature.
Definition transition_of (b next : CoreAssignmentBundleV1) (replacement : AssignmentReplacementV1) (head : GatewaySequenceHeadV1)
    (key : SigningKey) (signature : SignatureBytes) : GatewayAssignmentTransitionV1 :=
  mkGatewayAssignmentTransitionV1 CORE_V2 GATEWAY_HANDOFF_V1 b.(bu_network_id) (object_id next.(bu_manifest))
    (verifying_key key) next.(bu_assignment).(ga_core_handoff_pubkey) next.(bu_assignment).(ga_assignment_sequence)
    (object_id b.(bu_assignment)) (object_id next.(bu_assignment)) head.(gsh_sequence)
    replacement.(arp_credit_cutoff_ms) replacement.(arp_reason_code) signature.

Definition build_drain_and_transition (b next : CoreAssignmentBundleV1) (head : GatewaySequenceHeadV1)
    (gateway_signing_key : SigningKey) (drained_ms : Z) :
    result SpoolError (GatewayAssignmentDrainV1 * GatewayAssignmentTransitionV1) :=
  replacement ← ok_or next.(bu_replacement) SP_Assignment;
  if bool_decide (replacement.(arp_previous_assignment_id) ≠ object_id b.(bu_assignment))
     || bool_decide (head.(gsh_assignment_id) ≠ object_id b.(bu_assignment))
  then Err SP_Assignment
  else
    let drain := drain_of b head gateway_signing_key drained_ms in
    let transition := transition_of b next replacement head gateway_signing_key in
    Ok (drain (sign_object gateway_signing_key b.(bu_network_id) (drain [])),
        transition (sign_object gateway_signing_key b.(bu_network_id) (transition []))).
End Drain.
