(* ===== verification/LinkDemo.v ===== *)
(** * A concrete assignment, its successor and a capture

    Two signed bundles of one operator, gateway and Core, and a capture for the first
    of them, on which the theorems about the Core link are evaluated. *)

From S2P Require Import Prelude Codec Hash Types Objects Header Target Merkle Storage Journal Crypto HandoffObjects Handoff Share Body Client Bundle Spool.

#[local] Set Default Goal Selector "!".

Module LinkDemo.
#[local] Existing Instances low_digests toy_ed25519 lower_hex_instance.

Definition hash (b : byte) : Hash256 := replicate 32 b.
Definition operator : SigningKey := [x01].
Definition gateway : SigningKey := [x02].
Definition core : SigningKey := [x03].
Definition sign {T} `{UnsignedObject T} (key : SigningKey) (object : T) : SignatureBytes := sign_object key 2 object.
Definition members : list SigningKey := [[x31]; [x32]; [x33]].
Definition roster (role : CommitteeRole) : CommitteeRoster :=
  mkCommitteeRoster 2 2 role 1 2 (list_to_set (verifying_key <$> members)).
Definition profile : U256 * U256 := Eval vm_compute in
  match derive_capture_parameters 0x1925ae67 12 with
  | Ok p => (p.(cp_network_target), p.(cp_capture_target))
  | Err _ => ([], [])
  end.
Definition edge : U256 := Eval vm_compute in match handy_target_from_difficulty 1 with Ok t => t | Err _ => [] end.

Definition template : TemplateCoreV2 := Eval vm_compute in
  mkTemplateCoreV2 2 2 (hash x01) 100 (verifying_key operator) (hash x41) (hash x42) (hash x43) 1 [] [] [] 0 0x1925ae67 0 (hash x44).
Definition body : BlockBodyPackageV2 := Eval vm_compute in
  let unsigned := mkBlockBodyPackageV2 2 2 template (object_id template) [] [] (hash x06) (hash x05) (hash x07) (hash x04) 0 0 0 0 0 0 0 0
    (validation_result_hash 2 (object_id template) [] []) in
  unsigned (sign operator (unsigned [])).
Definition bucket : PayoutBucketV2 := Eval vm_compute in
  let unsigned := mkPayoutBucketV2 2 2 (verifying_key operator) 0 0 (replicate 20 x01) 50 None in
  unsigned (sign operator (unsigned [])).
Definition parent : SessionParentCertificateV2 := Eval vm_compute in
  let unsigned := mkSessionParentCertificateV2 2 2 (hash x01) 100 (hash x00) 0 0 zero_hash in
  unsigned (committee_sign members 2 (unsigned empty_ed25519)).
Definition descriptor : BodyErasureDescriptorV2 := Eval vm_compute in mkBodyErasureDescriptorV2 2 2 (object_id body) 0 1 1 1 (hash x46) 200 0.
Definition certificate : BodyAvailabilityCertificateV2 := Eval vm_compute in
  let unsigned := mkBodyAvailabilityCertificateV2 2 2 (object_id descriptor) (hash x01) 100 body.(bbp_consensus_validation_result_hash) 0 (hash x47) in
  unsigned (committee_sign members 2 (unsigned empty_ed25519)).
Definition session_of (network : Z) : MaskSessionV2 :=
  let unsigned := mkMaskSessionV2 2 network 0 0 (object_id parent) (hash x01) profile.1 profile.2 profile.2 46 12 (hash x50) (hash x48)
    (roster_id (roster RoleMask)) 0 100 900 1000 2000 zero_hash in
  unsigned (committee_sign members 2 (unsigned empty_ed25519)).
Definition session : MaskSessionV2 := Eval vm_compute in session_of 2.
Definition other_session : MaskSessionV2 := Eval vm_compute in session_of 3.

(** The manifests, assignments and bundles of the two assignments in a row. *)
Definition manifest_of (sequence : Z) (previous : Hash256) : GatewayContextManifestV1 :=
  let unsigned := mkGatewayContextManifestV1 2 1 2 sequence previous (verifying_key operator) (verifying_key gateway) (verifying_key core)
    0 1000000 4096 16 in
  unsigned (sign operator (unsigned [])).
Definition assignment_of (session : MaskSessionV2) (sequence : Z) : GatewayAssignmentV1 :=
  let unsigned := mkGatewayAssignmentV1 2 1 2 (object_id session) (object_id body) (object_id certificate) (verifying_key operator)
    (verifying_key gateway) (verifying_key core) (hash x14) (object_id bucket) sequence 1700000000 1 1 0 [x01; x02; x03; x04]
    [x00; x00; x00; x00] [xff; xff; xff; xff] 0 100 1 edge profile.2 0 in
  unsigned (sign operator (unsigned [])).
Definition bundle_of (session : MaskSessionV2) (sequence : Z) (previous : Hash256) (manifest : GatewayContextManifestV1)
    (replacement : option AssignmentReplacementV1) : CoreAssignmentBundleV1 :=
  let unsigned := mkCoreAssignmentBundleV1 1 2 sequence previous manifest (assignment_of session sequence) session parent body descriptor certificate
    bucket (roster RoleMask) (roster RoleAvailability) (roster RoleSettlement) 1 replacement in
  unsigned (sign core (unsigned [])).
Definition bundle1 : CoreAssignmentBundleV1 := Eval vm_compute in bundle_of session 1 zero_hash (manifest_of 1 zero_hash) None.
Definition bundle2 : CoreAssignmentBundleV1 := Eval vm_compute in
  bundle_of session 2 (object_id bundle1) (manifest_of 2 (object_id bundle1.(bu_manifest)))
    (Some (mkAssignmentReplacementV1 (object_id bundle1.(bu_assignment)) 90 950 0)).
(** A first bundle whose session is of another network. *)
Definition other_bundle : CoreAssignmentBundleV1 := Eval vm_compute in bundle_of other_session 1 zero_hash (manifest_of 1 zero_hash) None.

(** A proof of work that the gateway forwards. *)
Definition header : MinerHeader :=
  mkMinerHeader 7 1700000000 (hash x01) (hash x07) (hash x50) ([x01; x02; x03; x04] ++ [x00; x00; x00; x09] ++ replicate 16 x00)
    (hash x04) (hash x05) (hash x06) 0 0x1925ae67.
Definition capture_of (b : CoreAssignmentBundleV1) : ForwardedCapture :=
  mkForwardedCapture [] (gateway_assignment_job_id b.(bu_assignment)) 1 header (mh_share_hash header) 500 true StockAsic.
Definition capture : ForwardedCapture := Eval vm_compute in capture_of bundle1.
Definition other_capture : ForwardedCapture := Eval vm_compute in capture_of other_bundle.
Definition spool : OperatorCaptureSpool := mkOperatorCaptureSpool 2 gateway (verifying_key core) (hash x60).
Definition spooled : GatewayCaptureEnvelopeV1 := Eval vm_compute in signed_envelope spool capture bundle1 1.
Lemma spooled_signed : spooled = signed_envelope spool capture bundle1 1.
Proof. by vm_compute. Qed.
End LinkDemo.
