(* ===== verification/SpoolSafety.v ===== *)
(** * The capture spool: numbering, capacity and draining

    Every operation of the spool is one atomic step among other writers, or no step
    at all; after any run of its operations the numbers of an assignment are those of its
    pending envelopes and of its receipts, without gap or repetition, and the capacity
    row is the exact size of the queue; and what the operator counts before a drain. *)

From S2P Require Import Prelude Codec Hash Types Objects Header Target Merkle Storage Journal Crypto HandoffObjects Handoff Share Body Client Bundle Spool LinkDemo.

#[local] Set Default Goal Selector "!".

#[local] Instance Ok_inj {E A} : Inj (=) (=) (Ok (E := E) (A := A)).
Proof. by intros x y [= ->]. Qed.

(** ** Rows *)

Lemma capacity_roundtrip c :
  uint 64 c.(pending_records) → uint 64 c.(pending_bytes) → capacity_exceeded c = false →
  decode_capture_capacity (encode_capture_capacity c) = Ok c.
Proof.
  intros Hr Hb Hc. unfold decode_capture_capacity, encode_capture_capacity. autorewrite with len. unfold len. rewrite !to_le_length.
  cbn [Z.of_nat Z.add Z.eqb negb]. change (negb (Z.of_nat 8 + Z.of_nat 8 =? 16)) with false. cbv iota.
  rewrite take_app_length', drop_app_length' by (by rewrite to_le_length).
  unfold uint in *. change (2 ^ 64) with (256 ^ Z.of_nat 8) in *. rewrite !of_to_le by lia. destruct c. cbn in *. by rewrite Hc.
Qed.
Lemma decode_capacity_bounds bs c : decode_capture_capacity bs = Ok c → capacity_exceeded c = false ∧ 0 ≤ c.(pending_records) ∧ 0 ≤ c.(pending_bytes).
Proof.
  unfold decode_capture_capacity. destruct (negb _); [done|]. destruct (capacity_exceeded _) eqn:E; [done|]. intros [= <-].
  split; [done|]. split; apply of_le_range.
Qed.
Lemma capacity_exceeded_false c :
  capacity_exceeded c = false ↔ c.(pending_records) ≤ MAX_OPERATOR_CAPTURE_RECORDS ∧ c.(pending_bytes) ≤ MAX_OPERATOR_CAPTURE_BYTES.
Proof. unfold capacity_exceeded. by rewrite orb_false_iff, !Z.ltb_ge. Qed.

Lemma sequence_head_roundtrip h : ok_sequence_head (mkDecodeLimits 80 0) h → decode_sequence_head (encode_sequence_head h) = Ok h.
Proof.
  intros Hok. unfold decode_sequence_head, encode_sequence_head. rewrite from_canonical_complete; [done..|].
  unfold to_canonical_bytes, into_bytes, len. cbn [encode GatewaySequenceHeadV1_codec]. unfold encode_GatewaySequenceHeadV1.
  rewrite !wseq_nil by apply _. destruct Hok as (Ha & _ & Hf). unfold arr in Ha, Hf. unfold enc_fixed, enc_u64.
  rewrite !app_nil_l, !length_app, to_le_length, Ha, Hf. by vm_compute.
Qed.

Lemma current_head_range a row h : current_head a row = Ok h → 0 ≤ h.(gsh_sequence).
Proof.
  destruct row as [bs|]; cbn; [|by intros [= <-]]. intros ((_ & Hs & _) & _)%map_err_ok%from_canonical_sound; [|done]. apply Hs.
Qed.

(** ** The queue in the store *)

Section Rows.
Context {digests : Digests} {hexes : Hex}.
Definition envelope_key (k : bytes) : bytes * bytes := (OPERATOR_CAPTURE_ENVELOPE_NAMESPACE, k).
Definition receipt_key (k : bytes) : bytes * bytes := (OPERATOR_CAPTURE_RECEIPT_NAMESPACE, k).
Definition number_key (assignment_id : Hash256) : bytes * bytes := (OPERATOR_CAPTURE_SEQUENCE_NAMESPACE, hex_encode assignment_id).
Definition capacity_key : bytes * bytes := (OPERATOR_CAPTURE_CAPACITY_NAMESPACE, OPERATOR_CAPTURE_CAPACITY_KEY).

(** The encoded size of an envelope with an Ed25519 signature. *)
Definition ENVELOPE_BYTES : Z := 346.
Definition envelope_fits (e : GatewayCaptureEnvelopeV1) : Prop :=
  ok_GatewayCaptureEnvelopeV1 ENVELOPE_LIMITS e ∧ len (to_canonical_bytes e) = ENVELOPE_BYTES.
Definition receipt_fits (r : GatewayCaptureReceiptV1) : Prop :=
  ok_GatewayCaptureReceiptV1 ENVELOPE_LIMITS r ∧ len (to_canonical_bytes r) ≤ ENVELOPE_LIMITS.(max_object_bytes).

(** A map of objects as the rows of a namespace. *)
Definition stored_as {A} `{Codec A} (v : View) (ns : bytes) (m : gmap bytes A) : Prop :=
  ∀ k, v !! (ns, k) = to_canonical_bytes <$> m !! k.

(** The numbers of an assignment, each with the envelope it was given to. *)
Definition collected {A} (f : A → list (Z * Hash256)) (m : gmap bytes A) : list (Z * Hash256) := map_to_list m ≫= λ p, f p.2.
Definition pending_number (a : Hash256) (e : GatewayCaptureEnvelopeV1) : list (Z * Hash256) :=
  if bool_decide (e.(gce_assignment_id) = a) then [(e.(gce_gateway_sequence), object_id e)] else [].
Definition receipt_number (a : Hash256) (r : GatewayCaptureReceiptV1) : list (Z * Hash256) :=
  if bool_decide (r.(gcr_assignment_id) = a) then [(r.(gcr_receipt_sequence), r.(gcr_capture_envelope_id))] else [].
Definition numbers (a : Hash256) (pending : gmap bytes GatewayCaptureEnvelopeV1) (receipts : gmap bytes GatewayCaptureReceiptV1) :
    list (Z * Hash256) := collected (pending_number a) pending ++ collected (receipt_number a) receipts.

(** The numbers given out under a head: 1, 2, .. up to the head's, whose envelope it names. *)
Definition dense (h : GatewaySequenceHeadV1) (given : list (Z * Hash256)) : Prop :=
  given.*1 ≡ₚ seqZ 1 h.(gsh_sequence) ∧ 0 ≤ h.(gsh_sequence) ∧
  (if h.(gsh_sequence) =? 0 then h.(gsh_final_envelope_id) = zero_hash else (h.(gsh_sequence), h.(gsh_final_envelope_id)) ∈ given).

(** The queue: what is pending, what the Core has answered, and the rows that count them. *)
Record spool_holds (v : View) (pending : gmap bytes GatewayCaptureEnvelopeV1) (receipts : gmap bytes GatewayCaptureReceiptV1) : Prop := {
  sh_pending : stored_as v OPERATOR_CAPTURE_ENVELOPE_NAMESPACE pending;
  sh_receipts : stored_as v OPERATOR_CAPTURE_RECEIPT_NAMESPACE receipts;
  sh_fits : map_Forall (λ _, envelope_fits) pending;
  sh_receipts_fit : map_Forall (λ _, receipt_fits) receipts;
  sh_capacity : current_capacity (v !! capacity_key) =
    Ok (mkOperatorCaptureCapacityV1 (Z.of_nat (size pending)) (map_sum (λ e, len (to_canonical_bytes e)) pending));
  sh_numbers : ∀ a, ∃ h, current_head a (v !! number_key a) = Ok h ∧ h.(gsh_assignment_id) = a ∧
    dense h (numbers a pending receipts);
}.

(** ** Steps *)

(** An envelope [e] enters the queue under the work key [k]. *)
Definition envelope_step (k : bytes) (e : GatewayCaptureEnvelopeV1) (v v' : View) : Prop :=
  ∃ h c c', envelope_fits e ∧ v !! envelope_key k = None ∧
    current_head e.(gce_assignment_id) (v !! number_key e.(gce_assignment_id)) = Ok h ∧
    h.(gsh_assignment_id) = e.(gce_assignment_id) ∧ e.(gce_gateway_sequence) = h.(gsh_sequence) + 1 ∧
    current_capacity (v !! capacity_key) = Ok c ∧ grow_capacity c (len (to_canonical_bytes e)) = Ok c' ∧
    v' = <[capacity_key := encode_capture_capacity c']> (<[envelope_key k := to_canonical_bytes e]>
      (<[number_key e.(gce_assignment_id) := encode_sequence_head
          (mkGatewaySequenceHeadV1 e.(gce_assignment_id) e.(gce_gateway_sequence) (object_id e))]> v)).
(** The Core's receipt [r] replaces the envelope [e]. *)
Definition receipt_step (k : bytes) (e : GatewayCaptureEnvelopeV1) (r : GatewayCaptureReceiptV1) (v v' : View) : Prop :=
  ∃ bs c c', envelope_fits e ∧ receipt_fits r ∧ v !! receipt_key k = None ∧ v !! envelope_key k = Some (to_canonical_bytes e) ∧
    r.(gcr_assignment_id) = e.(gce_assignment_id) ∧ r.(gcr_receipt_sequence) = e.(gce_gateway_sequence) ∧
    r.(gcr_capture_envelope_id) = object_id e ∧
    v !! capacity_key = Some bs ∧ decode_capture_capacity bs = Ok c ∧ shrink_capacity c (len (to_canonical_bytes e)) = Ok c' ∧
    v' = <[capacity_key := encode_capture_capacity c']> (delete (envelope_key k) (<[receipt_key k := to_canonical_bytes r]> v)).
(** The rows of the queue. *)
Definition QUEUE_NAMESPACES : list bytes :=
  [OPERATOR_CAPTURE_ENVELOPE_NAMESPACE; OPERATOR_CAPTURE_RECEIPT_NAMESPACE; OPERATOR_CAPTURE_SEQUENCE_NAMESPACE;
   OPERATOR_CAPTURE_CAPACITY_NAMESPACE].
(** The queue is left alone. *)
Definition queue_kept (v v' : View) : Prop := ∀ ns k, ns ∈ QUEUE_NAMESPACES → v' !! (ns, k) = v !! (ns, k).
(** The queue when nothing was ever put in it. *)
Definition queue_empty (v : View) : Prop := ∀ ns k, ns ∈ QUEUE_NAMESPACES → v !! (ns, k) = None.

(** What a writer may do to the queue: keep it exact, lose no number and no receipt. *)
Definition spool_rely (v v' : View) : Prop :=
  (∀ pending receipts, spool_holds v pending receipts →
    ∃ pending' receipts', spool_holds v' pending' receipts' ∧ ∀ a, numbers a pending receipts ⊆ numbers a pending' receipts') ∧
  ∀ k x, v !! receipt_key k = Some x → v' !! receipt_key k = Some x.
#[export] Instance spool_rely_preorder : PreOrder spool_rely.
Proof.
  split; [intros v; split; [|done]; intros p r Hv; by exists p, r|]. intros v1 v2 v3 [H12 R12] [H23 R23]. split; [|auto].
  intros p r Hv. destruct (H12 p r Hv) as (p2 & r2 & Hv2 & Hn2). destruct (H23 p2 r2 Hv2) as (p3 & r3 & Hv3 & Hn3).
  exists p3, r3. split; [done|]. intros a x Hx. by apply Hn3, Hn2.
Qed.
#[export] Instance queue_kept_preorder : PreOrder queue_kept.
Proof. split; [by intros v|]. intros v1 v2 v3 H1 H2 ns k Hns. by rewrite H2, H1. Qed.
End Rows.

Lemma collected_insert {A} (f : A → list (Z * Hash256)) m k x :
  m !! k = None → collected f (<[k := x]> m) ≡ₚ f x ++ collected f m.
Proof. intros Hk. unfold collected. by rewrite map_to_list_insert. Qed.
Lemma collected_delete {A} (f : A → list (Z * Hash256)) m k x :
  m !! k = Some x → collected f m ≡ₚ f x ++ collected f (delete k m).
Proof. intros Hk. rewrite <- (insert_delete_id m k x Hk) at 1. apply collected_insert, lookup_delete_eq. Qed.

Section Invariant.
Context {digests : Digests} {digests_ok : DigestsOk} {hexes : Hex} {hex_ok : HexOk}.

Lemma stored_as_insert {A} `{Codec A} (v : View) (ns : bytes) (m : gmap bytes A) (k : bytes) (x : A) :
  stored_as v ns m → stored_as (<[(ns, k) := to_canonical_bytes x]> v) ns (<[k := x]> m).
Proof.
  intros Hm k'. destruct (decide (k' = k)) as [->|Hk]; [by rewrite !lookup_insert_eq|].
  rewrite !lookup_insert_ne by congruence. apply Hm.
Qed.
Lemma stored_as_delete {A} `{Codec A} (v : View) (ns : bytes) (m : gmap bytes A) (k : bytes) :
  stored_as v ns m → stored_as (delete (ns, k) v) ns (delete k m).
Proof.
  intros Hm k'. destruct (decide (k' = k)) as [->|Hk]; [by rewrite !lookup_delete_eq|].
  rewrite !lookup_delete_ne by congruence. apply Hm.
Qed.
Lemma stored_as_frame {A} `{Codec A} (v v' : View) (ns : bytes) (m : gmap bytes A) :
  (∀ k, v' !! (ns, k) = v !! (ns, k)) → stored_as v ns m → stored_as v' ns m.
Proof. intros Hv Hm k. rewrite Hv. apply Hm. Qed.

(** A row of another namespace is not touched. *)
Ltac other_row := repeat first [rewrite lookup_insert_ne by (intros [= ?]; done)|rewrite lookup_delete_ne by (intros [= ?]; done)].

Lemma number_key_inj a b : number_key a = number_key b → a = b.
Proof. intros [= E]. by apply hex_encode_inj. Qed.

Lemma dense_next h given id :
  dense h given → dense (mkGatewaySequenceHeadV1 h.(gsh_assignment_id) (h.(gsh_sequence) + 1) id) ((h.(gsh_sequence) + 1, id) :: given).
Proof.
  intros (Hp & Hn & _). unfold dense. cbn [gsh_sequence gsh_final_envelope_id fmap list_fmap fst]. split_and!.
  - rewrite Hp. rewrite seqZ_app by lia. rewrite (seqZ_cons (1 + _)) by lia. rewrite (seqZ_nil _ (Z.pred 1)) by lia.
    rewrite (Permutation_app_comm _ [_]). cbn. by rewrite Z.add_comm.
  - lia.
  - rewrite (proj2 (Z.eqb_neq _ 0)) by lia. apply elem_of_cons. by left.
Qed.
Lemma dense_perm h given given' : given ≡ₚ given' → dense h given → dense h given'.
Proof.
  intros Hg (Hp & Hn & Hl). split_and!; [by rewrite <- Hg|done|]. destruct (_ =? _); [done|]. by rewrite <- Hg.
Qed.

Lemma stored_none {A} `{Codec A} (v : View) (ns : bytes) (m : gmap bytes A) (k : bytes) :
  stored_as v ns m → v !! (ns, k) = None → m !! k = None.
Proof. intros Hm Hk. rewrite Hm in Hk. by apply fmap_None in Hk. Qed.
Lemma stored_envelope v pending k e :
  stored_as v OPERATOR_CAPTURE_ENVELOPE_NAMESPACE pending → map_Forall (λ _, envelope_fits) pending → envelope_fits e →
  v !! envelope_key k = Some (to_canonical_bytes e) → pending !! k = Some e.
Proof.
  intros Hm Hf [He Hl] Hk. unfold envelope_key in Hk. rewrite Hm in Hk. apply fmap_Some in Hk as (e' & Hk & E). rewrite Hk. f_equal.
  destruct (Hf k e' Hk) as [He' _]. symmetry. apply (to_canonical_inj ENVELOPE_LIMITS); [done|done| |done]. by rewrite Hl.
Qed.

Lemma object_id_length' {A} `{UnsignedObject A} (x : A) : arr 32 (object_id x).
Proof. apply domain_hash_length. Qed.

Lemma envelope_step_holds k e v v' pending receipts :
  spool_holds v pending receipts → envelope_step k e v v' → spool_holds v' (<[k := e]> pending) receipts.
Proof.
  intros Hv (h & c & c' & Hfit & Hnew & Hh & Ha & Hseq & Hc & Hgrow & ->). set (a := e.(gce_assignment_id)) in *.
  assert (pending !! k = None) as Hk by (by eapply stored_none; [apply Hv|]).
  split.
  - apply (stored_as_frame (<[envelope_key k := to_canonical_bytes e]> v)); [|by apply stored_as_insert, Hv].
    intros k'. unfold capacity_key, number_key. other_row. unfold envelope_key. destruct (decide (k = k')) as [->|].
    + by rewrite !lookup_insert_eq.
    + rewrite !lookup_insert_ne by congruence. by other_row.
  - apply (stored_as_frame v); [|apply Hv]. intros k'. unfold capacity_key, number_key, envelope_key. by other_row.
  - apply map_Forall_insert_2; [done|apply Hv].
  - apply Hv.
  - rewrite lookup_insert_eq. rewrite (sh_capacity _ _ _ Hv) in Hc. apply (inj Ok) in Hc as <-.
    unfold grow_capacity in Hgrow. apply bind_ok in Hgrow as (x & [-> Hx]%ok_or_ok%checked_add_some & Hgrow).
    apply bind_ok in Hgrow as (y & [-> Hy]%ok_or_ok%checked_add_some & Hgrow). cbn [pending_records pending_bytes] in *.
    destruct (capacity_exceeded _) eqn:Ex in Hgrow; [done|]. apply (inj Ok) in Hgrow as <-.
    assert (0 ≤ map_sum (λ e, len (to_canonical_bytes e)) pending) as H0.
    { apply sumZ_nonneg, Forall_fmap, Forall_true. intros ?. apply len_nonneg. }
    pose proof (len_nonneg (to_canonical_bytes e)).
    cbn [current_capacity]. rewrite capacity_roundtrip; [|unfold uint; cbn [pending_records pending_bytes]; lia..|done].
    rewrite map_sum_insert_new, map_size_insert_None by done. do 2 f_equal; lia.
  - intros b. destruct (decide (b = a)) as [->|Hb].
    + exists (mkGatewaySequenceHeadV1 a e.(gce_gateway_sequence) (object_id e)). split; [|split; [done|]].
      * unfold capacity_key, envelope_key, number_key. other_row. rewrite lookup_insert_eq. cbn [current_head].
        apply sequence_head_roundtrip. destruct Hfit as [Hok _]. unfold ok_GatewayCaptureEnvelopeV1 in Hok. destruct_and!.
        split_and!; [done..|]. apply object_id_length'.
      * destruct (sh_numbers _ _ _ Hv a) as (h' & Hh' & Ha' & Hd). rewrite Hh in Hh'. apply (inj Ok) in Hh' as <-.
        pose proof (dense_next _ _ (object_id e) Hd) as Hd'. rewrite Ha, <- Hseq in Hd'. eapply dense_perm; [|exact Hd'].
        unfold numbers. rewrite collected_insert by done. unfold pending_number at 2. by rewrite bool_decide_eq_true_2.
    + destruct (sh_numbers _ _ _ Hv b) as (h' & Hh' & Ha' & Hd). exists h'. split; [|split; [done|]].
      * rewrite <- Hh'. f_equal. unfold capacity_key, envelope_key. rewrite lookup_insert_ne by (intros [= ?]; done).
        rewrite lookup_insert_ne by (intros [= ?]; done). rewrite lookup_insert_ne; [done|]. by intros ?%number_key_inj.
      * eapply dense_perm; [|exact Hd]. unfold numbers. rewrite collected_insert by done. unfold pending_number at 2.
        by rewrite bool_decide_eq_false_2.
Qed.

Lemma receipt_step_holds k e r v v' pending receipts :
  spool_holds v pending receipts → receipt_step k e r v v' → spool_holds v' (delete k pending) (<[k := r]> receipts).
Proof.
  intros Hv (bs & c & c' & Hfit & Hrfit & Hnew & Hold & Hra & Hrs & Hri & Hbs & Hc & Hshrink & ->).
  assert (pending !! k = Some e) as Hk by (by eapply stored_envelope; [apply Hv|apply Hv|..]).
  assert (receipts !! k = None) as Hr by (by eapply stored_none; [apply Hv|]).
  split.
  - apply (stored_as_frame (delete (envelope_key k) v)); [|by apply stored_as_delete, Hv].
    intros k'. unfold capacity_key, receipt_key, envelope_key. rewrite lookup_insert_ne by (intros [= ?]; done).
    destruct (decide (k = k')) as [->|]; [by rewrite !lookup_delete_eq|]. rewrite !lookup_delete_ne by congruence. by other_row.
  - apply (stored_as_frame (<[receipt_key k := to_canonical_bytes r]> v)); [|by apply stored_as_insert, Hv].
    intros k'. unfold capacity_key, envelope_key. by other_row.
  - apply map_Forall_delete, Hv.
  - apply map_Forall_insert_2; [done|apply Hv].
  - rewrite lookup_insert_eq. pose proof (sh_capacity _ _ _ Hv) as Hcap. rewrite Hbs in Hcap. cbn [current_capacity] in Hcap.
    rewrite Hcap in Hc. apply (inj Ok) in Hc as <-. apply decode_capacity_bounds in Hcap as (Hx & H1 & H2).
    apply capacity_exceeded_false in Hx. cbn [pending_records pending_bytes] in *.
    unfold shrink_capacity in Hshrink. cbn [pending_records pending_bytes] in Hshrink.
    apply bind_ok in Hshrink as (x & Hx'%ok_or_ok & Hshrink). apply bind_ok in Hshrink as (y & Hy'%ok_or_ok & Hshrink).
    apply (inj Ok) in Hshrink as <-. unfold checked_sub in Hx', Hy'.
    destruct (Z.leb_spec 1 (Z.of_nat (size pending))); [|done]. destruct (Z.leb_spec (len (to_canonical_bytes e))
      (map_sum (λ e, len (to_canonical_bytes e)) pending)); [|done]. apply (inj Some) in Hx' as <-, Hy' as <-.
    pose proof (len_nonneg (to_canonical_bytes e)). unfold MAX_OPERATOR_CAPTURE_RECORDS, MAX_OPERATOR_CAPTURE_BYTES in Hx.
    cbn [current_capacity]. rewrite capacity_roundtrip; [|unfold uint; cbn [pending_records pending_bytes]; lia..|].
    + rewrite (map_sum_delete _ _ _ _ Hk). pose proof (map_size_delete k pending) as Hs. rewrite Hk in Hs. do 2 f_equal; lia.
    + apply capacity_exceeded_false. cbn [pending_records pending_bytes]. unfold MAX_OPERATOR_CAPTURE_RECORDS, MAX_OPERATOR_CAPTURE_BYTES. lia.
  - intros b. destruct (sh_numbers _ _ _ Hv b) as (h' & Hh' & Ha' & Hd). exists h'. split; [|split; [done|]].
    + rewrite <- Hh'. f_equal. unfold capacity_key, envelope_key, receipt_key, number_key. by other_row.
    + eapply dense_perm; [|exact Hd]. unfold numbers. rewrite collected_insert by done. rewrite (collected_delete _ _ _ _ Hk).
      unfold pending_number at 1, receipt_number at 2. rewrite Hra, Hrs, Hri. case_bool_decide; [|done].
      cbn [app]. by rewrite <- Permutation_middle.
Qed.

(** The rows determine what the queue holds. *)
Lemma stored_as_unique {A} `{Codec A, !CodecLaws A} (limits : DecodeLimits) (v : View) (ns : bytes) (m m' : gmap bytes A) :
  stored_as v ns m → stored_as v ns m' →
  map_Forall (λ _ x, codec_ok limits x ∧ len (to_canonical_bytes x) < 2 ^ 64) m →
  map_Forall (λ _ x, codec_ok limits x) m' → m = m'.
Proof.
  intros Hm Hm' Hok Hok'. apply map_eq. intros k. pose proof (Hm k) as Hk. rewrite (Hm' k) in Hk.
  destruct (m !! k) as [x|] eqn:Ex, (m' !! k) as [x'|] eqn:Ex'; try done. cbn in Hk. f_equal. injection Hk as Hk.
  destruct (Hok k x Ex) as [? ?]. apply (to_canonical_inj limits); [done|by apply (Hok' k x' Ex')|done|done].
Qed.
Lemma spool_holds_unique v pending receipts pending' receipts' :
  spool_holds v pending receipts → spool_holds v pending' receipts' → pending = pending' ∧ receipts = receipts'.
Proof.
  intros Hv Hv'. split; (eapply (stored_as_unique ENVELOPE_LIMITS); [apply Hv|apply Hv'|..]).
  - intros k e He. destruct (sh_fits _ _ _ Hv k e He) as [? ->]. by split.
  - intros k e He. by destruct (sh_fits _ _ _ Hv' k e He).
  - intros k r Hr. destruct (sh_receipts_fit _ _ _ Hv k r Hr) as [? Hl]. split; [done|]. unfold ENVELOPE_LIMITS in Hl. cbn [max_object_bytes] in Hl. lia.
  - intros k r Hr. by destruct (sh_receipts_fit _ _ _ Hv' k r Hr).
Qed.

Lemma queue_kept_holds v v' pending receipts : queue_kept v v' → spool_holds v pending receipts → spool_holds v' pending receipts.
Proof.
  intros Hkept Hv. split; try apply Hv.
  - eapply stored_as_frame; [|apply Hv]. intros k. apply Hkept. set_solver.
  - eapply stored_as_frame; [|apply Hv]. intros k. apply Hkept. set_solver.
  - rewrite <- (sh_capacity _ _ _ Hv). unfold capacity_key. rewrite Hkept; [done|set_solver].
  - intros a. destruct (sh_numbers _ _ _ Hv a) as (h & Hh & ?). exists h. split; [|done]. rewrite <- Hh. unfold number_key. rewrite Hkept; [done|set_solver].
Qed.

(** Every kind of step is one that a writer may take. *)
Lemma queue_kept_rely v v' : queue_kept v v' → spool_rely v v'.
Proof.
  intros Hkept. split.
  - intros p r Hv. exists p, r. split; [by eapply queue_kept_holds|done].
  - intros k x Hx. unfold receipt_key. rewrite Hkept; [done|set_solver].
Qed.
Lemma envelope_step_rely k e v v' : envelope_step k e v v' → spool_rely v v'.
Proof.
  intros Hs. split.
  - intros p r Hv. eexists _, _. split; [by eapply envelope_step_holds|]. intros a. destruct Hs as (h & c & c' & _ & Hnew & _).
    assert (p !! k = None) as Hk by (by eapply stored_none; [apply Hv|]).
    unfold numbers. rewrite collected_insert by done. set_solver.
  - intros k' x Hx. destruct Hs as (h & c & c' & _ & _ & _ & _ & _ & _ & _ & ->). unfold capacity_key, envelope_key, number_key, receipt_key in *. by other_row.
Qed.
Lemma receipt_step_rely k e r v v' : receipt_step k e r v v' → spool_rely v v'.
Proof.
  intros Hs. split.
  - intros p rs Hv. eexists _, _. split; [by eapply receipt_step_holds|]. intros a.
    destruct Hs as (bs & c & c' & Hfit & _ & Hnew & Hold & Hra & Hrs & Hri & _).
    assert (p !! k = Some e) as Hk by (by eapply stored_envelope; [apply Hv|apply Hv|..]).
    assert (rs !! k = None) as Hr by (by eapply stored_none; [apply Hv|]).
    unfold numbers. rewrite collected_insert by done. rewrite (collected_delete _ _ _ _ Hk).
    unfold pending_number at 1, receipt_number at 2. rewrite Hra, Hrs, Hri. set_solver.
  - intros k' x Hx. destruct Hs as (bs & c & c' & _ & _ & Hnew & _ & _ & _ & _ & _ & _ & _ & ->).
    unfold capacity_key, envelope_key. other_row. rewrite lookup_insert_ne; [done|]. intros [= ->]. unfold receipt_key in *. congruence.
Qed.

Lemma capacity_within (v : View) c : current_capacity (v !! capacity_key) = Ok c →
  c.(pending_records) ≤ MAX_OPERATOR_CAPTURE_RECORDS ∧ c.(pending_bytes) ≤ MAX_OPERATOR_CAPTURE_BYTES.
Proof.
  unfold current_capacity. destruct (v !! capacity_key) as [bs|]; [|by intros [= <-]].
  intros (Hx & _)%decode_capacity_bounds. by apply capacity_exceeded_false.
Qed.

Lemma spool_holds_empty (v : View) : queue_empty v → spool_holds v ∅ ∅.
Proof.
  intros H0. unfold queue_empty in H0. split.
  - intros k. rewrite H0 by set_solver. by rewrite lookup_empty.
  - intros k. rewrite H0 by set_solver. by rewrite lookup_empty.
  - apply map_Forall_empty.
  - apply map_Forall_empty.
  - unfold capacity_key. rewrite H0 by set_solver. cbn [current_capacity]. by rewrite map_sum_empty, map_size_empty.
  - intros a. exists (fresh_head a). unfold number_key. rewrite H0 by set_solver. split; [done|]. split; [done|].
    unfold numbers, collected. rewrite !map_to_list_empty. split_and!; done.
Qed.

End Invariant.

(** ** The operations as steps *)

Section Operations.
Context {digests : Digests} {digests_ok : DigestsOk} {ed : Ed25519} {ed_ok : Ed25519Ok} {hexes : Hex} {hex_ok : HexOk}.

(** The values of the Rust types. *)
Definition capture_ok (c : ForwardedCapture) : Prop :=
  uint 64 c.(fc_miner_header).(mh_time) ∧ arr 24 c.(fc_miner_header).(mh_extra_nonce) ∧ uint 32 c.(fc_miner_header).(mh_nonce) ∧
  arr 32 c.(fc_raw_share_hash) ∧ uint 64 c.(fc_received_ms).
Definition spool_ok (s : OperatorCaptureSpool) : Prop :=
  uint 8 s.(os_network_id) ∧ arr 32 s.(os_core_handoff_pubkey) ∧ arr 32 s.(os_connection_id).

Lemma signed_envelope_fits s capture b sequence :
  spool_ok s → capture_ok capture → uint 64 sequence → envelope_fits (signed_envelope s capture b sequence).
Proof.
  intros (Hn & Hc & Hi) (Ht & Hx & Hnonce & Hraw & Hms) Hseq. unfold signed_envelope.
  set (sig := sign_object _ _ _). assert (length sig = 64%nat) as Hsig by apply ed_sign_length.
  assert (len sig = 64) as Hl by (unfold len; by rewrite Hsig).
  split.
  - unfold ok_GatewayCaptureEnvelopeV1. cbn [unsigned_envelope gce_core_protocol_version gce_handoff_version gce_network_id
      gce_context_manifest_id gce_assignment_id gce_session_id gce_gateway_pubkey gce_core_handoff_pubkey gce_gateway_sequence
      gce_gateway_connection_id gce_gateway_received_ms gce_ntime gce_extra_nonce gce_nonce gce_raw_share_hash gce_gateway_signature].
    split_and!; try done; try apply object_id_length'; [apply verifying_key_length|]. unfold ok_sig, byte_count. by rewrite Hl.
  - unfold to_canonical_bytes, into_bytes. cbn [encode GatewayCaptureEnvelopeV1_codec].
    unfold encode_GatewayCaptureEnvelopeV1, encode_unsigned_GatewayCaptureEnvelopeV1, encode_SignatureBytes, enc_bytes.
    rewrite !wseq_nil by apply _. cbn [unsigned_envelope gce_core_protocol_version gce_handoff_version gce_network_id
      gce_context_manifest_id gce_assignment_id gce_session_id gce_gateway_pubkey gce_core_handoff_pubkey gce_gateway_sequence
      gce_gateway_connection_id gce_gateway_received_ms gce_ntime gce_extra_nonce gce_nonce gce_raw_share_hash gce_gateway_signature].
    rewrite Hl. unfold enc_u16, enc_u8, enc_u64, enc_u32, enc_fixed, len. rewrite !app_nil_l, !length_app, !to_le_length.
    rewrite (object_id_length' b.(bu_manifest)), (object_id_length' b.(bu_assignment)), (object_id_length' b.(bu_session)).
    unfold arr in *. rewrite verifying_key_length, Hc, Hi, Hx, Hraw, Hsig. by vm_compute.
Qed.

Context {S : Type} `{!DurableStore S, !DurableStoreLaws S} (env : nat → S → S) (R : relation View) `{!PreOrder R}.
Hypothesis env_R : ∀ n s v, represents s v → ∃ v', represents (env n s) v' ∧ R v v'.
Context (spool : OperatorCaptureSpool) (spool_fits : spool_ok spool).

Lemma hex_row_valid ns k : bool_decide (x00 ∈ ns) = false → valid_key (ns, hex_encode k) = true.
Proof. intros Hns%bool_decide_eq_false. apply valid_key_spec. split; [done|apply hex_encode_nul]. Qed.
Lemma index_row_valid sequence : valid_key (OPERATOR_ASSIGNMENT_INDEX_NAMESPACE, assignment_sequence_key sequence) = true.
Proof.
  apply valid_key_spec. split; [by apply (bool_decide_eq_false (x00 ∈ OPERATOR_ASSIGNMENT_INDEX_NAMESPACE))|].
  unfold assignment_sequence_key, format_u64. rewrite not_elem_of_app. split.
  - intros [? _]%elem_of_replicate. done.
  - rewrite elem_of_reverse. by apply decimal_digits_not_in.
Qed.

Lemma queue_rows_valid a k w expected1 expected2 expected3 x1 x2 x3 :
  batch_keys_valid
    [mkBatchCondition OPERATOR_CAPTURE_SEQUENCE_NAMESPACE (hex_encode a) expected1;
     mkBatchCondition OPERATOR_CAPTURE_ENVELOPE_NAMESPACE (hex_encode k) expected2;
     mkBatchCondition OPERATOR_CAPTURE_CAPACITY_NAMESPACE OPERATOR_CAPTURE_CAPACITY_KEY expected3]
    [BatchPut OPERATOR_CAPTURE_SEQUENCE_NAMESPACE (hex_encode a) x1; BatchPut OPERATOR_CAPTURE_ENVELOPE_NAMESPACE (hex_encode w) x2;
     BatchPut OPERATOR_CAPTURE_CAPACITY_NAMESPACE OPERATOR_CAPTURE_CAPACITY_KEY x3] = true.
Proof.
  change (forallb valid_key [number_key a; envelope_key (hex_encode k); capacity_key] &&
    forallb valid_key [number_key a; envelope_key (hex_encode w); capacity_key] = true).
  cbn [forallb]. unfold number_key, envelope_key. by rewrite !hex_row_valid.
Qed.

(** A bundle that the spool accepts from its store. *)
Definition installed_bundle (sequence : Z) (b : CoreAssignmentBundleV1) : Prop :=
  foreign_bundle spool b = false ∧ b.(bu_assignment).(ga_assignment_sequence) = sequence ∧
  from_canonical_bytes (to_canonical_bytes b) BUNDLE_LIMITS = Ok b.

Lemma ewp_bundle sequence v (Φ : result SpoolError CoreAssignmentBundleV1 → View → Prop) :
  (∀ v1 b, R v v1 → installed_bundle sequence b → Φ (Ok b) v1) → (∀ v1 e, R v v1 → Φ (Err e) v1) →
  ewp (bundle_for_sequence env spool sequence) v Φ.
Proof.
  intros Hok Herr. unfold bundle_for_sequence. apply ewp_bind. eapply ewp_get; [exact env_R|apply index_row_valid|]. intros v1 H1.
  apply ewp_lift_bind; [|auto]. intros id _. destruct (negb _); [apply ewp_lift; auto|].
  apply ewp_bind. eapply ewp_get; [exact env_R|by apply hex_row_valid|]. intros v2 H2. assert (R v v2) as H by (exact (transitivity H1 H2)).
  apply ewp_lift_bind; [|auto]. intros bs _. apply ewp_lift_bind; [|auto]. intros b Hb%map_err_ok.
  destruct (_ || _) eqn:E; [apply ewp_lift; auto|]. rewrite !orb_false_iff, negb_false_iff in E.
  destruct E as [[[_ Ec%bool_decide_eq_false%dec_stable] Es%Z.eqb_eq] Ef]. apply ewp_ret, Hok; [done|]. split_and!; [done..|]. by rewrite Ec.
Qed.

(** What a call to prepare the envelope of a capture means: an envelope that was already
    pending for this work, or one atomic step that numbers a new one. *)
Definition prepare_result (capture : ForwardedCapture) (v : View) (r : result SpoolError GatewayCaptureEnvelopeV1) (v' : View) : Prop :=
  let k := hex_encode (capture_work_key capture) in
  match r with
  | Ok e => ∃ b, installed_bundle capture.(fc_assignment_sequence) b ∧
      validate_capture_assignment capture b.(bu_assignment) = Ok tt ∧ validate_capture_context capture b = Ok tt ∧
      ((R v v' ∧ v' !! envelope_key k = Some (to_canonical_bytes e) ∧ ok_GatewayCaptureEnvelopeV1 ENVELOPE_LIMITS e ∧
          validate_capture_matches capture e = Ok tt) ∨
       (∃ v1, R v v1 ∧ envelope_step k e v1 v' ∧ e = signed_envelope spool capture b e.(gce_gateway_sequence)))
  | Err _ => R v v'
  end.

Lemma prepare_envelope_spec capture v :
  capture_ok capture → ewp (prepare_envelope env spool capture) v (prepare_result capture v).
Proof.
  intros Hcap. unfold prepare_envelope. apply ewp_bind, ewp_bundle; [|by intros]. intros v1 b H1 Hb.
  apply ewp_lift_bind; [|done]. intros [] Ha. apply ewp_lift_bind; [|done]. intros [] Hx.
  apply ewp_bind. eapply ewp_get; [exact env_R|by apply hex_row_valid|]. intros v2 H2. assert (R v v2) as Hv2 by (exact (transitivity H1 H2)).
  destruct (v2 !! _) as [bs|] eqn:Estored.
  { apply ewp_lift_bind; [|done]. intros e (He & -> & _)%map_err_ok%from_canonical_sound; [|done].
    apply ewp_lift_bind; [|done]. intros [] Hm. apply ewp_ret. exists b. split_and!; [done..|]. left. done. }
  apply ewp_bind. eapply ewp_get; [exact env_R|by apply hex_row_valid|]. intros v3 H3. assert (R v v3) as Hv3 by (exact (transitivity Hv2 H3)).
  apply ewp_lift_bind; [|done]. intros h Hh. case_bool_decide as Eh; [by apply ewp_lift|]. 
  apply ewp_lift_bind; [|done]. intros n [-> Hn]%ok_or_ok%checked_add_some.
  apply ewp_bind. eapply ewp_get; [exact env_R|by vm_compute|]. intros v4 H4. assert (R v v4) as Hv4 by (exact (transitivity Hv3 H4)).
  apply ewp_lift_bind; [|done]. intros c Hc. apply ewp_lift_bind; [|done]. intros c' Hgrow.
  apply ewp_bind. eapply ewp_batch_if_all; [exact env_R| | |].
  - apply queue_rows_valid.
  - intros v5 H5 Hcond. apply ewp_ret. unfold conditions_hold in Hcond. rewrite !Forall_cons in Hcond.
    destruct Hcond as (Ch & Ce & Cc & _). cbn [bc_expected] in Ch, Ce, Cc. exists b. split_and!; [done..|]. right. exists v5.
    split; [exact (transitivity Hv4 H5)|]. split; [|done]. exists h, c, c'. split_and!.
    + apply signed_envelope_fits; [done|done|]. apply current_head_range in Hh. unfold uint. lia.
    + exact Ce.
    + by rewrite <- Ch in Hh.
    + done.
    + done.
    + by rewrite <- Cc in Hc.
    + done.
    + done.
  - intros v5 H5 _. apply ewp_lift. exact (transitivity Hv4 H5).
Qed.

(** C24: preparing an envelope is one atomic step. Whatever other writers do between its store
    calls, a call ends; when it returns an envelope, the capture passed every check against a bundle signed by the
    Core, and the envelope is either the one already pending for this work or the next number of its assignment,
    signed and put in the queue at once; when it fails, it changed nothing. *)
Theorem prepare_envelope_refines capture v :
  capture_ok capture → ewp (prepare_envelope env spool capture) v (prepare_result capture v).
Proof. apply prepare_envelope_spec. Qed.

(** What a call to record a receipt means. *)
Definition record_result (k : bytes) (e : GatewayCaptureEnvelopeV1) (receipt : GatewayCaptureReceiptV1) (v : View)
    (r : result SpoolError unit) (v' : View) : Prop :=
  match r with
  | Ok _ => validate_capture_receipt e receipt = Ok tt ∧ receipt.(gcr_core_handoff_pubkey) = spool.(os_core_handoff_pubkey) ∧
      ((R v v' ∧ v' !! receipt_key k = Some (to_canonical_bytes receipt)) ∨ ∃ v1, R v v1 ∧ receipt_step k e receipt v1 v')
  | Err _ => R v v'
  end.

Lemma validate_capture_receipt_binds e receipt :
  validate_capture_receipt e receipt = Ok tt →
  receipt.(gcr_assignment_id) = e.(gce_assignment_id) ∧ receipt.(gcr_receipt_sequence) = e.(gce_gateway_sequence) ∧
  receipt.(gcr_capture_envelope_id) = object_id e.
Proof.
  unfold validate_capture_receipt. intros ([] & _ & H)%bind_ok. destruct (_ || _) eqn:E in H; [done|]. clear H.
  rewrite !orb_false_iff, negb_false_iff, Z.eqb_eq, !bool_decide_eq_false in E. destruct_and!.
  repeat match goal with H : ¬ _ ≠ _ |- _ => apply dec_stable in H end. done.
Qed.

Lemma receipt_rows_valid k expected1 expected2 expected3 x1 x2 :
  batch_keys_valid
    [mkBatchCondition OPERATOR_CAPTURE_RECEIPT_NAMESPACE (hex_encode k) expected1;
     mkBatchCondition OPERATOR_CAPTURE_ENVELOPE_NAMESPACE (hex_encode k) expected2;
     mkBatchCondition OPERATOR_CAPTURE_CAPACITY_NAMESPACE OPERATOR_CAPTURE_CAPACITY_KEY expected3]
    [BatchPut OPERATOR_CAPTURE_RECEIPT_NAMESPACE (hex_encode k) x1; BatchDelete OPERATOR_CAPTURE_ENVELOPE_NAMESPACE (hex_encode k);
     BatchPut OPERATOR_CAPTURE_CAPACITY_NAMESPACE OPERATOR_CAPTURE_CAPACITY_KEY x2] = true.
Proof.
  change (forallb valid_key [receipt_key (hex_encode k); envelope_key (hex_encode k); capacity_key] &&
    forallb valid_key [receipt_key (hex_encode k); envelope_key (hex_encode k); capacity_key] = true).
  cbn [forallb]. unfold receipt_key, envelope_key. by rewrite !hex_row_valid.
Qed.

(** Recording a receipt is one atomic step as well. *)
Lemma record_receipt_refines work_key e receipt v :
  envelope_fits e → receipt_fits receipt → ewp (record_receipt env spool work_key e receipt) v (record_result (hex_encode work_key) e receipt v).
Proof.
  intros Hfit Hrfit. unfold record_receipt. assert (R v v) by reflexivity. apply ewp_lift_bind; [|done]. intros [] Hval%map_err_ok.
  destruct (_ || _) eqn:E; [by apply ewp_lift|]. apply orb_false_iff in E as [Epk%bool_decide_eq_false%dec_stable _].
  destruct (validate_capture_receipt_binds _ _ Hval) as (Ba & Bs & Bi).
  apply ewp_bind. eapply ewp_get; [exact env_R|by apply hex_row_valid|]. intros v1 H1. case_bool_decide as Er.
  { apply ewp_ret. split_and!; [done..|]. by left. }
  apply ewp_bind. eapply ewp_get; [exact env_R|by apply hex_row_valid|]. intros v2 H2. assert (R v v2) as Hv2 by (exact (transitivity H1 H2)).
  apply ewp_lift_bind; [|done]. intros stored _. case_bool_decide as Es; [by apply ewp_lift|].
  apply ewp_bind. eapply ewp_get; [exact env_R|by vm_compute|]. intros v3 H3. assert (R v v3) as Hv3 by (exact (transitivity Hv2 H3)).
  apply ewp_lift_bind; [|done]. intros row _. apply ewp_lift_bind; [|done]. intros c Hc. apply ewp_lift_bind; [|done]. intros c' Hc'.
  apply ewp_bind. eapply ewp_batch_if_all; [exact env_R|apply receipt_rows_valid| |].
  - intros v4 H4 Hcond. apply ewp_ret. unfold conditions_hold in Hcond. rewrite !Forall_cons in Hcond.
    destruct Hcond as (Cr & Ce & Cc & _). cbn [bc_expected] in Cr, Ce, Cc. split_and!; [done..|]. right. exists v4.
    split; [exact (transitivity Hv3 H4)|]. exists row, c, c'. by split_and!.
  - intros v4 H4 _. assert (R v v4) as Hv4 by (exact (transitivity Hv3 H4)).
    apply ewp_bind. eapply ewp_get; [exact env_R|by apply hex_row_valid|]. intros v5 H5. assert (R v v5) by (exact (transitivity Hv4 H5)).
    case_bool_decide; [|by apply ewp_lift]. apply ewp_ret. split_and!; [done..|]. by left.
Qed.

(** The operations that do not concern the queue leave it alone. *)
Lemma elsewhere_kept (v : View) ops :
  Forall (λ op, (operation_target op).1 ∉ QUEUE_NAMESPACES) ops → queue_kept v (view_apply v ops).
Proof.
  intros Hops ns k Hns. apply view_apply_other. intros (op & E & Hop)%list_elem_of_fmap.
  rewrite Forall_forall in Hops. apply (Hops op Hop). by rewrite <- E.
Qed.
Lemma ewp_elsewhere cs ops (v : View) :
  batch_keys_valid cs ops = true → Forall (λ op, (operation_target op).1 ∉ QUEUE_NAMESPACES) ops →
  ewp (applied ← ecall env SP_Storage (apply_batch_if_all cs ops); if applied : bool then mret tt else elift (Err SequenceRace))
    v (λ _ v', ∃ v0, R v v0 ∧ queue_kept v0 v').
Proof.
  intros Hvalid Hops. apply ewp_bind. eapply ewp_batch_if_all; [exact env_R|done| |].
  - intros v1 H1 _. apply ewp_ret. exists v1. split; [done|]. by apply elsewhere_kept.
  - intros v1 H1 _. apply ewp_lift. by exists v1.
Qed.
Ltac outside := repeat (apply Forall_cons; split; [cbn [operation_target fst]; apply (bool_decide_eq_false (_ ∈ QUEUE_NAMESPACES)); vm_compute; reflexivity|]); apply Forall_nil_2.

Lemma persist_bundle_elsewhere b v :
  ewp (persist_bundle env spool b) v (λ _ v', ∃ v0, R v v0 ∧ queue_kept v0 v').
Proof.
  unfold persist_bundle. assert (∃ v0, R v v0 ∧ queue_kept v0 v) as H0 by (exists v; split; reflexivity).
  destruct (foreign_bundle _ _); [by apply ewp_lift|].
  apply ewp_bind. eapply ewp_get; [exact env_R|by apply hex_row_valid|]. intros v1 H1.
  apply ewp_bind. eapply ewp_get; [exact env_R|apply index_row_valid|]. intros v2 H2. assert (R v v2) as Hv2 by (exact (transitivity H1 H2)).
  assert (∃ v0, R v v0 ∧ queue_kept v0 v2) as Hsame by (exists v2; split; [done|reflexivity]).
  destruct (_ && _); [by apply ewp_ret|]. destruct (_ || _); [by apply ewp_lift|].
  eapply ewp_mono; [|apply ewp_elsewhere].
  - intros r v3 (v0 & Hle & Hk). exists v0. split; [exact (transitivity Hv2 Hle)|done].
  - unfold batch_keys_valid, condition_target, operation_target. cbn [fmap list_fmap forallb bc_namespace bc_key].
    by rewrite index_row_valid, hex_row_valid.
  - outside.
Qed.
Lemma persist_drain_elsewhere d t v :
  ewp (persist_drain_and_transition env d t) v (λ _ v', ∃ v0, R v v0 ∧ queue_kept v0 v').
Proof.
  unfold persist_drain_and_transition.
  apply ewp_bind. eapply ewp_get; [exact env_R|by apply hex_row_valid|]. intros v1 H1.
  apply ewp_bind. eapply ewp_get; [exact env_R|by apply hex_row_valid|]. intros v2 H2. assert (R v v2) as Hv2 by (exact (transitivity H1 H2)).
  assert (∃ v0, R v v0 ∧ queue_kept v0 v2) as Hsame by (exists v2; split; [done|reflexivity]).
  destruct (_ && _); [by apply ewp_ret|]. destruct (_ || _); [by apply ewp_lift|].
  eapply ewp_mono; [|apply ewp_elsewhere].
  - intros r v3 (v0 & Hle & Hk). exists v0. split; [exact (transitivity Hv2 Hle)|done].
  - unfold batch_keys_valid, condition_target, operation_target. cbn [fmap list_fmap forallb bc_namespace bc_key].
    by rewrite !hex_row_valid.
  - outside.
Qed.
End Operations.

(** ** Runs of the spool *)

Inductive SpoolCall :=
| CallBundle (b : CoreAssignmentBundleV1)
| CallPrepare (capture : ForwardedCapture)
| CallRecord (work_key : Hash256) (e : GatewayCaptureEnvelopeV1) (receipt : GatewayCaptureReceiptV1)
| CallTransition (d : GatewayAssignmentDrainV1) (t : GatewayAssignmentTransitionV1).

Section Runs.
Context {digests : Digests} {digests_ok : DigestsOk} {ed : Ed25519} {ed_ok : Ed25519Ok} {hexes : Hex} {hex_ok : HexOk}.
Context {S : Type} `{!DurableStore S, !DurableStoreLaws S} (env : nat → S → S).
(** The other writers may be other processes that run the spool. *)
Hypothesis env_rely : ∀ n s v, represents s v → ∃ v', represents (env n s) v' ∧ spool_rely v v'.
Context (spool : OperatorCaptureSpool) (spool_fits : spool_ok spool).

(** The operations that write, with the envelope that the preparation returns. *)
Definition run_spool (call : SpoolCall) : eclient (S := S) (E := SpoolError) (option GatewayCaptureEnvelopeV1) :=
  match call with
  | CallBundle b => _ ← persist_bundle env spool b; mret None
  | CallPrepare capture => e ← prepare_envelope env spool capture; mret (Some e)
  | CallRecord work_key e receipt => _ ← record_receipt env spool work_key e receipt; mret None
  | CallTransition d t => _ ← persist_drain_and_transition env d t; mret None
  end.
(** A process that performs them one after the other, whether or not they fail. *)
Fixpoint run_spools (calls : list SpoolCall) (w : nat * S) :
    list (result SpoolError (option GatewayCaptureEnvelopeV1)) * (nat * S) :=
  match calls with
  | [] => ([], w)
  | call :: calls =>
      let '(r, w) := run_spool call w in
      let '(rs, w) := run_spools calls w in (r :: rs, w)
  end.

(** The values of the Rust types. *)
Definition spool_call_ok (call : SpoolCall) : Prop :=
  match call with CallPrepare capture => capture_ok capture | CallRecord _ e r => envelope_fits e ∧ receipt_fits r | _ => True end.

(** What an answer says of the queue: the envelope has its number, the receipt is there. *)
Definition answer_held (v : View) (call : SpoolCall) (r : result SpoolError (option GatewayCaptureEnvelopeV1)) : Prop :=
  match call, r with
  | CallPrepare _, Ok (Some e) => ∀ pending receipts, spool_holds v pending receipts →
      (e.(gce_gateway_sequence), object_id e) ∈ numbers e.(gce_assignment_id) pending receipts
  | CallRecord work_key _ receipt, Ok _ => v !! receipt_key (hex_encode work_key) = Some (to_canonical_bytes receipt)
  | CallPrepare _, Ok None => False
  | _, _ => True
  end.

Lemma pending_held (v : View) pending receipts k e :
  spool_holds v pending receipts → ok_GatewayCaptureEnvelopeV1 ENVELOPE_LIMITS e →
  v !! envelope_key k = Some (to_canonical_bytes e) →
  (e.(gce_gateway_sequence), object_id e) ∈ numbers e.(gce_assignment_id) pending receipts.
Proof.
  intros Hv He Hk. pose proof (sh_pending _ _ _ Hv k) as Hp. unfold envelope_key in Hk. rewrite Hk in Hp. symmetry in Hp.
  apply fmap_Some in Hp as (e' & Hp & Eb). destruct (sh_fits _ _ _ Hv _ _ Hp) as [He' Hl].
  assert (e = e') as <-.
  { apply (to_canonical_inj ENVELOPE_LIMITS); [done|done| |done]. by rewrite Eb, Hl. }
  unfold numbers. apply elem_of_app. left. unfold collected. apply list_elem_of_bind. exists (k, e).
  split; [|by apply elem_of_map_to_list]. cbn [snd]. unfold pending_number. rewrite bool_decide_eq_true_2 by done. by left.
Qed.

Lemma run_spool_rely call v :
  spool_call_ok call → ewp (run_spool call) v (λ r v', spool_rely v v' ∧ answer_held v' call r).
Proof.
  destruct call as [b|capture|work_key e receipt|d t]; cbn [spool_call_ok run_spool]; intros Hok; apply ewp_bind.
  - eapply ewp_mono; [|by apply (persist_bundle_elsewhere env spool_rely env_rely)].
    intros r v' (v0 & Hle & Hk). assert (spool_rely v v') by (etrans; [exact Hle|by apply queue_kept_rely]). destruct r; [by apply ewp_ret|done].
  - eapply ewp_mono; [|by apply (prepare_envelope_spec env spool_rely env_rely)]. intros [e|err] v' Hr; cbn in Hr; [|done].
    apply ewp_ret. destruct Hr as (b & _ & _ & _ & [(Hle & Hk & He & _)|(v1 & Hle & Hs & _)]).
    + split; [done|]. intros p r Hv. by eapply pending_held.
    + split; [etrans; [exact Hle|by eapply envelope_step_rely]|]. intros p r Hv. eapply pending_held; [exact Hv|..].
      * by destruct Hs as (h & c & c' & [? _] & _).
      * destruct Hs as (h & c & c' & _ & _ & _ & _ & _ & _ & _ & ->). unfold capacity_key. rewrite lookup_insert_ne by done. apply lookup_insert_eq.
  - destruct Hok as [? ?]. eapply ewp_mono; [|by apply (record_receipt_refines env spool_rely env_rely)]. intros [[]|err] v' Hr; cbn in Hr; [|done].
    apply ewp_ret. destruct Hr as (_ & _ & [(Hle & Hk)|(v1 & Hle & Hs)]).
    + by split.
    + split; [etrans; [exact Hle|by eapply receipt_step_rely]|]. destruct Hs as (bs & c & c' & _ & _ & _ & _ & _ & _ & _ & _ & _ & _ & ->).
      cbn [answer_held]. unfold capacity_key, envelope_key. rewrite lookup_insert_ne by done. rewrite lookup_delete_ne by done. apply lookup_insert_eq.
  - eapply ewp_mono; [|by apply (persist_drain_elsewhere env spool_rely env_rely)].
    intros r v' (v0 & Hle & Hk). assert (spool_rely v v') by (etrans; [exact Hle|by apply queue_kept_rely]). destruct r; [by apply ewp_ret|done].
Qed.

(** An answer that is true of an exact queue stays true. *)
Lemma answer_held_later v v' call r pending receipts :
  spool_holds v pending receipts → spool_rely v v' → answer_held v call r → answer_held v' call r.
Proof.
  intros Hv [Hrely Hrows] Ha. destruct (Hrely _ _ Hv) as (p & q & Hv' & Hn).
  destruct call, r as [[en|]|]; cbn [answer_held] in *; auto. intros p' q' Hv''.
  destruct (spool_holds_unique _ _ _ _ _ Hv' Hv'') as [<- <-]. apply Hn. by apply Ha.
Qed.

Lemma run_spools_rely calls n s v pending receipts :
  Forall spool_call_ok calls → represents s v → spool_holds v pending receipts →
  ∃ rs n' s' v', run_spools calls (n, s) = (rs, (n', s')) ∧ represents s' v' ∧ spool_rely v v' ∧ Forall2 (answer_held v') calls rs.
Proof.
  intros Hall. revert n s v pending receipts. induction Hall as [|call calls Hcall _ IH]; intros n s v pending receipts Hrep Hv.
  { exists [], n, s, v. split_and!; [done..|by constructor]. }
  destruct (run_spool_rely call v Hcall n s Hrep) as (r & n1 & s1 & v1 & E & Hrep1 & Hle & Ha).
  destruct (proj1 Hle _ _ Hv) as (p1 & q1 & Hv1 & _).
  destruct (IH n1 s1 v1 p1 q1 Hrep1 Hv1) as (rs & n' & s' & v' & E' & Hrep' & Hle' & Has).
  exists (r :: rs), n', s', v'. cbn [run_spools]. rewrite E, E'. split; [done|]. split; [done|]. split; [by etrans|].
  constructor; [|done]. by eapply answer_held_later.
Qed.

(** C15: the capture queue is exact. Any run of the operator's operations, among other processes
    that do the same, ends; from an exact queue, such as the empty one, it leads to an exact
    queue: the capacity row is the number and the size of the pending envelopes, within their
    limits, and for every assignment the numbers 1, 2, .. up to its head are each held by exactly one
    pending envelope or one receipt of the Core, the head naming the envelope that was numbered last. No
    number is given twice and none is lost: every one that was held before the run is held after it, so is that of every envelope that the
    run was given, and every receipt that it recorded is there. *)
Theorem spool_queue_exact calls n s v pending receipts :
  Forall spool_call_ok calls → represents s v → spool_holds v pending receipts →
  ∃ rs n' s' v' pending' receipts', run_spools calls (n, s) = (rs, (n', s')) ∧ represents s' v' ∧
    spool_holds v' pending' receipts' ∧
    Z.of_nat (size pending') ≤ MAX_OPERATOR_CAPTURE_RECORDS ∧
    map_sum (λ e, len (to_canonical_bytes e)) pending' ≤ MAX_OPERATOR_CAPTURE_BYTES ∧
    (∀ a, NoDup ((numbers a pending' receipts').*1) ∧ numbers a pending receipts ⊆ numbers a pending' receipts') ∧
    Forall2 (answer_held v') calls rs.
Proof.
  intros Hall Hrep Hv. destruct (run_spools_rely calls n s v pending receipts Hall Hrep Hv) as (rs & n' & s' & v' & E & Hrep' & Hle & Has).
  destruct (proj1 Hle _ _ Hv) as (p & q & Hv' & Hn). exists rs, n', s', v', p, q.
  destruct (capacity_within _ _ (sh_capacity _ _ _ Hv')) as [? ?]. split_and!; [done..| |done].
  intros a. split; [|done]. destruct (sh_numbers _ _ _ Hv' a) as (h & _ & _ & Hd & _). rewrite Hd. apply NoDup_seqZ.
Qed.
End Runs.

(** ** Draining *)

Section Draining.
Context {digests : Digests} {digests_ok : DigestsOk} {ed : Ed25519} {hexes : Hex} {hex_ok : HexOk}.
Context {S : Type} `{!DurableStore S, !DurableStoreLaws S} (env : nat → S → S).

Lemma sum_entry_bytes size (l : list (bytes * bytes)) :
  Forall (λ p, len p.1 + len p.2 ≤ size) l → sumZ (entry_bytes <$> l) ≤ size * len l.
Proof.
  induction 1 as [|[k x] l Hx _ IH]; [by rewrite Z.mul_0_r|]. rewrite fmap_cons, sumZ_cons, len_cons. unfold entry_bytes at 1. cbn [fst snd] in *. lia.
Qed.
(** A scan whose records fit its limits returns them all. *)
Lemma ewp_scan {E} (from_storage : StorageError → E) (R : relation View) ns limits size v (Φ : result E (list NamespaceRecord) → View → Prop) :
  (∀ n s v, represents s v → ∃ v', represents (env n s) v' ∧ R v v') → valid_key (ns, []) = true →
  (∀ v1 : View, R v v1 → Forall (λ p, len p.2 ≤ limits.(maximum_value_bytes) ∧ len p.1 + len p.2 ≤ size) (namespace_entries v1 ns) ∧
    len (namespace_entries v1 ns) ≤ limits.(maximum_records) ∧
    size * len (namespace_entries v1 ns) ≤ limits.(maximum_total_bytes) < 2 ^ 64) →
  (∀ v1 : View, R v v1 → (∀ k x, v1 !! (ns, k) = Some x → valid_key (ns, k) = true) →
    Φ (Ok (to_record <$> namespace_entries v1 ns)) v1) →
  ewp (ecall env from_storage (scan_namespace ns limits)) v Φ.
Proof.
  intros Henv Hns Hfit HΦ n s Hrep. destruct (Henv n s v Hrep) as (v1 & Hrep1 & Hle). destruct (scan_namespace_spec ns limits _ _ Hrep1) as [E1 HR].
  specialize (HΦ v1 Hle ltac:(by intros k x; apply (represents_valid _ _ _ _ _ Hrep1))). destruct (Hfit v1 Hle) as (F1 & F2 & F3).
  pose proof (sum_entry_bytes size _ (Forall_impl _ _ _ F1 (λ p H, proj2 H))) as Hsum.
  pose proof (fold_scan_fits limits [] 0 (namespace_entries v1 ns) F2 ltac:(done) (Forall_impl _ _ _ F1 (λ p H, proj1 H)) ltac:(lia)) as Ef.
  unfold ecall. destruct (scan_namespace ns limits (env n s)) as [r s'] eqn:Es. cbn [fst snd] in E1, HR.
  unfold spec_scan_namespace in E1, HR. revert E1 HR. run_store. rewrite Hns. cbn [negb]. rewrite Ef. cbn [fst snd]. intros -> HR.
  eexists _, _, s', v1. split; [done|]. by split.
Qed.

Context (pending : gmap bytes GatewayCaptureEnvelopeV1) (receipts : gmap bytes GatewayCaptureReceiptV1).
Hypothesis env_kept : ∀ n s v, represents s v → ∃ v', represents (env n s) v' ∧ queue_kept v v'.

(** What is pending for an assignment: envelopes whose work the Core has not answered. *)
Definition is_outstanding (a : Hash256) (p : bytes * GatewayCaptureEnvelopeV1) : Prop := p.2.(gce_assignment_id) = a ∧ receipts !! p.1 = None.
#[global] Instance is_outstanding_dec a p : Decision (is_outstanding a p) := _.
Definition outstanding (a : Hash256) : list (bytes * GatewayCaptureEnvelopeV1) := filter (is_outstanding a) (map_to_list pending).
Definition pending_row (p : bytes * GatewayCaptureEnvelopeV1) : bytes * bytes := (p.1, to_canonical_bytes p.2).

Lemma pending_rows v : spool_holds v pending receipts →
  ∃ l, namespace_entries v OPERATOR_CAPTURE_ENVELOPE_NAMESPACE = pending_row <$> l ∧ l ≡ₚ map_to_list pending.
Proof.
  intros Hv.
  assert (namespace_entries v OPERATOR_CAPTURE_ENVELOPE_NAMESPACE ≡ₚ map pending_row (map_to_list pending)) as Hp.
  { apply NoDup_Permutation.
    + apply (NoDup_fmap_1 fst), sorted_keys_nodup, namespace_entries_sorted.
    + apply (NoDup_fmap_1 fst). change (NoDup (fst <$> (pending_row <$> map_to_list pending))). rewrite <- list_fmap_compose. apply NoDup_fst_map_to_list.
    + intros [k x]. rewrite elem_of_namespace_entries, (sh_pending _ _ _ Hv), fmap_Some.
      change (map pending_row (map_to_list pending)) with (pending_row <$> map_to_list pending). rewrite list_elem_of_fmap. split.
      * intros (e & He & ->). exists (k, e). split; [done|]. by apply elem_of_map_to_list.
      * intros ([k' e] & [= -> ->] & He%elem_of_map_to_list). by exists e. }
  apply Permutation_map_inv in Hp as (l & E & Hl). exists l. split; [exact E|]. by symmetry.
Qed.

Lemma ewp_count_pending a l p v :
  spool_holds v pending receipts → 0 ≤ p → p + len l ≤ MAX_OPERATOR_CAPTURE_RECORDS →
  Forall (λ q, valid_key (receipt_key q.1) = true ∧ envelope_fits q.2) l →
  ewp (count_pending env a (to_record <$> (pending_row <$> l)) p) v (λ r v', spool_holds v' pending receipts ∧
    r = Ok (p + len (filter (is_outstanding a) l))).
Proof.
  intros Hv Hp Hl Hall. revert p v Hv Hp Hl. induction Hall as [|[k e] l [Hvalid [Hok Hlen]] _ IH]; intros p v Hv Hp Hl; cbn [count_pending fmap list_fmap].
  { apply ewp_ret. split; [done|]. by rewrite Z.add_0_r. }
  unfold len in Hl. rewrite length_cons, Nat2Z.inj_succ in Hl. fold (len l) in Hl. pose proof (len_nonneg l).
  cbn [fst snd] in Hvalid, Hok, Hlen. change (to_record (pending_row (k, e))) with (mkNamespaceRecord k (to_canonical_bytes e)). cbn [nr_key nr_value].
  apply ewp_bind. eapply ewp_get; [exact env_kept|done|]. intros v1 H1. pose proof (queue_kept_holds _ _ _ _ H1 Hv) as Hv1.
  rewrite (sh_receipts _ _ _ Hv1 k).
  destruct (decide (is_outstanding a (k, e))) as [Hout|Hout].
  - rewrite filter_cons_True by done. destruct Hout as [Ea Hnone]. cbn [fst snd] in Ea, Hnone. rewrite Hnone.
    rewrite bool_decide_eq_false_2 by (by intros [? ?]). rewrite from_canonical_complete; [|done..|by rewrite Hlen]. cbn [map_err].
    apply ewp_bind, ewp_lift. rewrite bool_decide_eq_true_2 by done. unfold MAX_OPERATOR_CAPTURE_RECORDS in *.
    rewrite checked_add_fits by (unfold USIZE; lia). cbn [ok_or]. apply ewp_bind, ewp_lift.
    eapply ewp_mono; [|apply (IH (p + 1) v1); [done|lia|lia]]. intros r v2 [Hv2 ->]. split; [done|]. f_equal.
    unfold len. rewrite length_cons, Nat2Z.inj_succ. lia.
  - rewrite filter_cons_False by done. case_bool_decide as Er.
    { apply IH; [done|done|]. lia. }
    rewrite from_canonical_complete; [|done..|by rewrite Hlen]. cbn [map_err]. apply ewp_bind, ewp_lift.
    rewrite bool_decide_eq_false_2.
    + apply IH; [done|done|]. lia.
    + intros Ea. apply Hout. split; [done|]. cbn [fst]. apply eq_None_not_Some. intros Hr. apply Er. destruct Hr as [r Hr]. rewrite Hr. by eexists.
Qed.

(** Every number below the head of an assignment with nothing outstanding. *)
Lemma drain_zero a h i :
  dense h (numbers a pending receipts) → outstanding a = [] → 1 ≤ i ≤ h.(gsh_sequence) →
  (∃ k r, receipts !! k = Some r ∧ r.(gcr_assignment_id) = a ∧ r.(gcr_receipt_sequence) = i) ∨
  (∃ k e, pending !! k = Some e ∧ e.(gce_assignment_id) = a ∧ e.(gce_gateway_sequence) = i ∧ is_Some (receipts !! k)).
Proof.
  intros (Hp & _) Hout Hi. assert (i ∈ (numbers a pending receipts).*1) as Hin by (rewrite Hp; apply elem_of_seqZ; lia).
  apply list_elem_of_fmap in Hin as ([j id] & -> & Hin). unfold numbers in Hin. apply elem_of_app in Hin as [Hin|Hin];
    apply list_elem_of_bind in Hin as ([k x] & Hx & Hk%elem_of_map_to_list); cbn [snd fst] in *.
  - right. exists k, x. unfold pending_number in Hx. case_bool_decide as Ea; [|by apply elem_of_nil in Hx].
    apply list_elem_of_singleton in Hx as [= -> ->]. split_and!; [done..|]. apply not_eq_None_Some. intros Hnone.
    assert ((k, x) ∈ outstanding a) as Hf; [|rewrite Hout in Hf; by apply elem_of_nil in Hf].
    apply list_elem_of_filter. split; [by split|]. by apply elem_of_map_to_list.
  - left. exists k, x. unfold receipt_number in Hx. case_bool_decide as Ea; [|by apply elem_of_nil in Hx].
    by apply list_elem_of_singleton in Hx as [= -> ->].
Qed.
Lemma drain_answered a h :
  dense h (numbers a pending receipts) → outstanding a = [] → (∀ k, is_Some (pending !! k) → receipts !! k = None) →
  dense h (collected (receipt_number a) receipts).
Proof.
  intros Hd Hout Hun. enough (collected (pending_number a) pending = []) as E by (unfold numbers in Hd; by rewrite E in Hd).
  unfold collected. apply elem_of_nil_inv. intros x Hx. apply list_elem_of_bind in Hx as ([k e] & Hx & Hin). cbn [snd] in Hx.
  unfold pending_number in Hx. case_bool_decide as Ea; [|by apply elem_of_nil in Hx].
  assert ((k, e) ∈ outstanding a) as Hf; [|rewrite Hout in Hf; by apply elem_of_nil in Hf].
  apply list_elem_of_filter. split; [|done]. split; [done|]. apply Hun. apply elem_of_map_to_list in Hin. by exists e.
Qed.

(** The key of a piece of work is 64 hexadecimal digits. *)
Hypothesis work_keys : map_Forall (λ k _, len k ≤ 64) pending.

(** C25: what the operator finds out before a drain. While no other process writes to the queue, counting the
    pending captures of an assignment and reading its head succeed: the count is exactly the number of its pending envelopes whose
    work has no receipt, and the numbers 1 to the head's are each held by one pending envelope or one receipt, the
    head naming the last. So when the count is zero, every number up to the head, over which the drain is
    signed, has a receipt of the Core or belongs to an envelope whose work has one; and when no work that has a receipt
    was given a number again, the receipts alone cover all of them. *)
Theorem drain_covers_receipts a v :
  spool_holds v pending receipts →
  ewp (n ← pending_for_assignment env a; h ← sequence_head env a; mret (n, h)) v (λ r _, ∃ h,
    r = Ok (len (outstanding a), h) ∧ h.(gsh_assignment_id) = a ∧ dense h (numbers a pending receipts) ∧
    (outstanding a = [] → ∀ i, 1 ≤ i ≤ h.(gsh_sequence) →
      (∃ k r, receipts !! k = Some r ∧ r.(gcr_assignment_id) = a ∧ r.(gcr_receipt_sequence) = i) ∨
      (∃ k e, pending !! k = Some e ∧ e.(gce_assignment_id) = a ∧ e.(gce_gateway_sequence) = i ∧ is_Some (receipts !! k))) ∧
    (outstanding a = [] → (∀ k, is_Some (pending !! k) → receipts !! k = None) → dense h (collected (receipt_number a) receipts))).
Proof.
  intros Hv. destruct (capacity_within _ _ (sh_capacity _ _ _ Hv)) as [Hrecords _]. cbn [pending_records] in Hrecords.
  assert (∀ l, l ≡ₚ map_to_list pending → len l = Z.of_nat (size pending)) as Hlen.
  { intros l Hl. unfold len. by rewrite Hl, length_map_to_list. }
  apply ewp_bind. unfold pending_for_assignment. apply ewp_bind.
  eapply (ewp_scan _ _ _ _ (64 + ENVELOPE_BYTES)); [exact env_kept|by vm_compute|..].
  { intros v1 H1. pose proof (queue_kept_holds _ _ _ _ H1 Hv) as Hv1. destruct (pending_rows _ Hv1) as (l & -> & Hl).
    replace (len (pending_row <$> l)) with (len l) by (unfold len; by rewrite length_fmap). rewrite (Hlen _ Hl). split_and!.
    - apply Forall_fmap. rewrite Hl. apply Forall_forall. intros [k e] Hin%elem_of_map_to_list.
      unfold compose, pending_row, PENDING_LIMITS. cbn [fst snd maximum_value_bytes].
      destruct (sh_fits _ _ _ Hv _ _ Hin) as [_ ->]. specialize (work_keys _ _ Hin). cbn beta in work_keys. unfold ENVELOPE_BYTES. lia.
    - done.
    - unfold ENVELOPE_BYTES, PENDING_LIMITS, MAX_OPERATOR_CAPTURE_RECORDS, MAX_OPERATOR_CAPTURE_BYTES in *. cbn [maximum_total_bytes]. lia.
    - by vm_compute. }
  intros v1 H1 Hkeys. pose proof (queue_kept_holds _ _ _ _ H1 Hv) as Hv1. destruct (pending_rows _ Hv1) as (l & El & Hl). rewrite El.
  eapply ewp_mono; [|apply (ewp_count_pending a l 0 v1 Hv1); [done|by rewrite (Hlen _ Hl)|]].
  - intros r v2 [Hv2 ->]. unfold sequence_head.
    apply ewp_bind, ewp_bind. eapply ewp_get; [exact env_kept|apply valid_key_spec; split; [|apply hex_encode_nul]|].
    { by apply (bool_decide_eq_false (x00 ∈ OPERATOR_CAPTURE_SEQUENCE_NAMESPACE)). }
    intros v3 H3. pose proof (queue_kept_holds _ _ _ _ H3 Hv2) as Hv3. destruct (sh_numbers _ _ _ Hv3 a) as (h & Hh & Ha & Hd).
    fold (number_key a). rewrite Hh. apply ewp_lift, ewp_ret. exists h. split; [|split; [done|split; [done|]]].
    { do 2 f_equal. unfold outstanding, len. by rewrite <- Hl. }
    split; [intros Hz i; by apply (drain_zero a h i)|intros Hz; by apply (drain_answered a h)].
  - rewrite Hl. apply Forall_forall. intros [k e] Hin%elem_of_map_to_list. cbn [fst snd]. split; [|exact (sh_fits _ _ _ Hv k e Hin)].
    assert (v1 !! envelope_key k = Some (to_canonical_bytes e)) as Hrow by (unfold envelope_key; by rewrite (sh_pending _ _ _ Hv1), Hin).
    apply Hkeys in Hrow. apply valid_key_spec in Hrow as [_ Hk]. apply valid_key_spec. split; [|done].
    by apply (bool_decide_eq_false (x00 ∈ OPERATOR_CAPTURE_RECEIPT_NAMESPACE)).
Qed.
End Draining.

(** ** Witnesses: a capture is numbered, answered and drained *)

Section SpoolWitness.
#[local] Existing Instances low_digests low_digests_ok toy_ed25519 toy_ed25519_ok lower_hex_instance lower_hex_ok.

Definition demo_work : bytes := hex_encode (capture_work_key LinkDemo.capture).
Definition demo_receipt : GatewayCaptureReceiptV1 :=
  let e := LinkDemo.spooled in
  let unsigned := mkGatewayCaptureReceiptV1 2 1 2 e.(gce_context_manifest_id) e.(gce_assignment_id) (object_id e) e.(gce_gateway_pubkey)
    e.(gce_core_handoff_pubkey) 1 600 CAPTURE_OUTCOME_REJECTED 0 zero_hash in
  unsigned (LinkDemo.sign LinkDemo.core (unsigned [])).
Definition demo_capacity (records total : Z) : bytes := encode_capture_capacity (mkOperatorCaptureCapacityV1 records total).
(** The rows after the envelope, and after its receipt. *)
Definition demo_pending_view : View :=
  let e := LinkDemo.spooled in
  <[capacity_key := demo_capacity 1 346]> (<[envelope_key demo_work := to_canonical_bytes e]>
    (<[number_key e.(gce_assignment_id) := encode_sequence_head
        (mkGatewaySequenceHeadV1 e.(gce_assignment_id) e.(gce_gateway_sequence) (object_id e))]> ∅)).
Definition demo_answered_view : View :=
  <[capacity_key := demo_capacity 0 0]> (delete (envelope_key demo_work)
    (<[receipt_key demo_work := to_canonical_bytes demo_receipt]> demo_pending_view)).

Lemma demo_spool_ok : spool_ok LinkDemo.spool.
Proof. unfold spool_ok, uint, arr. split_and!; by vm_compute. Qed.
Lemma demo_capture_ok : capture_ok LinkDemo.capture.
Proof. unfold capture_ok, uint, arr. split_and!; by vm_compute. Qed.
Lemma demo_envelope_fits : envelope_fits LinkDemo.spooled.
Proof. rewrite LinkDemo.spooled_signed. apply signed_envelope_fits; [apply demo_spool_ok|apply demo_capture_ok|by vm_compute]. Qed.

Lemma demo_receipt_fits : receipt_fits demo_receipt.
Proof. split; [unfold ok_GatewayCaptureReceiptV1, uint, arr; split_and!; by vm_compute|by vm_compute]. Qed.

Lemma demo_envelope_step : envelope_step demo_work LinkDemo.spooled ∅ demo_pending_view.
Proof.
  exists (fresh_head LinkDemo.spooled.(gce_assignment_id)), OperatorCaptureCapacityV1_default, (mkOperatorCaptureCapacityV1 1 346).
  split_and!; [apply demo_envelope_fits|done|done|done|done|done|by vm_compute|done].
Qed.
Lemma demo_receipt_step : receipt_step demo_work LinkDemo.spooled demo_receipt demo_pending_view demo_answered_view.
Proof.
  exists (demo_capacity 1 346), (mkOperatorCaptureCapacityV1 1 346), (mkOperatorCaptureCapacityV1 0 0).
  split_and!; [apply demo_envelope_fits|apply demo_receipt_fits|by vm_compute|by vm_compute|done|done|done|by vm_compute|by vm_compute|by vm_compute|done].
Qed.
Lemma demo_empty : queue_empty ∅.
Proof. intros ns k _. apply lookup_empty. Qed.

(** The bundle is stored, the capture prepared, prepared again and answered. *)
Definition demo_calls : list SpoolCall :=
  [CallBundle LinkDemo.bundle1; CallPrepare LinkDemo.capture; CallPrepare LinkDemo.capture;
   CallRecord (capture_work_key LinkDemo.capture) LinkDemo.spooled demo_receipt].
Lemma demo_calls_ok : Forall spool_call_ok demo_calls.
Proof.
  unfold demo_calls. rewrite !Forall_cons. split_and!; [exact I|exact demo_capture_ok|exact demo_capture_ok| |apply Forall_nil_2].
  split; [exact demo_envelope_fits|exact demo_receipt_fits].
Qed.
Lemma alone_spool (n : nat) (s : MemoryStore) (v : View) : represents s v → ∃ v', represents (alone n s) v' ∧ spool_rely v v'.
Proof. intros Hrep. exists v. split; [exact Hrep|reflexivity]. Qed.

Lemma spool_queue_exact_witness :
  ∃ rs w v pending receipts, run_spools alone LinkDemo.spool demo_calls (0%nat, ∅ : MemoryStore) = (rs, w) ∧
    rs = [Ok None; Ok (Some LinkDemo.spooled); Ok (Some LinkDemo.spooled); Ok None] ∧ spool_holds v pending receipts ∧
    (1, object_id LinkDemo.spooled) ∈ numbers LinkDemo.spooled.(gce_assignment_id) pending receipts ∧
    v !! receipt_key demo_work = Some (to_canonical_bytes demo_receipt).
Proof.
  destruct (spool_queue_exact alone alone_spool LinkDemo.spool demo_spool_ok demo_calls 0%nat ∅ ∅ ∅ ∅ demo_calls_ok mem_represents_empty
    (spool_holds_empty ∅ demo_empty)) as (rs & n' & s' & v' & p & r & E & _ & Hv & _ & _ & _ & Ha).
  assert (rs = [Ok None; Ok (Some LinkDemo.spooled); Ok (Some LinkDemo.spooled); Ok None]) as Hrs.
  { etrans; [symmetry; exact (f_equal fst E)|]. vm_compute. reflexivity. }
  exists rs, (n', s'), v', p, r. split; [exact E|]. split; [exact Hrs|]. split; [exact Hv|]. subst rs. unfold demo_calls in Ha.
  rewrite !Forall2_cons in Ha. destruct Ha as (_ & H1 & _ & H2 & _). split; [exact (H1 p r Hv)|exact H2].
Defined.

Definition demo_spooled_store : nat * MemoryStore := Eval vm_compute in (persist_bundle alone LinkDemo.spool LinkDemo.bundle1 (0%nat, ∅)).2.
Lemma prepare_envelope_refines_witness :
  ∃ v e w v', represents demo_spooled_store.2 v ∧ prepare_envelope alone LinkDemo.spool LinkDemo.capture demo_spooled_store = (Ok e, w) ∧
    represents w.2 v' ∧ prepare_result eq LinkDemo.spool LinkDemo.capture v (Ok e) v'.
Proof.
  destruct (well_keyed_view demo_spooled_store.2 ltac:(vm_compute; reflexivity)) as [v Hrep].
  destruct (prepare_envelope_refines alone eq alone_eq LinkDemo.spool demo_spool_ok LinkDemo.capture v demo_capture_ok
    demo_spooled_store.1 demo_spooled_store.2 Hrep) as (r & n' & s' & v' & E & Hrep' & Hr).
  rewrite <- surjective_pairing in E.
  assert (is_ok (prepare_envelope alone LinkDemo.spool LinkDemo.capture demo_spooled_store).1 = true) as Hok by (vm_compute; reflexivity).
  rewrite E in Hok. destruct r as [e|]; [|discriminate Hok]. exists v, e, (n', s'), v'. split; [exact Hrep|]. split; [exact E|]. split; [exact Hrep'|exact Hr].
Defined.

Definition demo_store : MemoryStore :=
  let put (key : bytes * bytes) (x : bytes) (m : MemoryStore) : MemoryStore := <[flat_key key := x]> m in
  let e := LinkDemo.spooled in
  put capacity_key (demo_capacity 0 0) (delete (flat_key (envelope_key demo_work)) (put (receipt_key demo_work) (to_canonical_bytes demo_receipt)
    (put capacity_key (demo_capacity 1 346) (put (envelope_key demo_work) (to_canonical_bytes e)
      (put (number_key e.(gce_assignment_id)) (encode_sequence_head
        (mkGatewaySequenceHeadV1 e.(gce_assignment_id) e.(gce_gateway_sequence) (object_id e))) ∅))))).
Lemma demo_store_view : represents demo_store demo_answered_view.
Proof.
  apply mem_represents_insert; [|by vm_compute]. apply mem_represents_delete; [|by vm_compute].
  do 4 (apply mem_represents_insert; [|by vm_compute]). apply mem_represents_empty.
Qed.

Lemma drain_covers_receipts_witness :
  let a := LinkDemo.spooled.(gce_assignment_id) in
  ∃ h w, (n ← pending_for_assignment alone a; h ← sequence_head alone a; mret (n, h)) (0%nat, demo_store) = (Ok (0, h), w) ∧
    h.(gsh_sequence) = 1 ∧ dense h (collected (receipt_number a) (<[demo_work := demo_receipt]> ∅)).
Proof.
  cbn zeta. set (a := LinkDemo.spooled.(gce_assignment_id)).
  set (pending := delete demo_work (<[demo_work := LinkDemo.spooled]> (∅ : gmap bytes GatewayCaptureEnvelopeV1))).
  assert (spool_holds demo_answered_view pending (<[demo_work := demo_receipt]> ∅)) as Hv.
  { eapply receipt_step_holds; [|apply demo_receipt_step]. eapply envelope_step_holds; [|apply demo_envelope_step]. apply spool_holds_empty, demo_empty. }
  assert (∀ n (s : MemoryStore) v, represents s v → ∃ v', represents (alone n s) v' ∧ queue_kept v v') as Henv by (intros n s v Hrep; by exists v).
  assert (pending = ∅) as Hempty by (apply delete_insert_id, lookup_empty).
  assert (map_Forall (λ k _, len k ≤ 64) pending) as Hkeys by (rewrite Hempty; apply map_Forall_empty).
  destruct (drain_covers_receipts alone pending (<[demo_work := demo_receipt]> ∅) Henv Hkeys a demo_answered_view Hv 0%nat demo_store demo_store_view)
    as (r & n' & s' & v' & E & _ & h & -> & _ & _ & _ & Hd).
  assert (outstanding pending (<[demo_work := demo_receipt]> ∅) a = []) as Hout by (rewrite Hempty; reflexivity).
  rewrite Hout in E. exists h, (n', s'). split; [exact E|]. split.
  - assert (match ((n ← pending_for_assignment alone a; h ← sequence_head alone a; mret (n, h)) (0%nat, demo_store)).1 with
      | Ok (_, h) => h.(gsh_sequence) =? 1 | Err _ => false end = true) as Hok by (vm_compute; reflexivity).
    rewrite E in Hok. apply Z.eqb_eq. exact Hok.
  - apply Hd; [exact Hout|]. intros k [e He]. rewrite Hempty, lookup_empty in He. discriminate He.
Defined.

(** Work that was answered and is then prepared again gets a second number that nothing counts: nothing is pending,
    the head is 2, and only the first number has a receipt. *)
Definition repeated_calls : list SpoolCall := demo_calls ++ [CallPrepare LinkDemo.capture].
Lemma repeated_work_uncounted :
  let a := LinkDemo.spooled.(gce_assignment_id) in
  let '(rs, w) := run_spools alone LinkDemo.spool repeated_calls (0%nat, ∅ : MemoryStore) in
  forallb is_ok rs = true ∧ (pending_for_assignment alone a w).1 = Ok 0 ∧
  match (sequence_head alone a w).1, (recorded_receipt alone (capture_work_key LinkDemo.capture) w).1 with
  | Ok h, Ok (Some r) => h.(gsh_sequence) = 2 ∧ r.(gcr_receipt_sequence) = 1
  | _, _ => False
  end.
Proof. vm_compute. split_and!; reflexivity. Qed.
End SpoolWitness.
