(* ===== verification/Admission.v ===== *)
(** * Core-side admission (crates/meshmine-core-link/src/admission.rs)

    The engine that stages signed assignment bundles, turns a gateway's capture
    envelope into an exact share with one terminal receipt, and moves from the active
    bundle to the pending one when the gateway has drained. It composes the handoff
    operations, share validation and durable acceptance, as a client of the
    store among other writers. The HNS parent oracle is asked at moments
    of its own, and what it says of a certificate may differ from one to the next. *)

From S2P Require Import Prelude Codec Hash Types Objects Header Target Merkle Storage Journal Crypto HandoffObjects Handoff Share Receipts Body Client Bundle.

#[local] Set Default Goal Selector "!".

Definition CORE_BUNDLE_NAMESPACE : bytes := str "core-link-core-bundle/v1".
Definition CORE_BUNDLE_ASSIGNMENT_INDEX_NAMESPACE : bytes := str "core-link-core-bundle-assignment-index/v1".
Definition CORE_BUNDLE_STATE_NAMESPACE : bytes := str "core-link-core-bundle-state/v1".
Definition CORE_BUNDLE_ACTIVE_KEY : bytes := str "active".
Definition CORE_BUNDLE_PENDING_KEY : bytes := str "pending".

Definition CAPTURE_REASON_VALIDATED : Z := 0.
Definition CAPTURE_REASON_DUPLICATE_WORK : Z := 1.
Definition CAPTURE_REASON_SHARE_LINKAGE : Z := 2.
Definition CAPTURE_REASON_CAPTURE_TARGET : Z := 3.
Definition CAPTURE_REASON_PARENT_ORACLE : Z := 4.
Definition CAPTURE_REASON_SESSION_WINDOW : Z := 5.
Definition CAPTURE_REASON_SIGNATURE : Z := 6.
Definition CAPTURE_REASON_CONTEXT : Z := 7.
Definition CAPTURE_REASON_OTHER : Z := 65535.

Record CaptureAdmission := mkCaptureAdmission {
  ca_receipt : GatewayCaptureReceiptV1;
  ca_accepted_share_id : option Hash256;
  ca_exact_retry : bool;
}.

Inductive AdmissionError :=
| AE_Bundle (e : BundleError)
| AE_Handoff (e : HandoffError)
| AE_Share (e : ShareError)
| AE_Storage (e : StorageError)
| AE_Durable (e : DurableInvariantError)
| AE_Codec (e : CodecError)
| AE_Identity
| AE_ParentOracle
| NoActiveBundle
| NoPendingBundle
| UnknownAssignment
| StateRace.

Definition share_reason (error : ShareError) : Z :=
  match error with
  | DuplicateWork => CAPTURE_REASON_DUPLICATE_WORK
  | CaptureTarget | RawShareHash => CAPTURE_REASON_CAPTURE_TARGET
  | ParentOracleRejected => CAPTURE_REASON_PARENT_ORACLE
  | SessionNotOpen => CAPTURE_REASON_SESSION_WINDOW
  | OperatorSignature _ => CAPTURE_REASON_SIGNATURE
  | GatewayHandoff _ => CAPTURE_REASON_CONTEXT
  | SE_Linkage _ => CAPTURE_REASON_SHARE_LINKAGE
  | _ => CAPTURE_REASON_OTHER
  end.

Record CoreAdmissionEngine `{Ed25519} := mkCoreAdmissionEngine {
  en_network_id : Z;
  en_core_signing_key : SigningKey;
  en_operator_signing_key : SigningKey;
  en_parent_oracle : nat → ParentChainOracle;
}.
#[global] Arguments CoreAdmissionEngine {_}.
#[global] Arguments mkCoreAdmissionEngine {_}.

Definition CORE_BUNDLE_LIMITS : DecodeLimits := mkDecodeLimits MAX_CORE_ASSIGNMENT_BUNDLE_BYTES 100000.
Definition RECEIPT_LIMITS : DecodeLimits := mkDecodeLimits 4096 0.

Section Engine.
Context {digests : Digests} {ed : Ed25519} {hexes : Hex} {S : Type} `{!DurableStore S} (env : nat → S → S).
Context (engine : CoreAdmissionEngine).
Abbreviation admission := (eclient (S := S) (E := AdmissionError)).
Abbreviation call m := (ecall env AE_Storage m).
Abbreviation lift r := (elift (S := S) (E := AdmissionError) r).
(** [#[from] HandoffError] and [#[from] DurableInvariantError] *)
Definition handoff_call {A} (m : hclient (S := S) A) : admission A := emap_err AE_Handoff m.
Definition journal_call {A} (m : client (S := S) A) : admission A := emap_err AE_Durable m.

(** ** Bundles *)

Definition validate_local_bundle (b : CoreAssignmentBundleV1) (now_ms : Z) (oracle : ParentChainOracle) : result AdmissionError unit :=
  if negb (b.(bu_network_id) =? engine.(en_network_id))
     || bool_decide (b.(bu_assignment).(ga_core_handoff_pubkey) ≠ verifying_key engine.(en_core_signing_key))
     || bool_decide (b.(bu_assignment).(ga_operator_pubkey) ≠ verifying_key engine.(en_operator_signing_key))
  then Err AE_Identity
  else
    _ ← map_err AE_Bundle (bundle_validate b now_ms (verifying_key engine.(en_core_signing_key)));
    if negb (oracle b.(bu_parent_certificate)) then Err AE_ParentOracle else Ok tt.

Definition load_bundle_bytes (bundle_id : bytes) : admission CoreAssignmentBundleV1 :=
  if negb (len bundle_id =? 32) then lift (Err AE_Identity)
  else
    stored ← call (get CORE_BUNDLE_NAMESPACE (hex_encode bundle_id));
    bs ← lift (ok_or stored AE_Identity);
    b ← lift (map_err AE_Codec (from_canonical_bytes bs CORE_BUNDLE_LIMITS));
    if bool_decide (object_id b ≠ bundle_id) || bool_decide (to_canonical_bytes b ≠ bs) then lift (Err AE_Identity)
    else mret b.

Definition load_state_bundle (state_key : bytes) : admission (option CoreAssignmentBundleV1) :=
  found ← call (get CORE_BUNDLE_STATE_NAMESPACE state_key);
  match found with
  | None => mret None
  | Some bundle_id => b ← load_bundle_bytes bundle_id; mret (Some b)
  end.
Definition active_bundle : admission (option CoreAssignmentBundleV1) := load_state_bundle CORE_BUNDLE_ACTIVE_KEY.
Definition pending_bundle : admission (option CoreAssignmentBundleV1) := load_state_bundle CORE_BUNDLE_PENDING_KEY.

Definition bundle_for_assignment (assignment_id : Hash256) : admission CoreAssignmentBundleV1 :=
  found ← call (get CORE_BUNDLE_ASSIGNMENT_INDEX_NAMESPACE (hex_encode assignment_id));
  bundle_id ← lift (ok_or found UnknownAssignment);
  if negb (len bundle_id =? 32) then lift (Err AE_Identity) else load_bundle_bytes bundle_id.

(** The first bundle becomes active, with its manifest and assignment authorized. *)
Definition install_first (b : CoreAssignmentBundleV1) (now_ms : Z) : admission unit :=
  if negb (b.(bu_assignment).(ga_assignment_sequence) =? 1) || bool_decide (is_Some b.(bu_replacement))
  then lift (Err AE_Identity)
  else
    _ ← handoff_call (persist_gateway_context_manifest env b.(bu_manifest) now_ms);
    _ ← handoff_call (persist_gateway_assignment_authorization env b.(bu_manifest) b.(bu_assignment));
    swapped ← call (compare_and_swap CORE_BUNDLE_STATE_NAMESPACE CORE_BUNDLE_ACTIVE_KEY None (object_id b));
    if swapped : bool then mret tt
    else
      active ← active_bundle;
      if bool_decide (object_id <$> active ≠ Some (object_id b)) then lift (Err StateRace) else mret tt.

(** A successor of the active bundle becomes the pending one. *)
Definition mark_pending (b active : CoreAssignmentBundleV1) : admission unit :=
  replacement ← lift (ok_or b.(bu_replacement) AE_Identity);
  next ← lift (ok_or (checked_add 64 active.(bu_assignment).(ga_assignment_sequence) 1) AE_Identity);
  if bool_decide (replacement.(arp_previous_assignment_id) ≠ object_id active.(bu_assignment))
     || bool_decide (b.(bu_previous_bundle_id) ≠ object_id active)
     || negb (b.(bu_assignment).(ga_assignment_sequence) =? next)
  then lift (Err AE_Identity)
  else
    pending ← pending_bundle;
    match pending with
    | Some existing => if bool_decide (object_id existing = object_id b) then mret tt else lift (Err AE_Identity)
    | None =>
        swapped ← call (compare_and_swap CORE_BUNDLE_STATE_NAMESPACE CORE_BUNDLE_PENDING_KEY None (object_id b));
        if swapped : bool then mret tt else lift (Err StateRace)
    end.

Definition install_or_mark_pending (b : CoreAssignmentBundleV1) (now_ms : Z) : admission unit :=
  active ← active_bundle;
  match active with
  | None => install_first b now_ms
  | Some active => if bool_decide (object_id active = object_id b) then mret tt else mark_pending b active
  end.

Definition stage_bundle (b : CoreAssignmentBundleV1) (now_ms : Z) : admission unit :=
  asked ← emoment;
  _ ← lift (validate_local_bundle b now_ms (engine.(en_parent_oracle) asked));
  let bundle_id := object_id b in
  let bundle_key := hex_encode bundle_id in
  let assignment_key := hex_encode (object_id b.(bu_assignment)) in
  let bs := to_canonical_bytes b in
  existing_bundle ← call (get CORE_BUNDLE_NAMESPACE bundle_key);
  existing_index ← call (get CORE_BUNDLE_ASSIGNMENT_INDEX_NAMESPACE assignment_key);
  if bool_decide (existing_bundle = Some bs) && bool_decide (existing_index = Some bundle_id)
  then install_or_mark_pending b now_ms
  else if bool_decide (is_Some existing_bundle) || bool_decide (is_Some existing_index) then lift (Err AE_Identity)
  else
    applied ← call (apply_batch_if_all
      [mkBatchCondition CORE_BUNDLE_NAMESPACE bundle_key None;
       mkBatchCondition CORE_BUNDLE_ASSIGNMENT_INDEX_NAMESPACE assignment_key None]
      [BatchPut CORE_BUNDLE_NAMESPACE bundle_key bs;
       BatchPut CORE_BUNDLE_ASSIGNMENT_INDEX_NAMESPACE assignment_key bundle_id]);
    if applied : bool then install_or_mark_pending b now_ms else lift (Err StateRace).

(** ** Captures *)

Definition capture_receipt_of (b : CoreAssignmentBundleV1) (envelope : GatewayCaptureEnvelopeV1) (core_received_ms outcome reason_code : Z)
    (accepted_share_id : Hash256) (signature : SignatureBytes) : GatewayCaptureReceiptV1 :=
  mkGatewayCaptureReceiptV1 CORE_V2 GATEWAY_HANDOFF_V1 engine.(en_network_id) (object_id b.(bu_manifest))
    (object_id b.(bu_assignment)) (object_id envelope) b.(bu_assignment).(ga_gateway_pubkey)
    (verifying_key engine.(en_core_signing_key)) envelope.(gce_gateway_sequence) core_received_ms outcome reason_code
    accepted_share_id signature.
Definition capture_receipt (b : CoreAssignmentBundleV1) (envelope : GatewayCaptureEnvelopeV1) (core_received_ms outcome reason_code : Z)
    (accepted_share_id : Hash256) : GatewayCaptureReceiptV1 :=
  let receipt := capture_receipt_of b envelope core_received_ms outcome reason_code accepted_share_id in
  receipt (sign_object engine.(en_core_signing_key) engine.(en_network_id) (receipt [])).

Definition persist_noncredit (b : CoreAssignmentBundleV1) (envelope : GatewayCaptureEnvelopeV1) (core_received_ms outcome reason_code : Z) :
    admission CaptureAdmission :=
  let receipt := capture_receipt b envelope core_received_ms outcome reason_code zero_hash in
  persisted ← handoff_call (persist_noncredit_capture_disposition env b.(bu_manifest) b.(bu_assignment) envelope receipt);
  match persisted with
  | Committed | ExactRecord => mret (mkCaptureAdmission receipt None false)
  | PreconditionMismatch => lift (Err StateRace)
  end.

Definition capture_share_of (b : CoreAssignmentBundleV1) (envelope : GatewayCaptureEnvelopeV1) (signature : SignatureBytes) : ShareV2 :=
  mkShareV2 CORE_V2 engine.(en_network_id) (object_id b.(bu_session)) (object_id b.(bu_assignment)) (object_id b.(bu_body))
    (verifying_key engine.(en_operator_signing_key)) (object_id b.(bu_payout_bucket)) envelope.(gce_nonce) envelope.(gce_ntime)
    envelope.(gce_extra_nonce) envelope.(gce_raw_share_hash) b.(bu_assignment).(ga_capture_target) []
    (Some (object_id envelope)) signature.
Definition captured_share (b : CoreAssignmentBundleV1) (envelope : GatewayCaptureEnvelopeV1) : ShareV2 :=
  capture_share_of b envelope (sign_object engine.(en_operator_signing_key) engine.(en_network_id) (capture_share_of b envelope [])).
Definition capture_context (b : CoreAssignmentBundleV1) (envelope : GatewayCaptureEnvelopeV1) (core_received_ms : Z)
    (oracle : ParentChainOracle) : GatewayShareValidationContext :=
  mkGatewayShareValidationContext b.(bu_assignment) b.(bu_manifest) envelope b.(bu_session) b.(bu_parent_certificate) b.(bu_body)
    b.(bu_descriptor) b.(bu_body_certificate) b.(bu_payout_bucket) b.(bu_mask_roster) b.(bu_availability_roster)
    b.(bu_settlement_roster) core_received_ms oracle.

(** The disposition of a capture that has no receipt yet. *)
Definition dispose_capture (b : CoreAssignmentBundleV1) (envelope : GatewayCaptureEnvelopeV1) (core_received_ms : Z) :
    admission CaptureAdmission :=
  asked ← emoment;
  match validate_gateway_share (captured_share b envelope)
    (capture_context b envelope core_received_ms (engine.(en_parent_oracle) asked)) with
  | Ok validated =>
      let share_id := validated.(vs_share_id) in
      let accepted := capture_receipt b envelope core_received_ms CAPTURE_OUTCOME_ACCEPTED CAPTURE_REASON_VALIDATED share_id in
      let builder := builder_new CORE_V2 engine.(en_network_id) (object_id b.(bu_session)) 1 zero_hash 0 (replicate 64 x00) in
      outcome ← eattempt (accept_gateway_durable env builder validated b.(bu_manifest) b.(bu_assignment) envelope accepted);
      match outcome with
      | Ok _ => mret (mkCaptureAdmission accepted (Some share_id) false)
      | Err DuplicateWork => persist_noncredit b envelope core_received_ms CAPTURE_OUTCOME_DUPLICATE CAPTURE_REASON_DUPLICATE_WORK
      | Err error => lift (Err (AE_Share error))
      end
  | Err error =>
      persist_noncredit b envelope core_received_ms
        (match error with DuplicateWork => CAPTURE_OUTCOME_DUPLICATE | _ => CAPTURE_OUTCOME_REJECTED end) (share_reason error)
  end.

Definition admit_capture (envelope : GatewayCaptureEnvelopeV1) (core_received_ms : Z) : admission CaptureAdmission :=
  found ← journal_call (load env KindGatewayCaptureReceipt (object_id envelope));
  match found with
  | Some bs =>
      receipt ← lift (map_err AE_Codec (from_canonical_bytes bs RECEIPT_LIMITS));
      _ ← lift (map_err AE_Handoff (validate_capture_receipt envelope receipt));
      mret (mkCaptureAdmission receipt
        (if receipt.(gcr_outcome) =? CAPTURE_OUTCOME_ACCEPTED then Some receipt.(gcr_accepted_share_id) else None) true)
  | None =>
      b ← bundle_for_assignment envelope.(gce_assignment_id);
      asked ← emoment;
      _ ← lift (validate_local_bundle b core_received_ms (engine.(en_parent_oracle) asked));
      dispose_capture b envelope core_received_ms
  end.

(** ** The transition to the pending bundle *)

Definition drain_receipt_of (active pending : CoreAssignmentBundleV1) (drain : GatewayAssignmentDrainV1) (core_received_ms : Z)
    (signature : SignatureBytes) : CoreAssignmentDrainReceiptV1 :=
  mkCoreAssignmentDrainReceiptV1 CORE_V2 GATEWAY_HANDOFF_V1 engine.(en_network_id) (object_id active.(bu_manifest))
    (object_id active.(bu_assignment)) (object_id drain) active.(bu_assignment).(ga_gateway_pubkey)
    (verifying_key engine.(en_core_signing_key)) drain.(gad_last_gateway_sequence)
    pending.(bu_assignment).(ga_assignment_sequence) core_received_ms DRAIN_OUTCOME_COMPLETE 0 signature.
Definition signed_drain_receipt (active pending : CoreAssignmentBundleV1) (drain : GatewayAssignmentDrainV1) (core_received_ms : Z) :
    CoreAssignmentDrainReceiptV1 :=
  let receipt := drain_receipt_of active pending drain core_received_ms in
  receipt (sign_object engine.(en_core_signing_key) engine.(en_network_id) (receipt [])).

(** The active and the pending bundle that a drain and a transition are about. *)
Definition check_transition_identity (active pending : CoreAssignmentBundleV1) (drain : GatewayAssignmentDrainV1)
    (transition : GatewayAssignmentTransitionV1) : result AdmissionError unit :=
  replacement ← ok_or pending.(bu_replacement) AE_Identity;
  if bool_decide (drain.(gad_assignment_id) ≠ object_id active.(bu_assignment))
     || bool_decide (replacement.(arp_previous_assignment_id) ≠ object_id active.(bu_assignment))
     || bool_decide (transition.(gat_previous_assignment_id) ≠ object_id active.(bu_assignment))
     || bool_decide (transition.(gat_next_assignment_id) ≠ object_id pending.(bu_assignment))
  then Err AE_Identity else Ok tt.

(** The pending bundle becomes the active one. *)
Definition swap_active (active pending : CoreAssignmentBundleV1) : admission unit :=
  let active_id := object_id active in
  let pending_id := object_id pending in
  applied ← call (apply_batch_if_all
    [mkBatchCondition CORE_BUNDLE_STATE_NAMESPACE CORE_BUNDLE_ACTIVE_KEY (Some active_id);
     mkBatchCondition CORE_BUNDLE_STATE_NAMESPACE CORE_BUNDLE_PENDING_KEY (Some pending_id)]
    [BatchPut CORE_BUNDLE_STATE_NAMESPACE CORE_BUNDLE_ACTIVE_KEY pending_id;
     BatchDelete CORE_BUNDLE_STATE_NAMESPACE CORE_BUNDLE_PENDING_KEY]);
  if applied : bool then mret tt
  else
    current ← active_bundle;
    if bool_decide (object_id <$> current ≠ Some pending_id) then lift (Err StateRace) else mret tt.

Definition complete_pending_transition (drain : GatewayAssignmentDrainV1) (transition : GatewayAssignmentTransitionV1)
    (core_received_ms : Z) : admission CoreAssignmentDrainReceiptV1 :=
  found_active ← active_bundle;
  active ← lift (ok_or found_active NoActiveBundle);
  found_pending ← pending_bundle;
  pending ← lift (ok_or found_pending NoPendingBundle);
  _ ← lift (check_transition_identity active pending drain transition);
  _ ← handoff_call (persist_gateway_assignment_drain env active.(bu_manifest) drain);
  let receipt := signed_drain_receipt active pending drain core_received_ms in
  _ ← lift (map_err AE_Handoff (validate_core_drain_receipt active.(bu_manifest) drain receipt));
  _ ← journal_call (persist env KindCoreAssignmentDrainReceipt (object_id active.(bu_assignment)) (to_canonical_bytes receipt));
  _ ← handoff_call (persist_gateway_context_manifest env pending.(bu_manifest) core_received_ms);
  _ ← handoff_call (persist_gateway_assignment_transition env pending.(bu_manifest) pending.(bu_assignment) transition);
  _ ← swap_active active pending;
  mret receipt.
End Engine.
