(* ===== verification/AdmissionSafety.v ===== *)
(** * Core-side admission: what is accepted, and how the two ends fit together

    A capture that the operator's spool signs against a bundle both sides accept
    passes the Core's validation; what the engine answers about a capture among
    other writers; and what becomes of an interrupted transition. *)

From S2P Require Import Prelude Codec Hash Types Objects Header Target Merkle Storage Journal Crypto HandoffObjects Handoff HandoffSafety Share Receipts ReceiptSafety Body Client Bundle Spool LinkDemo SpoolSafety Admission.

#[local] Set Default Goal Selector "!".

(** Splits a disjunction of failed checks into the facts that hold. *)
Ltac checked E :=
  repeat match type of E with _ || _ = false => let F := fresh "F" in apply orb_false_iff in E as [E F] end;
  repeat match goal with
  | H : negb _ = false |- _ => apply negb_false_iff in H
  | H : (_ =? _) = true |- _ => apply Z.eqb_eq in H
  | H : (_ =? _) = false |- _ => apply Z.eqb_neq in H
  | H : (_ <? _) = false |- _ => apply Z.ltb_ge in H
  | H : bool_decide (_ ≠ _) = false |- _ => apply bool_decide_eq_false, dec_stable in H
  | H : bool_decide (_ = _) = false |- _ => apply bool_decide_eq_false in H
  end.

(** Shows that none of the checks fails. *)
Ltac pass1 :=
  match goal with
  | |- _ || _ = false => apply orb_false_iff; split
  | |- negb (_ =? _) = false => apply negb_false_iff, Z.eqb_eq
  | |- negb _ = false => apply negb_false_iff
  | |- (_ =? _) = false => apply Z.eqb_neq
  | |- (_ <? _) = false => apply Z.ltb_ge
  | |- bool_decide (_ ≠ _) = false => apply bool_decide_eq_false; let N := fresh in intros N; apply N
  | |- bool_decide (_ = _) = false => apply bool_decide_eq_false
  end.
Ltac pass :=
  match goal with
  | |- (if ?c then _ else _) = _ => let E := fresh in assert (c = false) as E; [repeat pass1; try congruence; try lia|rewrite E; clear E]
  end.

Section Composition.
Context {digests : Digests} {digests_ok : DigestsOk} {ed : Ed25519} {ed_ok : Ed25519Ok} {hexes : Hex}.

(** ** What a valid bundle is *)

Lemma bundle_validate_stages b now_ms pinned : bundle_validate b now_ms pinned = Ok tt →
  check_bundle_versions b pinned = Ok tt ∧ bundle_verify pinned b.(bu_core_signature) b.(bu_network_id) b = Ok tt ∧
  validate_context_manifest b.(bu_manifest) now_ms = Ok tt ∧ validate_gateway_assignment b.(bu_manifest) b.(bu_assignment) = Ok tt ∧
  check_bundle_identities b = Ok tt ∧ check_bundle_signatures b = Ok tt ∧ check_bundle_committees b = Ok tt ∧
  check_bundle_targets b = Ok tt ∧ check_bundle_bucket b = Ok tt ∧ check_bundle_replacement b = Ok tt.
Proof.
  unfold bundle_validate. intros ([] & ? & H)%bind_ok. apply bind_ok in H as ([] & ? & H). apply bind_ok in H as ([] & ?%map_err_ok & H).
  apply bind_ok in H as ([] & ?%map_err_ok & H). apply bind_ok in H as ([] & _ & H). apply bind_ok in H as ([] & ? & H).
  apply bind_ok in H as ([] & ? & H). apply bind_ok in H as ([] & ? & H). apply bind_ok in H as ([] & ? & H).
  apply bind_ok in H as ([] & ? & H). done.
Qed.

Lemma bundle_verify_ok {A} `{UnsignedObject A} key signature network_id (object : A) :
  bundle_verify key signature network_id object = Ok tt → verify_operator key signature network_id object = Ok tt.
Proof. unfold bundle_verify, verify_operator. intros Hv%map_err_ok. by rewrite Hv. Qed.

(** The session and the body of a bundle name the network of the bundle, which the validation
    of the bundle does not compare. *)
Definition linked_networks (b : CoreAssignmentBundleV1) : bool :=
  (b.(bu_session).(ms_network_id) =? b.(bu_network_id)) && (b.(bu_body).(bbp_network_id) =? b.(bu_network_id)).

(** ** The stages of share validation on a bundle's own share *)

Context (engine : CoreAdmissionEngine) (b : CoreAssignmentBundleV1) (core_received_ms : Z).
Context (asked answered_by : ParentChainOracle).
Hypothesis bundle_valid : validate_local_bundle engine b core_received_ms asked = Ok tt.

Lemma local_bundle_ok :
  b.(bu_network_id) = engine.(en_network_id) ∧ b.(bu_assignment).(ga_core_handoff_pubkey) = verifying_key engine.(en_core_signing_key) ∧
  b.(bu_assignment).(ga_operator_pubkey) = verifying_key engine.(en_operator_signing_key) ∧
  bundle_validate b core_received_ms (verifying_key engine.(en_core_signing_key)) = Ok tt ∧
  asked b.(bu_parent_certificate) = true.
Proof.
  unfold validate_local_bundle in bundle_valid. destruct (_ || _) eqn:E in bundle_valid; [done|]. checked E.
  apply bind_ok in bundle_valid as ([] & H%map_err_ok & Ho). destruct (asked _); done.
Qed.

Context (envelope : GatewayCaptureEnvelopeV1) (observed_ms : Z).
Let share := captured_share engine b envelope.
Let common := gateway_common (capture_context b envelope core_received_ms answered_by) observed_ms.

Lemma links_hold v :
  view_gateway b.(bu_assignment) envelope.(gce_extra_nonce) = Ok v →
  b.(bu_session).(ms_assignment_start_ms) ≤ observed_ms ≤ b.(bu_session).(ms_submission_end_ms) →
  check_links share v common =
    if linked_networks b then Ok tt else Err (SE_Linkage "protocol version or network").
Proof.
  intros Hview Hwin. destruct local_bundle_ok as (Hn & Hc & Ho & Hb & _).
  apply bundle_validate_stages in Hb as (V & _ & _ & _ & I & _ & _ & T & _).
  unfold check_bundle_versions in V. destruct (_ || _) eqn:E1 in V; [done|]. destruct (_ || _) eqn:E2 in V; [done|]. clear V.
  unfold check_bundle_identities in I. case_bool_decide; [done|]. destruct (_ || _) eqn:E3 in I; [done|]. clear I.
  unfold check_bundle_targets in T. destruct (_ || _) eqn:E4 in T; [done|]. clear T.
  checked E1. checked E2. checked E3. checked E4.
  unfold view_gateway in Hview. destruct (_ || _) in Hview; [done|]. injection Hview as <-.
  unfold check_links, share, common, captured_share, capture_share_of, gateway_common, capture_context. cbn zeta.
  cbn [sh_protocol_version sh_network_id sh_session_id sh_assignment_id sh_body_package_id sh_operator_pubkey sh_payout_bucket_id
    csv_session csv_parent_certificate csv_body csv_descriptor csv_body_certificate csv_payout_bucket csv_observed_ms
    gsv_session gsv_parent_certificate gsv_body gsv_descriptor gsv_body_certificate gsv_payout_bucket
    av_protocol_version av_network_id av_object_id av_session_id av_body_package_id av_body_certificate_id av_operator_pubkey av_payout_bucket_id].
  destruct (linked_networks b) eqn:El; unfold linked_networks in El.
  2: { match goal with |- (if ?c then _ else _) = _ => assert (c = true) as ->; [|done] end.
    apply andb_false_iff in El as [El|El]; apply Z.eqb_neq in El; rewrite !orb_true_iff, !negb_true_iff, !Z.eqb_neq; naive_solver congruence. }
  apply andb_true_iff in El as [N1%Z.eqb_eq N2%Z.eqb_eq].
  pass. pass. change (validate_parents _) with (Ok (E := ObjectError) tt). cbn [map_err mbind result_bind]. by repeat pass.
Qed.

(** The share's check of the payout bucket, signed for the bucket's own network; the bundle's
    check is of the same signature for the bundle's network. *)
Definition bucket_signed (b : CoreAssignmentBundleV1) : result ShareError unit :=
  verify_operator b.(bu_assignment).(ga_operator_pubkey) b.(bu_payout_bucket).(pb_signature)
    b.(bu_payout_bucket).(pb_network_id) b.(bu_payout_bucket).
Lemma bucket_signed_ok : b.(bu_payout_bucket).(pb_network_id) = b.(bu_network_id) → bucket_signed b = Ok tt.
Proof.
  intros N3. destruct local_bundle_ok as (_ & _ & Ho & Hb & _). apply bundle_validate_stages in Hb as (_ & _ & _ & _ & _ & Hs & _).
  unfold check_bundle_signatures in Hs. apply bind_ok in Hs as ([] & S1%bundle_verify_ok & Hs).
  apply bind_ok in Hs as ([] & S2%bundle_verify_ok & S3%bundle_verify_ok). unfold bucket_signed. by rewrite N3.
Qed.

Lemma signatures_hold v :
  view_gateway b.(bu_assignment) envelope.(gce_extra_nonce) = Ok v → linked_networks b = true →
  verify_signatures share v common = bucket_signed b.
Proof.
  intros Hview (N1%Z.eqb_eq & N2%Z.eqb_eq)%andb_true_iff. destruct local_bundle_ok as (Hn & Hc & Ho & Hb & _).
  apply bundle_validate_stages in Hb as (V & _ & _ & _ & _ & Hs & _).
  unfold check_bundle_versions in V. destruct (_ || _) eqn:E1 in V; [done|]. clear V. checked E1.
  unfold check_bundle_signatures in Hs. apply bind_ok in Hs as ([] & S1%bundle_verify_ok & Hs).
  apply bind_ok in Hs as ([] & S2%bundle_verify_ok & S3%bundle_verify_ok).
  unfold view_gateway in Hview. destruct (_ || _) in Hview; [done|]. injection Hview as <-.
  unfold verify_signatures, view_verify_signature, share, common, captured_share, gateway_common, capture_context.
  cbn [capture_share_of sh_operator_pubkey sh_operator_signature sh_network_id csv_body csv_payout_bucket gsv_body gsv_payout_bucket av_signed
    av_operator_pubkey av_network_id]. rewrite N2, <- Ho, S1. cbn [mbind result_bind].
  match goal with H : b.(bu_network_id) = b.(bu_assignment).(ga_network_id) |- _ => rewrite <- H end.
  rewrite S2. cbn [mbind result_bind]. fold (bucket_signed b).
  destruct (bucket_signed b) as [[]|] eqn:Es; [|done]. cbn [mbind result_bind]. rewrite Ho. unfold verify_operator.
  assert (verify_object (verifying_key engine.(en_operator_signing_key)) ED25519_SUITE
    (sign_object engine.(en_operator_signing_key) engine.(en_network_id) (capture_share_of engine b envelope [])) engine.(en_network_id)
    (capture_share_of engine b envelope (sign_object engine.(en_operator_signing_key) engine.(en_network_id) (capture_share_of engine b envelope []))) = Ok tt) as ->; [|done].
  apply verify_object_ok. split; [done|]. split_and!; [apply verifying_key_valid|unfold len, sign_object; by rewrite ed_sign_length|].
  apply ed_sign_verifies.
Qed.

Lemma committees_hold : verify_committees common = Ok tt.
Proof.
  destruct local_bundle_ok as (_ & _ & _ & Hb & _). apply bundle_validate_stages in Hb as (_ & _ & _ & _ & _ & _ & Hc & _).
  unfold check_bundle_committees in Hc. destruct (_ || _) eqn:E in Hc; [done|].
  apply bind_ok in Hc as ([] & C1%map_err_ok & Hc). apply bind_ok in Hc as ([] & C2%map_err_ok & C3%map_err_ok).
  unfold verify_committees, common, gateway_common, capture_context. cbn [csv_mask_roster csv_availability_roster csv_settlement_roster csv_session
    csv_body_certificate csv_parent_certificate gsv_mask_roster gsv_availability_roster gsv_settlement_roster gsv_session gsv_body_certificate
    gsv_parent_certificate]. cbn zeta. rewrite E, C1. cbn [mbind result_bind]. by rewrite C2.
Qed.

Lemma bucket_holds : check_payout_bucket common = Ok tt.
Proof.
  destruct local_bundle_ok as (_ & _ & _ & Hb & _). apply bundle_validate_stages in Hb as (_ & _ & _ & _ & _ & _ & _ & _ & Hb & _).
  unfold check_bundle_bucket in Hb. apply bind_ok in Hb as (h & Hh%ok_or_ok & Hb).
  unfold check_payout_bucket, common, gateway_common, capture_context. cbn [csv_body csv_payout_bucket gsv_body gsv_payout_bucket].
  rewrite Hh. cbn [ok_or mbind result_bind]. by destruct (_ || _).
Qed.

Lemma targets_hold v :
  view_gateway b.(bu_assignment) envelope.(gce_extra_nonce) = Ok v → envelope.(gce_ntime) = b.(bu_assignment).(ga_ntime) →
  accepts_extra_nonce b.(bu_assignment) envelope.(gce_extra_nonce) = true → check_targets share v common = Ok tt.
Proof.
  intros Hview Hnt Hx. destruct local_bundle_ok as (_ & _ & _ & Hb & _). apply bundle_validate_stages in Hb as (_ & _ & _ & _ & _ & _ & _ & T & _).
  unfold check_bundle_targets in T. destruct (_ || _) eqn:E in T; [done|]. apply bind_ok in T as (p & Hp%map_err_ok & T).
  destruct (_ || _) eqn:E2 in T; [done|]. clear T. checked E. checked E2.
  unfold view_gateway in Hview. destruct (_ || _) in Hview; [done|]. injection Hview as <-.
  unfold check_targets, share, common, gateway_common, capture_context, captured_share. cbn zeta.
  cbn [capture_share_of sh_ntime sh_declared_target csv_session csv_body gsv_session gsv_body av_ntime av_extra_nonce_authorized av_capture_target av_edge_target].
  pass; [done..|]. rewrite (derive_network_target _ _ _ Hp), Hp. cbn [map_err mbind result_bind]. by pass.
Qed.

Lemma proof_holds capture :
  validate_capture_assignment capture b.(bu_assignment) = Ok tt → validate_capture_context capture b = Ok tt →
  envelope.(gce_nonce) = capture.(fc_miner_header).(mh_nonce) → envelope.(gce_ntime) = capture.(fc_miner_header).(mh_time) →
  envelope.(gce_extra_nonce) = capture.(fc_miner_header).(mh_extra_nonce) →
  envelope.(gce_raw_share_hash) = capture.(fc_raw_share_hash) → check_proof share common = Ok tt.
Proof.
  intros Ha Hc En Et Ex Eh. destruct local_bundle_ok as (_ & _ & _ & Hb & _).
  apply bundle_validate_stages in Hb as (_ & _ & _ & _ & I & _ & _ & T & _).
  unfold check_bundle_identities in I. case_bool_decide; [done|]. destruct (_ || _) eqn:E3 in I; [done|]. clear I.
  unfold check_bundle_targets in T. destruct (_ || _) eqn:E4 in T; [done|]. clear T.
  unfold validate_capture_assignment in Ha. destruct (_ || _) eqn:E1 in Ha; [done|]. clear Ha.
  unfold validate_capture_context in Hc. destruct (_ || _) eqn:E2 in Hc; [done|]. clear Hc.
  checked E1. checked E2. checked E3. checked E4.
  assert (share_header share common = capture.(fc_miner_header)) as Hh.
  { unfold share_header, share, common, gateway_common, capture_context, captured_share. cbn zeta.
    cbn [capture_share_of sh_nonce sh_ntime sh_extra_nonce csv_body csv_session gsv_body gsv_session]. rewrite En, Et, Ex.
    destruct capture.(fc_miner_header). cbn in *. congruence. }
  unfold check_proof. rewrite Hh. cbn zeta. unfold share, common, gateway_common, capture_context, captured_share.
  cbn [capture_share_of sh_raw_share_hash csv_session gsv_session].
  pass.
  replace (mh_share_hash capture.(fc_miner_header)) with capture.(fc_raw_share_hash).
  replace b.(bu_session).(ms_capture_target) with b.(bu_assignment).(ga_capture_target).
  by match goal with H : bytes_ltb _ _ = false |- _ => rewrite H end.
Qed.
End Composition.

(** The moment at which the Core observes a capture lies in the session. *)
Definition observable (b : CoreAssignmentBundleV1) (received_ms core_received_ms : Z) : Prop :=
  let a := b.(bu_assignment) in
  (a.(ga_observation_policy) = GATEWAY_OBSERVATION_CORE_RECEIPT_TIME ∧
    b.(bu_session).(ms_assignment_start_ms) ≤ core_received_ms ≤ b.(bu_session).(ms_submission_end_ms)) ∨
  (a.(ga_observation_policy) = GATEWAY_OBSERVATION_DELEGATED_SIGNED_TIME_V1 ∧ 0 < a.(ga_maximum_clock_skew_ms) ∧
    Z.abs (received_ms - core_received_ms) ≤ a.(ga_maximum_clock_skew_ms)).

Section EndToEnd.
Context {digests : Digests} {digests_ok : DigestsOk} {ed : Ed25519} {ed_ok : Ed25519Ok} {hexes : Hex}.

Lemma signed_envelope_signature spool capture b n :
  let e := signed_envelope spool capture b n in
  verify_signature e.(gce_gateway_pubkey) e.(gce_gateway_signature) e.(gce_network_id) e = Ok tt.
Proof.
  cbn zeta. unfold verify_signature. apply map_err_ok, verify_object_ok. split; [done|].
  split_and!; [apply verifying_key_valid|unfold len, signed_envelope, sign_object; cbn; by rewrite ed_sign_length|]. apply ed_sign_verifies.
Qed.

(** What validation of the envelope answers. *)
Definition observed_at (b : CoreAssignmentBundleV1) (received_ms core_received_ms : Z) : Z :=
  if b.(bu_assignment).(ga_observation_policy) =? GATEWAY_OBSERVATION_CORE_RECEIPT_TIME then core_received_ms else received_ms.

Lemma spooled_envelope_valid spool capture b n core_received_ms :
  validate_gateway_assignment b.(bu_manifest) b.(bu_assignment) = Ok tt →
  b.(bu_assignment).(ga_session_id) = object_id b.(bu_session) → b.(bu_network_id) = b.(bu_assignment).(ga_network_id) →
  foreign_bundle spool b = false → validate_capture_assignment capture b.(bu_assignment) = Ok tt → 0 < n →
  observable b capture.(fc_received_ms) core_received_ms →
  validate_capture_envelope b.(bu_manifest) b.(bu_assignment) (signed_envelope spool capture b n) core_received_ms =
    Ok (observed_at b capture.(fc_received_ms) core_received_ms).
Proof.
  intros Hva Hsid Hnet Hf Ha Hn Hobs. unfold foreign_bundle in Hf. pose proof Hva as Hva'.
  unfold validate_gateway_assignment in Hva'. apply bind_ok in Hva' as ([] & Hvc & Hva'). unfold version_context in Hvc.
  destruct (_ || _) eqn:E0 in Hvc; [done|]. clear Hvc. destruct (_ || _) eqn:E1 in Hva'; [done|]. clear Hva'.
  unfold validate_capture_assignment in Ha. destruct (_ || _) eqn:E2 in Ha; [done|]. clear Ha.
  checked Hf. checked E0. checked E1. checked E2.
  assert (capture.(fc_miner_header).(mh_nonce) - b.(bu_assignment).(ga_nonce_start) >= 0 ∧
    capture.(fc_miner_header).(mh_nonce) ≤ b.(bu_assignment).(ga_nonce_end) ∧
    (capture.(fc_miner_header).(mh_nonce) - b.(bu_assignment).(ga_nonce_start)) mod b.(bu_assignment).(ga_nonce_stride) = 0) as (Hn1 & Hn2 & Hn3).
  { match goal with H : match checked_sub ?x ?y with _ => _ end = false |- _ => unfold checked_sub in H; destruct (Z.leb_spec y x); [|done]; checked H end.
    split_and!; [lia|done|done]. }
  unfold validate_capture_envelope. rewrite Hva. cbn [mbind result_bind].
  pose proof (signed_envelope_signature spool capture b n) as Hsig. cbn zeta in Hsig. rewrite Hsig.
  assert (version_context CORE_V2 GATEWAY_HANDOFF_V1 spool.(os_network_id) b.(bu_assignment).(ga_network_id)
    (verifying_key spool.(os_gateway_signing_key)) spool.(os_core_handoff_pubkey) = Ok tt) as Hvc by (unfold version_context; by pass).
  assert (checked_rem (capture.(fc_miner_header).(mh_nonce) - b.(bu_assignment).(ga_nonce_start)) b.(bu_assignment).(ga_nonce_stride) = Some 0) as Hrem.
  { unfold checked_rem. rewrite (proj2 (Z.eqb_neq _ _)) by done. by rewrite Hn3. }
  cbn [signed_envelope unsigned_envelope gce_core_protocol_version gce_handoff_version gce_network_id gce_context_manifest_id gce_assignment_id
    gce_session_id gce_gateway_pubkey gce_core_handoff_pubkey gce_gateway_sequence gce_gateway_connection_id gce_gateway_received_ms gce_ntime
    gce_extra_nonce gce_nonce gce_raw_share_hash].
  rewrite Hvc. cbn [mbind result_bind]. pass. pass. unfold observed_at.
  destruct Hobs as [(Hp & _)|(Hp & Hskew & Habs)]; rewrite Hp in *.
  - assert (b.(bu_assignment).(ga_maximum_clock_skew_ms) = 0) as ->; [|done].
    match goal with H : _ && negb _ = false |- _ => apply andb_false_iff in H as [H|H]; [done|] end. by apply Z.eqb_eq, negb_false_iff.
  - change (GATEWAY_OBSERVATION_DELEGATED_SIGNED_TIME_V1 =? GATEWAY_OBSERVATION_CORE_RECEIPT_TIME) with false. cbn [andb].
    rewrite Z.eqb_refl, (proj2 (Z.ltb_lt _ _) Hskew). rewrite !(proj2 (Z.leb_le _ _)); done.
Qed.

(** C13: the two ends of the link agree. For a capture that the operator's spool accepts and
    numbers against a bundle the Core has accepted, at every moment the assignment's observation policy
    allows, the result of the Core's complete share validation is fixed: it is never
    refused for its envelope, its links, the other signatures, committees, targets or proof. It is a valid share, with its identifier, work key and work, when
    the session and the body of the bundle name the bundle's network, the payout bucket is signed for the network it names
    and the parent oracle, asked again, still qualifies the parent; otherwise the first
    of the three that fails is the error. A bundle's own validation does not compare these networks; for a bucket of the
    bundle's network the signature check passes. *)
Theorem spooled_capture_validates spool engine b capture n core_received_ms asked again :
  validate_local_bundle engine b core_received_ms asked = Ok tt →
  foreign_bundle spool b = false → validate_capture_assignment capture b.(bu_assignment) = Ok tt →
  validate_capture_context capture b = Ok tt → 0 < n → observable b capture.(fc_received_ms) core_received_ms →
  let e := signed_envelope spool capture b n in
  let share := captured_share engine b e in
  validate_gateway_share share (capture_context b e core_received_ms again) =
    (if negb (linked_networks b) then Err (SE_Linkage "protocol version or network")
     else
       _ ← bucket_signed b;
       if negb (again b.(bu_parent_certificate)) then Err ParentOracleRejected
       else Ok (mkValidatedShare share (object_id share) (work_key share) (work_for_target b.(bu_session).(ms_capture_target)))) ∧
  (b.(bu_payout_bucket).(pb_network_id) = b.(bu_network_id) → bucket_signed b = Ok tt).
Proof.
  intros Hb Hf Ha Hc Hn Hobs. cbn zeta. split; [|by apply (bucket_signed_ok _ _ _ _ Hb)].
  set (e := signed_envelope spool capture b n).
  destruct (local_bundle_ok _ _ _ _ Hb) as (Hnet & Hcore & Hop & Hval & _).
  apply bundle_validate_stages in Hval as (V & _ & Hm & Hva & I & _).
  unfold check_bundle_versions in V. destruct (_ || _) eqn:E1 in V; [done|]. destruct (_ || _) eqn:E2 in V; [done|]. clear V.
  unfold check_bundle_identities in I. case_bool_decide; [done|]. destruct (_ || _) eqn:E3 in I; [done|]. clear I.
  checked E1. checked E2. checked E3.
  assert (validate_capture_envelope b.(bu_manifest) b.(bu_assignment) e core_received_ms =
    Ok (observed_at b capture.(fc_received_ms) core_received_ms)) as Hev by (by apply spooled_envelope_valid).
  assert (b.(bu_session).(ms_assignment_start_ms) ≤ observed_at b capture.(fc_received_ms) core_received_ms ≤ b.(bu_session).(ms_submission_end_ms)) as Hwin.
  { unfold observed_at. destruct Hobs as [(-> & Hw)|(-> & _)]; [done|]. unfold validate_capture_context in Hc.
    destruct (_ || _) eqn:E4 in Hc; [done|]. checked E4. done. }
  destruct (view_gateway b.(bu_assignment) e.(gce_extra_nonce)) as [view|] eqn:Hview.
  2: { exfalso. revert Hview. unfold view_gateway. unfold validate_gateway_assignment in Hva. apply bind_ok in Hva as ([] & Hvc & Hva).
    unfold version_context in Hvc. destruct (_ || _) eqn:E5 in Hvc; [done|]. destruct (_ || _) eqn:E6 in Hva; [done|].
    checked E5. checked E6.
    match goal with |- (if ?c then _ else _) = _ → _ => assert (c = false) as Hcond end.
    { repeat pass1; try congruence; try done; try lia. }
    by rewrite Hcond. }
  unfold validate_capture_assignment in Ha. pose proof Ha as Ha'. destruct (_ || _) eqn:E4 in Ha'; [done|]. checked E4.
  unfold validate_gateway_share. cbn [capture_context gsv_capture_envelope gsv_context_manifest gsv_assignment gsv_core_received_ms].
  rewrite Hm. cbn [map_err mbind result_bind]. rewrite Hev. cbn [map_err mbind result_bind].
  pass; [done..|]. change (sh_extra_nonce (captured_share engine b e)) with e.(gce_extra_nonce). rewrite Hview. cbn [mbind result_bind].
  unfold validate_share_with_assignment.
  rewrite (links_hold _ _ _ _ again Hb e _ view Hview Hwin). destruct (linked_networks b) eqn:El; [|done]. cbn [negb mbind result_bind].
  rewrite (signatures_hold _ _ _ _ again Hb e _ view Hview El). destruct (bucket_signed b) as [[]|]; [|done]. cbn [mbind result_bind].
  rewrite (committees_hold _ _ _ _ again Hb). cbn [mbind result_bind]. rewrite (bucket_holds _ _ _ _ again Hb). cbn [mbind result_bind].
  rewrite (targets_hold _ _ _ _ again Hb e _ view Hview) by done. cbn [mbind result_bind].
  by rewrite (proof_holds _ _ _ _ again Hb e _ capture) by done.
Qed.
End EndToEnd.

(** ** Dispositions among other writers *)

Lemma assignment_typed limits a : ok_GatewayAssignmentV1 limits a → typed_assignment a.
Proof.
  unfold ok_GatewayAssignmentV1, ok_sig, byte_count, MAX_SIGNATURE_BYTES. intros Ha. destruct_and!. split.
  - unfold ok_GatewayAssignmentV1, ok_sig, byte_count, assignment_limits, MAX_SIGNATURE_BYTES. cbn [max_object_bytes]. split_and!; try done. lia.
  - unfold to_canonical_bytes, into_bytes. cbn [encode GatewayAssignmentV1_codec].
    unfold encode_GatewayAssignmentV1, encode_unsigned_GatewayAssignmentV1, encode_SignatureBytes, enc_bytes.
    rewrite !wseq_nil by apply _. rewrite !len_app. unfold enc_u16, enc_u8, enc_u64, enc_u32, enc_fixed. rewrite !app_nil_l.
    pose proof (enc_varint_loop_len 10 (len a.(ga_operator_signature)) ltac:(lia)). fold (enc_varint (len a.(ga_operator_signature))) in *.
    unfold arr in *. unfold len in *. rewrite !to_le_length. cbn [length].
    repeat match goal with E : length _ = _ |- _ => rewrite E; clear E end. lia.
Qed.

Section Admitting.
Context {digests : Digests} {digests_ok : DigestsOk} {ed : Ed25519} {hexes : Hex} {hex_ok : HexOk}.
Context {S : Type} `{!DurableStore S, !DurableStoreLaws S} (env : nat → S → S).
Hypothesis env_rely : ∀ n s v, represents s v → ∃ v', represents (env n s) v' ∧ handoff_rely v v'.

(** A recorded disposition without credit. *)
Lemma noncredit_spec m a e r n s (v : View) :
  typed_assignment a → typed_envelope e → represents s v →
  ∃ res n' s' v', persist_noncredit_capture_disposition env m a e r (n, s) = (res, (n', s')) ∧ represents s' v' ∧ handoff_rely v v' ∧
    (res = Ok Committed ∨ res = Ok ExactRecord → journaled v' (capture_records m a e r)).
Proof.
  intros Ha He Hrep. unfold persist_noncredit_capture_disposition. destruct (_ =? _).
  { eexists _, n, s, v. split_and!; try done. by intros [?|?]. }
  unfold mbind, hclient_bind. destruct (prepare_refines env handoff_rely env_rely rely_journal v m a e r Ha He n s Hrep)
    as (rp & n1 & s1 & v1 & E1 & Hrep1 & Hp). rewrite E1. destruct rp as [p|err].
  2: { eexists _, n1, s1, v1. split_and!; try done. by intros [?|?]. }
  destruct Hp as (Hrec & Hle1 & Hp).
  destruct (persist_keeps env env_rely p.(pcd_records) p.(pcd_conditions) p.(pcd_operations) n1 s1 v1 Hrep1)
    as (ro & n2 & s2 & v2 & E2 & Hrep2 & Hle2 & Hr).
  { intros v0 Hle0 Hcs Hfit. eapply commit_keeps. rewrite <- (app_nil_r p.(pcd_records)) in Hfit |- *. by apply (Hp v0 []). }
  unfold durable. rewrite E2. eexists _, n2, s2, v2. split_and!; [done..|by etrans|]. rewrite <- Hrec. intros Hro. apply Hr.
  destruct ro; cbn in Hro; naive_solver.
Qed.

Lemma journaled_receipt (v : View) m a e r rest :
  journaled v (capture_records m a e r ++ rest) → v !! record_key KindGatewayCaptureReceipt (object_id e) = Some (to_canonical_bytes r).
Proof. intros [Hj _]%Forall_app. unfold capture_records in Hj. rewrite !Forall_cons in Hj. by destruct Hj as (_ & _ & _ & ? & _). Qed.

(** A prepared disposition carries a valid receipt. *)
Lemma prepared_receipt m a e r w p w' :
  prepare_capture_disposition env m a e r w = (Ok p, w') → validate_capture_receipt e r = Ok tt.
Proof.
  unfold prepare_capture_disposition, mbind, hclient_bind, hlift. destruct (validate_context_manifest _ _); [|done].
  destruct (validate_capture_envelope _ _ _ _); [|done]. by destruct (validate_capture_receipt e r) as [[]|].
Qed.
Lemma noncredit_receipt m a e r w o w' :
  persist_noncredit_capture_disposition env m a e r w = (Ok o, w') → validate_capture_receipt e r = Ok tt.
Proof.
  unfold persist_noncredit_capture_disposition, mbind, hclient_bind. destruct (_ =? _); [done|].
  destruct (prepare_capture_disposition _ _ _ _ _ _) as [[p|] ?] eqn:Ep; [|done]. intros _. by eapply prepared_receipt.
Qed.
Lemma accepted_receipt b vs m a e r w b' w' :
  accept_gateway_durable env b vs m a e r w = (Ok b', w') → validate_capture_receipt e r = Ok tt ∧ arr 32 vs.(vs_share_id).
Proof.
  unfold accept_gateway_durable, mbind, sclient_bind, slift. destruct (check_derivation vs) eqn:Ed; [|done]. destruct (check_new b vs); [|done].
  destruct (check_disposition vs a e r); [|done]. unfold handoff.
  destruct (prepare_capture_disposition _ _ _ _ _ _) as [[p|] ?] eqn:Ep; [|done]. intros _. split; [by eapply prepared_receipt|].
  unfold check_derivation in Ed. destruct (_ || _) eqn:Ec in Ed; [done|]. checked Ec. replace (vs_share_id vs) with (object_id (vs_share vs)).
  apply object_id_length'.
Qed.

Context {ed_ok : Ed25519Ok} (engine : CoreAdmissionEngine) (envelope : GatewayCaptureEnvelopeV1).

(** The values of the Rust types. *)
Definition engine_typed (now : Z) : Prop :=
  uint 8 engine.(en_network_id) ∧ typed_envelope envelope ∧ uint 64 now.

Lemma capture_receipt_fits b limits now outcome reason share_id :
  engine_typed now → ok_GatewayAssignmentV1 limits b.(bu_assignment) → uint 8 outcome → uint 16 reason → arr 32 share_id →
  let r := capture_receipt engine b envelope now outcome reason share_id in from_canonical_bytes (to_canonical_bytes r) RECEIPT_LIMITS = Ok r.
Proof.
  intros (Hn & [He _] & Ht) Ha Ho Hr Hid. cbn zeta. unfold capture_receipt.
  assert (uint 64 envelope.(gce_gateway_sequence)) as Hs by (unfold ok_GatewayCaptureEnvelopeV1 in He; by destruct_and!). clear He. set (sig := sign_object _ _ _).
  assert (length sig = 64%nat) as Hsig by apply ed_sign_length. assert (len sig = 64) as Hl by (unfold len; by rewrite Hsig).
  unfold ok_GatewayAssignmentV1 in Ha. destruct_and!. apply from_canonical_complete; [done|..].
  - cbn [codec_ok GatewayCaptureReceiptV1_codec_laws]. unfold ok_GatewayCaptureReceiptV1, capture_receipt_of. cbn [gcr_core_protocol_version
      gcr_handoff_version gcr_network_id gcr_context_manifest_id gcr_assignment_id gcr_capture_envelope_id gcr_gateway_pubkey
      gcr_core_handoff_pubkey gcr_receipt_sequence gcr_core_received_ms gcr_outcome gcr_reason_code gcr_accepted_share_id gcr_core_signature].
    split_and!; try done; try apply object_id_length'; [apply verifying_key_length|]. unfold ok_sig, byte_count. by rewrite Hl.
  - unfold to_canonical_bytes, into_bytes. cbn [encode GatewayCaptureReceiptV1_codec].
    unfold encode_GatewayCaptureReceiptV1, encode_unsigned_GatewayCaptureReceiptV1, encode_SignatureBytes, enc_bytes, capture_receipt_of.
    rewrite !wseq_nil by apply _. cbn [gcr_core_protocol_version
      gcr_handoff_version gcr_network_id gcr_context_manifest_id gcr_assignment_id gcr_capture_envelope_id gcr_gateway_pubkey
      gcr_core_handoff_pubkey gcr_receipt_sequence gcr_core_received_ms gcr_outcome gcr_reason_code gcr_accepted_share_id gcr_core_signature].
    rewrite Hl. unfold enc_u16, enc_u8, enc_u64, enc_u32, enc_fixed, len. rewrite !app_nil_l, !length_app, !to_le_length.
    rewrite (object_id_length' b.(bu_manifest)), (object_id_length' b.(bu_assignment)), (object_id_length' envelope).
    unfold arr in *. rewrite verifying_key_length, Hid, Hsig. replace (length b.(bu_assignment).(ga_gateway_pubkey)) with 32%nat by congruence.
    by vm_compute.
Qed.

(** ** What an answer rests on *)

(** The store holds the receipt of the answer, which any later call reads back. *)
Record answered (v : View) (adm : CaptureAdmission) : Prop := {
  an_receipt : v !! record_key KindGatewayCaptureReceipt (object_id envelope) = Some (to_canonical_bytes adm.(ca_receipt));
  an_decodes : from_canonical_bytes (to_canonical_bytes adm.(ca_receipt)) RECEIPT_LIMITS = Ok adm.(ca_receipt);
  an_valid : validate_capture_receipt envelope adm.(ca_receipt) = Ok tt;
  an_share : adm.(ca_accepted_share_id) =
    if adm.(ca_receipt).(gcr_outcome) =? CAPTURE_OUTCOME_ACCEPTED then Some adm.(ca_receipt).(gcr_accepted_share_id) else None;
}.
(** The share of a new acceptance is valid, and in the journal with its work key. *)
Definition credited (now : Z) (v : View) (adm : CaptureAdmission) : Prop :=
  ∀ share_id, adm.(ca_exact_retry) = false → adm.(ca_accepted_share_id) = Some share_id →
  ∃ b vs asked again, validate_local_bundle engine b now (engine.(en_parent_oracle) asked) = Ok tt ∧
    validate_gateway_share (captured_share engine b envelope) (capture_context b envelope now (engine.(en_parent_oracle) again)) = Ok vs ∧
    vs.(vs_share_id) = share_id ∧ v !! record_key KindAcceptedWorkKey vs.(vs_work_key) = Some share_id ∧
    v !! record_key KindAcceptedShare share_id = Some (to_canonical_bytes vs.(vs_share)).
Definition admits (now : Z) (v : View) (r : result AdmissionError CaptureAdmission) (v' : View) : Prop :=
  handoff_rely v v' ∧ ∀ adm, r = Ok adm → answered v' adm ∧ credited now v' adm.

Lemma admits_err now v e v' : handoff_rely v v' → admits now v (Err e) v'.
Proof. by intros. Qed.
Lemma admits_mono now v v1 r v' : handoff_rely v v1 → admits now v1 r v' → admits now v r v'.
Proof. intros H1 [H2 H]. split; [by etrans|done]. Qed.

Lemma persist_noncredit_admits b limits now outcome reason v :
  engine_typed now → ok_GatewayAssignmentV1 limits b.(bu_assignment) → uint 8 outcome → uint 16 reason → outcome ≠ CAPTURE_OUTCOME_ACCEPTED →
  ewp (persist_noncredit env engine b envelope now outcome reason) v (admits now v).
Proof.
  intros Ht Ha Ho Hr Hne. unfold persist_noncredit. set (r := capture_receipt _ _ _ _ _ _ _). apply ewp_bind, ewp_map_err. intros n s Hrep.
  destruct (noncredit_spec b.(bu_manifest) b.(bu_assignment) envelope r n s v) as (res & n' & s' & v' & E & Hrep' & Hle & Hj);
    [by eapply assignment_typed|by apply Ht|done|].
  exists res, n', s', v'. split; [exact E|]. split; [done|]. destruct res as [o|e]; cbn [map_err]; [|by apply admits_err].
  assert (o = Committed ∨ o = ExactRecord → admits now v (Ok (mkCaptureAdmission r None false)) v') as Hok.
  { intros Hoc. split; [done|]. intros adm [= <-]. split; [|by intros ? _ [=]].
    assert (gcr_outcome r = outcome) as Hout by done. split; cbn [ca_receipt ca_accepted_share_id].
    - apply (journaled_receipt _ b.(bu_manifest) b.(bu_assignment) _ _ []). rewrite app_nil_r. apply Hj. destruct Hoc as [-> | ->]; auto.
    - by eapply capture_receipt_fits.
    - by eapply noncredit_receipt.
    - by rewrite Hout, (proj2 (Z.eqb_neq _ _)). }
  destruct o; [apply ewp_ret; auto..|]. by apply ewp_lift, admits_err.
Qed.

Lemma share_reason_range error : uint 16 (share_reason error).
Proof. by destruct error. Qed.

Lemma dispose_capture_admits b limits now asked v :
  engine_typed now → ok_GatewayAssignmentV1 limits b.(bu_assignment) →
  validate_local_bundle engine b now (engine.(en_parent_oracle) asked) = Ok tt →
  ewp (dispose_capture env engine b envelope now) v (admits now v).
Proof.
  intros Ht Ha Hb. unfold dispose_capture. apply ewp_moment_bind. intros again. destruct (validate_gateway_share _ _) as [vs|error] eqn:Evs.
  2: { eapply persist_noncredit_admits; [done..| |apply share_reason_range|]; by destruct error. }
  set (r := capture_receipt _ _ _ _ _ _ _). set (builder := builder_new _ _ _ _ _ _ _).
  apply ewp_bind. intros n s Hrep.
  destruct (run_accept_spec env env_rely builder (CallAcceptGateway vs b.(bu_manifest) b.(bu_assignment) envelope r) n s v)
    as (res & n' & s' & v' & E & Hrep' & Hle & Hr); [split; [by eapply assignment_typed|by apply Ht]|done|].
  cbn [run_accept] in E. unfold eattempt. rewrite E. exists (Ok res), n', s', v'. split; [done|]. split; [done|].
  destruct res as [b'|error].
  - destruct (Hr b' eq_refl) as [_ Hj]. destruct (accepted_receipt _ _ _ _ _ _ _ _ _ E) as [Hval Hid].
    apply ewp_ret. split; [done|]. intros adm [= <-]. split.
    + split; cbn [ca_receipt ca_accepted_share_id]; [by apply (journaled_receipt _ _ _ _ _ _ Hj)|by eapply capture_receipt_fits|done..].
    + intros share_id _ [= <-]. exists b, vs, asked, again. apply journaled_share in Hj as [? ?]. done.
  - destruct error; try (by apply ewp_lift, admits_err).
    eapply ewp_mono; [|by eapply persist_noncredit_admits]. intros r' v2. by apply admits_mono.
Qed.

Lemma ewp_load_bundle bundle_id v :
  ewp (load_bundle_bytes env bundle_id) v (λ r v', handoff_rely v v' ∧ ∀ b, r = Ok b → ok_bundle CORE_BUNDLE_LIMITS b).
Proof.
  unfold load_bundle_bytes. assert (handoff_rely v v) by reflexivity. destruct (negb _); [by apply ewp_lift|].
  apply ewp_bind. eapply ewp_get; [exact env_rely|by apply hex_row_valid|]. intros v1 H1. apply ewp_lift_bind; [|done]. intros bs _.
  apply ewp_lift_bind; [|done]. intros b Hb%map_err_ok. destruct (_ || _); [by apply ewp_lift|]. apply ewp_ret. split; [done|].
  intros ? [= <-]. by eapply decoded_bundle_ok.
Qed.
Lemma ewp_bundle_for_assignment a v :
  ewp (bundle_for_assignment env a) v (λ r v', handoff_rely v v' ∧ ∀ b, r = Ok b → ok_bundle CORE_BUNDLE_LIMITS b).
Proof.
  unfold bundle_for_assignment. apply ewp_bind. eapply ewp_get; [exact env_rely|by apply hex_row_valid|]. intros v1 H1.
  apply ewp_lift_bind; [|done]. intros id _. destruct (negb _); [by apply ewp_lift|].
  eapply ewp_mono; [|apply ewp_load_bundle]. intros r v2 [H2 ?]. split; [by etrans|done].
Qed.

Lemma ewp_load_receipt v (Φ : result AdmissionError (option bytes) → View → Prop) :
  (∀ v1 : View, handoff_rely v v1 → Φ (Ok (v1 !! record_key KindGatewayCaptureReceipt (object_id envelope))) v1) →
  ewp (journal_call (load env KindGatewayCaptureReceipt (object_id envelope))) v Φ.
Proof.
  intros HΦ. apply ewp_map_err. intros n s Hrep.
  destruct (get_call_among env handoff_rely (kind_namespace KindGatewayCaptureReceipt) (hex_encode (object_id envelope)) n s v env_rely Hrep
    (valid_journal_key _ _)) as (v1 & s1 & E & Hrep1 & Hle).
  unfold load. eexists _, _, s1, v1. split; [exact E|]. split; [done|]. by apply HΦ.
Qed.

Lemma admit_capture_admits now v : engine_typed now → ewp (admit_capture env engine envelope now) v (admits now v).
Proof.
  intros Ht. unfold admit_capture. apply ewp_bind, ewp_load_receipt. intros v1 H1. destruct (v1 !! _) as [bs|] eqn:Er.
  - apply ewp_lift_bind; [|by intros; apply admits_err]. intros r Hr%map_err_ok. apply ewp_lift_bind; [|by intros; apply admits_err].
    intros [] Hval%map_err_ok. apply ewp_ret. split; [done|]. intros adm [= <-]. split; [|by intros ? [=]].
    pose proof Hr as (_ & -> & _)%from_canonical_sound; [|done]. by split.
  - apply ewp_bind. eapply ewp_mono; [|apply ewp_bundle_for_assignment]. intros [b|e] v2 [H2 Hb].
    2: { apply admits_err. by etrans. }
    assert (handoff_rely v v2) by (by etrans). apply ewp_moment_bind. intros asked.
    apply ewp_lift_bind; [|by intros; apply admits_err]. intros [] Hval.
    destruct (Hb b eq_refl) as (_ & _ & _ & _ & _ & Ha & _).
    eapply ewp_mono; [|by eapply dispose_capture_admits]. intros r v3. by apply admits_mono.
Qed.

(** A capture that has an answer gets the same one, at any time. *)
Lemma admit_capture_again now v v1 adm :
  answered v adm → handoff_rely v v1 →
  ewp (admit_capture env engine envelope now) v1 (λ r v2, handoff_rely v1 v2 ∧
    r = Ok (mkCaptureAdmission adm.(ca_receipt) adm.(ca_accepted_share_id) true)).
Proof.
  intros [Hrow Hdec Hval Hshare] Hle. unfold admit_capture. apply ewp_bind, ewp_load_receipt. intros v2 H2.
  assert (v2 !! record_key KindGatewayCaptureReceipt (object_id envelope) = Some (to_canonical_bytes adm.(ca_receipt))) as ->.
  { apply (rely_journal v v2); [by etrans|apply in_journal_kind|done]. }
  rewrite Hdec. cbn [map_err].
  apply ewp_bind, ewp_lift. rewrite Hval. apply ewp_bind, ewp_lift. cbn [map_err]. apply ewp_ret. by rewrite Hshare.
Qed.

(** C14: a capture is answered once. Among writers that respect the handoff, a call to admit a capture ends; when it answers,
    the receipt it returns is valid for the envelope and is the one in the journal, and a share is reported accepted exactly when that receipt
    says so; a new acceptance is of a share that passed complete validation against a bundle of the engine, with its work key and its
    bytes in the journal. From then on, whatever the others do and whenever it is called, the engine
    answers this envelope with the same receipt and the same accepted share. *)
Theorem capture_answer_final now n s v :
  engine_typed now → represents s v →
  ∃ r n1 s1 v1, admit_capture env engine envelope now (n, s) = (r, (n1, s1)) ∧ represents s1 v1 ∧ handoff_rely v v1 ∧
    ∀ adm, r = Ok adm → answered v1 adm ∧ credited now v1 adm ∧
      ∀ later v2 n2 s2, handoff_rely v1 v2 → represents s2 v2 →
      ∃ w, admit_capture env engine envelope later (n2, s2) = (Ok (mkCaptureAdmission adm.(ca_receipt) adm.(ca_accepted_share_id) true), w).
Proof.
  intros Ht Hrep. destruct (admit_capture_admits now v Ht n s Hrep) as (r & n1 & s1 & v1 & E & Hrep1 & Hle & Hr).
  exists r, n1, s1, v1. do 3 (split; [done|]). intros adm Hadm. destruct (Hr adm Hadm) as [Hans Hcred]. do 2 (split; [done|]).
  intros later v2 n2 s2 Hle2 Hrep2. destruct (admit_capture_again later v1 v2 adm Hans Hle2 n2 s2 Hrep2) as (r2 & n3 & s3 & v3 & E2 & _ & _ & ->).
  by exists (n3, s3).
Qed.
End Admitting.

(** ** An interrupted transition *)

Section Interrupted.
Context {digests : Digests} {digests_ok : DigestsOk} {ed : Ed25519} {ed_ok : Ed25519Ok} {hexes : Hex} {hex_ok : HexOk}.
Context {S : Type} `{!DurableStore S, !DurableStoreLaws S} (env : nat → S → S).

(** The other writers respect the handoff and leave the engine's bundles alone. *)
Definition engine_rely (v v' : View) : Prop :=
  handoff_rely v v' ∧ ∀ ns k, ns ∈ [CORE_BUNDLE_NAMESPACE; CORE_BUNDLE_STATE_NAMESPACE] → v' !! (ns, k) = v !! (ns, k).
#[local] Instance engine_rely_preorder : PreOrder engine_rely.
Proof.
  split; [by intros v; split|]. intros v1 v2 v3 [H12 E12] [H23 E23]. split; [by etrans|]. intros ns k Hns. by rewrite E23, E12.
Qed.
Hypothesis env_rely : ∀ n s v, represents s v → ∃ v', represents (env n s) v' ∧ engine_rely v v'.

Lemma commit_engine_rely (v v' : View) call extra : handoff_commit v call extra v' → engine_rely v v'.
Proof.
  intros Hc. split; [by eapply commit_keeps|]. intros ns k Hns.
  assert (∀ records supp, (∀ op, op ∈ supp → (operation_target op).1 ∈ [GATEWAY_CONTEXT_HEAD_NAMESPACE; GATEWAY_ASSIGNMENT_HEAD_NAMESPACE;
    GATEWAY_ASSIGNMENT_STATE_NAMESPACE; GATEWAY_CAPTURE_CURSOR_NAMESPACE]) → commit_view v records supp !! (ns, k) = v !! (ns, k)) as Hframe.
  { intros records supp Hsupp. rewrite commit_view_supp; [apply view_apply_other|].
    - intros (op & Eop & Hop%Hsupp)%list_elem_of_fmap. rewrite <- Eop in Hop. cbn [fst] in Hop. clear -Hns Hop. set_unfold.
      destruct Hns as [->|[->|[]]]; by repeat destruct Hop as [Hop|Hop].
    - set_unfold. destruct Hns as [->|[->|[]]]; by vm_compute. }
  destruct Hc; apply Hframe; intros op; rewrite ?elem_of_cons, ?elem_of_nil; intros; destruct_or?; subst; cbn; set_solver.
Qed.

Context (engine : CoreAdmissionEngine) (network_ok : uint 8 engine.(en_network_id)).

(** The active bundle is [active], and a receipt of the time [t] is in the journal for the drain of its assignment. *)
Definition receipt_at (t : Z) (active : CoreAssignmentBundleV1) (v : View) : Prop :=
  (∃ bs, v !! (CORE_BUNDLE_STATE_NAMESPACE, CORE_BUNDLE_ACTIVE_KEY) = Some (object_id active) ∧
    v !! (CORE_BUNDLE_NAMESPACE, hex_encode (object_id active)) = Some bs ∧ from_canonical_bytes bs CORE_BUNDLE_LIMITS = Ok active) ∧
  ∃ bs r, v !! record_key KindCoreAssignmentDrainReceipt (object_id active.(bu_assignment)) = Some bs ∧
    from_canonical_bytes bs RECEIPT_LIMITS = Ok r ∧ r.(cdr_core_received_ms) = t.

Lemma receipt_at_later t active v v' : engine_rely v v' → receipt_at t active v → receipt_at t active v'.
Proof.
  intros [Hle Hsame] [(bs & Hs & Hb & Hd) (rs & r & Hr & ?)]. split.
  - exists bs. rewrite !Hsame by set_solver. done.
  - exists rs, r. split; [|done]. apply (rely_journal v v' Hle); [apply in_journal_kind|done].
Qed.

Lemma drain_receipt_fits active pending drain now limits :
  ok_GatewayAssignmentV1 limits active.(bu_assignment) → ok_GatewayAssignmentV1 limits pending.(bu_assignment) → typed_drain drain → uint 64 now →
  let r := signed_drain_receipt engine active pending drain now in from_canonical_bytes (to_canonical_bytes r) RECEIPT_LIMITS = Ok r.
Proof.
  intros Ha Hp [Hd _] Ht. cbn zeta. unfold signed_drain_receipt. set (sig := sign_object _ _ _).
  assert (length sig = 64%nat) as Hsig by apply ed_sign_length. assert (len sig = 64) as Hl by (unfold len; by rewrite Hsig).
  unfold ok_GatewayAssignmentV1 in Ha, Hp. destruct_and!. apply from_canonical_complete; [done|..].
  - cbn [codec_ok CoreAssignmentDrainReceiptV1_codec_laws]. unfold ok_CoreAssignmentDrainReceiptV1, drain_receipt_of. cbn [cdr_core_protocol_version
      cdr_handoff_version cdr_network_id cdr_context_manifest_id cdr_assignment_id cdr_gateway_drain_id cdr_gateway_pubkey
      cdr_core_handoff_pubkey cdr_accepted_through_gateway_sequence cdr_receipt_sequence cdr_core_received_ms cdr_outcome cdr_reason_code cdr_core_signature].
    split_and!; try done; try apply object_id_length'; [apply verifying_key_length|]. unfold ok_sig, byte_count. by rewrite Hl.
  - unfold to_canonical_bytes, into_bytes. cbn [encode CoreAssignmentDrainReceiptV1_codec].
    unfold encode_CoreAssignmentDrainReceiptV1, encode_unsigned_CoreAssignmentDrainReceiptV1, encode_SignatureBytes, enc_bytes, drain_receipt_of.
    rewrite !wseq_nil by apply _. cbn [cdr_core_protocol_version
      cdr_handoff_version cdr_network_id cdr_context_manifest_id cdr_assignment_id cdr_gateway_drain_id cdr_gateway_pubkey
      cdr_core_handoff_pubkey cdr_accepted_through_gateway_sequence cdr_receipt_sequence cdr_core_received_ms cdr_outcome cdr_reason_code cdr_core_signature].
    rewrite Hl. unfold enc_u16, enc_u8, enc_u64, enc_u32, enc_fixed, len. rewrite !app_nil_l, !length_app, !to_le_length.
    rewrite (object_id_length' active.(bu_manifest)), (object_id_length' active.(bu_assignment)), (object_id_length' drain).
    unfold arr in *. rewrite verifying_key_length, Hsig. replace (length active.(bu_assignment).(ga_gateway_pubkey)) with 32%nat by congruence.
    by vm_compute.
Qed.

(** Loading the active bundle, and any other. *)
Lemma ewp_active t active v :
  receipt_at t active v →
  ewp (active_bundle env) v (λ r v', engine_rely v v' ∧ ∀ found, r = Ok found → found = Some active ∧ ok_bundle CORE_BUNDLE_LIMITS active).
Proof.
  intros [(bs & Hs & Hb & Hd) _]. unfold active_bundle, load_state_bundle. apply ewp_bind. eapply ewp_get; [exact env_rely|by vm_compute|].
  intros v1 H1. rewrite (proj2 H1), Hs by set_solver. unfold load_bundle_bytes. apply ewp_bind. destruct (negb _); [by apply ewp_lift|].
  apply ewp_bind. eapply ewp_get; [exact env_rely|by apply hex_row_valid|]. intros v2 H2. assert (engine_rely v v2) as H by (exact (transitivity H1 H2)).
  rewrite (proj2 H), Hb by set_solver. apply ewp_bind, ewp_lift, ewp_bind, ewp_lift. rewrite Hd. cbn [map_err].
  destruct (_ || _); [by apply ewp_lift|]. apply ewp_ret, ewp_ret. split; [done|]. intros found [= <-]. split; [done|]. by eapply decoded_bundle_ok.
Qed.
Lemma ewp_pending v :
  ewp (pending_bundle env) v (λ r v', engine_rely v v' ∧ ∀ b, r = Ok (Some b) → ok_bundle CORE_BUNDLE_LIMITS b).
Proof.
  unfold pending_bundle, load_state_bundle. apply ewp_bind. eapply ewp_get; [exact env_rely|by vm_compute|]. intros v1 H1.
  destruct (v1 !! _) as [id|]; [|by apply ewp_ret]. unfold load_bundle_bytes. apply ewp_bind. destruct (negb _); [by apply ewp_lift|].
  apply ewp_bind. eapply ewp_get; [exact env_rely|by apply hex_row_valid|]. intros v2 H2. assert (engine_rely v v2) as H by (exact (transitivity H1 H2)).
  apply ewp_lift_bind; [|done]. intros bs _. apply ewp_lift_bind; [|done]. intros b Hb%map_err_ok. destruct (_ || _); [by apply ewp_lift|].
  apply ewp_ret, ewp_ret. split; [done|]. intros ? [= <-]. by eapply decoded_bundle_ok.
Qed.

Lemma ewp_persist_drain m drain v :
  typed_drain drain → ewp (handoff_call (persist_gateway_assignment_drain env m drain)) v (λ _ v', engine_rely v v').
Proof.
  intros Hd. apply ewp_map_err. intros n s Hrep.
  destruct (run_handoff_refines env engine_rely env_rely (λ v v' H, rely_journal v v' (proj1 H))
    (λ v v' i j H, rely_frozen v v' i j (proj1 H)) v (CallDrain m drain) Hd n s Hrep) as (r & n' & s' & v' & E & Hrep' & Hr).
  exists r, n', s', v'. split; [exact E|]. split; [done|]. destruct r as [[]|]; [|exact (proj1 (proj2 Hr))|exact (proj2 Hr)|exact Hr].
  destruct Hr as (_ & v0 & H0 & Hc%commit_engine_rely). exact (transitivity H0 Hc).
Qed.

(** A journal write that meets other bytes fails and changes nothing. *)
Lemma ewp_persist_conflict kind id x y v (Φ : result AdmissionError unit → View → Prop) :
  v !! record_key kind id = Some y → y ≠ x → (∀ e v', engine_rely v v' → Φ (Err e) v') →
  ewp (journal_call (persist env kind id x)) v Φ.
Proof.
  intros Hy Hne HΦ. apply ewp_map_err. intros n s Hrep.
  assert (∀ v', engine_rely v v' → v' !! record_key kind id = Some y) as Hkept.
  { intros v' [Hle _]. apply (rely_journal v v' Hle); [apply in_journal_kind|done]. }
  destruct (persist_records_among env engine_rely env_rely (λ v v' H, rely_journal v v' (proj1 H)) [mkJournalBatchRecord kind id x] [] [] n s v Hrep)
    as (r & n' & s' & v' & E & Hrep' & Hr).
  unfold persist, persist_with_batch, persist_with_conditions_and_batch, mbind, client_bind. rewrite E.
  destruct Hr as [(Hnc & Hle & Hx)|(-> & _ & v0 & Hle & (_ & Hfit & _)%committed_from_spec)].
  - destruct r as [[]|e]; [done| | |].
    + exfalso. specialize (Hx eq_refl). apply present_journaled in Hx. unfold journaled in Hx. rewrite Forall_singleton in Hx.
      cbn [jr_kind jr_durable_key jr_value] in Hx. apply Hkept in Hle. rewrite Hle in Hx. by injection Hx.
    + eexists _, n', s', v'. split; [done|]. split; [done|]. by apply HΦ.
    + eexists _, n', s', v'. split; [done|]. split; [done|]. by apply HΦ.
  - exfalso. apply Hne. apply (Hfit (mkJournalBatchRecord kind id x)); [set_solver|by apply Hkept].
Qed.

(** C26: a transition that was interrupted is not resumed. Once a receipt of one moment is in the
    journal for the drain of the active assignment, while the engine has not yet moved to the pending bundle, every
    further call to complete the transition at another moment fails, with any drain and transition, and leaves
    the engine in that state: the receipt that it would write anew carries its own time. *)
Theorem interrupted_transition_stuck t active drain transition now v :
  receipt_at t active v → now ≠ t → typed_drain drain → uint 64 now →
  ewp (complete_pending_transition env engine drain transition now) v (λ r v', receipt_at t active v' ∧ ∃ e, r = Err e).
Proof.
  intros Hv Hne Hd Ht.
  assert (∀ v' e, engine_rely v v' → receipt_at t active v' ∧ ∃ e', Err (E := AdmissionError) (A := CoreAssignmentDrainReceiptV1) e = Err e') as Hfail.
  { intros v' e Hle. split; [by eapply receipt_at_later|by eexists]. }
  unfold complete_pending_transition. apply ewp_bind. eapply ewp_mono; [|by apply (ewp_active t active)]. intros [found|e] v1 [H1 Hf]; [|auto].
  destruct (Hf found eq_refl) as [-> (_ & _ & _ & _ & _ & Ha & _)]. cbn [ok_or]. apply ewp_bind, ewp_lift, ewp_bind.
  eapply ewp_mono; [|apply ewp_pending]. intros [found|e] v2 [H12 Hp]; assert (engine_rely v v2) as H2 by (exact (transitivity H1 H12)); [|auto].
  apply ewp_lift_bind; [|auto]. intros pending Hpend%ok_or_ok. subst found. destruct (Hp pending eq_refl) as (_ & _ & _ & _ & _ & Hpa & _).
  apply ewp_lift_bind; [|auto]. intros [] _. apply ewp_bind. eapply ewp_mono; [|by apply ewp_persist_drain].
  intros r v3 H23. assert (engine_rely v v3) as H3 by (exact (transitivity H2 H23)). destruct r as [|e]; [|auto].
  apply ewp_lift_bind; [|auto]. intros [] _. apply ewp_bind.
  destruct (receipt_at_later _ _ _ _ H3 Hv) as [_ (bs & r & Hrow & Hdec & Hr)].
  eapply ewp_persist_conflict; [exact Hrow| |].
  - intros ->. pose proof (drain_receipt_fits active pending drain now CORE_BUNDLE_LIMITS Ha Hpa Hd Ht) as Hfit. cbn zeta in Hfit.
    rewrite Hfit in Hdec. injection Hdec as <-. done.
  - intros e v4 H34. apply Hfail. exact (transitivity H3 H34).
Qed.
End Interrupted.

(** ** Witnesses: a capture from the spool to its receipt, and a transition that failed once *)

Section AdmissionWitness.
#[local] Existing Instances low_digests low_digests_ok toy_ed25519 toy_ed25519_ok lower_hex_instance lower_hex_ok.

Definition demo_engine : CoreAdmissionEngine := mkCoreAdmissionEngine 2 LinkDemo.core LinkDemo.operator (λ _ _, true).

(** The capture is valid against the first bundle, and refused against one whose session is of another network. *)
Lemma spooled_capture_validates_witness :
  let other := signed_envelope LinkDemo.spool LinkDemo.other_capture LinkDemo.other_bundle 1 in
  is_ok (validate_gateway_share (captured_share demo_engine LinkDemo.bundle1 LinkDemo.spooled)
    (capture_context LinkDemo.bundle1 LinkDemo.spooled 510 (λ _, true))) = true ∧
  validate_gateway_share (captured_share demo_engine LinkDemo.other_bundle other)
    (capture_context LinkDemo.other_bundle other 510 (λ _, true)) = Err (SE_Linkage "protocol version or network").
Proof.
  assert (∀ b c, (b, c) ∈ [(LinkDemo.bundle1, LinkDemo.capture); (LinkDemo.other_bundle, LinkDemo.other_capture)] →
    validate_local_bundle demo_engine b 510 (λ _, true) = Ok tt ∧ foreign_bundle LinkDemo.spool b = false ∧
    validate_capture_assignment c b.(bu_assignment) = Ok tt ∧ validate_capture_context c b = Ok tt ∧
    observable b c.(fc_received_ms) 510) as Hpre.
  { intros b c Hin. repeat (apply elem_of_cons in Hin as [[= -> ->]|Hin];
      [split_and!; [vm_compute; reflexivity..|
        left; split_and!; [vm_compute; reflexivity|vm_compute; discriminate|vm_compute; discriminate]]|]).
    by apply elem_of_nil in Hin. }
  split.
  - destruct (Hpre LinkDemo.bundle1 LinkDemo.capture ltac:(left)) as (H1 & H2 & H3 & H4 & H5).
    destruct (spooled_capture_validates LinkDemo.spool demo_engine LinkDemo.bundle1 LinkDemo.capture 1 510
      (λ _, true) (λ _, true) H1 H2 H3 H4 ltac:(lia) H5) as [H Hs].
    rewrite LinkDemo.spooled_signed, H. rewrite Hs by (vm_compute; reflexivity).
    replace (linked_networks LinkDemo.bundle1) with true by (vm_compute; reflexivity). reflexivity.
  - destruct (Hpre LinkDemo.other_bundle LinkDemo.other_capture ltac:(right; left)) as (H1 & H2 & H3 & H4 & H5).
    destruct (spooled_capture_validates LinkDemo.spool demo_engine LinkDemo.other_bundle LinkDemo.other_capture 1 510
      (λ _, true) (λ _, true) H1 H2 H3 H4 ltac:(lia) H5) as [H _].
    rewrite H. replace (linked_networks LinkDemo.other_bundle) with false by (vm_compute; reflexivity). reflexivity.
Defined.

Lemma alone_respects (n : nat) (s : MemoryStore) (v : View) : represents s v → ∃ v', represents (alone n s) v' ∧ engine_rely v v'.
Proof. intros Hrep. exists v. split; [exact Hrep|]. split; reflexivity. Qed.
Lemma alone_handoff (n : nat) (s : MemoryStore) (v : View) : represents s v → ∃ v', represents (alone n s) v' ∧ handoff_rely v v'.
Proof. intros Hrep. exists v. by split. Qed.

(** The run: the first bundle is staged and the capture admitted. *)
Definition demo_staged : nat * MemoryStore := (stage_bundle alone demo_engine LinkDemo.bundle1 500 (0%nat, ∅)).2.
Definition demo_admitted : result AdmissionError CaptureAdmission * (nat * MemoryStore) :=
  admit_capture alone demo_engine LinkDemo.spooled 510 demo_staged.

Lemma capture_answer_final_witness :
  ∃ adm w w', demo_admitted = (Ok adm, w) ∧ adm.(ca_receipt).(gcr_outcome) = CAPTURE_OUTCOME_ACCEPTED ∧
    admit_capture alone demo_engine LinkDemo.spooled 600 w = (Ok (mkCaptureAdmission adm.(ca_receipt) adm.(ca_accepted_share_id) true), w').
Proof.
  destruct (well_keyed_view demo_staged.2 ltac:(vm_compute; reflexivity)) as [v Hrep].
  assert (engine_typed demo_engine LinkDemo.spooled 510) as Ht by (unfold engine_typed, uint; repeat split; by vm_compute).
  destruct (capture_answer_final alone alone_handoff demo_engine LinkDemo.spooled 510 demo_staged.1 demo_staged.2 v Ht Hrep)
    as (r & n1 & s1 & v1 & E & Hrep1 & _ & Hr).
  rewrite <- surjective_pairing in E. assert (demo_admitted = (r, (n1, s1))) as E1 by (unfold demo_admitted; exact E). clear E.
  assert (match demo_admitted.1 with Ok adm => adm.(ca_receipt).(gcr_outcome) =? CAPTURE_OUTCOME_ACCEPTED | Err _ => false end = true) as Hok
    by (vm_compute; reflexivity).
  rewrite E1 in Hok. destruct r as [adm|]; [|discriminate Hok]. cbn [fst] in Hok. apply Z.eqb_eq in Hok.
  destruct (Hr adm eq_refl) as (_ & _ & Hagain). destruct (Hagain 600 v1 n1 s1 ltac:(reflexivity) Hrep1) as [w' E'].
  exists adm, (n1, s1), w'. split; [exact E1|]. split; [exact Hok|exact E'].
Defined.

(** The second bundle is staged, and a transition with no signature is submitted at 970. *)
Definition demo_next : nat * MemoryStore := (stage_bundle alone demo_engine LinkDemo.bundle2 520 demo_admitted.2).2.
Definition demo_drain : GatewayAssignmentDrainV1 * GatewayAssignmentTransitionV1 := Eval vm_compute in
  match build_drain_and_transition LinkDemo.bundle1 LinkDemo.bundle2
    (mkGatewaySequenceHeadV1 (object_id LinkDemo.bundle1.(bu_assignment)) 1 (object_id LinkDemo.spooled)) LinkDemo.gateway 960 with
  | Ok p => p
  | Err _ => (Demo.drain, Demo.transition)
  end.
Definition demo_broken : nat * MemoryStore :=
  (complete_pending_transition alone demo_engine demo_drain.1 (strip_GatewayAssignmentTransitionV1 demo_drain.2) 970 demo_next).2.

Definition row_is (m : MemoryStore) (key : bytes * bytes) (x : bytes) : bool := bool_decide (m !! flat_key key = Some x).
Lemma row_is_view (m : MemoryStore) (v : View) (key : bytes * bytes) x :
  represents m v → bool_decide (x00 ∈ key.1) || bool_decide (x00 ∈ key.2) = false → row_is m key x = true → v !! key = Some x.
Proof. destruct key as [ns k]. intros Hrep Hk Hrow%bool_decide_eq_true. by rewrite (view_row m). Qed.

(** The transition succeeds from the staged state; after the failed attempt the receipt is there. *)
Definition demo_first_receipt : CoreAssignmentDrainReceiptV1 := Eval vm_compute in
  signed_drain_receipt demo_engine LinkDemo.bundle1 LinkDemo.bundle2 demo_drain.1 970.
Definition demo_broken_rows (m : MemoryStore) : bool :=
  row_is m (CORE_BUNDLE_STATE_NAMESPACE, CORE_BUNDLE_ACTIVE_KEY) (object_id LinkDemo.bundle1) &&
  row_is m (CORE_BUNDLE_NAMESPACE, hex_encode (object_id LinkDemo.bundle1)) (to_canonical_bytes LinkDemo.bundle1) &&
  row_is m (record_key KindCoreAssignmentDrainReceipt (object_id LinkDemo.bundle1.(bu_assignment))) (to_canonical_bytes demo_first_receipt).
Lemma demo_transition_runs :
  is_ok (complete_pending_transition alone demo_engine demo_drain.1 demo_drain.2 970 demo_next).1 = true ∧
  well_keyed demo_broken.2 = true ∧ demo_broken_rows demo_broken.2 = true.
Proof.
  assert ((let next := demo_next in
    let m := (complete_pending_transition alone demo_engine demo_drain.1 (strip_GatewayAssignmentTransitionV1 demo_drain.2) 970 next).2.2 in
    is_ok (complete_pending_transition alone demo_engine demo_drain.1 demo_drain.2 970 next).1 && well_keyed m && demo_broken_rows m) = true) as H
    by (vm_compute; reflexivity).
  cbv zeta in H. apply andb_true_iff in H as [H H3]. apply andb_true_iff in H as [H1 H2]. exact (conj H1 (conj H2 H3)).
Qed.
Lemma demo_receipt_at (m : MemoryStore) (v : View) : represents m v → demo_broken_rows m = true → receipt_at 970 LinkDemo.bundle1 v.
Proof.
  intros Hrep Hrows. unfold demo_broken_rows in Hrows. apply andb_true_iff in Hrows as [Hrows H3]. apply andb_true_iff in Hrows as [H1 H2].
  apply (row_is_view _ _ _ _ Hrep) in H1, H2, H3; [|vm_compute; reflexivity..]. split.
  - exists (to_canonical_bytes LinkDemo.bundle1). split; [exact H1|]. split; [exact H2|]. vm_compute. reflexivity.
  - exists (to_canonical_bytes demo_first_receipt), demo_first_receipt. split; [exact H3|]. split; vm_compute; reflexivity.
Qed.

Lemma interrupted_transition_stuck_witness :
  is_ok (complete_pending_transition alone demo_engine demo_drain.1 demo_drain.2 970 demo_next).1 = true ∧
  ∃ e w, complete_pending_transition alone demo_engine demo_drain.1 demo_drain.2 971 demo_broken = (Err e, w).
Proof.
  destruct demo_transition_runs as (Hok & Hkeys & Hrows). split; [exact Hok|]. destruct (well_keyed_view _ Hkeys) as [v Hrep].
  pose proof (demo_receipt_at _ v Hrep Hrows) as Hv.
  assert (uint 8 demo_engine.(en_network_id)) as Hnet by (repeat split; by vm_compute).
  assert (typed_drain demo_drain.1) as Hd by (repeat split; by vm_compute).
  assert (uint 64 971) as Hnow by (repeat split; by vm_compute).
  destruct (interrupted_transition_stuck alone alone_respects demo_engine Hnet 970 LinkDemo.bundle1 demo_drain.1 demo_drain.2 971 v Hv ltac:(lia)
    Hd Hnow demo_broken.1 demo_broken.2 Hrep) as (r & n' & s' & v' & E & _ & _ & e & ->).
  exists e, (n', s'). rewrite <- surjective_pairing in E. exact E.
Defined.
End AdmissionWitness.
